(* ===== verification/_CoqProject ===== *)
-Q . S2P
Prelude.v
Base64.v
Digest.v
Md5.v
Sha1.v
Buffer.v
TrieAC.v
BinaryHeap.v
LinkedHeap.v
TimerQueue.v
ShmRing.v
ShmBuffer.v
ShmChannel.v
Network.v
Stream.v
Http.v
Websocket.v
ProtoUtils.v
GateMaster.v
AwaiterList.v
Cancellation.v
Awaiting.v
Mutex.v
ConditionVariable.v
ParallelTask.v
RpcSystem.v
Gate.v
Proxy.v
Sender.v
GateConnector.v
Login.v
LogFlags.v
LogFormatter.v
FileAppender.v
LogSystem.v
Toml.v
LogConfig.v
MpscQueue.v
Center.v
Database.v
DbProxy.v
Scheduler.v
AsyncSession.v
SocketSystem.v
StreamSocket.v
Frames.v
ThreadPool.v
KcpConfig.v
KcpServer.v
KcpClient.v
Application.v
