(* ===== verification/Prelude.v ===== *)
(** * A verification library for "simple"

    The program is a C++20 runtime of coroutines (src/runtime/) and a game
    server written on it (src/gobang/). The runtime has a scheduler thread that
    resumes coroutines, a socket thread (asio, OpenSSL, kcp), a thread that
    polls shared memory, and libraries for byte buffers, digests, HTTP and
    WebSocket. The game server is a set of services. The services of a machine
    talk to one gate through shared-memory channels; gates talk to each other
    over sockets and find each other through a gate master; players connect to
    proxies over WebSocket.

    ** Parts

    Utilities, each against an independent specification.
    - Base64, Digest, Md5, Sha1: src/runtime/src/utils/crypt.cpp. The digests
      equal RFC 1321 and FIPS 180-1 for any cutting of the input into updates,
      the keyed ones RFC 2104; base64 is RFC 4648 and decodes back.
    - Buffer: include/simple/containers/buffer.hpp. A [memory_buffer] refines a
      byte queue with headroom and never leaves its block.
    - TrieAC: src/utils/trie_ac.cpp. [in_trie] finds exactly the occurrences of
      the patterns and [replace] stars exactly the bytes they cover.
    - BinaryHeap has the lemmas on the order of a heap in a list. TimerQueue:
      src/containers/time_queue.cpp. The heap holds the timers added and not
      removed, with the positions the nodes remember. LinkedHeap:
      include/simple/containers/heap.hpp, the same tree by pointers, which
      refines a set that gives its least element.
    - MpscQueue: src/containers/queue.cpp, the lock-free queue of many producers
      and one consumer, one atomic access at a time. Every node pushed comes out
      once and in the order of the exchanges, and the consumer reaches it.

    Shared memory: ShmBuffer (src/shm/shm_buffer.cpp) refines a bounded byte
    queue; it is an instance of the class of ShmRing, against which ShmChannel
    (src/shm/shm_channel.cpp, shm_channel_select.cpp) is proved to carry whole
    messages in order; Sender (src/gobang/gate/local_service.cpp,
    src/gobang/kernel/gate_connector.cpp) adds the queue for the messages that
    find no room and its coroutine: nothing is lost or overtaken, and everything
    arrives if the other end reads.

    Coroutines: Cancellation (src/coro/cancellation_*.cpp) and AwaiterList are
    the intrusive lists shared by Mutex and ConditionVariable (src/coro/mutex.cpp,
    condition_variable.cpp), which refine an abstract lock and an abstract
    condition variable; ParallelTask (coro/parallel_task.hpp,
    task_operators.hpp) shows that [when_ready] resumes its waiter once, when no
    task runs any more, and what [&&] and [||] return. Awaiting is the table of
    suspended coroutines with their tokens. Scheduler (src/coro/scheduler.cpp,
    timed_awaiter.cpp) shows that a sleep ends once, by time or by cancellation,
    and that a turn resumes everyone who is due; AsyncSession
    (src/coro/async_session.cpp) that a coroutine that waits for a job of another
    thread is resumed once, and that a job that is done resumes it. ThreadPool
    (src/coro/thread_pool.cpp) runs the jobs: each is called once, and none waits
    for ever while a thread lives.

    Application (src/application/application.cpp, service_loader.cpp) starts the
    program: it reads the tables of Toml, loads the services in their order, calls
    their updates at their intervals, forwards messages to their callbacks and
    releases them. Frames (frame_awaiter.cpp) is the table of the coroutines that
    wait for a frame, and resumes each of them once.

    The log (src/log/): LogFlags and LogFormatter are the patterns of the lines,
    FileAppender the files that lines go to, LogSystem the loggers and the thread
    that writes for the asynchronous ones, LogConfig their configuration. A line
    is what its pattern says, asynchronous lines are those of synchronous
    loggers in the same order, and the files hold every line.

    Network and protocols: Network (src/coro/network.cpp) is the table of
    sockets with the handlers of the socket thread and the reading operations;
    its theorems make a connection the sequence of its bytes, as Stream takes
    it for Http (src/web/http.cpp) and Websocket (src/web/websocket.cpp):
    grammars, round trips, termination. Under them SocketSystem
    (include/simple/net/socket_types.h, src/net/socket_system.cpp) gives out the
    numbers of the sockets, and StreamSocket (socket_system.cpp and the TCP and
    TLS sockets of src/net/impl/) is the socket thread: what is sent arrives in
    order, all of it while no write fails, and a socket is announced
    and ends at most once. The kcp sockets are KcpConfig (src/net/impl/kcp_config.h,
    with what the two ends share), KcpServer (kcp_server_impl.cpp,
    kcp_session_impl.cpp) and KcpClient (kcp_client_impl.cpp): sessions begin,
    read and end in order, silence ends them, a client feeds ikcp in the order of
    its writes.

    The game server: ProtoUtils (src/gobang/kernel/proto_utils.cpp) frames
    messages; GateMaster (gate_master/gate_master.cpp) keeps the registry; Gate
    (gate/) routes, keeps connections and subscriptions, and follows the master;
    RpcSystem (kernel/proto_rpc.cpp) matches replies to calls; GateConnector
    (kernel/gate_connector.cpp) is the services' end of a gate; Proxy
    (proxy/proxy.cpp) keeps the players' connections; Login (login/login.cpp)
    logs them in. Center (center/center.cpp) keeps the accounts in shared memory
    and frees exactly the slots that are old and saved. DbProxy
    (db_proxy/db_proxy.cpp) writes the updates of a user to the database in the
    order in which they came and answers the queries; Database is the class of
    what it asks of MongoDB.

    ** How they interact

    - ShmChannel knows a ring by the operations and laws of [ByteRing] only;
      Sender instantiates it with [shm_buffer], both ends sharing the rings.
    - Mutex, ConditionVariable and RpcSystem run on the same model of
      cancellation and of the scheduler's list of coroutines to resume.
    - Gate hands a message to a service ([Write]); Sender is what the service's
      end does with it. GateConnector reads the other end of the channel.
    - [GateConnector.connector_table_current] puts the gate and a subscriber
      together; [GateConnector.player_reply_delivered] and
      [Login.login_completes] follow a message through ProtoUtils, Gate's
      destination test, GateConnector and Proxy.
    - Login takes the answer of a call with a timeout to be what [operator||]
      of ParallelTask returns.
    - StreamSocket's effects [HandStart], [HandAccept], [HandRead] and [HandStop]
      are the events of the handlers of Network, and the calls of Network on
      the socket system are StreamSocket's operations; its numbers are those of
      SocketSystem.
    - KcpServer and KcpClient know ikcp by the class [Kcp] and its laws [KcpLaws]
      only; KcpConfig has an instance for the witnesses. Their effects are those
      of StreamSocket, and KcpServer takes its numbers from SocketSystem.
    - Frames runs on Cancellation and its resumptions are turns of Scheduler;
      LogConfig and Application read the same tables of Toml. The jobs of
      AsyncSession and DbProxy are functions of ThreadPool.
    - Scheduler runs on the operations and the invariant of TimerQueue; Scheduler
      and AsyncSession share Awaiting, so both are cancelled the same way.
    - DbProxy knows the database by the operations and laws of [Database] and
      [DatabaseLaws] only; Database has an instance in memory for the witnesses.
      Its steps that resume a coroutine when a job is done are what
      [AsyncSession.finished_sessions_resume] gives.
    - A logger of LogSystem writes lines with LogFormatter, over the flags of
      LogFlags, to consoles or to the files of FileAppender; LogConfig calls the
      operations of LogSystem. The queue of the writer is first in first out,
      which is what MpscQueue shows of the code behind it.

    ** Conventions

    A w-bit integer is a [Z] with the wrap-around written where the code
    performs it; bytes are lists of [Z]. A C++ pointer to a shared object is the
    number of the object in an explicit store. [None] is undefined behaviour of
    the code - an index out of range, a dangling pointer, a null handle - unless
    a file says otherwise, and the theorems show where it cannot happen. A
    coroutine is cut at its suspensions; the scheduler, the other threads and
    the network decide what happens next, so a history is a list of events or
    operations and the theorems hold for every list. What is sent is an output
    of the step that sends it.

    Of other people's code the theorems use what it documents, each where its
    comment says so: that [async_write] takes all of its buffers or reports an
    error, that closing a socket completes what is pending on it with an error,
    that a wait completes with an error only when it was cancelled (one that has
    expired may still complete without one afterwards), that fmt writes decimal
    numbers, the laws [KcpLaws] and [DatabaseLaws], and that the clocks that are
    steady do not go back.

    Recursion that is not structural has fuel: the number of nodes for the
    automaton (TrieAC), the heaps (TimerQueue, LinkedHeap) and the intrusive lists, the
    length of the input for the parsers, the patterns and the digests, the
    declared or remaining size for bodies and frames. Session numbers are
    distinct for fewer than 2^64 sessions, the numbers of sockets for fewer than
    2^28 of a type. Every such function comes with a
    lemma that this fuel is enough, so results are never conditional on it; the
    one exception is the code's own endless loop ([Websocket.zero_payload_never_ends]).

    Sections share the parameters: protobuf parsing and serialisation, the keys
    and masks drawn at random, the byte order of the host. Where a property
    needs a law of them it is a hypothesis of the theorem, and the witness next
    to the theorem has a concrete function for it.

    ** Theorems

    The doc comment of a property starts with its number (C1, C2, ...). By kind:
    refinement of an abstract object (rings, channels, buffer, mutex, condition
    variable, sender), invariants over all histories (sockets, gate master,
    subscribers, connector's table), safety (exclusion, one login, at most one
    resumption, calls that end once), equivalence with a reference (digests,
    base64, grammars, automaton), round trips, termination, liveness (delivery,
    timers, [notify_all]), errors ([StreamSocket.resolve_failure_unanswered] and
    [KcpClient.bad_ack_strands_client] are two that nobody hears of). Theorems without a number record behaviours that
    surprise, several of them defects: [Gate.late_registration_online],
    [Gate.double_registration], [Mutex.cancelled_owner_loses_lock],
    [ConditionVariable.cv_notification_lost], [ParallelTask.and_hides_failure],
    [Network.kcp_check_failed_strands_reader], [TrieAC.third_session_stale],
    [Sha1.sha1_init_keeps_count], [Websocket.zero_payload_never_ends],
    [Proxy.failed_login_waits], [Login.login_ignores_password],
    [LogFormatter.pattern_tail_lost], [FileAppender.name_comes_twice],
    [LogConfig.no_pattern_no_text], [MpscQueue.returned_push_missed],
    [AsyncSession.early_result_lost], [DbProxy.update_of_nobody],
    [DbProxy.half_created], [StreamSocket.listen_bad_address],
    [StreamSocket.write_failure_ignored], [LogSystem.colors_of_an_old_message],
    [Proxy.login_of_nobody], [Frames.frames_in_a_row], [Frames.late_frame_waits], [Application.awake_blames_another],
    [KcpServer.stale_datagram_ends_session], [KcpServer.late_update_uses_server],
    [KcpServer.anybody_disconnects], [KcpClient.start_after_stop],
    [LinkedHeap.pop_empty_follows_null].

    ** Not modelled

    - The memory ordering between the processes that share a ring and between
      the threads that share the queue: accesses are sequentially consistent,
      and each operation of either side of a ring is one step.
    - asio, OpenSSL, ikcp, protobuf, lz4, TOML and the operating system (shm.cpp,
      os.cpp): other people's code; their calls are effects, events or
      parameters. MongoDB is the class [Database], ikcp the class [Kcp].
    - The statistics of the sockets, and the options of the streams.
    - Starting and joining the threads of the scheduler, the sockets and the
      shared memory.
    - The coroutines' promises and handles: [task], [detached_task], [co_start].
    - The test client, which prints what it receives.
    - The delays of reconnections and pings in the gates and connectors.

    ** What could follow

    The sockets between gates (remote_listener.cpp, remote_connector.cpp), whose
    messages are events of Gate; RpcSystem on Awaiting, whose coroutines it could
    share; one system of StreamSocket and the kcp sockets, which have the table
    and the numbers in common. *)

From Stdlib Require Export ZArith Lia ZifyNat ZifyBool.
From stdpp Require Export base tactics numbers list option.

#[global] Open Scope Z_scope.

(** * Machine words

    A w-bit unsigned integer is a [Z]; the wrap-around of an operation is
    written where the source performs it. *)

Definition u8 (z : Z) : Z := z mod 2 ^ 8.
Definition u16 (z : Z) : Z := z mod 2 ^ 16.
Definition u32 (z : Z) : Z := z mod 2 ^ 32.
Definition u64 (z : Z) : Z := z mod 2 ^ 64.

(** Conversion of an unsigned byte to the signed [char] of the x86/ARM
    compilers the project builds with. *)
Definition s8 (z : Z) : Z := if z <? 128 then z else z - 256.

Definition is_byte (z : Z) : Prop := 0 <= z < 256.
Definition is_u16 (z : Z) : Prop := 0 <= z < 2 ^ 16.
Definition is_u32 (z : Z) : Prop := 0 <= z < 2 ^ 32.
Definition is_u64 (z : Z) : Prop := 0 <= z < 2 ^ 64.

(** A run of memory, a string or a string_view: its bytes in order. *)
Abbreviation bytes := (list Z) (only parsing).

Definition wf_bytes (bs : list Z) : Prop := Forall is_byte bs.

(** * Automation *)

Create HintDb simple.
Create Rewrite HintDb simple_len.

Lemma u8_range z : is_byte (u8 z).
Proof. unfold u8, is_byte. apply Z.mod_pos_bound. lia. Qed.

Lemma u16_range z : is_u16 (u16 z).
Proof. apply Z.mod_pos_bound. lia. Qed.

Lemma u32_range z : is_u32 (u32 z).
Proof. apply Z.mod_pos_bound. lia. Qed.

Lemma u64_range z : is_u64 (u64 z).
Proof. apply Z.mod_pos_bound. lia. Qed.

Lemma u8_small z : is_byte z -> u8 z = z.
Proof. apply Z.mod_small. Qed.

Lemma u16_small z : is_u16 z -> u16 z = z.
Proof. apply Z.mod_small. Qed.

Lemma u32_small z : is_u32 z -> u32 z = z.
Proof. apply Z.mod_small. Qed.

Lemma u64_small z : is_u64 z -> u64 z = z.
Proof. apply Z.mod_small. Qed.

#[export] Hint Resolve u8_range u16_range u32_range u64_range : simple.

(** [word] unfolds the word predicates and calls [lia]. *)
Ltac word := unfold is_byte, is_u16, is_u32, is_u64, u8, u16, u32, u64 in *; lia.

(** [divlia]: linear arithmetic with quotients and remainders by constants. *)
Ltac divlia := zify; Z.to_euclidean_division_equations; lia.

(** [modlia]: [divlia] with the word operations unfolded. *)
Ltac modlia :=
  unfold is_byte, is_u16, is_u32, is_u64, u8, u16, u32, u64 in *;
  change (2 ^ 8) with 256 in *; change (2 ^ 16) with 65536 in *;
  change (2 ^ 32) with 4294967296 in *; change (2 ^ 64) with 18446744073709551616 in *;
  divlia.

(** [inv_wf H] splits a well-formedness fact about a list display. *)
Ltac inv_wf H := unfold wf_bytes in H; rewrite ?Forall_cons_iff in H; destruct_and? H.

(** [cons_eq] splits an equation between list displays into its elements. *)
Ltac cons_eq :=
  repeat match goal with
         | |- _ :: _ = _ :: _ => apply (f_equal2 cons)
         | |- @nil _ = @nil _ => reflexivity
         end.

(** * Bit fields *)

Lemma lor_mul_pow2 a b n : 0 <= n -> 0 <= b < 2 ^ n -> Z.lor (a * 2 ^ n) b = a * 2 ^ n + b.
Proof.
  intros Hn Hb. assert (Z.land (a * 2 ^ n) b = 0) as E.
  { apply Z.bits_inj'. intros i Hi. rewrite Z.land_spec, Z.bits_0. destruct (Z.ltb_spec i n).
    - by rewrite Z.mul_pow2_bits_low by lia.
    - rewrite <- (Z.mod_small b (2 ^ n)) by done. rewrite Z.mod_pow2_bits_high by lia. apply andb_false_r. }
  rewrite <- Z.lxor_lor by done. symmetry. by apply Z.add_nocarry_lxor.
Qed.

(** * Exhaustive checks over a byte *)

Definition all_bytes : list Z := Z.of_nat <$> seq 0 256.

Lemma elem_of_all_bytes x : is_byte x -> x ∈ all_bytes.
Proof.
  intros Hx. apply list_elem_of_fmap. exists (Z.to_nat x).
  split; [word|]. apply elem_of_seq. word.
Qed.

(** A decidable fact about one byte follows from checking the 256 values. *)
Lemma byte_check (f : Z -> bool) :
  forallb f all_bytes = true -> forall x, is_byte x -> f x = true.
Proof.
  intros H x Hx. rewrite forallb_forall in H. apply H.
  apply list_elem_of_In, elem_of_all_bytes, Hx.
Qed.

(** [byte_cases x] proves a goal [f x = g x] on [Z] for a byte [x]. *)
Ltac byte_cases x :=
  match goal with
  | |- ?l = ?r =>
      let f := eval pattern x in (Z.eqb l r) in
      match f with
      | ?g _ => apply Z.eqb_eq; apply (byte_check g); [vm_compute; reflexivity | try assumption]
      end
  end.

(** * Lists indexed by [Z] *)

Definition zlen {A} (l : list A) : Z := Z.of_nat (length l).

Definition ztake {A} (n : Z) (l : list A) : list A := take (Z.to_nat n) l.

Definition zdrop {A} (n : Z) (l : list A) : list A := drop (Z.to_nat n) l.

Definition zrep {A} (n : Z) (x : A) : list A := replicate (Z.to_nat n) x.

Section zlists.
Context {A : Type}.
Implicit Types (l : list A) (n m : Z).

Lemma zlen_nonneg l : 0 <= zlen l.
Proof. unfold zlen. lia. Qed.

Lemma zlen_nil : zlen (@nil A) = 0.
Proof. done. Qed.

Lemma zlen_cons x l : zlen (x :: l) = 1 + zlen l.
Proof. unfold zlen. simpl. lia. Qed.

Lemma zlen_app l1 l2 : zlen (l1 ++ l2) = zlen l1 + zlen l2.
Proof. unfold zlen. rewrite length_app. lia. Qed.

Lemma zlen_zero_inv l : zlen l = 0 -> l = [].
Proof. destruct l; unfold zlen; simpl; [done|lia]. Qed.

Lemma zlen_ztake n l : 0 <= n -> zlen (ztake n l) = Z.min n (zlen l).
Proof. unfold zlen, ztake. rewrite length_take. lia. Qed.

Lemma zlen_zdrop n l : 0 <= n -> zlen (zdrop n l) = Z.max 0 (zlen l - n).
Proof. unfold zlen, zdrop. rewrite length_drop. lia. Qed.

Lemma zlen_zrep n (x : A) : 0 <= n -> zlen (zrep n x) = n.
Proof. unfold zlen, zrep. rewrite length_replicate. lia. Qed.

Lemma ztake_zdrop n l : ztake n l ++ zdrop n l = l.
Proof. apply take_drop. Qed.

Lemma ztake_ge n l : zlen l <= n -> ztake n l = l.
Proof. unfold zlen, ztake. intros. apply take_ge. lia. Qed.

Lemma zdrop_ge n l : zlen l <= n -> zdrop n l = [].
Proof. unfold zlen, zdrop. intros. apply drop_ge. lia. Qed.

Lemma ztake_0 l : ztake 0 l = [].
Proof. done. Qed.

Lemma zdrop_0 l : zdrop 0 l = l.
Proof. done. Qed.

Lemma ztake_app_le n l1 l2 : n <= zlen l1 -> ztake n (l1 ++ l2) = ztake n l1.
Proof. unfold zlen, ztake. intros. apply take_app_le. lia. Qed.

Lemma ztake_app_ge n l1 l2 :
  zlen l1 <= n -> ztake n (l1 ++ l2) = l1 ++ ztake (n - zlen l1) l2.
Proof.
  unfold zlen, ztake. intros. rewrite take_app_ge by lia.
  do 2 f_equal. lia.
Qed.

Lemma ztake_app_length l1 l2 : ztake (zlen l1) (l1 ++ l2) = l1.
Proof. rewrite ztake_app_le by lia. apply ztake_ge. lia. Qed.

Lemma zdrop_app_le n l1 l2 : n <= zlen l1 -> zdrop n (l1 ++ l2) = zdrop n l1 ++ l2.
Proof. unfold zlen, zdrop. intros. apply drop_app_le. lia. Qed.

Lemma zdrop_app_ge n l1 l2 :
  zlen l1 <= n -> zdrop n (l1 ++ l2) = zdrop (n - zlen l1) l2.
Proof.
  unfold zlen, zdrop. intros. rewrite drop_app_ge by lia. f_equal. lia.
Qed.

Lemma zdrop_app_length l1 l2 : zdrop (zlen l1) (l1 ++ l2) = l2.
Proof. rewrite zdrop_app_le by lia. by rewrite zdrop_ge by lia. Qed.

Lemma zdrop_zdrop n m l : 0 <= n -> 0 <= m -> zdrop n (zdrop m l) = zdrop (m + n) l.
Proof. unfold zdrop. intros. rewrite drop_drop. f_equal. lia. Qed.

Lemma ztake_app_plus n l1 l2 m :
  0 <= n <= zlen l1 -> 0 <= m -> ztake (n + m) (l1 ++ l2) = ztake n l1 ++ ztake m (zdrop n l1 ++ l2).
Proof.
  intros Hn Hm. rewrite <- (zdrop_app_le n l1 l2) by lia. rewrite <- (ztake_app_le n l1 l2) by lia.
  unfold ztake, zdrop. rewrite take_take_drop. f_equal. lia.
Qed.

Lemma zdrop_app_plus n l1 l2 m :
  0 <= n <= zlen l1 -> 0 <= m -> zdrop (n + m) (l1 ++ l2) = zdrop m (zdrop n l1 ++ l2).
Proof.
  intros Hn Hm. rewrite <- (zdrop_app_le n l1 l2) by lia. rewrite zdrop_zdrop by lia. done.
Qed.

Lemma ztake_ztake n m l : 0 <= n -> ztake n (ztake m l) = ztake (Z.min n m) l.
Proof. unfold ztake. intros. rewrite take_take. f_equal. lia. Qed.

Lemma zdrop_ztake n m l : 0 <= n <= m -> zdrop n (ztake m l) = ztake (m - n) (zdrop n l).
Proof.
  unfold zdrop, ztake. intros. rewrite skipn_firstn_comm. f_equal. lia.
Qed.
End zlists.

#[export] Hint Rewrite @zlen_nil @zlen_cons @zlen_app : simple_len.
#[export] Hint Rewrite @zlen_ztake @zlen_zdrop @zlen_zrep using lia : simple_len.

(** * Memory

    A block of memory is the list of its bytes. [load] and [store] are
    [memcpy]/[memmove] out of and into a block; [None] is an access outside
    the block, which the source must never make. *)

Definition load (m : list Z) (off n : Z) : option (list Z) :=
  if (0 <=? off) && (0 <=? n) && (off + n <=? zlen m)
  then Some (ztake n (zdrop off m)) else None.

Definition store (m : list Z) (off : Z) (bs : list Z) : option (list Z) :=
  if (0 <=? off) && (off + zlen bs <=? zlen m)
  then Some (ztake off m ++ bs ++ zdrop (off + zlen bs) m) else None.

Lemma load_ok m off n :
  0 <= off -> 0 <= n -> off + n <= zlen m -> load m off n = Some (ztake n (zdrop off m)).
Proof.
  intros. unfold load. rewrite (proj2 (Z.leb_le 0 off)), (proj2 (Z.leb_le 0 n)) by done.
  by rewrite (proj2 (Z.leb_le (off + n) _)).
Qed.

(** What [store] leaves: the written bytes at [off], every other byte as it
    was. *)
Record stored (m : list Z) (off : Z) (bs m' : list Z) : Prop := Stored {
  stored_len : zlen m' = zlen m;
  stored_here : ztake (zlen bs) (zdrop off m') = bs;
  stored_before : forall k, k <= off -> ztake k m' = ztake k m;
  stored_after : forall k, off + zlen bs <= k -> zdrop k m' = zdrop k m }.

Lemma store_ok m off bs :
  0 <= off -> off + zlen bs <= zlen m -> exists m', store m off bs = Some m' /\ stored m off bs m'.
Proof.
  intros Ho Hl. unfold store. rewrite (proj2 (Z.leb_le 0 off)) by done.
  rewrite (proj2 (Z.leb_le (off + zlen bs) _)) by done. eexists. split; [done|].
  pose proof (zlen_nonneg bs). assert (zlen (ztake off m) = off) as Hto by (rewrite zlen_ztake; lia).
  split.
  - rewrite !zlen_app, zlen_zdrop by lia. lia.
  - rewrite zdrop_app_ge by lia. rewrite Hto, Z.sub_diag, zdrop_0. apply ztake_app_length.
  - intros k Hk. rewrite ztake_app_le by lia. unfold ztake. rewrite take_take. f_equal. lia.
  - intros k Hk. rewrite zdrop_app_ge, zdrop_app_ge by lia. rewrite zdrop_zdrop by lia. f_equal. lia.
Qed.

(** Split a byte run in two. *)
Lemma ztake_add n m (l : list Z) :
  0 <= n -> 0 <= m -> ztake (n + m) l = ztake n l ++ ztake m (zdrop n l).
Proof.
  intros. unfold ztake, zdrop. rewrite Z2Nat.inj_add by done. by rewrite take_take_drop.
Qed.

(** The bytes [a..b) of a block. *)
Definition slice (m : list Z) (a b : Z) : list Z := ztake (b - a) (zdrop a m).

Lemma zlen_slice m a b : 0 <= a <= b -> b <= zlen m -> zlen (slice m a b) = b - a.
Proof. intros. unfold slice. rewrite zlen_ztake, zlen_zdrop by lia. lia. Qed.

Lemma slice_app m a b c : 0 <= a <= b -> b <= c -> slice m a c = slice m a b ++ slice m b c.
Proof.
  intros. unfold slice. replace (c - a) with ((b - a) + (c - b)) by lia.
  rewrite ztake_add, zdrop_zdrop by lia. do 3 f_equal. lia.
Qed.

Lemma slice_nil m a : slice m a a = [].
Proof. unfold slice. by rewrite Z.sub_diag. Qed.

Lemma slice_ext_before m m' off a b :
  (forall k, k <= off -> ztake k m' = ztake k m) -> 0 <= a <= b -> b <= off ->
  slice m' a b = slice m a b.
Proof. intros H Ha Hb. unfold slice. rewrite <- !zdrop_ztake by lia. by rewrite H. Qed.

Lemma slice_ext_after m m' off a b :
  (forall k, off <= k -> zdrop k m' = zdrop k m) -> off <= a -> slice m' a b = slice m a b.
Proof. intros H Ha. unfold slice. by rewrite H. Qed.

Lemma slice_stored m off bs m' : stored m off bs m' -> slice m' off (off + zlen bs) = bs.
Proof. intros Hs. unfold slice. replace (off + zlen bs - off) with (zlen bs) by lia. apply Hs. Qed.

Lemma stored_slice_before m off bs m' a b :
  stored m off bs m' -> 0 <= a <= b -> b <= off -> slice m' a b = slice m a b.
Proof. intros Hs. apply slice_ext_before, (stored_before _ _ _ _ Hs). Qed.

Lemma stored_slice_after m off bs m' a b :
  stored m off bs m' -> off + zlen bs <= a -> slice m' a b = slice m a b.
Proof. intros Hs. apply slice_ext_after, (stored_after _ _ _ _ Hs). Qed.

Lemma zdrop_slice m a b n : 0 <= a -> 0 <= n <= b - a -> zdrop n (slice m a b) = slice m (a + n) b.
Proof. intros. unfold slice. rewrite zdrop_ztake, zdrop_zdrop by lia. f_equal. lia. Qed.

Lemma ztake_slice m a b n : 0 <= n <= b - a -> ztake n (slice m a b) = slice m a (a + n).
Proof. intros. unfold slice. rewrite ztake_ztake by lia. f_equal. lia. Qed.

(** * Indexing with a machine integer

    [None] is an index out of range, which is undefined behaviour of
    [operator[]]. *)

Definition znth {A} (l : list A) (i : Z) : option A :=
  if i <? 0 then None else l !! Z.to_nat i.

Definition zset {A} (l : list A) (i : Z) (x : A) : option (list A) :=
  if (0 <=? i) && (i <? zlen l) then Some (<[Z.to_nat i := x]> l) else None.

Lemma znth_nat {A} (l : list A) (k : nat) : znth l (Z.of_nat k) = l !! k.
Proof.
  unfold znth. destruct (Z.ltb_spec (Z.of_nat k) 0); [lia|]. by rewrite Nat2Z.id.
Qed.

Lemma zset_nat {A} (l : list A) (k : nat) x :
  (k < length l)%nat -> zset l (Z.of_nat k) x = Some (<[k := x]> l).
Proof.
  intros Hk. unfold zset, zlen. rewrite (proj2 (Z.leb_le 0 _)), (proj2 (Z.ltb_lt _ _)) by lia.
  cbn. by rewrite Nat2Z.id.
Qed.

Lemma znth_lt {A} (l : list A) (i : Z) : 0 <= i < zlen l -> exists x, znth l i = Some x.
Proof.
  intros Hi. unfold znth. destruct (Z.ltb_spec i 0); [lia|].
  apply lookup_lt_is_Some_2. unfold zlen in Hi. lia.
Qed.

(** * Bytes by position *)

(** The byte at index [i], with a default outside the block. *)
Definition zget (l : list Z) (i : Z) : Z := nth (Z.to_nat i) l 0.

Definition tabulate (n : Z) (f : Z -> Z) : list Z := (fun i => f (Z.of_nat i)) <$> seq 0 (Z.to_nat n).

#[global] Arguments zget : simpl never.
#[global] Arguments tabulate : simpl never.

Lemma zlen_tabulate n f : 0 <= n -> zlen (tabulate n f) = n.
Proof. intros. unfold tabulate, zlen. rewrite length_fmap, length_seq. lia. Qed.

Lemma zget_tabulate n f i : 0 <= i < n -> zget (tabulate n f) i = f i.
Proof.
  intros Hi. unfold zget, tabulate. rewrite nth_lookup, list_lookup_fmap, lookup_seq_lt by lia.
  cbn. f_equal. lia.
Qed.

Lemma zget_app l1 l2 i :
  0 <= i -> zget (l1 ++ l2) i = if i <? zlen l1 then zget l1 i else zget l2 (i - zlen l1).
Proof.
  intros Hi. unfold zget, zlen. destruct (Z.ltb_spec i (Z.of_nat (length l1))).
  - apply app_nth1. lia.
  - rewrite app_nth2 by lia. f_equal. lia.
Qed.

Lemma zget_ztake n l i : 0 <= i < n -> zget (ztake n l) i = zget l i.
Proof.
  intros Hi. unfold zget, ztake. rewrite !nth_lookup. f_equal. apply lookup_take_lt. lia.
Qed.

Lemma zget_zdrop n l i : 0 <= n -> 0 <= i -> zget (zdrop n l) i = zget l (n + i).
Proof.
  intros Hn Hi. unfold zget, zdrop. rewrite !nth_lookup, lookup_drop. do 2 f_equal. lia.
Qed.

Lemma zget_eq l1 l2 :
  zlen l1 = zlen l2 -> (forall i, 0 <= i < zlen l1 -> zget l1 i = zget l2 i) -> l1 = l2.
Proof.
  intros Hl H. apply (nth_ext _ _ 0 0); [unfold zlen in Hl; lia|].
  intros n Hn. specialize (H (Z.of_nat n) ltac:(unfold zlen; lia)). unfold zget in H.
  by rewrite Nat2Z.id in H.
Qed.

Lemma zget_stored m off bs m' i :
  0 <= off -> stored m off bs m' -> 0 <= i ->
  zget m' i = if (off <=? i) && (i <? off + zlen bs) then zget bs (i - off) else zget m i.
Proof.
  intros Hoff Hs Hi. destruct (Z.leb_spec off i), (Z.ltb_spec i (off + zlen bs)); cbn [andb].
  - rewrite <- (stored_here _ _ _ _ Hs) at 1. rewrite zget_ztake, zget_zdrop by lia. f_equal. lia.
  - rewrite <- (Z.add_0_r i), <- !(zget_zdrop i) by lia. by rewrite (stored_after _ _ _ _ Hs) by lia.
  - rewrite <- (zget_ztake off m'), <- (zget_ztake off m) by lia.
    by rewrite (stored_before _ _ _ _ Hs) by lia.
  - pose proof (zlen_nonneg bs). lia.
Qed.

Lemma zget_load m off n bs i : load m off n = Some bs -> 0 <= i < n -> zget bs i = zget m (off + i).
Proof.
  unfold load. destruct (_ && _ && _) eqn:E; [|done]. intros [= <-] Hi.
  rewrite zget_ztake, zget_zdrop by lia. done.
Qed.

(** Tests that agree on a list select the same elements. *)
Lemma filter_agree {A} (P Q : A -> Prop) `{!forall a, Decision (P a)} `{!forall a, Decision (Q a)} (l : list A) :
  (forall a, a ∈ l -> P a <-> Q a) -> filter P l = filter Q l.
Proof.
  induction l as [|a l IH]; intros Heq; [done|]. rewrite !list.filter_cons.
  rewrite IH by (intros b Hb; apply Heq; by apply list_elem_of_further).
  destruct (Heq a (list_elem_of_here _ _)). destruct (decide (P a)), (decide (Q a)); tauto || done.
Qed.

Lemma filter_none {A} (P : A -> Prop) `{!forall a, Decision (P a)} (l : list A) :
  Forall (fun a => ~ P a) l -> filter P l = [].
Proof. induction 1 as [|a l Ha _ IH]; [done|]. by rewrite list.filter_cons_False. Qed.

Lemma filter_ext_in {A} (P Q : A -> Prop) `{!forall x, Decision (P x), !forall x, Decision (Q x)} (l : list A) :
  (forall x, x ∈ l -> P x <-> Q x) -> filter P l = filter Q l.
Proof.
  induction l as [|x l IH]; intros Hl; [done|]. rewrite !list.filter_cons. pose proof (Hl x (list_elem_of_here _ _)).
  rewrite IH by (intros y Hy; apply Hl; by apply list_elem_of_further). destruct (decide (P x)), (decide (Q x)); tauto.
Qed.

Lemma filter_true {A} (l : list A) : filter (fun _ => True) l = l.
Proof. induction l as [|a l IH]; [done|]. rewrite list.filter_cons_True by done. by rewrite IH. Qed.

Lemma filter_commute {A} (P Q : A -> Prop) `{!forall a, Decision (P a)} `{!forall a, Decision (Q a)} (l : list A) :
  filter P (filter Q l) = filter Q (filter P l).
Proof. rewrite !list_filter_filter. apply filter_agree. intros a _. tauto. Qed.

Lemma filter_reverse {A} (P : A -> Prop) `{!forall a, Decision (P a)} (l : list A) : filter P (reverse l) = reverse (filter P l).
Proof.
  induction l as [|a l IH]; [done|]. rewrite reverse_cons, list.filter_app, IH, !list.filter_cons.
  destruct (decide (P a)); [by rewrite reverse_cons|]. by rewrite app_nil_r.
Qed.
