(* ===== verification/Base64.v ===== *)
(** Base64 ([base64_encode] and [base64_decode] of
    src/runtime/src/utils/crypt.cpp): the two byte loops as folds over the
    input with the source's local arrays as state, a recursive RFC 4648
    reference, and the round trip between them. *)

From stdpp Require Import strings.
From S2P Require Import Prelude.


(** [base64_chars]: the 64 characters, as byte values. *)
Definition base64_chars : bytes :=
  (fun c => Z.of_N (Ascii.N_of_ascii c)) <$>
    String.list_ascii_of_string "ABCDEFGHIJKLMNOPQRSTUVWXYZabcdefghijklmnopqrstuvwxyz0123456789+/".

Definition base64_char (i : Z) : Z := nth (Z.to_nat i) base64_chars 0.

(** [std::string_view::find(char)]: the first index, or [npos]. *)
Definition npos : Z := 2 ^ 64 - 1.

Fixpoint find_char_from (i : Z) (s : bytes) (c : Z) : Z :=
  match s with
  | [] => npos
  | x :: s' => if x =? c then i else find_char_from (i + 1) s' c
  end.

Definition find_char (s : bytes) (c : Z) : Z := find_char_from 0 s c.

Definition is_base64 (c : Z) : bool :=
  (c =? 43) || ((47 <=? c) && (c <=? 57)) || ((65 <=? c) && (c <=? 90))
  || ((97 <=? c) && (c <=? 122)).

Definition at_ (a : list Z) (i : nat) : Z := nth i a 0.

(** The lambda [char_array_3_to_4] of [base64_encode]. *)
Definition char_array_3_to_4 (a3 : list Z) : list Z :=
  [ u8 (Z.shiftr (Z.land (at_ a3 0) 0xfc) 2);
    u8 (Z.shiftl (Z.land (at_ a3 0) 0x03) 4 + Z.shiftr (Z.land (at_ a3 1) 0xf0) 4);
    u8 (Z.shiftl (Z.land (at_ a3 1) 0x0f) 2 + Z.shiftr (Z.land (at_ a3 2) 0xc0) 6);
    u8 (Z.land (at_ a3 2) 0x3f) ].

(** Locals of [base64_encode]: the index [i], [char_array_3] and [output]. *)
Record enc_state := EncState { enc_i : nat; enc_a3 : list Z; enc_out : bytes }.

(** One turn of the loop [for (const auto& ch : input)]. *)
Definition enc_step (st : enc_state) (ch : Z) : enc_state :=
  let a3 := <[enc_i st := ch]> (enc_a3 st) in
  let i := S (enc_i st) in
  if (i =? 3)%nat
  then EncState 0 a3 (enc_out st ++ (base64_char <$> char_array_3_to_4 a3))
  else EncState i a3 (enc_out st).

(** The code after the loop: the last partial group and its padding. *)
Definition enc_finish (st : enc_state) : bytes :=
  let i := enc_i st in
  if (i =? 0)%nat then enc_out st
  else
    let a3 := foldl (fun a j => <[j := 0]> a) (enc_a3 st) (seq i (3 - i)) in
    enc_out st ++ (base64_char <$> take (S i) (char_array_3_to_4 a3))
      ++ replicate (3 - i) 61.

(** [char_array_3] is uninitialised in the source; no entry is read before it
    is written, and the start value [0; 0; 0] stands for whatever it holds. *)
Definition base64_encode (input : bytes) : bytes :=
  enc_finish (foldl enc_step (EncState 0 [0; 0; 0] []) input).

(** The six bits a character stands for, as the source computes them. *)
Definition decode_char (c : Z) : Z := u8 (find_char base64_chars c).

(** The lambda [char_array_4_to_3] of [base64_decode]. *)
Definition char_array_4_to_3 (a4 : list Z) : list Z :=
  let a4 := decode_char <$> a4 in
  [ u8 (Z.shiftl (at_ a4 0) 2 + Z.shiftr (Z.land (at_ a4 1) 0x30) 4);
    u8 (Z.shiftl (Z.land (at_ a4 1) 0xf) 4 + Z.shiftr (Z.land (at_ a4 2) 0x3c) 2);
    u8 (Z.shiftl (Z.land (at_ a4 2) 0x3) 6 + at_ a4 3) ].

(** The input loop with its [break] at the first character outside the
    alphabet. *)
Fixpoint dec_loop (input : bytes) (i : nat) (a4 : list Z) (out : bytes) : nat * list Z * bytes :=
  match input with
  | [] => (i, a4, out)
  | ch :: rest =>
      if negb (is_base64 ch) then (i, a4, out)
      else
        let a4 := <[i := ch]> a4 in
        let i := S i in
        if (i =? 4)%nat then dec_loop rest 0 a4 (out ++ char_array_4_to_3 a4)
        else dec_loop rest i a4 out
  end.

(** The code after the loop of [base64_decode]. *)
Definition dec_finish (r : nat * list Z * bytes) : bytes :=
  let '(i, a4, out) := r in
  if (i =? 0)%nat then out
  else
    let a4 := foldl (fun a j => <[j := 0]> a) a4 (seq i (4 - i)) in
    out ++ take (i - 1) (char_array_4_to_3 a4).

Definition base64_decode (input : bytes) : bytes :=
  dec_finish (dec_loop input 0 [0; 0; 0; 0] []).

(** * RFC 4648 reference

    A group of three octets is a 24-bit number whose four base-64 digits are
    printed from the most significant one. *)

Definition sextet (n : Z) (k : Z) : Z := n / 64 ^ k mod 64.

Fixpoint rfc4648 (input : bytes) : bytes :=
  match input with
  | a :: b :: c :: rest =>
      let n := a * 65536 + b * 256 + c in
      base64_char (sextet n 3) :: base64_char (sextet n 2)
        :: base64_char (sextet n 1) :: base64_char (sextet n 0) :: rfc4648 rest
  | [a; b] =>
      let n := a * 65536 + b * 256 in
      [base64_char (sextet n 3); base64_char (sextet n 2); base64_char (sextet n 1); 61]
  | [a] =>
      let n := a * 65536 in
      [base64_char (sextet n 3); base64_char (sextet n 2); 61; 61]
  | [] => []
  end.

(** Induction over the input three octets at a time. *)
Lemma triple_ind (P : bytes -> Prop) :
  P [] -> (forall a, P [a]) -> (forall a b, P [a; b]) ->
  (forall a b c l, P l -> P (a :: b :: c :: l)) -> forall l, P l.
Proof.
  intros H0 H1 H2 H3 l.
  enough (P l /\ (forall a, P (a :: l)) /\ (forall a b, P (a :: b :: l))) by intuition.
  induction l as [|x l (IH0 & IH1 & IH2)]; auto.
Qed.

(** * Bit operations as arithmetic *)

Lemma hi6 a : is_byte a -> Z.shiftr (Z.land a 0xfc) 2 = a / 4.
Proof. intros. byte_cases a. Qed.

Lemma lo2 a : is_byte a -> Z.shiftl (Z.land a 0x03) 4 = a mod 4 * 16.
Proof. intros. byte_cases a. Qed.

Lemma hi4 a : is_byte a -> Z.shiftr (Z.land a 0xf0) 4 = a / 16.
Proof. intros. byte_cases a. Qed.

Lemma lo4 a : is_byte a -> Z.shiftl (Z.land a 0x0f) 2 = a mod 16 * 4.
Proof. intros. byte_cases a. Qed.

Lemma hi2 a : is_byte a -> Z.shiftr (Z.land a 0xc0) 6 = a / 64.
Proof. intros. byte_cases a. Qed.

Lemma lo6 a : is_byte a -> Z.land a 0x3f = a mod 64.
Proof. intros. byte_cases a. Qed.

Lemma byte_0 : is_byte 0.
Proof. unfold is_byte. lia. Qed.

#[export] Hint Resolve byte_0 : simple.

(** The four bytes of [char_array_4] are the sextets of the 24-bit group. *)
Lemma char_array_3_to_4_spec a b c :
  is_byte a -> is_byte b -> is_byte c ->
  char_array_3_to_4 [a; b; c] =
    let n := a * 65536 + b * 256 + c in [sextet n 3; sextet n 2; sextet n 1; sextet n 0].
Proof.
  intros Ha Hb Hc. unfold char_array_3_to_4, at_, sextet, u8; simpl nth.
  rewrite hi6, lo2, hi4, lo4, hi2, lo6 by done. unfold is_byte in *.
  cbv zeta. change (64 ^ 3) with 262144. change (64 ^ 2) with 4096.
  change (64 ^ 1) with 64. change (64 ^ 0) with 1. change (2 ^ 8) with 256.
  cons_eq; divlia.
Qed.

Lemma enc_triple a b c a3 out rest :
  length a3 = 3%nat ->
  foldl enc_step (EncState 0 a3 out) (a :: b :: c :: rest) =
    foldl enc_step
      (EncState 0 [a; b; c] (out ++ (base64_char <$> char_array_3_to_4 [a; b; c]))) rest.
Proof. destruct a3 as [|? [|? [|? [|]]]]; done. Qed.

Lemma enc_ref input : wf_bytes input ->
  forall a3 out, length a3 = 3%nat ->
  enc_finish (foldl enc_step (EncState 0 a3 out) input) = out ++ rfc4648 input.
Proof.
  induction input as [|a|a b|a b c l IH] using triple_ind; intros Hwf a3 out Ha3.
  - simpl. by rewrite app_nil_r.
  - destruct a3 as [|? [|? [|? [|]]]]; try done.
    inv_wf Hwf. unfold enc_finish.
    cbn -[char_array_3_to_4 base64_char].
    rewrite char_array_3_to_4_spec by auto with simple.
    cbv zeta. rewrite Z.add_0_r, Z.mul_0_l, Z.add_0_r. done.
  - destruct a3 as [|? [|? [|? [|]]]]; try done.
    inv_wf Hwf. unfold enc_finish.
    cbn -[char_array_3_to_4 base64_char].
    rewrite char_array_3_to_4_spec by auto with simple.
    cbv zeta. rewrite Z.add_0_r. done.
  - inv_wf Hwf.
    rewrite enc_triple by done. rewrite IH by done.
    rewrite char_array_3_to_4_spec, <- app_assoc by done. done.
Qed.

(** * Decoding *)

Lemma find_base64_char n : 0 <= n < 64 -> find_char base64_chars (base64_char n) = n.
Proof.
  intros Hn.
  assert (forallb (fun k => find_char base64_chars (base64_char k) =? k)
            (Z.of_nat <$> seq 0 64) = true) as H by (vm_compute; reflexivity).
  rewrite forallb_forall in H. apply Z.eqb_eq, H, list_elem_of_In, list_elem_of_fmap.
  exists (Z.to_nat n). split; [lia|]. apply elem_of_seq. lia.
Qed.

Lemma is_base64_char n : 0 <= n < 64 -> is_base64 (base64_char n) = true.
Proof.
  intros Hn.
  assert (forallb (fun k => is_base64 (base64_char k)) (Z.of_nat <$> seq 0 64) = true)
    as H by (vm_compute; reflexivity).
  rewrite forallb_forall in H. apply H, list_elem_of_In, list_elem_of_fmap.
  exists (Z.to_nat n). split; [lia|]. apply elem_of_seq. lia.
Qed.

Lemma sextet_range n k : 0 <= sextet n k < 64.
Proof. apply Z.mod_pos_bound. lia. Qed.

#[export] Hint Resolve sextet_range : simple.

Lemma decode_sextet n k : decode_char (base64_char (sextet n k)) = sextet n k.
Proof.
  pose proof (sextet_range n k).
  unfold decode_char. rewrite find_base64_char by done. apply u8_small. word.
Qed.

Lemma char_array_4_to_3_spec c0 c1 c2 c3 s0 s1 s2 s3 :
  decode_char c0 = s0 -> decode_char c1 = s1 -> decode_char c2 = s2 -> decode_char c3 = s3 ->
  is_byte s0 -> is_byte s1 -> is_byte s2 -> is_byte s3 ->
  char_array_4_to_3 [c0; c1; c2; c3] =
    [ u8 (s0 * 4 + s1 / 16 mod 4); u8 (s1 mod 16 * 16 + s2 / 4 mod 16);
      u8 (s2 mod 4 * 64 + s3) ].
Proof.
  intros E0 E1 E2 E3 H0 H1 H2 H3. unfold char_array_4_to_3.
  cbn [fmap list_fmap at_ nth]. rewrite E0, E1, E2, E3. unfold at_; cbn [nth]. cons_eq; do 2 f_equal.
  - byte_cases s0.
  - byte_cases s1.
  - byte_cases s1.
  - byte_cases s2.
  - byte_cases s2.
Qed.

Lemma sextet_byte n k : is_byte (sextet n k).
Proof. pose proof (sextet_range n k). word. Qed.

Lemma decode_nul : decode_char 0 = 255.
Proof. reflexivity. Qed.

Lemma byte_255 : is_byte 255.
Proof. word. Qed.

#[export] Hint Resolve sextet_byte decode_sextet decode_nul byte_255 : simple.

(** Four digits of a 24-bit number decode to its three octets. *)
Lemma decode_group a b c :
  is_byte a -> is_byte b -> is_byte c ->
  let n := a * 65536 + b * 256 + c in
  char_array_4_to_3 [base64_char (sextet n 3); base64_char (sextet n 2);
                     base64_char (sextet n 1); base64_char (sextet n 0)] = [a; b; c].
Proof.
  intros Ha Hb Hc n.
  rewrite (char_array_4_to_3_spec _ _ _ _ _ _ _ _ (decode_sextet _ _) (decode_sextet _ _)
             (decode_sextet _ _) (decode_sextet _ _)) by auto with simple.
  unfold n, sextet, u8, is_byte in *. change (64 ^ 3) with 262144.
  change (64 ^ 2) with 4096. change (64 ^ 1) with 64. change (64 ^ 0) with 1.
  change (2 ^ 8) with 256. cons_eq; divlia.
Qed.

Lemma dec_four n rest a4 out :
  length a4 = 4%nat ->
  let cs := [base64_char (sextet n 3); base64_char (sextet n 2);
             base64_char (sextet n 1); base64_char (sextet n 0)] in
  dec_loop (cs ++ rest) 0 a4 out = dec_loop rest 0 cs (out ++ char_array_4_to_3 cs).
Proof.
  intros Ha4 cs. destruct a4 as [|? [|? [|? [|? [|]]]]]; try done.
  unfold cs. cbn -[char_array_4_to_3 base64_char is_base64].
  by rewrite !is_base64_char by auto with simple.
Qed.

Lemma dec_ref input : wf_bytes input ->
  forall a4 out, length a4 = 4%nat ->
  dec_finish (dec_loop (rfc4648 input) 0 a4 out) = out ++ input.
Proof.
  induction input as [|a|a b|a b c l IH] using triple_ind; intros Hwf a4 out Ha4.
  - simpl. by rewrite app_nil_r.
  - inv_wf Hwf. destruct a4 as [|? [|? [|? [|? [|]]]]]; try done.
    cbn -[char_array_4_to_3 base64_char is_base64].
    rewrite !is_base64_char by auto with simple.
    cbn -[char_array_4_to_3 base64_char]. f_equal.
    rewrite (char_array_4_to_3_spec _ _ _ _ _ _ 255 255
               (decode_sextet _ _) (decode_sextet _ _)) by auto with simple.
    cbn [take]. unfold sextet, u8, is_byte in *.
    change (64 ^ 3) with 262144. change (64 ^ 2) with 4096. cons_eq; divlia.
  - inv_wf Hwf. destruct a4 as [|? [|? [|? [|? [|]]]]]; try done.
    cbn -[char_array_4_to_3 base64_char is_base64].
    rewrite !is_base64_char by auto with simple.
    cbn -[char_array_4_to_3 base64_char]. f_equal.
    rewrite (char_array_4_to_3_spec _ _ _ _ _ _ _ 255
               (decode_sextet _ _) (decode_sextet _ _) (decode_sextet _ _)) by auto with simple.
    cbn [take]. unfold sextet, u8, is_byte in *.
    change (64 ^ 3) with 262144. change (64 ^ 2) with 4096.
    change (64 ^ 1) with 64. cons_eq; divlia.
  - inv_wf Hwf. pose proof (dec_four (a * 65536 + b * 256 + c) (rfc4648 l) a4 out Ha4) as H4.
    cbv zeta in H4. cbn [rfc4648 app] in *. rewrite H4, decode_group, IH by done.
    by rewrite <- app_assoc.
Qed.

(** * Properties *)

(** [base64_encode] computes the RFC 4648 encoding (three octets to four
    digits, [=] padding) of every input. *)
Theorem base64_encode_rfc4648 (input : bytes) :
  wf_bytes input -> base64_encode input = rfc4648 input.
Proof. intros Hwf. unfold base64_encode. by rewrite enc_ref. Qed.

Lemma base64_encode_rfc4648_witness :
  wf_bytes [77; 97; 110; 0] /\ base64_encode [77; 97; 110; 0] = rfc4648 [77; 97; 110; 0].
Proof.
  assert (wf_bytes [77; 97; 110; 0]) as H by (repeat constructor; lia).
  split; [exact H | apply (base64_encode_rfc4648 [77; 97; 110; 0]); exact H].
Defined.

(** Decoding an encoded byte string gives it back, for every length. *)
Theorem base64_roundtrip (input : bytes) :
  wf_bytes input -> base64_decode (base64_encode input) = input.
Proof.
  intros Hwf. unfold base64_encode. rewrite enc_ref by done.
  apply (dec_ref input Hwf [0; 0; 0; 0] []). done.
Qed.

Lemma base64_roundtrip_witness :
  wf_bytes [104; 105; 255; 0] /\
  base64_decode (base64_encode [104; 105; 255; 0]) = [104; 105; 255; 0].
Proof.
  assert (wf_bytes [104; 105; 255; 0]) as H by (repeat constructor; lia).
  split; [exact H | apply (base64_roundtrip [104; 105; 255; 0]); exact H].
Defined.
