(* ===== verification/Digest.v ===== *)
(** What [md5_context] and [sha1_context] of src/runtime/src/utils/crypt.cpp
    share: the byte-order helpers, [left_rotate], the padding table and the
    block-buffering code of [update]. The abstract specification of the
    buffering is [absorbed]: after any sequence of updates the chaining value
    is the fold of [transform] over the complete 64-byte blocks of everything
    fed so far, and the buffer starts with the rest. *)

From S2P Require Import Prelude.

(** * Byte order *)

Definition put_64_bit_le (value : Z) : bytes :=
  [ u8 (Z.land value 0xff); u8 (Z.land (Z.shiftr value 8) 0xff);
    u8 (Z.land (Z.shiftr value 16) 0xff); u8 (Z.land (Z.shiftr value 24) 0xff);
    u8 (Z.land (Z.shiftr value 32) 0xff); u8 (Z.land (Z.shiftr value 40) 0xff);
    u8 (Z.land (Z.shiftr value 48) 0xff); u8 (Z.land (Z.shiftr value 56) 0xff) ].

Definition put_64_bit_be (value : Z) : bytes :=
  [ u8 (Z.land (Z.shiftr value 56) 0xff); u8 (Z.land (Z.shiftr value 48) 0xff);
    u8 (Z.land (Z.shiftr value 40) 0xff); u8 (Z.land (Z.shiftr value 32) 0xff);
    u8 (Z.land (Z.shiftr value 24) 0xff); u8 (Z.land (Z.shiftr value 16) 0xff);
    u8 (Z.land (Z.shiftr value 8) 0xff); u8 (Z.land value 0xff) ].

Definition put_32_bit_le (value : Z) : bytes :=
  [ u8 (Z.land value 0xff); u8 (Z.land (Z.shiftr value 8) 0xff);
    u8 (Z.land (Z.shiftr value 16) 0xff); u8 (Z.land (Z.shiftr value 24) 0xff) ].

Definition put_32_bit_be (value : Z) : bytes :=
  [ u8 (Z.land (Z.shiftr value 24) 0xff); u8 (Z.land (Z.shiftr value 16) 0xff);
    u8 (Z.land (Z.shiftr value 8) 0xff); u8 (Z.land value 0xff) ].

(** The byte at index [i] of a pointer argument. *)
Definition byte_at (p : bytes) (i : nat) : Z := nth i p 0.

Definition get_32_bit_le (value : bytes) : Z :=
  Z.lor (Z.shiftl (Z.lor (Z.shiftl (Z.lor (Z.shiftl (byte_at value 3) 8) (byte_at value 2)) 8)
                         (byte_at value 1)) 8)
        (byte_at value 0).

Definition get_32_bit_be (value : bytes) : Z :=
  Z.lor (Z.shiftl (Z.lor (Z.shiftl (Z.lor (Z.shiftl (byte_at value 0) 8) (byte_at value 1)) 8)
                         (byte_at value 2)) 8)
        (byte_at value 3).

Definition bytes_to_word32_le (size : nat) (pt : bytes) : list Z :=
  (fun i => get_32_bit_le (drop (i * 4) pt)) <$> seq 0 size.

Definition bytes_to_word32_be (size : nat) (pt : bytes) : list Z :=
  (fun i => get_32_bit_be (drop (i * 4) pt)) <$> seq 0 size.

Definition left_rotate (d num : Z) : Z :=
  Z.lor (u32 (Z.shiftl d num)) (Z.shiftr d (32 - num)).

(** * Constants *)

Definition md5_sha1_block_size : nat := 64.

Definition md5_sha1_padding : bytes := 128 :: replicate 127 0.

(** [memcpy(buff + off, src, src.size())]. *)
Definition memcpy_at (buff : bytes) (off : nat) (src : bytes) : bytes :=
  take off buff ++ src ++ drop (off + length src) buff.

(** [xor_key]: the key block as 32-bit words of the machine's byte order
    (little-endian here; the number's four bytes are equal in every call, so
    the order does not show). *)
Fixpoint xor_key (key : bytes) (xor_num : Z) : bytes :=
  match key with
  | a :: b :: c :: d :: rest =>
      put_32_bit_le (Z.lxor (get_32_bit_le [a; b; c; d]) xor_num) ++ xor_key rest xor_num
  | _ => key
  end.

(** * Block buffering

    The part of [md5_context::update] and [sha1_context::update] after the
    counter is advanced; the two bodies are the same text with [have] and
    [used] as the name of the fill level. *)

Section absorb.
Context {S : Type} (transform : S -> bytes -> S).

Record block_ctx := BlockCtx { bc_state : S; bc_buff : bytes }.

(** [while (len >= block_size)]: each turn consumes 64 bytes, so the length
    of the data is enough fuel. *)
Fixpoint block_loop (fuel : nat) (st : S) (data : bytes) : S * bytes :=
  match fuel with
  | O => (st, data)
  | Datatypes.S fuel =>
      if (md5_sha1_block_size <=? length data)%nat
      then block_loop fuel (transform st (take md5_sha1_block_size data))
             (drop md5_sha1_block_size data)
      else (st, data)
  end.

Definition absorb (ctx : block_ctx) (have : nat) (data : bytes) : block_ctx :=
  let need := (md5_sha1_block_size - have)%nat in
  let '(st, buff, data, have) :=
    if (need <=? length data)%nat then
      let '(st, buff, data, have) :=
        if (have =? 0)%nat then (bc_state ctx, bc_buff ctx, data, have)
        else
          let buff := memcpy_at (bc_buff ctx) have (take need data) in
          (transform (bc_state ctx) buff, buff, drop need data, 0%nat) in
      let '(st, data) := block_loop (length data) st data in
      (st, buff, data, have)
    else (bc_state ctx, bc_buff ctx, data, have) in
  if (length data =? 0)%nat then BlockCtx st buff
  else BlockCtx st (memcpy_at buff have data).

(** ** Specification *)

Fixpoint blocks (n : nat) (msg : bytes) : list bytes :=
  match n with
  | O => []
  | Datatypes.S n => take 64 msg :: blocks n (drop 64 msg)
  end.

Definition full_blocks (msg : bytes) : list bytes := blocks (length msg / 64) msg.

Definition tail_bytes (msg : bytes) : bytes := drop (64 * (length msg / 64)) msg.

Definition absorbed (st0 : S) (msg : bytes) (ctx : block_ctx) : Prop :=
  bc_state ctx = foldl transform st0 (full_blocks msg) /\
  length (bc_buff ctx) = 64%nat /\
  take (length msg mod 64) (bc_buff ctx) = tail_bytes msg.

Lemma blocks_app k n l1 l2 :
  length l1 = (64 * k)%nat -> blocks (k + n) (l1 ++ l2) = blocks k l1 ++ blocks n l2.
Proof.
  revert l1. induction k as [|k IH]; intros l1 Hl; simpl.
  - destruct l1; [done|simpl in Hl; lia].
  - rewrite take_app_le, drop_app_le by lia.
    f_equal. apply IH. rewrite length_drop. lia.
Qed.

Lemma blocks_take k l : (64 * k <= length l)%nat -> blocks k (take (64 * k) l) = blocks k l.
Proof.
  intros Hk. pose proof (blocks_app k 0 (take (64 * k) l) (drop (64 * k) l)) as H.
  rewrite take_drop, Nat.add_0_r, app_nil_r in H. symmetry. apply H.
  rewrite length_take. lia.
Qed.

Lemma length_tail_bytes msg : length (tail_bytes msg) = (length msg mod 64)%nat.
Proof. unfold tail_bytes. rewrite length_drop. divlia. Qed.

Lemma full_blocks_prefix k l1 l2 :
  length l1 = (64 * k)%nat -> full_blocks (l1 ++ l2) = blocks k l1 ++ full_blocks l2.
Proof.
  intros Hl. unfold full_blocks. rewrite length_app, Hl.
  replace ((64 * k + length l2) / 64)%nat with (k + length l2 / 64)%nat by divlia.
  by apply blocks_app.
Qed.

Lemma tail_bytes_prefix k l1 l2 :
  length l1 = (64 * k)%nat -> tail_bytes (l1 ++ l2) = tail_bytes l2.
Proof.
  intros Hl. unfold tail_bytes. rewrite length_app, Hl.
  rewrite drop_app_ge by (rewrite Hl; divlia). f_equal. rewrite Hl. divlia.
Qed.

(** [msg] splits into its complete blocks and the rest. *)
Lemma split_blocks msg :
  exists pre, length pre = (64 * (length msg / 64))%nat /\
    msg = pre ++ tail_bytes msg /\ full_blocks msg = blocks (length msg / 64) pre.
Proof.
  exists (take (64 * (length msg / 64)) msg). split_and!.
  - rewrite length_take. divlia.
  - symmetry. apply take_drop.
  - symmetry. apply blocks_take. divlia.
Qed.

(** The complete blocks of [msg] do not change when data follows. *)
Lemma full_blocks_app msg data :
  full_blocks (msg ++ data) = full_blocks msg ++ full_blocks (tail_bytes msg ++ data).
Proof.
  destruct (split_blocks msg) as (pre & Hpre & E & Hb). rewrite Hb.
  rewrite E at 1. rewrite <- app_assoc. by apply full_blocks_prefix.
Qed.

Lemma tail_bytes_app msg data :
  tail_bytes (msg ++ data) = tail_bytes (tail_bytes msg ++ data).
Proof.
  destruct (split_blocks msg) as (pre & Hpre & E & Hb).
  rewrite E at 1. rewrite <- app_assoc. by eapply tail_bytes_prefix.
Qed.

Lemma block_loop_spec fuel st data :
  (length data <= fuel)%nat ->
  block_loop fuel st data = (foldl transform st (full_blocks data), tail_bytes data).
Proof.
  revert st data. induction fuel as [|fuel IH]; intros st data Hf.
  - destruct data; [done|simpl in Hf; lia].
  - cbn [block_loop]. unfold md5_sha1_block_size.
    destruct (Nat.leb_spec 64 (length data)).
    + rewrite IH by (rewrite length_drop; lia).
      unfold full_blocks, tail_bytes. rewrite length_drop.
      replace (length data / 64)%nat with (1 + (length data - 64) / 64)%nat by divlia.
      simpl. rewrite drop_drop. f_equal. f_equal. lia.
    + unfold full_blocks, tail_bytes.
      rewrite (Nat.div_small _ 64) by done. done.
Qed.

Lemma full_blocks_short l : (length l < 64)%nat -> full_blocks l = [].
Proof. intros. unfold full_blocks. by rewrite Nat.div_small. Qed.

Lemma tail_bytes_short l : (length l < 64)%nat -> tail_bytes l = l.
Proof. intros. unfold tail_bytes. by rewrite Nat.div_small. Qed.

Lemma length_memcpy_at buff off src :
  length buff = 64%nat -> (off + length src <= 64)%nat ->
  length (memcpy_at buff off src) = 64%nat.
Proof.
  intros. unfold memcpy_at. rewrite !length_app, length_take, length_drop. lia.
Qed.

Lemma take_memcpy_at buff off src :
  length buff = 64%nat -> (off + length src <= 64)%nat ->
  take (off + length src) (memcpy_at buff off src) = take off buff ++ src.
Proof.
  intros. unfold memcpy_at. rewrite app_assoc, take_app_le, take_ge; [done|..];
    rewrite length_app, length_take; lia.
Qed.

(** The final [if (len != 0) memcpy(buff + have, data, len)]. *)
Lemma absorb_end st buff have data :
  length buff = 64%nat -> (have + length data <= 64)%nat ->
  let c := if (length data =? 0)%nat then BlockCtx st buff
           else BlockCtx st (memcpy_at buff have data) in
  bc_state c = st /\ length (bc_buff c) = 64%nat /\
  take (have + length data) (bc_buff c) = take have buff ++ data.
Proof.
  intros Hb Hl. destruct data as [|x data]; simpl.
  - by rewrite Nat.add_0_r, app_nil_r.
  - split_and!; [done | by apply length_memcpy_at | by apply (take_memcpy_at _ _ (x :: data))].
Qed.

(** [absorb] keeps the abstract state of everything fed so far. *)
Lemma absorb_spec st0 msg ctx data :
  absorbed st0 msg ctx ->
  absorbed st0 (msg ++ data) (absorb ctx (length msg mod 64) data).
Proof.
  intros (Hst & Hlen & Htail). set (have := (length msg mod 64)%nat) in *.
  pose proof (length_tail_bytes msg) as Hhave. fold have in Hhave.
  assert (have < 64)%nat as Hlt by (unfold have; divlia).
  assert (length (msg ++ data) mod 64 = length (tail_bytes (tail_bytes msg ++ data)))%nat
    as Hmod by (by rewrite <- tail_bytes_app, length_tail_bytes).
  unfold absorbed. rewrite full_blocks_app, foldl_app, <- Hst, (tail_bytes_app msg), Hmod.
  unfold absorb, md5_sha1_block_size.
  destruct (Nat.leb_spec (64 - have) (length data)).
  - destruct (Nat.eqb_spec have 0) as [H0|H0].
    + assert (tail_bytes msg = []) as HT by (destruct (tail_bytes msg); [done|simpl in *; lia]).
      rewrite HT. cbn [app]. rewrite block_loop_spec by lia. rewrite H0.
      pose proof (length_tail_bytes data) as Hld.
      destruct (absorb_end (foldl transform (bc_state ctx) (full_blocks data))
                  (bc_buff ctx) 0 (tail_bytes data) Hlen) as (-> & ? & Ht); [divlia|].
      cbn [take app plus] in Ht. done.
    + set (buff := memcpy_at (bc_buff ctx) have (take (64 - have) data)).
      assert (length (take (64 - have) data) = (64 - have)%nat) as Htk
        by (rewrite length_take; lia).
      assert (length buff = 64%nat) as Hbl by (apply length_memcpy_at; [done|lia]).
      assert (buff = tail_bytes msg ++ take (64 - have) data) as Hbuff.
      { rewrite <- Htail, <- (take_memcpy_at _ have) by (done || lia).
        symmetry. apply take_ge. fold buff. lia. }
      assert (tail_bytes msg ++ data = buff ++ drop (64 - have) data) as ->
        by (by rewrite Hbuff, <- app_assoc, take_drop).
      rewrite block_loop_spec by lia.
      rewrite (full_blocks_prefix 1), (tail_bytes_prefix 1) by done.
      cbn [blocks app foldl]. rewrite (take_ge buff) by lia.
      set (rest := drop (64 - have) data).
      pose proof (length_tail_bytes rest) as Hld.
      destruct (absorb_end (foldl transform (transform (bc_state ctx) buff) (full_blocks rest))
                  buff 0 (tail_bytes rest) Hbl) as (-> & ? & Ht); [divlia|].
      cbn [take app plus] in Ht. done.
  - assert (length (tail_bytes msg ++ data) < 64)%nat by (rewrite length_app; lia).
    rewrite (full_blocks_short (_ ++ _)), (tail_bytes_short (_ ++ _)) by done.
    rewrite length_app, Hhave, <- Htail. cbn [foldl].
    apply absorb_end; [done|lia].
Qed.
End absorb.

Arguments BlockCtx {S}.
Arguments bc_state {S}.
Arguments bc_buff {S}.

(** * Reference encodings, by arithmetic *)

Definition le_bytes (n : nat) (v : Z) : bytes :=
  (fun i => v / 256 ^ Z.of_nat i mod 256) <$> seq 0 n.

Definition be_bytes (n : nat) (v : Z) : bytes := reverse (le_bytes n v).

Fixpoint le_value (bs : bytes) : Z :=
  match bs with [] => 0 | b :: bs => b + 256 * le_value bs end.

Definition be_value (bs : bytes) : Z := le_value (reverse bs).

(** Bitwise complement of a 32-bit word. *)
Definition not32 (x : Z) : Z := u32 (Z.lnot x).

Lemma byte_of_shift v k : 0 <= k -> u8 (Z.land (Z.shiftr v k) 0xff) = v / 2 ^ k mod 256.
Proof.
  intros Hk. change 0xff with (Z.ones 8).
  rewrite Z.land_ones, Z.shiftr_div_pow2 by lia. unfold u8.
  change (2 ^ 8) with 256. apply Z.mod_mod. lia.
Qed.

Lemma byte_of_low v : u8 (Z.land v 0xff) = v / 2 ^ 0 mod 256.
Proof. rewrite <- byte_of_shift by lia. by rewrite Z.shiftr_0_r. Qed.

Ltac put_bytes :=
  intros; rewrite ?byte_of_shift, byte_of_low by lia; reflexivity.

Lemma put_64_bit_le_spec v : put_64_bit_le v = le_bytes 8 v.
Proof. unfold put_64_bit_le. put_bytes. Qed.

Lemma put_64_bit_be_spec v : put_64_bit_be v = be_bytes 8 v.
Proof. unfold put_64_bit_be. put_bytes. Qed.

Lemma put_32_bit_le_spec v : put_32_bit_le v = le_bytes 4 v.
Proof. unfold put_32_bit_le. put_bytes. Qed.

Lemma put_32_bit_be_spec v : put_32_bit_be v = be_bytes 4 v.
Proof. unfold put_32_bit_be. put_bytes. Qed.

Lemma lor_shift_add h b : is_byte b -> Z.lor (Z.shiftl h 8) b = h * 256 + b.
Proof. intros Hb. rewrite Z.shiftl_mul_pow2 by lia. by apply (lor_mul_pow2 h b 8). Qed.

Lemma get_32_bit_le_spec a b c d :
  is_byte a -> is_byte b -> is_byte c -> is_byte d ->
  get_32_bit_le [a; b; c; d] = le_value [a; b; c; d].
Proof.
  intros. unfold get_32_bit_le, byte_at. cbn [nth].
  rewrite !lor_shift_add by done. simpl. lia.
Qed.

Lemma get_32_bit_be_spec a b c d :
  is_byte a -> is_byte b -> is_byte c -> is_byte d ->
  get_32_bit_be [a; b; c; d] = be_value [a; b; c; d].
Proof.
  intros. unfold get_32_bit_be, byte_at. cbn [nth].
  rewrite !lor_shift_add by done. unfold be_value. simpl. lia.
Qed.

(** * Words, bit by bit *)

Lemma testbit_not32 x n : 0 <= n -> Z.testbit (not32 x) n = negb (Z.testbit x n) && (n <? 32).
Proof.
  intros Hn. unfold not32, u32. destruct (Z.ltb_spec n 32).
  - rewrite Z.mod_pow2_bits_low, Z.lnot_spec by lia. by rewrite andb_true_r.
  - rewrite Z.mod_pow2_bits_high by lia. by rewrite andb_false_r.
Qed.

Lemma testbit_u32_high x n : is_u32 x -> 32 <= n -> Z.testbit x n = false.
Proof.
  intros Hx Hn. rewrite <- (u32_small x Hx). unfold u32. apply Z.mod_pow2_bits_high. lia.
Qed.

(** [bitwise] proves an identity of 32-bit words bit by bit; [z] is the word
    whose high bits have to be known to be zero. *)
Ltac bitwise z :=
  apply Z.bits_inj'; intros n Hn;
  rewrite ?Z.lxor_spec, ?Z.lor_spec, ?Z.land_spec, ?Z.lxor_spec, ?testbit_not32 by done;
  rewrite ?Z.lxor_spec, ?Z.lor_spec, ?Z.land_spec, ?Z.lxor_spec, ?testbit_not32 by done;
  destruct (Z.ltb_spec n 32); [| rewrite (testbit_u32_high z) by done];
  repeat match goal with |- context [Z.testbit ?x n] => destruct (Z.testbit x n) end; reflexivity.

(** * Padding

    Both hashes append a one bit, zeros up to 56 modulo 64 octets and then
    the bit length. *)

Definition one_and_zeros (msg : bytes) : bytes := [128] ++ zrep ((55 - zlen msg) mod 64) 0.

(** The slice of the padding table [final] feeds, for a buffer that holds
    [have] bytes. *)
Lemma padding_slice msg have :
  have = zlen msg mod 64 ->
  ztake ((if 64 - have <? 1 + 8 then 64 - have + 64 else 64 - have) - 8) md5_sha1_padding
  = one_and_zeros msg.
Proof.
  intros ->. set (k := _ - 8).
  assert (k = 1 + (55 - zlen msg) mod 64) as ->
    by (unfold k, zlen; destruct (Z.ltb_spec (64 - Z.of_nat (length msg) mod 64) (1 + 8)); divlia).
  unfold ztake, zrep, md5_sha1_padding, one_and_zeros.
  replace (Z.to_nat (1 + (55 - zlen msg) mod 64))
    with (S (Z.to_nat ((55 - zlen msg) mod 64))) by lia.
  cbn [take app]. f_equal. unfold zrep. rewrite take_replicate. f_equal. divlia.
Qed.

Lemma wf_le_bytes n v : wf_bytes (le_bytes n v).
Proof. apply Forall_fmap, Forall_forall. intros i _. apply Z.mod_pos_bound. lia. Qed.

Lemma wf_be_bytes n v : wf_bytes (be_bytes n v).
Proof. apply Forall_reverse, wf_le_bytes. Qed.

Lemma wf_zrep n b : is_byte b -> wf_bytes (zrep n b).
Proof. intros. by apply Forall_replicate. Qed.

Lemma wf_one_and_zeros msg : wf_bytes (one_and_zeros msg).
Proof. apply Forall_app_2; [by constructor|by apply wf_zrep]. Qed.

(** * RFC 2104, over a hash with 64-octet blocks *)

Definition rfc2104 (H : bytes -> bytes) (K text : bytes) : bytes :=
  let K := if 64 <? zlen K then H K else K in
  let K := K ++ zrep (64 - zlen K) 0 in
  H ((Z.lxor 0x5c <$> K) ++ H ((Z.lxor 0x36 <$> K) ++ text)).

(** * Byte lists *)

Lemma wf_drop n l : wf_bytes l -> wf_bytes (drop n l).
Proof. apply Forall_drop. Qed.

Lemma wf_take n l : wf_bytes l -> wf_bytes (take n l).
Proof. apply Forall_take. Qed.

(** * Key blocks *)

Lemma memcpy_zeros K :
  (length K <= 64)%nat -> memcpy_at (replicate 64 0) 0 K = K ++ zrep (64 - zlen K) 0.
Proof.
  intros HK. unfold memcpy_at, zrep, zlen. rewrite take_0, Nat.add_0_l, drop_replicate.
  simpl app. do 2 f_equal. lia.
Qed.

Lemma put_32_lxor v w :
  put_32_bit_le (Z.lxor v w) = zip_with Z.lxor (put_32_bit_le v) (put_32_bit_le w).
Proof.
  assert (forall k, 0 <= k ->
    u8 (Z.land (Z.shiftr (Z.lxor v w) k) 0xff) =
    Z.lxor (u8 (Z.land (Z.shiftr v k) 0xff)) (u8 (Z.land (Z.shiftr w k) 0xff))) as H.
  { intros k Hk. assert (forall x, u8 (Z.land x 0xff) = Z.land x 0xff) as Hu.
    { intros x. apply u8_small. change 0xff with (Z.ones 8). rewrite Z.land_ones by lia.
      apply Z.mod_pos_bound. lia. }
    rewrite !Hu, Z.shiftr_lxor. apply Z.bits_inj'. intros n Hn.
    rewrite Z.lxor_spec, !Z.land_spec, Z.lxor_spec.
    destruct (Z.testbit 0xff n); by rewrite ?andb_true_r, ?andb_false_r. }
  unfold put_32_bit_le. cbn [zip_with]. rewrite !H by lia.
  specialize (H 0 (Z.le_refl 0)). rewrite !Z.shiftr_0_r in H. by rewrite H.
Qed.

Lemma put_get_32 a b c d :
  is_byte a -> is_byte b -> is_byte c -> is_byte d ->
  put_32_bit_le (get_32_bit_le [a; b; c; d]) = [a; b; c; d].
Proof.
  intros. rewrite get_32_bit_le_spec, put_32_bit_le_spec by done.
  unfold le_bytes; cbn [seq fmap list_fmap le_value].
  change (256 ^ Z.of_nat 0) with 1. change (256 ^ Z.of_nat 1) with 256.
  change (256 ^ Z.of_nat 2) with 65536. change (256 ^ Z.of_nat 3) with 16777216.
  unfold is_byte in *. cons_eq; divlia.
Qed.

(** A key block xored with a number whose four bytes are [b]. *)
Lemma xor_key_spec num b key k :
  put_32_bit_le num = [b; b; b; b] -> length key = (4 * k)%nat -> wf_bytes key ->
  xor_key key num = Z.lxor b <$> key.
Proof.
  intros Hnum. revert key. induction k as [|k IH]; intros key Hl Hwf.
  - by destruct key.
  - destruct key as [|x0 [|x1 [|x2 [|x3 key]]]]; try (simpl in Hl; lia).
    inv_wf Hwf. cbn [xor_key fmap list_fmap].
    rewrite put_32_lxor, put_get_32, Hnum, (IH key) by (done || simpl in Hl; lia).
    cbn [zip_with app]. by rewrite !(Z.lxor_comm b).
Qed.

Lemma lxor_byte x y : is_byte x -> is_byte y -> is_byte (Z.lxor x y).
Proof.
  intros Hx Hy. rewrite <- (u8_small x Hx), <- (u8_small y Hy). unfold u8.
  rewrite <- !Z.land_ones by lia.
  replace (Z.lxor (Z.land x (Z.ones 8)) (Z.land y (Z.ones 8))) with (Z.land (Z.lxor x y) (Z.ones 8)).
  - rewrite Z.land_ones by lia. apply Z.mod_pos_bound. lia.
  - apply Z.bits_inj'. intros n Hn. rewrite Z.lxor_spec, !Z.land_spec, Z.lxor_spec.
    destruct (Z.testbit (Z.ones 8) n); by rewrite ?andb_true_r, ?andb_false_r.
Qed.

Definition is_key_block (key : bytes) : Prop := wf_bytes key /\ length key = 64%nat.

Lemma key_block K : wf_bytes K -> zlen K <= 64 -> is_key_block (K ++ zrep (64 - zlen K) 0).
Proof.
  intros Hwf Hl. split.
  - apply Forall_app_2; [done|]. apply wf_zrep. word.
  - unfold zrep, zlen in *. rewrite length_app, length_replicate. lia.
Qed.

Lemma xor_key_opad key : is_key_block key -> xor_key key 0x5c5c5c5c = Z.lxor 0x5c <$> key.
Proof. intros [Hwf Hl]. by apply (xor_key_spec _ _ _ 16). Qed.

(** The second [xor_key] turns the outer pad into the inner one. *)
Lemma xor_key_twice key :
  is_key_block key ->
  xor_key (xor_key key 0x5c5c5c5c) (Z.lxor 0x5c5c5c5c 0x36363636) = Z.lxor 0x36 <$> key.
Proof.
  intros Hkey. rewrite xor_key_opad by done. destruct Hkey as [Hwf Hl].
  rewrite (xor_key_spec _ 0x6a _ 16); [|reflexivity|by rewrite length_fmap|].
  - rewrite <- list_fmap_compose. apply list_fmap_ext. intros i x _. unfold compose.
    rewrite <- Z.lxor_assoc. done.
  - apply Forall_fmap. eapply Forall_impl; [|exact Hwf]. intros x Hx.
    apply lxor_byte; [word|done].
Qed.
