(* ===== verification/Md5.v ===== *)
(** MD5 ([md5_context], [md5] and [hmac_md5] of
    src/runtime/src/utils/crypt.cpp), the RFC 1321 reference it implements and
    the RFC 2104 reference for the keyed hash. *)

From S2P Require Import Prelude Digest.

(** * The context *)

(** [uint32_t state[4]]; [transform] copies it to the locals [a], [b], [c], [d]. *)
Record md5_state := Md5State { st_a : Z; st_b : Z; st_c : Z; st_d : Z }.

Record md5_context := Md5Context { ctx_block : @block_ctx md5_state; ctx_count : Z }.

(** [count] is [{0}] and [buff] is zeroed in a fresh object; [init] resets the
    counter and the chaining value, not the buffer. *)
Definition md5_init (ctx : md5_context) : md5_context :=
  Md5Context
    (BlockCtx (Md5State 0x67452301 0xEFCDAB89 0x98BADCFE 0x10325476) (bc_buff (ctx_block ctx))) 0.

Definition md5_fresh : md5_context :=
  Md5Context (BlockCtx (Md5State 0 0 0 0) (replicate 64 0)) 0.

(** * The compression function *)

Definition md5_fn_f (x y z : Z) : Z := Z.lxor (Z.land (Z.lxor y z) x) z.
Definition md5_fn_g (x y z : Z) : Z := md5_fn_f z x y.
Definition md5_fn_h (x y z : Z) : Z := Z.lxor (Z.lxor x y) z.
Definition md5_fn_i (x y z : Z) : Z := Z.lxor y (Z.lor x (not32 z)).

(** The round function a call of the lambda [step] names. *)
Inductive md5_fn := FF | FG | FH | FI.

Definition md5_fn_eval (f : md5_fn) : Z -> Z -> Z -> Z :=
  match f with FF => md5_fn_f | FG => md5_fn_g | FH => md5_fn_h | FI => md5_fn_i end.

(** The local variable an argument of [step] names. *)
Inductive md5_reg := RA | RB | RC | RD.

Definition md5_get (st : md5_state) (r : md5_reg) : Z :=
  match r with RA => st_a st | RB => st_b st | RC => st_c st | RD => st_d st end.

Definition md5_set (st : md5_state) (r : md5_reg) (v : Z) : md5_state :=
  match r with
  | RA => Md5State v (st_b st) (st_c st) (st_d st)
  | RB => Md5State (st_a st) v (st_c st) (st_d st)
  | RC => Md5State (st_a st) (st_b st) v (st_d st)
  | RD => Md5State (st_a st) (st_b st) (st_c st) v
  end.

(** The body of the lambda [step]: the new value of its reference argument [w]. *)
Definition md5_step (f : Z -> Z -> Z -> Z) (w x y z data s : Z) : Z :=
  let w := u32 (w + u32 (f x y z + data)) in
  let w := left_rotate w s in
  u32 (w + x).

(** One statement [step(fn, w, x, y, z, in[k] + t, s);] of [transform]. *)
Record md5_call := Md5Call {
  mc_fn : md5_fn; mc_w : md5_reg; mc_x : md5_reg; mc_y : md5_reg; mc_z : md5_reg;
  mc_k : nat; mc_t : Z; mc_s : Z }.

Definition md5_exec (input : list Z) (st : md5_state) (c : md5_call) : md5_state :=
  md5_set st (mc_w c)
    (md5_step (md5_fn_eval (mc_fn c)) (md5_get st (mc_w c)) (md5_get st (mc_x c))
       (md5_get st (mc_y c)) (md5_get st (mc_z c)) (u32 (nth (mc_k c) input 0 + mc_t c)) (mc_s c)).

(** The 64 statements of [md5_context::transform], in the source's order. *)
Definition md5_program : list md5_call :=
  [ Md5Call FF RA RB RC RD 0 0xd76aa478 7;
    Md5Call FF RD RA RB RC 1 0xe8c7b756 12;
    Md5Call FF RC RD RA RB 2 0x242070db 17;
    Md5Call FF RB RC RD RA 3 0xc1bdceee 22;
    Md5Call FF RA RB RC RD 4 0xf57c0faf 7;
    Md5Call FF RD RA RB RC 5 0x4787c62a 12;
    Md5Call FF RC RD RA RB 6 0xa8304613 17;
    Md5Call FF RB RC RD RA 7 0xfd469501 22;
    Md5Call FF RA RB RC RD 8 0x698098d8 7;
    Md5Call FF RD RA RB RC 9 0x8b44f7af 12;
    Md5Call FF RC RD RA RB 10 0xffff5bb1 17;
    Md5Call FF RB RC RD RA 11 0x895cd7be 22;
    Md5Call FF RA RB RC RD 12 0x6b901122 7;
    Md5Call FF RD RA RB RC 13 0xfd987193 12;
    Md5Call FF RC RD RA RB 14 0xa679438e 17;
    Md5Call FF RB RC RD RA 15 0x49b40821 22;
    Md5Call FG RA RB RC RD 1 0xf61e2562 5;
    Md5Call FG RD RA RB RC 6 0xc040b340 9;
    Md5Call FG RC RD RA RB 11 0x265e5a51 14;
    Md5Call FG RB RC RD RA 0 0xe9b6c7aa 20;
    Md5Call FG RA RB RC RD 5 0xd62f105d 5;
    Md5Call FG RD RA RB RC 10 0x02441453 9;
    Md5Call FG RC RD RA RB 15 0xd8a1e681 14;
    Md5Call FG RB RC RD RA 4 0xe7d3fbc8 20;
    Md5Call FG RA RB RC RD 9 0x21e1cde6 5;
    Md5Call FG RD RA RB RC 14 0xc33707d6 9;
    Md5Call FG RC RD RA RB 3 0xf4d50d87 14;
    Md5Call FG RB RC RD RA 8 0x455a14ed 20;
    Md5Call FG RA RB RC RD 13 0xa9e3e905 5;
    Md5Call FG RD RA RB RC 2 0xfcefa3f8 9;
    Md5Call FG RC RD RA RB 7 0x676f02d9 14;
    Md5Call FG RB RC RD RA 12 0x8d2a4c8a 20;
    Md5Call FH RA RB RC RD 5 0xfffa3942 4;
    Md5Call FH RD RA RB RC 8 0x8771f681 11;
    Md5Call FH RC RD RA RB 11 0x6d9d6122 16;
    Md5Call FH RB RC RD RA 14 0xfde5380c 23;
    Md5Call FH RA RB RC RD 1 0xa4beea44 4;
    Md5Call FH RD RA RB RC 4 0x4bdecfa9 11;
    Md5Call FH RC RD RA RB 7 0xf6bb4b60 16;
    Md5Call FH RB RC RD RA 10 0xbebfbc70 23;
    Md5Call FH RA RB RC RD 13 0x289b7ec6 4;
    Md5Call FH RD RA RB RC 0 0xeaa127fa 11;
    Md5Call FH RC RD RA RB 3 0xd4ef3085 16;
    Md5Call FH RB RC RD RA 6 0x04881d05 23;
    Md5Call FH RA RB RC RD 9 0xd9d4d039 4;
    Md5Call FH RD RA RB RC 12 0xe6db99e5 11;
    Md5Call FH RC RD RA RB 15 0x1fa27cf8 16;
    Md5Call FH RB RC RD RA 2 0xc4ac5665 23;
    Md5Call FI RA RB RC RD 0 0xf4292244 6;
    Md5Call FI RD RA RB RC 7 0x432aff97 10;
    Md5Call FI RC RD RA RB 14 0xab9423a7 15;
    Md5Call FI RB RC RD RA 5 0xfc93a039 21;
    Md5Call FI RA RB RC RD 12 0x655b59c3 6;
    Md5Call FI RD RA RB RC 3 0x8f0ccc92 10;
    Md5Call FI RC RD RA RB 10 0xffeff47d 15;
    Md5Call FI RB RC RD RA 1 0x85845dd1 21;
    Md5Call FI RA RB RC RD 8 0x6fa87e4f 6;
    Md5Call FI RD RA RB RC 15 0xfe2ce6e0 10;
    Md5Call FI RC RD RA RB 6 0xa3014314 15;
    Md5Call FI RB RC RD RA 13 0x4e0811a1 21;
    Md5Call FI RA RB RC RD 4 0xf7537e82 6;
    Md5Call FI RD RA RB RC 11 0xbd3af235 10;
    Md5Call FI RC RD RA RB 2 0x2ad7d2bb 15;
    Md5Call FI RB RC RD RA 9 0xeb86d391 21 ].

Definition md5_transform (st : md5_state) (block : bytes) : md5_state :=
  let input := bytes_to_word32_le 16 block in
  let r := foldl (md5_exec input) st md5_program in
  Md5State (u32 (st_a st + st_a r)) (u32 (st_b st + st_b r))
           (u32 (st_c st + st_c r)) (u32 (st_d st + st_d r)).

(** * Streaming interface *)

(** [have]: the fill level of the buffer, from the bit counter. *)
Definition md5_have (count : Z) : Z := Z.land (Z.shiftr count 3) 63.

Definition md5_update (ctx : md5_context) (input : bytes) : md5_context :=
  let have := md5_have (ctx_count ctx) in
  Md5Context (absorb md5_transform (ctx_block ctx) (Z.to_nat have) input)
    (u64 (ctx_count ctx + u64 (Z.shiftl (zlen input) 3))).

Definition md5_final (ctx : md5_context) : bytes :=
  let count_temp := put_64_bit_le (ctx_count ctx) in
  let len := 64 - md5_have (ctx_count ctx) in
  let len := if len <? 1 + 8 then len + 64 else len in
  let ctx := md5_update ctx (ztake (len - 8) md5_sha1_padding) in
  let ctx := md5_update ctx count_temp in
  let st := bc_state (ctx_block ctx) in
  put_32_bit_le (st_a st) ++ put_32_bit_le (st_b st)
    ++ put_32_bit_le (st_c st) ++ put_32_bit_le (st_d st).

Definition md5 (input : bytes) : bytes := md5_final (md5_update (md5_init md5_fresh) input).

Definition hmac_md5 (input input_key : bytes) : bytes :=
  let key0 := replicate 64 0 in
  let key :=
    if 64 <? zlen input_key then memcpy_at key0 0 (md5 input_key)
    else memcpy_at key0 0 input_key in
  let key := xor_key key 0x5c5c5c5c in
  let ctx1 := md5_update (md5_init md5_fresh) key in
  let key := xor_key key (Z.lxor 0x5c5c5c5c 0x36363636) in
  let ctx2 := md5_update (md5_init md5_fresh) key in
  let ctx2 := md5_update ctx2 input in
  let data := md5_final ctx2 in
  md5_final (md5_update ctx1 data).

(** * RFC 1321 *)

Definition rfc_F (x y z : Z) : Z := Z.lor (Z.land x y) (Z.land (not32 x) z).
Definition rfc_G (x y z : Z) : Z := Z.lor (Z.land x z) (Z.land y (not32 z)).
Definition rfc_H (x y z : Z) : Z := Z.lxor x (Z.lxor y z).
Definition rfc_I (x y z : Z) : Z := Z.lxor y (Z.lor x (not32 z)).

(** The table T[1..64]: the integer parts of 2^32 |sin i|. *)
Definition rfc_T : list Z :=
  [ 0xd76aa478; 0xe8c7b756; 0x242070db; 0xc1bdceee; 0xf57c0faf; 0x4787c62a; 0xa8304613; 0xfd469501;
    0x698098d8; 0x8b44f7af; 0xffff5bb1; 0x895cd7be; 0x6b901122; 0xfd987193; 0xa679438e; 0x49b40821;
    0xf61e2562; 0xc040b340; 0x265e5a51; 0xe9b6c7aa; 0xd62f105d; 0x02441453; 0xd8a1e681; 0xe7d3fbc8;
    0x21e1cde6; 0xc33707d6; 0xf4d50d87; 0x455a14ed; 0xa9e3e905; 0xfcefa3f8; 0x676f02d9; 0x8d2a4c8a;
    0xfffa3942; 0x8771f681; 0x6d9d6122; 0xfde5380c; 0xa4beea44; 0x4bdecfa9; 0xf6bb4b60; 0xbebfbc70;
    0x289b7ec6; 0xeaa127fa; 0xd4ef3085; 0x04881d05; 0xd9d4d039; 0xe6db99e5; 0x1fa27cf8; 0xc4ac5665;
    0xf4292244; 0x432aff97; 0xab9423a7; 0xfc93a039; 0x655b59c3; 0x8f0ccc92; 0xffeff47d; 0x85845dd1;
    0x6fa87e4f; 0xfe2ce6e0; 0xa3014314; 0x4e0811a1; 0xf7537e82; 0xbd3af235; 0x2ad7d2bb; 0xeb86d391 ].

(** Round [i / 16]: function, word index and shift amounts. *)
Definition rfc_fun (i : nat) : Z -> Z -> Z -> Z :=
  match (i / 16)%nat with 0%nat => rfc_F | 1%nat => rfc_G | 2%nat => rfc_H | _ => rfc_I end.

Definition rfc_k (i : nat) : nat :=
  match (i / 16)%nat with
  | 0%nat => i mod 16
  | 1%nat => (1 + 5 * i) mod 16
  | 2%nat => (5 + 3 * i) mod 16
  | _ => (7 * i) mod 16
  end%nat.

Definition rfc_s (i : nat) : Z :=
  nth (i mod 4)
    (match (i / 16)%nat with
     | 0%nat => [7; 12; 17; 22] | 1%nat => [5; 9; 14; 20]
     | 2%nat => [4; 11; 16; 23] | _ => [6; 10; 15; 21]
     end) 0.

(** One operation of the RFC: a = b + ((a + F(b,c,d) + X[k] + T[i]) <<< s),
    followed by the rotation of the four names. *)
Definition rfc_op (X : list Z) (q : Z * Z * Z * Z) (i : nat) : Z * Z * Z * Z :=
  let '(a, b, c, d) := q in
  let v := u32 (a + rfc_fun i b c d + nth (rfc_k i) X 0 + nth i rfc_T 0) in
  (d, u32 (b + left_rotate v (rfc_s i)), b, c).

Definition rfc_compress (st : md5_state) (block : bytes) : md5_state :=
  let X := (fun i => le_value (take 4 (drop (i * 4) block))) <$> seq 0 16 in
  let '(a, b, c, d) :=
    foldl (rfc_op X) (st_a st, st_b st, st_c st, st_d st) (seq 0 64) in
  Md5State (u32 (st_a st + a)) (u32 (st_b st + b)) (u32 (st_c st + c)) (u32 (st_d st + d)).

(** Append a one bit, zeros up to 56 modulo 64 octets, and the bit length
    modulo 2^64, low-order octet first. *)
Definition rfc1321_pad (msg : bytes) : bytes :=
  msg ++ one_and_zeros msg ++ le_bytes 8 (8 * zlen msg mod 2 ^ 64).

Definition rfc1321_iv : md5_state := Md5State 0x67452301 0xEFCDAB89 0x98BADCFE 0x10325476.

Definition rfc1321 (msg : bytes) : bytes :=
  let padded := rfc1321_pad msg in
  let st := foldl rfc_compress rfc1321_iv (blocks (length padded / 64) padded) in
  le_bytes 4 (st_a st) ++ le_bytes 4 (st_b st) ++ le_bytes 4 (st_c st) ++ le_bytes 4 (st_d st).

Example md5_abc :
  md5 [97; 98; 99] = [0x90; 0x01; 0x50; 0x98; 0x3c; 0xd2; 0x4f; 0xb0;
                      0xd6; 0x96; 0x3f; 0x7d; 0x28; 0xe1; 0x7f; 0x72].
Proof. vm_compute. reflexivity. Qed.

Example rfc1321_abc : rfc1321 [97; 98; 99] = md5 [97; 98; 99].
Proof. vm_compute. reflexivity. Qed.

(** * The round functions *)

Lemma md5_fn_f_rfc x y z : is_u32 z -> md5_fn_f x y z = rfc_F x y z.
Proof. intros Hz. unfold md5_fn_f, rfc_F. bitwise z. Qed.

Lemma md5_fn_g_rfc x y z : is_u32 y -> md5_fn_g x y z = rfc_G x y z.
Proof. intros Hy. unfold md5_fn_g, md5_fn_f, rfc_G. bitwise y. Qed.

Lemma md5_fn_h_rfc x y z : md5_fn_h x y z = rfc_H x y z.
Proof. apply Z.lxor_assoc. Qed.

(** * [transform] is the RFC's compression function *)

(** The statement the RFC's operation [i] corresponds to: the four names have
    been rotated [i] times. *)
Definition reg_w (i : nat) : md5_reg :=
  match (i mod 4)%nat with 0%nat => RA | 1%nat => RD | 2%nat => RC | _ => RB end.

Definition call_of (i : nat) : md5_call :=
  Md5Call (match (i / 16)%nat with 0%nat => FF | 1%nat => FG | 2%nat => FH | _ => FI end)
    (reg_w i) (reg_w (i + 3)) (reg_w (i + 2)) (reg_w (i + 1))
    (rfc_k i) (nth i rfc_T 0) (rfc_s i).

Lemma md5_program_table : md5_program = call_of <$> seq 0 64.
Proof. reflexivity. Qed.

Definition wf_state (st : md5_state) : Prop :=
  is_u32 (st_a st) /\ is_u32 (st_b st) /\ is_u32 (st_c st) /\ is_u32 (st_d st).

Lemma wf_get st r : wf_state st -> is_u32 (md5_get st r).
Proof. destruct r; unfold wf_state; intuition. Qed.

Lemma wf_set st r v : wf_state st -> is_u32 v -> wf_state (md5_set st r v).
Proof. destruct r; unfold wf_state; intuition. Qed.

Lemma get_set_eq st r v : md5_get (md5_set st r v) r = v.
Proof. by destruct r. Qed.

Lemma get_set_ne st r r' v : r <> r' -> md5_get (md5_set st r v) r' = md5_get st r'.
Proof. by destruct r, r'. Qed.

#[local] Hint Resolve wf_get wf_set u32_range : simple.

Lemma call_fn_rfc i x y z :
  is_u32 x -> is_u32 y -> is_u32 z ->
  md5_fn_eval (mc_fn (call_of i)) x y z = rfc_fun i x y z.
Proof.
  intros. unfold call_of, rfc_fun. cbn [mc_fn].
  destruct (i / 16)%nat as [|[|[|?]]]; cbn [md5_fn_eval];
    auto using md5_fn_f_rfc, md5_fn_g_rfc, md5_fn_h_rfc.
Qed.

(** The names of operation [i + 1] are those of [i], rotated. *)
Lemma reg_w_period i : reg_w (i + 4) = reg_w i.
Proof. unfold reg_w. replace ((i + 4) mod 4)%nat with (i mod 4)%nat by divlia. done. Qed.

Lemma reg_w_distinct i : reg_w i <> reg_w (i + 1) /\ reg_w i <> reg_w (i + 2) /\ reg_w i <> reg_w (i + 3).
Proof.
  unfold reg_w. assert (i mod 4 < 4)%nat by divlia.
  replace ((i + 1) mod 4)%nat with ((i mod 4 + 1) mod 4)%nat by divlia.
  replace ((i + 2) mod 4)%nat with ((i mod 4 + 2) mod 4)%nat by divlia.
  replace ((i + 3) mod 4)%nat with ((i mod 4 + 3) mod 4)%nat by divlia.
  destruct (i mod 4)%nat as [|[|[|[|?]]]]; [done..|lia].
Qed.

(** The RFC's quadruple before operation [i], read off the registers. *)
Definition quad (st : md5_state) (i : nat) : Z * Z * Z * Z :=
  (md5_get st (reg_w i), md5_get st (reg_w (i + 3)), md5_get st (reg_w (i + 2)),
   md5_get st (reg_w (i + 1))).

Lemma md5_step_rfc f a b c d x t s :
  md5_step f a b c d (u32 (x + t)) s = u32 (b + left_rotate (u32 (a + f b c d + x + t)) s).
Proof.
  unfold md5_step.
  replace (u32 (a + u32 (f b c d + u32 (x + t)))) with (u32 (a + f b c d + x + t)).
  - f_equal. lia.
  - generalize (f b c d). intros v. modlia.
Qed.

Lemma md5_exec_wf X st i : wf_state st -> wf_state (md5_exec X st (call_of i)).
Proof. intros. apply wf_set; [done|]. unfold md5_step. auto with simple. Qed.

(** One statement of the program simulates one operation of the RFC. *)
Lemma md5_exec_quad X st i :
  wf_state st -> quad (md5_exec X st (call_of i)) (S i) = rfc_op X (quad st i) i.
Proof.
  intros Hwf. destruct (reg_w_distinct i) as (N1 & N2 & N3).
  unfold quad, md5_exec. cbn [mc_w mc_x mc_y mc_z mc_k mc_t mc_s call_of].
  replace (S i) with (i + 1)%nat by lia. rewrite <- !Nat.add_assoc. cbn [plus].
  rewrite reg_w_period, get_set_eq, !get_set_ne by done.
  cbn [rfc_op]. rewrite md5_step_rfc.
  change (md5_fn_eval _) with (md5_fn_eval (mc_fn (call_of i))).
  by rewrite call_fn_rfc by auto with simple.
Qed.

Lemma md5_program_quad X st n i :
  wf_state st ->
  wf_state (foldl (md5_exec X) st (call_of <$> seq i n)) /\
  quad (foldl (md5_exec X) st (call_of <$> seq i n)) (i + n) =
    foldl (rfc_op X) (quad st i) (seq i n).
Proof.
  revert st i. induction n as [|n IH]; intros st i Hwf.
  - by rewrite Nat.add_0_r.
  - cbn [seq fmap list_fmap foldl].
    destruct (IH (md5_exec X st (call_of i)) (S i)) as [Hw Hq]; [by apply md5_exec_wf|].
    rewrite md5_exec_quad in Hq by done. rewrite <- Hq. split; [done|]. f_equal. lia.
Qed.

Lemma take4_word block i :
  wf_bytes block -> (i * 4 + 4 <= length block)%nat ->
  get_32_bit_le (drop (i * 4) block) = le_value (take 4 (drop (i * 4) block)).
Proof.
  intros Hwf Hlen.
  assert (4 <= length (drop (i * 4) block))%nat as Hd by (rewrite length_drop; lia).
  assert (wf_bytes (drop (i * 4) block)) as Hw by by apply Forall_drop.
  destruct (drop (i * 4) block) as [|a [|b [|c [|d l]]]]; try (simpl in Hd; lia).
  inv_wf Hw. cbn [take]. by apply get_32_bit_le_spec.
Qed.

Lemma words_le block :
  wf_bytes block -> length block = 64%nat ->
  bytes_to_word32_le 16 block = (fun i => le_value (take 4 (drop (i * 4) block))) <$> seq 0 16.
Proof.
  intros Hwf Hlen. apply list_fmap_ext. intros k i Hi.
  apply lookup_seq in Hi. apply take4_word; [done|lia].
Qed.

Lemma md5_transform_rfc st block :
  wf_state st -> wf_bytes block -> length block = 64%nat ->
  md5_transform st block = rfc_compress st block.
Proof.
  intros Hst Hwf Hlen. unfold md5_transform, rfc_compress.
  rewrite words_le, md5_program_table by done.
  set (X := _ <$> seq 0 16).
  pose proof (md5_program_quad X st 64 0 Hst) as [_ Hq].
  change (quad st 0) with (st_a st, st_b st, st_c st, st_d st) in Hq.
  change (0 + 64)%nat with 64%nat in Hq. revert Hq.
  generalize (foldl (md5_exec X) st (call_of <$> seq 0 64)). intros r Hq.
  rewrite <- Hq. reflexivity.
Qed.

Lemma md5_transform_wf st block : wf_state (md5_transform st block).
Proof. split_and!; apply u32_range. Qed.

(** * Streaming *)

(** The abstract state of a context: everything fed since [init]. *)
Definition md5_ok (msg : bytes) (ctx : md5_context) : Prop :=
  absorbed md5_transform rfc1321_iv msg (ctx_block ctx) /\
  ctx_count ctx = u64 (8 * zlen msg).

Lemma md5_have_spec (msg : bytes) : Z.to_nat (md5_have (u64 (8 * zlen msg))) = (length msg mod 64)%nat.
Proof.
  unfold md5_have. change 63 with (Z.ones 6). rewrite Z.land_ones by lia.
  rewrite Z.shiftr_div_pow2 by lia. unfold zlen. change (2 ^ 3) with 8.
  change (2 ^ 6) with 64. modlia.
Qed.

Lemma md5_init_ok ctx :
  length (bc_buff (ctx_block ctx)) = 64%nat -> md5_ok [] (md5_init ctx).
Proof. done. Qed.

Lemma md5_update_ok msg ctx data :
  md5_ok msg ctx -> md5_ok (msg ++ data) (md5_update ctx data).
Proof.
  intros [Habs Hc]. unfold md5_ok, md5_update. cbn [ctx_block ctx_count].
  rewrite Hc, md5_have_spec. split; [by apply absorb_spec|].
  rewrite zlen_app, Z.shiftl_mul_pow2 by lia. change (2 ^ 3) with 8. modlia.
Qed.

(** [final] feeds exactly the RFC's padding. *)
Lemma md5_final_pad msg ctx :
  md5_ok msg ctx ->
  exists ctx', md5_ok (rfc1321_pad msg) ctx' /\
    md5_final ctx =
      let st := bc_state (ctx_block ctx') in
      put_32_bit_le (st_a st) ++ put_32_bit_le (st_b st)
        ++ put_32_bit_le (st_c st) ++ put_32_bit_le (st_d st).
Proof.
  intros Hok. unfold md5_final. eexists. split; [|reflexivity].
  destruct Hok as [Habs Hc]. pose proof (md5_have_spec msg) as Hh. rewrite <- Hc in Hh.
  assert (0 <= md5_have (ctx_count ctx)) by (apply Z.land_nonneg; lia).
  rewrite (padding_slice msg) by (unfold zlen; lia).
  rewrite Hc, put_64_bit_le_spec. unfold rfc1321_pad.
  rewrite app_assoc.
  apply md5_update_ok, md5_update_ok. by split.
Qed.

(** The digest of everything fed, over the code's own compression function. *)
Definition md5_digest (msg : bytes) : bytes :=
  let st := foldl md5_transform rfc1321_iv (full_blocks (rfc1321_pad msg)) in
  put_32_bit_le (st_a st) ++ put_32_bit_le (st_b st)
    ++ put_32_bit_le (st_c st) ++ put_32_bit_le (st_d st).

Lemma md5_final_ok msg ctx : md5_ok msg ctx -> md5_final ctx = md5_digest msg.
Proof.
  intros (ctx' & [[Hst _] _] & ->)%md5_final_pad. cbv zeta. by rewrite Hst.
Qed.

Lemma md5_chunks_ok msg ctx chunks :
  md5_ok msg ctx -> md5_ok (msg ++ concat chunks) (foldl md5_update ctx chunks).
Proof.
  revert msg ctx. induction chunks as [|c chunks IH]; intros msg ctx Hok; cbn [concat foldl].
  - by rewrite app_nil_r.
  - rewrite app_assoc. by apply IH, md5_update_ok.
Qed.

Lemma md5_fresh_ok data : md5_ok data (md5_update (md5_init md5_fresh) data).
Proof. apply (md5_update_ok []). done. Qed.

#[local] Hint Resolve md5_update_ok md5_fresh_ok : simple.

Lemma md5_is_digest msg : md5 msg = md5_digest msg.
Proof. apply md5_final_ok. auto with simple. Qed.

Lemma fold_transform_rfc n l st :
  wf_bytes l -> (64 * n <= length l)%nat -> wf_state st ->
  foldl md5_transform st (blocks n l) = foldl rfc_compress st (blocks n l).
Proof.
  revert l st. induction n as [|n IH]; intros l st Hwf Hl Hst; cbn [blocks foldl]; [done|].
  rewrite <- md5_transform_rfc;
    [|done|by apply wf_take|rewrite length_take; lia].
  apply IH; [by apply wf_drop|rewrite length_drop; lia|apply md5_transform_wf].
Qed.

Lemma wf_pad msg : wf_bytes msg -> wf_bytes (rfc1321_pad msg).
Proof.
  intros Hwf. unfold rfc1321_pad.
  apply Forall_app_2; [done|apply Forall_app_2; [apply wf_one_and_zeros|apply wf_le_bytes]].
Qed.

Lemma md5_rfc1321_digest msg : wf_bytes msg -> md5_digest msg = rfc1321 msg.
Proof.
  intros Hwf. unfold md5_digest, rfc1321, full_blocks. cbv zeta.
  rewrite fold_transform_rfc, !put_32_bit_le_spec; [done|by apply wf_pad|divlia|].
  by split_and!.
Qed.

Lemma length_md5 msg : length (md5 msg) = 16%nat.
Proof. rewrite md5_is_digest. done. Qed.

Lemma wf_md5 msg : wf_bytes (md5 msg).
Proof.
  rewrite md5_is_digest. unfold md5_digest. cbv zeta. rewrite !put_32_bit_le_spec.
  repeat apply Forall_app_2; apply wf_le_bytes.
Qed.

Lemma hmac_key_md5 K :
  (if 64 <? zlen K then memcpy_at (replicate 64 0) 0 (md5 K) else memcpy_at (replicate 64 0) 0 K)
  = (if 64 <? zlen K then md5 K else K) ++
      zrep (64 - zlen (if 64 <? zlen K then md5 K else K)) 0.
Proof.
  destruct (Z.ltb_spec 64 (zlen K)); apply memcpy_zeros; unfold zlen in *.
  - rewrite length_md5. lia.
  - lia.
Qed.

(** * Properties *)

(** [md5] computes the digest RFC 1321 specifies, for every byte string. *)
Theorem md5_rfc1321 (input : bytes) : wf_bytes input -> md5 input = rfc1321 input.
Proof. intros Hwf. by rewrite md5_is_digest, md5_rfc1321_digest. Qed.

Lemma md5_rfc1321_witness :
  wf_bytes [97; 98; 99] /\ md5 [97; 98; 99] = rfc1321 [97; 98; 99].
Proof.
  assert (wf_bytes [97; 98; 99]) as H by (repeat constructor; lia).
  split; [exact H | apply (md5_rfc1321 [97; 98; 99]); exact H].
Defined.

(** [update] is incremental: after [init] on any context object, feeding
    chunks in any split gives the digest of their concatenation. *)
Theorem md5_incremental (ctx : md5_context) (chunks : list bytes) :
  length (bc_buff (ctx_block ctx)) = 64%nat ->
  md5_final (foldl md5_update (md5_init ctx) chunks) = md5 (concat chunks).
Proof.
  intros Hlen. rewrite md5_is_digest. apply md5_final_ok.
  apply (md5_chunks_ok []), md5_init_ok, Hlen.
Qed.

Lemma md5_incremental_witness :
  length (bc_buff (ctx_block md5_fresh)) = 64%nat /\
  md5_final (foldl md5_update (md5_init md5_fresh) [[97]; []; [98; 99]]) = md5 [97; 98; 99].
Proof. split; [reflexivity | apply (md5_incremental md5_fresh [[97]; []; [98; 99]]); reflexivity]. Defined.

(** [hmac_md5] is the RFC 2104 keyed hash over [md5], for keys shorter
    than, equal to and longer than the block. *)
Theorem hmac_md5_rfc2104 (input input_key : bytes) :
  wf_bytes input_key -> hmac_md5 input input_key = rfc2104 md5 input_key input.
Proof.
  intros Hk. unfold hmac_md5, rfc2104. cbv zeta. rewrite hmac_key_md5.
  set (K := (if 64 <? zlen input_key then md5 input_key else input_key)).
  assert (wf_bytes K) by (unfold K; destruct (64 <? zlen input_key); [apply wf_md5|done]).
  assert (zlen K <= 64).
  { unfold K. destruct (Z.ltb_spec 64 (zlen input_key)); [unfold zlen; rewrite length_md5; lia|lia]. }
  assert (is_key_block (K ++ zrep (64 - zlen K) 0)) as HK' by (apply key_block; done).
  set (K' := K ++ zrep (64 - zlen K) 0) in *.
  rewrite xor_key_twice, xor_key_opad by done.
  rewrite !(md5_is_digest ((_ <$> K') ++ _)).
  rewrite (md5_final_ok ((Z.lxor 0x36 <$> K') ++ input)
             (md5_update (md5_update (md5_init md5_fresh) (Z.lxor 0x36 <$> K')) input))
    by apply md5_update_ok, md5_fresh_ok.
  apply md5_final_ok, md5_update_ok, md5_fresh_ok.
Qed.

Lemma hmac_md5_rfc2104_witness :
  wf_bytes [107] /\ hmac_md5 [97; 98] [107] = rfc2104 md5 [107] [97; 98].
Proof.
  assert (wf_bytes [107]) as H by (repeat constructor; lia).
  split; [exact H | apply (hmac_md5_rfc2104 [97; 98] [107]); exact H].
Defined.
