(* ===== verification/Sha1.v ===== *)
(** SHA-1 ([sha1_context], [sha1] and [hmac_sha1] of
    src/runtime/src/utils/crypt.cpp), the FIPS 180-1 reference with its
    80-word message schedule, and the RFC 2104 reference for the keyed hash.
    The code keeps the schedule in a ring of sixteen words; the invariant
    [ring_ok] relates the ring to the schedule. *)

From S2P Require Import Prelude Digest.

(** * The context *)

Record sha1_state := Sha1State { sh_a : Z; sh_b : Z; sh_c : Z; sh_d : Z; sh_e : Z }.

Record sha1_context := Sha1Context { sx_block : block_ctx (S := sha1_state); sx_count : Z }.

(** [init] sets the chaining value only: unlike [md5_context::init] it leaves
    [count] as it is, so it prepares a fresh object and no other. *)
Definition sha1_init (ctx : sha1_context) : sha1_context :=
  Sha1Context
    (BlockCtx (Sha1State 0x67452301 0xefcdab89 0x98badcfe 0x10325476 0xc3d2e1f0)
       (bc_buff (sx_block ctx)))
    (sx_count ctx).

Definition sha1_fresh : sha1_context :=
  Sha1Context (BlockCtx (Sha1State 0 0 0 0 0) (replicate 64 0)) 0.

(** * The compression function *)

Definition sha1_f1 (x y w : Z) : Z := Z.lxor (Z.land w (Z.lxor x y)) y.
Definition sha1_f2 (x y w : Z) : Z := Z.lxor (Z.lxor w x) y.
Definition sha1_f3 (x y w : Z) : Z := Z.lor (Z.land (Z.lor w x) y) (Z.land w x).

(** [block[i]] for an index that is in range. *)
Definition word_at (block : list Z) (i : nat) : Z := nth i block 0.

Definition sha1_blk (block : list Z) (i : nat) : Z :=
  left_rotate
    (Z.lxor (Z.lxor (Z.lxor (word_at block (Nat.land (i + 13) 15))
                            (word_at block (Nat.land (i + 8) 15)))
                    (word_at block (Nat.land (i + 2) 15)))
            (word_at block i)) 1.

Inductive sha1_fn := F1 | F2 | F3.

Definition sha1_fn_eval (f : sha1_fn) : Z -> Z -> Z -> Z :=
  match f with F1 => sha1_f1 | F2 => sha1_f2 | F3 => sha1_f3 end.

Inductive sha1_reg := RA | RB | RC | RD | RE.

Definition sha1_get (st : sha1_state) (r : sha1_reg) : Z :=
  match r with
  | RA => sh_a st | RB => sh_b st | RC => sh_c st | RD => sh_d st | RE => sh_e st
  end.

Definition sha1_set (st : sha1_state) (r : sha1_reg) (v : Z) : sha1_state :=
  match r with
  | RA => Sha1State v (sh_b st) (sh_c st) (sh_d st) (sh_e st)
  | RB => Sha1State (sh_a st) v (sh_c st) (sh_d st) (sh_e st)
  | RC => Sha1State (sh_a st) (sh_b st) v (sh_d st) (sh_e st)
  | RD => Sha1State (sh_a st) (sh_b st) (sh_c st) v (sh_e st)
  | RE => Sha1State (sh_a st) (sh_b st) (sh_c st) (sh_d st) v
  end.

(** One statement [step0(fn, v, w, x, y, z, t, i);] or [step1(...)] of
    [transform]; [sc_expand] tells [step1] from [step0]. *)
Record sha1_call := Sha1Call {
  sc_expand : bool; sc_fn : sha1_fn;
  sc_v : sha1_reg; sc_w : sha1_reg; sc_x : sha1_reg; sc_y : sha1_reg; sc_z : sha1_reg;
  sc_t : Z; sc_i : nat }.

(** [step0] and [step1]: [w] and [z] are reference parameters, [step1] first
    overwrites [block[i]]. *)
Definition sha1_exec (s : sha1_state * list Z) (c : sha1_call) : sha1_state * list Z :=
  let '(st, block) := s in
  let block :=
    if sc_expand c then <[sc_i c := sha1_blk block (sc_i c)]> block else block in
  let fn := sha1_fn_eval (sc_fn c) in
  let z :=
    u32 (sha1_get st (sc_z c) +
         u32 (fn (sha1_get st (sc_x c)) (sha1_get st (sc_y c)) (sha1_get st (sc_w c))
              + word_at block (sc_i c) + sc_t c + left_rotate (sha1_get st (sc_v c)) 5)) in
  let st := sha1_set st (sc_z c) z in
  (sha1_set st (sc_w c) (left_rotate (sha1_get st (sc_w c)) 30), block).

(** The 80 statements of [sha1_context::transform], in the source's order. *)
Definition sha1_program : list sha1_call :=
  [ Sha1Call false F1 RA RB RC RD RE 0x5a827999 0;
    Sha1Call false F1 RE RA RB RC RD 0x5a827999 1;
    Sha1Call false F1 RD RE RA RB RC 0x5a827999 2;
    Sha1Call false F1 RC RD RE RA RB 0x5a827999 3;
    Sha1Call false F1 RB RC RD RE RA 0x5a827999 4;
    Sha1Call false F1 RA RB RC RD RE 0x5a827999 5;
    Sha1Call false F1 RE RA RB RC RD 0x5a827999 6;
    Sha1Call false F1 RD RE RA RB RC 0x5a827999 7;
    Sha1Call false F1 RC RD RE RA RB 0x5a827999 8;
    Sha1Call false F1 RB RC RD RE RA 0x5a827999 9;
    Sha1Call false F1 RA RB RC RD RE 0x5a827999 10;
    Sha1Call false F1 RE RA RB RC RD 0x5a827999 11;
    Sha1Call false F1 RD RE RA RB RC 0x5a827999 12;
    Sha1Call false F1 RC RD RE RA RB 0x5a827999 13;
    Sha1Call false F1 RB RC RD RE RA 0x5a827999 14;
    Sha1Call false F1 RA RB RC RD RE 0x5a827999 15;
    Sha1Call true F1 RE RA RB RC RD 0x5a827999 0;
    Sha1Call true F1 RD RE RA RB RC 0x5a827999 1;
    Sha1Call true F1 RC RD RE RA RB 0x5a827999 2;
    Sha1Call true F1 RB RC RD RE RA 0x5a827999 3;
    Sha1Call true F2 RA RB RC RD RE 0x6ed9eba1 4;
    Sha1Call true F2 RE RA RB RC RD 0x6ed9eba1 5;
    Sha1Call true F2 RD RE RA RB RC 0x6ed9eba1 6;
    Sha1Call true F2 RC RD RE RA RB 0x6ed9eba1 7;
    Sha1Call true F2 RB RC RD RE RA 0x6ed9eba1 8;
    Sha1Call true F2 RA RB RC RD RE 0x6ed9eba1 9;
    Sha1Call true F2 RE RA RB RC RD 0x6ed9eba1 10;
    Sha1Call true F2 RD RE RA RB RC 0x6ed9eba1 11;
    Sha1Call true F2 RC RD RE RA RB 0x6ed9eba1 12;
    Sha1Call true F2 RB RC RD RE RA 0x6ed9eba1 13;
    Sha1Call true F2 RA RB RC RD RE 0x6ed9eba1 14;
    Sha1Call true F2 RE RA RB RC RD 0x6ed9eba1 15;
    Sha1Call true F2 RD RE RA RB RC 0x6ed9eba1 0;
    Sha1Call true F2 RC RD RE RA RB 0x6ed9eba1 1;
    Sha1Call true F2 RB RC RD RE RA 0x6ed9eba1 2;
    Sha1Call true F2 RA RB RC RD RE 0x6ed9eba1 3;
    Sha1Call true F2 RE RA RB RC RD 0x6ed9eba1 4;
    Sha1Call true F2 RD RE RA RB RC 0x6ed9eba1 5;
    Sha1Call true F2 RC RD RE RA RB 0x6ed9eba1 6;
    Sha1Call true F2 RB RC RD RE RA 0x6ed9eba1 7;
    Sha1Call true F3 RA RB RC RD RE 0x8f1bbcdc 8;
    Sha1Call true F3 RE RA RB RC RD 0x8f1bbcdc 9;
    Sha1Call true F3 RD RE RA RB RC 0x8f1bbcdc 10;
    Sha1Call true F3 RC RD RE RA RB 0x8f1bbcdc 11;
    Sha1Call true F3 RB RC RD RE RA 0x8f1bbcdc 12;
    Sha1Call true F3 RA RB RC RD RE 0x8f1bbcdc 13;
    Sha1Call true F3 RE RA RB RC RD 0x8f1bbcdc 14;
    Sha1Call true F3 RD RE RA RB RC 0x8f1bbcdc 15;
    Sha1Call true F3 RC RD RE RA RB 0x8f1bbcdc 0;
    Sha1Call true F3 RB RC RD RE RA 0x8f1bbcdc 1;
    Sha1Call true F3 RA RB RC RD RE 0x8f1bbcdc 2;
    Sha1Call true F3 RE RA RB RC RD 0x8f1bbcdc 3;
    Sha1Call true F3 RD RE RA RB RC 0x8f1bbcdc 4;
    Sha1Call true F3 RC RD RE RA RB 0x8f1bbcdc 5;
    Sha1Call true F3 RB RC RD RE RA 0x8f1bbcdc 6;
    Sha1Call true F3 RA RB RC RD RE 0x8f1bbcdc 7;
    Sha1Call true F3 RE RA RB RC RD 0x8f1bbcdc 8;
    Sha1Call true F3 RD RE RA RB RC 0x8f1bbcdc 9;
    Sha1Call true F3 RC RD RE RA RB 0x8f1bbcdc 10;
    Sha1Call true F3 RB RC RD RE RA 0x8f1bbcdc 11;
    Sha1Call true F2 RA RB RC RD RE 0xca62c1d6 12;
    Sha1Call true F2 RE RA RB RC RD 0xca62c1d6 13;
    Sha1Call true F2 RD RE RA RB RC 0xca62c1d6 14;
    Sha1Call true F2 RC RD RE RA RB 0xca62c1d6 15;
    Sha1Call true F2 RB RC RD RE RA 0xca62c1d6 0;
    Sha1Call true F2 RA RB RC RD RE 0xca62c1d6 1;
    Sha1Call true F2 RE RA RB RC RD 0xca62c1d6 2;
    Sha1Call true F2 RD RE RA RB RC 0xca62c1d6 3;
    Sha1Call true F2 RC RD RE RA RB 0xca62c1d6 4;
    Sha1Call true F2 RB RC RD RE RA 0xca62c1d6 5;
    Sha1Call true F2 RA RB RC RD RE 0xca62c1d6 6;
    Sha1Call true F2 RE RA RB RC RD 0xca62c1d6 7;
    Sha1Call true F2 RD RE RA RB RC 0xca62c1d6 8;
    Sha1Call true F2 RC RD RE RA RB 0xca62c1d6 9;
    Sha1Call true F2 RB RC RD RE RA 0xca62c1d6 10;
    Sha1Call true F2 RA RB RC RD RE 0xca62c1d6 11;
    Sha1Call true F2 RE RA RB RC RD 0xca62c1d6 12;
    Sha1Call true F2 RD RE RA RB RC 0xca62c1d6 13;
    Sha1Call true F2 RC RD RE RA RB 0xca62c1d6 14;
    Sha1Call true F2 RB RC RD RE RA 0xca62c1d6 15 ].

Definition sha1_transform (st : sha1_state) (input : bytes) : sha1_state :=
  let block := bytes_to_word32_be 16 input in
  let r := fst (foldl sha1_exec (st, block) sha1_program) in
  Sha1State (u32 (sh_a st + sh_a r)) (u32 (sh_b st + sh_b r)) (u32 (sh_c st + sh_c r))
            (u32 (sh_d st + sh_d r)) (u32 (sh_e st + sh_e r)).

(** * Streaming interface *)

(** [used]: the fill level of the buffer; [count] counts bytes here. *)
Definition sha1_used (count : Z) : Z := Z.land count 63.

Definition sha1_update (ctx : sha1_context) (input : bytes) : sha1_context :=
  let used := sha1_used (sx_count ctx) in
  let count := u64 (sx_count ctx + zlen input) in
  Sha1Context (absorb sha1_transform (sx_block ctx) (Z.to_nat used) input) count.

Definition sha1_digest_bytes (st : sha1_state) : bytes :=
  put_32_bit_be (sh_a st) ++ put_32_bit_be (sh_b st) ++ put_32_bit_be (sh_c st)
    ++ put_32_bit_be (sh_d st) ++ put_32_bit_be (sh_e st).

(** [final] as the pair of the digest and the context it leaves behind. *)
Definition sha1_final (ctx : sha1_context) : bytes * sha1_context :=
  let count_temp := put_64_bit_be (u64 (Z.shiftl (sx_count ctx) 3)) in
  let used := sha1_used (sx_count ctx) in
  let len := 64 - used in
  let len := if len <? 1 + 8 then len + 64 else len in
  let ctx := sha1_update ctx (ztake (len - 8) md5_sha1_padding) in
  let ctx := sha1_update ctx count_temp in
  (sha1_digest_bytes (bc_state (sx_block ctx)), ctx).

Definition sha1 (input : bytes) : bytes :=
  fst (sha1_final (sha1_update (sha1_init sha1_fresh) input)).

Definition hmac_sha1 (input input_key : bytes) : bytes :=
  let key0 := replicate 64 0 in
  let key :=
    if 64 <? zlen input_key then memcpy_at key0 0 (sha1 input_key)
    else memcpy_at key0 0 input_key in
  let key := xor_key key 0x5c5c5c5c in
  let ctx1 := sha1_update (sha1_init sha1_fresh) key in
  let key := xor_key key (Z.lxor 0x5c5c5c5c 0x36363636) in
  let ctx2 := sha1_update (sha1_init sha1_fresh) key in
  let ctx2 := sha1_update ctx2 input in
  let data := fst (sha1_final ctx2) in
  fst (sha1_final (sha1_update ctx1 data)).

(** * FIPS 180-1 *)

Definition fips_Ch (b c d : Z) : Z := Z.lor (Z.land b c) (Z.land (not32 b) d).
Definition fips_Parity (b c d : Z) : Z := Z.lxor b (Z.lxor c d).
Definition fips_Maj (b c d : Z) : Z := Z.lor (Z.lor (Z.land b c) (Z.land b d)) (Z.land c d).

Definition fips_f (t : nat) : Z -> Z -> Z -> Z :=
  match (t / 20)%nat with
  | 0%nat => fips_Ch | 1%nat => fips_Parity | 2%nat => fips_Maj | _ => fips_Parity
  end.

Definition fips_K (t : nat) : Z :=
  match (t / 20)%nat with
  | 0%nat => 0x5a827999 | 1%nat => 0x6ed9eba1 | 2%nat => 0x8f1bbcdc | _ => 0xca62c1d6
  end.

(** The message schedule: word [t] from the words [t-3], [t-8], [t-14] and
    [t-16]. *)
Fixpoint fips_expand (n : nat) (W : list Z) : list Z :=
  match n with
  | O => W
  | S n =>
      let W := fips_expand n W in
      let t := length W in
      W ++ [left_rotate (Z.lxor (Z.lxor (Z.lxor (nth (t - 3) W 0) (nth (t - 8) W 0))
                                        (nth (t - 14) W 0)) (nth (t - 16) W 0)) 1]
  end.

Definition fips_W (block : bytes) : list Z :=
  fips_expand 64 ((fun i => be_value (take 4 (drop (i * 4) block))) <$> seq 0 16).

Definition fips_op (W : list Z) (q : Z * Z * Z * Z * Z) (t : nat) : Z * Z * Z * Z * Z :=
  let '(a, b, c, d, e) := q in
  let T := u32 (left_rotate a 5 + fips_f t b c d + e + nth t W 0 + fips_K t) in
  (T, a, left_rotate b 30, c, d).

Definition fips_compress (H : sha1_state) (block : bytes) : sha1_state :=
  let '(a, b, c, d, e) :=
    foldl (fips_op (fips_W block)) (sh_a H, sh_b H, sh_c H, sh_d H, sh_e H) (seq 0 80) in
  Sha1State (u32 (sh_a H + a)) (u32 (sh_b H + b)) (u32 (sh_c H + c)) (u32 (sh_d H + d))
            (u32 (sh_e H + e)).

Definition fips180_iv : sha1_state :=
  Sha1State 0x67452301 0xEFCDAB89 0x98BADCFE 0x10325476 0xC3D2E1F0.

(** A one bit, zeros, and the bit length modulo 2^64, high-order octet first. *)
Definition fips180_pad (msg : bytes) : bytes :=
  msg ++ one_and_zeros msg ++ be_bytes 8 (8 * zlen msg mod 2 ^ 64).

Definition fips180 (msg : bytes) : bytes :=
  let padded := fips180_pad msg in
  let st := foldl fips_compress fips180_iv (blocks (length padded / 64) padded) in
  be_bytes 4 (sh_a st) ++ be_bytes 4 (sh_b st) ++ be_bytes 4 (sh_c st)
    ++ be_bytes 4 (sh_d st) ++ be_bytes 4 (sh_e st).

Example sha1_abc :
  sha1 [97; 98; 99] =
    [0xA9; 0x99; 0x3E; 0x36; 0x47; 0x06; 0x81; 0x6A; 0xBA; 0x3E;
     0x25; 0x71; 0x78; 0x50; 0xC2; 0x6C; 0x9C; 0xD0; 0xD8; 0x9D].
Proof. vm_compute. reflexivity. Qed.

Example fips180_abc : fips180 [97; 98; 99] = sha1 [97; 98; 99].
Proof. vm_compute. reflexivity. Qed.

(** * The round functions *)

Lemma sha1_f1_fips b c d : is_u32 d -> sha1_f1 c d b = fips_Ch b c d.
Proof. intros Hd. unfold sha1_f1, fips_Ch. bitwise d. Qed.

Lemma sha1_f2_fips b c d : sha1_f2 c d b = fips_Parity b c d.
Proof. apply Z.lxor_assoc. Qed.

Lemma sha1_f3_fips b c d : is_u32 b -> sha1_f3 c d b = fips_Maj b c d.
Proof. intros Hb. unfold sha1_f3, fips_Maj. bitwise b. Qed.

(** * [transform] is the FIPS compression function *)

(** The name of local variable number [k], counting from [a]. *)
Definition sha1_name (k : nat) : sha1_reg :=
  match (k mod 5)%nat with 0%nat => RA | 1%nat => RB | 2%nat => RC | 3%nat => RD | _ => RE end.

(** The statement for operation [t]: the names have been rotated [t] times. *)
Definition call_of (t : nat) : sha1_call :=
  Sha1Call (16 <=? t)%nat
    (match (t / 20)%nat with 0%nat => F1 | 1%nat => F2 | 2%nat => F3 | _ => F2 end)
    (sha1_name (4 * t)) (sha1_name (4 * t + 1)) (sha1_name (4 * t + 2)) (sha1_name (4 * t + 3))
    (sha1_name (4 * t + 4)) (fips_K t) (t mod 16).

Lemma sha1_program_table : sha1_program = call_of <$> seq 0 80.
Proof. reflexivity. Qed.

Definition wf_state (st : sha1_state) : Prop :=
  is_u32 (sh_a st) /\ is_u32 (sh_b st) /\ is_u32 (sh_c st) /\ is_u32 (sh_d st) /\ is_u32 (sh_e st).

Lemma sha1_wf_get st r : wf_state st -> is_u32 (sha1_get st r).
Proof. destruct r; unfold wf_state; intuition. Qed.

Lemma sha1_wf_set st r v : wf_state st -> is_u32 v -> wf_state (sha1_set st r v).
Proof. destruct r; unfold wf_state; intuition. Qed.

Lemma sha1_get_set_eq st r v : sha1_get (sha1_set st r v) r = v.
Proof. by destruct r. Qed.

Lemma sha1_get_set_ne st r r' v : r <> r' -> sha1_get (sha1_set st r v) r' = sha1_get st r'.
Proof. by destruct r, r'. Qed.

Lemma left_rotate_u32 v s : is_u32 v -> 0 < s < 32 -> is_u32 (left_rotate v s).
Proof.
  intros Hv Hs. unfold left_rotate.
  assert (Z.lor (u32 (Z.shiftl v s)) (Z.shiftr v (32 - s)) =
          u32 (Z.lor (u32 (Z.shiftl v s)) (Z.shiftr v (32 - s)))) as ->; [|apply u32_range].
  apply Z.bits_inj'. intros n Hn. unfold u32 at 2.
  destruct (Z.ltb_spec n 32).
  - by rewrite Z.mod_pow2_bits_low by lia.
  - rewrite Z.mod_pow2_bits_high by lia.
    rewrite Z.lor_spec, (testbit_u32_high _ _ (u32_range _)) by done.
    rewrite Z.shiftr_spec by done. apply (testbit_u32_high v); [done|lia].
Qed.

#[local] Hint Resolve sha1_wf_get sha1_wf_set u32_range : simple.

Lemma call_fn_fips t b c d :
  is_u32 b -> is_u32 d -> sha1_fn_eval (sc_fn (call_of t)) c d b = fips_f t b c d.
Proof.
  intros. unfold call_of, fips_f. cbn [sc_fn].
  destruct (t / 20)%nat as [|[|[|?]]]; cbn [sha1_fn_eval];
    auto using sha1_f1_fips, sha1_f2_fips, sha1_f3_fips.
Qed.

Lemma name_period k : sha1_name (k + 5) = sha1_name k.
Proof. unfold sha1_name. replace ((k + 5) mod 5)%nat with (k mod 5)%nat by divlia. done. Qed.

Lemma name_distinct k i j : (i < j < 5)%nat -> sha1_name (k + i) <> sha1_name (k + j).
Proof.
  intros Hij. unfold sha1_name.
  rewrite (Nat.Div0.add_mod k i), (Nat.Div0.add_mod k j).
  assert (k mod 5 < 5)%nat as Hk by divlia. revert Hk. generalize (k mod 5)%nat. intros m Hm.
  rewrite (Nat.mod_small i), (Nat.mod_small j) by lia.
  do 5 (destruct i as [|i]; [do 5 (destruct m as [|m];
    [do 5 (destruct j as [|j]; [simpl; done || lia|]); lia|]); lia|]); lia.
Qed.

(** The FIPS quintuple before operation [t], read off the registers. *)
Definition quint (st : sha1_state) (t : nat) : Z * Z * Z * Z * Z :=
  (sha1_get st (sha1_name (4 * t)), sha1_get st (sha1_name (4 * t + 1)),
   sha1_get st (sha1_name (4 * t + 2)), sha1_get st (sha1_name (4 * t + 3)),
   sha1_get st (sha1_name (4 * t + 4))).

(** ** The message schedule *)

Lemma length_expand n W : length (fips_expand n W) = (length W + n)%nat.
Proof.
  induction n as [|n IH]; cbn [fips_expand]; [lia|]. rewrite length_app, IH. simpl. lia.
Qed.

Lemma expand_prefix n m W j :
  (n <= m)%nat -> (j < length W + n)%nat -> nth j (fips_expand m W) 0 = nth j (fips_expand n W) 0.
Proof.
  intros Hnm Hj. induction Hnm as [|m Hnm IH]; [done|].
  cbn [fips_expand]. rewrite app_nth1 by (rewrite length_expand; lia). exact IH.
Qed.

Lemma expand_word n m W :
  length W = 16%nat -> (n < m)%nat ->
  let w k := nth (n + k)%nat (fips_expand m W) 0 in
  w 16%nat = left_rotate (Z.lxor (Z.lxor (Z.lxor (w 13%nat) (w 8%nat)) (w 2%nat)) (w 0%nat)) 1.
Proof.
  intros HW Hnm w. unfold w.
  rewrite !(expand_prefix (S n) m) by lia. cbn [fips_expand].
  rewrite app_nth2 by (rewrite length_expand; lia).
  replace (n + 16 - _)%nat with 0%nat by (rewrite length_expand; lia). cbn [nth].
  rewrite !app_nth1 by (rewrite length_expand; lia). rewrite length_expand, HW.
  do 2 f_equal; [f_equal; [f_equal|]|]; f_equal; lia.
Qed.

(** The ring holds the last sixteen words of the schedule before operation
    [t], word [s] at index [s mod 16]. *)
Definition ring_ok (W block : list Z) (t : nat) : Prop :=
  length block = 16%nat /\
  forall s, (Nat.max t 16 - 16 <= s < Nat.max t 16)%nat -> word_at block (s mod 16) = nth s W 0.

Lemma land_15 n : Nat.land n 15 = (n mod 16)%nat.
Proof. change 15%nat with (Nat.ones 4). by rewrite Nat.land_ones. Qed.

Lemma ring_blk W M block t :
  W = fips_expand 64 M -> length M = 16%nat -> (16 <= t < 80)%nat -> ring_ok W block t ->
  sha1_blk block (t mod 16) = nth t W 0.
Proof.
  intros -> HM Ht [_ Hr]. rewrite Nat.max_l in Hr by lia.
  unfold sha1_blk. rewrite !land_15.
  replace ((t mod 16 + 13) mod 16)%nat with ((t - 3) mod 16)%nat by divlia.
  replace ((t mod 16 + 8) mod 16)%nat with ((t - 8) mod 16)%nat by divlia.
  replace ((t mod 16 + 2) mod 16)%nat with ((t - 14) mod 16)%nat by divlia.
  replace (t mod 16)%nat with ((t - 16) mod 16)%nat by divlia.
  rewrite !Hr by lia.
  pose proof (expand_word (t - 16) 64 M HM ltac:(lia)) as He. cbv beta zeta in He.
  replace (t - 16 + 16)%nat with t in He by lia.
  replace (t - 16 + 13)%nat with (t - 3)%nat in He by lia.
  replace (t - 16 + 8)%nat with (t - 8)%nat in He by lia.
  replace (t - 16 + 2)%nat with (t - 14)%nat in He by lia.
  replace (t - 16 + 0)%nat with (t - 16)%nat in He by lia. by rewrite He.
Qed.

Lemma nth_insert (l : list Z) i j v :
  (i < length l)%nat -> nth j (<[i := v]> l) 0 = if decide (i = j) then v else nth j l 0.
Proof.
  intros Hi. rewrite !nth_lookup. destruct (decide (i = j)) as [->|Hne].
  - by rewrite list_lookup_insert_eq.
  - by rewrite list_lookup_insert_ne.
Qed.

(** The block after the statement for operation [t]. *)
Definition ring_step (block : list Z) (t : nat) : list Z :=
  if (16 <=? t)%nat then <[(t mod 16)%nat := sha1_blk block (t mod 16)]> block else block.

Lemma sha1_ring_step_ok W M block t :
  W = fips_expand 64 M -> length M = 16%nat -> (t < 80)%nat -> ring_ok W block t ->
  ring_ok W (ring_step block t) (S t) /\ word_at (ring_step block t) (t mod 16) = nth t W 0.
Proof.
  intros HW HM Ht Hok. pose proof Hok as [Hl Hr]. unfold ring_step.
  destruct (Nat.leb_spec 16 t) as [Hge|Hlt].
  - rewrite (ring_blk W M) by done. unfold word_at, ring_ok.
    rewrite length_insert, nth_insert by (rewrite Hl; divlia).
    rewrite decide_True by done. split_and!; [done| |done].
    intros s Hs. unfold word_at. rewrite nth_insert by (rewrite Hl; divlia).
    destruct (decide _) as [E|Hne]; [f_equal; divlia|]. apply Hr.
    assert (s <> t) by (intros ->; done). assert (s <> t - 16)%nat by (intros ->; divlia). lia.
  - split; [split; [done|]; intros s Hs; apply Hr; lia|]. apply Hr. lia.
Qed.

(** ** One operation *)

Lemma sha1_sum z f w k r : u32 (z + u32 (f + w + k + r)) = u32 (r + f + z + w + k).
Proof. modlia. Qed.

Lemma sha1_exec_wf st block t :
  wf_state st -> wf_state (fst (sha1_exec (st, block) (call_of t))).
Proof.
  intros. cbn [sha1_exec fst]. apply sha1_wf_set; [by auto with simple|].
  apply left_rotate_u32; [by auto with simple|lia].
Qed.

Lemma sha1_exec_quint W M st block t :
  W = fips_expand 64 M -> length M = 16%nat -> (t < 80)%nat -> ring_ok W block t -> wf_state st ->
  ring_ok W (snd (sha1_exec (st, block) (call_of t))) (S t) /\
  quint (fst (sha1_exec (st, block) (call_of t))) (S t) = fips_op W (quint st t) t.
Proof.
  intros HW HM Ht Hok Hwf.
  destruct (sha1_ring_step_ok W M block t HW HM Ht Hok) as [Hok' Hword].
  cbn [sha1_exec fst snd]. change (if sc_expand _ then _ else _) with (ring_step block t).
  split; [done|]. cbn [sc_v sc_w sc_x sc_y sc_z sc_t sc_i call_of]. rewrite Hword.
  unfold quint. replace (4 * S t)%nat with (4 * t + 4)%nat by lia.
  rewrite <- !Nat.add_assoc. cbn [plus].
  rewrite name_period. replace (4 * t + 6)%nat with (4 * t + 1 + 5)%nat by lia.
  replace (4 * t + 7)%nat with (4 * t + 2 + 5)%nat by lia.
  replace (4 * t + 8)%nat with (4 * t + 3 + 5)%nat by lia. rewrite !name_period.
  set (k := (4 * t)%nat). pose proof (name_distinct k) as D.
  pose proof (D 0%nat 1%nat ltac:(lia)) as D01. pose proof (D 0%nat 4%nat ltac:(lia)) as D04.
  pose proof (D 1%nat 2%nat ltac:(lia)) as D12. pose proof (D 1%nat 3%nat ltac:(lia)) as D13.
  pose proof (D 1%nat 4%nat ltac:(lia)) as D14. pose proof (D 2%nat 4%nat ltac:(lia)) as D24.
  pose proof (D 3%nat 4%nat ltac:(lia)) as D34. clear D. rewrite Nat.add_0_r in D01, D04.
  rewrite !sha1_get_set_eq. rewrite !sha1_get_set_ne, sha1_get_set_eq by congruence.
  rewrite !sha1_get_set_ne by congruence.
  cbn [fips_op]. rewrite <- call_fn_fips by auto with simple. by rewrite sha1_sum.
Qed.

Lemma sha1_program_quint W M st block n t :
  W = fips_expand 64 M -> length M = 16%nat -> (t + n <= 80)%nat ->
  ring_ok W block t -> wf_state st ->
  let s := foldl sha1_exec (st, block) (call_of <$> seq t n) in
  wf_state (fst s) /\ quint (fst s) (t + n) = foldl (fips_op W) (quint st t) (seq t n).
Proof.
  intros HW HM. revert st block t. induction n as [|n IH]; intros st block t Hn Hok Hwf.
  - by rewrite Nat.add_0_r.
  - cbn [seq fmap list_fmap foldl].
    destruct (sha1_exec_quint W M st block t HW HM ltac:(lia) Hok Hwf) as [Hok' Hq].
    pose proof (sha1_exec_wf st block t Hwf) as Hwf'.
    destruct (sha1_exec (st, block) (call_of t)) as [st' block'].
    destruct (IH st' block' (S t) ltac:(lia) Hok' Hwf') as [? Hq'].
    split; [done|]. cbn [fst] in Hq. rewrite <- Hq, <- Hq'. cbn [fst]. f_equal. lia.
Qed.

Lemma words_be block :
  wf_bytes block -> length block = 64%nat ->
  bytes_to_word32_be 16 block = (fun i => be_value (take 4 (drop (i * 4) block))) <$> seq 0 16.
Proof.
  intros Hwf Hlen. apply list_fmap_ext. intros k i Hi. apply lookup_seq in Hi.
  pose proof (wf_drop (i * 4) _ Hwf) as Hw. pose proof (length_drop block (i * 4)) as Hd.
  destruct (drop (i * 4) block) as [|a [|b [|c [|d l]]]]; try (simpl in Hd; lia).
  inv_wf Hw. cbn [take]. by apply get_32_bit_be_spec.
Qed.

Lemma ring_init M : length M = 16%nat -> ring_ok (fips_expand 64 M) M 0.
Proof.
  intros HM. split; [done|]. cbn [Nat.max]. intros s Hs. unfold word_at.
  rewrite Nat.mod_small by lia. rewrite (expand_prefix 0 64) by lia. done.
Qed.

Lemma sha1_transform_fips st block :
  wf_state st -> wf_bytes block -> length block = 64%nat ->
  sha1_transform st block = fips_compress st block.
Proof.
  intros Hst Hwf Hlen. unfold sha1_transform, fips_compress, fips_W.
  rewrite words_be, sha1_program_table by done.
  set (M := _ <$> seq 0 16). assert (length M = 16%nat) as HM by done.
  pose proof (sha1_program_quint _ M st M 80 0 eq_refl HM ltac:(lia) (ring_init M HM) Hst) as [_ Hq].
  change (quint st 0) with (sh_a st, sh_b st, sh_c st, sh_d st, sh_e st) in Hq.
  change (0 + 80)%nat with 80%nat in Hq. revert Hq.
  generalize (foldl sha1_exec (st, M) (call_of <$> seq 0 80)). intros r Hq.
  rewrite <- Hq. reflexivity.
Qed.

Lemma sha1_transform_wf st block : wf_state (sha1_transform st block).
Proof. split_and!; apply u32_range. Qed.

(** * Streaming *)

(** The abstract state of a context: everything fed since [init]. *)
Definition sha1_ok (msg : bytes) (ctx : sha1_context) : Prop :=
  absorbed sha1_transform fips180_iv msg (sx_block ctx) /\ sx_count ctx = u64 (zlen msg).

Lemma sha1_used_mod count : sha1_used count = count mod 64.
Proof. unfold sha1_used. change 63 with (Z.ones 6). by rewrite Z.land_ones. Qed.

Lemma sha1_used_spec (msg : bytes) : Z.to_nat (sha1_used (u64 (zlen msg))) = (length msg mod 64)%nat.
Proof. rewrite sha1_used_mod. unfold zlen. modlia. Qed.

Lemma sha1_init_ok ctx :
  length (bc_buff (sx_block ctx)) = 64%nat -> sx_count ctx = 0 -> sha1_ok [] (sha1_init ctx).
Proof. done. Qed.

Lemma sha1_update_ok msg ctx data :
  sha1_ok msg ctx -> sha1_ok (msg ++ data) (sha1_update ctx data).
Proof.
  intros [Habs Hc]. unfold sha1_ok, sha1_update. cbn [sx_block sx_count].
  rewrite Hc, sha1_used_spec. split; [by apply absorb_spec|].
  rewrite zlen_app. modlia.
Qed.

(** [final] feeds exactly the padding of the standard. *)
Lemma sha1_final_pad msg ctx :
  sha1_ok msg ctx ->
  exists ctx', sha1_ok (fips180_pad msg) ctx' /\
    fst (sha1_final ctx) = sha1_digest_bytes (bc_state (sx_block ctx')).
Proof.
  intros Hok. unfold sha1_final. cbn [fst]. eexists. split; [|reflexivity].
  destruct Hok as [Habs Hc].
  rewrite (padding_slice msg) by (rewrite Hc, sha1_used_mod; modlia).
  rewrite put_64_bit_be_spec. unfold fips180_pad. rewrite app_assoc.
  assert (u64 (Z.shiftl (sx_count ctx) 3) = 8 * zlen msg mod 2 ^ 64) as ->
    by (rewrite Hc, Z.shiftl_mul_pow2 by lia; change (2 ^ 3) with 8; modlia).
  apply sha1_update_ok, sha1_update_ok. by split.
Qed.

(** The digest of everything fed, over the code's own compression function. *)
Definition sha1_digest (msg : bytes) : bytes :=
  sha1_digest_bytes (foldl sha1_transform fips180_iv (full_blocks (fips180_pad msg))).

Lemma sha1_final_ok msg ctx : sha1_ok msg ctx -> fst (sha1_final ctx) = sha1_digest msg.
Proof. intros (ctx' & [[Hst _] _] & ->)%sha1_final_pad. unfold sha1_digest. by rewrite Hst. Qed.

Lemma sha1_chunks_ok msg ctx chunks :
  sha1_ok msg ctx -> sha1_ok (msg ++ concat chunks) (foldl sha1_update ctx chunks).
Proof.
  revert msg ctx. induction chunks as [|c chunks IH]; intros msg ctx Hok; cbn [concat foldl].
  - by rewrite app_nil_r.
  - rewrite app_assoc. by apply IH, sha1_update_ok.
Qed.

Lemma sha1_fresh_ok data : sha1_ok data (sha1_update (sha1_init sha1_fresh) data).
Proof. apply (sha1_update_ok []). done. Qed.

Lemma sha1_is_digest msg : sha1 msg = sha1_digest msg.
Proof. apply sha1_final_ok, sha1_fresh_ok. Qed.

Lemma fold_transform_fips n l st :
  wf_bytes l -> (64 * n <= length l)%nat -> wf_state st ->
  foldl sha1_transform st (blocks n l) = foldl fips_compress st (blocks n l).
Proof.
  revert l st. induction n as [|n IH]; intros l st Hwf Hl Hst; cbn [blocks foldl]; [done|].
  rewrite <- sha1_transform_fips;
    [|done|by apply wf_take|rewrite length_take; lia].
  apply IH; [by apply wf_drop|rewrite length_drop; lia|apply sha1_transform_wf].
Qed.

Lemma wf_fips_pad msg : wf_bytes msg -> wf_bytes (fips180_pad msg).
Proof.
  intros Hwf. unfold fips180_pad.
  apply Forall_app_2; [done|apply Forall_app_2; [apply wf_one_and_zeros|apply wf_be_bytes]].
Qed.

Lemma sha1_fips180_digest msg : wf_bytes msg -> sha1_digest msg = fips180 msg.
Proof.
  intros Hwf. unfold sha1_digest, sha1_digest_bytes, fips180, full_blocks. cbv zeta.
  rewrite fold_transform_fips, !put_32_bit_be_spec; [done|by apply wf_fips_pad|divlia|].
  by split_and!.
Qed.

Lemma length_sha1 msg : length (sha1 msg) = 20%nat.
Proof. rewrite sha1_is_digest. done. Qed.

Lemma wf_sha1 msg : wf_bytes (sha1 msg).
Proof.
  rewrite sha1_is_digest. unfold sha1_digest, sha1_digest_bytes. rewrite !put_32_bit_be_spec.
  repeat (apply Forall_app_2; [apply wf_be_bytes|]). apply wf_be_bytes.
Qed.

Lemma hmac_key_sha1 K :
  (if 64 <? zlen K then memcpy_at (replicate 64 0) 0 (sha1 K) else memcpy_at (replicate 64 0) 0 K)
  = (if 64 <? zlen K then sha1 K else K) ++
      zrep (64 - zlen (if 64 <? zlen K then sha1 K else K)) 0.
Proof.
  destruct (Z.ltb_spec 64 (zlen K)); apply memcpy_zeros; unfold zlen in *.
  - rewrite length_sha1. lia.
  - lia.
Qed.

(** * Properties *)

(** C33: [sha1] computes the digest FIPS 180-1 specifies, for every byte
    string: the sixteen-word ring and the unrolled calls of [transform]
    implement the 80-word schedule. *)
Theorem sha1_fips180 (input : bytes) : wf_bytes input -> sha1 input = fips180 input.
Proof. intros Hwf. by rewrite sha1_is_digest, sha1_fips180_digest. Qed.

Lemma sha1_fips180_witness :
  wf_bytes [97; 98; 99] /\ sha1 [97; 98; 99] = fips180 [97; 98; 99].
Proof.
  assert (wf_bytes [97; 98; 99]) as H by (repeat constructor; lia).
  split; [exact H | apply (sha1_fips180 [97; 98; 99]); exact H].
Defined.

(** [hmac_sha1] is the RFC 2104 keyed hash over [sha1]. *)
Theorem hmac_sha1_rfc2104 (input input_key : bytes) :
  wf_bytes input_key -> hmac_sha1 input input_key = rfc2104 sha1 input_key input.
Proof.
  intros Hk. unfold hmac_sha1, rfc2104. cbv zeta. rewrite hmac_key_sha1.
  set (K := (if 64 <? zlen input_key then sha1 input_key else input_key)).
  assert (wf_bytes K) by (unfold K; destruct (64 <? zlen input_key); [apply wf_sha1|done]).
  assert (zlen K <= 64).
  { unfold K. destruct (Z.ltb_spec 64 (zlen input_key)); [unfold zlen; rewrite length_sha1; lia|lia]. }
  assert (is_key_block (K ++ zrep (64 - zlen K) 0)) as HK' by (apply key_block; done).
  set (K' := K ++ zrep (64 - zlen K) 0) in *.
  rewrite xor_key_twice, xor_key_opad by done.
  rewrite !(sha1_is_digest ((_ <$> K') ++ _)).
  rewrite (sha1_final_ok ((Z.lxor 0x36 <$> K') ++ input)
             (sha1_update (sha1_update (sha1_init sha1_fresh) (Z.lxor 0x36 <$> K')) input))
    by apply sha1_update_ok, sha1_fresh_ok.
  apply sha1_final_ok, sha1_update_ok, sha1_fresh_ok.
Qed.

Lemma hmac_sha1_rfc2104_witness :
  wf_bytes [107] /\ hmac_sha1 [97; 98] [107] = rfc2104 sha1 [107] [97; 98].
Proof.
  assert (wf_bytes [107]) as H by (repeat constructor; lia).
  split; [exact H | apply (hmac_sha1_rfc2104 [97; 98] [107]); exact H].
Defined.

(** [sha1_context::init] does not reset [count], so a context that has
    been finalised cannot be reused: after [init] the digest of "a" on it
    is not SHA-1 of "a". *)
Theorem sha1_init_keeps_count :
  exists ctx : sha1_context,
    (exists msg : bytes, ctx = snd (sha1_final (sha1_update (sha1_init sha1_fresh) msg))) /\
    fst (sha1_final (sha1_update (sha1_init ctx) [97])) <> sha1 [97].
Proof.
  exists (snd (sha1_final (sha1_update (sha1_init sha1_fresh) [98]))).
  split; [by exists [98]|]. vm_compute. discriminate.
Qed.
