(* ===== verification/Buffer.v ===== *)
(** The byte containers of
    src/runtime/include/simple/containers/buffer.hpp: [read_buffer], [buffer]
    and [base_memory_buffer] (whose instance [memory_buffer] carries every
    message of the program). The fields are the source's; [data_] is the block
    it points to. An operation that would touch a byte outside the block, or
    copy from outside its source, is [None].

    The abstract value of a buffer is [contents], the bytes between the read
    and the write cursor, and [headroom], the number of bytes in front that
    [prepend] may use. *)

From S2P Require Import Prelude.

(** * [read_buffer] *)

Record read_buffer := ReadBuffer { rb_data : bytes; rb_read : Z }.

(** [capacity_] is the length of the data the pointer refers to. *)
Definition rb_capacity (b : read_buffer) : Z := zlen (rb_data b).

Definition rb_readable (b : read_buffer) : Z := u64 (rb_capacity b - rb_read b).

(** [read]: the bytes copied out and the advanced buffer. *)
Definition rb_read_bytes (b : read_buffer) (size : Z) : option (bytes * read_buffer) :=
  let size := Z.min (rb_readable b) size in
  dest ← load (rb_data b) (rb_read b) size;
  Some (dest, ReadBuffer (rb_data b) (u64 (rb_read b + size))).

(** [operator+=]: the sum is a [size_t] and can wrap. *)
Definition rb_advance (b : read_buffer) (n : Z) : read_buffer :=
  ReadBuffer (rb_data b) (Z.min (u64 (rb_read b + n)) (rb_capacity b)).

Definition rb_view (b : read_buffer) : option bytes :=
  let sz := rb_readable b in
  if 0 <? sz then load (rb_data b) (rb_read b) sz else Some [].

(** * [buffer] *)

Record buffer := Buffer { data_ : bytes; capacity_ : Z; read_ : Z; write_ : Z }.

(** [buffer(ptr, capacity, prependable)] over a block of [capacity] bytes. *)
Definition buffer_make (ptr : bytes) (capacity prependable : Z) : buffer :=
  if prependable <=? capacity then Buffer ptr capacity prependable prependable
  else Buffer ptr capacity 0 0.

Definition readable (b : buffer) : Z := u64 (write_ b - read_ b).
Definition writable (b : buffer) : Z := u64 (capacity_ b - write_ b).
Definition prependable (b : buffer) : Z := read_ b.

(** The move constructor: the new object and what is left of the other. *)
Definition buffer_move (other : buffer) : buffer * buffer := (other, Buffer [] 0 0 0).

Definition shrink (b : buffer) : option buffer :=
  if read_ b =? 0 then Some b
  else
    let size := readable b in
    src ← load (data_ b) (read_ b) size;
    d ← store (data_ b) 0 src;
    Some (Buffer d (capacity_ b) 0 size).

(** The conversions to [read_buffer] and [std::string_view]. *)
Definition view (b : buffer) : option bytes :=
  let size := readable b in
  if size =? 0 then Some [] else load (data_ b) (read_ b) size.

Definition clear (b : buffer) (prependable : Z) : buffer :=
  let prependable := Z.min prependable (capacity_ b) in
  Buffer (data_ b) (capacity_ b) prependable prependable.

Definition written (b : buffer) (sz : Z) : buffer :=
  Buffer (data_ b) (capacity_ b) (read_ b) (u64 (write_ b + Z.min sz (writable b))).

(** [buffer::append]: what does not fit is dropped. *)
Definition base_append (b : buffer) (buf : bytes) : option buffer :=
  let len := Z.min (zlen buf) (writable b) in
  src ← load buf 0 len;
  d ← store (data_ b) (write_ b) src;
  Some (written (Buffer d (capacity_ b) (read_ b) (write_ b)) len).

Definition peek (b : buffer) (sz : Z) : option bytes :=
  let sz := Z.min sz (readable b) in
  load (data_ b) (read_ b) sz.

Definition rpeek (b : buffer) (sz : Z) : option bytes :=
  let sz := Z.min sz (readable b) in
  load (data_ b) (write_ b - sz) sz.

Definition prepend (b : buffer) (buf : bytes) : option (bool * buffer) :=
  let len := zlen buf in
  if prependable b <? len then Some (false, b)
  else
    d ← store (data_ b) (read_ b - len) buf;
    Some (true, Buffer d (capacity_ b) (read_ b - len) (write_ b)).

Definition read (b : buffer) (sz : Z) : buffer :=
  Buffer (data_ b) (capacity_ b) (u64 (read_ b + Z.min sz (readable b))) (write_ b).

(** [read_until(end)], the pointer as an offset from [data_]. *)
Definition read_until (b : buffer) (e : Z) : buffer :=
  if (read_ b <? e) && (e <=? write_ b)
  then Buffer (data_ b) (capacity_ b) (u64 (read_ b + (e - read_ b))) (write_ b)
  else b.

(** * [base_memory_buffer] *)

Section memory_buffer.
(** The template's [Fixed], and the unspecified bytes of fresh memory. *)
Context (Fixed : Z) (garbage : nat -> Z).

(** [std::allocator<uint8_t>::max_size]. *)
Definition max_size : Z := 2 ^ 63 - 1.

(** The base class and the inline storage: [mb_store = None] says
    [data_ == store_], so the block of the base {e is} the storage;
    otherwise the block is on the heap. *)
Record memory_buffer := MemoryBuffer { mb_base : buffer; mb_store : option bytes }.

Definition mb_make (prependable : Z) : memory_buffer :=
  MemoryBuffer (buffer_make (zrep Fixed 0) Fixed prependable) None.

(** [allocate]: [n] bytes of any value. *)
Definition allocate (n : Z) : bytes := garbage <$> seq 0 (Z.to_nat n).

(** [grow]; the old heap block, if any, is released. *)
Definition grow (mb : memory_buffer) (size : Z) : option memory_buffer :=
  let b := mb_base mb in
  let new_capacity := u64 (capacity_ b + capacity_ b / 2) in
  let new_capacity :=
    if new_capacity <? size then size
    else if max_size <? new_capacity then (if max_size <? size then size else max_size)
    else new_capacity in
  src ← load (data_ b) 0 (write_ b);
  d ← store (allocate new_capacity) 0 src;
  Some (MemoryBuffer (Buffer d new_capacity (read_ b) (write_ b))
          (Some (default (data_ b) (mb_store mb)))).

Definition make_sure_writable (mb : memory_buffer) (len : Z) : option memory_buffer :=
  let sz := writable (mb_base mb) in
  if sz <? len then grow mb (u64 (capacity_ (mb_base mb) + len - sz)) else Some mb.

Definition mb_append (mb : memory_buffer) (buf : bytes) : option memory_buffer :=
  mb ← make_sure_writable mb (zlen buf);
  b ← base_append (mb_base mb) buf;
  Some (MemoryBuffer b (mb_store mb)).

Definition reserve (mb : memory_buffer) (size : Z) : option memory_buffer :=
  if capacity_ (mb_base mb) <? size then grow mb size else Some mb.

(** The common body of the copy constructors and the copy assignments. *)
Definition copy_from (mb other : memory_buffer) : option memory_buffer :=
  mb ← reserve mb (capacity_ (mb_base other));
  src ← load (data_ (mb_base other)) 0 (write_ (mb_base other));
  d ← store (data_ (mb_base mb)) 0 src;
  Some (MemoryBuffer (Buffer d (capacity_ (mb_base mb)) (read_ (mb_base other))
                        (write_ (mb_base other))) (mb_store mb)).

Definition mb_copy (other : memory_buffer) : option memory_buffer := copy_from (mb_make 0) other.

(** The constructors from a [read_buffer] and from a pointer and a length. *)
Definition mb_of_bytes (buf : bytes) : option memory_buffer := mb_append (mb_make 0) buf.

(** The tail shared by move construction and move assignment: [this] takes
    the cursors and the heap block, or copies the inline storage. *)
Definition take_over (store_ : bytes) (other : memory_buffer)
    : option (memory_buffer * memory_buffer) :=
  let o := mb_base other in
  match mb_store other with
  | Some other_store =>
      Some (MemoryBuffer (Buffer (data_ o) (capacity_ o) (read_ o) (write_ o)) (Some store_),
            MemoryBuffer (Buffer other_store 0 0 0) None)
  | None =>
      src ← load (data_ o) 0 (write_ o);
      d ← store store_ 0 src;
      Some (MemoryBuffer (Buffer d (capacity_ o) (read_ o) (write_ o)) None,
            MemoryBuffer (Buffer (data_ o) 0 0 0) None)
  end.

Definition mb_move (other : memory_buffer) : option (memory_buffer * memory_buffer) :=
  take_over (zrep Fixed 0) other.

(** Move assignment: [temp] takes what [this] had, then [this] takes
    [other]'s; [temp] dies with the old block. *)
Definition mb_move_assign (this other : memory_buffer)
    : option (memory_buffer * memory_buffer) :=
  '(temp, this) ← mb_move this;
  take_over (data_ (mb_base this)) other.

Definition release (mb : memory_buffer) : memory_buffer :=
  match mb_store mb with
  | Some st => MemoryBuffer (clear (Buffer st Fixed (read_ (mb_base mb)) (write_ (mb_base mb))) 0) None
  | None => MemoryBuffer (clear (mb_base mb) 0) None
  end.

(** The inherited operations, on the base. *)
Definition mb_read (mb : memory_buffer) (sz : Z) : memory_buffer :=
  MemoryBuffer (read (mb_base mb) sz) (mb_store mb).

Definition mb_prepend (mb : memory_buffer) (buf : bytes) : option (bool * memory_buffer) :=
  '(ok, b) ← prepend (mb_base mb) buf;
  Some (ok, MemoryBuffer b (mb_store mb)).

Definition mb_clear (mb : memory_buffer) (n : Z) : memory_buffer :=
  MemoryBuffer (clear (mb_base mb) n) (mb_store mb).

Definition mb_shrink (mb : memory_buffer) : option memory_buffer :=
  b ← shrink (mb_base mb);
  Some (MemoryBuffer b (mb_store mb)).

(** [back_insert_iterator::operator=]: one character. *)
Definition push_char (mb : memory_buffer) (c : Z) : option memory_buffer := mb_append mb [c].
End memory_buffer.

Arguments MemoryBuffer : clear implicits.

(** [memory_buffer] is the instance with 1024 inline bytes. *)
Definition memory_buffer_fixed : Z := 1024.

(** * The abstract value *)

Definition contents (b : buffer) : bytes := slice (data_ b) (read_ b) (write_ b).

(** The type invariant. *)
Record buffer_wf (b : buffer) : Prop := BufferWf {
  wf_cursors : 0 <= read_ b <= write_ b;
  wf_write : write_ b <= capacity_ b;
  wf_block : capacity_ b <= zlen (data_ b);
  wf_size : zlen (data_ b) < 2 ^ 63 }.

(** [bwf] brings the arithmetic content of every invariant in the context. *)
Ltac bwf :=
  repeat match goal with
         | H : buffer_wf _ |- _ =>
             pose proof (wf_cursors _ H); pose proof (wf_write _ H);
             pose proof (wf_block _ H); pose proof (wf_size _ H); clear H
         end.

Lemma load_slice m off n :
  0 <= off -> 0 <= n -> off + n <= zlen m -> load m off n = Some (slice m off (off + n)).
Proof. intros. rewrite load_ok by done. unfold slice. do 2 f_equal. lia. Qed.

Lemma readable_ok b : buffer_wf b -> readable b = write_ b - read_ b.
Proof. intros Hb. bwf. apply u64_small. word. Qed.

Lemma writable_ok b : buffer_wf b -> writable b = capacity_ b - write_ b.
Proof. intros Hb. bwf. apply u64_small. word. Qed.

Lemma zlen_contents b : buffer_wf b -> zlen (contents b) = write_ b - read_ b.
Proof. intros Hb. bwf. apply zlen_slice; lia. Qed.

Lemma view_ok b : buffer_wf b -> view b = Some (contents b).
Proof.
  intros Hb. unfold view. rewrite readable_ok by done. bwf.
  destruct (Z.eqb_spec (write_ b - read_ b) 0).
  - unfold contents. replace (write_ b) with (read_ b) by lia. by rewrite slice_nil.
  - rewrite load_slice by lia. unfold contents. do 2 f_equal. lia.
Qed.

Lemma peek_ok b n : buffer_wf b -> 0 <= n -> peek b n = Some (ztake n (contents b)).
Proof.
  intros Hb Hn. unfold peek. rewrite readable_ok by done. pose proof (zlen_contents b Hb). bwf.
  rewrite load_slice by lia. unfold contents in *. f_equal.
  destruct (Z.min_spec n (write_ b - read_ b)) as [[? ->]|[? ->]].
  - by rewrite ztake_slice by lia.
  - rewrite ztake_ge by lia. f_equal. lia.
Qed.

Lemma rpeek_ok b n :
  buffer_wf b -> 0 <= n -> rpeek b n = Some (zdrop (zlen (contents b) - n) (contents b)).
Proof.
  intros Hb Hn. unfold rpeek. rewrite zlen_contents, readable_ok by done. bwf.
  rewrite load_slice by lia. f_equal. unfold contents.
  destruct (Z.min_spec n (write_ b - read_ b)) as [[? ->]|[? ->]].
  - rewrite zdrop_slice by lia. f_equal; lia.
  - unfold zdrop. rewrite Z2Nat.nonpos by lia. rewrite drop_0. f_equal; lia.
Qed.

Lemma read_ok b n :
  buffer_wf b -> 0 <= n ->
  buffer_wf (read b n) /\ contents (read b n) = zdrop n (contents b) /\
  prependable (read b n) = prependable b + Z.min n (zlen (contents b)).
Proof.
  intros Hb Hn. unfold read, prependable. rewrite zlen_contents, readable_ok by done.
  pose proof (zlen_contents b Hb) as Hl. bwf. rewrite u64_small by word. split_and!; [by split; cbn; lia| |done].
  unfold contents in *. cbn. destruct (Z.min_spec n (write_ b - read_ b)) as [[? ->]|[? ->]].
  - by rewrite zdrop_slice by lia.
  - rewrite zdrop_ge by lia. replace (read_ b + (write_ b - read_ b)) with (write_ b) by lia.
    apply slice_nil.
Qed.

(** [read_until] with a pointer into the readable part is [read]. *)
Lemma read_until_ok b e :
  buffer_wf b ->
  read_until b e = if (read_ b <? e) && (e <=? write_ b) then read b (e - read_ b) else b.
Proof.
  intros Hb. unfold read_until, read. rewrite readable_ok by done. bwf.
  destruct (Z.ltb_spec (read_ b) e), (Z.leb_spec e (write_ b)); cbn; try done.
  by rewrite Z.min_l by lia.
Qed.

Lemma clear_ok b n :
  buffer_wf b -> 0 <= n ->
  buffer_wf (clear b n) /\ contents (clear b n) = [] /\
  prependable (clear b n) = Z.min n (capacity_ b).
Proof.
  intros Hb Hn. bwf. split_and!; [|apply slice_nil|done]. split; cbn; lia.
Qed.

Lemma shrink_ok b :
  buffer_wf b ->
  exists b', shrink b = Some b' /\ buffer_wf b' /\ contents b' = contents b /\
    prependable b' = 0 /\ capacity_ b' = capacity_ b /\ zlen (data_ b') = zlen (data_ b) /\
    write_ b' <= write_ b.
Proof.
  intros Hb. unfold shrink. pose proof (zlen_contents b Hb) as Hl.
  destruct (Z.eqb_spec (read_ b) 0) as [Hr|Hr].
  { exists b. split_and!; done || (unfold prependable; lia). }
  rewrite readable_ok by done. bwf. rewrite load_slice by lia. cbn.
  replace (read_ b + (write_ b - read_ b)) with (write_ b) by lia. change (slice _ _ _) with (contents b).
  destruct (store_ok (data_ b) 0 (contents b)) as (d & -> & Hd); [lia..|].
  eexists. split; [reflexivity|]. pose proof (stored_len _ _ _ _ Hd). cbn.
  split_and!; try done; [by split; cbn; lia| |lia].
  unfold contents at 1. cbn. rewrite <- Hl. apply (slice_stored _ 0 _ _ Hd).
Qed.

Lemma prepend_ok b buf :
  buffer_wf b ->
  exists b', prepend b buf = Some (zlen buf <=? prependable b, b') /\ buffer_wf b' /\
    contents b' = (if zlen buf <=? prependable b then buf ++ contents b else contents b) /\
    prependable b' = (if zlen buf <=? prependable b then prependable b - zlen buf else prependable b) /\
    capacity_ b' = capacity_ b /\ zlen (data_ b') = zlen (data_ b) /\ write_ b' = write_ b.
Proof.
  intros Hb. unfold prepend. pose proof (zlen_nonneg buf).
  destruct (Z.ltb_spec (prependable b) (zlen buf)), (Z.leb_spec (zlen buf) (prependable b)); try lia.
  { exists b. done. }
  unfold prependable in *. assert (0 <= read_ b) by (bwf; lia).
  destruct (store_ok (data_ b) (read_ b - zlen buf) buf) as (d & -> & Hd); [bwf; lia..|].
  cbn. eexists. split; [reflexivity|]. pose proof (stored_len _ _ _ _ Hd) as Hdl. cbn.
  split_and!; try done; [bwf; split; cbn; lia|].
  unfold contents. cbn. bwf. rewrite (slice_app _ _ (read_ b)) by lia.
  rewrite (stored_slice_after _ _ _ _ (read_ b) (write_ b) Hd) by lia.
  f_equal. pose proof (slice_stored _ _ _ _ Hd) as Hs.
  by replace (read_ b - zlen buf + zlen buf) with (read_ b) in Hs by lia.
Qed.

Lemma base_append_ok b buf :
  buffer_wf b ->
  exists b', base_append b buf = Some b' /\ buffer_wf b' /\
    contents b' = contents b ++ ztake (capacity_ b - write_ b) buf /\
    prependable b' = prependable b /\ capacity_ b' = capacity_ b /\
    zlen (data_ b') = zlen (data_ b) /\
    write_ b' = write_ b + Z.min (zlen buf) (capacity_ b - write_ b).
Proof.
  intros Hb. unfold base_append. pose proof (zlen_nonneg buf). rewrite writable_ok by done.
  set (len := Z.min (zlen buf) (capacity_ b - write_ b)).
  assert (0 <= len <= zlen buf) as Hlen by (bwf; lia).
  rewrite load_ok by lia. rewrite zdrop_0. cbn [mbind option_bind].
  assert (zlen (ztake len buf) = len) as Hlt by (rewrite zlen_ztake; lia).
  destruct (store_ok (data_ b) (write_ b) (ztake len buf)) as (d & -> & Hd); [bwf; lia..|].
  cbn [mbind option_bind]. eexists. split; [reflexivity|].
  pose proof (stored_len _ _ _ _ Hd) as Hdl. pose proof (writable_ok b Hb) as Hw.
  unfold written, writable in *. cbn. rewrite Hw.
  replace (Z.min len (capacity_ b - write_ b)) with len by lia.
  bwf. rewrite u64_small by word. split_and!; try done; [split; cbn; lia|].
  unfold contents. cbn. rewrite (slice_app _ _ (write_ b)) by lia.
  rewrite (stored_slice_before _ _ _ _ (read_ b) (write_ b) Hd) by lia. f_equal.
  rewrite <- Hlt at 1. rewrite (slice_stored _ _ _ _ Hd). subst len.
  destruct (Z.min_spec (zlen buf) (capacity_ b - write_ b)) as [[? ->]|[? ->]]; [|done].
  rewrite !ztake_ge by lia. done.
Qed.

(** * Sequences of operations

    The abstract machine: headroom and contents. *)

Record abuf := ABuf { a_head : Z; a_bytes : bytes }.

Inductive buf_op :=
  | OpAppend (bs : bytes) | OpPrepend (bs : bytes) | OpRead (n : Z)
  | OpPeek (n : Z) | OpRpeek (n : Z) | OpView
  | OpClear (n : Z) | OpShrink | OpReserve (n : Z) | OpCopy | OpMove | OpRelease.

Inductive buf_out := OutUnit | OutBool (b : bool) | OutBytes (bs : bytes).

Definition abs_step (a : abuf) (op : buf_op) : buf_out * abuf :=
  match op with
  | OpAppend bs => (OutUnit, ABuf (a_head a) (a_bytes a ++ bs))
  | OpPrepend bs =>
      if zlen bs <=? a_head a then (OutBool true, ABuf (a_head a - zlen bs) (bs ++ a_bytes a))
      else (OutBool false, a)
  | OpRead n => (OutUnit, ABuf (a_head a + Z.min n (zlen (a_bytes a))) (zdrop n (a_bytes a)))
  | OpPeek n => (OutBytes (ztake n (a_bytes a)), a)
  | OpRpeek n => (OutBytes (zdrop (zlen (a_bytes a) - n) (a_bytes a)), a)
  | OpView => (OutBytes (a_bytes a), a)
  | OpClear n => (OutUnit, ABuf n [])
  | OpShrink => (OutUnit, ABuf 0 (a_bytes a))
  | OpReserve _ | OpCopy | OpMove => (OutUnit, a)
  | OpRelease => (OutUnit, ABuf 0 [])
  end.

(** The bytes an operation can make the buffer need. *)
Definition op_cost (op : buf_op) : Z :=
  match op with OpAppend bs => zlen bs | OpReserve n => n | _ => 0 end.

Fixpoint abs_run (a : abuf) (ops : list buf_op) : list buf_out * abuf :=
  match ops with
  | [] => ([], a)
  | op :: ops =>
      let '(out, a) := abs_step a op in
      let '(outs, a) := abs_run a ops in
      (out :: outs, a)
  end.

Section refinement.
Context (Fixed : Z) (garbage : nat -> Z).

(** [OpCopy] and [OpMove] go on with the copy, or with the target of the
    move. *)
Definition impl_step (mb : memory_buffer) (op : buf_op) : option (buf_out * memory_buffer) :=
  match op with
  | OpAppend bs => mb ← mb_append garbage mb bs; Some (OutUnit, mb)
  | OpPrepend bs => '(ok, mb) ← mb_prepend mb bs; Some (OutBool ok, mb)
  | OpRead n => Some (OutUnit, mb_read mb n)
  | OpPeek n => bs ← peek (mb_base mb) n; Some (OutBytes bs, mb)
  | OpRpeek n => bs ← rpeek (mb_base mb) n; Some (OutBytes bs, mb)
  | OpView => bs ← view (mb_base mb); Some (OutBytes bs, mb)
  | OpClear n => Some (OutUnit, mb_clear mb n)
  | OpShrink => mb ← mb_shrink mb; Some (OutUnit, mb)
  | OpReserve n => mb ← reserve garbage mb n; Some (OutUnit, mb)
  | OpCopy => mb ← mb_copy Fixed garbage mb; Some (OutUnit, mb)
  | OpMove => '(mb, _) ← mb_move Fixed mb; Some (OutUnit, mb)
  | OpRelease => Some (OutUnit, release Fixed mb)
  end.

Fixpoint impl_run (mb : memory_buffer) (ops : list buf_op)
    : option (list buf_out * memory_buffer) :=
  match ops with
  | [] => Some ([], mb)
  | op :: ops =>
      '(out, mb) ← impl_step mb op;
      '(outs, mb) ← impl_run mb ops;
      Some (out :: outs, mb)
  end.

(** Sizes are not negative and [clear] asks for no more headroom than the
    inline storage has. *)
Definition op_ok (op : buf_op) : Prop :=
  match op with
  | OpRead n | OpPeek n | OpRpeek n | OpReserve n => 0 <= n
  | OpClear n => 0 <= n <= Fixed
  | _ => True
  end.

Definition ops_cost (ops : list buf_op) : Z := foldr (fun op s => op_cost op + s) 0 ops.

Definition mb_wf (mb : memory_buffer) : Prop :=
  buffer_wf (mb_base mb) /\
  match mb_store mb with None => zlen (data_ (mb_base mb)) = Fixed | Some st => zlen st = Fixed end.

Lemma zlen_allocate n : 0 <= n -> zlen (allocate garbage n) = n.
Proof. intros. unfold allocate, zlen. rewrite length_fmap, length_seq. lia. Qed.

(** Storing the bytes up to the write cursor preserves the contents. *)
Lemma slice_moved m d m' r w :
  0 <= r <= w -> w <= zlen m -> stored m' 0 (slice m 0 w) d -> slice d r w = slice m r w.
Proof.
  intros Hr Hw Hd. pose proof (slice_stored _ _ _ _ Hd) as Hs.
  rewrite zlen_slice, Z.sub_0_r, Z.add_0_l in Hs by lia.
  rewrite <- (Z.add_0_l r), <- (zdrop_slice d), <- (zdrop_slice m), Hs by lia. done.
Qed.

(** What an operation that only makes room leaves unchanged. *)
Record roomier (size : Z) (mb mb' : memory_buffer) : Prop := Roomier {
  rm_wf : mb_wf mb';
  rm_contents : contents (mb_base mb') = contents (mb_base mb);
  rm_read : read_ (mb_base mb') = read_ (mb_base mb);
  rm_write : write_ (mb_base mb') = write_ (mb_base mb);
  rm_ge : capacity_ (mb_base mb) <= capacity_ (mb_base mb');
  rm_size : size <= capacity_ (mb_base mb');
  rm_le : capacity_ (mb_base mb') <= Z.max size (capacity_ (mb_base mb) + capacity_ (mb_base mb) / 2);
  rm_le' : capacity_ (mb_base mb') <= Z.max (capacity_ (mb_base mb)) (size + size / 2) }.

Lemma roomier_refl size mb :
  mb_wf mb -> size <= capacity_ (mb_base mb) -> roomier size mb mb.
Proof. intros Hmb Hs. pose proof Hmb as [Hb _]. bwf. split; try done; lia. Qed.

Lemma grow_ok mb size :
  mb_wf mb -> capacity_ (mb_base mb) < size <= max_size ->
  exists mb', grow garbage mb size = Some mb' /\ roomier size mb mb'.
Proof.
  intros [Hb Hst] Hsize. unfold grow. set (b := mb_base mb) in *.
  rewrite load_slice by (bwf; lia). rewrite Z.add_0_l. cbn [mbind option_bind].
  rewrite u64_small by (unfold is_u64, max_size in *; bwf; lia).
  set (cap := if _ <? size then size else _).
  assert (size <= cap <= Z.max size (capacity_ b + capacity_ b / 2) /\ cap <= max_size) as [Hcap Hmax].
  { unfold cap. destruct (Z.ltb_spec (capacity_ b + capacity_ b / 2) size); [lia|].
    destruct (Z.ltb_spec max_size (capacity_ b + capacity_ b / 2)); [|lia].
    destruct (Z.ltb_spec max_size size); lia. }
  assert (0 <= capacity_ b) by (bwf; lia).
  destruct (store_ok (allocate garbage cap) 0 (slice (data_ b) 0 (write_ b)))
    as (d & -> & Hd); [lia| |].
  { rewrite zlen_slice, zlen_allocate by (bwf; lia). bwf. lia. }
  cbn [mbind option_bind]. eexists. split; [reflexivity|].
  pose proof (stored_len _ _ _ _ Hd) as Hl. rewrite zlen_allocate in Hl by lia.
  split; cbn [mb_base data_ capacity_ read_ write_]; try done; try (fold b; lia).
  - split; cbn; [unfold max_size in *; bwf; split; cbn; lia|]. by destruct (mb_store mb).
  - unfold contents. cbn. fold b. bwf. eapply slice_moved; [lia..|exact Hd].
Qed.

Lemma reserve_ok mb size :
  mb_wf mb -> size <= max_size ->
  exists mb', reserve garbage mb size = Some mb' /\ roomier size mb mb'.
Proof.
  intros Hmb Hs. unfold reserve. destruct (Z.ltb_spec (capacity_ (mb_base mb)) size).
  - by apply grow_ok.
  - exists mb. split; [done|]. by apply roomier_refl.
Qed.

Lemma make_sure_writable_ok mb len :
  mb_wf mb -> 0 <= len -> write_ (mb_base mb) + len <= max_size ->
  exists mb', make_sure_writable garbage mb len = Some mb' /\
    roomier (write_ (mb_base mb) + len) mb mb'.
Proof.
  intros Hmb Hl Hs. unfold make_sure_writable. pose proof Hmb as [Hb _].
  rewrite writable_ok by done.
  destruct (Z.ltb_spec (capacity_ (mb_base mb) - write_ (mb_base mb)) len) as [Hlt|Hge].
  - replace (capacity_ (mb_base mb) + len - (capacity_ (mb_base mb) - write_ (mb_base mb)))
      with (write_ (mb_base mb) + len) by lia.
    rewrite u64_small by (unfold is_u64, max_size in *; bwf; lia).
    apply grow_ok; [done|bwf; lia].
  - exists mb. split; [done|]. apply roomier_refl; [done|lia].
Qed.

Lemma mb_append_ok mb bs :
  mb_wf mb -> write_ (mb_base mb) + zlen bs <= max_size ->
  exists mb', mb_append garbage mb bs = Some mb' /\ mb_wf mb' /\
    contents (mb_base mb') = contents (mb_base mb) ++ bs /\
    read_ (mb_base mb') = read_ (mb_base mb) /\
    write_ (mb_base mb') = write_ (mb_base mb) + zlen bs /\
    capacity_ (mb_base mb) <= capacity_ (mb_base mb') <=
      Z.max (capacity_ (mb_base mb))
        (write_ (mb_base mb) + zlen bs + (write_ (mb_base mb) + zlen bs) / 2).
Proof.
  intros Hmb Hs. unfold mb_append. pose proof (zlen_nonneg bs).
  destruct (make_sure_writable_ok mb (zlen bs)) as (m & -> & Hm); [done..|].
  cbn [mbind option_bind]. destruct Hm as [[Hb Hst] Hc Hr Hw Hge Hsz _ Hle].
  destruct (base_append_ok (mb_base m) bs Hb) as (b' & -> & Hb' & Hc' & Hr' & Hcap & Hd & Hw').
  cbn [mbind option_bind]. eexists. split; [reflexivity|]. cbn [mb_base].
  unfold prependable in *. split_and!; try lia.
  - split; cbn; [done|]. destruct (mb_store m); [done|lia].
  - rewrite Hc', Hc, ztake_ge by lia. done.
Qed.

(** [copy_from] into a buffer with room, and [take_over]. *)
Lemma copy_ok mb :
  0 <= Fixed < 2 ^ 63 -> mb_wf mb ->
  exists mb', mb_copy Fixed garbage mb = Some mb' /\ mb_wf mb' /\
    contents (mb_base mb') = contents (mb_base mb) /\
    read_ (mb_base mb') = read_ (mb_base mb) /\ write_ (mb_base mb') = write_ (mb_base mb) /\
    Fixed <= capacity_ (mb_base mb') <= Z.max (capacity_ (mb_base mb)) (Fixed + Fixed / 2).
Proof.
  intros HF [Hb _]. unfold mb_copy, copy_from.
  assert (mb_wf (mb_make Fixed 0)) as Hmake.
  { unfold mb_make, buffer_make. rewrite (proj2 (Z.leb_le 0 Fixed)) by lia.
    split; cbn; [split; cbn|]; rewrite ?zlen_zrep; lia. }
  destruct (reserve_ok (mb_make Fixed 0) (capacity_ (mb_base mb))) as (m & -> & Hm);
    [done|unfold max_size; bwf; lia|].
  destruct Hm as [[Hb' Hst] _ _ _ Hge Hsz Hle _]. cbn [mbind option_bind].
  assert (capacity_ (mb_base (mb_make Fixed 0)) = Fixed) as E.
  { unfold mb_make, buffer_make. by destruct (0 <=? Fixed). }
  rewrite E in *. rewrite load_slice by (bwf; lia). rewrite Z.add_0_l.
  cbn [mbind option_bind].
  assert (zlen (slice (data_ (mb_base mb)) 0 (write_ (mb_base mb))) = write_ (mb_base mb)) as Hzl
    by (rewrite zlen_slice by (bwf; lia); lia).
  destruct (store_ok (data_ (mb_base m)) 0 (slice (data_ (mb_base mb)) 0 (write_ (mb_base mb))))
    as (d & -> & Hd); [lia|bwf; lia|].
  cbn [mbind option_bind]. eexists. split; [reflexivity|]. cbn.
  pose proof (stored_len _ _ _ _ Hd) as Hl. split_and!; try done; try lia.
  - split; cbn; [bwf; split; cbn; lia|]. destruct (mb_store m); [done|lia].
  - unfold contents. cbn. bwf. eapply slice_moved; [lia..|exact Hd].
Qed.

Lemma take_over_ok st mb :
  0 <= Fixed < 2 ^ 63 -> mb_wf mb -> zlen st = Fixed ->
  exists mb' other, take_over st mb = Some (mb', other) /\ mb_wf mb' /\ mb_wf other /\
    contents (mb_base mb') = contents (mb_base mb) /\
    read_ (mb_base mb') = read_ (mb_base mb) /\ write_ (mb_base mb') = write_ (mb_base mb) /\
    capacity_ (mb_base mb') = capacity_ (mb_base mb) /\
    contents (mb_base other) = [] /\ capacity_ (mb_base other) = 0 /\ mb_store other = None.
Proof.
  intros HF [Hb Hst] Hl. unfold take_over. destruct (mb_store mb) as [o|] eqn:E.
  - do 2 eexists. split; [reflexivity|]. cbn. split_and!; try done.
    + split; cbn; [|done]. bwf. split; cbn; lia.
    + split; cbn; [|done]. bwf. split; cbn; lia.
  - rewrite load_slice, Z.add_0_l by (bwf; lia). cbn [mbind option_bind].
    assert (zlen (slice (data_ (mb_base mb)) 0 (write_ (mb_base mb))) = write_ (mb_base mb)) as Hzl
      by (rewrite zlen_slice by (bwf; lia); lia).
    destruct (store_ok st 0 (slice (data_ (mb_base mb)) 0 (write_ (mb_base mb))))
      as (d & -> & Hd); [lia|bwf; lia|].
    cbn [mbind option_bind]. pose proof (stored_len _ _ _ _ Hd) as Hdl.
    do 2 eexists. split; [reflexivity|]. cbn. split_and!; try done.
    + split; cbn; [|lia]. bwf. split; cbn; lia.
    + split; cbn; [|done]. bwf. split; cbn; lia.
    + unfold contents. cbn. bwf. eapply slice_moved; [lia..|exact Hd].
Qed.

(** The simulation relation; [T] bounds what has been asked for so far. *)
Record simulates (T : Z) (mb : memory_buffer) (a : abuf) : Prop := Simulates {
  sim_wf : mb_wf mb;
  sim_contents : contents (mb_base mb) = a_bytes a;
  sim_head : read_ (mb_base mb) = a_head a;
  sim_fixed : Fixed <= T;
  sim_write : write_ (mb_base mb) <= T;
  sim_cap : Fixed <= capacity_ (mb_base mb) <= 2 * T }.

Lemma impl_step_ok T mb a op :
  0 <= Fixed -> simulates T mb a -> op_ok op -> T + op_cost op <= 2 ^ 61 ->
  exists mb', impl_step mb op = Some (fst (abs_step a op), mb') /\
    simulates (T + op_cost op) mb' (snd (abs_step a op)).
Proof.
  intros HF [Hmb Hc Hr HT Hw Hcap] Hop Hcost. pose proof Hmb as [Hb Hst].
  assert (0 <= Fixed < 2 ^ 63) as HF' by (change (2 ^ 61) with (2 ^ 63 / 4) in *; destruct op; cbn in *; try lia;
    pose proof (zlen_nonneg bs); lia).
  destruct op as [bs|bs|n|n|n| |n| |n| | |]; cbn [impl_step op_cost op_ok abs_step] in *.
  - pose proof (zlen_nonneg bs).
    destruct (mb_append_ok mb bs) as (mb' & -> & Hmb' & Hc' & Hr' & Hw' & Hcap');
      [done|unfold max_size; lia|].
    exists mb'. split; [done|]. rewrite <- Hc, <- Hr.
    split; cbn [fst snd a_bytes a_head]; try done; lia.
  - unfold mb_prepend. destruct (prepend_ok (mb_base mb) bs Hb) as (b' & -> & Hb' & Hc' & Hr' & ? & Hd & ?).
    unfold prependable in *. cbn. rewrite <- Hr, <- Hc.
    destruct (zlen bs <=? read_ (mb_base mb)); eexists; (split; [reflexivity|]);
      (split; cbn; [split; [done|destruct (mb_store mb); [done|cbn in *; lia]]|congruence|lia..]).
  - destruct (read_ok (mb_base mb) n Hb Hop) as (Hb' & Hc' & Hr').
    eexists. split; [reflexivity|]. unfold prependable in *.
    split; cbn [mb_read mb_base snd a_bytes a_head fst]; try done; try (cbn; lia); congruence.
  - rewrite peek_ok by done. cbn. rewrite Hc. eexists. split; [reflexivity|]. split; done || lia.
  - rewrite rpeek_ok by done. cbn. rewrite Hc. eexists. split; [reflexivity|]. split; done || lia.
  - rewrite view_ok by done. cbn. rewrite Hc. eexists. split; [reflexivity|]. split; done || lia.
  - destruct (clear_ok (mb_base mb) n Hb ltac:(lia)) as (Hb' & Hc' & Hr').
    eexists. split; [reflexivity|].
    split; cbn [mb_clear mb_base snd a_bytes a_head fst]; try done; cbn; lia.
  - unfold mb_shrink. destruct (shrink_ok (mb_base mb) Hb) as (b' & -> & Hb' & Hc' & Hr' & ? & Hd & ?).
    unfold prependable in *. cbn. eexists. split; [reflexivity|].
    split; cbn; [split; [done|destruct (mb_store mb); [done|cbn in *; lia]]|congruence|lia..].
  - destruct (reserve_ok mb n) as (m & -> & [Hm Hc' Hr' Hw' ? ? _ ?]); [done|unfold max_size; lia|].
    cbn. eexists. split; [reflexivity|]. split; try done; try lia; cbn; congruence.
  - destruct (copy_ok mb HF' Hmb) as (m & -> & Hm & Hc' & Hr' & Hw' & ?).
    cbn. eexists. split; [reflexivity|]. split; try done; try lia; congruence.
  - unfold mb_move. destruct (take_over_ok (zrep Fixed 0) mb HF' Hmb)
      as (m & o & -> & Hm & _ & Hc' & Hr' & Hw' & Hcap' & _); [by apply zlen_zrep|].
    cbn. eexists. split; [reflexivity|]. split; try done; try lia; congruence.
  - eexists. split; [reflexivity|]. unfold release.
    destruct (mb_store mb); (split; cbn; [split; cbn; [split; cbn; bwf; lia|done]|apply slice_nil|lia..]).
Qed.

Lemma ops_cost_nonneg ops : Forall op_ok ops -> 0 <= ops_cost ops.
Proof.
  unfold ops_cost. induction 1 as [|op ops Hop _ IH]; cbn [foldr]; [lia|].
  destruct op; cbn [op_cost op_ok] in *; try lia. pose proof (zlen_nonneg bs). lia.
Qed.

Lemma impl_run_ok T mb a ops :
  0 <= Fixed -> simulates T mb a -> Forall op_ok ops -> T + ops_cost ops <= 2 ^ 61 ->
  exists mb', impl_run mb ops = Some (fst (abs_run a ops), mb') /\
    simulates (T + ops_cost ops) mb' (snd (abs_run a ops)).
Proof.
  intros HF Hsim Hops. revert T mb a Hsim.
  induction Hops as [|op ops Hop Hops IH]; intros T mb a Hsim HT; cbn [impl_run abs_run ops_cost foldr].
  - exists mb. split; [done|]. cbn. by rewrite Z.add_0_r.
  - pose proof (ops_cost_nonneg ops Hops). cbn [ops_cost foldr] in HT. fold (ops_cost ops) in *.
    destruct (impl_step_ok T mb a op HF Hsim Hop) as (mb' & -> & Hsim'); [lia|].
    destruct (abs_step a op) as [out a']. cbn [fst snd mbind option_bind] in *.
    destruct (IH _ _ _ Hsim') as (mb'' & -> & Hsim''); [lia|].
    destruct (abs_run a' ops) as [outs a'']. cbn [fst snd mbind option_bind] in *.
    exists mb''. split; [done|]. by rewrite Z.add_assoc.
Qed.

Lemma mb_make_simulates : 0 <= Fixed < 2 ^ 63 -> simulates Fixed (mb_make Fixed 0) (ABuf 0 []).
Proof.
  intros HF. unfold mb_make, buffer_make. rewrite (proj2 (Z.leb_le 0 Fixed)) by lia.
  assert (zlen (zrep Fixed 0) = Fixed) by (apply zlen_zrep; lia).
  split; cbn; try lia; [|apply slice_nil]. split; cbn; [split; cbn; lia|done].
Qed.
End refinement.

(** * Properties *)

(** C34: [base_memory_buffer] refines a byte queue with headroom. Any sequence
    of appends (with growth out of the inline storage), prepends, reads,
    peeks at either end, clears, shrinks, reservations, copies, moves and
    releases, from a fresh buffer and up to 2^61 bytes, never touches memory
    out of bounds, returns what the queue returns and ends with its
    contents. *)
Theorem memory_buffer_refines (Fixed : Z) (garbage : nat -> Z) (ops : list buf_op) :
  0 <= Fixed -> Forall (op_ok Fixed) ops -> Fixed + ops_cost ops <= 2 ^ 61 ->
  exists mb, impl_run Fixed garbage (mb_make Fixed 0) ops = Some (fst (abs_run (ABuf 0 []) ops), mb) /\
    contents (mb_base mb) = a_bytes (snd (abs_run (ABuf 0 []) ops)) /\
    prependable (mb_base mb) = a_head (snd (abs_run (ABuf 0 []) ops)).
Proof.
  intros HF Hops HT. pose proof (ops_cost_nonneg Fixed ops Hops).
  destruct (impl_run_ok Fixed garbage Fixed (mb_make Fixed 0) (ABuf 0 []) ops) as (mb & -> & Hsim);
    [done|apply mb_make_simulates; lia|done|done|].
  exists mb. split; [done|]. split; apply Hsim.
Qed.

Lemma memory_buffer_refines_witness :
  let ops := [OpClear 4; OpAppend [1; 2; 3; 4; 5; 6; 7; 8; 9]; OpPrepend [0; 0]; OpMove; OpView] in
  Forall (op_ok 8) ops /\ 8 + ops_cost ops <= 2 ^ 61 /\
  exists mb, impl_run 8 (fun _ => 170) (mb_make 8 0) ops = Some (fst (abs_run (ABuf 0 []) ops), mb) /\
    contents (mb_base mb) = a_bytes (snd (abs_run (ABuf 0 []) ops)) /\
    prependable (mb_base mb) = a_head (snd (abs_run (ABuf 0 []) ops)).
Proof.
  intros ops.
  assert (Forall (op_ok 8) ops) as H1 by (repeat constructor; cbn; lia).
  assert (8 + ops_cost ops <= 2 ^ 61) as H2 by (vm_compute; discriminate).
  split; [exact H1|]. split; [exact H2|].
  apply (memory_buffer_refines 8 (fun _ => 170) ops); [lia|exact H1|exact H2].
Defined.

(** Move assignment empties the source and hands its contents over, for
    every combination of inline and heap storage on the two sides; both
    objects stay well formed. *)
Theorem mb_move_assign_moves (Fixed : Z) (this other : memory_buffer) :
  0 <= Fixed < 2 ^ 63 -> mb_wf Fixed this -> mb_wf Fixed other ->
  exists this' other', mb_move_assign Fixed this other = Some (this', other') /\
    mb_wf Fixed this' /\ mb_wf Fixed other' /\
    contents (mb_base this') = contents (mb_base other) /\
    prependable (mb_base this') = prependable (mb_base other) /\
    contents (mb_base other') = [].
Proof.
  intros HF Ht Ho. unfold mb_move_assign, mb_move.
  destruct (take_over_ok Fixed (zrep Fixed 0) this HF Ht)
    as (temp & this1 & -> & _ & [_ Hl] & _ & _ & _ & _ & _ & _ & E); [apply zlen_zrep; lia|].
  cbn [mbind option_bind]. rewrite E in Hl.
  destruct (take_over_ok Fixed (data_ (mb_base this1)) other HF Ho Hl)
    as (t' & o' & -> & ? & ? & ? & ? & _ & _ & ? & _ & _).
  by exists t', o'.
Qed.

Lemma mb_move_assign_moves_witness :
  exists this' other', mb_move_assign 8 (mb_make 8 3) (mb_make 8 0) = Some (this', other') /\
    mb_wf 8 this' /\ mb_wf 8 other' /\
    contents (mb_base this') = contents (mb_base (mb_make 8 0)) /\
    prependable (mb_base this') = prependable (mb_base (mb_make 8 0)) /\
    contents (mb_base other') = [].
Proof.
  apply (mb_move_assign_moves 8 (mb_make 8 3) (mb_make 8 0)).
  - lia.
  - split; [split; [split|..]; vm_compute; congruence|reflexivity].
  - split; [split; [split|..]; vm_compute; congruence|reflexivity].
Defined.

(** [operator+=] can move the cursor back: the sum wraps before the bound is
    applied. *)
Lemma rb_advance_wraps : rb_advance (ReadBuffer [1; 2; 3] 2) (2 ^ 64 - 1) = ReadBuffer [1; 2; 3] 1.
Proof. reflexivity. Qed.

(** * What the clients of [memory_buffer] use

    A buffer represents a byte queue [a]; [T] bounds the bytes asked for. *)

Section clients.
Context (Fixed : Z) (garbage : nat -> Z) (HF : 0 <= Fixed).

Lemma sim_append T mb a bs :
  simulates Fixed T mb a -> T + zlen bs <= 2 ^ 61 ->
  exists mb', mb_append garbage mb bs = Some mb' /\
    simulates Fixed (T + zlen bs) mb' (ABuf (a_head a) (a_bytes a ++ bs)).
Proof.
  intros Hs HT. destruct (impl_step_ok Fixed garbage T mb a (OpAppend bs) HF Hs I HT) as (mb' & E & Hs').
  cbn in E. destruct (mb_append garbage mb bs) as [m|]; [|done]. injection E as ->. by exists mb'.
Qed.

Lemma sim_shrink T mb a :
  simulates Fixed T mb a -> T <= 2 ^ 61 ->
  exists mb', mb_shrink mb = Some mb' /\ simulates Fixed T mb' (ABuf 0 (a_bytes a)).
Proof.
  intros Hs HT. destruct (impl_step_ok Fixed garbage T mb a OpShrink HF Hs I) as (mb' & E & Hs'); [cbn; lia|].
  cbn in E. destruct (mb_shrink mb) as [m|]; [|done]. injection E as ->.
  cbn in Hs'. rewrite Z.add_0_r in Hs'. by exists mb'.
Qed.

Lemma sim_read T mb a n :
  simulates Fixed T mb a -> 0 <= n -> T <= 2 ^ 61 ->
  simulates Fixed T (mb_read mb n) (ABuf (a_head a + Z.min n (zlen (a_bytes a))) (zdrop n (a_bytes a))).
Proof.
  intros Hs Hn HT. destruct (impl_step_ok Fixed garbage T mb a (OpRead n) HF Hs Hn) as (mb' & E & Hs'); [cbn; lia|].
  cbn in E. injection E as <-. cbn in Hs'. by rewrite Z.add_0_r in Hs'.
Qed.

Lemma sim_clear T mb a n :
  simulates Fixed T mb a -> 0 <= n <= Fixed -> T <= 2 ^ 61 ->
  simulates Fixed T (mb_clear mb n) (ABuf n []).
Proof.
  intros Hs Hn HT. destruct (impl_step_ok Fixed garbage T mb a (OpClear n) HF Hs Hn) as (mb' & E & Hs'); [cbn; lia|].
  cbn in E. injection E as <-. cbn in Hs'. by rewrite Z.add_0_r in Hs'.
Qed.

Lemma sim_prepend T mb a bs :
  simulates Fixed T mb a -> T <= 2 ^ 61 ->
  exists mb', mb_prepend mb bs = Some (zlen bs <=? a_head a, mb') /\
    simulates Fixed T mb'
      (if zlen bs <=? a_head a then ABuf (a_head a - zlen bs) (bs ++ a_bytes a) else a).
Proof.
  intros Hs HT. destruct (impl_step_ok Fixed garbage T mb a (OpPrepend bs) HF Hs I) as (mb' & E & Hs'); [cbn; lia|].
  cbn in E. destruct (mb_prepend mb bs) as [[ok m]|]; [|done]. cbn in E, Hs'. rewrite Z.add_0_r in Hs'.
  destruct (zlen bs <=? a_head a); cbn in *; injection E as -> ->; by exists mb'.
Qed.

Lemma sim_view T mb a : simulates Fixed T mb a -> view (mb_base mb) = Some (a_bytes a).
Proof. intros Hs. rewrite view_ok by apply Hs. by rewrite (sim_contents _ _ _ _ Hs). Qed.

Lemma sim_readable T mb a : simulates Fixed T mb a -> readable (mb_base mb) = zlen (a_bytes a).
Proof.
  intros Hs. rewrite <- (sim_contents _ _ _ _ Hs), zlen_contents, readable_ok by apply Hs. done.
Qed.

Lemma sim_mono T T' mb a : simulates Fixed T mb a -> T <= T' -> simulates Fixed T' mb a.
Proof. intros [H1 H2 H3 H4 H5 H6] HT. split; try done; lia. Qed.

Lemma sim_new : Fixed <= 2 ^ 61 -> simulates Fixed Fixed (mb_make Fixed 0) (ABuf 0 []).
Proof. intros H. apply mb_make_simulates. lia. Qed.
End clients.
