(* ===== verification/TrieAC.v ===== *)
(** The keyword filter [trie_ac] (src/runtime/src/utils/trie_ac.cpp): an
    Aho-Corasick automaton whose failure links are compiled into the goto
    table. [None] is an index out of range or a loop out of fuel; the theorems
    show neither happens. The specification speaks of the patterns only:
    [in_trie] is true exactly when a pattern occurs in the text, and [replace]
    stars exactly the positions an occurrence covers.

    State numbers are integers without a bound (the source's [int32_t] would
    overflow after 2^31 trie nodes). *)

From S2P Require Import Prelude.

(** * Data *)

(** [node_set], an unordered set of [node] compared by character. *)
Abbreviation node_set := (list (Z * Z)) (only parsing).

Definition node_find (s : list (Z * Z)) (ch : Z) : option Z :=
  snd <$> find (fun n => Z.eqb (fst n) ch) s.

(** [emplace]: nothing happens when the character is there. *)
Definition node_emplace (s : list (Z * Z)) (ch next : Z) : list (Z * Z) :=
  match node_find s ch with Some _ => s | None => s ++ [(ch, next)] end.

Record ac_dfa := AcDfa {
  goto_t : list (list (Z * Z)); output_t : list Z; ignore_case : bool }.

Record trie_ac := TrieAc {
  data_ : option ac_dfa; reserve_ : option ac_dfa; fail_table_ : list Z; state_ : Z }.

Definition trie_ac_make : trie_ac := TrieAc None None [] 0.

Definition trie_ac_ac_undef_fail : Z := -1.

(** [tolower] in the C locale, on the byte of the character. *)
Definition tolower (ch : Z) : Z := if (65 <=? ch) && (ch <=? 90) then ch + 32 else ch.

Definition fold_case (ignore : bool) (ch : Z) : Z := if ignore then tolower ch else ch.

(** [std::vector::resize]. *)
Definition resize {A} (l : list A) (n : nat) (x : A) : list A := take n l ++ replicate (n - length l) x.

Definition next_state (table : list (list (Z * Z))) (state ch : Z) : Z :=
  if (state <? 0) || (zlen table <=? state) then 0
  else
    match node_find (nth (Z.to_nat state) table []) ch with
    | None => if state =? 0 then 0 else -1
    | Some next => next
    end.

(** * Building *)

Definition trie_init (t : trie_ac) (ignore : bool) : trie_ac :=
  let r := default (AcDfa [] [] false) (reserve_ t) in
  TrieAc (data_ t)
    (Some (AcDfa (resize (goto_t r) 1 []) (resize (output_t r) 1 0) ignore))
    (fail_table_ t) 0.

(** The loop of [update]: the automaton, [state_] and [now]. *)
Fixpoint update_loop (r : ac_dfa) (state now : Z) (str : bytes) : option (ac_dfa * Z * Z) :=
  match str with
  | [] => Some (r, state, now)
  | ch :: str =>
      let ch := fold_case (ignore_case r) ch in
      let next := next_state (goto_t r) now ch in
      if next <=? 0 then
        let state := state + 1 in
        item ← znth (goto_t r) now;
        g ← zset (goto_t r) now (node_emplace item ch state);
        update_loop (AcDfa (g ++ [[]]) (output_t r ++ [0]) (ignore_case r)) state state str
      else update_loop r state next str
  end.

Definition trie_update (t : trie_ac) (str : bytes) : option trie_ac :=
  r ← reserve_ t;
  '(r, state, now) ← update_loop r (state_ t) 0 str;
  out ← znth (output_t r) now;
  o ← zset (output_t r) now (Z.max out (zlen str));
  Some (TrieAc (data_ t) (Some (AcDfa (goto_t r) o (ignore_case r))) (fail_table_ t) state).

Section build.
(** The order in which a range-for visits the set. *)
Context (iter : list (Z * Z) -> list (Z * Z)).

(** [do { prev_state = fail_table_[prev_state]; ret = ...; } while (ret < 0)]. *)
Fixpoint fail_loop (fuel : nat) (g : list (list (Z * Z))) (fail : list Z) (prev_state ch : Z)
    : option Z :=
  match fuel with
  | O => None
  | S fuel =>
      prev_state ← znth fail prev_state;
      let ret := next_state g prev_state ch in
      if ret <? 0 then fail_loop fuel g fail prev_state ch else Some ret
  end.

(** The body of the loop over the children of [state]: failure table,
    output table and queue. *)
Definition fail_child (g : list (list (Z * Z))) (state : Z) (s : list Z * list Z * list Z)
    (it : Z * Z) : option (list Z * list Z * list Z) :=
  let '(fail, out, q) := s in
  f ← znth fail (snd it);
  if negb (f =? trie_ac_ac_undef_fail) then Some s
  else
    let q := q ++ [snd it] in
    ret ← fail_loop (S (length g)) g fail state (fst it);
    fail ← zset fail (snd it) ret;
    val ← znth out ret;
    if 0 <? val then
      o ← znth out (snd it);
      out ← zset out (snd it) (Z.max val o);
      Some (fail, out, q)
    else Some (fail, out, q).

Fixpoint fold_opt {A B} (f : A -> B -> option A) (a : A) (l : list B) : option A :=
  match l with [] => Some a | b :: l => a ← f a b; fold_opt f a l end.

(** [while (!q.empty())]; every state enters the queue once, so the number
    of states is enough fuel. *)
Fixpoint fail_bfs (fuel : nat) (g : list (list (Z * Z))) (s : list Z * list Z * list Z)
    : option (list Z * list Z) :=
  let '(fail, out, q) := s in
  match q with
  | [] => Some (fail, out)
  | state :: q =>
      match fuel with
      | O => None
      | S fuel =>
          item ← znth g state;
          s ← fold_opt (fail_child g state) (fail, out, q) (iter item);
          fail_bfs fuel g s
      end
  end.

(** The loop over the root's children. *)
Definition fail_root (s : list Z * list Z) (it : Z * Z) : option (list Z * list Z) :=
  fail ← zset (fst s) (snd it) 0;
  Some (fail, snd s ++ [snd it]).

Definition build_fail_table (r : ac_dfa) (fail : list Z) : option (ac_dfa * list Z) :=
  match goto_t r with
  | [] => Some (r, fail)
  | root :: _ =>
      let reset_sz := length fail in
      let fail := resize fail (length (goto_t r)) (-1) in
      let reset_sz := Nat.min reset_sz (length fail) in
      let fail := replicate reset_sz (-1) ++ drop reset_sz fail in
      '(fail, q) ← fold_opt fail_root (fail, []) (iter root);
      '(fail, out) ← fail_bfs (length (goto_t r)) (goto_t r) (fail, output_t r, q);
      Some (AcDfa (goto_t r) out (ignore_case r), fail)
  end.

(** One turn of [for (uint8_t ch = 0;; ++ch)]. *)
Definition dfa_char (fail : list Z) (state : Z) (s : list (list (Z * Z)) * list Z) (ch : Z)
    : option (list (list (Z * Z)) * list Z) :=
  let '(g, q) := s in
  let next := next_state g state ch in
  if 0 <? next then Some (g, q ++ [next])
  else
    f ← znth fail state;
    let next := next_state g f ch in
    if 0 <? next then
      item ← znth g state;
      g ← zset g state (node_emplace item ch next);
      Some (g, q)
    else Some (g, q).

Fixpoint dfa_bfs (fuel : nat) (fail : list Z) (s : list (list (Z * Z)) * list Z)
    : option (list (list (Z * Z))) :=
  let '(g, q) := s in
  match q with
  | [] => Some g
  | state :: q =>
      match fuel with
      | O => None
      | S fuel =>
          s ← fold_opt (dfa_char fail state) (g, q) all_bytes;
          dfa_bfs fuel fail s
      end
  end.

Definition convert_to_dfa (r : ac_dfa) (fail : list Z) : option ac_dfa :=
  match goto_t r, fail with
  | [], _ | _, [] => Some r
  | root :: _, _ =>
      g ← dfa_bfs (length (goto_t r)) fail (goto_t r, snd <$> iter root);
      Some (AcDfa g (output_t r) (ignore_case r))
  end.

(** [final]; [shared] tells whether a reader still holds the automaton that
    was current before, so that [use_count() > 1]. *)
Definition trie_final (t : trie_ac) (shared : bool) : option trie_ac :=
  r ← reserve_ t;
  '(r, fail) ← build_fail_table r (fail_table_ t);
  r ← convert_to_dfa r fail;
  Some (TrieAc (Some r) (if shared then None else data_ t) fail (state_ t)).
End build.

(** * Matching *)

Definition get_data (t : trie_ac) : option ac_dfa := data_ t.

(** One turn of the scanning loops. *)
Definition scan_step (d : ac_dfa) (state ch : Z) : Z :=
  let state := next_state (goto_t d) state (fold_case (ignore_case d) ch) in
  if state <? 0 then 0 else state.

Fixpoint in_trie_loop (d : ac_dfa) (state : Z) (str : bytes) : option bool :=
  match str with
  | [] => Some false
  | ch :: str =>
      if ch =? 0 then Some false
      else
        let state := scan_step d state ch in
        out ← znth (output_t d) state;
        if 0 <? out then Some true else in_trie_loop d state str
  end.

Definition in_trie (t : trie_ac) (str : bytes) : option bool :=
  match get_data t with
  | None => Some false
  | Some d => match goto_t d with [] => Some false | _ => in_trie_loop d 0 str end
  end.

(** [next_utf8]: the number of bytes to step over; [str] is the rest of the
    string from the pointer on, the terminating NUL included by the default of
    [nth]. *)
Definition utf8_cont (str : bytes) (size : Z) (i : nat) : bool :=
  let val := nth i str 0 in
  negb ((size <=? Z.of_nat i) || (192 <=? val) || (val <? 128)).

Definition next_utf8 (str : bytes) (size : Z) : nat :=
  let val := nth 0 str 0 in
  if val <? 128 then 1%nat
  else
    let check cnt := if forallb (utf8_cont str size) (seq 1 (cnt - 1)) then cnt else 1%nat in
    if val <? 224 then check 2%nat
    else if val <? 240 then check 3%nat
    else if val <? 248 then check 4%nat
    else if val <? 252 then check 5%nat
    else if val <? 254 then check 6%nat
    else 1%nat.

(** [cnt_utf8]; a step consumes at least one byte. [len] is a [size_t] that
    would wrap if a step went past the end. *)
Fixpoint cnt_utf8 (fuel : nat) (str : bytes) (len : Z) : Z :=
  match fuel with
  | O => 0
  | S fuel =>
      if 0 <? len then
        let n := next_utf8 str len in
        1 + cnt_utf8 fuel (drop n str) (u64 (len - Z.of_nat n))
      else 0
  end.

(** [add_idx(pos)]: marks the [max_sz] positions before [pos]; [None] if the
    unsigned [pos - max_sz] would wrap. *)
Definition mark (idx : list bool) (pos max_sz : nat) : option (list bool) :=
  if (pos <? max_sz)%nat then None
  else Some (imap (fun i b => b || ((pos - max_sz <=? i)%nat && (i <? pos)%nat)) idx).

Fixpoint replace_scan (d : ac_dfa) (state : Z) (i : nat) (str : bytes) (sz : nat) (idx : list bool)
    : option (list bool) :=
  match str with
  | [] => Some idx
  | ch :: str =>
      if ch =? 0 then Some idx
      else
        let state := scan_step d state ch in
        max_sz ← znth (output_t d) state;
        idx ←
          (if 0 <? max_sz then
             mark (match idx with [] => resize idx sz false | _ => idx end) (S i) (Z.to_nat max_sz)
           else Some idx);
        replace_scan d state (S i) str sz idx
  end.

(** The end of the run of marked positions that starts before [end]. *)
Fixpoint run_end (fuel : nat) (idx : list bool) (e : nat) : nat :=
  match fuel with
  | O => e
  | S fuel => if nth e idx false then run_end fuel idx (S e) else e
  end.

(** The rewriting loop: [start], [last] and [temp]. *)
Fixpoint rewrite_loop (fuel : nat) (str : bytes) (idx : list bool) (start last : nat) (temp : bytes)
    : bytes :=
  let sz := length str in
  match fuel with
  | O => temp
  | S fuel =>
      if (start <? sz)%nat then
        if nth start idx false then
          let temp := temp ++ take (start - last) (drop last str) in
          let e := run_end (sz - S start) idx (S start) in
          let cnt := cnt_utf8 (e - start) (drop start str) (Z.of_nat (e - start)) in
          rewrite_loop fuel str idx e e (temp ++ zrep cnt 42)
        else rewrite_loop fuel str idx (S start) last temp
      else if (last <? sz)%nat then temp ++ drop last str else temp
  end.

Definition replace (t : trie_ac) (str : bytes) : option bytes :=
  match get_data t with
  | None => Some str
  | Some d =>
      match goto_t d with
      | [] => Some str
      | _ =>
          idx ← replace_scan d 0 0 str (length str) [];
          match idx with
          | [] => Some str
          | _ => Some (rewrite_loop (S (length str)) str idx 0 0 [])
          end
      end
  end.

(** The session of the header: [init], one [update] per pattern, [final]. *)
Definition load_patterns (iter : list (Z * Z) -> list (Z * Z)) (t : trie_ac) (ignore : bool)
    (patterns : list bytes) (shared : bool) : option trie_ac :=
  t ← fold_opt trie_update (trie_init t ignore) patterns;
  trie_final iter t shared.

(** * Longest suffixes

    [lsuf L w] is the longest suffix of [w] in the set of words [L]: the
    label of the state the automaton is in after reading [w]. [best P w] is
    the length of the longest pattern that ends [w]. *)

Abbreviation word := (list Z) (only parsing).

Fixpoint lsuf (L : list (list Z)) (w : list Z) : list Z :=
  if decide (w ∈ L) then w else match w with [] => [] | _ :: w' => lsuf L w' end.

Fixpoint best (P : list (list Z)) (w : list Z) : Z :=
  if decide (w ∈ P) then zlen w else match w with [] => 0 | _ :: w' => best P w' end.

Definition prefix_closed (L : list (list Z)) : Prop := forall w c, w ++ [c] ∈ L -> w ∈ L.

Section suffixes.
Context (L P : list (list Z)) (Hnil : [] ∈ L) (Hclosed : prefix_closed L)
  (HPL : forall p, p ∈ P -> p ∈ L).

Lemma lsuf_self w : w ∈ L -> lsuf L w = w.
Proof. destruct w; cbn; by intros; rewrite decide_True by done. Qed.

Lemma lsuf_cons c w : c :: w ∉ L -> lsuf L (c :: w) = lsuf L w.
Proof. intros. cbn. by rewrite decide_False by done. Qed.

Lemma lsuf_in w : lsuf L w ∈ L.
Proof. induction w; cbn; destruct (decide _); done. Qed.

Lemma lsuf_suffix w : lsuf L w `suffix_of` w.
Proof.
  induction w as [|c w IH]; cbn; destruct (decide _); try done.
  by apply suffix_cons_r.
Qed.

Lemma suffix_cons_cases (v w : list Z) c : v `suffix_of` c :: w -> v = c :: w \/ v `suffix_of` w.
Proof. intros [[|a k] E]; [by left|right]. exists k. by injection E. Qed.

Lemma lsuf_longest v w : v ∈ L -> v `suffix_of` w -> v `suffix_of` lsuf L w.
Proof.
  intros Hv. induction w as [|c w IH]; intros Hs; cbn; destruct (decide _) as [|Hn]; try done.
  destruct (suffix_cons_cases v w c Hs) as [->|Hs']; [done|by apply IH].
Qed.

(** The transition law of the automaton. *)
Lemma lsuf_snoc w c : lsuf L (w ++ [c]) = lsuf L (lsuf L w ++ [c]).
Proof.
  induction w as [|a w IH].
  - rewrite (lsuf_self []) by done. done.
  - destruct (decide (a :: w ∈ L)) as [Hin|Hn]; [by rewrite (lsuf_self (a :: w)) by done|].
    rewrite (lsuf_cons a w) by done. cbn [app]. rewrite lsuf_cons; [done|].
    intros Hin. apply Hn. by apply (Hclosed (a :: w) c).
Qed.

Lemma best_nonneg w : 0 <= best P w.
Proof. induction w; cbn; destruct (decide _); try done. Qed.

Lemma best_le w : best P w <= zlen w.
Proof.
  induction w as [|c w IH]; cbn [best]; destruct (decide _); try done.
  rewrite zlen_cons. lia.
Qed.

Lemma best_ge p w : p ∈ P -> p `suffix_of` w -> zlen p <= best P w.
Proof.
  intros Hp. induction w as [|c w IH]; intros Hs; cbn; destruct (decide _) as [|Hn].
  - apply suffix_nil_inv in Hs. by subst.
  - apply suffix_nil_inv in Hs. by subst.
  - destruct Hs as [k E]. rewrite E, zlen_app. pose proof (zlen_nonneg k). lia.
  - destruct (suffix_cons_cases p w c Hs) as [->|Hs']; [done|by apply IH].
Qed.

Lemma best_attained w : 0 < best P w -> exists p, p ∈ P /\ p `suffix_of` w /\ zlen p = best P w.
Proof.
  induction w as [|c w IH]; cbn; destruct (decide _) as [Hin|Hn]; try (intros; lia).
  - intros. by exists [].
  - intros. by exists (c :: w).
  - intros (p & ? & ? & ?)%IH. exists p. split_and!; try done. by apply suffix_cons_r.
Qed.

Lemma best_lsuf w : best P (lsuf L w) = best P w.
Proof.
  induction w as [|c w IH]; cbn [lsuf]; destruct (decide _) as [Hin|Hn]; try done.
  cbn [best]. rewrite (decide_False (P := c :: w ∈ P)); [done|]. intros ?%HPL. done.
Qed.

Lemma best_tail c w :
  best P (c :: w) = Z.max (if decide (c :: w ∈ P) then zlen (c :: w) else 0) (best P w).
Proof.
  pose proof (best_le w). pose proof (best_nonneg w). cbn [best].
  destruct (decide _); rewrite ?zlen_cons; lia.
Qed.
End suffixes.

(** * The trie *)

(** [L] lists the labels of the states, by state number. *)
Record trie_ok (L : list (list Z)) (g : list (list (Z * Z))) : Prop := TrieOk {
  tr_len : length g = length L;
  tr_nodup : NoDup L;
  tr_root : L !! 0%nat = Some [];
  tr_closed : prefix_closed L;
  tr_set : forall k es, g !! k = Some es -> NoDup es;
  tr_edge : forall k w es c z, L !! k = Some w -> g !! k = Some es ->
    (c, z) ∈ es <-> exists k', z = Z.of_nat k' /\ L !! k' = Some (w ++ [c]) }.

Lemma node_find_Some s c z : node_find s c = Some z -> (c, z) ∈ s.
Proof.
  unfold node_find. destruct (find _ s) as [[c' z']|] eqn:E; [|done]. intros [= <-].
  apply find_some in E as [Hin Hc]. cbn in Hc. apply Z.eqb_eq in Hc. subst.
  by apply list_elem_of_In.
Qed.

Lemma node_find_None s c z : node_find s c = None -> (c, z) ∉ s.
Proof.
  unfold node_find. destruct (find _ s) as [[c' z']|] eqn:E; [done|]. intros _ Hin.
  apply list_elem_of_In in Hin. pose proof (find_none _ _ E _ Hin) as H. cbn in H. lia.
Qed.

Lemma node_find_app s c z c' :
  node_find (s ++ [(c, z)]) c' =
    match node_find s c' with Some n => Some n | None => if c =? c' then Some z else None end.
Proof.
  unfold node_find. induction s as [|[d y] s IH]; cbn.
  - by destruct (c =? c').
  - by destruct (d =? c').
Qed.

Lemma nodup_label (L : list (list Z)) i j w :
  NoDup L -> L !! i = Some w -> L !! j = Some w -> i = j.
Proof. intros HL. by apply NoDup_lookup. Qed.

(** [next_state] at a state in range. *)
Lemma next_state_at g (k : nat) es c :
  g !! k = Some es ->
  next_state g (Z.of_nat k) c =
    match node_find es c with Some z => z | None => if (k =? 0)%nat then 0 else -1 end.
Proof.
  intros Hg. unfold next_state. pose proof (lookup_lt_Some _ _ _ Hg).
  rewrite (proj2 (Z.ltb_ge _ 0)), (proj2 (Z.leb_gt _ _)) by (unfold zlen; lia). cbn [orb].
  rewrite Nat2Z.id, nth_lookup, Hg. cbn [default from_option id].
  unfold id. destruct (node_find es c); [done|]. by destruct k.
Qed.

Section trie.
Context (L : list (list Z)) (g : list (list (Z * Z))) (Hok : trie_ok L g).

Lemma trie_node k w : L !! k = Some w -> exists es, g !! k = Some es.
Proof.
  intros Hk%lookup_lt_Some. apply lookup_lt_is_Some. by rewrite (tr_len _ _ Hok).
Qed.

Lemma trie_nil : [] ∈ L.
Proof. eapply list_elem_of_lookup_2, (tr_root _ _ Hok). Qed.

Lemma trie_next k w c k' :
  L !! k = Some w -> L !! k' = Some (w ++ [c]) -> next_state g (Z.of_nat k) c = Z.of_nat k'.
Proof.
  intros Hk Hk'. destruct (trie_node k w Hk) as [es Hes]. rewrite (next_state_at _ _ es) by done.
  assert ((c, Z.of_nat k') ∈ es) as Hin by (apply (tr_edge _ _ Hok k w es); eauto).
  destruct (node_find es c) as [z|] eqn:E; [|by eapply node_find_None in E].
  apply node_find_Some in E. apply (tr_edge _ _ Hok k w es) in E as (k'' & -> & Hk''); [|done..].
  f_equal. eapply nodup_label; [apply (tr_nodup _ _ Hok)|done..].
Qed.

Lemma trie_next_none k w c :
  L !! k = Some w -> w ++ [c] ∉ L ->
  next_state g (Z.of_nat k) c = if (k =? 0)%nat then 0 else -1.
Proof.
  intros Hk Hn. destruct (trie_node k w Hk) as [es Hes]. rewrite (next_state_at _ _ es) by done.
  destruct (node_find es c) as [z|] eqn:E; [|done]. destruct Hn.
  apply node_find_Some in E. apply (tr_edge _ _ Hok k w es) in E as (k'' & -> & Hk''); [|done..].
  by eapply list_elem_of_lookup_2.
Qed.

Lemma trie_root_iff k w : L !! k = Some w -> (k = 0%nat <-> w = []).
Proof.
  intros Hk. split; intros ->.
  - rewrite (tr_root _ _ Hok) in Hk. congruence.
  - eapply nodup_label; [apply (tr_nodup _ _ Hok)|done|apply (tr_root _ _ Hok)].
Qed.
End trie.

(** Adding a node below state [k]. *)
Lemma trie_extend L g k w es c :
  trie_ok L g -> L !! k = Some w -> g !! k = Some es -> w ++ [c] ∉ L ->
  trie_ok (L ++ [w ++ [c]])
    (<[k := node_emplace es c (Z.of_nat (length L))]> g ++ [[]]).
Proof.
  intros Hok Hk Hes Hn. pose proof Hok as [Hlen Hnd Hroot Hcl Hset Hedge].
  pose proof (lookup_lt_Some _ _ _ Hk) as Hlt.
  assert (node_emplace es c (Z.of_nat (length L)) = es ++ [(c, Z.of_nat (length L))]) as ->.
  { unfold node_emplace. destruct (node_find es c) as [z|] eqn:E; [|done]. destruct Hn.
    apply node_find_Some in E. apply (Hedge k w es) in E as (k' & -> & Hk'); [|done..].
    by eapply list_elem_of_lookup_2. }
  split.
  - rewrite !length_app, length_insert. cbn. lia.
  - apply list.NoDup_app. split_and!; [done| |apply NoDup_singleton].
    intros v Hv ->%list_elem_of_singleton. done.
  - rewrite lookup_app_l by lia. done.
  - intros v d. rewrite !elem_of_app, !list_elem_of_singleton. intros [Hv|Hv].
    + left. by eapply Hcl.
    + left. apply app_inj_2 in Hv as [-> _]; [|done]. by eapply list_elem_of_lookup_2.
  - intros j fs [Hj|[_ Hj]]%lookup_app_Some.
    + apply list_lookup_insert_Some in Hj as [(_ & <- & _)|[_ Hj]]; [|by eapply Hset].
      apply list.NoDup_app. split_and!; [by eapply Hset| |apply NoDup_singleton].
      intros [c' z] Hin [= -> ->]%list_elem_of_singleton.
      apply (Hedge k w es) in Hin as (k' & _ & Hk'); [|done..]. apply Hn. by eapply list_elem_of_lookup_2.
    + apply list_lookup_singleton_Some in Hj as [_ <-]. apply NoDup_nil_2.
  - intros j v fs d z Hj Hfs. apply lookup_app_Some in Hj as [Hj|[Hge Hj]].
    + pose proof (lookup_lt_Some _ _ _ Hj) as Hjl.
      rewrite lookup_app_l in Hfs by (rewrite length_insert; lia).
      destruct (decide (j = k)) as [->|Hne].
      * rewrite list_lookup_insert_eq in Hfs by lia. injection Hfs as <-.
        assert (v = w) as -> by congruence.
        rewrite elem_of_app, list_elem_of_singleton, (Hedge k w es) by done. split.
        -- intros [(k' & -> & Hk')|[= -> ->]].
           ++ exists k'. split; [done|]. rewrite lookup_app_l; [done|]. by eapply lookup_lt_Some.
           ++ exists (length L). split; [done|]. by rewrite lookup_app_r, Nat.sub_diag.
        -- intros (k' & -> & [Hk'|[Hge Hk']]%lookup_app_Some); [left; by eexists|right].
           apply list_lookup_singleton_Some in Hk' as [? Hk'].
           apply app_inj_tail in Hk' as [_ ->]. do 2 f_equal. lia.
      * rewrite list_lookup_insert_ne in Hfs by done. rewrite (Hedge j v fs) by done. split.
        -- intros (k' & -> & Hk'). exists k'. split; [done|].
           rewrite lookup_app_l; [done|]. by eapply lookup_lt_Some.
        -- intros (k' & -> & [Hk'|[Hge Hk']]%lookup_app_Some); [by eexists|].
           apply list_lookup_singleton_Some in Hk' as [? Hk'].
           apply app_inj_tail in Hk' as [-> ->]. destruct Hne. by eapply nodup_label.
    + apply list_lookup_singleton_Some in Hj as [Hj0 <-].
      rewrite lookup_app_r in Hfs by (rewrite length_insert; lia).
      apply list_lookup_singleton_Some in Hfs as [_ <-]. split; [by intros ?%not_elem_of_nil|].
      intros (k' & _ & [Hk'|[_ Hk']]%lookup_app_Some).
      * destruct Hn. apply (Hcl _ d). by eapply list_elem_of_lookup_2.
      * apply list_lookup_singleton_Some in Hk' as [_ Hk'].
        apply (f_equal length) in Hk'. rewrite !length_app in Hk'. cbn in Hk'. lia.
Qed.

(** * [update] *)

(** The output table before [final]: the pattern's length at the states that
    are patterns. *)
Definition out_ok (L : list (list Z)) (out : list Z) (P : list (list Z)) : Prop :=
  length out = length L /\
  forall k w, L !! k = Some w -> out !! k = Some (if decide (w ∈ P) then zlen w else 0).

Definition folded (ignore : bool) (str : bytes) : bytes := fold_case ignore <$> str.

Lemma update_loop_ok str r L P now w :
  trie_ok L (goto_t r) -> out_ok L (output_t r) P -> (forall p, p ∈ P -> p ∈ L) ->
  L !! now = Some w ->
  exists r' L' now',
    update_loop r (zlen L - 1) (Z.of_nat now) str = Some (r', zlen L' - 1, Z.of_nat now') /\
    ignore_case r' = ignore_case r /\ trie_ok L' (goto_t r') /\ out_ok L' (output_t r') P /\
    L `prefix_of` L' /\ L' !! now' = Some (w ++ folded (ignore_case r) str) /\
    (forall v, v ∈ L' -> v ∈ L \/ v `prefix_of` w ++ folded (ignore_case r) str).
Proof.
  revert r L now w. induction str as [|ch str IH]; intros r L now w Hok Hout HP Hnow.
  - exists r, L, now. cbn. rewrite app_nil_r. split_and!; try done. by left.
  - cbn [update_loop folded fmap list_fmap]. set (c := fold_case (ignore_case r) ch).
    destruct (decide (w ++ [c] ∈ L)) as [Hin|Hn].
    + apply list_elem_of_lookup in Hin as [k' Hk'].
      rewrite (trie_next _ _ Hok _ _ _ _ Hnow Hk').
      assert (k' <> 0%nat) as Hk0.
      { intros E. apply (trie_root_iff _ _ Hok _ _ Hk') in E. by destruct w. }
      destruct (Z.leb_spec (Z.of_nat k') 0) as [?|?]; [lia|].
      destruct (IH r L k' _ Hok Hout HP Hk') as (r' & L' & now' & -> & Hi & ? & ? & ? & ? & ?).
      exists r', L', now'. fold (folded (ignore_case r) str) in *.
      rewrite <- app_assoc in *. done.
    + rewrite (trie_next_none _ _ Hok _ _ _ Hnow Hn).
      replace ((if (now =? 0)%nat then 0 else -1) <=? 0) with true by (by destruct (now =? 0)%nat).
      destruct (trie_node _ _ Hok _ _ Hnow) as [es Hes].
      rewrite znth_nat, Hes. cbn [mbind option_bind].
      rewrite zset_nat by (by eapply lookup_lt_Some). cbn [mbind option_bind].
      replace (zlen L - 1 + 1) with (Z.of_nat (length L)) by (unfold zlen; lia).
      pose proof (trie_extend _ _ _ _ _ _ Hok Hnow Hes Hn) as Hok'.
      set (L1 := L ++ [w ++ [c]]) in *.
      assert (Z.of_nat (length L) = zlen L1 - 1) as HL1
        by (unfold L1; rewrite zlen_app; unfold zlen; cbn; lia).
      match goal with |- context [update_loop ?x _ _ _] => set (r1 := x) end.
      replace (update_loop r1 (Z.of_nat (length L)) (Z.of_nat (length L)) str)
        with (update_loop r1 (zlen L1 - 1) (Z.of_nat (length L)) str) by (by rewrite <- HL1).
      assert (L1 !! length L = Some (w ++ [c])) as Hlast
        by (unfold L1; by rewrite lookup_app_r, Nat.sub_diag).
      destruct (IH r1 L1 (length L) (w ++ [c])) as (r' & L' & now' & -> & Hi & ? & ? & ? & ? & Hv).
      * done.
      * destruct Hout as [Hlo Hout]. split; cbn [r1 output_t].
        { unfold L1. rewrite !length_app, Hlo. done. }
        intros k v [Hk|[Hge Hk]]%lookup_app_Some.
        -- rewrite lookup_app_l by (rewrite Hlo; by eapply lookup_lt_Some). by apply Hout.
        -- apply list_lookup_singleton_Some in Hk as [Hk <-].
           rewrite lookup_app_r by lia. rewrite Hlo, Hk. cbn.
           rewrite decide_False; [done|]. by intros ?%HP.
      * intros p Hp. unfold L1. apply elem_of_app. left. by apply HP.
      * done.
      * exists r', L', now'. cbn [r1 ignore_case] in *. fold (folded (ignore_case r) str) in *.
        rewrite <- app_assoc in *. split_and!; try done.
        -- etrans; [|done]. by apply prefix_app_r.
        -- intros v [Hin|?]%Hv; [|by right]. unfold L1 in Hin. apply elem_of_app in Hin as [?|Hin]; [by left|].
           right. apply list_elem_of_singleton in Hin as ->.
           exists (folded (ignore_case r) str). rewrite <- app_assoc. done.
Qed.

(** The state between [init] and [final]. *)
Definition building (ignore : bool) (P : list (list Z)) (t : trie_ac) : Prop :=
  exists r L, reserve_ t = Some r /\ ignore_case r = ignore /\ trie_ok L (goto_t r) /\
    out_ok L (output_t r) P /\ (forall p, p ∈ P -> p ∈ L) /\ state_ t = zlen L - 1 /\
    (forall w, w ∈ L -> wf_bytes w).

Lemma fold_case_byte ignore c : is_byte c -> is_byte (fold_case ignore c).
Proof.
  unfold fold_case, tolower, is_byte. intros Hc.
  destruct ignore, (Z.leb_spec 65 c), (Z.leb_spec c 90); cbn; lia.
Qed.

Lemma wf_folded ignore str : wf_bytes str -> wf_bytes (folded ignore str).
Proof.
  intros H. apply Forall_fmap. eapply Forall_impl; [|exact H]. intros x. apply fold_case_byte.
Qed.

Lemma wf_prefix_of (v w : bytes) : wf_bytes w -> v `prefix_of` w -> wf_bytes v.
Proof. intros Hw [k ->]. by apply Forall_app in Hw as [? _]. Qed.

Lemma trie_update_ok t ignore P str :
  building ignore P t -> wf_bytes str ->
  exists t', trie_update t str = Some t' /\ building ignore (folded ignore str :: P) t' /\
    data_ t' = data_ t.
Proof.
  intros (r & L & Hr & <- & Hok & Hout & HP & Hst & Hwf) Hstr.
  unfold trie_update. rewrite Hr, Hst. cbn [mbind option_bind].
  destruct (update_loop_ok str r L P 0 [] Hok Hout HP (tr_root _ _ Hok))
    as (r' & L' & now' & E & Hi & Hok' & Hout' & Hpre & Hnow & Hv).
  change (Z.of_nat 0) with 0 in E. rewrite E. cbn [mbind option_bind]. set (p := folded (ignore_case r) str) in *. cbn [app] in *.
  destruct Hout' as [Hlo Hout'].
  rewrite znth_nat, (Hout' _ _ Hnow). cbn [mbind option_bind].
  rewrite zset_nat by (rewrite Hlo; by eapply lookup_lt_Some). cbn [mbind option_bind].
  eexists. split; [reflexivity|]. split; [|done].
  assert (zlen str = zlen p) as Hzl by (unfold p, folded, zlen; by rewrite length_fmap).
  exists (AcDfa (goto_t r') (<[now' := Z.max (if decide (p ∈ P) then zlen p else 0) (zlen str)]> (output_t r'))
            (ignore_case r')), L'.
  split_and!; try done.
  - unfold out_ok. cbn [output_t]. rewrite length_insert. split; [done|]. intros k w Hk.
    destruct (decide (now' = k)) as [<-|Hne].
    + rewrite list_lookup_insert_eq by (rewrite Hlo; by eapply lookup_lt_Some).
      assert (w = p) as -> by congruence. rewrite (decide_True (P := p ∈ p :: P)) by left.
      f_equal. pose proof (zlen_nonneg p). destruct (decide (p ∈ P)); lia.
    + rewrite list_lookup_insert_ne, (Hout' _ _ Hk) by done. f_equal.
      assert (w <> p) by (intros ->; apply Hne; eapply nodup_label; [apply (tr_nodup _ _ Hok')|done..]).
      destruct (decide (w ∈ P)) as [Hin|Hn].
      * rewrite decide_True; [done|by right].
      * rewrite decide_False; [done|]. by intros [?|?]%elem_of_cons.
  - intros q [->|Hq]%elem_of_cons; [by eapply list_elem_of_lookup_2|].
    apply HP in Hq. destruct Hpre as [k ->]. apply elem_of_app. by left.
  - intros w [Hin|Hin]%Hv; [by apply Hwf|]. eapply wf_prefix_of; [|done]. by apply wf_folded.
Qed.

Lemma trie_init_ok t ignore :
  reserve_ t = None -> building ignore [] (trie_init t ignore) /\ data_ (trie_init t ignore) = data_ t.
Proof.
  intros Hr. split; [|done]. unfold trie_init. rewrite Hr.
  exists (AcDfa [[]] [0] ignore), [[]]. split_and!; try done.
  - split; try done.
    + apply NoDup_singleton.
    + intros w c Hin%list_elem_of_singleton. by destruct w.
    + intros k es Hes. apply list_lookup_singleton_Some in Hes as [_ <-]. apply NoDup_nil_2.
    + intros k w es c z Hk Hes. apply list_lookup_singleton_Some in Hk as [-> <-].
      apply list_lookup_singleton_Some in Hes as [_ <-]. split; [by intros ?%not_elem_of_nil|].
      intros (k' & _ & Hk'). apply list_lookup_singleton_Some in Hk' as [_ ?]. done.
  - split; [done|]. intros k w Hk. apply list_lookup_singleton_Some in Hk as [-> <-]. done.
  - by intros p ?%not_elem_of_nil.
  - intros w ->%list_elem_of_singleton. by constructor.
Qed.

Lemma fold_update_ok t ignore P patterns :
  building ignore P t -> Forall wf_bytes patterns ->
  exists t', fold_opt trie_update t patterns = Some t' /\ data_ t' = data_ t /\
    building ignore (rev (folded ignore <$> patterns) ++ P) t'.
Proof.
  intros Hb Hwf. revert t P Hb. induction Hwf as [|p ps Hp Hps IH]; intros t P Hb.
  - exists t. done.
  - cbn [fold_opt]. destruct (trie_update_ok t ignore P p Hb Hp) as (t1 & -> & Hb1 & Hd).
    cbn [mbind option_bind]. destruct (IH t1 _ Hb1) as (t2 & -> & Hd2 & Hb2).
    exists t2. split_and!; [done|congruence|]. cbn [fmap list_fmap rev].
    by rewrite <- app_assoc.
Qed.

(** * [build_fail_table] *)

Lemma fold_opt_app {A B} (f : A -> B -> option A) a l1 l2 :
  fold_opt f a (l1 ++ l2) = (a ← fold_opt f a l1; fold_opt f a l2).
Proof.
  revert a. induction l1 as [|b l1 IH]; intros a; cbn; [done|]. by destruct (f a b); cbn.
Qed.

(** A label is shorter than the number of states. *)
Lemma label_short (L : list (list Z)) w : prefix_closed L -> w ∈ L -> (length w < length L)%nat.
Proof.
  intros Hcl Hw. set (ps := (fun i => take i w) <$> seq 0 (S (length w))).
  assert (length ps = S (length w)) as Hl by (unfold ps; by rewrite length_fmap, length_seq).
  assert (NoDup ps) as Hnd.
  { apply NoDup_fmap_2_strong; [|apply NoDup_seq]. intros i j Hi%elem_of_seq Hj%elem_of_seq E.
    apply (f_equal length) in E. rewrite !length_take in E. lia. }
  assert (ps ⊆+ L) as Hsub.
  { apply NoDup_submseteq; [done|]. intros p (i & -> & Hi)%list_elem_of_fmap. clear -Hcl Hw.
    remember (length w - i)%nat as n eqn:En. revert i En. induction n as [|n IH]; intros i En.
    - rewrite take_ge by lia. done.
    - destruct (lookup_lt_is_Some_2 w i) as [c Hc]; [lia|].
      apply (Hcl _ c). rewrite <- (take_S_r _ _ _ Hc). apply IH. lia. }
  apply submseteq_length in Hsub. lia.
Qed.

Lemma nonempty_snoc (w : list Z) : w <> [] -> exists v c, w = v ++ [c].
Proof. induction w using rev_ind; [done|]. intros _. by eexists _, _. Qed.

Section fail.
Context (L P : list (list Z)) (g : list (list (Z * Z))) (out0 : list Z)
  (Hok : trie_ok L g) (Hout0 : out_ok L out0 P) (HPL : forall p, p ∈ P -> p ∈ L).

Definition unseen (fail : list Z) (k : nat) : Prop := fail !! k = Some (-1).

#[local] Instance unseen_dec fail k : Decision (unseen fail k) := ltac:(unfold unseen; apply _).

(** The entry of state [k], labelled [w], once it is set. *)
Definition linked (fail : list Z) (k : nat) (w : list Z) : Prop :=
  exists j, fail !! k = Some (Z.of_nat j) /\ L !! j = Some (lsuf L (tail w)).

(** The tables in the middle of the search. *)
Record tables_ok (fail out : list Z) : Prop := TablesOk {
  tb_fail_len : length fail = length L;
  tb_out_len : length out = length L;
  tb_root : unseen fail 0;
  tb_fail : forall k w, L !! k = Some w -> ~ unseen fail k -> linked fail k w;
  tb_base : forall k w, L !! k = Some w -> unseen fail k ->
    out !! k = Some (if decide (w ∈ P) then zlen w else 0);
  tb_best : forall k w, L !! k = Some w -> ~ unseen fail k -> out !! k = Some (best P w) }.

(** A breadth-first front: first the states of depth [d], then of [d + 1]. *)
Definition level (d : nat) (qs : list nat) : Prop :=
  forall k, k ∈ qs -> exists w, L !! k = Some w /\ length w = d.

(** The queue [qs], with the states [par] being expanded: an unseen state
    hangs below an unseen one or one of these. *)
Record front_ok (fail : list Z) (d : nat) (par q1 q2 : list nat) : Prop := FrontOk {
  fr_pos : (0 < d)%nat;
  fr_par : level d par;
  fr_q1 : level d q1;
  fr_q2 : level (S d) q2;
  fr_seen : forall k, k ∈ par ++ q1 ++ q2 -> ~ unseen fail k;
  fr_below : forall k w c, L !! k = Some (w ++ [c]) -> unseen fail k ->
    w <> [] /\ forall p, L !! p = Some w -> unseen fail p \/ p ∈ par ++ q1 ++ q2 }.

Lemma front_depth fail d par q1 q2 k :
  front_ok fail d par q1 q2 -> k ∈ par ++ q1 ++ q2 -> exists w, L !! k = Some w /\ (d <= length w)%nat.
Proof.
  intros Hf Hk. rewrite !elem_of_app in Hk. destruct Hk as [Hk|[Hk|Hk]].
  - destruct (fr_par _ _ _ _ _ Hf _ Hk) as (w & ? & ?). exists w. split; [done|lia].
  - destruct (fr_q1 _ _ _ _ _ Hf _ Hk) as (w & ? & ?). exists w. split; [done|lia].
  - destruct (fr_q2 _ _ _ _ _ Hf _ Hk) as (w & ? & ?). exists w. split; [done|lia].
Qed.

(** Everything down to depth [d] has been seen. *)
Lemma shallow_seen fail d par q1 q2 k w :
  front_ok fail d par q1 q2 -> L !! k = Some w -> w <> [] -> (length w <= d)%nat -> ~ unseen fail k.
Proof.
  intros Hf. revert k. induction w as [|c w IH] using rev_ind; intros k Hk Hne Hl Hu; [done|].
  destruct (fr_below _ _ _ _ _ Hf _ _ _ Hk Hu) as [Hw Hp].
  rewrite length_app in Hl. cbn in Hl.
  assert (w ∈ L) as Hin by (apply (tr_closed _ _ Hok _ c); by eapply list_elem_of_lookup_2).
  apply list_elem_of_lookup in Hin as [p Hpw].
  destruct (Hp p Hpw) as [Hup|Hq]; [apply (IH p); done || lia|].
  destruct (front_depth _ _ _ _ _ _ Hf Hq) as (v & Hv & Hvl).
  assert (v = w) as -> by congruence. lia.
Qed.

Lemma lsuf_none w c : w <> [] -> w ++ [c] ∉ L -> lsuf L (w ++ [c]) = lsuf L (tail w ++ [c]).
Proof. intros Hw Hn. destruct w as [|a w]; [done|]. cbn [app tail]. by apply lsuf_cons. Qed.

Lemma lsuf_short w : w <> [] -> (length (lsuf L (tail w)) < length w)%nat.
Proof.
  intros Hw. destruct (lsuf_suffix L (tail w)) as [k E]. apply (f_equal length) in E.
  rewrite length_app in E. destruct w; [done|]. cbn in *. lia.
Qed.

(** The [do ... while] loop finds the longest suffix that is a state. *)
Lemma fail_loop_ok fail m fuel k w c :
  (forall k w, L !! k = Some w -> w <> [] -> (length w <= m)%nat -> linked fail k w) ->
  L !! k = Some w -> w <> [] -> (length w <= m)%nat -> (length w <= fuel)%nat ->
  exists r, fail_loop fuel g fail (Z.of_nat k) c = Some (Z.of_nat r) /\
    L !! r = Some (lsuf L (tail w ++ [c])).
Proof.
  intros Hlink. pose proof (trie_nil L g Hok) as Hnil. pose proof (tr_closed _ _ Hok) as Hcl.
  revert k w. induction fuel as [|n IH]; intros k w Hk Hw Hm Hl.
  { destruct w; [done|cbn in Hl; lia]. }
  cbn [fail_loop]. destruct (Hlink k w Hk Hw ltac:(lia)) as (j & Hj & Hjl).
  rewrite znth_nat, Hj. cbn [mbind option_bind]. pose proof (lsuf_short w Hw) as Hsh.
  rewrite (lsuf_snoc L Hnil Hcl (tail w)). set (v := lsuf L (tail w)) in *.
  destruct (decide (v ++ [c] ∈ L)) as [Hin|Hni].
  - rewrite lsuf_self by done. apply list_elem_of_lookup in Hin as [r Hr].
    rewrite (trie_next _ _ Hok _ _ _ _ Hjl Hr).
    rewrite (proj2 (Z.ltb_ge _ 0)) by lia. by exists r.
  - rewrite (trie_next_none _ _ Hok _ _ _ Hjl Hni).
    destruct (Nat.eqb_spec j 0) as [->|Hj0]; cbn [Z.ltb Z.compare].
    + assert (v = []) as E by (by apply (trie_root_iff _ _ Hok _ _ Hjl)).
      rewrite E in *. exists 0%nat. split; [done|]. cbn [app] in *.
      rewrite lsuf_cons, lsuf_self by done. apply (tr_root _ _ Hok).
    + assert (v <> []) as Hv by (intros E; apply Hj0; by apply (trie_root_iff _ _ Hok _ _ Hjl)).
      rewrite lsuf_none by done. apply IH; [done|done|lia|lia].
Qed.

(** The number of states not seen yet. *)
Definition unseen_count (fail : list Z) : nat := length (filter (fun f => f = -1) fail).

Lemma unseen_count_insert fail k (r : nat) :
  unseen fail k -> S (unseen_count (<[k := Z.of_nat r]> fail)) = unseen_count fail.
Proof.
  intros Hk. unfold unseen_count. pose proof (lookup_lt_Some _ _ _ Hk).
  rewrite insert_take_drop by done.
  rewrite <- (take_drop_middle _ _ _ Hk) at 3.
  rewrite !list.filter_app, !list.filter_cons, !length_app.
  destruct (decide (Z.of_nat r = -1)); [lia|]. destruct (decide (-1 = -1)); [|done].
  cbn. lia.
Qed.

Lemma lookup_set fail k (r : nat) i :
  unseen fail k ->
  <[k := Z.of_nat r]> fail !! i = if decide (k = i) then Some (Z.of_nat r) else fail !! i.
Proof.
  intros Hk. pose proof (lookup_lt_Some _ _ _ Hk).
  destruct (decide (k = i)) as [->|]; [by rewrite list_lookup_insert_eq|by rewrite list_lookup_insert_ne].
Qed.

Lemma unseen_set fail k (r : nat) i :
  unseen fail k -> unseen (<[k := Z.of_nat r]> fail) i <-> unseen fail i /\ i <> k.
Proof.
  intros Hk. unfold unseen at 1. rewrite lookup_set by done. destruct (decide (k = i)) as [->|].
  - split; [intros [= ?]; lia|by intros [_ ?]].
  - split; [done|by intros [? _]].
Qed.

Lemma linked_set fail k (r : nat) i w :
  unseen fail k -> k <> i -> linked (<[k := Z.of_nat r]> fail) i w <-> linked fail i w.
Proof. intros Hk Hne. unfold linked. rewrite lookup_set by done. by rewrite decide_False. Qed.

(** Setting the entry of a new state and taking over the output of its
    longest proper suffix. *)
Lemma tables_set fail out k w (r : nat) :
  tables_ok fail out -> L !! k = Some w -> w <> [] -> unseen fail k ->
  L !! r = Some (lsuf L (tail w)) ->
  tables_ok (<[k := Z.of_nat r]> fail)
    (if 0 <? best P (tail w)
     then <[k := Z.max (best P (tail w)) (if decide (w ∈ P) then zlen w else 0)]> out else out).
Proof.
  intros [Hfl Hol Hroot Hfail Hbase Hbest] Hk Hw Hu Hr.
  assert (k < length out)%nat by (rewrite Hol; by eapply lookup_lt_Some).
  set (out' := if 0 <? best P (tail w) then _ else out).
  assert (forall i, i <> k -> out' !! i = out !! i) as Hother.
  { intros i Hi. unfold out'. destruct (0 <? _); [by rewrite list_lookup_insert_ne|done]. }
  assert (out' !! k = Some (best P w)) as Hself.
  { destruct w as [|a w]; [done|]. cbn [tail] in *. rewrite best_tail. unfold out'. cbn [tail].
    pose proof (best_nonneg P w). destruct (Z.ltb_spec 0 (best P w)).
    - rewrite list_lookup_insert_eq by done. f_equal. lia.
    - rewrite (Hbase _ _ Hk Hu). f_equal. destruct (decide _); [|lia].
      pose proof (zlen_nonneg (a :: w)). lia. }
  split.
  - by rewrite length_insert.
  - unfold out'. destruct (0 <? _); [by rewrite length_insert|done].
  - apply unseen_set; [done|]. split; [done|]. intros <-.
    rewrite (tr_root _ _ Hok) in Hk. congruence.
  - intros i v Hi Hs. rewrite unseen_set in Hs by done.
    destruct (decide (k = i)) as [->|Hne].
    + exists r. rewrite lookup_set, decide_True by done. split; [done|]. congruence.
    + apply linked_set; [done|done|]. apply Hfail; [done|]. intros ?. apply Hs. by split.
  - intros i v Hi Hs. apply unseen_set in Hs as [Hs Hne]; [|done].
    rewrite Hother by done. by apply Hbase.
  - intros i v Hi Hs. rewrite unseen_set in Hs by done.
    destruct (decide (k = i)) as [->|Hne]; [congruence|].
    rewrite Hother by done. apply Hbest; [done|]. intros ?. apply Hs. by split.
Qed.

(** The best output of any state that is set or the root. *)
Lemma tables_best fail out d par q1 q2 r v :
  tables_ok fail out -> front_ok fail d par q1 q2 -> L !! r = Some v -> (length v <= d)%nat ->
  out !! r = Some (best P v).
Proof.
  intros Ht Hf Hr Hl. destruct (decide (v = [])) as [->|Hne].
  - assert (r = 0%nat) as -> by (by apply (trie_root_iff _ _ Hok _ _ Hr)).
    rewrite (tb_base _ _ Ht 0 [] Hr (tb_root _ _ Ht)). cbn. by destruct (decide _).
  - apply (tb_best _ _ Ht _ _ Hr). eapply shallow_seen; done.
Qed.

(** One child of the state [s] that is being expanded. *)
Lemma fail_child_ok fail out d s w q1 q2 c k :
  tables_ok fail out -> front_ok fail d [s] q1 q2 ->
  L !! s = Some w -> L !! k = Some (w ++ [c]) ->
  exists fail' out' kids,
    fail_child g (Z.of_nat s) (fail, out, Z.of_nat <$> q1 ++ q2) (c, Z.of_nat k)
      = Some (fail', out', Z.of_nat <$> q1 ++ q2 ++ kids) /\
    tables_ok fail' out' /\ front_ok fail' d [s] q1 (q2 ++ kids) /\
    ~ unseen fail' k /\ (forall i, unseen fail' i -> unseen fail i) /\
    (unseen_count fail' + length kids = unseen_count fail)%nat.
Proof.
  intros Ht Hf Hs Hk. unfold fail_child. cbn [fst snd].
  assert (length w = d) as Hd.
  { destruct (fr_par _ _ _ _ _ Hf s) as (w' & Hw' & <-); [by left|]. congruence. }
  assert (w <> []) as Hw by (intros ->; pose proof (fr_pos _ _ _ _ _ Hf); cbn in *; lia).
  assert (exists f, fail !! k = Some f) as [f Hfk].
  { apply lookup_lt_is_Some. rewrite (tb_fail_len _ _ Ht). by eapply lookup_lt_Some. }
  rewrite (znth_nat fail), Hfk. cbn [mbind option_bind]. unfold trie_ac_ac_undef_fail.
  destruct (Z.eqb_spec f (-1)) as [->|Hne]; cbn [negb]; [|].
  2: { exists fail, out, []. rewrite !app_nil_r.
       split_and!; try done; (unfold unseen; congruence) || (cbn; lia). }
  assert (unseen fail k) as Hu by done.
  assert (forall i v, L !! i = Some v -> v <> [] -> (length v <= d)%nat -> linked fail i v) as Hlink.
  { intros i v Hi Hv Hvl. apply (tb_fail _ _ Ht); [done|]. by eapply shallow_seen. }
  pose proof (label_short L w (tr_closed _ _ Hok) ltac:(by eapply list_elem_of_lookup_2)) as Hsl.
  destruct (fail_loop_ok fail d (S (length g)) s w c Hlink Hs Hw) as (r & -> & Hr);
    [lia|rewrite (tr_len _ _ Hok); lia|].
  cbn [mbind option_bind].
  assert (lookup_fail_lt : (k < length fail)%nat) by (by eapply lookup_lt_Some).
  rewrite zset_nat by done. cbn [mbind option_bind].
  assert (tail (w ++ [c]) = tail w ++ [c]) as Htl by (by destruct w).
  assert (length (lsuf L (tail w ++ [c])) <= d)%nat as Hrl.
  { destruct (lsuf_suffix L (tail w ++ [c])) as [x E]. apply (f_equal length) in E.
    rewrite !length_app in E. destruct w; [done|]. cbn in *. lia. }
  pose proof (tables_best _ _ _ _ _ _ _ _ Ht Hf Hr Hrl) as Hb.
  rewrite (best_lsuf L P HPL) in Hb.
  rewrite (znth_nat out r), Hb. cbn [mbind option_bind].
  pose proof (tables_set fail out k (w ++ [c]) r Ht Hk ltac:(by destruct w) Hu) as Ht'.
  rewrite Htl in Ht'. specialize (Ht' Hr). pose proof (tb_base _ _ Ht _ _ Hk Hu) as Ho.
  set (fail' := <[k := Z.of_nat r]> fail) in *.
  assert (front_ok fail' d [s] q1 (q2 ++ [k])) as Hf'.
  { destruct Hf as [Hpos Hp Hq1 Hq2 Hseen Hbelow]. split; try done.
    - intros i [Hi| ->%list_elem_of_singleton]%elem_of_app; [by apply Hq2|].
      exists (w ++ [c]). split; [done|]. rewrite length_app. cbn. lia.
    - intros i Hi Hui. unfold fail' in Hui. apply unseen_set in Hui as [Hui Hne]; [|done].
      rewrite !app_assoc, elem_of_app, <- app_assoc in Hi. destruct Hi as [Hi|Hi].
      + by eapply Hseen.
      + by apply list_elem_of_singleton in Hi.
    - intros i v e Hi Hui. unfold fail' in Hui. apply unseen_set in Hui as [Hui Hne]; [|done].
      destruct (Hbelow i v e Hi Hui) as [Hv Hpar]. split; [done|].
      intros p Hpv. destruct (decide (p = k)) as [->|Hpk].
      + right. rewrite !elem_of_app. right. right. right. by left.
      + destruct (Hpar p Hpv) as [Hup|Hin].
        * left. by apply unseen_set.
        * right. rewrite !app_assoc, elem_of_app. left. by rewrite <- app_assoc. }
  assert (~ unseen fail' k) as Hk' by (intros [_ ?]%unseen_set; done).
  assert (forall i, unseen fail' i -> unseen fail i) as Hmono by (by intros i [? _]%unseen_set).
  assert (unseen_count fail' + 1 = unseen_count fail)%nat as Hcount
    by (pose proof (unseen_count_insert fail k r Hu); unfold fail'; lia).
  assert ((Z.of_nat <$> q1 ++ q2) ++ [Z.of_nat k] = Z.of_nat <$> q1 ++ q2 ++ [k]) as Hq
    by (by rewrite !fmap_app, <- app_assoc).
  rewrite Hq. destruct (Z.ltb_spec 0 (best P (tail w ++ [c]))).
  - rewrite znth_nat, Ho. cbn [mbind option_bind].
    rewrite zset_nat by (rewrite (tb_out_len _ _ Ht); by eapply lookup_lt_Some).
    cbn [mbind option_bind]. by eexists _, _, [k].
  - by eexists _, _, [k].
Qed.

(** All children of [s]. *)
Lemma fail_children_ok es fail out d s w q1 q2 :
  tables_ok fail out -> front_ok fail d [s] q1 q2 -> L !! s = Some w ->
  (forall c z, (c, z) ∈ es -> exists k, z = Z.of_nat k /\ L !! k = Some (w ++ [c])) ->
  exists fail' out' kids,
    fold_opt (fail_child g (Z.of_nat s)) (fail, out, Z.of_nat <$> q1 ++ q2) es
      = Some (fail', out', Z.of_nat <$> q1 ++ q2 ++ kids) /\
    tables_ok fail' out' /\ front_ok fail' d [s] q1 (q2 ++ kids) /\
    (forall c k, (c, Z.of_nat k) ∈ es -> ~ unseen fail' k) /\
    (forall i, unseen fail' i -> unseen fail i) /\
    (unseen_count fail' + length kids = unseen_count fail)%nat.
Proof.
  intros Ht Hf Hs Hes. revert fail out q2 Ht Hf. induction es as [|[c z] es IH]; intros fail out q2 Ht Hf.
  - exists fail, out, []. cbn. rewrite !app_nil_r.
    split_and!; try done; try lia; by intros c k ?%not_elem_of_nil.
  - destruct (Hes c z) as (k & -> & Hk); [by left|].
    cbn [fold_opt].
    destruct (fail_child_ok fail out d s w q1 q2 c k Ht Hf Hs Hk)
      as (f1 & o1 & kids1 & -> & Ht1 & Hf1 & Hk1 & Hm1 & Hc1).
    cbn [mbind option_bind].
    destruct (IH ltac:(intros; apply Hes; by right) f1 o1 (q2 ++ kids1) Ht1 Hf1)
      as (f2 & o2 & kids2 & -> & Ht2 & Hf2 & Hk2 & Hm2 & Hc2).
    exists f2, o2, (kids1 ++ kids2). rewrite <- app_assoc in *. split_and!; try done.
    + intros c' k' [[= -> ->%Nat2Z.inj]|Hin]%elem_of_cons; [intros Hu; by apply Hk1, Hm2|by eapply Hk2].
    + intros i Hi. by apply Hm1, Hm2.
    + rewrite length_app. lia.
Qed.

Lemma front_shift fail d q : front_ok fail d [] [] q -> front_ok fail (S d) [] q [].
Proof.
  intros [Hpos Hp Hq1 Hq2 Hs Hb]. cbn [app] in *. split; cbn [app]; rewrite ?app_nil_r;
    try done; try (by intros k ?%not_elem_of_nil); lia.
Qed.

(** The children of [s] have all been seen: [s] leaves the front. *)
Lemma front_drop fail d s w es q1 q2 :
  front_ok fail d [s] q1 q2 -> L !! s = Some w -> g !! s = Some es ->
  (forall c k, (c, Z.of_nat k) ∈ es -> ~ unseen fail k) -> front_ok fail d [] q1 q2.
Proof.
  intros [Hpos Hp Hq1 Hq2 Hs Hb] Hw Hes Hkids. split; try done.
  - by intros k ?%not_elem_of_nil.
  - intros k Hk. apply Hs. by right.
  - intros k v c Hk Hu. destruct (Hb k v c Hk Hu) as [Hv Hpar]. split; [done|].
    intros p Hpv. destruct (Hpar p Hpv) as [?|Hin]; [by left|right].
    apply elem_of_cons in Hin as [->|Hin]; [|done].
    assert (v = w) as -> by congruence. destruct (Hkids c k); [|done].
    apply (tr_edge _ _ Hok s w es); [done..|]. by exists k.
Qed.

Lemma fail_bfs_ok iter fuel fail out d q1 q2 :
  (forall s, iter s ≡ₚ s) ->
  tables_ok fail out -> front_ok fail d [] q1 q2 ->
  (unseen_count fail + length (q1 ++ q2) <= fuel)%nat ->
  exists fail' out', fail_bfs iter fuel g (fail, out, Z.of_nat <$> q1 ++ q2) = Some (fail', out') /\
    tables_ok fail' out' /\ forall k w, L !! k = Some w -> w <> [] -> ~ unseen fail' k.
Proof.
  intros Hiter. revert fail out d q1 q2. induction fuel as [|fuel IH]; intros fail out d q1 q2 Ht Hf Hfuel.
  all: destruct (decide (q1 ++ q2 = [])) as [E|Hne].
  1, 3: rewrite E in *; exists fail, out; (split; [done|]); (split; [done|]);
    intros k w; revert k; induction w as [|c w IHw] using rev_ind; [done|]; intros k Hk _ Hu;
    destruct (fr_below _ _ _ _ _ Hf _ _ _ Hk Hu) as [Hw Hp];
    assert (w ∈ L) as Hin by (apply (tr_closed _ _ Hok _ c); by eapply list_elem_of_lookup_2);
    apply list_elem_of_lookup in Hin as [p Hpw];
    (destruct (Hp p Hpw) as [Hup|Hq]; [by apply (IHw p)|]); cbn [app] in Hq; rewrite E in Hq;
    by apply not_elem_of_nil in Hq.
  { destruct (q1 ++ q2); [done|cbn in Hfuel; lia]. }
  assert (exists d s q1' q2', q1 ++ q2 = s :: q1' ++ q2' /\ front_ok fail d [s] q1' q2')
    as (d' & s & q1' & q2' & E & Hf').
  { destruct q1 as [|s q1].
    - destruct q2 as [|s q2]; [done|]. exists (S d), s, q2, []. cbn. rewrite app_nil_r.
      split; [done|]. apply front_shift in Hf as [Hpos Hp Hq1 Hq2 Hs Hb].
      split; try done; intros k Hk; apply Hq1; [|by right].
      apply list_elem_of_singleton in Hk as ->. by left.
    - exists d, s, q1, q2. split; [done|]. destruct Hf as [Hpos Hp Hq1 Hq2 Hs Hb].
      split; try done; intros k Hk; apply Hq1; [|by right].
      apply list_elem_of_singleton in Hk as ->. by left. }
  rewrite E in *. cbn [fmap list_fmap fail_bfs length] in *.
  destruct (fr_par _ _ _ _ _ Hf' s) as (w & Hw & Hwl); [by left|].
  destruct (trie_node _ _ Hok _ _ Hw) as [es Hes].
  rewrite znth_nat, Hes. cbn [mbind option_bind].
  change (list_fmap nat Z Z.of_nat (q1' ++ q2')) with (Z.of_nat <$> q1' ++ q2').
  destruct (fail_children_ok (iter es) fail out d' s w q1' q2' Ht Hf' Hw)
    as (f1 & o1 & kids & -> & Ht1 & Hf1 & Hk1 & Hm1 & Hc1).
  { intros c z Hin. rewrite Hiter in Hin. by apply (tr_edge _ _ Hok s w es). }
  cbn [mbind option_bind].
  destruct (IH f1 o1 d' q1' (q2' ++ kids)) as (f2 & o2 & -> & ? & ?); [done| | |by exists f2, o2].
  - eapply front_drop; [done..|]. intros c k Hin. eapply Hk1. by rewrite Hiter.
  - rewrite !length_app in *. lia.
Qed.
End fail.

Section build_fail.
Context (L P : list (list Z)) (r : ac_dfa)
  (Hok : trie_ok L (goto_t r)) (Hout0 : out_ok L (output_t r) P) (HPL : forall p, p ∈ P -> p ∈ L).

#[local] Instance unseen_dec' fail k : Decision (unseen fail k) := ltac:(unfold unseen; apply _).

Lemma fail_root_ok es fail q :
  NoDup es -> (forall c z, (c, z) ∈ es -> exists k, z = Z.of_nat k /\ L !! k = Some [c] /\ unseen fail k) ->
  exists fail' kids,
    fold_opt fail_root (fail, q) es = Some (fail', q ++ (Z.of_nat <$> kids)) /\
    length fail' = length fail /\
    (forall i, i ∈ kids <-> exists c, (c, Z.of_nat i) ∈ es) /\
    (forall i, fail' !! i = if decide (i ∈ kids) then Some 0 else fail !! i) /\
    (unseen_count fail' + length kids = unseen_count fail)%nat.
Proof.
  revert fail q. induction es as [|[c z] es IH]; intros fail q Hnd Hes.
  - exists fail, []. cbn. rewrite app_nil_r. split_and!; try done; try lia.
    intros i. split; [by intros ?%not_elem_of_nil|by intros [c ?%not_elem_of_nil]].
  - apply list.NoDup_cons in Hnd as [Hni Hnd]. destruct (Hes c z) as (k & -> & Hk & Hu); [by left|].
    cbn [fold_opt].
    change (fail_root (fail, q) (c, Z.of_nat k))
      with (fail ← zset fail (Z.of_nat k) (Z.of_nat 0); Some (fail, q ++ [Z.of_nat k])).
    rewrite zset_nat by (by eapply lookup_lt_Some). cbn [mbind option_bind].
    set (f1 := <[k := Z.of_nat 0]> fail).
    destruct (IH f1 (q ++ [Z.of_nat k]) Hnd) as (f2 & kids & -> & Hl & Hin & Hlk & Hc).
    { intros c' z' Hin. destruct (Hes c' z') as (k' & -> & Hk' & Hu'); [by right|].
      exists k'. split_and!; try done. apply unseen_set; [done|]. split; [done|]. intros ->.
      assert (c' = c) as -> by congruence. done. }
    exists f2, (k :: kids). split_and!.
    + cbn. by rewrite <- app_assoc.
    + rewrite Hl. apply length_insert.
    + intros i. rewrite elem_of_cons, Hin. split.
      * intros [->|[c' ?]]; [exists c; by left|exists c'; by right].
      * intros [c' [[= _ ->%Nat2Z.inj]|?]%elem_of_cons]; [by left|right; by exists c'].
    + intros i. rewrite Hlk. unfold f1. rewrite lookup_set by done.
      destruct (decide (i ∈ kids)), (decide (i ∈ k :: kids)) as [Hi|Hi], (decide (k = i)); try done.
      * exfalso. apply Hi. by right.
      * exfalso. apply Hi. by right.
      * apply elem_of_cons in Hi as [->|?]; done.
      * exfalso. apply Hi. subst. by left.
    + pose proof (unseen_count_insert fail k 0 Hu). cbn. unfold f1 in *. lia.
Qed.

Lemma fail_reset (fail : list Z) n :
  let f := resize fail n (-1) in
  replicate (Nat.min (length fail) (length f)) (-1) ++ drop (Nat.min (length fail) (length f)) f
  = replicate n (-1).
Proof.
  cbv zeta. unfold resize at 1 2. rewrite !length_app, !length_take, length_replicate.
  replace (length fail `min` (n `min` length fail + (n - length fail)))%nat
    with (n `min` length fail)%nat by lia.
  unfold resize. rewrite drop_app_ge by (rewrite length_take; lia).
  rewrite length_take, Nat.sub_diag, drop_0, <- replicate_add. f_equal. lia.
Qed.

Lemma unseen_count_replicate n : unseen_count (replicate n (-1)) = n.
Proof. unfold unseen_count. induction n as [|n IH]; [done|]. cbn [replicate].
  rewrite list.filter_cons, decide_True by done. cbn [length]. by rewrite IH.
Qed.

Lemma build_fail_ok iter fail0 :
  (forall s, iter s ≡ₚ s) ->
  exists fail out, build_fail_table iter r fail0 = Some (AcDfa (goto_t r) out (ignore_case r), fail) /\
    length fail = length L /\ length out = length L /\
    (forall k w, L !! k = Some w -> out !! k = Some (best P w)) /\
    (forall k w, L !! k = Some w -> w <> [] -> linked L fail k w).
Proof.
  intros Hiter. unfold build_fail_table. pose proof (tr_root _ _ Hok) as Hroot.
  destruct (trie_node _ _ Hok _ _ Hroot) as [root Hr].
  destruct (goto_t r) as [|root' g'] eqn:Eg; [done|]. injection Hr as ->. rewrite <- Eg in *.
  rewrite fail_reset, (tr_len _ _ Hok). set (f0 := replicate (length L) (-1)).
  assert (forall k w, L !! k = Some w -> unseen f0 k) as Hf0.
  { intros k w Hk. apply lookup_replicate_2. by eapply lookup_lt_Some. }
  assert (goto_t r !! 0%nat = Some root) as Hr0 by (by rewrite Eg).
  assert (NoDup (iter root)) as Hnd by (rewrite Hiter; by apply (tr_set _ _ Hok 0)).
  assert (forall c z, (c, z) ∈ iter root -> exists k, z = Z.of_nat k /\ L !! k = Some [c] /\ unseen f0 k)
    as Hes.
  { intros c z Hin. rewrite Hiter in Hin.
    apply (tr_edge _ _ Hok 0 [] root) in Hin as (k & -> & Hk); [|done..]. exists k. by split_and!; eauto. }
  destruct (fail_root_ok (iter root) f0 [] Hnd Hes) as (f1 & kids & -> & Hl & Hin & Hlk & Hc).
  cbn [mbind option_bind app].
  assert (length f1 = length L) as Hl1 by (rewrite Hl; apply length_replicate).
  assert (forall k w, L !! k = Some w -> (unseen f1 k <-> k ∉ kids)) as Huk.
  { intros k w Hk. unfold unseen. rewrite Hlk. destruct (decide (k ∈ kids)); [by split|].
    split; [done|]. intros _. by eapply Hf0. }
  assert (forall k, k ∈ kids -> exists c, L !! k = Some [c]) as Hkids.
  { intros k [c Hk]%Hin. destruct (Hes _ _ Hk) as (k' & ->%Nat2Z.inj & ? & _). by exists c. }
  assert (0%nat ∉ kids) as H0 by (intros [c Hk]%Hkids; congruence).
  assert (tables_ok L P f1 (output_t r)) as Ht.
  { destruct Hout0 as [Hol Hout]. split; try done.
    - by apply (Huk 0%nat []).
    - intros k w Hk Hs. rewrite (Huk k w Hk) in Hs. apply dec_stable in Hs.
      exists 0%nat. rewrite Hlk, decide_True by done. split; [done|].
      destruct (Hkids k Hs) as [c Hkc]. assert (w = [c]) as -> by congruence. cbn [tail].
      by rewrite lsuf_self by (by eapply trie_nil).
    - intros k w Hk _. by apply Hout.
    - intros k w Hk Hs. rewrite (Huk k w Hk) in Hs. apply dec_stable in Hs.
      destruct (Hkids k Hs) as [c Hkc]. assert (w = [c]) as -> by congruence.
      rewrite (Hout _ _ Hk), best_tail. f_equal. cbn [best].
      destruct (decide ([c] ∈ P)), (decide ([] ∈ P)); done. }
  assert (front_ok L f1 1 [] kids []) as Hf.
  { split; cbn [app]; rewrite ?app_nil_r; try (by intros k ?%not_elem_of_nil); [lia|..].
    - intros k [c Hk]%Hkids. by exists [c].
    - intros k Hk. destruct (Hkids k Hk) as [c Hkc]. rewrite (Huk k [c] Hkc). intros Hn. by apply Hn.
    - intros k w c Hk Hu. rewrite (Huk _ _ Hk) in Hu. split.
      + intros ->. apply Hu, Hin. exists c. rewrite Hiter. apply (tr_edge _ _ Hok 0 [] root); [done..|].
        by exists k.
      + intros p Hp. rewrite (Huk p w Hp). destruct (decide (p ∈ kids)); [by right|by left]. }
  destruct (fail_bfs_ok L P (goto_t r) Hok HPL iter (length L) f1 (output_t r) 1 kids [])
    as (f2 & out2 & E & Ht2 & Hall); [done..| |].
  { rewrite app_nil_r. rewrite Hc. unfold f0. by rewrite unseen_count_replicate. }
  rewrite app_nil_r in E. rewrite E. cbn [mbind option_bind].
  exists f2, out2. split_and!; [done|apply Ht2|apply Ht2| |].
  - intros k w Hk. destruct (decide (w = [])) as [->|Hw].
    + assert (k = 0%nat) as -> by (by apply (trie_root_iff _ _ Hok _ _ Hk)).
      rewrite (tb_base _ _ _ _ Ht2 0 [] Hk (tb_root _ _ _ _ Ht2)). cbn. by destruct (decide _).
    + apply (tb_best _ _ _ _ Ht2); [done|]. by eapply Hall.
  - intros k w Hk Hw. apply (tb_fail _ _ _ _ Ht2); [done|]. by eapply Hall.
Qed.
End build_fail.

(** * [convert_to_dfa] *)

Lemma node_find_emplace s c z c' :
  node_find s c = None ->
  node_find (node_emplace s c z) c' = if decide (c' = c) then Some z else node_find s c'.
Proof.
  intros Hn. unfold node_emplace. rewrite Hn, node_find_app. destruct (decide (c' = c)) as [->|Hne].
  - by rewrite Hn, Z.eqb_refl.
  - destruct (node_find s c'); [done|]. by destruct (Z.eqb_spec c c').
Qed.

Lemma all_bytes_nodup : NoDup all_bytes.
Proof. apply NoDup_fmap_2; [apply _|apply NoDup_seq]. Qed.

Lemma elem_of_all_bytes_inv x : x ∈ all_bytes -> is_byte x.
Proof. intros (k & -> & Hk%elem_of_seq)%list_elem_of_fmap. word. Qed.

Section dfa.
Context (L : list (list Z)) (g0 : list (list (Z * Z))) (fail : list Z)
  (Hok : trie_ok L g0) (Hbytes : forall w, w ∈ L -> wf_bytes w)
  (Hlink : forall k w, L !! k = Some w -> w <> [] -> linked L fail k w).

(** The state after one character: the scanning loops reset -1 to 0. *)
Definition delta_at (g : list (list (Z * Z))) (k : nat) (w : list Z) (c : Z) : Prop :=
  exists r, L !! r = Some (lsuf L (w ++ [c])) /\ Z.max 0 (next_state g (Z.of_nat k) c) = Z.of_nat r.

(** The trie already is complete at the root. *)
Lemma delta_root g c : g !! 0%nat = g0 !! 0%nat -> length g = length g0 -> delta_at g 0 [] c.
Proof.
  intros Hg Hl. pose proof (tr_root _ _ Hok) as Hr.
  assert (next_state g (Z.of_nat 0) c = next_state g0 (Z.of_nat 0) c) as E.
  { destruct (trie_node _ _ Hok _ _ Hr) as [es Hes].
    by rewrite (next_state_at g 0 es), (next_state_at g0 0 es) by congruence. }
  unfold delta_at. rewrite E. destruct (decide ([c] ∈ L)) as [Hin|Hn].
  - pose proof Hin as [r Hrc]%list_elem_of_lookup. exists r. cbn [app].
    rewrite lsuf_self by done. split; [done|]. rewrite (trie_next _ _ Hok 0 [] c r) by done. lia.
  - exists 0%nat. cbn [app]. rewrite lsuf_cons, lsuf_self by (done || by eapply trie_nil).
    split; [done|]. by rewrite (trie_next_none _ _ Hok 0 [] c).
Qed.

(** The loop over the 256 characters at state [s]. *)
Lemma dfa_chars_ok cs g q s w es j v :
  NoDup cs -> length g = length L -> L !! s = Some w -> w <> [] -> g !! s = Some es ->
  fail !! s = Some (Z.of_nat j) -> L !! j = Some v -> v = lsuf L (tail w) -> j <> s ->
  (forall c, c ∈ cs -> delta_at g j v c) ->
  (forall c, c ∈ cs -> node_find es c = None \/
     exists k, node_find es c = Some (Z.of_nat k) /\ L !! k = Some (w ++ [c])) ->
  (forall c k, c ∈ cs -> L !! k = Some (w ++ [c]) -> node_find es c = Some (Z.of_nat k)) ->
  exists es' kids,
    fold_opt (dfa_char fail (Z.of_nat s)) (g, q) cs = Some (<[s := es']> g, q ++ (Z.of_nat <$> kids)) /\
    (forall c, c ∉ cs -> node_find es' c = node_find es c) /\
    (forall c, c ∈ cs -> delta_at (<[s := es']> g) s w c) /\
    NoDup kids /\ (forall k, k ∈ kids <-> exists c, c ∈ cs /\ L !! k = Some (w ++ [c])).
Proof.
  intros Hnd Hlen Hs Hw Hes Hf Hj Hv Hjs.
  pose proof (trie_nil L g0 Hok) as Hnil. pose proof (tr_closed _ _ Hok) as Hcl.
  assert (s <> 0%nat) as Hs0 by (intros E; apply Hw; by apply (trie_root_iff _ _ Hok _ _ Hs)).
  revert g q es Hlen Hes. induction Hnd as [|c cs Hc Hnd IH]; intros g q es Hlen Hes Hd Hnf Hkid.
  { exists es, []. cbn. rewrite app_nil_r, list_insert_id by done. split_and!; try done.
    - by intros c ?%not_elem_of_nil.
    - apply NoDup_nil_2.
    - intros k. split; [by intros ?%not_elem_of_nil|by intros (c & ?%not_elem_of_nil & _)]. }
  assert (s < length g)%nat as Hsl by (by eapply lookup_lt_Some).
  cbn [fold_opt]. unfold dfa_char at 2. rewrite (next_state_at g s es) by done.
  rewrite (proj2 (Nat.eqb_neq s 0)) by done.
  destruct (Hnf c) as [E|(k & E & Hk)]; [by left| |]; rewrite E.
  - (* no child by [c] *)
    assert (w ++ [c] ∉ L) as Hn.
    { intros [k Hk]%list_elem_of_lookup. specialize (Hkid c k ltac:(by left) Hk). congruence. }
    change (0 <? -1) with false. cbv iota. rewrite (znth_nat fail), Hf. cbn [mbind option_bind].
    destruct (Hd c) as (r & Hr & Hrn); [by left|].
    assert (L !! r = Some (lsuf L (w ++ [c]))) as Hr'.
    { rewrite (lsuf_none L w c), lsuf_snoc by done. by rewrite <- Hv. }
    set (next := next_state g (Z.of_nat j) c) in *.
    assert (forall es1, length (<[s := es1]> g) = length L) as Hlen1 by (intros; by rewrite length_insert).
    assert (forall es1, <[s := es1]> g !! s = Some es1) as Hes1 by (intros; by rewrite list_lookup_insert_eq).
    assert (forall es1 c', delta_at g j v c' -> delta_at (<[s := es1]> g) j v c') as Hdj.
    { intros es1 c' (r' & ? & Hn'). exists r'. split; [done|]. rewrite <- Hn'. f_equal.
      destruct (trie_node _ _ Hok _ _ Hj) as [es2 _].
      destruct (lookup_lt_is_Some_2 g j) as [ej Hej]; [rewrite Hlen; by eapply lookup_lt_Some|].
      rewrite (next_state_at g j ej), (next_state_at _ j ej); [done| |done].
      by rewrite list_lookup_insert_ne. }
    assert (forall k, (exists c', c' ∈ c :: cs /\ L !! k = Some (w ++ [c'])) <->
                      (exists c', c' ∈ cs /\ L !! k = Some (w ++ [c']))) as Hiff.
    { intros k. split; intros (c' & Hin & Hk); exists c'; (split; [|done]); [|by right].
      apply elem_of_cons in Hin as [->|?]; [|done]. destruct Hn. by eapply list_elem_of_lookup_2. }
    destruct (Z.ltb_spec 0 next) as [Hpos|Hneg].
    + rewrite znth_nat, Hes. cbn [mbind option_bind]. rewrite zset_nat by done. cbn [mbind option_bind].
      set (es1 := node_emplace es c next).
      assert (forall c', node_find es1 c' = if decide (c' = c) then Some next else node_find es c')
        as Hf1 by (intros; by apply node_find_emplace).
      destruct (IH (<[s := es1]> g) q es1 (Hlen1 _) (Hes1 _)) as (es2 & kids & -> & Hold & Hnew & ? & Hki).
      * intros c' Hc'. apply Hdj, Hd. by right.
      * intros c' Hc'. rewrite Hf1, decide_False by (by intros ->). apply Hnf. by right.
      * intros c' k Hc'. rewrite Hf1, decide_False by (by intros ->). apply Hkid. by right.
      * exists es2, kids. rewrite list_insert_insert_eq in *. split_and!; try done.
        -- intros c' Hc'. rewrite not_elem_of_cons in Hc'. destruct Hc' as [Hne Hc'].
           rewrite Hold, Hf1, decide_False by done. done.
        -- intros c' [->|Hc']%elem_of_cons; [|by apply Hnew].
           exists r. split; [done|]. rewrite (next_state_at _ s es2) by apply Hes1.
           rewrite Hold, Hf1, decide_True by done. lia.
        -- intros k. by rewrite Hiff.
    + cbn [mbind option_bind]. destruct (IH g q es Hlen Hes) as (es2 & kids & -> & Hold & Hnew & ? & Hki).
      * intros c' Hc'. apply Hd. by right.
      * intros c' Hc'. apply Hnf. by right.
      * intros c' k Hc'. apply Hkid. by right.
      * exists es2, kids. split_and!; try done.
        -- intros c' Hc'. rewrite not_elem_of_cons in Hc'. apply Hold, Hc'.
        -- intros c' [->|Hc']%elem_of_cons; [|by apply Hnew].
           exists r. split; [done|]. rewrite (next_state_at _ s es2) by apply Hes1.
           rewrite Hold, E, (proj2 (Nat.eqb_neq s 0)) by done. lia.
        -- intros k. by rewrite Hiff.
  - (* the child [k] *)
    assert (k <> 0%nat) as Hk0.
    { intros ->. rewrite (tr_root _ _ Hok) in Hk. by destruct w. }
    rewrite (proj2 (Z.ltb_lt 0 _)) by lia. cbn [mbind option_bind].
    destruct (IH g (q ++ [Z.of_nat k]) es Hlen Hes) as (es2 & kids & -> & Hold & Hnew & ? & Hki).
    * intros c' Hc'. apply Hd. by right.
    * intros c' Hc'. apply Hnf. by right.
    * intros c' k' Hc'. apply Hkid. by right.
    * exists es2, (k :: kids). split_and!.
      -- cbn. by rewrite <- app_assoc.
      -- intros c' Hc'. rewrite not_elem_of_cons in Hc'. apply Hold, Hc'.
      -- intros c' [->|Hc']%elem_of_cons; [|by apply Hnew].
         exists k. rewrite lsuf_self by (by eapply list_elem_of_lookup_2). split; [done|].
         rewrite (next_state_at _ s es2) by (by rewrite list_lookup_insert_eq).
         rewrite Hold, E by done. lia.
      -- apply NoDup_cons_2; [|done]. intros (c' & Hc' & Hk')%Hki. apply Hc.
         assert (w ++ [c'] = w ++ [c]) as [_ ->]%app_inj_tail by congruence. done.
      -- intros k'. rewrite elem_of_cons, Hki. split.
         ++ intros [->|(c' & ? & ?)]; [exists c; by split; [left|]|exists c'; by split; [right|]].
         ++ intros (c' & [->|Hin]%elem_of_cons & Hk'); [left|right; by exists c'].
            eapply nodup_label; [apply (tr_nodup _ _ Hok)|done..].
Qed.

(** The search with the set [D] of converted states and the queue. *)
Record dfa_front (g : list (list (Z * Z))) (D : list nat) (d : nat) (q1 q2 : list nat) : Prop :=
  DfaFront {
    df_len : length g = length L;
    df_pos : (0 < d)%nat;
    df_todo : forall k, k ∉ D -> g !! k = g0 !! k;
    df_done : forall k w c, k ∈ D -> L !! k = Some w -> is_byte c -> delta_at g k w c;
    df_q1 : level L d q1;
    df_q2 : level L (S d) q2;
    df_nodup : NoDup (q1 ++ q2);
    df_Dnodup : NoDup D;
    df_D : forall k, k ∈ D -> exists w, L !! k = Some w /\ w <> [];
    df_disj : forall k, k ∈ q1 ++ q2 -> k ∉ D;
    df_parent : forall k w c p, k ∈ D \/ k ∈ q1 ++ q2 -> L !! k = Some (w ++ [c]) ->
      L !! p = Some w -> w = [] \/ p ∈ D;
    df_below : forall k w c, L !! k = Some (w ++ [c]) -> k ∉ D ->
      k ∈ q1 ++ q2 \/ (w <> [] /\ forall p, L !! p = Some w -> p ∉ D) }.

Lemma shallow_done g D d q1 q2 k w :
  dfa_front g D d q1 q2 -> L !! k = Some w -> w <> [] ->
  (forall x, x ∈ q1 ++ q2 -> exists v, L !! x = Some v /\ (length w < length v)%nat) -> k ∈ D.
Proof.
  intros Hf. revert k. induction w as [|c w IH] using rev_ind; intros k Hk Hne Hdeep; [done|].
  destruct (decide (k ∈ D)) as [|Hn]; [done|].
  destruct (df_below _ _ _ _ _ Hf _ _ _ Hk Hn) as [Hq|[Hw Hp]].
  - destruct (Hdeep k Hq) as (v & Hv & ?). assert (v = w ++ [c]) as -> by congruence. lia.
  - assert (w ∈ L) as Hin by (apply (tr_closed _ _ Hok _ c); by eapply list_elem_of_lookup_2).
    apply list_elem_of_lookup in Hin as [p Hpw]. destruct (Hp p Hpw). apply IH; [done..|].
    intros x Hx. destruct (Hdeep x Hx) as (v & Hv & Hlt). exists v. split; [done|].
    rewrite length_app in Hlt. lia.
Qed.

Lemma dfa_shift g D d q : dfa_front g D d [] q -> dfa_front g D (S d) q [].
Proof.
  intros [? ? ? ? ? ? ? ? ? ? ? ?]. cbn [app] in *. split; rewrite ?app_nil_r; try done.
  - lia.
  - by intros k ?%not_elem_of_nil.
Qed.

Lemma dfa_depth g D d q1 q2 x :
  dfa_front g D d q1 q2 -> x ∈ q1 ++ q2 -> exists v, L !! x = Some v /\ (d <= length v)%nat.
Proof.
  intros Hf [Hx|Hx]%elem_of_app.
  - destruct (df_q1 _ _ _ _ _ Hf x Hx) as (v & ? & ?). exists v. split; [done|lia].
  - destruct (df_q2 _ _ _ _ _ Hf x Hx) as (v & ? & ?). exists v. split; [done|lia].
Qed.

(** The trie edges of an unconverted state. *)
Lemma trie_find s w es c :
  L !! s = Some w -> g0 !! s = Some es ->
  node_find es c = None \/ exists k, node_find es c = Some (Z.of_nat k) /\ L !! k = Some (w ++ [c]).
Proof.
  intros Hs Hes. destruct (node_find es c) as [z|] eqn:E; [right|by left].
  apply node_find_Some in E. apply (tr_edge _ _ Hok s w es) in E as (k & -> & Hk); [|done..].
  by exists k.
Qed.

Lemma trie_find_child s w es c k :
  L !! s = Some w -> g0 !! s = Some es -> L !! k = Some (w ++ [c]) ->
  node_find es c = Some (Z.of_nat k).
Proof.
  intros Hs Hes Hk. destruct (trie_find s w es c Hs Hes) as [E|(k' & E & Hk')].
  - destruct (node_find_None es c (Z.of_nat k) E).
    apply (tr_edge _ _ Hok s w es); [done..|]. by exists k.
  - rewrite E. do 2 f_equal. eapply nodup_label; [apply (tr_nodup _ _ Hok)|done..].
Qed.

(** One state leaves the queue, converted. *)
Lemma dfa_step g D d s q1 q2 :
  dfa_front g D d (s :: q1) q2 ->
  exists es kids,
    fold_opt (dfa_char fail (Z.of_nat s)) (g, Z.of_nat <$> q1 ++ q2) all_bytes
      = Some (<[s := es]> g, Z.of_nat <$> q1 ++ q2 ++ kids) /\
    dfa_front (<[s := es]> g) (s :: D) d q1 (q2 ++ kids).
Proof.
  intros Hf. pose proof Hf as [Hlen Hpos Htodo Hdone Hq1 Hq2 Hnd HDn HD Hdisj Hpar Hbel].
  destruct (Hq1 s) as (w & Hs & Hwd); [by left|].
  assert (w <> []) as Hw by (intros ->; cbn in *; lia).
  assert (s ∉ D) as HsD by (apply Hdisj; by left).
  destruct (Hlink s w Hs Hw) as (j & Hj & Hjl). pose proof (lsuf_short L w Hw) as Hsh.
  set (v := lsuf L (tail w)) in *.
  assert (j <> s) as Hjs by (intros ->; assert (v = w) as E by congruence; rewrite E in Hsh; lia).
  destruct (trie_node _ _ Hok _ _ Hs) as [es Hes].
  assert (g !! s = Some es) as Hges by (by rewrite Htodo).
  assert (forall c, c ∈ all_bytes -> delta_at g j v c) as Hdj.
  { intros c Hc%elem_of_all_bytes_inv. destruct (decide (v = [])) as [E|Hne].
    - rewrite E in *. assert (j = 0%nat) as -> by (by apply (trie_root_iff _ _ Hok _ _ Hjl)).
      apply delta_root; [|by rewrite Hlen, (tr_len _ _ Hok)]. apply Htodo.
      intros (u & Hu & Hune)%HD. rewrite (tr_root _ _ Hok) in Hu. congruence.
    - apply (Hdone j v c); [|done..]. apply (shallow_done _ _ _ _ _ _ _ Hf Hjl Hne).
      intros x Hx. destruct (dfa_depth _ _ _ _ _ _ Hf Hx) as (u & ? & ?). exists u. split; [done|lia]. }
  destruct (dfa_chars_ok all_bytes g (Z.of_nat <$> q1 ++ q2) s w es j v all_bytes_nodup Hlen Hs Hw Hges
              Hj Hjl eq_refl Hjs Hdj) as (es' & kids & -> & _ & Hnew & Hkn & Hk).
  { intros c _. by eapply trie_find. }
  { intros c k _. by eapply trie_find_child. }
  exists es', kids. rewrite <- fmap_app, <- app_assoc. split; [done|].
  assert (s < length g)%nat as Hsl by (by eapply lookup_lt_Some).
  assert (forall k, k ∈ kids <-> exists c, L !! k = Some (w ++ [c])) as Hk'.
  { intros k. rewrite Hk. split; intros [c Hc]; exists c; [by destruct Hc|].
    split; [|done]. apply elem_of_all_bytes.
    pose proof (Hbytes (w ++ [c]) ltac:(by eapply list_elem_of_lookup_2)) as Hwf.
    apply Forall_app in Hwf as [_ Hwf]. by inv_wf Hwf. }
  apply list.NoDup_cons in Hnd as [Hsq Hnd].
  split.
  - by rewrite length_insert.
  - done.
  - intros k [Hne Hn]%not_elem_of_cons. rewrite list_lookup_insert_ne by done. by apply Htodo.
  - intros k u c [->|HkD]%elem_of_cons Hu Hc.
    + assert (u = w) as -> by congruence. apply Hnew. by apply elem_of_all_bytes.
    + destruct (Hdone k u c HkD Hu Hc) as (r & Hr & Hn). exists r. split; [done|]. rewrite <- Hn. f_equal.
      destruct (lookup_lt_is_Some_2 g k) as [ek Hek]; [rewrite Hlen; by eapply lookup_lt_Some|].
      rewrite (next_state_at g k ek), (next_state_at _ k ek); [done| |done].
      rewrite list_lookup_insert_ne; [done|]. by intros ->.
  - intros k Hkq. apply Hq1. by right.
  - intros k [Hkq|[c Hkc]%Hk']%elem_of_app; [by apply Hq2|].
    exists (w ++ [c]). split; [done|]. rewrite length_app. cbn. lia.
  - rewrite app_assoc. apply list.NoDup_app. split_and!; [done| |done].
    intros k Hkq [c Hkc]%Hk'. destruct (Hpar k w c s) as [?|?]; try done.
    right. by right.
  - by apply NoDup_cons_2.
  - intros k [->|HkD]%elem_of_cons; [by exists w|by apply HD].
  - intros k Hkq. rewrite app_assoc in Hkq. apply elem_of_app in Hkq as [Hkq|[c Hkc]%Hk'].
    + apply not_elem_of_cons. split; [by intros ->|]. apply Hdisj. by right.
    + apply not_elem_of_cons. split.
      * intros ->. assert (w = w ++ [c]) as E by congruence.
        apply (f_equal length) in E. rewrite length_app in E. cbn in E. lia.
      * intros HkD. destruct (Hpar k w c s) as [?|?]; try done. by left.
  - intros k u c p Hkq Hku Hpu. rewrite app_assoc, elem_of_app, elem_of_cons in Hkq.
    destruct Hkq as [[->|HkD]|[Hkq|[e Hke]%Hk']].
    + destruct (Hpar s u c p) as [?|?]; try done; [right; by left|by left|right; by right].
    + destruct (Hpar k u c p) as [?|?]; try done; [by left|by left|right; by right].
    + destruct (Hpar k u c p) as [?|?]; try done; [right; by right|by left|right; by right].
    + assert (w ++ [e] = u ++ [c]) as [<- _]%app_inj_tail by congruence.
      right. assert (p = s) as -> by (eapply nodup_label; [apply (tr_nodup _ _ Hok)|done..]). by left.
  - intros k u c Hku [Hne HkD]%not_elem_of_cons. rewrite app_assoc.
    destruct (Hbel k u c Hku HkD) as [Hkq|[Hu Hp]].
    + left. apply elem_of_app. left. by apply elem_of_cons in Hkq as [?|?].
    + destruct (decide (u = w)) as [->|Hnw].
      * left. apply elem_of_app. right. apply Hk'. by exists c.
      * right. split; [done|]. intros p Hpu. apply not_elem_of_cons. split; [|by apply Hp].
        intros ->. congruence.
Qed.

Lemma done_lt D : NoDup D -> (forall k, k ∈ D -> exists w, L !! k = Some w) -> (length D <= length L)%nat.
Proof.
  intros HD Hin. rewrite <- (length_seq (length L) 0). apply submseteq_length, NoDup_submseteq; [done|].
  intros k [w Hk%lookup_lt_Some]%Hin. apply elem_of_seq. lia.
Qed.

Lemma dfa_bfs_ok fuel g D d q1 q2 :
  dfa_front g D d q1 q2 -> (length L <= fuel + length D)%nat ->
  exists g', dfa_bfs fuel fail (g, Z.of_nat <$> q1 ++ q2) = Some g' /\ length g' = length L /\
    forall k w c, L !! k = Some w -> is_byte c -> delta_at g' k w c.
Proof.
  revert g D d q1 q2. induction fuel as [|fuel IH]; intros g D d q1 q2 Hf Hfuel.
  all: destruct (decide (q1 ++ q2 = [])) as [E|Hne].
  1, 3: rewrite E; exists g; (split; [done|]); (split; [apply Hf|]); intros k w c Hk Hc;
    (destruct (decide (w = [])) as [->|Hw];
     [ assert (k = 0%nat) as -> by (by apply (trie_root_iff _ _ Hok _ _ Hk));
       apply delta_root; [|rewrite (df_len _ _ _ _ _ Hf); symmetry; apply (tr_len _ _ Hok)];
       apply (df_todo _ _ _ _ _ Hf);
       intros (u & Hu & Hune)%(df_D _ _ _ _ _ Hf); congruence
     | apply (df_done _ _ _ _ _ Hf); [|done..]; eapply shallow_done; [done..|];
       rewrite E; by intros x ?%not_elem_of_nil ]).
  { destruct (q1 ++ q2) as [|s q] eqn:E; [done|].
    assert (s ∈ q1 ++ q2) as Hs by (rewrite E; by left).
    destruct (dfa_depth _ _ _ _ _ _ Hf Hs) as (v & Hv & _).
    pose proof (done_lt (s :: D)) as Hlt. cbn in Hlt.
    assert (S (length D) <= length L)%nat; [|lia]. apply Hlt.
    - apply NoDup_cons_2; [by apply (df_disj _ _ _ _ _ Hf)|apply Hf].
    - intros k [->|(w & ? & _)%(df_D _ _ _ _ _ Hf)]%elem_of_cons; eauto. }
  assert (exists d s q1' q2', q1 ++ q2 = s :: q1' ++ q2' /\ dfa_front g D d (s :: q1') q2')
    as (d' & s & q1' & q2' & E & Hf').
  { destruct q1 as [|s q1]; [|by exists d, s, q1, q2].
    destruct q2 as [|s q2]; [done|]. exists (S d), s, q2, []. cbn. rewrite app_nil_r.
    split; [done|]. by apply dfa_shift. }
  rewrite E in *. cbn [fmap list_fmap dfa_bfs].
  change (list_fmap nat Z Z.of_nat (q1' ++ q2')) with (Z.of_nat <$> q1' ++ q2').
  destruct (dfa_step _ _ _ _ _ _ Hf') as (es & kids & -> & Hf''). cbn [mbind option_bind].
  apply (IH _ _ _ _ _ Hf''). cbn. lia.
Qed.
End dfa.

(** * [final] *)

(** What a finished automaton promises to the matching functions. *)
Record automaton (ignore : bool) (P L : list (list Z)) (d : ac_dfa) : Prop := Automaton {
  au_case : ignore_case d = ignore;
  au_nil : L !! 0%nat = Some [];
  au_closed : prefix_closed L;
  au_patterns : forall p, p ∈ P -> p ∈ L;
  au_goto : goto_t d <> [];
  au_delta : forall k w c, L !! k = Some w -> is_byte c -> delta_at L (goto_t d) k w c;
  au_out : forall k w, L !! k = Some w -> output_t d !! k = Some (best P w) }.

Lemma root_kids (L : list (list Z)) es :
  NoDup es -> (forall c z, (c, z) ∈ es -> exists k, z = Z.of_nat k /\ L !! k = Some [c]) ->
  exists kids, snd <$> es = Z.of_nat <$> kids /\ NoDup kids /\
    forall k, k ∈ kids <-> exists c, (c, Z.of_nat k) ∈ es.
Proof.
  induction 1 as [|[c z] es Hni Hnd IH]; intros Hes.
  - exists []. split_and!; [done|apply NoDup_nil_2|].
    intros k. split; [by intros ?%not_elem_of_nil|by intros [c ?%not_elem_of_nil]].
  - destruct IH as (kids & E & Hn & Hk); [intros; apply Hes; by right|].
    destruct (Hes c z) as (k & -> & Hkc); [by left|]. exists (k :: kids). split_and!.
    + cbn. by rewrite E.
    + apply NoDup_cons_2; [|done]. intros [c' Hin]%Hk.
      destruct (Hes c' (Z.of_nat k)) as (k' & ->%Nat2Z.inj & Hk'); [by right|].
      assert (c' = c) as -> by congruence. done.
    + intros k'. rewrite elem_of_cons, Hk. split.
      * intros [->|[c' ?]]; [exists c; by left|exists c'; by right].
      * intros [c' [[= _ ->%Nat2Z.inj]|?]%elem_of_cons]; [by left|right; by exists c'].
Qed.

Lemma convert_ok iter L g out ignore fail :
  (forall s, iter s ≡ₚ s) -> trie_ok L g -> (forall w, w ∈ L -> wf_bytes w) ->
  length fail = length L -> (forall k w, L !! k = Some w -> w <> [] -> linked L fail k w) ->
  exists g', convert_to_dfa iter (AcDfa g out ignore) fail = Some (AcDfa g' out ignore) /\
    length g' = length L /\ forall k w c, L !! k = Some w -> is_byte c -> delta_at L g' k w c.
Proof.
  intros Hiter Hok Hwf Hfl Hlink. pose proof (tr_root _ _ Hok) as Hroot.
  destruct (trie_node _ _ Hok _ _ Hroot) as [root Hr]. unfold convert_to_dfa. cbn [goto_t].
  pose proof (lookup_lt_Some _ _ _ Hroot) as HL0.
  destruct g as [|root' g1] eqn:Eg; [done|]. rewrite <- Eg in *.
  assert (root' = root) as -> by (rewrite Eg in Hr; by injection Hr).
  destruct fail as [|f0 fail'] eqn:Ef; [cbn in Hfl; lia|]. rewrite <- Ef in *.
  destruct (root_kids L (iter root)) as (kids & -> & Hnd & Hk).
  { rewrite Hiter. by apply (tr_set _ _ Hok 0). }
  { intros c z Hin. rewrite Hiter in Hin. by apply (tr_edge _ _ Hok 0 [] root) in Hin. }
  assert (forall k, k ∈ kids <-> exists c, L !! k = Some [c]) as Hkids.
  { intros k. rewrite Hk. split; intros [c Hc]; exists c.
    - rewrite Hiter in Hc. apply (tr_edge _ _ Hok 0 [] root) in Hc as (k' & ->%Nat2Z.inj & ?); done.
    - rewrite Hiter. apply (tr_edge _ _ Hok 0 [] root); [done..|]. by exists k. }
  destruct (dfa_bfs_ok L g fail Hok Hwf Hlink (length g) g [] 1 kids []) as (g' & E & ? & ?).
  - split; rewrite ?app_nil_r; try done; try (by intros k ?%not_elem_of_nil).
    + apply (tr_len _ _ Hok).
    + lia.
    + by intros k w c ?%not_elem_of_nil.
    + intros k [c ?]%Hkids. by exists [c].
    + apply NoDup_nil_2.
    + intros k _. apply not_elem_of_nil.
    + intros k w c p [?%not_elem_of_nil|Hkk] Hkw Hp; [done|]. apply Hkids in Hkk as [e Hke]. left.
      assert (w ++ [c] = [] ++ [e]) as [-> _]%app_inj_tail by (cbn; congruence). done.
    + intros k w c Hkw _. destruct (decide (w = [])) as [->|Hw].
      * left. apply Hkids. by exists c.
      * right. split; [done|]. intros p _. apply not_elem_of_nil.
  - rewrite (tr_len _ _ Hok). cbn. lia.
  - rewrite app_nil_r in E. rewrite E. cbn [mbind option_bind]. by exists g'.
Qed.

Lemma trie_final_ok iter t shared ignore P :
  (forall s, iter s ≡ₚ s) -> building ignore P t ->
  exists t' d L, trie_final iter t shared = Some t' /\ data_ t' = Some d /\ automaton ignore P L d /\
    reserve_ t' = (if shared then None else data_ t).
Proof.
  intros Hiter (r & L & Hr & Hcase & Hok & Hout & HP & Hst & Hwf). unfold trie_final. rewrite Hr.
  cbn [mbind option_bind].
  destruct (build_fail_ok L P r Hok Hout HP iter (fail_table_ t) Hiter)
    as (fail & out & -> & Hfl & _ & Hbest & Hlink). cbn [mbind option_bind].
  destruct (convert_ok iter L (goto_t r) out (ignore_case r) fail Hiter Hok Hwf Hfl Hlink)
    as (g' & -> & Hl & Hd). cbn [mbind option_bind].
  eexists _, _, L. split; [reflexivity|]. split; [reflexivity|]. split; [|by destruct shared].
  split; cbn [ignore_case goto_t output_t]; try done.
  - apply (tr_root _ _ Hok).
  - apply (tr_closed _ _ Hok).
  - intros ->. pose proof (lookup_lt_Some _ _ _ (tr_root _ _ Hok)). cbn in Hl. lia.
Qed.

(** * Scanning *)

(** The text the scanning loops look at: up to the first NUL. *)
Fixpoint until_nul (str : bytes) : bytes :=
  match str with [] => [] | ch :: str => if ch =? 0 then [] else ch :: until_nul str end.

Definition scanned (ignore : bool) (str : bytes) : bytes := folded ignore (until_nul str).

(** A non-empty pattern occurs in the text and covers position [i]. *)
Definition covers (P : list (list Z)) (text : bytes) (i : nat) : Prop :=
  exists a p b, text = a ++ p ++ b /\ p ∈ P /\ (length a <= i < length a + length p)%nat.

Definition occurs (P : list (list Z)) (text : bytes) : Prop := exists i, covers P text i.

Section scan.
Context (ignore : bool) (P L : list (list Z)) (d : ac_dfa) (Hd : automaton ignore P L d).

Lemma scan_step_ok k u ch :
  L !! k = Some (lsuf L u) -> is_byte ch ->
  exists r, scan_step d (Z.of_nat k) ch = Z.of_nat r /\
    L !! r = Some (lsuf L (u ++ [fold_case ignore ch])) /\
    output_t d !! r = Some (best P (u ++ [fold_case ignore ch])).
Proof.
  intros Hk Hch. unfold scan_step. rewrite (au_case _ _ _ _ Hd). set (c := fold_case ignore ch).
  destruct (au_delta _ _ _ _ Hd k _ c Hk ltac:(by apply fold_case_byte)) as (r & Hr & Hn).
  rewrite <- lsuf_snoc in Hr; [|by eapply list_elem_of_lookup_2, (au_nil _ _ _ _ Hd)|apply Hd].
  exists r. split_and!; [|done|].
  - rewrite <- Hn. destruct (Z.ltb_spec (next_state (goto_t d) (Z.of_nat k) c) 0); lia.
  - rewrite (au_out _ _ _ _ Hd _ _ Hr), best_lsuf; [done|apply Hd].
Qed.

Lemma start_state : L !! 0%nat = Some (lsuf L []).
Proof.
  rewrite lsuf_self; [apply Hd|]. eapply list_elem_of_lookup_2, (au_nil _ _ _ _ Hd).
Qed.

(** What one more character adds to the covered positions. *)
Lemma covers_snoc u c i :
  covers P (u ++ [c]) i <->
  covers P u i \/ (Z.of_nat (length u) + 1 - best P (u ++ [c]) <= Z.of_nat i < Z.of_nat (length u) + 1).
Proof.
  split.
  - intros (a & p & b & E & Hp & Hi). induction b as [|e b _] using rev_ind.
    + right. rewrite app_nil_r in E. pose proof (best_ge P p (u ++ [c]) Hp ltac:(by exists a)) as Hb.
      apply (f_equal length) in E. rewrite !length_app in E. unfold zlen in Hb. cbn in E. lia.
    + left. rewrite !app_assoc in E. apply app_inj_tail in E as [-> ->].
      exists a, p, b. by rewrite <- app_assoc.
  - intros [(a & p & b & -> & Hp & Hi)|Hi].
    + exists a, p, (b ++ [c]). by rewrite <- !app_assoc.
    + destruct (best_attained P (u ++ [c])) as (p & Hp & [a Ha] & Hl); [lia|].
      exists a, p, []. rewrite app_nil_r. split_and!; try done;
        apply (f_equal length) in Ha; rewrite !length_app in Ha; unfold zlen in Hl; cbn in Ha; lia.
Qed.

Lemma occurs_snoc u c : occurs P (u ++ [c]) <-> occurs P u \/ 0 < best P (u ++ [c]).
Proof.
  unfold occurs. split.
  - intros [i [?|?]%covers_snoc]; [left; by exists i|right; lia].
  - intros [[i Hi]|Hb]; [exists i; apply covers_snoc; by left|].
    exists (length u). apply covers_snoc. right. lia.
Qed.

Lemma occurs_app u v : occurs P u -> occurs P (u ++ v).
Proof.
  intros (i & a & p & b & -> & Hp & Hi). exists i, a, p, (b ++ v). by rewrite <- !app_assoc.
Qed.

Lemma in_trie_loop_ok k u str :
  L !! k = Some (lsuf L u) -> wf_bytes str -> ~ occurs P u ->
  exists b, in_trie_loop d (Z.of_nat k) str = Some b /\
    (b = true <-> occurs P (u ++ scanned ignore str)).
Proof.
  intros Hk Hwf. revert k u Hk. unfold scanned.
  induction Hwf as [|ch str Hch Hwf IH]; intros k u Hk Hno; cbn [in_trie_loop until_nul].
  - exists false. cbn. rewrite app_nil_r. done.
  - destruct (Z.eqb_spec ch 0).
    { exists false. cbn. rewrite app_nil_r. done. }
    destruct (scan_step_ok k u ch Hk Hch) as (r & -> & Hr & Ho).
    rewrite znth_nat, Ho. cbn [mbind option_bind folded fmap list_fmap].
    fold (folded ignore (until_nul str)).
    replace (u ++ fold_case ignore ch :: folded ignore (until_nul str))
      with ((u ++ [fold_case ignore ch]) ++ folded ignore (until_nul str)) by (by rewrite <- app_assoc).
    destruct (Z.ltb_spec 0 (best P (u ++ [fold_case ignore ch]))).
    + exists true. split; [done|]. split; [|done]. intros _. apply occurs_app, occurs_snoc. by right.
    + apply IH; [done|]. intros [?|?]%occurs_snoc; [done|lia].
Qed.
End scan.

Lemma in_trie_ok ignore P L t d str :
  data_ t = Some d -> automaton ignore P L d -> wf_bytes str ->
  exists b, in_trie t str = Some b /\ (b = true <-> occurs P (scanned ignore str)).
Proof.
  intros Ht Hd Hwf. unfold in_trie, get_data. rewrite Ht.
  destruct (goto_t d) eqn:E; [by destruct (au_goto _ _ _ _ Hd)|].
  apply (in_trie_loop_ok ignore P L d Hd 0 []); [by eapply start_state|done|].
  intros (i & a & p & b & Hn & _ & Hi). apply (f_equal length) in Hn. rewrite !length_app in Hn. cbn in Hn. lia.
Qed.

(** * [replace] *)

(** How a text is rendered when the positions satisfying [m] are to be
    hidden: maximal runs of hidden positions become stars, one per character
    [cnt_utf8] counts in the run. *)
Inductive rendered (m : nat -> Prop) : nat -> bytes -> bytes -> Prop :=
  | rendered_end i : rendered m i [] []
  | rendered_keep i c str out :
      ~ m i -> rendered m (S i) str out -> rendered m i (c :: str) (c :: out)
  | rendered_run i run str out :
      run <> [] -> (forall j, (i <= j < i + length run)%nat -> m j) ->
      (str <> [] -> ~ m (i + length run)%nat) ->
      rendered m (i + length run)%nat str out ->
      rendered m i (run ++ str) (zrep (cnt_utf8 (length run) run (zlen run)) 42 ++ out).

(** [cnt_utf8] looks at the run only. *)
Lemma next_utf8_prefix run rest size :
  run <> [] -> size <= zlen run -> next_utf8 (run ++ rest) size = next_utf8 run size.
Proof.
  intros Hne Hs. unfold next_utf8. destruct run as [|c run]; [done|]. cbn [app nth].
  assert (forall i, utf8_cont (c :: run ++ rest) size i = utf8_cont (c :: run) size i) as E.
  { intros i. unfold utf8_cont. destruct (Z.leb_spec size (Z.of_nat i)); [done|].
    change (c :: run ++ rest) with ((c :: run) ++ rest). rewrite app_nth1; [done|].
    unfold zlen in Hs. cbn in *. lia. }
  assert (forall l, forallb (utf8_cont (c :: run ++ rest) size) l = forallb (utf8_cont (c :: run) size) l)
    as Hall by (intros l; induction l as [|i l IH]; cbn; [done|by rewrite E, IH]).
  by rewrite !Hall.
Qed.

Lemma forallb_cont_lt str size cnt :
  forallb (utf8_cont str size) (seq 1 (cnt - 1)) = true -> (2 <= cnt)%nat -> Z.of_nat cnt <= size.
Proof.
  intros H Hc. rewrite forallb_forall in H. specialize (H (cnt - 1)%nat).
  unfold utf8_cont in H. destruct (Z.leb_spec size (Z.of_nat (cnt - 1))) as [Hle|]; [|lia].
  cbn in H. discriminate H. apply in_seq. lia.
Qed.

(** A step stays inside the run. *)
Lemma next_utf8_bounds str size : 0 < size -> 1 <= Z.of_nat (next_utf8 str size) <= size.
Proof.
  intros Hs. unfold next_utf8.
  assert (forall cnt, (2 <= cnt)%nat ->
    1 <= Z.of_nat (if forallb (utf8_cont str size) (seq 1 (cnt - 1)) then cnt else 1%nat) <= size) as H.
  { intros cnt Hc. destruct (forallb _ _) eqn:E; [|lia].
    pose proof (forallb_cont_lt _ _ _ E Hc). lia. }
  repeat match goal with |- context [if ?a <? ?b then _ else _] => destruct (a <? b) end;
    try apply H; lia.
Qed.

Lemma cnt_utf8_prefix fuel run rest :
  zlen run < 2 ^ 64 ->
  cnt_utf8 fuel (run ++ rest) (zlen run) = cnt_utf8 fuel run (zlen run).
Proof.
  revert run. induction fuel as [|fuel IH]; intros run Hlt; cbn [cnt_utf8]; [done|].
  destruct (Z.ltb_spec 0 (zlen run)) as [Hpos|]; [|done].
  rewrite next_utf8_prefix by (lia || by intros ->).
  pose proof (next_utf8_bounds run (zlen run) Hpos) as Hb.
  set (n := next_utf8 run (zlen run)) in *.
  assert (u64 (zlen run - Z.of_nat n) = zlen (drop n run)) as ->.
  { unfold zlen in *. rewrite length_drop. unfold u64. rewrite Z.mod_small; lia. }
  rewrite drop_app_le by (unfold zlen in *; lia). f_equal. apply IH.
  unfold zlen in *. rewrite length_drop. lia.
Qed.

Definition marked (idx : list bool) (i : nat) : Prop := nth i idx false = true.

#[local] Instance marked_dec idx i : Decision (marked idx i) := ltac:(unfold marked; apply _).

Lemma length_resize {A} (l : list A) n x : length (resize l n x) = n.
Proof. unfold resize. rewrite length_app, length_take, length_replicate. lia. Qed.

Lemma nth_marked idx i : nth i idx false = bool_decide (marked idx i).
Proof.
  destruct (bool_decide_reflect (marked idx i)) as [H|H]; [done|].
  unfold marked in H. by destruct (nth i idx false).
Qed.

(** [run_end] stops at the first unmarked position or at the end. *)
Lemma run_end_spec fuel idx e :
  (e <= run_end fuel idx e <= e + fuel)%nat /\
  (forall j, (e <= j < run_end fuel idx e)%nat -> marked idx j) /\
  ((run_end fuel idx e < e + fuel)%nat -> ~ marked idx (run_end fuel idx e)).
Proof.
  revert e. induction fuel as [|fuel IH]; intros e; cbn [run_end].
  - split_and!; lia.
  - rewrite nth_marked. destruct (bool_decide_reflect (marked idx e)) as [Hm|Hn].
    + destruct (IH (S e)) as (Hb & Hall & Hstop). split_and!; [lia|lia| |].
      * intros j Hj. destruct (decide (j = e)) as [->|]; [done|]. apply Hall. lia.
      * intros. apply Hstop. lia.
    + split_and!; [lia|lia|lia|done].
Qed.

Lemma rewrite_loop_ok fuel str idx start last temp :
  zlen str < 2 ^ 64 -> (last <= start <= length str)%nat -> (length str - start < fuel)%nat ->
  exists out, rendered (marked idx) start (drop start str) out /\
    rewrite_loop fuel str idx start last temp = temp ++ take (start - last) (drop last str) ++ out.
Proof.
  intros Hsz. revert start last temp. induction fuel as [|fuel IH]; intros start last temp Hb Hf; [lia|].
  cbn [rewrite_loop]. destruct (Nat.ltb_spec start (length str)) as [Hlt|Hge].
  - rewrite nth_marked. destruct (bool_decide_reflect (marked idx start)) as [Hm|Hn].
    + set (e := run_end _ idx (S start)).
      destruct (run_end_spec (length str - S start) idx (S start)) as (Heb & Hall & Hstop). fold e in Heb, Hall, Hstop.
      set (run := take (e - start) (drop start str)).
      assert (length run = (e - start)%nat) as Hrl by (unfold run; rewrite length_take, length_drop; lia).
      assert (drop start str = run ++ drop e str) as Hsplit.
      { unfold run. rewrite <- (take_drop (e - start) (drop start str)) at 1. rewrite drop_drop.
        do 2 f_equal. lia. }
      assert (cnt_utf8 (e - start) (drop start str) (Z.of_nat (e - start)) =
              cnt_utf8 (length run) run (zlen run)) as ->.
      { rewrite Hsplit. unfold zlen. rewrite Hrl. replace (Z.of_nat (e - start)) with (zlen run) by (unfold zlen; lia).
        apply cnt_utf8_prefix. unfold zlen in *. lia. }
      destruct (IH e e ((temp ++ take (start - last) (drop last str)) ++
                        zrep (cnt_utf8 (length run) run (zlen run)) 42)) as (out & Hr & ->); [lia|lia|].
      exists (zrep (cnt_utf8 (length run) run (zlen run)) 42 ++ out). split.
      * rewrite Hsplit. apply rendered_run.
        -- intros E. rewrite E in Hrl. cbn in Hrl. lia.
        -- intros j Hj. destruct (decide (j = start)) as [->|]; [done|]. apply Hall. lia.
        -- intros Hne. replace (start + length run)%nat with e by lia. apply Hstop.
           destruct (decide (e < length str)%nat); [lia|]. destruct Hne. apply drop_ge. lia.
        -- by replace (start + length run)%nat with e by lia.
      * rewrite Nat.sub_diag. cbn [take app]. by rewrite <- !app_assoc.
    + destruct (IH (S start) last temp) as (out & Hr & ->); [lia|lia|].
      destruct (lookup_lt_is_Some_2 str start Hlt) as [c Hc].
      exists (c :: out). rewrite (drop_S str c start Hc). split; [by apply rendered_keep|].
      f_equal. replace (S start - last)%nat with (S (start - last)) by lia.
      rewrite (take_S_r _ _ c); [by rewrite <- app_assoc|].
      rewrite lookup_drop. by replace (last + (start - last))%nat with start by lia.
  - exists []. rewrite drop_ge by lia. split; [constructor|]. rewrite app_nil_r.
    destruct (Nat.ltb_spec last (length str)).
    + f_equal. rewrite take_ge; [done|]. rewrite length_drop. lia.
    + by rewrite (drop_ge str last), take_nil, app_nil_r by lia.
Qed.

Lemma rendered_ext (m m' : nat -> Prop) i str out :
  (forall j, m j <-> m' j) -> rendered m i str out -> rendered m' i str out.
Proof.
  intros Hm. induction 1 as [|i c str out Hn _ IH|i run str out Hne Hall Hstop _ IH].
  - constructor.
  - apply rendered_keep; [by rewrite <- Hm|done].
  - apply rendered_run; [done| | |done]; intros; rewrite <- Hm; auto.
Qed.

Lemma rendered_none (m : nat -> Prop) i str : (forall j, ~ m j) -> rendered m i str str.
Proof. intros Hn. revert i. induction str; intros i; constructor; eauto. Qed.

Section replace.
Context (ignore : bool) (P L : list (list Z)) (d : ac_dfa) (Hd : automaton ignore P L d).

(** The marks describe the positions covered in the part read so far. *)
Definition marks_ok (idx : list bool) (sz : nat) (u : bytes) : Prop :=
  (idx = [] \/ length idx = sz) /\ forall i, marked idx i <-> covers P u i.

Lemma mark_ok idx sz u c :
  length idx = sz -> (forall i, marked idx i <-> covers P u i) -> (S (length u) <= sz)%nat ->
  0 < best P (u ++ [c]) ->
  exists idx', mark idx (S (length u)) (Z.to_nat (best P (u ++ [c]))) = Some idx' /\
    marks_ok idx' sz (u ++ [c]) /\ idx' <> [].
Proof.
  intros Hl Hm Hsz Hb. pose proof (best_le P (u ++ [c])) as Hle.
  unfold zlen in Hle. rewrite length_app in Hle. cbn in Hle.
  unfold mark. rewrite (proj2 (Nat.ltb_ge _ _)) by lia. eexists. split; [done|].
  set (idx' := imap _ idx).
  assert (length idx' = sz) as Hl' by (unfold idx'; by rewrite length_imap).
  split; [|intros E; rewrite E in Hl'; cbn in Hl'; lia].
  split; [by right|]. intros i. rewrite covers_snoc, <- Hm. unfold marked, idx'.
  rewrite !nth_lookup, list_lookup_imap.
  destruct (idx !! i) as [b|] eqn:E; cbn [fmap option_fmap option_map default from_option id].
  - rewrite orb_true_iff, andb_true_iff, Nat.leb_le, Nat.ltb_lt. split; (intros [?|?]; [by left|right; lia]).
  - apply lookup_ge_None in E. split; [done|]. intros [?|?]; [done|lia].
Qed.

Lemma replace_scan_ok k u str sz idx :
  L !! k = Some (lsuf L u) -> wf_bytes str -> sz = (length u + length str)%nat ->
  marks_ok idx sz u ->
  exists idx', replace_scan d (Z.of_nat k) (length u) str sz idx = Some idx' /\
    marks_ok idx' sz (u ++ scanned ignore str).
Proof.
  intros Hk Hwf. revert k u idx Hk. unfold scanned.
  induction Hwf as [|ch str Hch Hwf IH]; intros k u idx Hk Hsz Hm; cbn [replace_scan until_nul].
  { exists idx. cbn. by rewrite app_nil_r. }
  destruct (Z.eqb_spec ch 0).
  { exists idx. cbn. by rewrite app_nil_r. }
  destruct (scan_step_ok ignore P L d Hd k u ch Hk Hch) as (r & -> & Hr & Ho).
  rewrite znth_nat, Ho. cbn [mbind option_bind folded fmap list_fmap].
  fold (folded ignore (until_nul str)). set (c := fold_case ignore ch) in *.
  replace (u ++ c :: folded ignore (until_nul str)) with ((u ++ [c]) ++ folded ignore (until_nul str))
    by (by rewrite <- app_assoc).
  assert (S (length u) = length (u ++ [c])) as Hsl by (rewrite length_app; cbn; lia).
  cbn [length] in Hsz. destruct (Z.ltb_spec 0 (best P (u ++ [c]))) as [Hb|Hb].
  - destruct (mark_ok (match idx with [] => resize idx sz false | _ => idx end) sz u c)
      as (idx' & -> & Hm' & _); [| |lia|done|].
    + destruct Hm as [[->|Hl] _].
      * apply length_resize.
      * destruct idx; [apply length_resize|done].
    + intros i. rewrite <- (proj2 Hm i). destruct idx as [|b idx]; [|done].
      unfold resize, marked. rewrite take_nil. cbn [app length]. rewrite Nat.sub_0_r, nth_lookup.
      destruct (replicate sz false !! i) eqn:E; [apply lookup_replicate in E as [-> _]|]; by destruct i.
    + cbn [mbind option_bind]. rewrite Hsl. apply IH; [done|lia|done].
  - cbn [mbind option_bind]. rewrite Hsl. apply IH; [done|lia|].
    destruct Hm as [Hl Hm]. split; [done|]. intros i. rewrite Hm, covers_snoc.
    split; [by left|]. intros [?|?]; [done|lia].
Qed.
End replace.

Lemma replace_ok ignore P L t d str :
  data_ t = Some d -> automaton ignore P L d -> wf_bytes str -> zlen str < 2 ^ 64 ->
  exists out, replace t str = Some out /\ rendered (covers P (scanned ignore str)) 0 str out.
Proof.
  intros Ht Hd Hwf Hsz. unfold replace, get_data. rewrite Ht.
  destruct (goto_t d) eqn:E; [by destruct (au_goto _ _ _ _ Hd)|]. clear E.
  destruct (replace_scan_ok ignore P L d Hd 0 [] str (length str) []) as (idx & Hi & Hl & Hm);
    [by eapply start_state|done|done| |].
  { split; [by left|]. intros i. unfold marked. destruct i; cbn;
      (split; [done|]; intros (a & p & b & Hn & _ & Hi);
       apply (f_equal length) in Hn; rewrite !length_app in Hn; cbn in Hn; lia). }
  change (Z.of_nat 0) with 0 in Hi. change (length []) with 0%nat in Hi. rewrite Hi.
  cbn [mbind option_bind app] in *. destruct idx as [|b idx].
  - exists str. split; [done|]. apply rendered_none. intros j Hj. apply Hm in Hj. by destruct j.
  - destruct (rewrite_loop_ok (S (length str)) str (b :: idx) 0 0 []) as (out & Hr & ->); [done|lia|lia|].
    rewrite Nat.sub_diag in *. cbn [take app]. exists out. split; [done|].
    rewrite drop_0 in Hr. by eapply rendered_ext.
Qed.

(** * Characters *)

(** One encoded character: ASCII, or a lead byte with as many continuation
    bytes as it announces (up to the six-byte forms the code knows). *)
Definition utf8_char (ch : bytes) : Prop :=
  match ch with
  | [] => False
  | lead :: conts =>
      Forall (fun b => 128 <= b < 192) conts /\
      ((0 <= lead < 128 /\ length conts = 0%nat) \/ (192 <= lead < 224 /\ length conts = 1%nat) \/
       (224 <= lead < 240 /\ length conts = 2%nat) \/ (240 <= lead < 248 /\ length conts = 3%nat) \/
       (248 <= lead < 252 /\ length conts = 4%nat) \/ (252 <= lead < 254 /\ length conts = 5%nat))
  end.

Lemma conts_checked lead conts rest size :
  Forall (fun b => 128 <= b < 192) conts -> 1 + zlen conts <= size ->
  forallb (utf8_cont (lead :: conts ++ rest) size) (seq 1 (length conts)) = true.
Proof.
  intros Hc Hs. apply forallb_forall. intros i Hi%in_seq. unfold utf8_cont, zlen in *.
  destruct (lookup_lt_is_Some_2 conts (i - 1)) as [b Hb]; [lia|].
  assert (nth i (lead :: conts ++ rest) 0 = b) as ->.
  { destruct i as [|i]; [lia|]. cbn [nth]. rewrite nth_lookup, lookup_app_l by lia.
    cbn in Hb. rewrite Nat.sub_0_r in Hb. by rewrite Hb. }
  eapply Forall_lookup_1 in Hb; [|done]. cbn in Hb. lia.
Qed.

Lemma next_utf8_char ch rest size :
  utf8_char ch -> zlen ch <= size -> next_utf8 (ch ++ rest) size = length ch.
Proof.
  destruct ch as [|lead conts]; [done|]. intros [Hc Hl] Hs. rewrite zlen_cons in Hs.
  pose proof (conts_checked lead conts rest size Hc Hs) as Hok.
  unfold next_utf8. cbn [app nth length].
  destruct (Z.ltb_spec lead 128), (Z.ltb_spec lead 224), (Z.ltb_spec lead 240),
    (Z.ltb_spec lead 248), (Z.ltb_spec lead 252), (Z.ltb_spec lead 254); try lia;
    match goal with
    | |- (if forallb _ (seq 1 (?n - 1)) then _ else _) = _ =>
        replace (n - 1)%nat with (length conts) by lia; rewrite Hok; lia
    | |- 1%nat = _ => lia
    end.
Qed.

Lemma cnt_utf8_chars_fuel chs fuel :
  Forall utf8_char chs -> (length (concat chs) <= fuel)%nat -> zlen (concat chs) < 2 ^ 64 ->
  cnt_utf8 fuel (concat chs) (zlen (concat chs)) = zlen chs.
Proof.
  intros Hchs. revert fuel. induction Hchs as [|ch chs Hch _ IH]; intros fuel Hf Hs.
  - destruct fuel; done.
  - cbn [concat] in *. assert (0 < zlen ch) by (destruct ch; [done|rewrite zlen_cons; pose proof (zlen_nonneg ch); lia]).
    pose proof (zlen_nonneg (concat chs)). rewrite length_app in Hf. rewrite zlen_app in *.
    destruct fuel as [|fuel]; [unfold zlen in *; lia|]. cbn [cnt_utf8].
    rewrite (proj2 (Z.ltb_lt 0 _)) by lia.
    rewrite next_utf8_char by (done || lia). rewrite drop_app_length.
    replace (zlen ch + zlen (concat chs) - Z.of_nat (length ch)) with (zlen (concat chs)) by (unfold zlen; lia).
    rewrite u64_small by (unfold is_u64; lia).
    rewrite IH by (unfold zlen in *; lia). by rewrite zlen_cons.
Qed.

(** * Properties *)

Lemma load_patterns_ok iter t ignore patterns shared :
  (forall s, iter s ≡ₚ s) -> reserve_ t = None -> Forall wf_bytes patterns ->
  exists t' d L, load_patterns iter t ignore patterns shared = Some t' /\ data_ t' = Some d /\
    automaton ignore (rev (folded ignore <$> patterns) ++ []) L d.
Proof.
  intros Hiter Hr Hwf. unfold load_patterns.
  destruct (trie_init_ok t ignore Hr) as [Hb _].
  destruct (fold_update_ok _ ignore [] patterns Hb Hwf) as (t1 & -> & _ & Hb1). cbn [mbind option_bind].
  destruct (trie_final_ok iter t1 shared _ _ Hiter Hb1) as (t' & d & L & -> & ? & ? & _).
  by exists t', d, L.
Qed.

Lemma covers_perm (P P' : list (list Z)) text i :
  (forall p, p ∈ P <-> p ∈ P') -> covers P text i <-> covers P' text i.
Proof. intros HP. split; intros (a & p & b & ? & ? & ?); exists a, p, b; rewrite HP in *; done. Qed.

Lemma elem_of_rev_nil {A} (l : list A) x : x ∈ rev l ++ [] <-> x ∈ l.
Proof. rewrite app_nil_r, !list_elem_of_In. symmetry. apply in_rev. Qed.

(** The automaton built by [init], [update] on each pattern and [final]
    recognises exactly the texts in which some non-empty pattern occurs (in
    the part before the first NUL, compared after [tolower] when the case is
    ignored): neither building nor matching leaves the tables, every loop
    terminates, whatever the iteration order of the hash sets. *)
Theorem in_trie_occurs (iter : list (Z * Z) -> list (Z * Z)) (t : trie_ac) (ignore shared : bool)
    (patterns : list bytes) (str : bytes) :
  (forall s, iter s ≡ₚ s) -> reserve_ t = None -> Forall wf_bytes patterns -> wf_bytes str ->
  exists t' b, load_patterns iter t ignore patterns shared = Some t' /\ in_trie t' str = Some b /\
    (b = true <-> occurs (folded ignore <$> patterns) (scanned ignore str)).
Proof.
  intros Hiter Hr Hp Hstr.
  destruct (load_patterns_ok iter t ignore patterns shared Hiter Hr Hp) as (t' & d & L & -> & Ht & Hd).
  destruct (in_trie_ok _ _ _ _ _ _ Ht Hd Hstr) as (b & Hb & Hiff).
  exists t', b. split_and!; [done|done|]. rewrite Hiff. unfold occurs.
  split; intros [i Hi]; exists i; (eapply covers_perm; [|done]); intros p; by rewrite elem_of_rev_nil.
Qed.

Lemma in_trie_occurs_witness :
  exists t' b, load_patterns (fun s => s) trie_ac_make true [[82; 97]; [120]] false = Some t' /\
    in_trie t' [97; 114; 65] = Some b /\
    (b = true <-> occurs (folded true <$> [[82; 97]; [120]]) (scanned true [97; 114; 65])).
Proof.
  apply (in_trie_occurs (fun s => s) trie_ac_make true false [[82; 97]; [120]] [97; 114; 65]).
  - reflexivity.
  - reflexivity.
  - repeat constructor; lia.
  - repeat constructor; lia.
Defined.

(** [replace] hides exactly the positions covered by an occurrence of a
    pattern: everything else is copied, and every maximal covered run
    becomes as many stars as it has characters. *)
Theorem replace_covered (iter : list (Z * Z) -> list (Z * Z)) (t : trie_ac) (ignore shared : bool)
    (patterns : list bytes) (str : bytes) :
  (forall s, iter s ≡ₚ s) -> reserve_ t = None -> Forall wf_bytes patterns -> wf_bytes str ->
  zlen str < 2 ^ 64 ->
  exists t' out, load_patterns iter t ignore patterns shared = Some t' /\ replace t' str = Some out /\
    rendered (covers (folded ignore <$> patterns) (scanned ignore str)) 0 str out.
Proof.
  intros Hiter Hr Hp Hstr Hsz.
  destruct (load_patterns_ok iter t ignore patterns shared Hiter Hr Hp) as (t' & d & L & -> & Ht & Hd).
  destruct (replace_ok _ _ _ _ _ _ Ht Hd Hstr Hsz) as (out & Ho & Hren).
  exists t', out. split_and!; [done|done|]. eapply rendered_ext; [|done].
  intros j. apply covers_perm. intros p. apply elem_of_rev_nil.
Qed.

Lemma replace_covered_witness :
  exists t' out, load_patterns (fun s => s) trie_ac_make true [[82; 97]] false = Some t' /\
    replace t' [97; 114; 65] = Some out /\
    rendered (covers (folded true <$> [[82; 97]]) (scanned true [97; 114; 65])) 0 [97; 114; 65] out.
Proof.
  apply (replace_covered (fun s => s) trie_ac_make true false [[82; 97]] [97; 114; 65]).
  - reflexivity.
  - reflexivity.
  - repeat constructor; lia.
  - repeat constructor; lia.
  - reflexivity.
Defined.

(** On well-formed UTF-8, [cnt_utf8] counts the characters, so a hidden
    run becomes one star per character. *)
Theorem cnt_utf8_characters (chs : list bytes) :
  Forall utf8_char chs -> zlen (concat chs) < 2 ^ 64 ->
  cnt_utf8 (length (concat chs)) (concat chs) (zlen (concat chs)) = zlen chs.
Proof. intros Hc Hs. by apply cnt_utf8_chars_fuel. Qed.

Lemma cnt_utf8_characters_witness :
  Forall utf8_char [[97]; [228; 189; 160]] /\
  cnt_utf8 4 [97; 228; 189; 160] 4 = 2.
Proof.
  assert (Forall utf8_char [[97]; [228; 189; 160]]) as H.
  { constructor; [|constructor; [|constructor]].
    - split; [constructor|left; cbn; lia].
    - split; [repeat constructor; lia|right; right; left; cbn; lia]. }
  split; [exact H|]. apply (cnt_utf8_characters [[97]; [228; 189; 160]] H). reflexivity.
Defined.

(** A [trie_ac] object works for two sessions only. After two
    complete ones the third [init] reuses the automaton of the first with its
    root edges in place (the [resize] to one state keeps it), and the
    next [update] follows a stale edge out of the table. *)
Theorem third_session_stale :
  exists t1 t2,
    load_patterns (fun s => s) trie_ac_make false [[97; 98]] false = Some t1 /\
    load_patterns (fun s => s) t1 false [[99]] false = Some t2 /\
    load_patterns (fun s => s) t2 false [[97; 98]] false = None.
Proof.
  set (s1 := load_patterns (fun s => s) trie_ac_make false [[97; 98]] false).
  set (s2 := load_patterns (fun s => s) (default trie_ac_make s1) false [[99]] false).
  exists (default trie_ac_make s1), (default trie_ac_make s2).
  split_and!; vm_compute; reflexivity.
Qed.
