(* ===== verification/BinaryHeap.v ===== *)
(** Binary min-heaps of keys in a list, the children of position i at 2i+1 and
    2i+2: what TimerQueue.v and LinkedHeap.v share. *)

From S2P Require Import Prelude.

(** * Order *)

Definition kth (l : list Z) (i : nat) : Z := nth i l 0.

Definition heap_ok (l : list Z) : Prop :=
  forall i, (0 < i < length l)%nat -> kth l ((i - 1) / 2) <= kth l i.

(** Two keys exchanged. *)
Definition swapped (l l' : list Z) (i j : nat) : Prop :=
  length l' = length l /\
  forall x, (x < length l)%nat ->
    kth l' x = if decide (x = i) then kth l j else if decide (x = j) then kth l i else kth l x.

(** * Sifting *)

(** Heap order except that [i] may be smaller than its parent. *)
Definition up_ok (l : list Z) (i : nat) : Prop :=
  (forall k, (0 < k < length l)%nat -> k <> i -> kth l ((k - 1) / 2) <= kth l k) /\
  (forall k, (0 < k < length l)%nat -> (0 < i)%nat -> ((k - 1) / 2)%nat = i ->
     kth l ((i - 1) / 2) <= kth l k).

(** Heap order except that [i] may be larger than its children. *)
Definition down_ok (l : list Z) (i : nat) : Prop :=
  (forall k, (0 < k < length l)%nat -> ((k - 1) / 2)%nat <> i -> kth l ((k - 1) / 2) <= kth l k) /\
  (forall k, (0 < k < length l)%nat -> (0 < i)%nat -> ((k - 1) / 2)%nat = i ->
     kth l ((i - 1) / 2) <= kth l k).

Lemma parent_lt k : (0 < k)%nat -> ((k - 1) / 2 < k)%nat.
Proof. intros. divlia. Qed.

Lemma up_swap l l' i :
  up_ok l i -> (0 < i < length l)%nat -> kth l i < kth l ((i - 1) / 2) ->
  swapped l l' i ((i - 1) / 2) -> up_ok l' ((i - 1) / 2).
Proof.
  intros [H1 H2] Hi Hlt [Hlen Hs]. set (p := ((i - 1) / 2)%nat) in *.
  pose proof (parent_lt i ltac:(lia)) as Hp. fold p in Hp. split; rewrite Hlen.
  - intros k Hk Hkp. pose proof (parent_lt k ltac:(lia)).
    rewrite (Hs k), (Hs ((k - 1) / 2)%nat) by lia.
    destruct (decide (k = i)) as [->|Hki].
    + fold p. rewrite decide_False, decide_True by lia. lia.
    + rewrite (decide_False (P := k = p)) by done.
      destruct (decide (((k - 1) / 2)%nat = i)) as [E|].
      * apply H2; [done|lia|done].
      * destruct (decide (((k - 1) / 2)%nat = p)) as [E|].
        -- specialize (H1 k Hk Hki). rewrite E in H1. lia.
        -- apply H1; done.
  - intros k Hk Hp0 Hkp. pose proof (parent_lt p Hp0). pose proof (parent_lt k ltac:(lia)).
    rewrite (Hs k), (Hs ((p - 1) / 2)%nat) by lia.
    rewrite (decide_False (P := ((p - 1) / 2)%nat = i)), (decide_False (P := ((p - 1) / 2)%nat = p)) by lia.
    assert (kth l ((p - 1) / 2) <= kth l p) by (apply H1; lia).
    destruct (decide (k = i)) as [->|]; [lia|]. rewrite decide_False by lia.
    specialize (H1 k Hk ltac:(done)). rewrite Hkp in H1. lia.
Qed.

Lemma up_done l i : up_ok l i -> i = 0%nat \/ kth l ((i - 1) / 2) <= kth l i -> heap_ok l.
Proof.
  intros [H1 _] Hi k Hk. destruct (decide (k = i)) as [->|]; [|by apply H1].
  destruct Hi; [lia|done].
Qed.

Lemma children k i : (0 < k)%nat -> ((k - 1) / 2)%nat = i -> k = (i * 2 + 1)%nat \/ k = (i * 2 + 2)%nat.
Proof. intros. divlia. Qed.

Lemma parent_left i : ((i * 2 + 1 - 1) / 2)%nat = i.
Proof. divlia. Qed.

Lemma parent_right i : ((i * 2 + 2 - 1) / 2)%nat = i.
Proof. divlia. Qed.

(** [m] is a smallest child of [i]. *)
Definition min_child_of (l : list Z) (i m : nat) : Prop :=
  (i < m < length l)%nat /\ ((m - 1) / 2)%nat = i /\
  forall k, (0 < k < length l)%nat -> ((k - 1) / 2)%nat = i -> kth l m <= kth l k.

Lemma down_swap l l' i m :
  down_ok l i -> min_child_of l i m -> kth l m <= kth l i -> swapped l l' i m -> down_ok l' m.
Proof.
  intros [H1 H2] (Hm & Hpm & Hmin) Hle [Hlen Hs]. split; rewrite Hlen.
  - intros k Hk Hkm. pose proof (parent_lt k ltac:(lia)).
    rewrite (Hs k), (Hs ((k - 1) / 2)%nat) by lia. rewrite (decide_False (P := ((k - 1) / 2)%nat = m)) by done.
    destruct (decide (((k - 1) / 2)%nat = i)) as [E|].
    + rewrite decide_False by lia. destruct (decide (k = m)); [done|]. by apply Hmin.
    + destruct (decide (k = i)) as [->|].
      * apply H2; [lia|lia|done].
      * rewrite decide_False by (intros ->; done). by apply H1.
  - intros k Hk Hm0 Hkm. pose proof (parent_lt k ltac:(lia)). rewrite Hpm.
    rewrite (Hs k), (Hs i) by lia. rewrite (decide_True (P := i = i)) by done.
    rewrite !decide_False by lia. rewrite <- Hkm. apply H1; [done|lia].
Qed.

Lemma down_done l i :
  down_ok l i -> (forall k, (0 < k < length l)%nat -> ((k - 1) / 2)%nat = i -> kth l i <= kth l k) ->
  heap_ok l.
Proof.
  intros [H1 _] Hi k Hk. destruct (decide (((k - 1) / 2)%nat = i)) as [E|]; [|by apply H1].
  rewrite E. by apply Hi.
Qed.

(** The root has a least key. *)
Lemma heap_root l i : heap_ok l -> (i < length l)%nat -> kth l 0 <= kth l i.
Proof.
  intros Hl. induction (lt_wf i) as [i _ IH]. intros Hi.
  destruct (decide (i = 0%nat)) as [->|]; [done|]. pose proof (parent_lt i ltac:(lia)).
  etrans; [apply (IH ((i - 1) / 2)%nat); lia|]. apply Hl. lia.
Qed.

Lemma kth_app_l l1 l2 i : (i < length l1)%nat -> kth (l1 ++ l2) i = kth l1 i.
Proof. intros. by apply app_nth1. Qed.

(** The keys after the last element has replaced the one at [i]. *)
Lemma replaced_keys l l' i last :
  heap_ok l -> (i < last)%nat -> length l = S last -> length l' = last ->
  (forall x, (x < last)%nat -> kth l' x = if decide (x = i) then kth l last else kth l x) ->
  if decide ((0 < i)%nat /\ kth l' i < kth l' ((i - 1) / 2)) then up_ok l' i else down_ok l' i.
Proof.
  intros Hh Hi Hl Hl' Hk.
  assert (forall k, (0 < k < last)%nat -> kth l ((k - 1) / 2) <= kth l k) as Hold
    by (intros; apply Hh; lia).
  destruct (decide _) as [[H0 Hlt]|Hn].
  - pose proof (parent_lt i H0). rewrite (Hk i), (Hk ((i - 1) / 2)%nat) in Hlt by lia.
    rewrite decide_True, decide_False in Hlt by lia. pose proof (Hold i ltac:(lia)).
    split; rewrite Hl'; intros k Hkl.
    + intros Hne. pose proof (parent_lt k ltac:(lia)). rewrite (Hk k), (Hk ((k - 1) / 2)%nat) by lia.
      rewrite (decide_False (P := k = i)) by done. specialize (Hold k Hkl).
      destruct (decide _) as [E|]; [rewrite E in Hold; lia|done].
    + intros _ E. pose proof (parent_lt k ltac:(lia)). rewrite (Hk k), (Hk ((i - 1) / 2)%nat) by lia.
      rewrite !decide_False by lia. specialize (Hold k Hkl). rewrite E in Hold. lia.
  - split; rewrite Hl'; intros k Hkl.
    + intros Hne. pose proof (parent_lt k ltac:(lia)). destruct (decide (k = i)) as [->|Hki].
      * destruct (Z.le_gt_cases (kth l' ((i - 1) / 2)) (kth l' i)); [done|]. destruct Hn. split; [lia|done].
      * rewrite (Hk k), (Hk ((k - 1) / 2)%nat), !decide_False by (done || lia). by apply Hold.
    + intros H0 E. pose proof (parent_lt k ltac:(lia)). pose proof (parent_lt i H0).
      rewrite (Hk k), (Hk ((i - 1) / 2)%nat) by lia. rewrite !decide_False by lia.
      pose proof (Hold k Hkl) as Ho. rewrite E in Ho. pose proof (Hold i ltac:(lia)). lia.
Qed.

Lemma snoc_lookup {A} (l : list A) last x : length l = S last -> l !! last = Some x ->
  exists h, l = h ++ [x] /\ length h = last.
Proof.
  intros Hl Hx. exists (take last l). rewrite length_take, <- take_S_r by done.
  split; [|lia]. by rewrite take_ge by lia.
Qed.
