(* ===== verification/LinkedHeap.v ===== *)
(** The heap of linked nodes (include/simple/containers/heap.hpp in src/runtime,
    after that of libuv): a complete binary tree by pointers to the children and
    the parent, in nodes that live in the caller's objects. The nodes are an
    explicit memory; [None] is a null or dangling pointer followed. *)

From stdpp Require Import gmap.
From S2P Require Import Prelude BinaryHeap.

(** * Data *)

Record heap_node := HeapNode { left : option nat; right : option nat; parent : option nat; heap : option nat }.

Definition set_left (p : option nat) (n : heap_node) : heap_node := HeapNode p (right n) (parent n) (heap n).
Definition set_right (p : option nat) (n : heap_node) : heap_node := HeapNode (left n) p (parent n) (heap n).
Definition set_parent (p : option nat) (n : heap_node) : heap_node := HeapNode (left n) (right n) p (heap n).
Definition set_heap (h : option nat) (n : heap_node) : heap_node := HeapNode (left n) (right n) (parent n) h.

Record heap_raw := HeapRaw { min_ : option nat; size_ : Z; nodes : gmap nat heap_node }.

Definition set_min (p : option nat) (h : heap_raw) : heap_raw := HeapRaw p (size_ h) (nodes h).
Definition set_size (n : Z) (h : heap_raw) : heap_raw := HeapRaw (min_ h) n (nodes h).

(** A write through a pointer, and through one that may be null. *)
Definition update (p : nat) (f : heap_node -> heap_node) (h : heap_raw) : option heap_raw :=
  n ← nodes h !! p; Some (HeapRaw (min_ h) (size_ h) (<[p := f n]> (nodes h))).

Definition update_if (p : option nat) (f : heap_node -> heap_node) (h : heap_raw) : option heap_raw :=
  match p with None => Some h | Some p => update p f h end.

(** A pointer to a pointer: what [&min_], [&node->left], [&node->right] are. *)
Inductive slot := MinSlot | LeftSlot (p : nat) | RightSlot (p : nat).

Definition read_slot (x : slot) (h : heap_raw) : option (option nat) :=
  match x with
  | MinSlot => Some (min_ h)
  | LeftSlot p => left <$> nodes h !! p
  | RightSlot p => right <$> nodes h !! p
  end.

Definition write_slot (x : slot) (v : option nat) (h : heap_raw) : option heap_raw :=
  match x with
  | MinSlot => Some (set_min v h)
  | LeftSlot p => update p (set_left v) h
  | RightSlot p => update p (set_right v) h
  end.

(** * Operations *)

(** The path from the root to the node with the number [n]: its bits, the first
    step in the lowest one, and how many there are. *)
Fixpoint path_loop (fuel : nat) (n path : Z) (k : nat) : Z * nat :=
  match fuel with
  | O => (path, k)
  | S fuel =>
    if 2 <=? n then path_loop fuel (n / 2) (Z.lor (u64 (Z.shiftl path 1)) (Z.land n 1)) (S k) else (path, k)
  end.

Definition path_to (n : Z) : Z * nat := path_loop 64 (u64 n) 0 0.

(** The slot at its end, after the slot above it. *)
Fixpoint walk (k : nat) (path : Z) (above here : slot) (h : heap_raw) : option (slot * slot) :=
  match k with
  | O => Some (above, here)
  | S k =>
    p ← read_slot here h; p ← p;
    walk k (Z.shiftr path 1) here (if Z.land path 1 =? 0 then LeftSlot p else RightSlot p) h
  end.

(** [swap_node]: [par] and [child] change places, in the nodes around them... *)
Definition swap_around (par child : nat) (h : heap_raw) : option heap_raw :=
  temp ← nodes h !! par;
  c ← nodes h !! child;
  let h := HeapRaw (min_ h) (size_ h) (<[child := temp]> (<[par := c]> (nodes h))) in
  h ← update par (set_parent (Some child)) h;
  c ← nodes h !! child;
  '(h, sibling) ←
    (if decide (left c = Some child) then h ← update child (set_left (Some par)) h; Some (h, right c)
     else h ← update child (set_right (Some par)) h; Some (h, left c));
  h ← update_if sibling (set_parent (Some child)) h;
  p ← nodes h !! par;
  h ← update_if (left p) (set_parent (Some par)) h;
  p ← nodes h !! par;
  update_if (right p) (set_parent (Some par)) h.

(** ... and in the one above: where [old] was below [above], there is [new]. *)
Definition relink (above : option nat) (old new : nat) (h : heap_raw) : option heap_raw :=
  match above with
  | None => Some (set_min (Some new) h)
  | Some g =>
    gn ← nodes h !! g;
    if decide (left gn = Some old) then update g (set_left (Some new)) h else update g (set_right (Some new)) h
  end.

Definition swap_node (par child : nat) (h : heap_raw) : option heap_raw :=
  h ← swap_around par child h; c ← nodes h !! child; relink (parent c) par child h.

Section heap.
(** The address of this heap, and the order of the objects that the nodes are in. *)
Context (this : nat) (compare : nat -> nat -> bool).

(** [while (node->parent && compare(node, node->parent))]. *)
Fixpoint climb (fuel : nat) (node : nat) (h : heap_raw) : option heap_raw :=
  match fuel with
  | O => Some h
  | S fuel =>
    n ← nodes h !! node;
    match parent n with
    | None => Some h
    | Some p => if compare node p then h ← swap_node p node h; climb fuel node h else Some h
    end
  end.

(** The child to change places with, if there is one. *)
Definition smallest_of (child : nat) (n : heap_node) : nat :=
  let smallest := match left n with Some l => if compare l child then l else child | None => child end in
  match right n with Some r => if compare r smallest then r else smallest | None => smallest end.

Fixpoint descend (fuel : nat) (child : nat) (h : heap_raw) : option heap_raw :=
  match fuel with
  | O => Some h
  | S fuel =>
    n ← nodes h !! child;
    let smallest := smallest_of child n in
    if decide (smallest = child) then Some h else h ← swap_node child smallest h; descend fuel child h
  end.

(** A way through the tree is no longer than the number of nodes. *)
Definition fuel_of (h : heap_raw) : nat := S (Z.to_nat (size_ h)).

Definition insert (node : nat) (h : heap_raw) : option (bool * heap_raw) :=
  n ← nodes h !! node;
  match heap n with
  | Some _ => Some (false, h)
  | None =>
    h ← update node (fun n => HeapNode None None None (heap n)) h;
    let '(path, k) := path_to (1 + size_ h) in
    '(par, child) ← walk k path MinSlot MinSlot h;
    p ← read_slot par h;
    h ← update node (set_parent p) h;
    h ← write_slot child (Some node) h;
    h ← update node (set_heap (Some this)) h;
    let h := set_size (u64 (size_ h + 1)) h in
    h ← climb (fuel_of h) node h;
    Some (true, h)
  end.

Definition remove (node : nat) (h : heap_raw) : option (bool * heap_raw) :=
  n ← nodes h !! node;
  if decide (heap n <> Some this) then Some (false, h)
  else if size_ h =? 0 then Some (false, h)
  else
    let '(path, k) := path_to (size_ h) in
    '(_, max) ← walk k path MinSlot MinSlot h;
    let h := set_size (u64 (size_ h - 1)) h in
    child ← read_slot max h;
    h ← write_slot max None h;
    if decide (child = Some node) then
      let h := if decide (child = min_ h) then set_min None h else h in
      h ← update node (set_heap None) h;
      Some (true, h)
    else
      child ← child;
      n ← nodes h !! node;
      h ← update child (fun c => HeapNode (left n) (right n) (parent n) (heap c)) h;
      h ← update_if (left n) (set_parent (Some child)) h;
      h ← update_if (right n) (set_parent (Some child)) h;
      n ← nodes h !! node;
      h ← relink (parent n) node child h;
      h ← update node (set_heap None) h;
      h ← descend (fuel_of h) child h;
      h ← climb (fuel_of h) child h;
      Some (true, h).

(** [pop] takes the least node out; of an empty heap it follows a null pointer. *)
Definition pop (h : heap_raw) : option (bool * heap_raw) := p ← min_ h; remove p h.

Inductive heap_op := Push (node : nat) | Erase (node : nat) | Pop.

#[export] Instance heap_op_dec : EqDecision heap_op.
Proof. solve_decision. Defined.

Definition heap_step (o : heap_op) (h : heap_raw) : option (bool * heap_raw) :=
  match o with Push p => insert p h | Erase p => remove p h | Pop => pop h end.

Fixpoint heap_run (ops : list heap_op) (h : heap_raw) : option (list bool * heap_raw) :=
  match ops with
  | [] => Some ([], h)
  | o :: ops => '(b, h) ← heap_step o h; '(bs, h) ← heap_run ops h; Some (b :: bs, h)
  end.
End heap.

Definition heap_new (m : gmap nat heap_node) : heap_raw := HeapRaw None 0 m.

(** * Paths

    Following the bits from the number [i] leads to a number. *)
Fixpoint follow (k : nat) (path : Z) (i : nat) : nat :=
  match k with O => i | S k => follow k (Z.shiftr path 1) (if (Z.land path 1 =? 0)%Z then 2 * i else 2 * i + 1)%nat end.

Lemma path_loop_ok fuel : forall n path k N,
  0 < n -> n < 2 ^ Z.of_nat fuel -> 0 <= path < 2 ^ Z.of_nat k -> n * 2 ^ Z.of_nat k <= N -> N < 2 ^ 64 ->
  exists path' k', path_loop fuel n path k = (path', k') /\ follow k' path' 1 = follow k path (Z.to_nat n).
Proof.
  induction fuel as [|fuel IH]; intros n path k N Hn Hf Hp HN Hb; [cbn in Hf; lia|]. cbn [path_loop].
  destruct (Z.leb_spec 2 n) as [H2|H2]; [|exists path, k; by replace n with 1 by lia].
  assert (0 <= n mod 2 < 2) as Hm by (apply Z.mod_pos_bound; lia). pose proof (Z.div_mod n 2 ltac:(lia)) as Hdm.
  assert (path * 2 < 2 ^ 64) as Hsm by nia.
  assert (Z.lor (u64 (Z.shiftl path 1)) (Z.land n 1) = path * 2 + n mod 2) as ->.
  { rewrite Z.shiftl_mul_pow2 by lia. change (2 ^ 1) with 2. rewrite u64_small by (unfold is_u64; lia).
    change 1 with (Z.ones 1) at 1. rewrite Z.land_ones by lia. change (2 ^ 1) with 2.
    change (path * 2) with (path * 2 ^ 1). apply lor_mul_pow2; lia. }
  destruct (IH (n / 2) (path * 2 + n mod 2) (S k) N) as (path' & k' & E & Ef).
  - lia.
  - rewrite Nat2Z.inj_succ, Z.pow_succ_r in Hf by lia. lia.
  - rewrite Nat2Z.inj_succ, Z.pow_succ_r by lia. lia.
  - rewrite Nat2Z.inj_succ, Z.pow_succ_r by lia. nia.
  - done.
  - exists path', k'. split; [done|]. rewrite Ef. cbn [follow].
    assert (Z.shiftr (path * 2 + n mod 2) 1 = path) as ->.
    { rewrite Z.shiftr_div_pow2 by lia. change (2 ^ 1) with 2. lia. }
    assert (Z.land (path * 2 + n mod 2) 1 = n mod 2) as ->.
    { change 1 with (Z.ones 1). rewrite Z.land_ones by lia. change (2 ^ 1) with 2. lia. }
    f_equal. destruct (Z.eqb_spec (n mod 2) 0); lia.
Qed.

Lemma path_to_ok n : 0 < n < 2 ^ 64 -> exists path k, path_to n = (path, k) /\ follow k path 1 = Z.to_nat n.
Proof.
  intros Hn. unfold path_to. rewrite u64_small by (unfold is_u64; lia). apply (path_loop_ok 64 n 0 0 n); cbn; lia.
Qed.

Lemma follow_le k : forall path i, (0 < i)%nat -> (i * 2 ^ k <= follow k path i)%nat.
Proof.
  induction k as [|k IH]; intros path i Hi; cbn [follow Nat.pow]; [lia|].
  set (i' := (if (Z.land path 1 =? 0)%Z then 2 * i else 2 * i + 1)%nat). specialize (IH (Z.shiftr path 1) i'). assert (2 * i <= i')%nat by (unfold i'; case_match; lia). nia.
Qed.

(** * A tree that is a list *)

Definition parent_at (l : list nat) (i : nat) : option nat := if (i =? 0)%nat then None else l !! ((i - 1) / 2)%nat.

Section linked.
Context (this : nat).

Definition node_at (l : list nat) (i : nat) : heap_node := HeapNode (l !! (i * 2 + 1)%nat) (l !! (i * 2 + 2)%nat) (parent_at l i) (Some this).

(** The nodes of the heap, row by row, are [l]. *)
Record linked (h : heap_raw) (l : list nat) : Prop := {
  lk_min : min_ h = l !! 0%nat;
  lk_size : size_ h = zlen l;
  lk_nodup : NoDup l;
  lk_node i p : l !! i = Some p -> nodes h !! p = Some (node_at l i);
  lk_out p n : nodes h !! p = Some n -> p ∉ l -> heap n <> Some this }.

(** The slot of the position [i]. *)
Definition slot_at (l : list nat) (x : slot) (i : nat) : Prop :=
  match x with
  | MinSlot => i = 0%nat
  | LeftSlot p => exists j, l !! j = Some p /\ i = (j * 2 + 1)%nat
  | RightSlot p => exists j, l !! j = Some p /\ i = (j * 2 + 2)%nat
  end.

Lemma read_slot_ok h l x i : linked h l -> slot_at l x i -> read_slot x h = Some (l !! i).
Proof.
  intros Hl Hx. destruct x as [|p|p]; cbn in *; [subst; by rewrite (lk_min h l Hl)|..];
    destruct Hx as (j & Hj & ->); by rewrite (lk_node h l Hl j p Hj).
Qed.

(** Walking goes down to the position, the slot above it first. *)
Lemma walk_ok k : forall path above here i h l,
  linked h l -> slot_at l here i -> (follow k path (S i) <= S (length l))%nat ->
  exists x y, walk k path above here h = Some (x, y) /\ slot_at l y (follow k path (S i) - 1) /\
    (k = 0%nat -> x = above) /\ ((0 < k)%nat -> slot_at l x ((follow k path (S i) - 2) / 2)).
Proof.
  induction k as [|k IH]; intros path above here i h l Hl Hs Hf; cbn [walk follow] in *.
  { exists above, here. replace (S i - 1)%nat with i by lia. split_and!; try done. lia. }
  rewrite (read_slot_ok h l here i Hl Hs). cbn [mbind option_bind].
  set (i' := if Z.land path 1 =? 0 then (i * 2 + 1)%nat else (i * 2 + 2)%nat).
  assert ((if (Z.land path 1 =? 0)%Z then 2 * S i else 2 * S i + 1)%nat = S i') as Ei by (unfold i'; case_match; lia). rewrite Ei in *.
  pose proof (follow_le k (Z.shiftr path 1) (S i') ltac:(lia)) as Hle.
  assert (S i' <= follow k (Z.shiftr path 1) (S i'))%nat as Hle' by (pose proof (Nat.pow_nonzero 2 k); nia).
  destruct (lookup_lt_is_Some_2 l i) as [p Hp]; [unfold i' in *; case_match; lia|]. rewrite Hp. cbn [mbind option_bind].
  set (x := if Z.land path 1 =? 0 then LeftSlot p else RightSlot p).
  assert (slot_at l x i') as Hx by (unfold x, i'; case_match; by exists i).
  destruct (IH (Z.shiftr path 1) here x i' h l Hl Hx Hf) as (a & b & E & Hb & H0 & Ha). exists a, b. split; [done|]. split; [done|].
  split; [done|]. intros _. destruct k as [|k]; [|apply Ha; lia]. rewrite (H0 eq_refl). cbn [follow].
  replace ((S i' - 2) / 2)%nat with i; [done|]. unfold i'. case_match; divlia.
Qed.

(** ** Writing *)

Lemma pointer_update_ok p f h : is_Some (nodes h !! p) ->
  exists h', update p f h = Some h' /\ min_ h' = min_ h /\ size_ h' = size_ h /\
    forall q, nodes h' !! q = (fun n => if decide (q = p) then f n else n) <$> nodes h !! q.
Proof.
  intros [n Hn]. unfold update. rewrite Hn. cbn. eexists. split; [done|]. split; [done|]. split; [done|]. intros q. cbn.
  destruct (decide (q = p)) as [->|]; [by rewrite lookup_insert_eq, Hn|]. rewrite lookup_insert_ne by done. by destruct (nodes h !! q).
Qed.

Lemma update_if_ok p f h : (forall q, p = Some q -> is_Some (nodes h !! q)) ->
  exists h', update_if p f h = Some h' /\ min_ h' = min_ h /\ size_ h' = size_ h /\
    forall q, nodes h' !! q = (fun n => if decide (p = Some q) then f n else n) <$> nodes h !! q.
Proof.
  intros Hp. destruct p as [p|]; cbn [update_if].
  - destruct (pointer_update_ok p f h (Hp p eq_refl)) as (h' & E & Em & Es & Hn). exists h'. split; [done|]. split; [done|]. split; [done|].
    intros q. rewrite Hn. destruct (nodes h !! q) as [n|]; [|done]. cbn. destruct (decide (q = p)) as [->|]; [by rewrite decide_True|by rewrite decide_False by congruence].
  - exists h. split_and!; try done. intros q. by destruct (nodes h !! q).
Qed.

(** Two positions of the list exchanged. *)
Definition exchange (l : list nat) (i j : nat) : list nat :=
  match l !! i, l !! j with Some p, Some q => <[i := q]> (<[j := p]> l) | _, _ => l end.

Lemma exchange_lookup l i j x :
  (i < length l)%nat -> (j < length l)%nat ->
  exchange l i j !! x = if decide (x = i) then l !! j else if decide (x = j) then l !! i else l !! x.
Proof.
  intros Hi Hj. unfold exchange. destruct (lookup_lt_is_Some_2 l i Hi) as [p Hp]. destruct (lookup_lt_is_Some_2 l j Hj) as [q Hq].
  rewrite Hp, Hq. destruct (decide (x = i)) as [->|]; [by rewrite list_lookup_insert_eq by (rewrite length_insert; lia)|].
  rewrite list_lookup_insert_ne by done. destruct (decide (x = j)) as [->|]; [by rewrite list_lookup_insert_eq|by rewrite list_lookup_insert_ne].
Qed.

Lemma length_exchange l i j : length (exchange l i j) = length l.
Proof. unfold exchange. destruct (l !! i), (l !! j); by rewrite ?length_insert. Qed.

Lemma exchange_perm l i j : exchange l i j ≡ₚ l.
Proof.
  unfold exchange. destruct (l !! i) as [p|] eqn:Hi; [|done]. destruct (l !! j) as [q|] eqn:Hj; [|done].
  by apply Permutation_insert_swap.
Qed.

Lemma nodup_at (l : list nat) a y q : NoDup l -> l !! y = Some q -> l !! a = Some q -> a = y.
Proof. intros Hnd Hy Ha. by eapply NoDup_lookup. Qed.

(** Whether a node is that of a position. *)
Lemma decide_at {A} (l : list nat) a y q (t e : A) : NoDup l -> l !! y = Some q -> (if decide (l !! a = Some q) then t else e) = (if decide (a = y) then t else e).
Proof.
  intros Hnd Hy. destruct (decide (a = y)) as [->|Hne]; [by rewrite decide_True|]. rewrite decide_False; [done|]. intros Ha. by apply Hne, (nodup_at l a y q).
Qed.

Lemma linked_alloc h l q : linked h l -> q ∈ l -> is_Some (nodes h !! q).
Proof. intros Hl [i Hi]%list_elem_of_lookup. rewrite (lk_node h l Hl i q Hi). by eexists. Qed.

(** What an operation on the pointers leaves alone. *)
Definition elsewhere (l : list nat) (h h' : heap_raw) : Prop := forall q, q ∉ l -> nodes h' !! q = nodes h !! q.

(** The node at the position [y] when the two nodes around the link from [j] to
    its child [i] have changed places. *)
Definition around (l : list nat) (i j p c y : nat) : heap_node :=
  if decide (y = i) then (if decide (i = j * 2 + 1)%nat then set_left (Some p) else set_right (Some p)) (node_at l j)
  else if decide (y = j) then set_parent (Some c) (node_at l i)
  else if decide ((y - 1) / 2 = j /\ 0 < y)%nat then set_parent (Some c) (node_at l y)
  else if decide ((y - 1) / 2 = i /\ 0 < y)%nat then set_parent (Some p) (node_at l y)
  else node_at l y.

Lemma around_linked l i j p c x q :
  (0 < i)%nat -> j = ((i - 1) / 2)%nat -> l !! j = Some p -> l !! i = Some c -> exchange l i j !! x = Some q ->
  exists y, l !! y = Some q /\ around l i j p c y = HeapNode
    (if decide (x * 2 + 1 = j)%nat then Some p else exchange l i j !! (x * 2 + 1)%nat)
    (if decide (x * 2 + 2 = j)%nat then Some p else exchange l i j !! (x * 2 + 2)%nat)
    (parent_at (exchange l i j) x) (Some this).
Proof.
  intros Hi Ej Hp Hc. assert (i = j * 2 + 1 \/ i = j * 2 + 2)%nat as Hch by (clear - Hi Ej; subst j; divlia).
  assert (j < i)%nat as Hji by lia.
  pose proof (lookup_lt_Some l i c Hc) as Hlt.
  assert (forall z, exchange l i j !! z = if decide (z = i) then Some p else if decide (z = j) then Some c else l !! z) as Hl'.
  { intros z. rewrite exchange_lookup, Hp, Hc by lia. done. }
  assert (parent_at (exchange l i j) x = if (x =? 0)%nat then None else
    if decide ((x - 1) / 2 = i)%nat then Some p else if decide ((x - 1) / 2 = j)%nat then Some c else l !! ((x - 1) / 2)%nat) as ->.
  { unfold parent_at. by rewrite Hl'. }
  rewrite !Hl'. unfold around, node_at, parent_at.
  intros Hq. assert (forall z, z <> i -> (if decide (z = j) then Some p else if decide (z = i) then Some p else if decide (z = j) then Some c else l !! z) = l !! z) as Hz.
  { intros z Hzi. rewrite (decide_False (P := z = i)) by done. destruct (decide (z = j)) as [->|]; done. }
  destruct (decide (x = i)) as [->|Hxi]; [|destruct (decide (x = j)) as [->|Hxj]].
  - exists j. injection Hq as <-. split; [done|]. rewrite (proj2 (Nat.eqb_neq i 0)), <- Ej by lia. by rewrite !(decide_True (P := j = j)), !(decide_False (P := _ = i)), !(decide_False (P := _ = j)) by lia.
  - exists i. injection Hq as <-. split; [done|]. rewrite (decide_True (P := i = i)), !(decide_False (P := (_ = j))) by lia.
    assert ((if (j =? 0)%nat then None else if decide ((j - 1) / 2 = i)%nat then Some p else
      if decide ((j - 1) / 2 = j)%nat then Some c else l !! ((j - 1) / 2)%nat) = parent_at l j) as E.
    { unfold parent_at. destruct (Nat.eqb_spec j 0); [done|]. pose proof (parent_lt j ltac:(lia)). by rewrite !decide_False by lia. }
    rewrite E. change (if (j =? 0)%nat then None else l !! ((j - 1) / 2)%nat) with (parent_at l j).
    destruct (decide (i = j * 2 + 1)%nat) as [Eij|Eij].
    + by rewrite (decide_True (P := (j * 2 + 1 = i)%nat)), decide_False by lia.
    + by rewrite (decide_False (P := (j * 2 + 1 = i)%nat)), decide_True by lia.
  - exists x. split; [done|]. rewrite (decide_False (P := x = i)), (decide_False (P := x = j)), !Hz by lia.
    destruct (Nat.eqb_spec x 0) as [->|Hx0]; [by rewrite !decide_False by lia|]. set (y := ((x - 1) / 2)%nat). clearbody y. clear - Hx0 Hji.
    destruct (decide (y = j)) as [->|Hyj]; [by rewrite (decide_True (P := j = j /\ _)), (decide_False (P := j = i)) by lia|].
    rewrite (decide_False (P := y = j /\ _)) by lia.
    destruct (decide (y = i)) as [->|Hyi]; [by rewrite decide_True by lia|by rewrite decide_False by lia].
Qed.

(** The nodes after the first step of [swap_around]. *)
Definition swapped_nodes (p c : nat) (h : heap_raw) : heap_raw :=
  match nodes h !! p, nodes h !! c with
  | Some np, Some nc => HeapRaw (min_ h) (size_ h) (<[c := np]> (<[p := nc]> (nodes h)))
  | _, _ => h
  end.

Lemma swapped_nodes_at h l i j p c :
  linked h l -> l !! j = Some p -> l !! i = Some c -> p <> c ->
  (forall q, nodes (swapped_nodes p c h) !! q = if decide (q = c) then Some (node_at l j) else if decide (q = p) then Some (node_at l i) else nodes h !! q) /\
  min_ (swapped_nodes p c h) = min_ h /\ size_ (swapped_nodes p c h) = size_ h.
Proof.
  intros Hl Hp Hc Hpc. unfold swapped_nodes. rewrite (lk_node h l Hl j p Hp), (lk_node h l Hl i c Hc). split; [|done]. intros q. cbn.
  destruct (decide (q = c)) as [->|]; [by rewrite lookup_insert_eq|]. rewrite lookup_insert_ne by done.
  destruct (decide (q = p)) as [->|]; [by rewrite lookup_insert_eq|by rewrite lookup_insert_ne].
Qed.

(** [swap_around] as one write after the other. *)
Lemma swap_around_writes h l i j p c :
  linked h l -> (i = j * 2 + 1 \/ i = j * 2 + 2)%nat -> l !! j = Some p -> l !! i = Some c -> p <> c ->
  let s := if decide (i = j * 2 + 1)%nat then (j * 2 + 2)%nat else (j * 2 + 1)%nat in
  let f := if decide (i = j * 2 + 1)%nat then set_left (Some p) else set_right (Some p) in
  exists h', swap_around p c h = Some h' /\ min_ h' = min_ h /\ size_ h' = size_ h /\
    forall q, nodes h' !! q =
      (fun n => let n := if decide (q = p) then set_parent (Some c) n else n in let n := if decide (q = c) then f n else n in
        let n := if decide (l !! s = Some q) then set_parent (Some c) n else n in
        let n := if decide (l !! (i * 2 + 1)%nat = Some q) then set_parent (Some p) n else n in
        if decide (l !! (i * 2 + 2)%nat = Some q) then set_parent (Some p) n else n) <$> nodes (swapped_nodes p c h) !! q.
Proof.
  intros Hl Hch Hp Hc Hpc s f. pose proof (lk_nodup h l Hl) as Hnd.
  destruct (swapped_nodes_at h l i j p c Hl Hp Hc Hpc) as (N0 & M0 & S0).
  assert (forall a q, l !! a = Some q -> is_Some (nodes (swapped_nodes p c h) !! q)) as A0.
  { intros a q Ha. rewrite N0. repeat case_decide; eauto. rewrite (lk_node h l Hl a q Ha). by eauto. }
  unfold swap_around. rewrite (lk_node h l Hl j p Hp). cbn [mbind option_bind]. rewrite (lk_node h l Hl i c Hc). cbn [mbind option_bind].
  replace (HeapRaw _ _ _) with (swapped_nodes p c h) by (unfold swapped_nodes; by rewrite (lk_node h l Hl j p Hp), (lk_node h l Hl i c Hc)).
  destruct (pointer_update_ok p (set_parent (Some c)) (swapped_nodes p c h)) as (h1 & -> & M1 & S1 & N1); [by eapply A0|]. cbn [mbind option_bind].
  rewrite (N1 c), (N0 c), decide_True by done. cbn [mbind option_bind fmap option_fmap option_map]. rewrite (decide_False (P := c = p)) by congruence.
  assert (is_Some (nodes h1 !! c)) as A1 by (rewrite N1, N0, decide_True by done; by eexists).
  destruct (pointer_update_ok c f h1 A1) as (h2 & E2 & M2 & S2 & N2).
  match goal with |- context [mbind _ (if decide ?P then ?a else ?b)] => assert ((if decide P then a else b) = Some (h2, l !! s)) as -> end.
  { change (left (node_at l j)) with (l !! (j * 2 + 1)%nat). rewrite (decide_at l (j * 2 + 1) i c) by done. unfold f, s in *.
    destruct (decide (i = j * 2 + 1)%nat) as [E|E]; [rewrite decide_True by lia|rewrite decide_False by lia]; by rewrite E2. }
  cbn [mbind option_bind].
  assert (forall q, nodes h2 !! q = (fun n => let n := if decide (q = p) then set_parent (Some c) n else n in if decide (q = c) then f n else n) <$> nodes (swapped_nodes p c h) !! q) as N2'.
  { intros q. rewrite N2, N1. by destruct (nodes (swapped_nodes p c h) !! q). }
  destruct (update_if_ok (l !! s) (set_parent (Some c)) h2) as (h3 & -> & M3 & S3 & N3); [intros q Hq; rewrite N2', fmap_is_Some; by eapply A0|].
  cbn [mbind option_bind].
  assert (exists n, nodes h3 !! p = Some n /\ left n = l !! (i * 2 + 1)%nat /\ right n = l !! (i * 2 + 2)%nat) as (n & Hn & El & Er).
  { rewrite N3, N2', N0, !(decide_False (P := p = c)), !(decide_True (P := p = p)) by done. cbn [fmap option_fmap option_map].
    eexists. split; [done|]. rewrite !(decide_False (P := p = c)), !(decide_True (P := p = p)) by done. by destruct (decide (l !! s = Some p)). }
  rewrite Hn. cbn [mbind option_bind]. rewrite El.
  destruct (update_if_ok (l !! (i * 2 + 1)%nat) (set_parent (Some p)) h3) as (h4 & -> & M4 & S4 & N4);
    [intros q Hq; rewrite N3, fmap_is_Some, N2', fmap_is_Some; by eapply A0|].
  cbn [mbind option_bind].
  rewrite (N4 p), Hn. cbn [mbind option_bind fmap option_fmap option_map].
  assert (right (if decide (l !! (i * 2 + 1)%nat = Some p) then set_parent (Some p) n else n) = l !! (i * 2 + 2)%nat) as -> by (case_decide; exact Er).
  destruct (update_if_ok (l !! (i * 2 + 2)%nat) (set_parent (Some p)) h4) as (h5 & -> & M5 & S5 & N5);
    [intros q Hq; rewrite N4, fmap_is_Some, N3, fmap_is_Some, N2', fmap_is_Some; by eapply A0|].
  exists h5. split; [done|]. split; [congruence|]. split; [congruence|]. intros q. rewrite N5, N4, N3, N2'. by destruct (nodes (swapped_nodes p c h) !! q).
Qed.

Lemma swap_around_ok h l i j p c :
  linked h l -> (0 < i)%nat -> j = ((i - 1) / 2)%nat -> l !! j = Some p -> l !! i = Some c ->
  exists h', swap_around p c h = Some h' /\ min_ h' = min_ h /\ size_ h' = size_ h /\ elsewhere l h h' /\
    forall y q, l !! y = Some q -> nodes h' !! q = Some (around l i j p c y).
Proof.
  intros Hl Hi Ej Hp Hc. assert (i = j * 2 + 1 \/ i = j * 2 + 2)%nat as Hch by (clear - Hi Ej; subst j; divlia).
  assert (j < i)%nat as Hji by lia. pose proof (lk_nodup h l Hl) as Hnd.
  assert (p <> c) as Hpc by (intros ->; pose proof (nodup_at l i j c Hnd Hp Hc); lia).
  destruct (swapped_nodes_at h l i j p c Hl Hp Hc Hpc) as (N0 & _).
  destruct (swap_around_writes h l i j p c Hl Hch Hp Hc Hpc) as (h' & E & Em & Es & N). exists h'. split; [done|]. split; [done|]. split; [done|].
  set (s := if decide (i = j * 2 + 1)%nat then (j * 2 + 2)%nat else (j * 2 + 1)%nat) in *. split.
  - intros q Hq. assert (forall a, l !! a <> Some q) as Hno by (intros a Ha; by apply list_elem_of_lookup_2 in Ha).
    assert (q <> c) by (intros E'; subst q; by apply (Hno i)). assert (q <> p) by (intros E'; subst q; by apply (Hno j)).
    rewrite N, N0, (decide_False (P := q = c)), (decide_False (P := q = p)) by done.
    destruct (nodes h !! q); [|done]. cbn [fmap option_fmap option_map].
    by rewrite !(decide_False (P := q = c)), !(decide_False (P := q = p)), !decide_False by (done || apply Hno).
  - intros y q Hq. rewrite N, N0, (lk_node h l Hl y q Hq).
    assert (forall A (t e : A), (if decide (q = c) then t else e) = (if decide (y = i) then t else e)) as Dc.
    { intros A t e. destruct (decide (y = i)) as [->|]; [by rewrite decide_True by congruence|]. rewrite decide_False; [done|]. intros ->. by apply n, (nodup_at l y i c). }
    assert (forall A (t e : A), (if decide (q = p) then t else e) = (if decide (y = j) then t else e)) as Dp.
    { intros A t e. destruct (decide (y = j)) as [->|]; [by rewrite decide_True by congruence|]. rewrite decide_False; [done|]. intros ->. by apply n, (nodup_at l y j p). }
    rewrite Dc, Dp.
    replace (if decide (y = i) then Some (node_at l j) else if decide (y = j) then Some (node_at l i) else Some (node_at l y))
      with (Some (if decide (y = i) then node_at l j else if decide (y = j) then node_at l i else node_at l y)) by (destruct (decide (y = i)), (decide (y = j)); done).
    cbn [fmap option_fmap option_map]. rewrite !Dp, !Dc, !(decide_at l _ y q) by done.
    f_equal. unfold around.
    assert (s <> i /\ s <> j /\ (y <> i -> (s = y <-> (y - 1) / 2 = j /\ 0 < y)%nat) /\ ((i * 2 + 1 = y \/ i * 2 + 2 = y) <-> (y - 1) / 2 = i /\ 0 < y)%nat) as (Hsi & Hsj & Hs & Hd).
    { clear - Hch Hji. unfold s. assert (y = 0 \/ y = 2 * ((y - 1) / 2) + 1 \/ y = 2 * ((y - 1) / 2) + 2)%nat by divlia.
      generalize dependent ((y - 1) / 2)%nat. intros z Hz. case_decide; lia. }
    destruct (decide (y = i)) as [->|Hyi]; [by rewrite !(decide_False (P := i = j)), !(decide_False (P := s = i)), !decide_False by lia|].
    assert (forall (z z' : nat), z <> z' -> forall A (t e : A), (if decide (z = z') then t else e) = e) as Df by (intros; by apply decide_False).
    destruct (decide (y = j)) as [->|Hyj].
    { clear Hs Hd. by rewrite (Df s j), (Df (i * 2 + 1) j)%nat, (Df (i * 2 + 2) j)%nat by lia. }
    destruct (decide (s = y)) as [Hsy|Hsy].
    + destruct (proj1 (Hs Hyi) Hsy) as [Hy1 Hy2]. rewrite (decide_True (P := ((y - 1) / 2 = j /\ _)%nat)) by done.
      assert (~ ((i * 2 + 1)%nat = y \/ (i * 2 + 2)%nat = y)) as Hn by (intros [E' _]%Hd; rewrite Hy1 in E'; clear - E' Hji; lia).
      rewrite (decide_False (P := (i * 2 + 2 = y)%nat)), (decide_False (P := (i * 2 + 1 = y)%nat)) by (intros ?; apply Hn; auto). done.
    + rewrite (decide_False (P := ((y - 1) / 2 = j /\ _)%nat)) by (intros Hz; by apply Hsy, Hs).
      destruct (decide ((y - 1) / 2 = i /\ 0 < y)%nat) as [Hy|Hy].
      * destruct (proj2 Hd Hy) as [Hyc|Hyc]; clear Hd Hy Hs.
        -- by rewrite (decide_False (P := (i * 2 + 2 = y)%nat)), (decide_True (P := (i * 2 + 1 = y)%nat)) by lia.
        -- by rewrite (decide_True (P := (i * 2 + 2 = y)%nat)), (decide_False (P := (i * 2 + 1 = y)%nat)) by lia.
      * rewrite (decide_False (P := (i * 2 + 2 = y)%nat)), (decide_False (P := (i * 2 + 1 = y)%nat)); [done|..]; intros Hc'; apply Hy, (proj1 Hd); auto.
Qed.

(** A node of which only the child [old] is not the one of the list yet. *)
Definition below (l : list nat) (j old x : nat) : heap_node :=
  HeapNode (if decide (x * 2 + 1 = j)%nat then Some old else l !! (x * 2 + 1)%nat) (if decide (x * 2 + 2 = j)%nat then Some old else l !! (x * 2 + 2)%nat)
    (parent_at l x) (Some this).

Lemma below_elsewhere l j old x : j = 0%nat \/ x <> ((j - 1) / 2)%nat -> below l j old x = node_at l x.
Proof.
  intros Hx. assert (x * 2 + 1 <> j /\ x * 2 + 2 <> j)%nat as [H1 H2].
  { destruct Hx as [->|Hx]; [lia|]. split; intros <-; apply Hx; divlia. }
  unfold below. by rewrite !decide_False.
Qed.

(** [relink] changes the one link of a tree that is left to change. *)
Lemma relink_ok h l j old new :
  NoDup l -> l !! j = Some new -> (forall a, l !! a = Some old -> (j < a)%nat) -> ((0 < j)%nat -> min_ h = l !! 0%nat) ->
  (forall x q, l !! x = Some q -> nodes h !! q = Some (below l j old x)) ->
  exists h', relink (parent_at l j) old new h = Some h' /\ min_ h' = l !! 0%nat /\ size_ h' = size_ h /\
    (forall q, q ∉ l -> nodes h' !! q = nodes h !! q) /\ (forall x q, l !! x = Some q -> nodes h' !! q = Some (node_at l x)).
Proof.
  intros Hnd Hnew Hold Hmin Hx.
  unfold parent_at, relink. destruct (Nat.eqb_spec j 0) as [->|Ej0].
  { eexists. split; [done|]. split; [done|]. split; [done|]. split; [done|]. intros x q Hq. cbn. by rewrite (Hx x q Hq), below_elsewhere by (by left). }
  set (gi := ((j - 1) / 2)%nat). pose proof (parent_lt j ltac:(lia)) as Hgi. fold gi in Hgi.
  pose proof (lookup_lt_Some l j new Hnew) as Hlt. destruct (lookup_lt_is_Some_2 l gi) as [g Hg]; [lia|]. rewrite Hg, (Hx gi g Hg). cbn [mbind option_bind].
  assert (gi * 2 + 1 = j \/ gi * 2 + 2 = j)%nat as Hside by (unfold gi; divlia).
  assert (exists fg, (if decide (left (below l j old gi) = Some old) then update g (set_left (Some new)) h else update g (set_right (Some new)) h) = update g fg h /\
    fg (below l j old gi) = node_at l gi) as (fg & -> & Efg).
  { unfold below. cbn [left]. destruct (decide (gi * 2 + 1 = j)%nat) as [E|E].
    - rewrite decide_True by done. exists (set_left (Some new)). split; [done|]. rewrite decide_False by lia. unfold set_left, node_at. cbn [right parent heap].
      by rewrite E, Hnew.
    - rewrite decide_False by (intros Ha%Hold; lia). exists (set_right (Some new)). split; [done|]. rewrite decide_True by lia.
      unfold set_right, node_at. cbn [left parent heap]. replace (gi * 2 + 2)%nat with j by lia. by rewrite Hnew. }
  destruct (pointer_update_ok g fg h) as (h' & -> & M & Sz & N); [rewrite (Hx gi g Hg); by eexists|]. exists h'. split; [done|]. split; [rewrite M; apply Hmin; lia|]. split; [done|]. split.
  - intros q Hq. rewrite N. destruct (nodes h !! q); [|done]. cbn. rewrite decide_False; [done|]. intros ->. by apply Hq, (list_elem_of_lookup_2 l gi).
  - intros x q Hq. rewrite N, (Hx x q Hq). cbn [fmap option_fmap option_map]. destruct (decide (q = g)) as [->|Hqg].
    + assert (x = gi) as -> by by apply (nodup_at l x gi g). by rewrite Efg.
    + rewrite below_elsewhere; [done|]. right. fold gi. intros Ex. rewrite Ex in Hq. congruence.
Qed.

Lemma swap_node_ok h l i j p c :
  linked h l -> (0 < i)%nat -> j = ((i - 1) / 2)%nat -> l !! j = Some p -> l !! i = Some c ->
  exists h', swap_node p c h = Some h' /\ linked h' (exchange l i j) /\ elsewhere l h h'.
Proof.
  intros Hl Hi Ej Hp Hc. pose proof (lk_nodup h l Hl) as Hnd. pose proof (lookup_lt_Some l i c Hc) as Hlt.
  assert (j < i)%nat as Hji by (subst j; by apply parent_lt).
  destruct (swap_around_ok h l i j p c Hl Hi Ej Hp Hc) as (h1 & E & Em & Es & He & N). unfold swap_node. rewrite E. cbn [mbind option_bind].
  assert (forall z, exchange l i j !! z = if decide (z = i) then Some p else if decide (z = j) then Some c else l !! z) as Hl'.
  { intros z. by rewrite exchange_lookup, Hp, Hc by lia. }
  assert (exchange l i j !! j = Some c) as Hcj by by rewrite Hl', decide_False, decide_True by lia.
  assert (forall x q, exchange l i j !! x = Some q -> nodes h1 !! q = Some (below (exchange l i j) j p x)) as Hx.
  { intros x q Hq. destruct (around_linked l i j p c x q Hi Ej Hp Hc Hq) as (y & Hy & Ea). by rewrite (N y q Hy), Ea. }
  rewrite (Hx j c Hcj). cbn [mbind option_bind]. change (parent (below (exchange l i j) j p j)) with (parent_at (exchange l i j) j).
  assert (NoDup (exchange l i j)) as Hnd' by by rewrite exchange_perm.
  destruct (relink_ok h1 (exchange l i j) j p c Hnd' Hcj) as (h' & -> & Fm & Fs & Fo & Fn); [| |done|].
  - intros a Ha. replace a with i; [done|]. symmetry. apply (nodup_at (exchange l i j) a i p); [done| |done]. by rewrite Hl', decide_True.
  - intros Hj. by rewrite Em, (lk_min h l Hl), Hl', !decide_False by lia.
  - exists h'. split; [done|]. assert (elsewhere l h h') as He'.
    { intros q Hq. rewrite Fo by by rewrite exchange_perm. by apply He. }
    split; [split; try done|done].
    + rewrite Fs, Es, (lk_size h l Hl). unfold zlen. by rewrite length_exchange.
    + intros q n Hq Hout. rewrite exchange_perm in Hout. rewrite He' in Hq by done. by apply (lk_out h l Hl q).
Qed.
End linked.

(** * Sifting *)

Section sifting.
Context (this : nat) (compare : nat -> nat -> bool) (key : nat -> Z).
Context (compare_key : forall p q, compare p q = (key p <? key q)).

Definition keys (l : list nat) : list Z := key <$> l.

Lemma length_node_keys l : length (keys l) = length l.
Proof. apply length_fmap. Qed.

Lemma kth_key l i p : l !! i = Some p -> kth (keys l) i = key p.
Proof. intros Hi. unfold kth, keys. by rewrite nth_lookup, list_lookup_fmap, Hi. Qed.

Lemma exchange_swapped l i j : (i < length l)%nat -> (j < length l)%nat -> swapped (keys l) (keys (exchange l i j)) i j.
Proof.
  intros Hi Hj. split; [by rewrite !length_node_keys, length_exchange|]. intros x Hx. unfold kth, keys.
  rewrite !nth_lookup, !list_lookup_fmap, exchange_lookup by done. by repeat case_decide.
Qed.

Lemma elsewhere_trans l l' h h1 h2 : elsewhere l h h1 -> l' ≡ₚ l -> elsewhere l' h1 h2 -> elsewhere l h h2.
Proof. intros H1 Hp H2 q Hq. rewrite H2 by by rewrite Hp. by apply H1. Qed.

(** Sifting changes the order of the nodes only, to one of a heap. *)
Definition sifted (h : heap_raw) (l : list nat) (h' : heap_raw) (l' : list nat) : Prop :=
  linked this h' l' /\ l' ≡ₚ l /\ elsewhere l h h' /\ heap_ok (keys l').

Lemma sifted_trans h l h1 l1 h2 l2 : l1 ≡ₚ l -> elsewhere l h h1 -> sifted h1 l1 h2 l2 -> sifted h l h2 l2.
Proof. intros Hp He (A & B & C & D). split; [done|]. split; [by rewrite B|]. split; [by eapply elsewhere_trans|done]. Qed.

Lemma sifted_refl h l : linked this h l -> heap_ok (keys l) -> sifted h l h l.
Proof. intros Hl Hh. split; [done|]. by split. Qed.

Lemma climb_ok fuel : forall h l i node,
  linked this h l -> l !! i = Some node -> (i < fuel)%nat -> up_ok (keys l) i ->
  exists h' l', climb compare fuel node h = Some h' /\ sifted h l h' l'.
Proof.
  induction fuel as [|fuel IH]; intros h l i node Hl Hi Hf Hup; [lia|]. cbn [climb].
  rewrite (lk_node this h l Hl i node Hi). cbn [mbind option_bind]. unfold node_at at 1. cbn [parent]. unfold parent_at.
  destruct (Nat.eqb_spec i 0) as [->|Hi0].
  { exists h, l. split; [done|]. apply sifted_refl; [done|]. apply (up_done _ 0); auto. }
  pose proof (lookup_lt_Some l i node Hi) as Hlt. pose proof (parent_lt i ltac:(lia)) as Hj.
  destruct (lookup_lt_is_Some_2 l ((i - 1) / 2)) as [p Hp]; [lia|]. rewrite Hp, compare_key.
  destruct (Z.ltb_spec (key node) (key p)) as [Hk|Hk].
  - destruct (swap_node_ok this h l i _ p node Hl ltac:(lia) eq_refl Hp Hi) as (h1 & -> & Hl1 & He1). cbn [mbind option_bind].
    destruct (IH h1 (exchange l i ((i - 1) / 2)) ((i - 1) / 2)%nat node Hl1) as (h' & l' & -> & Hs).
    + by rewrite exchange_lookup, decide_False, decide_True by lia.
    + lia.
    + apply (up_swap (keys l) _ i); [done|rewrite length_node_keys; lia| |apply exchange_swapped; lia].
      by rewrite (kth_key l i node), (kth_key l _ p).
    + exists h', l'. split; [done|]. eapply sifted_trans; [apply exchange_perm|done|done].
  - exists h, l. split; [done|]. apply sifted_refl; [done|]. apply (up_done _ i); [done|]. right. by rewrite (kth_key l i node), (kth_key l _ p).
Qed.

(** The child that [descend] takes, if it takes one. *)
Lemma smallest_ok h l i child :
  linked this h l -> l !! i = Some child ->
  (smallest_of compare child (node_at this l i) = child /\
    forall k, (0 < k < length (keys l))%nat -> ((k - 1) / 2)%nat = i -> kth (keys l) i <= kth (keys l) k) \/
  exists m p, smallest_of compare child (node_at this l i) = p /\ l !! m = Some p /\ p <> child /\
    min_child_of (keys l) i m /\ kth (keys l) m < kth (keys l) i.
Proof.
  intros Hl Hi. unfold smallest_of, node_at. cbn [left right]. pose proof (lk_nodup this h l Hl) as Hnd.
  assert (forall k, (0 < k)%nat -> ((k - 1) / 2)%nat = i -> k = (i * 2 + 1)%nat \/ k = (i * 2 + 2)%nat) as Hch by (intros k; apply children).
  assert (forall k p, l !! k = Some p -> (0 < k)%nat -> ((k - 1) / 2)%nat = i ->
    (forall k', (0 < k' < length (keys l))%nat -> ((k' - 1) / 2)%nat = i -> kth (keys l) k <= kth (keys l) k') -> (i < k)%nat -> min_child_of (keys l) i k) as Hmin.
  { intros k p Hk Hk0 Hki Hle Hik. split; [rewrite length_node_keys; apply lookup_lt_Some in Hk; lia|]. by split. }
  assert (forall k, (k < length (keys l))%nat -> exists p, l !! k = Some p) as Hex by (intros k; rewrite length_node_keys; apply lookup_lt_is_Some_2).
  destruct (l !! (i * 2 + 1)%nat) as [a|] eqn:Ha.
  2: { assert (length l <= i * 2 + 1)%nat as Hle by by apply lookup_ge_None. rewrite lookup_ge_None_2 by lia. left. split; [done|].
       intros k Hk E. rewrite length_node_keys in Hk. apply Hch in E as [->| ->]; lia. }
  assert (a <> child) as Hac by (intros ->; pose proof (nodup_at l _ _ _ Hnd Hi Ha); lia).
  rewrite compare_key. destruct (l !! (i * 2 + 2)%nat) as [b|] eqn:Hb.
  - assert (b <> child) as Hbc by (intros ->; pose proof (nodup_at l _ _ _ Hnd Hi Hb); lia).
    rewrite compare_key. destruct (Z.ltb_spec (key a) (key child)) as [Hlt|Hge].
    + destruct (Z.ltb_spec (key b) (key a)) as [Hlt'|Hge'].
      * right. exists (i * 2 + 2)%nat, b. rewrite (kth_key l _ b Hb), (kth_key l i child Hi). split_and!; try done; [|lia].
        apply (Hmin _ b); [done|lia|apply parent_right| |lia].
        intros k [Hk _] E. apply Hch in E as [->| ->]; [|done|done]. rewrite (kth_key l _ a Ha), (kth_key l _ b Hb). lia.
      * right. exists (i * 2 + 1)%nat, a. rewrite (kth_key l _ a Ha), (kth_key l i child Hi). split_and!; try done.
        apply (Hmin _ a); [done|lia|apply parent_left| |lia].
        intros k [Hk _] E. apply Hch in E as [->| ->]; [done| |done]. rewrite (kth_key l _ a Ha), (kth_key l _ b Hb). lia.
    + destruct (Z.ltb_spec (key b) (key child)) as [Hlt'|Hge'].
      * right. exists (i * 2 + 2)%nat, b. rewrite (kth_key l _ b Hb), (kth_key l i child Hi). split_and!; try done.
        apply (Hmin _ b); [done|lia|apply parent_right| |lia].
        intros k [Hk _] E. apply Hch in E as [->| ->]; [|done|done]. rewrite (kth_key l _ a Ha), (kth_key l _ b Hb). lia.
      * left. split; [done|]. intros k [Hk _] E. rewrite (kth_key l i child Hi). apply Hch in E as [->| ->]; [| |done]; [by rewrite (kth_key l _ a Ha)|by rewrite (kth_key l _ b Hb)].
  - assert (length l <= i * 2 + 2)%nat as Hle by by apply lookup_ge_None.
    destruct (Z.ltb_spec (key a) (key child)) as [Hlt|Hge].
    + right. exists (i * 2 + 1)%nat, a. rewrite (kth_key l _ a Ha), (kth_key l i child Hi). split_and!; try done.
      apply (Hmin _ a); [done|lia|apply parent_left| |lia].
      intros k Hk E. rewrite length_node_keys in Hk. apply Hch in E as [->| ->]; [done|lia|lia].
    + left. split; [done|]. intros k Hk E. rewrite length_node_keys in Hk. rewrite (kth_key l i child Hi). apply Hch in E as [->| ->]; [by rewrite (kth_key l _ a Ha)|lia|lia].
Qed.

Lemma descend_ok fuel : forall h l i child,
  linked this h l -> l !! i = Some child -> (length l - i < fuel)%nat -> down_ok (keys l) i ->
  exists h' l', descend compare fuel child h = Some h' /\ sifted h l h' l'.
Proof.
  induction fuel as [|fuel IH]; intros h l i child Hl Hi Hf Hd; [lia|]. cbn [descend].
  rewrite (lk_node this h l Hl i child Hi). cbn [mbind option_bind].
  destruct (smallest_ok h l i child Hl Hi) as [[-> Hle]|(m & p & -> & Hm & Hpc & Hmin & Hlt)].
  - rewrite decide_True by done. exists h, l. split; [done|]. apply sifted_refl; [done|]. by apply (down_done _ i).
  - rewrite decide_False by done. destruct Hmin as (Hrange & Hparent & Hleast). rewrite length_node_keys in Hrange.
    destruct (swap_node_ok this h l m i child p Hl) as (h1 & -> & Hl1 & He1); [lia|done|done|done|]. cbn [mbind option_bind].
    destruct (IH h1 (exchange l m i) m child Hl1) as (h' & l' & -> & Hs).
    + by rewrite exchange_lookup, decide_True by lia.
    + rewrite length_exchange. lia.
    + apply (down_swap (keys l) _ i m); [done| |lia|].
      * split; [rewrite length_node_keys; lia|by split].
      * destruct (exchange_swapped l m i) as [Hlen Hsw]; [lia|lia|]. split; [done|]. intros x Hx. rewrite Hsw by done.
        destruct (decide (x = m)), (decide (x = i)); try done; lia.
    + exists h', l'. split; [done|]. eapply sifted_trans; [apply exchange_perm|done|done].
Qed.

(** A node that is not larger than its children stays where it is. *)
Lemma descend_stop fuel h l i child :
  linked this h l -> l !! i = Some child ->
  (forall k, (0 < k < length (keys l))%nat -> ((k - 1) / 2)%nat = i -> kth (keys l) i <= kth (keys l) k) ->
  descend compare (S fuel) child h = Some h.
Proof.
  intros Hl Hi Hle. cbn [descend]. rewrite (lk_node this h l Hl i child Hi). cbn [mbind option_bind].
  destruct (smallest_ok h l i child Hl Hi) as [[-> _]|(m & p & _ & Hm & _ & (Hr & Hpa & _) & Hlt)]; [by rewrite decide_True|].
  specialize (Hle m ltac:(lia) Hpa). lia.
Qed.

Lemma heap_up_ok (l : list Z) i : heap_ok l -> up_ok l i.
Proof.
  intros Hh. split; [intros k Hk _; by apply Hh|]. intros k Hk Hi E. pose proof (Hh k Hk) as H1. rewrite E in H1.
  etrans; [apply (Hh i)|done]. pose proof (parent_lt k ltac:(lia)). lia.
Qed.

(** Down, then up: what [remove] does with the node that takes a place. *)
Lemma settle_ok h l i child :
  linked this h l -> l !! i = Some child ->
  (if decide ((0 < i)%nat /\ kth (keys l) i < kth (keys l) ((i - 1) / 2)) then up_ok (keys l) i else down_ok (keys l) i) ->
  exists h1 h' l', descend compare (fuel_of h) child h = Some h1 /\ climb compare (fuel_of h1) child h1 = Some h' /\ sifted h l h' l'.
Proof.
  intros Hl Hi Hcase. pose proof (lookup_lt_Some l i child Hi) as Hlt.
  assert (forall h l, linked this h l -> fuel_of h = S (length l)) as Hfuel by (intros ? ? H; unfold fuel_of; rewrite (lk_size this _ _ H); unfold zlen; lia).
  destruct (decide _) as [[Hi0 Hk]|Hn].
  - destruct (climb_ok (fuel_of h) h l i child Hl Hi) as (h' & l' & E & Hs); [rewrite (Hfuel h l Hl); lia|done|].
    exists h, h', l'. split; [|by split]. apply (descend_stop _ h l i child Hl Hi). intros k Hk' E'. destruct Hcase as [_ H2].
    specialize (H2 k Hk' Hi0 E'). lia.
  - destruct (descend_ok (fuel_of h) h l i child Hl Hi) as (h1 & l1 & E & Hs1); [rewrite (Hfuel h l Hl); lia|done|].
    pose proof Hs1 as (Hl1 & Hp1 & He1 & Hh1). assert (child ∈ l1) as [i1 Hi1]%list_elem_of_lookup by (rewrite Hp1; by eapply list_elem_of_lookup_2).
    destruct (climb_ok (fuel_of h1) h1 l1 i1 child Hl1 Hi1) as (h' & l' & E' & Hs').
    + apply lookup_lt_Some in Hi1. rewrite (Hfuel h1 l1 Hl1). lia.
    + by apply heap_up_ok.
    + exists h1, h', l'. split; [done|]. split; [done|]. by eapply sifted_trans.
Qed.
End sifting.

(** * The last place *)

Section places.
Context (this : nat).

(** What writing a pointer in the slot of the position [i] does to the node of the
    position [x]. *)
Definition patch (i x : nat) (v : option nat) (n : heap_node) : heap_node :=
  if decide (0 < i /\ (i - 1) / 2 = x)%nat then (if decide (i = x * 2 + 1)%nat then set_left v n else set_right v n) else n.

Lemma write_slot_ok h l y i v :
  NoDup l -> (forall a q, l !! a = Some q -> is_Some (nodes h !! q)) -> slot_at l y i ->
  exists h', write_slot y v h = Some h' /\ min_ h' = (if decide (i = 0)%nat then v else min_ h) /\ size_ h' = size_ h /\
    (forall q, q ∉ l -> nodes h' !! q = nodes h !! q) /\
    forall x q, l !! x = Some q -> nodes h' !! q = patch i x v <$> nodes h !! q.
Proof.
  intros Hnd Hall Hy. assert (forall (h' : heap_raw) p f, l !! ((i - 1) / 2)%nat = Some p -> (0 < i)%nat ->
    (forall n, patch i ((i - 1) / 2) v n = f n) ->
    (forall q, nodes h' !! q = (fun n => if decide (q = p) then f n else n) <$> nodes h !! q) ->
    (forall q, q ∉ l -> nodes h' !! q = nodes h !! q) /\ forall x q, l !! x = Some q -> nodes h' !! q = patch i x v <$> nodes h !! q) as Hfin.
  { intros h' p f Hp Hi Hpf N. split; intros.
    - rewrite N. destruct (nodes h !! q); [|done]. cbn. rewrite decide_False; [done|]. intros ->. by eapply H, list_elem_of_lookup_2.
    - rewrite N. destruct (nodes h !! q); [|done]. cbn. destruct (decide (q = p)) as [->|Hqp].
      + assert (x = ((i - 1) / 2)%nat) as -> by by apply (nodup_at l _ _ p). by rewrite Hpf.
      + unfold patch. rewrite decide_False; [done|]. intros [_ <-]. congruence. }
  destruct y as [|p|p]; cbn in Hy |- *.
  - subst i. eexists. split; [done|]. split; [done|]. split; [done|]. split; [done|]. intros x q _. cbn [set_min nodes].
    destruct (nodes h !! q); [|done]. cbn [fmap option_fmap option_map]. unfold patch. by rewrite decide_False by lia.
  - destruct Hy as (j & Hj & ->). destruct (pointer_update_ok p (set_left v) h (Hall j p Hj)) as (h' & -> & Em & Es & N). exists h'. split; [done|].
    rewrite decide_False by lia. split; [done|]. split; [done|].
    apply (Hfin h' p (set_left v)); [by rewrite parent_left|lia| |done]. intros n. unfold patch. rewrite parent_left, decide_True by (split; lia). by rewrite decide_True by lia.
  - destruct Hy as (j & Hj & ->). destruct (pointer_update_ok p (set_right v) h (Hall j p Hj)) as (h' & -> & Em & Es & N). exists h'. split; [done|].
    rewrite decide_False by lia. split; [done|]. split; [done|].
    apply (Hfin h' p (set_right v)); [by rewrite parent_right|lia| |done]. intros n. unfold patch. rewrite parent_right, decide_True by (split; lia).
    by rewrite decide_False by lia.
Qed.

(** A node of a list with one node more, and one less. *)
Lemma node_at_snoc l v x : (x < length l)%nat ->
  node_at this (l ++ [v]) x = patch (length l) x (Some v) (node_at this l x) /\ node_at this l x = patch (length l) x None (node_at this (l ++ [v]) x).
Proof.
  intros Hx. set (n := length l).
  assert (forall k, (l ++ [v]) !! k = if decide (k = n) then Some v else l !! k) as Hk.
  { intros k. destruct (decide (k = n)) as [->|Hne]; [by rewrite list_lookup_middle|]. destruct (decide (k < n)%nat) as [|Hge]; [by rewrite lookup_app_l|].
    rewrite !lookup_ge_None_2; [done|unfold n in *; lia|rewrite length_app; cbn; unfold n in *; lia]. }
  assert (parent_at (l ++ [v]) x = parent_at l x) as Hp.
  { unfold parent_at. destruct (Nat.eqb_spec x 0); [done|]. pose proof (parent_lt x ltac:(lia)). rewrite Hk, decide_False by (unfold n; lia). done. }
  assert (forall z, (n <= z)%nat -> l !! z = None) as Hnone by (intros z Hz; by apply lookup_ge_None_2).
  unfold node_at. rewrite Hp, !Hk. unfold patch.
  destruct (decide (x * 2 + 1 = n)%nat) as [E|E]; [|destruct (decide (x * 2 + 2 = n)%nat) as [E'|E']].
  - assert ((n - 1) / 2 = x)%nat as Hn by (rewrite <- E; apply parent_left). rewrite !(decide_True (P := (0 < n /\ _)%nat)), !(decide_True (P := (n = _)%nat)), decide_False by lia.
    unfold set_left; cbn [left right parent heap]. by rewrite (Hnone (x * 2 + 1)%nat), (Hnone (x * 2 + 2)%nat) by lia.
  - assert ((n - 1) / 2 = x)%nat as Hn by (rewrite <- E'; apply parent_right). rewrite !(decide_True (P := (0 < n /\ _)%nat)), !(decide_False (P := (n = _)%nat)) by lia.
    unfold set_right; cbn [left right parent heap]. by rewrite (Hnone (x * 2 + 2)%nat) by lia.
  - rewrite !(decide_False (P := (0 < n /\ _)%nat)); [done|..]; intros [Hn0 Hn]; assert (n = x * 2 + 1 \/ n = x * 2 + 2)%nat by (clear - Hn0 Hn; subst x; divlia); lia.
Qed.
End places.

(** * Operations *)

Section operations.
Context (this : nat) (compare : nat -> nat -> bool) (key : nat -> Z).
Context (compare_key : forall p q, compare p q = (key p <? key q)).

Lemma linked_frame h h' l :
  linked this h l -> min_ h' = min_ h -> size_ h' = size_ h -> (forall q, q ∈ l -> nodes h' !! q = nodes h !! q) ->
  (forall q n, nodes h' !! q = Some n -> q ∉ l -> heap n <> Some this) -> linked this h' l.
Proof.
  intros Hl Em Es Hin Hout. split.
  - by rewrite Em, (lk_min this h l Hl).
  - by rewrite Es, (lk_size this h l Hl).
  - apply (lk_nodup this h l Hl).
  - intros i p Hi. rewrite Hin by by eapply list_elem_of_lookup_2. by apply (lk_node this h l Hl).
  - exact Hout.
Qed.

Lemma heap_member h l p n : linked this h l -> nodes h !! p = Some n -> (heap n = Some this <-> p ∈ l).
Proof.
  intros Hl Hn. split.
  - intros Hh. destruct (decide (p ∈ l)) as [|Hout]; [done|]. by destruct (lk_out this h l Hl p n Hn Hout).
  - intros [i Hi]%list_elem_of_lookup. rewrite (lk_node this h l Hl i p Hi) in Hn. by injection Hn as <-.
Qed.

(** The walk that [insert] makes: the slot for the new node, and the one above. *)
Lemma insert_walk h l node :
  linked this h l -> zlen l + 1 < 2 ^ 64 ->
  exists path k x y, path_to (1 + size_ h) = (path, k) /\ walk k path MinSlot MinSlot h = Some (x, y) /\
    slot_at l y (length l) /\ read_slot x h = Some (parent_at (l ++ [node]) (length l)).
Proof.
  intros Hl Hz. rewrite (lk_size this h l Hl). destruct (path_to_ok (1 + zlen l)) as (path & k & E & Ef); [pose proof (zlen_nonneg l); lia|].
  replace (Z.to_nat (1 + zlen l)) with (S (length l)) in Ef by (unfold zlen; lia).
  destruct (walk_ok this k path MinSlot MinSlot 0%nat h l Hl) as (x & y & Ew & Hy & H0 & Hk); [done|lia|].
  exists path, k, x, y. split; [done|]. split; [done|]. rewrite Ef in *. cbn [Nat.sub] in Hy. rewrite Nat.sub_0_r in Hy. split; [done|].
  unfold parent_at. destruct k as [|k].
  - cbn in Ef. rewrite (H0 eq_refl). cbn. replace (length l) with 0%nat by lia. cbn.
    rewrite (lk_min this h l Hl). by rewrite lookup_ge_None_2 by lia.
  - pose proof (follow_le (S k) path 1 ltac:(lia)) as Hle. rewrite Ef in Hle. assert (2 <= 2 ^ S k)%nat by (cbn; pose proof (Nat.pow_nonzero 2 k); lia).
    rewrite (proj2 (Nat.eqb_neq (length l) 0)) by lia. rewrite (read_slot_ok this h l x _ Hl (Hk ltac:(lia))).
    replace (S (length l) - 2)%nat with (length l - 1)%nat by lia. pose proof (parent_lt (length l) ltac:(lia)).
    by rewrite lookup_app_l by lia.
Qed.

Lemma length_snoc (l : list nat) v : length (l ++ [v]) = S (length l).
Proof. rewrite length_app. cbn. lia. Qed.

(** What [insert] has done when it begins to climb. *)
Lemma insert_link h l node n y :
  linked this h l -> nodes h !! node = Some n -> heap n = None -> zlen l + 1 < 2 ^ 64 -> slot_at l y (length l) ->
  exists h1 h2 h3, update node (set_parent (parent_at (l ++ [node]) (length l))) (HeapRaw (min_ h) (size_ h) (<[node := HeapNode None None None (heap n)]> (nodes h))) = Some h1 /\
    write_slot y (Some node) h1 = Some h2 /\ update node (set_heap (Some this)) h2 = Some h3 /\
    linked this (set_size (u64 (size_ h3 + 1)) h3) (l ++ [node]) /\ elsewhere (l ++ [node]) h h3.
Proof.
  intros Hl Hn Hh Hz Hy. assert (node ∉ l) as Hout by (intros Hin; apply (heap_member h l node n Hl Hn) in Hin; congruence).
  set (h0 := HeapRaw _ _ _). destruct (pointer_update_ok node (set_parent (parent_at (l ++ [node]) (length l))) h0) as (h1 & E1 & M1 & S1 & N1);
    [cbn; rewrite lookup_insert_eq; by eexists|].
  assert (forall q, q <> node -> nodes h1 !! q = nodes h !! q) as Hq1.
  { intros q Hq. rewrite N1. cbn. rewrite lookup_insert_ne by done. destruct (nodes h !! q); [|done]. cbn. by rewrite decide_False. }
  destruct (write_slot_ok h1 l y (length l) (Some node) (lk_nodup this h l Hl)) as (h2 & E2 & M2 & S2 & O2 & N2).
  { intros a q Ha. assert (q <> node) by (intros ->; by apply Hout, (list_elem_of_lookup_2 l a)). rewrite Hq1, (lk_node this h l Hl a q Ha) by done. by eexists. }
  { done. }
  assert (nodes h2 !! node = Some (HeapNode None None (parent_at (l ++ [node]) (length l)) None)) as Hnode.
  { rewrite O2, N1 by done. cbn. rewrite lookup_insert_eq. cbn. by rewrite decide_True, Hh. }
  destruct (pointer_update_ok node (set_heap (Some this)) h2) as (h3 & E3 & M3 & S3 & N3); [rewrite Hnode; by eexists|].
  assert (forall q, q <> node -> nodes h3 !! q = nodes h2 !! q) as Hq3.
  { intros q Hq. rewrite N3. destruct (nodes h2 !! q); [|done]. cbn. by rewrite decide_False. }
  exists h1, h2, h3. split; [done|]. split; [done|]. split; [done|].
  assert (elsewhere (l ++ [node]) h h3) as He.
  { intros q Hq. rewrite list.elem_of_app, list_elem_of_singleton in Hq. rewrite Hq3, O2, Hq1; auto. }
  split; [split|done]; cbn [set_size min_ size_ nodes].
  - rewrite M3, M2, M1. destruct l as [|a l']; [done|]. rewrite decide_False by done. apply (lk_min this h _ Hl).
  - rewrite S3, S2, S1. cbn. rewrite (lk_size this h l Hl), zlen_app. rewrite u64_small; [done|]. pose proof (zlen_nonneg l). unfold is_u64. lia.
  - apply list.NoDup_app. split; [apply (lk_nodup this h l Hl)|]. split; [|apply NoDup_singleton]. by intros q Hq ->%list_elem_of_singleton.
  - intros x q Hx. destruct (decide (x < length l)%nat) as [Hlt|Hge].
    + rewrite lookup_app_l in Hx by done. assert (q <> node) by (intros ->; by apply Hout, (list_elem_of_lookup_2 l x)).
      rewrite Hq3, (N2 x q Hx), Hq1, (lk_node this h l Hl x q Hx) by done. cbn. by rewrite (proj1 (node_at_snoc this l node x Hlt)).
    + pose proof (lookup_lt_Some _ _ _ Hx) as Hlt. rewrite length_snoc in Hlt. assert (x = length l) as -> by lia.
      rewrite list_lookup_middle in Hx by done. injection Hx as <-. rewrite N3, Hnode. cbn [fmap option_fmap option_map]. rewrite decide_True by done. unfold node_at.
      by rewrite (lookup_ge_None_2 _ (length l * 2 + 1)), (lookup_ge_None_2 _ (length l * 2 + 2)) by (rewrite length_snoc; lia).
  - intros q n' Hq Hqo. rewrite He in Hq by done. apply (lk_out this h l Hl q n' Hq). intros Hin. apply Hqo, list.elem_of_app. by left.
Qed.

(** A new last key may be smaller than its parent, and nothing else. *)
Lemma snoc_up_ok l node : heap_ok (keys key l) -> up_ok (keys key (l ++ [node])) (length l).
Proof.
  intros Hh. unfold keys in *. rewrite fmap_app. set (kl := key <$> l) in *. assert (length kl = length l) as Hlen by apply length_fmap. rewrite <- Hlen.
  split; intros k Hk; rewrite length_app in Hk; change (length (key <$> [node])) with 1%nat in Hk.
  - intros Hne. pose proof (parent_lt k ltac:(lia)). rewrite !kth_app_l by lia. apply Hh. lia.
  - intros Hi E. pose proof (parent_lt k ltac:(lia)). lia.
Qed.

(** [insert] takes a node in that is in no heap. *)
Lemma insert_ok h l node n :
  linked this h l -> heap_ok (keys key l) -> nodes h !! node = Some n -> heap n = None -> zlen l + 1 < 2 ^ 64 ->
  exists h' l', insert this compare node h = Some (true, h') /\ linked this h' l' /\ l' ≡ₚ node :: l /\ heap_ok (keys key l') /\
    forall q, q ∉ l -> q <> node -> nodes h' !! q = nodes h !! q.
Proof.
  intros Hl Hk Hn Hh Hz. unfold insert. rewrite Hn. cbn [mbind option_bind]. rewrite Hh.
  set (h0 := HeapRaw (min_ h) (size_ h) (<[node := HeapNode None None None (heap n)]> (nodes h))).
  assert (update node (fun n => HeapNode None None None (heap n)) h = Some h0) as -> by (unfold update; by rewrite Hn). cbn [mbind option_bind].
  assert (node ∉ l) as Hout by (intros Hin; apply (heap_member h l node n Hl Hn) in Hin; congruence).
  assert (linked this h0 l) as Hl0.
  { apply (linked_frame h h0 l Hl); try done.
    - intros q Hq. cbn. by rewrite lookup_insert_ne by (intros ->; done).
    - intros q n' Hq Hqo. cbn in Hq. apply lookup_insert_Some in Hq as [[<- <-]|[_ Hq]]; [cbn; congruence|by apply (lk_out this h l Hl q)]. }
  destruct (insert_walk h0 l node Hl0 Hz) as (path & k & x & y & Ep & Ew & Hy & Er). rewrite Ep, Ew. cbn [mbind option_bind]. rewrite Er. cbn [mbind option_bind].
  destruct (insert_link h l node n y Hl Hn Hh Hz Hy) as (h1 & h2 & h3 & E1 & E2 & E3 & Hl' & He). unfold h0. rewrite E1. cbn [mbind option_bind]. rewrite E2. cbn [mbind option_bind].
  rewrite E3. cbn [mbind option_bind]. set (h4 := set_size _ h3) in *.
  destruct (climb_ok this compare key compare_key (fuel_of h4) h4 (l ++ [node]) (length l) node Hl') as (h' & l' & -> & Hs & Hp & He' & Hk').
  - by apply list_lookup_middle.
  - unfold fuel_of. rewrite (lk_size this h4 _ Hl'). unfold zlen. rewrite length_snoc. lia.
  - by apply snoc_up_ok.
  - cbn [mbind option_bind]. exists h', l'. split; [done|]. split; [done|]. split; [by rewrite Hp, Permutation_app_comm|]. split; [done|].
    intros q Hq Hqn. assert (q ∉ l ++ [node]) as Hqo by (rewrite list.elem_of_app, list_elem_of_singleton; tauto). rewrite He' by done. exact (He q Hqo).
Qed.

(** The walk that [remove] makes: the slot of the last node. *)
Lemma remove_walk h l last :
  linked this h l -> length l = S last -> zlen l < 2 ^ 64 ->
  exists path k x y, path_to (size_ h) = (path, k) /\ walk k path MinSlot MinSlot h = Some (x, y) /\ slot_at l y last.
Proof.
  intros Hl Hlen Hz. rewrite (lk_size this h l Hl). destruct (path_to_ok (zlen l)) as (path & k & E & Ef); [unfold zlen in *; lia|].
  replace (Z.to_nat (zlen l)) with (S last) in Ef by (unfold zlen; lia).
  destruct (walk_ok this k path MinSlot MinSlot 0%nat h l Hl) as (x & y & Ew & Hy & _); [done|lia|].
  exists path, k, x, y. split; [done|]. split; [done|]. rewrite Ef in Hy. by replace (S last - 1)%nat with last in Hy by lia.
Qed.

(** A tree without the last node, which is still marked as one of the heap. *)
Definition unlinked (h : heap_raw) (l : list nat) (v : nat) (h' : heap_raw) : Prop :=
  min_ h' = l !! 0%nat /\ size_ h' = zlen l /\ (forall x q, l !! x = Some q -> nodes h' !! q = Some (node_at this l x)) /\
  (forall q, q ∉ l -> q <> v -> nodes h' !! q = nodes h !! q) /\ exists nv, nodes h' !! v = Some nv /\ heap nv = Some this.

Lemma unlink_last h l v y :
  linked this h (l ++ [v]) -> zlen l < 2 ^ 64 -> slot_at (l ++ [v]) y (length l) ->
  exists h', write_slot y None (set_size (u64 (size_ h - 1)) h) = Some h' /\ unlinked h l v h'.
Proof.
  intros Hl Hz Hy. set (h1 := set_size _ h). pose proof (lk_nodup this h _ Hl) as Hnd.
  destruct (write_slot_ok h1 (l ++ [v]) y (length l) None Hnd) as (h' & E & M & Sz & O & N); [|done|].
  { intros a q Ha. cbn. rewrite (lk_node this h _ Hl a q Ha). by eexists. }
  exists h'. split; [done|]. split; [|split; [|split; [|split]]].
  - rewrite M. destruct l as [|a l']; [done|]. rewrite decide_False by done. cbn. apply (lk_min this h _ Hl).
  - rewrite Sz. cbn. rewrite (lk_size this h _ Hl), zlen_app. change (zlen [v]) with 1. replace (zlen l + 1 - 1) with (zlen l) by lia.
    apply u64_small. pose proof (zlen_nonneg l). unfold is_u64. lia.
  - intros x q Hx. pose proof (lookup_lt_Some l x q Hx) as Hlt. assert ((l ++ [v]) !! x = Some q) as Hx' by by rewrite lookup_app_l.
    rewrite (N x q Hx'). cbn. rewrite (lk_node this h _ Hl x q Hx'). cbn. by rewrite <- (proj2 (node_at_snoc this l v x Hlt)).
  - intros q Hq Hqv. rewrite O; [done|]. rewrite list.elem_of_app, list_elem_of_singleton. tauto.
  - assert ((l ++ [v]) !! length l = Some v) as Hv by by apply list_lookup_middle.
    rewrite (N _ v Hv). cbn. rewrite (lk_node this h _ Hl _ v Hv). cbn. eexists. split; [done|]. unfold patch. by repeat case_decide.
Qed.

(** The last node itself is removed. *)
Lemma remove_last_ok h l v h1 :
  linked this h (l ++ [v]) -> unlinked h l v h1 ->
  exists h', update v (set_heap None) (if decide (Some v = min_ h1) then set_min None h1 else h1) = Some h' /\ linked this h' l /\
    (exists n, nodes h' !! v = Some n /\ heap n = None) /\ forall q, q ∉ l -> q <> v -> nodes h' !! q = nodes h !! q.
Proof.
  intros Hl (M & Sz & N & O & (nv & Hv & Hh)). pose proof (lk_nodup this h _ Hl) as Hnd.
  apply list.NoDup_app in Hnd as (Hnd & Hno & _).
  assert (v ∉ l) as Hvl by (intros Hin; by apply (Hno v Hin), list_elem_of_singleton).
  rewrite decide_False by (rewrite M; intros Ha; by apply Hvl, (list_elem_of_lookup_2 l 0)).
  destruct (pointer_update_ok v (set_heap None) h1) as (h' & E & M' & S' & N'); [rewrite Hv; by eexists|].
  assert (forall q, q <> v -> nodes h' !! q = nodes h1 !! q) as Hq.
  { intros q Hq. rewrite N'. destruct (nodes h1 !! q); [|done]. cbn. by rewrite decide_False. }
  exists h'. split; [done|]. split; [|split; [rewrite N', Hv; cbn; rewrite decide_True by done; by eexists|intros q H1 H2; by rewrite Hq, O]]. split.
  - by rewrite M'.
  - by rewrite S'.
  - done.
  - intros x q Hx. rewrite Hq; [by apply N|]. intros ->. by apply Hvl, (list_elem_of_lookup_2 l x).
  - intros q n Hn Hout. destruct (decide (q = v)) as [->|Hne]; [|rewrite Hq, O in Hn by done].
    + rewrite N', Hv in Hn. cbn in Hn. rewrite decide_True in Hn by done. by injection Hn as <-.
    + apply (lk_out this h _ Hl q n Hn). rewrite list.elem_of_app, list_elem_of_singleton. tauto.
Qed.

(** The last node takes the place of another one. *)
Lemma take_place_ok h l v h1 i node :
  linked this h (l ++ [v]) -> unlinked h l v h1 -> l !! i = Some node ->
  exists h2 h3 h4, update v (fun c => HeapNode (l !! (i * 2 + 1)%nat) (l !! (i * 2 + 2)%nat) (parent_at l i) (heap c)) h1 = Some h2 /\
    update_if (l !! (i * 2 + 1)%nat) (set_parent (Some v)) h2 = Some h3 /\ update_if (l !! (i * 2 + 2)%nat) (set_parent (Some v)) h3 = Some h4 /\
    min_ h4 = l !! 0%nat /\ size_ h4 = zlen l /\ nodes h4 !! node = Some (node_at this l i) /\
    (forall q, q ∉ l -> q <> v -> nodes h4 !! q = nodes h !! q) /\
    forall x q, <[i := v]> l !! x = Some q -> nodes h4 !! q = Some (below this (<[i := v]> l) i node x).
Proof.
  intros Hl (M & Sz & N & O & (nv & Hv & Hh)) Hi. pose proof (lk_nodup this h _ Hl) as Hnd.
  apply list.NoDup_app in Hnd as (Hnd & Hno & _). assert (v ∉ l) as Hvl by (intros Hin; by apply (Hno v Hin), list_elem_of_singleton).
  assert (forall a, l !! a <> Some v) as Hva by (intros a Ha; by apply Hvl, (list_elem_of_lookup_2 l a)).
  destruct (pointer_update_ok v (fun c => HeapNode (l !! (i * 2 + 1)%nat) (l !! (i * 2 + 2)%nat) (parent_at l i) (heap c)) h1) as (h2 & E2 & M2 & S2 & N2); [rewrite Hv; by eexists|].
  assert (forall a q, l !! a = Some q -> is_Some (nodes h2 !! q)) as A2 by (intros a q Ha; rewrite N2, (N a q Ha), fmap_is_Some; by eexists).
  destruct (update_if_ok (l !! (i * 2 + 1)%nat) (set_parent (Some v)) h2) as (h3 & E3 & M3 & S3 & N3); [intros q Ha; by eapply A2|].
  destruct (update_if_ok (l !! (i * 2 + 2)%nat) (set_parent (Some v)) h3) as (h4 & E4 & M4 & S4 & N4); [intros q Ha; rewrite N3, fmap_is_Some; by eapply A2|].
  assert (forall x q, l !! x = Some q -> nodes h4 !! q = Some (if decide (x = i * 2 + 1 \/ x = i * 2 + 2)%nat then set_parent (Some v) (node_at this l x) else node_at this l x)) as Hold.
  { intros x q Hx. assert (q <> v) by (intros ->; by apply (Hva x)). rewrite N4, N3, N2, (N x q Hx). cbn [fmap option_fmap option_map].
    rewrite (decide_False (P := q = v)), !(decide_at l _ x q) by done.
    destruct (decide (i * 2 + 1 = x)%nat) as [E|E]; [rewrite (decide_False (P := (i * 2 + 2 = x)%nat)), decide_True by lia; done|].
    destruct (decide (i * 2 + 2 = x)%nat); [by rewrite decide_True by lia|by rewrite decide_False by lia]. }
  exists h2, h3, h4. split; [done|]. split; [done|]. split; [done|]. split; [congruence|]. split; [congruence|]. split; [|split].
  - by rewrite (Hold i node Hi), decide_False by lia.
  - intros q Hq Hqv. assert (forall a, l !! a <> Some q) as Hqa by (intros a Ha; by apply Hq, (list_elem_of_lookup_2 l a)).
    rewrite N4, N3, N2, O by done. destruct (nodes h !! q); [|done]. cbn. by rewrite (decide_False (P := q = v)), !decide_False by done.
  - intros x q Hx. pose proof (lookup_lt_Some l i node Hi) as Hlt.
    assert (forall k, <[i := v]> l !! k = if decide (k = i) then Some v else l !! k) as Hk.
    { intros k. destruct (decide (k = i)) as [->|]; [by apply list_lookup_insert_eq|by apply list_lookup_insert_ne]. }
    rewrite Hk in Hx. unfold below, parent_at. rewrite !Hk. destruct (decide (x = i)) as [->|Hxi].
    + injection Hx as <-. rewrite N4, N3, N2, Hv. cbn [fmap option_fmap option_map].
      rewrite (decide_True (P := v = v)), !(decide_False (P := _ = Some v)) by (done || apply Hva). rewrite Hh.
      rewrite !(decide_False (P := (i * 2 + _ = i)%nat)) by lia. unfold parent_at. destruct (Nat.eqb_spec i 0); [done|].
      pose proof (parent_lt i ltac:(lia)). by rewrite decide_False by lia.
    + rewrite (Hold x q Hx).
      assert (forall k, (if decide (k = i) then Some node else if decide (k = i) then Some v else l !! k) = l !! k) as Hz by (intros k; destruct (decide (k = i)) as [->|]; done).
      rewrite !Hz. unfold node_at, parent_at. destruct (Nat.eqb_spec x 0) as [->|Hx0]; [by rewrite decide_False by lia|].
      destruct (decide (x = i * 2 + 1 \/ x = i * 2 + 2)%nat) as [Hc|Hc].
      * rewrite decide_True; [done|]. destruct Hc as [->| ->]; [apply parent_left|apply parent_right].
      * rewrite decide_False; [done|]. intros E. by destruct (children x i ltac:(lia) E); apply Hc; auto.
Qed.

(** What [remove] has done when it begins to sift. *)
Lemma heap_replace_ok h l v h1 i node :
  linked this h (l ++ [v]) -> unlinked h l v h1 -> l !! i = Some node -> node <> v ->
  exists h2 h3 h4 h5 h6, update v (fun c => HeapNode (l !! (i * 2 + 1)%nat) (l !! (i * 2 + 2)%nat) (parent_at l i) (heap c)) h1 = Some h2 /\
    update_if (l !! (i * 2 + 1)%nat) (set_parent (Some v)) h2 = Some h3 /\ update_if (l !! (i * 2 + 2)%nat) (set_parent (Some v)) h3 = Some h4 /\
    nodes h4 !! node = Some (node_at this l i) /\ relink (parent_at l i) node v h4 = Some h5 /\ update node (set_heap None) h5 = Some h6 /\
    linked this h6 (<[i := v]> l) /\ node ∉ <[i := v]> l /\ (exists n, nodes h6 !! node = Some n /\ heap n = None) /\
    forall q, q ∉ l ++ [v] -> nodes h6 !! q = nodes h !! q.
Proof.
  intros Hl Hu Hi Hnv. destruct (take_place_ok h l v h1 i node Hl Hu Hi) as (h2 & h3 & h4 & E2 & E3 & E4 & M4 & S4 & Hnode & O4 & N4).
  pose proof (lk_nodup this h _ Hl) as Hnd. apply list.NoDup_app in Hnd as (Hnd & Hno & _).
  assert (v ∉ l) as Hvl by (intros Hin; by apply (Hno v Hin), list_elem_of_singleton). pose proof (lookup_lt_Some l i node Hi) as Hlt.
  set (l1 := <[i := v]> l) in *.
  assert (forall k, l1 !! k = if decide (k = i) then Some v else l !! k) as Hk.
  { intros k. unfold l1. destruct (decide (k = i)) as [->|]; [by apply list_lookup_insert_eq|by apply list_lookup_insert_ne]. }
  assert (forall q, q ∈ l1 -> q <> node /\ q ∈ l ++ [v]) as Hin1.
  { intros q [k Hq]%list_elem_of_lookup. rewrite Hk in Hq. destruct (decide (k = i)); [injection Hq as <-; split; [congruence|apply list.elem_of_app; right; by apply list_elem_of_singleton]|].
    split; [|apply list.elem_of_app; left; by eapply list_elem_of_lookup_2]. intros ->. by pose proof (nodup_at l k i node Hnd Hi Hq). }
  assert (forall q, q ∈ l -> q <> node -> q ∈ l1) as Hin2.
  { intros q [k Hq]%list_elem_of_lookup Hqn. apply (list_elem_of_lookup_2 l1 k). rewrite Hk, decide_False; [done|]. intros ->. congruence. }
  assert (NoDup l1) as Hnd1.
  { apply NoDup_alt. intros a b q. rewrite !Hk. destruct (decide (a = i)) as [->|], (decide (b = i)) as [->|]; [done|..].
    - intros [= <-] Hb. by destruct Hvl; eapply list_elem_of_lookup_2.
    - intros Ha [= <-]. by destruct Hvl; eapply list_elem_of_lookup_2.
    - intros Ha Hb. by apply (nodup_at l a b q). }
  assert (parent_at l i = parent_at l1 i) as Hpar.
  { unfold parent_at. destruct (Nat.eqb_spec i 0); [done|]. rewrite Hk, decide_False; [done|]. pose proof (parent_lt i ltac:(lia)). lia. }
  destruct (relink_ok this h4 l1 i node v Hnd1) as (h5 & E5 & M5 & S5 & O5 & N5).
  { by rewrite Hk, decide_True. }
  { intros a Ha. destruct (Hin1 node (list_elem_of_lookup_2 l1 a node Ha)); done. }
  { intros Hi0. by rewrite M4, Hk, decide_False by lia. }
  { done. }
  assert (node ∉ l1) as Hnl1 by (intros H; by destruct (Hin1 node H)).
  destruct (pointer_update_ok node (set_heap None) h5) as (h6 & E6 & M6 & S6 & N6); [rewrite O5, Hnode by done; by eexists|].
  assert (forall q, q <> node -> nodes h6 !! q = nodes h5 !! q) as Hq6.
  { intros q Hq. rewrite N6. destruct (nodes h5 !! q); [|done]. cbn. by rewrite decide_False. }
  assert (forall q, q ∉ l ++ [v] -> nodes h6 !! q = nodes h !! q) as Hout.
  { intros q Hq. rewrite list.elem_of_app, list_elem_of_singleton in Hq. assert (q <> node) by (intros ->; apply Hq; left; by eapply list_elem_of_lookup_2).
    rewrite Hq6, O5 by (done || intros [_ H1]%Hin1; rewrite list.elem_of_app, list_elem_of_singleton in H1; tauto). apply O4; tauto. }
  exists h2, h3, h4, h5, h6. split; [done|]. split; [done|]. split; [done|]. split; [done|]. split; [by rewrite Hpar|]. split; [done|].
  split; [split|split; [done|split; [rewrite N6, O5, Hnode by done; cbn; rewrite decide_True by done; by eexists|done]]].
  - by rewrite M6.
  - rewrite S6, S5, S4. unfold zlen, l1. by rewrite length_insert.
  - done.
  - intros x q Hx. rewrite Hq6 by (apply Hin1; by eapply list_elem_of_lookup_2). by apply N5.
  - intros q n Hn Hqo. destruct (decide (q = node)) as [->|Hqn].
    + rewrite N6, O5, Hnode in Hn by done. cbn in Hn. rewrite decide_True in Hn by done. by injection Hn as <-.
    + assert (q ∉ l ++ [v]) as Hqv.
      { rewrite list.elem_of_app, list_elem_of_singleton. intros [Hq| ->]; [by apply Hqo, Hin2|]. apply Hqo, (list_elem_of_lookup_2 l1 i). by rewrite Hk, decide_True. }
      rewrite Hout in Hn by done. by apply (lk_out this h _ Hl q n Hn).
Qed.

(** [remove] takes a node of the heap out. *)
Lemma heap_remove_ok h l node :
  linked this h l -> heap_ok (keys key l) -> node ∈ l -> zlen l < 2 ^ 64 ->
  exists h' l', remove this compare node h = Some (true, h') /\ linked this h' l' /\ l ≡ₚ node :: l' /\ heap_ok (keys key l') /\
    (exists n, nodes h' !! node = Some n /\ heap n = None) /\ forall q, q ∉ l -> nodes h' !! q = nodes h !! q.
Proof.
  intros Hl Hh Hin Hz. apply list_elem_of_lookup in Hin as [i Hi]. pose proof (lookup_lt_Some l i node Hi) as Hlt.
  destruct (exists_last (l := l)) as (l0 & v & ->); [by intros ->|]. rewrite length_snoc in Hlt. rewrite zlen_app in Hz. change (zlen [v]) with 1 in Hz.
  unfold remove. rewrite (lk_node this h _ Hl i node Hi). cbn [mbind option_bind]. change (heap (node_at this (l0 ++ [v]) i)) with (Some this).
  rewrite decide_False by (intros H; by apply H). rewrite (proj2 (Z.eqb_neq (size_ h) 0)).
  2: { rewrite (lk_size this h _ Hl), zlen_app. change (zlen [v]) with 1. pose proof (zlen_nonneg l0). lia. }
  destruct (remove_walk h (l0 ++ [v]) (length l0) Hl) as (path & k & x & y & Ep & Ew & Hy); [apply length_snoc|rewrite zlen_app; done|].
  rewrite Ep, Ew. cbn [mbind option_bind].
  assert (read_slot y (set_size (u64 (size_ h - 1)) h) = Some (Some v)) as ->.
  { transitivity (read_slot y h); [by destruct y|]. rewrite (read_slot_ok this h _ y _ Hl Hy). f_equal. by apply list_lookup_middle. }
  cbn [mbind option_bind]. destruct (unlink_last h l0 v y Hl ltac:(lia) Hy) as (h1 & -> & Hu). cbn [mbind option_bind].
  pose proof (lk_nodup this h _ Hl) as Hnd.
  destruct (decide (i = length l0)) as [->|Hil].
  - rewrite list_lookup_middle in Hi by done. injection Hi as ->. rewrite decide_True by done.
    destruct (remove_last_ok h l0 node h1 Hl Hu) as (h' & -> & Hl' & Hfree & Ho). cbn [mbind option_bind]. exists h', l0. split; [done|]. split; [done|].
    split; [by rewrite Permutation_app_comm|]. split.
    + intros z Hz'. specialize (Hh z). unfold keys in *. rewrite fmap_app, length_app in Hh. pose proof (parent_lt z ltac:(lia)).
      rewrite !kth_app_l in Hh by lia. apply Hh. lia.
    + split; [done|]. intros q Hq. rewrite list.elem_of_app, list_elem_of_singleton in Hq. apply Ho; tauto.
  - rewrite lookup_app_l in Hi by lia. assert (node <> v) as Hnv.
    { intros ->. apply Hil. apply (nodup_at (l0 ++ [v]) _ _ v Hnd); [by apply list_lookup_middle|by rewrite lookup_app_l by lia]. }
    rewrite decide_False by congruence.
    pose proof Hu as (_ & _ & Nu & _). rewrite (Nu i node Hi). cbn [mbind option_bind left right parent node_at].
    destruct (heap_replace_ok h l0 v h1 i node Hl Hu Hi Hnv) as (h2 & h3 & h4 & h5 & h6 & -> & E3 & E4 & E5 & E6 & E7 & Hl6 & Hnode1 & Hfree & Ho). cbn [mbind option_bind].
    rewrite E3. cbn [mbind option_bind]. rewrite E4. cbn [mbind option_bind]. rewrite E5. cbn [mbind option_bind parent node_at]. rewrite E6. cbn [mbind option_bind].
    rewrite E7. cbn [mbind option_bind].
    assert (length (<[i:=v]> l0) = length l0) as Hlen1 by apply length_insert.
    destruct (settle_ok this compare key compare_key h6 (<[i:=v]> l0) i v Hl6) as (h7 & h' & l' & -> & Ec & Hl' & Hp & He & Hh').
    + apply list_lookup_insert_eq. lia.
    + apply (replaced_keys (keys key (l0 ++ [v])) _ i (length l0)); [done|lia|by rewrite length_node_keys, length_snoc|by rewrite length_node_keys|].
      intros z Hz'. destruct (lookup_lt_is_Some_2 l0 z Hz') as [q Hq].
      rewrite (kth_key key (l0 ++ [v]) z q), (kth_key key (l0 ++ [v]) (length l0) v) by (by apply list_lookup_middle || by rewrite lookup_app_l).
      destruct (decide (z = i)) as [->|]; [by rewrite (kth_key key _ i v) by by apply list_lookup_insert_eq|].
      by rewrite (kth_key key _ z q) by by rewrite list_lookup_insert_ne.
    + cbn [mbind option_bind]. rewrite Ec. cbn [mbind option_bind]. exists h', l'. split; [done|]. split; [done|]. split; [|split; [done|split; [by rewrite He|]]].
      * rewrite Hp, insert_take_drop by lia. rewrite <- (take_drop_middle l0 i node Hi) at 1. rewrite Permutation_app_comm. cbn.
        rewrite <- !Permutation_middle. apply Permutation_swap.
      * intros q Hq. rewrite He; [by apply Ho|]. intros [z Hzq]%list_elem_of_lookup. apply Hq, list.elem_of_app.
        destruct (decide (z = i)) as [->|]; [rewrite list_lookup_insert_eq in Hzq by lia; injection Hzq as <-; right; by apply list_elem_of_singleton|].
        rewrite list_lookup_insert_ne in Hzq by done. left. by eapply list_elem_of_lookup_2.
Qed.

(** * What a heap promises

    A set of nodes of which the least can be taken. *)

Definition least (S : gset nat) (p : nat) : Prop := p ∈ S /\ forall q, q ∈ S -> key p <= key q.

Inductive spec_step : heap_op -> gset nat -> bool -> gset nat -> Prop :=
  | SpecPush p S : spec_step (Push p) S (bool_decide (p ∉ S)) ({[p]} ∪ S)
  | SpecErase p S : spec_step (Erase p) S (bool_decide (p ∈ S)) (S ∖ {[p]})
  | SpecPop p S : least S p -> spec_step Pop S true (S ∖ {[p]}).

Inductive spec_run : list heap_op -> gset nat -> list bool -> gset nat -> Prop :=
  | SpecNil S : spec_run [] S [] S
  | SpecCons o ops S b S1 bs S2 : spec_step o S b S1 -> spec_run ops S1 bs S2 -> spec_run (o :: ops) S (b :: bs) S2.

(** The memory [m] has the nodes of [S] in the heap and the others free. *)
Record holds (m : gmap nat heap_node) (h : heap_raw) (S : gset nat) : Prop := {
  ho_tree : exists l, linked this h l /\ heap_ok (keys key l) /\ forall q, q ∈ l <-> q ∈ S;
  ho_free p : p ∉ S -> is_Some (m !! p) -> exists n, nodes h !! p = Some n /\ heap n = None;
  ho_memory p : p ∈ S -> is_Some (m !! p) }.

Lemma linked_size h l (S : gset nat) : linked this h l -> (forall q, q ∈ l <-> q ∈ S) -> length l = size S.
Proof.
  intros Hl Hm. rewrite <- (size_list_to_set (C := gset nat) l) by apply (lk_nodup this h l Hl). f_equal. apply set_eq. intros q. by rewrite elem_of_list_to_set.
Qed.

Lemma holds_size m h l S : holds m h S -> linked this h l -> (forall q, q ∈ l <-> q ∈ S) -> zlen l <= Z.of_nat (size m).
Proof.
  intros Hh Hl Hm. unfold zlen. rewrite (linked_size h l S Hl Hm), <- size_dom. apply Nat2Z.inj_le, subseteq_size.
  intros q Hq. apply elem_of_dom. by apply (ho_memory m h S Hh).
Qed.

Lemma push_holds m h S p :
  holds m h S -> Z.of_nat (size m) + 1 < 2 ^ 64 -> is_Some (m !! p) ->
  exists h', insert this compare p h = Some (bool_decide (p ∉ S), h') /\ holds m h' ({[p]} ∪ S).
Proof.
  intros Hh Hz Hp. destruct (ho_tree m h S Hh) as (l & Hl & Hk & Hm). destruct (decide (p ∈ S)) as [Hin|Hout].
  - assert (exists i, l !! i = Some p) as [i Hi] by by apply list_elem_of_lookup, Hm.
    exists h. unfold insert. rewrite (lk_node this h l Hl i p Hi). cbn. rewrite bool_decide_false by auto. split; [done|]. by replace ({[p]} ∪ S) with S by set_solver.
  - destruct (ho_free m h S Hh p Hout Hp) as (n & Hn & Hfree). rewrite bool_decide_true by done.
    pose proof (holds_size m h l S Hh Hl Hm).
    destruct (insert_ok h l p n Hl Hk Hn Hfree) as (h' & l' & E & Hl' & Hp' & Hk' & Ho); [lia|]. exists h'. split; [done|]. split.
    + exists l'. split; [done|]. split; [done|]. intros q. rewrite Hp', elem_of_cons, Hm. set_solver.
    + intros q Hq Hqm. rewrite Ho; [apply (ho_free m h S Hh); [set_solver|done]|rewrite Hm; set_solver|set_solver].
    + intros q [->%elem_of_singleton|Hq]%elem_of_union; [done|by apply (ho_memory m h S Hh)].
Qed.

Lemma erase_holds m h S p :
  holds m h S -> Z.of_nat (size m) + 1 < 2 ^ 64 -> is_Some (m !! p) ->
  exists h', remove this compare p h = Some (bool_decide (p ∈ S), h') /\ holds m h' (S ∖ {[p]}).
Proof.
  intros Hh Hz Hp. destruct (ho_tree m h S Hh) as (l & Hl & Hk & Hm). destruct (decide (p ∈ S)) as [Hin|Hout].
  - rewrite bool_decide_true by done. pose proof (holds_size m h l S Hh Hl Hm).
    destruct (heap_remove_ok h l p Hl Hk) as (h' & l' & E & Hl' & Hp' & Hk' & Hfree & Ho); [by apply Hm|lia|]. exists h'. split; [done|].
    pose proof (lk_nodup this h l Hl) as Hnd. rewrite Hp' in Hnd. apply list.NoDup_cons in Hnd as [Hpl _]. split.
    + exists l'. split; [done|]. split; [done|]. intros q. specialize (Hm q). rewrite Hp', elem_of_cons in Hm.
      rewrite elem_of_difference, elem_of_singleton, <- Hm. split; [|tauto]. intros Hq. split; [by right|]. by intros ->.
    + intros q Hq Hqm. destruct (decide (q = p)) as [->|]; [done|]. rewrite Ho; [apply (ho_free m h S Hh); [set_solver|done]|rewrite Hm; set_solver].
    + intros q [Hq _]%elem_of_difference. by apply (ho_memory m h S Hh).
  - destruct (ho_free m h S Hh p Hout Hp) as (n & Hn & Hfree). exists h. unfold remove. rewrite Hn. cbn. rewrite decide_True by congruence.
    rewrite bool_decide_false by done. split; [done|]. by replace (S ∖ {[p]}) with S by set_solver.
Qed.

(** The root is a least node; there is none in an empty heap only. *)
Lemma min_least m h S : holds m h S -> match min_ h with None => S = ∅ | Some p => least S p end.
Proof.
  intros Hh. destruct (ho_tree m h S Hh) as (l & Hl & Hk & Hm). rewrite (lk_min this h l Hl). destruct (l !! 0%nat) as [p|] eqn:E.
  - split; [apply Hm; by eapply list_elem_of_lookup_2|]. intros q [i Hi]%Hm%list_elem_of_lookup.
    rewrite <- (kth_key key l 0 p E), <- (kth_key key l i q Hi). apply heap_root; [done|]. rewrite length_node_keys. by eapply lookup_lt_Some.
  - apply lookup_ge_None in E. destruct l; [|cbn in E; lia]. apply set_eq. intros q. rewrite <- Hm. split; [by intros ?%elem_of_nil|by intros ?%elem_of_empty].
Qed.

Definition op_node (o : heap_op) : option nat := match o with Push p | Erase p => Some p | Pop => None end.

Lemma heap_step_ok m h S o :
  holds m h S -> Z.of_nat (size m) + 1 < 2 ^ 64 -> (forall p, op_node o = Some p -> is_Some (m !! p)) -> o <> Pop \/ S <> ∅ ->
  exists b h' S', heap_step this compare o h = Some (b, h') /\ spec_step o S b S' /\ holds m h' S'.
Proof.
  intros Hh Hz Hp Hpop. destruct o as [p|p|]; cbn [heap_step].
  - destruct (push_holds m h S p Hh Hz) as (h' & E & Hh'); [by apply Hp|]. eexists _, h', _. split; [done|]. split; [constructor|done].
  - destruct (erase_holds m h S p Hh Hz) as (h' & E & Hh'); [by apply Hp|]. eexists _, h', _. split; [done|]. split; [constructor|done].
  - pose proof (min_least m h S Hh) as Hmin. unfold pop. destruct (min_ h) as [p|]; [|by destruct Hpop]. cbn [mbind option_bind].
    destruct Hmin as [Hin Hle]. destruct (erase_holds m h S p Hh Hz (ho_memory m h S Hh p Hin)) as (h' & E & Hh').
    rewrite bool_decide_true in E by done. exists true, h', (S ∖ {[p]}). split; [done|]. split; [by constructor|done].
Qed.

(** A run ends by the null pointer only when [pop] meets an empty heap. *)
Definition run_ok (m : gmap nat heap_node) (ops : list heap_op) (h : heap_raw) (S : gset nat) : Prop :=
  match heap_run this compare ops h with
  | Some (bs, h') => exists S', spec_run ops S bs S' /\ holds m h' S'
  | None => exists ops1 ops2 bs h', ops = ops1 ++ Pop :: ops2 /\ heap_run this compare ops1 h = Some (bs, h') /\ spec_run ops1 S bs ∅
  end.

Lemma heap_run_ok m ops : forall h S,
  holds m h S -> Z.of_nat (size m) + 1 < 2 ^ 64 -> Forall (fun o => forall p, op_node o = Some p -> is_Some (m !! p)) ops -> run_ok m ops h S.
Proof.
  induction ops as [|o ops IH]; intros h S Hh Hz Hall; unfold run_ok; cbn [heap_run].
  { exists S. split; [constructor|done]. }
  apply list.Forall_cons in Hall as [Ho Hall]. destruct (decide (o = Pop /\ S = ∅)) as [[-> ->]|Hn].
  { pose proof (min_least m h ∅ Hh) as Hmin. cbn [heap_step]. unfold pop. destruct (min_ h) as [p|]; [by destruct Hmin as [?%elem_of_empty _]|].
    cbn [mbind option_bind]. exists [], ops, [], h. split; [done|]. split; [done|constructor]. }
  destruct (heap_step_ok m h S o Hh Hz Ho) as (b & h1 & S1 & E & Hs & Hh1).
  { destruct (decide (S = ∅)); [left; intros ->; auto|by right]. }
  rewrite E. cbn [mbind option_bind]. specialize (IH h1 S1 Hh1 Hz Hall). unfold run_ok in IH.
  destruct (heap_run this compare ops h1) as [[bs h']|]; cbn [mbind option_bind].
  - destruct IH as (S' & Hr & Hh'). exists S'. split; [by econstructor|done].
  - destruct IH as (ops1 & ops2 & bs & h' & -> & E' & Hr). exists (o :: ops1), ops2, (b :: bs), h'. split; [done|]. cbn [heap_run].
    rewrite E. cbn [mbind option_bind]. rewrite E'. split; [done|by econstructor].
Qed.

(** * Properties *)

(** C22: the heap of linked nodes is a set of nodes that gives its least one: for any
    sequence of calls with nodes that exist, each call answers what the set
    answers, what [pop] takes is least, and at the end the root is a least node
    and the size that of the set, however the links were rearranged. The only
    way to leave it is [pop] on an empty heap, which follows a null pointer. *)
Theorem linked_heap_refines m ops
  (Hfree : forall p n, m !! p = Some n -> heap n = None) (Hsize : Z.of_nat (size m) + 1 < 2 ^ 64)
  (Hnodes : Forall (fun o => forall p, op_node o = Some p -> is_Some (m !! p)) ops) :
  match heap_run this compare ops (heap_new m) with
  | Some (bs, h) => exists S, spec_run ops ∅ bs S /\ size_ h = Z.of_nat (size S) /\ match min_ h with None => S = ∅ | Some p => least S p end
  | None => exists ops1 ops2 bs h, ops = ops1 ++ Pop :: ops2 /\ heap_run this compare ops1 (heap_new m) = Some (bs, h) /\ spec_run ops1 ∅ bs ∅
  end.
Proof.
  assert (holds m (heap_new m) ∅) as Hh.
  { split; [|intros p _ [n Hn]; exists n; by eauto|by intros p ?%elem_of_empty]. exists []. split; [|split; [intros i Hi; cbn in Hi; lia|]].
    - split; [done|done|constructor|done|]. intros p n Hn _. rewrite (Hfree p n Hn). done.
    - intros q. split; [by intros ?%elem_of_nil|by intros ?%elem_of_empty]. }
  pose proof (heap_run_ok m ops (heap_new m) ∅ Hh Hsize Hnodes) as Hr. unfold run_ok in Hr.
  destruct (heap_run this compare ops (heap_new m)) as [[bs h]|]; [|exact Hr]. destruct Hr as (S & Hr & Hh').
  exists S. split; [done|]. split; [|by apply (min_least m)].
  destruct (ho_tree m h S Hh') as (l & Hl & _ & Hm). rewrite (lk_size this h l Hl). unfold zlen. by rewrite (linked_size h l S Hl Hm).
Qed.
End operations.

(** * Witnesses *)

Definition demo_memory : gmap nat heap_node := list_to_map ((fun p => (p, HeapNode None None None None)) <$> seq 1 6).

Definition demo_compare (p q : nat) : bool := Z.of_nat p <? Z.of_nat q.

Definition demo_heap_ops : list heap_op := [Push 5; Push 3; Push 6; Push 1; Push 3; Push 4; Erase 3; Erase 2; Pop; Pop].

Lemma linked_heap_refines_witness :
  exists bs h, heap_run 0 demo_compare demo_heap_ops (heap_new demo_memory) = Some (bs, h) /\ min_ h = Some 5%nat /\
    exists S, spec_run Z.of_nat demo_heap_ops ∅ bs S /\ size_ h = Z.of_nat (size S) /\ match min_ h with None => S = ∅ | Some p => least Z.of_nat S p end.
Proof.
  assert (forall p n, demo_memory !! p = Some n -> heap n = None) as Hfree.
  { intros p n Hn. apply elem_of_list_to_map_2, list_elem_of_fmap in Hn as (q & [= _ ->] & _). done. }
  assert (Forall (fun o => forall p, op_node o = Some p -> is_Some (demo_memory !! p)) demo_heap_ops) as Hnodes.
  { repeat constructor; cbn; intros p [= <-]; eexists; vm_compute; reflexivity. }
  pose proof (linked_heap_refines 0 demo_compare Z.of_nat (fun p q => eq_refl) demo_memory demo_heap_ops Hfree eq_refl Hnodes) as H.
  destruct (heap_run 0 demo_compare demo_heap_ops (heap_new demo_memory)) as [[bs h]|] eqn:E; [|by vm_compute in E].
  exists bs, h. split; [done|]. split; [|exact H]. vm_compute in E. by injection E as <- <-.
Defined.

Example pop_empty_follows_null : heap_run 0 demo_compare [Push 1; Pop; Pop] (heap_new demo_memory) = None.
Proof. vm_compute. reflexivity. Qed.
