(* ===== verification/TimerQueue.v ===== *)
(** The timer queue [timer_queue]
    (src/runtime/src/containers/time_queue.cpp): a binary min-heap of pointers
    to nodes that remember their own position. The nodes are shared with the
    caller, so the model keeps the memory they live in next to the heap.
    [None] is an index out of range or a pointer to no node. *)

From Stdlib Require Import Sorted.
From stdpp Require Import gmap.
From S2P Require Import Prelude BinaryHeap.

(** * Data *)

(** [index] is [size_t]; its maximum marks a node that is not queued. *)
Record node := Node { index : Z; point : Z }.

Definition no_index : Z := 2 ^ 64 - 1.

Record timer_queue := TimerQueue { heap_ : list Z; nodes : gmap Z node }.

Definition set_index (m : gmap Z node) (p : Z) (i : Z) : option (gmap Z node) :=
  n ← m !! p; Some (<[p := Node i (point n)]> m).

(** [heap_[i]->point]. *)
Definition point_at (q : timer_queue) (i : nat) : option Z :=
  p ← heap_ q !! i; n ← nodes q !! p; Some (point n).

(** * Operations *)

Definition swap_heap (q : timer_queue) (index1 index2 : nat) : option timer_queue :=
  t1 ← heap_ q !! index1;
  t2 ← heap_ q !! index2;
  let h := <[index2 := t1]> (<[index1 := t2]> (heap_ q)) in
  m ← set_index (nodes q) t2 (Z.of_nat index1);
  m ← set_index m t1 (Z.of_nat index2);
  Some (TimerQueue h m).

(** The index halves at every turn, so it is enough fuel itself. *)
Fixpoint up_heap_loop (fuel : nat) (q : timer_queue) (index : nat) : option timer_queue :=
  match fuel with
  | O => Some q
  | S fuel =>
      if (0 <? index)%nat then
        let parent := ((index - 1) / 2)%nat in
        a ← point_at q index;
        b ← point_at q parent;
        if b <=? a then Some q
        else
          q ← swap_heap q index parent;
          up_heap_loop fuel q parent
      else Some q
  end.

Definition up_heap (q : timer_queue) (index : nat) : option timer_queue :=
  up_heap_loop (S index) q index.

(** The index grows at every turn and stays below the size. *)
Fixpoint down_heap_loop (fuel : nat) (q : timer_queue) (index : nat) : option timer_queue :=
  match fuel with
  | O => Some q
  | S fuel =>
      let child := (index * 2 + 1)%nat in
      if (child <? length (heap_ q))%nat then
        min_child ←
          (if (child + 1 =? length (heap_ q))%nat then Some child
           else
             a ← point_at q child;
             b ← point_at q (child + 1);
             Some (if a <? b then child else (child + 1)%nat));
        a ← point_at q index;
        b ← point_at q min_child;
        if a <? b then Some q
        else
          q ← swap_heap q index min_child;
          down_heap_loop fuel q min_child
      else Some q
  end.

Definition down_heap (q : timer_queue) (index : nat) : option timer_queue :=
  down_heap_loop (S (length (heap_ q))) q index.

Definition pop_back (q : timer_queue) : timer_queue :=
  TimerQueue (removelast (heap_ q)) (nodes q).

Definition remove (q : timer_queue) (p : Z) : option (bool * timer_queue) :=
  n ← nodes q !! p;
  let idx := index n in
  if negb (length (heap_ q) =? 0)%nat && (idx <? zlen (heap_ q)) then
    let idx := Z.to_nat idx in
    let last := (length (heap_ q) - 1)%nat in
    if (idx =? last)%nat then
      m ← set_index (nodes q) p no_index;
      Some (true, pop_back (TimerQueue (heap_ q) m))
    else
      q ← swap_heap q idx last;
      m ← set_index (nodes q) p no_index;
      let q := pop_back (TimerQueue (heap_ q) m) in
      up ←
        (if (0 <? idx)%nat then
           a ← point_at q idx;
           b ← point_at q ((idx - 1) / 2);
           Some (a <? b)
         else Some false);
      q ← (if (up : bool) then up_heap q idx else down_heap q idx);
      Some (true, q)
  else Some (false, q).

(** A point before the epoch is moved to it. *)
Definition enqueue (q : timer_queue) (p : Z) : option timer_queue :=
  let size := length (heap_ q) in
  n ← nodes q !! p;
  if index n <? Z.of_nat size then Some q
  else
    let pt := if point n <? 0 then 0 else point n in
    up_heap (TimerQueue (heap_ q ++ [p]) (<[p := Node (Z.of_nat size) pt]> (nodes q))) size.

(** [duration::max()] of the 64-bit system clock. *)
Definition duration_max : Z := 2 ^ 63 - 1.

Definition wait_duration (q : timer_queue) (now : Z) : option Z :=
  match heap_ q with
  | [] => Some duration_max
  | _ => pt ← point_at q 0; Some (pt - now)
  end.

(** Each turn removes a node, so the size is enough fuel. *)
Fixpoint ready_loop (fuel : nat) (q : timer_queue) (now : Z) : option (list Z * timer_queue) :=
  match fuel with
  | O => Some ([], q)
  | S fuel =>
      match heap_ q with
      | [] => Some ([], q)
      | p :: _ =>
          pt ← point_at q 0;
          if pt <=? now then
            '(_, q) ← remove q p;
            '(ps, q) ← ready_loop fuel q now;
            Some (p :: ps, q)
          else Some ([], q)
      end
  end.

Definition get_ready_timers (q : timer_queue) (now : Z) : option (list Z * timer_queue) :=
  ready_loop (S (length (heap_ q))) q now.

(** The vector is moved out; the nodes keep their indices. *)
Definition get_all_timers (q : timer_queue) : list Z * timer_queue :=
  (heap_ q, TimerQueue [] (nodes q)).

(** * Invariant *)

Definition key (m : gmap Z node) (p : Z) : Z := from_option point 0 (m !! p).

Definition keys (q : timer_queue) : list Z := key (nodes q) <$> heap_ q.

(** Every queued node knows its position. *)
Definition placed (q : timer_queue) : Prop :=
  forall i p, heap_ q !! i = Some p -> exists n, nodes q !! p = Some n /\ index n = Z.of_nat i.

Record queue_wf (q : timer_queue) : Prop := QueueWf {
  qw_placed : placed q;
  qw_heap : heap_ok (keys q);
  qw_free : forall p n, nodes q !! p = Some n -> p ∉ heap_ q -> index n = no_index;
  qw_size : zlen (heap_ q) < no_index }.

(** What the reorderings leave alone: the queued nodes as a set, every
    point, and the nodes outside. *)
Record reordered (q q' : timer_queue) : Prop := Reordered {
  ro_perm : heap_ q' ≡ₚ heap_ q;
  ro_dom : forall p, is_Some (nodes q' !! p) <-> is_Some (nodes q !! p);
  ro_key : forall p, key (nodes q') p = key (nodes q) p;
  ro_out : forall p, p ∉ heap_ q -> nodes q' !! p = nodes q !! p }.

Lemma reordered_refl q : reordered q q.
Proof. by split. Qed.

Lemma reordered_trans q1 q2 q3 : reordered q1 q2 -> reordered q2 q3 -> reordered q1 q3.
Proof.
  intros [P1 D1 K1 O1] [P2 D2 K2 O2]. split.
  - by rewrite P2.
  - intros p. by rewrite D2.
  - intros p. by rewrite K2.
  - intros p Hp. rewrite O2, O1; [done..|]. by rewrite P1.
Qed.

Lemma placed_node q i p : placed q -> heap_ q !! i = Some p ->
  nodes q !! p = Some (Node (Z.of_nat i) (key (nodes q) p)).
Proof.
  intros Hq Hi. destruct (Hq i p Hi) as ([idx pt] & Hn & Hidx). cbn in Hidx. subst.
  unfold key. by rewrite Hn.
Qed.

Lemma placed_nodup q : placed q -> NoDup (heap_ q).
Proof.
  intros Hq. apply NoDup_alt. intros i j p Hi Hj.
  destruct (Hq _ _ Hi) as (n & Hn & E1), (Hq _ _ Hj) as (n' & Hn' & E2).
  assert (n = n') as -> by congruence. lia.
Qed.

Lemma length_keys q : length (keys q) = length (heap_ q).
Proof. apply length_fmap. Qed.

Lemma kth_keys q i p : heap_ q !! i = Some p -> kth (keys q) i = key (nodes q) p.
Proof. intros Hi. unfold kth, keys. rewrite nth_lookup, list_lookup_fmap, Hi. done. Qed.

Lemma point_at_ok q i : placed q -> (i < length (heap_ q))%nat -> point_at q i = Some (kth (keys q) i).
Proof.
  intros Hq Hi. destruct (lookup_lt_is_Some_2 _ _ Hi) as [p Hp].
  unfold point_at. rewrite Hp. cbn. rewrite (placed_node q i p) by done. cbn.
  by rewrite (kth_keys q i p).
Qed.

Lemma swap_ok q i j :
  placed q -> (i < length (heap_ q))%nat -> (j < length (heap_ q))%nat -> i <> j ->
  exists q', swap_heap q i j = Some q' /\ placed q' /\ reordered q q' /\
    swapped (keys q) (keys q') i j /\ heap_ q' !! i = heap_ q !! j /\ heap_ q' !! j = heap_ q !! i.
Proof.
  intros Hq Hi Hj Hij.
  destruct (lookup_lt_is_Some_2 _ _ Hi) as [t1 H1]. destruct (lookup_lt_is_Some_2 _ _ Hj) as [t2 H2].
  pose proof (placed_nodup q Hq) as Hnd.
  assert (t1 <> t2) as Hne by (intros ->; apply Hij; by eapply NoDup_lookup).
  pose proof (placed_node q i t1 Hq H1) as N1. pose proof (placed_node q j t2 Hq H2) as N2.
  unfold swap_heap, set_index. rewrite H1. cbn. rewrite H2. cbn. rewrite N2. cbn.
  rewrite lookup_insert_ne by done. rewrite N1. cbn.
  set (h := <[j := t1]> (<[i := t2]> (heap_ q))).
  set (m := <[t1 := _]> (<[t2 := _]> (nodes q))).
  assert (forall x, h !! x = if decide (x = i) then Some t2 else if decide (x = j) then Some t1
                             else heap_ q !! x) as Hh.
  { intros x. unfold h. destruct (decide (x = i)) as [->|].
    - rewrite list_lookup_insert_ne by done. by apply list_lookup_insert_eq.
    - destruct (decide (x = j)) as [->|].
      + apply list_lookup_insert_eq. by rewrite length_insert.
      + by rewrite !list_lookup_insert_ne by done. }
  assert (forall p, key m p = key (nodes q) p) as Hkey.
  { intros p. unfold key, m. destruct (decide (p = t1)) as [->|Hp1].
    - rewrite lookup_insert_eq, N1. done.
    - rewrite lookup_insert_ne by done. destruct (decide (p = t2)) as [->|Hp2].
      + rewrite lookup_insert_eq, N2. done.
      + by rewrite lookup_insert_ne. }
  exists (TimerQueue h m). split; [done|]. cbn [heap_ nodes]. split_and!.
  - intros x p Hx. cbn in *. rewrite Hh in Hx.
    destruct (decide (x = i)) as [->|]; [|destruct (decide (x = j)) as [->|]].
    + injection Hx as <-. exists (Node (Z.of_nat i) (key (nodes q) t2)). split; [|done].
      unfold m. rewrite lookup_insert_ne by done. apply lookup_insert_eq.
    + injection Hx as <-. exists (Node (Z.of_nat j) (key (nodes q) t1)). split; [|done].
      apply lookup_insert_eq.
    + assert (p <> t1) by (intros ->; apply n; by eapply NoDup_lookup).
      assert (p <> t2) by (intros ->; apply n0; by eapply NoDup_lookup).
      unfold m. rewrite !lookup_insert_ne by done. by apply Hq.
  - split; cbn.
    + by apply Permutation_insert_swap.
    + intros p. unfold m. destruct (decide (p = t1)) as [->|]; [rewrite lookup_insert_eq, N1; by split|].
      rewrite lookup_insert_ne by done. destruct (decide (p = t2)) as [->|]; [rewrite lookup_insert_eq, N2; by split|].
      by rewrite lookup_insert_ne.
    + done.
    + intros p Hp. unfold m.
      rewrite !lookup_insert_ne; [done|..]; intros ->; apply Hp; by eapply list_elem_of_lookup_2.
  - split; [unfold keys; cbn; rewrite !length_fmap; unfold h; by rewrite !length_insert|].
    intros x Hx. rewrite length_keys in Hx. unfold kth, keys. cbn [heap_ nodes].
    rewrite !nth_lookup, !list_lookup_fmap, Hh, H1, H2. cbn.
    destruct (decide (x = i)); cbn; [by rewrite Hkey|].
    destruct (decide (x = j)); cbn; [by rewrite Hkey|].
    destruct (heap_ q !! x); cbn; [by rewrite Hkey|done].
  - rewrite Hh, decide_True by done. done.
  - rewrite Hh, decide_False, decide_True by done. done.
Qed.

(** * Sifting *)

Lemma up_heap_loop_ok fuel q i :
  placed q -> (i < length (heap_ q))%nat -> (i < fuel)%nat -> up_ok (keys q) i ->
  exists q', up_heap_loop fuel q i = Some q' /\ placed q' /\ reordered q q' /\ heap_ok (keys q').
Proof.
  revert q i. induction fuel as [|fuel IH]; intros q i Hq Hi Hf Hup; [lia|]. cbn [up_heap_loop].
  destruct (Nat.ltb_spec 0 i) as [H0|H0].
  - pose proof (parent_lt i H0). rewrite !point_at_ok by (done || lia). cbn [mbind option_bind].
    destruct (Z.leb_spec (kth (keys q) ((i - 1) / 2)) (kth (keys q) i)).
    + exists q. split_and!; [done|done|apply reordered_refl|]. eapply up_done; eauto.
    + destruct (swap_ok q i ((i - 1) / 2)) as (q1 & -> & Hq1 & Hr1 & Hs & _ & _); [done|lia|lia|lia|].
      cbn [mbind option_bind].
      assert (length (heap_ q1) = length (heap_ q)) as Hl by (by rewrite (ro_perm _ _ Hr1)).
      destruct (IH q1 ((i - 1) / 2)%nat) as (q2 & -> & ? & ? & ?); [done|lia|lia| |].
      * eapply up_swap; [done|rewrite length_keys; lia|done|done].
      * exists q2. split_and!; try done. by eapply reordered_trans.
  - exists q. split_and!; [done|done|apply reordered_refl|]. eapply up_done; [done|left; lia].
Qed.

Lemma down_heap_loop_ok fuel q i :
  placed q -> (length (heap_ q) - i < fuel)%nat -> down_ok (keys q) i ->
  exists q', down_heap_loop fuel q i = Some q' /\ placed q' /\ reordered q q' /\ heap_ok (keys q').
Proof.
  revert q i. induction fuel as [|fuel IH]; intros q i Hq Hf Hd; [lia|]. cbn [down_heap_loop].
  destruct (Nat.ltb_spec (i * 2 + 1) (length (heap_ q))) as [Hc|Hc].
  - set (mc := if (_ =? _)%nat then _ else _).
    assert (exists m, mc = Some m /\ min_child_of (keys q) i m) as (m & -> & Hmin).
    { unfold mc, min_child_of. rewrite length_keys.
      destruct (Nat.eqb_spec (i * 2 + 1 + 1) (length (heap_ q))).
      - exists (i * 2 + 1)%nat. split_and!; [done|lia|lia|apply parent_left|].
        intros k Hk E. apply children in E as [->| ->]; [done|lia|lia].
      - rewrite !point_at_ok by (done || lia). cbn [mbind option_bind].
        replace (i * 2 + 1 + 1)%nat with (i * 2 + 2)%nat by lia.
        destruct (Z.ltb_spec (kth (keys q) (i * 2 + 1)) (kth (keys q) (i * 2 + 2)));
          eexists; (split; [reflexivity|]); (split_and!; [lia|lia|apply parent_left || apply parent_right|]);
          intros k Hk E; apply children in E as [->| ->]; lia. }
    cbn [mbind option_bind]. destruct Hmin as (Hm & Hpm & Hmin). rewrite length_keys in Hm.
    rewrite !point_at_ok by (done || lia). cbn [mbind option_bind].
    destruct (Z.ltb_spec (kth (keys q) i) (kth (keys q) m)).
    + exists q. split_and!; [done|done|apply reordered_refl|]. eapply down_done; [done|].
      intros k Hk E. specialize (Hmin k Hk E). lia.
    + destruct (swap_ok q i m) as (q1 & -> & Hq1 & Hr1 & Hs & _ & _); [done|lia|lia|lia|].
      cbn [mbind option_bind].
      assert (length (heap_ q1) = length (heap_ q)) as Hl by (by rewrite (ro_perm _ _ Hr1)).
      destruct (IH q1 m) as (q2 & -> & ? & ? & ?); [done|lia| |].
      * eapply down_swap; [done| |done|done]. split_and!; [lia|rewrite length_keys; lia|done|exact Hmin].
      * exists q2. split_and!; try done. by eapply reordered_trans.
  - exists q. split_and!; [done|done|apply reordered_refl|]. eapply down_done; [done|].
    intros k Hk E. rewrite length_keys in Hk. apply children in E as [->| ->]; lia.
Qed.

(** * Operations preserve the invariant *)

Lemma reordered_wf q q' :
  reordered q q' -> placed q' -> heap_ok (keys q') -> zlen (heap_ q) < no_index ->
  (forall p n, nodes q !! p = Some n -> p ∉ heap_ q -> index n = no_index) -> queue_wf q'.
Proof.
  intros [Hp Hd Hk Ho] Hpl Hh Hs Hf. split; try done.
  - intros p n Hn Hnin. rewrite Hp in Hnin. rewrite Ho in Hn by done. by eapply Hf.
  - unfold zlen in *. by rewrite Hp.
Qed.

Lemma up_heap_ok q i :
  placed q -> (i < length (heap_ q))%nat -> up_ok (keys q) i ->
  exists q', up_heap q i = Some q' /\ placed q' /\ reordered q q' /\ heap_ok (keys q').
Proof. intros. apply up_heap_loop_ok; done || lia. Qed.

Lemma down_heap_ok q i :
  placed q -> down_ok (keys q) i ->
  exists q', down_heap q i = Some q' /\ placed q' /\ reordered q q' /\ heap_ok (keys q').
Proof. intros. apply down_heap_loop_ok; done || lia. Qed.

(** Whether a node is queued shows in its index. *)
Lemma queued_iff q p n :
  queue_wf q -> nodes q !! p = Some n -> (index n <? zlen (heap_ q)) = bool_decide (p ∈ heap_ q).
Proof.
  intros [Hpl _ Hf Hs] Hn. destruct (bool_decide_reflect (p ∈ heap_ q)) as [Hin|Hnin].
  - apply list_elem_of_lookup in Hin as [i Hi]. destruct (Hpl i p Hi) as (n' & Hn' & Hix).
    assert (n' = n) as -> by congruence. apply lookup_lt_Some in Hi. unfold zlen. lia.
  - rewrite (Hf p n Hn Hnin). lia.
Qed.

Lemma keys_ext (m m' : gmap Z node) (h : list Z) : (forall p, p ∈ h -> key m' p = key m p) -> key m' <$> h = key m <$> h.
Proof. intros H. apply list_fmap_ext. intros i p Hp. apply H. by eapply list_elem_of_lookup_2. Qed.

Lemma key_insert m p n x : key (<[p := n]> m) x = if decide (x = p) then point n else key m x.
Proof.
  unfold key. destruct (decide (x = p)) as [->|]; [by rewrite lookup_insert_eq|by rewrite lookup_insert_ne].
Qed.

Lemma enqueue_ok q p n :
  queue_wf q -> nodes q !! p = Some n -> p ∉ heap_ q -> zlen (heap_ q) + 1 < no_index ->
  exists q', enqueue q p = Some q' /\ queue_wf q' /\ heap_ q' ≡ₚ p :: heap_ q /\
    key (nodes q') p = Z.max 0 (point n) /\ (forall x, x <> p -> key (nodes q') x = key (nodes q) x) /\
    forall x, is_Some (nodes q' !! x) <-> is_Some (nodes q !! x).
Proof.
  intros Hwf Hn Hp Hs. unfold enqueue. rewrite Hn. cbn [mbind option_bind].
  pose proof (queued_iff q p n Hwf Hn) as Hq. rewrite bool_decide_eq_false_2 in Hq by done.
  unfold zlen in Hq. rewrite Hq. destruct Hwf as [Hpl Hh Hf _].
  replace (if point n <? 0 then 0 else point n) with (Z.max 0 (point n))
    by (destruct (Z.ltb_spec (point n) 0); lia).
  set (q1 := TimerQueue _ _).
  assert (keys q1 = keys q ++ [Z.max 0 (point n)]) as Hk.
  { unfold keys, q1. cbn. rewrite fmap_app. cbn. rewrite key_insert, decide_True by done. f_equal.
    apply keys_ext. intros x Hx. rewrite key_insert, decide_False; [done|]. by intros ->. }
  assert (placed q1) as Hpl1.
  { intros i x [Hi|[Hge Hi]]%lookup_app_Some; cbn.
    - rewrite lookup_insert_ne; [by apply Hpl|]. intros ->. apply Hp. by eapply list_elem_of_lookup_2.
    - apply list_lookup_singleton_Some in Hi as [Hi <-].
      eexists. split; [apply lookup_insert_eq|]. cbn. lia. }
  destruct (up_heap_ok q1 (length (heap_ q))) as (q' & -> & Hpl' & Hr & Hh'); [done|cbn; rewrite length_app; cbn; lia| |].
  { rewrite Hk. split; rewrite length_app, length_keys; cbn [length]; intros k Hl.
    - intros Hne. pose proof (parent_lt k ltac:(lia)).
      rewrite !kth_app_l by (rewrite length_keys; lia). apply Hh. rewrite length_keys. lia.
    - intros _ E. pose proof (parent_lt k ltac:(lia)). lia. }
  exists q'. split; [done|]. split_and!.
  - eapply reordered_wf; [done|done|done|cbn; unfold zlen in *; rewrite length_app; cbn; lia|].
    intros x nx Hx Hnin. cbn in *. rewrite elem_of_app, list_elem_of_singleton in Hnin.
    rewrite lookup_insert_ne in Hx by (intros ->; apply Hnin; by right).
    apply (Hf x); [done|]. intros ?. apply Hnin. by left.
  - rewrite (ro_perm _ _ Hr). cbn. by rewrite Permutation_app_comm.
  - rewrite (ro_key _ _ Hr). cbn. by rewrite key_insert, decide_True.
  - intros x Hx. rewrite (ro_key _ _ Hr). cbn. by rewrite key_insert, decide_False.
  - intros x. rewrite (ro_dom _ _ Hr). cbn. rewrite lookup_insert_is_Some'. split; [|by right]. intros [<-|?]; [by eexists|done].
Qed.

Lemma keys_pop q h p : heap_ q = h ++ [p] -> keys q = (key (nodes q) <$> h) ++ [key (nodes q) p].
Proof. intros E. unfold keys. by rewrite E, fmap_app. Qed.

(** Dropping the last element, whose index has been reset. *)
Lemma pop_ok q h p :
  placed q -> heap_ q = h ++ [p] ->
  exists m, set_index (nodes q) p no_index = Some m /\
    let q' := pop_back (TimerQueue (heap_ q) m) in
    placed q' /\ heap_ q' = h /\ keys q' = key (nodes q) <$> h /\
    (forall x, key (nodes q') x = key (nodes q) x) /\
    (forall x, is_Some (nodes q' !! x) <-> is_Some (nodes q !! x)) /\
    (exists n, nodes q' !! p = Some n /\ index n = no_index) /\
    (forall x, x <> p -> nodes q' !! x = nodes q !! x).
Proof.
  intros Hpl E. assert (heap_ q !! length h = Some p) as Hlast
    by (by rewrite E, lookup_app_r, Nat.sub_diag).
  pose proof (placed_nodup q Hpl) as Hnd. rewrite E in Hnd. apply list.NoDup_app in Hnd as (_ & Hnin & _).
  pose proof (placed_node q _ p Hpl Hlast) as Hn. unfold set_index. rewrite Hn. cbn [mbind option_bind].
  eexists. split; [reflexivity|]. cbn [point]. unfold pop_back. cbn [heap_ nodes].
  assert (removelast (heap_ q) = h) as Hrl by (rewrite E; apply removelast_last).
  assert (forall x, key (<[p := Node no_index (key (nodes q) p)]> (nodes q)) x = key (nodes q) x) as Hk.
  { intros x. rewrite key_insert. by destruct (decide (x = p)) as [->|]. }
  rewrite Hrl. split_and!.
  - intros i x Hi. cbn in *. assert (x <> p) by (intros ->; apply (Hnin p); [by eapply list_elem_of_lookup_2|by left]).
    rewrite lookup_insert_ne by done. apply Hpl. rewrite E, lookup_app_l; [done|]. by eapply lookup_lt_Some.
  - done.
  - unfold keys. cbn. apply keys_ext. intros x _. apply Hk.
  - done.
  - intros x. destruct (decide (x = p)) as [->|]; [rewrite lookup_insert_eq, Hn; by split|by rewrite lookup_insert_ne].
  - eexists. split; [apply lookup_insert_eq|done].
  - intros x Hx. by apply lookup_insert_ne.
Qed.

(** What [remove] leaves of the nodes. *)
Record removed (p : Z) (q q' : timer_queue) : Prop := Removed {
  rv_wf : queue_wf q';
  rv_perm : heap_ q ≡ₚ p :: heap_ q';
  rv_key : forall x, key (nodes q') x = key (nodes q) x;
  rv_dom : forall x, is_Some (nodes q' !! x) <-> is_Some (nodes q !! x) }.

Lemma remove_ok q p :
  queue_wf q -> p ∈ heap_ q -> exists q', remove q p = Some (true, q') /\ removed p q q'.
Proof.
  intros Hwf Hin. pose proof Hwf as [Hpl Hh Hf Hs].
  pose proof Hin as [i Hi]%list_elem_of_lookup. pose proof (lookup_lt_Some _ _ _ Hi) as Hil.
  pose proof (placed_node q i p Hpl Hi) as Hn. unfold remove. rewrite Hn. cbn [mbind option_bind index].
  rewrite (proj2 (Nat.eqb_neq _ 0)), (proj2 (Z.ltb_lt _ (zlen _))) by (unfold zlen; lia).
  cbn [negb andb]. rewrite Nat2Z.id. set (last := (length (heap_ q) - 1)%nat).
  assert (forall x n', x <> p -> nodes q !! x = Some n' -> x ∉ heap_ q -> index n' = no_index) as Hfree
    by (intros x n' _; apply Hf).
  destruct (Nat.eqb_spec i last) as [->|Hne].
  - destruct (snoc_lookup (heap_ q) last p) as (h & E & Hhl); [unfold last; lia|done|].
    destruct (pop_ok q h p Hpl E) as (m & -> & Hpl' & Hh' & Hk' & Hkk & Hd & (n' & Hn' & Hix) & Hout).
    cbn [mbind option_bind]. eexists. split; [reflexivity|]. split; [split| | |]; try done.
    + rewrite Hk'. intros k Hk. rewrite length_fmap in Hk. pose proof (parent_lt k ltac:(lia)).
      specialize (Hh k). rewrite (keys_pop q h p E), length_app, length_fmap in Hh.
      rewrite !kth_app_l in Hh by (rewrite length_fmap; lia). apply Hh. lia.
    + intros x nx Hx Hnin. destruct (decide (x = p)) as [->|]; [congruence|].
      rewrite Hout in Hx by done. eapply Hf; [done|]. rewrite Hh' in Hnin. rewrite E, elem_of_app, list_elem_of_singleton.
      by intros [?|?].
    + rewrite Hh'. unfold zlen in *. lia.
    + rewrite Hh', E. by rewrite Permutation_app_comm.
  - destruct (swap_ok q i last) as (q1 & -> & Hpl1 & Hr1 & [Hsl Hsw] & _ & Hlast); [done|lia|lia|done|].
    cbn [mbind option_bind].
    assert (length (heap_ q1) = length (heap_ q)) as Hl1 by (by rewrite (ro_perm _ _ Hr1)).
    rewrite Hi in Hlast.
    destruct (snoc_lookup (heap_ q1) last p) as (h & E & Hhl); [lia|done|].
    destruct (pop_ok q1 h p Hpl1 E) as (m & -> & Hpl' & Hh' & Hk' & Hkk & Hd & (n' & Hn' & Hix) & Hout).
    cbn [mbind option_bind]. set (q2 := pop_back (TimerQueue (heap_ q1) m)) in *.
    assert (length (heap_ q2) = last) as Hl2 by (by rewrite Hh').
    pose proof (replaced_keys (keys q) (keys q2) i last Hh) as Hrep.
    rewrite !length_keys in Hrep. specialize (Hrep ltac:(lia) ltac:(lia) Hl2).
    assert (forall x, (x < last)%nat -> kth (keys q2) x = kth (keys q1) x) as Hk21.
    { intros x Hx. rewrite Hk', (keys_pop q1 h p E). rewrite kth_app_l; [done|]. rewrite length_fmap. lia. }
    assert (forall q', placed q' -> reordered q2 q' -> heap_ok (keys q') -> removed p q q') as Hfin.
    { intros q' Hp' Hr' Hh''. split.
      - eapply reordered_wf; try done.
        + rewrite Hh'. unfold zlen in *. lia.
        + intros x nx Hx Hnin. destruct (decide (x = p)) as [->|]; [congruence|].
          rewrite Hout in Hx by done. rewrite Hh' in Hnin.
          assert (x ∉ heap_ q) as Hxq.
          { rewrite <- (ro_perm _ _ Hr1), E, elem_of_app, list_elem_of_singleton. by intros [?|?]. }
          rewrite (ro_out _ _ Hr1) in Hx by done. by eapply Hf.
      - rewrite (ro_perm _ _ Hr'), Hh', <- (ro_perm _ _ Hr1), E. by rewrite Permutation_app_comm.
      - intros x. by rewrite (ro_key _ _ Hr'), Hkk, (ro_key _ _ Hr1).
      - intros x. by rewrite (ro_dom _ _ Hr'), Hd, (ro_dom _ _ Hr1). }
    assert (forall x, (x < last)%nat ->
      kth (keys q2) x = (if decide (x = i) then kth (keys q) last else kth (keys q) x)) as Hk2.
    { intros x Hx. rewrite Hk21, Hsw by (rewrite ?length_keys; lia).
      rewrite (decide_False (P := x = last)) by lia. done. }
    specialize (Hrep Hk2). set (up := if (0 <? i)%nat then _ else _).
    assert (up = Some (bool_decide ((0 < i)%nat /\ kth (keys q2) i < kth (keys q2) ((i - 1) / 2)))) as ->.
    { unfold up. destruct (Nat.ltb_spec 0 i).
      - pose proof (parent_lt i ltac:(lia)). rewrite !point_at_ok by (done || lia). cbn [mbind option_bind].
        f_equal. destruct (Z.ltb_spec (kth (keys q2) i) (kth (keys q2) ((i - 1) / 2))).
        + by rewrite bool_decide_eq_true_2.
        + rewrite bool_decide_eq_false_2; [done|lia].
      - by rewrite bool_decide_eq_false_2 by lia. }
    cbn [mbind option_bind]. destruct (decide (_ /\ _)) as [Hup|Hdown] in Hrep.
    + rewrite bool_decide_eq_true_2 by done.
      destruct (up_heap_ok q2 i) as (q' & -> & ? & ? & ?); [done|lia|done|].
      cbn [mbind option_bind]. exists q'. split; [done|]. by apply Hfin.
    + rewrite bool_decide_eq_false_2 by done.
      destruct (down_heap_ok q2 i) as (q' & -> & ? & ? & ?); [done|done|].
      cbn [mbind option_bind]. exists q'. split; [done|]. by apply Hfin.
Qed.

Lemma remove_absent q p n :
  queue_wf q -> nodes q !! p = Some n -> p ∉ heap_ q -> remove q p = Some (false, q).
Proof.
  intros Hwf Hn Hp. unfold remove. rewrite Hn. cbn [mbind option_bind].
  rewrite (queued_iff q p n Hwf Hn), bool_decide_eq_false_2 by done. by rewrite andb_false_r.
Qed.

Lemma root_least q p x :
  queue_wf q -> heap_ q !! 0%nat = Some p -> x ∈ heap_ q -> key (nodes q) p <= key (nodes q) x.
Proof.
  intros Hwf Hp [i Hi]%list_elem_of_lookup.
  rewrite <- (kth_keys q 0 p), <- (kth_keys q i x) by done.
  apply heap_root; [apply Hwf|]. rewrite length_keys. by eapply lookup_lt_Some.
Qed.

Lemma ready_loop_ok fuel q now :
  queue_wf q -> (length (heap_ q) < fuel)%nat ->
  exists ps q', ready_loop fuel q now = Some (ps, q') /\ queue_wf q' /\
    heap_ q ≡ₚ ps ++ heap_ q' /\ (forall x, key (nodes q') x = key (nodes q) x) /\
    StronglySorted Z.le (key (nodes q) <$> ps) /\
    Forall (fun p => key (nodes q) p <= now) ps /\ Forall (fun p => now < key (nodes q) p) (heap_ q') /\
    forall x, is_Some (nodes q' !! x) <-> is_Some (nodes q !! x).
Proof.
  revert q. induction fuel as [|fuel IH]; intros q Hwf Hf; [lia|]. cbn [ready_loop].
  destruct (heap_ q) as [|p h] eqn:E.
  { exists [], q. rewrite E. split_and!; try done; constructor. }
  assert (heap_ q !! 0%nat = Some p) as Hp by (by rewrite E).
  rewrite point_at_ok, (kth_keys q 0 p) by (done || apply Hwf || (rewrite E; cbn; lia)).
  cbn [mbind option_bind]. destruct (Z.leb_spec (key (nodes q) p) now) as [Hle|Hgt].
  - destruct (remove_ok q p Hwf) as (q1 & -> & [Hwf1 Hp1 Hk1 Hd1]); [rewrite E; by left|].
    cbn [mbind option_bind]. rewrite E in Hp1. apply Permutation_cons_inv in Hp1.
    destruct (IH q1 Hwf1) as (ps & q2 & -> & Hwf2 & Hp2 & Hk2 & Hs & Hr & Hn & Hd2).
    { rewrite <- Hp1. cbn in Hf. lia. }
    cbn [mbind option_bind]. exists (p :: ps), q2.
    assert (forall l, key (nodes q1) <$> l = key (nodes q) <$> l) as Hkl
      by (intros l; apply keys_ext; done).
    split_and!; try done.
    + cbn. by rewrite Hp1, Hp2.
    + intros x. by rewrite Hk2, Hk1.
    + rewrite Hkl in Hs. cbn. constructor; [done|]. apply Forall_fmap, list.Forall_forall.
      intros x Hx. apply root_least; [done|done|]. rewrite E. right. rewrite Hp1, Hp2. apply elem_of_app. by left.
    + constructor; [done|]. eapply Forall_impl; [|exact Hr]. intros x. cbn. by rewrite Hk1.
    + eapply Forall_impl; [|exact Hn]. intros x. cbn. by rewrite Hk1.
    + intros x. by rewrite Hd2, Hd1.
  - exists [], q. rewrite E. split_and!; [done|done|done|done|apply SSorted_nil|constructor| |done].
    apply list.Forall_forall. intros x Hx. rewrite <- E in Hx.
    pose proof (root_least q p x Hwf Hp Hx). lia.
Qed.

(** * Properties *)

(** A queue of three timers, as a concrete state for the witnesses. *)
Definition sample_nodes : gmap Z node :=
  <[1 := Node no_index 30]> (<[2 := Node no_index 10]> (<[3 := Node no_index (-5)]> ∅)).

Definition sample_empty : timer_queue := TimerQueue [] sample_nodes.

Lemma sample_empty_wf : queue_wf sample_empty.
Proof.
  split; [by intros i p Hi|by intros i Hi; cbn in Hi; lia| |done].
  intros p n Hn _. unfold sample_empty, sample_nodes in Hn. cbn [nodes] in Hn.
  repeat (apply lookup_insert_Some in Hn as [[_ <-]|[_ Hn]]; [done|]). done.
Qed.

(** [enqueue] of a node that is not queued keeps the heap and the
    positions stored in the nodes consistent, adds exactly that node, with its
    point moved up to the epoch if it was before, and changes no other point. *)
Theorem enqueue_adds (q : timer_queue) (p : Z) (n : node) :
  queue_wf q -> nodes q !! p = Some n -> p ∉ heap_ q -> zlen (heap_ q) + 1 < no_index ->
  exists q', enqueue q p = Some q' /\ queue_wf q' /\ heap_ q' ≡ₚ p :: heap_ q /\
    key (nodes q') p = Z.max 0 (point n) /\ forall x, x <> p -> key (nodes q') x = key (nodes q) x.
Proof.
  intros H1 H2 H3 H4. destruct (enqueue_ok q p n H1 H2 H3 H4) as (q' & ? & ? & ? & ? & ? & _). by exists q'.
Qed.

Lemma enqueue_adds_witness :
  queue_wf sample_empty /\
  exists q', enqueue sample_empty 3 = Some q' /\ queue_wf q' /\ heap_ q' ≡ₚ [3] /\
    key (nodes q') 3 = 0 /\ forall x, x <> 3 -> key (nodes q') x = key sample_nodes x.
Proof.
  split; [exact sample_empty_wf|].
  apply (enqueue_adds sample_empty 3 (Node no_index (-5)) sample_empty_wf).
  - vm_compute. reflexivity.
  - apply not_elem_of_nil.
  - vm_compute. reflexivity.
Defined.

(** [remove] takes out exactly the given node wherever it sits in the
    heap, says whether it was queued, and keeps the invariant; removing or
    enqueueing twice changes nothing. *)
Theorem remove_exact (q : timer_queue) (p : Z) (n : node) :
  queue_wf q -> nodes q !! p = Some n ->
  exists b q', remove q p = Some (b, q') /\ queue_wf q' /\
    (if b then heap_ q ≡ₚ p :: heap_ q' else (p ∉ heap_ q) /\ q' = q) /\
    (p ∉ heap_ q') /\ (forall x, key (nodes q') x = key (nodes q) x) /\
    remove q' p = Some (false, q').
Proof.
  intros Hwf Hn. destruct (decide (p ∈ heap_ q)) as [Hin|Hnin].
  - destruct (remove_ok q p Hwf Hin) as (q' & -> & [Hwf' Hp' Hk' Hd']).
    assert (p ∉ heap_ q') as Hp.
    { pose proof (placed_nodup q (qw_placed q Hwf)) as Hnd. rewrite Hp' in Hnd.
      by apply list.NoDup_cons in Hnd as [? _]. }
    assert (is_Some (nodes q' !! p)) as [n' Hn'] by (by apply Hd'; exists n).
    exists true, q'. split_and!; try done. by eapply remove_absent.
  - exists false, q. rewrite (remove_absent q p n) by done. done.
Qed.

Lemma remove_exact_witness :
  exists b q', remove sample_empty 2 = Some (b, q') /\ queue_wf q' /\
    (if b then heap_ sample_empty ≡ₚ 2 :: heap_ q' else (2 ∉ heap_ sample_empty) /\ q' = sample_empty) /\
    (2 ∉ heap_ q') /\ (forall x, key (nodes q') x = key (nodes sample_empty) x) /\
    remove q' 2 = Some (false, q').
Proof.
  apply (remove_exact sample_empty 2 (Node no_index 10) sample_empty_wf).
  vm_compute. reflexivity.
Defined.

(** [get_ready_timers] takes out exactly the nodes whose point has been
    reached, in order of their points, and terminates. *)
Theorem get_ready_timers_exact (q : timer_queue) (now : Z) :
  queue_wf q ->
  exists ps q', get_ready_timers q now = Some (ps, q') /\ queue_wf q' /\
    heap_ q ≡ₚ ps ++ heap_ q' /\ (forall x, key (nodes q') x = key (nodes q) x) /\
    StronglySorted Z.le (key (nodes q) <$> ps) /\
    Forall (fun p => key (nodes q) p <= now) ps /\ Forall (fun p => now < key (nodes q) p) (heap_ q').
Proof.
  intros Hwf. destruct (ready_loop_ok (S (length (heap_ q))) q now Hwf) as (ps & q' & ? & ? & ? & ? & ? & ? & ? & _); [lia|].
  by exists ps, q'.
Qed.

Lemma get_ready_timers_exact_witness :
  exists ps q', get_ready_timers sample_empty 20 = Some (ps, q') /\ queue_wf q' /\
    heap_ sample_empty ≡ₚ ps ++ heap_ q' /\
    (forall x, key (nodes q') x = key (nodes sample_empty) x) /\
    StronglySorted Z.le (key (nodes sample_empty) <$> ps) /\
    Forall (fun p => key (nodes sample_empty) p <= 20) ps /\
    Forall (fun p => 20 < key (nodes sample_empty) p) (heap_ q').
Proof. apply (get_ready_timers_exact sample_empty 20 sample_empty_wf). Defined.

(** [wait_duration] is the time to the earliest point. *)
Theorem wait_duration_least (q : timer_queue) (now : Z) :
  queue_wf q ->
  exists d, wait_duration q now = Some d /\
    (heap_ q = [] -> d = duration_max) /\
    (forall p, p ∈ heap_ q -> d <= key (nodes q) p - now) /\
    (heap_ q <> [] -> exists p, p ∈ heap_ q /\ d = key (nodes q) p - now).
Proof.
  intros Hwf. unfold wait_duration. destruct (heap_ q) as [|p h] eqn:E.
  - exists duration_max. split_and!; try done. by intros p ?%not_elem_of_nil.
  - assert (heap_ q !! 0%nat = Some p) as Hp by (by rewrite E).
    rewrite point_at_ok, (kth_keys q 0 p) by (done || apply Hwf || (rewrite E; cbn; lia)).
    cbn [mbind option_bind]. eexists. split; [done|]. split_and!; [done| |].
    + intros x Hx. rewrite <- E in Hx. pose proof (root_least q p x Hwf Hp Hx). lia.
    + intros _. exists p. split; [by left|done].
Qed.

Lemma wait_duration_least_witness :
  exists d, wait_duration sample_empty 7 = Some d /\
    (heap_ sample_empty = [] -> d = duration_max) /\
    (forall p, p ∈ heap_ sample_empty -> d <= key (nodes sample_empty) p - 7) /\
    (heap_ sample_empty <> [] -> exists p, p ∈ heap_ sample_empty /\ d = key (nodes sample_empty) p - 7).
Proof. apply (wait_duration_least sample_empty 7 sample_empty_wf). Defined.

(** [get_all_timers] leaves the indices in the nodes: a node that had been at
    the root is not queued again once another node has taken that place. *)
Lemma get_all_timers_stale :
  exists q q1, enqueue sample_empty 1 = Some q /\ enqueue (snd (get_all_timers q)) 2 = Some q1 /\
    heap_ q1 = [2] /\ enqueue q1 1 = Some q1.
Proof.
  exists (TimerQueue [1] (<[1 := Node 0 30]> sample_nodes)),
         (TimerQueue [2] (<[2 := Node 0 10]> (<[1 := Node 0 30]> sample_nodes))).
  split_and!; vm_compute; reflexivity.
Qed.
