(* ===== verification/ShmRing.v ===== *)
(** The interface between the shared-memory ring and the channel above it: the
    calls [shm_channel] makes on a [shm_buffer], with the laws the channel's
    theorems rely on. [ring_contents] are the bytes a reader sees and
    [ring_free] those the writer may fill. *)

From S2P Require Import Prelude.

Class ByteRing (R : Type) := {
  ring_inv : R -> Prop;
  ring_contents : R -> bytes;
  ring_free : R -> bytes;

  ring_readable : R -> Z;
  ring_writable : R -> Z;
  ring_fill : R -> bytes -> Z -> option (bool * R);
  ring_write : R -> Z -> R;
  ring_peek : R -> Z -> Z -> option bytes;
  ring_read : R -> Z -> R }.

Class ByteRingLaws (R : Type) `{ByteRing R} := {
  ring_readable_law r : ring_inv r -> ring_readable r = zlen (ring_contents r);
  ring_writable_law r : ring_inv r -> ring_writable r = zlen (ring_free r);
  ring_fill_law r buf offset :
    ring_inv r -> 0 <= offset < zlen (ring_free r) -> offset + zlen buf <= zlen (ring_free r) ->
    exists r', ring_fill r buf offset = Some (true, r') /\ ring_inv r' /\
      ring_contents r' = ring_contents r /\
      ring_free r' = ztake offset (ring_free r) ++ buf ++ zdrop (offset + zlen buf) (ring_free r);
  ring_fill_full_law r buf offset :
    ring_inv r -> zlen (ring_free r) <= offset -> ring_fill r buf offset = Some (false, r);
  ring_write_law r n :
    ring_inv r -> 0 <= n <= zlen (ring_free r) ->
    ring_inv (ring_write r n) /\ ring_contents (ring_write r n) = ring_contents r ++ ztake n (ring_free r) /\
    zlen (ring_free (ring_write r n)) = zlen (ring_free r) - n;
  ring_peek_law r n offset :
    ring_inv r -> 0 <= n -> 0 <= offset ->
    ring_peek r n offset = Some (ztake n (zdrop offset (ring_contents r)));
  ring_read_law r n :
    ring_inv r -> 0 <= n <= zlen (ring_contents r) ->
    ring_inv (ring_read r n) /\ ring_contents (ring_read r n) = zdrop n (ring_contents r) /\
    zlen (ring_free (ring_read r n)) = zlen (ring_free r) + n }.
