(* ===== verification/ShmBuffer.v ===== *)
(** The ring buffer in shared memory, [shm_buffer]
    (src/runtime/src/shm/shm_buffer.cpp). The record is the [shm_data] header
    of the segment and its bytes; the two sides map the same segment, so an
    operation of either side is a step on the same record (one side's step is
    taken as a whole; the source has no fences between the stores).

    The abstract value is [contents], the bytes written and not yet read. *)

From S2P Require Import Prelude ShmRing.

(** * Data *)

Record shm_data := ShmData {
  rd : Z;            (* [read]: bytes read so far, a size_t that wraps *)
  wr : Z;            (* [write]: bytes written so far *)
  read_index : Z; write_index : Z;
  data : bytes }.

(** [size_] with the mapped segment. *)
Record shm_buffer := ShmBuffer { size_ : Z; data_ : shm_data }.

(** The segment is zeroed by the side that creates it. *)
Definition shm_create (size : Z) : shm_buffer := ShmBuffer size (ShmData 0 0 0 0 (zrep size 0)).

(** * Operations *)

Definition readable (b : shm_buffer) : Z := u64 (wr (data_ b) - rd (data_ b)).

Definition writable (b : shm_buffer) : Z := u64 (u64 (size_ b + rd (data_ b)) - wr (data_ b)).

(** [read_impl]: the bytes copied out and the index after them; no bytes when
    it returns zero. *)
Definition read_impl (b : shm_buffer) (len offset : Z) : option (bytes * Z) :=
  let d := data_ b in
  let total := readable b in
  if total <=? offset then Some ([], 0)
  else
    let len := Z.min len (u64 (total - offset)) in
    if len =? 0 then Some ([], 0)
    else
      let index := u64 (read_index d + offset) in
      let index := if size_ b <=? index then u64 (index - size_ b) else index in
      let temp := u64 (size_ b - index) in
      if temp <? len then
        first ← load (data d) index temp;
        let temp := u64 (len - temp) in
        rest ← load (data d) 0 temp;
        Some (first ++ rest, temp)
      else
        bs ← load (data d) index len;
        let index := u64 (index + len) in
        Some (bs, if index =? size_ b then 0 else index).

(** [write_impl]: whether it fits, the bytes of the segment and the index. *)
Definition write_impl (b : shm_buffer) (buf : bytes) (offset : Z) : option (bool * bytes * Z) :=
  let d := data_ b in
  let len := zlen buf in
  let total := writable b in
  if total <=? offset then Some (false, data d, 0)
  else if u64 (total - offset) <? len then Some (false, data d, 0)
  else
    let index := u64 (write_index d + offset) in
    let index := if size_ b <=? index then u64 (index - size_ b) else index in
    let temp := u64 (size_ b - index) in
    if temp <? len then
      m ← store (data d) index (ztake temp buf);
      let rest := zdrop temp buf in
      let temp := u64 (len - temp) in
      m ← store m 0 (ztake temp rest);
      Some (true, m, temp)
    else
      m ← store (data d) index buf;
      let index := u64 (index + len) in
      Some (true, m, if index =? size_ b then 0 else index).

(** [write(buf, len)]. *)
Definition write_bytes (b : shm_buffer) (buf : bytes) : option (bool * shm_buffer) :=
  '(ok, m, index) ← write_impl b buf 0;
  let d := data_ b in
  if (ok : bool) then
    Some (true, ShmBuffer (size_ b) (ShmData (rd d) (u64 (wr d + zlen buf)) (read_index d) index m))
  else Some (false, b).

(** [write(len)]: publishes what [fill] has stored. *)
Definition write_len (b : shm_buffer) (len : Z) : shm_buffer :=
  let d := data_ b in
  if writable b <? len then b
  else
    let temp := u64 (size_ b - write_index d) in
    let index :=
      if temp <? len then u64 (len - temp)
      else
        let index := u64 (write_index d + len) in
        if index =? size_ b then 0 else index in
    ShmBuffer (size_ b) (ShmData (rd d) (u64 (wr d + len)) (read_index d) index (data d)).

Definition fill (b : shm_buffer) (buf : bytes) (offset : Z) : option (bool * shm_buffer) :=
  '(ok, m, _) ← write_impl b buf offset;
  let d := data_ b in
  Some (ok : bool, ShmBuffer (size_ b) (ShmData (rd d) (wr d) (read_index d) (write_index d) m)).

(** [read(buf, len)]. *)
Definition read_bytes (b : shm_buffer) (len : Z) : option (bytes * shm_buffer) :=
  '(bs, index) ← read_impl b len 0;
  let d := data_ b in
  if 0 <? zlen bs then
    Some (bs, ShmBuffer (size_ b) (ShmData (u64 (rd d + zlen bs)) (wr d) index (write_index d) (data d)))
  else Some (bs, b).

(** [read(len)]. *)
Definition read_len (b : shm_buffer) (len : Z) : shm_buffer :=
  let d := data_ b in
  let len := Z.min len (readable b) in
  if len =? 0 then b
  else
    let temp := u64 (size_ b - read_index d) in
    let index :=
      if temp <? len then u64 (len - temp)
      else
        let index := u64 (read_index d + len) in
        if index =? size_ b then 0 else index in
    ShmBuffer (size_ b) (ShmData (u64 (rd d + len)) (wr d) index (write_index d) (data d)).

Definition peek (b : shm_buffer) (len offset : Z) : option bytes :=
  '(bs, _) ← read_impl b len offset; Some bs.

(** * Invariant and abstract value *)

(** A position on the ring, from one less than two turns. *)
Definition phys (size i : Z) : Z := if i <? size then i else i - size.

Record ring_wf (b : shm_buffer) : Prop := RingWf {
  rw_size : 0 < size_ b < 2 ^ 62;
  rw_block : zlen (data (data_ b)) = size_ b;
  rw_read : 0 <= read_index (data_ b) < size_ b;
  rw_fill : readable b <= size_ b;
  rw_write : write_index (data_ b) = phys (size_ b) (read_index (data_ b) + readable b);
  rw_rd : is_u64 (rd (data_ b));
  rw_wr : is_u64 (wr (data_ b)) }.

(** The byte at distance [k] from the read index. *)
Definition ring_at (b : shm_buffer) (k : Z) : Z :=
  zget (data (data_ b)) (phys (size_ b) (read_index (data_ b) + k)).

Definition contents (b : shm_buffer) : bytes := tabulate (readable b) (ring_at b).

(** [ringlia]: linear arithmetic with the cases of [phys] and of the
    comparisons in the goal, the contradictory ones dropped at once. *)
Ltac ringlia :=
  unfold phys, is_u64 in *;
  repeat (match goal with
  | |- context [?a <? ?b] => destruct (Z.ltb_spec a b)
  | |- context [?a <=? ?b] => destruct (Z.leb_spec a b)
  | |- context [?a =? ?b] => destruct (Z.eqb_spec a b)
  | H : context [?a <? ?b] |- _ => destruct (Z.ltb_spec a b)
  end; cbn [andb]; try lia); try lia.

Lemma readable_range b : 0 <= readable b < 2 ^ 64.
Proof. apply u64_range. Qed.

(** The counters only matter through their difference. *)
Lemma readable_eq b : ring_wf b -> u64 (rd (data_ b) + readable b) = wr (data_ b).
Proof. intros [? ? ? ? ? H1 H2]. unfold readable in *. modlia. Qed.

Lemma ring_writable_ok b : ring_wf b -> writable b = size_ b - readable b.
Proof.
  intros Hb. pose proof (readable_eq b Hb) as E. destruct Hb as [H ? ? ? ? H1 H2].
  pose proof (readable_range b). unfold writable. revert E H1 H2.
  change (2 ^ 62) with 4611686018427387904 in H. modlia.
Qed.

Lemma zlen_ring_contents b : zlen (contents b) = readable b.
Proof. apply zlen_tabulate, readable_range. Qed.

Lemma small b x : ring_wf b -> 0 <= x <= 3 * size_ b -> u64 x = x.
Proof. intros [? _ _ _ _ _ _] Hx. apply u64_small. unfold is_u64. lia. Qed.

(** [read_impl] copies out a slice of the contents. *)
Lemma read_impl_ok b len offset :
  ring_wf b -> 0 <= len -> 0 <= offset ->
  let bs := ztake len (zdrop offset (contents b)) in
  read_impl b len offset =
    Some (bs, if zlen bs =? 0 then 0 else phys (size_ b) (phys (size_ b) (read_index (data_ b) + offset) + zlen bs)).
Proof.
  intros Hb Hlen Hoff. cbv zeta. pose proof (zlen_ring_contents b) as Hzc.
  pose proof (readable_range b) as Hrr. unfold read_impl.
  destruct (Z.leb_spec (readable b) offset) as [Hle|Hgt].
  { rewrite zdrop_ge by lia. unfold ztake. rewrite take_nil. done. }
  pose proof Hb as [Hs Hd Hri Hf Hw _ _].
  rewrite (small b (readable b - offset)) by (done || lia).
  set (n := Z.min len (readable b - offset)).
  assert (ztake len (zdrop offset (contents b)) = tabulate n (fun k => ring_at b (offset + k))) as ->.
  { apply zget_eq.
    - rewrite zlen_ztake, zlen_zdrop, zlen_tabulate by lia. lia.
    - intros i. rewrite zlen_ztake, zlen_zdrop by lia. intros Hi.
      rewrite zget_ztake, zget_zdrop by lia. unfold contents. rewrite !zget_tabulate by lia. done. }
  rewrite zlen_tabulate by lia. destruct (Z.eqb_spec n 0) as [->|Hn]; [done|].
  rewrite (small b (read_index _ + offset)) by (done || lia).
  set (index := if size_ b <=? _ then _ else _).
  assert (index = phys (size_ b) (read_index (data_ b) + offset)) as Hidx.
  { unfold index, phys. destruct (Z.leb_spec (size_ b) (read_index (data_ b) + offset));
      [rewrite (small b) by (done || lia)|]; ringlia. }
  assert (0 <= index < size_ b) as Hir by (rewrite Hidx; ringlia).
  rewrite (small b (size_ b - index)) by (done || lia). rewrite <- Hidx.
  destruct (Z.ltb_spec (size_ b - index) n) as [Hlt|Hge].
  - rewrite (load_ok _ index) by lia. cbn [mbind option_bind].
    rewrite (small b (n - (size_ b - index))) by (done || lia).
    rewrite (load_ok _ 0) by lia. cbn [mbind option_bind]. do 2 f_equal; [|ringlia].
    apply zget_eq.
    + rewrite zlen_app, !zlen_ztake, !zlen_zdrop, zlen_tabulate by lia. lia.
    + intros i. rewrite zlen_app, !zlen_ztake, !zlen_zdrop by lia. intros Hi.
      rewrite zget_tabulate, zget_app by lia. rewrite zlen_ztake, zlen_zdrop by lia.
      unfold ring_at. destruct (Z.ltb_spec i (Z.min (size_ b - index) (Z.max 0 (zlen (data (data_ b)) - index)))).
      * rewrite zget_ztake, zget_zdrop by lia. f_equal. revert Hidx Hir. ringlia.
      * rewrite zget_ztake, zget_zdrop by lia. f_equal. revert Hidx Hir. ringlia.
  - rewrite load_ok by lia. cbn [mbind option_bind].
    rewrite (small b (index + n)) by (done || lia). do 2 f_equal; [|ringlia].
    apply zget_eq.
    + rewrite zlen_ztake, zlen_zdrop, zlen_tabulate by lia. lia.
    + intros i. rewrite zlen_ztake, zlen_zdrop by lia. intros Hi.
      rewrite zget_tabulate, zget_ztake, zget_zdrop by lia. unfold ring_at. f_equal. revert Hidx Hir. ringlia.
Qed.

(** [write_impl] stores behind the contents and nowhere else. *)
Lemma write_impl_ok b buf offset :
  ring_wf b -> 0 <= offset ->
  if (size_ b - readable b <=? offset) || (size_ b - readable b - offset <? zlen buf)
  then write_impl b buf offset = Some (false, data (data_ b), 0)
  else exists m,
    write_impl b buf offset =
      Some (true, m, phys (size_ b) (phys (size_ b) (write_index (data_ b) + offset) + zlen buf)) /\
    zlen m = size_ b /\
    forall k, 0 <= k < size_ b ->
      zget m (phys (size_ b) (read_index (data_ b) + k)) =
        if (readable b + offset <=? k) && (k <? readable b + offset + zlen buf)
        then zget buf (k - readable b - offset) else ring_at b k.
Proof.
  intros Hb Hoff. pose proof (zlen_nonneg buf) as Hbl. pose proof (readable_range b) as Hrr.
  unfold write_impl. rewrite ring_writable_ok by done. set (w := size_ b - readable b).
  pose proof Hb as [Hs Hd Hri Hf Hw _ _].
  destruct (Z.leb_spec w offset) as [Hle|Hgt]; cbn [orb]; [done|].
  rewrite (small b (w - offset)) by (done || lia).
  destruct (Z.ltb_spec (w - offset) (zlen buf)) as [Hl|Hl]; [done|].
  assert (0 <= write_index (data_ b) < size_ b) as Hwi by (rewrite Hw; ringlia).
  rewrite (small b (write_index _ + offset)) by (done || lia).
  set (index := if size_ b <=? _ then _ else _).
  assert (index = phys (size_ b) (write_index (data_ b) + offset)) as Hidx.
  { unfold index, phys. destruct (Z.leb_spec (size_ b) (write_index (data_ b) + offset));
      [rewrite (small b) by (done || lia)|]; ringlia. }
  assert (0 <= index < size_ b) as Hir by (rewrite Hidx; ringlia).
  rewrite (small b (size_ b - index)) by (done || lia). rewrite <- Hidx.
  unfold ring_at. destruct (Z.ltb_spec (size_ b - index) (zlen buf)) as [Hlt|Hge].
  - assert (zlen (ztake (size_ b - index) buf) = size_ b - index) as Hz1 by (rewrite zlen_ztake; lia).
    destruct (store_ok (data (data_ b)) index (ztake (size_ b - index) buf)) as (m1 & -> & Hm1); [lia|lia|].
    cbn [mbind option_bind]. rewrite (small b (zlen buf - (size_ b - index))) by (done || lia).
    set (rest := ztake (zlen buf - (size_ b - index)) (zdrop (size_ b - index) buf)).
    assert (zlen rest = zlen buf - (size_ b - index)) as Hz2
      by (unfold rest; rewrite zlen_ztake, zlen_zdrop by lia; lia).
    pose proof (stored_len _ _ _ _ Hm1) as Hml1.
    destruct (store_ok m1 0 rest) as (m2 & -> & Hm2); [lia|lia|].
    pose proof (stored_len _ _ _ _ Hm2) as Hml2.
    cbn [mbind option_bind]. exists m2. split_and!; [do 2 f_equal; ringlia|lia|].
    intros k Hk. set (i := phys (size_ b) (read_index (data_ b) + k)).
    assert (0 <= i < size_ b) as Hi by (unfold i; ringlia).
    rewrite (zget_stored _ _ _ _ _ (Z.le_refl 0) Hm2) by lia.
    rewrite (zget_stored _ _ _ _ _ (proj1 Hir) Hm1) by lia. rewrite Hz1, Hz2.
    destruct ((readable b + offset <=? k) && (k <? readable b + offset + zlen buf)) eqn:Ein.
    + destruct ((0 <=? i) && (i <? 0 + (zlen buf - (size_ b - index)))) eqn:E2.
      * unfold rest. rewrite zget_ztake, zget_zdrop by lia. f_equal.
        revert Ein E2 Hidx. unfold i. rewrite Hw. ringlia.
      * destruct ((index <=? i) && (i <? index + (size_ b - index))) eqn:E1.
        -- rewrite zget_ztake by lia. f_equal. revert Ein E1 E2 Hidx. unfold i. rewrite Hw. ringlia.
        -- exfalso. revert Ein E1 E2 Hidx. unfold i. rewrite Hw. ringlia.
    + destruct ((0 <=? i) && (i <? 0 + (zlen buf - (size_ b - index)))) eqn:E2.
      * exfalso. revert Ein E2 Hidx. unfold i. rewrite Hw. ringlia.
      * destruct ((index <=? i) && (i <? index + (size_ b - index))) eqn:E1; [|done].
        exfalso. revert Ein E1 E2 Hidx. unfold i. rewrite Hw. ringlia.
  - destruct (store_ok (data (data_ b)) index buf) as (m & -> & Hm); [lia|lia|].
    pose proof (stored_len _ _ _ _ Hm) as Hml.
    cbn [mbind option_bind]. rewrite (small b (index + zlen buf)) by (done || lia).
    exists m. split_and!; [do 2 f_equal; ringlia|lia|].
    intros k Hk. set (i := phys (size_ b) (read_index (data_ b) + k)).
    assert (0 <= i < size_ b) as Hi by (unfold i; ringlia).
    rewrite (zget_stored _ _ _ _ _ (proj1 Hir) Hm) by lia.
    destruct ((readable b + offset <=? k) && (k <? readable b + offset + zlen buf)) eqn:Ein,
      ((index <=? i) && (i <? index + zlen buf)) eqn:E1; try done.
    + f_equal. revert Ein E1 Hidx. unfold i. rewrite Hw. ringlia.
    + exfalso. revert Ein E1 Hidx. unfold i. rewrite Hw. ringlia.
    + exfalso. revert Ein E1 Hidx. unfold i. rewrite Hw. ringlia.
Qed.

(** * Operations on the abstract value *)

Lemma contents_at b i : 0 <= i < readable b -> zget (contents b) i = ring_at b i.
Proof. intros. by apply zget_tabulate. Qed.

(** The reader's cursor moved by [n]. *)
Definition advanced (b : shm_buffer) (n : Z) : shm_buffer :=
  let d := data_ b in
  ShmBuffer (size_ b) (ShmData (u64 (rd d + n)) (wr d) (phys (size_ b) (read_index d + n)) (write_index d) (data d)).

Lemma advanced_ok b n :
  ring_wf b -> 0 <= n <= readable b ->
  ring_wf (advanced b n) /\ readable (advanced b n) = readable b - n /\
  contents (advanced b n) = zdrop n (contents b) /\ size_ (advanced b n) = size_ b.
Proof.
  intros Hb Hn. pose proof (readable_eq b Hb) as He. pose proof (readable_range b) as Hrr.
  pose proof Hb as [Hs Hd Hri Hf Hw H1 H2].
  assert (readable (advanced b n) = readable b - n) as Hr.
  { unfold readable at 1. cbn. rewrite <- He. unfold is_u64 in *. revert Hrr Hn H1. modlia. }
  split_and!; [split; cbn [size_ data_ advanced rd wr read_index write_index data]; try done| done| |done].
  - ringlia.
  - change (readable (advanced b n) <= size_ b). lia.
  - change (write_index (data_ b) = phys (size_ b) (phys (size_ b) (read_index (data_ b) + n) + readable (advanced b n))).
    rewrite Hr, Hw. ringlia.
  - apply u64_range.
  - apply zget_eq; [rewrite zlen_zdrop, !zlen_ring_contents by lia; lia|].
    intros i. rewrite zlen_ring_contents, Hr. intros Hi.
    rewrite zget_zdrop, !contents_at by lia. unfold ring_at. cbn. f_equal. ringlia.
Qed.

(** The writer's cursor moved by [n] over bytes stored before. *)
Definition published (b : shm_buffer) (n : Z) : shm_buffer :=
  let d := data_ b in
  ShmBuffer (size_ b) (ShmData (rd d) (u64 (wr d + n)) (read_index d) (phys (size_ b) (write_index d + n)) (data d)).

Lemma published_ok b n :
  ring_wf b -> 0 <= n <= size_ b - readable b ->
  ring_wf (published b n) /\ readable (published b n) = readable b + n /\
  contents (published b n) = contents b ++ tabulate n (fun k => ring_at b (readable b + k)) /\
  size_ (published b n) = size_ b.
Proof.
  intros Hb Hn. pose proof (readable_eq b Hb) as He. pose proof (readable_range b) as Hrr.
  pose proof Hb as [Hs Hd Hri Hf Hw H1 H2].
  assert (readable (published b n) = readable b + n) as Hr.
  { unfold readable at 1. cbn. rewrite <- He. unfold is_u64 in *.
    change (2 ^ 62) with 4611686018427387904 in Hs. revert Hs Hf Hrr Hn H1. modlia. }
  split_and!; [split; cbn [size_ data_ published rd wr read_index write_index data]; try done| done| |done].
  - change (readable (published b n) <= size_ b). lia.
  - change (phys (size_ b) (write_index (data_ b) + n) =
            phys (size_ b) (read_index (data_ b) + readable (published b n))).
    rewrite Hr, Hw. ringlia.
  - apply u64_range.
  - apply zget_eq; [rewrite zlen_app, !zlen_ring_contents, zlen_tabulate by lia; lia|].
    intros i. rewrite zlen_ring_contents, Hr. intros Hi.
    rewrite contents_at, zget_app, zlen_ring_contents by lia.
    change (ring_at (published b n) i) with (ring_at b i). destruct (Z.ltb_spec i (readable b)).
    + by rewrite contents_at by lia.
    + rewrite zget_tabulate by lia. f_equal. lia.
Qed.

Lemma write_len_ok b n :
  ring_wf b -> 0 <= n ->
  write_len b n = if size_ b - readable b <? n then b else published b n.
Proof.
  intros Hb Hn. unfold write_len. rewrite ring_writable_ok by done.
  pose proof (readable_range b). destruct (Z.ltb_spec (size_ b - readable b) n); [done|].
  pose proof Hb as [Hs Hd Hri Hf Hw H1 H2].
  assert (0 <= write_index (data_ b) < size_ b) as Hwi by (rewrite Hw; ringlia).
  unfold published. do 2 f_equal. rewrite (small b (size_ b - _)) by (done || lia).
  destruct (Z.ltb_spec (size_ b - write_index (data_ b)) n).
  - rewrite (small b) by (done || lia). ringlia.
  - rewrite (small b) by (done || lia). ringlia.
Qed.

Lemma read_len_ok b n :
  ring_wf b -> 0 <= n ->
  read_len b n = if Z.min n (readable b) =? 0 then b else advanced b (Z.min n (readable b)).
Proof.
  intros Hb Hn. unfold read_len. pose proof (readable_range b).
  destruct (Z.eqb_spec (Z.min n (readable b)) 0); [done|].
  pose proof Hb as [Hs Hd Hri Hf Hw H1 H2].
  unfold advanced. do 2 f_equal. rewrite (small b (size_ b - _)) by (done || lia).
  destruct (Z.ltb_spec (size_ b - read_index (data_ b)) (Z.min n (readable b))).
  - rewrite (small b) by (done || lia). ringlia.
  - rewrite (small b) by (done || lia). ringlia.
Qed.

Lemma ring_peek_ok b n offset :
  ring_wf b -> 0 <= n -> 0 <= offset -> peek b n offset = Some (ztake n (zdrop offset (contents b))).
Proof. intros. unfold peek. by rewrite read_impl_ok. Qed.

(** [fill] is invisible to the reader until [write(len)] publishes it. *)
Lemma fill_ok b buf offset :
  ring_wf b -> 0 <= offset ->
  let fits := negb ((size_ b - readable b <=? offset) || (size_ b - readable b - offset <? zlen buf)) in
  exists b', fill b buf offset = Some (fits, b') /\ ring_wf b' /\ contents b' = contents b /\
    readable b' = readable b /\ size_ b' = size_ b /\
    forall k, 0 <= k < size_ b ->
      ring_at b' k =
        if fits && (readable b + offset <=? k) && (k <? readable b + offset + zlen buf)
        then zget buf (k - readable b - offset) else ring_at b k.
Proof.
  intros Hb Hoff. cbv zeta. pose proof (write_impl_ok b buf offset Hb Hoff) as Hw.
  pose proof (readable_range b). pose proof Hb as [Hs Hd Hri Hf Hwi H1 H2]. unfold fill.
  destruct ((size_ b - readable b <=? offset) || (size_ b - readable b - offset <? zlen buf)) eqn:E; cbn [negb andb].
  - rewrite Hw. cbn [mbind option_bind]. exists b. split; [|done]. by destruct b as [? []].
  - destruct Hw as (m & -> & Hm & Hat). cbn [mbind option_bind].
    eexists. split; [reflexivity|]. split_and!.
    + split; try done; by cbn.
    + apply zget_eq; [rewrite !zlen_ring_contents; done|]. intros i. rewrite zlen_ring_contents.
      change (readable (ShmBuffer _ _)) with (readable b). intros Hi. rewrite !contents_at by done.
      unfold ring_at at 1. cbn. rewrite Hat by lia.
      destruct (Z.leb_spec (readable b + offset) i); [lia|done].
    + done.
    + done.
    + intros k Hk. unfold ring_at at 1. cbn. by rewrite Hat.
Qed.

Lemma write_bytes_ok b buf :
  ring_wf b ->
  exists ok b', write_bytes b buf = Some (ok, b') /\ ring_wf b' /\ size_ b' = size_ b /\
    (ok = true <-> zlen buf <= size_ b - readable b /\ readable b < size_ b) /\
    contents b' = if ok then contents b ++ buf else contents b.
Proof.
  intros Hb. pose proof (write_impl_ok b buf 0 Hb (Z.le_refl 0)) as Hw. pose proof (zlen_nonneg buf).
  pose proof (readable_range b). pose proof Hb as [Hs Hd Hri Hf Hwi H1 H2]. unfold write_bytes.
  destruct (_ || _) eqn:E.
  - rewrite Hw. cbn [mbind option_bind]. exists false, b. split_and!; try done. split; [done|lia].
  - destruct Hw as (m & -> & Hm & Hat). cbn [mbind option_bind].
    set (b1 := ShmBuffer (size_ b) (ShmData (rd (data_ b)) (wr (data_ b)) (read_index (data_ b))
                                      (write_index (data_ b)) m)).
    assert (ring_wf b1) as Hb1 by (split; done).
    destruct (published_ok b1 (zlen buf) Hb1) as (Hwf & _ & Hc & _); [change (readable b1) with (readable b); cbn; lia|].
    exists true, (published b1 (zlen buf)).
    assert (0 <= write_index (data_ b) < size_ b) by (rewrite Hwi; ringlia).
    split_and!; try done; [|split; [lia|done]|].
    + unfold published. cbn. do 4 f_equal. rewrite Z.add_0_r. ringlia.
    + rewrite Hc. change (readable b1) with (readable b).
      f_equal; apply zget_eq.
      * rewrite !zlen_ring_contents. done.
      * intros i. rewrite zlen_ring_contents. change (readable b1) with (readable b). intros Hi.
        rewrite !contents_at by done. unfold ring_at at 1. cbn. rewrite Hat by lia.
        destruct (Z.leb_spec (readable b + 0) i); [lia|done].
      * by rewrite zlen_tabulate.
      * intros i. rewrite zlen_tabulate by done. intros Hi. rewrite zget_tabulate by done.
        unfold ring_at. cbn. rewrite Hat by lia.
        replace ((readable b + 0 <=? readable b + i) && (readable b + i <? readable b + 0 + zlen buf))
          with true by lia. f_equal. lia.
Qed.

Lemma read_bytes_ok b n :
  ring_wf b -> 0 <= n ->
  exists b', read_bytes b n = Some (ztake n (contents b), b') /\ ring_wf b' /\ size_ b' = size_ b /\
    contents b' = zdrop n (contents b).
Proof.
  intros Hb Hn. unfold read_bytes. rewrite read_impl_ok by (done || lia). rewrite zdrop_0.
  cbn [mbind option_bind]. set (bs := ztake n (contents b)).
  assert (zlen bs = Z.min n (readable b)) as Hz by (unfold bs; rewrite zlen_ztake, zlen_ring_contents by lia; done).
  pose proof (readable_range b). pose proof Hb as [Hs Hd Hri Hf Hwi H1 H2].
  destruct (Z.ltb_spec 0 (zlen bs)) as [Hpos|Hz0].
  - destruct (advanced_ok b (zlen bs) Hb ltac:(lia)) as (Hwf & _ & Hc & _).
    exists (advanced b (zlen bs)). split_and!; try done.
    + unfold advanced. rewrite (proj2 (Z.eqb_neq (zlen bs) 0)) by lia. rewrite Z.add_0_r.
      do 5 f_equal. ringlia.
    + rewrite Hc, Hz. destruct (Z.min_spec n (readable b)) as [[? ->]|[? ->]]; [done|].
      rewrite !zdrop_ge by (rewrite zlen_ring_contents; lia). done.
  - exists b. split_and!; try done. destruct (Z.eq_dec n 0) as [->|]; [by rewrite zdrop_0|].
    assert (zlen (contents b) = 0) as Hc0 by (rewrite zlen_ring_contents; lia).
    apply zlen_zero_inv in Hc0. rewrite Hc0. unfold zdrop. by rewrite drop_nil.
Qed.

Lemma shm_create_ok size : 0 < size < 2 ^ 62 -> ring_wf (shm_create size) /\ contents (shm_create size) = [].
Proof.
  intros Hs. assert (readable (shm_create size) = 0) as Hr by done. split.
  - split; try done; cbn [shm_create size_ data_ data read_index write_index].
    + apply zlen_zrep. lia.
    + lia.
    + rewrite Hr. lia.
    + rewrite Hr. ringlia.
  - apply zlen_zero_inv. by rewrite zlen_ring_contents.
Qed.

(** * The instance of the interface *)

(** The bytes behind the contents. *)
Definition free_bytes (b : shm_buffer) : bytes :=
  tabulate (size_ b - readable b) (fun k => ring_at b (readable b + k)).

#[export] Instance shm_byte_ring : ByteRing shm_buffer := {
  ring_inv := ring_wf; ring_contents := contents; ring_free := free_bytes;
  ring_readable := readable; ring_writable := writable; ring_fill := fill;
  ring_write := write_len; ring_peek := peek; ring_read := read_len }.

Lemma zlen_free b : ring_wf b -> zlen (free_bytes b) = size_ b - readable b.
Proof. intros [? ? ? ? ? ? ?]. apply zlen_tabulate. lia. Qed.

Lemma free_at b k : 0 <= k < size_ b - readable b -> zget (free_bytes b) k = ring_at b (readable b + k).
Proof. intros. unfold free_bytes. by rewrite zget_tabulate. Qed.

Lemma fill_free b buf offset :
  ring_wf b -> 0 <= offset < zlen (free_bytes b) -> offset + zlen buf <= zlen (free_bytes b) ->
  exists b', fill b buf offset = Some (true, b') /\ ring_wf b' /\ contents b' = contents b /\
    free_bytes b' = ztake offset (free_bytes b) ++ buf ++ zdrop (offset + zlen buf) (free_bytes b).
Proof.
  intros Hb Ho Hl. rewrite zlen_free in Ho, Hl by done. pose proof (zlen_nonneg buf).
  pose proof (readable_range b).
  destruct (fill_ok b buf offset Hb ltac:(lia)) as (b' & E & Hb' & Hc & Hr & Hs & Hat).
  replace (negb _) with true in E, Hat by lia. exists b'. split_and!; try done.
  assert (zlen (ztake offset (free_bytes b)) = offset) as Hz
    by (rewrite zlen_ztake, zlen_free by (done || lia); lia).
  apply zget_eq.
  - rewrite !zlen_app, zlen_zdrop, Hz, !zlen_free by (done || lia). rewrite Hr, Hs. lia.
  - intros k. rewrite zlen_free, Hr, Hs by done. intros Hk.
    rewrite free_at, Hr by (rewrite ?Hr, ?Hs; lia). rewrite Hat by lia. cbn [andb].
    rewrite zget_app, Hz by lia. destruct (Z.ltb_spec k offset).
    + replace ((readable b + offset <=? readable b + k) && _) with false by lia.
      by rewrite zget_ztake, free_at by lia.
    + rewrite zget_app by lia. destruct (Z.ltb_spec (k - offset) (zlen buf)).
      * replace ((readable b + offset <=? readable b + k) && _) with true by lia. f_equal. lia.
      * replace ((readable b + offset <=? readable b + k) && _) with false by lia.
        rewrite zget_zdrop, free_at by lia. f_equal. lia.
Qed.

Lemma fill_full b buf offset :
  ring_wf b -> zlen (free_bytes b) <= offset -> fill b buf offset = Some (false, b).
Proof.
  intros Hb Ho. rewrite zlen_free in Ho by done. pose proof Hb as [? ? ? Hf ? ? ?].
  unfold fill, write_impl. rewrite ring_writable_ok by done. rewrite (proj2 (Z.leb_le _ offset)) by done.
  cbn. by destruct b as [? []].
Qed.

#[export] Instance shm_byte_ring_laws : ByteRingLaws shm_buffer.
Proof.
  split; cbn [ring_inv ring_contents ring_free ring_readable ring_writable ring_fill ring_write ring_peek
              ring_read shm_byte_ring].
  - intros r _. by rewrite zlen_ring_contents.
  - intros r Hr. by rewrite zlen_free, ring_writable_ok.
  - apply fill_free.
  - apply fill_full.
  - intros r n Hr Hn. rewrite zlen_free in Hn by done. rewrite write_len_ok by (done || lia).
    rewrite (proj2 (Z.ltb_ge _ n)) by lia.
    destruct (published_ok r n Hr ltac:(lia)) as (Hwf & Hrd & Hc & Hs).
    split_and!; [done| |rewrite !zlen_free, Hrd, Hs by done; lia].
    rewrite Hc. f_equal. apply zget_eq.
    + rewrite zlen_tabulate, zlen_ztake, zlen_free by (done || lia). lia.
    + intros k. rewrite zlen_tabulate by lia. intros Hk.
      by rewrite zget_tabulate, zget_ztake, free_at by lia.
  - intros. by apply ring_peek_ok.
  - intros r n Hr Hn. rewrite zlen_ring_contents in Hn. rewrite read_len_ok by (done || lia).
    rewrite Z.min_l by lia. destruct (Z.eqb_spec n 0) as [->|Hne].
    + rewrite zdrop_0. split_and!; [done|done|lia].
    + destruct (advanced_ok r n Hr Hn) as (Hwf & Hrd & Hc & Hs).
      split_and!; [done|done|]. rewrite !zlen_free, Hrd, Hs by done. lia.
Qed.

(** * Properties *)

(** The operations of both sides, and what the bounded byte queue does. *)
Inductive ring_op := WriteBytes (bs : bytes) | ReadBytes (n : Z) | SkipBytes (n : Z) | PeekBytes (n offset : Z).
Inductive ring_out := RBool (b : bool) | RBytes (bs : bytes) | RUnit.

Definition ring_step (b : shm_buffer) (op : ring_op) : option (ring_out * shm_buffer) :=
  match op with
  | WriteBytes bs => '(ok, b) ← write_bytes b bs; Some (RBool ok, b)
  | ReadBytes n => '(bs, b) ← read_bytes b n; Some (RBytes bs, b)
  | SkipBytes n => Some (RUnit, read_len b n)
  | PeekBytes n offset => bs ← peek b n offset; Some (RBytes bs, b)
  end.

Definition queue_step (size : Z) (q : bytes) (op : ring_op) : ring_out * bytes :=
  match op with
  | WriteBytes bs =>
      if (zlen q + zlen bs <=? size) && (zlen q <? size) then (RBool true, q ++ bs) else (RBool false, q)
  | ReadBytes n => (RBytes (ztake n q), zdrop n q)
  | SkipBytes n => (RUnit, zdrop n q)
  | PeekBytes n offset => (RBytes (ztake n (zdrop offset q)), q)
  end.

Fixpoint ring_run (b : shm_buffer) (ops : list ring_op) : option (list ring_out * shm_buffer) :=
  match ops with
  | [] => Some ([], b)
  | op :: ops => '(o, b) ← ring_step b op; '(os, b) ← ring_run b ops; Some (o :: os, b)
  end.

Fixpoint queue_run (size : Z) (q : bytes) (ops : list ring_op) : list ring_out * bytes :=
  match ops with
  | [] => ([], q)
  | op :: ops =>
      let '(o, q) := queue_step size q op in
      let '(os, q) := queue_run size q ops in
      (o :: os, q)
  end.

Definition ring_op_ok (op : ring_op) : Prop :=
  match op with
  | WriteBytes _ => True
  | ReadBytes n | SkipBytes n => 0 <= n
  | PeekBytes n offset => 0 <= n /\ 0 <= offset
  end.

Lemma zdrop_min (l : bytes) n : 0 <= n -> zdrop (Z.min n (zlen l)) l = zdrop n l.
Proof.
  intros Hn. destruct (Z.min_spec n (zlen l)) as [[? ->]|[? ->]]; [done|].
  by rewrite !zdrop_ge by lia.
Qed.

Lemma ring_step_ok b op :
  ring_wf b -> ring_op_ok op ->
  exists b', ring_step b op = Some (fst (queue_step (size_ b) (contents b) op), b') /\ ring_wf b' /\
    size_ b' = size_ b /\ contents b' = snd (queue_step (size_ b) (contents b) op).
Proof.
  intros Hb Hop. pose proof (zlen_ring_contents b) as Hz. destruct op as [bs|n|n|n offset]; cbn in *.
  - destruct (write_bytes_ok b bs Hb) as (ok & b' & -> & Hb' & Hs & Hok & Hc). cbn. rewrite Hz.
    exists b'. destruct ok.
    + replace ((readable b + zlen bs <=? size_ b) && (readable b <? size_ b)) with true by lia. done.
    + replace ((readable b + zlen bs <=? size_ b) && (readable b <? size_ b)) with false by lia. done.
  - destruct (read_bytes_ok b n Hb Hop) as (b' & -> & Hb' & Hs & Hc). by exists b'.
  - exists (read_len b n). split; [done|]. rewrite read_len_ok by done.
    destruct (Z.eqb_spec (Z.min n (readable b)) 0) as [E|].
    + split_and!; try done. rewrite <- zdrop_min, Hz, E by done. by rewrite zdrop_0.
    + pose proof (readable_range b). destruct (advanced_ok b (Z.min n (readable b)) Hb ltac:(lia)) as (? & ? & Hc & ?).
      split_and!; try done. rewrite Hc, <- Hz. by apply zdrop_min.
  - destruct Hop. rewrite ring_peek_ok by done. by exists b.
Qed.

Lemma ring_run_ok b ops :
  ring_wf b -> Forall ring_op_ok ops ->
  exists b', ring_run b ops = Some (fst (queue_run (size_ b) (contents b) ops), b') /\ ring_wf b' /\
    contents b' = snd (queue_run (size_ b) (contents b) ops).
Proof.
  intros Hb Hops. revert b Hb. induction Hops as [|op ops Hop _ IH]; intros b Hb; cbn [ring_run queue_run].
  - by exists b.
  - destruct (ring_step_ok b op Hb Hop) as (b1 & -> & Hb1 & Hs1 & Hc1).
    destruct (queue_step (size_ b) (contents b) op) as [o q1]. cbn in *.
    destruct (IH b1 Hb1) as (b2 & -> & Hb2 & Hc2). rewrite Hs1, Hc1 in *.
    destruct (queue_run (size_ b) q1 ops) as [os q2]. cbn in *. by exists b2.
Qed.

(** C1: the shared-memory ring refines a bounded byte queue: over any
    sequence of writes, reads, skips and peeks from a fresh segment, across
    the wrap of the indices and of the 64-bit counters, no access leaves the
    segment and every result is the queue's. *)
Theorem shm_buffer_refines (size : Z) (ops : list ring_op) :
  0 < size < 2 ^ 62 -> Forall ring_op_ok ops ->
  exists b, ring_run (shm_create size) ops = Some (fst (queue_run size [] ops), b) /\
    contents b = snd (queue_run size [] ops).
Proof.
  intros Hs Hops. destruct (shm_create_ok size Hs) as [Hwf Hc].
  destruct (ring_run_ok (shm_create size) ops Hwf Hops) as (b & Hr & _ & Hcb).
  rewrite Hc in Hr, Hcb. by exists b.
Qed.

Lemma shm_buffer_refines_witness :
  let ops := [WriteBytes [1; 2; 3]; ReadBytes 2; WriteBytes [4; 5; 6]; PeekBytes 2 1; SkipBytes 3] in
  Forall ring_op_ok ops /\
  exists b, ring_run (shm_create 4) ops = Some (fst (queue_run 4 [] ops), b) /\
    contents b = snd (queue_run 4 [] ops).
Proof.
  intros ops. assert (Forall ring_op_ok ops) as H by (repeat constructor; cbn; lia).
  split; [exact H|]. apply (shm_buffer_refines 4 ops); [lia|exact H].
Defined.
