(* ===== verification/ShmChannel.v ===== *)
(** Message channels over two shared-memory rings
    (src/runtime/src/shm/shm_channel.cpp) and the polling thread that wakes
    their waiters (src/runtime/src/shm/shm_channel_select.cpp).

    The channel is proved against the interface [ByteRing]; [shm_buffer] is
    its instance. A coroutine is the sequence of its resumptions: a value of
    [read_wait] says where it is suspended and for what it waits. *)

From S2P Require Import Prelude Digest ShmRing ShmBuffer.

(** * The channel *)

(** [sizeof(uint32_t)] *)
Definition header_size : Z := 4.

(** Where [shm_channel::read] is suspended: in the loop for the length, or in
    the loop for the body of the given length. *)
Inductive read_wait := WaitLength | WaitBody (len : Z).

(** The number of bytes [shm_channel_select::wait] is asked for. *)
Definition wait_size (w : read_wait) : Z :=
  match w with WaitLength => header_size | WaitBody len => header_size + len end.

Section channel.
Context {R : Type} `{ByteRing R}.

Record shm_channel := ShmChannel { write_ : R; read_ : R }.

(** The two [fill]s store the header and the body, [write] publishes both. *)
Definition try_write (ch : shm_channel) (buf : bytes) : option (bool * shm_channel) :=
  let len := zlen buf in
  let w := write_ ch in
  if ring_writable w <? len + header_size then Some (false, ch)
  else
    '(_, w) ← ring_fill w (put_32_bit_le len) 0;
    '(_, w) ← ring_fill w buf header_size;
    Some (true, ShmChannel (ring_write w (len + header_size)) (read_ ch)).

(** [try_read(buf, size)]: the returned length and what was copied; [None]
    for [buf] asks for the length only. *)
Definition try_read (ch : shm_channel) (has_buf : bool) (size : Z)
    : option (Z * bytes * shm_channel) :=
  let r := read_ ch in
  header ← ring_peek r header_size 0;
  if zlen header <? header_size then Some (0, [], ch)
  else
    let len := get_32_bit_le header in
    if ring_readable r <? header_size + len then Some (0, [], ch)
    else if negb has_buf then Some (len, [], ch)
    else if size <? len then Some (0, [], ch)
    else
      bs ← ring_peek r len header_size;
      Some (len, bs, ShmChannel (write_ ch) (ring_read r (len + header_size))).

(** The coroutine [write]: [None] in the sum is the suspension in
    [instance.wait(this, false, need_writable)]; a resumption tries again. *)
Definition write_resume (ch : shm_channel) (buf : bytes) : option (option shm_channel) :=
  '(ok, ch) ← try_write ch buf;
  Some (if (ok : bool) then Some ch else None).

Definition need_writable (buf : bytes) : Z := header_size + zlen buf.

(** The end of [read(memory_buffer&)], once the body is there: the bytes
    copied behind the cleared buffer's cursor. *)
Definition read_body (ch : shm_channel) (len : Z) : option (read_wait + bytes * shm_channel) :=
  let need_readable := header_size + len in
  if ring_readable (read_ ch) <? need_readable then Some (inl (WaitBody len))
  else
    bs ← ring_peek (read_ ch) len header_size;
    Some (inr (bs, ShmChannel (write_ ch) (ring_read (read_ ch) (header_size + len)))).

Definition read_length (ch : shm_channel) : option (read_wait + bytes * shm_channel) :=
  header ← ring_peek (read_ ch) header_size 0;
  if zlen header <? header_size then Some (inl WaitLength)
  else read_body ch (get_32_bit_le header).

(** [read(memory_buffer&)] from the start, and resumed at a wait. *)
Definition read_start (ch : shm_channel) : option (read_wait + bytes * shm_channel) := read_length ch.

Definition read_resume (ch : shm_channel) (w : read_wait) : option (read_wait + bytes * shm_channel) :=
  match w with
  | WaitLength => read_length ch
  | WaitBody len => read_body ch len
  end.

(** [shm_channel_select::is_ready]. *)
Record select_data := SelectData { sd_channel : shm_channel; sd_read : bool; sd_size : Z }.

Definition is_ready (d : select_data) : bool :=
  if sd_read d then sd_size d <=? ring_readable (read_ (sd_channel d))
  else sd_size d <=? ring_writable (write_ (sd_channel d)).
End channel.

Arguments shm_channel : clear implicits.

(** * The polling loop *)

Section select.
Context {D : Type} (ready : D -> bool).

(** The loop over [select_] that wakes the ready entries and moves the
    others forward: [write_index] is the number of kept entries once the
    first ready one has been met, and [size] before. *)
Definition select_step (s : list D * nat * list D) (size i : nat) : option (list D * nat * list D) :=
  let '(sel, write_index, woken) := s in
  data ← sel !! i;
  if ready data then
    Some (sel, if (write_index =? size)%nat then i else write_index, woken ++ [data])
  else if (write_index <? size)%nat then Some (<[write_index := data]> sel, S write_index, woken)
  else Some (sel, write_index, woken).

Fixpoint select_loop (n : nat) (s : list D * nat * list D) (size i : nat)
    : option (list D * nat * list D) :=
  match n with
  | O => Some s
  | S n => s ← select_step s size i; select_loop n s size (S i)
  end.

Definition select_scan (sel : list D) : option (list D * list D) :=
  let size := length sel in
  '(sel, write_index, woken) ← select_loop size (sel, size, []) size 0;
  Some (if negb (write_index =? size)%nat then take write_index sel else sel, woken).

(** The loop over the entries taken from the queue. *)
Fixpoint select_admit (temp sel woken : list D) : list D * list D :=
  match temp with
  | [] => (sel, woken)
  | data :: temp =>
      if ready data then select_admit temp sel (woken ++ [data])
      else select_admit temp (sel ++ [data]) woken
  end.

(** One turn of [run]: the scan, when [select_] is not empty, and the new
    entries. *)
Definition select_turn (sel temp : list D) : option (list D * list D) :=
  '(sel, woken) ← (match sel with [] => Some ([], []) | _ => select_scan sel end);
  Some (select_admit temp sel woken).
End select.

(** * Lemmas on the channel *)

(** A message on the ring. *)
Definition frame (m : bytes) : bytes := put_32_bit_le (zlen m) ++ m.

Lemma zlen_put32 v : zlen (put_32_bit_le v) = 4.
Proof. done. Qed.

Lemma zlen_frame m : zlen (frame m) = 4 + zlen m.
Proof. unfold frame. by rewrite zlen_app. Qed.

Lemma get_put32 v : is_u32 v -> get_32_bit_le (put_32_bit_le v) = v.
Proof.
  intros Hv. rewrite put_32_bit_le_spec. pose proof (wf_le_bytes 4 v) as Hw.
  unfold le_bytes in *. cbn [seq fmap list_fmap] in *. inv_wf Hw.
  rewrite get_32_bit_le_spec by done. cbn [le_value].
  change (256 ^ Z.of_nat 0) with 1. change (256 ^ Z.of_nat 1) with 256.
  change (256 ^ Z.of_nat 2) with 65536. change (256 ^ Z.of_nat 3) with 16777216. modlia.
Qed.

Section laws.
Context {R : Type} `{ByteRingLaws R}.

(** The frames of a queue of messages. *)
Definition framed (q : list bytes) : bytes := concat (frame <$> q).

Lemma try_write_ok (ch : shm_channel R) buf :
  ring_inv (write_ ch) -> zlen buf < 2 ^ 32 ->
  let fits := header_size + zlen buf <=? zlen (ring_free (write_ ch)) in
  exists w, try_write ch buf = Some (fits, ShmChannel w (read_ ch)) /\ ring_inv w /\
    ring_contents w = (if fits then ring_contents (write_ ch) ++ frame buf else ring_contents (write_ ch)) /\
    zlen (ring_free w) =
      (if fits then zlen (ring_free (write_ ch)) - zlen (frame buf) else zlen (ring_free (write_ ch))).
Proof.
  intros Hw Hl. cbv zeta. unfold try_write. rewrite ring_writable_law by done.
  pose proof (zlen_nonneg buf). unfold header_size.
  destruct (Z.ltb_spec (zlen (ring_free (write_ ch))) (zlen buf + 4)).
  { exists (write_ ch). rewrite (proj2 (Z.leb_gt (4 + zlen buf) _)) by lia. split_and!; try done. by destruct ch. }
  rewrite (proj2 (Z.leb_le (4 + zlen buf) _)) by lia.
  set (F := ring_free (write_ ch)) in *.
  destruct (ring_fill_law (write_ ch) (put_32_bit_le (zlen buf)) 0 Hw) as (w1 & -> & Hw1 & Hc1 & Hf1);
    [fold F; lia|rewrite zlen_put32; fold F; lia|]. cbn [mbind option_bind].
  fold F in Hf1. rewrite ztake_0, zlen_put32 in Hf1. cbn [app Z.add] in Hf1.
  assert (zlen (ring_free w1) = zlen F) as Hz1.
  { rewrite Hf1, zlen_app, zlen_put32, zlen_zdrop by lia. lia. }
  assert (exists w2, (exists b, ring_fill w1 buf 4 = Some (b, w2)) /\ ring_inv w2 /\
    ring_contents w2 = ring_contents w1 /\ zlen (ring_free w2) = zlen F /\
    ztake (zlen buf + 4) (ring_free w2) = frame buf) as (w2 & [b ->] & Hw2 & Hc2 & Hz2 & Ht2).
  { destruct (Z.eq_dec (zlen F) 4) as [E|].
    - exists w1. rewrite ring_fill_full_law by (done || lia).
      split_and!; try done; [by eexists|]. assert (zlen buf = 0) as E0 by lia.
      apply zlen_zero_inv in E0. subst buf. unfold frame. rewrite Hf1, ztake_app_le by done.
      rewrite ztake_ge by done. by rewrite app_nil_r.
    - destruct (ring_fill_law w1 buf 4 Hw1) as (w2 & -> & Hw2 & Hc2 & Hf2); [lia|lia|].
      exists w2. split_and!; try done; [by eexists| |].
      + rewrite Hf2, !zlen_app, zlen_ztake, zlen_zdrop, Hz1 by lia. lia.
      + rewrite Hf2, Hf1. rewrite (ztake_app_le 4) by done. rewrite (ztake_ge 4) by done.
        rewrite app_assoc. unfold frame. rewrite ztake_app_le by (rewrite zlen_app, zlen_put32; lia).
        apply ztake_ge. rewrite zlen_app, zlen_put32. lia. }
  cbn [mbind option_bind]. destruct (ring_write_law w2 (zlen buf + 4) Hw2) as (Hw3 & Hc3 & Hz3); [lia|].
  eexists. split; [reflexivity|]. split; [done|].
  rewrite Hc3, Hc2, Hc1, Ht2, Hz3, Hz2, zlen_frame. split; [done|lia].
Qed.

(** The front of a queue of frames. *)
Lemma framed_head (m : bytes) q :
  zlen m < 2 ^ 32 ->
  ztake 4 (framed (m :: q)) = put_32_bit_le (zlen m) /\
  ztake (zlen m) (zdrop 4 (framed (m :: q))) = m /\
  zdrop (4 + zlen m) (framed (m :: q)) = framed q /\
  zlen (framed (m :: q)) = 4 + zlen m + zlen (framed q).
Proof.
  intros Hm. unfold framed. cbn [fmap list_fmap concat]. unfold frame at 1 3 5.
  pose proof (zlen_nonneg m). rewrite <- !app_assoc. split_and!.
  - by rewrite ztake_app_le by done.
  - rewrite zdrop_app_ge by done. change (4 - zlen (put_32_bit_le (zlen m))) with 0.
    rewrite zdrop_0. apply ztake_app_length.
  - rewrite zdrop_app_ge by (rewrite zlen_put32; lia).
    replace (4 + zlen m - zlen (put_32_bit_le (zlen m))) with (zlen m) by (rewrite zlen_put32; lia).
    apply zdrop_app_length.
  - rewrite zlen_app, zlen_frame. lia.
Qed.

(** What is at the front of the ring, in the three cases of [try_read] and
    [read]. *)
Lemma peek_header (ch : shm_channel R) q :
  ring_inv (read_ ch) -> ring_contents (read_ ch) = framed q ->
  Forall (fun m => zlen m < 2 ^ 32) q ->
  exists header, ring_peek (read_ ch) header_size 0 = Some header /\
    match q with
    | [] => zlen header < header_size
    | m :: _ => header = put_32_bit_le (zlen m) /\ get_32_bit_le header = zlen m /\
        ring_readable (read_ ch) >= header_size + zlen m
    end.
Proof.
  intros Hr Hc Hq. rewrite ring_peek_law by (done || (unfold header_size; lia)).
  eexists. split; [reflexivity|]. rewrite Hc, zdrop_0. unfold header_size. destruct q as [|m q].
  - cbn. done.
  - apply list.Forall_cons in Hq as [Hm _]. destruct (framed_head m q Hm) as (-> & _ & _ & Hz).
    pose proof (zlen_nonneg m). pose proof (zlen_nonneg (framed q)).
    rewrite ring_readable_law, Hc, Hz by done. split_and!; [done|apply get_put32; word|lia].
Qed.

Lemma consume_ok (ch : shm_channel R) m q len :
  ring_inv (read_ ch) -> ring_contents (read_ ch) = framed (m :: q) -> zlen m < 2 ^ 32 ->
  len = header_size + zlen m ->
  ring_peek (read_ ch) (zlen m) header_size = Some m /\
  ring_inv (ring_read (read_ ch) len) /\ ring_contents (ring_read (read_ ch) len) = framed q /\
  zlen (ring_free (ring_read (read_ ch) len)) = zlen (ring_free (read_ ch)) + len.
Proof.
  intros Hr Hc Hm ->. destruct (framed_head m q Hm) as (_ & Hb & Hd & Hz).
  pose proof (zlen_nonneg m). pose proof (zlen_nonneg (framed q)). unfold header_size in *.
  rewrite ring_peek_law by (done || lia). rewrite Hc, Hb. split; [done|].
  destruct (ring_read_law (read_ ch) (4 + zlen m) Hr) as (? & Hc' & ?); [rewrite Hc, Hz; lia|].
  split_and!; [done| |done]. by rewrite Hc', Hc.
Qed.

Lemma try_read_ok (ch : shm_channel R) q size :
  ring_inv (read_ ch) -> ring_contents (read_ ch) = framed q -> Forall (fun m => zlen m < 2 ^ 32) q ->
  match q with
  | [] => try_read ch true size = Some (0, [], ch)
  | m :: q' =>
      if size <? zlen m then try_read ch true size = Some (0, [], ch)
      else exists r, try_read ch true size = Some (zlen m, m, ShmChannel (write_ ch) r) /\
        ring_inv r /\ ring_contents r = framed q' /\
        zlen (ring_free r) = zlen (ring_free (read_ ch)) + (header_size + zlen m)
  end.
Proof.
  intros Hr Hc Hq. unfold try_read.
  destruct (peek_header ch q Hr Hc Hq) as (header & -> & Hh). cbn [mbind option_bind].
  destruct q as [|m q]; [by rewrite (proj2 (Z.ltb_lt _ _) Hh)|]. destruct Hh as (-> & -> & Hge).
  change (zlen (put_32_bit_le (zlen m)) <? header_size) with false. cbv iota.
  rewrite (proj2 (Z.ltb_ge _ (header_size + _))) by lia. cbn [negb].
  destruct (Z.ltb_spec size (zlen m)); [done|]. apply list.Forall_cons in Hq as [Hm _].
  destruct (consume_ok ch m q (zlen m + header_size) Hr Hc Hm) as (-> & ? & ? & Hf); [lia|].
  cbn [mbind option_bind]. eexists. split; [reflexivity|]. split_and!; [done|done|lia].
Qed.

Lemma try_read_length (ch : shm_channel R) q size :
  ring_inv (read_ ch) -> ring_contents (read_ ch) = framed q -> Forall (fun m => zlen m < 2 ^ 32) q ->
  try_read ch false size = Some (match q with [] => 0 | m :: _ => zlen m end, [], ch).
Proof.
  intros Hr Hc Hq. unfold try_read.
  destruct (peek_header ch q Hr Hc Hq) as (header & -> & Hh). cbn [mbind option_bind].
  destruct q as [|m q]; [by rewrite (proj2 (Z.ltb_lt _ _) Hh)|]. destruct Hh as (-> & -> & Hge).
  change (zlen (put_32_bit_le (zlen m)) <? header_size) with false. cbv iota.
  by rewrite (proj2 (Z.ltb_ge _ (header_size + _))) by lia.
Qed.

(** A resumption, or the first run, of [read]. *)
Lemma read_any_ok (ch : shm_channel R) q w :
  ring_inv (read_ ch) -> ring_contents (read_ ch) = framed q -> Forall (fun m => zlen m < 2 ^ 32) q ->
  (forall len, w = WaitBody len -> exists m q', q = m :: q' /\ len = zlen m) ->
  match q with
  | [] => read_resume ch w = Some (inl WaitLength)
  | m :: q' => exists r, read_resume ch w = Some (inr (m, ShmChannel (write_ ch) r)) /\
      ring_inv r /\ ring_contents r = framed q' /\
      zlen (ring_free r) = zlen (ring_free (read_ ch)) + (header_size + zlen m)
  end.
Proof.
  intros Hr Hc Hq Hw. pose proof (peek_header ch q Hr Hc Hq) as (header & Hp & Hh).
  assert (forall m q', q = m :: q' ->
    exists r, read_body ch (zlen m) = Some (inr (m, ShmChannel (write_ ch) r)) /\
      ring_inv r /\ ring_contents r = framed q' /\
      zlen (ring_free r) = zlen (ring_free (read_ ch)) + (header_size + zlen m)) as Hbody.
  { intros m q' ->. destruct Hh as (_ & _ & Hge). unfold read_body.
    rewrite (proj2 (Z.ltb_ge _ (header_size + _))) by lia. apply list.Forall_cons in Hq as [Hm _].
    destruct (consume_ok ch m q' (header_size + zlen m) Hr Hc Hm eq_refl) as (-> & ? & ? & ?).
    cbn [mbind option_bind]. by eexists. }
  destruct w as [|len]; cbn [read_resume].
  - unfold read_length. rewrite Hp. cbn [mbind option_bind].
    destruct q as [|m q]; [by rewrite (proj2 (Z.ltb_lt _ _) Hh)|]. destruct Hh as (-> & -> & Hge).
    change (zlen (put_32_bit_le (zlen m)) <? header_size) with false. by apply Hbody.
  - destruct (Hw len eq_refl) as (m & q' & -> & ->). by apply Hbody.
Qed.
End laws.

(** * Lemmas on the polling loop *)

Section select_lemmas.
Context {D : Type} (ready : D -> bool).

Definition kept (l : list D) : list D := filter (fun d => ready d = false) l.
Definition woken (l : list D) : list D := filter (fun d => ready d = true) l.

Lemma kept_snoc l d : kept (l ++ [d]) = kept l ++ (if ready d then [] else [d]).
Proof.
  unfold kept. rewrite list.filter_app. f_equal. rewrite list.filter_cons.
  by destruct (ready d).
Qed.

Lemma woken_snoc l d : woken (l ++ [d]) = woken l ++ (if ready d then [d] else []).
Proof.
  unfold woken. rewrite list.filter_app. f_equal. rewrite list.filter_cons.
  by destruct (ready d).
Qed.

Lemma length_kept l : (length (kept l) <= length l)%nat.
Proof. apply length_filter. Qed.

Lemma kept_all l : woken l = [] -> kept l = l.
Proof.
  unfold kept, woken. induction l as [|d l IH]; [done|]. rewrite !list.filter_cons.
  destruct (ready d); cbn; [done|]. intros ?. f_equal. by apply IH.
Qed.

Lemma kept_woken_length l : (length (kept l) + length (woken l) = length l)%nat.
Proof.
  unfold kept, woken. induction l as [|d l IH]; [done|]. rewrite !list.filter_cons.
  destruct (ready d); [rewrite decide_False, decide_True by done|rewrite decide_True, decide_False by done];
    cbn [length]; lia.
Qed.

(** The scan after the entries [pre]: the kept ones are packed in front, the
    entries to come are in place. *)
Definition scanning (l pre post : list D) (s : list D * nat * list D) : Prop :=
  let '(sel, w, wk) := s in
  l = pre ++ post /\ wk = woken pre /\ drop (length pre) sel = post /\ length sel = length l /\
  (if decide (woken pre = []) then w = length l /\ sel = l
   else w = length (kept pre) /\ take w sel = kept pre /\ (w < length pre)%nat).

Lemma select_step_ok l pre d post s :
  scanning l pre (d :: post) s ->
  exists s', select_step ready s (length l) (length pre) = Some s' /\ scanning l (pre ++ [d]) post s'.
Proof.
  destruct s as [[sel w] wk]. intros (Hl & -> & Hd & Hlen & Hw). unfold select_step.
  assert (sel !! length pre = Some d) as Hat.
  { rewrite <- (Nat.add_0_r (length pre)), <- lookup_drop, Hd. done. }
  rewrite Hat. cbn [mbind option_bind].
  assert (l = (pre ++ [d]) ++ post) as Hl' by (by rewrite <- app_assoc).
  assert (length l = (length pre + S (length post))%nat) as Hll by (rewrite Hl, length_app; done).
  assert (forall sel', drop (length pre) sel' = d :: post -> drop (length (pre ++ [d])) sel' = post) as Hdrop.
  { intros sel' E. rewrite length_app, <- drop_drop, E. done. }
  pose proof (kept_woken_length pre) as Hkw.
  destruct (ready d) eqn:Er.
  - eexists. split; [reflexivity|]. split_and!; try done; [by rewrite woken_snoc, Er|by apply Hdrop|].
    rewrite woken_snoc, kept_snoc, Er, app_nil_r.
    rewrite decide_False by (intros E; by apply app_nil in E as [_ ?]).
    destruct (decide (woken pre = [])) as [E|E].
    + destruct Hw as [-> ->]. rewrite Nat.eqb_refl, kept_all by done. split_and!; [done| |].
      * rewrite Hl. apply take_app_length.
      * rewrite length_app. cbn. lia.
    + destruct Hw as (-> & Ht & Hlt). rewrite (proj2 (Nat.eqb_neq _ _)) by lia.
      split_and!; [done|done|]. rewrite length_app. cbn. lia.
  - destruct (decide (woken pre = [])) as [E|E].
    + destruct Hw as [-> ->]. rewrite Nat.ltb_irrefl. eexists. split; [reflexivity|].
      split_and!; try done; [by rewrite woken_snoc, Er, app_nil_r|by apply Hdrop|].
      by rewrite woken_snoc, Er, app_nil_r, decide_True by done.
    + destruct Hw as (-> & Ht & Hlt). rewrite (proj2 (Nat.ltb_lt _ _)) by lia.
      eexists. split; [reflexivity|].
      split_and!; try done.
      * by rewrite woken_snoc, Er, app_nil_r.
      * apply Hdrop. by rewrite drop_insert_lt by lia.
      * by rewrite length_insert.
      * rewrite woken_snoc, Er, app_nil_r, decide_False by done.
        rewrite kept_snoc, Er, !length_app. cbn. split_and!; [lia| |lia].
        rewrite (take_S_r _ _ d) by (rewrite list_lookup_insert_eq; [done|lia]).
        by rewrite take_insert_ge, Ht by lia.
Qed.

Lemma select_loop_ok n l pre post s :
  n = length post -> scanning l pre post s ->
  exists s', select_loop ready n s (length l) (length pre) = Some s' /\ scanning l l [] s'.
Proof.
  revert pre post s. induction n as [|n IH]; intros pre post s Hn Hs; cbn [select_loop].
  - destruct post; [|done]. exists s. split; [done|]. destruct s as [[? ?] ?].
    assert (l = pre ++ []) as E by apply Hs. rewrite app_nil_r in E. by subst.
  - destruct post as [|d post]; [done|].
    destruct (select_step_ok l pre d post s Hs) as (s' & -> & Hs'). cbn [mbind option_bind].
    replace (S (length pre)) with (length (pre ++ [d])) by (rewrite length_app; cbn; lia).
    apply (IH _ post); [cbn in Hn; lia|done].
Qed.

Lemma select_scan_ok l : select_scan ready l = Some (kept l, woken l).
Proof.
  unfold select_scan.
  destruct (select_loop_ok (length l) l [] l (l, length l, []) eq_refl) as ([[sel w] wk] & E & Hs).
  { by split_and!. }
  change (length []) with 0%nat in E. rewrite E. clear E.
  cbn [mbind option_bind]. destruct Hs as (_ & -> & _ & Hl & Hw).
  destruct (decide (woken l = [])) as [E|E].
  - destruct Hw as [-> ->]. rewrite Nat.eqb_refl. cbn. by rewrite kept_all.
  - destruct Hw as (-> & Ht & Hlt). rewrite (proj2 (Nat.eqb_neq _ _)) by lia. cbn. by rewrite Ht.
Qed.

Lemma select_admit_ok temp sel wk :
  select_admit ready temp sel wk = (sel ++ kept temp, wk ++ woken temp).
Proof.
  revert sel wk. induction temp as [|d temp IH]; intros sel wk; cbn [select_admit].
  - by rewrite !app_nil_r.
  - unfold kept, woken in *. rewrite !list.filter_cons.
    destruct (ready d); cbn; rewrite IH, <- !app_assoc; done.
Qed.
End select_lemmas.

(** * Properties *)

(** Two processes: the channel of the first writes the ring the second
    reads, and the other way round. *)
Record link := Link { forth : shm_buffer; back : shm_buffer }.

Definition end_of (first : bool) (l : link) : shm_channel shm_buffer :=
  if first then ShmChannel (forth l) (back l) else ShmChannel (back l) (forth l).

Definition put_end (first : bool) (ch : shm_channel shm_buffer) : link :=
  if first then Link (write_ ch) (read_ ch) else Link (read_ ch) (write_ ch).

Inductive link_op := Send (first : bool) (m : bytes) | Recv (first : bool) (size : Z).
Inductive link_out := Sent (ok : bool) | Received (len : Z) (m : bytes).

Definition link_step (l : link) (op : link_op) : option (link_out * link) :=
  match op with
  | Send first m => '(ok, ch) ← try_write (end_of first l) m; Some (Sent ok, put_end first ch)
  | Recv first size => '(len, m, ch) ← try_read (end_of first l) true size; Some (Received len m, put_end first ch)
  end.

Fixpoint link_run (l : link) (ops : list link_op) : option (list link_out * link) :=
  match ops with
  | [] => Some ([], l)
  | op :: ops => '(o, l) ← link_step l op; '(os, l) ← link_run l ops; Some (o :: os, l)
  end.

(** The specification: a bounded queue of messages in each direction. *)
Definition push_msg (size : Z) (q : list bytes) (m : bytes) : bool * list bytes :=
  if zlen (framed q) + (4 + zlen m) <=? size then (true, q ++ [m]) else (false, q).

Definition pop_msg (q : list bytes) (size : Z) : Z * bytes * list bytes :=
  match q with
  | [] => (0, [], [])
  | m :: q' => if size <? zlen m then (0, [], q) else (zlen m, m, q')
  end.

Definition msg_step (size : Z) (qs : list bytes * list bytes) (op : link_op)
    : link_out * (list bytes * list bytes) :=
  let '(f, b) := qs in
  match op with
  | Send true m => let '(ok, f) := push_msg size f m in (Sent ok, (f, b))
  | Send false m => let '(ok, b) := push_msg size b m in (Sent ok, (f, b))
  | Recv true n => let '(len, m, b) := pop_msg b n in (Received len m, (f, b))
  | Recv false n => let '(len, m, f) := pop_msg f n in (Received len m, (f, b))
  end.

Fixpoint msg_run (size : Z) (qs : list bytes * list bytes) (ops : list link_op)
    : list link_out * (list bytes * list bytes) :=
  match ops with
  | [] => ([], qs)
  | op :: ops =>
      let '(o, qs) := msg_step size qs op in
      let '(os, qs) := msg_run size qs ops in
      (o :: os, qs)
  end.

Definition link_op_ok (op : link_op) : Prop :=
  match op with Send _ m => zlen m < 2 ^ 32 | Recv _ _ => True end.

(** A ring that holds the frames of [q]. *)
Definition holds (size : Z) (r : shm_buffer) (q : list bytes) : Prop :=
  ring_inv r /\ ring_contents r = framed q /\ zlen (ring_free r) = size - zlen (framed q) /\
  Forall (fun m => zlen m < 2 ^ 32) q.

Lemma framed_snoc q m : framed (q ++ [m]) = framed q ++ frame m.
Proof. unfold framed. rewrite fmap_app, concat_app. cbn. by rewrite app_nil_r. Qed.

Lemma send_ok size (ch : shm_channel shm_buffer) q m :
  holds size (write_ ch) q -> zlen m < 2 ^ 32 ->
  exists w, try_write ch m = Some (fst (push_msg size q m), ShmChannel w (read_ ch)) /\
    holds size w (snd (push_msg size q m)).
Proof.
  intros (Hi & Hc & Hf & Hq) Hm. destruct (try_write_ok ch m Hi Hm) as (w & -> & Hw & Hcw & Hfw).
  exists w. unfold push_msg. rewrite Hc, Hf in *. unfold header_size in *.
  replace (4 + zlen m <=? size - zlen (framed q)) with (zlen (framed q) + (4 + zlen m) <=? size) in *
    by (destruct (Z.leb_spec (zlen (framed q) + (4 + zlen m)) size); lia).
  destruct (_ <=? size); cbn; (split; [done|]); split_and!; try done.
  - by rewrite framed_snoc.
  - rewrite Hfw, framed_snoc, zlen_app. lia.
  - apply Forall_app_2; [done|]. by constructor.
Qed.

Lemma channel_recv_ok size (ch : shm_channel shm_buffer) q n :
  holds size (read_ ch) q ->
  exists r, try_read ch true n = Some (fst (pop_msg q n), ShmChannel (write_ ch) r) /\
    holds size r (snd (pop_msg q n)).
Proof.
  intros (Hi & Hc & Hf & Hq). pose proof (try_read_ok ch q n Hi Hc Hq) as Hr. unfold pop_msg.
  destruct q as [|m q]; [rewrite Hr; exists (read_ ch); destruct ch; done|].
  destruct (n <? zlen m); [rewrite Hr; exists (read_ ch); destruct ch; done|].
  destruct Hr as (r & -> & Hri & Hrc & Hrf). exists r. split; [done|].
  apply list.Forall_cons in Hq as [Hm Hq]. destruct (framed_head m q Hm) as (_ & _ & _ & Hz).
  split_and!; try done. rewrite Hrf, Hf, Hz. unfold header_size. cbn [snd]. lia.
Qed.

Lemma link_step_ok size l f b op :
  holds size (forth l) f -> holds size (back l) b -> link_op_ok op ->
  exists l', link_step l op = Some (fst (msg_step size (f, b) op), l') /\
    holds size (forth l') (fst (snd (msg_step size (f, b) op))) /\
    holds size (back l') (snd (snd (msg_step size (f, b) op))).
Proof.
  intros Hf Hb Hop. destruct op as [[] m|[] n]; cbn [link_step msg_step end_of put_end].
  - destruct (send_ok size (ShmChannel (forth l) (back l)) f m Hf Hop) as (w & -> & Hw).
    destruct (push_msg size f m). cbn in *. by eexists.
  - destruct (send_ok size (ShmChannel (back l) (forth l)) b m Hb Hop) as (w & -> & Hw).
    destruct (push_msg size b m). cbn in *. by eexists.
  - destruct (channel_recv_ok size (ShmChannel (forth l) (back l)) b n Hb) as (r & -> & Hr).
    destruct (pop_msg b n) as [[? ?] ?]. cbn in *. by eexists.
  - destruct (channel_recv_ok size (ShmChannel (back l) (forth l)) f n Hf) as (r & -> & Hr).
    destruct (pop_msg f n) as [[? ?] ?]. cbn in *. by eexists.
Qed.

Lemma link_run_ok size l f b ops :
  holds size (forth l) f -> holds size (back l) b -> Forall link_op_ok ops ->
  exists l', link_run l ops = Some (fst (msg_run size (f, b) ops), l').
Proof.
  intros Hf Hb Hops. revert l f b Hf Hb. induction Hops as [|op ops Hop _ IH]; intros l f b Hf Hb.
  - by exists l.
  - cbn [link_run msg_run]. destruct (link_step_ok size l f b op Hf Hb Hop) as (l1 & -> & Hf1 & Hb1).
    destruct (msg_step size (f, b) op) as [o [f1 b1]]. cbn in *.
    destruct (IH l1 f1 b1 Hf1 Hb1) as (l2 & ->). destruct (msg_run size (f1, b1) ops). cbn. by exists l2.
Qed.

Lemma created_holds size : 0 < size < 2 ^ 62 -> holds size (shm_create size) [].
Proof.
  intros Hs. destruct (shm_create_ok size Hs) as [Hwf Hc]. split_and!; [done|done| |constructor].
  change (zlen (free_bytes (shm_create size)) = size - 0). by rewrite zlen_free by done.
Qed.

(** C2: the channel is a pair of bounded FIFO queues of messages: over any
    interleaving of [try_write] and [try_read] at the two ends, whatever is
    read is what was written, whole and in order, a message is refused exactly
    when its frame does not fit, and no access leaves the segments. *)
Theorem shm_channel_fifo (size : Z) (ops : list link_op) :
  0 < size < 2 ^ 62 -> Forall link_op_ok ops ->
  exists l, link_run (Link (shm_create size) (shm_create size)) ops =
    Some (fst (msg_run size ([], []) ops), l).
Proof. intros Hs Hops. apply link_run_ok; [by apply created_holds..|done]. Qed.

Lemma shm_channel_fifo_witness :
  let ops := [Send true [1; 2]; Send false []; Recv false 8; Recv true 8; Send true [1; 2; 3; 4; 5; 6; 7]] in
  Forall link_op_ok ops /\
  exists l, link_run (Link (shm_create 10) (shm_create 10)) ops = Some (fst (msg_run 10 ([], []) ops), l).
Proof.
  intros ops. assert (Forall link_op_ok ops) as H by (repeat constructor; cbn; vm_compute; reflexivity).
  split; [exact H|]. apply (shm_channel_fifo 10 ops); [lia|exact H].
Defined.

(** A blocked [read] or [write] is woken exactly when it can finish: the
    condition the polling thread checks for a suspended [read] holds iff a
    message is there, and then the resumption returns the first message;
    for a suspended [write] it holds iff the retry succeeds. *)
Theorem wakeup_completes (R : Type) (HR : ByteRing R) (HL : ByteRingLaws R) (ch : shm_channel R)
    (q : list bytes) (w : read_wait) (m : bytes) :
  ring_inv (read_ ch) -> ring_contents (read_ ch) = framed q -> Forall (fun m => zlen m < 2 ^ 32) q ->
  (forall len, w = WaitBody len -> exists m q', q = m :: q' /\ len = zlen m) ->
  ring_inv (write_ ch) -> zlen m < 2 ^ 32 ->
  (is_ready (SelectData ch true (wait_size w)) = true <->
     exists m' ch', read_resume ch w = Some (inr (m', ch')) /\ head q = Some m') /\
  (is_ready (SelectData ch true (wait_size w)) = false -> read_resume ch w = Some (inl WaitLength)) /\
  (is_ready (SelectData ch false (need_writable m)) = true <->
     exists ch', write_resume ch m = Some (Some ch')).
Proof.
  intros Hr Hc Hq Hw Hwr Hm. pose proof (read_any_ok ch q w Hr Hc Hq Hw) as Hread.
  unfold is_ready. cbn [sd_read sd_size sd_channel]. rewrite ring_readable_law, Hc by done. split_and!.
  - destruct q as [|m0 q].
    + destruct w as [|len]; [|destruct (Hw len eq_refl) as (? & ? & ? & _); done]. rewrite Hread.
      split; [done|]. by intros (? & ? & ? & ?).
    + destruct Hread as (r & E & _). rewrite E. split; [by intros _; eexists _, _|]. intros _.
      apply list.Forall_cons in Hq as [Hm0 _]. destruct (framed_head m0 q Hm0) as (_ & _ & _ & Hz).
      pose proof (zlen_nonneg m0). pose proof (zlen_nonneg (framed q)).
      apply Z.leb_le. rewrite Hz. destruct w as [|len]; cbn [wait_size]; unfold header_size; [lia|].
      destruct (Hw len eq_refl) as (? & ? & [= <- <-] & ->). lia.
  - destruct q as [|m0 q]; [done|]. intros Hlt%Z.leb_gt.
    apply list.Forall_cons in Hq as [Hm0 _]. destruct (framed_head m0 q Hm0) as (_ & _ & _ & Hz).
    pose proof (zlen_nonneg m0). pose proof (zlen_nonneg (framed q)). rewrite Hz in Hlt.
    destruct w as [|len]; cbn [wait_size] in Hlt; unfold header_size in Hlt; [lia|].
    destruct (Hw len eq_refl) as (? & ? & [= <- <-] & ->). lia.
  - rewrite ring_writable_law by done. unfold write_resume, need_writable.
    destruct (try_write_ok ch m Hwr Hm) as (w' & -> & _). cbn [mbind option_bind].
    destruct (header_size + zlen m <=? zlen (ring_free (write_ ch))).
    + split; [by eexists|done].
    + split; [done|by intros (? & ?)].
Qed.

Lemma wakeup_completes_witness :
  let ch := ShmChannel (shm_create 8) (shm_create 8) in
  (is_ready (SelectData ch true (wait_size WaitLength)) = true <->
     exists m' ch', read_resume ch WaitLength = Some (inr (m', ch')) /\ head (@nil bytes) = Some m') /\
  (is_ready (SelectData ch true (wait_size WaitLength)) = false -> read_resume ch WaitLength = Some (inl WaitLength)) /\
  (is_ready (SelectData ch false (need_writable [7])) = true <->
     exists ch', write_resume ch [7] = Some (Some ch')).
Proof.
  intros ch. destruct (shm_create_ok 8 ltac:(lia)) as [Hwf Hc].
  apply (wakeup_completes shm_buffer _ _ ch [] WaitLength [7]).
  - exact Hwf.
  - exact Hc.
  - constructor.
  - intros len Hlen. discriminate Hlen.
  - exact Hwf.
  - vm_compute. reflexivity.
Defined.

(** One turn of the polling thread wakes exactly the entries that are
    ready, the waiting ones before the new ones, and keeps the others in
    order: the in-place compaction loses and duplicates nothing. *)
Theorem select_turn_partition (D : Type) (ready : D -> bool) (sel temp : list D) :
  select_turn ready sel temp =
    Some (filter (fun d => ready d = false) (sel ++ temp),
          filter (fun d => ready d = true) (sel ++ temp)).
Proof.
  unfold select_turn. destruct sel as [|d sel].
  - cbn [mbind option_bind]. by rewrite select_admit_ok.
  - rewrite select_scan_ok. cbn [mbind option_bind]. rewrite select_admit_ok.
    unfold kept, woken. by rewrite !list.filter_app.
Qed.
