(* ===== verification/Network.v ===== *)
(** The coroutine side of the network (src/runtime/src/coro/network.cpp):
    the table of sockets, the awaiter, the reading operations and the handlers
    the socket thread posts. Sending, listening and connecting are calls to
    [socket_system] (asio); they appear as the effects of an operation.

    A coroutine is a handle and the operation it is suspended in. A handler
    that resumes a coroutine runs it to its next suspension, as
    [handle.resume()] does. *)

From stdpp Require Import gmap.
From S2P Require Import Prelude Buffer.

(** * Error codes

    [std::error_code]: a category and a number; it converts to [true] when
    the number is not zero. *)

Inductive error_category := system_category | generic_category | socket_category | coro_category | asio_misc_category.

Record error_code := ErrorCode { ec_category : error_category; ec_value : Z }.

#[export] Instance error_category_dec : EqDecision error_category.
Proof. solve_decision. Defined.

#[export] Instance error_code_dec : EqDecision error_code.
Proof. solve_decision. Defined.

Definition no_error : error_code := ErrorCode system_category 0.

Definition ec_true (ec : error_code) : bool := negb (ec_value ec =? 0).

(** [socket_errors] and [coro_errors], numbered from zero. *)
Inductive socket_errors :=
  | kcp_check_failed | kcp_heartbeat_timeout | kcp_protocol_error | initiative_disconnect.

Inductive coro_errors := canceled | broken_promise | invalid_action.

Definition socket_error (e : socket_errors) : error_code :=
  ErrorCode socket_category
    (match e with
     | kcp_check_failed => 0 | kcp_heartbeat_timeout => 1
     | kcp_protocol_error => 2 | initiative_disconnect => 3
     end).

Definition coro_error (e : coro_errors) : error_code :=
  ErrorCode coro_category
    (match e with canceled => 0 | broken_promise => 1 | invalid_action => 2 end).

(** [std::make_error_code(std::errc::timed_out)]. *)
Definition timed_out : error_code := ErrorCode generic_category 110.

(** [asio::error::eof]. *)
Definition eof : error_code := ErrorCode asio_misc_category 2.

(** * Socket ids *)

Definition socket_class_mask : Z := 3.
Definition socket_class_server : Z := 1.
Definition socket_class_client : Z := 3.

Definition get_socket_class (id : Z) : Z := Z.land id socket_class_mask.

(** * Sockets and the awaiter *)

Record network_data := NetworkData {
  nd_id : Z;
  ec : error_code;
  buf : memory_buffer;
  accepted : list Z;
  handle : option nat;
  local : bytes;
  remote : bytes }.

Definition set_handle (h : option nat) (d : network_data) : network_data :=
  NetworkData (nd_id d) (ec d) (buf d) (accepted d) h (local d) (remote d).

Definition set_buf (b : memory_buffer) (d : network_data) : network_data :=
  NetworkData (nd_id d) (ec d) b (accepted d) (handle d) (local d) (remote d).

Definition set_ec (e : error_code) (d : network_data) : network_data :=
  NetworkData (nd_id d) e (buf d) (accepted d) (handle d) (local d) (remote d).

Definition set_accepted (l : list Z) (d : network_data) : network_data :=
  NetworkData (nd_id d) (ec d) (buf d) l (handle d) (local d) (remote d).

Definition set_local (l : bytes) (d : network_data) : network_data :=
  NetworkData (nd_id d) (ec d) (buf d) (accepted d) (handle d) l (remote d).

(** [network_awaiter::await_suspend] of coroutine [h]: [None] is [false]. *)
Definition await_suspend (h : nat) (cancelled : bool) (d : network_data) : option network_data :=
  match handle d with
  | Some _ => None
  | None => if cancelled then None else Some (set_handle (Some h) d)
  end.

(** [network_awaiter::await_resume]: the error thrown, or the data with the
    handle cleared. *)
Definition await_resume (h : nat) (cancelled : bool) (d : network_data) : error_code + network_data :=
  if cancelled then inl (coro_error canceled)
  else if negb (bool_decide (handle d = Some h)) then inl (coro_error invalid_action)
  else if ec_true (ec d) && negb (bool_decide (ec d = eof)) then inl (ec d)
  else inr (set_handle None d).

(** * Operations on one socket *)

(** [std::string_view::find]. *)
Definition starts_with (s p : bytes) : bool := bool_decide (take (length p) s = p).

Fixpoint find_sub (s p : bytes) : option nat :=
  if starts_with s p then Some 0%nat
  else match s with [] => None | _ :: s => S <$> find_sub s p end.

(** Where a coroutine is in its operation. [OpUntil] has the delimiter and the
    buffer of the caller. *)
Inductive net_op :=
  | OpStarted                                   (* listen and connect *)
  | OpAccept
  | OpRead (size : Z)
  | OpReadSize (size : Z)
  | OpReadUntil (delim : bytes) (out : memory_buffer).

(** What the operation returns: for [read] and [read_size] the bytes copied
    out, for [read_until] the returned size and the caller's buffer. *)
Inductive net_result :=
  | RStarted
  | RAccepted (id : Z)
  | RBytes (bs : bytes)
  | RUntil (n : Z) (out : memory_buffer).

(** One stretch of a coroutine: it returns, or it reaches
    [co_await network_awaiter(ptr)] in the given state. *)
Inductive stretch := Done (r : net_result) (d : network_data) | Await (op : net_op) (d : network_data).

Section ops.
Context (garbage : nat -> Z).

(** [memcpy] of the first [len] readable bytes, and [read(len)]. *)
Definition take_bytes (d : network_data) (len : Z) : option (bytes * network_data) :=
  bs ← load (Buffer.data_ (mb_base (buf d))) (Buffer.read_ (mb_base (buf d))) len;
  Some (bs, set_buf (mb_read (buf d) len) d).

Definition read_finish (d : network_data) (size : Z) : option stretch :=
  '(bs, d) ← take_bytes d (Z.min (readable (mb_base (buf d))) size);
  Some (Done (RBytes bs) d).

Definition accept_finish (d : network_data) : stretch :=
  match accepted d with
  | [] => Done (RAccepted 0) d
  | id :: l => Done (RAccepted id) (set_accepted l d)
  end.

(** One turn of the loop of [read_until]. *)
Definition until_turn (d : network_data) (delim : bytes) (out : memory_buffer) : option stretch :=
  strv ← view (mb_base (buf d));
  match find_sub strv delim with
  | Some pos =>
      let len := Z.of_nat pos + zlen delim in
      out ← mb_append garbage out (ztake len strv);
      let d := set_buf (mb_read (buf d) len) d in
      Some (Done (RUntil (readable (mb_base out)) out) d)
  | None =>
      if zlen delim <=? zlen strv then
        let len := zlen strv - zlen delim + 1 in
        out ← mb_append garbage out (ztake len strv);
        Some (Await (OpReadUntil delim out) (set_buf (mb_read (buf d) len) d))
      else Some (Await (OpReadUntil delim out) d)
  end.

(** From the start of the operation to its first suspension. *)
Definition op_start (op : net_op) (d : network_data) : option stretch :=
  match op with
  | OpStarted => Some (Await OpStarted d)
  | OpAccept => match accepted d with [] => Some (Await OpAccept d) | _ => Some (accept_finish d) end
  | OpRead size =>
      if readable (mb_base (buf d)) =? 0 then Some (Await (OpRead size) d) else read_finish d size
  | OpReadSize size =>
      if readable (mb_base (buf d)) <? size then Some (Await (OpReadSize size) d)
      else '(bs, d) ← take_bytes d size; Some (Done (RBytes bs) d)
  | OpReadUntil delim out => until_turn d delim out
  end.

(** After the [co_await]. *)
Definition op_resumed (op : net_op) (d : network_data) : option stretch :=
  match op with
  | OpStarted => Some (Done RStarted d)
  | OpAccept => Some (accept_finish d)
  | OpRead size => if ec_true (ec d) then Some (Done (RBytes []) d) else read_finish d size
  | OpReadSize size => if ec_true (ec d) then Some (Done (RBytes []) d) else op_start (OpReadSize size) d
  | OpReadUntil delim out =>
      if ec_true (ec d) then Some (Done (RUntil 0 out) d) else op_start (OpReadUntil delim out) d
  end.

(** A coroutine's next state: returned, thrown, or suspended. *)
Inductive next := Returned (r : net_result) | Threw (e : error_code) | Suspended (op : net_op).

(** The [co_await]: a refused suspension resumes at once. *)
Definition run_stretch (h : nat) (cancelled : bool) (s : stretch) : option (next * network_data) :=
  match s with
  | Done r d => Some (Returned r, d)
  | Await op d =>
      match await_suspend h cancelled d with
      | Some d => Some (Suspended op, d)
      | None =>
          match await_resume h cancelled d with
          | inl e => Some (Threw e, d)
          | inr _ => None  (* the coroutine is its own predecessor: not reachable *)
          end
      end
  end.

Definition begin_op (h : nat) (cancelled : bool) (op : net_op) (d : network_data)
    : option (next * network_data) :=
  s ← op_start op d; run_stretch h cancelled s.

Definition resume_op (h : nat) (cancelled : bool) (op : net_op) (d : network_data)
    : option (next * network_data) :=
  match await_resume h cancelled d with
  | inl e => Some (Threw e, d)
  | inr d => s ← op_resumed op d; run_stretch h cancelled s
  end.

(** [hand_read] on the socket it finds. *)
Definition receive (d : network_data) (data : bytes) : option network_data :=
  b ← (if capacity_ (mb_base (buf d)) / 4 <=? prependable (mb_base (buf d))
       then mb_shrink (buf d) else Some (buf d));
  b ← mb_append garbage b data;
  Some (set_buf b d).

(** * The table of sockets

    [sockets_] maps ids to shared objects; a suspended coroutine keeps its
    object alive after the id has been erased. *)

Record net := Net {
  sockets_ : gmap Z nat;
  objects : gmap nat network_data;
  fresh : nat;
  pending : gmap nat (nat * net_op) }.

Definition net_empty : net := Net ∅ ∅ 0 ∅.

(** Calls to [socket_system]. *)
Inductive effect := SysAccept (id : Z) | SysClose (id : Z).

Definition result := (nat * (net_result + error_code))%type.

(** The coroutine [h] of object [ptr] has run to [r]. *)
Definition settle (n : net) (h ptr : nat) (r : next * network_data) : net * list result * list effect :=
  let objects := <[ptr := snd r]> (objects n) in
  match fst r with
  | Returned res =>
      (Net (sockets_ n) objects (fresh n) (delete h (pending n)), [(h, inl res)],
       match res with RAccepted id => if id =? 0 then [] else [SysAccept id] | _ => [] end)
  | Threw e => (Net (sockets_ n) objects (fresh n) (delete h (pending n)), [(h, inr e)], [])
  | Suspended op => (Net (sockets_ n) objects (fresh n) (<[h := (ptr, op)]> (pending n)), [], [])
  end.

(** [handle.resume()]. *)
Definition resume (n : net) (h : nat) (cancelled : bool) : option (net * list result * list effect) :=
  '(ptr, op) ← pending n !! h;
  d ← objects n !! ptr;
  r ← resume_op h cancelled op d;
  Some (settle n h ptr r).

Definition resume_opt (n : net) (h : option nat) : option (net * list result * list effect) :=
  match h with Some h => resume n h false | None => Some (n, [], []) end.

(** [accept], [read], [read_size] and [read_until] called by coroutine [h]. *)
Definition op_allowed (op : net_op) (id : Z) : bool :=
  match op with
  | OpStarted => true
  | OpAccept => get_socket_class id =? socket_class_server
  | OpReadUntil delim _ =>
      negb (zlen delim =? 0) && negb (get_socket_class id =? socket_class_server)
  | OpRead _ | OpReadSize _ => negb (get_socket_class id =? socket_class_server)
  end.

Definition call_op (n : net) (h : nat) (cancelled : bool) (op : net_op) (id : Z)
    : option (net * list result * list effect) :=
  if negb (op_allowed op id) then Some (n, [(h, inr (coro_error invalid_action))], [])
  else
    match sockets_ n !! id with
    | None => Some (n, [(h, inr (coro_error invalid_action))], [])
    | Some ptr =>
        d ← objects n !! ptr;
        r ← begin_op h cancelled op d;
        Some (settle n h ptr r)
    end.

(** A fresh object under [id]; [emplace] keeps an entry that is there. *)
Definition add_socket (n : net) (id : Z) (d : network_data) : net * nat :=
  (Net (match sockets_ n !! id with Some _ => sockets_ n | None => <[id := fresh n]> (sockets_ n) end)
     (<[fresh n := d]> (objects n)) (S (fresh n)) (pending n), fresh n).

(** [create_start_awaiter] and the [co_await] of the listen and connect
    operations; [id] and [address] come from [socket_system]. *)
Definition call_start (n : net) (h : nat) (cancelled : bool) (id : Z) (address : bytes)
    : option (net * list result * list effect) :=
  let server := get_socket_class id =? socket_class_server in
  let d := NetworkData id no_error (mb_make memory_buffer_fixed 0) [] None
             (if server then address else []) (if server then [] else address) in
  let '(n, ptr) := add_socket n id d in
  r ← begin_op h cancelled OpStarted d;
  Some (settle n h ptr r).

Definition hand_start (n : net) (id : Z) (local : bytes) : option (net * list result * list effect) :=
  match sockets_ n !! id with
  | None => Some (n, [], [])
  | Some ptr =>
      d ← objects n !! ptr;
      match handle d with
      | None => Some (n, [], [])
      | Some h =>
          let d := if get_socket_class id =? socket_class_client then set_local local d else d in
          resume (Net (sockets_ n) (<[ptr := d]> (objects n)) (fresh n) (pending n)) h false
      end
  end.

Definition hand_stop (n : net) (id : Z) (e : error_code) : option (net * list result * list effect) :=
  match sockets_ n !! id with
  | None => Some (n, [], [])
  | Some ptr =>
      d ← objects n !! ptr;
      resume_opt (Net (delete id (sockets_ n)) (<[ptr := set_ec e d]> (objects n)) (fresh n) (pending n)) (handle d)
  end.

Definition hand_read (n : net) (id : Z) (data : bytes) : option (net * list result * list effect) :=
  match sockets_ n !! id with
  | None => Some (n, [], [])
  | Some ptr =>
      d ← objects n !! ptr;
      d ← receive d data;
      resume_opt (Net (sockets_ n) (<[ptr := d]> (objects n)) (fresh n) (pending n)) (handle d)
  end.

Definition close (n : net) (id : Z) : option (net * list result * list effect) :=
  '(n, rs, es) ← hand_stop n id (socket_error initiative_disconnect);
  Some (n, rs, SysClose id :: es).

Definition hand_accept (n : net) (id acc : Z) (local remote : bytes)
    : option (net * list result * list effect) :=
  match sockets_ n !! id with
  | None => close n acc
  | Some ptr =>
      let d := NetworkData acc no_error (mb_make memory_buffer_fixed 0) [] None local remote in
      let '(n, _) := add_socket n acc d in
      l ← objects n !! ptr;
      resume_opt (Net (sockets_ n) (<[ptr := set_accepted (accepted l ++ [acc]) l]> (objects n))
                    (fresh n) (pending n)) (handle l)
  end.

Definition remove_socket (n : net) (id : Z) : bool * net :=
  (bool_decide (is_Some (sockets_ n !! id)),
   Net (delete id (sockets_ n)) (objects n) (fresh n) (pending n)).

(** The cancellation callback of a suspended awaiter: the socket is removed
    and the coroutine woken with the token cancelled. *)
Definition cancel (n : net) (h : nat) : option (net * list result * list effect) :=
  '(ptr, _) ← pending n !! h;
  d ← objects n !! ptr;
  resume (snd (remove_socket n (nd_id d))) h true.

Definition local_address (n : net) (id : Z) : bytes :=
  from_option local [] (ptr ← sockets_ n !! id; objects n !! ptr).

Definition remote_address (n : net) (id : Z) : bytes :=
  from_option remote [] (ptr ← sockets_ n !! id; objects n !! ptr).

Inductive event :=
  | EvStart (id : Z) (local : bytes)
  | EvStop (id : Z) (e : error_code)
  | EvRead (id : Z) (data : bytes)
  | EvAccept (id acc : Z) (local remote : bytes).

Definition net_event (n : net) (ev : event) : option (net * list result * list effect) :=
  match ev with
  | EvStart id local => hand_start n id local
  | EvStop id e => hand_stop n id e
  | EvRead id data => hand_read n id data
  | EvAccept id acc local remote => hand_accept n id acc local remote
  end.
End ops.

(** * Searching *)

Lemma find_sub_Some s p pos :
  find_sub s p = Some pos -> (pos + length p <= length s)%nat /\ take (length p) (drop pos s) = p.
Proof.
  revert pos. induction s as [|c s IH]; intros pos; cbn [find_sub]; unfold starts_with.
  - destruct (bool_decide_reflect (take (length p) [] = p)) as [E|]; [|done]. intros [= <-].
    rewrite take_nil in E. by subst.
  - destruct (bool_decide_reflect (take (length p) (c :: s) = p)) as [E|].
    + intros [= <-]. split; [|done]. apply (f_equal length) in E. rewrite length_take in E. cbn in *. lia.
    + intros (k & Hk & ->)%fmap_Some. destruct (IH k Hk). cbn. split; [lia|done].
Qed.

Lemma starts_with_app s t p : (length p <= length s)%nat -> starts_with (s ++ t) p = starts_with s p.
Proof. intros. unfold starts_with. by rewrite take_app_le. Qed.

(** A match in a prefix is the first match of the whole. *)
Lemma find_sub_app s t p pos : find_sub s p = Some pos -> find_sub (s ++ t) p = Some pos.
Proof.
  revert pos. induction s as [|c s IH]; intros pos Hf; pose proof (find_sub_Some _ _ _ Hf) as [Hl _].
  - cbn in Hl. destruct p as [|? ?]; [|cbn in Hl; lia]. cbn in Hf. injection Hf as <-. by destruct t.
  - cbn [find_sub app] in *. change (c :: s ++ t) with ((c :: s) ++ t).
    rewrite starts_with_app by lia. destruct (starts_with (c :: s) p); [done|].
    apply fmap_Some in Hf as (k & Hk & ->). apply fmap_Some. exists k. split; [exact (IH k Hk)|done].
Qed.

(** Without a match, all positions where one would fit can be dropped. *)
Lemma find_sub_cut n s t p :
  find_sub s p = None -> (n + length p <= S (length s))%nat -> (n <= length s)%nat ->
  find_sub (s ++ t) p = (fun k => n + k)%nat <$> find_sub (drop n s ++ t) p.
Proof.
  revert n. induction s as [|c s IH]; intros n Hf Hn Hl.
  - destruct n; [|cbn in Hl; lia]. cbn. by destruct (find_sub t p).
  - destruct n as [|n]; [cbn [drop]; by destruct (find_sub ((c :: s) ++ t) p)|].
    cbn [find_sub app drop length] in *. destruct (starts_with (c :: s) p) eqn:E; [done|].
    change (c :: s ++ t) with ((c :: s) ++ t). rewrite starts_with_app, E by (cbn; lia).
    apply fmap_None in Hf. rewrite (IH n) by (done || lia).
    by destruct (find_sub (drop n s ++ t) p).
Qed.

(** * Streams of chunks

    A coroutine begins an operation, and as long as it is suspended the
    chunks that arrive resume it. *)

Section streams.
Context (garbage : nat -> Z).

Fixpoint feed (h : nat) (op : net_op) (d : network_data) (chunks : list bytes)
    : option (list bytes * next * network_data) :=
  match chunks with
  | [] => Some ([], Suspended op, d)
  | c :: cs =>
      d ← receive garbage d c;
      '(nx, d) ← resume_op garbage h false op d;
      match nx with
      | Suspended op => feed h op d cs
      | _ => Some (cs, nx, d)
      end
  end.

Definition run_op (h : nat) (op : net_op) (d : network_data) (chunks : list bytes)
    : option (list bytes * next * network_data) :=
  '(nx, d) ← begin_op garbage h false op d;
  match nx with
  | Suspended op => feed h op d chunks
  | _ => Some (chunks, nx, d)
  end.

(** The buffer of [d] holds [bs], and [T] bounds its use. *)
Definition buffered (T : Z) (b : memory_buffer) (bs : bytes) : Prop :=
  exists hd, simulates memory_buffer_fixed T b (ABuf hd bs).

Lemma buffered_append T b bs data :
  buffered T b bs -> T + zlen data <= 2 ^ 61 ->
  exists b', mb_append garbage b data = Some b' /\ buffered (T + zlen data) b' (bs ++ data).
Proof.
  intros [hd Hs] HT. destruct (sim_append memory_buffer_fixed garbage (Z.lt_le_incl 0 1024 eq_refl) T b _ data Hs HT) as (b' & -> & Hs').
  exists b'. split; [done|]. by exists hd.
Qed.

Lemma buffered_read T b bs n :
  buffered T b bs -> 0 <= n -> T <= 2 ^ 61 -> buffered T (mb_read b n) (zdrop n bs).
Proof.
  intros [hd Hs] Hn HT.
  pose proof (sim_read memory_buffer_fixed garbage (Z.lt_le_incl 0 1024 eq_refl) T b _ n Hs Hn HT) as Hs'.
  by eexists.
Qed.

Lemma buffered_view T b bs : buffered T b bs -> view (mb_base b) = Some bs.
Proof. intros [hd Hs]. by apply sim_view in Hs. Qed.

Lemma buffered_readable T b bs : buffered T b bs -> readable (mb_base b) = zlen bs.
Proof. intros [hd Hs]. by apply sim_readable in Hs. Qed.

Lemma buffered_mono T T' b bs : buffered T b bs -> T <= T' -> buffered T' b bs.
Proof. intros [hd Hs] HT. exists hd. by eapply sim_mono. Qed.

(** [k] more bytes can be put in [b] without nearing the limits of [size_t]. *)
Definition holds (k : Z) (b : memory_buffer) (bs : bytes) : Prop :=
  exists T, buffered T b bs /\ T + k <= 2 ^ 61.

Lemma buffered_holds T k b bs : buffered T b bs -> T + k <= 2 ^ 61 -> holds k b bs.
Proof. intros. by exists T. Qed.

Lemma buffered_load T b bs n :
  buffered T b bs -> 0 <= n <= zlen bs ->
  load (Buffer.data_ (mb_base b)) (Buffer.read_ (mb_base b)) n = Some (ztake n bs).
Proof.
  intros [hd Hs] Hn. pose proof (sim_wf _ _ _ _ Hs) as [Hb _]. pose proof (sim_contents _ _ _ _ Hs) as Hc.
  pose proof (zlen_contents (mb_base b) Hb) as Hz. rewrite Hc in Hz. cbn in *.
  pose proof (peek_ok (mb_base b) n Hb (proj1 Hn)) as Hp. unfold peek in Hp.
  rewrite readable_ok in Hp by done. rewrite Z.min_l in Hp by lia. by rewrite Hc in Hp.
Qed.

Lemma receive_ok T d bs data :
  buffered T (buf d) bs -> T + zlen data <= 2 ^ 61 ->
  exists b', receive garbage d data = Some (set_buf b' d) /\ buffered (T + zlen data) b' (bs ++ data).
Proof.
  intros Hb HT. pose proof (zlen_nonneg data). unfold receive.
  assert (exists b1, (if capacity_ (mb_base (buf d)) / 4 <=? prependable (mb_base (buf d))
                      then mb_shrink (buf d) else Some (buf d)) = Some b1 /\ buffered T b1 bs) as (b1 & -> & Hb1).
  { destruct (_ <=? _); [|by exists (buf d)]. destruct Hb as [hd Hs].
    destruct (sim_shrink memory_buffer_fixed garbage (Z.lt_le_incl 0 1024 eq_refl) T (buf d) _ Hs) as (b1 & -> & Hs1); [lia|].
    exists b1. split; [done|]. by exists 0. }
  cbn [mbind option_bind]. destruct (buffered_append T b1 bs data Hb1 HT) as (b2 & -> & Hb2).
  cbn [mbind option_bind]. by exists b2.
Qed.

(** ** Waiting for more *)

Definition open (d : network_data) : Prop := handle d = None /\ ec_true (ec d) = false.

(** A suspended [read_size] or [read_until] that gets a chunk goes on as if
    it had just begun, with the chunk in the buffer. *)
Definition rereads (op : net_op) : Prop :=
  match op with OpReadSize _ | OpReadUntil _ _ => True | _ => False end.

Lemma run_op_await h op op' d d' chunks :
  open d' -> op_start garbage op d = Some (Await op' d') ->
  run_op h op d chunks = feed h op' (set_handle (Some h) d') chunks.
Proof.
  intros [Hh He] E. unfold run_op, begin_op. rewrite E. cbn. unfold await_suspend. by rewrite Hh.
Qed.

Lemma run_op_done h op d r d' chunks :
  op_start garbage op d = Some (Done r d') -> run_op h op d chunks = Some (chunks, Returned r, d').
Proof. intros E. unfold run_op, begin_op. by rewrite E. Qed.

Lemma feed_rereads h op d c cs T bs :
  rereads op -> open d -> buffered T (buf d) bs -> T + zlen c <= 2 ^ 61 ->
  exists d', feed h op (set_handle (Some h) d) (c :: cs) = run_op h op d' cs /\
    open d' /\ buffered (T + zlen c) (buf d') (bs ++ c).
Proof.
  intros Hop [Hh He] Hb HT.
  destruct (receive_ok T (set_handle (Some h) d) bs c Hb HT) as (b' & E & Hb').
  exists (set_buf b' d). split; [|done]. cbn [feed]. rewrite E. cbn [mbind option_bind].
  unfold resume_op, await_resume. cbn [handle set_buf set_handle ec].
  rewrite bool_decide_eq_true_2 by done. cbn [negb]. rewrite He. cbn [andb].
  change (set_handle None (set_buf b' (set_handle (Some h) d))) with (set_buf b' (set_handle None d)).
  assert (set_handle None d = d) as -> by (destruct d; cbn in *; by subst).
  unfold run_op, begin_op. destruct op; try done; cbn [op_resumed]; cbn [ec set_buf]; by rewrite He.
Qed.

(** ** [read_size] *)

Lemma read_size_start T d bs size :
  buffered T (buf d) bs -> 0 <= size -> T <= 2 ^ 61 ->
  if zlen bs <? size then op_start garbage (OpReadSize size) d = Some (Await (OpReadSize size) d)
  else exists b', op_start garbage (OpReadSize size) d = Some (Done (RBytes (ztake size bs)) (set_buf b' d)) /\
         buffered T b' (zdrop size bs).
Proof.
  intros Hb Hs HT. cbn [op_start]. rewrite (buffered_readable _ _ _ Hb).
  destruct (Z.ltb_spec (zlen bs) size); [done|]. exists (mb_read (buf d) size).
  unfold take_bytes. rewrite (buffered_load _ _ _ _ Hb) by lia. split; [done|]. by apply buffered_read.
Qed.

Lemma read_size_run h size chunks : forall T d bs,
  open d -> buffered T (buf d) bs -> 0 <= size -> T + zlen (concat chunks) <= 2 ^ 61 ->
  let stream := bs ++ concat chunks in
  if size <=? zlen stream then
    exists rest d' left,
      run_op h (OpReadSize size) d chunks = Some (rest, Returned (RBytes (ztake size stream)), d') /\
      open d' /\ holds (zlen (concat rest)) (buf d') left /\ left ++ concat rest = zdrop size stream
  else
    exists d', run_op h (OpReadSize size) d chunks = Some ([], Suspended (OpReadSize size), set_handle (Some h) d') /\
      open d' /\ holds 0 (buf d') stream.
Proof.
  induction chunks as [|c cs IH]; intros T d bs Ho Hb Hs HT stream; subst stream; cbn [concat] in *.
  - change (zlen []) with 0 in HT. pose proof (read_size_start T d bs size Hb Hs ltac:(lia)) as Hst.
    rewrite app_nil_r. destruct (Z.ltb_spec (zlen bs) size).
    + rewrite (proj2 (Z.leb_gt _ _)) by done. exists d. rewrite (run_op_await h _ _ _ d []) by done.
      split; [done|]. split; [done|]. eapply buffered_holds; [done|lia].
    + rewrite (proj2 (Z.leb_le _ _)) by done. destruct Hst as (b' & E & Hb').
      exists [], (set_buf b' d), (zdrop size bs). rewrite (run_op_done _ _ _ _ _ _ E).
      split; [done|]. split; [exact Ho|]. split; [eapply buffered_holds; [done|exact HT]|by rewrite app_nil_r].
  - rewrite zlen_app in HT. pose proof (zlen_nonneg c). pose proof (zlen_nonneg (concat cs)).
    pose proof (read_size_start T d bs size Hb Hs ltac:(lia)) as Hst.
    destruct (Z.ltb_spec (zlen bs) size).
    + rewrite (run_op_await h _ _ _ d (c :: cs)) by done.
      destruct (feed_rereads h (OpReadSize size) d c cs T bs) as (d' & -> & Ho' & Hb'); [done..|lia|].
      specialize (IH (T + zlen c) d' (bs ++ c) Ho' Hb' Hs ltac:(lia)). by rewrite <- app_assoc in IH.
    + rewrite (proj2 (Z.leb_le _ _)) by (rewrite zlen_app, zlen_app; lia).
      destruct Hst as (b' & E & Hb'). exists (c :: cs), (set_buf b' d), (zdrop size bs).
      rewrite (run_op_done _ _ _ _ _ _ E), ztake_app_le, zdrop_app_le by lia.
      split; [done|]. split; [exact Ho|]. split; [|done].
      eapply buffered_holds; [done|cbn [concat]; rewrite zlen_app; lia].
Qed.

(** ** [read_until] *)

(** Where the search leaves the reader after a turn over [bs]: how much it
    has moved to the caller. *)
Definition until_len (bs delim : bytes) : Z :=
  match find_sub bs delim with
  | Some pos => Z.of_nat pos + zlen delim
  | None => if zlen delim <=? zlen bs then zlen bs - zlen delim + 1 else 0
  end.

Lemma until_len_range bs delim : delim <> [] -> 0 <= until_len bs delim <= zlen bs.
Proof.
  intros Hd. unfold until_len. destruct (find_sub bs delim) as [pos|] eqn:Ef.
  - destruct (find_sub_Some _ _ _ Ef) as [Hpl _]. unfold zlen. lia.
  - pose proof (zlen_nonneg bs). destruct (Z.leb_spec (zlen delim) (zlen bs)); [|lia].
    destruct delim; [done|]. rewrite zlen_cons in *. pose proof (zlen_nonneg delim). lia.
Qed.

(** Nothing of a later match is given away: searching on from where the turn
    stopped finds what searching the whole would. *)
Lemma until_len_keeps bs t delim :
  find_sub bs delim = None ->
  find_sub (bs ++ t) delim =
    (fun k => Z.to_nat (until_len bs delim) + k)%nat <$> find_sub (zdrop (until_len bs delim) bs ++ t) delim.
Proof.
  intros Ef. unfold until_len, zdrop. rewrite Ef. destruct (Z.leb_spec (zlen delim) (zlen bs)).
  - destruct delim as [|z delim]; [by destruct bs|]. unfold zlen in *. cbn [length] in *.
    apply find_sub_cut; [done|cbn [length]; lia|lia].
  - change (Z.to_nat 0) with 0%nat. rewrite drop_0. destruct (find_sub (bs ++ t) delim); reflexivity.
Qed.

Lemma until_turn_ok T To d delim out bs os :
  delim <> [] -> buffered T (buf d) bs -> buffered To out os ->
  T <= 2 ^ 61 -> To + zlen bs <= 2 ^ 61 ->
  let n := until_len bs delim in
  exists out' b',
    buffered (To + n) out' (os ++ ztake n bs) /\ buffered T b' (zdrop n bs) /\
    op_start garbage (OpReadUntil delim out) d =
      Some (if bool_decide (is_Some (find_sub bs delim))
            then Done (RUntil (zlen os + n) out') (set_buf b' d)
            else Await (OpReadUntil delim out') (set_buf b' d)).
Proof.
  intros Hd Hb Ho HT HTo n. pose proof (until_len_range bs delim Hd) as Hn. fold n in Hn.
  cbn [op_start]. unfold until_turn. rewrite (buffered_view _ _ _ Hb). cbn [mbind option_bind].
  assert (zlen (ztake n bs) = n) as Hz by (rewrite zlen_ztake; lia).
  destruct (buffered_append To out os (ztake n bs) Ho ltac:(lia)) as (out' & E & Ho').
  rewrite Hz in Ho'. pose proof (buffered_read T (buf d) bs n Hb (proj1 Hn) HT) as Hb'.
  pose proof (eq_refl : n = until_len bs delim) as En. clearbody n. unfold until_len in En.
  destruct (find_sub bs delim) as [pos|] eqn:Ef.
  - exists out', (mb_read (buf d) n). rewrite <- En, E. cbn [mbind option_bind].
    rewrite (buffered_readable _ _ _ Ho'), zlen_app, Hz. by rewrite bool_decide_eq_true_2.
  - rewrite bool_decide_eq_false_2 by (intros [? ?]; done).
    destruct (Z.leb_spec (zlen delim) (zlen bs)) as [Hle|Hgt].
    + exists out', (mb_read (buf d) n). by rewrite <- En, E.
    + exists out, (buf d). subst n. rewrite ztake_0, zdrop_0, app_nil_r, Z.add_0_r.
      split; [done|]. split; [done|]. by destruct d.
Qed.

Lemma read_until_run h delim chunks : forall T To d out bs os,
  delim <> [] -> open d -> buffered T (buf d) bs -> buffered To out os ->
  T + zlen (concat chunks) <= 2 ^ 61 -> To + zlen bs + zlen (concat chunks) <= 2 ^ 61 ->
  let stream := bs ++ concat chunks in
  match find_sub stream delim with
  | Some pos =>
      let n := Z.of_nat pos + zlen delim in
      exists rest d' out' left,
        run_op h (OpReadUntil delim out) d chunks = Some (rest, Returned (RUntil (zlen os + n) out'), d') /\
        open d' /\ holds 0 out' (os ++ ztake n stream) /\
        holds (zlen (concat rest)) (buf d') left /\ left ++ concat rest = zdrop n stream
  | None =>
      exists d' out' left,
        run_op h (OpReadUntil delim out) d chunks =
          Some ([], Suspended (OpReadUntil delim out'), set_handle (Some h) d') /\ open d' /\
        exists moved, holds 0 out' (os ++ moved) /\ holds 0 (buf d') left /\
          moved ++ left = stream
  end.
Proof.
  induction chunks as [|c cs IH]; intros T To d out bs os Hd Ho Hb Hout HT HTo stream;
    subst stream; cbn [concat] in *.
  - change (zlen []) with 0 in *. rewrite app_nil_r.
    destruct (until_turn_ok T To d delim out bs os Hd Hb Hout ltac:(lia) ltac:(lia))
      as (out' & b' & Ho' & Hb' & E).
    pose proof (until_len_range bs delim Hd) as Hn.
    apply (buffered_holds _ 0) in Ho'; [|lia]. apply (buffered_holds _ 0) in Hb'; [|lia].
    unfold until_len in *. destruct (find_sub bs delim) as [pos|] eqn:Ef.
    + rewrite bool_decide_eq_true_2 in E by done. cbn zeta. eexists [], _, out', _.
      rewrite (run_op_done _ _ _ _ _ _ E). rewrite app_nil_r. split_and!; [done|apply Ho..|exact Ho'|exact Hb'|done].
    + rewrite bool_decide_eq_false_2 in E by (intros [? ?]; done).
      eexists (set_buf b' d), out', _. rewrite (run_op_await h (OpReadUntil delim out) _ d (set_buf b' d) [] Ho E).
      split; [done|]. split; [exact Ho|]. eexists. split; [exact Ho'|]. split; [exact Hb'|apply take_drop].
  - rewrite zlen_app in HT, HTo. pose proof (zlen_nonneg c). pose proof (zlen_nonneg (concat cs)).
    destruct (until_turn_ok T To d delim out bs os Hd Hb Hout ltac:(lia) ltac:(lia))
      as (out' & b' & Ho' & Hb' & E).
    pose proof (until_len_range bs delim Hd) as Hn. destruct (find_sub bs delim) as [pos|] eqn:Ef.
    + rewrite (find_sub_app _ _ _ _ Ef). unfold until_len in *. rewrite Ef in *.
      rewrite bool_decide_eq_true_2 in E by done. cbn zeta.
      exists (c :: cs), (set_buf b' d), out', (zdrop (Z.of_nat pos + zlen delim) bs).
      rewrite (run_op_done _ _ _ _ _ _ E), ztake_app_le, zdrop_app_le by lia.
      split_and!; [done|apply Ho..|eapply buffered_holds; [eassumption|lia]| |done].
      eapply buffered_holds; [eassumption|cbn [concat]; rewrite zlen_app; lia].
    + rewrite bool_decide_eq_false_2 in E by (intros [? ?]; done).
      rewrite (run_op_await h (OpReadUntil delim out) _ d (set_buf b' d) _ Ho E).
      set (n := until_len bs delim) in *.
      destruct (feed_rereads h (OpReadUntil delim out') (set_buf b' d) c cs T (zdrop n bs))
        as (d' & -> & Hd' & Hb''); [done..|lia|].
      assert (zlen (zdrop n bs) = zlen bs - n) as Hzd by (rewrite zlen_zdrop; lia).
      assert (zlen (ztake n bs) = n) as Hzt by (rewrite zlen_ztake; lia).
      specialize (IH (T + zlen c) (To + n) d' out' (zdrop n bs ++ c) (os ++ ztake n bs) Hd Hd' Hb'' Ho'
        ltac:(lia) ltac:(rewrite zlen_app, Hzd; lia)).
      cbn zeta in IH. rewrite <- app_assoc in IH.
      rewrite (until_len_keeps bs _ delim Ef). fold n.
      destruct (find_sub (zdrop n bs ++ c ++ concat cs) delim) as [k|]; cbn [fmap option_fmap option_map].
      * replace (Z.of_nat (Z.to_nat n + k) + zlen delim) with (n + (Z.of_nat k + zlen delim)) by lia.
        set (m := Z.of_nat k + zlen delim) in *. assert (0 <= m) as Hm by (unfold m, zlen; lia).
        destruct IH as (rest & d2 & out2 & left & R1 & R2 & R3 & R4 & R5). cbn zeta.
        exists rest, d2, out2, left. rewrite zlen_app, Hzt, <- Z.add_assoc in R1.
        rewrite <- app_assoc in R3. rewrite <- (ztake_app_plus n bs (c ++ concat cs) m) in R3 by lia.
        rewrite <- (zdrop_app_plus n bs (c ++ concat cs) m) in R5 by lia. done.
      * destruct IH as (d2 & out2 & left & R1 & R2 & moved & R3 & R4 & R5).
        exists d2, out2, left. split; [done|]. split; [done|]. exists (ztake n bs ++ moved).
        rewrite <- app_assoc in R3. split; [done|]. split; [done|].
        rewrite <- app_assoc, R5, app_assoc. unfold ztake, zdrop. by rewrite take_drop.
Qed.
End streams.

(** * The table while a socket is read *)

Section reading.
Context (garbage : nat -> Z).

(** The chunks arrive for socket [id], one [hand_read] each. *)
Fixpoint arrivals (n : net) (id : Z) (chunks : list bytes) : option (net * list result) :=
  match chunks with
  | [] => Some (n, [])
  | c :: cs =>
      '(n, rs, _) ← hand_read garbage n id c;
      '(n, rs') ← arrivals n id cs;
      Some (n, rs ++ rs')
  end.

(** A coroutine calls an operation and the chunks arrive. *)
Definition session (n : net) (h : nat) (op : net_op) (id : Z) (chunks : list bytes)
    : option (net * list result) :=
  '(n, rs, _) ← call_op garbage n h false op id;
  '(n, rs') ← arrivals n id chunks;
  Some (n, rs ++ rs').

(** [id] is an open socket with [bs] unread. *)
Definition socket (n : net) (id : Z) (k : Z) (bs : bytes) (d : network_data) (ptr : nat) : Prop :=
  sockets_ n !! id = Some ptr /\ objects n !! ptr = Some d /\ open d /\ holds k (buf d) bs.

Lemma idle_arrivals id ptr chunks : forall n d bs,
  socket n id (zlen (concat chunks)) bs d ptr ->
  exists n' d', arrivals n id chunks = Some (n', []) /\ pending n' = pending n /\
    socket n' id 0 (bs ++ concat chunks) d' ptr.
Proof.
  induction chunks as [|c cs IH]; intros n d bs (Hs & Hob & [Hh He] & T & Hb & HT); cbn [concat] in *.
  - exists n, d. rewrite app_nil_r. split; [done|]. split; [done|]. do 3 (split; [done|]). exists T.
    split; [done|]. exact HT.
  - rewrite zlen_app in HT. pose proof (zlen_nonneg (concat cs)).
    destruct (receive_ok garbage T d bs c Hb ltac:(lia)) as (b' & E & Hb').
    set (n0 := Net (sockets_ n) (<[ptr := set_buf b' d]> (objects n)) (fresh n) (pending n)).
    assert (hand_read garbage n id c = Some (n0, [], [])) as E1.
    { unfold hand_read. rewrite Hs, Hob. cbn [mbind option_bind]. rewrite E.
      cbn [mbind option_bind Network.handle set_buf]. by rewrite Hh. }
    destruct (IH n0 (set_buf b' d) (bs ++ c)) as (n' & d' & E' & Hp & Hn').
    { split; [exact Hs|]. split; [apply lookup_insert_eq|]. split; [done|].
      exists (T + zlen c). split; [done|lia]. }
    exists n', d'. cbn [arrivals]. rewrite E1. cbn [mbind option_bind]. rewrite E'.
    rewrite app_assoc. split; [done|]. split; [exact Hp|exact Hn'].
Qed.

Lemma run_stretch_suspended h s op d : run_stretch h false s = Some (Suspended op, d) -> handle d = Some h.
Proof.
  destruct s as [r d1|op1 d1]; cbn; [done|]. destruct (await_suspend h false d1) as [d2|] eqn:E.
  - intros [= _ <-]. unfold await_suspend in E. destruct (handle d1); [done|]. by injection E as <-.
  - unfold await_resume. destruct (negb _); [done|]. by destruct (_ && _).
Qed.

Lemma resume_op_suspended h op0 d0 op d :
  resume_op garbage h false op0 d0 = Some (Suspended op, d) -> handle d = Some h.
Proof.
  unfold resume_op. destruct (await_resume h false d0); [done|].
  intros (s & _ & E)%bind_Some. by apply run_stretch_suspended in E.
Qed.

Lemma begin_op_suspended h op0 d0 op d :
  begin_op garbage h false op0 d0 = Some (Suspended op, d) -> handle d = Some h.
Proof. intros (s & _ & E)%bind_Some. by apply run_stretch_suspended in E. Qed.

(** What a reading coroutine sees of the table is its own socket. *)
Definition outcome (n : net) (h : nat) (id : Z) (ptr : nat) (chunks rest : list bytes) (nx : next) (d' : network_data)
    : Prop :=
  exists n1, sockets_ n1 = sockets_ n /\ objects n1 !! ptr = Some d' /\
    match nx with
    | Suspended op => arrivals n id chunks = Some (n1, []) /\ pending n1 !! h = Some (ptr, op)
    | Returned r => forall n2 rs, arrivals n1 id rest = Some (n2, rs) ->
                                  arrivals n id chunks = Some (n2, (h, inl r) :: rs)
    | Threw _ => True
    end.

Lemma arrivals_feed h id ptr chunks : forall n d op rest nx d',
  sockets_ n !! id = Some ptr -> objects n !! ptr = Some d -> handle d = Some h ->
  pending n !! h = Some (ptr, op) -> feed garbage h op d chunks = Some (rest, nx, d') ->
  outcome n h id ptr chunks rest nx d'.
Proof.
  induction chunks as [|c cs IH]; intros n d op rest nx d' Hs Hob Hh Hp Hf.
  - injection Hf as <- <- <-. by exists n.
  - cbn [feed] in Hf. apply bind_Some in Hf as (d1 & E1 & Hf).
    apply bind_Some in Hf as ([nx1 d2] & E2 & Hf).
    assert (Network.handle d1 = Some h) as Hh1.
    { unfold receive in E1. apply bind_Some in E1 as (b1 & _ & E1).
      apply bind_Some in E1 as (b2 & _ & [= <-]). done. }
    set (n0 := Net (sockets_ n) (<[ptr := d1]> (objects n)) (fresh n) (pending n)).
    assert (hand_read garbage n id c = Some (settle n0 h ptr (nx1, d2))) as E.
    { unfold hand_read. rewrite Hs, Hob. cbn [mbind option_bind]. rewrite E1. cbn [mbind option_bind].
      rewrite Hh1. cbn [resume_opt]. unfold resume. cbn [pending]. rewrite Hp. cbn [mbind option_bind objects].
      rewrite lookup_insert_eq. cbn [mbind option_bind]. by rewrite E2. }
    unfold outcome. cbn [arrivals]. rewrite E. destruct nx1 as [r|e|op1]; cbn [settle fst snd mbind option_bind].
    + injection Hf as <- <- <-.
      exists (Net (sockets_ n0) (<[ptr := d2]> (objects n0)) (fresh n0) (delete h (pending n0))).
      split; [done|]. split; [apply lookup_insert_eq|].
      intros n2 rs E3. rewrite E3. by destruct r.
    + injection Hf as <- <- <-.
      exists (Net (sockets_ n0) (<[ptr := d2]> (objects n0)) (fresh n0) (delete h (pending n0))).
      split; [done|]. split; [apply lookup_insert_eq|done].
    + set (n3 := Net (sockets_ n0) (<[ptr := d2]> (objects n0)) (fresh n0) (<[h := (ptr, op1)]> (pending n0))).
      destruct (IH n3 d2 op1 rest nx d') as (n1 & H1 & H2 & H3);
        [exact Hs|apply lookup_insert_eq|by eapply resume_op_suspended|apply lookup_insert_eq|exact Hf|].
      exists n1. split; [exact H1|]. split; [exact H2|]. destruct nx; [|done|].
      * intros n2 rs E3. specialize (H3 n2 rs E3). by rewrite H3.
      * destruct H3 as [H3 H4]. split; [by rewrite H3|exact H4].
Qed.

Lemma session_run_op h id ptr chunks n d op rest nx d' :
  op_allowed op id = true -> sockets_ n !! id = Some ptr -> objects n !! ptr = Some d ->
  run_op garbage h op d chunks = Some (rest, nx, d') ->
  match nx with
  | Suspended op' => exists n1, session n h op id chunks = Some (n1, []) /\
      sockets_ n1 = sockets_ n /\ objects n1 !! ptr = Some d' /\ pending n1 !! h = Some (ptr, op')
  | Returned r => exists n1, sockets_ n1 = sockets_ n /\ objects n1 !! ptr = Some d' /\
      forall n2 rs, arrivals n1 id rest = Some (n2, rs) ->
                    session n h op id chunks = Some (n2, (h, inl r) :: rs)
  | Threw _ => True
  end.
Proof.
  intros Ha Hs Hob Hr. unfold run_op in Hr. apply bind_Some in Hr as ([nx1 d1] & E1 & Hr).
  assert (call_op garbage n h false op id = Some (settle n h ptr (nx1, d1))) as E.
  { unfold call_op. rewrite Ha, Hs, Hob. cbn [negb mbind option_bind]. by rewrite E1. }
  unfold session. rewrite E. destruct nx1 as [r|e|op1]; cbn [settle fst snd mbind option_bind].
  - injection Hr as <- <- <-.
    exists (Net (sockets_ n) (<[ptr := d1]> (objects n)) (fresh n) (delete h (pending n))).
    split; [done|]. split; [apply lookup_insert_eq|]. intros n2 rs ->. by destruct r.
  - by injection Hr as <- <- <-.
  - edestruct (arrivals_feed h id ptr chunks
      (Net (sockets_ n) (<[ptr := d1]> (objects n)) (fresh n) (<[h := (ptr, op1)]> (pending n))) d1 op1)
      as (n1 & H1 & H2 & H3);
      [exact Hs|apply lookup_insert_eq|by eapply begin_op_suspended|apply lookup_insert_eq|exact Hr|].
    destruct nx; [|done|].
    + exists n1. split; [exact H1|]. split; [exact H2|]. intros n2 rs E3. by rewrite (H3 n2 rs E3).
    + exists n1. destruct H3 as [-> H4]. done.
Qed.
End reading.

(** * The table as a whole *)

Section table.
Context (garbage : nat -> Z).

Inductive action :=
  | AEvent (ev : event)
  | AClose (id : Z)
  | ACall (h : nat) (cancelled : bool) (op : net_op) (id : Z)
  | AStart (h : nat) (cancelled : bool) (id : Z) (address : bytes)
  | ACancel (h : nat).

Definition act (n : net) (a : action) : option (net * list result * list effect) :=
  match a with
  | AEvent ev => net_event garbage n ev
  | AClose id => close garbage n id
  | ACall h c op id => call_op garbage n h c op id
  | AStart h c id address => call_start garbage n h c id address
  | ACancel h => cancel garbage n h
  end.

(** A coroutine that calls is running, not suspended. *)
Definition legal (n : net) (a : action) : Prop :=
  match a with
  | ACall h _ _ _ | AStart h _ _ _ => pending n !! h = None
  | _ => True
  end.

Inductive reaches : net -> list action -> net -> Prop :=
  | reaches_refl n : reaches n [] n
  | reaches_step n a n1 rs es l n2 :
      legal n a -> act n a = Some (n1, rs, es) -> reaches n1 l n2 -> reaches n (a :: l) n2.

Definition referenced (n : net) (ptr : nat) : Prop := exists id, sockets_ n !! id = Some ptr.

(** An open socket has no error, and whoever is suspended on a socket is its
    [handle]: no more than one coroutine waits for a socket. *)
Record net_wf (n : net) : Prop := {
  wf_object id ptr : sockets_ n !! id = Some ptr -> exists d, objects n !! ptr = Some d /\ ec d = no_error /\ nd_id d = id;
  wf_fresh ptr d : objects n !! ptr = Some d -> (ptr < fresh n)%nat;
  wf_inj id1 id2 ptr : sockets_ n !! id1 = Some ptr -> sockets_ n !! id2 = Some ptr -> id1 = id2;
  wf_handle ptr d h : referenced n ptr -> objects n !! ptr = Some d -> handle d = Some h ->
    exists op, pending n !! h = Some (ptr, op);
  wf_pending h ptr op : pending n !! h = Some (ptr, op) ->
    exists d, objects n !! ptr = Some d /\ handle d = Some h }.

(** ** Stretches keep the handle and the error *)

Definition stretch_data (s : stretch) : network_data := match s with Done _ d | Await _ d => d end.

Definition same_id (d d' : network_data) : Prop := ec d' = ec d /\ nd_id d' = nd_id d.

Definition same_wait (d d' : network_data) : Prop := handle d' = handle d /\ same_id d d'.

Lemma take_bytes_same d len bs d' : take_bytes d len = Some (bs, d') -> same_wait d d'.
Proof. intros (bs' & _ & [= _ <-])%bind_Some. done. Qed.

Lemma accept_finish_same d : same_wait d (stretch_data (accept_finish d)).
Proof. unfold accept_finish. by destruct (accepted d). Qed.

Lemma read_finish_same d size s : read_finish d size = Some s -> same_wait d (stretch_data s).
Proof. intros ([bs d'] & E & [= <-])%bind_Some. by apply take_bytes_same in E. Qed.

Lemma until_turn_same d delim out s :
  until_turn garbage d delim out = Some s -> same_wait d (stretch_data s).
Proof.
  intros (sv & _ & E)%bind_Some. destruct (find_sub sv delim); [|destruct (_ <=? _)].
  - by apply bind_Some in E as (? & _ & [= <-]).
  - by apply bind_Some in E as (? & _ & [= <-]).
  - by injection E as <-.
Qed.

Lemma op_start_same op d s : op_start garbage op d = Some s -> same_wait d (stretch_data s).
Proof.
  destruct op; cbn [op_start].
  - by intros [= <-].
  - destruct (accepted d); intros [= <-]; [done|apply accept_finish_same].
  - destruct (_ =? _); [by intros [= <-]|apply read_finish_same].
  - destruct (_ <? _); [by intros [= <-]|]. intros ([bs d'] & E & [= <-])%bind_Some.
    by apply take_bytes_same in E.
  - apply until_turn_same.
Qed.

Lemma op_resumed_same op d s : op_resumed garbage op d = Some s -> same_wait d (stretch_data s).
Proof.
  destruct op; cbn [op_resumed]; try (destruct (ec_true (ec d)); [by intros [= <-]|]).
  - by intros [= <-].
  - intros [= <-]. apply accept_finish_same.
  - apply read_finish_same.
  - apply op_start_same.
  - apply op_start_same.
Qed.

(** How a call or a resumption leaves the socket it waits for. *)
Definition waits (h : nat) (d : network_data) (nx : next) (d' : network_data) : Prop :=
  same_id d d' /\
  match nx with
  | Suspended _ => handle d' = Some h /\ (handle d = None \/ handle d = Some h)
  | Returned _ => handle d' = if decide (handle d = Some h) then None else handle d
  | Threw _ => handle d' = handle d
  end.

Lemma run_stretch_waits h c d s nx d' :
  same_wait d (stretch_data s) -> handle d <> Some h -> run_stretch h c s = Some (nx, d') ->
  waits h d nx d' /\ match nx with Threw _ => c = true \/ handle d <> None | _ => True end.
Proof.
  intros [Hh He] Hne. unfold waits. destruct s as [r d1|op d1]; cbn in *.
  { intros [= <- <-]. by rewrite decide_False. }
  destruct (await_suspend h c d1) as [d2|] eqn:E; unfold await_suspend in E; rewrite Hh in E.
  - destruct (handle d) eqn:E1; [done|]. destruct c; [done|].
    injection E as <-. intros [= <- <-]. by auto.
  - destruct (await_resume h c d1) eqn:E2; [|done]. intros [= <- <-]. split; [done|].
    destruct (handle d); [by right|]. destruct c; [by left|done].
Qed.

Lemma begin_op_waits h c op d nx d' :
  handle d <> Some h -> begin_op garbage h c op d = Some (nx, d') -> waits h d nx d'.
Proof. intros Hne (s & E & Er)%bind_Some. apply op_start_same in E. by eapply run_stretch_waits in Er as []. Qed.

Lemma resume_op_waits h c op d nx d' :
  handle d = Some h -> resume_op garbage h c op d = Some (nx, d') ->
  waits h d nx d' /\ match nx with Threw _ => c = true \/ ec d <> no_error | _ => True end.
Proof.
  intros Hh. unfold resume_op, await_resume, waits. destruct c; [intros [= <- <-]; split; [done|by left]|].
  rewrite bool_decide_eq_true_2 by done. cbn [negb].
  destruct (ec_true (ec d) && _) eqn:Ee; [intros [= <- <-]; split; [done|right]|].
  { intros E. by rewrite E in Ee. }
  intros (s & E & Er)%bind_Some. apply op_resumed_same in E.
  apply (run_stretch_waits h false (set_handle None d)) in Er as [[Hec Hd] Ht]; [|done|done].
  cbn in *. destruct nx as [r|e|op']; rewrite ?decide_True by done.
  - done.
  - by destruct Ht.
  - split; [|done]. split; [done|]. by destruct Hd; auto.
Qed.

(** ** The invariant is kept *)

Definition upd (n : net) (ptr : nat) (d : network_data) : net :=
  Net (sockets_ n) (<[ptr := d]> (objects n)) (fresh n) (pending n).

Lemma wf_upd n ptr d d' :
  net_wf n -> objects n !! ptr = Some d -> handle d' = handle d ->
  (referenced n ptr -> same_id d d') -> net_wf (upd n ptr d').
Proof.
  intros [H1 H2 H3 H4 H5] Hd Hh He. split; cbn.
  - intros id p Hp. destruct (decide (ptr = p)) as [->|Hne]; simplify_map_eq.
    + exists d'. destruct (H1 id p Hp) as (d0 & ? & ?). simplify_eq. split; [done|].
      destruct He as [-> ->]; [by exists id|done].
    + by apply (H1 id).
  - intros p d0 Hp. destruct (decide (ptr = p)) as [->|Hne]; simplify_map_eq; [by eapply H2|by eapply H2].
  - apply H3.
  - intros p d0 h Hr Hp Hh0. destruct (decide (ptr = p)) as [->|Hne]; simplify_map_eq.
    + eapply H4; [done|done|congruence].
    + by eapply H4.
  - intros h p op Hp. destruct (H5 h p op Hp) as (d0 & ? & ?).
    destruct (decide (ptr = p)) as [->|Hne]; simplify_map_eq; [|by eauto].
    exists d'. split; [done|congruence].
Qed.

Lemma wf_erase n id : net_wf n -> net_wf (Net (delete id (sockets_ n)) (objects n) (fresh n) (pending n)).
Proof.
  intros [H1 H2 H3 H4 H5]. split; cbn.
  - intros id' p [_ Hp]%lookup_delete_Some. by apply (H1 id').
  - done.
  - intros id1 id2 p [_ Hp1]%lookup_delete_Some [_ Hp2]%lookup_delete_Some. by eapply H3.
  - intros p d h [id' Hp]. cbn in Hp. apply lookup_delete_Some in Hp as [_ Hp]. apply H4. by exists id'.
  - done.
Qed.

Lemma erased_unreferenced n id ptr :
  net_wf n -> sockets_ n !! id = Some ptr ->
  ~ referenced (Net (delete id (sockets_ n)) (objects n) (fresh n) (pending n)) ptr.
Proof.
  intros Hw Hp [id' Hp']. cbn in Hp'. apply lookup_delete_Some in Hp' as [Hne Hp']. apply Hne. by eapply wf_inj.
Qed.

Lemma wf_add n id d :
  net_wf n -> handle d = None -> ec d = no_error -> nd_id d = id -> net_wf (add_socket n id d).1.
Proof.
  intros Hw Hh He Hid. pose proof Hw as [H1 H2 H3 H4 H5].
  assert (forall p d0, objects n !! p = Some d0 -> fresh n <> p) as Hf.
  { intros p d0 Hp E. apply H2 in Hp. lia. }
  assert (forall id' p, match sockets_ n !! id with Some _ => sockets_ n | None => <[id := fresh n]> (sockets_ n) end !! id' = Some p ->
    (id' = id /\ p = fresh n) \/ sockets_ n !! id' = Some p) as Hs.
  { intros id' p. destruct (sockets_ n !! id); [by auto|]. intros [[-> <-]|[_ ?]]%lookup_insert_Some; auto. }
  assert (forall id' p, sockets_ n !! id' = Some p -> fresh n <> p) as Hf'.
  { intros id' p Hp. destruct (H1 _ _ Hp) as (? & ? & _). by eapply Hf. }
  split; cbn.
  - intros id' p [[-> ->]|Hp]%Hs; [exists d; by simplify_map_eq|].
    rewrite lookup_insert_ne by (by eapply Hf'). by eapply H1.
  - intros p d0 [[<- _]|[_ Hp]]%lookup_insert_Some; [lia|]. apply H2 in Hp. lia.
  - intros i1 i2 p [[-> ->]|Hp1]%Hs [[-> E]|Hp2]%Hs; [done|by apply Hf' in Hp2|by subst; apply Hf' in Hp1|by eapply H3].
  - intros p d0 h [id' Hi]. apply Hs in Hi as [[-> ->]|Hp]; [rewrite lookup_insert_eq; intros [= <-]; congruence|].
    rewrite lookup_insert_ne by (by eapply Hf'). apply H4. by exists id'.
  - intros h p op Hp. destruct (H5 h p op Hp) as (d0 & Hd & ?). exists d0.
    rewrite lookup_insert_ne by (by eapply Hf). done.
Qed.

Lemma wf_settle n h ptr d nx d' :
  net_wf n -> objects n !! ptr = Some d -> waits h d nx d' ->
  match nx with
  | Threw _ => handle d = Some h -> ~ referenced n ptr
  | _ => True
  end ->
  (forall p op, pending n !! h = Some (p, op) -> p = ptr) ->
  net_wf (settle n h ptr (nx, d')).1.1.
Proof.
  intros [H1 H2 H3 H4 H5] Hd [[He Hi] Hw] Ht Hp.
  set (pd := match nx with Suspended op => <[h := (ptr, op)]> (pending n) | _ => delete h (pending n) end).
  assert ((settle n h ptr (nx, d')).1.1 = Net (sockets_ n) (<[ptr := d']> (objects n)) (fresh n) pd) as ->.
  { by destruct nx. }
  assert (forall k, k <> h -> pd !! k = pending n !! k) as Hk.
  { intros k Hk. unfold pd. by destruct nx; rewrite ?lookup_delete_ne, ?lookup_insert_ne by done. }
  split; cbn.
  - intros id p Hs. destruct (H1 id p Hs) as (d0 & ? & ?).
    destruct (decide (ptr = p)) as [->|Hne]; simplify_map_eq; [by exists d'; rewrite He, Hi|by eauto].
  - intros p d0 [[<- _]|[_ ?]]%lookup_insert_Some; by eapply H2.
  - apply H3.
  - intros p d0 k Hr [[<- <-]|[Hne Hd0]]%lookup_insert_Some Hh0.
    + destruct nx as [r|e|op]; unfold pd.
      * destruct (decide (handle d = Some h)) as [|Hn]; [congruence|].
        rewrite lookup_delete_ne by congruence. eapply H4; [done|done|congruence].
      * destruct (decide (k = h)) as [->|Hkh]; [destruct Ht; [congruence|done]|].
        rewrite lookup_delete_ne by done. eapply H4; [done|done|congruence].
      * destruct Hw as [Hw _]. assert (k = h) as -> by congruence. exists op. apply lookup_insert_eq.
    + destruct (H4 p d0 k Hr Hd0 Hh0) as (op & Hkp). exists op. rewrite Hk; [done|].
      intros ->. apply Hne. symmetry. by eapply Hp.
  - intros k p op Hkp. destruct (decide (k = h)) as [->|Hkh].
    + destruct nx as [r|e|op']; unfold pd in Hkp; [by simplify_map_eq..|].
      rewrite lookup_insert_eq in Hkp. injection Hkp as <- _. exists d'. by rewrite lookup_insert_eq; destruct Hw.
    + rewrite Hk in Hkp by done. destruct (H5 k p op Hkp) as (d0 & Hd0 & Hh0).
      destruct (decide (ptr = p)) as [->|Hne]; [|exists d0; by rewrite lookup_insert_ne].
      assert (d0 = d) as -> by congruence. exists d'. rewrite lookup_insert_eq. split; [done|].
      destruct nx as [r|e|op']; [rewrite decide_False in Hw by congruence; congruence|congruence|].
      destruct Hw as [_ [|]]; congruence.
Qed.

(** ** Every action *)

(** A coroutine suspended on a socket the table no longer has. *)
Definition stranded (n : net) (h ptr : nat) : Prop :=
  (exists op, pending n !! h = Some (ptr, op)) /\ ~ referenced n ptr.

Definition step_ok (k : option nat) (n n' : net) : Prop :=
  net_wf n' /\ forall h ptr, k <> Some h -> stranded n h ptr -> stranded n' h ptr.

Lemma stranded_settle n k p nx d' h ptr :
  k <> h -> stranded n h ptr -> stranded (settle n k p (nx, d')).1.1 h ptr.
Proof.
  intros Hne [[op Ho] Hr]. split; [|by destruct nx]. exists op.
  destruct nx; cbn; by rewrite ?lookup_delete_ne, ?lookup_insert_ne.
Qed.

Lemma resume_step n k c r :
  net_wf n -> (c = true -> forall ptr op, pending n !! k = Some (ptr, op) -> ~ referenced n ptr) ->
  resume garbage n k c = Some r -> step_ok (Some k) n r.1.1.
Proof.
  intros Hw Hc ([ptr op] & Hp & (d & Hd & ([nx d'] & Er & [= <-])%bind_Some)%bind_Some)%bind_Some.
  assert (handle d = Some k) as Hh.
  { destruct (wf_pending n Hw _ _ _ Hp) as (d0 & ? & ?). congruence. }
  apply resume_op_waits in Er as [Hwt Ht]; [|done]. split.
  - eapply wf_settle; [done|done|done| |congruence].
    destruct nx; [done| |done]. intros _. destruct Ht as [->|He]; [by eapply Hc|].
    intros [id Hr]. destruct (wf_object n Hw _ _ Hr) as (? & ? & ? & ?). congruence.
  - intros h p Hne. apply stranded_settle. congruence.
Qed.

Lemma stranded_upd n p d h ptr : stranded n h ptr -> stranded (upd n p d) h ptr.
Proof. done. Qed.

Lemma handle_not_stranded n ptr d k h p :
  net_wf n -> referenced n ptr -> objects n !! ptr = Some d -> handle d = Some k ->
  stranded n h p -> Some k <> Some h.
Proof.
  intros Hw Hr Hd Hh [[op Ho] Hn] [= ->]. destruct (wf_handle n Hw _ _ _ Hr Hd Hh) as (op' & ?).
  by simplify_eq.
Qed.

(** A handler updates the socket it finds and resumes its reader. *)
Lemma resume_opt_step n id ptr d d' n1 r :
  net_wf n -> sockets_ n !! id = Some ptr -> objects n !! ptr = Some d -> handle d' = handle d ->
  (n1 = upd n ptr d' /\ same_id d d' \/
   n1 = upd (Net (delete id (sockets_ n)) (objects n) (fresh n) (pending n)) ptr d') ->
  resume_opt garbage n1 (handle d) = Some r -> step_ok None n r.1.1.
Proof.
  intros Hw Hs Hd Hh Hn1.
  assert (net_wf n1 /\ forall h p, stranded n h p -> stranded n1 h p) as [Hw1 Hst].
  { destruct Hn1 as [[-> He]| ->]; (split; [eapply wf_upd; [|exact Hd|done|]|]); try done.
    - by apply wf_erase.
    - intros Hr. by apply (erased_unreferenced n id ptr) in Hr.
    - intros h p [? Hnr]. split; [done|]. intros [id' Hr]. apply Hnr. cbn in Hr.
      apply lookup_delete_Some in Hr as [_ Hr]. by exists id'. }
  unfold resume_opt. destruct (handle d) as [k|] eqn:Hk.
  - intros Hres. apply resume_step in Hres as [Hw2 Hst2]; [|done|done]. split; [done|].
    intros h p _ Hsd. apply Hst2; [|by apply Hst].
    eapply handle_not_stranded; [exact Hw|by exists id|done|done|done].
  - intros [= <-]. split; [done|]. intros h p _. apply Hst.
Qed.

Lemma hand_stop_step n id e r : net_wf n -> hand_stop garbage n id e = Some r -> step_ok None n r.1.1.
Proof.
  intros Hw. unfold hand_stop. destruct (sockets_ n !! id) as [ptr|] eqn:Hs; [|intros [= <-]; done].
  intros (d & Hd & Hr)%bind_Some. eapply (resume_opt_step n id ptr d (set_ec e d)); eauto.
Qed.

Lemma receive_same d c d' : receive garbage d c = Some d' -> same_wait d d'.
Proof. intros (? & _ & (? & _ & [= <-])%bind_Some)%bind_Some. done. Qed.

Lemma hand_read_step n id c r : net_wf n -> hand_read garbage n id c = Some r -> step_ok None n r.1.1.
Proof.
  intros Hw. unfold hand_read. destruct (sockets_ n !! id) as [ptr|] eqn:Hs; [|intros [= <-]; done].
  intros (d & Hd & (d' & Hc & Hr)%bind_Some)%bind_Some. apply receive_same in Hc as [Hh He].
  rewrite Hh in Hr. by apply (resume_opt_step n id ptr d d' _ r Hw Hs Hd Hh (or_introl (conj eq_refl He)) Hr).
Qed.

Lemma hand_start_step n id l r : net_wf n -> hand_start garbage n id l = Some r -> step_ok None n r.1.1.
Proof.
  intros Hw. unfold hand_start. destruct (sockets_ n !! id) as [ptr|] eqn:Hs; [|intros [= <-]; done].
  intros (d & Hd & Hr)%bind_Some. destruct (handle d) as [k|] eqn:Hk; [|injection Hr as <-; done].
  eapply (resume_opt_step n id ptr d (if get_socket_class id =? socket_class_client then set_local l d else d));
    [done|done|done|by destruct (_ =? _)|left; split; [done|by destruct (_ =? _)]|].
  rewrite Hk. exact Hr.
Qed.

Lemma close_step n id r : net_wf n -> close garbage n id = Some r -> step_ok None n r.1.1.
Proof.
  intros Hw ([[n' rs] es] & Hr & [= <-])%bind_Some. by apply hand_stop_step in Hr.
Qed.

Lemma stranded_add n id d h p : net_wf n -> stranded n h p -> stranded (add_socket n id d).1 h p.
Proof.
  intros Hw [[op Ho] Hn]. split; [by exists op|]. intros [id' Hr]. apply Hn. cbn in Hr.
  destruct (sockets_ n !! id); [by exists id'|]. apply lookup_insert_Some in Hr as [[-> <-]|[_ ?]]; [|by exists id'].
  destruct (wf_pending n Hw _ _ _ Ho) as (d0 & Hd & _). apply (wf_fresh n Hw) in Hd. lia.
Qed.

Lemma hand_accept_step n id acc l rm r :
  net_wf n -> hand_accept garbage n id acc l rm = Some r -> step_ok None n r.1.1.
Proof.
  intros Hw. unfold hand_accept. destruct (sockets_ n !! id) as [ptr|] eqn:Hs; [|by apply close_step].
  set (d := NetworkData acc no_error _ [] None l rm). pose proof (wf_add n acc d Hw eq_refl eq_refl eq_refl) as Hwa.
  assert (sockets_ (add_socket n acc d).1 !! id = Some ptr) as Hs'.
  { cbn. destruct (sockets_ n !! acc) eqn:Ea; [done|]. rewrite lookup_insert_ne; [done|]. congruence. }
  pose proof (stranded_add n acc d) as Hst.
  destruct (add_socket n acc d) as [n1 q]. cbn [fst] in *. intros (ld & Hd & Hr)%bind_Some.
  destruct (resume_opt_step n1 id ptr ld (set_accepted (accepted ld ++ [acc]) ld) _ r Hwa Hs' Hd eq_refl
    (or_introl (conj eq_refl (conj eq_refl eq_refl))) Hr) as [Hw2 Hst2].
  split; [done|]. intros h p Hk Hsd. by apply Hst2, Hst.
Qed.

Lemma call_op_step n h c op id r :
  net_wf n -> pending n !! h = None -> call_op garbage n h c op id = Some r -> step_ok None n r.1.1.
Proof.
  intros Hw Hp. unfold call_op. destruct (negb (op_allowed op id)); [by intros [= <-]|].
  destruct (sockets_ n !! id) as [ptr|] eqn:Hs; [|by intros [= <-]].
  intros (d & Hd & ([nx d'] & Eb & [= <-])%bind_Some)%bind_Some.
  assert (handle d <> Some h) as Hne.
  { intros Hh. destruct (wf_handle n Hw ptr d h) as (? & ?); [by exists id|done..|congruence]. }
  apply begin_op_waits in Eb; [|done]. split.
  - eapply wf_settle; [done|done|done|by destruct nx|congruence].
  - intros k p _ Hsd. apply stranded_settle; [|done]. intros ->. destruct Hsd as [[? ?] _]. congruence.
Qed.

Lemma call_start_step n h c id address r :
  net_wf n -> pending n !! h = None -> call_start garbage n h c id address = Some r -> step_ok None n r.1.1.
Proof.
  intros Hw Hp. unfold call_start.
  set (d := NetworkData id no_error _ [] None _ _). pose proof (wf_add n id d Hw eq_refl eq_refl eq_refl) as Hwa.
  pose proof (stranded_add n id d) as Hst.
  assert (objects (add_socket n id d).1 !! (add_socket n id d).2 = Some d) as Hd by apply lookup_insert_eq.
  assert (pending (add_socket n id d).1 !! h = None) as Hp' by done.
  destruct (add_socket n id d) as [n1 ptr]. cbn [fst snd] in *.
  intros ([nx d'] & Eb & [= <-])%bind_Some. apply begin_op_waits in Eb; [|done]. split.
  - eapply wf_settle; [done|done|done|by destruct nx|congruence].
  - intros k p _ Hsd. apply stranded_settle; [|by apply Hst]. intros ->. destruct Hsd as [[? ?] _]. congruence.
Qed.

Lemma cancel_step n h r : net_wf n -> cancel garbage n h = Some r -> step_ok (Some h) n r.1.1.
Proof.
  intros Hw ([ptr op] & Hp & (d & Hd & Hr)%bind_Some)%bind_Some. unfold remove_socket in Hr. cbn [snd] in Hr.
  apply resume_step in Hr as [Hw2 Hst].
  - split; [done|]. intros k p Hne [Ho Hn]. apply Hst; [done|]. split; [done|]. intros [id Hi]. apply Hn.
    cbn in Hi. apply lookup_delete_Some in Hi as [_ Hi]. by exists id.
  - by apply wf_erase.
  - intros _ p o Hp'. cbn in Hp'. simplify_eq. intros [id Hi]. cbn in Hi.
    apply lookup_delete_Some in Hi as [Hne Hi]. apply Hne.
    destruct (wf_object n Hw _ _ Hi) as (? & ? & ? & ?). congruence.
Qed.

Definition cancels (a : action) : option nat := match a with ACancel h => Some h | _ => None end.

Lemma act_step n a r : net_wf n -> legal n a -> act n a = Some r -> step_ok (cancels a) n r.1.1.
Proof.
  intros Hw Hl. destruct a as [[id l|id e|id c|id acc l rm]|id|h c op id|h c id ad|h]; cbn [act net_event cancels].
  - by apply hand_start_step.
  - by apply hand_stop_step.
  - by apply hand_read_step.
  - by apply hand_accept_step.
  - by apply close_step.
  - by apply call_op_step.
  - by apply call_start_step.
  - by apply cancel_step.
Qed.

Lemma net_empty_wf : net_wf net_empty.
Proof.
  split; cbn.
  - intros id ptr H. by rewrite lookup_empty in H.
  - intros ptr d H. by rewrite lookup_empty in H.
  - intros id1 id2 ptr H. by rewrite lookup_empty in H.
  - intros ptr d h _ H. by rewrite lookup_empty in H.
  - intros h ptr op H. by rewrite lookup_empty in H.
Qed.

Lemma reaches_wf n l n' : reaches n l n' -> net_wf n -> net_wf n'.
Proof.
  induction 1 as [|n a n1 rs es l n2 Hl Ha _ IH]; [done|]. intros Hw.
  destruct (act_step n a _ Hw Hl Ha). by apply IH.
Qed.

Lemma reaches_stranded n l n' h ptr :
  reaches n l n' -> net_wf n -> stranded n h ptr -> ACancel h ∉ l -> stranded n' h ptr.
Proof.
  induction 1 as [|n a n1 rs es l n2 Hl Ha _ IH]; [done|]. intros Hw Hsd [Hna Hnl]%not_elem_of_cons.
  destruct (act_step n a _ Hw Hl Ha) as [Hw1 Hst]. apply IH; [done| |done].
  apply Hst; [|done]. destruct a; try done. cbn. congruence.
Qed.
End table.

Lemma find_sub_least s p pos k :
  find_sub s p = Some pos -> (k < pos)%nat -> take (length p) (drop k s) <> p.
Proof.
  revert pos k. induction s as [|c s IH]; intros pos k; cbn [find_sub]; unfold starts_with.
  - destruct (bool_decide_reflect (take (length p) [] = p)); [|done]. intros [= <-]. lia.
  - destruct (bool_decide_reflect (take (length p) (c :: s) = p)); [intros [= <-]; lia|].
    intros (m & Hm & ->)%fmap_Some Hk. destruct k as [|k]; [done|]. cbn [drop]. eapply IH; [done|lia].
Qed.

(** * Theorems *)

(** For every way the bytes of a stream are cut into chunks, [read_until]
    returns the text up to and including the first occurrence of the
    delimiter in the unread bytes followed by the arriving ones, adds it to the
    caller's buffer, and leaves exactly the rest of the stream unread; without
    an occurrence the coroutine stays suspended and no byte is lost: the
    caller's buffer and the socket's buffer together hold the stream. *)
Theorem read_until_first_delimiter (garbage : nat -> Z) (n : net) (h : nat) (id : Z) (ptr : nat) (d : network_data)
    (delim : bytes) (out : memory_buffer) (os : bytes) (bs : bytes) (chunks : list bytes)
    (Hallowed : op_allowed (OpReadUntil delim out) id = true)
    (Hsocket : socket n id (zlen (concat chunks)) bs d ptr)
    (Hout : holds (zlen bs + zlen (concat chunks)) out os) :
  let stream := bs ++ concat chunks in
  match find_sub stream delim with
  | Some pos =>
      let len := Z.of_nat pos + zlen delim in
      exists n' d' out',
        session garbage n h (OpReadUntil delim out) id chunks = Some (n', [(h, inl (RUntil (zlen os + len) out'))]) /\
        view (mb_base out') = Some (os ++ ztake len stream) /\
        socket n' id 0 (zdrop len stream) d' ptr
  | None =>
      exists n' d' out' moved left,
        session garbage n h (OpReadUntil delim out) id chunks = Some (n', []) /\
        pending n' !! h = Some (ptr, OpReadUntil delim out') /\
        sockets_ n' !! id = Some ptr /\ objects n' !! ptr = Some d' /\
        view (mb_base out') = Some (os ++ moved) /\ view (mb_base (buf d')) = Some left /\
        moved ++ left = stream
  end.
Proof.
  destruct Hsocket as (Hs & Hob & Ho & T & Hb & HT). destruct Hout as (To & Hout & HTo).
  assert (delim <> []) as Hd by (intros ->; done).
  pose proof (read_until_run garbage h delim chunks T To d out bs os Hd Ho Hb Hout HT ltac:(lia)) as Hr.
  cbn zeta in *. destruct (find_sub (bs ++ concat chunks) delim) as [pos|].
  - destruct Hr as (rest & d1 & out' & left & Hr & Ho1 & (T1 & Hout' & _) & Hleft & E).
    destruct (session_run_op garbage h id ptr chunks n d _ rest _ d1 Hallowed Hs Hob Hr)
      as (n1 & Hs1 & Hob1 & Harr).
    destruct (idle_arrivals garbage id ptr rest n1 d1 left) as (n2 & d2 & E2 & _ & Hn2).
    { split; [by rewrite Hs1|]. split; [done|]. split; [done|exact Hleft]. }
    exists n2, d2, out'. rewrite <- E. split; [by apply Harr|]. split; [by eapply buffered_view|exact Hn2].
  - destruct Hr as (d1 & out' & left & Hr & Ho1 & moved & (T1 & Hout' & _) & (T2 & Hleft & _) & E).
    destruct (session_run_op garbage h id ptr chunks n d _ [] _ _ Hallowed Hs Hob Hr)
      as (n1 & Hss & Hs1 & Hob1 & Hp1).
    exists n1, (set_handle (Some h) d1), out', moved, left.
    repeat split; [done|done|by rewrite Hs1|done|by eapply buffered_view|by apply (buffered_view T2)|done].
Qed.

(** For every way the stream is cut into chunks, [read_size] returns
    exactly its next [size] bytes as soon as they have arrived and leaves the
    rest unread; before that it stays suspended and takes nothing. *)
Theorem read_size_exact (garbage : nat -> Z) (n : net) (h : nat) (id : Z) (ptr : nat) (d : network_data)
    (size : Z) (bs : bytes) (chunks : list bytes)
    (Hallowed : op_allowed (OpReadSize size) id = true) (Hsize : 0 <= size)
    (Hsocket : socket n id (zlen (concat chunks)) bs d ptr) :
  let stream := bs ++ concat chunks in
  if size <=? zlen stream then
    exists n' d',
      session garbage n h (OpReadSize size) id chunks = Some (n', [(h, inl (RBytes (ztake size stream)))]) /\
      socket n' id 0 (zdrop size stream) d' ptr
  else
    exists n' d',
      session garbage n h (OpReadSize size) id chunks = Some (n', []) /\
      pending n' !! h = Some (ptr, OpReadSize size) /\
      sockets_ n' !! id = Some ptr /\ objects n' !! ptr = Some d' /\ view (mb_base (buf d')) = Some stream.
Proof.
  destruct Hsocket as (Hs & Hob & Ho & T & Hb & HT).
  pose proof (read_size_run garbage h size chunks T d bs Ho Hb Hsize HT) as Hr.
  cbn zeta in *. destruct (size <=? zlen (bs ++ concat chunks)).
  - destruct Hr as (rest & d1 & left & Hr & Ho1 & Hleft & E).
    destruct (session_run_op garbage h id ptr chunks n d _ rest _ d1 Hallowed Hs Hob Hr)
      as (n1 & Hs1 & Hob1 & Harr).
    destruct (idle_arrivals garbage id ptr rest n1 d1 left) as (n2 & d2 & E2 & _ & Hn2).
    { split; [by rewrite Hs1|]. split; [done|]. split; [done|exact Hleft]. }
    exists n2, d2. rewrite <- E. split; [by apply Harr|exact Hn2].
  - destruct Hr as (d1 & Hr & Ho1 & (T2 & Hleft & _)).
    destruct (session_run_op garbage h id ptr chunks n d _ [] _ _ Hallowed Hs Hob Hr)
      as (n1 & Hss & Hs1 & Hob1 & Hp1).
    exists n1, (set_handle (Some h) d1).
    repeat split; [done|done|by rewrite Hs1|done|by apply (buffered_view T2)].
Qed.

(** C30: the table keeps its invariant whatever happens, from its creation
    on: an open socket has no error, ids do not share a socket, a coroutine is
    suspended on a socket exactly when it is its [handle], so that every
    handler wakes the coroutine that waits for that socket and no other. *)
Theorem socket_table_invariant (garbage : nat -> Z) (l : list action) (n : net)
    (Hreach : reaches garbage net_empty l n) :
  net_wf n /\
  forall ptr d h, referenced n ptr -> objects n !! ptr = Some d ->
    handle d = Some h <-> exists op, pending n !! h = Some (ptr, op).
Proof.
  pose proof (reaches_wf garbage _ _ _ Hreach net_empty_wf) as Hw. split; [done|].
  intros ptr d h Hr Hd. split; [by apply wf_handle|]. intros (op & Hp).
  destruct (wf_pending n Hw _ _ _ Hp) as (d' & ? & ?). congruence.
Qed.

(** A second coroutine that would have to wait for a socket another one
    waits for gets [invalid_action], and the table is as before. *)
Theorem second_waiter_refused (garbage : nat -> Z) (n : net) (h k : nat) (op : net_op) (id : Z) (ptr : nat)
    (d : network_data) (Hallowed : op_allowed op id = true)
    (Hop : match op with OpAccept | OpRead _ | OpReadSize _ => True | _ => False end)
    (Hs : sockets_ n !! id = Some ptr) (Hob : objects n !! ptr = Some d)
    (Hwait : op_start garbage op d = Some (Await op d)) (Hk : handle d = Some k)
    (Hrun : pending n !! h = None) (Hne : h <> k) :
  call_op garbage n h false op id = Some (n, [(h, inr (coro_error invalid_action))], []).
Proof.
  unfold call_op. rewrite Hallowed, Hs, Hob. cbn [negb mbind option_bind]. unfold begin_op. rewrite Hwait.
  cbn [mbind option_bind run_stretch]. unfold await_suspend. rewrite Hk. unfold await_resume.
  rewrite bool_decide_eq_false_2 by congruence. cbn. rewrite insert_id, delete_id by done. by destruct n.
Qed.

(** What a stopped socket gives its reader. *)
Definition interrupted (op : net_op) (e : error_code) : net_result + error_code :=
  if decide (e = eof) then
    inl (match op with
         | OpReadUntil _ out => RUntil 0 out
         | _ => RBytes []
         end)
  else inr e.

(** When a socket stops with an error, its reader is woken: it returns
    zero bytes at the end of the stream, and any other error is thrown; the id
    is gone and the coroutine waits no more. *)
Theorem stop_wakes_reader (garbage : nat -> Z) (n : net) (h : nat) (op : net_op) (id : Z) (ptr : nat)
    (d : network_data) (e : error_code) (Hw : net_wf n)
    (Hop : match op with OpRead _ | OpReadSize _ | OpReadUntil _ _ => True | _ => False end)
    (Hs : sockets_ n !! id = Some ptr) (Hob : objects n !! ptr = Some d)
    (Hp : pending n !! h = Some (ptr, op)) (He : ec_true e = true) :
  exists n', hand_stop garbage n id e = Some (n', [(h, interrupted op e)], []) /\
    net_wf n' /\ sockets_ n' = delete id (sockets_ n) /\ pending n' = delete h (pending n).
Proof.
  destruct (wf_pending n Hw _ _ _ Hp) as (d' & Hd' & Hh). assert (d' = d) as -> by congruence.
  assert (exists d1, hand_stop garbage n id e =
    Some (Net (delete id (sockets_ n)) (<[ptr := d1]> (<[ptr := set_ec e d]> (objects n))) (fresh n) (delete h (pending n)),
          [(h, interrupted op e)], [])) as (d1 & E).
  { unfold hand_stop. rewrite Hs, Hob. cbn [mbind option_bind]. rewrite Hh. cbn [resume_opt]. unfold resume.
    cbn [pending]. rewrite Hp. cbn [mbind option_bind objects]. rewrite lookup_insert_eq. cbn [mbind option_bind].
    unfold resume_op, await_resume. cbn [handle set_ec ec]. rewrite Hh, bool_decide_eq_true_2 by done. cbn [negb].
    rewrite He. unfold interrupted. destruct (decide (e = eof)) as [->|Hne].
    - rewrite bool_decide_eq_true_2 by done. cbn [negb andb]. destruct op; try done; by eexists.
    - rewrite bool_decide_eq_false_2 by done. cbn. by eexists. }
  eexists. split; [exact E|]. split; [|done]. by apply hand_stop_step in E as [].
Qed.

(** [kcp_check_failed] is number zero of its category, so it counts as no
    error: a socket stopped with it leaves its [read_size] suspended, and
    whatever happens afterwards, short of cancelling that coroutine, it is
    never resumed. *)
Theorem kcp_check_failed_strands_reader (garbage : nat -> Z) (n : net) (h : nat) (size : Z) (id : Z) (ptr : nat)
    (d : network_data) (Hw : net_wf n) (Hs : sockets_ n !! id = Some ptr) (Hob : objects n !! ptr = Some d)
    (Hp : pending n !! h = Some (ptr, OpReadSize size)) (Hshort : readable (mb_base (buf d)) < size) :
  exists n1,
    net_event garbage n (EvStop id (socket_error kcp_check_failed)) = Some (n1, [], []) /\
    forall l n2, reaches garbage n1 l n2 -> ACancel h ∉ l -> exists op, pending n2 !! h = Some (ptr, op).
Proof.
  destruct (wf_pending n Hw _ _ _ Hp) as (d' & Hd' & Hh). assert (d' = d) as -> by congruence.
  assert (exists n1, hand_stop garbage n id (socket_error kcp_check_failed) = Some (n1, [], []) /\
    sockets_ n1 = delete id (sockets_ n) /\ pending n1 = <[h := (ptr, OpReadSize size)]> (pending n)) as (n1 & E & Es & Ep).
  { unfold hand_stop. rewrite Hs, Hob. cbn [mbind option_bind]. rewrite Hh. cbn [resume_opt]. unfold resume.
    cbn [pending]. rewrite Hp. cbn [mbind option_bind objects]. rewrite lookup_insert_eq. cbn [mbind option_bind].
    unfold resume_op, await_resume. cbn [handle set_ec ec]. rewrite Hh, bool_decide_eq_true_2 by done.
    cbn [negb socket_error ec_true ec_value Z.eqb andb op_resumed ec set_handle set_ec op_start buf].
    rewrite (proj2 (Z.ltb_lt _ _) Hshort). cbn. by eexists. }
  exists n1. split; [exact E|]. intros l n2 Hl Hnc. apply hand_stop_step in E as [Hw1 _]; [|done].
  destruct (reaches_stranded garbage n1 l n2 h ptr Hl Hw1) as [? _]; [|done|done].
  split; [exists (OpReadSize size); rewrite Ep; apply lookup_insert_eq|].
  intros [id' Hr]. rewrite Es in Hr. apply lookup_delete_Some in Hr as [Hne Hr]. apply Hne. exact (wf_inj n Hw _ _ _ Hs Hr).
Qed.

(** * Witnesses

    Client socket 7 with an empty buffer, on which coroutine [w] waits. *)

Definition demo_data (w : option nat) : network_data :=
  NetworkData 7 no_error (mb_make memory_buffer_fixed 0) [] w [] [].

Definition demo_net (w : option (nat * net_op)) : net :=
  Net {[7 := 0%nat]} {[0%nat := demo_data (fst <$> w)]} 1
      (match w with Some (h, op) => {[h := (0%nat, op)]} | None => ∅ end).

Definition no_garbage (_ : nat) : Z := 0.

Lemma empty_holds k : k <= 2 ^ 60 -> holds k (mb_make memory_buffer_fixed 0) [].
Proof.
  intros Hk. exists memory_buffer_fixed. split; [exists 0; by apply sim_new|]. unfold memory_buffer_fixed. lia.
Qed.

Lemma demo_socket k : k <= 2 ^ 60 -> socket (demo_net None) 7 k [] (demo_data None) 0.
Proof. intros Hk. split; [done|]. split; [done|]. split; [done|]. by apply empty_holds. Qed.

Lemma demo_net_wf h op : net_wf (demo_net (Some (h, op))).
Proof.
  split; cbn.
  - intros id p [<- <-]%lookup_singleton_Some. by exists (demo_data (Some h)).
  - intros p d [<- _]%lookup_singleton_Some. lia.
  - intros i1 i2 p [<- _]%lookup_singleton_Some [<- _]%lookup_singleton_Some. done.
  - intros p d k _ [<- <-]%lookup_singleton_Some [= <-]. exists op. apply lookup_singleton_eq.
  - intros k p o [<- [= <- <-]]%lookup_singleton_Some. by exists (demo_data (Some h)).
Qed.

Definition demo_chunks : list bytes := [[71; 13]; [10; 72; 13]; [10]].

Lemma read_until_first_delimiter_witness :
  exists n' d' out',
    session no_garbage (demo_net None) 1 (OpReadUntil [13; 10] (mb_make memory_buffer_fixed 0)) 7 demo_chunks =
      Some (n', [(1%nat, inl (RUntil 3 out'))]) /\
    view (mb_base out') = Some [71; 13; 10] /\ socket n' 7 0 [72; 13; 10] d' 0.
Proof.
  refine (read_until_first_delimiter no_garbage (demo_net None) 1 7 0 (demo_data None) [13; 10]
            (mb_make memory_buffer_fixed 0) [] [] demo_chunks eq_refl (demo_socket _ _) (empty_holds _ _));
    vm_compute; discriminate.
Defined.

Lemma read_size_exact_witness :
  exists n' d',
    session no_garbage (demo_net None) 1 (OpReadSize 4) 7 demo_chunks =
      Some (n', [(1%nat, inl (RBytes [71; 13; 10; 72]))]) /\
    socket n' 7 0 [13; 10] d' 0.
Proof.
  refine (read_size_exact no_garbage (demo_net None) 1 7 0 (demo_data None) 4 [] demo_chunks
            eq_refl _ (demo_socket _ _)); vm_compute; discriminate.
Defined.

Lemma socket_table_invariant_witness :
  exists n, reaches no_garbage net_empty [AStart 1 false 7 []; AEvent (EvStart 7 [49]); ACall 1 false (OpRead 9) 7] n /\
    net_wf n.
Proof.
  assert (exists n, reaches no_garbage net_empty
            [AStart 1 false 7 []; AEvent (EvStart 7 [49]); ACall 1 false (OpRead 9) 7] n) as [n Hn].
  { eexists. eapply reaches_step; [reflexivity|reflexivity|].
    eapply reaches_step; [exact I|reflexivity|]. eapply reaches_step; [reflexivity|reflexivity|]. apply reaches_refl. }
  exists n. split; [exact Hn|]. exact (proj1 (socket_table_invariant _ _ _ Hn)).
Defined.

Lemma second_waiter_refused_witness :
  call_op no_garbage (demo_net (Some (1%nat, OpReadSize 4))) 2 false (OpRead 9) 7 =
    Some (demo_net (Some (1%nat, OpReadSize 4)), [(2%nat, inr (coro_error invalid_action))], []).
Proof. by apply (second_waiter_refused _ _ 2 1 (OpRead 9) 7 0 (demo_data (Some 1%nat))). Defined.

Lemma stop_wakes_reader_witness :
  exists n', hand_stop no_garbage (demo_net (Some (1%nat, OpReadSize 4))) 7 eof = Some (n', [(1%nat, inl (RBytes []))], []) /\
    net_wf n' /\ sockets_ n' = delete 7 {[7 := 0%nat]} /\ pending n' = delete 1%nat {[1%nat := (0%nat, OpReadSize 4)]}.
Proof.
  by apply (stop_wakes_reader no_garbage (demo_net (Some (1%nat, OpReadSize 4))) 1 (OpReadSize 4) 7 0
              (demo_data (Some 1%nat)) eof (demo_net_wf _ _)).
Defined.

Lemma kcp_check_failed_strands_reader_witness :
  exists n1,
    net_event no_garbage (demo_net (Some (1%nat, OpReadSize 4))) (EvStop 7 (socket_error kcp_check_failed)) =
      Some (n1, [], []) /\
    forall l n2, reaches no_garbage n1 l n2 -> ACancel 1 ∉ l -> exists op, pending n2 !! 1%nat = Some (0%nat, op).
Proof.
  by apply (kcp_check_failed_strands_reader no_garbage (demo_net (Some (1%nat, OpReadSize 4))) 1 4 7 0
              (demo_data (Some 1%nat)) (demo_net_wf _ _)).
Defined.
