(* ===== verification/Stream.v ===== *)
(** A coroutine that talks over one connection, as the web protocols
    (src/runtime/src/web/) do: it reads the connection's bytes with
    [network::read_until] and [network::read_size] and sends with
    [network::write]. File Network shows that these two return the same
    whatever chunks the bytes arrive in, which is why a connection is here the
    sequence of its bytes, followed by the end of the stream.

    Also the character constants and the decimal conversions of the standard
    library that the protocols use. *)

From Stdlib Require Import (notations) String.
From Stdlib Require Ascii.
From S2P Require Import Prelude Network.

(** * Text *)

(** The bytes of a string literal. *)
Definition str (s : String.string) : bytes :=
  (fun a => Z.of_N (Ascii.N_of_ascii a)) <$> String.list_ascii_of_string s.
Arguments str s%_string.

Definition crlf : bytes := [13; 10].

Definition is_digit (c : Z) : bool := (48 <=? c) && (c <=? 57).

Lemma is_digit_range c : is_digit c = true -> 48 <= c <= 57.
Proof. unfold is_digit. lia. Qed.

(** [std::to_string] of a [size_t], which has at most 20 digits. *)
Fixpoint dec_digits (fuel : nat) (n : Z) (acc : bytes) : bytes :=
  match fuel with
  | O => acc
  | S fuel => if n / 10 =? 0 then 48 + n mod 10 :: acc else dec_digits fuel (n / 10) (48 + n mod 10 :: acc)
  end.

Definition to_string (n : Z) : bytes := dec_digits 20 n [].

Fixpoint leading_digits (s : bytes) : bytes :=
  match s with
  | c :: s => if is_digit c then c :: leading_digits s else []
  | [] => []
  end.

Definition dec_value (ds : bytes) : Z := fold_left (fun v c => v * 10 + (c - 48)) ds 0.

(** [std::from_chars] into a [size_t] that holds [old]: without digits or out
    of range, the value stays. *)
Definition from_chars (s : bytes) (old : Z) : Z :=
  match leading_digits s with
  | [] => old
  | ds => if dec_value ds <? 2 ^ 64 then dec_value ds else old
  end.

(** * Connections *)

Record conn := Conn { input : bytes; sent : bytes }.

(** The exceptions thrown, and two outcomes the program does not name: signed
    overflow, and a loop that outruns the fuel it is given here. *)
Inductive fault :=
  | recv_eof
  | request_line_fail | reply_line_fail | header_fail
  | length_error
  | websocket_read_fail
  | flag_invalid | len_limit
  | type_invalid | upgrade_invalid | connection_invalid | accept_invalid | key_invalid
  | undefined_behaviour
  | no_fuel.

Definition web (A : Type) : Type := conn -> (fault + A) * conn.

#[export] Instance web_ret : MRet web := fun A a c => (inr a, c).

#[export] Instance web_bind : MBind web := fun A B k m c =>
  match m c with
  | (inl e, c) => (inl e, c)
  | (inr a, c) => k a c
  end.

Definition throw {A} (e : fault) : web A := fun c => (inl e, c).

(** [read_until]: the bytes up to and including [delim]; none at the end of the
    stream. *)
Definition read_until (delim : bytes) : web bytes := fun c =>
  match find_sub (input c) delim with
  | Some pos =>
      let n := Z.of_nat pos + zlen delim in
      (inr (ztake n (input c)), Conn (zdrop n (input c)) (sent c))
  | None => (inr [], Conn [] (sent c))
  end.

(** [read_size]: the next [n] bytes; none at the end of the stream. *)
Definition read_size (n : Z) : web bytes := fun c =>
  if n <=? zlen (input c) then (inr (ztake n (input c)), Conn (zdrop n (input c)) (sent c))
  else (inr [], Conn [] (sent c)).

Definition write (bs : bytes) : web () := fun c => (inr (), Conn (input c) (sent c ++ bs)).

(** * The monad *)

Lemma bind_ok {A B} (m : web A) (k : A -> web B) a c c' :
  m c = (inr a, c') -> (m ≫= k) c = k a c'.
Proof. intros E. unfold mbind, web_bind. by rewrite E. Qed.

Lemma bind_fault {A B} (m : web A) (k : A -> web B) e c c' :
  m c = (inl e, c') -> (m ≫= k) c = (inl e, c').
Proof. intros E. unfold mbind, web_bind. by rewrite E. Qed.

Lemma bind_inv {A B} (m : web A) (k : A -> web B) c r :
  (m ≫= k) c = r ->
  (exists a c', m c = (inr a, c') /\ k a c' = r) \/ (exists e c', m c = (inl e, c') /\ r = (inl e, c')).
Proof. unfold mbind, web_bind. destruct (m c) as [[e|a] c'] eqn:E; intros <-; eauto. Qed.

(** * Searching for CRLF *)

Lemma find_crlf line rest : Forall (fun c => c <> 13) line -> find_sub (line ++ crlf ++ rest) crlf = Some (length line).
Proof.
  induction 1 as [|c line Hc _ IH]; [done|]. cbn [app find_sub].
  unfold starts_with. rewrite bool_decide_eq_false_2 by (cbn [length crlf take]; unfold crlf; congruence). by rewrite IH.
Qed.

Lemma read_line_ok line rest out :
  Forall (fun c => c <> 13) line ->
  read_until crlf (Conn (line ++ crlf ++ rest) out) = (inr (line ++ crlf), Conn rest out).
Proof.
  intros Hl. unfold read_until. cbn [input sent]. rewrite find_crlf by done.
  change (Z.of_nat (length line) + zlen crlf) with (zlen line + 2).
  rewrite app_assoc. replace (zlen line + 2) with (zlen (line ++ crlf)) by (rewrite zlen_app; done).
  by rewrite ztake_app_length, zdrop_app_length.
Qed.

Lemma read_size_ok bs rest out :
  read_size (zlen bs) (Conn (bs ++ rest) out) = (inr bs, Conn rest out).
Proof.
  unfold read_size. cbn [input sent]. pose proof (zlen_nonneg rest).
  rewrite (proj2 (Z.leb_le _ _)) by (rewrite zlen_app; lia). by rewrite ztake_app_length, zdrop_app_length.
Qed.

(** What is read has been taken from the input. *)
Lemma read_until_shorter delim c bs c' :
  read_until delim c = (inr bs, c') -> bs <> [] -> (length (input c') + length bs <= length (input c))%nat.
Proof.
  unfold read_until. destruct (find_sub (input c) delim) as [pos|] eqn:E; [|by intros [= <- <-]].
  intros [= <- <-] _. cbn [input]. unfold ztake, zdrop. rewrite length_take, length_drop. lia.
Qed.

(** * Decimal numbers *)

Lemma dec_digits_S fuel n acc :
  dec_digits (S fuel) n acc =
    if n / 10 =? 0 then 48 + n mod 10 :: acc else dec_digits fuel (n / 10) (48 + n mod 10 :: acc).
Proof. done. Qed.

Lemma dec_digits_app fuel n acc : dec_digits fuel n acc = dec_digits fuel n [] ++ acc.
Proof.
  revert n acc. induction fuel as [|fuel IH]; intros n acc; [done|]. cbn [dec_digits].
  destruct (n / 10 =? 0); [done|]. rewrite IH, (IH _ [_]). by rewrite <- app_assoc.
Qed.

Lemma dec_digits_digits fuel n : 0 <= n -> Forall (fun c => is_digit c = true) (dec_digits fuel n []).
Proof.
  revert n. induction fuel as [|fuel IH]; intros n Hn; [constructor|]. cbn [dec_digits].
  assert (is_digit (48 + n mod 10) = true) as Hd by (unfold is_digit; divlia).
  destruct (n / 10 =? 0); [by repeat constructor|]. rewrite dec_digits_app.
  apply Forall_app. split; [apply IH; divlia|by repeat constructor].
Qed.

Lemma dec_value_snoc ds c : dec_value (ds ++ [c]) = dec_value ds * 10 + (c - 48).
Proof. unfold dec_value. by rewrite fold_left_app. Qed.

Lemma dec_value_digits fuel n : 0 <= n < 10 ^ Z.of_nat (S fuel) -> dec_value (dec_digits (S fuel) n []) = n.
Proof.
  revert n. induction fuel as [|fuel IH]; intros n Hn; rewrite dec_digits_S.
  - assert (n < 10) by lia. rewrite (proj2 (Z.eqb_eq _ _)) by divlia. unfold dec_value. cbn [fold_left]. divlia.
  - destruct (Z.eqb_spec (n / 10) 0); [unfold dec_value; cbn [fold_left]; divlia|].
    rewrite (dec_digits_app (S fuel)), dec_value_snoc, IH; [divlia|].
    rewrite (Nat2Z.inj_succ (S fuel)), Z.pow_succ_r in Hn by lia. divlia.
Qed.

Lemma dec_digits_nonempty fuel n : dec_digits (S fuel) n [] <> [].
Proof.
  cbn [dec_digits]. destruct (n / 10 =? 0); [done|]. rewrite dec_digits_app. by destruct (dec_digits fuel (n / 10) []).
Qed.

Lemma leading_digits_all ds : Forall (fun c => is_digit c = true) ds -> leading_digits ds = ds.
Proof. induction 1 as [|c ds Hc _ IH]; [done|]. cbn. by rewrite Hc, IH. Qed.

Lemma from_to_string n old : 0 <= n < 2 ^ 64 -> from_chars (to_string n) old = n.
Proof.
  intros Hn. unfold from_chars, to_string. rewrite leading_digits_all by (apply dec_digits_digits; lia).
  pose proof (dec_digits_nonempty 19 n) as Hne. pose proof (dec_value_digits 19 n ltac:(lia)) as Hv.
  destruct (dec_digits 20 n []) as [|c ds]; [done|]. rewrite Hv. by rewrite (proj2 (Z.ltb_lt _ _)) by lia.
Qed.
