(* ===== verification/Http.v ===== *)
(** HTTP messages (src/runtime/src/web/http.cpp, src/runtime/include/simple/web/http.h):
    the stock replies and the text of a reply, and the parsers of request
    lines, status lines, header lines and whole messages. *)

From Stdlib Require Import (notations) String.
From S2P Require Import Prelude Network Stream.

(** * Data *)

Record header := Header { name : bytes; value : bytes }.

Record request := Request {
  method : bytes; uri : bytes; version_major : Z; version_minor : Z;
  req_headers : list header; req_content : bytes }.

Definition request_new : request := Request [] [] 0 0 [] [].

(** [status_t] has [int] underneath: a parsed reply can hold any number. *)
Record reply := Reply { status : Z; headers : list header; content : bytes }.

Definition reply_new : reply := Reply 200 [] [].

(** * Replies *)

Definition status_line (status : Z) : bytes :=
  match status with
  | 101 => str "HTTP/1.1 101 Switching Protocols"
  | 200 => str "HTTP/1.1 200 OK"
  | 201 => str "HTTP/1.1 201 Created"
  | 202 => str "HTTP/1.1 202 Accepted"
  | 204 => str "HTTP/1.1 204 No Content"
  | 300 => str "HTTP/1.1 300 Multiple Choices"
  | 301 => str "HTTP/1.1 301 Moved Permanently"
  | 302 => str "HTTP/1.1 302 Moved Temporarily"
  | 304 => str "HTTP/1.1 304 Not Modified"
  | 400 => str "HTTP/1.1 400 Bad Request"
  | 401 => str "HTTP/1.1 401 Unauthorized"
  | 403 => str "HTTP/1.1 403 Forbidden"
  | 404 => str "HTTP/1.1 404 Not Found"
  | 501 => str "HTTP/1.1 501 Not Implemented"
  | 502 => str "HTTP/1.1 502 Bad Gateway"
  | 503 => str "HTTP/1.1 503 Service Unavailable"
  | _ => str "HTTP/1.1 500 Internal Server Error"
  end.

Definition to_string_view (status : Z) : bytes := status_line status ++ crlf.

Definition name_value_separator : bytes := str ": ".

Definition header_text (h : header) : bytes := name h ++ name_value_separator ++ value h ++ crlf.

Definition to_buffer (r : reply) : bytes :=
  to_string_view (status r) ++ concat (header_text <$> headers r) ++ crlf ++ content r.

Definition page (title heading : bytes) : bytes :=
  str "<html><head><title>" ++ title ++ str "</title></head><body><h1>" ++ heading ++ str "</h1></body></html>".

Definition to_replies (status : Z) : bytes :=
  match status with
  | 101 => []
  | 200 => []
  | 201 => page (str "Created") (str "201 Created")
  | 202 => page (str "Accepted") (str "202 Accepted")
  | 204 => page (str "No Content") (str "204 Content")
  | 300 => page (str "Multiple Choices") (str "300 Multiple Choices")
  | 301 => page (str "Moved Permanently") (str "301 Moved Permanently")
  | 302 => page (str "Moved Temporarily") (str "302 Moved Temporarily")
  | 304 => page (str "Not Modified") (str "304 Not Modified")
  | 400 => page (str "Bad Request") (str "400 Bad Request")
  | 401 => page (str "Unauthorized") (str "401 Unauthorized")
  | 403 => page (str "Forbidden") (str "403 Forbidden")
  | 404 => page (str "Not Found") (str "404 Not Found")
  | 501 => page (str "Not Implemented") (str "501 Not Implemented")
  | 502 => page (str "Bad Gateway") (str "502 Bad Gateway")
  | 503 => page (str "Service Unavailable") (str "503 Service Unavailable")
  | _ => page (str "Internal Server Error") (str "500 Internal Server Error")
  end.

Definition stock (status : Z) : reply :=
  let content := to_replies status in
  Reply status
    [Header (str "Content-Length") (to_string (zlen content)); Header (str "Content-Type") (str "text/html")]
    content.

(** * Characters

    A [char] is signed: [c] is the byte, [s8 c] the value compared. *)

Definition is_char (c : Z) : bool := (0 <=? s8 c) && (s8 c <=? 127).

Definition is_ctl (c : Z) : bool := ((0 <=? s8 c) && (s8 c <=? 31)) || (s8 c =? 127).

(** ( ) < > @ , ; : \ double-quote / [ ] ? = { } space tab *)
Definition is_special (c : Z) : bool :=
  bool_decide (c ∈ [40; 41; 60; 62; 64; 44; 59; 58; 92; 34; 47; 91; 93; 63; 61; 123; 125; 32; 9]).

(** The characters of methods and header names. *)
Definition is_token (c : Z) : bool := is_char c && negb (is_ctl c) && negb (is_special c).

(** [v * 10 + ch - '0'] in [int32_t]: [None] where it overflows. *)
Definition int_push (v c : Z) : option Z :=
  if v * 10 + c <? 2 ^ 31 then Some (v * 10 + c - 48) else None.

(** * The line parsers

    Each character takes the parser to its next state, or the line is rejected
    ([return false]), or the behaviour is undefined. *)

Inductive step (S : Type) := Go (s : S) | Reject | Undefined.
Arguments Go {S} s.
Arguments Reject {S}.
Arguments Undefined {S}.

Inductive line_state :=
  | method_start | method_ | uri_
  | version_h | version_t_1 | version_t_2 | version_p | version_slash
  | version_major_start | version_major_ | version_minor_start | version_minor_
  | status_start | status_ | reason.

#[export] Instance line_state_dec : EqDecision line_state.
Proof. solve_decision. Defined.

Definition push_method (c : Z) (r : request) : request :=
  Request (method r ++ [c]) (uri r) (version_major r) (version_minor r) (req_headers r) (req_content r).

Definition push_uri (c : Z) (r : request) : request :=
  Request (method r) (uri r ++ [c]) (version_major r) (version_minor r) (req_headers r) (req_content r).

Definition set_major (v : Z) (r : request) : request :=
  Request (method r) (uri r) v (version_minor r) (req_headers r) (req_content r).

Definition set_minor (v : Z) (r : request) : request :=
  Request (method r) (uri r) (version_major r) v (req_headers r) (req_content r).

Definition set_status (v : Z) (r : reply) : reply := Reply v (headers r) (content r).

(** One turn of the loop of [parser_request_line]. *)
Definition request_step (s : line_state * request) (c : Z) : step (line_state * request) :=
  let '(q, r) := s in
  match q with
  | method_start => if is_token c then Go (method_, push_method c r) else Reject
  | method_ =>
      if c =? 32 then Go (uri_, r)
      else if is_token c then Go (method_, push_method c r) else Reject
  | uri_ =>
      if c =? 32 then Go (version_h, r)
      else if is_ctl c then Reject else Go (uri_, push_uri c r)
  | version_h => if c =? 72 then Go (version_t_1, r) else Reject
  | version_t_1 => if c =? 84 then Go (version_t_2, r) else Reject
  | version_t_2 => if c =? 84 then Go (version_p, r) else Reject
  | version_p => if c =? 80 then Go (version_slash, r) else Reject
  | version_slash => if c =? 47 then Go (version_major_start, r) else Reject
  | version_major_start => if is_digit c then Go (version_major_, set_major (c - 48) r) else Reject
  | version_major_ =>
      if c =? 46 then Go (version_minor_start, r)
      else if is_digit c then
        match int_push (version_major r) c with Some v => Go (version_major_, set_major v r) | None => Undefined end
      else Reject
  | version_minor_start => if is_digit c then Go (version_minor_, set_minor (c - 48) r) else Reject
  | version_minor_ =>
      if is_digit c then
        match int_push (version_minor r) c with Some v => Go (version_minor_, set_minor v r) | None => Undefined end
      else Reject
  | _ => Go s
  end.

(** One turn of the loop of [parser_reply_line]. *)
Definition reply_step (s : line_state * reply) (c : Z) : step (line_state * reply) :=
  let '(q, r) := s in
  match q with
  | version_h => if c =? 72 then Go (version_t_1, r) else Reject
  | version_t_1 => if c =? 84 then Go (version_t_2, r) else Reject
  | version_t_2 => if c =? 84 then Go (version_p, r) else Reject
  | version_p => if c =? 80 then Go (version_slash, r) else Reject
  | version_slash => if c =? 47 then Go (version_major_start, r) else Reject
  | version_major_start => if is_digit c then Go (version_major_, r) else Reject
  | version_major_ =>
      if c =? 46 then Go (version_minor_start, r) else if is_digit c then Go (version_major_, r) else Reject
  | version_minor_start => if is_digit c then Go (version_minor_, r) else Reject
  | version_minor_ =>
      if c =? 32 then Go (status_start, r) else if is_digit c then Go (version_minor_, r) else Reject
  | status_start => if is_digit c then Go (status_, set_status (c - 48) r) else Reject
  | status_ =>
      if c =? 32 then Go (reason, r)
      else if is_digit c then
        match int_push (status r) c with Some v => Go (status_, set_status v r) | None => Undefined end
      else Reject
  | _ => Go s
  end.

Inductive header_state := start | lws | name_ | space_before_value | value_.

#[export] Instance header_state_dec : EqDecision header_state.
Proof. solve_decision. Defined.

Definition is_blank (c : Z) : bool := (c =? 32) || (c =? 9).

(** [current], the header being read, is always the last of the vector. *)
Definition on_last (f : header -> header) (hs : list header) : list header :=
  match rev hs with
  | h :: l => rev (f h :: l)
  | [] => []
  end.

Definition push_name (c : Z) : list header -> list header := on_last (fun h => Header (name h ++ [c]) (value h)).
Definition push_value (c : Z) : list header -> list header := on_last (fun h => Header (name h) (value h ++ [c])).

(** One turn of the loop of [parser_header]. *)
Definition header_step (s : header_state * list header) (c : Z) : step (header_state * list header) :=
  let '(q, hs) := s in
  match q with
  | start =>
      if negb (bool_decide (hs = [])) && is_blank c then Go (lws, hs)
      else if is_token c then Go (name_, push_name c (hs ++ [Header [] []])) else Reject
  | lws =>
      if is_blank c then Go (lws, hs) else if is_ctl c then Reject else Go (value_, push_value c hs)
  | name_ =>
      if c =? 58 then Go (space_before_value, hs)
      else if is_token c then Go (name_, push_name c hs) else Reject
  | space_before_value => if c =? 32 then Go (value_, hs) else Reject
  | value_ => if is_ctl c then Reject else Go (value_, push_value c hs)
  end.

Section machine.
Context {Q S : Type} (f : Q * S -> Z -> step (Q * S)).

Fixpoint run_line (s : Q * S) (line : bytes) : step (Q * S) :=
  match line with
  | [] => Go s
  | c :: line => match f s c with Go s => run_line s line | r => r end
  end.

(** The line is accepted when it ends in state [qf]. *)
Definition parse_line `{EqDecision Q} (q qf : Q) (s : S) (line : bytes) (e : fault) : fault + S :=
  match run_line (q, s) line with
  | Go (q', s) => if decide (q' = qf) then inr s else inl e
  | Reject => inl e
  | Undefined => inl undefined_behaviour
  end.
End machine.

Definition parser_request_line (r : request) (line : bytes) : fault + request :=
  parse_line request_step method_start version_minor_ r line request_line_fail.

Definition parser_reply_line (r : reply) (line : bytes) : fault + reply :=
  parse_line reply_step version_h reason r line reply_line_fail.

Definition parser_header (hs : list header) (line : bytes) : fault + list header :=
  parse_line header_step start value_ hs line header_fail.

(** * Messages *)

Definition lift {A} (r : fault + A) : web A :=
  match r with inl e => throw e | inr a => mret a end.

Definition parser_line : web bytes :=
  line ← read_until crlf;
  match line with
  | [] => throw recv_eof
  | _ => mret (ztake (zlen line - zlen crlf) line)
  end.

(** [Content-Length] of the header that was just read or continued. *)
Definition content_length (hs : list header) (body_size : Z) : Z :=
  match list.last hs with
  | Some h => if decide (name h = str "Content-Length") then from_chars (value h) body_size else body_size
  | None => body_size
  end.

(** Each turn of the header loop reads a line, so that the length of the input
    bounds the turns. *)
Fixpoint header_loop (fuel : nat) (hs : list header) (body_size : Z) : web (list header * Z) :=
  match fuel with
  | O => throw no_fuel
  | S fuel =>
      line ← parser_line;
      match line with
      | [] => mret (hs, body_size)
      | _ =>
          hs ← lift (parser_header hs line);
          header_loop fuel hs (content_length hs body_size)
      end
  end.

(** [std::string::max_size]. *)
Definition max_size : Z := 2 ^ 63 - 1.

Definition parser_header_body (hs : list header) (body : bytes) : web (list header * bytes) := fun c =>
  (r ← header_loop (S (length (input c))) hs 0;
   let '(hs, body_size) := r in
   if 0 <? body_size then
     if max_size <? body_size then throw length_error
     else
       body ← read_size body_size;
       match body with
       | [] => throw recv_eof
       | _ => mret (hs, body)
       end
   else mret (hs, body)) c.

Definition parser_request (r : request) : web request :=
  line ← parser_line;
  r ← lift (parser_request_line r line);
  hb ← parser_header_body (req_headers r) (req_content r);
  mret (Request (method r) (uri r) (version_major r) (version_minor r) hb.1 hb.2).

Definition parser_reply (r : reply) : web reply :=
  line ← parser_line;
  r ← lift (parser_reply_line r line);
  hb ← parser_header_body (headers r) (content r);
  mret (Reply (status r) hb.1 hb.2).

(** * Grammars of the line parsers *)

Section accept.
Context {Q S : Type} (f : Q * S -> Z -> step (Q * S)) (qf : Q).

Definition accept (q : Q) (s : S) (line : bytes) (s' : S) : Prop := run_line f (q, s) line = Go (qf, s').

Fixpoint push_all (upd : S -> Z -> option S) (s : S) (l : bytes) : option S :=
  match l with
  | [] => Some s
  | c :: l => s ← upd s c; push_all upd s l
  end.

(** A state that expects one character. *)
Lemma accept_char q q' c0 s l s' :
  q <> qf -> (forall c, f (q, s) c = if c =? c0 then Go (q', s) else Reject) ->
  accept q s l s' <-> exists l', l = c0 :: l' /\ accept q' s l' s'.
Proof.
  intros Hq Hf. unfold accept. destruct l as [|c l]; cbn [run_line].
  - split; [congruence|]. by intros (? & ? & _).
  - rewrite Hf. destruct (Z.eqb_spec c c0) as [->|Hne].
    + split; [by eauto|]. by intros (l' & [= <-] & ?).
    + split; [done|]. intros (l' & [= ->] & _). done.
Qed.

(** A state that takes one character of a class. *)
Lemma accept_first q q' (ok : Z -> bool) (upd : Z -> S) s l s' :
  q <> qf -> (forall c, f (q, s) c = if ok c then Go (q', upd c) else Reject) ->
  accept q s l s' <-> exists c l', l = c :: l' /\ ok c = true /\ accept q' (upd c) l' s'.
Proof.
  intros Hq Hf. unfold accept. destruct l as [|c l]; cbn [run_line].
  - split; [congruence|]. by intros (? & ? & ? & _).
  - rewrite Hf. destruct (ok c) eqn:E.
    + split; [by eauto|]. by intros (? & ? & [= <- <-] & _ & ?).
    + split; [done|]. intros (? & ? & [= <- <-] & ? & _). congruence.
Qed.

(** A state that collects characters of a class up to a separator. *)
Lemma accept_span q q' sep (ok : Z -> bool) (upd : S -> Z -> option S) l : forall s s',
  q <> qf ->
  (forall s c, f (q, s) c =
    if c =? sep then Go (q', s)
    else if ok c then match upd s c with Some s => Go (q, s) | None => Undefined end else Reject) ->
  accept q s l s' <->
  exists m l' s1, l = m ++ sep :: l' /\ Forall (fun c => ok c = true /\ c <> sep) m /\
    push_all upd s m = Some s1 /\ accept q' s1 l' s'.
Proof.
  unfold accept. induction l as [|c l IH]; intros s s' Hq Hf; cbn [run_line].
  - split; [congruence|]. intros ([|] & ? & ? & ? & _); done.
  - rewrite Hf. destruct (Z.eqb_spec c sep) as [->|Hne].
    + split; [intros Ha; by exists [], l, s|].
      intros (m & l' & s1 & E & Hm & Hp & Ha). destruct m as [|c m]; [injection E as ->; by injection Hp as ->|].
      injection E as -> _. apply list.Forall_cons in Hm as [[_ ?] _]. done.
    + destruct (ok c) eqn:Eok; [destruct (upd s c) as [s2|] eqn:Eu|].
      * rewrite IH by done. split.
        -- intros (m & l' & s1 & -> & Hm & Hp & Ha). exists (c :: m), l', s1. split; [done|].
           split; [by constructor|]. cbn [push_all]. by rewrite Eu.
        -- intros (m & l' & s1 & E & Hm & Hp & Ha). destruct m as [|c' m]; [by injection E|].
           injection E as <- ->. apply list.Forall_cons in Hm as [_ Hm]. cbn [push_all] in Hp. rewrite Eu in Hp.
           by exists m, l', s1.
      * split; [done|]. intros (m & l' & s1 & E & Hm & Hp & Ha). destruct m as [|c' m]; [by injection E|].
        injection E as <- ->. cbn [push_all] in Hp. by rewrite Eu in Hp.
      * split; [done|]. intros (m & l' & s1 & E & Hm & Hp & Ha). destruct m as [|c' m]; [by injection E|].
        injection E as <- ->. apply list.Forall_cons in Hm as [[? _] _]. congruence.
Qed.

(** The final state. *)
Lemma accept_tail (ok : Z -> bool) (upd : S -> Z -> option S) l : forall s s',
  (forall s c, f (qf, s) c =
    if ok c then match upd s c with Some s => Go (qf, s) | None => Undefined end else Reject) ->
  accept qf s l s' <-> Forall (fun c => ok c = true) l /\ push_all upd s l = Some s'.
Proof.
  unfold accept. induction l as [|c l IH]; intros s s' Hf; cbn [run_line push_all].
  - split; [by intros [= <-]|]. by intros [_ [= <-]].
  - rewrite Hf, list.Forall_cons. destruct (ok c); [destruct (upd s c) as [s2|]; cbn [mbind option_bind]|].
    + rewrite IH by done. by intuition.
    + split; [done|]. by intros [_ ?].
    + split; [done|]. by intros [[? _] _].
Qed.

Lemma parse_line_accept `{EqDecision Q} q s line e s' :
  parse_line f q qf s line e = inr s' <-> accept q s line s'.
Proof.
  unfold parse_line, accept. destruct (run_line f (q, s) line) as [[q1 s1]| |]; [|done..].
  destruct (decide (q1 = qf)) as [->|]; split; try congruence; intros [= ->]; done.
Qed.
End accept.

(** ** What the collecting states build *)

(** The [int] of a run of digits, where it does not overflow on the way. *)
Fixpoint int_digits (v : Z) (ds : bytes) : option Z :=
  match ds with
  | [] => Some v
  | c :: ds => v ← int_push v c; int_digits v ds
  end.

Definition int_value (ds : bytes) : option Z :=
  match ds with
  | [] => None
  | c :: ds => int_digits (c - 48) ds
  end.

(** The number a decimal numeral denotes: each digit times the power of ten of
    its place. *)
Fixpoint decimal (ds : bytes) : Z :=
  match ds with
  | [] => 0
  | c :: ds => (c - 48) * 10 ^ zlen ds + decimal ds
  end.

(** The [int] has room for the numeral: the parser adds the character before it
    subtracts ['0'] (48), so the number has to be 48 below the bound. *)
Definition fits_int (ds : bytes) : Prop := ds <> [] /\ decimal ds + 48 < 2 ^ 31.

Lemma decimal_bounds ds : Forall (fun c => is_digit c = true) ds -> 0 <= decimal ds.
Proof.
  induction 1 as [|c ds Hc%is_digit_range _ IH]; cbn [decimal]; [done|].
  pose proof (Z.pow_nonneg 10 (zlen ds)). nia.
Qed.

Lemma int_digits_decimal ds : forall v w,
  0 <= v -> v + 48 < 2 ^ 31 -> Forall (fun c => is_digit c = true) ds ->
  int_digits v ds = Some w <-> w = v * 10 ^ zlen ds + decimal ds /\ w + 48 < 2 ^ 31.
Proof.
  induction ds as [|c ds IH]; intros v w Hv Hfit Hd; cbn [int_digits decimal].
  - change (zlen []) with 0. split; [intros [= ->]; lia|intros [-> _]; f_equal; lia].
  - apply list.Forall_cons in Hd as [Hc%is_digit_range Hd]. pose proof (decimal_bounds ds Hd).
    rewrite zlen_cons, Z.add_1_l, Z.pow_succ_r by apply zlen_nonneg.
    pose proof (Z.pow_pos_nonneg 10 (zlen ds) ltac:(lia) (zlen_nonneg ds)).
    unfold int_push. destruct (Z.ltb_spec (v * 10 + c) (2 ^ 31)) as [Hl|Hl]; cbn [mbind option_bind].
    + rewrite IH by (done || lia). split; intros [-> ?]; (split; [ring|lia]).
    + split; [done|]. intros [-> ?]. exfalso. nia.
Qed.

Lemma int_value_decimal ds v :
  Forall (fun c => is_digit c = true) ds -> int_value ds = Some v <-> fits_int ds /\ v = decimal ds.
Proof.
  unfold fits_int. destruct ds as [|c ds]; [by intuition|].
  intros [Hc%is_digit_range Hd]%list.Forall_cons. cbn [int_value decimal]. rewrite int_digits_decimal by (done || lia).
  split; [by intros [-> ?]|]. by intros [[_ ?] ->].
Qed.

Lemma push_all_list {S} (upd : S -> Z -> option S) (put : bytes -> S -> S) :
  (forall s, put [] s = s) -> (forall s c, upd s c = Some (put [c] s)) ->
  (forall s c l, put l (put [c] s) = put (c :: l) s) ->
  forall l s, push_all upd s l = Some (put l s).
Proof.
  intros H0 H1 H2 l. induction l as [|c l IH]; intros s; cbn [push_all]; [by rewrite H0|].
  rewrite H1. cbn [mbind option_bind]. by rewrite IH, H2.
Qed.

Lemma push_all_int {S} (upd : S -> Z -> option S) (get : S -> Z) (put : Z -> S -> S) :
  (forall s, put (get s) s = s) -> (forall v s, get (put v s) = v) -> (forall v w s, put v (put w s) = put v s) ->
  (forall s c, upd s c = (fun v => put v s) <$> int_push (get s) c) ->
  forall l s, push_all upd s l = (fun v => put v s) <$> int_digits (get s) l.
Proof.
  intros Hpg Hgp Hpp Hu l. induction l as [|c l IH]; intros s; cbn [push_all int_digits]; [by rewrite <- (Hpg s) at 1|].
  rewrite Hu. destruct (int_push (get s) c) as [v|]; [|done]. cbn [fmap option_fmap option_map mbind option_bind].
  rewrite IH, Hgp. destruct (int_digits v l); [|done]. cbn. by rewrite Hpp.
Qed.

(** The text after the last state before [H]. *)
Definition http_version (major minor : bytes) : bytes := str "HTTP/" ++ major ++ [46] ++ minor.

Definition is_uri_char (c : Z) : bool := negb (c =? 32) && negb (is_ctl c).

Lemma digit_not c sep : is_digit c = true -> is_digit sep = false -> c <> sep.
Proof. congruence. Qed.

Lemma Forall_digit_sep sep (m : bytes) :
  is_digit sep = false ->
  Forall (fun c => is_digit c = true /\ c <> sep) m <-> Forall (fun c => is_digit c = true) m.
Proof.
  intros Hs. split; intros H; (eapply Forall_impl; [|exact H]); intros c; [by intros []|].
  intros Hc. split; [done|by eapply digit_not].
Qed.

(** ** Request lines *)

Definition request_line_text (m u a b : bytes) : bytes := m ++ [32] ++ u ++ [32] ++ http_version a b.

Ltac step_state lem := setoid_rewrite lem; [|done|intros; reflexivity].

Lemma accept_minor r l r' :
  accept request_step version_minor_ version_minor_start r l r' <->
  exists v, Forall (fun c => is_digit c = true) l /\ int_value l = Some v /\ r' = set_minor v r.
Proof.
  rewrite (accept_first request_step version_minor_ version_minor_start version_minor_ is_digit
             (fun c => set_minor (c - 48) r)) by done.
  set (upd (s : request) (c : Z) := (fun v => set_minor v s) <$> int_push (version_minor s) c).
  assert (forall l s s', accept request_step version_minor_ version_minor_ s l s' <->
    Forall (fun c => is_digit c = true) l /\ push_all upd s l = Some s') as Ht.
  { intros. apply accept_tail. intros s0 c. cbn [request_step]. unfold upd. by destruct (int_push (version_minor s0) c). }
  assert (forall l s, push_all upd s l = (fun v => set_minor v s) <$> int_digits (version_minor s) l) as Hp.
  { apply push_all_int; try done. by intros []. }
  split.
  - intros (c & l' & -> & Hc & [Hl Hpu]%Ht). rewrite Hp in Hpu. apply fmap_Some in Hpu as (v & Hv & ->).
    exists v. split; [by constructor|]. split; [exact Hv|]. by destruct r.
  - intros (v & Hl & Hv & ->). destruct l as [|c l]; [done|]. apply list.Forall_cons in Hl as [Hc Hl].
    exists c, l. split; [done|]. split; [done|]. apply Ht. split; [done|]. rewrite Hp. cbn in *. by rewrite Hv.
Qed.

(** The five characters before the version number. *)
Lemma accept_http {S} (f : line_state * S -> Z -> step (line_state * S)) qf s l s' :
  (forall c, f (version_h, s) c = if c =? 72 then Go (version_t_1, s) else Reject) ->
  (forall c, f (version_t_1, s) c = if c =? 84 then Go (version_t_2, s) else Reject) ->
  (forall c, f (version_t_2, s) c = if c =? 84 then Go (version_p, s) else Reject) ->
  (forall c, f (version_p, s) c = if c =? 80 then Go (version_slash, s) else Reject) ->
  (forall c, f (version_slash, s) c = if c =? 47 then Go (version_major_start, s) else Reject) ->
  qf ∉ [version_h; version_t_1; version_t_2; version_p; version_slash] ->
  accept f qf version_h s l s' <->
  exists l', l = str "HTTP/" ++ l' /\ accept f qf version_major_start s l' s'.
Proof.
  intros H1 H2 H3 H4 H5 Hq. rewrite !not_elem_of_cons in Hq. destruct Hq as (N1 & N2 & N3 & N4 & N5 & _).
  split.
  - intros (l1 & -> & (l2 & -> & (l3 & -> & (l4 & -> & (l5 & -> & H)
      %(accept_char _ _ _ _ _ _ _ _ (not_eq_sym N5) H5))%(accept_char _ _ _ _ _ _ _ _ (not_eq_sym N4) H4))
      %(accept_char _ _ _ _ _ _ _ _ (not_eq_sym N3) H3))%(accept_char _ _ _ _ _ _ _ _ (not_eq_sym N2) H2))
      %(accept_char _ _ _ _ _ _ _ _ (not_eq_sym N1) H1).
    by exists l5.
  - intros (l' & -> & H).
    apply (accept_char _ _ _ _ _ _ _ _ (not_eq_sym N1) H1). eexists. split; [reflexivity|].
    apply (accept_char _ _ _ _ _ _ _ _ (not_eq_sym N2) H2). eexists. split; [reflexivity|].
    apply (accept_char _ _ _ _ _ _ _ _ (not_eq_sym N3) H3). eexists. split; [reflexivity|].
    apply (accept_char _ _ _ _ _ _ _ _ (not_eq_sym N4) H4). eexists. split; [reflexivity|].
    apply (accept_char _ _ _ _ _ _ _ _ (not_eq_sym N5) H5). eexists. split; [reflexivity|exact H].
Qed.

Lemma accept_version r l r' :
  accept request_step version_minor_ version_h r l r' <->
  exists a b va vb, l = http_version a b /\
    Forall (fun c => is_digit c = true) a /\ Forall (fun c => is_digit c = true) b /\
    int_value a = Some va /\ int_value b = Some vb /\ r' = set_minor vb (set_major va r).
Proof.
  rewrite accept_http; [|done..|]; [|by rewrite !not_elem_of_cons; repeat split; try done; apply not_elem_of_nil].
  set (upd (s : request) (c : Z) := (fun v => set_major v s) <$> int_push (version_major s) c).
  assert (forall l s s', accept request_step version_minor_ version_major_ s l s' <->
    exists m l' s1, l = m ++ 46 :: l' /\ Forall (fun c => is_digit c = true /\ c <> 46) m /\
      push_all upd s m = Some s1 /\ accept request_step version_minor_ version_minor_start s1 l' s') as Hs.
  { intros. apply accept_span; [done|]. intros s0 c. cbn [request_step]. unfold upd.
    by destruct (int_push (version_major s0) c). }
  assert (forall l s, push_all upd s l = (fun v => set_major v s) <$> int_digits (version_major s) l) as Hp.
  { apply push_all_int; try done. by intros []. }
  assert (forall l s s', accept request_step version_minor_ version_major_start s l s' <->
    exists c l', l = c :: l' /\ is_digit c = true /\
      accept request_step version_minor_ version_major_ (set_major (c - 48) s) l' s') as Hf.
  { intros. by apply accept_first. }
  split.
  - intros (l1 & -> & (c & l2 & -> & Hc & (m & l3 & s1 & -> & Hm & Hpu & (vb & Hb & Hvb & ->)%accept_minor)%Hs)%Hf).
    rewrite Hp in Hpu. apply fmap_Some in Hpu as (va & Hva & ->). exists (c :: m), l3, va, vb.
    split; [done|]. apply Forall_digit_sep in Hm; [|done]. split; [by constructor|]. repeat split; [done..|by destruct r].
  - intros (a & b & va & vb & -> & Ha & Hb & Hva & Hvb & ->). destruct a as [|c m]; [done|].
    apply list.Forall_cons in Ha as [Hc Hm]. exists ((c :: m) ++ [46] ++ b). split; [done|].
    apply Hf. exists c, (m ++ [46] ++ b). split; [done|]. split; [done|]. apply Hs.
    exists m, b, (set_major va (set_major (c - 48) r)). split; [done|].
    split; [by apply Forall_digit_sep|]. split; [rewrite Hp; cbn in *; by rewrite Hva|].
    apply accept_minor. exists vb. split; [done|]. split; [done|]. by destruct r.
Qed.

Lemma accept_uri r l r' :
  accept request_step version_minor_ uri_ r l r' <->
  exists u l', l = u ++ [32] ++ l' /\ Forall (fun c => is_uri_char c = true) u /\
    accept request_step version_minor_ version_h
      (Request (method r) (uri r ++ u) (version_major r) (version_minor r) (req_headers r) (req_content r)) l' r'.
Proof.
  set (put (u : bytes) (r : request) :=
    Request (method r) (uri r ++ u) (version_major r) (version_minor r) (req_headers r) (req_content r)).
  rewrite (accept_span request_step version_minor_ uri_ version_h 32 (fun c => negb (is_ctl c))
             (fun s c => Some (push_uri c s))); [|done|intros s c; cbn [request_step]; by destruct (is_ctl c)].
  assert (forall l s, push_all (fun s c => Some (push_uri c s)) s l = Some (put l s)) as Hp.
  { apply push_all_list; unfold put; [by intros []; cbn; rewrite app_nil_r|done|].
    intros [] c m; cbn. by rewrite <- app_assoc. }
  assert (forall u, Forall (fun c => negb (is_ctl c) = true /\ c <> 32) u <-> Forall (fun c => is_uri_char c = true) u) as Hu.
  { intros u. apply Forall_proper; [|done]. intros c. unfold is_uri_char. destruct (Z.eqb_spec c 32), (is_ctl c); cbn; intuition congruence. }
  setoid_rewrite Hu. setoid_rewrite Hp. split.
  - intros (u & l' & s1 & -> & Hok & [= <-] & Ha). by exists u, l'.
  - intros (u & l' & -> & Hok & Ha). exists u, l'. by eexists.
Qed.

Definition push_methods (m : bytes) (r : request) : request :=
  Request (method r ++ m) (uri r) (version_major r) (version_minor r) (req_headers r) (req_content r).

Lemma push_methods_all l s : push_all (fun s c => Some (push_method c s)) s l = Some (push_methods l s).
Proof.
  apply push_all_list; unfold push_methods; [by intros []; cbn; rewrite app_nil_r|done|].
  intros [] c m; cbn. by rewrite <- app_assoc.
Qed.

Lemma accept_method l s s' :
  accept request_step version_minor_ method_ s l s' <->
  exists m l' s1, l = m ++ 32 :: l' /\ Forall (fun c => is_token c = true /\ c <> 32) m /\
    push_all (fun s c => Some (push_method c s)) s m = Some s1 /\ accept request_step version_minor_ uri_ s1 l' s'.
Proof. by apply accept_span. Qed.

Lemma token_not sep m :
  is_token sep = false -> Forall (fun c => is_token c = true) m -> Forall (fun c => is_token c = true /\ c <> sep) m.
Proof. intros Hs Hm. eapply Forall_impl; [|exact Hm]. intros c Hc. split; [done|]. intros ->. congruence. Qed.

Lemma request_line_ok r m u a b va vb :
  m <> [] -> Forall (fun c => is_token c = true) m -> Forall (fun c => is_uri_char c = true) u ->
  Forall (fun c => is_digit c = true) a -> Forall (fun c => is_digit c = true) b ->
  int_value a = Some va -> int_value b = Some vb ->
  parser_request_line r (request_line_text m u a b) =
    inr (Request (method r ++ m) (uri r ++ u) va vb (req_headers r) (req_content r)).
Proof.
  intros Hne Htok Hu Ha Hb Hva Hvb. apply parse_line_accept.
  apply (accept_first request_step version_minor_ method_start method_ is_token (fun c => push_method c r)); [done..|].
  destruct m as [|c m]; [done|]. apply list.Forall_cons in Htok as [Hc Htok].
  eexists c, _. split; [reflexivity|]. split; [done|]. apply accept_method. exists m. do 2 eexists. split; [reflexivity|].
  split; [by apply token_not|]. split; [apply push_methods_all|]. apply accept_uri. exists u. eexists. split; [reflexivity|].
  split; [done|]. apply accept_version. exists a, b, va, vb. repeat split; try done. cbn. by rewrite <- app_assoc.
Qed.

(** ** Status lines *)

Definition reply_line_text (a b st rs : bytes) : bytes := http_version a b ++ [32] ++ st ++ [32] ++ rs.

Lemma accept_reason r l r' : accept reply_step reason reason r l r' <-> r' = r.
Proof.
  unfold accept. revert r. induction l as [|c l IH]; intros r; cbn [run_line reply_step].
  - split; [by intros [= ->]|by intros ->].
  - apply IH.
Qed.

Lemma accept_status l r r' :
  accept reply_step reason status_start r l r' <->
  exists st rs v, l = st ++ [32] ++ rs /\ Forall (fun c => is_digit c = true) st /\
    int_value st = Some v /\ r' = set_status v r.
Proof.
  rewrite (accept_first reply_step reason status_start status_ is_digit (fun c => set_status (c - 48) r)) by done.
  set (upd (s : reply) (c : Z) := (fun v => set_status v s) <$> int_push (status s) c).
  assert (forall l s s', accept reply_step reason status_ s l s' <->
    exists m l' s1, l = m ++ 32 :: l' /\ Forall (fun c => is_digit c = true /\ c <> 32) m /\
      push_all upd s m = Some s1 /\ accept reply_step reason reason s1 l' s') as Hs.
  { intros. apply accept_span; [done|]. intros s0 c. cbn [reply_step]. unfold upd. by destruct (int_push (status s0) c). }
  assert (forall l s, push_all upd s l = (fun v => set_status v s) <$> int_digits (status s) l) as Hp.
  { apply push_all_int; try done. by intros []. }
  split.
  - intros (c & l1 & -> & Hc & (m & rs & s1 & -> & Hm & Hpu & ->%accept_reason)%Hs).
    rewrite Hp in Hpu. apply fmap_Some in Hpu as (v & Hv & ->). exists (c :: m), rs, v.
    apply Forall_digit_sep in Hm; [|done]. split; [done|]. split; [by constructor|]. split; [done|by destruct r].
  - intros (st & rs & v & -> & Hst & Hv & ->). destruct st as [|c m]; [done|].
    apply list.Forall_cons in Hst as [Hc Hm]. eexists c, _. split; [reflexivity|]. split; [done|]. apply Hs.
    exists m, rs. eexists. split; [reflexivity|]. split; [by apply Forall_digit_sep|].
    split; [rewrite Hp; cbn in *; by rewrite Hv|]. apply accept_reason. by destruct r.
Qed.

Lemma push_all_same {S} (s : S) l : push_all (fun s _ => Some s) s l = Some s.
Proof. induction l as [|c l IH]; [done|exact IH]. Qed.

(** Collecting digits without storing them. *)
Lemma accept_skip q q' sep r l r' :
  q <> reason -> is_digit sep = false ->
  (forall s c, reply_step (q, s) c = if c =? sep then Go (q', s) else if is_digit c then Go (q, s) else Reject) ->
  accept reply_step reason q r l r' <->
  exists m l', l = m ++ sep :: l' /\ Forall (fun c => is_digit c = true) m /\ accept reply_step reason q' r l' r'.
Proof.
  intros Hq Hsep Hf. rewrite (accept_span reply_step reason q q' sep is_digit (fun s _ => Some s)) by done.
  split.
  - intros (m & l' & s1 & -> & Hm & Hp & Ha). rewrite push_all_same in Hp. injection Hp as <-.
    exists m, l'. split; [done|]. by apply Forall_digit_sep in Hm.
  - intros (m & l' & -> & Hm & Ha). exists m, l', r. split; [done|]. split; [by apply Forall_digit_sep|].
    by rewrite push_all_same.
Qed.

(** The lines [parser_reply_line] accepts: [HTTP/major.minor SP status SP text]. *)
Lemma reply_line_grammar (r r' : reply) (line : bytes) :
  parser_reply_line r line = inr r' <->
  exists a b st rs,
    line = reply_line_text a b st rs /\ a <> [] /\ b <> [] /\
    Forall (fun c => is_digit c = true) a /\ Forall (fun c => is_digit c = true) b /\
    Forall (fun c => is_digit c = true) st /\ fits_int st /\ r' = set_status (decimal st) r.
Proof.
  unfold parser_reply_line. rewrite parse_line_accept.
  rewrite accept_http; [|done..|]; [|by rewrite !not_elem_of_cons; repeat split; try done; apply not_elem_of_nil].
  assert (forall l, accept reply_step reason version_major_start r l r' <->
    exists c l', l = c :: l' /\ is_digit c = true /\ accept reply_step reason version_major_ r l' r') as Hma.
  { intros. by apply (accept_first reply_step reason version_major_start version_major_ is_digit (fun _ => r)). }
  assert (forall l, accept reply_step reason version_minor_start r l r' <->
    exists c l', l = c :: l' /\ is_digit c = true /\ accept reply_step reason version_minor_ r l' r') as Hmi.
  { intros. by apply (accept_first reply_step reason version_minor_start version_minor_ is_digit (fun _ => r)). }
  pose proof (fun l => accept_skip version_major_ version_minor_start 46 r l r' ltac:(done) eq_refl
    (fun _ _ => eq_refl)) as Hsa.
  pose proof (fun l => accept_skip version_minor_ status_start 32 r l r' ltac:(done) eq_refl
    (fun _ _ => eq_refl)) as Hsb.
  split.
  - intros (l1 & -> & (c & l2 & -> & Hc & (a & l3 & -> & Ha & (d & l4 & -> & Hd & (b & l5 & -> & Hb &
      (st & rs & v & -> & Hst & Hv & ->)%accept_status)%Hsb)%Hmi)%Hsa)%Hma).
    apply int_value_decimal in Hv as [Hv ->]; [|done].
    exists (c :: a), (d :: b), st, rs. split; [unfold reply_line_text, http_version; by rewrite <- !app_assoc|].
    do 2 (split; [done|]). do 2 (split; [by constructor|]). done.
  - intros (a & b & st & rs & -> & Hna & Hnb & Ha & Hb & Hst & Hv & ->).
    destruct a as [|c a]; [done|]. destruct b as [|d b]; [done|].
    apply list.Forall_cons in Ha as [Hc Ha]. apply list.Forall_cons in Hb as [Hd Hb].
    unfold reply_line_text, http_version. rewrite <- !app_assoc. eexists. split; [reflexivity|].
    apply Hma. eexists c, _. split; [reflexivity|]. split; [done|]. apply Hsa. exists a. eexists.
    split; [reflexivity|]. split; [done|]. apply Hmi. eexists d, _. split; [reflexivity|]. split; [done|].
    apply Hsb. exists b. eexists. split; [reflexivity|]. split; [done|]. apply accept_status.
    exists st, rs, (decimal st). by rewrite int_value_decimal.
Qed.

(** ** Header lines *)

Lemma on_last_snoc f hs h : on_last f (hs ++ [h]) = hs ++ [f h].
Proof. unfold on_last. rewrite rev_app_distr. cbn. by rewrite rev_involutive. Qed.

Definition push_values (v : bytes) : list header -> list header := on_last (fun h => Header (name h) (value h ++ v)).

Definition push_names (n : bytes) : list header -> list header := on_last (fun h => Header (name h ++ n) (value h)).

Lemma on_last_nil f : on_last f [] = [].
Proof. done. Qed.

Lemma on_last_laws (upd : bytes -> header -> header) :
  (forall h, upd [] h = h) -> (forall c l h, upd l (upd [c] h) = upd (c :: l) h) ->
  forall l hs, push_all (fun hs c => Some (on_last (upd [c]) hs)) hs l = Some (on_last (upd l) hs).
Proof.
  intros H0 H2 l hs. apply (push_all_list _ (fun l => on_last (upd l))).
  - intros s. destruct s as [|h hs' _] using rev_ind; [done|]. by rewrite on_last_snoc, H0.
  - done.
  - intros s c m. destruct s as [|h hs' _] using rev_ind; [done|]. by rewrite !on_last_snoc, H2.
Qed.

Lemma push_values_all l hs : push_all (fun hs c => Some (push_value c hs)) hs l = Some (push_values l hs).
Proof.
  apply (on_last_laws (fun v h => Header (name h) (value h ++ v))); [intros []; cbn; by rewrite app_nil_r|].
  intros c m h. cbn. by rewrite <- app_assoc.
Qed.

Lemma push_names_all l hs : push_all (fun hs c => Some (push_name c hs)) hs l = Some (push_names l hs).
Proof.
  apply (on_last_laws (fun v h => Header (name h ++ v) (value h))); [intros []; cbn; by rewrite app_nil_r|].
  intros c m h. cbn. by rewrite <- app_assoc.
Qed.

Definition is_value_char (c : Z) : bool := negb (is_ctl c).

Lemma accept_value hs l hs' :
  accept header_step value_ value_ hs l hs' <->
  Forall (fun c => is_value_char c = true) l /\ hs' = push_values l hs.
Proof.
  rewrite (accept_tail header_step value_ is_value_char (fun hs c => Some (push_value c hs))).
  - rewrite push_values_all. split; intros [? ?]; split; congruence.
  - intros s c. cbn [header_step]. unfold is_value_char. by destruct (is_ctl c).
Qed.

Lemma accept_name l : forall hs hs',
  accept header_step value_ name_ hs l hs' <->
  exists n v, l = n ++ name_value_separator ++ v /\ Forall (fun c => is_token c = true) n /\
    Forall (fun c => is_value_char c = true) v /\ hs' = push_values v (push_names n hs).
Proof.
  intros hs hs'.
  rewrite (accept_span header_step value_ name_ space_before_value 58 is_token (fun hs c => Some (push_name c hs))) by done.
  assert (forall l s, accept header_step value_ space_before_value s l hs' <->
    exists l', l = 32 :: l' /\ accept header_step value_ value_ s l' hs') as Hsp by (intros; by apply accept_char).
  split.
  - intros (n & l1 & s1 & -> & Hn & Hp & (v & -> & [Hv ->]%accept_value)%Hsp). rewrite push_names_all in Hp.
    injection Hp as <-. exists n, v. split; [done|]. split; [|done]. eapply Forall_impl; [|exact Hn]. by intros ? [].
  - intros (n & v & -> & Hn & Hv & ->). exists n, (32 :: v), (push_names n hs). split; [done|].
    split; [by apply token_not|]. split; [apply push_names_all|]. apply Hsp. exists v. split; [done|]. by apply accept_value.
Qed.

(** A new header. *)
Lemma header_line_ok hs h :
  name h <> [] -> Forall (fun c => is_token c = true) (name h) -> Forall (fun c => is_value_char c = true) (value h) ->
  parser_header hs (name h ++ name_value_separator ++ value h) = inr (hs ++ [h]).
Proof.
  intros Hne Hn Hv. apply parse_line_accept. destruct h as [n v]. cbn [name value] in *. destruct n as [|c n]; [done|].
  apply list.Forall_cons in Hn as [Hc Hn]. unfold accept. cbn [app run_line header_step].
  assert (is_blank c = false) as ->.
  { unfold is_blank. destruct (Z.eqb_spec c 32) as [->|]; [done|]. by destruct (Z.eqb_spec c 9) as [->|]. }
  rewrite andb_false_r, Hc. apply accept_name. exists n, v. repeat split; try done.
  unfold push_values, push_name, push_names. by rewrite !on_last_snoc.
Qed.

Lemma accept_lws l : forall hs hs',
  accept header_step value_ lws hs l hs' <->
  exists ws c v, l = ws ++ c :: v /\ Forall (fun c => is_blank c = true) ws /\ is_blank c = false /\
    Forall (fun c => is_value_char c = true) (c :: v) /\ hs' = push_values (c :: v) hs.
Proof.
  unfold accept. induction l as [|c l IH]; intros hs hs'; cbn [run_line header_step].
  { split; [done|]. by intros ([|] & ? & ? & ? & _). }
  destruct (is_blank c) eqn:Eb; [|destruct (is_ctl c) eqn:Ec].
  - rewrite IH. split.
    + intros (ws & c' & v & -> & Hws & H). exists (c :: ws), c', v. split; [done|]. split; [by constructor|done].
    + intros ([|b ws] & c' & v & E & Hws & Hc' & H); injection E as <- ->; [congruence|].
      apply list.Forall_cons in Hws as [_ Hws]. by exists ws, c', v.
  - split; [done|]. intros ([|b ws] & c' & v & E & Hws & Hc' & Hv & _); injection E as <- ->.
    + apply list.Forall_cons in Hv as [Hv _]. unfold is_value_char in Hv. by rewrite Ec in Hv.
    + apply list.Forall_cons in Hws as [? _]. congruence.
  - change (run_line header_step (value_, push_value c hs) l = Go (value_, hs')) with
      (accept header_step value_ value_ (push_value c hs) l hs'). rewrite accept_value. split.
    + intros [Hl ->]. exists [], c, l. split; [done|]. split; [done|]. split; [done|].
      split; [constructor; [unfold is_value_char; by rewrite Ec|done]|].
      destruct hs as [|h hs0 _] using rev_ind; [done|]. unfold push_values, push_value. rewrite !on_last_snoc. cbn.
      by rewrite <- app_assoc.
    + intros ([|b ws] & c' & v & E & Hws & Hc' & Hv & ->); injection E as <- ->.
      * apply list.Forall_cons in Hv as [_ Hv]. split; [done|].
        destruct hs as [|h hs0 _] using rev_ind; [done|]. unfold push_values, push_value. rewrite !on_last_snoc. cbn.
        by rewrite <- app_assoc.
      * apply list.Forall_cons in Hws as [? _]. congruence.
Qed.

(** * Whole messages *)

Lemma parser_line_ok line rest out :
  Forall (fun c => c <> 13) line -> parser_line (Conn (line ++ crlf ++ rest) out) = (inr line, Conn rest out).
Proof.
  intros Hl. unfold parser_line. erewrite bind_ok by (by apply read_line_ok).
  destruct (line ++ crlf) as [|c l] eqn:E; [by destruct line|]. rewrite <- E, zlen_app.
  replace (zlen line + zlen crlf - zlen crlf) with (zlen line) by lia. by rewrite ztake_app_length.
Qed.

Lemma parser_line_shorter c line c' :
  parser_line c = (inr line, c') -> (length (input c') < length (input c))%nat.
Proof.
  unfold parser_line. intros [(l & c1 & E & H)|(e & c1 & _ & [=])]%bind_inv.
  destruct l as [|b l]; [done|]. injection H as _ <-. apply read_until_shorter in E; [|done]. cbn in E. lia.
Qed.

Definition header_ok (h : header) : Prop :=
  name h <> [] /\ Forall (fun c => is_token c = true) (name h) /\ Forall (fun c => is_value_char c = true) (value h).

(** [Content-Length] after the headers [hs]. *)
Definition body_len (b : Z) (hs : list header) : Z :=
  fold_left (fun b h => if decide (name h = str "Content-Length") then from_chars (value h) b else b) hs b.

Lemma content_length_snoc hs h b :
  content_length (hs ++ [h]) b = if decide (name h = str "Content-Length") then from_chars (value h) b else b.
Proof. unfold content_length. by rewrite last_snoc. Qed.

Lemma token_no_cr l : Forall (fun c => is_token c = true) l -> Forall (fun c => c <> 13) l.
Proof. intros H. eapply Forall_impl; [|exact H]. by intros c Hc ->. Qed.

Lemma value_no_cr l : Forall (fun c => is_value_char c = true) l -> Forall (fun c => c <> 13) l.
Proof. intros H. eapply Forall_impl; [|exact H]. by intros c Hc ->. Qed.

Lemma header_loop_ok hs : forall fuel hs0 b rest out,
  Forall header_ok hs -> (length hs < fuel)%nat ->
  header_loop fuel hs0 b (Conn (concat (header_text <$> hs) ++ crlf ++ rest) out) =
    (inr (hs0 ++ hs, body_len b hs), Conn rest out).
Proof.
  induction hs as [|h hs IH]; intros fuel hs0 b rest out Hok Hf; (destruct fuel as [|fuel]; [cbn in Hf; lia|]);
    cbn [header_loop].
  - erewrite bind_ok by (by apply (parser_line_ok [])). by rewrite app_nil_r.
  - apply list.Forall_cons in Hok as [(Hne & Hn & Hv) Hok].
    change (concat (header_text <$> h :: hs)) with (header_text h ++ concat (header_text <$> hs)).
    unfold header_text at 1. rewrite <- !app_assoc.
    rewrite (app_assoc (name h)), (app_assoc (name h ++ _)).
    erewrite bind_ok.
    2:{ apply parser_line_ok. rewrite !list.Forall_app. split; [split|]; [by apply token_no_cr| |by apply value_no_cr].
        by repeat constructor. }
    destruct ((name h ++ name_value_separator) ++ value h) as [|c l] eqn:E; [by destruct (name h)|].
    rewrite <- E, <- app_assoc. erewrite bind_ok by (by rewrite header_line_ok).
    rewrite IH by (done || (cbn in Hf; lia)). rewrite content_length_snoc, <- app_assoc. done.
Qed.

Lemma concat_length_ge hs : (length hs <= length (concat (header_text <$> hs)))%nat.
Proof.
  induction hs as [|h hs IH]; [done|]. rewrite fmap_cons. cbn [concat length]. rewrite length_app.
  unfold header_text at 1. rewrite !length_app. change (length crlf) with 2%nat. lia.
Qed.

Lemma parser_header_body_ok hs0 old hs body rest out :
  Forall header_ok hs -> body_len 0 hs = zlen body -> zlen body <= max_size ->
  parser_header_body hs0 old (Conn (concat (header_text <$> hs) ++ crlf ++ body ++ rest) out) =
    (inr (hs0 ++ hs, if decide (body = []) then old else body), Conn rest out).
Proof.
  intros Hok Hlen Hmax. unfold parser_header_body. cbn [input]. pose proof (concat_length_ge hs).
  erewrite bind_ok by (apply header_loop_ok; [done|rewrite length_app; lia]). rewrite Hlen.
  destruct body as [|c body]; [by rewrite decide_True|]. rewrite decide_False by done.
  rewrite (proj2 (Z.ltb_lt _ _)) by (rewrite zlen_cons; pose proof (zlen_nonneg body); lia).
  rewrite (proj2 (Z.ltb_ge _ _)) by done. erewrite bind_ok by (apply read_size_ok). done.
Qed.

(** The statuses the program names. *)
Definition known_statuses : list Z :=
  [101; 200; 201; 202; 204; 300; 301; 302; 304; 400; 401; 403; 404; 500; 501; 502; 503].

Lemma status_line_ok st r :
  st ∈ known_statuses ->
  parser_reply_line r (status_line st) = inr (set_status st r) /\ Forall (fun c => c <> 13) (status_line st).
Proof.
  intros Hst. unfold known_statuses in Hst.
  repeat (apply elem_of_cons in Hst as [->|Hst]; [split; [destruct r; reflexivity|by repeat constructor]|]).
  by apply elem_of_nil in Hst.
Qed.

Definition reply_ok (r : reply) : Prop :=
  status r ∈ known_statuses /\ Forall header_ok (headers r) /\
  body_len 0 (headers r) = zlen (content r) /\ zlen (content r) <= max_size.

Lemma parser_reply_ok r rest out :
  reply_ok r -> parser_reply reply_new (Conn (to_buffer r ++ rest) out) = (inr r, Conn rest out).
Proof.
  intros (Hst & Hh & Hlen & Hmax). unfold parser_reply, to_buffer, to_string_view. rewrite <- !app_assoc.
  destruct (status_line_ok (status r) reply_new Hst) as [Hl Hcr].
  erewrite bind_ok by (by apply parser_line_ok). erewrite bind_ok by (by rewrite Hl).
  erewrite bind_ok by (by apply parser_header_body_ok). cbn. destruct r as [st hs body]. cbn.
  destruct (decide (body = [])) as [->|]; done.
Qed.

Lemma stock_reply_ok st : st ∈ known_statuses -> reply_ok (stock st).
Proof.
  intros Hst. split; [done|]. unfold known_statuses in Hst.
  repeat (apply elem_of_cons in Hst as [->|Hst]; [repeat split; try done; repeat constructor; try done|]).
  by apply elem_of_nil in Hst.
Qed.

(** ** The loop ends *)

Lemma lift_no_fuel {A} (r : fault + A) c : r <> inl no_fuel -> (lift r c).1 <> inl no_fuel.
Proof. by destruct r. Qed.

Lemma parse_line_no_fuel {Q S} `{EqDecision Q} (f : Q * S -> Z -> step (Q * S)) q qf s line e :
  e <> no_fuel -> parse_line f q qf s line e <> inl no_fuel.
Proof.
  intros He. unfold parse_line. destruct (run_line f (q, s) line) as [[q1 s1]| |]; [destruct (decide _)| |]; congruence.
Qed.

Lemma parser_line_no_fuel c : (parser_line c).1 <> inl no_fuel.
Proof.
  unfold parser_line, mbind, web_bind, read_until. destruct (find_sub (input c) crlf); [|done].
  by destruct (ztake _ (input c)).
Qed.

Lemma bind_no_fuel {A B} (m : web A) (k : A -> web B) c :
  (m c).1 <> inl no_fuel -> (forall a c', m c = (inr a, c') -> (k a c').1 <> inl no_fuel) ->
  ((m ≫= k) c).1 <> inl no_fuel.
Proof. unfold mbind, web_bind. destruct (m c) as [[e|a] c'] eqn:E; [by cbn; congruence|]. intros _ H. by apply H. Qed.

Lemma header_loop_no_fuel fuel : forall hs b c,
  (length (input c) < fuel)%nat -> (header_loop fuel hs b c).1 <> inl no_fuel.
Proof.
  induction fuel as [|fuel IH]; intros hs b c Hf; [lia|]. cbn [header_loop].
  apply bind_no_fuel; [apply parser_line_no_fuel|]. intros line c1 E%parser_line_shorter.
  destruct line as [|x line]; [done|]. apply bind_no_fuel; [by apply lift_no_fuel, parse_line_no_fuel|].
  intros hs1 c2 E2. apply IH. unfold lift in E2. destruct (parser_header hs (x :: line)); [done|].
  injection E2 as _ <-. lia.
Qed.

Lemma parser_header_body_no_fuel hs body c : (parser_header_body hs body c).1 <> inl no_fuel.
Proof.
  unfold parser_header_body. apply bind_no_fuel; [apply header_loop_no_fuel; lia|].
  intros [hs1 size] c1 _. destruct (0 <? size); [|done]. destruct (max_size <? size); [done|].
  apply bind_no_fuel; [unfold read_size; by destruct (size <=? _)|]. by intros [|b bs] c2 _.
Qed.

(** * Theorems *)

(** C31: [parser_request_line] accepts exactly the lines
    [method SP uri SP HTTP/major.minor]: a non-empty method of token
    characters, a uri without spaces and control characters, and two decimal
    numerals of numbers below 2^31 - 48 (the code adds the character before it
    subtracts ['0'], so the 48 largest values of an [int] already overflow). What it stores are the method and the uri, after what the
    request held, and the numbers the two numerals denote, place by place. *)
Theorem request_line_grammar (r r' : request) (line : bytes) :
  parser_request_line r line = inr r' <->
  exists m u a b,
    line = request_line_text m u a b /\
    m <> [] /\ Forall (fun c => is_token c = true) m /\ Forall (fun c => is_uri_char c = true) u /\
    Forall (fun c => is_digit c = true) a /\ Forall (fun c => is_digit c = true) b /\
    fits_int a /\ fits_int b /\
    r' = Request (method r ++ m) (uri r ++ u) (decimal a) (decimal b) (req_headers r) (req_content r).
Proof.
  split.
  - unfold parser_request_line. rewrite parse_line_accept.
    rewrite (accept_first request_step version_minor_ method_start method_ is_token (fun c => push_method c r)) by done.
    intros (c & l1 & -> & Hc & (m & l2 & s1 & -> & Hok & Hpu & (u & l3 & -> & Hu &
      (a & b & va & vb & -> & Ha & Hb & Hva & Hvb & ->)%accept_version)%accept_uri)%accept_method).
    rewrite push_methods_all in Hpu. injection Hpu as <-. apply int_value_decimal in Hva as [Hva ->], Hvb as [Hvb ->]; try done.
    exists (c :: m), u, a, b. split; [done|]. split; [done|].
    split; [constructor; [done|]; eapply Forall_impl; [|exact Hok]; by intros ? []|].
    do 5 (split; [done|]). cbn. by rewrite <- app_assoc.
  - intros (m & u & a & b & -> & ? & ? & ? & ? & ? & ? & ? & ->).
    by apply request_line_ok; try done; apply int_value_decimal.
Qed.

(** [parser_header] accepts exactly the lines [name: value], which add a
    header, and the continuation lines (white space, then text) after a first
    header, whose text goes to the end of the last header's value. *)
Theorem header_line_grammar (hs hs' : list header) (line : bytes) :
  parser_header hs line = inr hs' <->
  (exists n v, line = n ++ name_value_separator ++ v /\ n <> [] /\ Forall (fun c => is_token c = true) n /\
     Forall (fun c => is_value_char c = true) v /\ hs' = hs ++ [Header n v]) \/
  (exists hs0 h ws c v, hs = hs0 ++ [h] /\ line = ws ++ c :: v /\ ws <> [] /\
     Forall (fun c => is_blank c = true) ws /\ is_blank c = false /\
     Forall (fun c => is_value_char c = true) (c :: v) /\ hs' = hs0 ++ [Header (name h) (value h ++ c :: v)]).
Proof.
  split.
  - unfold parser_header. rewrite parse_line_accept. unfold accept. destruct line as [|b line]; [done|].
    cbn [run_line header_step]. destruct (negb (bool_decide (hs = [])) && is_blank b) eqn:Eb.
    + apply andb_prop in Eb as [Hne Hb]. intros (ws & c & v & -> & Hws & Hc & Hv & ->)%accept_lws. right.
      destruct hs as [|h hs0 _] using rev_ind; [done|]. exists hs0, h, (b :: ws), c, v.
      unfold push_values. rewrite on_last_snoc. repeat split; try done. by constructor.
    + destruct (is_token b) eqn:Ht; [|done]. intros (n & v & -> & Hn & Hv & ->)%accept_name. left. exists (b :: n), v.
      unfold push_values, push_names, push_name. rewrite !on_last_snoc. repeat split; try done. by constructor.
  - intros [(n & v & -> & Hne & Hn & Hv & ->)|(hs0 & h & ws & c & v & -> & -> & Hne & Hws & Hc & Hv & ->)].
    + by apply (header_line_ok hs (Header n v)).
    + apply parse_line_accept. destruct ws as [|b ws]; [done|]. apply list.Forall_cons in Hws as [Hb Hws].
      unfold accept. cbn [app run_line header_step]. rewrite Hb, bool_decide_eq_false_2 by (by destruct hs0). cbn [negb andb].
      apply accept_lws. exists ws, c, v. repeat split; try done. unfold push_values. by rewrite on_last_snoc.
Qed.

(** A reply with a status the program names, well-formed headers and a
    [Content-Length] that is the length of its content, written by
    [to_buffer], is read back by [parser] as the same reply, and what follows
    it on the connection stays unread. All stock replies are such replies. *)
Theorem reply_roundtrip (r : reply) (rest out : bytes) (Hr : reply_ok r \/ exists st, st ∈ known_statuses /\ r = stock st) :
  parser_reply reply_new (Conn (to_buffer r ++ rest) out) = (inr r, Conn rest out).
Proof. apply parser_reply_ok. destruct Hr as [|(st & Hst & ->)]; [done|by apply stock_reply_ok]. Qed.

(** C36: reading a message ends for every input: the loop over the header
    lines takes at least one byte per turn. *)
Theorem parser_terminates (r : request) (rep : reply) (c : conn) :
  (parser_request r c).1 <> inl no_fuel /\ (parser_reply rep c).1 <> inl no_fuel.
Proof.
  split; (apply bind_no_fuel; [apply parser_line_no_fuel|]); intros line c1 _;
    (apply bind_no_fuel; [by apply lift_no_fuel, parse_line_no_fuel|]); intros r1 c2 _;
    (apply bind_no_fuel; [apply parser_header_body_no_fuel|done]).
Qed.

(** The largest [int] is not parsed: ['7'] is 55 before ['0'] is subtracted. *)
Lemma largest_int_overflows : parser_request_line request_new (str "GET / HTTP/2147483647.0") = inl undefined_behaviour.
Proof. reflexivity. Qed.

(** A version number of eleven digits overflows the [int] it is kept in. *)
Lemma version_overflow : parser_request_line request_new (str "GET / HTTP/99999999999.1") = inl undefined_behaviour.
Proof. reflexivity. Qed.

Lemma reply_roundtrip_witness :
  parser_reply reply_new (Conn (to_buffer (stock 404) ++ [1; 2]) []) = (inr (stock 404), Conn [1; 2] []).
Proof.
  apply (reply_roundtrip (stock 404) [1; 2] []). right. exists 404. split; [|done].
  by do 12 (apply list_elem_of_further); apply list_elem_of_here.
Defined.
