(* ===== verification/Websocket.v ===== *)
(** WebSocket connections (src/runtime/src/web/websocket.cpp,
    src/runtime/include/simple/web/websocket.h): the handshake of both sides,
    the frames [write] produces and [read] consumes.

    The keys [rand_key] draws and the byte order of the host are parameters. *)

From Stdlib Require Import (notations) String.
From S2P Require Import Prelude Base64 Digest Sha1 Network Stream Http.

(** * Data *)

Inductive websocket_type := client | server.

#[export] Instance websocket_type_dec : EqDecision websocket_type.
Proof. solve_decision. Defined.

(** [websocket_opcode] by its number. *)
Definition op_continuation : Z := 0.
Definition op_ping : Z := 9.
Definition op_none : Z := 16.

Definition is_websocket_control (op : Z) : bool := 8 <=? op.

(** * Byte order *)

Section host.
Context (big_endian : bool).

(** An n-byte integer in memory. *)
Definition host_bytes (n : nat) (v : Z) : bytes := if big_endian then be_bytes n v else le_bytes n v.

Definition host_value (bs : bytes) : Z := if big_endian then be_value bs else le_value bs.

(** [htons], [htonl] and their inverses, which are the same functions. *)
Definition hton (n : nat) (v : Z) : Z := if big_endian then v else be_value (le_bytes n v).

(** [uint64_helper]: [high] is the first half in memory. *)
Definition ws_htonll (val : Z) : Z :=
  let high := host_value (take 4 (host_bytes 8 val)) in
  let low := host_value (drop 4 (host_bytes 8 val)) in
  let low := hton 4 low in
  let high := hton 4 high in
  let '(high, low) := if big_endian then (high, low) else (low, high) in
  host_value (host_bytes 4 high ++ host_bytes 4 low).

Definition ws_ntohll (val : Z) : Z :=
  let high := host_value (take 4 (host_bytes 8 val)) in
  let low := host_value (drop 4 (host_bytes 8 val)) in
  let low := hton 4 low in
  let high := hton 4 high in
  let '(high, low) := if big_endian then (high, low) else (low, high) in
  host_value (host_bytes 4 high ++ host_bytes 4 low).

(** * Writing *)

Definition umask (data mask : bytes) : bytes := imap (fun i b => Z.lxor b (nth (i mod 4) mask 0)) data.

Definition encode_header (tp : websocket_type) (op size : Z) (fin : bool) : bytes :=
  let val := Z.lor (if fin then 0x80 else 0) op in
  let val2 := match tp with client => 0x80 | server => 0 end in
  if size <? 0x7E then [val; Z.lor val2 (u8 size)]
  else if size <=? 0xFFFF then [val; Z.lor val2 0x7E] ++ host_bytes 2 (hton 2 (u16 size))
  else [val; Z.lor val2 0x7F] ++ host_bytes 8 (ws_htonll size).

Definition encode_body (tp : websocket_type) (mask data : bytes) : bytes :=
  match tp with
  | client => mask ++ umask data mask
  | server => data
  end.

(** [keys k] is the [k]-th masking key drawn. *)
Definition write_frame (tp : websocket_type) (keys : nat -> bytes) (k : nat) (op : Z) (data : bytes) (fin : bool) : bytes :=
  encode_header tp op (zlen data) fin ++ encode_body tp (keys k) data.

(** [write] without a frame size. *)
Definition write_message (tp : websocket_type) (keys : nat -> bytes) (op : Z) (data : bytes) : bytes :=
  write_frame tp keys 0 op data true.

(** The loop [while (size > payload_max)] and the last frame. *)
Fixpoint write_loop (fuel : nat) (tp : websocket_type) (keys : nat -> bytes) (k : nat) (data : bytes) (payload_max : Z)
    : option bytes :=
  match fuel with
  | O => None
  | S fuel =>
      if payload_max <? zlen data then
        rest ← write_loop fuel tp keys (S k) (zdrop payload_max data) payload_max;
        Some (write_frame tp keys k op_continuation (ztake payload_max data) false ++ rest)
      else Some (write_frame tp keys k op_continuation data true)
  end.

(** [write] with the frame size [payload_max]. *)
Definition write_fragments (fuel : nat) (tp : websocket_type) (keys : nat -> bytes) (op : Z) (data : bytes) (payload_max : Z)
    : option bytes :=
  if (zlen data <=? payload_max) || is_websocket_control op then Some (write_message tp keys op data)
  else
    rest ← write_loop fuel tp keys 1 (zdrop payload_max data) payload_max;
    Some (write_frame tp keys 0 op (ztake payload_max data) false ++ rest).

(** * Reading *)

(** [read_size] of [n] bytes, where zero bytes are the end of the stream. *)
Definition recv (n : Z) : web bytes :=
  bs ← read_size n;
  match bs with
  | [] => throw recv_eof
  | _ => mret bs
  end.

Definition recv_byte : web Z := bs ← recv 1; mret (nth 0 bs 0).

(** [payload_len] from the second byte of a frame. *)
Definition read_length (val : Z) : web Z :=
  let len := Z.land val 0x7F in
  if len <? 0x7E then mret len
  else if len =? 0x7E then bs ← recv 2; mret (hton 2 (host_value bs))
  else bs ← recv 8; mret (ws_ntohll (host_value bs)).

(** The payload, received into the free part of the buffer that holds [buf]. *)
Definition read_payload (mask : bool) (masking_key : bytes) (payload_len : Z) (buf : bytes) : web bytes :=
  if 0 <? payload_len then
    if max_size <? u64 (zlen buf + payload_len) then throw length_error
    else
      bs ← recv payload_len;
      mret (buf ++ (if mask then umask bs masking_key else bs))
  else mret buf.

(** One turn of the loop of [read] per frame, which takes two bytes or more. *)
Fixpoint read_loop (fuel : nat) (tp : websocket_type) (last_op : Z) (buf : bytes) : web (Z * bytes) :=
  match fuel with
  | O => throw no_fuel
  | S fuel =>
      val ← recv_byte;
      let fin := negb (Z.land val 0x80 =? 0) in
      let op := Z.land val 0x0F in
      if (if is_websocket_control op then negb fin
          else eqb (op =? op_continuation) (last_op =? op_none))
      then throw websocket_read_fail
      else
        val ← recv_byte;
        let mask := negb (Z.land val 0x80 =? 0) in
        if negb (eqb mask (bool_decide (tp = server))) then throw websocket_read_fail
        else
          payload_len ← read_length val;
          masking_key ← (if mask then recv 4 else mret []);
          buf ← read_payload mask masking_key payload_len buf;
          if fin then mret (if op =? op_continuation then last_op else op, buf)
          else read_loop fuel tp (if op =? op_continuation then last_op else op) buf
  end.

Definition read (tp : websocket_type) : web (Z * bytes) := fun c =>
  read_loop (S (length (input c))) tp op_none [] c.
End host.

(** * Handshake *)

Definition websocket_key_name : bytes := str "Sec-WebSocket-Key".
Definition websocket_accept_name : bytes := str "Sec-WebSocket-Accept".
Definition connection_name : bytes := str "Connection".
Definition upgrade_name : bytes := str "Upgrade".
Definition upgrade_value_right : bytes := str "websocket".
Definition handshake_guid : bytes := str "258EAFA5-E914-47DA-95CA-C5AB0DC85B11".

(** One turn of the loop over the headers: the first non-empty value of each of
    three names. *)
Definition pick_step (first : bytes) (v : bytes * bytes * bytes) (h : header) : bytes * bytes * bytes :=
  let '(a, c, u) := v in
  if decide (a = [] /\ name h = first) then (value h, c, u)
  else if decide (c = [] /\ name h = connection_name) then (a, value h, u)
  else if decide (u = [] /\ name h = upgrade_name) then (a, c, value h)
  else v.

Definition pick_values (first : bytes) (hs : list header) : bytes * bytes * bytes :=
  fold_left (pick_step first) hs ([], [], []).

(** The accept value of a key. *)
Definition accept_of (key : bytes) : bytes :=
  let ctx := sha1_init sha1_fresh in
  let ctx := sha1_update ctx key in
  let ctx := sha1_update ctx handshake_guid in
  base64_encode (fst (sha1_final ctx)).

Definition request_text (host uri key_base64 : bytes) : bytes :=
  str "GET " ++ uri ++ str " HTTP/1.1" ++ crlf ++
  str "Host: " ++ host ++ crlf ++
  str "Connection: Upgrade" ++ crlf ++
  str "Upgrade: websocket" ++ crlf ++
  str "Sec-WebSocket-Version: 13" ++ crlf ++
  str "Sec-WebSocket-Key: " ++ key_base64 ++ crlf ++ crlf.

(** [handshake(host, uri)] with the 16 random bytes [key]: the request sent,
    and what happens when the reply comes in. *)
Definition client_request (host uri key : bytes) : bytes := request_text host uri (base64_encode key).

Definition client_handshake (tp : websocket_type) (host uri key : bytes) : web () :=
  if negb (bool_decide (tp = client)) then throw type_invalid
  else
    write (client_request host uri key) ;;
    rep ← parser_reply reply_new;
    let '(websocket_accept_value, connection_value, upgrade_value) :=
      pick_values websocket_accept_name (headers rep) in
    if negb (bool_decide (upgrade_value = upgrade_value_right)) then throw upgrade_invalid
    else if negb (bool_decide (is_Some (find_sub connection_value upgrade_name))) then throw connection_invalid
    else if bool_decide (websocket_accept_value = []) then throw accept_invalid
    else if negb (bool_decide (accept_of (base64_encode key) = websocket_accept_value)) then throw accept_invalid
    else mret ().

(** The reply of an accepted handshake. *)
Definition switching_reply (key : bytes) : reply :=
  Reply 101
    [Header connection_name upgrade_name; Header upgrade_name upgrade_value_right;
     Header websocket_accept_name (accept_of key)]
    [].

Definition refuse {A} (e : fault) : web A := write (to_buffer (stock 400)) ;; throw e.

Definition server_handshake (tp : websocket_type) : web () :=
  if negb (bool_decide (tp = server)) then throw type_invalid
  else
    req ← parser_request request_new;
    let '(websocket_key_value, connection_value, upgrade_value) :=
      pick_values websocket_key_name (req_headers req) in
    if negb (bool_decide (upgrade_value = upgrade_value_right)) then refuse upgrade_invalid
    else if negb (bool_decide (is_Some (find_sub connection_value upgrade_name))) then refuse connection_invalid
    else if bool_decide (websocket_key_value = []) then refuse key_invalid
    else write (to_buffer (switching_reply websocket_key_value)).

(** * Byte order *)

Lemma le_bytes_S n v : le_bytes (S n) v = v mod 256 :: le_bytes n (v / 256).
Proof.
  unfold le_bytes. cbn [seq fmap list_fmap]. f_equal; [by rewrite Z.div_1_r|].
  rewrite <- fmap_S_seq, <- list_fmap_compose. apply list_fmap_ext. intros i k _. unfold compose.
  rewrite Nat2Z.inj_succ, Z.pow_succ_r, Z.div_div by lia. done.
Qed.

Lemma length_le_bytes n v : length (le_bytes n v) = n.
Proof. unfold le_bytes. by rewrite length_fmap, length_seq. Qed.

Lemma le_value_bytes n v : 0 <= v < 256 ^ Z.of_nat n -> le_value (le_bytes n v) = v.
Proof.
  revert v. induction n as [|n IH]; intros v Hv; [cbn in *; lia|].
  rewrite le_bytes_S. cbn [le_value]. rewrite Nat2Z.inj_succ, Z.pow_succ_r in Hv by lia.
  rewrite IH; [divlia|]. split; [divlia|]. apply Z.div_lt_upper_bound; lia.
Qed.

Lemma le_bytes_value bs : wf_bytes bs -> le_bytes (length bs) (le_value bs) = bs.
Proof.
  induction 1 as [|b bs Hb _ IH]; [done|]. cbn [length le_value]. rewrite le_bytes_S. unfold is_byte in Hb.
  f_equal; [divlia|]. replace ((b + 256 * le_value bs) / 256) with (le_value bs) by divlia. done.
Qed.

Lemma le_value_range bs : wf_bytes bs -> 0 <= le_value bs < 256 ^ zlen bs.
Proof.
  induction 1 as [|b bs Hb _ IH]; [done|]. rewrite zlen_cons, Z.pow_add_r by (pose proof (zlen_nonneg bs); lia).
  cbn [le_value]. unfold is_byte in Hb. lia.
Qed.

Lemma be_value_bytes n v : 0 <= v < 256 ^ Z.of_nat n -> be_value (be_bytes n v) = v.
Proof. intros Hv. unfold be_value, be_bytes. rewrite reverse_involutive. by apply le_value_bytes. Qed.

Lemma wf_reverse bs : wf_bytes bs -> wf_bytes (reverse bs).
Proof. intros H. apply Forall_reverse, H. Qed.

Lemma be_bytes_value bs : wf_bytes bs -> be_bytes (length bs) (be_value bs) = bs.
Proof.
  intros Hw. unfold be_value, be_bytes. rewrite <- (length_reverse bs), le_bytes_value by by apply wf_reverse.
  apply reverse_involutive.
Qed.

Section host_lemmas.
Context (big : bool).

Lemma length_host_bytes n v : length (host_bytes big n v) = n.
Proof. destruct big; cbn; unfold be_bytes; rewrite ?length_reverse; apply length_le_bytes. Qed.

Lemma wf_host_bytes n v : wf_bytes (host_bytes big n v).
Proof. destruct big; cbn; [apply wf_reverse|]; apply wf_le_bytes. Qed.

Lemma host_value_bytes n v : 0 <= v < 256 ^ Z.of_nat n -> host_value big (host_bytes big n v) = v.
Proof. destruct big; cbn; [apply be_value_bytes|apply le_value_bytes]. Qed.

Lemma host_bytes_value bs : wf_bytes bs -> host_bytes big (length bs) (host_value big bs) = bs.
Proof. destruct big; cbn; [apply be_bytes_value|apply le_bytes_value]. Qed.

Lemma host_value_range bs : wf_bytes bs -> 0 <= host_value big bs < 256 ^ zlen bs.
Proof.
  intros Hw. destruct big; cbn; [|by apply le_value_range]. unfold be_value.
  replace (zlen bs) with (zlen (reverse bs)) by (unfold zlen; by rewrite length_reverse).
  by apply le_value_range, wf_reverse.
Qed.

(** In memory, [hton] reverses the bytes of a little-endian host. *)
Lemma host_bytes_hton bs :
  wf_bytes bs ->
  host_bytes big (length bs) (hton big (length bs) (host_value big bs)) = if big then bs else reverse bs.
Proof.
  intros Hw. pose proof (host_bytes_value bs Hw) as E. unfold host_bytes, host_value, hton in *.
  destruct big; [exact E|]. rewrite E. unfold be_value. rewrite <- (length_reverse bs).
  by apply le_bytes_value, wf_reverse.
Qed.

Lemma hton_be bs : wf_bytes bs -> hton big (length bs) (host_value big bs) = be_value bs.
Proof.
  intros Hw. pose proof (host_bytes_value bs Hw) as E. unfold host_bytes, host_value, hton in *.
  destruct big; [done|]. by rewrite E.
Qed.

Lemma ws_swap (bs : bytes) :
  wf_bytes bs -> length bs = 8%nat ->
  ws_htonll big (host_value big bs) = host_value big (if big then bs else reverse bs).
Proof.
  intros Hw Hl. unfold ws_htonll. pose proof (host_bytes_value bs Hw) as E8. rewrite Hl in E8. cbv zeta. rewrite !E8.
  assert (wf_bytes (take 4 bs) /\ wf_bytes (drop 4 bs)) as [Hw1 Hw2] by (split; [by apply Forall_take|by apply Forall_drop]).
  assert (length (take 4 bs) = 4%nat /\ length (drop 4 bs) = 4%nat) as [Hl1 Hl2] by (rewrite length_take, length_drop; lia).
  pose proof (host_bytes_hton _ Hw1) as E1. pose proof (host_bytes_hton _ Hw2) as E2. rewrite Hl1 in E1. rewrite Hl2 in E2.
  destruct big; cbv beta iota zeta in *; rewrite E1, E2; [by rewrite take_drop|]. by rewrite <- reverse_app, take_drop.
Qed.

Lemma be_host v : be_bytes 8 v = if big then host_bytes big 8 v else reverse (host_bytes big 8 v).
Proof. by destruct big. Qed.

Lemma wf_be8 v : wf_bytes (be_bytes 8 v) /\ length (be_bytes 8 v) = 8%nat.
Proof. split; [apply wf_reverse, wf_le_bytes|]. unfold be_bytes. rewrite length_reverse. apply length_le_bytes. Qed.

Lemma ws_htonll_be v : 0 <= v < 2 ^ 64 -> host_bytes big 8 (ws_htonll big v) = be_bytes 8 v.
Proof.
  intros Hv. rewrite <- (host_value_bytes 8 v) at 1 by done.
  rewrite ws_swap by (apply wf_host_bytes || apply length_host_bytes). rewrite <- be_host.
  destruct (wf_be8 v) as [Hw Hl]. rewrite <- Hl at 1. by apply host_bytes_value.
Qed.

Lemma ws_ntohll_be v : 0 <= v < 2 ^ 64 -> ws_ntohll big (host_value big (be_bytes 8 v)) = v.
Proof.
  intros Hv. destruct (wf_be8 v) as [Hw Hl]. change (ws_ntohll big) with (ws_htonll big).
  rewrite ws_swap by done. rewrite be_host.
  replace (if big then _ else _) with (host_bytes big 8 v); [by apply host_value_bytes|].
  destruct big; [done|]. by rewrite reverse_involutive.
Qed.

Lemma hton2_bytes v : 0 <= v < 2 ^ 16 -> host_bytes big 2 (hton big 2 v) = be_bytes 2 v.
Proof.
  intros Hv. pose proof (host_bytes_hton (host_bytes big 2 v) (wf_host_bytes 2 v)) as E.
  rewrite length_host_bytes, host_value_bytes in E by done. rewrite E. by destruct big.
Qed.

Lemma hton2_value v : 0 <= v < 2 ^ 16 -> hton big 2 (host_value big (be_bytes 2 v)) = v.
Proof.
  intros Hv. assert (wf_bytes (be_bytes 2 v)) as Hw by apply wf_reverse, wf_le_bytes.
  pose proof (hton_be _ Hw) as E. unfold be_bytes in E at 1. rewrite length_reverse, length_le_bytes in E.
  rewrite E. by apply be_value_bytes.
Qed.
End host_lemmas.

(** * Frames *)

Definition peer (tp : websocket_type) : websocket_type := match tp with client => server | server => client end.

Lemma umask_involutive data mask : umask (umask data mask) mask = data.
Proof.
  apply list_eq. intros i. unfold umask. rewrite !list_lookup_imap. destruct (data !! i); [|done]. cbn.
  by rewrite Z.lxor_assoc, Z.lxor_nilpotent, Z.lxor_0_r.
Qed.

Lemma zlen_umask data mask : zlen (umask data mask) = zlen data.
Proof. unfold zlen, umask. by rewrite length_imap. Qed.

Lemma first_byte op fin :
  0 <= op < 16 ->
  let val := Z.lor (if fin : bool then 0x80 else 0) op in
  negb (Z.land val 0x80 =? 0) = fin /\ Z.land val 0x0F = op.
Proof.
  intros Hop. assert (exists n, op = Z.of_nat n /\ (n < 16)%nat) as (n & -> & Hn) by (exists (Z.to_nat op); lia).
  do 16 (destruct n as [|n]; [destruct fin; split; reflexivity|]). lia.
Qed.

Lemma second_byte (m : bool) s :
  0 <= s < 128 ->
  let val := Z.lor (if m then 0x80 else 0) s in
  negb (Z.land val 0x80 =? 0) = m /\ Z.land val 0x7F = s.
Proof.
  intros Hs. cbv zeta.
  assert (forall x, is_byte x -> (if x <? 128 then
    Bool.eqb (negb (Z.land (Z.lor (if m then 0x80 else 0) x) 0x80 =? 0)) m && (Z.land (Z.lor (if m then 0x80 else 0) x) 0x7F =? x)
    else true) = true) as H.
  { destruct m.
    - apply (byte_check (fun x => if x <? 128 then
        Bool.eqb (negb (Z.land (Z.lor 0x80 x) 0x80 =? 0)) true && (Z.land (Z.lor 0x80 x) 0x7F =? x) else true)). reflexivity.
    - apply (byte_check (fun x => if x <? 128 then
        Bool.eqb (negb (Z.land (Z.lor 0 x) 0x80 =? 0)) false && (Z.land (Z.lor 0 x) 0x7F =? x) else true)). reflexivity. }
  specialize (H s ltac:(word)). rewrite (proj2 (Z.ltb_lt _ _)) in H by lia. apply andb_prop in H as [H1 H2].
  apply eqb_prop in H1. apply Z.eqb_eq in H2. done.
Qed.

Lemma recv_ok bs rest out : bs <> [] -> recv (zlen bs) (Conn (bs ++ rest) out) = (inr bs, Conn rest out).
Proof. intros Hne. unfold recv. erewrite bind_ok by (apply read_size_ok). by destruct bs. Qed.

Lemma recv_byte_ok b rest out : recv_byte (Conn (b :: rest) out) = (inr b, Conn rest out).
Proof. unfold recv_byte. erewrite bind_ok by (by apply (recv_ok [b])). done. Qed.

(** The length codes of [encode_header] and [read]: any host on either side. *)
Lemma length_code (big big' : bool) tp op fin size :
  0 <= size < 2 ^ 64 ->
  exists v2 ext,
    encode_header big tp op size fin = [Z.lor (if fin then 0x80 else 0) op; v2] ++ ext /\
    negb (Z.land v2 0x80 =? 0) = bool_decide (tp = client) /\
    forall rest out, read_length big' v2 (Conn (ext ++ rest) out) = (inr size, Conn rest out).
Proof.
  intros Hs. unfold encode_header.
  assert (match tp with client => 0x80 | server => 0 end = if bool_decide (tp = client) then 0x80 else 0) as ->.
  { by destruct tp. }
  set (m := bool_decide (tp = client)). destruct (Z.ltb_spec size 0x7E) as [Hlt|Hge].
  - exists (Z.lor (if m then 0x80 else 0) (u8 size)), []. rewrite u8_small by word.
    destruct (second_byte m size ltac:(lia)) as [H1 H2]. split; [done|]. split; [done|]. intros rest out.
    unfold read_length. rewrite H2. by rewrite (proj2 (Z.ltb_lt _ _)) by done.
  - destruct (Z.leb_spec size 0xFFFF) as [Hle|Hgt].
    + exists (Z.lor (if m then 0x80 else 0) 0x7E), (be_bytes 2 size). destruct (second_byte m 0x7E ltac:(lia)) as [H1 H2].
      rewrite u16_small by word. rewrite hton2_bytes by lia. split; [done|]. split; [done|]. intros rest out.
      unfold read_length. rewrite H2. change (0x7E <? 0x7E) with false. change (0x7E =? 0x7E) with true. cbv iota.
      erewrite bind_ok by (by apply (recv_ok (be_bytes 2 size))). by rewrite hton2_value by lia.
    + exists (Z.lor (if m then 0x80 else 0) 0x7F), (be_bytes 8 size). destruct (second_byte m 0x7F ltac:(lia)) as [H1 H2].
      rewrite ws_htonll_be by done. split; [done|]. split; [done|]. intros rest out.
      unfold read_length. rewrite H2. change (0x7F <? 0x7E) with false. change (0x7F =? 0x7E) with false. cbv iota.
      erewrite bind_ok by (by apply (recv_ok (be_bytes 8 size))). by rewrite ws_ntohll_be.
Qed.

Lemma read_payload_ok (m : bool) mask data buf rest out :
  zlen buf + zlen data <= max_size ->
  read_payload m mask (zlen data) buf (Conn ((if m then umask data mask else data) ++ rest) out) =
    (inr (buf ++ data), Conn rest out).
Proof.
  intros Hmax. unfold max_size in Hmax. pose proof (zlen_nonneg buf). unfold read_payload.
  destruct data as [|b data]; [by destruct m; cbn; rewrite app_nil_r|]. pose proof (zlen_nonneg data).
  rewrite (proj2 (Z.ltb_lt _ _)) by (rewrite zlen_cons; lia). set (d := b :: data) in *.
  rewrite u64_small by (unfold is_u64; pose proof (zlen_nonneg d); lia).
  rewrite (proj2 (Z.ltb_ge _ _)) by (unfold max_size; lia).
  assert ((if m then umask d mask else d) <> []) as Hne by (by destruct m).
  assert (zlen (if m then umask d mask else d) = zlen d) as <- by (destruct m; [apply zlen_umask|done]).
  erewrite bind_ok by (by apply recv_ok). destruct m; [by rewrite umask_involutive|done].
Qed.

(** Whether [read] takes a frame with opcode [op] after opcode [last_op]. *)
Definition frame_ok (op last_op : Z) (fin : bool) : Prop :=
  if is_websocket_control op then fin = true else (op = op_continuation <-> last_op <> op_none).

(** One frame, written by [tp] on a host of either byte order and read by its
    peer. *)
Lemma read_frame (big big' : bool) tp keys k op data fin last_op buf fuel rest out :
  0 <= op < 16 -> frame_ok op last_op fin -> length (keys k) = 4%nat ->
  zlen buf + zlen data <= max_size ->
  read_loop big' (S fuel) (peer tp) last_op buf (Conn (write_frame big tp keys k op data fin ++ rest) out) =
    if fin then (inr (if op =? op_continuation then last_op else op, buf ++ data), Conn rest out)
    else read_loop big' fuel (peer tp) (if op =? op_continuation then last_op else op) (buf ++ data) (Conn rest out).
Proof.
  intros Hop Hfr Hk Hmax. pose proof (zlen_nonneg data). pose proof (zlen_nonneg buf). unfold write_frame.
  destruct (length_code big big' tp op fin (zlen data)) as (v2 & ext & -> & Hm & Hlen); [unfold max_size in *; lia|].
  destruct (first_byte op fin Hop) as [Hfin Hopc]. cbn [app read_loop]. rewrite <- !app_assoc.
  erewrite bind_ok by (apply recv_byte_ok). rewrite Hfin, Hopc.
  replace (if is_websocket_control op then negb fin else eqb (op =? op_continuation) (last_op =? op_none)) with false.
  2:{ unfold frame_ok in Hfr. destruct (is_websocket_control op); [by subst|].
      destruct (Z.eqb_spec op op_continuation), (Z.eqb_spec last_op op_none); cbn; intuition congruence. }
  erewrite bind_ok by (apply recv_byte_ok). rewrite Hm.
  replace (negb (eqb (bool_decide (tp = client)) (bool_decide (peer tp = server)))) with false by (by destruct tp).
  erewrite bind_ok by (apply Hlen).
  assert ((if bool_decide (tp = client) then recv 4 else mret [])
      (Conn (encode_body tp (keys k) data ++ rest) out) =
    (inr (if bool_decide (tp = client) then keys k else []),
     Conn ((if bool_decide (tp = client) then umask data (keys k) else data) ++ rest) out)) as E.
  { destruct tp; cbn; [|done]. rewrite <- app_assoc. replace 4 with (zlen (keys k)) by (unfold zlen; lia).
    apply (recv_ok (keys k)). intros E. by rewrite E in Hk. }
  erewrite bind_ok by (apply E).
  assert (read_payload (bool_decide (tp = client)) (if bool_decide (tp = client) then keys k else []) (zlen data) buf
      (Conn ((if bool_decide (tp = client) then umask data (keys k) else data) ++ rest) out) =
    (inr (buf ++ data), Conn rest out)) as E'.
  { destruct tp; cbn [bool_decide decide_rel]; [exact (read_payload_ok true (keys k) data buf rest out Hmax)|
      exact (read_payload_ok false [] data buf rest out Hmax)]. }
  erewrite bind_ok by (apply E'). by destruct fin.
Qed.

(** * Messages *)

Lemma write_frame_length big tp keys k op data fin :
  length (keys k) = 4%nat -> zlen data <= max_size -> (length data + 2 <= length (write_frame big tp keys k op data fin))%nat.
Proof.
  intros Hk Hmax. unfold write_frame. pose proof (zlen_nonneg data).
  destruct (length_code big big tp op fin (zlen data)) as (v2 & ext & -> & _); [unfold max_size in *; lia|].
  rewrite !length_app. destruct tp; cbn [encode_body length]; [rewrite length_app|lia].
  pose proof (zlen_umask data (keys k)). unfold zlen in *. lia.
Qed.

Section messages.
Context (big big' : bool) (tp : websocket_type) (keys : nat -> bytes).
Context (Hkeys : forall k, length (keys k) = 4%nat).

Lemma write_loop_ok payload_max fuel : forall k data,
  0 < payload_max -> (length data < fuel)%nat -> zlen data <= max_size ->
  exists msg, write_loop big fuel tp keys k data payload_max = Some msg /\ (length data < length msg)%nat /\
    forall fuel' last_op buf rest out, last_op <> op_none -> (length data < fuel')%nat -> zlen buf + zlen data <= max_size ->
      read_loop big' fuel' (peer tp) last_op buf (Conn (msg ++ rest) out) = (inr (last_op, buf ++ data), Conn rest out).
Proof.
  induction fuel as [|fuel IH]; intros k data Hp Hf Hmax; [lia|]. cbn [write_loop].
  destruct (Z.ltb_spec payload_max (zlen data)) as [Hlt|Hge].
  - assert (length (zdrop payload_max data) < length data)%nat as Hdl.
    { unfold zdrop, zlen in *. rewrite length_drop. lia. }
    destruct (IH (S k) (zdrop payload_max data) Hp ltac:(lia)) as (msg & -> & Hl & Hr).
    { rewrite zlen_zdrop; lia. }
    assert (zlen (ztake payload_max data) = payload_max) as Hzt by (rewrite zlen_ztake; lia).
    cbn [mbind option_bind]. eexists. split; [reflexivity|]. split.
    + rewrite length_app. pose proof (write_frame_length big tp keys k op_continuation (ztake payload_max data) false
        (Hkeys k) ltac:(lia)). unfold ztake, zdrop, zlen in *. rewrite length_take, length_drop in *. lia.
    + intros fuel' last_op buf rest out Hlast Hf' Hmb. destruct fuel' as [|fuel']; [lia|]. rewrite <- app_assoc.
      rewrite read_frame; [|done|unfold frame_ok; cbn; by intuition|apply Hkeys|lia].
      cbn [Z.eqb op_continuation]. rewrite Hr; [|done|lia|].
      * rewrite <- app_assoc. unfold ztake, zdrop. by rewrite take_drop.
      * rewrite zlen_app, Hzt, zlen_zdrop by lia. lia.
  - eexists. split; [reflexivity|]. split; [pose proof (write_frame_length big tp keys k op_continuation data true
        (Hkeys k) ltac:(lia)); lia|].
    intros fuel' last_op buf rest out Hlast Hf' Hmb. destruct fuel' as [|fuel']; [lia|].
    rewrite read_frame; [done|done|unfold frame_ok; cbn; by intuition|apply Hkeys|done].
Qed.

Lemma write_message_ok op data rest out :
  0 < op < 16 -> zlen data <= max_size ->
  read big' (peer tp) (Conn (write_message big tp keys op data ++ rest) out) = (inr (op, data), Conn rest out).
Proof.
  intros Hop Hmax. unfold read, write_message.
  rewrite read_frame; [|lia| |apply Hkeys|done].
  - rewrite (proj2 (Z.eqb_neq _ _)) by (unfold op_continuation; lia). done.
  - unfold frame_ok. destruct (is_websocket_control op); [done|]. unfold op_continuation. by intuition lia.
Qed.

Lemma write_fragments_ok op data payload_max fuel :
  0 < op < 16 -> 0 < payload_max -> (length data < fuel)%nat -> zlen data <= max_size ->
  exists msg, write_fragments big fuel tp keys op data payload_max = Some msg /\
    forall rest out, read big' (peer tp) (Conn (msg ++ rest) out) = (inr (op, data), Conn rest out).
Proof.
  intros Hop Hp Hf Hmax. unfold write_fragments. destruct (_ || _) eqn:Ec.
  { eexists. split; [reflexivity|]. intros. by apply write_message_ok. }
  apply orb_false_elim in Ec as [Hlt%Z.leb_gt Hc].
  assert (length (zdrop payload_max data) < length data)%nat as Hdl.
  { unfold zdrop, zlen in *. rewrite length_drop. lia. }
  destruct (write_loop_ok payload_max fuel 1 (zdrop payload_max data) Hp ltac:(lia)) as (msg & -> & Hl & Hr).
  { rewrite zlen_zdrop; lia. }
  cbn [mbind option_bind]. eexists. split; [reflexivity|]. intros rest out. unfold read.
  assert (zlen (ztake payload_max data) = payload_max) as Hzt by (rewrite zlen_ztake; lia).
  rewrite <- app_assoc. rewrite read_frame; [|lia| |apply Hkeys|change (zlen []) with 0; lia].
  - rewrite (proj2 (Z.eqb_neq _ _)) by (unfold op_continuation; lia). rewrite Hr.
    + cbn [app]. unfold ztake, zdrop. by rewrite take_drop.
    + unfold op_none. lia.
    + cbn [input]. rewrite !length_app. lia.
    + cbn [app]. rewrite Hzt, zlen_zdrop by lia. lia.
  - unfold frame_ok. rewrite Hc. unfold op_continuation, op_none. by intuition lia.
Qed.
End messages.

(** ** The reading loop ends *)

Lemma recv_shorter n c bs c' : recv n c = (inr bs, c') -> (length (input c') <= length (input c))%nat.
Proof.
  unfold recv. intros [(l & c1 & E & H)|(e & c1 & _ & [=])]%bind_inv. destruct l; [done|]. injection H as _ <-.
  unfold read_size in E. destruct (n <=? _); [|done]. injection E as _ <-. cbn. unfold zdrop. rewrite length_drop. lia.
Qed.

Lemma recv_byte_shorter c b c' : recv_byte c = (inr b, c') -> (length (input c') < length (input c))%nat.
Proof.
  unfold recv_byte. intros [(l & c1 & E & [= _ <-])|(e & c1 & _ & [=])]%bind_inv.
  unfold recv in E. apply bind_inv in E as [(l' & c2 & E & H)|(e & c2 & _ & [=])]. destruct l'; [done|].
  injection H as _ <-. unfold read_size in E. destruct (Z.leb_spec 1 (zlen (input c))); [|done]. injection E as _ <-.
  cbn. unfold zdrop, zlen in *. rewrite length_drop. lia.
Qed.

Lemma recv_no_fuel n c : (recv n c).1 <> inl no_fuel.
Proof.
  unfold recv, mbind, web_bind, read_size. destruct (n <=? _); [|done]. by destruct (ztake n (input c)).
Qed.

Lemma recv_byte_no_fuel c : (recv_byte c).1 <> inl no_fuel.
Proof. apply bind_no_fuel; [apply recv_no_fuel|done]. Qed.

Lemma read_length_no_fuel big v c : (read_length big v c).1 <> inl no_fuel.
Proof.
  unfold read_length. destruct (_ <? _); [done|]. destruct (_ =? _); (apply bind_no_fuel; [apply recv_no_fuel|done]).
Qed.

Lemma read_length_shorter big v c n c' : read_length big v c = (inr n, c') -> (length (input c') <= length (input c))%nat.
Proof.
  unfold read_length. destruct (_ <? _); [by intros [= _ <-]|].
  by destruct (_ =? _); intros [(l & c1 & E & [= _ <-])|(e & c1 & _ & [=])]%bind_inv; apply recv_shorter in E.
Qed.

Lemma read_payload_no_fuel m k n buf c : (read_payload m k n buf c).1 <> inl no_fuel.
Proof.
  unfold read_payload. destruct (0 <? n); [|done]. destruct (_ <? _); [done|].
  apply bind_no_fuel; [apply recv_no_fuel|done].
Qed.

Lemma read_payload_shorter m k n buf c r c' :
  read_payload m k n buf c = (inr r, c') -> (length (input c') <= length (input c))%nat.
Proof.
  unfold read_payload. destruct (0 <? n); [|by intros [= _ <-]]. destruct (_ <? _); [done|].
  intros [(l & c1 & E & [= _ <-])|(e & c1 & _ & [=])]%bind_inv. by apply recv_shorter in E.
Qed.

Lemma read_loop_no_fuel big tp fuel : forall last_op buf c,
  (length (input c) < fuel)%nat -> (read_loop big fuel tp last_op buf c).1 <> inl no_fuel.
Proof.
  induction fuel as [|fuel IH]; intros last_op buf c Hf; [lia|]. cbn [read_loop].
  apply bind_no_fuel; [apply recv_byte_no_fuel|]. intros v1 c1 E1%recv_byte_shorter.
  destruct (if is_websocket_control _ then _ else _); [done|].
  apply bind_no_fuel; [apply recv_byte_no_fuel|]. intros v2 c2 E2%recv_byte_shorter.
  destruct (negb (eqb _ _)); [done|].
  apply bind_no_fuel; [apply read_length_no_fuel|]. intros n c3 E3%read_length_shorter.
  apply bind_no_fuel; [destruct (negb _); [apply recv_no_fuel|done]|]. intros key c4 E4.
  assert (length (input c4) <= length (input c3))%nat as E4'.
  { destruct (negb _); [by apply recv_shorter in E4|by injection E4 as _ <-]. }
  apply bind_no_fuel; [apply read_payload_no_fuel|]. intros b c5 E5%read_payload_shorter.
  destruct (negb (Z.land v1 _ =? 0)); [done|]. apply IH. lia.
Qed.

(** * Handshakes *)

Lemma base64_char_ok n k : is_value_char (base64_char (sextet n k)) = true.
Proof.
  pose proof (sextet_range n k) as Hr.
  assert (forall x, is_byte x -> (if x <? 64 then is_value_char (base64_char x) else true) = true) as H.
  { apply (byte_check (fun x => if x <? 64 then is_value_char (base64_char x) else true)). vm_compute. reflexivity. }
  specialize (H (sextet n k) ltac:(unfold is_byte; lia)). by rewrite (proj2 (Z.ltb_lt _ _)) in H by lia.
Qed.

Lemma base64_char_byte n k : is_byte (base64_char (sextet n k)).
Proof.
  pose proof (sextet_range n k) as Hr.
  assert (forall x, is_byte x -> (if x <? 64 then (0 <=? base64_char x) && (base64_char x <? 256) else true) = true) as H.
  { apply (byte_check (fun x => if x <? 64 then (0 <=? base64_char x) && (base64_char x <? 256) else true)).
    vm_compute. reflexivity. }
  specialize (H (sextet n k) ltac:(unfold is_byte; lia)). rewrite (proj2 (Z.ltb_lt _ _)) in H by lia.
  apply andb_prop in H as [H1 H2]. unfold is_byte. lia.
Qed.

Lemma base64_ref bs : wf_bytes bs -> base64_encode bs = rfc4648 bs.
Proof. intros Hw. by apply (enc_ref bs Hw [0; 0; 0] []). Qed.

Lemma base64_value_chars bs : wf_bytes bs -> Forall (fun c => is_value_char c = true) (base64_encode bs).
Proof.
  intros Hw. rewrite base64_ref by done. clear Hw. induction bs using triple_ind; cbn [rfc4648];
    repeat (apply list.Forall_cons; split; [apply base64_char_ok || done|]); done.
Qed.

Lemma base64_wf bs : wf_bytes bs -> wf_bytes (base64_encode bs).
Proof.
  intros Hw. rewrite base64_ref by done. clear Hw. unfold wf_bytes. induction bs using triple_ind; cbn [rfc4648];
    repeat (apply list.Forall_cons; split; [apply base64_char_byte || (unfold is_byte; lia)|]); done.
Qed.

Lemma base64_nonempty bs : wf_bytes bs -> bs <> [] -> base64_encode bs <> [].
Proof. intros Hw Hne. rewrite base64_ref by done. by destruct bs as [|a [|b [|c bs]]]. Qed.

Lemma accept_of_digest key : wf_bytes key -> accept_of key = base64_encode (fips180 (key ++ handshake_guid)).
Proof.
  intros Hw. unfold accept_of. f_equal.
  rewrite (sha1_final_ok (key ++ handshake_guid)) by apply sha1_update_ok, sha1_fresh_ok.
  apply sha1_fips180_digest. apply Forall_app. split; [done|]. unfold handshake_guid, str. cbn.
  by repeat (constructor; [done|]).
Qed.

Lemma accept_of_ok key : Forall (fun c => is_value_char c = true) (accept_of key) /\ accept_of key <> [].
Proof.
  unfold accept_of. set (ctx := sha1_update _ handshake_guid).
  assert (fst (sha1_final ctx) = sha1 (key ++ handshake_guid)) as ->.
  { rewrite (sha1_final_ok (key ++ handshake_guid)) by apply sha1_update_ok, sha1_fresh_ok.
    by rewrite sha1_is_digest. }
  pose proof (wf_sha1 (key ++ handshake_guid)) as Hw. pose proof (length_sha1 (key ++ handshake_guid)) as Hl.
  split; [by apply base64_value_chars|]. apply base64_nonempty; [done|]. by intros E; rewrite E in Hl.
Qed.

(** The headers of the client's request. *)
Definition request_headers (host key_base64 : bytes) : list header :=
  [Header (str "Host") host; Header connection_name upgrade_name; Header upgrade_name upgrade_value_right;
   Header (str "Sec-WebSocket-Version") (str "13"); Header websocket_key_name key_base64].

Lemma request_text_parts host uri key :
  request_text host uri key =
    request_line_text (str "GET") uri (str "1") (str "1") ++ crlf ++
    concat (header_text <$> request_headers host key) ++ crlf.
Proof.
  unfold request_text, request_line_text, http_version, request_headers, header_text. cbn.
  repeat (rewrite <- app_assoc; cbn). done.
Qed.

Ltac chars := repeat (constructor; [reflexivity|]); constructor.

Lemma request_headers_ok host key :
  Forall (fun c => is_value_char c = true) host -> Forall (fun c => is_value_char c = true) key ->
  Forall header_ok (request_headers host key).
Proof.
  intros Hh Hk.
  assert (header_ok (Header (str "Host") host)) by (split; [done|]; split; [chars|done]).
  assert (header_ok (Header connection_name upgrade_name)) by (split; [done|]; split; chars).
  assert (header_ok (Header upgrade_name upgrade_value_right)) by (split; [done|]; split; chars).
  assert (header_ok (Header (str "Sec-WebSocket-Version") (str "13"))) by (split; [done|]; split; chars).
  assert (header_ok (Header websocket_key_name key)) by (split; [done|]; split; [chars|done]).
  by repeat constructor.
Qed.

Lemma uri_no_cr u : Forall (fun c => is_uri_char c = true) u -> Forall (fun c => c <> 13) u.
Proof. intros H. eapply Forall_impl; [|exact H]. by intros c Hc ->. Qed.

Lemma request_line_no_cr uri :
  Forall (fun c => is_uri_char c = true) uri ->
  Forall (fun c => c <> 13) (request_line_text (str "GET") uri (str "1") (str "1")).
Proof.
  intros Hu. unfold request_line_text. rewrite !list.Forall_app.
  assert (Forall (fun c => c <> 13) (str "GET")) by (by repeat constructor).
  assert (Forall (fun c => c <> 13) (http_version (str "1") (str "1"))) by (by repeat constructor).
  assert (Forall (fun c => c <> 13) [32]) by (by repeat constructor).
  repeat split; try done. by apply uri_no_cr.
Qed.

Lemma parser_request_text host uri key rest out :
  Forall (fun c => is_value_char c = true) host -> Forall (fun c => is_value_char c = true) key ->
  Forall (fun c => is_uri_char c = true) uri ->
  parser_request request_new (Conn (request_text host uri key ++ rest) out) =
    (inr (Request (str "GET") uri 1 1 (request_headers host key) []), Conn rest out).
Proof.
  intros Hh Hk Hu. rewrite request_text_parts, <- !app_assoc. unfold parser_request.
  erewrite bind_ok by (by apply parser_line_ok, request_line_no_cr).
  erewrite bind_ok by (by rewrite (request_line_ok _ _ _ _ _ 1 1) by (done || chars)).
  erewrite bind_ok by (apply (parser_header_body_ok [] [] _ []); [by apply request_headers_ok|done|done]).
  done.
Qed.

Lemma switching_reply_ok key : reply_ok (switching_reply key).
Proof.
  destruct (accept_of_ok key) as [Hc _]. split; [apply list_elem_of_here|]. split; [|done].
  constructor; [split; [done|]; split; chars|]. constructor; [split; [done|]; split; chars|].
  constructor; [split; [done|]; split; [chars|done]|done].
Qed.

Lemma find_sub_refl s : is_Some (find_sub s s).
Proof.
  exists 0%nat. destruct s as [|c s]; [done|]. cbn [find_sub]. unfold starts_with.
  by rewrite bool_decide_eq_true_2 by apply firstn_all.
Qed.

Lemma server_accepts host uri key rest out :
  Forall (fun c => is_value_char c = true) host -> Forall (fun c => is_value_char c = true) key ->
  Forall (fun c => is_uri_char c = true) uri -> key <> [] ->
  server_handshake server (Conn (request_text host uri key ++ rest) out) =
    (inr (), Conn rest (out ++ to_buffer (switching_reply key))).
Proof.
  intros Hh Hk Hu Hne. unfold server_handshake. rewrite (bool_decide_eq_true_2 (server = server)) by done. cbn [negb].
  erewrite bind_ok by (by apply parser_request_text). cbn [req_headers].
  assert (pick_values websocket_key_name (request_headers host key) = (key, upgrade_name, upgrade_value_right)) as -> by done.
  cbv beta iota. rewrite (bool_decide_eq_true_2 (upgrade_value_right = _)) by done.
  rewrite (bool_decide_eq_true_2 (is_Some _)) by apply find_sub_refl.
  by rewrite (bool_decide_eq_false_2 (key = [])).
Qed.

Lemma client_accepts host uri key rest out :
  client_handshake client host uri key (Conn (to_buffer (switching_reply (base64_encode key)) ++ rest) out) =
    (inr (), Conn rest (out ++ client_request host uri key)).
Proof.
  unfold client_handshake. rewrite (bool_decide_eq_true_2 (client = client)) by done. cbn [negb]. set (k := base64_encode key).
  destruct (accept_of_ok k) as [_ Hne]. erewrite bind_ok by reflexivity. cbn [input sent].
  erewrite bind_ok by (apply parser_reply_ok, switching_reply_ok).
  assert (pick_values websocket_accept_name (headers (switching_reply k)) =
    (accept_of k, upgrade_name, upgrade_value_right)) as -> by done.
  cbv beta iota. rewrite (bool_decide_eq_true_2 (upgrade_value_right = _)) by done.
  rewrite (bool_decide_eq_true_2 (is_Some _)) by apply find_sub_refl.
  rewrite (bool_decide_eq_false_2 (accept_of k = [])) by done.
  by rewrite (bool_decide_eq_true_2 (accept_of k = accept_of k)).
Qed.

(** * Theorems *)

(** C32: a message of any length, written by either side as one frame or cut
    into frames of [payload_max] bytes, is read by the peer as the same opcode
    and data, whatever the masking keys and the byte orders of the two hosts,
    and what follows it on the connection stays unread. *)
Theorem websocket_message_roundtrip (big big' : bool) (tp : websocket_type) (keys : nat -> bytes)
    (op : Z) (data : bytes) (payload_max : Z) (fuel : nat)
    (Hkeys : forall k, length (keys k) = 4%nat) (Hop : 0 < op < 16) (Hmax : zlen data <= max_size)
    (Hpayload : 0 < payload_max) (Hfuel : (length data < fuel)%nat) :
  (forall rest out,
    read big' (peer tp) (Conn (write_message big tp keys op data ++ rest) out) = (inr (op, data), Conn rest out)) /\
  exists msg, write_fragments big fuel tp keys op data payload_max = Some msg /\
    forall rest out, read big' (peer tp) (Conn (msg ++ rest) out) = (inr (op, data), Conn rest out).
Proof. split; [intros; by apply write_message_ok|by apply write_fragments_ok]. Qed.

(** The two handshakes agree: the server accepts the client's request and
    answers with the accept value RFC 6455 prescribes for the key, and the
    client accepts this answer; both leave what follows on the connection. *)
Theorem handshake_agrees (host uri key rest out rest' out' : bytes)
    (Hhost : Forall (fun c => is_value_char c = true) host)
    (Huri : Forall (fun c => is_uri_char c = true) uri) (Hkey : wf_bytes key) (Hne : key <> []) :
  let answer := to_buffer (switching_reply (base64_encode key)) in
  server_handshake server (Conn (client_request host uri key ++ rest) out) = (inr (), Conn rest (out ++ answer)) /\
  client_handshake client host uri key (Conn (answer ++ rest') out') =
    (inr (), Conn rest' (out' ++ client_request host uri key)) /\
  accept_of (base64_encode key) = base64_encode (fips180 (base64_encode key ++ handshake_guid)).
Proof.
  split; [|split].
  - apply server_accepts; [done|by apply base64_value_chars|done|by apply base64_nonempty].
  - apply client_accepts.
  - by apply accept_of_digest, base64_wf.
Qed.

(** [read] ends for every input: a turn of its loop takes two bytes or
    more. *)
Theorem websocket_read_terminates (big : bool) (tp : websocket_type) (c : conn) :
  (read big tp c).1 <> inl no_fuel.
Proof. apply read_loop_no_fuel. lia. Qed.

(** A frame size of zero makes [write] cut the message for ever: whatever
    the number of turns, its loop is not done. *)
Theorem zero_payload_never_ends (big : bool) (tp : websocket_type) (keys : nat -> bytes) (op : Z) (data : bytes)
    (Hop : is_websocket_control op = false) (Hne : data <> []) (fuel : nat) :
  write_fragments big fuel tp keys op data 0 = None.
Proof.
  unfold write_fragments. rewrite Hop. assert (0 < zlen data) as Hl.
  { destruct data; [done|]. rewrite zlen_cons. pose proof (zlen_nonneg data). lia. }
  rewrite (proj2 (Z.leb_gt _ _)) by done. rewrite zdrop_0. cbn [orb].
  assert (forall fuel k, write_loop big fuel tp keys k data 0 = None) as ->; [|done].
  clear fuel. induction fuel as [|fuel IH]; intros k; [done|]. cbn [write_loop].
  rewrite (proj2 (Z.ltb_lt _ _)) by done. by rewrite zdrop_0, IH.
Qed.

(** A ping between the fragments of a message, which RFC 6455 allows, ends
    the message: [read] returns the ping's opcode with the first fragment in
    front of the ping's payload, and the next [read] fails at the rest of the
    message. *)
Theorem ping_between_fragments (big big' : bool) (tp : websocket_type) (keys : nat -> bytes)
    (op : Z) (part1 ping part2 rest out : bytes)
    (Hkeys : forall k, length (keys k) = 4%nat) (Hop : 0 < op < 8)
    (H1 : zlen part1 + zlen ping <= max_size) (H2 : zlen part2 <= max_size) :
  let last_frame := write_frame big tp keys 2 op_continuation part2 true in
  read big' (peer tp)
    (Conn (write_frame big tp keys 0 op part1 false ++ write_frame big tp keys 1 op_ping ping true ++ last_frame ++ rest) out) =
    (inr (op_ping, part1 ++ ping), Conn (last_frame ++ rest) out) /\
  (read big' (peer tp) (Conn (last_frame ++ rest) out)).1 = inl websocket_read_fail.
Proof.
  cbv zeta. pose proof (zlen_nonneg part1). pose proof (zlen_nonneg ping). split; unfold read.
  - rewrite read_frame; [|lia| |done|change (zlen []) with 0; lia].
    2:{ unfold frame_ok. replace (is_websocket_control op) with false by (unfold is_websocket_control; lia).
        unfold op_continuation, op_none. by intuition lia. }
    cbn [input]. pose proof (write_frame_length big tp keys 0 op part1 false (Hkeys 0%nat) ltac:(lia)) as Hl.
    rewrite (proj2 (Z.eqb_neq op _)) by (unfold op_continuation; lia).
    rewrite length_app. destruct (length (write_frame big tp keys 0 op part1 false) + _)%nat eqn:E; [lia|].
    rewrite read_frame; [done|done|done|done|done].
  - unfold write_frame.
    destruct (length_code big big' tp op_continuation true (zlen part2)) as (v2 & ext & -> & _);
      [pose proof (zlen_nonneg part2); unfold max_size in *; lia|].
    cbn [app read_loop]. by erewrite bind_ok by (apply recv_byte_ok).
Qed.

(** * Witnesses *)

Definition demo_keys (k : nat) : bytes := [17; 34; 51; Z.of_nat k].

Lemma websocket_message_roundtrip_witness :
  exists msg, write_fragments false 9 client demo_keys 1 [1; 2; 3; 4; 5] 2 = Some msg /\
    forall rest out, read true server (Conn (msg ++ rest) out) = (inr (1, [1; 2; 3; 4; 5]), Conn rest out).
Proof.
  refine (proj2 (websocket_message_roundtrip false true client demo_keys 1 [1; 2; 3; 4; 5] 2 9 _ _ _ _ _));
    [done|lia|vm_compute; discriminate|lia|cbn; lia].
Defined.

Lemma handshake_agrees_witness :
  let answer := to_buffer (switching_reply (base64_encode [1; 2; 3])) in
  server_handshake server (Conn (client_request (str "a.b") (str "/x") [1; 2; 3] ++ [9]) []) =
    (inr (), Conn [9] ([] ++ answer)) /\
  client_handshake client (str "a.b") (str "/x") [1; 2; 3] (Conn (answer ++ [8]) []) =
    (inr (), Conn [8] ([] ++ client_request (str "a.b") (str "/x") [1; 2; 3])) /\
  accept_of (base64_encode [1; 2; 3]) = base64_encode (fips180 (base64_encode [1; 2; 3] ++ handshake_guid)).
Proof.
  apply (handshake_agrees (str "a.b") (str "/x") [1; 2; 3] [9] [] [8] []); [chars|chars| |done].
  repeat (constructor; [unfold is_byte; lia|]). constructor.
Defined.

Lemma zero_payload_never_ends_witness : write_fragments false 1000 server demo_keys 2 [7] 0 = None.
Proof. by apply (zero_payload_never_ends false server demo_keys 2 [7]). Defined.

Lemma ping_between_fragments_witness :
  let last_frame := write_frame false client demo_keys 2 op_continuation [3] true in
  read false (peer client)
    (Conn (write_frame false client demo_keys 0 1 [1] false ++ write_frame false client demo_keys 1 op_ping [2] true ++ last_frame ++ []) []) =
    (inr (op_ping, [1; 2]), Conn (last_frame ++ []) []) /\
  (read false (peer client) (Conn (last_frame ++ []) [])).1 = inl websocket_read_fail.
Proof.
  apply (ping_between_fragments false false client demo_keys 1 [1] [2] [3] [] []);
    [done|lia|vm_compute; discriminate|vm_compute; discriminate].
Defined.
