(* ===== verification/ProtoUtils.v ===== *)
(** The frames of the game servers (src/gobang/kernel/proto_utils.cpp,
    src/gobang/kernel/headers.hpp): the headers in memory, the buffers that are
    sent, the loop that receives one message, and the delays between two
    attempts to connect.

    Protobuf is outside: a message is here the bytes it is serialised to. The
    layout of the bit-field header is the one of the little-endian hosts the
    project builds for. *)

From S2P Require Import Prelude Digest Network Stream Websocket.

Definition flag_valid : Z := 0xe4.

Record net_header := NetHeader { h_flag : Z; h_len : Z; h_id : Z; h_padding : Z; h_session : Z }.

Record forward_part := ForwardPart { f_from : Z; f_to : Z; f_id : Z; f_padding : Z; f_session : Z }.

Record client_part := ClientPart { c_id : Z; c_logic : Z; c_socket : Z; c_userid : Z }.

Definition valid (h : net_header) : bool := h_flag h =? flag_valid.

(** [flag : 8] and [len : 24] share the first word. *)
Definition net_header_bytes (h : net_header) : bytes :=
  le_bytes 4 (Z.lor (h_flag h mod 2 ^ 8) (Z.shiftl (h_len h mod 2 ^ 24) 8)) ++
  le_bytes 2 (h_id h) ++ le_bytes 2 (h_padding h) ++ le_bytes 8 (h_session h).

Definition net_header_of (bs : bytes) : net_header :=
  let word := le_value (take 4 bs) in
  NetHeader (word mod 2 ^ 8) (Z.shiftr word 8) (le_value (take 2 (drop 4 bs)))
    (le_value (take 2 (drop 6 bs))) (le_value (take 8 (drop 8 bs))).

Definition net_header_size : Z := 16.

Definition forward_bytes (p : forward_part) : bytes :=
  le_bytes 2 (f_from p) ++ le_bytes 2 (f_to p) ++ le_bytes 2 (f_id p) ++ le_bytes 2 (f_padding p) ++
  le_bytes 8 (f_session p).

Definition forward_of (bs : bytes) : forward_part :=
  ForwardPart (le_value (take 2 bs)) (le_value (take 2 (drop 2 bs))) (le_value (take 2 (drop 4 bs)))
    (le_value (take 2 (drop 6 bs))) (le_value (take 8 (drop 8 bs))).

(** [userid] is signed. *)
Definition client_bytes (p : client_part) : bytes :=
  le_bytes 2 (c_id p) ++ le_bytes 2 (c_logic p) ++ le_bytes 4 (c_socket p) ++ le_bytes 4 (u32 (c_userid p)).

Definition ws_header_bytes (id session : Z) : bytes :=
  [flag_valid; 0; 0; 0; 0; 0] ++ le_bytes 2 id ++ le_bytes 8 session.

(** * Sending *)

Section sending.
(** What the free part of a fresh buffer holds. *)
Context (stale : Z -> bytes).

(** Capacity of an empty [memory_buffer] after [reserve]. *)
Definition reserved (size : Z) : Z := if size <=? 1024 then 1024 else Z.max size 1536.

(** [SerializePartialToArray] into the [room] that is left, then
    [written(len)]: a message that does not fit is not written. *)
Definition serialized (payload : bytes) (room len : Z) : bytes :=
  if zlen payload <=? room then ztake len (payload ++ stale room) else ztake len (stale room).

Definition create_net_buffer (id session : Z) (payload : bytes) : bytes :=
  let header := NetHeader flag_valid (u32 (zlen payload) mod 2 ^ 24) id 0 session in
  net_header_bytes header ++
  serialized payload (reserved (h_len header + net_header_size) - net_header_size) (h_len header).

(** The message id of a client's message forwarded to a service. *)
Definition id_s_client_forward_brd : Z := 0x6007.

Definition init_forward_buffer (part : forward_part) (payload : bytes) : bytes :=
  let len := u32 (zlen payload) in
  forward_bytes part ++ serialized payload (reserved (16 + len) - 16) len.

Definition init_client_forward_buffer (from to session : Z) (client : client_part) (payload : bytes) : bytes :=
  let len := u32 (zlen payload) in
  forward_bytes (ForwardPart from to id_s_client_forward_brd 0 session) ++ client_bytes client ++
  serialized payload (reserved (16 + 12 + len) - 28) len.

Definition init_client_buffer (id session : Z) (payload : bytes) : bytes :=
  let len := u32 (zlen payload) in
  ws_header_bytes id session ++ serialized payload (reserved (16 + len) - 16) len.
End sending.

(** * Receiving *)

Definition msg_len_limit : Z := 1024 * 1024 * 10.

(** [flag_invalid] and [len_limit] are thrown after the socket was closed. *)
Definition recv_net_buffer : web (net_header * bytes) :=
  bs ← recv net_header_size;
  let header := net_header_of bs in
  if negb (valid header) then throw flag_invalid
  else if msg_len_limit <? h_len header then throw len_limit
  else if 0 <? h_len header then
    buf ← recv (h_len header);
    mret (header, buf)
  else mret (header, []).

(** * Delays between attempts to connect *)

Definition connect_interval (fail_count : Z) : Z :=
  if fail_count <? 2 then 0
  else
    let intervals := [1; 2; 4; 6; 8] in
    let idx := fail_count - 2 in
    nth (Z.to_nat (if zlen intervals <=? idx then zlen intervals - 1 else idx)) intervals 0.

(** * Frames *)

Lemma header_word flag len :
  is_byte flag -> 0 <= len < 2 ^ 24 ->
  Z.lor (flag mod 2 ^ 8) (Z.shiftl (len mod 2 ^ 24) 8) = len * 256 + flag.
Proof.
  intros Hf Hl. rewrite Z.lor_comm, !Z.mod_small by word. by apply lor_shift_add.
Qed.

Lemma net_header_roundtrip h :
  is_byte (h_flag h) -> 0 <= h_len h < 2 ^ 24 -> is_u16 (h_id h) -> is_u16 (h_padding h) -> is_u64 (h_session h) ->
  net_header_of (net_header_bytes h) = h.
Proof.
  intros Hf Hl Hi Hp Hs. unfold net_header_bytes. rewrite header_word by done. set (w := h_len h * 256 + h_flag h).
  unfold net_header_of.
  change (take 4 (le_bytes 4 w ++ le_bytes 2 (h_id h) ++ le_bytes 2 (h_padding h) ++ le_bytes 8 (h_session h))) with (le_bytes 4 w).
  change (take 2 (drop 4 (le_bytes 4 w ++ le_bytes 2 (h_id h) ++ le_bytes 2 (h_padding h) ++ le_bytes 8 (h_session h))))
    with (le_bytes 2 (h_id h)).
  change (take 2 (drop 6 (le_bytes 4 w ++ le_bytes 2 (h_id h) ++ le_bytes 2 (h_padding h) ++ le_bytes 8 (h_session h))))
    with (le_bytes 2 (h_padding h)).
  change (take 8 (drop 8 (le_bytes 4 w ++ le_bytes 2 (h_id h) ++ le_bytes 2 (h_padding h) ++ le_bytes 8 (h_session h))))
    with (le_bytes 8 (h_session h)).
  rewrite !le_value_bytes by (done || (subst w; unfold is_byte in Hf; lia)).
  rewrite Z.shiftr_div_pow2 by lia. subst w. unfold is_byte in Hf.
  replace ((h_len h * 256 + h_flag h) mod 2 ^ 8) with (h_flag h) by divlia.
  replace ((h_len h * 256 + h_flag h) / 2 ^ 8) with (h_len h) by divlia. by destruct h.
Qed.

Lemma length_net_header h : length (net_header_bytes h) = 16%nat.
Proof. reflexivity. Qed.

Lemma reserved_room size : 0 <= size -> size <= reserved size.
Proof. intros. unfold reserved. destruct (Z.leb_spec size 1024); lia. Qed.

Section sent.
Context (stale : Z -> bytes).

Lemma serialized_fits payload room :
  zlen payload <= room -> serialized stale payload room (zlen payload) = payload.
Proof. intros H. unfold serialized. rewrite (proj2 (Z.leb_le _ _)) by done. apply ztake_app_length. Qed.

Lemma create_net_buffer_ok id session payload :
  zlen payload < 2 ^ 24 ->
  create_net_buffer stale id session payload =
    net_header_bytes (NetHeader flag_valid (zlen payload) id 0 session) ++ payload.
Proof.
  intros Hl. pose proof (zlen_nonneg payload). unfold create_net_buffer.
  rewrite u32_small by word. rewrite (Z.mod_small (zlen payload)) by lia. cbn [h_len]. f_equal.
  apply serialized_fits. pose proof (reserved_room (zlen payload + net_header_size)). unfold net_header_size in *. lia.
Qed.

(** The 24 bits of [len] cut the length of a longer message: the receiver
    takes the rest of nothing for the next frame. *)
Lemma net_buffer_truncates id session payload :
  2 ^ 24 <= zlen payload < 2 ^ 32 -> (forall n, 0 <= n -> zlen (stale n) = n) ->
  zlen (create_net_buffer stale id session payload) = 16 + zlen payload mod 2 ^ 24 /\
  zlen payload mod 2 ^ 24 < zlen payload.
Proof.
  intros Hl Hst. unfold create_net_buffer. rewrite u32_small by word. cbn [h_len].
  set (n := zlen payload mod 2 ^ 24). assert (0 <= n < 2 ^ 24) as Hn by (unfold n; divlia).
  pose proof (reserved_room (n + net_header_size)) as Hr. unfold net_header_size in *.
  rewrite zlen_app. change (zlen (net_header_bytes _)) with 16. split; [|unfold n; divlia]. f_equal. unfold serialized.
  destruct (_ <=? _); rewrite zlen_ztake by lia; rewrite ?zlen_app, Hst by lia; lia.
Qed.
End sent.

Lemma forward_roundtrip p rest :
  is_u16 (f_from p) -> is_u16 (f_to p) -> is_u16 (f_id p) -> is_u16 (f_padding p) -> is_u64 (f_session p) ->
  forward_of (forward_bytes p ++ rest) = p.
Proof.
  intros H1 H2 H3 H4 H5. unfold forward_of, forward_bytes. rewrite <- !app_assoc.
  set (bs := le_bytes 2 (f_from p) ++ _).
  change (take 2 bs) with (le_bytes 2 (f_from p)). change (take 2 (drop 2 bs)) with (le_bytes 2 (f_to p)).
  change (take 2 (drop 4 bs)) with (le_bytes 2 (f_id p)). change (take 2 (drop 6 bs)) with (le_bytes 2 (f_padding p)).
  change (take 8 (drop 8 bs)) with (le_bytes 8 (f_session p)). rewrite !le_value_bytes by done. by destruct p.
Qed.

(** The delays grow with the failures and stay within eight seconds. *)
Lemma connect_interval_range n m : n <= m -> 0 <= connect_interval n <= connect_interval m /\ connect_interval m <= 8.
Proof.
  assert (forall k, connect_interval k =
    if k <? 2 then 0 else if k =? 2 then 1 else if k =? 3 then 2 else if k =? 4 then 4 else if k =? 5 then 6 else 8) as E.
  { intros k. unfold connect_interval. cbv zeta. change (zlen [1; 2; 4; 6; 8]) with 5. destruct (Z.ltb_spec k 2) as [|Hk]; [done|].
    destruct (Z.leb_spec 5 (k - 2)) as [Hge|Hlt]; [by repeat (case_match; [lia|])|].
    assert (k = 2 \/ k = 3 \/ k = 4 \/ k = 5 \/ k = 6) as [->|[->|[->|[->| ->]]]] by lia; done. }
  intros H. rewrite !E. repeat case_match; lia.
Qed.

(** * Theorems *)

(** A message of at most 10 MB, framed by [create_net_buffer], is received
    by [recv_net_buffer] with the same id, session and bytes, and the next
    frame stays unread. *)
Theorem net_buffer_roundtrip (stale : Z -> bytes) (id session : Z) (payload rest out : bytes)
    (Hid : is_u16 id) (Hsession : is_u64 session) (Hlen : zlen payload <= msg_len_limit) :
  recv_net_buffer (Conn (create_net_buffer stale id session payload ++ rest) out) =
    (inr (NetHeader flag_valid (zlen payload) id 0 session, payload), Conn rest out).
Proof.
  pose proof (zlen_nonneg payload). unfold msg_len_limit in Hlen.
  rewrite create_net_buffer_ok by lia. set (h := NetHeader flag_valid (zlen payload) id 0 session).
  unfold recv_net_buffer. rewrite <- app_assoc. erewrite bind_ok by (by apply (recv_ok (net_header_bytes h))).
  rewrite (net_header_roundtrip h) by (unfold h, flag_valid; cbn; word). cbn [h_len h].
  change (valid h) with true. cbn [negb]. rewrite (proj2 (Z.ltb_ge _ _)) by (unfold msg_len_limit; lia).
  destruct payload as [|b payload]; [done|]. rewrite (proj2 (Z.ltb_lt _ _))
    by (rewrite zlen_cons; pose proof (zlen_nonneg payload); lia).
  by erewrite bind_ok by (by apply recv_ok).
Qed.

Lemma net_buffer_roundtrip_witness :
  recv_net_buffer (Conn (create_net_buffer (fun n => zrep n 0) 0x4001 7 [1; 2; 3] ++ [5]) []) =
    (inr (NetHeader 0xe4 3 0x4001 0 7, [1; 2; 3]), Conn [5] []).
Proof.
  apply (net_buffer_roundtrip (fun n => zrep n 0) 0x4001 7 [1; 2; 3] [5] []); [word|word|vm_compute; discriminate].
Defined.
