(* ===== verification/GateMaster.v ===== *)
(** The gate master (src/gobang/gate_master/gate_master.cpp, gate_master.h):
    the registry of gates and of the services behind them, the connections of
    the gates, and what is sent to whom when a gate registers, reports its
    services or goes away.

    A [gate_data*] or [service_data*] points into an [unordered_map] whose
    entries are never erased, so it is here the key of the entry. Parsing a
    protobuf message is a parameter; a message that is sent is its content.
    [network::close] resumes the coroutine that reads the socket, which runs
    [socket_end] before [close] returns. *)

From stdpp Require Import gmap.
From S2P Require Import Prelude.

(** * Data *)

(** [s_service_info], [s_gate_info]: what the gates send. *)
Record service_info := ServiceInfo { s_id : Z; s_tp : Z; s_online : bool }.

Record gate_info := GateInfo { gi_id : Z; gi_addresses : list (bytes * bytes); gi_services : list service_info }.

Record service_data := ServiceData { sd_id : Z; sd_tp : Z; sd_gate : Z; sd_online : bool }.

Record gate_data := GateData {
  g_id : Z; g_socket : Z; g_addresses : list (bytes * bytes); g_services : list Z }.

Record socket_data := SocketData { k_socket : Z; k_data : option Z; k_last_recv : Z }.

Record gate_master := GateMaster {
  gates_ : gmap Z gate_data; services_ : gmap Z service_data; sockets_ : gmap Z socket_data }.

Definition gate_master_new : gate_master := GateMaster ∅ ∅ ∅.

Inductive ec_code := ec_success | ec_system.

Inductive message :=
  | RegisterAck (ec : ec_code) (gates : list gate_info)
  | RegisterBrd (gates : list gate_info)
  | UpdateAck (ec : ec_code)
  | PingAck.

Inductive effect := Send (socket session : Z) (m : message) | Close (socket : Z).

(** * Operations *)

Definition set_online (b : bool) (d : service_data) : service_data :=
  ServiceData (sd_id d) (sd_tp d) (sd_gate d) b.

Definition set_socket (k : Z) (g : gate_data) : gate_data :=
  GateData (g_id g) k (g_addresses g) (g_services g).

Definition set_data (o : option Z) (k : socket_data) : socket_data := SocketData (k_socket k) o (k_last_recv k).

Definition with_sockets (f : gmap Z socket_data -> gmap Z socket_data) (m : gate_master) : gate_master :=
  GateMaster (gates_ m) (services_ m) (f (sockets_ m)).

Definition add_gate_info (m : gate_master) (g : gate_data) : gate_info :=
  GateInfo (g_id g) (g_addresses g)
    (omap (fun s => d ← services_ m !! s; Some (ServiceInfo (sd_id d) (sd_tp d) (sd_online d))) (g_services g)).

(** The broadcasts of [publish] for the gate [id]. *)
Definition publish (m : gate_master) (id : Z) : list effect :=
  match gates_ m !! id with
  | None => []
  | Some gate =>
      omap (fun e => if (g_socket e.2 =? 0) || (e.1 =? id) then None
                     else Some (Send (g_socket e.2) 0 (RegisterBrd [add_gate_info m gate])))
        (map_to_list (gates_ m))
  end.

Definition gate_disconnect (m : gate_master) (id : Z) : gate_master * list effect :=
  match gates_ m !! id with
  | None => (m, [])
  | Some gate =>
      let services := fold_left (fun t s => alter (set_online false) s t) (g_services gate) (services_ m) in
      let m := GateMaster (<[id := set_socket 0 gate]> (gates_ m)) services (sockets_ m) in
      (m, publish m id)
  end.

(** The end of [socket_start]. *)
Definition socket_end (m : gate_master) (socket : Z) : gate_master * list effect :=
  match sockets_ m !! socket with
  | None => (m, [])
  | Some k =>
      let '(m, es) :=
        match k_data k with
        | Some id =>
            match gates_ m !! id with
            | Some gate => if g_socket gate =? socket then gate_disconnect m id else (m, [])
            | None => (m, [])
            end
        | None => (m, [])
        end in
      (with_sockets (delete socket) m, es)
  end.

Definition close (m : gate_master) (socket : Z) : gate_master * list effect :=
  let '(m, es) := socket_end m socket in (m, Close socket :: es).

(** The keys of [services_] are [uint16_t]. *)
Definition check_services (m : gate_master) (services : list service_info) (gate : Z) : bool :=
  forallb (fun s => match services_ m !! u16 (s_id s) with
                    | Some d => sd_gate d =? gate
                    | None => true
                    end) services.

Definition add_service (gate : Z) (t : gmap Z service_data * list Z) (s : service_info) : gmap Z service_data * list Z :=
  let id := u16 (s_id s) in
  match t.1 !! id with
  | Some d => (<[id := set_online (s_online s) d]> t.1, t.2)
  | None => (<[id := ServiceData id (u16 (s_tp s)) gate (s_online s)]> t.1, t.2 ++ [id])
  end.

Definition add_services (m : gate_master) (services : list service_info) (gate : Z) : gate_master :=
  match gates_ m !! gate with
  | None => m
  | Some g =>
      let '(t, l) := fold_left (add_service gate) services (services_ m, g_services g) in
      GateMaster (<[gate := GateData (g_id g) (g_socket g) (g_addresses g) l]> (gates_ m)) t (sockets_ m)
  end.

(** A connection that has not registered a gate yet: [gates_.emplace] keeps an
    entry that is there. *)
Definition bind_gate (m : gate_master) (socket id : Z) : gate_master :=
  GateMaster
    (match gates_ m !! id with Some _ => gates_ m | None => <[id := GateData id 0 [] []]> (gates_ m) end)
    (services_ m) (alter (set_data (Some id)) socket (sockets_ m)).

(** A connection that registers its gate again, after another connection took
    the gate over: the other one is closed. *)
Definition rebind_gate (m : gate_master) (socket id : Z) : gate_master * list effect :=
  match gates_ m !! id with
  | None => (m, [])
  | Some g =>
      if g_socket g =? socket then (m, [])
      else
        match sockets_ m !! g_socket g with
        | Some _ => close (with_sockets (alter (set_data None) (g_socket g)) m) (g_socket g)
        | None => (m, [])
        end
  end.

(** The rest of [gate_register], once the gate is known. *)
Definition register_finish (m : gate_master) (socket session id : Z) (info : gate_info) : gate_master * list effect :=
  let m := GateMaster
    (alter (fun g => GateData (g_id g) socket (gi_addresses info) (g_services g)) id (gates_ m))
    (services_ m) (sockets_ m) in
  let m := add_services m (gi_services info) id in
  let others := omap (fun e => if e.1 =? id then None else Some (add_gate_info m e.2)) (map_to_list (gates_ m)) in
  (m, Send socket session (RegisterAck ec_success others) :: publish m id).

Definition gate_register (m : gate_master) (socket session : Z) (info : gate_info) : gate_master * list effect :=
  let id := u16 (gi_id info) in
  let refused := (m, [Send socket session (RegisterAck ec_system [])]) in
  if negb (check_services m (gi_services info) id) then refused
  else
    match sockets_ m !! socket with
    | None => (m, [])
    | Some k =>
        match k_data k with
        | Some old =>
            if negb (old =? id) then refused
            else
              let '(m, es) := rebind_gate m socket id in
              let '(m, es') := register_finish m socket session id info in
              (m, es ++ es')
        | None => register_finish (bind_gate m socket id) socket session id info
        end
    end.

Definition gate_upload (m : gate_master) (socket session : Z) (services : list service_info) : gate_master * list effect :=
  match sockets_ m !! socket with
  | None => (m, [])
  | Some k =>
      match k_data k with
      | None => (m, [Send socket session (UpdateAck ec_system)])
      | Some id =>
          if negb (check_services m services id) then (m, [Send socket session (UpdateAck ec_system)])
          else
            let m := add_services m services id in
            (m, Send socket session (UpdateAck ec_success) :: publish m id)
      end
  end.

Definition id_s_gate_register_req : Z := 0x4002.
Definition id_s_service_update_req : Z := 0x4004.
Definition id_s_ping_req : Z := 0x4001.

Definition auto_close_session : Z := 180.

Section events.
Context (parse_register : bytes -> option gate_info) (parse_update : bytes -> option (list service_info))
  (parse_empty : bytes -> option ()).

Definition forward_message (m : gate_master) (socket id session : Z) (buffer : bytes) : gate_master * list effect :=
  if id =? id_s_gate_register_req then
    match parse_register buffer with Some info => gate_register m socket session info | None => (m, []) end
  else if id =? id_s_service_update_req then
    match parse_update buffer with Some services => gate_upload m socket session services | None => (m, []) end
  else if id =? id_s_ping_req then
    match parse_empty buffer with Some _ => (m, [Send socket session PingAck]) | None => (m, []) end
  else (m, []).

(** What the coroutines of the gate master wake up for: a new connection, a
    message on a connection, the end of a connection, the check of a
    connection. *)
Inductive event :=
  | EvAccept (socket now : Z)
  | EvMessage (socket now id session : Z) (buffer : bytes)
  | EvClosed (socket : Z)
  | EvCheck (socket now : Z).

Definition step (m : gate_master) (e : event) : gate_master * list effect :=
  match e with
  | EvAccept socket now =>
      (match sockets_ m !! socket with
       | Some _ => m
       | None => with_sockets <[socket := SocketData socket None now]> m
       end, [])
  | EvMessage socket now id session buffer =>
      match sockets_ m !! socket with
      | None => (m, [])
      | Some _ =>
          let m := with_sockets (alter (fun k => SocketData (k_socket k) (k_data k) now) socket) m in
          forward_message m socket id session buffer
      end
  | EvClosed socket => socket_end m socket
  | EvCheck socket now =>
      match sockets_ m !! socket with
      | Some k => if auto_close_session <? now - k_last_recv k then close m socket else (m, [])
      | None => (m, [])
      end
  end.

Fixpoint run (m : gate_master) (es : list event) : gate_master * list effect :=
  match es with
  | [] => (m, [])
  | e :: es =>
      let '(m, out) := step m e in
      let '(m, out') := run m es in
      (m, out ++ out')
  end.

(** [asio] gives no socket the id zero. *)
Definition event_ok (e : event) : Prop := match e with EvAccept socket _ => socket <> 0 | _ => True end.
End events.

(** * The invariant *)

(** Every service belongs to exactly one gate, which lists it once; a connection
    that has registered has an entry for its gate; the connection a gate is
    reached by is open and registered for it (for all gates but [except]). *)
Record registry_ok (except : option Z) (m : gate_master) : Prop := {
  ok_gate id g : gates_ m !! id = Some g ->
    g_id g = id /\ NoDup (g_services g) /\
    forall s, s ∈ g_services g <-> exists d, services_ m !! s = Some d /\ sd_gate d = id;
  ok_service s d : services_ m !! s = Some d -> sd_id d = s /\ is_Some (gates_ m !! sd_gate d);
  ok_socket k c : sockets_ m !! k = Some c ->
    k_socket c = k /\ k <> 0 /\ forall id, k_data c = Some id -> is_Some (gates_ m !! id);
  ok_current id g : gates_ m !! id = Some g -> g_socket g <> 0 -> except <> Some id ->
    exists c, sockets_ m !! g_socket g = Some c /\ k_data c = Some id }.

Definition owner (d : service_data) : Z * Z := (sd_id d, sd_gate d).

(** Changing only [online] flags. *)
Lemma owner_lookup (t t' : gmap Z service_data) s d :
  (forall s, owner <$> t' !! s = owner <$> t !! s) -> t' !! s = Some d ->
  exists d0, t !! s = Some d0 /\ sd_id d0 = sd_id d /\ sd_gate d0 = sd_gate d.
Proof.
  intros H E. specialize (H s). rewrite E in H. destruct (t !! s) as [d0|]; [|done].
  injection H as H1 H2. by exists d0.
Qed.

Lemma registry_online x m t' :
  registry_ok x m -> (forall s, owner <$> t' !! s = owner <$> services_ m !! s) ->
  registry_ok x (GateMaster (gates_ m) t' (sockets_ m)).
Proof.
  intros [H1 H2 H3 H4] Ho. split; cbn; [|..|done|done].
  - intros id g Hg. destruct (H1 id g Hg) as (? & ? & Hs). split; [done|]. split; [done|]. intros s. rewrite Hs.
    split; intros (d & Hd & <-).
    + destruct (owner_lookup t' (services_ m) s d (fun s => eq_sym (Ho s)) Hd) as (d0 & ? & _ & ?). by exists d0.
    + destruct (owner_lookup (services_ m) t' s d Ho Hd) as (d0 & ? & _ & ?). by exists d0.
  - intros s d Hd. destruct (owner_lookup (services_ m) t' s d Ho Hd) as (d0 & Hd0 & <- & <-). by apply H2.
Qed.

Lemma offline_lookup (l : list Z) (t : gmap Z service_data) s :
  fold_left (fun t s => alter (set_online false) s t) l t !! s =
    (if decide (s ∈ l) then set_online false <$> t !! s else t !! s).
Proof.
  revert t. induction l as [|x l IH]; intros t; cbn [fold_left].
  - by rewrite decide_False by apply not_elem_of_nil.
  - rewrite IH. destruct (decide (s = x)) as [->|Hne].
    + rewrite (decide_True (P := x ∈ x :: l)) by apply list_elem_of_here. rewrite lookup_alter_eq.
      destruct (decide (x ∈ l)); [|done]. by destruct (t !! x).
    + rewrite lookup_alter_ne by done. destruct (decide (s ∈ l)) as [Hin|Hin].
      * by rewrite decide_True by by apply list_elem_of_further.
      * rewrite decide_False; [done|]. rewrite elem_of_cons. by intros [|].
Qed.

Lemma offline_owner (l : list Z) (t : gmap Z service_data) s :
  owner <$> fold_left (fun t s => alter (set_online false) s t) l t !! s = owner <$> t !! s.
Proof. rewrite offline_lookup. destruct (decide (s ∈ l)); [|done]. by destruct (t !! s). Qed.

(** Replacing the entry of one gate by one with the same services. *)
Lemma registry_gate x m id g g' :
  registry_ok x m -> gates_ m !! id = Some g -> g_id g' = g_id g -> g_services g' = g_services g ->
  (g_socket g' <> 0 -> x <> Some id -> exists c, sockets_ m !! g_socket g' = Some c /\ k_data c = Some id) ->
  registry_ok x (GateMaster (<[id := g']> (gates_ m)) (services_ m) (sockets_ m)).
Proof.
  intros [H1 H2 H3 H4] Hg Hid Hs Hc.
  assert (forall j, is_Some (gates_ m !! j) -> is_Some (<[id := g']> (gates_ m) !! j)) as Hsome.
  { intros j ?. rewrite lookup_insert_is_Some. destruct (decide (id = j)); auto. }
  split; cbn.
  - intros j g0 [[<- <-]|[_ Hg0]]%lookup_insert_Some; [|by apply H1]. rewrite Hid, Hs. by apply H1.
  - intros s d Hd. destruct (H2 s d Hd). auto.
  - intros k c Hk. destruct (H3 k c Hk) as (? & ? & Hd). by eauto.
  - intros j g0 [[<- <-]|[_ Hg0]]%lookup_insert_Some; [done|by apply H4].
Qed.

Lemma gate_disconnect_ok x m id : registry_ok x m -> registry_ok x (gate_disconnect m id).1.
Proof.
  intros Hok. unfold gate_disconnect. destruct (gates_ m !! id) as [g|] eqn:Hg; [|done].
  pose proof (registry_online x m _ Hok (offline_owner (g_services g) (services_ m))) as Hok1.
  by apply (registry_gate x _ id g (set_socket 0 g) Hok1).
Qed.

Lemma gate_disconnect_gates m id j :
  gates_ (gate_disconnect m id).1 !! j =
    (if decide (j = id) then set_socket 0 <$> gates_ m !! j else gates_ m !! j).
Proof.
  unfold gate_disconnect. destruct (gates_ m !! id) as [g|] eqn:Hg; cbn; destruct (decide (j = id)) as [->|].
  - by rewrite lookup_insert_eq, Hg.
  - by rewrite lookup_insert_ne.
  - by rewrite Hg.
  - done.
Qed.

Lemma gate_disconnect_sockets m id : sockets_ (gate_disconnect m id).1 = sockets_ m.
Proof. unfold gate_disconnect. by destruct (gates_ m !! id). Qed.

(** Erasing a connection no gate is reached by. *)
Lemma registry_erase x m k :
  registry_ok x m -> (forall id g, gates_ m !! id = Some g -> x <> Some id -> g_socket g = k -> k = 0) ->
  registry_ok x (with_sockets (delete k) m).
Proof.
  intros [H1 H2 H3 H4] Hk. split; cbn; [done|done|..].
  - intros k' c [_ Hc]%lookup_delete_Some. by apply H3.
  - intros id g Hg Hne Hx. destruct (H4 id g Hg Hne Hx) as (c & Hc & ?). exists c. split; [|done].
    rewrite lookup_delete_ne; [done|]. intros E. apply Hne. rewrite <- E. by eapply Hk.
Qed.

Lemma socket_end_ok m k : registry_ok None m -> registry_ok None (socket_end m k).1.
Proof.
  intros Hok. unfold socket_end. destruct (sockets_ m !! k) as [c|] eqn:Hc; [|done].
  set (r := match k_data c with Some id => _ | None => _ end).
  assert (registry_ok None r.1 /\ forall id g, gates_ r.1 !! id = Some g -> g_socket g = k -> k = 0) as [Hr Hno].
  { assert (forall id g, gates_ m !! id = Some g -> g_socket g = k -> k <> 0 -> k_data c = Some id) as Hcur.
    { intros id g Hg <- Hne. destruct (ok_current None m Hok id g Hg Hne) as (c' & Hc' & Hd); [done|]. congruence. }
    subst r. destruct (k_data c) as [id|] eqn:Hd.
    - destruct (gates_ m !! id) as [g|] eqn:Hg.
      + destruct (Z.eqb_spec (g_socket g) k) as [Hgk|Hgk].
        * split; [by apply gate_disconnect_ok|]. intros j g' Hj Hgj. rewrite gate_disconnect_gates in Hj.
          destruct (decide (j = id)) as [->|Hji]; [rewrite Hg in Hj; injection Hj as <-; by cbn in Hgj|].
          destruct (decide (k = 0)) as [|Hne]; [done|]. pose proof (Hcur j g' Hj Hgj Hne). congruence.
        * split; [done|]. cbn. intros j g' Hj Hgj. destruct (decide (k = 0)) as [|Hne]; [done|].
          pose proof (Hcur j g' Hj Hgj Hne) as [= ->]. congruence.
      + split; [done|]. cbn. intros j g' Hj Hgj. destruct (decide (k = 0)) as [|Hne]; [done|].
        pose proof (Hcur j g' Hj Hgj Hne) as [= ->]. congruence.
    - split; [done|]. cbn. intros j g' Hj Hgj. destruct (decide (k = 0)) as [|Hne]; [done|].
      pose proof (Hcur j g' Hj Hgj Hne). congruence. }
  destruct r as [m' es]. cbn in *. apply registry_erase; [done|]. intros id g Hg _. by apply (Hno id).
Qed.

Lemma close_ok m k : registry_ok None m -> registry_ok None (close m k).1.
Proof. intros Hok%(socket_end_ok _ k). unfold close. by destruct (socket_end m k). Qed.

(** ** Adding services *)

(** [services] may join [gate]. *)
Definition joinable (t : gmap Z service_data) (services : list service_info) (gate : Z) : Prop :=
  forall s d, s ∈ services -> t !! u16 (s_id s) = Some d -> sd_gate d = gate.

Lemma check_services_ok m services gate :
  check_services m services gate = true <-> joinable (services_ m) services gate.
Proof.
  unfold check_services, joinable. rewrite forallb_forall. split.
  - intros H s d Hs Hd. specialize (H s). rewrite Hd in H. apply Z.eqb_eq, H. by apply list_elem_of_In.
  - intros H s Hs%list_elem_of_In. destruct (services_ m !! u16 (s_id s)) as [d|] eqn:Hd; [|done].
    apply Z.eqb_eq. by apply (H s d).
Qed.

(** The list of [gate] and the table while services are added. *)
Record adding (gate : Z) (t0 : gmap Z service_data) (r : gmap Z service_data * list Z) : Prop := {
  add_nodup : NoDup r.2;
  add_listed s : s ∈ r.2 <-> exists d, r.1 !! s = Some d /\ sd_gate d = gate;
  add_key s d : r.1 !! s = Some d -> sd_id d = s;
  add_others s d : sd_gate d <> gate -> r.1 !! s = Some d <-> t0 !! s = Some d }.

Lemma add_service_ok gate t0 r s :
  adding gate t0 r -> joinable t0 [s] gate -> adding gate t0 (add_service gate r s).
Proof.
  intros [H1 H2 H3 H4] Hj. destruct r as [t l]. cbn in *. unfold add_service. cbn [fst snd].
  set (id := u16 (s_id s)). destruct (t !! id) as [d|] eqn:Hd.
  - assert (sd_gate d = gate) as Hg.
    { destruct (decide (sd_gate d = gate)) as [|Hne]; [done|]. apply H4 in Hd; [|done].
      by apply (Hj s d); [apply list_elem_of_here|]. }
    split; cbn; [done|..].
    + intros x. rewrite H2. destruct (decide (id = x)) as [<-|Hne]; simplify_map_eq; [|done].
      split; intros _; by eexists.
    + intros x d0 [[<- <-]|[_ ?]]%lookup_insert_Some; [by apply (H3 _ d)|by apply H3].
    + intros x d0 Hne. rewrite <- H4 by done. destruct (decide (id = x)) as [<-|Hx]; simplify_map_eq; [|done].
      split; intros [= <-]; done.
  - assert (id ∉ l) as Hl. { rewrite H2. intros (d & ? & _). congruence. }
    split; cbn.
    + apply list.NoDup_app. split; [done|]. split; [|apply NoDup_singleton].
      intros x Hx ->%list_elem_of_singleton. done.
    + intros x. rewrite elem_of_app, list_elem_of_singleton, H2.
      destruct (decide (id = x)) as [<-|Hne]; simplify_map_eq;
        [split; [intros _; by eexists|by right]|]. split; [intros [?|?]; [done|congruence]|by left].
    + intros x d0 [[<- <-]|[_ ?]]%lookup_insert_Some; [done|by apply H3].
    + intros x d0 Hne. rewrite <- H4 by done. destruct (decide (id = x)) as [<-|Hx]; simplify_map_eq; [|done].
      split; [intros [= <-]; done|congruence].
Qed.

Lemma add_services_fold gate t0 services : forall r,
  adding gate t0 r -> joinable t0 services gate -> adding gate t0 (fold_left (add_service gate) services r).
Proof.
  induction services as [|s services IH]; intros r Hr Hj; [done|]. cbn [fold_left]. apply IH.
  - apply add_service_ok; [done|]. intros s' d ->%list_elem_of_singleton. apply Hj, list_elem_of_here.
  - intros s' d Hs'. apply Hj. by apply list_elem_of_further.
Qed.

Lemma adding_start x m gate g :
  registry_ok x m -> gates_ m !! gate = Some g -> adding gate (services_ m) (services_ m, g_services g).
Proof.
  intros Hok Hg. destruct (ok_gate x m Hok gate g Hg) as (_ & Hn & Hs). split; cbn; [done|done|..|done].
  intros s d Hd. by apply (ok_service x m Hok).
Qed.

Lemma add_services_ok x m services gate :
  registry_ok x m -> joinable (services_ m) services gate -> registry_ok x (add_services m services gate).
Proof.
  intros Hok Hj. unfold add_services. destruct (gates_ m !! gate) as [g|] eqn:Hg; [|done].
  pose proof (add_services_fold gate (services_ m) services _ (adding_start x m gate g Hok Hg) Hj) as Ha.
  destruct (fold_left (add_service gate) services (services_ m, g_services g)) as [t l].
  destruct Ha as [A1 A2 A3 A4]. cbn in *. destruct Hok as [H1 H2 H3 H4].
  assert (forall j, is_Some (gates_ m !! j) -> forall g', is_Some (<[gate := g']> (gates_ m) !! j)) as Hsome.
  { intros j ? g'. rewrite lookup_insert_is_Some. destruct (decide (gate = j)); auto. }
  split; cbn.
  - intros id g0 [[<- <-]|[Hne Hg0]]%lookup_insert_Some.
    + destruct (H1 gate g Hg) as (-> & _). done.
    + destruct (H1 id g0 Hg0) as (? & ? & Hs). split; [done|]. split; [done|]. intros s. rewrite Hs.
      split; intros (d & Hd & Hdg); exists d; (split; [|done]); apply A4; congruence.
  - intros s d Hd. split; [by apply A3|]. destruct (decide (sd_gate d = gate)) as [->|Hne].
    + rewrite lookup_insert_eq. by eexists.
    + apply Hsome. apply A4 in Hd; [|done]. by apply (H2 s).
  - intros k c Hk. destruct (H3 k c Hk) as (? & ? & Hd). by eauto.
  - intros id g0 [[<- <-]|[Hne Hg0]]%lookup_insert_Some; [by apply (H4 gate g Hg)|by apply H4].
Qed.

(** ** The handlers *)

Lemma bind_gate_gates m socket id j g :
  gates_ (bind_gate m socket id) !! j = Some g ->
  gates_ m !! j = Some g \/ (gates_ m !! id = None /\ j = id /\ g = GateData id 0 [] []).
Proof.
  cbn. destruct (gates_ m !! id) eqn:E; [by left|]. intros [[<- <-]|[_ ?]]%lookup_insert_Some; auto.
Qed.

Lemma bind_gate_keeps m socket id j :
  is_Some (gates_ m !! j) \/ j = id -> is_Some (gates_ (bind_gate m socket id) !! j).
Proof.
  cbn. destruct (gates_ m !! id) eqn:E; [by intros [?| ->]; [|rewrite E]|].
  intros [Hj| ->]; apply lookup_insert_is_Some; [|by left]. destruct (decide (id = j)); auto.
Qed.

Lemma bind_gate_ok m socket id c :
  registry_ok None m -> sockets_ m !! socket = Some c -> k_data c = None -> registry_ok None (bind_gate m socket id).
Proof.
  intros Hok Hc Hn. pose proof Hok as [H1 H2 H3 H4]. split.
  - intros j g [Hg|(Hno & -> & ->)]%bind_gate_gates; [by apply H1|]. split; [done|]. split; [constructor|]. intros s.
    split; [by intros ?%elem_of_nil|]. intros (d & Hd & <-). destruct (H2 s d Hd) as [_ [? ?]]. congruence.
  - intros s d Hd. destruct (H2 s d Hd). split; [done|]. apply bind_gate_keeps. by left.
  - intros k c' Hk. cbn in Hk. apply lookup_alter_Some in Hk as [(<- & c0 & Hc0 & ->)|[_ Hk]].
    + destruct (H3 socket c0 Hc0) as (? & ? & _). split; [done|]. split; [done|]. intros j [= <-].
      apply bind_gate_keeps. by right.
    + destruct (H3 k c' Hk) as (? & ? & Hd). split; [done|]. split; [done|]. intros j Hj. apply bind_gate_keeps. left. by apply Hd.
  - intros j g [Hg|(Hno & -> & ->)]%bind_gate_gates Hne _; [|done].
    destruct (H4 j g Hg Hne) as (c0 & Hc0 & Hd); [done|]. exists c0. split; [|done]. cbn.
    rewrite lookup_alter_ne; [done|]. intros E. congruence.
Qed.

Lemma rebind_gate_ok m socket id c :
  registry_ok None m -> sockets_ m !! socket = Some c -> k_data c = Some id ->
  let m' := (rebind_gate m socket id).1 in
  registry_ok (Some id) m' /\ services_ m' = services_ m /\ gates_ m' = gates_ m /\ sockets_ m' !! socket = Some c.
Proof.
  intros Hok Hc Hd. pose proof Hok as [H1 H2 H3 H4].
  assert (registry_ok (Some id) m) as Hw by (split; [done..|intros; by apply H4]).
  unfold rebind_gate. destruct (gates_ m !! id) as [g|] eqn:Hg; [|done].
  destruct (Z.eqb_spec (g_socket g) socket) as [|Hne]; [done|].
  destruct (sockets_ m !! g_socket g) as [c'|] eqn:Hc'; [|done].
  unfold close, socket_end. cbn. rewrite lookup_alter_eq, Hc'. cbn.
  split; [|split; [done|split; [done|by rewrite lookup_delete_ne, lookup_alter_ne]]].
  split; cbn; [done|done|..].
  - intros k c0 [Hk Hc0]%lookup_delete_Some. rewrite lookup_alter_ne in Hc0 by done. by apply H3.
  - intros j g' Hj Hnz Hx. destruct (H4 j g' Hj Hnz) as (c0 & Hc0 & Hd0); [done|].
    assert (g_socket g' <> g_socket g) as Hdiff.
    { intros E. destruct (H4 id g Hg) as (c1 & Hc1 & Hd1); [congruence|done|]. congruence. }
    exists c0. by rewrite lookup_delete_ne, lookup_alter_ne.
Qed.

Lemma register_finish_ok x m socket session id info c :
  registry_ok x m -> x = None \/ x = Some id -> sockets_ m !! socket = Some c -> k_data c = Some id ->
  joinable (services_ m) (gi_services info) id ->
  registry_ok None (register_finish m socket session id info).1.
Proof.
  intros Hok Hx Hc Hd Hj. unfold register_finish. cbn [fst]. apply add_services_ok; [|done].
  destruct (ok_socket x m Hok socket c Hc) as (_ & _ & Hg). destruct (Hg id Hd) as [g Hgid].
  set (g' := GateData (g_id g) socket (gi_addresses info) (g_services g)).
  assert (alter (fun g => GateData (g_id g) socket (gi_addresses info) (g_services g)) id (gates_ m) = <[id := g']> (gates_ m)) as ->.
  { apply map_eq. intros j. destruct (decide (id = j)) as [<-|Hne].
    - by rewrite lookup_alter_eq, lookup_insert_eq, Hgid.
    - by rewrite lookup_alter_ne, lookup_insert_ne. }
  assert (registry_ok x (GateMaster (<[id := g']> (gates_ m)) (services_ m) (sockets_ m))) as [H1 H2 H3 H4].
  { apply (registry_gate x m id g g'); [done..|]. intros _ _. by exists c. }
  split; [done..|]. intros j g0 Hj0 Hnz _. cbn in *. destruct (decide (id = j)) as [<-|Hne].
  - rewrite lookup_insert_eq in Hj0. injection Hj0 as <-. by exists c.
  - apply H4; [done|done|]. destruct Hx as [->| ->]; congruence.
Qed.

Lemma gate_register_ok m socket session info :
  registry_ok None m -> registry_ok None (gate_register m socket session info).1.
Proof.
  intros Hok. unfold gate_register. set (id := u16 (gi_id info)).
  destruct (check_services m (gi_services info) id) eqn:Hch; cbn [negb]; [|done]. apply check_services_ok in Hch.
  destruct (sockets_ m !! socket) as [c|] eqn:Hc; [|done]. destruct (k_data c) as [old|] eqn:Hd.
  - destruct (Z.eqb_spec old id) as [->|]; cbn [negb]; [|done].
    destruct (rebind_gate_ok m socket id c Hok Hc Hd) as (Hr & Hs & Hg & Hc').
    destruct (rebind_gate m socket id) as [m1 es1]. cbn in *.
    assert (joinable (services_ m1) (gi_services info) id) as Hj by by rewrite Hs.
    pose proof (register_finish_ok (Some id) m1 socket session id info c Hr (or_intror eq_refl) Hc' Hd Hj) as H.
    exact H.
  - apply (register_finish_ok None _ socket session id info (set_data (Some id) c)); [by eapply bind_gate_ok|by left| |done|done].
    cbn. by rewrite lookup_alter_eq, Hc.
Qed.

Lemma gate_upload_ok m socket session services :
  registry_ok None m -> registry_ok None (gate_upload m socket session services).1.
Proof.
  intros Hok. unfold gate_upload. destruct (sockets_ m !! socket) as [c|]; [|done].
  destruct (k_data c) as [id|]; [|done]. destruct (check_services m services id) eqn:Hch; cbn [negb]; [|done].
  apply add_services_ok; [done|]. by apply check_services_ok.
Qed.

Lemma registry_sockets m f :
  registry_ok None m -> (forall k, k_socket (f k) = k_socket k /\ k_data (f k) = k_data k) ->
  forall k, registry_ok None (with_sockets (alter f k) m).
Proof.
  intros [H1 H2 H3 H4] Hf k. split; cbn; [done|done|..].
  - intros j c [(<- & c0 & Hc0 & ->)|[_ Hc]]%lookup_alter_Some; [|by apply H3].
    destruct (Hf c0) as [-> ->]. by apply H3.
  - intros id g Hg Hne Hx. destruct (H4 id g Hg Hne Hx) as (c & Hc & Hd). destruct (decide (k = g_socket g)) as [->|].
    + exists (f c). rewrite lookup_alter_eq, Hc. by destruct (Hf c) as [_ ->].
    + exists c. by rewrite lookup_alter_ne.
Qed.

Section steps.
Context (parse_register : bytes -> option gate_info) (parse_update : bytes -> option (list service_info))
  (parse_empty : bytes -> option ()).

Lemma step_ok m e :
  registry_ok None m -> event_ok e -> registry_ok None (step parse_register parse_update parse_empty m e).1.
Proof.
  intros Hok He. destruct e as [k now|k now id session buffer|k|k now]; cbn [step].
  - destruct (sockets_ m !! k) eqn:Hk; [done|]. destruct Hok as [H1 H2 H3 H4]. split; cbn; [done|done|..].
    + intros j c [[<- <-]|[_ Hc]]%lookup_insert_Some; [by split|by apply H3].
    + intros id g Hg Hne Hx. destruct (H4 id g Hg Hne Hx) as (c & Hc & Hd). exists c.
      rewrite lookup_insert_ne by congruence. done.
  - destruct (sockets_ m !! k) eqn:Hk; [|done].
    assert (registry_ok None (with_sockets (alter (fun c => SocketData (k_socket c) (k_data c) now) k) m)) as Hok'
      by by apply registry_sockets.
    unfold forward_message. repeat case_match; try done; [by apply gate_register_ok|by apply gate_upload_ok].
  - by apply socket_end_ok.
  - destruct (sockets_ m !! k) as [c|]; [|done]. destruct (_ <? _); [by apply close_ok|done].
Qed.

Lemma run_ok es : forall m,
  registry_ok None m -> Forall event_ok es -> registry_ok None (run parse_register parse_update parse_empty m es).1.
Proof.
  induction es as [|e es IH]; intros m Hok He; [done|]. apply list.Forall_cons in He as [He Hes]. cbn [run].
  pose proof (step_ok m e Hok He) as H1. destruct (step parse_register parse_update parse_empty m e) as [m1 out].
  specialize (IH m1 H1 Hes). by destruct (run parse_register parse_update parse_empty m1 es).
Qed.
End steps.

Lemma registry_new : registry_ok None gate_master_new.
Proof.
  split; cbn.
  - intros id g H. by rewrite lookup_empty in H.
  - intros id g H. by rewrite lookup_empty in H.
  - intros id g H. by rewrite lookup_empty in H.
  - intros id g H. by rewrite lookup_empty in H.
Qed.


(** ** What the handlers do *)

(** The last flag [services] give for the service [s]. *)
Definition reported (services : list service_info) (s : Z) : option bool :=
  fold_left (fun o x => if u16 (s_id x) =? s then Some (s_online x) else o) services None.

(** The table after the report [o] for one service. *)
Definition after_report (gate : Z) (old new : option service_data) (o : option bool) : Prop :=
  match o with
  | None => new = old
  | Some b => exists d, new = Some d /\ sd_gate d = gate /\ sd_online d = b
  end.

Lemma add_service_lookup gate r x s :
  (add_service gate r x).1 !! s =
    (if u16 (s_id x) =? s
     then Some (match r.1 !! s with
                | Some d => set_online (s_online x) d
                | None => ServiceData s (u16 (s_tp x)) gate (s_online x)
                end)
     else r.1 !! s).
Proof.
  unfold add_service. destruct r as [t l]. cbn [fst snd].
  destruct (Z.eqb_spec (u16 (s_id x)) s) as [<-|Hne].
  - destruct (t !! u16 (s_id x)); cbn; by rewrite lookup_insert_eq.
  - destruct (t !! u16 (s_id x)); cbn; by rewrite lookup_insert_ne.
Qed.

Lemma add_service_fold_lookup gate old s services : forall r o,
  after_report gate old (r.1 !! s) o ->
  (forall d, r.1 !! s = Some d -> s ∈ (fun x => u16 (s_id x)) <$> services -> sd_gate d = gate) ->
  after_report gate old ((fold_left (add_service gate) services r).1 !! s)
    (fold_left (fun o x => if u16 (s_id x) =? s then Some (s_online x) else o) services o).
Proof.
  induction services as [|x services IH]; intros r o Hr Hj; [done|]. cbn [fold_left]. apply IH.
  - rewrite add_service_lookup. destruct (Z.eqb_spec (u16 (s_id x)) s) as [E|]; [|done].
    eexists. split; [done|]. destruct (r.1 !! s) as [d|]; [|done]. split; [|done].
    apply (Hj d); [done|]. rewrite fmap_cons, <- E. apply list_elem_of_here.
  - intros d. rewrite add_service_lookup. destruct (Z.eqb_spec (u16 (s_id x)) s) as [E|].
    + intros [= <-] _. destruct (r.1 !! s) as [d|]; [|done]. apply (Hj d); [done|].
      rewrite fmap_cons, <- E. apply list_elem_of_here.
    + intros Hd Hs. apply (Hj d); [done|]. rewrite fmap_cons. by apply list_elem_of_further.
Qed.

Lemma add_services_lookup m services gate g s :
  gates_ m !! gate = Some g -> joinable (services_ m) services gate ->
  after_report gate (services_ m !! s) (services_ (add_services m services gate) !! s) (reported services s).
Proof.
  intros Hg Hj. unfold add_services, reported. rewrite Hg.
  pose proof (add_service_fold_lookup gate (services_ m !! s) s services (services_ m, g_services g) None eq_refl) as H.
  destruct (fold_left (add_service gate) services _) as [t l]. apply H. intros d Hd Hs. cbn in Hd.
  apply list_elem_of_fmap in Hs as (x & -> & Hx). by apply (Hj x d).
Qed.

Lemma add_services_gates m services gate j :
  j <> gate -> gates_ (add_services m services gate) !! j = gates_ m !! j.
Proof.
  intros Hne. unfold add_services. destruct (gates_ m !! gate); [|done].
  destruct (fold_left _ _ _). cbn. by rewrite lookup_insert_ne.
Qed.

Lemma add_services_gate m services gate g :
  gates_ m !! gate = Some g ->
  exists l, gates_ (add_services m services gate) !! gate = Some (GateData (g_id g) (g_socket g) (g_addresses g) l).
Proof.
  intros Hg. unfold add_services. rewrite Hg. destruct (fold_left _ _ _) as [t l]. exists l. cbn.
  by rewrite lookup_insert_eq.
Qed.

(** The messages of [publish]: one to every other gate that is connected. *)
Lemma publish_spec m id g e :
  gates_ m !! id = Some g ->
  e ∈ publish m id <->
  exists j g', j <> id /\ gates_ m !! j = Some g' /\ g_socket g' <> 0 /\
    e = Send (g_socket g') 0 (RegisterBrd [add_gate_info m g]).
Proof.
  intros Hg. unfold publish. rewrite Hg, list_elem_of_omap. split.
  - intros ([j g'] & Hin & He). apply elem_of_map_to_list in Hin. cbn in He.
    destruct (Z.eqb_spec (g_socket g') 0); [done|]. destruct (Z.eqb_spec j id); [done|]. cbn in He.
    exists j, g'. split_and!; [done..|congruence].
  - intros (j & g' & Hne & Hj & Hnz & ->). exists (j, g'). split; [by apply elem_of_map_to_list|]. cbn.
    apply Z.eqb_neq in Hne, Hnz. by rewrite Hne, Hnz.
Qed.

(** * Theorems *)

(** C35: whatever the gates send and whenever their connections come and go,
    every service the gate master knows belongs to exactly one gate, which
    lists it once; a registered connection names a gate of the table; and the
    connection a gate is reached by is open and registered for that gate. *)
Theorem gate_master_invariant parse_register parse_update parse_empty (es : list event) :
  Forall event_ok es ->
  registry_ok None (run parse_register parse_update parse_empty gate_master_new es).1.
Proof. intros He. by apply run_ok, He; apply registry_new. Qed.

(** The connection closed because the gate [id] is back on [socket]. *)
Definition displaced (m : gate_master) (socket id : Z) : list effect :=
  match k_data <$> sockets_ m !! socket, gates_ m !! id with
  | Some (Some _), Some g =>
      if g_socket g =? socket then []
      else match sockets_ m !! g_socket g with Some _ => [Close (g_socket g)] | None => [] end
  | _, _ => []
  end.

(** The state and the messages of an accepted registration. *)
Record registered (m m' : gate_master) (socket session id : Z) (info : gate_info) (closed es : list effect) : Prop := {
  reg_gate : exists l, gates_ m' !! id = Some (GateData id socket (gi_addresses info) l);
  reg_others j : j <> id -> gates_ m' !! j = gates_ m !! j;
  reg_services s : after_report id (services_ m !! s) (services_ m' !! s) (reported (gi_services info) s);
  reg_effects : exists others brd,
    es = closed ++ Send socket session (RegisterAck ec_success others) :: brd /\
    (forall i, i ∈ others <-> exists j g, j <> id /\ gates_ m !! j = Some g /\ i = add_gate_info m' g) /\
    forall e, e ∈ brd <-> exists j g g', j <> id /\ gates_ m !! j = Some g /\ g_socket g <> 0 /\
      gates_ m' !! id = Some g' /\ e = Send (g_socket g) 0 (RegisterBrd [add_gate_info m' g']) }.

Lemma register_finish_registered m socket session id info g :
  gates_ m !! id = Some g -> g_id g = id -> joinable (services_ m) (gi_services info) id ->
  let r := register_finish m socket session id info in
  registered m r.1 socket session id info [] r.2.
Proof.
  intros Hg Hid Hj. unfold register_finish. cbn [fst snd].
  set (m1 := GateMaster (alter _ id (gates_ m)) (services_ m) (sockets_ m)).
  set (m2 := add_services m1 (gi_services info) id).
  assert (gates_ m1 !! id = Some (GateData id socket (gi_addresses info) (g_services g))) as Hg1.
  { cbn. by rewrite lookup_alter_eq, Hg, <- Hid. }
  destruct (add_services_gate m1 (gi_services info) id _ Hg1) as [l Hl]. fold m2 in Hl. cbn in Hl.
  assert (forall j, j <> id -> gates_ m2 !! j = gates_ m !! j) as Ho.
  { intros j Hne. unfold m2. rewrite add_services_gates by done. cbn. by rewrite lookup_alter_ne. }
  split; [by exists l|done|intros s; by apply (add_services_lookup m1 _ _ _ s Hg1)|].
  eexists _, (publish m2 id). split; [done|]. split.
  - intros i. rewrite list_elem_of_omap. split.
    + intros ([j g'] & Hin & Hi). apply elem_of_map_to_list in Hin. cbn in Hi.
      destruct (Z.eqb_spec j id); [done|]. exists j, g'. rewrite <- Ho by done. split_and!; [done..|congruence].
    + intros (j & g' & Hne & Hj' & ->). exists (j, g'). rewrite <- Ho in Hj' by done.
      split; [by apply elem_of_map_to_list|]. cbn. apply Z.eqb_neq in Hne. by rewrite Hne.
  - intros e. rewrite (publish_spec m2 id _ e Hl). split.
    + intros (j & g' & Hne & Hj' & Hnz & ->). rewrite Ho in Hj' by done. by eexists j, g', _.
    + intros (j & g' & g'' & Hne & Hj' & Hnz & Hl' & ->). rewrite Hl in Hl'. injection Hl' as <-.
      exists j, g'. by rewrite Ho.
Qed.

Lemma rebind_gate_effects m socket id c :
  registry_ok None m -> sockets_ m !! socket = Some c -> k_data c = Some id ->
  let r := rebind_gate m socket id in
  gates_ r.1 = gates_ m /\ services_ r.1 = services_ m /\ r.2 = displaced m socket id.
Proof.
  intros Hok Hc Hd. destruct (rebind_gate_ok m socket id c Hok Hc Hd) as (_ & Hs & Hgs & _).
  split; [done|]. split; [done|]. unfold rebind_gate, displaced. rewrite Hc. cbn. rewrite Hd.
  destruct (gates_ m !! id) as [g|]; [|done].
  destruct (g_socket g =? socket); [done|]. destruct (sockets_ m !! g_socket g) eqn:Hk; [|done].
  unfold close, socket_end. cbn. by rewrite lookup_alter_eq, Hk.
Qed.

(** What is registered from [m1], a change of [m] that leaves the other gates
    and the services alone, is registered from [m]. *)
Lemma registered_ext m m1 m' socket session id info closed es :
  registered m1 m' socket session id info [] es -> services_ m1 = services_ m ->
  (forall j, j <> id -> gates_ m1 !! j = gates_ m !! j) ->
  registered m m' socket session id info closed (closed ++ es).
Proof.
  intros [R1 R2 R3 (others & brd & -> & Ho & Hb)] Hs Hg. split; [done|..].
  - intros j Hne. by rewrite R2, Hg.
  - intros s. rewrite <- Hs. done.
  - exists others, brd. split; [done|]. split.
    + intros i. rewrite Ho. split; intros (j & g & Hne & Hj & ->); exists j, g; rewrite Hg in *; auto.
    + intros e. rewrite Hb. split; intros (j & g & g' & Hne & Hj & Hr); exists j, g, g'; rewrite Hg in *; auto.
Qed.

(** A registration by a connection that is free, or bound to this very
    gate, of services that no other gate has, is accepted: the gate is reached
    by this connection and has the addresses sent; the services reported are
    those of the gate, with the state reported last, and every other service
    and gate is as it was; the sender gets all the other gates, and every
    other connected gate, and nobody else, is told. *)
Theorem register_accepted (m : gate_master) (socket session : Z) (info : gate_info) (c : socket_data) :
  let id := u16 (gi_id info) in
  registry_ok None m -> sockets_ m !! socket = Some c -> k_data c = None \/ k_data c = Some id ->
  joinable (services_ m) (gi_services info) id ->
  let r := gate_register m socket session info in
  registered m r.1 socket session id info (displaced m socket id) r.2.
Proof.
  intros id Hok Hc Hd Hj. unfold gate_register. fold id.
  rewrite (proj2 (check_services_ok m (gi_services info) id) Hj). cbn [negb]. rewrite Hc.
  destruct Hd as [Hd|Hd]; rewrite Hd.
  - set (m1 := bind_gate m socket id).
    assert (exists g, gates_ m1 !! id = Some g /\ g_id g = id) as (g & Hg & Hgid).
    { cbn. destruct (gates_ m !! id) as [g|] eqn:E; [|by rewrite lookup_insert_eq; eexists].
      exists g. split; [done|]. apply (ok_gate None m Hok id g E). }
    assert (displaced m socket id = []) as -> by (unfold displaced; rewrite Hc; cbn; by rewrite Hd).
    apply (registered_ext m m1 _ _ _ _ _ []); [by eapply register_finish_registered|done|].
    intros j Hne. cbn. destruct (gates_ m !! id); [done|]. by rewrite lookup_insert_ne.
  - rewrite Z.eqb_refl. cbn [negb]. destruct (ok_socket None m Hok socket c Hc) as (_ & _ & Hk).
    destruct (Hk id Hd) as [g Hg]. destruct (rebind_gate_effects m socket id c Hok Hc Hd) as (Hgs & Hs & He).
    destruct (rebind_gate m socket id) as [m1 es]. cbn [fst snd] in *. subst es.
    pose proof (register_finish_registered m1 socket session id info g) as H.
    destruct (register_finish m1 socket session id info) as [m2 es2]. cbn [fst snd] in *.
    apply (registered_ext m m1); [|done|by rewrite Hgs]. apply H; [by rewrite Hgs|apply (ok_gate None m Hok id g Hg)|by rewrite Hs].
Qed.

(** When a connection ends it is forgotten. If it was the one its gate is
    reached by, the gate has no connection any more, its services and no
    others are offline, and every other connected gate, and nobody else, is
    told; the end of a connection that another has replaced changes nothing
    else and tells nobody. *)
Theorem connection_lost (m : gate_master) (k id : Z) (c : socket_data) (g : gate_data) :
  registry_ok None m -> sockets_ m !! k = Some c -> k_data c = Some id -> gates_ m !! id = Some g ->
  let m' := (socket_end m k).1 in
  sockets_ m' = delete k (sockets_ m) /\
  (g_socket g = k ->
     gates_ m' = <[id := set_socket 0 g]> (gates_ m) /\
     (forall s, services_ m' !! s =
        (d ← services_ m !! s; Some (if sd_gate d =? id then set_online false d else d))) /\
     forall e, e ∈ (socket_end m k).2 <->
       exists j g', j <> id /\ gates_ m !! j = Some g' /\ g_socket g' <> 0 /\
         e = Send (g_socket g') 0 (RegisterBrd [add_gate_info m' (set_socket 0 g)])) /\
  (g_socket g <> k -> gates_ m' = gates_ m /\ services_ m' = services_ m /\ (socket_end m k).2 = []).
Proof.
  intros Hok Hc Hd Hg. unfold socket_end. rewrite Hc, Hd, Hg.
  destruct (Z.eqb_spec (g_socket g) k) as [Hk|Hk]; cbn [fst snd]; [|by split_and!].
  unfold gate_disconnect. rewrite Hg. cbn [fst snd sockets_ gates_ services_ with_sockets]. split; [done|].
  split; [|done]. intros _. split; [done|]. split.
  - intros s. rewrite offline_lookup. destruct (ok_gate None m Hok id g Hg) as (_ & _ & Hs).
    destruct (services_ m !! s) as [d|] eqn:Hsd; cbn; [|by destruct (decide _)].
    destruct (Z.eqb_spec (sd_gate d) id) as [E|E].
    + rewrite decide_True; [done|]. apply Hs. by exists d.
    + rewrite decide_False; [done|]. rewrite Hs. intros (d' & Hd' & <-). congruence.
  - intros e. set (m1 := GateMaster _ _ (sockets_ m)).
    rewrite (publish_spec m1 id (set_socket 0 g) e) by (cbn; by rewrite lookup_insert_eq). cbn [gates_ m1].
    split; intros (j & g' & Hne & Hj & Hnz & ->); exists j, g'.
    + rewrite lookup_insert_ne in Hj by done. done.
    + by rewrite lookup_insert_ne.
Qed.

(** ** Two gates: the gate 7 with the service 100 on the connection 1, the
    gate 8 on the connection 2. *)

Definition no_parse {A : Type} (b : bytes) : option A := None.

(** A message is one byte, the number of the gate that registers. *)
Definition demo_register (b : bytes) : option gate_info :=
  match b with
  | [7] => Some (GateInfo 7 [] [ServiceInfo 100 3 true])
  | [id] => Some (GateInfo id [] [])
  | _ => None
  end.

Definition demo_update (b : bytes) : option (list service_info) := Some [ServiceInfo 100 3 true].

Definition demo_events : list event :=
  [EvAccept 1 10; EvAccept 2 10; EvMessage 1 11 id_s_gate_register_req 1 [7];
   EvMessage 2 12 id_s_gate_register_req 1 [8]].

Definition demo : gate_master := (run demo_register no_parse no_parse gate_master_new demo_events).1.

Lemma demo_ok : registry_ok None demo.
Proof. apply run_ok; [apply registry_new|]. repeat constructor; done. Qed.

Lemma gate_master_invariant_witness :
  Forall event_ok demo_events /\ registry_ok None (run demo_register no_parse no_parse gate_master_new demo_events).1.
Proof.
  assert (Forall event_ok demo_events) as H by (repeat constructor; done).
  split; [exact H|]. apply (gate_master_invariant demo_register no_parse no_parse demo_events H).
Defined.

Definition demo_info : gate_info := GateInfo 8 [] [ServiceInfo 200 4 true].

Lemma register_accepted_witness :
  let r := gate_register demo 2 5 demo_info in
  registered demo r.1 2 5 8 demo_info (displaced demo 2 8) r.2.
Proof.
  refine (register_accepted demo 2 5 demo_info (SocketData 2 (Some 8) 12) demo_ok _ _ _).
  - vm_compute. reflexivity.
  - right. vm_compute. reflexivity.
  - apply check_services_ok. vm_compute. reflexivity.
Defined.

Lemma connection_lost_witness :
  exists c g, sockets_ demo !! 1 = Some c /\ gates_ demo !! 7 = Some g /\ g_socket g = 1 /\
  sockets_ (socket_end demo 1).1 = delete 1 (sockets_ demo).
Proof.
  exists (SocketData 1 (Some 7) 11), (GateData 7 1 [] [100]).
  split; [vm_compute; reflexivity|]. split; [vm_compute; reflexivity|]. split; [reflexivity|].
  refine (proj1 (connection_lost demo 1 7 (SocketData 1 (Some 7) 11) (GateData 7 1 [] [100]) demo_ok _ _ _));
    vm_compute; reflexivity.
Defined.

(** A connection that registers a gate another connection has does not close
    that one (no message, and the table still has it), which can go on
    reporting services as online after the gate is gone. *)
Lemma takeover_keeps_connection :
  let events := [EvAccept 1 10; EvMessage 1 11 id_s_gate_register_req 1 [7]; EvAccept 2 12;
                 EvMessage 2 13 id_s_gate_register_req 1 [7]] in
  let later := [EvClosed 2; EvMessage 1 15 id_s_service_update_req 2 []] in
  let step_to m es := run demo_register demo_update no_parse m es in
  let m := (step_to gate_master_new events).1 in
  let m' := (step_to m later).1 in
  (step_to gate_master_new events).2 =
    [Send 1 1 (RegisterAck ec_success []); Send 2 1 (RegisterAck ec_success [])] /\
  is_Some (sockets_ m !! 1) /\
  (g_socket <$> gates_ m' !! 7 = Some 0) /\ (sd_online <$> services_ m' !! 100 = Some true).
Proof. vm_compute. split_and!; [done|by eexists|done|done]. Qed.
