(* ===== verification/AwaiterList.v ===== *)
(** The intrusive doubly linked lists of the coroutine library: awaiters and
    registrations carry their own [next_] and [prev_] pointers, so a list is a
    header, a tail and a shared store of links. [mutex_state] and
    [condition_variable_state] (src/runtime/src/coro/mutex.cpp and
    condition_variable.cpp) have the same code for adding and removing, given
    once here. An object that is not in the store does not exist: touching it
    is [None]. *)

From stdpp Require Import gmap.
From S2P Require Import Prelude.

(** * The store *)

Record links := Links { next_ : option nat; prev_ : option nat }.

Definition unlinked : links := Links None None.

Abbreviation store := (gmap nat links).

Definition set_next (a : nat) (v : option nat) (st : store) : option store :=
  l ← st !! a; Some (<[a := Links v (prev_ l)]> st).

Definition set_prev (a : nat) (v : option nat) (st : store) : option store :=
  l ← st !! a; Some (<[a := Links (next_ l) v]> st).

(** [if (p) p->next_ = v] and [if (p) p->prev_ = v]. *)
Definition set_next_of (p v : option nat) (st : store) : option store :=
  match p with Some a => set_next a v st | None => Some st end.

Definition set_prev_of (p v : option nat) (st : store) : option store :=
  match p with Some a => set_prev a v st | None => Some st end.

(** * A list with both ends *)

Record queue := Queue { header_ : option nat; tail_ : option nat; nodes : store }.

Definition add_awaiter (q : queue) (a : nat) : option queue :=
  l ← nodes q !! a;
  if bool_decide (is_Some (next_ l)) || bool_decide (header_ q = Some a) then Some q
  else if bool_decide (is_Some (prev_ l)) || bool_decide (tail_ q = Some a) then Some q
  else
    st ← set_next a None (nodes q);
    st ← set_prev a (tail_ q) st;
    st ← set_next_of (tail_ q) (Some a) st;
    Some (Queue (match header_ q with None => Some a | h => h end) (Some a) st).

Definition remove_awaiter (q : queue) (a : nat) : option queue :=
  l ← nodes q !! a;
  let header := if bool_decide (header_ q = Some a) then next_ l else header_ q in
  let tail := if bool_decide (tail_ q = Some a) then prev_ l else tail_ q in
  st ← set_next_of (prev_ l) (next_ l) (nodes q);
  l ← st !! a;
  st ← set_prev_of (next_ l) (prev_ l) st;
  st ← set_next a None st;
  st ← set_prev a None st;
  Some (Queue header tail st).

(** * What a store represents *)

Definition first_of (l : list nat) (n : option nat) : option nat := match l with [] => n | a :: _ => Some a end.

Definition last_of (p : option nat) (l : list nat) : option nat := match list.last l with Some a => Some a | None => p end.

(** The objects of [l] are linked in this order, between [p] and [n]. *)
Fixpoint segment (st : store) (p : option nat) (l : list nat) (n : option nat) : Prop :=
  match l with
  | [] => True
  | a :: l => st !! a = Some (Links (first_of l n) p) /\ segment st (Some a) l n
  end.

(** [q] is the list [l], and no other object is linked. *)
Record list_at (q : queue) (l : list nat) : Prop := {
  at_nodup : NoDup l;
  at_header : header_ q = first_of l None;
  at_tail : tail_ q = last_of None l;
  at_linked : segment (nodes q) None l None;
  at_free a k : nodes q !! a = Some k -> a ∉ l -> k = unlinked }.

(** ** Segments *)

Lemma first_of_app l1 l2 n : first_of (l1 ++ l2) n = first_of l1 (first_of l2 n).
Proof. by destruct l1. Qed.

Lemma last_of_cons p a l : last_of p (a :: l) = last_of (Some a) l.
Proof. unfold last_of. by destruct l as [|b l]; [|rewrite last_cons_cons; destruct (list.last (b :: l)) eqn:E; [|by apply last_None in E]]. Qed.

Lemma last_of_snoc p l a : last_of p (l ++ [a]) = Some a.
Proof. unfold last_of. by rewrite last_snoc. Qed.

Lemma segment_app st p l1 l2 n :
  segment st p (l1 ++ l2) n <-> segment st p l1 (first_of l2 n) /\ segment st (last_of p l1) l2 n.
Proof.
  revert p. induction l1 as [|a l1 IH]; intros p; cbn [segment app]; [cbn; tauto|].
  rewrite first_of_app, IH, last_of_cons. tauto.
Qed.

Lemma segment_frame st st' p l n :
  segment st p l n -> (forall a, a ∈ l -> st' !! a = st !! a) -> segment st' p l n.
Proof.
  revert p. induction l as [|a l IH]; intros p; cbn [segment]; [done|]. intros [Ha Hl] Hst. split.
  - rewrite Hst; [done|apply list_elem_of_here].
  - apply IH; [done|]. intros b Hb. apply Hst. by apply list_elem_of_further.
Qed.

Lemma segment_lookup st p l n a : segment st p l n -> a ∈ l -> is_Some (st !! a).
Proof.
  revert p. induction l as [|b l IH]; intros p; cbn [segment]; [by intros _ ?%elem_of_nil|].
  intros [Hb Hl] [->|Ha]%elem_of_cons; [by eexists|by eapply IH].
Qed.

(** Redirecting the two ends of a segment. *)
Lemma set_next_segment st p l n n' :
  segment st p l n -> NoDup l -> l <> [] ->
  exists st', set_next_of (last_of p l) n' st = Some st' /\ segment st' p l n' /\
    (forall a, last_of p l <> Some a -> st' !! a = st !! a).
Proof.
  intros Hs Hn Hne. destruct (exists_last Hne) as (l0 & a & ->).
  apply segment_app in Hs as [H1 [Ha _]]. apply list.NoDup_app in Hn as (_ & Hd & _).
  rewrite last_of_snoc. cbn. unfold set_next. rewrite Ha. cbn. eexists. split; [done|]. split.
  - apply segment_app. cbn. rewrite lookup_insert_eq. split; [|done]. apply (segment_frame st); [done|].
    intros b Hb. rewrite lookup_insert_ne; [done|]. intros <-. apply (Hd a Hb), list_elem_of_here.
  - intros b Hb. rewrite lookup_insert_ne; [done|congruence].
Qed.

Lemma set_prev_segment st p p' l n :
  segment st p l n -> NoDup l -> l <> [] ->
  exists st', set_prev_of (first_of l n) p' st = Some st' /\ segment st' p' l n /\
    (forall a, first_of l n <> Some a -> st' !! a = st !! a).
Proof.
  destruct l as [|a l]; [done|]. intros [Ha Hl] [Hn _]%list.NoDup_cons _. cbn. unfold set_prev. rewrite Ha. cbn.
  eexists. split; [done|]. rewrite lookup_insert_eq. split.
  - split; [done|]. apply (segment_frame st); [done|]. intros b Hb. rewrite lookup_insert_ne; [done|]. by intros ->.
  - intros b Hb. rewrite lookup_insert_ne; [done|congruence].
Qed.

(** ** The operations on what a queue represents *)

Definition exists_in (q : queue) (a : nat) : Prop := is_Some (nodes q !! a).

Definition same_nodes (q q' : queue) : Prop := forall a, exists_in q' a <-> exists_in q a.

Lemma set_next_dom a v st st' : set_next a v st = Some st' -> forall b, is_Some (st' !! b) <-> is_Some (st !! b).
Proof.
  unfold set_next. destruct (st !! a) as [l|] eqn:Ha; [|done]. intros [= <-] b. rewrite lookup_insert_is_Some.
  destruct (decide (a = b)) as [<-|]; [|tauto]. rewrite Ha. split; [by eexists|by left].
Qed.

Lemma set_prev_dom a v st st' : set_prev a v st = Some st' -> forall b, is_Some (st' !! b) <-> is_Some (st !! b).
Proof.
  unfold set_prev. destruct (st !! a) as [l|] eqn:Ha; [|done]. intros [= <-] b. rewrite lookup_insert_is_Some.
  destruct (decide (a = b)) as [<-|]; [|tauto]. rewrite Ha. split; [by eexists|by left].
Qed.

Lemma free_node q l a : list_at q l -> exists_in q a -> a ∉ l -> nodes q !! a = Some unlinked.
Proof. intros Hq [k Hk] Ha. by rewrite Hk, (at_free q l Hq a k Hk Ha). Qed.

Lemma header_in q l a : list_at q l -> header_ q = Some a -> a ∈ l.
Proof. intros Hq. rewrite (at_header q l Hq). destruct l; [done|]. intros [= ->]. apply list_elem_of_here. Qed.

Lemma tail_in q l a : list_at q l -> tail_ q = Some a -> a ∈ l.
Proof.
  intros Hq. rewrite (at_tail q l Hq). unfold last_of. destruct (list.last l) eqn:E; [|done].
  intros [= ->]. by apply last_Some_elem_of.
Qed.

(** A linked object has a successor or is the tail. *)
Lemma linked_or_tail st p l n a :
  segment st p l n -> a ∈ l -> exists k, st !! a = Some k /\ (is_Some (next_ k) \/ last_of p l = Some a \/ n <> None).
Proof.
  revert p. induction l as [|b l IH]; intros p; cbn [segment]; [by intros _ ?%elem_of_nil|].
  intros [Hb Hl] [->|Ha]%elem_of_cons.
  - eexists. split; [exact Hb|]. cbn. destruct l as [|c l]; cbn; [|left; by eexists]. right. by left.
  - rewrite last_of_cons. by apply IH.
Qed.

Lemma linked_or_header st l a :
  segment st None l None -> a ∈ l -> exists k, st !! a = Some k /\ (is_Some (prev_ k) \/ first_of l None = Some a).
Proof.
  destruct l as [|b l]; cbn [segment]; [by intros _ ?%elem_of_nil|]. intros [Hb Hl] [->|Ha]%elem_of_cons.
  - eexists. split; [exact Hb|]. by right.
  - assert (forall p l, segment st (Some p) l None -> a ∈ l -> exists k, st !! a = Some k /\ is_Some (prev_ k)) as H.
    { clear. intros p l. revert p. induction l as [|b l IH]; intros p; cbn [segment]; [by intros _ ?%elem_of_nil|].
      intros [Hb Hl] [->|Ha]%elem_of_cons; [eexists; split; [exact Hb|by eexists]|by eapply IH]. }
    destruct (H b l Hl Ha) as (k & Hk & ?). exists k. auto.
Qed.

(** Adding an object that is queued changes nothing. *)
Lemma add_queued q l a : list_at q l -> a ∈ l -> add_awaiter q a = Some q.
Proof.
  intros Hq Ha. unfold add_awaiter.
  destruct (linked_or_tail _ _ _ _ a (at_linked q l Hq) Ha) as (k & Hk & Hnx).
  destruct (linked_or_header _ _ a (at_linked q l Hq) Ha) as (k' & Hk' & Hpv). assert (k' = k) as -> by congruence.
  rewrite Hk. cbn. rewrite (at_header q l Hq), (at_tail q l Hq).
  destruct (bool_decide_reflect (is_Some (next_ k))); [done|].
  destruct (bool_decide_reflect (first_of l None = Some a)); [done|]. cbn.
  destruct (bool_decide_reflect (is_Some (prev_ k))); [done|].
  destruct Hpv; done.
Qed.

(** Adding an object that is not queued puts it last. *)
Lemma add_free q l a :
  list_at q l -> exists_in q a -> a ∉ l ->
  exists q', add_awaiter q a = Some q' /\ list_at q' (l ++ [a]) /\ same_nodes q q'.
Proof.
  intros Hq Hex Ha. pose proof (free_node q l a Hq Hex Ha) as Hfree. unfold add_awaiter. rewrite Hfree. cbn.
  assert (bool_decide (header_ q = Some a) = false) as -> by (apply bool_decide_eq_false; by intros ?%(header_in q l a Hq)).
  assert (bool_decide (tail_ q = Some a) = false) as -> by (apply bool_decide_eq_false; by intros ?%(tail_in q l a Hq)).
  cbn. unfold set_next at 1. rewrite Hfree. cbn. unfold set_prev at 1. rewrite lookup_insert_eq. cbn.
  rewrite insert_insert_eq. set (st := <[a := _]> (nodes q)).
  assert (segment st None l None) as Hl.
  { apply (segment_frame (nodes q)); [apply Hq|]. intros b Hb. unfold st. rewrite lookup_insert_ne; [done|]. by intros ->. }
  assert (exists st', set_next_of (tail_ q) (Some a) st = Some st' /\ segment st' None l (Some a) /\
            (forall b, last_of None l <> Some b -> st' !! b = st !! b)) as (st' & Hst & Hs & Hf).
  { rewrite (at_tail q l Hq). destruct (decide (l = [])) as [->|Hne].
    - exists st. done.
    - by apply (set_next_segment st None l None (Some a) Hl (at_nodup q l Hq)). }
  rewrite Hst. cbn. eexists. split; [done|]. split; [split|].
  - apply list.NoDup_app. split; [apply Hq|]. split; [|apply NoDup_singleton].
    intros b Hb ->%list_elem_of_singleton. done.
  - cbn. rewrite (at_header q l Hq). by destruct l.
  - cbn. by rewrite last_of_snoc.
  - cbn. apply segment_app. cbn. split; [done|]. split; [|done]. rewrite Hf.
    + unfold st. rewrite lookup_insert_eq. by rewrite (at_tail q l Hq).
    + intros E. rewrite <- (at_tail q l Hq) in E. by apply Ha, (tail_in q l a Hq).
  - cbn. intros b k Hb Hin. assert (b <> a /\ b ∉ l) as [Hba Hbl].
    { split; [intros ->|intros ?]; apply Hin, elem_of_app; [right; apply list_elem_of_here|by left]. }
    rewrite Hf in Hb; [|intros E; rewrite <- (at_tail q l Hq) in E; by apply Hbl, (tail_in q l b Hq)].
    unfold st in Hb. rewrite lookup_insert_ne in Hb by done. by apply (at_free q l Hq b).
  - intros b. unfold exists_in. cbn.
    assert (is_Some (st' !! b) <-> is_Some (st !! b)) as ->.
    { destruct (tail_ q); cbn in Hst; [by apply (set_next_dom _ _ _ _ Hst)|by injection Hst as ->]. }
    unfold st. rewrite lookup_insert_is_Some. destruct (decide (a = b)) as [<-|]; [|tauto].
    unfold exists_in in Hex. tauto.
Qed.

Lemma set_next_of_dom p v st st' : set_next_of p v st = Some st' -> forall b, is_Some (st' !! b) <-> is_Some (st !! b).
Proof. destruct p; cbn; [apply set_next_dom|by intros [= ->]]. Qed.

Lemma set_prev_of_dom p v st st' : set_prev_of p v st = Some st' -> forall b, is_Some (st' !! b) <-> is_Some (st !! b).
Proof. destruct p; cbn; [apply set_prev_dom|by intros [= ->]]. Qed.

Lemma first_of_in l a : first_of l None = Some a -> a ∈ l.
Proof. destruct l; [done|]. intros [= ->]. apply list_elem_of_here. Qed.

Lemma last_of_in l a : last_of None l = Some a -> a ∈ l.
Proof. unfold last_of. destruct (list.last l) eqn:E; [|done]. intros [= ->]. by apply last_Some_elem_of. Qed.

Lemma last_of_app p l1 l2 : last_of p (l1 ++ l2) = last_of (last_of p l1) l2.
Proof. revert p. induction l1 as [|a l1 IH]; intros p; [done|]. cbn. by rewrite !last_of_cons, IH. Qed.

(** Unlinking the two neighbours of an object. *)
Lemma unlink_neighbours st l1 a l2 :
  segment st None (l1 ++ a :: l2) None -> NoDup (l1 ++ a :: l2) ->
  exists st1 st2,
    set_next_of (last_of None l1) (first_of l2 None) st = Some st1 /\
    st1 !! a = st !! a /\
    set_prev_of (first_of l2 None) (last_of None l1) st1 = Some st2 /\
    st2 !! a = st !! a /\ segment st2 None (l1 ++ l2) None /\
    forall b, b ∉ l1 ++ a :: l2 -> st2 !! b = st !! b.
Proof.
  intros Hs Hn. pose proof Hn as (Hn1 & Hd & Hn2)%list.NoDup_app.
  apply list.NoDup_cons in Hn2 as [Ha2 Hn2].
  assert (a ∉ l1) as Ha1 by (intros ?; apply (Hd a); [done|apply list_elem_of_here]).
  assert (forall b, b ∈ l1 -> b ∉ l2) as H12 by (intros b Hb ?; apply (Hd b Hb); by apply list_elem_of_further).
  apply segment_app in Hs as [H1 [Ha H2]].
  assert (exists st1, set_next_of (last_of None l1) (first_of l2 None) st = Some st1 /\
            segment st1 None l1 (first_of l2 None) /\ (forall b, last_of None l1 <> Some b -> st1 !! b = st !! b))
    as (st1 & E1 & S1 & F1).
  { destruct (decide (l1 = [])) as [->|Hne]; [by exists st|]. by apply (set_next_segment st None l1 _ _ H1). }
  assert (segment st1 (Some a) l2 None) as H2'.
  { apply (segment_frame st); [done|]. intros b Hb. apply F1. intros E%last_of_in. by apply (H12 b E). }
  assert (exists st2, set_prev_of (first_of l2 None) (last_of None l1) st1 = Some st2 /\
            segment st2 (last_of None l1) l2 None /\ (forall b, first_of l2 None <> Some b -> st2 !! b = st1 !! b))
    as (st2 & E2 & S2 & F2).
  { destruct (decide (l2 = [])) as [->|Hne]; [by exists st1|]. by apply (set_prev_segment st1 (Some a) _ l2 None H2'). }
  exists st1, st2. split; [done|]. assert (st1 !! a = st !! a) as Ea by (apply F1; by intros ?%last_of_in).
  split; [done|]. split; [done|]. split; [rewrite F2; [done|by intros ?%first_of_in]|]. split.
  - apply segment_app. split; [|done]. apply (segment_frame st1); [done|]. intros b Hb. apply F2.
    intros E%first_of_in. by apply (H12 b).
  - intros b Hb. rewrite elem_of_app, elem_of_cons in Hb. rewrite F2, F1; [done|..].
    + intros ?%last_of_in. apply Hb. by left.
    + intros ?%first_of_in. apply Hb. right. by right.
Qed.

Lemma remove_linked q l1 a l2 :
  list_at q (l1 ++ a :: l2) ->
  exists q', remove_awaiter q a = Some q' /\ list_at q' (l1 ++ l2) /\ same_nodes q q'.
Proof.
  intros Hq. pose proof Hq as [Hn Hh Ht Hl Hf]. pose proof Hl as [_ [Ha _]]%segment_app.
  destruct (unlink_neighbours _ _ _ _ Hl Hn) as (st1 & st2 & E1 & A1 & E2 & A2 & S2 & F2).
  apply list.NoDup_app in Hn as (Hn1 & Hd & [Ha2 Hn2]%list.NoDup_cons).
  assert (a ∉ l1) as Ha1 by (intros ?; apply (Hd a); [done|apply list_elem_of_here]).
  unfold remove_awaiter. rewrite Ha. cbn. rewrite E1. cbn. rewrite A1, Ha. cbn. rewrite E2. cbn.
  rewrite Ha in A2. unfold set_next at 1. rewrite A2. cbn. unfold set_prev at 1. rewrite lookup_insert_eq. cbn.
  rewrite insert_insert_eq. eexists. split; [done|]. split; [split|]; cbn.
  - apply list.NoDup_app. split; [done|]. split; [|done]. intros b Hb ?. apply (Hd b Hb). by apply list_elem_of_further.
  - rewrite Hh. destruct l1 as [|b l1]; cbn; [by rewrite bool_decide_true|]. rewrite bool_decide_false; [done|].
    intros [= ->]. apply Ha1, list_elem_of_here.
  - rewrite Ht. rewrite last_of_app, last_of_cons. destruct (decide (l2 = [])) as [->|Hne].
    + by rewrite bool_decide_true, app_nil_r.
    + destruct (exists_last Hne) as (l & c & ->). rewrite app_assoc, !last_of_snoc. rewrite bool_decide_false; [done|].
      intros [= ->]. apply Ha2, elem_of_app. right. apply list_elem_of_here.
  - apply (segment_frame st2); [done|]. intros b Hb. rewrite lookup_insert_ne; [done|]. intros <-.
    by apply elem_of_app in Hb as [?|?].
  - intros b k Hb Hin. destruct (decide (a = b)) as [<-|Hne]; [by rewrite lookup_insert_eq in Hb; injection Hb|].
    rewrite lookup_insert_ne in Hb by done. assert (b ∉ l1 ++ a :: l2) as Hnot.
    { rewrite elem_of_app in *. rewrite elem_of_cons. intros [?|[?|?]]; [apply Hin; by left|by subst|apply Hin; by right]. }
    rewrite F2 in Hb by done. by apply (Hf b).
  - intros b. unfold exists_in. cbn. rewrite lookup_insert_is_Some.
    rewrite (set_prev_of_dom _ _ _ _ E2), (set_next_of_dom _ _ _ _ E1).
    destruct (decide (a = b)) as [<-|]; [|tauto]. rewrite Ha. split; [by eexists|by left].
Qed.

Lemma remove_free q l a :
  list_at q l -> exists_in q a -> a ∉ l -> exists q', remove_awaiter q a = Some q' /\ list_at q' l /\ same_nodes q q'.
Proof.
  intros Hq Hex Ha. pose proof (free_node q l a Hq Hex Ha) as Hfree. unfold remove_awaiter. rewrite Hfree. cbn.
  rewrite Hfree. cbn. unfold set_next at 1. rewrite Hfree. cbn. unfold set_prev at 1. rewrite lookup_insert_eq. cbn.
  rewrite insert_insert_eq, insert_id by done. eexists. split; [done|].
  assert (bool_decide (header_ q = Some a) = false) as -> by (apply bool_decide_eq_false; by intros ?%(header_in q l a Hq)).
  assert (bool_decide (tail_ q = Some a) = false) as -> by (apply bool_decide_eq_false; by intros ?%(tail_in q l a Hq)).
  by destruct q.
Qed.

Lemma filter_keeps (l : list nat) a : a ∉ l -> filter (fun b => b <> a) l = l.
Proof.
  induction l as [|b l IH]; [done|]. rewrite not_elem_of_cons. intros [Hne Ha].
  rewrite list.filter_cons_True by congruence. by rewrite IH.
Qed.

(** Removing takes the object out wherever it is. *)
Lemma awaiter_remove_ok q l a :
  list_at q l -> exists_in q a ->
  exists q', remove_awaiter q a = Some q' /\ list_at q' (filter (fun b => b <> a) l) /\ same_nodes q q'.
Proof.
  intros Hq Hex. destruct (decide (a ∈ l)) as [Ha|Ha].
  - apply list_elem_of_split in Ha as (l1 & l2 & ->). replace (filter _ _) with (l1 ++ l2); [by apply remove_linked|].
    pose proof (at_nodup _ _ Hq) as (Hn1 & Hd & [Ha2 Hn2]%list.NoDup_cons)%list.NoDup_app.
    rewrite list.filter_app, list.filter_cons_False by auto.
    rewrite !filter_keeps; [done..|]. intros Hb. apply (Hd a Hb), list_elem_of_here.
  - rewrite filter_keeps by done. by apply remove_free.
Qed.

Lemma empty_list_at n : (forall a k, n !! a = Some k -> k = unlinked) -> list_at (Queue None None n) [].
Proof. intros Hn. split; [constructor|done|done|done|]. intros a k Ha _. by apply (Hn a). Qed.

(** A segment does not see what happens to other objects. *)
Lemma segment_delete st p l n r : segment st p l n -> r ∉ l -> segment (delete r st) p l n.
Proof. intros Hl Hr. apply (segment_frame st); [done|]. intros b Hb. rewrite lookup_delete_ne; [done|]. by intros <-. Qed.

(** A free object that goes, and a new one. *)
Lemma list_at_delete q l a :
  list_at q l -> a ∉ l -> list_at (Queue (header_ q) (tail_ q) (delete a (nodes q))) l.
Proof.
  intros [H1 H2 H3 H4 H5] Ha. split; cbn; [done|done|done|by apply segment_delete|].
  intros b k [_ Hb]%lookup_delete_Some. by apply H5.
Qed.

Lemma list_at_insert q l a :
  list_at q l -> a ∉ l -> list_at (Queue (header_ q) (tail_ q) (<[a := unlinked]> (nodes q))) l.
Proof.
  intros [H1 H2 H3 H4 H5] Ha. split; cbn; [done|done|done|..].
  - apply (segment_frame (nodes q)); [done|]. intros b Hb. rewrite lookup_insert_ne; [done|]. by intros <-.
  - intros b k [[<- <-]|[_ Hb]]%lookup_insert_Some; [done|]. by apply H5.
Qed.
