(* ===== verification/Cancellation.v ===== *)
(** Cancellation (src/runtime/src/coro/cancellation_state.cpp,
    cancellation_registration.cpp, cancellation_source.cpp,
    cancellation_token.cpp): sources and tokens share a [cancellation_state],
    which keeps its registrations in an intrusive list with a header only.

    A state is known by its number, a token is the state it shares, if any.
    The callbacks of the library (mutex, condition variable, timer, session,
    network) only unlink their awaiter and queue its coroutine, so a callback
    is here the registration that runs it, and [request_cancellation] returns
    the registrations in the order their callbacks run. *)

From stdpp Require Import gmap.
From S2P Require Import Prelude AwaiterList.

(** * Data *)

Inductive state := none | cancelled.

#[export] Instance state_dec : EqDecision state.
Proof. solve_decision. Defined.

Record cancellation_state := CancellationState { state_ : state; registrations_ : option nat }.

(** All states, the links of all registrations, and the [state_] each
    registration shares. *)
Record cancellation := Cancellation {
  states : gmap nat cancellation_state; links_ : store; reg_state_ : gmap nat (option nat) }.

Abbreviation token := (option nat).

Definition no_cancellation : cancellation := Cancellation ∅ ∅ ∅.

(** * Operations *)

(** [cancellation_source::cancellation_source]. *)
Definition new_source (w : cancellation) (s : nat) : cancellation :=
  Cancellation (<[s := CancellationState none None]> (states w)) (links_ w) (reg_state_ w).

Definition token_state (w : cancellation) (t : token) : option state :=
  s ← t; c ← states w !! s; Some (state_ c).

Definition can_be_cancelled (w : cancellation) (t : token) : bool := bool_decide (token_state w t = Some none).

Definition is_cancellation_requested (w : cancellation) (t : token) : bool :=
  bool_decide (token_state w t = Some cancelled).

Definition set_registrations (s : nat) (h : option nat) (w : cancellation) : cancellation :=
  Cancellation (alter (fun c => CancellationState (state_ c) h) s (states w)) (links_ w) (reg_state_ w).

Definition set_links (st : store) (w : cancellation) : cancellation := Cancellation (states w) st (reg_state_ w).

Definition register_callback (w : cancellation) (s r : nat) : option cancellation :=
  c ← states w !! s;
  if negb (can_be_cancelled w (Some s)) then Some w
  else
    l ← links_ w !! r;
    if bool_decide (is_Some (prev_ l)) || bool_decide (registrations_ c = Some r) then Some w
    else
      st ← set_next r (registrations_ c) (links_ w);
      st ← set_prev r None st;
      st ← set_prev_of (registrations_ c) (Some r) st;
      Some (set_registrations s (Some r) (set_links st w)).

Definition deregister_callback (w : cancellation) (s r : nat) : option cancellation :=
  c ← states w !! s;
  l ← links_ w !! r;
  let w := if bool_decide (registrations_ c = Some r) then set_registrations s (next_ l) w else w in
  st ← set_next_of (prev_ l) (next_ l) (links_ w);
  l ← st !! r;
  st ← set_prev_of (next_ l) (prev_ l) st;
  st ← set_next r None st;
  st ← set_prev r None st;
  Some (set_links st w).

(** [cancellation_registration::cancellation_registration]. *)
Definition new_registration (w : cancellation) (r : nat) (t : token) : option cancellation :=
  let w := Cancellation (states w) (<[r := unlinked]> (links_ w)) (<[r := None]> (reg_state_ w)) in
  match t with
  | Some s =>
      if can_be_cancelled w t then
        register_callback (Cancellation (states w) (links_ w) (<[r := Some s]> (reg_state_ w))) s r
      else Some w
  | None => Some w
  end.

(** [~cancellation_registration], the end of the object. *)
Definition drop_registration (w : cancellation) (r : nat) : option cancellation :=
  o ← reg_state_ w !! r;
  w ← match o with Some s => deregister_callback w s r | None => Some w end;
  Some (Cancellation (states w) (delete r (links_ w)) (delete r (reg_state_ w))).

(** [std::optional::reset]. *)
Definition reset_registration (w : cancellation) (r : nat) : option cancellation :=
  match reg_state_ w !! r with Some _ => drop_registration w r | None => Some w end.

(** The loop of [request_cancellation]; every turn takes one registration out
    of the list. *)
Fixpoint cancel_loop (fuel : nat) (w : cancellation) (s : nat) : option (cancellation * list nat) :=
  match fuel with
  | O => None
  | S fuel =>
      c ← states w !! s;
      match registrations_ c with
      | None => Some (w, [])
      | Some r =>
          l ← links_ w !! r;
          let w := set_registrations s (next_ l) w in
          st ← set_next r None (links_ w);
          st ← set_prev r None st;
          let w := Cancellation (states w) st (<[r := None]> (reg_state_ w)) in
          '(w, fired) ← cancel_loop fuel w s;
          Some (w, r :: fired)
      end
  end.

Definition request_cancellation (w : cancellation) (s : nat) : option (cancellation * list nat) :=
  if is_cancellation_requested w (Some s) then Some (w, [])
  else
    let w := Cancellation (alter (fun c => CancellationState cancelled (registrations_ c)) s (states w))
               (links_ w) (reg_state_ w) in
    cancel_loop (S (size (links_ w))) w s.

(** * What the lists represent *)

(** The registrations [l s] of each state, the last registered first: they
    share that state, and no others do. *)
Record cancellation_ok (w : cancellation) (l : nat -> list nat) : Prop := {
  co_same r : is_Some (reg_state_ w !! r) <-> is_Some (links_ w !! r);
  co_nodup s : NoDup (l s);
  co_state s c : states w !! s = Some c -> registrations_ c = first_of (l s) None /\ segment (links_ w) None (l s) None;
  co_none s : states w !! s = None -> l s = [];
  co_done s c : states w !! s = Some c -> state_ c = cancelled -> l s = [];
  co_member r s : r ∈ l s <-> reg_state_ w !! r = Some (Some s);
  co_free r : reg_state_ w !! r = Some None -> links_ w !! r = Some unlinked }.

Lemma co_disjoint w l r s s' : cancellation_ok w l -> r ∈ l s -> r ∈ l s' -> s = s'.
Proof. intros Hw H1%(co_member w l Hw) H2%(co_member w l Hw). congruence. Qed.

Lemma cancellation_ok_ext w l l' : (forall s, l' s = l s) -> cancellation_ok w l -> cancellation_ok w l'.
Proof.
  intros E [H1 H2 H3 H4 H5 H6 H7]. split; [done|..|done].
  - intros s. by rewrite E.
  - intros s c. rewrite E. apply H3.
  - intros s. rewrite E. apply H4.
  - intros s c. rewrite E. apply H5.
  - intros r s. by rewrite E.
Qed.

Lemma no_cancellation_ok : cancellation_ok no_cancellation (fun _ => []).
Proof.
  split; cbn.
  - intros r. by rewrite !lookup_empty.
  - intros s. constructor.
  - intros s c H. by rewrite lookup_empty in H.
  - done.
  - done.
  - intros r s. rewrite lookup_empty. split; [by intros ?%elem_of_nil|done].
  - intros r H. by rewrite lookup_empty in H.
Qed.

(** ** Registering *)

Definition with_list (l : nat -> list nat) (s : nat) (rs : list nat) (s' : nat) : list nat :=
  if decide (s' = s) then rs else l s'.

Lemma with_list_eq l s rs : with_list l s rs s = rs.
Proof. unfold with_list. by rewrite decide_True. Qed.

Lemma with_list_ne l s rs s' : s' <> s -> with_list l s rs s' = l s'.
Proof. intros H. unfold with_list. by rewrite decide_False. Qed.

Lemma new_source_ok w l s : cancellation_ok w l -> states w !! s = None -> cancellation_ok (new_source w s) l.
Proof.
  intros [H1 H2 H3 H4 H5 H6 H7] Hs. split; cbn; [done|done|..|done|done].
  - intros s' c [[<- <-]|[_ ?]]%lookup_insert_Some; [|by apply H3]. by rewrite (H4 s Hs).
  - intros s' [? _]%lookup_insert_None. by apply H4.
  - intros s' c [[<- <-]|[_ ?]]%lookup_insert_Some; [done|by apply H5].
Qed.

(** A new registration, not yet in any list. *)
Lemma fresh_registration_ok w l r :
  cancellation_ok w l -> reg_state_ w !! r = None ->
  cancellation_ok (Cancellation (states w) (<[r := unlinked]> (links_ w)) (<[r := None]> (reg_state_ w))) l.
Proof.
  intros [H1 H2 H3 H4 H5 H6 H7] Hr.
  assert (forall s, r ∉ l s) as Hno by (intros s ?%H6; congruence).
  split; cbn; [|done|..|done|done| |].
  - intros r'. rewrite !lookup_insert_is_Some. specialize (H1 r'). tauto.
  - intros s c Hs. destruct (H3 s c Hs) as [? Hl]. split; [done|]. apply (segment_frame (links_ w)); [done|].
    intros a Ha. rewrite lookup_insert_ne; [done|]. intros <-. by apply (Hno s).
  - intros r' s. rewrite H6. destruct (decide (r = r')) as [<-|Hne].
    + rewrite lookup_insert_eq, Hr. done.
    + by rewrite lookup_insert_ne.
  - intros r'. destruct (decide (r = r')) as [<-|Hne]; [by rewrite !lookup_insert_eq|].
    rewrite !lookup_insert_ne by done. apply H7.
Qed.

Lemma token_state_inv w t x :
  token_state w t = Some x <-> exists s c, t = Some s /\ states w !! s = Some c /\ state_ c = x.
Proof.
  unfold token_state. destruct t as [s|]; cbn; [|split; [done|by intros (? & ? & ? & _)]].
  destruct (states w !! s) as [c|] eqn:E; cbn.
  - split; [intros [= Hc]; by exists s, c|]. intros (s' & c' & [= <-] & Hs & <-). congruence.
  - split; [done|]. intros (s' & c' & [= <-] & Hs & _). congruence.
Qed.

Lemma can_be_cancelled_inv w t :
  can_be_cancelled w t = true <-> exists s c, t = Some s /\ states w !! s = Some c /\ state_ c = none.
Proof. unfold can_be_cancelled. by rewrite bool_decide_eq_true, token_state_inv. Qed.

Lemma requested_inv w t :
  is_cancellation_requested w t = true <-> exists s c, t = Some s /\ states w !! s = Some c /\ state_ c = cancelled.
Proof. unfold is_cancellation_requested. by rewrite bool_decide_eq_true, token_state_inv. Qed.

Lemma register_ok w l s c r :
  cancellation_ok w l -> states w !! s = Some c -> state_ c = none -> reg_state_ w !! r = Some None ->
  let w1 := Cancellation (states w) (links_ w) (<[r := Some s]> (reg_state_ w)) in
  exists w', register_callback w1 s r = Some w' /\ cancellation_ok w' (with_list l s (r :: l s)) /\
    (forall s, state_ <$> states w' !! s = state_ <$> states w !! s) /\ reg_state_ w' = reg_state_ w1.
Proof.
  intros Hw Hs Hc Hr w1. pose proof Hw as [H1 H2 H3 H4 H5 H6 H7]. destruct (H3 s c Hs) as [Hh Hl].
  assert (forall s, r ∉ l s) as Hno by (intros s' ?%H6; congruence).
  unfold register_callback. cbn. rewrite Hs. cbn.
  assert (can_be_cancelled w1 (Some s) = true) as -> by (apply can_be_cancelled_inv; by exists s, c). cbn.
  rewrite (H7 r Hr). cbn.
  assert (bool_decide (registrations_ c = Some r) = false) as ->.
  { apply bool_decide_eq_false. rewrite Hh. intros E%first_of_in. by apply (Hno s). }
  unfold set_next at 1. rewrite (H7 r Hr). cbn. unfold set_prev at 1. rewrite lookup_insert_eq. cbn.
  rewrite insert_insert_eq. set (st := <[r := _]> (links_ w)).
  assert (segment st None (l s) None) as Hls.
  { apply (segment_frame (links_ w)); [done|]. intros b Hb. unfold st. rewrite lookup_insert_ne; [done|].
    intros <-. by apply (Hno s). }
  assert (exists st', set_prev_of (registrations_ c) (Some r) st = Some st' /\ segment st' (Some r) (l s) None /\
            (forall b, first_of (l s) None <> Some b -> st' !! b = st !! b)) as (st' & E & Hsg & Hf).
  { rewrite Hh. destruct (decide (l s = [])) as [En|Hne]; [rewrite En; by exists st|].
    by apply (set_prev_segment st None (Some r) (l s) None Hls). }
  rewrite E. cbn. eexists. split; [done|].
  assert (forall b, b <> r -> b ∉ l s -> st' !! b = links_ w !! b) as Hout.
  { intros b Hb Hbl. rewrite Hf by (by intros ?%first_of_in). unfold st. by rewrite lookup_insert_ne. }
  assert (st' !! r = Some (Links (registrations_ c) None)) as Hrr.
  { rewrite Hf; [unfold st; by rewrite lookup_insert_eq|]. intros E'%first_of_in. by apply (Hno s). }
  split; [split; cbn|split; [|done]].
  - intros r'. rewrite (set_prev_of_dom _ _ _ _ E). unfold st. rewrite !lookup_insert_is_Some. specialize (H1 r'). tauto.
  - intros s'. destruct (decide (s' = s)) as [->|Hne]; [rewrite with_list_eq; by constructor|].
    rewrite with_list_ne by done. apply H2.
  - intros s' c' [(<- & c0 & Hc0 & ->)|[Hne Hs']]%lookup_alter_Some.
    + rewrite with_list_eq. cbn. split; [done|]. split; [|done]. by rewrite Hrr, Hh.
    + rewrite with_list_ne by done. destruct (H3 s' c' Hs') as [? Hl']. split; [done|].
      apply (segment_frame (links_ w)); [done|]. intros b Hb. apply Hout.
      * intros ->. by apply (Hno s').
      * intros Hb'. apply Hne. by apply (co_disjoint w l b s s' Hw).
  - intros s' Hs'%lookup_alter_None. rewrite with_list_ne by congruence. by apply H4.
  - intros s' c' [(<- & c0 & Hc0 & ->)|[Hne Hs']]%lookup_alter_Some.
    + cbn. congruence.
    + rewrite with_list_ne by done. by apply H5.
  - intros r' s'. destruct (decide (r = r')) as [<-|Hne].
    + rewrite lookup_insert_eq. destruct (decide (s' = s)) as [->|Hsn].
      * rewrite with_list_eq. split; [done|intros _; apply list_elem_of_here].
      * rewrite with_list_ne by done. split; [by intros ?%Hno|congruence].
    + rewrite lookup_insert_ne by done. rewrite <- H6. destruct (decide (s' = s)) as [->|Hsn].
      * rewrite with_list_eq, elem_of_cons. split; [intros [->|]; done|by right].
      * by rewrite with_list_ne.
  - intros r' Hr'. destruct (decide (r = r')) as [<-|Hne]; [by rewrite lookup_insert_eq in Hr'|].
    rewrite lookup_insert_ne in Hr' by done. rewrite Hout; [by apply H7|done|]. intros ?%H6. congruence.
  - intros s'. cbn. destruct (decide (s = s')) as [<-|Hne]; [rewrite lookup_alter_eq, Hs; done|by rewrite lookup_alter_ne].
Qed.

(** The registration a new object leaves in the list of its state. *)
Definition registered_in (w : cancellation) (l : nat -> list nat) (r : nat) (t : token) : nat -> list nat :=
  match t with
  | Some s => if can_be_cancelled w t then with_list l s (r :: l s) else l
  | None => l
  end.

Lemma new_registration_ok w l r t :
  cancellation_ok w l -> reg_state_ w !! r = None ->
  exists w', new_registration w r t = Some w' /\ cancellation_ok w' (registered_in w l r t) /\
    (forall s, state_ <$> states w' !! s = state_ <$> states w !! s) /\
    (forall b, is_Some (reg_state_ w' !! b) -> b = r \/ is_Some (reg_state_ w !! b)).
Proof.
  intros Hw Hr. pose proof (fresh_registration_ok w l r Hw Hr) as H1. unfold new_registration, registered_in.
  set (w1 := Cancellation (states w) _ _) in *.
  assert (forall b, is_Some (reg_state_ w1 !! b) -> b = r \/ is_Some (reg_state_ w !! b)) as Hb.
  { intros b. cbn. rewrite lookup_insert_is_Some'. intros [?|?]; [left; congruence|by right]. }
  destruct t as [s|]; [|by exists w1].
  change (can_be_cancelled w1 (Some s)) with (can_be_cancelled w (Some s)).
  destruct (can_be_cancelled w (Some s)) eqn:Hc; [|by exists w1].
  apply can_be_cancelled_inv in Hc as (s' & c & [= <-] & Hs & Hn).
  destruct (register_ok w1 l s c r H1 Hs Hn) as (w' & E & Hok & Hst & Hreg); [cbn; by rewrite lookup_insert_eq|].
  exists w'. split; [exact E|]. split; [done|]. split; [done|]. intros b. rewrite Hreg. cbn.
  rewrite lookup_insert_is_Some'. intros [?|?%Hb]; [left; congruence|done].
Qed.

(** ** Dropping *)

(** Unlinking from a list with a header only. *)
Lemma deregister_ok w l r s :
  cancellation_ok w l -> reg_state_ w !! r = Some (Some s) -> is_Some (states w !! s) ->
  exists w', deregister_callback w s r = Some w' /\
    (exists h, states w' = states (set_registrations s h w) /\ h = first_of (filter (fun a => a <> r) (l s)) None) /\
    reg_state_ w' = reg_state_ w /\ segment (links_ w') None (filter (fun a => a <> r) (l s)) None /\
    links_ w' !! r = Some unlinked /\
    (forall a, a ∉ l s -> links_ w' !! a = links_ w !! a) /\
    (forall a, is_Some (links_ w' !! a) <-> is_Some (links_ w !! a)).
Proof.
  intros Hw Hr [c Hs]. pose proof Hw as [H1 H2 H3 H4 H5 H6 H7]. destruct (H3 s c Hs) as [Hh Hl].
  pose proof (H2 s) as Hn. apply H6 in Hr as Hin. apply list_elem_of_split in Hin as (l1 & l2 & El).
  rewrite El in *. pose proof Hl as [_ [Ha _]]%segment_app.
  destruct (unlink_neighbours _ _ _ _ Hl Hn) as (st1 & st2 & E1 & A1 & E2 & A2 & S2 & F2).
  pose proof Hn as (Hn1 & Hd & [Ha2 Hn2]%list.NoDup_cons)%list.NoDup_app.
  assert (r ∉ l1) as Ha1 by (intros ?; apply (Hd r); [done|apply list_elem_of_here]).
  rewrite list.filter_app, list.filter_cons_False, !filter_keeps by auto.
  unfold deregister_callback. rewrite Hs. cbn. rewrite Ha. cbn.
  set (wh := if bool_decide (registrations_ c = Some r) then _ else w).
  assert (links_ wh = links_ w) as Hwl by (unfold wh; by destruct (bool_decide _)).
  rewrite Hwl, E1. cbn. rewrite A1, Ha. cbn. rewrite E2. cbn. rewrite Ha in A2.
  unfold set_next at 1. rewrite A2. cbn. unfold set_prev at 1. rewrite lookup_insert_eq. cbn.
  rewrite insert_insert_eq. eexists. split; [done|]. cbn. split_and!.
  - exists (first_of (l1 ++ l2) None). split; [|done]. unfold wh.
    destruct (bool_decide_reflect (registrations_ c = Some r)) as [E|E]; rewrite Hh in E.
    + destruct l1 as [|b l1]; [done|]. cbn in E. injection E as ->. destruct Ha1. apply list_elem_of_here.
    + destruct l1 as [|b l1]; [done|]. cbn. symmetry. apply map_eq. intros s'.
      destruct (decide (s = s')) as [<-|]; [|by rewrite lookup_alter_ne].
      rewrite lookup_alter_eq, Hs. cbn. by destruct c; cbn in *; subst.
  - unfold wh. by destruct (bool_decide _).
  - apply (segment_frame st2); [done|]. intros b Hb. rewrite lookup_insert_ne; [done|]. intros <-.
    by apply elem_of_app in Hb as [?|?].
  - apply lookup_insert_eq.
  - intros a Hna. rewrite lookup_insert_ne; [by apply F2|]. intros <-. apply Hna, elem_of_app. right.
    apply list_elem_of_here.
  - intros a. rewrite lookup_insert_is_Some, (set_prev_of_dom _ _ _ _ E2), (set_next_of_dom _ _ _ _ E1).
    destruct (decide (r = a)) as [<-|]; [|tauto]. rewrite Ha. split; [by eexists|by left].
Qed.

Definition without (l : nat -> list nat) (r : nat) (s : nat) : list nat := filter (fun a => a <> r) (l s).

Lemma elem_of_without l r r' s : r' ∈ without l r s <-> r' <> r /\ r' ∈ l s.
Proof. unfold without. by rewrite list_elem_of_filter. Qed.

Lemma without_other l r s : r ∉ l s -> without l r s = l s.
Proof. apply filter_keeps. Qed.

Lemma drop_registration_ok w l r :
  cancellation_ok w l -> is_Some (reg_state_ w !! r) ->
  (forall s, reg_state_ w !! r = Some (Some s) -> is_Some (states w !! s)) ->
  exists w', drop_registration w r = Some w' /\ cancellation_ok w' (without l r) /\
    (forall s, state_ <$> states w' !! s = state_ <$> states w !! s) /\ reg_state_ w' = delete r (reg_state_ w).
Proof.
  intros Hw [o Hr] Hst. pose proof Hw as [H1 H2 H3 H4 H5 H6 H7]. unfold drop_registration. rewrite Hr. cbn.
  destruct o as [s|].
  - destruct (deregister_ok w l r s Hw Hr (Hst s Hr)) as (w' & -> & (h & Hs' & Hh) & Hreg & Hseg & Hrr & Hout & Hdom).
    destruct (Hst s Hr) as [c Hs]. cbn. eexists. split; [done|].
    assert (forall s', s' <> s -> r ∉ l s') as Hno.
    { intros s' Hne Hin. apply Hne, (co_disjoint w l r s' s Hw Hin). by apply H6. }
    assert (forall s' c', states w' !! s' = Some c' -> exists c0, states w !! s' = Some c0 /\ state_ c' = state_ c0 /\
              registrations_ c' = (if decide (s' = s) then h else registrations_ c0)) as Hinv.
    { intros s' c'. rewrite Hs'. cbn. intros [(<- & c0 & Hc0 & ->)|[Hne ?]]%lookup_alter_Some.
      - exists c0. by rewrite decide_True.
      - exists c'. by rewrite decide_False. }
    split; [split; cbn|split; [|by rewrite Hreg]].
    + intros a. rewrite Hreg. destruct (decide (r = a)) as [<-|Hne]; [by rewrite !lookup_delete_eq|].
      by rewrite !lookup_delete_ne, Hdom.
    + intros s'. unfold without. apply list.NoDup_filter, H2.
    + intros s' c' Hc'. destruct (Hinv s' c' Hc') as (c0 & Hc0 & _ & ->). destruct (decide (s' = s)) as [->|Hne].
      * unfold without. split; [done|]. apply segment_delete; [done|]. rewrite list_elem_of_filter. by intros [? _].
      * destruct (H3 s' c0 Hc0) as [? Hl']. rewrite without_other by by apply Hno. split; [done|].
        apply segment_delete; [|by apply Hno]. apply (segment_frame (links_ w)); [done|]. intros b Hb. apply Hout.
        intros Hb'. apply Hne. by apply (co_disjoint w l b s' s Hw).
    + intros s'. rewrite Hs'. cbn. intros Hn%lookup_alter_None. unfold without. by rewrite (H4 s' Hn).
    + intros s' c' Hc' Hd. destruct (Hinv s' c' Hc') as (c0 & Hc0 & E & _). unfold without.
      rewrite (H5 s' c0 Hc0); [done|congruence].
    + intros a s'. rewrite elem_of_without, H6, Hreg. destruct (decide (r = a)) as [<-|Hne].
      * rewrite lookup_delete_eq. by split; [intros [? _]|].
      * rewrite lookup_delete_ne by done. split; [by intros [_ ?]|by split].
    + intros a. rewrite Hreg. destruct (decide (r = a)) as [<-|Hne]; [by rewrite lookup_delete_eq|].
      rewrite !lookup_delete_ne by done. intros Ha. rewrite Hout; [by apply H7|]. intros ?%H6. congruence.
    + intros s'. rewrite Hs'. cbn. destruct (decide (s = s')) as [<-|Hne]; [by rewrite lookup_alter_eq, Hs|].
      by rewrite lookup_alter_ne.
  - eexists. split; [done|]. assert (forall s', r ∉ l s') as Hno by (intros s' ?%H6; congruence).
    assert (forall s', without l r s' = l s') as Hwo by (intros s'; by apply without_other).
    split; [split; cbn|done].
    + intros a. destruct (decide (r = a)) as [<-|Hne]; [by rewrite !lookup_delete_eq|]. by rewrite !lookup_delete_ne.
    + intros s'. by rewrite Hwo.
    + intros s' c' Hc'. rewrite Hwo. destruct (H3 s' c' Hc'). split; [done|]. by apply segment_delete.
    + intros s' Hn. rewrite Hwo. by apply H4.
    + intros s' c' Hc' Hd. rewrite Hwo. by apply (H5 s' c').
    + intros a s'. rewrite Hwo, H6. destruct (decide (r = a)) as [<-|Hne]; [by rewrite lookup_delete_eq, Hr|].
      by rewrite lookup_delete_ne.
    + intros a. destruct (decide (r = a)) as [<-|Hne]; [by rewrite lookup_delete_eq|].
      rewrite !lookup_delete_ne by done. apply H7.
Qed.

(** ** Cancelling *)

Lemma cancel_loop_ok fuel : forall w s c rs p,
  states w !! s = Some c -> registrations_ c = first_of rs None -> segment (links_ w) p rs None -> NoDup rs ->
  (length rs < fuel)%nat ->
  exists w', cancel_loop fuel w s = Some (w', rs) /\
    states w' = <[s := CancellationState (state_ c) None]> (states w) /\
    (forall r, links_ w' !! r = if decide (r ∈ rs) then Some unlinked else links_ w !! r) /\
    (forall r, reg_state_ w' !! r = if decide (r ∈ rs) then Some None else reg_state_ w !! r).
Proof.
  induction fuel as [|fuel IH]; intros w s c rs p Hs Hh Hl Hn Hf; [lia|]. cbn [cancel_loop]. rewrite Hs. cbn.
  destruct rs as [|r rs]; cbn in Hh; rewrite Hh.
  - eexists. split; [done|]. split; [|done]. by rewrite insert_id by (rewrite Hs; destruct c; cbn in *; by subst).
  - destruct Hl as [Hr Hl]. rewrite Hr. cbn. unfold set_next at 1. rewrite Hr. cbn. unfold set_prev at 1.
    rewrite lookup_insert_eq. cbn. rewrite insert_insert_eq. apply list.NoDup_cons in Hn as [Hnr Hn].
    set (w1 := Cancellation _ _ _).
    destruct (IH w1 s (CancellationState (state_ c) (first_of rs None)) rs (Some r)) as (w' & E & Hs' & Hl' & Hr').
    { cbn. by rewrite lookup_alter_eq, Hs. }
    { done. }
    { cbn. apply (segment_frame (links_ w)); [done|]. intros b Hb. rewrite lookup_insert_ne; [done|]. by intros <-. }
    { done. }
    { cbn in Hf. lia. }
    rewrite E. cbn. exists w'. split; [done|]. split; [|split].
    + rewrite Hs'. cbn. apply map_eq. intros s'. destruct (decide (s = s')) as [<-|Hne].
      * by rewrite !lookup_insert_eq.
      * by rewrite !lookup_insert_ne, lookup_alter_ne.
    + intros a. rewrite Hl'. cbn. destruct (decide (a = r)) as [->|Hne].
      * rewrite (decide_True (P := r ∈ r :: rs)) by apply list_elem_of_here.
        destruct (decide (r ∈ rs)); [done|]. by rewrite lookup_insert_eq.
      * rewrite lookup_insert_ne by done. apply decide_ext. rewrite elem_of_cons. tauto.
    + intros a. rewrite Hr'. cbn. destruct (decide (a = r)) as [->|Hne].
      * rewrite (decide_True (P := r ∈ r :: rs)) by apply list_elem_of_here.
        destruct (decide (r ∈ rs)); [done|]. by rewrite lookup_insert_eq.
      * rewrite lookup_insert_ne by done. apply decide_ext. rewrite elem_of_cons. tauto.
Qed.

Lemma segment_length st p l n : segment st p l n -> NoDup l -> (length l <= size st)%nat.
Proof.
  intros Hl Hn. rewrite <- (size_list_to_set (C := gset nat) l Hn), <- size_dom.
  apply subseteq_size. intros a Ha%elem_of_list_to_set. apply elem_of_dom. by eapply segment_lookup.
Qed.

Lemma request_cancellation_ok w l s :
  cancellation_ok w l -> is_Some (states w !! s) ->
  exists w', request_cancellation w s = Some (w', l s) /\ cancellation_ok w' (with_list l s []) /\
    (forall t, is_cancellation_requested w' t = bool_decide (t = Some s) || is_cancellation_requested w t) /\
    (forall s', is_Some (states w' !! s') <-> is_Some (states w !! s')) /\
    (forall r, reg_state_ w' !! r = if decide (r ∈ l s) then Some None else reg_state_ w !! r).
Proof.
  intros Hw [c Hs]. pose proof Hw as [H1 H2 H3 H4 H5 H6 H7]. unfold request_cancellation.
  destruct (is_cancellation_requested w (Some s)) eqn:Hreq.
  - apply requested_inv in Hreq as (s' & c' & [= <-] & Hs' & Hc'). assert (c' = c) as -> by congruence.
    pose proof (H5 s c Hs Hc') as El. exists w. rewrite El. split; [done|]. split; [|split; [|split; [done|]]].
    + apply (cancellation_ok_ext w l); [|done]. intros s'. destruct (decide (s' = s)) as [->|Hne].
      * by rewrite with_list_eq.
      * by rewrite with_list_ne.
    + intros t. destruct (bool_decide_reflect (t = Some s)) as [->|]; [|done]. apply requested_inv. by exists s, c.
    + intros r. rewrite decide_False; [done|]. apply not_elem_of_nil.
  - destruct (H3 s c Hs) as [Hh Hl]. set (w1 := Cancellation _ _ _).
    destruct (cancel_loop_ok (S (size (links_ w))) w1 s (CancellationState cancelled (registrations_ c)) (l s) None)
      as (w' & E & Hs' & Hl' & Hr'); [|done|done|apply H2| |].
    { cbn. by rewrite lookup_alter_eq, Hs. }
    { pose proof (segment_length _ _ _ _ Hl (H2 s)). lia. }
    change (links_ w) with (links_ w1) in E at 1. rewrite E. exists w'. split; [done|]. cbn in *.
    assert (forall s', s' <> s -> states w' !! s' = states w !! s') as Hso.
    { intros s' Hne. by rewrite Hs', lookup_insert_ne, lookup_alter_ne by done. }
    assert (states w' !! s = Some (CancellationState cancelled None)) as Hss by (by rewrite Hs', lookup_insert_eq).
    split; [|split; [|split; [|done]]].
    + split.
      * intros r. rewrite Hl', Hr'. destruct (decide (r ∈ l s)); [split; by eexists|apply H1].
      * intros s'. destruct (decide (s' = s)) as [->|Hne]; [rewrite with_list_eq; constructor|].
        rewrite with_list_ne by done. apply H2.
      * intros s' c' Hc'. destruct (decide (s' = s)) as [->|Hne].
        { rewrite with_list_eq. rewrite Hss in Hc'. injection Hc' as <-. done. }
        rewrite with_list_ne by done. rewrite Hso in Hc' by done. destruct (H3 s' c' Hc') as [? Hl0]. split; [done|].
        apply (segment_frame (links_ w)); [done|]. intros a Ha. rewrite Hl', decide_False; [done|].
        intros Ha'. apply Hne. by apply (co_disjoint w l a s' s Hw).
      * intros s' Hn. destruct (decide (s' = s)) as [->|Hne]; [by rewrite with_list_eq|].
        rewrite with_list_ne by done. apply H4. by rewrite <- Hso.
      * intros s' c' Hc' Hd. destruct (decide (s' = s)) as [->|Hne]; [by rewrite with_list_eq|].
        rewrite with_list_ne by done. rewrite Hso in Hc' by done. by apply (H5 s' c').
      * intros r s'. rewrite Hr'. destruct (decide (s' = s)) as [->|Hne].
        { rewrite with_list_eq. destruct (decide (r ∈ l s)) as [?|Hno]; [by split; [intros ?%elem_of_nil|]|].
          split; [by intros ?%elem_of_nil|]. by intros ?%H6. }
        rewrite with_list_ne by done. rewrite H6. destruct (decide (r ∈ l s)) as [Hin|]; [|done].
        apply H6 in Hin. split; [|done]. congruence.
      * intros r. rewrite Hr', Hl'. destruct (decide (r ∈ l s)); [done|]. apply H7.
    + intros t. unfold is_cancellation_requested, token_state. destruct t as [s'|]; cbn; [|by rewrite !bool_decide_false by done].
      destruct (decide (s' = s)) as [->|Hne]; [rewrite Hss; by rewrite !bool_decide_true by done|].
      rewrite Hso by done. by rewrite (bool_decide_false (Some s' = Some s)) by congruence.
    + intros s'. destruct (decide (s' = s)) as [->|Hne]; [rewrite Hss, Hs; split; by eexists|]. by rewrite Hso.
Qed.

(** ** Resetting, and what a token tells *)

Lemma can_or_requested w t :
  (forall s, t = Some s -> is_Some (states w !! s)) -> is_cancellation_requested w t = false ->
  can_be_cancelled w t = bool_decide (is_Some t).
Proof.
  intros Ht Hr. destruct t as [s|]; [|done]. destruct (Ht s eq_refl) as [c Hc]. cbn. apply can_be_cancelled_inv. exists s, c. split; [done|]. split; [done|].
  destruct (state_ c) eqn:E; [done|]. assert (is_cancellation_requested w (Some s) = true); [|congruence].
  apply requested_inv. by exists s, c.
Qed.

Lemma reset_registration_ok w l r :
  cancellation_ok w l -> (forall s, reg_state_ w !! r = Some (Some s) -> is_Some (states w !! s)) ->
  exists w', reset_registration w r = Some w' /\ cancellation_ok w' (without l r) /\
    (forall s, state_ <$> states w' !! s = state_ <$> states w !! s) /\ reg_state_ w' = delete r (reg_state_ w).
Proof.
  intros Hw Hs. unfold reset_registration. destruct (reg_state_ w !! r) as [o|] eqn:Hr.
  - apply drop_registration_ok; [done|by eexists|]. by rewrite Hr.
  - exists w. split; [done|]. split; [|split; [done|by rewrite delete_id]].
    apply (cancellation_ok_ext w l); [|done]. intros s. apply without_other. intros ?%(co_member w l Hw). congruence.
Qed.

(** Two worlds in which the same sources are cancelled. *)
Definition same_states (w w' : cancellation) : Prop := forall s, state_ <$> states w' !! s = state_ <$> states w !! s.

Lemma same_source w w' s :
  same_states w w' ->
  (c ← states w' !! s; Some (bool_decide (state_ c = cancelled))) =
  (c ← states w !! s; Some (bool_decide (state_ c = cancelled))).
Proof.
  intros H. specialize (H s). destruct (states w' !! s), (states w !! s); cbn in *; try done.
  injection H as ->. done.
Qed.

Lemma same_exists w w' s : same_states w w' -> is_Some (states w' !! s) <-> is_Some (states w !! s).
Proof.
  intros H. rewrite <- !(fmap_is_Some state_ (states _ !! s)). by rewrite H.
Qed.

Lemma same_requested w w' t : same_states w w' -> is_cancellation_requested w' t = is_cancellation_requested w t.
Proof.
  intros H. unfold is_cancellation_requested. replace (token_state w' t) with (token_state w t); [done|].
  unfold token_state. destruct t as [s|]; [|done]. cbn. specialize (H s).
  destruct (states w' !! s), (states w !! s); cbn in *; done.
Qed.

Lemma source_alt w s :
  (c ← states w !! s; Some (bool_decide (state_ c = cancelled))) =
  (if decide (is_Some (states w !! s)) then Some (is_cancellation_requested w (Some s)) else None).
Proof.
  unfold is_cancellation_requested, token_state. cbn. destruct (states w !! s) as [c|]; cbn.
  - rewrite decide_True by by eexists. f_equal. apply bool_decide_ext. split; congruence.
  - rewrite decide_False; [done|]. by intros [? ?].
Qed.
