(* ===== verification/Awaiting.v ===== *)
(** What the awaiters of the library share: a suspended coroutine holds the
    token it was started with and, when that can be cancelled, a registration
    whose callback wakes it up; [await_resume] resets the registration. A table
    gives the token of every suspended coroutine; it and the lists of the
    cancellation states stay together. *)

From stdpp Require Import gmap.
From S2P Require Import Prelude AwaiterList Cancellation.

(** The registration is the number of its coroutine. An uncancelled source has
    the registrations of all that wait with a token of it. *)
Record awaiting_ok (c : cancellation) (l : nat -> list nat) (T : gmap nat token) : Prop := {
  aw_cancel : cancellation_ok c l;
  aw_reg a : is_Some (reg_state_ c !! a) -> is_Some (T !! a);
  aw_token a s : a ∈ l s -> T !! a = Some (Some s);
  aw_source a s : T !! a = Some (Some s) -> is_Some (states c !! s);
  aw_all a s : T !! a = Some (Some s) -> is_cancellation_requested c (Some s) = false -> a ∈ l s }.

Lemma awaiting_none : awaiting_ok no_cancellation (fun _ => []) ∅.
Proof.
  split.
  - apply no_cancellation_ok.
  - intros a. by rewrite !lookup_empty.
  - by intros a s ?%elem_of_nil.
  - intros a s H. by rewrite lookup_empty in H.
  - intros a s H. by rewrite lookup_empty in H.
Qed.

(** The first part of a suspension: the registration of a token that can be
    cancelled. *)
Definition start_waiting (c : cancellation) (a : nat) (t : token) : option cancellation :=
  if can_be_cancelled c t then new_registration c a t else Some c.

(** A new source is not cancelled, and the others stay as they are. *)
Lemma requested_new_source c s s' :
  states c !! s = None -> is_cancellation_requested (new_source c s) (Some s') = is_cancellation_requested c (Some s').
Proof.
  intros Hs. unfold is_cancellation_requested, token_state. cbn. destruct (decide (s = s')) as [->|Hne]; [by rewrite lookup_insert_eq, Hs|].
  by rewrite lookup_insert_ne.
Qed.

Lemma awaiting_source c l T s :
  awaiting_ok c l T -> states c !! s = None ->
  awaiting_ok (new_source c s) l T /\ forall t, is_cancellation_requested (new_source c s) t = is_cancellation_requested c t.
Proof.
  intros [H1 H2 H3 H4 H5] Hs.
  assert (forall t, is_cancellation_requested (new_source c s) t = is_cancellation_requested c t) as Hr.
  { intros [s'|]; [by apply requested_new_source|done]. }
  split; [split|done].
  - by apply new_source_ok.
  - done.
  - done.
  - intros a s' Ha. apply lookup_insert_is_Some'. right. by apply (H4 a).
  - intros a s' Ha. rewrite Hr. by apply H5.
Qed.

Lemma awaiting_start c l T a t :
  awaiting_ok c l T -> T !! a = None -> (forall s, t = Some s -> is_Some (states c !! s)) ->
  exists c', start_waiting c a t = Some c' /\ awaiting_ok c' (registered_in c l a t) (<[a := t]> T) /\ same_states c c'.
Proof.
  intros [H1 H2 H3 H4 H5] Ha Ht. unfold start_waiting.
  assert (forall s, a ∉ l s) as Hno by (intros s ?%H3; congruence).
  assert (reg_state_ c !! a = None) as Hreg.
  { destruct (reg_state_ c !! a) eqn:E; [|done]. destruct (H2 a) as [? ?]; [by rewrite E|congruence]. }
  assert (exists c', (if can_be_cancelled c t then new_registration c a t else Some c) = Some c' /\
    cancellation_ok c' (registered_in c l a t) /\ same_states c c' /\
    (forall b, is_Some (reg_state_ c' !! b) -> b = a \/ is_Some (reg_state_ c !! b))) as (c' & Ec & Hc & Hst & Hrg).
  { destruct (can_be_cancelled c t) eqn:E; [by apply new_registration_ok|]. exists c.
    split; [done|]. split; [|split; [done|by right]]. unfold registered_in. rewrite E. by destruct t. }
  exists c'. split; [done|]. split; [|done].
  assert (forall b s, b ∈ registered_in c l a t s <-> b ∈ l s \/ (b = a /\ t = Some s /\ can_be_cancelled c t = true)) as Hin.
  { intros b s. unfold registered_in. destruct t as [s0|]; [|split; [by left|intros [?|(_ & ? & _)]; done]].
    destruct (can_be_cancelled c (Some s0)); [|split; [by left|intros [?|(_ & _ & ?)]; done]].
    destruct (decide (s = s0)) as [->|Hne].
    - rewrite with_list_eq, elem_of_cons. split; [intros [->|?]; auto|intros [?|(-> & _)]; auto].
    - rewrite with_list_ne by done. split; [by left|]. intros [?|(_ & [= ?] & _)]; [done|congruence]. }
  split.
  - done.
  - intros b [->|Hb]%Hrg; apply lookup_insert_is_Some'; [by left|right; by apply H2].
  - intros b s [Hb|(-> & -> & _)]%Hin; [|apply lookup_insert_eq]. rewrite lookup_insert_ne; [by apply H3|]. intros <-. by destruct (Hno s).
  - intros b s Hb. apply (same_exists c c' s Hst). apply lookup_insert_Some in Hb as [[_ E]|[_ Hb]]; [by apply Ht|by apply (H4 b)].
  - intros b s Hb. rewrite (same_requested c c' (Some s) Hst). intros Hr. apply Hin.
    apply lookup_insert_Some in Hb as [[<- ->]|[_ Hb]]; [|left; by apply H5]. right. split; [done|]. split; [done|].
    rewrite can_or_requested by done. by apply bool_decide_eq_true.
Qed.

(** [registration_.reset()] and the end of the awaiter. *)
Lemma awaiting_reset c l T a :
  awaiting_ok c l T ->
  exists c', reset_registration c a = Some c' /\ awaiting_ok c' (without l a) (delete a T) /\ same_states c c'.
Proof.
  intros [H1 H2 H3 H4 H5]. destruct (reset_registration_ok c l a H1) as (c' & E & Hc & Hst & Hrg).
  { intros s Hs. apply (co_member c l H1) in Hs. by apply (H4 a s), H3. }
  exists c'. split; [done|]. split; [|done]. split.
  - done.
  - intros b. rewrite Hrg, !lookup_delete_is_Some. intros [? ?]. split; [done|]. by apply H2.
  - intros b s [Hne Hb]%elem_of_without. rewrite lookup_delete_ne by done. by apply H3.
  - intros b s [_ Hb]%lookup_delete_Some. apply (same_exists c c' s Hst). by apply (H4 b).
  - intros b s [Hne Hb]%lookup_delete_Some. rewrite (same_requested c c' (Some s) Hst). intros Hr. apply elem_of_without.
    split; [by apply not_eq_sym|by apply H5].
Qed.

(** A source is cancelled: the callbacks of all that wait with it run. *)
Lemma awaiting_cancel c l T s :
  awaiting_ok c l T -> is_Some (states c !! s) ->
  exists c', request_cancellation c s = Some (c', l s) /\ awaiting_ok c' (with_list l s []) T /\
    (forall t, is_cancellation_requested c' t = bool_decide (t = Some s) || is_cancellation_requested c t) /\
    (forall s', is_Some (states c' !! s') <-> is_Some (states c !! s')).
Proof.
  intros [H1 H2 H3 H4 H5] Hs. destruct (request_cancellation_ok c l s H1 Hs) as (c' & E & Hc & Hreq & Hst & Hrg).
  exists c'. split; [done|]. split; [|done]. split.
  - done.
  - intros b. rewrite Hrg. destruct (decide (b ∈ l s)) as [Hin|]; [|apply H2]. intros _. rewrite (H3 b s Hin). by eexists.
  - intros b s' Hb. destruct (decide (s' = s)) as [->|Hne]; [rewrite with_list_eq in Hb; by apply elem_of_nil in Hb|].
    rewrite with_list_ne in Hb by done. by apply H3.
  - intros b s' Hb. apply Hst. by apply (H4 b).
  - intros b s' Hb. rewrite Hreq. intros [Hne Hr]%orb_false_iff. apply bool_decide_eq_false in Hne.
    rewrite with_list_ne by congruence. by apply H5.
Qed.
