(* ===== verification/Mutex.v ===== *)
(** The coroutine mutex (src/runtime/src/coro/mutex.cpp,
    src/runtime/include/simple/coro/mutex.h) with the cancellation of its
    waiters and the part of the scheduler that resumes them
    ([wake_up_coroutine], the last loop of [scheduler::run]).

    An awaiter is known by the number of its coroutine; it lives from
    [co_await mutex.lock()] to the end of [await_resume]. Every operation on an
    awaiter that is gone is [None]. *)

From stdpp Require Import gmap.
From S2P Require Import Prelude AwaiterList Cancellation.

(** * Data *)

(** [mutex_state], the [token_] of the awaiters, their registrations (known by
    the awaiter they belong to), and [wake_up_coroutine_]. *)
Record mutex_world := MutexWorld {
  locked_ : bool; waiters_ : queue; token_ : gmap nat token; cancel_ : cancellation; wake_ : list nat }.

Definition mutex_new : mutex_world := MutexWorld false (Queue None None ∅) ∅ no_cancellation [].

(** What [co_await mutex.lock()] does in the end: it returns, or it throws
    [coro_errors::canceled]. *)
Inductive resumed := Acquired | Canceled.

(** * Operations *)

Definition wake_up (a : nat) (w : mutex_world) : mutex_world :=
  MutexWorld (locked_ w) (waiters_ w) (token_ w) (cancel_ w) (wake_ w ++ [a]).

Definition set_waiters (q : queue) (w : mutex_world) : mutex_world :=
  MutexWorld (locked_ w) q (token_ w) (cancel_ w) (wake_ w).

Definition set_cancel (c : cancellation) (w : mutex_world) : mutex_world :=
  MutexWorld (locked_ w) (waiters_ w) (token_ w) c (wake_ w).

Definition set_locked (b : bool) (w : mutex_world) : mutex_world :=
  MutexWorld b (waiters_ w) (token_ w) (cancel_ w) (wake_ w).

Definition try_lock (w : mutex_world) (a : nat) : option (bool * mutex_world) :=
  if negb (locked_ w) then Some (true, set_locked true w)
  else q ← add_awaiter (waiters_ w) a; Some (false, set_waiters q w).

(** [mutex_awaiter::await_suspend] of a new awaiter. *)
Definition await_suspend (w : mutex_world) (a : nat) (t : token) : option (bool * mutex_world) :=
  let q := Queue (header_ (waiters_ w)) (tail_ (waiters_ w)) (<[a := unlinked]> (nodes (waiters_ w))) in
  let w := MutexWorld (locked_ w) q (<[a := t]> (token_ w)) (cancel_ w) (wake_ w) in
  if is_cancellation_requested (cancel_ w) t then Some (false, w)
  else
    '(ok, w) ← try_lock w a;
    if (ok : bool) then Some (false, w)
    else if can_be_cancelled (cancel_ w) t then
      c ← new_registration (cancel_ w) a t; Some (true, set_cancel c w)
    else Some (true, w).

(** [mutex_awaiter::await_resume] and the end of the awaiter. *)
Definition await_resume (w : mutex_world) (a : nat) : option (resumed * mutex_world) :=
  t ← token_ w !! a;
  c ← reset_registration (cancel_ w) a;
  let r := if is_cancellation_requested c t then Canceled else Acquired in
  let q := Queue (header_ (waiters_ w)) (tail_ (waiters_ w)) (delete a (nodes (waiters_ w))) in
  Some (r, MutexWorld (locked_ w) q (delete a (token_ w)) c (wake_ w)).

(** [co_await mutex.lock()] by coroutine [a] with the token [t]. *)
Definition lock (w : mutex_world) (a : nat) (t : token) : option (mutex_world * list (nat * resumed)) :=
  '(suspended, w) ← await_suspend w a t;
  if (suspended : bool) then Some (w, [])
  else '(r, w) ← await_resume w a; Some (w, [(a, r)]).

Definition unlock (w : mutex_world) : option mutex_world :=
  if negb (locked_ w) then Some w
  else
    match header_ (waiters_ w) with
    | Some a =>
        q ← remove_awaiter (waiters_ w) a;
        c ← reset_registration (cancel_ w) a;
        Some (wake_up a (set_cancel c (set_waiters q w)))
    | None => Some (set_locked false w)
    end.

(** The callback of [mutex_awaiter::await_suspend]. *)
Definition on_cancel (w : mutex_world) (a : nat) : option mutex_world :=
  q ← remove_awaiter (waiters_ w) a; Some (wake_up a (set_waiters q w)).

Fixpoint run_callbacks (w : mutex_world) (fired : list nat) : option mutex_world :=
  match fired with
  | [] => Some w
  | a :: fired => w ← on_cancel w a; run_callbacks w fired
  end.

Definition cancel (w : mutex_world) (s : nat) : option mutex_world :=
  '(c, fired) ← request_cancellation (cancel_ w) s; run_callbacks (set_cancel c w) fired.

(** One turn of the loop over [wake_up_coroutine_]. *)
Definition resume (w : mutex_world) : option (mutex_world * list (nat * resumed)) :=
  match wake_ w with
  | [] => Some (w, [])
  | a :: rest =>
      '(r, w) ← await_resume (MutexWorld (locked_ w) (waiters_ w) (token_ w) (cancel_ w) rest) a;
      Some (w, [(a, r)])
  end.

(** The calls the coroutines make, and a turn of the scheduler. *)
Inductive mutex_op :=
  | OpSource (s : nat)
  | OpLock (a : nat) (t : token)
  | OpUnlock (a : nat)
  | OpCancel (s : nat)
  | OpResume.

Definition mutex_step (w : mutex_world) (op : mutex_op) : option (mutex_world * list (nat * resumed)) :=
  match op with
  | OpSource s => Some (set_cancel (new_source (cancel_ w) s) w, [])
  | OpLock a t => lock w a t
  | OpUnlock _ => w ← unlock w; Some (w, [])
  | OpCancel s => w ← cancel w s; Some (w, [])
  | OpResume => resume w
  end.

(** * The abstract lock

    A line of waiting coroutines, the ones that will be resumed, and the
    sources with whether they are cancelled. *)

Record lock_spec := LockSpec {
  sp_locked : bool; sp_line : list nat; sp_wake : list nat;
  sp_token : gmap nat token; sp_sources : gmap nat bool }.

Definition spec_new : lock_spec := LockSpec false [] [] ∅ ∅.

Definition spec_requested (sp : lock_spec) (t : token) : bool :=
  match t with Some s => bool_decide (sp_sources sp !! s = Some true) | None => false end.

Definition on_source (sp : lock_spec) (s : nat) (a : nat) : Prop := sp_token sp !! a = Some (Some s).

#[export] Instance on_source_dec sp s a : Decision (on_source sp s a).
Proof. unfold on_source. apply _. Defined.

Definition spec_step (sp : lock_spec) (op : mutex_op) : lock_spec * list (nat * resumed) :=
  match op with
  | OpSource s =>
      (LockSpec (sp_locked sp) (sp_line sp) (sp_wake sp) (sp_token sp) (<[s := false]> (sp_sources sp)), [])
  | OpLock a t =>
      if spec_requested sp t then (sp, [(a, Canceled)])
      else if negb (sp_locked sp) then
        (LockSpec true (sp_line sp) (sp_wake sp) (sp_token sp) (sp_sources sp), [(a, Acquired)])
      else
        (LockSpec true (sp_line sp ++ [a]) (sp_wake sp) (<[a := t]> (sp_token sp)) (sp_sources sp), [])
  | OpUnlock _ =>
      if negb (sp_locked sp) then (sp, [])
      else
        match sp_line sp with
        | a :: line => (LockSpec true line (sp_wake sp ++ [a]) (sp_token sp) (sp_sources sp), [])
        | [] => (LockSpec false [] (sp_wake sp) (sp_token sp) (sp_sources sp), [])
        end
  | OpCancel s =>
      if spec_requested sp (Some s) then (sp, [])
      else
        (LockSpec (sp_locked sp) (filter (fun a => ~ on_source sp s a) (sp_line sp))
           (sp_wake sp ++ reverse (filter (on_source sp s) (sp_line sp))) (sp_token sp)
           (<[s := true]> (sp_sources sp)), [])
  | OpResume =>
      match sp_wake sp with
      | [] => (sp, [])
      | a :: rest =>
          (LockSpec (sp_locked sp) (sp_line sp) rest (delete a (sp_token sp)) (sp_sources sp),
           [(a, match sp_token sp !! a with
                | Some t => if spec_requested sp t then Canceled else Acquired
                | None => Acquired
                end)])
      end
  end.

(** Who holds the lock: [lock] has returned to it and it has not unlocked. *)
Definition holders_after (h : list nat) (op : mutex_op) (rs : list (nat * resumed)) : list nat :=
  let h := match op with OpUnlock a => filter (fun b => b <> a) h | _ => h end in
  h ++ omap (fun r => match r.2 with Acquired => Some r.1 | Canceled => None end) rs.

(** What the coroutines may do: only a holder unlocks, a coroutine that holds
    the lock or waits does not lock again, a token belongs to a source. *)
Definition legal (w : mutex_world) (h : list nat) (op : mutex_op) : Prop :=
  match op with
  | OpSource s => states (cancel_ w) !! s = None
  | OpLock a t =>
      (a ∉ h) /\ token_ w !! a = None /\ (match t with Some s => is_Some (states (cancel_ w) !! s) | None => True end)
  | OpUnlock a => a ∈ h
  | OpCancel s => is_Some (states (cancel_ w) !! s)
  | OpResume => True
  end.

Fixpoint mutex_run (w : mutex_world) (h : list nat) (ops : list mutex_op)
    : option (mutex_world * list nat * list (nat * resumed)) :=
  match ops with
  | [] => Some (w, h, [])
  | op :: ops =>
      '(w, rs) ← mutex_step w op;
      '(w, h, out) ← mutex_run w (holders_after h op rs) ops;
      Some (w, h, rs ++ out)
  end.

(** The calls are legal where they are made. *)
Fixpoint legal_run (w : mutex_world) (h : list nat) (ops : list mutex_op) : Prop :=
  match ops with
  | [] => True
  | op :: ops =>
      legal w h op /\
      match mutex_step w op with Some (w, rs) => legal_run w (holders_after h op rs) ops | None => True end
  end.

Fixpoint spec_run (sp : lock_spec) (h : list nat) (ops : list mutex_op)
    : lock_spec * list nat * list (nat * resumed) :=
  match ops with
  | [] => (sp, h, [])
  | op :: ops =>
      let '(sp, rs) := spec_step sp op in
      let '(sp, h, out) := spec_run sp (holders_after h op rs) ops in
      (sp, h, rs ++ out)
  end.

(** * The refinement *)

(** The registrations of a source: the waiting coroutines with its token, the
    last one first. *)
Definition waiting_on (sp : lock_spec) (s : nat) : list nat := reverse (filter (on_source sp s) (sp_line sp)).

Record implements (w : mutex_world) (sp : lock_spec) : Prop := {
  im_locked : locked_ w = sp_locked sp;
  im_line : list_at (waiters_ w) (sp_line sp);
  im_wake : wake_ w = sp_wake sp;
  im_token : token_ w = sp_token sp;
  im_source s : sp_sources sp !! s = (c ← states (cancel_ w) !! s; Some (bool_decide (state_ c = cancelled)));
  im_cancel : cancellation_ok (cancel_ w) (waiting_on sp);
  im_live a : is_Some (nodes (waiters_ w) !! a) <-> is_Some (token_ w !! a);
  im_member a : is_Some (token_ w !! a) <-> a ∈ sp_line sp \/ a ∈ sp_wake sp;
  im_nodup : NoDup (sp_line sp ++ sp_wake sp);
  im_reg a : is_Some (reg_state_ (cancel_ w) !! a) -> is_Some (token_ w !! a);
  im_known a s : sp_token sp !! a = Some (Some s) -> is_Some (states (cancel_ w) !! s);
  im_waits a : a ∈ sp_line sp -> sp_locked sp = true }.

Lemma implements_new : implements mutex_new spec_new.
Proof.
  split; cbn; try done.
  - apply empty_list_at. intros a k H. by rewrite lookup_empty in H.
  - apply (cancellation_ok_ext _ (fun _ => [])); [done|apply no_cancellation_ok].
  - intros a. by rewrite !lookup_empty.
  - intros a. split; [rewrite lookup_empty; by intros [? ?]|]. intros [Ha|Ha]; by apply elem_of_nil in Ha.
  - constructor.
  - by intros a ?%elem_of_nil.
Qed.

(** ** Pieces *)

Lemma im_requested w sp t :
  implements w sp -> is_cancellation_requested (cancel_ w) t = spec_requested sp t.
Proof.
  intros Hw. unfold is_cancellation_requested, spec_requested, token_state. destruct t as [s|]; cbn; [|done].
  rewrite (im_source w sp Hw). destruct (states (cancel_ w) !! s) as [c|]; cbn; [|done].
  apply bool_decide_ext.
  destruct (bool_decide_reflect (state_ c = cancelled)) as [->|]; split; congruence.
Qed.

(** ** Each call *)

Lemma not_live_not_in w sp a : implements w sp -> token_ w !! a = None -> (a ∉ sp_line sp) /\ (a ∉ sp_wake sp).
Proof.
  intros Hw Ha. pose proof (im_member w sp Hw a) as Hm. rewrite Ha in Hm.
  split; intros Hin; destruct (proj2 Hm) as [? ?]; auto; done.
Qed.

Lemma in_token w sp a : implements w sp -> a ∈ sp_line sp \/ a ∈ sp_wake sp -> exists t, token_ w !! a = Some t.
Proof. intros Hw Ha. apply (im_member w sp Hw) in Ha as [t Ht]. by exists t. Qed.

Lemma in_exists w sp a : implements w sp -> a ∈ sp_line sp \/ a ∈ sp_wake sp -> exists_in (waiters_ w) a.
Proof. intros Hw Ha. apply (im_live w sp Hw). by apply (im_member w sp Hw). Qed.

(** The registrations when a coroutine joins or leaves the line. *)
Lemma waiting_join sp a t s :
  a ∉ sp_line sp ->
  waiting_on (LockSpec true (sp_line sp ++ [a]) (sp_wake sp) (<[a := t]> (sp_token sp)) (sp_sources sp)) s =
    (if decide (t = Some s) then a :: waiting_on sp s else waiting_on sp s).
Proof.
  intros Ha. set (sp' := LockSpec _ _ _ _ _). unfold waiting_on. cbn [sp_line sp']. rewrite list.filter_app.
  rewrite (filter_agree (on_source sp' s) (on_source sp s) (sp_line sp)).
  - rewrite (list.filter_cons (on_source sp' s) a []).
    assert (on_source sp' s a <-> t = Some s) as E.
    { unfold on_source. cbn. rewrite lookup_insert_eq. split; congruence. }
    destruct (decide (on_source sp' s a)), (decide (t = Some s)); try tauto.
    + by rewrite reverse_app.
    + by rewrite app_nil_r.
  - intros b Hb. unfold on_source. cbn. rewrite lookup_insert_ne; [done|]. by intros <-.
Qed.

(** A new awaiter is in no store yet. *)
Lemma new_awaiter w sp a :
  implements w sp -> token_ w !! a = None ->
  reg_state_ (cancel_ w) !! a = None /\ nodes (waiters_ w) !! a = None.
Proof.
  intros Hw Ha. split.
  - destruct (reg_state_ (cancel_ w) !! a) eqn:E; [|done].
    destruct (im_reg w sp Hw a) as [? ?]; [by rewrite E|congruence].
  - destruct (nodes (waiters_ w) !! a) eqn:E; [|done].
    destruct (proj1 (im_live w sp Hw a)) as [? ?]; [by rewrite E|congruence].
Qed.

(** A coroutine that gets no lock joins the line, and the registrations of its
    source. *)
Lemma implements_join w sp a t q c :
  implements w sp -> token_ w !! a = None -> sp_locked sp = true ->
  (forall s, t = Some s -> is_Some (states (cancel_ w) !! s)) -> spec_requested sp t = false ->
  list_at q (sp_line sp ++ [a]) -> (forall b, exists_in q b <-> b = a \/ exists_in (waiters_ w) b) ->
  cancellation_ok c (registered_in (cancel_ w) (waiting_on sp) a t) -> same_states (cancel_ w) c ->
  (forall b, is_Some (reg_state_ c !! b) -> b = a \/ is_Some (reg_state_ (cancel_ w) !! b)) ->
  implements (MutexWorld true q (<[a := t]> (token_ w)) c (wake_ w))
    (LockSpec true (sp_line sp ++ [a]) (sp_wake sp) (<[a := t]> (sp_token sp)) (sp_sources sp)).
Proof.
  intros Hw Ha Hlk Ht Hreq Hq Hdom Hc Hsame Hreg. pose proof Hw as [M1 M2 M3 M4 M5 M6 M7 M8 M9 M10 M11 M12].
  destruct (not_live_not_in w sp a Hw Ha) as [Hl Hwk]. split; cbn.
  - done.
  - done.
  - done.
  - by rewrite M4.
  - intros s. by rewrite (same_source _ _ s Hsame).
  - eapply cancellation_ok_ext; [|exact Hc]. intros s. rewrite waiting_join by done. unfold registered_in.
    destruct t as [s'|]; [|by rewrite decide_False by done].
    rewrite (can_or_requested _ (Some s') Ht) by by rewrite (im_requested w sp _ Hw). cbn.
    destruct (decide (Some s' = Some s)) as [[= ->]|Hne]; [by rewrite with_list_eq|].
    rewrite with_list_ne by congruence. done.
  - intros b. rewrite lookup_insert_is_Some', <- M7. specialize (Hdom b). unfold exists_in in Hdom. rewrite Hdom.
    split; (intros [?|?]; [left; congruence|by right]).
  - intros b. rewrite lookup_insert_is_Some', M8, elem_of_app, list_elem_of_singleton.
    split; [intros [->|[?|?]]|intros [[?| ->]|?]]; auto.
  - rewrite <- app_assoc. apply list.NoDup_app in M9 as (N1 & N2 & N3). apply list.NoDup_app. split; [done|].
    split; [|by apply list.NoDup_cons]. intros b Hb [->|?]%elem_of_cons; [done|]. by apply (N2 b).
  - intros b [->|Hb]%Hreg; apply lookup_insert_is_Some'; [by left|]. right. by apply M10.
  - intros b s. rewrite (same_exists _ _ s Hsame). intros [[<- E]|[_ E]]%lookup_insert_Some; [by apply Ht|by apply (M11 b)].
  - done.
Qed.

Lemma lock_ok w sp a t :
  implements w sp -> token_ w !! a = None -> (forall s, t = Some s -> is_Some (states (cancel_ w) !! s)) ->
  exists w', lock w a t = Some (w', (spec_step sp (OpLock a t)).2) /\ implements w' (spec_step sp (OpLock a t)).1.
Proof.
  intros Hw Ha Ht. destruct (not_live_not_in w sp a Hw Ha) as [Hl Hwk]. destruct (new_awaiter w sp a Hw Ha) as [Hreg Hna].
  unfold lock, await_suspend. cbn [cancel_]. rewrite (im_requested w sp t Hw). cbn [spec_step].
  destruct (spec_requested sp t) eqn:Hreq.
  - unfold await_resume. cbn. rewrite lookup_insert_eq. cbn. unfold reset_registration. rewrite Hreg. cbn.
    rewrite (im_requested w sp t Hw), Hreq. eexists. split; [done|]. rewrite !delete_insert_id by done.
    by destruct w as [? [? ? ?] ? ? ?].
  - unfold try_lock. cbn [locked_]. rewrite (im_locked w sp Hw). destruct (sp_locked sp) eqn:Hlk; cbn.
    + destruct (add_free _ _ a (list_at_insert _ _ a (im_line w sp Hw) Hl)) as (q & Eq & Hq & Hsame);
        [unfold exists_in; cbn; rewrite lookup_insert_eq; by eexists|done|].
      rewrite Eq. cbn. rewrite (can_or_requested _ t Ht) by by rewrite (im_requested w sp t Hw).
      assert (forall b, exists_in q b <-> b = a \/ exists_in (waiters_ w) b) as Hdom.
      { intros b. rewrite (Hsame b). unfold exists_in. cbn. rewrite lookup_insert_is_Some'.
        split; (intros [?|?]; [left; congruence|by right]). }
      destruct (new_registration_ok _ _ a t (im_cancel w sp Hw) Hreg) as (c & Ec & Hc & Hst & Hrg).
      destruct (bool_decide_reflect (is_Some t)) as [Hsome|Hnone].
      * rewrite Ec. cbn. eexists. split; [done|]. apply (implements_join w sp a t q c); done.
      * eexists. split; [done|]. apply (implements_join w sp a t q (cancel_ w)); try done; [|by auto].
        unfold registered_in. destruct t; [destruct Hnone; by eexists|apply (im_cancel w sp Hw)].
    + unfold await_resume. cbn. rewrite lookup_insert_eq. cbn. unfold reset_registration. rewrite Hreg. cbn.
      rewrite (im_requested w sp t Hw), Hreq. eexists. split; [done|]. rewrite !delete_insert_id by done.
      pose proof Hw as [M1 M2 M3 M4 M5 M6 M7 M8 M9 M10 M11 M12]. destruct (waiters_ w) as [h tl n].
      split; try done.
Qed.

Lemma waiting_on_in sp s a : a ∈ waiting_on sp s -> a ∈ sp_line sp /\ on_source sp s a.
Proof. unfold waiting_on. rewrite elem_of_reverse, list_elem_of_filter. tauto. Qed.

(** The registration of a live awaiter, whatever its state, can be reset. *)
Lemma reset_live w sp a :
  implements w sp ->
  exists c, reset_registration (cancel_ w) a = Some c /\ cancellation_ok c (without (waiting_on sp) a) /\
    same_states (cancel_ w) c /\ reg_state_ c = delete a (reg_state_ (cancel_ w)).
Proof.
  intros Hw. apply reset_registration_ok; [apply (im_cancel w sp Hw)|].
  intros s Hs. apply (co_member _ _ (im_cancel w sp Hw)) in Hs. apply waiting_on_in in Hs as [_ Hs].
  by apply (im_known w sp Hw a).
Qed.

Lemma waiting_leave sp a line s locked wake :
  sp_line sp = a :: line -> NoDup (a :: line) ->
  waiting_on (LockSpec locked line wake (sp_token sp) (sp_sources sp)) s = without (waiting_on sp) a s.
Proof.
  intros El [Ha Hn]%list.NoDup_cons. unfold without, waiting_on. cbn [sp_line]. rewrite filter_reverse, El.
  rewrite filter_commute, list.filter_cons_False by auto. rewrite filter_keeps by done.
  f_equal.
Qed.

Lemma unlock_ok w sp a :
  implements w sp -> exists w', unlock w = Some w' /\ implements w' (spec_step sp (OpUnlock a)).1.
Proof.
  intros Hw. pose proof Hw as [M1 M2 M3 M4 M5 M6 M7 M8 M9 M10 M11 M12]. unfold unlock. rewrite M1. cbn [spec_step].
  destruct (sp_locked sp) eqn:Hlk; cbn [negb]; [|by exists w]. rewrite (at_header _ _ M2).
  destruct (sp_line sp) as [|b line] eqn:El; cbn [first_of].
  - eexists. split; [done|]. split; cbn; rewrite ?El in *; try done.
    + eapply cancellation_ok_ext; [|exact M6]. intros s. unfold waiting_on. by rewrite El.
    + by intros c ?%elem_of_nil.
  - destruct (remove_linked _ [] b line M2) as (q & Eq & Hq & Hsame). rewrite Eq. cbn.
    destruct (reset_live w sp b Hw) as (c & Ec & Hc & Hst & Hrg). rewrite Ec. cbn.
    pose proof M9 as (N1 & N2 & N3)%list.NoDup_app. eexists. split; [done|]. split; cbn.
    + by rewrite M1.
    + done.
    + by rewrite M3.
    + done.
    + intros s. rewrite M5. symmetry. by apply same_source.
    + eapply cancellation_ok_ext; [|exact Hc]. intros s. by apply waiting_leave.
    + intros x. rewrite <- M7. apply Hsame.
    + intros x. rewrite M8, elem_of_cons, elem_of_app, list_elem_of_singleton. tauto.
    + rewrite app_assoc, (Permutation_app_comm (line ++ sp_wake sp) [b]). exact M9.
    + intros x. rewrite Hrg. intros [? [_ ?]%lookup_delete_Some]. apply M10. by eexists.
    + intros x s. rewrite (same_exists _ _ s Hst). apply M11.
    + done.
Qed.

Lemma mutex_run_callbacks_ok fired : forall w line,
  list_at (waiters_ w) line -> (forall a, a ∈ fired -> exists_in (waiters_ w) a) ->
  exists q, run_callbacks w fired = Some (MutexWorld (locked_ w) q (token_ w) (cancel_ w) (wake_ w ++ fired)) /\
    list_at q (filter (fun a => a ∉ fired) line) /\ same_nodes (waiters_ w) q.
Proof.
  induction fired as [|a fired IH]; intros w line Hl Hex; cbn [run_callbacks].
  - exists (waiters_ w). rewrite app_nil_r. split; [by destruct w|]. split; [|done].
    rewrite (filter_agree _ (fun _ => True)); [|intros a _; split; [done|intros _; apply not_elem_of_nil]].
    rewrite (filter_true line). exact Hl.
  - unfold on_cancel. destruct (awaiter_remove_ok _ line a Hl (Hex a (list_elem_of_here _ _))) as (q & -> & Hq & Hsame). cbn.
    destruct (IH (wake_up a (set_waiters q w)) _ Hq) as (q' & E & Hq' & Hsame').
    { intros b Hb. apply Hsame. apply Hex. by apply list_elem_of_further. }
    exists q'. rewrite E. cbn. rewrite <- app_assoc. split; [done|]. split.
    + rewrite list_filter_filter in Hq'. erewrite filter_agree; [exact Hq'|]. intros b _. cbn.
      rewrite not_elem_of_cons. tauto.
    + intros b. rewrite (Hsame' b). apply Hsame.
Qed.

Lemma waiting_cancelled sp s wake sources s' :
  waiting_on (LockSpec (sp_locked sp) (filter (fun a => ~ on_source sp s a) (sp_line sp)) wake (sp_token sp) sources) s' =
  with_list (waiting_on sp) s [] s'.
Proof.
  unfold with_list, waiting_on at 1. cbn [sp_line]. rewrite list_filter_filter. destruct (decide (s' = s)) as [->|Hne].
  - rewrite (filter_agree _ (fun _ => False)); [by induction (sp_line sp)|]. intros a _. unfold on_source. cbn. tauto.
  - unfold waiting_on. f_equal. apply filter_agree. intros a _. unfold on_source. cbn. split; [tauto|].
    intros Ha. split; [done|]. congruence.
Qed.

Lemma mutex_cancel_ok w sp s :
  implements w sp -> is_Some (states (cancel_ w) !! s) ->
  exists w', cancel w s = Some w' /\ implements w' (spec_step sp (OpCancel s)).1.
Proof.
  intros Hw Hs. pose proof Hw as [M1 M2 M3 M4 M5 M6 M7 M8 M9 M10 M11 M12].
  destruct (request_cancellation_ok _ _ s M6 Hs) as (c & Ec & Hc & Hreq & Hst & Hrg).
  unfold cancel. rewrite Ec. cbn.
  destruct (mutex_run_callbacks_ok (waiting_on sp s) (set_cancel c w) (sp_line sp) M2) as (q & Eq & Hq & Hsame).
  { intros a [Ha _]%waiting_on_in. apply (in_exists w sp a Hw). by left. }
  rewrite Eq. cbn in *. eexists. split; [done|].
  assert (filter (fun a => a ∉ waiting_on sp s) (sp_line sp) = filter (fun a => ~ on_source sp s a) (sp_line sp)) as El.
  { apply filter_agree. intros a Ha. unfold waiting_on. rewrite elem_of_reverse, list_elem_of_filter. tauto. }
  rewrite El in Hq.
  assert (forall s', (c0 ← states c !! s'; Some (bool_decide (state_ c0 = cancelled))) =
            <[s := true]> (sp_sources sp) !! s') as Hsrc.
  { intros s'. rewrite source_alt, Hreq. destruct (decide (s = s')) as [<-|Hne].
    - rewrite lookup_insert_eq, decide_True by by apply Hst. by rewrite bool_decide_true.
    - rewrite lookup_insert_ne, M5, source_alt by done. rewrite (bool_decide_false (Some s' = Some s)) by congruence.
      cbn. apply decide_ext. apply Hst. }
  assert (forall a, is_Some (reg_state_ c !! a) -> is_Some (token_ w !! a)) as Hreg.
  { intros a. rewrite Hrg. destruct (decide (a ∈ waiting_on sp s)) as [[Ha _]%waiting_on_in|]; [|apply M10].
    intros _. apply M8. by left. }
  destruct (bool_decide (sp_sources sp !! s = Some true)) eqn:E; cbn [fst].
  - assert (waiting_on sp s = []) as En.
    { change (spec_requested sp (Some s) = true) in E. rewrite <- (im_requested w sp _ Hw) in E. apply requested_inv in E as (s' & c' & [= <-] & Hs' & Hc').
      by apply (co_done _ _ M6 s c'). }
    assert (forall a, a ∈ sp_line sp -> ~ on_source sp s a) as Hno.
    { intros a Ha Hon. apply (not_elem_of_nil a). rewrite <- En. unfold waiting_on.
      by rewrite elem_of_reverse, list_elem_of_filter. }
    assert (filter (fun a => ~ on_source sp s a) (sp_line sp) = sp_line sp) as El'.
    { rewrite <- (filter_true (sp_line sp)) at 2. apply filter_agree. intros a Ha. split; [done|intros _; by apply Hno]. }
    rewrite El' in Hq. split; cbn; rewrite ?En, ?app_nil_r; try done.
    + intros s'. rewrite Hsrc. destruct (decide (s = s')) as [<-|Hne]; [|by rewrite lookup_insert_ne].
      rewrite lookup_insert_eq. by apply bool_decide_eq_true in E.
    + eapply cancellation_ok_ext; [|exact Hc]. intros s'. destruct (decide (s' = s)) as [->|Hne].
      * by rewrite with_list_eq.
      * by rewrite with_list_ne.
    + intros a. rewrite <- M7. apply Hsame.
    + intros a s' Ha. apply Hst. by apply (M11 a).
  - split; cbn; try done.
    + by rewrite M3.
    + eapply cancellation_ok_ext; [|exact Hc]. intros s'. apply waiting_cancelled.
    + intros a. rewrite <- M7. apply Hsame.
    + intros a. rewrite M8, elem_of_app, elem_of_reverse, !list_elem_of_filter.
      destruct (decide (on_source sp s a)); tauto.
    + rewrite app_assoc, (Permutation_app_comm _ (reverse _)), app_assoc, reverse_Permutation.
      rewrite (list.filter_app_complement (on_source sp s) (sp_line sp)). done.
    + intros a s' Ha. apply Hst. by apply (M11 a).
    + intros a [_ Ha]%list_elem_of_filter. by apply (M12 a).
Qed.

Lemma mutex_resume_ok w sp :
  implements w sp ->
  exists w', resume w = Some (w', (spec_step sp OpResume).2) /\ implements w' (spec_step sp OpResume).1.
Proof.
  intros Hw. pose proof Hw as [M1 M2 M3 M4 M5 M6 M7 M8 M9 M10 M11 M12]. unfold resume. cbn [spec_step]. rewrite M3.
  destruct (sp_wake sp) as [|a rest] eqn:Ew; [by exists w|]. unfold await_resume. cbn [token_].
  destruct (in_token w sp a Hw) as [t Ht]; [right; rewrite Ew; apply list_elem_of_here|].
  rewrite Ht. cbn. destruct (reset_live w sp a Hw) as (c & Ec & Hc & Hst & Hrg). rewrite Ec. cbn.
  rewrite (same_requested _ _ t Hst), (im_requested w sp t Hw), <- M4, Ht. eexists. split; [done|].
  apply list.NoDup_app in M9 as (N1 & N2 & [Na N3]%list.NoDup_cons).
  assert (a ∉ sp_line sp) as Ha by (intros Hin; apply (N2 a Hin), list_elem_of_here).
  assert (forall b, b ∈ sp_line sp -> b <> a) as Hba by (intros b Hb ->; done).
  split; cbn.
  - done.
  - by apply list_at_delete.
  - done.
  - done.
  - intros s. rewrite M5. symmetry. by apply same_source.
  - eapply cancellation_ok_ext; [|exact Hc]. intros s. unfold without, waiting_on. cbn [sp_line].
    rewrite filter_reverse, filter_commute, (filter_keeps (sp_line sp)) by done. f_equal. apply filter_agree.
    intros b Hb. unfold on_source. cbn. rewrite lookup_delete_ne by (by apply not_eq_sym, Hba). by rewrite M4.
  - intros b. rewrite !lookup_delete_is_Some, M7. done.
  - intros b. rewrite lookup_delete_is_Some, M8, elem_of_cons. split.
    + intros [Hne [?|[?|?]]]; auto. congruence.
    + intros [Hb|Hb]; (split; [|by auto]); intros ->; auto.
  - apply list.NoDup_app. split; [done|]. split; [|done]. intros b Hb ?. apply (N2 b Hb). by apply list_elem_of_further.
  - intros b. rewrite Hrg, !lookup_delete_is_Some. intros [? ?]. split; [done|]. by apply M10.
  - intros b s. rewrite (same_exists _ _ s Hst). intros [_ Hb]%lookup_delete_Some. apply (M11 b). by rewrite <- M4.
  - done.
Qed.

Lemma mutex_step_ok w sp h op :
  implements w sp -> legal w h op ->
  exists w', mutex_step w op = Some (w', (spec_step sp op).2) /\ implements w' (spec_step sp op).1.
Proof.
  intros Hw Hl. destruct op as [s|a t|a|s|]; cbn [mutex_step legal] in *.
  - eexists. split; [done|]. pose proof Hw as [M1 M2 M3 M4 M5 M6 M7 M8 M9 M10 M11 M12]. split; cbn; try done.
    + intros s'. destruct (decide (s = s')) as [<-|Hne]; [by rewrite !lookup_insert_eq|]. by rewrite !lookup_insert_ne.
    + eapply cancellation_ok_ext; [|by apply new_source_ok]. done.
    + intros a s' Ha. apply lookup_insert_is_Some'. right. by apply (M11 a).
  - destruct Hl as (_ & Ha & Ht). apply lock_ok; [done|done|]. by intros s ->.
  - destruct (unlock_ok w sp a Hw) as (w' & -> & Hw'). exists w'. cbn [spec_step] in *. split; [|done].
    destruct (sp_locked sp); [|done]. by destruct (sp_line sp).
  - destruct (mutex_cancel_ok w sp s Hw Hl) as (w' & -> & Hw'). exists w'. cbn [spec_step] in *. split; [|done].
    by destruct (spec_requested sp (Some s)).
  - by apply mutex_resume_ok.
Qed.

(** ** Exclusion *)

(** A coroutine that will be resumed and has not been cancelled has the lock. *)
Definition granted (sp : lock_spec) (a : nat) : Prop :=
  match sp_token sp !! a with Some t => spec_requested sp t = false | None => False end.

#[export] Instance granted_dec sp a : Decision (granted sp a).
Proof. unfold granted. destruct (sp_token sp !! a); apply _. Defined.

Definition owners (sp : lock_spec) (h : list nat) : list nat := h ++ filter (granted sp) (sp_wake sp).

Lemma filter_shorter (P Q : nat -> Prop) `{!forall a, Decision (P a)} `{!forall a, Decision (Q a)} (l : list nat) :
  (forall a, P a -> Q a) -> (length (filter P l) <= length (filter Q l))%nat.
Proof.
  intros Himp. induction l as [|a l IH]; [done|]. rewrite !list.filter_cons. specialize (Himp a).
  destruct (decide (P a)), (decide (Q a)); cbn; try lia. tauto.
Qed.

Lemma spec_requested_source sp s t :
  sp_sources sp !! s = None ->
  spec_requested (LockSpec (sp_locked sp) (sp_line sp) (sp_wake sp) (sp_token sp) (<[s := false]> (sp_sources sp))) t
  = spec_requested sp t.
Proof.
  intros Hs. destruct t as [s'|]; [|done]. cbn. destruct (decide (s = s')) as [<-|Hne].
  - by rewrite lookup_insert_eq, Hs.
  - by rewrite lookup_insert_ne.
Qed.

(** At most [k] owners, none when the lock is free; a lock with no owner at all
    ([k = 0]) is taken for ever. *)
Definition exclusive (k : nat) (sp : lock_spec) (h : list nat) : Prop :=
  (length (owners sp h) <= if sp_locked sp then k else 0)%nat /\ (k <= 1)%nat /\ (k = 0%nat -> sp_locked sp = true).

Lemma granted_ext (sp sp' : lock_spec) (l : list nat) :
  (forall a, a ∈ l -> sp_token sp' !! a = sp_token sp !! a) ->
  (forall t, spec_requested sp' t = spec_requested sp t) ->
  filter (granted sp') l = filter (granted sp) l.
Proof.
  intros Ht Hr. apply filter_agree. intros a Ha. unfold granted. rewrite Ht by done.
  destruct (sp_token sp !! a); [|done]. by rewrite Hr.
Qed.

Lemma holder_only h a (l : list nat) :
  (length (h ++ l) <= 1)%nat -> a ∈ h -> h = [a] /\ l = [].
Proof.
  intros Hl Ha. rewrite length_app in Hl. destruct h as [|b [|c h]]; cbn in Hl; [by apply elem_of_nil in Ha| |lia].
  apply list_elem_of_singleton in Ha as ->. destruct l; [done|cbn in Hl; lia].
Qed.

Lemma exclusive_lock k w sp h a t :
  implements w sp -> legal w h (OpLock a t) -> exclusive k sp h ->
  exclusive k (spec_step sp (OpLock a t)).1 (holders_after h (OpLock a t) (spec_step sp (OpLock a t)).2).
Proof.
  intros Hw (_ & Ha & _) He. destruct (not_live_not_in w sp a Hw Ha) as [_ Hwk]. cbn [spec_step].
  unfold exclusive, owners in *. destruct He as (He & Hk & Hk0).
  destruct (spec_requested sp t) eqn:Hreq; cbn; [by rewrite app_nil_r|].
  destruct (sp_locked sp) eqn:Hl; cbn.
  - rewrite app_nil_r, (granted_ext sp); [done| |done].
    intros b Hb. cbn. rewrite lookup_insert_ne; [done|]. by intros <-.
  - rewrite (granted_ext sp); [|done|done]. rewrite !length_app in *. cbn. lia.
Qed.

Lemma exclusive_unlock k sp h a :
  exclusive k sp h -> a ∈ h ->
  exclusive k (spec_step sp (OpUnlock a)).1 (holders_after h (OpUnlock a) (spec_step sp (OpUnlock a)).2).
Proof.
  intros (He & Hk & Hk0) Ha. unfold exclusive, owners in *. cbn [spec_step]. destruct (sp_locked sp) eqn:Hl; cbn [negb].
  - destruct (holder_only _ a _ (Nat.le_trans _ _ _ He Hk) Ha) as [-> Hg]. rewrite Hg in He. cbn in He.
    assert (k = 1%nat) as -> by lia. destruct (sp_line sp) as [|b line]; cbn.
    + rewrite decide_False by auto. cbn. rewrite (granted_ext sp), Hg by done. cbn. lia.
    + rewrite decide_False by auto. cbn. rewrite list.filter_app, (granted_ext sp), Hg by done. cbn.
      destruct (decide _); cbn; lia.
  - rewrite length_app in He. destruct h; [by apply elem_of_nil in Ha|cbn in He; lia].
Qed.

Lemma exclusive_cancel k sp h s :
  exclusive k sp h ->
  exclusive k (spec_step sp (OpCancel s)).1 (holders_after h (OpCancel s) (spec_step sp (OpCancel s)).2).
Proof.
  intros (He & Hk & Hk0). unfold exclusive, owners in *. cbn [spec_step]. destruct (spec_requested sp (Some s)); cbn;
    rewrite app_nil_r; [done|]. split; [|done]. set (sp' := LockSpec _ _ _ _ _).
  assert (filter (granted sp') (reverse (filter (on_source sp s) (sp_line sp))) = []) as En.
  { rewrite filter_reverse, list_filter_filter. rewrite (filter_agree _ (fun _ => False)).
    - by induction (sp_line sp).
    - intros a _. unfold granted, on_source. cbn. split; [|done]. intros [Hg E]. rewrite E in Hg. cbn in Hg.
      by rewrite lookup_insert_eq, bool_decide_true in Hg. }
  rewrite list.filter_app, En, app_nil_r, !length_app in *.
  enough (length (filter (granted sp') (sp_wake sp)) <= length (filter (granted sp) (sp_wake sp)))%nat by lia.
  apply filter_shorter. intros a. unfold granted. cbn. destruct (sp_token sp !! a) as [[s'|]|]; [|done..]. cbn.
  destruct (decide (s = s')) as [<-|Hne]; [by rewrite lookup_insert_eq, bool_decide_true|].
  by rewrite lookup_insert_ne.
Qed.

Lemma exclusive_resume k w sp h :
  implements w sp -> exclusive k sp h ->
  exclusive k (spec_step sp OpResume).1 (holders_after h OpResume (spec_step sp OpResume).2).
Proof.
  intros Hw (He & Hk & Hk0). unfold exclusive, owners in *. cbn [spec_step].
  destruct (sp_wake sp) as [|a rest] eqn:Ew; cbn; (split; [|done]).
  - rewrite app_nil_r, Ew. exact He.
  - pose proof (im_nodup w sp Hw) as Hn. rewrite Ew in Hn. apply list.NoDup_app in Hn as (_ & _ & [Na _]%list.NoDup_cons).
    destruct (in_token w sp a Hw) as [t Ht]; [right; rewrite Ew; apply list_elem_of_here|].
    rewrite (im_token w sp Hw) in Ht. rewrite Ht. rewrite (granted_ext sp _ rest); [| |done].
    + assert (granted sp a <-> spec_requested sp t = false) as Hg by (unfold granted; by rewrite Ht).
      rewrite list.filter_cons in He. destruct (spec_requested sp t); cbn; rewrite !length_app in *.
      * rewrite decide_False in He by (by rewrite Hg). cbn. lia.
      * rewrite decide_True in He by (by rewrite Hg). cbn in *. lia.
    + intros b Hb. cbn. rewrite lookup_delete_ne; [done|]. by intros <-.
Qed.

Lemma exclusive_step k w sp h op :
  implements w sp -> legal w h op -> exclusive k sp h ->
  exclusive k (spec_step sp op).1 (holders_after h op (spec_step sp op).2).
Proof.
  intros Hw Hl He. destruct op as [s|a t|a|s|].
  - unfold exclusive, owners in *. cbn. rewrite app_nil_r, (granted_ext sp); [done|done|].
    intros t. cbn in Hl. apply spec_requested_source. by rewrite (im_source w sp Hw), Hl.
  - by apply (exclusive_lock k w).
  - by apply exclusive_unlock.
  - by apply exclusive_cancel.
  - by apply (exclusive_resume k w).
Qed.

(** ** Runs *)

Lemma mutex_run_ok k ops : forall w sp h,
  implements w sp -> exclusive k sp h -> legal_run w h ops ->
  exists w', mutex_run w h ops = Some (w', (spec_run sp h ops).1.2, (spec_run sp h ops).2) /\
    implements w' (spec_run sp h ops).1.1 /\ exclusive k (spec_run sp h ops).1.1 (spec_run sp h ops).1.2.
Proof.
  induction ops as [|op ops IH]; intros w sp h Hw He Hl; cbn [mutex_run spec_run legal_run] in *; [by exists w|].
  destruct Hl as [Hop Hl]. pose proof (exclusive_step k w sp h op Hw Hop He) as He'.
  destruct (mutex_step_ok w sp h op Hw Hop) as (w1 & Ew & Hw1). rewrite Ew in *. cbn.
  destruct (spec_step sp op) as [sp1 rs]. cbn in *. destruct (IH w1 sp1 _ Hw1 He' Hl) as (w' & E & Hw' & Hx).
  rewrite E. destruct (spec_run sp1 (holders_after h op rs) ops) as [[sp' h'] out]. by exists w'.
Qed.

Lemma exclusive_new : exclusive 1 spec_new [].
Proof. split; cbn; [lia|]. split; [lia|done]. Qed.

(** Nobody gets a lock that has lost its owner. *)
Lemma no_owner sp h : exclusive 0 sp h -> h = [] /\ sp_locked sp = true.
Proof.
  intros (He & _ & Hl). split; [|by apply Hl]. unfold owners in He. rewrite length_app in He.
  destruct h; [done|]. destruct (sp_locked sp); cbn in He; lia.
Qed.

Lemma acquired_holds h op rs a : (a, Acquired) ∈ rs -> a ∈ holders_after h op rs.
Proof.
  intros Ha. unfold holders_after. apply elem_of_app. right. apply list_elem_of_omap. by exists (a, Acquired).
Qed.

Lemma abandoned_run ops : forall w sp,
  implements w sp -> exclusive 0 sp [] -> legal_run w [] ops -> forall a, (a, Acquired) ∉ (spec_run sp [] ops).2.
Proof.
  induction ops as [|op ops IH]; intros w sp Hw He Hl a; cbn [spec_run legal_run] in *; [apply not_elem_of_nil|].
  destruct Hl as [Hop Hl]. pose proof (exclusive_step 0 w sp [] op Hw Hop He) as He'.
  destruct (mutex_step_ok w sp [] op Hw Hop) as (w1 & Ew & Hw1). rewrite Ew in *.
  destruct (spec_step sp op) as [sp1 rs]. cbn [fst snd] in *. destruct (no_owner _ _ He') as [En _].
  specialize (IH w1 sp1 Hw1). rewrite En in *. specialize (IH He' Hl a).
  destruct (spec_run sp1 [] ops) as [[sp' h'] out]. cbn [snd] in *. rewrite elem_of_app. intros [Ha|Ha]; [|done].
  apply (acquired_holds [] op) in Ha. rewrite En in Ha. by apply elem_of_nil in Ha.
Qed.

(** * Theorems *)

(** C9: whatever the coroutines do with the mutex, its awaiters and their
    cancellation, no call touches an awaiter that is gone, and the results and
    their order are those of the abstract lock: the line is served first come
    first served by [unlock], a cancelled coroutine leaves it wherever it
    stands, and a resumed coroutine returns with the lock or throws. *)
Theorem mutex_refines (ops : list mutex_op) :
  legal_run mutex_new [] ops ->
  exists w, mutex_run mutex_new [] ops = Some (w, (spec_run spec_new [] ops).1.2, (spec_run spec_new [] ops).2) /\
    implements w (spec_run spec_new [] ops).1.1.
Proof.
  intros Hl. destruct (mutex_run_ok 1 ops _ _ [] implements_new exclusive_new Hl) as (w & E & Hw & _). by exists w.
Qed.

(** At any time at most one coroutine holds the mutex, and none when it is
    unlocked; then nobody waits for it either. *)
Theorem mutex_excludes (ops : list mutex_op) :
  legal_run mutex_new [] ops ->
  exists w h out, mutex_run mutex_new [] ops = Some (w, h, out) /\
    (length h <= 1)%nat /\ (locked_ w = false -> h = [] /\ header_ (waiters_ w) = None).
Proof.
  intros Hl. destruct (mutex_run_ok 1 ops _ _ [] implements_new exclusive_new Hl) as (w & E & Hw & (Hx & _)).
  eexists w, _, _. split; [exact E|]. unfold owners in Hx. rewrite length_app in Hx.
  rewrite (im_locked w _ Hw). destruct (spec_run spec_new [] ops) as [[sp h] out]. cbn [fst snd] in *.
  destruct (sp_locked sp) eqn:El; (split; [lia|]); [done|]. intros _. split; [destruct h; [done|cbn in Hx; lia]|].
  rewrite (at_header _ _ (im_line w sp Hw)). destruct (sp_line sp) as [|a l] eqn:En; [done|].
  pose proof (im_waits w sp Hw a) as Hwt. rewrite En in Hwt. specialize (Hwt (list_elem_of_here _ _)). congruence.
Qed.

(** Coroutine 1 takes the mutex, 2 (with the token of source 0) and 3 wait; 1
    unlocks, the source is cancelled before 2 runs again, 2 throws. *)
Definition lost_lock : list mutex_op :=
  [OpSource 0; OpLock 1 None; OpLock 2 (Some 0%nat); OpLock 3 None; OpUnlock 1; OpCancel 0; OpResume].

(** A coroutine that is handed the mutex by [unlock] and cancelled before
    it runs again throws without releasing it: the mutex stays locked, nobody
    holds it, and nobody who waits or comes later gets it, whatever is
    called. *)
Theorem cancelled_owner_loses_lock :
  exists w, legal_run mutex_new [] lost_lock /\
    mutex_run mutex_new [] lost_lock = Some (w, [], [(1%nat, Acquired); (2%nat, Canceled)]) /\
    header_ (waiters_ w) = Some 3%nat /\
    forall ops, legal_run w [] ops ->
      exists w' out, mutex_run w [] ops = Some (w', [], out) /\ locked_ w' = true /\ forall a, (a, Acquired) ∉ out.
Proof.
  assert (legal_run mutex_new [] lost_lock) as Hl by (vm_compute; repeat split; set_solver).
  destruct (mutex_run_ok 1 lost_lock _ _ [] implements_new exclusive_new Hl) as (w & E & Hw & _).
  exists w. split; [done|]. split; [exact E|]. split; [by rewrite (at_header _ _ (im_line w _ Hw))|].
  intros ops Hops. assert (exclusive 0 (spec_run spec_new [] lost_lock).1.1 []) as He by (split; vm_compute; auto).
  destruct (mutex_run_ok 0 ops w _ [] Hw He Hops) as (w' & E' & Hw' & Hx). destruct (no_owner _ _ Hx) as [En Hlk].
  rewrite En in E'. eexists w', _. split; [exact E'|]. split; [by rewrite (im_locked w' _ Hw')|].
  by apply (abandoned_run ops w).
Qed.

(** ** A run with three coroutines *)

Definition demo_ops : list mutex_op :=
  [OpSource 0; OpLock 1 None; OpLock 2 (Some 0%nat); OpLock 3 None; OpCancel 0; OpResume; OpUnlock 1; OpResume].

Lemma mutex_demo_legal : legal_run mutex_new [] demo_ops.
Proof. vm_compute. repeat split; set_solver. Qed.

Lemma mutex_refines_witness :
  exists w, mutex_run mutex_new [] demo_ops =
    Some (w, [3%nat], [(1%nat, Acquired); (2%nat, Canceled); (3%nat, Acquired)]) /\ locked_ w = true.
Proof.
  destruct (mutex_refines demo_ops mutex_demo_legal) as (w & E & Hw). exists w. split; [exact E|].
  exact (im_locked _ _ Hw).
Defined.

Lemma mutex_excludes_witness :
  exists w h out, mutex_run mutex_new [] demo_ops = Some (w, h, out) /\
    (length h <= 1)%nat /\ (locked_ w = false -> h = [] /\ header_ (waiters_ w) = None).
Proof. exact (mutex_excludes demo_ops mutex_demo_legal). Defined.
