(* ===== verification/ConditionVariable.v ===== *)
(** The coroutine condition variable
    (src/runtime/src/coro/condition_variable.cpp,
    src/runtime/include/simple/coro/condition_variable.h) with the cancellation
    of its waiters and the part of the scheduler that resumes them.

    As for the mutex, an awaiter is known by the number of its coroutine and
    lives from [co_await cv.wait()] to the end of [await_resume]. Unlike the
    mutex's, its registration stays until then, so a cancellation runs the
    callbacks of coroutines that have been notified too. *)

From stdpp Require Import gmap.
From S2P Require Import Prelude AwaiterList Cancellation.

(** * Data *)

(** [condition_variable_state], the [token_] of the awaiters, their
    registrations (known by the awaiter they belong to), and
    [wake_up_coroutine_]. *)
Record cv_world := CvWorld { waiters_ : queue; token_ : gmap nat token; cancel_ : cancellation; wake_ : list nat }.

Definition cv_new : cv_world := CvWorld (Queue None None ∅) ∅ no_cancellation [].

(** What [co_await cv.wait()] does in the end. *)
Inductive resumed := Notified | Canceled.

(** * Operations *)

Definition wake_up (a : nat) (w : cv_world) : cv_world := CvWorld (waiters_ w) (token_ w) (cancel_ w) (wake_ w ++ [a]).

Definition set_waiters (q : queue) (w : cv_world) : cv_world := CvWorld q (token_ w) (cancel_ w) (wake_ w).

Definition set_cancel (c : cancellation) (w : cv_world) : cv_world := CvWorld (waiters_ w) (token_ w) c (wake_ w).

Definition has_awaiter (q : queue) (a : nat) : option bool :=
  l ← nodes q !! a;
  Some (bool_decide (is_Some (next_ l)) || bool_decide (is_Some (prev_ l)) || bool_decide (header_ q = Some a)).

Definition notify_one (w : cv_world) : option cv_world :=
  match header_ (waiters_ w) with
  | None => Some w
  | Some a => q ← remove_awaiter (waiters_ w) a; Some (wake_up a (set_waiters q w))
  end.

(** The loop of [notify_all], with the coroutines it wakes up. *)
Fixpoint notify_loop (fuel : nat) (st : store) (awaiter : option nat) : option (store * list nat) :=
  match fuel, awaiter with
  | O, _ => None
  | S _, None => Some (st, [])
  | S fuel, Some current =>
      l ← st !! current;
      st ← set_next current None st;
      st ← set_prev current None st;
      '(st, woken) ← notify_loop fuel st (next_ l);
      Some (st, current :: woken)
  end.

Definition notify_all (w : cv_world) : option cv_world :=
  let q := waiters_ w in
  '(st, woken) ← notify_loop (S (size (nodes q))) (nodes q) (header_ q);
  Some (CvWorld (Queue None None st) (token_ w) (cancel_ w) (wake_ w ++ woken)).

(** [condition_variable_awaiter::await_suspend] of a new awaiter. *)
Definition await_suspend (w : cv_world) (a : nat) (t : token) : option (bool * cv_world) :=
  let q := Queue (header_ (waiters_ w)) (tail_ (waiters_ w)) (<[a := unlinked]> (nodes (waiters_ w))) in
  let w := CvWorld q (<[a := t]> (token_ w)) (cancel_ w) (wake_ w) in
  if is_cancellation_requested (cancel_ w) t then Some (false, w)
  else
    q ← add_awaiter (waiters_ w) a;
    let w := set_waiters q w in
    if can_be_cancelled (cancel_ w) t then c ← new_registration (cancel_ w) a t; Some (true, set_cancel c w)
    else Some (true, w).

(** [await_resume] and the end of the awaiter. *)
Definition await_resume (w : cv_world) (a : nat) : option (resumed * cv_world) :=
  t ← token_ w !! a;
  c ← reset_registration (cancel_ w) a;
  let r := if is_cancellation_requested c t then Canceled else Notified in
  let q := Queue (header_ (waiters_ w)) (tail_ (waiters_ w)) (delete a (nodes (waiters_ w))) in
  Some (r, CvWorld q (delete a (token_ w)) c (wake_ w)).

(** [co_await cv.wait()] by coroutine [a] with the token [t]. *)
Definition wait (w : cv_world) (a : nat) (t : token) : option (cv_world * list (nat * resumed)) :=
  '(suspended, w) ← await_suspend w a t;
  if (suspended : bool) then Some (w, []) else '(r, w) ← await_resume w a; Some (w, [(a, r)]).

(** The callback of [await_suspend]. *)
Definition on_cancel (w : cv_world) (a : nat) : option cv_world :=
  waits ← has_awaiter (waiters_ w) a;
  if (waits : bool) then q ← remove_awaiter (waiters_ w) a; Some (wake_up a (set_waiters q w)) else Some w.

Fixpoint run_callbacks (w : cv_world) (fired : list nat) : option cv_world :=
  match fired with
  | [] => Some w
  | a :: fired => w ← on_cancel w a; run_callbacks w fired
  end.

Definition cancel (w : cv_world) (s : nat) : option cv_world :=
  '(c, fired) ← request_cancellation (cancel_ w) s; run_callbacks (set_cancel c w) fired.

(** One turn of the loop over [wake_up_coroutine_]. *)
Definition resume (w : cv_world) : option (cv_world * list (nat * resumed)) :=
  match wake_ w with
  | [] => Some (w, [])
  | a :: rest => '(r, w) ← await_resume (CvWorld (waiters_ w) (token_ w) (cancel_ w) rest) a; Some (w, [(a, r)])
  end.

Inductive cv_op :=
  | OpSource (s : nat)
  | OpWait (a : nat) (t : token)
  | OpNotifyOne
  | OpNotifyAll
  | OpCancel (s : nat)
  | OpResume.

Definition cv_step (w : cv_world) (op : cv_op) : option (cv_world * list (nat * resumed)) :=
  match op with
  | OpSource s => Some (set_cancel (new_source (cancel_ w) s) w, [])
  | OpWait a t => wait w a t
  | OpNotifyOne => w ← notify_one w; Some (w, [])
  | OpNotifyAll => w ← notify_all w; Some (w, [])
  | OpCancel s => w ← cancel w s; Some (w, [])
  | OpResume => resume w
  end.

Fixpoint cv_run (w : cv_world) (ops : list cv_op) : option (cv_world * list (nat * resumed)) :=
  match ops with
  | [] => Some (w, [])
  | op :: ops => '(w, rs) ← cv_step w op; '(w, out) ← cv_run w ops; Some (w, rs ++ out)
  end.

(** * The abstract condition variable

    The coroutines that wait or have been woken up, in the order in which they
    came; those that will be resumed, in this order; the sources with whether
    they are cancelled. *)

Record cv_spec := CvSpec {
  sp_live : list nat; sp_wake : list nat; sp_token : gmap nat token; sp_sources : gmap nat bool }.

Definition spec_new : cv_spec := CvSpec [] [] ∅ ∅.

(** The coroutines that nothing has woken up yet. *)
Definition sp_line (sp : cv_spec) : list nat := filter (fun a => a ∉ sp_wake sp) (sp_live sp).

Definition spec_requested (sp : cv_spec) (t : token) : bool :=
  match t with Some s => bool_decide (sp_sources sp !! s = Some true) | None => false end.

Definition on_source (sp : cv_spec) (s : nat) (a : nat) : Prop := sp_token sp !! a = Some (Some s).

#[export] Instance cv_on_source_dec sp s a : Decision (on_source sp s a).
Proof. unfold on_source. apply _. Defined.

Definition spec_wake (sp : cv_spec) (l : list nat) : cv_spec := CvSpec (sp_live sp) (sp_wake sp ++ l) (sp_token sp) (sp_sources sp).

Definition spec_step (sp : cv_spec) (op : cv_op) : cv_spec * list (nat * resumed) :=
  match op with
  | OpSource s => (CvSpec (sp_live sp) (sp_wake sp) (sp_token sp) (<[s := false]> (sp_sources sp)), [])
  | OpWait a t =>
      if spec_requested sp t then (sp, [(a, Canceled)])
      else (CvSpec (sp_live sp ++ [a]) (sp_wake sp) (<[a := t]> (sp_token sp)) (sp_sources sp), [])
  | OpNotifyOne => (spec_wake sp (take 1 (sp_line sp)), [])
  | OpNotifyAll => (spec_wake sp (sp_line sp), [])
  | OpCancel s =>
      if spec_requested sp (Some s) then (sp, [])
      else
        (CvSpec (sp_live sp) (sp_wake sp ++ reverse (filter (on_source sp s) (sp_line sp))) (sp_token sp)
           (<[s := true]> (sp_sources sp)), [])
  | OpResume =>
      match sp_wake sp with
      | [] => (sp, [])
      | a :: rest =>
          (CvSpec (filter (fun b => b <> a) (sp_live sp)) rest (delete a (sp_token sp)) (sp_sources sp),
           [(a, match sp_token sp !! a with
                | Some t => if spec_requested sp t then Canceled else Notified
                | None => Notified
                end)])
      end
  end.

Fixpoint spec_run (sp : cv_spec) (ops : list cv_op) : cv_spec * list (nat * resumed) :=
  match ops with
  | [] => (sp, [])
  | op :: ops => let '(sp, rs) := spec_step sp op in let '(sp, out) := spec_run sp ops in (sp, rs ++ out)
  end.

(** A coroutine waits once at a time, a token belongs to a source. *)
Definition legal (w : cv_world) (op : cv_op) : Prop :=
  match op with
  | OpSource s => states (cancel_ w) !! s = None
  | OpWait a t => token_ w !! a = None /\ (match t with Some s => is_Some (states (cancel_ w) !! s) | None => True end)
  | OpCancel s => is_Some (states (cancel_ w) !! s)
  | _ => True
  end.

Fixpoint legal_run (w : cv_world) (ops : list cv_op) : Prop :=
  match ops with
  | [] => True
  | op :: ops => legal w op /\ match cv_step w op with Some (w, _) => legal_run w ops | None => True end
  end.

(** * The refinement *)

(** The registrations of a source that is not cancelled: the live coroutines
    with its token, the last one first. *)
Definition registered (sp : cv_spec) (s : nat) : list nat :=
  if spec_requested sp (Some s) then [] else reverse (filter (on_source sp s) (sp_live sp)).

Record implements (w : cv_world) (sp : cv_spec) : Prop := {
  cm_line : list_at (waiters_ w) (sp_line sp);
  cm_wake : wake_ w = sp_wake sp;
  cm_token : token_ w = sp_token sp;
  cm_source s : sp_sources sp !! s = (c ← states (cancel_ w) !! s; Some (bool_decide (state_ c = cancelled)));
  cm_cancel : cancellation_ok (cancel_ w) (registered sp);
  cm_node a : is_Some (nodes (waiters_ w) !! a) <-> is_Some (token_ w !! a);
  cm_member a : is_Some (token_ w !! a) <-> a ∈ sp_live sp;
  cm_nodup : NoDup (sp_live sp);
  cm_wake_nodup : NoDup (sp_wake sp);
  cm_woken a : a ∈ sp_wake sp -> a ∈ sp_live sp;
  cm_reg a : is_Some (reg_state_ (cancel_ w) !! a) -> is_Some (token_ w !! a);
  cm_known a s : sp_token sp !! a = Some (Some s) -> is_Some (states (cancel_ w) !! s) }.

Lemma cv_implements_new : implements cv_new spec_new.
Proof.
  split; cbn; try done.
  - apply empty_list_at. intros a k H. by rewrite lookup_empty in H.
  - apply (cancellation_ok_ext _ (fun _ => [])); [|apply no_cancellation_ok]. intros s. unfold registered. by destruct (spec_requested _ _).
  - intros a. by rewrite !lookup_empty.
  - intros a. rewrite lookup_empty. split; [by intros [? ?]|]. intros Ha. by apply not_elem_of_nil in Ha.
  - constructor.
  - constructor.
Qed.

Lemma elem_of_line sp a : a ∈ sp_line sp <-> a ∈ sp_live sp /\ a ∉ sp_wake sp.
Proof. unfold sp_line. rewrite list.list_elem_of_filter. tauto. Qed.

Lemma cm_requested w sp t : implements w sp -> is_cancellation_requested (cancel_ w) t = spec_requested sp t.
Proof.
  intros Hw. unfold is_cancellation_requested, spec_requested, token_state. destruct t as [s|]; cbn; [|done].
  rewrite (cm_source w sp Hw). destruct (states (cancel_ w) !! s) as [c|]; cbn; [|done].
  apply bool_decide_ext. destruct (bool_decide_reflect (state_ c = cancelled)) as [->|]; split; congruence.
Qed.

(** Some waiting coroutines are unlinked and woken up. *)
Lemma cv_implements_wake w sp q l :
  implements w sp -> NoDup l -> (forall a, a ∈ l -> a ∈ sp_line sp) ->
  list_at q (filter (fun a => a ∉ l) (sp_line sp)) -> same_nodes (waiters_ w) q ->
  implements (CvWorld q (token_ w) (cancel_ w) (wake_ w ++ l)) (spec_wake sp l).
Proof.
  intros Hw Hn Hl Hq Hs. pose proof Hw as [M1 M2 M3 M4 M5 M6 M7 M8 M9 M10 M11 M12].
  split; cbn [waiters_ token_ cancel_ wake_ spec_wake sp_live sp_wake sp_token sp_sources]; try done.
  - unfold sp_line in *. cbn [sp_live sp_wake]. rewrite list_filter_filter in Hq. erewrite filter_agree; [exact Hq|].
    intros a _. cbn. rewrite not_elem_of_app. tauto.
  - by rewrite M2.
  - intros a. rewrite <-M6. apply Hs.
  - apply list.NoDup_app. split; [done|]. split; [|done]. intros a Ha Hal. apply Hl, elem_of_line in Hal. tauto.
  - intros a [?|Ha%Hl]%elem_of_app; [by apply M10|]. by apply elem_of_line in Ha as [? _].
Qed.

Lemma cv_notify_one_ok w sp : implements w sp -> exists w', notify_one w = Some w' /\ implements w' (spec_step sp OpNotifyOne).1.
Proof.
  intros Hw. pose proof (cm_line w sp Hw) as Hl. unfold notify_one. rewrite (at_header _ _ Hl). cbn [spec_step fst].
  destruct (sp_line sp) as [|a line] eqn:El; cbn [first_of take].
  - exists w. split; [done|]. pose proof (cv_implements_wake w sp (waiters_ w) [] Hw) as H. rewrite app_nil_r in H.
    replace w with (CvWorld (waiters_ w) (token_ w) (cancel_ w) (wake_ w)) by by destruct w.
    apply H; [constructor|by intros a ?%not_elem_of_nil|by rewrite El|done].
  - destruct (remove_linked _ [] a line Hl) as (q & Eq & Hq & Hsame). rewrite Eq. cbn [mbind option_bind]. eexists. split; [done|].
    refine (cv_implements_wake w sp q [a] Hw _ _ _ Hsame); rewrite ?El.
    + apply list.NoDup_singleton.
    + intros b ->%list_elem_of_singleton. by left.
    + pose proof (at_nodup _ _ Hl) as [Ha Hn]%list.NoDup_cons.
      rewrite (filter_agree _ (fun b => b <> a)) by (intros b _; by rewrite list_elem_of_singleton).
      rewrite list.filter_cons_False by auto. by rewrite filter_keeps.
Qed.

Lemma notify_loop_ok fuel : forall st p l,
  segment st p l None -> NoDup l -> (length l < fuel)%nat ->
  exists st', notify_loop fuel st (first_of l None) = Some (st', l) /\
    forall a, st' !! a = if decide (a ∈ l) then Some unlinked else st !! a.
Proof.
  induction fuel as [|fuel IH]; intros st p l Hl Hn Hf; [lia|]. destruct l as [|b l]; cbn [notify_loop first_of].
  - by exists st.
  - destruct Hl as [Hb Hl]. apply list.NoDup_cons in Hn as [Hb' Hn]. rewrite Hb. cbn [mbind option_bind].
    unfold set_next. rewrite Hb. cbn [mbind option_bind]. unfold set_prev. rewrite lookup_insert_eq. cbn. rewrite insert_insert_eq.
    destruct (IH (<[b := Links None None]> st) (Some b) l) as (st' & E & Hst).
    { apply (segment_frame st); [done|]. intros c Hc. rewrite lookup_insert_ne; [done|]. by intros <-. }
    { done. }
    { cbn in Hf. lia. }
    cbn [next_]. rewrite E. cbn [mbind option_bind]. exists st'. split; [done|]. intros a. rewrite Hst.
    destruct (decide (a = b)) as [->|Hne].
    + rewrite (decide_True (P := b ∈ b :: l)) by by left. destruct (decide (b ∈ l)); [done|]. by rewrite lookup_insert_eq.
    + rewrite lookup_insert_ne by done. apply decide_ext. rewrite list.elem_of_cons. tauto.
Qed.

Lemma cv_notify_all_ok w sp : implements w sp -> exists w', notify_all w = Some w' /\ implements w' (spec_step sp OpNotifyAll).1.
Proof.
  intros Hw. pose proof (cm_line w sp Hw) as Hl. unfold notify_all. rewrite (at_header _ _ Hl).
  destruct (notify_loop_ok (S (size (nodes (waiters_ w)))) (nodes (waiters_ w)) None (sp_line sp) (at_linked _ _ Hl) (at_nodup _ _ Hl)) as (st & -> & Hst).
  { apply le_n_S. by apply (segment_length _ None _ None); apply Hl. }
  cbn [mbind option_bind]. eexists. split; [done|]. apply cv_implements_wake; [done|apply Hl|done|..].
  - rewrite (filter_agree _ (fun _ => False)) by tauto.
    assert (forall l : list nat, filter (fun _ => False) l = []) as -> by by induction l.
    apply empty_list_at. intros a k. rewrite Hst. destruct (decide _); [by intros [= <-]|]. intros Hk. by apply (at_free _ _ Hl a).
  - intros a. unfold exists_in. cbn [nodes]. rewrite Hst. destruct (decide (a ∈ sp_line sp)) as [Ha|Ha]; [|done].
    pose proof (segment_lookup _ _ _ _ a (at_linked _ _ Hl) Ha) as [k ->]. split; by eexists.
Qed.

(** A new awaiter is in no store yet. *)
Lemma cv_new_awaiter w sp a :
  implements w sp -> token_ w !! a = None ->
  reg_state_ (cancel_ w) !! a = None /\ nodes (waiters_ w) !! a = None /\ (a ∉ sp_live sp) /\ (a ∉ sp_wake sp) /\ a ∉ sp_line sp.
Proof.
  intros Hw Ha. assert (Hl : a ∉ sp_live sp) by (rewrite <-(cm_member w sp Hw), Ha; by intros [? ?]).
  split; [|split; [|split; [done|split; [by intros ?%(cm_woken w sp Hw)|by rewrite elem_of_line; intros [? _]]]]].
  - destruct (reg_state_ (cancel_ w) !! a) eqn:E; [|done]. destruct (cm_reg w sp Hw a) as [? ?]; [by rewrite E|congruence].
  - destruct (nodes (waiters_ w) !! a) eqn:E; [|done]. destruct (proj1 (cm_node w sp Hw a)) as [? ?]; [by rewrite E|congruence].
Qed.

Lemma registered_join sp a t s :
  a ∉ sp_live sp -> spec_requested sp t = false ->
  registered (CvSpec (sp_live sp ++ [a]) (sp_wake sp) (<[a := t]> (sp_token sp)) (sp_sources sp)) s =
    (if decide (t = Some s) then a :: registered sp s else registered sp s).
Proof.
  intros Ha Ht. set (sp' := CvSpec _ _ _ _). unfold registered.
  change (spec_requested sp' (Some s)) with (spec_requested sp (Some s)). cbn [sp_live sp'].
  destruct (spec_requested sp (Some s)) eqn:Es; [by rewrite decide_False by congruence|]. rewrite list.filter_app.
  rewrite (filter_agree (on_source sp' s) (on_source sp s) (sp_live sp)).
  - rewrite (list.filter_cons (on_source sp' s) a []).
    assert (on_source sp' s a <-> t = Some s) as E.
    { unfold on_source. cbn. rewrite lookup_insert_eq. split; congruence. }
    destruct (decide (on_source sp' s a)), (decide (t = Some s)); try tauto; cbn.
    + by rewrite reverse_app.
    + by rewrite app_nil_r.
  - intros b Hb. unfold on_source. cbn. rewrite lookup_insert_ne; [done|]. by intros <-.
Qed.

(** A coroutine joins the line, and the registrations of its source. *)
Lemma cv_implements_join w sp a t q c :
  implements w sp -> token_ w !! a = None ->
  (forall s, t = Some s -> is_Some (states (cancel_ w) !! s)) -> spec_requested sp t = false ->
  list_at q (sp_line sp ++ [a]) -> (forall b, exists_in q b <-> b = a \/ exists_in (waiters_ w) b) ->
  cancellation_ok c (registered_in (cancel_ w) (registered sp) a t) -> same_states (cancel_ w) c ->
  (forall b, is_Some (reg_state_ c !! b) -> b = a \/ is_Some (reg_state_ (cancel_ w) !! b)) ->
  implements (CvWorld q (<[a := t]> (token_ w)) c (wake_ w))
    (CvSpec (sp_live sp ++ [a]) (sp_wake sp) (<[a := t]> (sp_token sp)) (sp_sources sp)).
Proof.
  intros Hw Ha Ht Hreq Hq Hdom Hc Hsame Hreg. pose proof Hw as [M1 M2 M3 M4 M5 M6 M7 M8 M9 M10 M11 M12].
  destruct (cv_new_awaiter w sp a Hw Ha) as (_ & _ & Hl & Hwk & _).
  split; cbn [waiters_ token_ cancel_ wake_ sp_live sp_wake sp_token sp_sources]; try done.
  - unfold sp_line in *. cbn [sp_live sp_wake]. rewrite list.filter_app, list.filter_cons_True by done. exact Hq.
  - by rewrite M3.
  - intros s. by rewrite (same_source _ _ s Hsame).
  - eapply cancellation_ok_ext; [|exact Hc]. intros s. rewrite registered_join by done. unfold registered_in.
    destruct t as [s'|]; [|by rewrite decide_False by done].
    rewrite (can_or_requested _ (Some s') Ht) by by rewrite (cm_requested w sp _ Hw). cbn.
    destruct (decide (Some s' = Some s)) as [[= ->]|Hne]; [by rewrite with_list_eq|].
    by rewrite with_list_ne by congruence.
  - intros b. rewrite lookup_insert_is_Some', <-M6. specialize (Hdom b). unfold exists_in in Hdom. rewrite Hdom.
    split; (intros [?|?]; [left; congruence|by right]).
  - intros b. rewrite lookup_insert_is_Some', M7, elem_of_app, list_elem_of_singleton.
    split; (intros [?|?]; [right; congruence|by left]) || (intros [?|?]; [by right|left; congruence]).
  - apply list.NoDup_app. split; [done|]. split; [|apply list.NoDup_singleton]. intros b Hb ->%list_elem_of_singleton. done.
  - intros b ?. apply elem_of_app. left. by apply M10.
  - intros b [->|Hb]%Hreg; apply lookup_insert_is_Some'; [by left|]. right. by apply M11.
  - intros b s. rewrite (same_exists _ _ s Hsame). intros [[<- E]|[_ E]]%lookup_insert_Some; [by apply Ht|by apply (M12 b)].
Qed.

Lemma cv_wait_ok w sp a t :
  implements w sp -> token_ w !! a = None -> (forall s, t = Some s -> is_Some (states (cancel_ w) !! s)) ->
  exists w', wait w a t = Some (w', (spec_step sp (OpWait a t)).2) /\ implements w' (spec_step sp (OpWait a t)).1.
Proof.
  intros Hw Ha Ht. destruct (cv_new_awaiter w sp a Hw Ha) as (Hreg & Hna & Hlive & Hwk & Hl).
  unfold wait, await_suspend. cbn [cancel_]. rewrite (cm_requested w sp t Hw). cbn [spec_step].
  destruct (spec_requested sp t) eqn:Hreq.
  - unfold await_resume. cbn. rewrite lookup_insert_eq. cbn. unfold reset_registration. rewrite Hreg. cbn.
    rewrite (cm_requested w sp t Hw), Hreq. eexists. split; [done|]. rewrite !delete_insert_id by done.
    by destruct w as [[? ? ?] ? ? ?].
  - destruct (add_free _ _ a (list_at_insert _ _ a (cm_line w sp Hw) Hl)) as (q & Eq & Hq & Hsame);
      [unfold exists_in; cbn; rewrite lookup_insert_eq; by eexists|done|].
    cbn [waiters_]. rewrite Eq. cbn. rewrite (can_or_requested _ t Ht) by by rewrite (cm_requested w sp t Hw).
    assert (forall b, exists_in q b <-> b = a \/ exists_in (waiters_ w) b) as Hdom.
    { intros b. rewrite (Hsame b). unfold exists_in. cbn. rewrite lookup_insert_is_Some'.
      split; (intros [?|?]; [left; congruence|by right]). }
    destruct (new_registration_ok _ _ a t (cm_cancel w sp Hw) Hreg) as (c & Ec & Hc & Hst & Hrg).
    destruct (bool_decide_reflect (is_Some t)) as [Hsome|Hnone].
    + rewrite Ec. cbn. eexists. split; [done|]. by apply (cv_implements_join w sp a t q c).
    + eexists. split; [done|]. apply (cv_implements_join w sp a t q (cancel_ w)); try done; [|by auto].
      unfold registered_in. destruct t; [destruct Hnone; by eexists|apply (cm_cancel w sp Hw)].
Qed.

Lemma has_awaiter_ok q l a : list_at q l -> exists_in q a -> has_awaiter q a = Some (bool_decide (a ∈ l)).
Proof.
  intros Hq Hex. unfold has_awaiter. destruct (bool_decide_reflect (a ∈ l)) as [Ha|Ha].
  - destruct (linked_or_header _ _ a (at_linked q l Hq) Ha) as (k & -> & H). cbn [mbind option_bind]. f_equal.
    rewrite (at_header q l Hq). destruct H as [H|H].
    + by rewrite (bool_decide_true (is_Some (prev_ k))), orb_true_r.
    + by rewrite (bool_decide_true (first_of l None = Some a)), orb_true_r.
  - rewrite (free_node q l a Hq Hex Ha). cbn. by rewrite bool_decide_false by (by intros ?%(header_in q l a Hq)).
Qed.

Lemma cv_run_callbacks_ok fired : forall w line,
  list_at (waiters_ w) line -> (forall a, a ∈ fired -> exists_in (waiters_ w) a) -> NoDup fired ->
  exists q, run_callbacks w fired = Some (CvWorld q (token_ w) (cancel_ w) (wake_ w ++ filter (fun a => a ∈ line) fired)) /\
    list_at q (filter (fun a => a ∉ fired) line) /\ same_nodes (waiters_ w) q.
Proof.
  induction fired as [|a fired IH]; intros w line Hl Hex Hn; cbn [run_callbacks].
  - exists (waiters_ w). rewrite app_nil_r. split; [by destruct w|]. split; [|done].
    rewrite (filter_agree _ (fun _ => True)), (filter_true line); [exact Hl|]. intros a _. split; [done|intros _; apply not_elem_of_nil].
  - apply list.NoDup_cons in Hn as [Hna Hn]. unfold on_cancel.
    rewrite (has_awaiter_ok _ line a Hl) by (apply Hex; by left). cbn [mbind option_bind]. rewrite list.filter_cons.
    destruct (bool_decide_reflect (a ∈ line)) as [Ha|Ha]; [rewrite decide_True by done|rewrite decide_False by done].
    + destruct (awaiter_remove_ok _ line a Hl (Hex a (list_elem_of_here _ _))) as (q & -> & Hq & Hsame). cbn [mbind option_bind].
      destruct (IH (wake_up a (set_waiters q w)) _ Hq) as (q' & E & Hq' & Hsame'); [|done|].
      { intros b Hb. apply Hsame. apply Hex. by right. }
      exists q'. rewrite E. cbn [wake_up set_waiters waiters_ token_ cancel_ wake_]. rewrite <-app_assoc. split; [|split].
      * do 4 f_equal. cbn [app]. f_equal. apply filter_agree. intros b Hb. rewrite list.list_elem_of_filter. split; [tauto|].
        intros ?. split; [by intros ->|done].
      * rewrite list_filter_filter in Hq'. erewrite filter_agree; [exact Hq'|]. intros b _. cbn. rewrite not_elem_of_cons. tauto.
      * intros b. rewrite (Hsame' b). apply Hsame.
    + destruct (IH w line Hl) as (q' & E & Hq' & Hsame'); [|done|].
      { intros b Hb. apply Hex. by right. }
      exists q'. split; [done|]. split; [|done]. erewrite filter_agree; [exact Hq'|]. intros b Hb. cbn. rewrite not_elem_of_cons.
      split; [tauto|]. intros ?. split; [by intros ->|done].
Qed.

Lemma registered_in_live sp s a : a ∈ registered sp s -> a ∈ sp_live sp /\ on_source sp s a.
Proof.
  unfold registered. destruct (spec_requested _ _); [by intros ?%not_elem_of_nil|]. rewrite elem_of_reverse, list.list_elem_of_filter. tauto.
Qed.

(** The source is cancelled, its callbacks have not run yet. *)
Lemma cv_source_cancelled w sp s c :
  implements w sp -> cancellation_ok c (with_list (registered sp) s []) ->
  (forall t, is_cancellation_requested c t = bool_decide (t = Some s) || is_cancellation_requested (cancel_ w) t) ->
  (forall s', is_Some (states c !! s') <-> is_Some (states (cancel_ w) !! s')) -> is_Some (states (cancel_ w) !! s) ->
  (forall r, reg_state_ c !! r = if decide (r ∈ registered sp s) then Some None else reg_state_ (cancel_ w) !! r) ->
  implements (set_cancel c w) (CvSpec (sp_live sp) (sp_wake sp) (sp_token sp) (<[s := true]> (sp_sources sp))).
Proof.
  intros Hw Hc Hreq Hst Hs Hrg. pose proof Hw as [M1 M2 M3 M4 M5 M6 M7 M8 M9 M10 M11 M12].
  split; cbn [set_cancel waiters_ token_ cancel_ wake_ sp_live sp_wake sp_token sp_sources]; try done.
  - intros s'. rewrite source_alt, Hreq. destruct (decide (s = s')) as [<-|Hne].
    + rewrite lookup_insert_eq, decide_True by by apply Hst. by rewrite bool_decide_true.
    + rewrite lookup_insert_ne, M4, source_alt by done. rewrite (bool_decide_false (Some s' = Some s)) by congruence.
      cbn. symmetry. apply decide_ext. apply Hst.
  - eapply cancellation_ok_ext; [|exact Hc]. intros s'. unfold registered at 1. cbn [spec_requested sp_sources sp_live].
    destruct (decide (s' = s)) as [->|Hne].
    + rewrite lookup_insert_eq, bool_decide_true by done. by rewrite with_list_eq.
    + rewrite lookup_insert_ne, with_list_ne by done. done.
  - intros a. rewrite Hrg. destruct (decide _) as [[Ha _]%registered_in_live|]; [intros _; by apply M7|apply M11].
  - intros a s' Ha. apply Hst. by apply (M12 a).
Qed.

Lemma cv_cancel_ok w sp s :
  implements w sp -> is_Some (states (cancel_ w) !! s) ->
  exists w', cancel w s = Some w' /\ implements w' (spec_step sp (OpCancel s)).1.
Proof.
  intros Hw Hs. unfold cancel. cbn [spec_step]. destruct (spec_requested sp (Some s)) eqn:Er.
  - unfold request_cancellation. rewrite (cm_requested w sp _ Hw), Er. exists w. split; [by destruct w|done].
  - destruct (request_cancellation_ok _ _ s (cm_cancel w sp Hw) Hs) as (c & -> & Hc & Hreq & Hst & Hrg). cbn [mbind option_bind].
    pose proof (cv_source_cancelled w sp s c Hw Hc Hreq Hst Hs Hrg) as Hw1.
    assert (Hf : registered sp s = reverse (filter (on_source sp s) (sp_live sp))) by (unfold registered; by rewrite Er).
    assert (Hn : NoDup (registered sp s)) by (rewrite Hf; rewrite reverse_Permutation; apply list.NoDup_filter, (cm_nodup w sp Hw)).
    destruct (cv_run_callbacks_ok (registered sp s) (set_cancel c w) (sp_line sp) (cm_line w sp Hw)) as (q & -> & Hq & Hsame); [|done|].
    { intros a [Ha _]%registered_in_live. apply (cm_node w sp Hw). by apply (cm_member w sp Hw). }
    eexists. split; [done|]. cbn [fst set_cancel waiters_ token_ cancel_ wake_].
    assert (El : filter (fun a => a ∈ sp_line sp) (registered sp s) = reverse (filter (on_source sp s) (sp_line sp))).
    { rewrite Hf, filter_reverse, filter_commute. f_equal. f_equal. apply filter_agree. intros a Ha. rewrite elem_of_line. tauto. }
    rewrite El. refine (cv_implements_wake _ _ q _ Hw1 _ _ _ Hsame).
    + rewrite reverse_Permutation; apply list.NoDup_filter, (at_nodup _ _ (cm_line w sp Hw)).
    + intros a. rewrite elem_of_reverse, list.list_elem_of_filter. by intros [_ ?].
    + erewrite filter_agree; [exact Hq|]. intros a Ha. cbn. rewrite <-El, list.list_elem_of_filter. tauto.
Qed.

Lemma registered_leave sp a rest s :
  NoDup (sp_live sp) ->
  registered (CvSpec (filter (fun b => b <> a) (sp_live sp)) rest (delete a (sp_token sp)) (sp_sources sp)) s = without (registered sp) a s.
Proof.
  intros Hn. set (sp' := CvSpec _ _ _ _). unfold without, registered.
  change (spec_requested sp' (Some s)) with (spec_requested sp (Some s)). destruct (spec_requested sp (Some s)); [done|].
  rewrite filter_reverse, filter_commute. f_equal. cbn [sp_live sp']. apply filter_agree.
  intros b [Hb _]%list.list_elem_of_filter. unfold on_source. cbn. by rewrite lookup_delete_ne.
Qed.

Lemma cv_resume_ok w sp :
  implements w sp ->
  exists w', resume w = Some (w', (spec_step sp OpResume).2) /\ implements w' (spec_step sp OpResume).1.
Proof.
  intros Hw. pose proof Hw as [M1 M2 M3 M4 M5 M6 M7 M8 M9 M10 M11 M12]. unfold resume. cbn [spec_step]. rewrite M2.
  destruct (sp_wake sp) as [|a rest] eqn:Ew; [by exists w|]. unfold await_resume. cbn [token_ cancel_].
  assert (Hlive : a ∈ sp_live sp) by (apply M10; by left). destruct (proj2 (M7 a) Hlive) as [t Ht]. rewrite Ht. cbn [mbind option_bind].
  destruct (reset_registration_ok (cancel_ w) (registered sp) a M5) as (c & -> & Hc & Hst & Hrg).
  { intros s Hs%(co_member _ _ M5). apply registered_in_live in Hs as [_ Hs]. by apply (M12 a). }
  cbn [mbind option_bind]. rewrite (same_requested _ _ t Hst), (cm_requested w sp t Hw), <- M3, Ht. eexists. split; [done|].
  apply list.NoDup_cons in M9 as [Na Nr].
  assert (Ha : a ∉ sp_line sp) by (rewrite elem_of_line, Ew; intros [_ H]; apply H; by left).
  split; cbn [fst waiters_ token_ cancel_ wake_ sp_live sp_wake sp_token sp_sources]; try done.
  - apply list_at_delete; cycle 1.
    + unfold sp_line. cbn. rewrite !list.list_elem_of_filter. tauto.
    + unfold sp_line in *. cbn [sp_live sp_wake]. rewrite Ew in M1. rewrite list_filter_filter. erewrite filter_agree; [exact M1|].
      intros b _. cbn. rewrite not_elem_of_cons. tauto.
  - intros s. rewrite M4. symmetry. by apply same_source.
  - eapply cancellation_ok_ext; [|exact Hc]. intros s. rewrite M3. by apply registered_leave.
  - intros b. cbn [nodes]. rewrite !lookup_delete_is_Some, M6. done.
  - intros b. rewrite lookup_delete_is_Some, M7, list.list_elem_of_filter. intuition congruence.
  - by apply list.NoDup_filter.
  - intros b Hb. apply list.list_elem_of_filter. split; [by intros ->|]. apply M10. by right.
  - intros b. rewrite Hrg, !lookup_delete_is_Some. intros [? ?]. split; [done|]. by apply M11.
  - intros b s. rewrite (same_exists _ _ s Hst), M3. intros [_ Hb]%lookup_delete_Some. by apply (M12 b).
Qed.

Lemma cv_step_ok w sp op :
  implements w sp -> legal w op -> exists w', cv_step w op = Some (w', (spec_step sp op).2) /\ implements w' (spec_step sp op).1.
Proof.
  intros Hw Hl. destruct op as [s|a t| | |s|]; cbn [cv_step legal] in *.
  - eexists. split; [done|]. pose proof Hw as [M1 M2 M3 M4 M5 M6 M7 M8 M9 M10 M11 M12]. split; cbn; try done.
    + intros s'. destruct (decide (s = s')) as [<-|Hne]; [by rewrite !lookup_insert_eq|]. by rewrite !lookup_insert_ne.
    + eapply cancellation_ok_ext; [|by apply new_source_ok]. intros s'. unfold registered. cbn.
      destruct (decide (s = s')) as [<-|Hne]; [|by rewrite lookup_insert_ne]. by rewrite lookup_insert_eq, M4, Hl.
    + intros a s' Ha. apply lookup_insert_is_Some'. right. by apply (M12 a).
  - destruct Hl as (Ha & Ht). apply cv_wait_ok; [done|done|]. by intros s ->.
  - destruct (cv_notify_one_ok w sp Hw) as (w' & -> & Hw'). by exists w'.
  - destruct (cv_notify_all_ok w sp Hw) as (w' & -> & Hw'). by exists w'.
  - destruct (cv_cancel_ok w sp s Hw Hl) as (w' & -> & Hw'). exists w'. cbn [spec_step] in *. split; [|done].
    by destruct (spec_requested sp (Some s)).
  - by apply cv_resume_ok.
Qed.

Lemma cv_run_ok ops : forall w sp,
  implements w sp -> legal_run w ops ->
  exists w', cv_run w ops = Some (w', (spec_run sp ops).2) /\ implements w' (spec_run sp ops).1.
Proof.
  induction ops as [|op ops IH]; intros w sp Hw Hl; cbn [cv_run spec_run legal_run] in *; [by exists w|].
  destruct Hl as [Hop Hl]. destruct (cv_step_ok w sp op Hw Hop) as (w1 & Ew & Hw1). rewrite Ew in *. cbn.
  destruct (spec_step sp op) as [sp1 rs]. cbn in *. destruct (IH w1 sp1 Hw1 Hl) as (w' & E & Hw').
  rewrite E. destruct (spec_run sp1 ops) as [sp' out]. by exists w'.
Qed.

(** ** Waking everybody up *)

Lemma spec_resume_all n : forall sp, length (sp_wake sp) = n ->
  let '(sp', out) := spec_run sp (replicate n OpResume) in
  sp_wake sp' = [] /\ out.*1 = sp_wake sp /\ forall b, b ∈ sp_live sp' <-> b ∈ sp_line sp.
Proof.
  induction n as [|n IH]; intros sp Hn; cbn [replicate spec_run].
  - assert (sp_wake sp = []) as Ew by by destruct (sp_wake sp). split; [done|]. split; [done|].
    intros b. rewrite elem_of_line, Ew. split; [|by intros [? _]]. intros ?. split; [done|apply not_elem_of_nil].
  - destruct (sp_wake sp) as [|a rest] eqn:Ew; [done|]. cbn [spec_step]. rewrite Ew.
    injection Hn as Hn. set (sp1 := CvSpec _ rest _ _). specialize (IH sp1 Hn).
    destruct (spec_run sp1 (replicate n OpResume)) as [sp' out]. destruct IH as (-> & H1 & H2). split; [done|].
    split; [cbn; by rewrite H1|]. intros b. rewrite H2, !elem_of_line, Ew. cbn [sp1 sp_live sp_wake].
    rewrite list.list_elem_of_filter, not_elem_of_cons. tauto.
Qed.

Lemma idle_resume w n : wake_ w = [] -> cv_run w (replicate n OpResume) = Some (w, []).
Proof.
  intros Hw. induction n as [|n IH]; [done|]. cbn [replicate cv_run cv_step]. unfold resume. rewrite Hw. cbn. by rewrite IH.
Qed.

Lemma legal_notify w n : legal_run w (OpNotifyAll :: replicate n OpResume).
Proof.
  cbn [legal_run legal]. split; [done|]. destruct (cv_step w OpNotifyAll) as [[w1 rs]|]; [|done]. clear.
  revert w1. induction n as [|n IH]; intros w; cbn [replicate legal_run legal]; [done|]. split; [done|].
  by destruct (cv_step w OpResume) as [[w1 rs]|].
Qed.

(** * Theorems *)

(** C10: whatever the coroutines do with the condition variable, its awaiters and
    their cancellation, no call touches an awaiter that is gone, and the
    results and their order are those of the abstract condition variable. *)
Theorem cv_refines (ops : list cv_op) :
  legal_run cv_new ops ->
  exists w, cv_run cv_new ops = Some (w, (spec_run spec_new ops).2) /\ implements w (spec_run spec_new ops).1.
Proof. apply cv_run_ok, cv_implements_new. Qed.

(** After any history, [notify_all] and enough turns of the scheduler resume
    every coroutine that waits: first those that had been woken up before, then
    the others in the order in which they came, each once. *)
Theorem notify_all_resumes (ops : list cv_op) (w : cv_world) (out : list (nat * resumed)) :
  legal_run cv_new ops -> cv_run cv_new ops = Some (w, out) ->
  exists n w' out' line, cv_run w (OpNotifyAll :: replicate n OpResume) = Some (w', out') /\
    list_at (waiters_ w) line /\ out'.*1 = wake_ w ++ line /\ NoDup out'.*1 /\
    wake_ w' = [] /\ header_ (waiters_ w') = None.
Proof.
  intros Hl Hr. destruct (cv_run_ok ops _ _ cv_implements_new Hl) as (w0 & E & Hw). rewrite Hr in E. injection E as -> _.
  set (sp := (spec_run spec_new ops).1) in *. set (n := length (sp_wake (spec_wake sp (sp_line sp)))).
  destruct (cv_run_ok (OpNotifyAll :: replicate n OpResume) w0 sp Hw (legal_notify w0 n)) as (w' & E' & Hw').
  cbn [spec_run spec_step] in E', Hw'. pose proof (spec_resume_all n (spec_wake sp (sp_line sp)) eq_refl) as Hs.
  destruct (spec_run (spec_wake sp (sp_line sp)) (replicate n OpResume)) as [sp' out']. destruct Hs as (Hs & Ho & Hlive). cbn [fst snd app] in *.
  destruct (cv_notify_all_ok w0 sp Hw) as (w1 & _ & Hw1). pose proof (cm_wake_nodup _ _ Hw1) as Hn. cbn [spec_step fst] in Hn.
  exists n, w', out', (sp_line sp). split; [done|]. split; [apply Hw|]. rewrite Ho. cbn [spec_wake sp_wake] in *.
  split; [by rewrite (cm_wake w0 sp Hw)|]. split; [done|]. split; [by rewrite (cm_wake w' _ Hw')|].
  rewrite (at_header _ _ (cm_line w' _ Hw')). destruct (sp_line sp') as [|b line] eqn:El; [done|]. exfalso.
  assert (Hb : b ∈ sp_line sp') by (rewrite El; by left). apply elem_of_line in Hb as [[Hb Hnb]%Hlive%elem_of_line _].
  apply Hnb. cbn [spec_wake sp_wake]. rewrite elem_of_app, elem_of_line. destruct (decide (b ∈ sp_wake sp)); [by left|by right].
Qed.

(** Coroutine 1 (with the token of source 0) and 2 wait, one is notified, the
    source is cancelled before 1 runs again. *)
Definition lost_notification : list cv_op :=
  [OpSource 0; OpWait 1 (Some 0%nat); OpWait 2 None; OpNotifyOne; OpCancel 0; OpResume].

(** A coroutine that is notified and cancelled before it runs again throws, and
    its notification is lost: nothing resumes the other one that waits. *)
Theorem cv_notification_lost :
  exists w, cv_run cv_new lost_notification = Some (w, [(1%nat, Canceled)]) /\
    header_ (waiters_ w) = Some 2%nat /\ forall n, cv_run w (replicate n OpResume) = Some (w, []).
Proof.
  eexists. split; [by vm_compute|]. split; [done|]. intros n. by apply idle_resume.
Qed.

(** ** A run with three coroutines *)

Definition demo_ops : list cv_op :=
  [OpSource 0; OpWait 1 None; OpWait 2 (Some 0%nat); OpWait 3 None; OpNotifyOne; OpCancel 0; OpResume].

Definition demo_world : cv_world := from_option fst cv_new (cv_run cv_new demo_ops).

Lemma cv_demo_legal : legal_run cv_new demo_ops.
Proof. vm_compute. repeat split; set_solver. Qed.

Lemma cv_refines_witness :
  exists w, cv_run cv_new demo_ops = Some (w, [(1%nat, Notified)]) /\ wake_ w = [2%nat].
Proof.
  destruct (cv_refines demo_ops cv_demo_legal) as (w & E & Hw). exists w. split; [exact E|]. exact (cm_wake _ _ Hw).
Defined.

Lemma notify_all_resumes_witness :
  exists n w' out', cv_run demo_world (OpNotifyAll :: replicate n OpResume) = Some (w', out') /\ out'.*1 = [2%nat; 3%nat].
Proof.
  assert (E : cv_run cv_new demo_ops = Some (demo_world, [(1%nat, Notified)])) by (vm_compute; reflexivity).
  destruct (notify_all_resumes demo_ops demo_world _ cv_demo_legal E) as (n & w' & out' & line & H1 & H2 & H3 & _).
  exists n, w', out'. split; [exact H1|]. rewrite H3. pose proof (at_header _ _ H2) as Hh. pose proof (at_linked _ _ H2) as Hl.
  assert (Ew : wake_ demo_world = [2%nat]) by (vm_compute; reflexivity). rewrite Ew. cbn [app]. f_equal.
  assert (Eh : header_ (waiters_ demo_world) = Some 3%nat) by (vm_compute; reflexivity). rewrite Eh in Hh.
  destruct line as [|a line]; [discriminate Hh|]. cbn [first_of] in Hh. injection Hh as <-. destruct Hl as [Hl _].
  assert (En : nodes (waiters_ demo_world) !! 3%nat = Some unlinked) by (vm_compute; reflexivity). rewrite En in Hl.
  injection Hl as Hl. destruct line; [reflexivity|discriminate Hl].
Defined.
