(* ===== verification/ParallelTask.v ===== *)
(** Tasks that run side by side
    (src/runtime/include/simple/coro/parallel_task.hpp) and the operators that
    combine them (task_operators.hpp): [when_ready] starts the tasks, waits
    for all of them and cancels those that remain when one has ended in a way
    its [wait_type] names; [l && r] and [l || r] make one result of two.

    A coroutine is what it is waiting for: a task has not been started, runs,
    or has finished. Where a running task is suspended and when it goes on is
    up to the rest of the program, so its end is an event. The callbacks of the
    library's awaiters only queue a coroutine, so a cancellation finishes no
    task at once. [None] is the resumption of a null handle. *)

From S2P Require Import Prelude.

(** * Data *)

Inductive wait_type := all | one | one_fail | one_succ.

Inductive result (T E : Type) := Value (v : T) | Exception (e : E).
Arguments Value {T E}.
Arguments Exception {T E}.

(** [parallel_counter]: whether its source is cancelled, whether [handle_] is
    set. *)
Record parallel_counter := ParallelCounter {
  count_ : Z; type_ : wait_type; source_ : bool; handle_ : bool; index_ : Z }.

(** * Operations *)

Definition counter_new (count : Z) (tp : wait_type) : parallel_counter :=
  ParallelCounter (u64 (count + 1)) tp false false 0.

Definition try_await (c : parallel_counter) : bool * parallel_counter :=
  (1 <? count_ c, ParallelCounter (u64 (count_ c - 1)) (type_ c) (source_ c) true (index_ c)).

(** The end of a task cancels the others. *)
Definition cancels (tp : wait_type) (has_exception : bool) : bool :=
  match tp with
  | all => false
  | one => true
  | one_fail => has_exception
  | one_succ => negb has_exception
  end.

(** Whether the awaiting coroutine is resumed. *)
Definition notify (c : parallel_counter) (has_exception : bool) : option (bool * parallel_counter) :=
  let source := source_ c || cancels (type_ c) has_exception in
  let c' := ParallelCounter (u64 (count_ c - 1)) (type_ c) source (handle_ c) (index_ c) in
  if count_ c =? 1 then if handle_ c then Some (true, c') else None else Some (false, c').

Definition request_cancellation (c : parallel_counter) : parallel_counter :=
  ParallelCounter (count_ c) (type_ c) true (handle_ c) (index_ c).

Definition increment_index (c : parallel_counter) : Z * parallel_counter :=
  (index_ c, ParallelCounter (count_ c) (type_ c) (source_ c) (handle_ c) (u64 (index_ c + 1))).

Section tasks.
Context {T E : Type} (canceled : E).

(** [parallel_task]: not started, suspended, or at its end with its result and
    its place among the others. *)
Inductive parallel_task := Created | Running | Finished (r : result T E) (index : Z).

Definition is_exception (r : result T E) : bool := match r with Value _ => false | Exception _ => true end.

(** [parallel_task_ready_awaitable], and the tasks that have finished in the
    order in which they did. *)
Record group := Group { counter_ : parallel_counter; tasks_ : list parallel_task; order : list (nat * result T E) }.

Definition when_ready (tp : wait_type) (n : nat) : group :=
  Group (counter_new (Z.of_nat n) tp) (replicate n Created) [].

(** The final suspension of task [i]. *)
Definition final_suspend (g : group) (i : nat) (r : result T E) : option (bool * group) :=
  let '(index, c) := increment_index (counter_ g) in
  '(resumed, c) ← notify c (is_exception r);
  Some (resumed, Group c (<[i := Finished r index]> (tasks_ g)) (order g ++ [(i, r)])).

(** What the body of a task does when it is resumed for the first time: it ends
    with a result or is suspended, and may meanwhile cancel the token of the
    coroutine that waits for it. *)
Record body := Body { first_result : option (result T E); cancels_waiter : bool }.

(** The token of the awaiting coroutine: whether it is cancelled, if it can be. *)
Abbreviation token := (option bool).

Definition is_cancellation_requested (t : token) : bool := bool_decide (t = Some true).
Definition can_be_cancelled (t : token) : bool := bool_decide (t = Some false).

(** [parallel_task_promise::start], through [make_parallel_task]. *)
Definition start (g : group) (t : token) (i : nat) (b : body) : option (group * token) :=
  if source_ (counter_ g) then '(_, g) ← final_suspend g i (Exception canceled); Some (g, t)
  else
    let t := if cancels_waiter b then (fun _ => true) <$> t else t in
    match first_result b with
    | Some r => '(_, g) ← final_suspend g i r; Some (g, t)
    | None => Some (Group (counter_ g) (<[i := Running]> (tasks_ g)) (order g), t)
    end.

Fixpoint start_tasks (g : group) (t : token) (i : nat) (bs : list body) : option (group * token) :=
  match bs with
  | [] => Some (g, t)
  | b :: bs => '(g, t) ← start g t i b; start_tasks g t (S i) bs
  end.

(** What [co_await] on the group does: it throws [canceled], or returns the
    tasks. *)
Inductive awaited := Throws | Returns (ts : list parallel_task).

(** The group and the coroutine that awaits it: its registration with its
    token, whether it is suspended, what it was resumed with. *)
Record waiter := Waiter {
  group_ : group; token_ : token; registration : bool; suspended : bool; results : list awaited }.

Definition await_resume (g : group) (t : token) (rs : list awaited) : waiter :=
  Waiter g t false false (rs ++ [if is_cancellation_requested t then Throws else Returns (tasks_ g)]).

(** [co_await] on a new group. *)
Definition await (g : group) (t : token) (bs : list body) : option waiter :=
  if is_cancellation_requested t then Some (await_resume g t [])
  else
    '(g, t) ← start_tasks g t 0 bs;
    let '(ret, c) := try_await (counter_ g) in
    let g := Group c (tasks_ g) (order g) in
    Some (if (ret : bool) then Waiter g t (can_be_cancelled t) true [] else await_resume g t []).

Inductive event :=
  | Done (i : nat) (r : result T E)   (* task [i] ends *)
  | Cancel.                           (* the token of the awaiting coroutine is cancelled *)

Definition step (w : waiter) (e : event) : option waiter :=
  match e with
  | Done i r =>
      match tasks_ (group_ w) !! i with
      | Some Running =>
          '(resumed, g) ← final_suspend (group_ w) i r;
          Some (if (resumed : bool) then await_resume g (token_ w) (results w)
                else Waiter g (token_ w) (registration w) (suspended w) (results w))
      | _ => Some w
      end
  | Cancel =>
      if can_be_cancelled (token_ w) then
        let g := group_ w in
        let g := if registration w then Group (request_cancellation (counter_ g)) (tasks_ g) (order g) else g in
        Some (Waiter g (Some true) (registration w) (suspended w) (results w))
      else Some w
  end.

Fixpoint run (w : waiter) (es : list event) : option waiter :=
  match es with
  | [] => Some w
  | e :: es => w ← step w e; run w es
  end.
End tasks.
Arguments group : clear implicits.
Arguments body : clear implicits.
Arguments waiter : clear implicits.
Arguments event : clear implicits.
Arguments parallel_task : clear implicits.
Arguments awaited : clear implicits.

(** ** The operators

    A value is one of the alternatives of a [variant], by its number, or the
    components of a [tuple]: none for [task<>]. *)

(** What is thrown: what a task threw, [multiple_exceptions] with the first of
    two, or the cancellation of the awaiting coroutine. *)
Inductive thrown (E : Type) := Rethrow (e : E) | MultipleExceptions (first : E) | WaiterCanceled.
Arguments Rethrow {E}.
Arguments MultipleExceptions {E}.
Arguments WaiterCanceled {E}.

Section operators.
Context {V E : Type}.

Definition get_exception {T} (t : parallel_task T E) : option E :=
  match t with Finished (Exception e) _ => Some e | _ => None end.

(** [index_], which starts at the largest [size_t]. *)
Definition get_index {T} (t : parallel_task T E) : Z := match t with Finished _ k => k | _ => 2 ^ 64 - 1 end.

(** The value of a task that ended without an exception. *)
Definition task_value {T} (t : parallel_task T E) : option T :=
  match t with Finished (Value v) _ => Some v | _ => None end.

(** [operator&&]: the components of both. *)
Definition operator_and (l r : parallel_task (list V) E) : option (list V + thrown E) :=
  match get_exception l, get_exception r with
  | Some le, Some _ => Some (inr (MultipleExceptions le))
  | Some le, None => Some (inr (Rethrow le))
  | None, Some re => Some (inr (Rethrow re))
  | None, None => vl ← task_value l; vr ← task_value r; Some (inl (vl ++ vr))
  end.

(** [operator||], whose left side has [n] alternatives. *)
Definition operator_or (n : nat) (l r : parallel_task (nat * V) E) : option (nat * V + thrown E) :=
  let left := v ← task_value l; Some (inl v) in
  let right := v ← task_value r; Some (inl (n + v.1, v.2)%nat) in
  if get_index l =? 0 then
    match get_exception l, get_exception r with
    | None, _ => left
    | Some _, None => right
    | Some le, Some _ => Some (inr (MultipleExceptions le))
    end
  else
    match get_exception r, get_exception l with
    | None, _ => right
    | Some _, None => left
    | Some re, Some _ => Some (inr (MultipleExceptions re))
    end.
End operators.

(** * Invariant *)

Section proofs.
Context {T E : Type} (canceled : E).
Implicit Types (g : group T E) (w : waiter T E) (r : result T E) (bs : list (body T E)) (l : list (parallel_task T E)).

Definition unfinished (t : parallel_task T E) : bool := match t with Finished _ _ => false | _ => true end.

(** The tasks that have not finished. *)
Definition pending l : nat := length (filter (fun t => unfinished t = true) l).

(** Whether a task that has finished cancels the others. *)
Definition triggers (tp : wait_type) (x : nat * result T E) : bool := cancels tp (is_exception x.2).

(** A group of [n] tasks; [fwd]: it was cancelled from outside. *)
Record group_ok (n : nat) (tp : wait_type) (fwd : bool) (g : group T E) : Prop := {
  gk_size : length (tasks_ g) = n;
  gk_small : Z.of_nat n + 1 < 2 ^ 64;
  gk_pending : (pending (tasks_ g) + length (order g) = n)%nat;
  gk_count : count_ (counter_ g) = Z.of_nat (pending (tasks_ g)) + if handle_ (counter_ g) then 0 else 1;
  gk_type : type_ (counter_ g) = tp;
  gk_index : index_ (counter_ g) = Z.of_nat (length (order g));
  gk_source : source_ (counter_ g) = existsb (triggers tp) (order g) || fwd;
  gk_order i r k : tasks_ g !! i = Some (Finished r k) <-> exists j, k = Z.of_nat j /\ order g !! j = Some (i, r) }.

Lemma pending_insert l i t t' : l !! i = Some t -> unfinished t = true ->
  pending l = (pending (<[i := t']> l) + if unfinished t' then 0 else 1)%nat.
Proof.
  unfold pending. revert i. induction l as [|a l IH]; intros i; [done|]. destruct i as [|i]; cbn [lookup list_lookup]; intros H Ht.
  - injection H as ->. cbn [list_insert insert]. rewrite !list.filter_cons, Ht, decide_True by done.
    destruct (unfinished t'); [rewrite decide_True by done|rewrite decide_False by done]; cbn; lia.
  - specialize (IH i H Ht). change (<[S i := t']> (a :: l)) with (a :: <[i := t']> l). rewrite !list.filter_cons.
    destruct (decide _); cbn [length]; lia.
Qed.

Lemma pending_pos l i t : l !! i = Some t -> unfinished t = true -> (0 < pending l)%nat.
Proof.
  intros H Ht. unfold pending. enough (t ∈ filter (fun t => unfinished t = true) l) as Hin by (destruct (filter _ l); [by apply not_elem_of_nil in Hin|cbn; lia]).
  apply list.list_elem_of_filter. split; [done|]. by eapply list_elem_of_lookup_2.
Qed.

(** Every task has finished. *)
Definition all_finished l : Prop := forall t, t ∈ l -> unfinished t = false.

Lemma pending_zero l : pending l = 0%nat <-> all_finished l.
Proof.
  split.
  - intros H t [i Hi]%list_elem_of_lookup. destruct (unfinished t) eqn:E'; [|done]. pose proof (pending_pos l i t Hi E'). lia.
  - intros H. unfold pending. apply length_zero_iff_nil. apply elem_of_nil_inv. intros t [Ht Hin]%list.list_elem_of_filter.
    rewrite (H t Hin) in Ht. done.
Qed.

Lemma when_ready_ok n tp : Z.of_nat n + 1 < 2 ^ 64 -> group_ok n tp false (when_ready tp n).
Proof.
  intros Hn. assert (Hp : pending (replicate n (@Created T E)) = n).
  { unfold pending. clear Hn. induction n as [|n IH]; [done|]. cbn [replicate]. rewrite list.filter_cons, decide_True by done. cbn. by rewrite IH. }
  split; cbn [when_ready tasks_ order counter_ counter_new count_ handle_ type_ index_ source_]; try done.
  - apply length_replicate.
  - rewrite Hp. cbn. lia.
  - rewrite Hp, u64_small; [done|]. unfold is_u64. lia.
  - intros i r k. split; [|by intros (j & _ & ?)]. intros [? _]%lookup_replicate. done.
Qed.

(** The end of a task resumes the awaiting coroutine if it is the last and
    the coroutine has been suspended. *)
Lemma final_suspend_ok n tp fwd g i t r :
  group_ok n tp fwd g -> tasks_ g !! i = Some t -> unfinished t = true ->
  exists g', final_suspend g i r = Some (handle_ (counter_ g) && (pending (tasks_ g') =? 0)%nat, g') /\ group_ok n tp fwd g' /\
    handle_ (counter_ g') = handle_ (counter_ g) /\ order g' = order g ++ [(i, r)] /\
    (exists k, tasks_ g' = <[i := Finished r k]> (tasks_ g)).
Proof.
  intros Hg Hi Ht. pose proof Hg as [H1 H2 H3 H4 H5 H6 H7 H8].
  pose proof (pending_insert (tasks_ g) i t (Finished r (index_ (counter_ g))) Hi Ht) as Hp. cbn [unfinished] in Hp.
  unfold final_suspend, increment_index, notify. cbn [count_ handle_ type_ source_ index_].
  set (g' := Group (ParallelCounter (u64 (count_ (counter_ g) - 1)) (type_ (counter_ g))
    (source_ (counter_ g) || cancels (type_ (counter_ g)) (is_exception r)) (handle_ (counter_ g)) (u64 (index_ (counter_ g) + 1)))
    (<[i := Finished r (index_ (counter_ g))]> (tasks_ g)) (order g ++ [(i, r)])). exists g'. split; [|split; [|split; [done|split; [done|by eexists]]]].
  - assert (Hc : count_ (counter_ g) = Z.of_nat (pending (tasks_ g')) + 1 + if handle_ (counter_ g) then 0 else 1).
    { rewrite H4. cbn [tasks_ g']. lia. }
    destruct (handle_ (counter_ g)) eqn:Eh; cbn [andb].
    + destruct (Nat.eqb_spec (pending (tasks_ g')) 0) as [E'|E'].
      * rewrite (proj2 (Z.eqb_eq _ _)) by lia. done.
      * rewrite (proj2 (Z.eqb_neq _ _)) by lia. done.
    + rewrite (proj2 (Z.eqb_neq _ _)) by lia. done.
  - split; cbn [g' tasks_ order counter_ count_ handle_ type_ index_ source_].
    + by rewrite length_insert.
    + done.
    + rewrite length_app. cbn [length]. lia.
    + rewrite H4, u64_small; [lia|]. unfold is_u64. destruct (handle_ (counter_ g)); lia.
    + done.
    + rewrite H6, length_app, u64_small by (unfold is_u64; lia). cbn [length]. lia.
    + rewrite H5, H7, existsb_app. cbn [existsb]. unfold triggers at 3. cbn [snd]. rewrite orb_false_r.
      destruct (existsb _ _), fwd, (cancels tp _); done.
    + intros a r' k. destruct (decide (a = i)) as [->|Hne].
      * rewrite list_lookup_insert_eq by exact (lookup_lt_Some _ _ _ Hi). split.
        -- intros [= <- <-]. exists (length (order g)). split; [done|]. by rewrite list_lookup_middle.
        -- intros (j & -> & Hj). destruct (decide (j < length (order g))%nat) as [Hlt|Hge].
           ++ rewrite lookup_app_l in Hj by done. assert (tasks_ g !! i = Some (Finished r' (Z.of_nat j))) as Hf by (apply H8; by exists j).
              rewrite Hf in Hi. injection Hi as <-. done.
           ++ rewrite lookup_app_r in Hj by lia. destruct (j - length (order g))%nat as [|x] eqn:Ex; [|by destruct x].
              injection Hj as <-. replace j with (length (order g)) by lia. by rewrite H6.
      * rewrite list_lookup_insert_ne by done. rewrite H8. split; intros (j & -> & Hj); exists j; (split; [done|]).
        -- by apply lookup_app_l_Some.
        -- apply lookup_app_Some in Hj as [?|[_ Hj]]; [done|]. destruct (j - _)%nat as [|x]; [by injection Hj as -> _|by destruct x].
Qed.
(** ** Starting *)

(** The tasks before [i] have been started. *)
Definition started (n i : nat) g : Prop := forall j, tasks_ g !! j = Some Created <-> (i <= j < n)%nat.

Lemma started_insert n i g t : started n i g -> length (tasks_ g) = n -> (i < n)%nat -> t <> Created ->
  forall j, <[i := t]> (tasks_ g) !! j = Some Created <-> (S i <= j < n)%nat.
Proof.
  intros Hs Hl Hi Ht j. destruct (decide (j = i)) as [->|Hne].
  - rewrite list_lookup_insert_eq by lia. split; [congruence|lia].
  - rewrite list_lookup_insert_ne by done. rewrite (Hs j). lia.
Qed.

Lemma start_ok n tp g t i b :
  group_ok n tp false g -> handle_ (counter_ g) = false -> started n i g -> (i < n)%nat ->
  exists g' t', start canceled g t i b = Some (g', t') /\ group_ok n tp false g' /\ handle_ (counter_ g') = false /\
    started n (S i) g' /\ (t' = None <-> t = None).
Proof.
  intros Hg Hh Hs Hi. assert (Hc : tasks_ g !! i = Some Created) by (apply Hs; lia).
  assert (Hfin : forall r, exists g', final_suspend g i r = Some (false, g') /\ group_ok n tp false g' /\
    handle_ (counter_ g') = false /\ started n (S i) g').
  { intros r. destruct (final_suspend_ok n tp false g i Created r Hg Hc eq_refl) as (g' & E1 & E2 & E3 & _ & k & Ek).
    rewrite Hh in E1, E3. cbn [andb] in E1. exists g'. split; [done|]. split; [done|]. split; [done|].
    intros j. rewrite Ek. apply started_insert; [done|apply Hg|done|done]. }
  unfold start. destruct (source_ (counter_ g)).
  - destruct (Hfin (Exception canceled)) as (g' & -> & ?). exists g', t. tauto.
  - set (t' := if cancels_waiter b then _ else t).
    assert (Ht : t' = None <-> t = None) by (unfold t'; destruct (cancels_waiter b), t; done).
    destruct (first_result b) as [r|].
    + destruct (Hfin r) as (g' & -> & ?). exists g', t'. tauto.
    + eexists _, t'. split; [done|]. pose proof Hg as [H1 H2 H3 H4 H5 H6 H7 H8].
      pose proof (pending_insert (tasks_ g) i Created Running Hc eq_refl) as Hp. cbn [unfinished] in Hp. rewrite Nat.add_0_r in Hp.
      split; [split; cbn [tasks_ counter_ order]; rewrite <-?Hp; try done|]; [by rewrite length_insert| |].
      * intros a r k. destruct (decide (a = i)) as [->|Hne].
        -- rewrite list_lookup_insert_eq by lia. split; [done|]. intros Hx. apply H8 in Hx. congruence.
        -- rewrite list_lookup_insert_ne by done. apply H8.
      * split; [done|]. split; [|done]. intros j. cbn [tasks_]. by apply started_insert.
Qed.

Lemma start_tasks_ok n tp : forall bs i g t,
  group_ok n tp false g -> handle_ (counter_ g) = false -> started n i g -> (i + length bs = n)%nat ->
  exists g' t', start_tasks canceled g t i bs = Some (g', t') /\ group_ok n tp false g' /\ handle_ (counter_ g') = false /\
    started n n g' /\ (t' = None <-> t = None).
Proof.
  induction bs as [|b bs IH]; intros i g t Hg Hh Hs Hn; cbn [start_tasks length] in *.
  - exists g, t. replace i with n in Hs by lia. done.
  - destruct (start_ok n tp g t i b Hg Hh Hs ltac:(lia)) as (g1 & t1 & -> & Hg1 & Hh1 & Hs1 & Ht1). cbn [mbind option_bind].
    destruct (IH (S i) g1 t1 Hg1 Hh1 Hs1 ltac:(lia)) as (g' & t' & E1 & E2 & E3 & E4 & E5). exists g', t'. tauto.
Qed.

(** ** Waiting *)

Record waiter_ok (n : nat) (tp : wait_type) (fwd : bool) (w : waiter T E) : Prop := {
  wk_group : group_ok n tp fwd (group_ w);
  wk_cancelled : fwd = true -> token_ w = Some true;
  wk_forwards : registration w = true -> token_ w = Some true -> fwd = true;
  wk_status :
    if suspended w
    then results w = [] /\ handle_ (counter_ (group_ w)) = true /\ (0 < pending (tasks_ (group_ w)))%nat /\ started n n (group_ w)
    else (results w = [Throws] /\ started n 0 (group_ w)) \/
         ((results w = [Throws] \/ results w = [Returns (tasks_ (group_ w))]) /\ all_finished (tasks_ (group_ w))) }.

Lemma await_resume_ok n tp fwd g t : group_ok n tp fwd g -> (fwd = true -> t = Some true) -> all_finished (tasks_ g) ->
  waiter_ok n tp fwd (await_resume g t []).
Proof.
  intros Hg Hf Ha. split; cbn [await_resume group_ token_ registration suspended results]; [done|done|done|]. right. split; [|done].
  destruct (is_cancellation_requested t); [by left|by right].
Qed.

Lemma await_ok n tp t bs : Z.of_nat n + 1 < 2 ^ 64 -> length bs = n ->
  exists w, await canceled (when_ready tp n) t bs = Some w /\ waiter_ok n tp false w.
Proof.
  intros Hn Hl. unfold await. pose proof (when_ready_ok n tp Hn) as Hg.
  assert (Hs : started n 0 (@when_ready T E tp n)) by (intros j; cbn [when_ready tasks_]; rewrite lookup_replicate; intuition lia).
  destruct (is_cancellation_requested t) eqn:Et.
  - eexists. split; [done|]. split; cbn [await_resume group_ token_ registration suspended results]; [done|done|done|].
    left. rewrite Et. done.
  - destruct (start_tasks_ok n tp bs 0 (when_ready tp n) t Hg eq_refl Hs Hl) as (g & t' & -> & Hg' & Hh & Hs' & Ht). cbn [mbind option_bind].
    pose proof Hg' as [H1 H2 H3 H4 H5 H6 H7 H8]. unfold try_await. rewrite H4, Hh. set (g1 := Group _ (tasks_ g) (order g)).
    assert (Hg1 : group_ok n tp false g1).
    { split; cbn [g1 tasks_ counter_ order count_ handle_ type_ index_ source_]; try done. rewrite u64_small; [lia|]. unfold is_u64. lia. }
    eexists. split; [done|]. destruct (Z.ltb_spec 1 (Z.of_nat (pending (tasks_ g)) + 1)) as [Hp|Hp].
    + split; cbn [group_ token_ registration suspended results]; [done|done| |].
      * unfold can_be_cancelled. rewrite bool_decide_eq_true. congruence.
      * split; [done|]. split; [done|]. split; [change (tasks_ g1) with (tasks_ g); lia|]. done.
    + apply await_resume_ok; [done|done|]. apply pending_zero. change (tasks_ g1) with (tasks_ g). lia.
Qed.

Lemma group_step_ok n tp fwd w e : waiter_ok n tp fwd w ->
  exists w' fwd', step w e = Some w' /\ waiter_ok n tp fwd' w'.
Proof.
  intros Hw. pose proof Hw as [Hg Hc Hf Hs]. destruct e as [i r|]; cbn [step].
  - destruct (tasks_ (group_ w) !! i) as [[| |? ?]|] eqn:Ei; [by exists w, fwd| |by exists w, fwd..].
    destruct (final_suspend_ok n tp fwd (group_ w) i Running r Hg Ei eq_refl) as (g' & -> & Hg' & Hh & _ & k & Ek). cbn [mbind option_bind].
    destruct (suspended w) eqn:Es.
    + destruct Hs as (Hr & Hh' & Hp & Hst). rewrite Hh' in *. cbn [andb]. eexists _, fwd. split; [done|]. rewrite Hr.
      destruct (Nat.eqb_spec (pending (tasks_ g')) 0) as [E0|E0].
      * apply await_resume_ok; [done|done|]. by apply pending_zero.
      * split; cbn [group_ token_ registration suspended results]; [done|done|done|]. split; [done|]. split; [done|]. split; [lia|].
        unfold started. intros j. rewrite Ek. rewrite <-(Hst j). destruct (decide (j = i)) as [->|Hne]; [|by rewrite list_lookup_insert_ne].
        rewrite list_lookup_insert_eq by exact (lookup_lt_Some _ _ _ Ei). by rewrite Ei.
    + exfalso. destruct Hs as [[_ Hs]|[_ Hs]].
      * assert (i < n)%nat by (rewrite <-(gk_size _ _ _ _ Hg); by eapply lookup_lt_Some). assert (tasks_ (group_ w) !! i = Some Created) by (apply Hs; lia). congruence.
      * specialize (Hs Running). rewrite list_elem_of_lookup in Hs. by specialize (Hs (ex_intro _ i Ei)).
  - unfold can_be_cancelled. destruct (bool_decide_reflect (token_ w = Some false)) as [Et|Et]; [|by exists w, fwd].
    assert (fwd = false) as -> by (destruct fwd; [specialize (Hc eq_refl); congruence|done]).
    eexists _, (registration w). split; [done|]. pose proof Hg as [H1 H2 H3 H4 H5 H6 H7 H8].
    split; cbn [group_ token_ registration suspended results]; [|done|by intros -> _|].
    + destruct (registration w); [|done]. split; cbn [request_cancellation tasks_ counter_ order count_ handle_ type_ index_ source_]; try done.
      by rewrite orb_true_r.
    + destruct (registration w); destruct (suspended w); exact Hs.
Qed.

Lemma group_run_ok n tp es : forall fwd w, waiter_ok n tp fwd w -> exists w' fwd', run w es = Some w' /\ waiter_ok n tp fwd' w'.
Proof.
  induction es as [|e es IH]; intros fwd w Hw; cbn [run]; [by exists w, fwd|].
  destruct (group_step_ok n tp fwd w e Hw) as (w1 & fwd1 & -> & Hw1). cbn [mbind option_bind]. by apply (IH fwd1).
Qed.

(** A coroutine that is not suspended has been resumed, once. *)
Lemma waiter_results n tp fwd w : waiter_ok n tp fwd w ->
  (length (results w) <= 1)%nat /\ (results w = [] <-> exists i, tasks_ (group_ w) !! i = Some Running) /\
  (forall ts, Returns ts ∈ results w -> ts = tasks_ (group_ w) /\ all_finished ts).
Proof.
  intros [Hg _ _ Hs]. assert (Hno : all_finished (tasks_ (group_ w)) -> forall i, tasks_ (group_ w) !! i <> Some Running).
  { intros H i Hi. specialize (H Running). rewrite list_elem_of_lookup in H. by specialize (H (ex_intro _ i Hi)). }
  destruct (suspended w).
  - destruct Hs as (-> & _ & Hp & Hst). split; [cbn; lia|]. split; [|by intros ts ?%not_elem_of_nil]. split; [intros _|done].
    unfold pending in Hp. destruct (filter _ (tasks_ (group_ w))) as [|t l] eqn:Ef; [cbn in Hp; lia|].
    assert (Ht : t ∈ t :: l) by by left. rewrite <-Ef in Ht. apply list.list_elem_of_filter in Ht as [Hu [i Hi]%list_elem_of_lookup].
    exists i. destruct t; [|done|done]. apply Hst in Hi. lia.
  - assert (Hnr : forall i, tasks_ (group_ w) !! i <> Some Running).
    { destruct Hs as [[_ Hs]|[_ Hs]]; [|by apply Hno]. intros i Hi. pose proof (lookup_lt_Some _ _ _ Hi) as Hl. rewrite (gk_size _ _ _ _ Hg) in Hl.
      assert (tasks_ (group_ w) !! i = Some Created) by (apply Hs; lia). congruence. }
    destruct Hs as [[-> _]|[[->| ->] Ha]]; (split; [cbn; lia|]); (split; [split; [done|by intros [i ?%Hnr]]|]).
    1-2: by intros ts ?%list_elem_of_singleton. by intros ts [= ->]%list_elem_of_singleton.
Qed.
End proofs.

(** * Properties *)

(** The first success in the order in which the tasks ended or, when there is
    none, the first exception. *)
Definition or_spec {V E} (n : nat) (order : list (nat * result (nat * V) E)) : option (nat * V + thrown E) :=
  match List.find (fun x => negb (is_exception x.2)) order with
  | Some (O, Value v) => Some (inl v)
  | Some (_, Value v) => Some (inl (n + v.1, v.2)%nat)
  | _ => match order with (_, Exception e) :: _ => Some (inr (MultipleExceptions e)) | _ => None end
  end.

Section properties.
Context {E : Type} (canceled : E).

(** The coroutine that awaits a group is resumed once, and exactly when no
    task of the group runs any more: the tasks it gets, or destroys when it was
    cancelled, have all finished or were never started. No interleaving of ends
    and cancellations resumes a null handle. *)
Theorem when_ready_waits {T} (tp : wait_type) (n : nat) (t : option bool) (bs : list (body T E)) (es : list (event T E)) :
  Z.of_nat n + 1 < 2 ^ 64 -> length bs = n ->
  exists w, (w ← await canceled (when_ready tp n) t bs; run w es) = Some w /\
    (length (results w) <= 1)%nat /\
    (results w = [] <-> exists i, tasks_ (group_ w) !! i = Some Running) /\
    (forall ts, Returns ts ∈ results w -> ts = tasks_ (group_ w) /\ all_finished ts).
Proof.
  intros Hn Hl. destruct (await_ok canceled n tp t bs Hn Hl) as (w0 & -> & Hw0). cbn [mbind option_bind].
  destruct (group_run_ok n tp es false w0 Hw0) as (w & fwd & E1 & Hw). exists w. split; [done|]. by apply (waiter_results n tp fwd).
Qed.

(** The tasks that remain are asked to stop exactly when one that has ended is
    of the kind the [wait_type] names, or when the waiter was cancelled. *)
Theorem remaining_cancelled {T} (tp : wait_type) (n : nat) (t : option bool) (bs : list (body T E)) (es : list (event T E)) (w : waiter T E) :
  Z.of_nat n + 1 < 2 ^ 64 -> length bs = n ->
  (w ← await canceled (when_ready tp n) t bs; run w es) = Some w ->
  (existsb (triggers tp) (order (group_ w)) = true -> source_ (counter_ (group_ w)) = true) /\
  (source_ (counter_ (group_ w)) = true -> existsb (triggers tp) (order (group_ w)) = true \/ token_ w = Some true).
Proof.
  intros Hn Hl Hr. destruct (await_ok canceled n tp t bs Hn Hl) as (w0 & E0 & Hw0). rewrite E0 in Hr. cbn [mbind option_bind] in Hr.
  destruct (group_run_ok n tp es false w0 Hw0) as (w' & fwd & E1 & [Hg Hc _ _]). rewrite E1 in Hr. injection Hr as ->.
  rewrite (gk_source _ _ _ _ Hg). destruct (existsb _ _), fwd; cbn; auto.
Qed.

(** [l || r] is what the first of the two to succeed returned, whichever it
    is; when both throw, it throws the exception of the first to end. *)
Theorem or_takes_first_success {V} (n : nat) (t : option bool) (bs : list (body (nat * V) E)) (es : list (event (nat * V) E))
    (w : waiter (nat * V) E) (ts : list (parallel_task (nat * V) E)) :
  length bs = 2%nat -> (w ← await canceled (when_ready one_succ 2) t bs; run w es) = Some w -> results w = [Returns ts] ->
  exists l r res, ts = [l; r] /\ operator_or n l r = Some res /\ or_spec n (order (group_ w)) = Some res.
Proof.
  intros Hl Hr Hts. destruct (await_ok canceled 2 one_succ t bs ltac:(lia) Hl) as (w0 & E0 & Hw0). rewrite E0 in Hr. cbn [mbind option_bind] in Hr.
  destruct (group_run_ok 2 one_succ es false w0 Hw0) as (w' & fwd & E1 & Hw). rewrite E1 in Hr. injection Hr as ->.
  destruct (waiter_results _ _ _ _ Hw) as (_ & _ & Ha). specialize (Ha ts). rewrite Hts, list_elem_of_singleton in Ha.
  destruct (Ha eq_refl) as [-> Hf]. destruct Hw as [[H1 _ H3 _ _ _ _ H8] _ _ _].
  rewrite (proj2 (pending_zero _) Hf) in H3. cbn [Nat.add] in H3.
  destruct (tasks_ (group_ w)) as [|l [|r [|? ?]]]; try done. exists l, r.
  assert (Hul : unfinished l = false) by (apply Hf; by left). assert (Hur : unfinished r = false) by (apply Hf; right; by left).
  destruct l as [| |rl kl]; [done..|]. destruct r as [| |rr kr]; [done..|].
  destruct (proj1 (H8 0%nat rl kl) eq_refl) as (jl & -> & Hjl). destruct (proj1 (H8 1%nat rr kr) eq_refl) as (jr & -> & Hjr).
  destruct (order (group_ w)) as [|a [|b [|? ?]]]; try done.
  destruct jl as [|[|?]], jr as [|[|?]]; cbn [lookup list_lookup] in *; simplify_eq; destruct rl, rr; eexists; done.
Qed.

(** When the right side of [l && r] fails while the left one waits, the left
    one is cancelled; what is thrown names its [canceled] as the first
    exception, not the failure. *)
Theorem and_hides_failure {V} (e : E) :
  exists w l r, (w ← await canceled (when_ready one_fail 2) None [Body None false; Body None false];
                 run w [Done 1 (Exception e)]) = Some w /\ source_ (counter_ (group_ w)) = true /\ results w = [] /\
    (w ← run w [Done 0 (Exception canceled)]; Some (results w)) = Some [Returns [l; r]] /\
    operator_and (V := V) l r = Some (inr (MultipleExceptions canceled)).
Proof. eexists _, _, _. by repeat split. Qed.
End properties.

(** A call with a timeout, [call || timeout()]: the timer ends first, the call
    is cancelled and throws. *)
Definition demo_events : list (event (nat * Z) bool) := [Done 1 (Value (0%nat, 0)); Done 0 (Exception true)].

Definition demo_waiter : option (waiter (nat * Z) bool) :=
  w ← await true (when_ready one_succ 2) (Some false) [Body None false; Body None false]; run w demo_events.

Lemma when_ready_waits_witness :
  exists w, demo_waiter = Some w /\ (length (results w) <= 1)%nat /\ results w <> [].
Proof.
  destruct (when_ready_waits true one_succ 2 (Some false) [Body None false; Body None false] demo_events) as (w & E1 & H1 & H2 & _);
    [lia|done|]. exists w. split; [exact E1|]. split; [exact H1|]. revert E1. vm_compute. by intros [= <-].
Defined.

Lemma or_takes_first_success_witness :
  exists l r, operator_or 1 l r = Some (inl (1%nat, 0)) /\ get_exception l = Some true.
Proof.
  destruct demo_waiter as [w|] eqn:Ew; [|by vm_compute in Ew].
  assert (Hr : results w = [Returns [Finished (Exception true) 1; Finished (Value (0%nat, 0)) 0]]) by (vm_compute in Ew; by injection Ew as <-).
  destruct (or_takes_first_success true 1 (Some false) [Body None false; Body None false] demo_events w _ eq_refl Ew Hr)
    as (l & r & res & [= <- <-] & E2 & E3). eexists _, _. split; [rewrite E2; vm_compute in E2; by injection E2 as <-|done].
Defined.

Lemma remaining_cancelled_witness :
  exists w, demo_waiter = Some w /\ source_ (counter_ (group_ w)) = true.
Proof.
  destruct demo_waiter as [w|] eqn:Ew; [|by vm_compute in Ew]. exists w. split; [done|].
  refine (proj1 (remaining_cancelled true one_succ 2 (Some false) [Body None false; Body None false] demo_events w _ eq_refl Ew) _); [lia|].
  vm_compute in Ew. by injection Ew as <-.
Defined.
