(* ===== verification/RpcSystem.v ===== *)
(** Remote calls (src/gobang/kernel/proto_rpc.cpp, proto_rpc.h and [rpc_call] of
    proto_utils.h): session numbers, the table of the calls that wait for a
    reply, and the coroutines that are resumed with the reply or cancelled.

    A call is known by the number of its coroutine; the awaiter in its frame
    lives until [await_resume] ends. Parsing the reply is a parameter, the
    clock and the process id are inputs. *)

From stdpp Require Import gmap.
From S2P Require Import Prelude AwaiterList Cancellation.

(** * Sessions *)

Record rpc_system := RpcSystem { wait_map_ : gmap Z nat; sequence_ : Z; time_ : Z }.

Definition rpc_new : rpc_system := RpcSystem ∅ 0 0.

Definition create_session (r : rpc_system) (now pid : Z) : Z * rpc_system :=
  let ti := u64 now in
  let '(ti, time, sequence) :=
    if ti <? time_ r then (time_ r, time_ r, sequence_ r)
    else if time_ r <? ti then (ti, ti, 0)
    else (ti, time_ r, sequence_ r) in
  let session := u64 (Z.shiftl ti 32) in
  let session := Z.lor session (Z.shiftl (Z.land (u64 pid) 0x7F) 25) in
  let sequence := u32 (sequence + 1) in
  (Z.lor session (Z.land sequence 0x1FFFFFF), RpcSystem (wait_map_ r) sequence time).

(** [emplace] keeps an entry that is there. *)
Definition insert_session (r : rpc_system) (session : Z) (a : nat) : rpc_system :=
  match wait_map_ r !! session with
  | Some _ => r
  | None => RpcSystem (<[session := a]> (wait_map_ r)) (sequence_ r) (time_ r)
  end.

Definition erase_session (r : rpc_system) (session : Z) : rpc_system :=
  RpcSystem (delete session (wait_map_ r)) (sequence_ r) (time_ r).

(** * Calls *)

Section calls.
Context {M : Type} (parse : bytes -> option M).

(** [rpc_awaiter_base]: [ra_reply] is nothing before [parse_message], then the
    message or the exception it has stored. *)
Record rpc_awaiter := RpcAwaiter { ra_session : Z; ra_token : token; ra_reply : option (option M) }.

Inductive call_result :=
  | Reply (m : M)       (* [await_resume] returns *)
  | Empty               (* it returns a message nothing was parsed into *)
  | ParseFail           (* [std::logic_error] *)
  | CallCanceled.       (* [coro_errors::canceled] *)

Record rpc_world := RpcWorld {
  system : rpc_system; awaiters : gmap nat rpc_awaiter; cancel_ : cancellation; wake_ : list nat }.

(** The result of [await_resume], and the end of the awaiter. *)
Definition await_resume (w : rpc_world) (a : nat) : option (call_result * rpc_world) :=
  x ← awaiters w !! a;
  c ← reset_registration (cancel_ w) a;
  let r :=
    if is_cancellation_requested c (ra_token x) then CallCanceled
    else match ra_reply x with Some (Some m) => Reply m | Some None => ParseFail | None => Empty end in
  Some (r, RpcWorld (system w) (delete a (awaiters w)) c (wake_ w)).

(** [rpc_call] up to its suspension: the session of the request that is sent,
    and the result if the call does not wait. *)
Definition call (w : rpc_world) (a : nat) (t : token) (now pid : Z)
    : option (Z * rpc_world * list (nat * call_result)) :=
  let '(session, r) := create_session (system w) now pid in
  let w := RpcWorld r (<[a := RpcAwaiter session t None]> (awaiters w)) (cancel_ w) (wake_ w) in
  if is_cancellation_requested (cancel_ w) t then
    '(x, w) ← await_resume w a; Some (session, w, [(a, x)])
  else
    c ← (if can_be_cancelled (cancel_ w) t then new_registration (cancel_ w) a t else Some (cancel_ w));
    Some (session, RpcWorld (insert_session (system w) session a) (awaiters w) c (wake_ w), []).

(** [wake_up_session(session)], the callback of a cancelled call. *)
Definition wake_up (w : rpc_world) (session : Z) : rpc_world :=
  match wait_map_ (system w) !! session with
  | Some a => RpcWorld (erase_session (system w) session) (awaiters w) (cancel_ w) (wake_ w ++ [a])
  | None => w
  end.

(** [wake_up_session(session, data)]: whether a call was waiting. *)
Definition receive (w : rpc_world) (session : Z) (data : bytes) : option (bool * rpc_world) :=
  match wait_map_ (system w) !! session with
  | Some a =>
      x ← awaiters w !! a;
      Some (true, RpcWorld (erase_session (system w) session)
                    (<[a := RpcAwaiter (ra_session x) (ra_token x) (Some (parse data))]> (awaiters w))
                    (cancel_ w) (wake_ w ++ [a]))
  | None => Some (false, w)
  end.

Fixpoint run_callbacks (w : rpc_world) (fired : list nat) : option rpc_world :=
  match fired with
  | [] => Some w
  | a :: fired => x ← awaiters w !! a; run_callbacks (wake_up w (ra_session x)) fired
  end.

Definition cancel (w : rpc_world) (s : nat) : option rpc_world :=
  '(c, fired) ← request_cancellation (cancel_ w) s;
  run_callbacks (RpcWorld (system w) (awaiters w) c (wake_ w)) fired.

Definition resume (w : rpc_world) : option (rpc_world * list (nat * call_result)) :=
  match wake_ w with
  | [] => Some (w, [])
  | a :: rest =>
      '(x, w) ← await_resume (RpcWorld (system w) (awaiters w) (cancel_ w) rest) a; Some (w, [(a, x)])
  end.

Inductive rpc_op :=
  | OpSource (s : nat)
  | OpCall (a : nat) (t : token) (now pid : Z)
  | OpReceive (session : Z) (data : bytes)
  | OpCancel (s : nat)
  | OpResume.

Definition rpc_step (w : rpc_world) (op : rpc_op) : option (rpc_world * list (nat * call_result)) :=
  match op with
  | OpSource s => Some (RpcWorld (system w) (awaiters w) (new_source (cancel_ w) s) (wake_ w), [])
  | OpCall a t now pid => '(_, w, out) ← call w a t now pid; Some (w, out)
  | OpReceive session data => '(_, w) ← receive w session data; Some (w, [])
  | OpCancel s => w ← cancel w s; Some (w, [])
  | OpResume => resume w
  end.

Fixpoint rpc_run (w : rpc_world) (ops : list rpc_op) : option (rpc_world * list (nat * call_result)) :=
  match ops with
  | [] => Some (w, [])
  | op :: ops => '(w, out) ← rpc_step w op; '(w, out') ← rpc_run w ops; Some (w, out ++ out')
  end.
End calls.

Arguments rpc_awaiter : clear implicits.
Arguments call_result : clear implicits.
Arguments rpc_world : clear implicits.

(** * Session numbers *)

(** The three fields of a session. *)
Definition session_of (ti pid sequence : Z) : Z :=
  ti mod 2 ^ 32 * 2 ^ 32 + (pid mod 2 ^ 7) * 2 ^ 25 + sequence mod 2 ^ 25.

Lemma create_session_value r now pid :
  0 <= pid < 2 ^ 64 ->
  let '(s, r') := create_session r now pid in s = session_of (time_ r') pid (sequence_ r').
Proof.
  intros Hp. unfold create_session. set (p := if u64 now <? time_ r then _ else _). destruct p as [[ti time] q] eqn:E.
  cbn [time_ sequence_]. assert (ti = time) as ->.
  { subst p. destruct (u64 now <? time_ r) eqn:E1; [congruence|]. destruct (time_ r <? u64 now) eqn:E2; [congruence|].
    injection E as <- <- <-. lia. }
  unfold session_of. rewrite (Z.shiftl_mul_pow2 time), (Z.shiftl_mul_pow2 _ 25) by lia.
  change 0x7F with (Z.ones 7). change 0x1FFFFFF with (Z.ones 25). rewrite !Z.land_ones by lia.
  replace (u64 (time * 2 ^ 32)) with (time mod 2 ^ 32 * 2 ^ 32).
  2: { unfold u64. change (2 ^ 64) with (2 ^ 32 * 2 ^ 32). by rewrite Z.mul_mod_distr_r by lia. }
  rewrite (u64_small pid) by done.
  pose proof (Z.mod_pos_bound pid (2 ^ 7)) as H1. pose proof (Z.mod_pos_bound (u32 (q + 1)) (2 ^ 25)) as H2.
  rewrite (lor_mul_pow2 _ (pid mod 2 ^ 7 * 2 ^ 25) 32) by lia.
  replace (time mod 2 ^ 32 * 2 ^ 32 + pid mod 2 ^ 7 * 2 ^ 25) with ((time mod 2 ^ 32 * 2 ^ 7 + pid mod 2 ^ 7) * 2 ^ 25) by lia.
  by rewrite lor_mul_pow2 by lia.
Qed.

(** The sessions of the calls made at these times. *)
Fixpoint sessions (r : rpc_system) (pid : Z) (nows : list Z) : list Z :=
  match nows with
  | [] => []
  | now :: nows => let '(s, r) := create_session r now pid in s :: sessions r pid nows
  end.

(** A later time, or the same one and a later number. *)
Definition after (t q : Z) (t' q' : Z) : Prop := t < t' \/ (t = t' /\ q < q').

Lemma create_session_after r now pid :
  0 <= now < 2 ^ 32 -> 0 <= sequence_ r -> sequence_ r + 1 < 2 ^ 25 -> 0 <= time_ r < 2 ^ 32 ->
  let r' := (create_session r now pid).2 in
  after (time_ r) (sequence_ r) (time_ r') (sequence_ r') /\ 0 <= time_ r' < 2 ^ 32 /\
  0 < sequence_ r' <= sequence_ r + 1.
Proof.
  intros Hn Hq Hq' Ht. unfold create_session. rewrite (u64_small now) by word.
  destruct (Z.ltb_spec now (time_ r)); [|destruct (Z.ltb_spec (time_ r) now)]; cbn [snd time_ sequence_];
    rewrite u32_small by word; unfold after; lia.
Qed.

Lemma session_of_inj t q t' q' pid :
  0 <= t < 2 ^ 32 -> 0 <= t' < 2 ^ 32 -> 0 <= q < 2 ^ 25 -> 0 <= q' < 2 ^ 25 ->
  session_of t pid q = session_of t' pid q' -> t = t' /\ q = q'.
Proof.
  intros Ht Ht' Hq Hq'. unfold session_of. rewrite !Z.mod_small by lia.
  pose proof (Z.mod_pos_bound pid (2 ^ 7)). lia.
Qed.

Lemma sessions_after nows : forall r pid s,
  0 <= pid < 2 ^ 64 -> Forall (fun now => 0 <= now < 2 ^ 32) nows -> 0 <= sequence_ r ->
  sequence_ r + zlen nows < 2 ^ 25 -> 0 <= time_ r < 2 ^ 32 -> s ∈ sessions r pid nows ->
  exists t q, s = session_of t pid q /\ after (time_ r) (sequence_ r) t q /\ 0 <= t < 2 ^ 32 /\ 0 <= q < 2 ^ 25.
Proof.
  induction nows as [|now nows IH]; intros r pid s Hp Hn Hq Hl Ht; cbn [sessions]; [by intros ?%elem_of_nil|].
  apply list.Forall_cons in Hn as [Hnow Hn]. rewrite zlen_cons in Hl. pose proof (zlen_nonneg nows).
  pose proof (create_session_value r now pid Hp) as Hv.
  destruct (create_session_after r now pid Hnow Hq) as (Ha & Ht' & Hq'); [lia|done|].
  destruct (create_session r now pid) as [s0 r']. cbn in *. intros [->|Hs]%elem_of_cons.
  - exists (time_ r'), (sequence_ r'). split; [done|]. split; [done|]. split; [done|lia].
  - destruct (IH r' pid s) as (t & q & -> & Ha' & ? & ?); [done|done|lia|lia|done|done|].
    exists t, q. split; [done|]. split; [|done]. unfold after in *. lia.
Qed.

(** * The calls *)

Section calls_ok.
Context {M : Type} (parse : bytes -> option M) (P : Z).

Implicit Types (w : rpc_world M).

Definition requested w (t : token) : bool := is_cancellation_requested (cancel_ w) t.

(** A waiting call is in the table under its session, a call that will be
    resumed is queued once, and no call is both or neither. A queued call has
    its reply or is cancelled. *)
Record rpc_ok w (l : nat -> list nat) : Prop := {
  ro_cancel : cancellation_ok (cancel_ w) l;
  ro_reg a : is_Some (reg_state_ (cancel_ w) !! a) -> is_Some (awaiters w !! a);
  ro_token a s : a ∈ l s -> exists x, awaiters w !! a = Some x /\ ra_token x = Some s;
  ro_source a x s : awaiters w !! a = Some x -> ra_token x = Some s -> is_Some (states (cancel_ w) !! s);
  ro_map s a : wait_map_ (system w) !! s = Some a ->
    (a ∉ wake_ w) /\ exists x, awaiters w !! a = Some x /\ ra_session x = s /\ ra_reply x = None;
  ro_call a x : awaiters w !! a = Some x ->
    wait_map_ (system w) !! ra_session x = Some a \/ a ∈ wake_ w;
  ro_wake : NoDup (wake_ w);
  ro_live a : a ∈ wake_ w -> exists x, awaiters w !! a = Some x /\
    (ra_reply x = None -> requested w (ra_token x) = true);
  ro_clock : 0 <= sequence_ (system w) < 2 ^ 25 /\ 0 <= time_ (system w) < 2 ^ 32;
  ro_past a x : awaiters w !! a = Some x ->
    exists t q, ra_session x = session_of t P q /\ 0 <= t < 2 ^ 32 /\ 0 <= q < 2 ^ 25 /\
      (t < time_ (system w) \/ (t = time_ (system w) /\ q <= sequence_ (system w)));
  ro_distinct a b x y : awaiters w !! a = Some x -> awaiters w !! b = Some y -> ra_session x = ra_session y -> a = b }.

Definition rpc_world_new : rpc_world M := RpcWorld rpc_new ∅ no_cancellation [].

Lemma rpc_ok_new : rpc_ok rpc_world_new (fun _ => []).
Proof.
  split; cbn.
  - apply no_cancellation_ok.
  - intros a. by rewrite !lookup_empty.
  - by intros a s ?%elem_of_nil.
  - intros a x s H. by rewrite lookup_empty in H.
  - intros s a H. by rewrite lookup_empty in H.
  - intros a x H. by rewrite lookup_empty in H.
  - constructor.
  - by intros a ?%elem_of_nil.
  - lia.
  - intros a x H. by rewrite lookup_empty in H.
  - intros a b x y H. by rewrite lookup_empty in H.
Qed.

(** What a program does: a coroutine makes one call at a time, with the token of
    a source; the clock has 32 bits and fewer than 2^25 calls are made in a
    second. *)
Definition legal w (op : rpc_op) : Prop :=
  match op with
  | OpSource s => states (cancel_ w) !! s = None
  | OpCall a t now pid =>
      awaiters w !! a = None /\ pid = P /\ 0 <= now < 2 ^ 32 /\ sequence_ (system w) + 1 < 2 ^ 25 /\
      (match t with Some s => is_Some (states (cancel_ w) !! s) | None => True end)
  | OpCancel s => is_Some (states (cancel_ w) !! s)
  | _ => True
  end.

(** ** Resuming *)

Lemma reset_call w l a :
  rpc_ok w l ->
  exists c, reset_registration (cancel_ w) a = Some c /\ cancellation_ok c (without l a) /\
    (forall s, state_ <$> states c !! s = state_ <$> states (cancel_ w) !! s) /\
    reg_state_ c = delete a (reg_state_ (cancel_ w)).
Proof.
  intros Hw. unfold reset_registration. destruct (reg_state_ (cancel_ w) !! a) as [o|] eqn:E.
  - apply drop_registration_ok; [apply Hw|by eexists|]. rewrite E. intros s [= ->].
    apply (co_member _ _ (ro_cancel w l Hw)) in E. destruct (ro_token w l Hw a s E) as (x & Hx & Ht).
    by apply (ro_source w l Hw a x).
  - exists (cancel_ w). split; [done|]. split; [|split; [done|by rewrite delete_id]].
    apply (cancellation_ok_ext _ l); [|apply Hw]. intros s. apply without_other.
    intros Hin%(co_member _ _ (ro_cancel w l Hw)). congruence.
Qed.

Lemma same_token_state c c' t :
  (forall s, state_ <$> states c' !! s = state_ <$> states c !! s) ->
  is_cancellation_requested c' t = is_cancellation_requested c t.
Proof.
  intros H. unfold is_cancellation_requested. replace (token_state c' t) with (token_state c t); [done|].
  unfold token_state. destruct t as [s|]; [|done]. cbn. specialize (H s).
  destruct (states c' !! s), (states c !! s); cbn in *; done.
Qed.

(** The result of a call that is resumed. *)
Definition result_of w (x : rpc_awaiter M) : call_result M :=
  if requested w (ra_token x) then CallCanceled
  else match ra_reply x with Some (Some m) => Reply m | Some None => ParseFail | None => Empty end.

Lemma rpc_resume_ok w l :
  rpc_ok w l ->
  match wake_ w with
  | [] => resume w = Some (w, [])
  | a :: rest =>
      exists x w', awaiters w !! a = Some x /\ resume w = Some (w', [(a, result_of w x)]) /\
        rpc_ok w' (without l a) /\ result_of w x <> Empty /\ awaiters w' = delete a (awaiters w) /\
        wake_ w' = rest /\ (forall t, requested w' t = requested w t) /\ system w' = system w
  end.
Proof.
  intros Hw. pose proof Hw as [R1 R2 R3 R4 R5 R6 R7 R8 R9 R10 R11]. unfold resume. destruct (wake_ w) as [|a rest] eqn:Ew; [done|].
  destruct (R8 a (list_elem_of_here _ _)) as (x & Hx & Hrep). unfold await_resume. cbn. rewrite Hx. cbn.
  destruct (reset_call w l a Hw) as (c & Ec & Hc & Hst & Hrg). rewrite Ec. cbn.
  assert (forall t, is_cancellation_requested c t = requested w t) as Hreq by (intros t; by apply same_token_state).
  eexists x, _. split; [done|]. split; [unfold result_of; by rewrite Hreq|]. apply list.NoDup_cons in R7 as [Ha R7].
  assert (forall b, b ∈ rest -> b <> a) as Hne by (intros b Hb ->; done).
  split; [split; cbn|split; [|split; [done|split; [done|split; [exact Hreq|done]]]]].
  - done.
  - intros b. rewrite Hrg, !lookup_delete_is_Some. intros [? ?]. split; [done|]. by apply R2.
  - intros b s [Hba Hb]%elem_of_without. destruct (R3 b s Hb) as (y & Hy & ?). exists y.
    by rewrite lookup_delete_ne.
  - intros b y s [_ Hy]%lookup_delete_Some Hs. rewrite <- (fmap_is_Some state_), Hst, fmap_is_Some. by apply (R4 b y).
  - intros s b Hb. destruct (R5 s b Hb) as (Hnb & y & Hy & ?). split; [by intros ?; apply Hnb, list_elem_of_further|].
    exists y. rewrite lookup_delete_ne; [done|]. intros <-. apply Hnb, list_elem_of_here.
  - intros b y [Hba Hy]%lookup_delete_Some. destruct (R6 b y Hy) as [?|[->|?]%elem_of_cons]; auto. done.
  - done.
  - intros b Hb. destruct (R8 b) as (y & Hy & Hry); [by apply list_elem_of_further|]. exists y.
    rewrite lookup_delete_ne by (by apply not_eq_sym, Hne). split; [done|]. intros E. unfold requested. cbn.
    rewrite Hreq. by apply Hry.
  - done.
  - intros b y [_ Hy]%lookup_delete_Some. by apply (R10 b y).
  - intros b b' y y' [_ Hy]%lookup_delete_Some [_ Hy']%lookup_delete_Some. by apply R11.
  - unfold result_of. destruct (requested w (ra_token x)) eqn:E; [done|]. destruct (ra_reply x) as [[m|]|] eqn:Er; [done..|].
    by specialize (Hrep eq_refl).
Qed.

(** ** Calling *)

Lemma new_session w l now :
  rpc_ok w l -> 0 <= P < 2 ^ 64 -> 0 <= now < 2 ^ 32 -> sequence_ (system w) + 1 < 2 ^ 25 ->
  let '(s, r) := create_session (system w) now P in
  (forall b y, awaiters w !! b = Some y -> ra_session y <> s) /\ wait_map_ r = wait_map_ (system w) /\
  s = session_of (time_ r) P (sequence_ r) /\
  after (time_ (system w)) (sequence_ (system w)) (time_ r) (sequence_ r) /\
  0 <= sequence_ r < 2 ^ 25 /\ 0 <= time_ r < 2 ^ 32.
Proof.
  intros Hw HP Hn Hq. destruct (ro_clock w l Hw) as [Hs Ht]. pose proof (create_session_value (system w) now P HP) as Hv.
  destruct (create_session_after (system w) now P Hn (proj1 Hs) Hq Ht) as (Ha & Ht' & Hq').
  assert (wait_map_ (create_session (system w) now P).2 = wait_map_ (system w)) as Hm.
  { unfold create_session. destruct (u64 now <? time_ (system w)); [done|]. by destruct (time_ (system w) <? u64 now). }
  destruct (create_session (system w) now P) as [s r]. cbn in *. split_and!; try done; try lia.
  intros b y Hy E. destruct (ro_past w l Hw b y Hy) as (t & q & E' & Htr & Hqr & Hle).
  rewrite E', Hv in E. apply session_of_inj in E as [-> ->]; [|lia..]. unfold after in Ha. lia.
Qed.

Lemma call_ok w l a t now :
  rpc_ok w l -> 0 <= P < 2 ^ 64 -> legal w (OpCall a t now P) ->
  exists s w' out l', call w a t now P = Some (s, w', out) /\ rpc_ok w' l' /\
    (if requested w t then out = [(a, CallCanceled)] /\ awaiters w' = awaiters w
     else out = [] /\ is_Some (awaiters w' !! a) /\ forall b, b <> a -> awaiters w' !! b = awaiters w !! b).
Proof.
  intros Hw HP (Ha & _ & Hn & Hq & Ht). pose proof Hw as [R1 R2 R3 R4 R5 R6 R7 R8 R9 R10 R11]. unfold call.
  pose proof (new_session w l now Hw HP Hn Hq) as Hs.
  destruct (create_session (system w) now P) as [s r]. destruct Hs as (Hnew & Hm & Hsv & Haft & Hqr & Htr). cbn.
  assert (wait_map_ (system w) !! s = None) as Hfree.
  { destruct (wait_map_ (system w) !! s) as [b|] eqn:E; [|done]. destruct (R5 s b E) as (_ & y & Hy & Hys & _).
    by destruct (Hnew b y Hy). }
  assert (reg_state_ (cancel_ w) !! a = None) as Hreg.
  { destruct (reg_state_ (cancel_ w) !! a) eqn:E; [|done]. destruct (R2 a) as [? ?]; [by rewrite E|congruence]. }
  assert (forall b y, awaiters w !! b = Some y -> exists t q, ra_session y = session_of t P q /\ 0 <= t < 2 ^ 32 /\
            0 <= q < 2 ^ 25 /\ (t < time_ r \/ (t = time_ r /\ q <= sequence_ r))) as Hpast.
  { intros b y Hb. destruct (R10 b y Hb) as (t' & q' & ? & ? & ? & ?). exists t', q'. split; [done|]. split; [done|]. split; [done|].
    unfold after in Haft. lia. }
  unfold requested. destruct (is_cancellation_requested (cancel_ w) t) eqn:Hreq.
  - unfold await_resume, reset_registration. cbn. rewrite lookup_insert_eq. cbn. rewrite Hreg. cbn. rewrite Hreq.
    eexists _, _, _, l. split; [done|]. rewrite delete_insert_id by done. split; [|done].
    split; cbn; rewrite ?Hm; try done.
  - assert (forall b, b ∈ wake_ w -> b <> a) as Hwa by (intros b Hb ->; destruct (R8 a Hb) as (? & ? & _); congruence).
    assert (forall b s', b ∈ l s' -> b <> a) as Hla by (intros b s' Hb ->; destruct (R3 a s' Hb) as (? & ? & _); congruence).
    assert (exists c, (if can_be_cancelled (cancel_ w) t then new_registration (cancel_ w) a t else Some (cancel_ w)) = Some c /\
      cancellation_ok c (registered_in (cancel_ w) l a t) /\
      (forall s, state_ <$> states c !! s = state_ <$> states (cancel_ w) !! s) /\
      (forall b, is_Some (reg_state_ c !! b) -> b = a \/ is_Some (reg_state_ (cancel_ w) !! b))) as (c & Ec & Hc & Hst & Hrg).
    { destruct (can_be_cancelled (cancel_ w) t) eqn:E; [by apply new_registration_ok|]. exists (cancel_ w).
      split; [done|]. split; [|split; [done|by right]]. unfold registered_in. rewrite E. by destruct t. }
    rewrite Ec. cbn. eexists s, _, [], (registered_in (cancel_ w) l a t). split; [done|].
    assert (insert_session r s a = RpcSystem (<[s := a]> (wait_map_ r)) (sequence_ r) (time_ r)) as ->
      by (unfold insert_session; by rewrite Hm, Hfree).
    split; [|split; [done|]; cbn; split; [rewrite lookup_insert_eq; by eexists|by intros b Hb; rewrite lookup_insert_ne]].
    split; cbn; rewrite ?Hm.
    + done.
    + intros b [->|Hb]%Hrg; apply lookup_insert_is_Some'; [by left|right; by apply R2].
    + intros b s' Hb. destruct (decide (b = a)) as [->|Hne].
      * rewrite lookup_insert_eq. eexists. split; [done|]. cbn. unfold registered_in in Hb.
        destruct t as [s0|]; [|by destruct (Hla a s' Hb)]. destruct (can_be_cancelled (cancel_ w) (Some s0)); [|by destruct (Hla a s' Hb)].
        destruct (decide (s' = s0)) as [->|Hs']; [done|]. rewrite with_list_ne in Hb by done. by destruct (Hla a s' Hb).
      * rewrite lookup_insert_ne by done. apply R3. unfold registered_in in Hb. destruct t as [s0|]; [|done].
        destruct (can_be_cancelled (cancel_ w) (Some s0)); [|done]. destruct (decide (s' = s0)) as [->|Hs'].
        { rewrite with_list_eq in Hb. by apply elem_of_cons in Hb as [?|?]. }
        by rewrite with_list_ne in Hb.
    + intros b x s'. rewrite <- (fmap_is_Some state_), Hst, fmap_is_Some. intros [[<- <-]|[_ Hb]]%lookup_insert_Some Hs'.
      * cbn in Hs'. subst t. exact Ht.
      * by apply (R4 b x).
    + intros s' b [[<- <-]|[Hne Hb]]%lookup_insert_Some.
      * split; [by intros ?%Hwa|]. eexists. by rewrite lookup_insert_eq.
      * destruct (R5 s' b Hb) as (? & x & Hx & ?). split; [done|]. exists x. rewrite lookup_insert_ne; [done|]. congruence.
    + intros b x [[<- <-]|[Hne Hb]]%lookup_insert_Some; [left; cbn; by rewrite lookup_insert_eq|].
      destruct (R6 b x Hb) as [Hb'|?]; [|by right]. left. rewrite lookup_insert_ne; [done|]. intros E. rewrite E in Hfree. congruence.
    + done.
    + intros b Hb. destruct (R8 b Hb) as (x & Hx & Hr). exists x.
      rewrite lookup_insert_ne by (by apply not_eq_sym, Hwa). split; [done|]. intros E. unfold requested. cbn.
      rewrite (same_token_state (cancel_ w) c _ Hst). by apply Hr.
    + lia.
    + intros b y [[<- <-]|[Hne Hb]]%lookup_insert_Some; [|by apply (Hpast b y)].
      exists (time_ r), (sequence_ r). split_and!; try done; try lia.
    + intros b b' y y' [[<- <-]|[Hne Hb]]%lookup_insert_Some [[<- <-]|[Hne' Hb']]%lookup_insert_Some; cbn; [done|..].
      * intros E. by destruct (Hnew b' y' Hb').
      * intros E. by destruct (Hnew b y Hb).
      * by apply R11.
Qed.

(** ** Waking up *)

(** Taking a waiting call out of the table, with what it has been given. *)
Definition taken w (s : Z) (a : nat) (x : rpc_awaiter M) (reply : option (option M)) : rpc_world M :=
  RpcWorld (erase_session (system w) s) (<[a := RpcAwaiter (ra_session x) (ra_token x) reply]> (awaiters w))
    (cancel_ w) (wake_ w ++ [a]).

Lemma taken_ok w l s a x reply :
  rpc_ok w l -> wait_map_ (system w) !! s = Some a -> awaiters w !! a = Some x ->
  (reply = None -> requested w (ra_token x) = true) -> rpc_ok (taken w s a x reply) l.
Proof.
  intros Hw Hs Hx Hr. pose proof Hw as [R1 R2 R3 R4 R5 R6 R7 R8 R9 R10 R11].
  destruct (R5 s a Hs) as (Hna & x' & Hx' & Hxs & _). assert (x' = x) as -> by congruence. split; cbn.
  - done.
  - intros b Hb. apply lookup_insert_is_Some'. right. by apply R2.
  - intros b s' Hb. destruct (R3 b s' Hb) as (y & Hy & Ht). destruct (decide (a = b)) as [<-|Hne].
    + rewrite lookup_insert_eq. eexists. split; [done|]. cbn. congruence.
    + exists y. by rewrite lookup_insert_ne.
  - intros b y s' [[<- <-]|[_ Hy]]%lookup_insert_Some; [by apply (R4 a x)|by apply (R4 b y)].
  - intros s' b [Hne Hb]%lookup_delete_Some. destruct (R5 s' b Hb) as (Hnb & y & Hy & Hys & ?).
    assert (b <> a) as Hba by (intros ->; congruence). split.
    + rewrite elem_of_app, list_elem_of_singleton. by intros [?|?].
    + exists y. by rewrite lookup_insert_ne by (by apply not_eq_sym).
  - intros b y [[<- <-]|[Hne Hy]]%lookup_insert_Some.
    + right. apply elem_of_app. right. apply list_elem_of_here.
    + destruct (R6 b y Hy) as [Hb|Hb]; [|right; apply elem_of_app; by left]. left. apply lookup_delete_Some.
      split; [|done]. intros E. rewrite <- E in Hb. congruence.
  - apply list.NoDup_app. split; [done|]. split; [|apply NoDup_singleton]. intros b Hb ->%list_elem_of_singleton. done.
  - intros b [Hb| ->%list_elem_of_singleton]%elem_of_app.
    + destruct (R8 b Hb) as (y & Hy & ?). exists y. rewrite lookup_insert_ne; [done|]. by intros <-.
    + rewrite lookup_insert_eq. eexists. split; [done|]. exact Hr.
  - done.
  - intros b y [[<- <-]|[_ Hy]]%lookup_insert_Some; [by apply (R10 a x)|by apply (R10 b y)].
  - intros b b' y y' [[<- <-]|[Hne Hb]]%lookup_insert_Some [[<- <-]|[Hne' Hb']]%lookup_insert_Some; cbn; [done|..].
    + by apply R11.
    + by apply R11.
    + by apply R11.
Qed.

(** Cancelling wakes a call that has no reply yet, and no other. *)
Lemma wake_up_taken w l s a x :
  rpc_ok w l -> wait_map_ (system w) !! s = Some a -> awaiters w !! a = Some x -> wake_up w s = taken w s a x None.
Proof.
  intros Hw Hs Hx. unfold wake_up, taken. rewrite Hs. destruct (ro_map w l Hw s a Hs) as (_ & x' & Hx' & _ & Hr).
  assert (x' = x) as -> by congruence. rewrite <- Hr. f_equal. symmetry. apply insert_id. rewrite Hx. by destruct x.
Qed.

Lemma rpc_receive_ok w l s data :
  rpc_ok w l ->
  match wait_map_ (system w) !! s with
  | None => receive parse w s data = Some (false, w)
  | Some a => exists x, awaiters w !! a = Some x /\ ra_session x = s /\
      receive parse w s data = Some (true, taken w s a x (Some (parse data))) /\
      rpc_ok (taken w s a x (Some (parse data))) l
  end.
Proof.
  intros Hw. unfold receive. destruct (wait_map_ (system w) !! s) as [a|] eqn:Hs; [|done].
  destruct (ro_map w l Hw s a Hs) as (_ & x & Hx & Hxs & _). exists x. split; [done|]. split; [done|].
  split; [by rewrite Hx|]. by apply (taken_ok w l s a x).
Qed.

Lemma rpc_run_callbacks_ok fired : forall w l,
  rpc_ok w l -> (forall a, a ∈ fired -> exists x, awaiters w !! a = Some x /\ requested w (ra_token x) = true) ->
  exists w', run_callbacks w fired = Some w' /\ rpc_ok w' l /\ awaiters w' = awaiters w /\ cancel_ w' = cancel_ w.
Proof.
  induction fired as [|a fired IH]; intros w l Hw Hf; cbn [run_callbacks]; [by exists w|].
  destruct (Hf a (list_elem_of_here _ _)) as (x & Hx & Hr). rewrite Hx. cbn.
  assert (rpc_ok (wake_up w (ra_session x)) l /\ awaiters (wake_up w (ra_session x)) = awaiters w /\
          cancel_ (wake_up w (ra_session x)) = cancel_ w) as (Hw1 & Ea & Ec).
  { destruct (wait_map_ (system w) !! ra_session x) as [b|] eqn:Hs; [|unfold wake_up; by rewrite Hs].
    assert (b = a) as ->.
    { destruct (ro_map w l Hw _ b Hs) as (_ & y & Hy & Hys & _). by apply (ro_distinct w l Hw b a y x). }
    rewrite (wake_up_taken w l _ a x) by done. split; [by apply (taken_ok w l)|]. split; [|done]. cbn.
    apply insert_id. rewrite Hx. destruct (ro_map w l Hw _ a Hs) as (_ & y & Hy & _ & Hry).
    assert (y = x) as -> by congruence. rewrite <- Hry. by destruct x. }
  destruct (IH _ l Hw1) as (w' & -> & Hw' & Ea' & Ec').
  { intros b Hb. rewrite Ea. destruct (Hf b) as (y & Hy & Hry); [by apply list_elem_of_further|]. exists y.
    unfold requested. by rewrite Ec. }
  exists w'. split; [done|]. split; [done|]. split; congruence.
Qed.

Lemma rpc_cancel_ok w l s :
  rpc_ok w l -> is_Some (states (cancel_ w) !! s) ->
  exists w', cancel w s = Some w' /\ rpc_ok w' (with_list l s []) /\ awaiters w' = awaiters w.
Proof.
  intros Hw Hs. pose proof Hw as [R1 R2 R3 R4 R5 R6 R7 R8 R9 R10 R11].
  destruct (request_cancellation_ok _ _ s R1 Hs) as (c & Ec & Hc & Hreq & Hst & Hrg).
  unfold cancel. rewrite Ec. cbn. set (w1 := RpcWorld (system w) (awaiters w) c (wake_ w)).
  assert (rpc_ok w1 (with_list l s [])) as Hw1.
  { split; cbn; try done.
    - intros b. rewrite Hrg. destruct (decide (b ∈ l s)) as [Hin|]; [|apply R2]. intros _.
      destruct (R3 b s Hin) as (x & Hx & _). by eexists.
    - intros b s' Hb. destruct (decide (s' = s)) as [->|Hne]; [rewrite with_list_eq in Hb; by apply elem_of_nil in Hb|].
      rewrite with_list_ne in Hb by done. by apply R3.
    - intros b x s' Hb Hx. apply Hst. by apply (R4 b x).
    - intros b Hb. destruct (R8 b Hb) as (x & Hx & Hr). exists x. split; [done|]. intros E. unfold requested. cbn.
      rewrite Hreq. specialize (Hr E). unfold requested in Hr. rewrite Hr. apply orb_true_r. }
  destruct (rpc_run_callbacks_ok (l s) w1 _ Hw1) as (w' & -> & Hw' & Ea & _); [|by exists w'].
  intros b Hb. destruct (R3 b s Hb) as (x & Hx & Ht). exists x. split; [done|]. unfold requested. cbn.
  by rewrite Hreq, Ht, bool_decide_true.
Qed.

(** ** Runs *)

Fixpoint legal_run w (ops : list rpc_op) : Prop :=
  match ops with
  | [] => True
  | op :: ops => legal w op /\ match rpc_step parse w op with Some (w, _) => legal_run w ops | None => True end
  end.

Definition results_of (a : nat) (out : list (nat * call_result M)) : nat := length (filter (fun r => r.1 = a) out).

Definition calls_of (a : nat) (ops : list rpc_op) : nat :=
  length (filter (fun op => match op with OpCall b _ _ _ => Some b | _ => None end = Some a) ops).

Definition live w (a : nat) : nat := match awaiters w !! a with Some _ => 1 | None => 0 end.

Lemma results_of_one a b r : results_of a [(b, r)] = if decide (b = a) then 1%nat else 0%nat.
Proof. unfold results_of. cbn. by destruct (decide (b = a)). Qed.

Lemma results_of_app a out out' : results_of a (out ++ out') = (results_of a out + results_of a out')%nat.
Proof. unfold results_of. by rewrite list.filter_app, length_app. Qed.

Lemma calls_of_cons a op ops : calls_of a (op :: ops) = (calls_of a [op] + calls_of a ops)%nat.
Proof. unfold calls_of. by rewrite <- length_app, <- list.filter_app. Qed.

Lemma live_same w w' : awaiters w' = awaiters w -> forall a, live w' a = live w a.
Proof. unfold live. by intros ->. Qed.

Lemma live_taken w s a x reply b : awaiters w !! a = Some x -> live (taken w s a x reply) b = live w b.
Proof.
  intros Hx. unfold live, taken. cbn. destruct (decide (a = b)) as [<-|Hne]; [by rewrite lookup_insert_eq, Hx|].
  by rewrite lookup_insert_ne.
Qed.

Lemma rpc_step_ok w l op :
  rpc_ok w l -> 0 <= P < 2 ^ 64 -> legal w op ->
  exists w' out l', rpc_step parse w op = Some (w', out) /\ rpc_ok w' l' /\
    (forall a, (results_of a out + live w' a = calls_of a [op] + live w a)%nat) /\ (forall a, (a, Empty) ∉ out).
Proof.
  intros Hw HP Hop. destruct op as [s|a t now pid|s data|s|]; cbn [rpc_step].
  - eexists _, [], l. split; [done|]. split; [|split; [done|intros a; apply not_elem_of_nil]].
    destruct Hw as [R1 R2 R3 R4 R5 R6 R7 R8 R9 R10 R11]. split; cbn; try done.
    + by apply new_source_ok.
    + intros b x s' Hb Hx. apply lookup_insert_is_Some'. right. by apply (R4 b x).
    + intros b Hb. destruct (R8 b Hb) as (x & Hx & Hr). exists x. split; [done|]. intros E. specialize (Hr E).
      unfold requested in *. apply requested_inv in Hr as (s' & c & -> & Hs' & Hc). apply requested_inv. exists s', c. cbn.
      rewrite lookup_insert_ne; [done|]. intros <-. cbn in Hop. congruence.
  - destruct (call_ok w l a t now Hw HP) as (s & w' & out & l' & E & Hw' & Hcase).
    { destruct Hop as (? & _ & ?). done. }
    assert (pid = P) as -> by (by destruct Hop as (_ & ? & _)). rewrite E. cbn. exists w', out, l'.
    split; [done|]. split; [done|]. destruct Hop as (Ha & _). unfold calls_of, live. destruct (requested w t).
    + destruct Hcase as [-> Ea]. split; [|intros b; rewrite list_elem_of_singleton; congruence]. intros b.
      rewrite results_of_one, Ea. cbn. destruct (decide (a = b)) as [<-|Hne].
      * by rewrite decide_True.
      * by rewrite decide_False by congruence.
    + destruct Hcase as (-> & [x Hx] & Hother). split; [|intros b; apply not_elem_of_nil]. intros b. cbn.
      destruct (decide (a = b)) as [<-|Hne].
      * by rewrite decide_True, Hx, Ha.
      * rewrite decide_False by congruence. by rewrite Hother by congruence.
  - pose proof (rpc_receive_ok w l s data Hw) as Hr. destruct (wait_map_ (system w) !! s) as [a|].
    + destruct Hr as (x & Hx & _ & -> & Hw'). cbn. eexists _, [], l. split; [done|]. split; [done|].
      split; [|intros b; apply not_elem_of_nil]. intros b. by rewrite (live_taken w _ a x).
    + rewrite Hr. cbn. eexists _, [], l. split; [done|]. split; [done|]. split; [done|intros b; apply not_elem_of_nil].
  - destruct (rpc_cancel_ok w l s Hw Hop) as (w' & -> & Hw' & Ea). cbn. eexists _, [], _. split; [done|]. split; [done|].
    split; [|intros b; apply not_elem_of_nil]. intros b. by rewrite (live_same w w' Ea).
  - pose proof (rpc_resume_ok w l Hw) as Hr. destruct (wake_ w) as [|a rest].
    + rewrite Hr. eexists _, [], l. split; [done|]. split; [done|]. split; [done|intros b; apply not_elem_of_nil].
    + destruct Hr as (x & w' & Hx & -> & Hw' & Hne & Ea & _). eexists _, _, _. split; [done|]. split; [done|].
      split; [|intros b; rewrite list_elem_of_singleton; congruence]. intros b. rewrite results_of_one.
      unfold live, calls_of. rewrite Ea. cbn. destruct (decide (a = b)) as [<-|Hab]; [by rewrite lookup_delete_eq, Hx|].
      by rewrite lookup_delete_ne.
Qed.

Lemma rpc_run_ok ops : forall w l,
  rpc_ok w l -> 0 <= P < 2 ^ 64 -> legal_run w ops ->
  exists w' out l', rpc_run parse w ops = Some (w', out) /\ rpc_ok w' l' /\
    (forall a, (results_of a out + live w' a = calls_of a ops + live w a)%nat) /\ (forall a, (a, Empty) ∉ out).
Proof.
  induction ops as [|op ops IH]; intros w l Hw HP Hl; cbn [rpc_run legal_run] in *.
  - eexists w, [], l. split; [done|]. split; [done|]. split; [done|intros a; apply not_elem_of_nil].
  - destruct Hl as [Hop Hl]. destruct (rpc_step_ok w l op Hw HP Hop) as (w1 & out1 & l1 & E & Hw1 & Hc1 & He1).
    rewrite E in *.
    destruct (IH w1 l1 Hw1 HP Hl) as (w' & out & l' & E' & Hw' & Hc & He). cbn [mbind option_bind]. rewrite E'.
    cbn [mbind option_bind].
    exists w', (out1 ++ out), l'. split; [done|]. split; [done|]. split.
    + intros a. specialize (Hc1 a). specialize (Hc a). rewrite results_of_app, calls_of_cons. lia.
    + intros a. rewrite elem_of_app. intros [?|?]; [by apply (He1 a)|by apply (He a)].
Qed.

(** Resuming all the calls that are queued. *)
Lemma drain_ok w l :
  rpc_ok w l ->
  exists w', rpc_run parse w (replicate (length (wake_ w)) OpResume) =
    Some (w', omap (fun a => x ← awaiters w !! a; Some (a, result_of w x)) (wake_ w)) /\ wake_ w' = [].
Proof.
  remember (wake_ w) as q eqn:Eq. revert w l Eq. induction q as [|a q IH]; intros w l Eq Hw; [by exists w|].
  pose proof (rpc_resume_ok w l Hw) as Hr. rewrite <- Eq in Hr. destruct Hr as (x & w1 & Hx & E & Hw1 & _ & Ea & Ewk & Hreq & _).
  cbn [length replicate rpc_run rpc_step]. rewrite E. cbn. rewrite Hx. cbn.
  destruct (IH w1 _ (eq_sym Ewk) Hw1) as (w' & E' & Hw'). rewrite E'. cbn. exists w'. split; [|done].
  do 3 f_equal. pose proof (ro_wake w l Hw) as Hn. rewrite <- Eq in Hn. apply list.NoDup_cons in Hn as [Ha _].
  clear -Ea Ha Hreq. induction q as [|b q IHq]; [done|]. apply not_elem_of_cons in Ha as [Hab Ha]. cbn.
  rewrite Ea, lookup_delete_ne by done. rewrite <- Ea, IHq by done.
  destruct (awaiters w !! b); cbn; [|done]. unfold result_of. by rewrite Hreq.
Qed.
End calls_ok.

(** * Theorems *)

(** As long as fewer than 2^25 sessions are made, the session numbers of a
    process are all different, even when the clock stands still or is set
    back. *)
Theorem sessions_distinct (nows : list Z) (pid : Z) :
  0 <= pid < 2 ^ 64 -> Forall (fun now => 0 <= now < 2 ^ 32) nows -> zlen nows < 2 ^ 25 ->
  NoDup (sessions rpc_new pid nows).
Proof.
  intros Hp Hn Hl. assert (0 <= sequence_ rpc_new /\ sequence_ rpc_new + zlen nows < 2 ^ 25 /\ 0 <= time_ rpc_new < 2 ^ 32)
    as (Hq & Hql & Ht) by (cbn; lia).
  clear Hl. generalize dependent rpc_new. revert Hn. induction nows as [|now nows IH]; intros Hn r Hq Hql Ht; cbn [sessions].
  - constructor.
  - apply list.Forall_cons in Hn as [Hnow Hn]. rewrite zlen_cons in Hql. pose proof (zlen_nonneg nows).
    pose proof (create_session_value r now pid Hp) as Hv.
    destruct (create_session_after r now pid Hnow Hq) as (Ha & Ht' & Hq'); [lia|done|].
    destruct (create_session r now pid) as [s r']. cbn in *. constructor; [|apply IH; [done|lia..]].
    intros Hs. destruct (sessions_after nows r' pid s Hp Hn) as (t & q & E & Hat & ? & ?); [lia|lia|lia|done|].
    rewrite Hv in E. apply session_of_inj in E as [E1 E2]; [|lia..]. unfold after in Hat. lia.
Qed.

(** C37: whatever calls are made, cancelled and answered, in whatever order,
    nothing touches an awaiter that is gone; every call has ended exactly once
    or still waits, and no call returns a message that was never received. *)
Theorem rpc_calls_end_once {M : Type} (parse : bytes -> option M) (pid : Z) (ops : list rpc_op) :
  0 <= pid < 2 ^ 64 -> legal_run parse pid rpc_world_new ops ->
  exists w out l, rpc_run parse rpc_world_new ops = Some (w, out) /\ rpc_ok pid w l /\
    (forall a, (results_of a out + live w a = calls_of a ops)%nat) /\ (forall a, (a, Empty) ∉ out).
Proof.
  intros HP Hl. destruct (rpc_run_ok parse pid ops _ _ (rpc_ok_new pid) HP Hl) as (w & out & l & E & Hw & Hc & He).
  exists w, out, l. split; [done|]. split; [done|]. split; [|done]. intros a. rewrite (Hc a). unfold live. cbn. rewrite lookup_empty. lia.
Qed.

(** A reply with the session of a waiting call that is not cancelled reaches
    that call: once the queued coroutines have run, the calls queued before
    have ended in their order, and then this one, with the message the reply
    parses to, or the exception when it does not parse. *)
Theorem reply_reaches_call {M : Type} (parse : bytes -> option M) (pid : Z) (w : rpc_world M) l
    (session : Z) (a : nat) (x : rpc_awaiter M) (data : bytes) :
  rpc_ok pid w l -> wait_map_ (system w) !! session = Some a -> awaiters w !! a = Some x ->
  is_cancellation_requested (cancel_ w) (ra_token x) = false ->
  exists w1 w2, receive parse w session data = Some (true, w1) /\
    rpc_run parse w1 (replicate (S (length (wake_ w))) OpResume) =
      Some (w2, omap (fun b => y ← awaiters w !! b; Some (b, result_of w y)) (wake_ w) ++
                [(a, match parse data with Some m => Reply m | None => ParseFail end)]) /\ wake_ w2 = [].
Proof.
  intros Hw Hs Hx Hr. pose proof (rpc_receive_ok parse pid w l session data Hw) as H. rewrite Hs in H.
  destruct H as (x' & Hx' & Hxs & E & Hw1). assert (x' = x) as -> by congruence.
  destruct (ro_map pid w l Hw session a Hs) as (Hna & _).
  destruct (drain_ok parse pid _ l Hw1) as (w2 & E2 & Hwk). eexists _, w2. split; [exact E|]. split; [|done].
  replace (S (length (wake_ w))) with (length (wake_ (taken w session a x (Some (parse data))))).
  2: { cbn. rewrite length_app. cbn. lia. }
  rewrite E2. do 2 f_equal. cbn [taken wake_ awaiters]. rewrite omap_app. f_equal.
  - clear -Hna. induction (wake_ w) as [|b q IH]; [done|]. apply not_elem_of_cons in Hna as [Hab Hna]. cbn.
    rewrite lookup_insert_ne by done. rewrite IH by done. by destruct (awaiters w !! b).
  - cbn. rewrite lookup_insert_eq. cbn. unfold result_of, requested. cbn. rewrite Hr. by destruct (parse data).
Qed.

(** ** Two calls *)

Lemma sessions_distinct_witness : NoDup (sessions rpc_new 77 [1700000000; 1700000000; 1699999999; 1700000001]).
Proof.
  apply (sessions_distinct [1700000000; 1700000000; 1699999999; 1700000001] 77); [lia| |vm_compute; done].
  repeat (constructor; [lia|]). constructor.
Defined.

Definition demo_calls : list rpc_op :=
  [OpSource 0; OpCall 1 (Some 0%nat) 1700000000 77; OpCall 2 None 1700000000 77].

Definition demo_parse (b : bytes) : option Z := head b.

Definition demo_world : rpc_world Z := from_option fst rpc_world_new (rpc_run demo_parse rpc_world_new demo_calls).

Lemma rpc_demo_legal : legal_run demo_parse 77 rpc_world_new demo_calls.
Proof.
  cbn [legal_run demo_calls]. split; [done|]. split; [split; [done|]; split; [done|]; split; [lia|]; split; [vm_compute; done|vm_compute; by eexists]|].
  split; [|vm_compute; done]. split; [vm_compute; done|]. split; [done|]. split; [lia|]. split; [vm_compute; done|done].
Qed.

Lemma demo_world_ok : exists l, rpc_ok 77 demo_world l.
Proof.
  destruct (rpc_run_ok demo_parse 77 demo_calls _ _ (rpc_ok_new 77)) as (w & out & l & E & Hw & _); [lia|apply rpc_demo_legal|].
  exists l. unfold demo_world. by rewrite E.
Qed.

Lemma rpc_calls_end_once_witness :
  exists w out l, rpc_run demo_parse rpc_world_new demo_calls = Some (w, out) /\ rpc_ok 77 w l /\
    (forall a, (results_of a out + live w a = calls_of a demo_calls)%nat) /\ (forall a, (a, Empty) ∉ out).
Proof. apply (rpc_calls_end_once demo_parse 77 demo_calls); [lia|apply rpc_demo_legal]. Defined.

Lemma reply_reaches_call_witness :
  exists w1 w2, receive demo_parse demo_world (session_of 1700000000 77 2) [42] = Some (true, w1) /\
    rpc_run demo_parse w1 [OpResume] = Some (w2, [(2%nat, Reply 42)]) /\ wake_ w2 = [].
Proof.
  destruct demo_world_ok as [l Hl].
  refine (reply_reaches_call demo_parse 77 demo_world l (session_of 1700000000 77 2) 2
            (RpcAwaiter (session_of 1700000000 77 2) None None) [42] Hl _ _ _); vm_compute; reflexivity.
Defined.
