(* ===== verification/Gate.v ===== *)
(** The gate of one machine (src/gobang/gate/): it routes messages between the
    services of its machine and the gates of the others (gate.cpp,
    service_info.cpp, remote_gate.cpp), keeps the connections of its services
    and their subscriptions (local_listener.cpp), and follows the gate master
    (master_connector.cpp).

    A [service_info*] points to an element of a list that only grows and a
    [socket_ptr] to a shared object, so both are numbers here. Handing a message
    to [service_info::write] is the effect [Write]; what a local service does
    with it is in Sender.v, what a remote one does is modelled here. The
    coroutines of a connection are cut at their suspensions: each event runs
    one of them up to its next suspension. *)

From stdpp Require Import gmap.
From S2P Require Import Prelude ProtoUtils GateMaster.

(** * Data *)

(** [local_service] (its connection) and [remote_service] (its gate). *)
Inductive service_kind := Local (socket : Z) | Remote (remote : Z).

Record service := Service { v_id : Z; v_tp : Z; v_gate : Z; v_online : bool; v_kind : service_kind }.

(** [local_listener::socket_data]. *)
Record conn := Conn { c_socket : Z; c_last_recv : Z; c_service : option nat; c_subscribe : list Z }.

Record remote_gate := RemoteGate { rg_addresses : list bytes; rg_socket : Z; rg_queue : list bytes }.

(** [s_service_register_req]. *)
Record register_req := RegisterReq { rq_info : service_info; rq_channel_size : Z }.

(** A registration that waits for the gate master: its connection, the session
    of the request, the request. *)
Definition registration := (nat * Z * register_req)%type.

Record gate := Gate {
  own_id : Z;
  send_queues_ : gmap Z (list bytes);
  services_ : gmap Z nat;
  service_types_ : gmap Z (list nat);
  objects : list service;
  conns : gmap nat conn;
  subscribe_infos_ : gmap Z (list nat);
  pending : list registration;
  remote_gates_ : gmap Z remote_gate;
  master_socket : Z }.

Definition gate_new (id : Z) : gate := Gate id ∅ ∅ ∅ [] ∅ ∅ [] ∅ 0.

Definition ec_success : Z := 0.
Definition ec_system : Z := 2.
Definition ec_timeout : Z := 3.

Inductive effect :=
  | Write (o : nat) (m : bytes)
  | NetWrite (remote socket : Z) (frame : bytes)
  | RegisterAck (socket session ec : Z)
  | SubscribeAck (socket session ec : Z) (services : list service_info)
  | SubscribeBrd (socket : Z) (s : service_info)
  | PingAck (socket session : Z)
  | Upload (s : service_info)
  | RegisterMaster (services : list service_info)
  | CloseSocket (socket : Z)
  | StartRemote (id : Z).

Abbreviation outcome := (gate * list effect)%type.

(** ** Updates of one field *)

Definition set_queues q g := Gate (own_id g) q (services_ g) (service_types_ g) (objects g) (conns g)
  (subscribe_infos_ g) (pending g) (remote_gates_ g) (master_socket g).
Definition set_objects o g := Gate (own_id g) (send_queues_ g) (services_ g) (service_types_ g) o (conns g)
  (subscribe_infos_ g) (pending g) (remote_gates_ g) (master_socket g).
Definition set_conns c g := Gate (own_id g) (send_queues_ g) (services_ g) (service_types_ g) (objects g) c
  (subscribe_infos_ g) (pending g) (remote_gates_ g) (master_socket g).
Definition set_subscribes s g := Gate (own_id g) (send_queues_ g) (services_ g) (service_types_ g) (objects g) (conns g)
  s (pending g) (remote_gates_ g) (master_socket g).
Definition set_pending p g := Gate (own_id g) (send_queues_ g) (services_ g) (service_types_ g) (objects g) (conns g)
  (subscribe_infos_ g) p (remote_gates_ g) (master_socket g).
Definition set_remotes r g := Gate (own_id g) (send_queues_ g) (services_ g) (service_types_ g) (objects g) (conns g)
  (subscribe_infos_ g) (pending g) r (master_socket g).
Definition set_master k g := Gate (own_id g) (send_queues_ g) (services_ g) (service_types_ g) (objects g) (conns g)
  (subscribe_infos_ g) (pending g) (remote_gates_ g) k.

Definition set_online (b : bool) (v : service) : service := Service (v_id v) (v_tp v) (v_gate v) b (v_kind v).
Definition set_link (k : Z) (b : bool) (v : service) : service := Service (v_id v) (v_tp v) (v_gate v) b (Local k).

(** * Operations *)

(** ** Routing (gate.cpp, remote_gate.cpp) *)

Definition id_s_gate_forward_brd : Z := 0x6005.

(** The frame of [remote_service::write]. *)
Definition gate_frame (m : bytes) : bytes :=
  net_header_bytes (NetHeader flag_valid (u32 (zlen m) mod 2 ^ 24) id_s_gate_forward_brd 0 0) ++ m.

(** [remote_gate::send]. *)
Definition remote_send (g : gate) (remote : Z) (frame : bytes) : outcome :=
  match remote_gates_ g !! remote with
  | None => (g, [])
  | Some r =>
      if 0 <? rg_socket r then (g, [NetWrite remote (rg_socket r) frame])
      else (set_remotes (<[remote := RemoteGate (rg_addresses r) (rg_socket r) (rg_queue r ++ [frame])]> (remote_gates_ g)) g, [])
  end.

(** [service_info::write]. *)
Definition write (g : gate) (o : nat) (m : bytes) : outcome :=
  match objects g !! o with
  | None => (g, [])
  | Some v =>
      match v_kind v with
      | Local _ => (g, [Write o m])
      | Remote remote => let '(g, es) := remote_send g remote (gate_frame m) in (g, Write o m :: es)
      end
  end.

Fixpoint write_all (g : gate) (o : nat) (ms : list bytes) : outcome :=
  match ms with
  | [] => (g, [])
  | m :: ms =>
      let '(g, es) := write g o m in
      let '(g, es') := write_all g o ms in
      (g, es ++ es')
  end.

Definition find_service (g : gate) (id : Z) : option nat := services_ g !! id.

Definition emplace_service (g : gate) (o : nat) : outcome :=
  match objects g !! o with
  | None => (g, [])
  | Some v =>
      let services := match services_ g !! v_id v with Some _ => services_ g | None => <[v_id v := o]> (services_ g) end in
      let types := <[v_tp v := from_option id [] (service_types_ g !! v_tp v) ++ [o]]> (service_types_ g) in
      let g := Gate (own_id g) (send_queues_ g) services types (objects g) (conns g)
                 (subscribe_infos_ g) (pending g) (remote_gates_ g) (master_socket g) in
      match send_queues_ g !! v_id v with
      | None => (g, [])
      | Some q =>
          let '(g, es) := write_all g o q in
          (set_queues (delete (v_id v) (send_queues_ g)) g, es)
      end
  end.

Definition forward_part_size : Z := 16.

Definition dest_of (strv : bytes) : Z := f_to (forward_of (ztake forward_part_size strv)).

Definition forward (g : gate) (strv : bytes) : outcome :=
  if zlen strv <? forward_part_size then (g, [])
  else
    let dest := dest_of strv in
    match find_service g dest with
    | None =>
        (set_queues (<[dest := from_option id [] (send_queues_ g !! dest) ++ [strv]]> (send_queues_ g)) g, [])
    | Some o => write g o strv
    end.

(** ** State of the services (service_info.cpp) *)

Definition to_proto (v : service) : service_info := ServiceInfo (v_id v) (v_tp v) (v_online v).

(** [master_connector::update_service] with the start of [upload]. *)
Definition update_master (g : gate) (v : service) : list effect :=
  if negb (v_gate v =? own_id g) then []
  else if master_socket g =? 0 then []
  else [Upload (to_proto v)].

(** [local_listener::update_service]; a [socket_ptr] whose connection ended has
    the socket zero. *)
Definition update_subscribers (g : gate) (v : service) : list effect :=
  match subscribe_infos_ g !! v_tp v with
  | None => []
  | Some l => omap (fun p => c ← conns g !! p; Some (SubscribeBrd (c_socket c) (to_proto v))) l
  end.

(** [service_info::update]: the two handlers of the event, which write to
    different sockets (an [unordered_multimap] does not fix their order). *)
Definition update (g : gate) (o : nat) : list effect :=
  match objects g !! o with
  | None => []
  | Some v => update_master g v ++ update_subscribers g v
  end.

(** ** Remote gates (remote_gate.cpp, master_connector.cpp) *)

(** [remote_gate::add_remote_service]. *)
Definition add_remote_service (g : gate) (remote : Z) (info : service_info) : outcome :=
  let id := u16 (s_id info) in
  let '(g, o, es) :=
    match find_service g id with
    | Some o => (g, o, [])
    | None =>
        let o := length (objects g) in
        let g := set_objects (objects g ++ [Service id (u16 (s_tp info)) remote false (Remote remote)]) g in
        let '(g, es) := emplace_service g o in (g, o, es)
    end in
  let g := set_objects (alter (set_online (s_online info)) o (objects g)) g in
  (g, es ++ update g o).

Fixpoint add_remote_services (g : gate) (remote : Z) (infos : list service_info) : outcome :=
  match infos with
  | [] => (g, [])
  | info :: infos =>
      let '(g, es) := add_remote_service g remote info in
      let '(g, es') := add_remote_services g remote infos in
      (g, es ++ es')
  end.

Definition address_of (a : bytes * bytes) : bytes := a.1 ++ [44] ++ a.2.

(** [master_connector::add_remote_gate]. *)
Definition add_remote_gate (g : gate) (info : gate_info) : outcome :=
  let id := u16 (gi_id info) in
  let addresses := address_of <$> gi_addresses info in
  let '(r, es) :=
    match remote_gates_ g !! id with
    | Some r => (RemoteGate addresses (rg_socket r) (rg_queue r), [])
    | None => (RemoteGate addresses 0 [], [StartRemote id])
    end in
  let '(g, es') := add_remote_services (set_remotes (<[id := r]> (remote_gates_ g)) g) id (gi_services info) in
  (g, es ++ es').

Fixpoint add_remote_gates (g : gate) (infos : list gate_info) : outcome :=
  match infos with
  | [] => (g, [])
  | info :: infos =>
      let '(g, es) := add_remote_gate g info in
      let '(g, es') := add_remote_gates g infos in
      (g, es ++ es')
  end.

(** [remote_gate::run] has connected ([auto_send] follows at once), or has lost
    the connection. *)
Definition remote_connected (g : gate) (remote socket : Z) : outcome :=
  match remote_gates_ g !! remote with
  | None => (g, [])
  | Some r =>
      (set_remotes (<[remote := RemoteGate (rg_addresses r) socket []]> (remote_gates_ g)) g,
       NetWrite remote socket <$> rg_queue r)
  end.

Definition remote_lost (g : gate) (remote : Z) : gate :=
  set_remotes (alter (fun r => RemoteGate (rg_addresses r) 0 (rg_queue r)) remote (remote_gates_ g)) g.

(** ** The connections of the local services (local_listener.cpp) *)

Definition is_local (v : service) : bool := match v_kind v with Local _ => true | Remote _ => false end.

Definition local_socket (v : service) : Z := match v_kind v with Local k => k | Remote _ => 0 end.

(** [local_services], in the order of their creation. *)
Definition local_services (g : gate) : list service_info :=
  omap (fun v => if is_local v then Some (to_proto v) else None) (objects g).

(** The removal of [socket_start]: the last element takes the place of the
    first one that is [p]. *)
Definition remove_swap (p : nat) (l : list nat) : list nat :=
  match list_find (fun x => x = p) l with
  | None => l
  | Some (i, _) => removelast (if (i =? length l - 1)%nat then l else <[i := List.last l 0%nat]> l)
  end.

Definition unsubscribe (p : nat) (t : gmap Z (list nat)) (tp : Z) : gmap Z (list nat) :=
  match t !! tp with None => t | Some l => <[tp := remove_swap p l]> t end.

(** The end of [socket_start]. *)
Definition socket_end (g : gate) (p : nat) : outcome :=
  match conns g !! p with
  | None => (g, [])
  | Some c =>
      let '(g, es) :=
        match c_service c with
        | None => (g, [])
        | Some o =>
            match objects g !! o with
            | Some v =>
                if local_socket v =? c_socket c then
                  let g := set_objects (<[o := set_link 0 false v]> (objects g)) g in (g, update g o)
                else (g, [])
            | None => (g, [])
            end
        end in
      let g := set_subscribes (fold_left (unsubscribe p) (c_subscribe c) (subscribe_infos_ g)) g in
      (set_conns (<[p := Conn 0 (c_last_recv c) None (c_subscribe c)]> (conns g)) g, es)
  end.

(** [network::close] of a connection whose reader runs or waits. *)
Definition close (g : gate) (p : nat) : outcome :=
  match conns g !! p with
  | None => (g, [])
  | Some c => let '(g, es) := socket_end g p in (g, CloseSocket (c_socket c) :: es)
  end.

Definition service_subscribe (g : gate) (p : nat) (session : Z) (tp : Z) : outcome :=
  match conns g !! p with
  | None => (g, [])
  | Some c =>
      let registered :=
        match c_service c with
        | None => false
        | Some o => match objects g !! o with Some v => local_socket v =? c_socket c | None => false end
        end in
      if negb registered then (g, [SubscribeAck (c_socket c) session ec_system []])
      else
        let tp := u16 tp in
        let l := from_option id [] (subscribe_infos_ g !! tp) in
        let l := if bool_decide (p ∈ l) then l else l ++ [p] in
        let subscribe := if bool_decide (tp ∈ c_subscribe c) then c_subscribe c else c_subscribe c ++ [tp] in
        let g := set_subscribes (<[tp := l]> (subscribe_infos_ g)) g in
        let g := set_conns (<[p := Conn (c_socket c) (c_last_recv c) (c_service c) subscribe]> (conns g)) g in
        let services := omap (fun o => to_proto <$> objects g !! o) (from_option id [] (service_types_ g !! tp)) in
        (g, [SubscribeAck (c_socket c) session ec_success services])
  end.

(** [add_local_service] after the master's consent. *)
Definition add_local_service (g : gate) (rq : register_req) : outcome :=
  let info := rq_info rq in
  emplace_service
    (set_objects (objects g ++ [Service (u16 (s_id info)) (u16 (s_tp info)) (own_id g) false (Local 0)]) g)
    (length (objects g)).

(** The end of [service_register], once the service is known. *)
Definition register_finish (g : gate) (p : nat) (session : Z) (o : nat) : outcome :=
  match conns g !! p with
  | None => (g, [])
  | Some c =>
      let g := set_conns (<[p := Conn (c_socket c) (c_last_recv c) (Some o) (c_subscribe c)]> (conns g)) g in
      let g := set_objects (alter (set_link (c_socket c) true) o (objects g)) g in
      (g, update g o ++ [RegisterAck (c_socket c) session ec_success])
  end.

(** The coroutine of [service_register] up to the upload to the master. *)
Definition service_register (g : gate) (p : nat) (session : Z) (rq : register_req) : outcome :=
  match conns g !! p with
  | None => (g, [])
  | Some c =>
      let ack ec := [RegisterAck (c_socket c) session ec] in
      let id := u16 (s_id (rq_info rq)) in
      if c_socket c =? 0 then (g, [])
      else if id =? 0 then (g, ack ec_system)
      else
        match c_service c with
        | Some o =>
            match objects g !! o with
            | Some v => (g, ack (if v_id v =? id then ec_success else ec_system))
            | None => (g, [])
            end
        | None =>
            match find_service g id with
            | None =>
                if master_socket g =? 0 then (g, ack ec_system)
                else
                  (set_pending (pending g ++ [(p, session, rq)]) g,
                   [Upload (ServiceInfo (s_id (rq_info rq)) (s_tp (rq_info rq)) false)])
            | Some o =>
                match objects g !! o with
                | Some v => if is_local v then register_finish g p session o else (g, ack ec_system)
                | None => (g, [])
                end
            end
        end
  end.

(** The [k]-th waiting registration goes on with the master's answer, or with
    none after five seconds. *)
Definition register_resumed (g : gate) (k : nat) (answer : option Z) : outcome :=
  match pending g !! k with
  | None => (g, [])
  | Some (p, session, rq) =>
      let g := set_pending (delete k (pending g)) g in
      let ack ec := match conns g !! p with Some c => [RegisterAck (c_socket c) session ec] | None => [] end in
      match answer with
      | None => (g, ack ec_timeout)
      | Some ec =>
          if negb (ec =? ec_success) then (g, ack ec)
          else
            let o := length (objects g) in
            let '(g, es) := add_local_service g rq in
            let '(g, es') := register_finish g p session o in
            (g, es ++ es')
      end
  end.

(** ** Events *)

(** A message of a local service, parsed; [None] is one that does not parse. *)
Inductive request :=
  | ReqRegister (rq : option register_req)
  | ReqSubscribe (tp : option Z)
  | ReqPing (ok : bool)
  | ReqOther.

(** [local_listener::forward_message]. *)
Definition forward_message (g : gate) (p : nat) (session : Z) (m : request) : outcome :=
  match m with
  | ReqRegister (Some rq) => service_register g p session rq
  | ReqSubscribe (Some tp) => service_subscribe g p session tp
  | ReqRegister None | ReqSubscribe None => close g p
  | ReqPing true => (g, match conns g !! p with Some c => [PingAck (c_socket c) session] | None => [] end)
  | ReqPing false | ReqOther => (g, [])
  end.

Definition auto_close_session : Z := 180.

Inductive event :=
  | EvAccept (p : nat) (socket now : Z)
  | EvMessage (p : nat) (now session : Z) (m : request)
  | EvClosed (p : nat)
  | EvCheck (p : nat) (now : Z)
  | EvAnswer (k : nat) (answer : option Z)
  | EvForward (strv : bytes)
  | EvMaster (socket : Z)
  | EvMasterLost
  | EvGates (infos : list gate_info)
  | EvRemote (remote socket : Z)
  | EvRemoteLost (remote : Z).

Definition step (g : gate) (e : event) : outcome :=
  match e with
  | EvAccept p socket now =>
      (match conns g !! p with Some _ => g | None => set_conns (<[p := Conn socket now None []]> (conns g)) g end, [])
  | EvMessage p now session m =>
      match conns g !! p with
      | None => (g, [])
      | Some c =>
          if c_socket c =? 0 then (g, [])
          else
            forward_message
              (set_conns (<[p := Conn (c_socket c) now (c_service c) (c_subscribe c)]> (conns g)) g) p session m
      end
  | EvClosed p => socket_end g p
  | EvCheck p now =>
      match conns g !! p with
      | None => (g, [])
      | Some c => if (0 <? c_socket c) && (auto_close_session <? now - c_last_recv c) then close g p else (g, [])
      end
  | EvAnswer k answer => register_resumed g k answer
  | EvForward strv => forward g strv
  | EvMaster socket => let g := set_master socket g in (g, [RegisterMaster (local_services g)])
  | EvMasterLost => (set_master 0 g, [])
  | EvGates infos => add_remote_gates g infos
  | EvRemote remote socket => remote_connected g remote socket
  | EvRemoteLost remote => (remote_lost g remote, [])
  end.

Fixpoint run (g : gate) (es : list event) : outcome :=
  match es with
  | [] => (g, [])
  | e :: es =>
      let '(g, out) := step g e in
      let '(g, out') := run g es in
      (g, out ++ out')
  end.

(** * Invariants *)

Definition fixed (v : service) : Z * Z * Z * option Z :=
  (v_id v, v_tp v, v_gate v, match v_kind v with Local _ => None | Remote r => Some r end).

Definition queue (g : gate) (id : Z) : list bytes := from_option (fun q => q) [] (send_queues_ g !! id).
Definition of_type (g : gate) (tp : Z) : list nat := from_option (fun l => l) [] (service_types_ g !! tp).
Definition subscribers (g : gate) (tp : Z) : list nat := from_option (fun l => l) [] (subscribe_infos_ g !! tp).

Definition gate_entry_ok (g : gate) (v : service) : Prop :=
  is_u16 (v_id v) /\ is_u16 (v_tp v) /\
  match v_kind v with Local _ => v_gate v = own_id g | Remote r => v_gate v = r /\ is_Some (remote_gates_ g !! r) end.

(** The tables of services: an id names an object with that id, every object
    is listed once under its type, only messages for unknown ids are kept back,
    and a connected remote gate has none to send. *)
Record routing_ok (g : gate) : Prop := {
  go_service id o : services_ g !! id = Some o -> exists v, objects g !! o = Some v /\ v_id v = id;
  go_types tp o : o ∈ of_type g tp <-> exists v, objects g !! o = Some v /\ v_tp v = tp;
  go_types_nodup tp : NoDup (of_type g tp);
  go_queue id q : send_queues_ g !! id = Some q -> services_ g !! id = None /\ q <> [] /\ Forall (fun m => dest_of m = id) q;
  go_remote id r : remote_gates_ g !! id = Some r -> 0 <= rg_socket r /\ (0 < rg_socket r -> rg_queue r = []);
  go_object o v : objects g !! o = Some v -> gate_entry_ok g v }.

(** The subscriptions of the connections that are open, known on both sides. *)
Record listener_ok (g : gate) : Prop := {
  go_conn p c : conns g !! p = Some c -> NoDup (c_subscribe c) /\
    forall o, c_service c = Some o -> exists v, objects g !! o = Some v /\ is_local v = true;
  go_sub tp p : p ∈ subscribers g tp <-> exists c, conns g !! p = Some c /\ c_socket c <> 0 /\ tp ∈ c_subscribe c;
  go_sub_nodup tp : NoDup (subscribers g tp) }.

(** Objects keep what is fixed about them. *)
Definition evolves (l l' : list service) : Prop :=
  forall o v, l !! o = Some v -> exists v', l' !! o = Some v' /\ fixed v' = fixed v.

Definition silent (e : effect) : Prop := match e with Write _ _ | NetWrite _ _ _ => False | _ => True end.

(** A step that leaves the routing alone. *)
Record quiet (g g' : gate) (es : list effect) : Prop := {
  qu_own : own_id g' = own_id g;
  qu_services : services_ g' = services_ g;
  qu_queues : send_queues_ g' = send_queues_ g;
  qu_types : service_types_ g' = service_types_ g;
  qu_remotes : remote_gates_ g' = remote_gates_ g;
  qu_length : length (objects g') = length (objects g);
  qu_objects : evolves (objects g) (objects g');
  qu_silent : Forall silent es }.

Lemma evolves_refl l : evolves l l.
Proof. intros o v Hv. by exists v. Qed.

Lemma evolves_trans l1 l2 l3 : evolves l1 l2 -> evolves l2 l3 -> evolves l1 l3.
Proof.
  intros H1 H2 o v Hv. destruct (H1 o v Hv) as (v' & Hv' & E). destruct (H2 o v' Hv') as (v'' & Hv'' & E').
  exists v''. split; [done|congruence].
Qed.

Lemma evolves_snoc l v : evolves l (l ++ [v]).
Proof. intros o x Hx. exists x. split; [|done]. by apply lookup_app_l_Some. Qed.

Lemma evolves_insert l o v v' : l !! o = Some v -> fixed v' = fixed v -> evolves l (<[o := v']> l).
Proof.
  intros Hv Hf o' x Hx. destruct (decide (o = o')) as [<-|Hne].
  - exists v'. rewrite list_lookup_insert_eq by by apply lookup_lt_Some in Hx. split; [done|congruence].
  - exists x. by rewrite list_lookup_insert_ne.
Qed.

Lemma evolves_alter l o f : (forall v, l !! o = Some v -> fixed (f v) = fixed v) -> evolves l (alter f o l).
Proof.
  intros Hf o' x Hx. destruct (decide (o = o')) as [<-|Hne].
  - exists (f x). rewrite list_lookup_alter_eq, Hx. split; [done|by apply Hf].
  - exists x. by rewrite list_lookup_alter_ne.
Qed.

Lemma fixed_id v v' : fixed v' = fixed v -> v_id v' = v_id v.
Proof. unfold fixed. congruence. Qed.

Lemma fixed_tp v v' : fixed v' = fixed v -> v_tp v' = v_tp v.
Proof. unfold fixed. congruence. Qed.

Lemma fixed_local v v' : fixed v' = fixed v -> is_local v' = is_local v.
Proof. unfold fixed, is_local. destruct (v_kind v), (v_kind v'); congruence. Qed.

(** Objects never disappear, so an object after is one from before. *)
Lemma evolves_back l l' o v' :
  evolves l l' -> length l' = length l -> l' !! o = Some v' -> exists v, l !! o = Some v /\ fixed v' = fixed v.
Proof.
  intros He Hl Hv'. apply lookup_lt_Some in Hv' as Hlt. rewrite Hl in Hlt.
  destruct (lookup_lt_is_Some_2 l o Hlt) as [v Hv]. exists v. split; [done|].
  destruct (He o v Hv) as (v'' & Hv'' & E). congruence.
Qed.

Lemma quiet_refl g es : Forall silent es -> quiet g g es.
Proof. intros H. by split; try done; [apply evolves_refl]. Qed.

Lemma quiet_trans g1 g2 g3 es1 es2 : quiet g1 g2 es1 -> quiet g2 g3 es2 -> quiet g1 g3 (es1 ++ es2).
Proof.
  intros [H1 H2 H3 H4 H5 H6 H7 H8] [K1 K2 K3 K4 K5 K6 K7 K8]. split; try congruence.
  - by eapply evolves_trans.
  - by apply Forall_app_2.
Qed.

Lemma routing_quiet g g' es : quiet g g' es -> routing_ok g -> routing_ok g'.
Proof.
  intros [H1 H2 H3 H4 H5 H6 H7 H8] [R1 R2 R3 R4 R5 R6]. split.
  - intros id o. rewrite H2. intros (v & Hv & <-)%R1. destruct (H7 o v Hv) as (v' & ? & E). exists v'.
    split; [done|by apply fixed_id].
  - intros tp o. unfold of_type. rewrite H4. fold (of_type g tp). rewrite R2. split; intros (v & Hv & <-).
    + destruct (H7 o v Hv) as (v' & ? & E). exists v'. split; [done|by apply fixed_tp].
    + destruct (evolves_back _ _ o v H7 H6 Hv) as (v' & ? & E). exists v'. split; [done|]. symmetry. by apply fixed_tp.
  - intros tp. unfold of_type. rewrite H4. apply R3.
  - intros id q. rewrite H2, H3. apply R4.
  - intros id r. rewrite H5. apply R5.
  - intros o v Hv. destruct (evolves_back _ _ o v H7 H6 Hv) as (v0 & Hv0 & E). specialize (R6 o v0 Hv0).
    unfold gate_entry_ok in *. unfold fixed in E. injection E as -> -> E3 E4. rewrite H1, H5.
    split; [apply R6|]. split; [apply R6|]. destruct R6 as (_ & _ & R6). destruct (v_kind v), (v_kind v0); try congruence.
Qed.

(** The registrations that wait belong to connections that were accepted. *)
Definition waiting_known (g : gate) : Prop := Forall (fun r => is_Some (conns g !! r.1.1)) (pending g).

(** ** Moves

    Every event is a sequence of moves; [D] is the set of objects that changed
    and were not announced yet, [ms] the messages forwarded. *)

(** Effects that carry no message and no information on a service. *)
Definition plain (e : effect) : Prop :=
  match e with
  | Write _ _ | NetWrite _ _ _ | SubscribeBrd _ _ => False
  | SubscribeAck _ _ _ l => l = []
  | _ => True
  end.

Definition remote_ok (r : remote_gate) : Prop := 0 <= rg_socket r /\ (0 < rg_socket r -> rg_queue r = []).

Definition rqueue (g : gate) (r : Z) : list bytes := from_option rg_queue [] (remote_gates_ g !! r).

Inductive move : gset nat -> gate -> gset nat -> gate -> list bytes -> list effect -> Prop :=
  | mv_say D g es : Forall plain es -> move D g D g [] es
  | mv_new D g v g' es : gate_entry_ok g v ->
      emplace_service (set_objects (objects g ++ [v]) g) (length (objects g)) = (g', es) ->
      move D g ({[length (objects g)]} ∪ D) g' [] es
  | mv_object D g o f : (forall v, objects g !! o = Some v -> fixed (f v) = fixed v) ->
      move D g ({[o]} ∪ D) (set_objects (alter f o (objects g)) g) [] []
  | mv_update D g o : move D g (D ∖ {[o]}) g [] (update g o)
  | mv_conn D g p c c' : conns g !! p = Some c -> c_socket c' = c_socket c -> c_subscribe c' = c_subscribe c ->
      (forall o, c_service c' = Some o -> exists v, objects g !! o = Some v /\ is_local v = true) ->
      move D g D (set_conns (<[p := c']> (conns g)) g) [] []
  | mv_accept D g p k now : conns g !! p = None -> k <> 0 ->
      move D g D (set_conns (<[p := Conn k now None []]> (conns g)) g) [] []
  | mv_subscribe D g p c session tp l s : conns g !! p = Some c -> c_socket c <> 0 ->
      l = (if bool_decide (p ∈ subscribers g tp) then subscribers g tp else subscribers g tp ++ [p]) ->
      s = (if bool_decide (tp ∈ c_subscribe c) then c_subscribe c else c_subscribe c ++ [tp]) ->
      move D g D
        (set_conns (<[p := Conn (c_socket c) (c_last_recv c) (c_service c) s]> (conns g))
           (set_subscribes (<[tp := l]> (subscribe_infos_ g)) g)) []
        [SubscribeAck (c_socket c) session ec_success (omap (fun o => to_proto <$> objects g !! o) (of_type g tp))]
  | mv_end D g p c : conns g !! p = Some c ->
      move D g D
        (set_conns (<[p := Conn 0 (c_last_recv c) None (c_subscribe c)]> (conns g))
           (set_subscribes (fold_left (unsubscribe p) (c_subscribe c) (subscribe_infos_ g)) g)) [] []
  | mv_forward D g m g' es : forward g m = (g', es) -> move D g D g' [m] es
  | mv_remote D g id r sent k : remote_ok r -> rqueue g id = sent ++ rg_queue r ->
      move D g D (set_remotes (<[id := r]> (remote_gates_ g)) g) [] (NetWrite id k <$> sent)
  | mv_pending D g p : waiting_known (set_pending p g) -> move D g D (set_pending p g) [] []
  | mv_master D g k : move D g D (set_master k g) [] [].

Inductive moves : gset nat -> gate -> gset nat -> gate -> list bytes -> list effect -> Prop :=
  | mvs_nil D g : moves D g D g [] []
  | mvs_cons D1 g1 D2 g2 D3 g3 ms ms' es es' :
      move D1 g1 D2 g2 ms es -> moves D2 g2 D3 g3 ms' es' -> moves D1 g1 D3 g3 (ms ++ ms') (es ++ es').

Lemma moves_trans D1 g1 D2 g2 D3 g3 ms ms' es es' :
  moves D1 g1 D2 g2 ms es -> moves D2 g2 D3 g3 ms' es' -> moves D1 g1 D3 g3 (ms ++ ms') (es ++ es').
Proof.
  induction 1 as [|? ? ? ? ? ? ? ? ? ? Hm _ IH]; [done|]. intros H. rewrite <-!(assoc_L (++)).
  eapply mvs_cons; [done|]. by apply IH.
Qed.

Lemma moves_one D g D' g' ms es : move D g D' g' ms es -> moves D g D' g' ms es.
Proof.
  intros H. rewrite <-(app_nil_r ms), <-(app_nil_r es). eapply mvs_cons; [done|constructor].
Qed.

(** ** Writing to a service *)

Lemma gate_eta_remotes g : set_remotes (remote_gates_ g) g = g.
Proof. by destruct g. Qed.

Lemma set_remotes_twice rs rs' g : set_remotes rs (set_remotes rs' g) = set_remotes rs g.
Proof. done. Qed.

Definition remotes_ok (g : gate) : Prop :=
  (forall id r, remote_gates_ g !! id = Some r -> remote_ok r) /\
  (forall o v, objects g !! o = Some v -> gate_entry_ok g v).

Lemma routing_remotes g : routing_ok g -> remotes_ok g.
Proof. intros H. split; [apply (go_remote g H)|apply (go_object g H)]. Qed.

(** The messages handed to object [o], the frames sent to remote gate [r], and
    the frames of the messages handed to the services of [r]. *)
Definition written (o : nat) (es : list effect) : list bytes :=
  omap (fun e => match e with Write o' m => if decide (o' = o) then Some m else None | _ => None end) es.

Definition sent_to (r : Z) (es : list effect) : list bytes :=
  omap (fun e => match e with NetWrite r' _ f => if decide (r' = r) then Some f else None | _ => None end) es.

Definition handed (l : list service) (r : Z) (es : list effect) : list bytes :=
  omap (fun e => match e with
    | Write o m => v ← l !! o;
        match v_kind v with Remote r' => if decide (r' = r) then Some (gate_frame m) else None | Local _ => None end
    | _ => None end) es.

Definition known (l : list service) (es : list effect) : Prop :=
  Forall (fun e => match e with Write o _ => is_Some (l !! o) | _ => True end) es.

(** What is sent and what waits are the frames handed to the remote's services. *)
Record relays (g g' : gate) (es : list effect) : Prop := {
  rl_known : known (objects g') es;
  rl_fifo r : rqueue g r ++ handed (objects g') r es = sent_to r es ++ rqueue g' r }.

Record writes (g : gate) (o : nat) (ms : list bytes) (g' : gate) (es : list effect) : Prop := {
  wr_gate : g' = set_remotes (remote_gates_ g') g;
  wr_remotes : remotes_ok g';
  wr_keeps id : is_Some (remote_gates_ g !! id) -> is_Some (remote_gates_ g' !! id);
  wr_written o' : written o' es = if decide (o' = o) then ms else [];
  wr_says : Forall (fun e => match e with SubscribeAck _ _ _ _ | SubscribeBrd _ _ => False | _ => True end) es;
  wr_relays : relays g g' es }.

Lemma written_app o es es' : written o (es ++ es') = written o es ++ written o es'.
Proof. apply omap_app. Qed.

Lemma sent_to_app r es es' : sent_to r (es ++ es') = sent_to r es ++ sent_to r es'.
Proof. apply omap_app. Qed.

Lemma handed_app l r es es' : handed l r (es ++ es') = handed l r es ++ handed l r es'.
Proof. apply omap_app. Qed.

Lemma known_evolves l l' es : evolves l l' -> known l es -> known l' es.
Proof.
  intros He. unfold known. apply Forall_impl. intros [] ; try done. intros [v Hv].
  destruct (He o v Hv) as (v' & Hv' & _). by exists v'.
Qed.

Lemma handed_evolves l l' r es : evolves l l' -> known l es -> handed l' r es = handed l r es.
Proof.
  intros He. induction 1 as [|e es Hk _ IH]; [done|]. destruct e; try exact IH.
  destruct Hk as [v Hv]. destruct (He o v Hv) as (v' & Hv' & Hf).
  change (Write o m :: es) with ([Write o m] ++ es). rewrite !handed_app, IH. f_equal.
  cbn. rewrite Hv, Hv'. cbn. unfold fixed in Hf. injection Hf as _ _ _ Hf.
  destruct (v_kind v), (v_kind v'); by inversion Hf.
Qed.

Lemma relays_trans g1 g2 g3 es es' :
  evolves (objects g2) (objects g3) -> relays g1 g2 es -> relays g2 g3 es' -> relays g1 g3 (es ++ es').
Proof.
  intros He [K1 F1] [K2 F2]. split; [apply Forall_app_2; [by eapply known_evolves|done]|].
  intros r. rewrite handed_app, sent_to_app. rewrite (handed_evolves _ _ r es He K1).
  by rewrite (assoc_L (++)), F1, <-!(assoc_L (++)), F2.
Qed.

Lemma rqueue_lookup g r x : remote_gates_ g !! r = Some x -> rqueue g r = rg_queue x.
Proof. unfold rqueue. by intros ->. Qed.

Lemma rqueue_insert g id x r : rqueue (set_remotes (<[id := x]> (remote_gates_ g)) g) r = if decide (r = id) then rg_queue x else rqueue g r.
Proof. unfold rqueue. cbn. case_decide; [subst; by rewrite lookup_insert_eq|by rewrite lookup_insert_ne]. Qed.

Lemma gate_entry_keeps g rs v :
  (forall id, is_Some (remote_gates_ g !! id) -> is_Some (rs !! id)) -> gate_entry_ok g v -> gate_entry_ok (set_remotes rs g) v.
Proof. unfold gate_entry_ok. intros H (? & ? & Hk). split; [done|]. split; [done|]. destruct (v_kind v); cbn; [done|]. destruct Hk. auto. Qed.

Lemma remotes_ok_insert g id r : remotes_ok g -> remote_ok r -> remotes_ok (set_remotes (<[id := r]> (remote_gates_ g)) g).
Proof.
  intros [H1 H2] Hr. split; cbn.
  - intros id' r'. destruct (decide (id' = id)) as [->|]; [rewrite lookup_insert_eq; by intros [= <-]|].
    rewrite lookup_insert_ne by done. apply H1.
  - intros o v Hv. apply gate_entry_keeps; [|by eapply H2]. intros id'. rewrite lookup_insert_is_Some'. tauto.
Qed.

Lemma write_ok g o v m g' es : remotes_ok g -> objects g !! o = Some v -> write g o m = (g', es) -> writes g o [m] g' es.
Proof.
  intros Hok Hv. unfold write. rewrite Hv. destruct (v_kind v) as [k|r] eqn:Ek.
  - intros [= <- <-]. split; [symmetry; apply gate_eta_remotes|done|done| | |].
    + intros o'. cbn. destruct (decide (o' = o)), (decide (o = o')); congruence.
    + repeat constructor.
    + split; [repeat constructor; by exists v|]. intros r. cbn. rewrite Hv. cbn. rewrite Ek. cbn. by rewrite app_nil_r.
  - pose proof (proj2 Hok o v Hv) as He. unfold gate_entry_ok in He. rewrite Ek in He. destruct He as (_ & _ & _ & [x Hx]).
    unfold remote_send. rewrite Hx. destruct (Z.ltb_spec 0 (rg_socket x)) as [Hs|Hs]; intros [= <- <-].
    + split; [symmetry; apply gate_eta_remotes|done|done| | |].
      * intros o'. cbn. destruct (decide (o' = o)), (decide (o = o')); congruence.
      * repeat constructor.
      * split; [repeat constructor; by exists v|]. intros r'. cbn. rewrite Hv. cbn. rewrite Ek.
        destruct (decide (r = r')) as [<-|]; cbn; [|by rewrite app_nil_r].
        rewrite (rqueue_lookup _ _ _ Hx), (proj2 (proj1 Hok r x Hx) Hs). done.
    + split; [done|apply remotes_ok_insert; [done|]| | | |].
      * destruct (proj1 Hok r x Hx) as [? ?]. split; cbn; [done|lia].
      * intros id. cbn. rewrite lookup_insert_is_Some'. tauto.
      * intros o'. cbn. destruct (decide (o' = o)), (decide (o = o')); congruence.
      * repeat constructor.
      * split; [repeat constructor; by exists v|]. intros r'. rewrite rqueue_insert. cbn. rewrite Hv. cbn. rewrite Ek.
        destruct (decide (r = r')) as [<-|Hne].
        -- rewrite decide_True by done. cbn. by rewrite (rqueue_lookup _ _ _ Hx).
        -- rewrite decide_False by congruence. cbn. by rewrite app_nil_r.
Qed.

Lemma write_all_ok o v ms : forall g g' es, remotes_ok g -> objects g !! o = Some v ->
  write_all g o ms = (g', es) -> writes g o ms g' es.
Proof.
  induction ms as [|m ms IH]; intros g g' es Hok Hv; cbn [write_all].
  - intros [= <- <-]. split; [symmetry; apply gate_eta_remotes|done|done| | |].
    + intros o'. by case_decide.
    + constructor.
    + split; [constructor|]. intros r. cbn. by rewrite app_nil_r.
  - destruct (write g o m) as [g1 es1] eqn:E1. destruct (write_all g1 o ms) as [g2 es2] eqn:E2. intros [= <- <-].
    apply (write_ok g o v m) in E1 as [W1 W2 W3 W4 W5 W6]; [|done|done].
    apply IH in E2 as [X1 X2 X3 X4 X5 X6]; [|done|by rewrite W1]. split.
    + rewrite X1, W1. done.
    + done.
    + auto.
    + intros o'. rewrite written_app, W4, X4. by case_decide.
    + by apply Forall_app_2.
    + eapply relays_trans; [|done|done]. rewrite X1. apply evolves_refl.
Qed.

(** ** The routing is kept *)

Lemma lookup_new (l : list service) v : (l ++ [v]) !! length l = Some v.
Proof. by apply list_lookup_middle. Qed.

(** [g] with the object [v] in its tables. *)
Definition emplaced (g : gate) (v : service) : gate :=
  let o := length (objects g) in
  Gate (own_id g) (send_queues_ g)
    (match services_ g !! v_id v with Some _ => services_ g | None => <[v_id v := o]> (services_ g) end)
    (<[v_tp v := of_type g (v_tp v) ++ [o]]> (service_types_ g)) (objects g ++ [v]) (conns g)
    (subscribe_infos_ g) (pending g) (remote_gates_ g) (master_socket g).

Lemma emplace_ok g v g' es :
  remotes_ok g -> gate_entry_ok g v ->
  emplace_service (set_objects (objects g ++ [v]) g) (length (objects g)) = (g', es) ->
  exists rs, g' = set_queues (delete (v_id v) (send_queues_ g)) (set_remotes rs (emplaced g v)) /\
    writes (emplaced g v) (length (objects g)) (queue g (v_id v)) (set_remotes rs (emplaced g v)) es.
Proof.
  intros [Hr He] Hv. unfold emplace_service. cbn [objects set_objects].
  rewrite lookup_new. cbn [send_queues_ set_objects services_ service_types_].
  assert (Hok : remotes_ok (emplaced g v)).
  { split; [exact Hr|]. cbn. intros o w [[_ Hw]|[_ ->]]%lookup_snoc_Some; [exact (He o w Hw)|exact Hv]. }
  assert (Ho : objects (emplaced g v) !! length (objects g) = Some v) by apply lookup_new.
  destruct (send_queues_ g !! v_id v) as [q|] eqn:Eq.
  - match goal with |- context [write_all ?x _ _] => change x with (emplaced g v) end.
    destruct (write_all (emplaced g v) (length (objects g)) q) as [g2 es2] eqn:E2. intros [= <- <-].
    pose proof (write_all_ok _ _ _ _ _ _ Hok Ho E2) as HW. exists (remote_gates_ g2).
    assert (Eq2 : send_queues_ g2 = send_queues_ g) by (by rewrite (wr_gate _ _ _ _ _ HW)).
    rewrite <-(wr_gate _ _ _ _ _ HW), Eq2. split; [done|]. unfold queue. by rewrite Eq.
  - intros [= <- <-]. exists (remote_gates_ g).
    change (remote_gates_ g) with (remote_gates_ (emplaced g v)). rewrite gate_eta_remotes. split.
    + unfold set_queues, emplaced. cbn. by rewrite (delete_id _ _ Eq).
    + unfold queue. rewrite Eq. by apply (write_all_ok _ v []).
Qed.

Lemma routing_set_remotes g rs :
  routing_ok g -> remotes_ok (set_remotes rs g) -> routing_ok (set_remotes rs g).
Proof. intros [R1 R2 R3 R4 R5 R6] [H1 H2]. by split. Qed.

Lemma services_emplaced g v id x :
  services_ (emplaced g v) !! id = Some x <->
  services_ g !! id = Some x \/ (services_ g !! id = None /\ id = v_id v /\ x = length (objects g)).
Proof.
  cbn. destruct (services_ g !! v_id v) as [y|] eqn:Ey.
  - split; [auto|]. intros [?|(E & -> & _)]; [done|congruence].
  - destruct (decide (id = v_id v)) as [->|Hne]; [rewrite lookup_insert_eq, Ey|rewrite lookup_insert_ne by done].
    + split; [intros [= <-]; auto|intros [?|(_ & _ & ->)]; done].
    + split; [auto|]. intros [?|(_ & ? & _)]; done.
Qed.

Lemma routing_emplaced g v rs :
  routing_ok g -> remotes_ok (set_remotes rs (emplaced g v)) ->
  routing_ok (set_queues (delete (v_id v) (send_queues_ g)) (set_remotes rs (emplaced g v))).
Proof.
  intros [R1 R2 R3 R4 R5 R6] [H1 H2]. set (o := length (objects g)).
  assert (Hty : forall tp, of_type (emplaced g v) tp = of_type g tp ++ (if decide (tp = v_tp v) then [o] else [])).
  { intros tp. unfold of_type at 1. cbn. case_decide as Hd; [subst tp; by rewrite lookup_insert_eq|].
    rewrite lookup_insert_ne by done. by rewrite app_nil_r. }
  assert (Hnew : forall tp, o ∉ of_type g tp).
  { intros tp (w & Hw & _)%R2. apply lookup_lt_Some in Hw. unfold o in Hw. lia. }
  split.
  - intros id x. change (services_ _) with (services_ (emplaced g v)). rewrite services_emplaced.
    intros [(w & Hw & Ew)%R1|(_ & -> & ->)]; cbn.
    + exists w. split; [by apply lookup_app_l_Some|done].
    + exists v. split; [apply lookup_new|done].
  - intros tp x. change (of_type _ tp) with (of_type (emplaced g v) tp). rewrite Hty, list.elem_of_app, R2. cbn. split.
    + intros [(w & Hw & Ew)|Hx].
      * exists w. split; [by apply lookup_app_l_Some|done].
      * case_decide as Hd; [|by apply not_elem_of_nil in Hx]. apply list_elem_of_singleton in Hx as ->.
        exists v. split; [apply lookup_new|done].
    + intros (w & [[_ Hw]|[-> ->]]%lookup_snoc_Some & <-); [left; by exists w|right].
      rewrite decide_True by done. by apply list_elem_of_singleton.
  - intros tp. change (of_type _ tp) with (of_type (emplaced g v) tp). rewrite Hty. case_decide; [|by rewrite app_nil_r].
    apply list.NoDup_app. split; [apply R3|]. split; [|apply list.NoDup_singleton].
    intros x Hx ->%list_elem_of_singleton. by apply (Hnew tp).
  - intros id q. cbn [set_queues send_queues_]. intros [Hne Hq]%lookup_delete_Some.
    destruct (R4 id q Hq) as (Hs & ? & ?). split; [|done].
    change (services_ (emplaced g v) !! id = None). destruct (services_ (emplaced g v) !! id) as [x|] eqn:E; [|done].
    apply services_emplaced in E as [?|(_ & -> & _)]; [congruence|done].
  - exact H1.
  - exact H2.
Qed.

Lemma dest_routing g m g' es : routing_ok g -> forward g m = (g', es) ->
  (g' = g /\ es = [] /\ zlen m < forward_part_size) \/
  (forward_part_size <= zlen m /\ services_ g !! dest_of m = None /\
     g' = set_queues (<[dest_of m := queue g (dest_of m) ++ [m]]> (send_queues_ g)) g /\ es = []) \/
  (forward_part_size <= zlen m /\ exists o, services_ g !! dest_of m = Some o /\ writes g o [m] g' es).
Proof.
  intros R. unfold forward, find_service. destruct (Z.ltb_spec (zlen m) forward_part_size); [intros [= <- <-]; auto|].
  destruct (services_ g !! dest_of m) as [o|] eqn:E; intros Hw; right.
  - right. split; [done|]. exists o. split; [done|]. destruct (go_service g R _ _ E) as (v & Hv & _).
    eapply write_ok; [by apply routing_remotes|done|done].
  - left. by injection Hw as <- <-.
Qed.

Lemma move_evolves D g D' g' ms es : routing_ok g -> move D g D' g' ms es -> evolves (objects g) (objects g').
Proof.
  intros R. destruct 1 as [ | D g v g' es Hv He| D g o f Hf | | | | | |D g m g' es Hm| | | ]; try apply evolves_refl.
  - apply emplace_ok in He as (rs & -> & _); [apply evolves_snoc|by apply routing_remotes|done].
  - by apply evolves_alter.
  - apply dest_routing in Hm as [(-> & _)|[(_ & _ & -> & _)|(_ & o & _ & W)]]; [apply evolves_refl..| |done].
    rewrite (wr_gate _ _ _ _ _ W). apply evolves_refl.
Qed.

Lemma quiet_conns g c : quiet g (set_conns c g) [].
Proof. split; try done. apply evolves_refl. Qed.

Lemma quiet_subscribes g s : quiet g (set_subscribes s g) [].
Proof. split; try done. apply evolves_refl. Qed.

Lemma quiet_objects g o f :
  (forall v, objects g !! o = Some v -> fixed (f v) = fixed v) -> quiet g (set_objects (alter f o (objects g)) g) [].
Proof. intros Hf. split; try done; cbn; [apply length_alter|by apply evolves_alter]. Qed.

Lemma quiet_same g g' : own_id g' = own_id g -> services_ g' = services_ g -> send_queues_ g' = send_queues_ g ->
  service_types_ g' = service_types_ g -> remote_gates_ g' = remote_gates_ g -> objects g' = objects g ->
  quiet g g' [].
Proof. intros ? ? ? ? ? E. split; try done; rewrite E; [done|apply evolves_refl]. Qed.

(** A move is quiet, puts a new object in the tables, forwards a message, or
    changes a remote gate. *)
Lemma move_routing D g D' g' ms es : routing_ok g -> move D g D' g' ms es -> routing_ok g'.
Proof.
  intros R. destruct 1 as [ | D g v g' es Hv He| D g o f Hf | | | | | |D g m g' es Hm|D g id r sent k Hr _| | ]; try done;
    try (by apply (routing_quiet g _ []); [apply quiet_same|]).
  - apply emplace_ok in He as (rs & -> & W); [|by apply routing_remotes|done]. apply routing_emplaced; [done|apply W].
  - eapply routing_quiet; [by apply quiet_objects|done].
  - apply dest_routing in Hm as [(-> & _)|[(Hl & Hs & -> & _)|(_ & o & _ & W)]]; [done| | |done].
    + destruct R as [R1 R2 R3 R4 R5 R6]. split; try done. intros id q. cbn [send_queues_ services_ set_queues].
      destruct (decide (id = dest_of m)) as [->|Hne].
      * rewrite lookup_insert_eq. intros [= <-]. split; [done|]. split; [by intros [_ ?]%app_nil|].
        apply Forall_app_2; [|by repeat constructor]. unfold queue. destruct (send_queues_ g !! dest_of m) eqn:E; [|constructor].
        by apply R4 in E as (_ & _ & ?).
      * rewrite lookup_insert_ne by done. apply R4.
    + rewrite (wr_gate _ _ _ _ _ W). apply routing_set_remotes; [done|]. rewrite <-(wr_gate _ _ _ _ _ W). apply W.
  - apply routing_set_remotes; [done|]. apply remotes_ok_insert; [by apply routing_remotes|done].
Qed.

(** ** What is routed, and what is relayed *)

Definition to_dest (id : Z) (ms : list bytes) : list bytes :=
  filter (fun m => dest_of m = id /\ forward_part_size <= zlen m) ms.

(** Every forwarded message was handed, in order and once, to the object that
    has its id, or waits for one. *)
Record routed (g : gate) (ms : list bytes) (out : list effect) : Prop := {
  ro_service id o : services_ g !! id = Some o -> written o out = to_dest id ms;
  ro_queue id : services_ g !! id = None -> queue g id = to_dest id ms;
  ro_other o : (forall id, services_ g !! id <> Some o) -> written o out = [] }.

Lemma silent_nothing o r l es : Forall silent es -> written o es = [] /\ sent_to r es = [] /\ handed l r es = [] /\ known l es.
Proof.
  induction 1 as [|e es He _ (I1 & I2 & I3 & I4)]; [repeat split; constructor|].
  destruct e; try done; repeat split; try done; by constructor.
Qed.

Lemma plain_silent es : Forall plain es -> Forall silent es.
Proof. apply Forall_impl. by intros []. Qed.

Lemma update_effects g o : Forall (fun e => match e with Upload _ | SubscribeBrd _ _ => True | _ => False end) (update g o).
Proof.
  unfold update, update_master, update_subscribers. destruct (objects g !! o) as [v|]; [|constructor].
  apply Forall_app_2.
  - repeat case_match; repeat constructor.
  - destruct (subscribe_infos_ g !! v_tp v) as [l|]; [|constructor].
    induction l as [|p l IH]; [constructor|]. cbn. destruct (conns g !! p); [by constructor|done].
Qed.

Lemma update_silent g o : Forall silent (update g o).
Proof. generalize (update_effects g o). apply Forall_impl. by intros []. Qed.

Lemma relays_silent g g' es : remote_gates_ g' = remote_gates_ g -> Forall silent es -> relays g g' es.
Proof.
  intros Hr Hs. split; [by apply (silent_nothing 0%nat 0 _ _ Hs)|]. intros r. unfold rqueue. rewrite Hr.
  destruct (silent_nothing 0%nat r (objects g') _ Hs) as (_ & -> & -> & _). by rewrite app_nil_r.
Qed.

Lemma move_relays D g D' g' ms es : routing_ok g -> move D g D' g' ms es -> relays g g' es.
Proof.
  intros R. destruct 1 as [ | D g v g' es Hv He| | | | | | |D g m g' es Hm|D g id r sent k _ Hq| | ];
    try (by apply relays_silent); try (apply relays_silent; [done|]).
  - by apply plain_silent.
  - apply emplace_ok in He as (rs & -> & W); [|by apply routing_remotes|done].
    destruct (wr_relays _ _ _ _ _ W) as [K F]. split; [exact K|exact F].
  - apply update_silent.
  - repeat constructor.
  - apply dest_routing in Hm as [(-> & -> & _)|[(_ & _ & -> & ->)|(_ & o & _ & W)]]; [by apply relays_silent..| |done].
    apply W.
  - split.
    + apply Forall_fmap, Forall_true. done.
    + intros r'. rewrite rqueue_insert.
      assert (Hh : handed (objects (set_remotes (<[id:=r]> (remote_gates_ g)) g)) r' (NetWrite id k <$> sent) = []).
      { clear. induction sent; [done|exact IHsent]. }
      assert (Hs : sent_to r' (NetWrite id k <$> sent) = if decide (r' = id) then sent else []).
      { clear. induction sent as [|m sent IH]; [by case_decide|]. unfold sent_to in *. cbn.
        destruct (decide (id = r')), (decide (r' = id)); try congruence. }
      rewrite Hh, Hs, app_nil_r. case_decide; [by subst|done].
Qed.

Lemma routed_same g g' ms out es :
  services_ g' = services_ g -> send_queues_ g' = send_queues_ g -> (forall o, written o es = []) ->
  routed g ms out -> routed g' (ms ++ []) (out ++ es).
Proof.
  intros Hs Hq Hw [R1 R2 R3]. rewrite app_nil_r. unfold queue in *. split; unfold queue; rewrite ?Hs, ?Hq; intros;
    rewrite ?written_app, ?Hw, ?app_nil_r; auto.
Qed.

Lemma to_dest_app id ms ms' : to_dest id (ms ++ ms') = to_dest id ms ++ to_dest id ms'.
Proof. apply list.filter_app. Qed.

Lemma to_dest_one id m : to_dest id [m] = if decide (dest_of m = id /\ forward_part_size <= zlen m) then [m] else [].
Proof. unfold to_dest. rewrite list.filter_cons. by case_decide. Qed.

Lemma queue_named g id o : routing_ok g -> services_ g !! id = Some o -> queue g id = [].
Proof.
  intros R Hs. unfold queue. destruct (send_queues_ g !! id) as [q|] eqn:E; [|done].
  apply (go_queue g R) in E as [E _]. congruence.
Qed.

Lemma new_unnamed g id : routing_ok g -> services_ g !! id <> Some (length (objects g)).
Proof. intros R (v & Hv & _)%(go_service g R). apply lookup_lt_Some in Hv. lia. Qed.

Lemma routed_emplaced g v ms out rs es : routing_ok g -> routed g ms out ->
  writes (emplaced g v) (length (objects g)) (queue g (v_id v)) (set_remotes rs (emplaced g v)) es ->
  routed (set_queues (delete (v_id v) (send_queues_ g)) (set_remotes rs (emplaced g v))) ms (out ++ es).
Proof.
  intros R [R1 R2 R3] W. set (o := length (objects g)).
  assert (Ho : written o out = []) by (apply R3; intros id; by apply new_unnamed).
  split.
  - intros id x Hx. change (services_ (emplaced g v) !! id = Some x) in Hx.
    rewrite written_app, (wr_written _ _ _ _ _ W). fold o.
    apply services_emplaced in Hx as [Hx|(Hn & -> & ->)].
    + rewrite decide_False, app_nil_r by (intros ->; by apply (new_unnamed g id R)). by apply R1.
    + fold o. rewrite decide_True by done. rewrite Ho. by apply R2.
  - intros id Hx. change (services_ (emplaced g v) !! id = None) in Hx. unfold queue. cbn [send_queues_ set_queues].
    assert (Hg : services_ g !! id = None).
    { destruct (services_ g !! id) as [y|] eqn:E; [|done].
      assert (services_ (emplaced g v) !! id = Some y) by (apply services_emplaced; auto). congruence. }
    rewrite lookup_delete_ne; [by apply R2|]. intros <-.
    assert (services_ (emplaced g v) !! v_id v = Some o) by (apply services_emplaced; auto). congruence.
  - intros x Hx. rewrite written_app, (wr_written _ _ _ _ _ W). fold o.
    rewrite R3 by (intros id Hid; apply (Hx id); apply services_emplaced; auto).
    case_decide as Hd; [|done]. subst x. cbn. destruct (services_ g !! v_id v) as [y|] eqn:E.
    + by apply (queue_named g _ y).
    + exfalso. apply (Hx (v_id v)). apply services_emplaced. auto.
Qed.

Lemma routed_forward g m g' es ms out : routing_ok g -> routed g ms out -> forward g m = (g', es) ->
  routed g' (ms ++ [m]) (out ++ es).
Proof.
  intros R [R1 R2 R3] Hf. apply (dest_routing g m g' es R) in Hf.
  destruct Hf as [(-> & -> & Hl)|[(Hl & Hs & -> & ->)|(Hl & o & Ho & W)]].
  - split; intros; rewrite ?to_dest_app, ?to_dest_one, ?app_nil_r;
      rewrite ?decide_False, ?app_nil_r by lia; auto.
  - split; intros x; rewrite ?app_nil_r; [intros o Ho|intros Hx|by apply R3]; rewrite to_dest_app, to_dest_one.
    + rewrite decide_False, app_nil_r by (intros [<- _]; cbn [services_ set_queues] in Ho; congruence). by apply R1.
    + unfold queue. cbn [send_queues_ set_queues]. case_decide as Hd.
      * destruct Hd as [<- _]. rewrite lookup_insert_eq. cbn [from_option]. fold (queue g (dest_of m)). by rewrite R2.
      * rewrite lookup_insert_ne, app_nil_r by tauto. by apply R2.
  - pose proof (wr_gate _ _ _ _ _ W) as Eg. rewrite Eg. split; cbn [services_ set_remotes].
    + intros id x Hx. rewrite written_app, to_dest_app, to_dest_one, (wr_written _ _ _ _ _ W), (R1 _ _ Hx). f_equal.
      destruct (decide (x = o)) as [->|Hne].
      * destruct (go_service g R _ _ Hx) as (v & Hv & <-). destruct (go_service g R _ _ Ho) as (v' & Hv' & E).
        rewrite decide_True; [done|]. split; [congruence|done].
      * rewrite decide_False; [done|]. intros [<- _]. congruence.
    + intros id Hx. rewrite to_dest_app, to_dest_one, decide_False, app_nil_r by (intros [<- _]; congruence). by apply R2.
    + intros x Hx. rewrite written_app, (wr_written _ _ _ _ _ W), R3 by done. rewrite decide_False; [done|].
      intros ->. by apply (Hx (dest_of m)).
Qed.

Lemma move_routed D g D' g' ms ms' out es : routing_ok g -> routed g ms out -> move D g D' g' ms' es ->
  routed g' (ms ++ ms') (out ++ es).
Proof.
  intros R Hr. destruct 1 as [ | D g v g' es Hv He| | | | | | | |D g id r sent k _ Hq| | ];
    try (by apply (routed_same g)); try (apply (routed_same g); [done..| |done]); try intros o'.
  - by apply (silent_nothing o' 0 []), plain_silent.
  - apply emplace_ok in He as (rs & -> & W); [|by apply routing_remotes|done].
    rewrite app_nil_r. by apply routed_emplaced.
  - apply (silent_nothing o' 0 []), update_silent.
  - by eapply routed_forward.
  - clear. induction sent; [done|exact IHsent].
Qed.

(** ** The subscriptions are kept *)

Lemma remove_swap_perm p l : p ∈ l -> l ≡ₚ p :: remove_swap p l.
Proof.
  intros Hp. unfold remove_swap. destruct (list_find (fun x => x = p) l) as [[i x]|] eqn:E.
  - apply list_find_Some in E as (Hi & -> & _). apply list_elem_of_split_length in Hi as (l1 & l2 & -> & Hl).
    rewrite length_app. cbn [length]. destruct (Nat.eqb_spec i (length l1 + S (length l2) - 1)) as [Ei|Ei].
    + destruct l2; [|cbn in Ei; lia]. rewrite removelast_last. apply Permutation_app_comm.
    + destruct l2 as [|z l2 _] using rev_ind; [cbn in Ei; lia|].
      replace (List.last (l1 ++ p :: l2 ++ [z]) 0%nat) with z by (rewrite app_comm_cons, app_assoc, last_last; done).
      replace (<[i:=z]> (l1 ++ p :: l2 ++ [z])) with ((l1 ++ z :: l2) ++ [z]).
      * rewrite removelast_last. rewrite <-(Permutation_middle l1 l2 z), <-(Permutation_middle l1 _ p).
        constructor. rewrite <-Permutation_cons_append. by rewrite Permutation_middle.
      * rewrite Hl, <-(Nat.add_0_r (length l1)), insert_app_r. cbn. by rewrite <-(assoc_L (++)).
  - exfalso. eapply list_find_None in E. rewrite list.Forall_forall in E. by apply (E p Hp).
Qed.

Lemma remove_swap_notin p l : p ∉ l -> remove_swap p l = l.
Proof.
  intros Hp. unfold remove_swap. destruct (list_find (fun x => x = p) l) as [[i x]|] eqn:E; [|done].
  apply list_find_Some in E as (Hi & -> & _). by apply list_elem_of_lookup_2 in Hi.
Qed.

Lemma remove_swap_ok p l : NoDup l -> NoDup (remove_swap p l) /\ forall q, q ∈ remove_swap p l <-> q ∈ l /\ q <> p.
Proof.
  intros Hn. destruct (decide (p ∈ l)) as [Hp|Hp].
  - generalize (remove_swap p l), (remove_swap_perm p l Hp). intros r E. rewrite E in Hn. apply list.NoDup_cons in Hn as [Hnp Hn].
    split; [done|]. intros q. rewrite E, list.elem_of_cons. split; [|tauto].
    intros Hq. split; [auto|]. by intros ->.
  - rewrite remove_swap_notin by done. split; [done|]. intros q. split; [|tauto].
    intros Hq. split; [done|]. by intros ->.
Qed.

Definition listed (t : gmap Z (list nat)) (tp : Z) : list nat := from_option (fun l => l) [] (t !! tp).

Lemma listed_unsubscribe p t tp tp' : listed (unsubscribe p t tp') tp = if decide (tp = tp') then remove_swap p (listed t tp) else listed t tp.
Proof.
  unfold unsubscribe, listed. case_decide as Hd.
  - subst tp'. destruct (t !! tp) as [l|] eqn:E; [by rewrite lookup_insert_eq|]. by rewrite E.
  - destruct (t !! tp'); [by rewrite lookup_insert_ne|done].
Qed.

Lemma listed_unsubscribe_all p tps : forall t tp,
  (forall tp, NoDup (listed t tp)) -> NoDup tps ->
  NoDup (listed (fold_left (unsubscribe p) tps t) tp) /\
  forall q, q ∈ listed (fold_left (unsubscribe p) tps t) tp <-> q ∈ listed t tp /\ (q = p -> tp ∉ tps).
Proof.
  induction tps as [|x tps IH]; intros t tp Hn Ht; cbn [fold_left].
  - split; [done|]. intros q. split; [|tauto]. intros ?. split; [done|]. intros _. apply not_elem_of_nil.
  - apply list.NoDup_cons in Ht as [Hx Ht].
    assert (Hn' : forall tp, NoDup (listed (unsubscribe p t x) tp)).
    { intros y. rewrite listed_unsubscribe. case_decide; [by apply remove_swap_ok|done]. }
    destruct (IH (unsubscribe p t x) tp Hn' Ht) as [I1 I2]. split; [done|].
    intros q. rewrite I2, listed_unsubscribe. case_decide as Hd.
    + subst x. rewrite (proj2 (remove_swap_ok p _ (Hn tp))). split.
      * intros [[? ?] _]. split; [done|]. done.
      * intros [Hq Hp]. assert (q <> p) by (intros ->; apply Hp; [done|by left]). done.
    + rewrite list.not_elem_of_cons. tauto.
Qed.

Lemma listener_same g g' : conns g' = conns g -> subscribe_infos_ g' = subscribe_infos_ g ->
  evolves (objects g) (objects g') -> listener_ok g -> listener_ok g'.
Proof.
  intros Hc Hs He [L1 L2 L3]. split.
  - intros p c. rewrite Hc. intros [H1 H2]%L1. split; [done|]. intros o (v & Hv & Hl)%H2.
    destruct (He o v Hv) as (v' & Hv' & Hf). exists v'. split; [done|]. by rewrite (fixed_local _ _ Hf).
  - intros tp p. unfold subscribers. rewrite Hs, Hc. apply L2.
  - intros tp. unfold subscribers. rewrite Hs. apply L3.
Qed.

(** A connection is replaced: what its subscriptions become in the tables. *)
Lemma listener_conn g p c s :
  listener_ok g -> NoDup (c_subscribe c) ->
  (forall o, c_service c = Some o -> exists v, objects g !! o = Some v /\ is_local v = true) ->
  (forall tp, NoDup (listed s tp)) ->
  (forall tp q, q ∈ listed s tp <-> (q <> p /\ q ∈ subscribers g tp) \/ (q = p /\ c_socket c <> 0 /\ tp ∈ c_subscribe c)) ->
  listener_ok (set_conns (<[p := c]> (conns g)) (set_subscribes s g)).
Proof.
  intros [L1 L2 L3] Hn Hs Hd Hq. split.
  - intros q c'. cbn. intros [(<- & <-)|(Hne & H)]%lookup_insert_Some; [done|by apply (L1 q)].
  - intros tp q. change (subscribers _ tp) with (listed s tp). rewrite Hq, L2. cbn. split.
    + intros [(Hne & c' & Hc & ?)|(-> & ?)].
      * exists c'. by rewrite lookup_insert_ne.
      * exists c. by rewrite lookup_insert_eq.
    + intros (c' & [(<- & <-)|(Hne & H)]%lookup_insert_Some & ?); [auto|]. left. split; [done|]. by exists c'.
  - exact Hd.
Qed.

Lemma set_subscribes_eta g : set_subscribes (subscribe_infos_ g) g = g.
Proof. by destruct g. Qed.

Lemma move_listener D g D' g' ms es : routing_ok g -> listener_ok g -> move D g D' g' ms es -> listener_ok g'.
Proof.
  intros R L Hm. pose proof (move_evolves _ _ _ _ _ _ R Hm) as He. pose proof L as [L1 L2 L3].
  destruct Hm as [ | D g v g' es Hv Hn| | |D g p c c' Hc Ek Es Ho|D g p k now Hp Hk|D g p c session tp l s Hc Hk El Es|D g p c Hc|D g m g' es Hm| | | ];
    try done; try (by apply (listener_same g)).
  - apply emplace_ok in Hn as (rs & -> & _); [by apply (listener_same g)|by apply routing_remotes|done].
  - pose proof (listener_conn g p c' (subscribe_infos_ g)) as H. rewrite set_subscribes_eta in H. apply H; try done.
    + rewrite Es. by apply (L1 p).
    + intros tp q. change (listed _ tp) with (subscribers g tp). destruct (decide (q = p)) as [->|Hne].
      * rewrite L2, Ek, Es, Hc. split; [intros (c0 & [= <-] & ?); auto|intros [[? _]|(_ & ?)]; [done|by exists c]].
      * tauto.
  - pose proof (listener_conn g p (Conn k now None []) (subscribe_infos_ g)) as H. rewrite set_subscribes_eta in H.
    apply H; try done; [constructor|].
    intros tp q. change (listed _ tp) with (subscribers g tp). cbn. split.
    + intros Hq. left. split; [|done]. intros ->. apply L2 in Hq as (c & Hc & _). congruence.
    + intros [[_ ?]|(_ & _ & Hn)]; [done|by apply not_elem_of_nil in Hn].
  - destruct (L1 p c Hc) as [Hn Ho]. apply listener_conn; try done; cbn [c_subscribe c_socket].
    + rewrite Es. destruct (bool_decide_reflect (tp ∈ c_subscribe c)) as [Hd|Hd]; [done|]. apply list.NoDup_app. split; [done|].
      split; [|apply list.NoDup_singleton]. by intros x Hx ->%list_elem_of_singleton.
    + intros tp'. unfold listed. destruct (decide (tp' = tp)) as [->|Hne]; [|rewrite lookup_insert_ne by done; apply L3].
      rewrite lookup_insert_eq. cbn [from_option]. rewrite El. clear Es He. destruct (bool_decide_reflect (p ∈ subscribers g tp)) as [Hd|Hd]; [apply L3|].
      apply list.NoDup_app. split; [apply L3|]. split; [|apply list.NoDup_singleton]. by intros x Hx ->%list_elem_of_singleton.
    + assert (Hp : forall tp', p ∈ subscribers g tp' <-> tp' ∈ c_subscribe c).
      { intros tp'. rewrite L2. split; [intros (c0 & E & _ & ?); congruence|by exists c]. }
      assert (Hs : forall tp', tp' ∈ s <-> tp' ∈ c_subscribe c \/ tp' = tp).
      { intros tp'. rewrite Es. destruct (bool_decide_reflect (tp ∈ c_subscribe c)); [split; [auto|by intros [?| ->]]|].
        by rewrite list.elem_of_app, list_elem_of_singleton. }
      intros tp' q. unfold listed. destruct (decide (tp' = tp)) as [->|Hne].
      * rewrite lookup_insert_eq. cbn [from_option]. rewrite Hs, El.
        destruct (decide (q = p)) as [->|Hq]; destruct (bool_decide_reflect (p ∈ subscribers g tp)) as [Hd|Hd]; rewrite ?list.elem_of_app, ?list_elem_of_singleton; tauto.
      * rewrite lookup_insert_ne by done. fold (subscribers g tp'). rewrite Hs.
        destruct (decide (q = p)) as [->|Hq]; [rewrite Hp|]; tauto.
  - destruct (L1 p c Hc) as [Hn Ho]. assert (Hl : forall tp, NoDup (listed (subscribe_infos_ g) tp)) by apply L3.
    apply listener_conn; try done; cbn [c_subscribe c_socket].
    + intros tp. by apply listed_unsubscribe_all.
    + intros tp q. rewrite (proj2 (listed_unsubscribe_all p _ _ tp Hl Hn)). fold (subscribers g tp).
      split; [|intros [[? ?]|(_ & ? & _)]; tauto]. intros [Hq Ht]. left. split; [|done]. intros ->.
      apply L2 in Hq as (c0 & E & _ & ?). rewrite Hc in E. injection E as <-. by apply Ht.
  - apply dest_routing in Hm as [(-> & _)|[(_ & _ & -> & _)|(_ & o & _ & W)]]; [done|apply (listener_same g)| |done];
      [done..|].
    rewrite (wr_gate _ _ _ _ _ W). apply (listener_same g); try done. apply evolves_refl.
Qed.

Lemma waiting_grows g g' : pending g' = pending g ->
  (forall p, is_Some (conns g !! p) -> is_Some (conns g' !! p)) -> waiting_known g -> waiting_known g'.
Proof. unfold waiting_known. intros -> H. apply Forall_impl. intros r. apply H. Qed.

Lemma waiting_insert g s p c : waiting_known g -> waiting_known (set_conns (<[p := c]> (conns g)) (set_subscribes s g)).
Proof. apply waiting_grows; [done|]. intros q. cbn. rewrite lookup_insert_is_Some'. tauto. Qed.

Lemma move_waiting D g D' g' ms es : routing_ok g -> waiting_known g -> move D g D' g' ms es -> waiting_known g'.
Proof.
  intros R W. destruct 1 as [ | D g v g' es Hv Hn| | | | | | |D g m g' es Hm| | | ]; try done.
  - by apply emplace_ok in Hn as (rs & -> & _); [|apply routing_remotes|].
  - by apply (waiting_insert _ (subscribe_infos_ g)).
  - by apply (waiting_insert _ (subscribe_infos_ g)).
  - by apply waiting_insert.
  - by apply waiting_insert.
  - apply dest_routing in Hm as [(-> & _)|[(_ & _ & -> & _)|(_ & o & _ & W')]]; [done|done| |done].
    by rewrite (wr_gate _ _ _ _ _ W').
Qed.

(** ** What the subscribers know *)

(** The information on services sent to a socket, and the last one on an id. *)
Definition infos (k : Z) (es : list effect) : list service_info :=
  flat_map (fun e =>
    match e with
    | SubscribeAck k' _ _ l => if k' =? k then l else []
    | SubscribeBrd k' s => if k' =? k then [s] else []
    | _ => []
    end) es.

Definition last_info (k id : Z) (es : list effect) : option service_info :=
  list.last (filter (fun s => s_id s = id) (infos k es)).

Definition unique (g : gate) : Prop :=
  forall o o' v v', objects g !! o = Some v -> objects g !! o' = Some v' -> v_id v = v_id v' -> o = o'.

(** An open connection was told the state of every service it subscribes to,
    those of [D] apart. *)
Definition current (D : gset nat) (g : gate) (out : list effect) : Prop :=
  forall p c o v, o ∉ D -> conns g !! p = Some c -> c_socket c <> 0 -> objects g !! o = Some v ->
    v_tp v ∈ c_subscribe c -> last_info (c_socket c) (v_id v) out = Some (to_proto v).

Lemma infos_app k es es' : infos k (es ++ es') = infos k es ++ infos k es'.
Proof. apply flat_map_app. Qed.

Lemma last_info_silent k id out es : infos k es = [] -> last_info k id (out ++ es) = last_info k id out.
Proof. intros H. unfold last_info. by rewrite infos_app, H, app_nil_r. Qed.

Lemma infos_plain k es : Forall plain es -> infos k es = [].
Proof.
  induction 1 as [|e es He _ IH]; [done|]. destruct e; try done; cbn in *.
  rewrite He. by destruct (socket =? k).
Qed.

Lemma infos_said k es :
  Forall (fun e => match e with SubscribeAck _ _ _ _ | SubscribeBrd _ _ => False | _ => True end) es -> infos k es = [].
Proof. induction 1 as [|e es He _ IH]; [done|]. by destruct e. Qed.

(** Messages that say of [v] what it is leave or make the last one right. *)
Lemma last_info_true k v out es :
  (forall s, s ∈ infos k es -> s_id s = v_id v -> s = to_proto v) ->
  last_info k (v_id v) out = Some (to_proto v) \/ to_proto v ∈ infos k es ->
  last_info k (v_id v) (out ++ es) = Some (to_proto v).
Proof.
  intros Ht Ho. unfold last_info in *. rewrite infos_app, list.filter_app.
  destruct (filter (fun s => s_id s = v_id v) (infos k es)) as [|s l _] eqn:E using rev_ind.
  - rewrite app_nil_r. destruct Ho as [?|Ho]; [done|]. exfalso.
    assert (Hi : to_proto v ∈ filter (fun s => s_id s = v_id v) (infos k es)) by (apply list.list_elem_of_filter; done).
    rewrite E in Hi. by apply not_elem_of_nil in Hi.
  - rewrite (assoc_L (++)), last_snoc. f_equal.
    assert (Hi : s ∈ filter (fun s => s_id s = v_id v) (infos k es)) by (rewrite E; apply list.elem_of_app; right; by left).
    apply list.list_elem_of_filter in Hi as [? ?]. by apply Ht.
Qed.

Lemma unique_evolves g g' : evolves (objects g) (objects g') -> unique g' -> unique g.
Proof.
  intros He Hu o o' v v' Hv Hv' E. destruct (He o v Hv) as (w & Hw & Hf). destruct (He o' v' Hv') as (w' & Hw' & Hf').
  apply (Hu o o' w w' Hw Hw'). by rewrite (fixed_id _ _ Hf), (fixed_id _ _ Hf').
Qed.

Lemma current_said D g g' out es : conns g' = conns g -> objects g' = objects g -> (forall k, infos k es = []) ->
  current D g out -> current D g' (out ++ es).
Proof.
  intros Hc Ho Hi H p c o v. rewrite Hc, Ho, last_info_silent by done. apply H.
Qed.

Lemma infos_update g o k s : s ∈ infos k (update g o) <-> exists v, objects g !! o = Some v /\ s = to_proto v /\
  exists p c, p ∈ subscribers g (v_tp v) /\ conns g !! p = Some c /\ c_socket c = k.
Proof.
  unfold update. destruct (objects g !! o) as [v|] eqn:Ev.
  2: { split; [intros H; by apply not_elem_of_nil in H|intros (v & ? & _); congruence]. }
  rewrite infos_app. assert (Hm : infos k (update_master g v) = []).
  { unfold update_master. by repeat case_match. }
  rewrite Hm. cbn [app]. unfold update_subscribers, subscribers.
  destruct (subscribe_infos_ g !! v_tp v) as [l|] eqn:El; cbn [from_option].
  - rewrite list_elem_of_In. unfold infos. rewrite in_flat_map. split.
    + intros (e & He & Hs). apply list_elem_of_In, list_elem_of_omap in He as (p & Hp & He).
      destruct (conns g !! p) as [c|] eqn:Ec; [|done]. injection He as <-.
      destruct (Z.eqb_spec (c_socket c) k); [|done]. destruct Hs as [<-|[]]. exists v. split; [done|]. split; [done|].
      exists p, c. by rewrite El.
    + intros (v' & [= <-] & -> & p & c & Hp & Hc & Hk). rewrite El in Hp. exists (SubscribeBrd (c_socket c) (to_proto v)). split.
      * apply list_elem_of_In, list_elem_of_omap. exists p. by rewrite Hc.
      * rewrite (proj2 (Z.eqb_eq _ _) Hk). by left.
  - split; [intros H; by apply not_elem_of_nil in H|].
    intros (v' & [= <-] & _ & p & c & Hp & _). rewrite El in Hp. by apply not_elem_of_nil in Hp.
Qed.

(** The last message on the service that changed goes to every subscriber. *)
Lemma current_update D g o out : unique g -> listener_ok g -> current D g out -> current (D ∖ {[o]}) g (out ++ update g o).
Proof.
  intros Hu L H p c x v Hx Hc Hk Hv Ht. apply last_info_true.
  - intros s (w & Hw & -> & _)%infos_update E. cbn in E. rewrite (Hu _ _ _ _ Hw Hv E) in Hw. congruence.
  - destruct (decide (x = o)) as [->|Hne].
    + right. apply infos_update. exists v. split; [done|]. split; [done|]. exists p, c. split; [|done].
      apply (go_sub g L). by exists c.
    + left. apply (H p c x v); try done. set_solver.
Qed.

Lemma move_current D g D' g' ms es out : routing_ok g -> listener_ok g -> unique g' ->
  current D g out -> move D g D' g' ms es -> current D' g' (out ++ es).
Proof.
  intros R L Hu H Hm. 
  destruct Hm as [D g es Hp| D g v g' es Hv Hn|D g o f Hf| |D g p c c' Hc Ek Es Ho|D g p k now Hp Hk|D g p c session tp l s Hc Hk El Es|D g p c Hc|D g m g' es Hm|D g id r sent k _ _| | ];
    try (apply (current_said D g); [done..| |exact H]; intros k').
  - by apply infos_plain.
  - apply emplace_ok in Hn as (rs & -> & W); [|by apply routing_remotes|done].
    intros p c o w Ho Hc Hk Hw Ht. rewrite last_info_silent by (eapply infos_said, wr_says; exact W).
    cbn in Hc, Hw. apply lookup_snoc_Some in Hw as [[_ Hw]|[-> _]]; [|set_solver].
    apply (H p c o w); try done. set_solver.
  - intros p c x v Hx Hc Hk Hv. rewrite app_nil_r. cbn in Hc, Hv.
    rewrite list_lookup_alter_ne in Hv by set_solver. apply (H p c x v); try done. set_solver.
  - by apply current_update.
  - intros q c0 x v Hx. rewrite app_nil_r. cbn. intros [(<- & <-)|(Hne & Hq)]%lookup_insert_Some; [|by apply (H q)].
    rewrite Ek, Es. by apply (H p).
  - intros q c0 x v Hx. rewrite app_nil_r. cbn. intros [(<- & <-)|(Hne & Hq)]%lookup_insert_Some; [|by apply (H q)].
    intros _ _ Ht. by apply not_elem_of_nil in Ht.
  - assert (Hi : forall k s, s ∈ infos k [SubscribeAck (c_socket c) session ec_success (omap (fun o => to_proto <$> objects g !! o) (of_type g tp))] <->
      c_socket c = k /\ exists o v, o ∈ of_type g tp /\ objects g !! o = Some v /\ s = to_proto v).
    { intros k y. cbn. rewrite app_nil_r. destruct (Z.eqb_spec (c_socket c) k).
      - rewrite list_elem_of_omap. split.
        + intros (o & Hin & Ho). destruct (objects g !! o) as [v|] eqn:E; [|done]. injection Ho as <-.
          split; [done|]. by exists o, v.
        + intros (_ & o & v & Hin & Ho & ->). exists o. by rewrite Ho.
      - split; [intros Hy; by apply not_elem_of_nil in Hy|tauto]. }
    intros q c0 x v Hx Hq Hk0 Hv Ht. cbn in Hv. apply last_info_true.
    + intros y (_ & o & w & _ & Hw & ->)%Hi E. cbn in E. rewrite (Hu o x w v Hw Hv E) in Hw. congruence.
    + cbn in Hq. apply lookup_insert_Some in Hq as [(<- & <-)|(Hne & Hq)]; [|left; by apply (H q c0 x v)].
      cbn in Ht |- *. destruct (decide (v_tp v = tp)) as [Etp|Etp].
      * right. apply Hi. split; [done|]. exists x, v. split; [|done]. apply (go_types g R). by exists v.
      * left. apply (H p c x v); try done. rewrite Es in Ht.
        destruct (bool_decide_reflect (tp ∈ c_subscribe c)); [done|].
        apply list.elem_of_app in Ht as [?|?%list_elem_of_singleton]; done.
  - intros q c0 x v Hx. rewrite app_nil_r. cbn. intros [(<- & <-)|(Hne & Hq)]%lookup_insert_Some; [done|by apply (H q)].
  - apply dest_routing in Hm as [(-> & -> & _)|[(_ & _ & -> & ->)|(_ & o & _ & W)]];
      [by apply (current_said D g)..| |done].
    apply (current_said D g); try done; try (by rewrite (wr_gate _ _ _ _ _ W)). intros k. by eapply infos_said, wr_says.
  - clear. induction sent; [done|exact IHsent].
  - done.
  - done.
Qed.

(** What was said of a service is about one that is there. *)
Definition announced (g : gate) (out : list effect) : Prop :=
  forall k s, s ∈ infos k out -> exists o v, objects g !! o = Some v /\ v_id v = s_id s /\ v_tp v = s_tp s.

Lemma announced_evolves g g' out : evolves (objects g) (objects g') -> announced g out -> announced g' out.
Proof.
  intros He H k s (o & v & Hv & <- & <-)%H. destruct (He o v Hv) as (v' & Hv' & Hf). exists o, v'.
  by rewrite (fixed_id _ _ Hf), (fixed_tp _ _ Hf).
Qed.

Lemma announced_app g out es : announced g out -> announced g es -> announced g (out ++ es).
Proof. intros H1 H2 k s. rewrite infos_app, list.elem_of_app. intros [?|?]; eauto. Qed.

Lemma announced_none g es : (forall k, infos k es = []) -> announced g es.
Proof. intros H k s. rewrite H. intros Hs. by apply not_elem_of_nil in Hs. Qed.

Lemma subscribe_ack_infos g k socket session ec tp s :
  s ∈ infos k [SubscribeAck socket session ec (omap (fun o => to_proto <$> objects g !! o) (of_type g tp))] ->
  exists o v, objects g !! o = Some v /\ s = to_proto v.
Proof.
  cbn. rewrite app_nil_r. destruct (socket =? k); [|intros H; by apply not_elem_of_nil in H].
  rewrite list_elem_of_omap. intros (o & _ & Ho). destruct (objects g !! o) as [v|] eqn:E; [|done].
  injection Ho as <-. by exists o, v.
Qed.

Lemma move_announced D g D' g' ms es out : routing_ok g -> announced g out -> move D g D' g' ms es -> announced g' (out ++ es).
Proof.
  intros R H Hm. apply announced_app; [apply (announced_evolves g); [by eapply move_evolves|done]|].
  destruct Hm as [D g es Hp| D g v g' es Hv Hn| |D g o| | | | |D g m g' es Hm|D g id r sent k _ _| | ];
    try (by apply announced_none).
  - apply announced_none. intros k. by apply infos_plain.
  - apply emplace_ok in Hn as (rs & -> & W); [|by apply routing_remotes|done].
    apply announced_none. intros k. eapply infos_said, wr_says. exact W.
  - intros k s (v & Hv & -> & _)%infos_update. by exists o, v.
  - intros k' s' (o & v & Hv & ->)%subscribe_ack_infos. by exists o, v.
  - apply dest_routing in Hm as [(-> & -> & _)|[(_ & _ & -> & ->)|(_ & o & _ & W)]]; [by apply announced_none..| |done].
    apply announced_none. intros k. eapply infos_said, wr_says. exact W.
  - apply announced_none. intros k'. clear. induction sent; [done|exact IHsent].
Qed.

(** ** Every event is a sequence of moves *)

Record gate_ok (id : Z) (D : gset nat) (g : gate) (ms : list bytes) (out : list effect) : Prop := {
  gk_routing : routing_ok g;
  gk_listener : listener_ok g;
  gk_waiting : waiting_known g;
  gk_routed : routed g ms out;
  gk_relays : relays (gate_new id) g out;
  gk_announced : announced g out;
  gk_current : unique g -> current D g out }.

Lemma gate_move_ok id D g D' g' ms ms' out es :
  gate_ok id D g ms out -> move D g D' g' ms' es -> gate_ok id D' g' (ms ++ ms') (out ++ es).
Proof.
  intros [R L W F T A C] Hm. pose proof (move_evolves _ _ _ _ _ _ R Hm) as He. split.
  - by eapply move_routing.
  - by eapply move_listener.
  - by eapply move_waiting.
  - by eapply move_routed.
  - eapply relays_trans; [done..|]. by eapply move_relays.
  - by eapply move_announced.
  - intros Hu. eapply move_current; try done. apply C. by eapply unique_evolves.
Qed.

Lemma gate_moves_ok id D g D' g' ms' es : moves D g D' g' ms' es ->
  forall ms out, gate_ok id D g ms out -> gate_ok id D' g' (ms ++ ms') (out ++ es).
Proof.
  induction 1 as [|? ? ? ? ? ? ? ? ? ? Hm _ IH]; intros ms0 out H; [by rewrite !app_nil_r|].
  rewrite !(assoc_L (++)). apply IH. by eapply gate_move_ok.
Qed.

Lemma move_remotes D g D' g' ms es id : routing_ok g -> move D g D' g' ms es ->
  is_Some (remote_gates_ g !! id) -> is_Some (remote_gates_ g' !! id).
Proof.
  intros R. destruct 1 as [ | D g v g' es Hv He| | | | | | |D g m g' es Hm| | | ]; try done.
  - apply emplace_ok in He as (rs & -> & W); [apply W|by apply routing_remotes|done].
  - apply dest_routing in Hm as [(-> & _)|[(_ & _ & -> & _)|(_ & o & _ & W)]]; [done|done|apply W|done].
  - cbn. rewrite lookup_insert_is_Some'. tauto.
Qed.

Lemma announce D g o f : D ⊆ {[o]} -> (forall v, objects g !! o = Some v -> fixed (f v) = fixed v) ->
  let g' := set_objects (alter f o (objects g)) g in moves D g ∅ g' [] (update g' o).
Proof.
  intros HD Hf g'. apply (mvs_cons _ _ ({[o]} ∪ D) g' _ _ [] [] [] _); [by apply mv_object|].
  apply moves_one. replace (∅ : gset nat) with (({[o]} ∪ D) ∖ {[o]}) by set_solver. apply mv_update.
Qed.

Lemma fixed_online b v : fixed (set_online b v) = fixed v.
Proof. done. Qed.

Lemma fixed_link k b v : is_local v = true -> fixed (set_link k b v) = fixed v.
Proof. unfold is_local, fixed. cbn. by destruct (v_kind v). Qed.

Lemma add_remote_service_moves g remote info g' es :
  routing_ok g -> is_Some (remote_gates_ g !! remote) ->
  add_remote_service g remote info = (g', es) -> moves ∅ g ∅ g' [] es.
Proof.
  intros R Hr. unfold add_remote_service, find_service. destruct (services_ g !! u16 (s_id info)) as [o|] eqn:E.
  - intros [= <- <-]. by apply announce.
  - destruct (emplace_service _ _) as [g1 es1] eqn:E1. intros [= <- <-].
    apply (mvs_cons _ _ {[length (objects g)]} g1 _ _ [] [] _ _).
    + rewrite <-(right_id_L ∅ (∪) {[_]}). eapply mv_new; [|exact E1]. repeat split; try apply u16_range; exact Hr.
    + by apply announce.
Qed.

Lemma add_remote_services_moves remote infos : forall g g' es,
  routing_ok g -> is_Some (remote_gates_ g !! remote) ->
  add_remote_services g remote infos = (g', es) -> moves ∅ g ∅ g' [] es.
Proof.
  induction infos as [|info infos IH]; intros g g' es R Hr; cbn [add_remote_services]; [intros [= <- <-]; constructor|].
  destruct (add_remote_service g remote info) as [g1 es1] eqn:E1.
  destruct (add_remote_services g1 remote infos) as [g2 es2] eqn:E2. intros [= <- <-].
  pose proof (add_remote_service_moves _ _ _ _ _ R Hr E1) as M1.
  apply (moves_trans _ _ _ _ _ _ [] [] _ _ M1), IH; [|
    |done].
  - clear - R M1. by induction M1; eauto using move_routing.
  - clear - R Hr M1. induction M1; eauto using move_routing, move_remotes.
Qed.

Lemma moves_routing D g D' g' ms es : moves D g D' g' ms es -> routing_ok g -> routing_ok g'.
Proof. induction 1; eauto using move_routing. Qed.

Lemma moves_listener D g D' g' ms es : moves D g D' g' ms es -> routing_ok g -> listener_ok g -> listener_ok g'.
Proof. induction 1; eauto using move_routing, move_listener. Qed.

Lemma add_remote_gate_moves g info g' es : routing_ok g -> add_remote_gate g info = (g', es) -> moves ∅ g ∅ g' [] es.
Proof.
  intros R. unfold add_remote_gate. set (id := u16 (gi_id info)). set (ad := address_of <$> gi_addresses info).
  assert (Hx : exists r es0,
    match remote_gates_ g !! id with
    | Some r => (RemoteGate ad (rg_socket r) (rg_queue r), [])
    | None => (RemoteGate ad 0 [], [StartRemote id]) end = (r, es0) /\
    remote_ok r /\ rqueue g id = [] ++ rg_queue r /\ Forall plain es0).
  { unfold rqueue. destruct (remote_gates_ g !! id) as [r|] eqn:E.
    - eexists _, _. split; [done|]. pose proof (go_remote g R _ _ E). repeat split; try tauto. constructor.
    - eexists _, _. repeat split; repeat constructor; cbn; lia. }
  destruct Hx as (r & es0 & -> & Hr & Hq & Hp).
  destruct (add_remote_services _ id (gi_services info)) as [g1 es1] eqn:E1. intros [= <- <-].
  assert (M : move ∅ g ∅ (set_remotes (<[id := r]> (remote_gates_ g)) g) [] (NetWrite id 0 <$> [])) by by apply mv_remote.
  apply (mvs_cons _ _ ∅ g _ _ [] [] es0 es1); [by apply mv_say|].
  apply (mvs_cons _ _ ∅ _ _ _ [] [] [] es1 M).
  eapply add_remote_services_moves; [by eapply move_routing| |done]. cbn. by rewrite lookup_insert_eq.
Qed.

Lemma add_remote_gates_moves infos : forall g g' es,
  routing_ok g -> add_remote_gates g infos = (g', es) -> moves ∅ g ∅ g' [] es.
Proof.
  induction infos as [|info infos IH]; intros g g' es R; cbn [add_remote_gates]; [intros [= <- <-]; constructor|].
  destruct (add_remote_gate g info) as [g1 es1] eqn:E1.
  destruct (add_remote_gates g1 infos) as [g2 es2] eqn:E2. intros [= <- <-].
  pose proof (add_remote_gate_moves _ _ _ _ R E1) as M1.
  apply (moves_trans _ _ _ _ _ _ [] [] _ _ M1), IH; [by eapply moves_routing|done].
Qed.

Lemma remote_connected_moves g r k g' es : 0 < k -> remote_connected g r k = (g', es) -> moves ∅ g ∅ g' [] es.
Proof.
  intros Hk. unfold remote_connected. destruct (remote_gates_ g !! r) as [x|] eqn:E; intros [= <- <-]; [|constructor].
  apply moves_one, mv_remote; [split; cbn; [lia|done]|]. rewrite (rqueue_lookup _ _ _ E). by rewrite app_nil_r.
Qed.

Lemma remote_lost_moves g r : moves ∅ g ∅ (remote_lost g r) [] [].
Proof.
  unfold remote_lost. destruct (remote_gates_ g !! r) as [x|] eqn:E.
  - assert (Ha : alter (fun r => RemoteGate (rg_addresses r) 0 (rg_queue r)) r (remote_gates_ g) =
      <[r := RemoteGate (rg_addresses x) 0 (rg_queue x)]> (remote_gates_ g)).
    { apply map_eq. intros i. rewrite lookup_alter. case_decide; [subst; by rewrite E, lookup_insert_eq|by rewrite lookup_insert_ne]. }
    rewrite Ha. apply moves_one.
    apply (mv_remote ∅ g r (RemoteGate (rg_addresses x) 0 (rg_queue x)) [] 0); [split; cbn; [done|lia]|].
    by rewrite (rqueue_lookup _ _ _ E).
  - replace (set_remotes _ g) with g; [constructor|]. rewrite <-(gate_eta_remotes g) at 1. f_equal.
    apply map_eq. intros i. rewrite lookup_alter. case_decide; [subst; by rewrite E|done].
Qed.

Lemma alter_as_insert (l : list service) o f v : l !! o = Some v -> alter f o l = <[o := f v]> l.
Proof.
  intros Hv. apply list_eq. intros i. destruct (decide (o = i)) as [<-|Hne].
  - rewrite list_lookup_alter_eq, Hv, list_lookup_insert_eq by by apply lookup_lt_Some in Hv. done.
  - by rewrite list_lookup_alter_ne, list_lookup_insert_ne.
Qed.

Lemma socket_end_moves g p g' es : listener_ok g -> socket_end g p = (g', es) -> moves ∅ g ∅ g' [] es.
Proof.
  intros L. unfold socket_end. destruct (conns g !! p) as [c|] eqn:Ec; [|intros [= <- <-]; constructor].
  destruct (c_service c) as [o|] eqn:Eo.
  2: { intros [= <- <-]. by apply moves_one, mv_end. }
  destruct (proj2 (go_conn g L p c Ec) o Eo) as (v & Hv & Hl). rewrite Hv.
  destruct (local_socket v =? c_socket c); intros [= <- <-].
  2: { by apply moves_one, mv_end. }
  rewrite <-(alter_as_insert _ _ _ _ Hv), <-(app_nil_r (update _ _)).
  apply (moves_trans _ _ ∅ (set_objects (alter (set_link 0 false) o (objects g)) g) _ _ [] []).
  - apply announce; [done|]. intros w Hw. apply fixed_link. congruence.
  - apply moves_one. by apply (mv_end _ (set_objects _ g)).
Qed.

Lemma say_then D g D' g' es es' : Forall plain es -> moves D g D' g' [] es' -> moves D g D' g' [] (es ++ es').
Proof. intros H. apply (mvs_cons _ _ _ _ _ _ [] []). by apply mv_say. Qed.

Lemma then_say D g D' g' ms es es' : moves D g D' g' ms es -> Forall plain es' -> moves D g D' g' ms (es ++ es').
Proof. intros H Hp. rewrite <-(app_nil_r ms). eapply moves_trans; [done|]. by apply moves_one, mv_say. Qed.

Lemma just_say D g es : Forall plain es -> moves D g D g [] es.
Proof. intros H. by apply moves_one, mv_say. Qed.

Lemma close_moves g p g' es : listener_ok g -> close g p = (g', es) -> moves ∅ g ∅ g' [] es.
Proof.
  intros L. unfold close. destruct (conns g !! p) as [c|]; [|intros [= <- <-]; constructor].
  destruct (socket_end g p) as [g1 es1] eqn:E. intros [= <- <-].
  apply (say_then _ _ _ _ [_]); [by repeat constructor|]. by eapply socket_end_moves.
Qed.

Lemma service_subscribe_moves g p c session tp g' es : conns g !! p = Some c -> c_socket c <> 0 ->
  service_subscribe g p session tp = (g', es) -> moves ∅ g ∅ g' [] es.
Proof.
  intros Hc Hk. unfold service_subscribe. rewrite Hc. case_match; intros [= <- <-].
  - apply just_say. by repeat constructor.
  - apply moves_one. by apply (mv_subscribe _ g p c session (u16 tp)).
Qed.

Lemma register_finish_moves D g p session o g' es : D ⊆ {[o]} ->
  (exists v, objects g !! o = Some v /\ is_local v = true) -> is_Some (conns g !! p) ->
  register_finish g p session o = (g', es) -> moves D g ∅ g' [] es.
Proof.
  intros HD (v & Hv & Hl) [c Hc]. unfold register_finish. rewrite Hc. intros [= <- <-].
  apply then_say; [|by repeat constructor].
  set (g1 := set_conns _ g). apply (mvs_cons _ _ D g1 _ _ [] [] [] _).
  - apply (mv_conn _ _ _ c); try done. intros x [= <-]. by exists v.
  - apply (announce D g1 o (set_link (c_socket c) true)); [done|]. intros w Hw.
    change (objects g !! o = Some w) in Hw. apply fixed_link. congruence.
Qed.

Lemma service_register_moves g p session rq g' es :
  waiting_known g -> service_register g p session rq = (g', es) -> moves ∅ g ∅ g' [] es.
Proof.
  intros W. unfold service_register, find_service. destruct (conns g !! p) as [c|] eqn:Ec; [|intros [= <- <-]; constructor].
  destruct (c_socket c =? 0); [intros [= <- <-]; constructor|].
  destruct (u16 (s_id (rq_info rq)) =? 0); [intros [= <- <-]; apply just_say; by repeat constructor|].
  destruct (c_service c) as [o|].
  { destruct (objects g !! o); intros [= <- <-]; [apply just_say; by repeat constructor|constructor]. }
  destruct (services_ g !! u16 (s_id (rq_info rq))) as [o|].
  - destruct (objects g !! o) as [v|] eqn:Ev; [|intros [= <- <-]; constructor].
    destruct (is_local v) eqn:El; [|intros [= <- <-]; apply just_say; by repeat constructor].
    intros E. apply (register_finish_moves ∅ g p session o); [set_solver|by exists v|done|exact E].
  - destruct (master_socket g =? 0); intros [= <- <-]; [apply just_say; by repeat constructor|].
    apply (mvs_cons _ _ ∅ (set_pending (pending g ++ [(p, session, rq)]) g) _ _ [] [] [] _); [apply mv_pending|].
    { apply Forall_app_2; [done|]. constructor; [by exists c|constructor]. }
    apply just_say. by repeat constructor.
Qed.

Lemma register_resumed_moves g k answer g' es :
  waiting_known g -> routing_ok g -> register_resumed g k answer = (g', es) -> moves ∅ g ∅ g' [] es.
Proof.
  intros Hw R. unfold register_resumed. destruct (pending g !! k) as [[[p session] rq]|] eqn:Ek; [|intros [= <- <-]; constructor].
  assert (Hp : is_Some (conns g !! p)) by exact (Forall_lookup_1 _ _ _ _ Hw Ek).
  assert (M : move ∅ g ∅ (set_pending (delete k (pending g)) g) [] []) by by apply mv_pending, Forall_delete.
  set (g1 := set_pending (delete k (pending g)) g) in *.
  assert (Hsay : forall ec es', (match conns g1 !! p with Some c => [RegisterAck (c_socket c) session ec] | None => [] end) = es' ->
    moves ∅ g ∅ g1 [] es').
  { intros ec es' <-. apply (mvs_cons _ _ ∅ g1 _ _ [] [] [] _); [done|]. apply just_say. destruct (conns g1 !! p); by repeat constructor. }
  destruct answer as [ec|]; [|intros [= <- <-]; by eapply Hsay].
  destruct (ec =? ec_success); cbn [negb]; [|intros [= <- <-]; by eapply Hsay].
  destruct (add_local_service g1 rq) as [g2 es2] eqn:E2. destruct (register_finish g2 p session _) as [g3 es3] eqn:E3.
  intros [= <- <-]. apply (mvs_cons _ _ ∅ g1 _ _ [] [] [] _); [done|].
  set (v := Service (u16 (s_id (rq_info rq))) (u16 (s_tp (rq_info rq))) (own_id g1) false (Local 0)) in *.
  assert (Hv : gate_entry_ok g1 v) by (repeat split; apply u16_range).
  pose proof (mv_new ∅ g1 v g2 es2 Hv E2) as N. rewrite (right_id_L ∅ (∪)) in N. apply (mvs_cons _ _ _ _ _ _ [] [] es2 es3 N).
  assert (Hg2 : objects g2 !! length (objects g1) = Some v /\ conns g2 = conns g1).
  { apply emplace_ok in E2 as (rs & -> & _); [split; [apply lookup_new|done]| |done].
    apply routing_remotes. by eapply move_routing. }
  destruct Hg2 as [Hvo Hc]. eapply register_finish_moves; [|by exists v| |exact E3]; [done|by rewrite Hc].
Qed.

(** Sockets are not zero: [accept] and [tcp_connect] return ids that are positive. *)
Definition event_ok (e : event) : Prop :=
  match e with EvAccept _ k _ => k <> 0 | EvRemote _ k => 0 < k | _ => True end.

Definition forwards (e : event) : list bytes := match e with EvForward m => [m] | _ => [] end.

Lemma step_moves g e g' es : event_ok e -> waiting_known g -> routing_ok g -> listener_ok g ->
  step g e = (g', es) -> moves ∅ g ∅ g' (forwards e) es.
Proof.
  intros He W R L. destruct e as [p k now|p now session m|p|p now|k answer|m|k| |infos|r k|r]; cbn [step forwards].
  - destruct (conns g !! p) eqn:E; intros [= <- <-]; [constructor|]. by apply moves_one, mv_accept.
  - destruct (conns g !! p) as [c|] eqn:Ec; [|intros [= <- <-]; constructor].
    destruct (Z.eqb_spec (c_socket c) 0) as [|Hk]; [intros [= <- <-]; constructor|].
    set (c' := Conn (c_socket c) now (c_service c) (c_subscribe c)). set (g1 := set_conns (<[p := c']> (conns g)) g).
    assert (M : move ∅ g ∅ g1 [] []) by (apply (mv_conn _ _ _ c); try done; by apply (go_conn g L p c Ec)).
    assert (L1 : listener_ok g1) by by eapply move_listener.
    assert (W1 : waiting_known g1) by by eapply move_waiting.
    assert (Hc1 : conns g1 !! p = Some c') by apply lookup_insert_eq.
    intros E. apply (mvs_cons _ _ ∅ g1 _ _ [] [] [] _ M). revert E.
    destruct m as [[rq|]|[tp|]|[]|]; cbn [forward_message].
    + by apply service_register_moves.
    + by apply close_moves.
    + by apply (service_subscribe_moves g1 p c').
    + by apply close_moves.
    + intros [= <- <-]. apply just_say. case_match; by repeat constructor.
    + intros [= <- <-]. constructor.
    + intros [= <- <-]. constructor.
  - by apply socket_end_moves.
  - destruct (conns g !! p) as [c|]; [|intros [= <- <-]; constructor].
    destruct (_ && _); [by apply close_moves|intros [= <- <-]; constructor].
  - by apply register_resumed_moves.
  - intros E. by apply moves_one, mv_forward.
  - intros [= <- <-]. apply (mvs_cons _ _ ∅ (set_master k g) _ _ [] [] [] _); [apply mv_master|].
    apply just_say. by repeat constructor.
  - intros [= <- <-]. apply moves_one, mv_master.
  - by apply add_remote_gates_moves.
  - by apply remote_connected_moves.
  - intros [= <- <-]. apply remote_lost_moves.
Qed.

(** * Runs *)

Lemma gate_new_ok id : gate_ok id ∅ (gate_new id) [] [].
Proof.
  split.
  - split; try done.
    + intros tp o. split; [intros H; by apply not_elem_of_nil in H|by intros (v & ? & _)].
    + intros tp. constructor.
  - split; try done.
    + intros tp p. split; [intros H; by apply not_elem_of_nil in H|by intros (c & ? & _)].
    + intros tp. constructor.
  - constructor.
  - split; done.
  - by apply relays_silent.
  - by apply announced_none.
  - intros _ p c o v _ Hc. done.
Qed.

Lemma run_from id evs : forall g ms out g' es, Forall event_ok evs -> gate_ok id ∅ g ms out ->
  run g evs = (g', es) -> gate_ok id ∅ g' (ms ++ flat_map forwards evs) (out ++ es).
Proof.
  induction evs as [|e evs IH]; intros g ms out g' es He H; cbn [run flat_map].
  - intros [= <- <-]. by rewrite !app_nil_r.
  - apply list.Forall_cons in He as [He1 He2]. destruct (step g e) as [g1 es1] eqn:E1.
    destruct (run g1 evs) as [g2 es2] eqn:E2. intros [= <- <-]. rewrite !(assoc_L (++)).
    eapply IH; [done| |done]. eapply gate_moves_ok; [|done]. eapply step_moves; try done; apply H.
Qed.

Lemma gate_run_ok id evs g out : Forall event_ok evs -> run (gate_new id) evs = (g, out) ->
  gate_ok id ∅ g (flat_map forwards evs) out.
Proof. intros He Hr. exact (run_from id evs _ [] [] g out He (gate_new_ok id) Hr). Qed.

(** * Properties *)

(** A small history: a service registers while a message for it is waiting and
    subscribes to its own type; another gate brings a service of that type, a
    message for it waits for the connection. *)
Definition demo_message (to : Z) : bytes := [1; 0; to; 0; 0; 0; 0; 0; 0; 0; 0; 0; 0; 0; 0; 0; 42].

Definition demo_register : event := EvMessage 0 10 7 (ReqRegister (Some (RegisterReq (ServiceInfo 3 2 true) 64))).

Definition demo_events : list event :=
  [EvAccept 0 5 0; EvMaster 9; demo_register; EvForward (demo_message 3); EvAnswer 0 (Some ec_success);
   EvMessage 0 20 8 (ReqSubscribe (Some 2));
   EvGates [GateInfo 4 [([49], [50])] [ServiceInfo 6 2 true]]; EvForward (demo_message 6); EvForward (demo_message 3);
   EvRemote 4 11; EvForward (demo_message 6); EvForward (demo_message 8)].

Definition demo_run : outcome := run (gate_new 1) demo_events.

Lemma demo_events_ok : Forall event_ok demo_events.
Proof. repeat constructor; cbn; lia. Qed.

(** C17: whatever the order of registrations, broadcasts, connections and
    messages, the messages forwarded to an id are handed to the service object
    that has the id, each once and in order, those that came before the service
    first; while there is none they wait, in order; an object that no id names
    is handed nothing. *)
Theorem gate_routes id evs g out : Forall event_ok evs -> run (gate_new id) evs = (g, out) ->
  (forall d o, find_service g d = Some o ->
     (exists v, objects g !! o = Some v /\ v_id v = d) /\ written o out = to_dest d (flat_map forwards evs)) /\
  (forall d, find_service g d = None -> queue g d = to_dest d (flat_map forwards evs)) /\
  (forall o, (forall d, find_service g d <> Some o) -> written o out = []).
Proof.
  intros He Hr. destruct (gate_run_ok id evs g out He Hr) as [R _ _ [F1 F2 F3] _ _ _]. split; [|done].
  intros d o Ho. split; [by apply (go_service g R)|by apply F1].
Qed.

Lemma gate_routes_witness :
  written 0 (demo_run.2) = [demo_message 3; demo_message 3] /\
  written 0 (demo_run.2) = to_dest 3 (flat_map forwards demo_events).
Proof.
  split; [by vm_compute|].
  refine (proj2 (proj1 (gate_routes 1 demo_events demo_run.1 demo_run.2 demo_events_ok (surjective_pairing demo_run)) 3 0%nat _)).
  by vm_compute.
Defined.

(** The frames sent to another gate, followed by those that wait for its
    connection, are the frames of the messages handed to the services of that
    gate, in order, through every loss and renewal of the connection. *)
Theorem gate_relays id evs g out r : Forall event_ok evs -> run (gate_new id) evs = (g, out) ->
  sent_to r out ++ rqueue g r = handed (objects g) r out.
Proof.
  intros He Hr. destruct (gate_run_ok id evs g out He Hr) as [_ _ _ _ [_ F] _ _]. by rewrite <-F.
Qed.

Lemma gate_relays_witness :
  sent_to 4 (demo_run.2) = [gate_frame (demo_message 6); gate_frame (demo_message 6)] /\
  sent_to 4 (demo_run.2) ++ rqueue demo_run.1 4 = handed (objects demo_run.1) 4 demo_run.2.
Proof.
  split; [by vm_compute|].
  exact (gate_relays 1 demo_events demo_run.1 demo_run.2 4 demo_events_ok (surjective_pairing demo_run)).
Defined.

(** C18: a connection that is open and subscribed to a type knows the state of
    every service of the type, of this machine or another: the last information
    it was sent on the service is what the gate has now. Services with the same
    id cannot be told apart, so ids are assumed distinct. *)
Theorem subscribers_current id evs g out p c o v :
  Forall event_ok evs -> run (gate_new id) evs = (g, out) -> unique g ->
  conns g !! p = Some c -> c_socket c <> 0 -> objects g !! o = Some v -> v_tp v ∈ c_subscribe c ->
  last_info (c_socket c) (v_id v) out = Some (to_proto v).
Proof.
  intros He Hr Hu Hc Hk Hv Ht. destruct (gate_run_ok id evs g out He Hr) as [_ _ _ _ _ _ C].
  apply (C Hu p c o v); done.
Qed.

Lemma subscribers_current_witness :
  last_info 5 6 demo_run.2 = Some (ServiceInfo 6 2 true).
Proof.
  apply (subscribers_current 1 demo_events demo_run.1 demo_run.2 0 (Conn 5 20 (Some 0%nat) [2]) 1
    (Service 6 2 4 true (Remote 4)) demo_events_ok (surjective_pairing demo_run)).
  - assert (E : objects demo_run.1 = [Service 3 2 1 true (Local 5); Service 6 2 4 true (Remote 4)]) by (vm_compute; reflexivity).
    unfold unique. rewrite E. clear E. intros o o' v v' Hv Hv' Ei.
    destruct o as [|[|o]], o' as [|[|o']]; cbn in Hv, Hv'; simplify_eq; done.
  - by vm_compute.
  - done.
  - by vm_compute.
  - by left.
Defined.

(** A registration that waits for the gate master and whose connection ends
    in the meantime still completes when the master agrees: a service object is
    created that is online and has no connection. *)
Theorem late_registration_online g k p session rq c g' es :
  routing_ok g -> pending g !! k = Some (p, session, rq) -> conns g !! p = Some c -> c_socket c = 0 ->
  register_resumed g k (Some ec_success) = (g', es) ->
  exists v, objects g' !! length (objects g) = Some v /\ v_online v = true /\ local_socket v = 0.
Proof.
  intros R Hp Hc Hk. unfold register_resumed. rewrite Hp. cbn [negb Z.eqb ec_success].
  set (g1 := set_pending (delete k (pending g)) g).
  assert (R1 : routing_ok g1) by (eapply routing_quiet; [apply (quiet_same g)|]; done).
  destruct (add_local_service g1 rq) as [g2 es2] eqn:E2.
  apply emplace_ok in E2 as (rs & -> & _); [|by apply routing_remotes|repeat split; apply u16_range].
  unfold register_finish. cbn [conns set_queues set_remotes emplaced g1 set_pending]. rewrite Hc.
  intros [= <- _]. eexists. cbn. rewrite list_lookup_alter_eq, lookup_new. cbn. by rewrite Hk.
Qed.

Definition late_events : list event := [EvAccept 0 5 0; EvMaster 9; demo_register; EvClosed 0].

Lemma late_events_ok : Forall event_ok late_events.
Proof. repeat constructor; cbn; lia. Qed.

Lemma late_registration_online_witness :
  exists v, objects (register_resumed (run (gate_new 1) late_events).1 0 (Some ec_success)).1 !! 0%nat = Some v /\
    v_online v = true /\ local_socket v = 0.
Proof.
  apply (late_registration_online (run (gate_new 1) late_events).1 0 0 7 (RegisterReq (ServiceInfo 3 2 true) 64) (Conn 0 10 None [])
    _ (register_resumed (run (gate_new 1) late_events).1 0 (Some ec_success)).2).
  - apply (gk_routing 1 ∅ _ [] (run (gate_new 1) late_events).2).
    exact (gate_run_ok 1 late_events _ _ late_events_ok (surjective_pairing (run (gate_new 1) late_events))).
  - by vm_compute.
  - by vm_compute.
  - done.
  - apply surjective_pairing.
Defined.

(** Two connections that register the same id before the gate master has
    answered both succeed, with an object each; the messages for the id go to
    the first object, whatever connection it has, and the second gets none. *)
Theorem double_registration :
  let '(g, out) := run (gate_new 1)
    [EvAccept 0 5 0; EvAccept 1 6 0; EvMaster 9; demo_register;
     EvMessage 1 10 7 (ReqRegister (Some (RegisterReq (ServiceInfo 3 2 true) 64)));
     EvAnswer 0 (Some ec_success); EvAnswer 0 (Some ec_success); EvClosed 0; EvForward (demo_message 3)] in
  omap (fun e => match e with RegisterAck k _ ec => Some (k, ec) | _ => None end) out = [(5, ec_success); (6, ec_success)] /\
  c_service <$> conns g !! 1%nat = Some (Some 1%nat) /\ find_service g 3 = Some 0%nat /\
  objects g = [Service 3 2 1 false (Local 0); Service 3 2 1 true (Local 6)] /\
  written 0 out = [demo_message 3] /\ written 1 out = [].
Proof. by vm_compute. Qed.
