(* ===== verification/Proxy.v ===== *)
(** The proxy between players and services (src/gobang/proxy/proxy.cpp): the
    state of a player's connection from login to disconnection, the messages it
    lets through, those it keeps until the login is answered, and the replies of
    the services.

    Protobuf parsing is a parameter. A reference to [socket_data] is the id of
    its socket. A connection that is closed ends at once: [network::close]
    resumes its reader, and a reader that closes its own socket finds it gone at
    its next read. *)

From stdpp Require Import gmap.
From S2P Require Import Prelude Digest Websocket ProtoUtils.

(** * Data *)

Record socket_cache_data := CacheData { cd_id : Z; cd_session : Z; cd_buf : bytes }.

Record socket_data := SocketData {
  sd_socket : Z;
  sd_userid : Z;
  sd_logic : Z;
  sd_room : Z;
  sd_wait_login : bool;
  sd_last_recv : Z;
  sd_cache : list socket_cache_data }.

Record proxy := Proxy { own_id : Z; sockets_ : gmap Z socket_data }.

(** What is read from parsed messages. *)
Record login_ack := LoginAck { la_ec : Z; la_userid : Z; la_room : Z }.
Record match_ack := MatchAck { ma_ec : Z; ma_room : Z }.
Record move_ack := MoveAck { mo_ec : Z; mo_over : Z }.
Record kick_req := KickReq { kr_socket : Z; kr_userid : Z }.

Definition ec_success : Z := 0.
Definition ec_system : Z := 2.
Definition ec_no_match : Z := 5.
Definition over_none : Z := 0.

Definition msg_s2c_ack : Z := 0x1000.
Definition id_ping_req : Z := 1.
Definition id_login_req : Z := 2.
Definition id_login_ack : Z := 0x1002.
Definition id_match_ack : Z := 0x1003.
Definition id_enter_room_req : Z := 4.
Definition id_move_req : Z := 5.
Definition id_move_ack : Z := 0x1005.
Definition id_move_brd : Z := 0x3005.
Definition id_s_kick_client_req : Z := 0x4008.

Definition op_close : Z := 8.

(** Calls to [gate_connector::write], to the websockets and to the network. *)
Inductive effect :=
  | ToService (f : forward_part) (c : client_part) (data : bytes)
  | ClientOffline (logic gate socket userid : Z)
  | KickAck (to session ec : Z)
  | ToClient (socket id session : Z) (data : bytes)
  | CommonAck (socket id session ec : Z)
  | PingAck (socket session t1 : Z)
  | Pong (socket : Z) (data : bytes)
  | CloseSocket (socket : Z).

Abbreviation outcome := (proxy * list effect)%type.

(** The bytes of [ToService]. *)
Definition service_message (f : forward_part) (c : client_part) (data : bytes) : bytes :=
  forward_bytes f ++ client_bytes c ++ data.

(** [int32_t] from its 32 bits. *)
Definition s32 (z : Z) : Z := if z <? 2 ^ 31 then z else z - 2 ^ 32.

Definition client_of (bs : bytes) : client_part :=
  ClientPart (le_value (take 2 bs)) (le_value (take 2 (drop 2 bs))) (le_value (take 4 (drop 4 bs)))
    (s32 (le_value (take 4 (drop 8 bs)))).

Definition client_part_size : Z := 12.
Definition ws_header_size : Z := 16.

(** [header.id] and [header.session] of [ws_header]. *)
Definition ws_id (bs : bytes) : Z := le_value (take 2 (drop 6 bs)).
Definition ws_session (bs : bytes) : Z := le_value (take 8 (drop 8 bs)).

(** * Operations *)

Section proxy.
Context (parse_ping : bytes -> option Z) (parse_login : bytes -> option login_ack)
  (parse_match : bytes -> option match_ack) (parse_move : bytes -> option move_ack)
  (parse_move_brd : bytes -> option Z) (parse_kick : bytes -> option kick_req).

Definition set_socket (p : proxy) (d : socket_data) : proxy := Proxy (own_id p) (<[sd_socket d := d]> (sockets_ p)).

(** The end of [socket_start]. *)
Definition socket_end (p : proxy) (d : socket_data) : outcome :=
  (Proxy (own_id p) (delete (sd_socket d) (sockets_ p)),
   if 0 <? sd_logic d then [ClientOffline (sd_logic d) (own_id p) (sd_socket d) (sd_userid d)] else []).

Definition close (p : proxy) (d : socket_data) : outcome :=
  let '(p, es) := socket_end p d in (p, CloseSocket (sd_socket d) :: es).

(** ** Messages of the players *)

Definition send_to_service (p : proxy) (dest : Z) (d : socket_data) (id session : Z) (buf : bytes) : effect :=
  ToService (ForwardPart (u16 (own_id p)) dest id_s_client_forward_brd 0 session)
    (ClientPart id 0 (sd_socket d) (sd_userid d)) buf.

(** [login] is what [rand_subscribe] returns. *)
Definition client_register_msg (p : proxy) (d : socket_data) (login session : Z) (buf : bytes) : outcome :=
  if (0 <? sd_userid d) || sd_wait_login d then close p d
  else
    let d := SocketData (sd_socket d) (sd_userid d) (sd_logic d) (sd_room d) true (sd_last_recv d) (sd_cache d) in
    (set_socket p d, [send_to_service p login d id_login_req session buf]).

Definition client_room_msg (p : proxy) (d : socket_data) (id session : Z) (buf : bytes) : outcome :=
  if sd_room d <=? 0 then
    (p, [CommonAck (sd_socket d) (Z.lor (Z.land id 0xfff) msg_s2c_ack) session ec_no_match])
  else (p, [send_to_service p (sd_room d) d id session buf]).

Definition client_other_msg (p : proxy) (d : socket_data) (id session : Z) (buf : bytes) : outcome :=
  if (id =? id_ping_req) && (sd_wait_login d || (sd_userid d <=? 0)) then
    (p, match parse_ping buf with Some t1 => [PingAck (sd_socket d) session t1] | None => [] end)
  else if sd_wait_login d then
    (set_socket p (SocketData (sd_socket d) (sd_userid d) (sd_logic d) (sd_room d) true (sd_last_recv d)
                     (sd_cache d ++ [CacheData id session buf])), [])
  else if sd_userid d <=? 0 then (p, [])
  else (p, [send_to_service p (sd_logic d) d id session buf]).

Definition forward_client (p : proxy) (d : socket_data) (login id session : Z) (buf : bytes) : outcome :=
  if id =? id_login_req then client_register_msg p d login session buf
  else if (id =? id_enter_room_req) || (id =? id_move_req) then client_room_msg p d id session buf
  else client_other_msg p d id session buf.

(** One message of the loop of [socket_start]; a message shorter than its
    header is read past its end ([None]). *)
Definition socket_message (p : proxy) (d : socket_data) (now login op : Z) (buf : bytes) : option outcome :=
  let d := SocketData (sd_socket d) (sd_userid d) (sd_logic d) (sd_room d) (sd_wait_login d) now (sd_cache d) in
  let p := set_socket p d in
  if op =? op_close then Some (close p d)
  else if op =? op_ping then Some (p, [Pong (sd_socket d) buf])
  else if is_websocket_control op then Some (p, [])
  else if zlen buf <? ws_header_size then None
  else Some (forward_client p d login (ws_id buf) (ws_session buf) (zdrop ws_header_size buf)).

(** ** Messages of the services *)

Definition client_login_ack (p : proxy) (d : socket_data) (logic : Z) (brd : bytes) : outcome :=
  match parse_login brd with
  | None => close p d
  | Some ack =>
      if negb (la_ec ack =? ec_success) then (p, [])
      else
        let d' := SocketData (sd_socket d) (la_userid ack) logic (u16 (la_room ack)) false (sd_last_recv d) (sd_cache d) in
        (set_socket p (SocketData (sd_socket d') (sd_userid d') (sd_logic d') (sd_room d') false (sd_last_recv d') []),
         (fun c => send_to_service p (sd_logic d') d' (cd_id c) (cd_session c) (cd_buf c)) <$> sd_cache d')
  end.

Definition set_room (p : proxy) (d : socket_data) (room : Z) : proxy :=
  set_socket p (SocketData (sd_socket d) (sd_userid d) (sd_logic d) room (sd_wait_login d) (sd_last_recv d) (sd_cache d)).

Definition client_match_ack (p : proxy) (d : socket_data) (brd : bytes) : proxy :=
  match parse_match brd with
  | Some ack => if ma_ec ack =? ec_success then set_room p d (u16 (ma_room ack)) else p
  | None => p
  end.

Definition client_move_brd (p : proxy) (d : socket_data) (brd : bytes) : proxy :=
  match parse_move_brd brd with
  | Some over => if over =? over_none then p else set_room p d 0
  | None => p
  end.

Definition client_move_ack (p : proxy) (d : socket_data) (brd : bytes) : proxy :=
  match parse_move brd with
  | Some ack => if (mo_ec ack =? ec_success) && negb (mo_over ack =? over_none) then set_room p d 0 else p
  | None => p
  end.

(** [on_forward_map_]. *)
Definition on_forward (p : proxy) (d : socket_data) (id logic : Z) (strv : bytes) : outcome :=
  if id =? id_login_ack then client_login_ack p d logic strv
  else if id =? id_match_ack then (client_match_ack p d strv, [])
  else if id =? id_move_ack then (client_move_ack p d strv, [])
  else if id =? id_move_brd then (client_move_brd p d strv, [])
  else (p, []).

Definition client_forward_brd (p : proxy) (session : Z) (buf : bytes) : outcome :=
  if zlen buf <? client_part_size then (p, [])
  else
    let part := client_of buf in
    let strv := zdrop client_part_size buf in
    match sockets_ p !! c_socket part with
    | None => (p, [])
    | Some d =>
        if negb (sd_userid d =? c_userid part) then (p, [])
        else
          let '(p, es) := on_forward p d (c_id part) (c_logic part) strv in
          (p, es ++ [ToClient (c_socket part) (c_id part) session strv])
    end.

Definition kick_client (p : proxy) (from session : Z) (buf : bytes) : outcome :=
  match parse_kick buf with
  | None => (p, [KickAck from session ec_system])
  | Some req =>
      let '(p, es) :=
        match sockets_ p !! kr_socket req with
        | Some d => if sd_userid d =? kr_userid req then close p d else (p, [])
        | None => (p, [])
        end in
      (p, es ++ [KickAck from session ec_success])
  end.

Definition forward_shm (p : proxy) (from session id : Z) (buf : bytes) : outcome :=
  if id =? id_s_kick_client_req then kick_client p from session buf
  else if id =? id_s_client_forward_brd then client_forward_brd p session buf
  else (p, []).

(** ** Events *)

Definition auto_close_session : Z := 180.

Inductive event :=
  | EvAccept (socket now : Z)
  | EvMessage (socket now login op : Z) (buf : bytes)
  | EvClosed (socket : Z)
  | EvCheck (socket now : Z)
  | EvShm (from session id : Z) (buf : bytes).

Definition step (p : proxy) (e : event) : option outcome :=
  match e with
  | EvAccept s now =>
      Some (match sockets_ p !! s with
            | Some _ => (p, [])
            | None => (set_socket p (SocketData s 0 0 0 false now []), [])
            end)
  | EvMessage s now login op buf =>
      match sockets_ p !! s with
      | Some d => socket_message p d now login op buf
      | None => Some (p, [])
      end
  | EvClosed s =>
      Some (match sockets_ p !! s with Some d => socket_end p d | None => (p, []) end)
  | EvCheck s now =>
      Some (match sockets_ p !! s with
            | Some d => if auto_close_session <? now - sd_last_recv d then close p d else (p, [])
            | None => (p, [])
            end)
  | EvShm from session id buf => Some (forward_shm p from session id buf)
  end.

Fixpoint run (p : proxy) (es : list event) : option outcome :=
  match es with
  | [] => Some (p, [])
  | e :: es =>
      '(p, out) ← step p e;
      '(p, out') ← run p es;
      Some (p, out ++ out')
  end.
End proxy.

(** * Invariant *)

Definition proxy_new (id : Z) : proxy := Proxy id ∅.

(** The player has asked to log in, or is logged in. *)
Definition in_session (d : socket_data) : Prop := sd_wait_login d = true \/ 0 < sd_userid d.

(** Messages that go to the logic service: not the login, not those of the
    room, and not the ping, which the proxy answers itself before the login. *)
Definition game_message (id : Z) : bool :=
  negb ((id =? id_ping_req) || (id =? id_login_req) || (id =? id_enter_room_req) || (id =? id_move_req)).

Definition client_ok (s : Z) (d : socket_data) : Prop :=
  sd_socket d = s /\ (sd_wait_login d = false -> sd_cache d = []) /\
  Forall (fun c => game_message (cd_id c) = true) (sd_cache d).

Definition proxy_ok (p : proxy) : Prop := forall s d, sockets_ p !! s = Some d -> client_ok s d.

Definition to_logic (s : Z) (es : list effect) : list socket_cache_data :=
  omap (fun e =>
    match e with
    | ToService f c data =>
        if (c_socket c =? s) && game_message (c_id c) then Some (CacheData (c_id c) (f_session f) data) else None
    | _ => None
    end) es.

(** The requests to log in that are passed on. *)
Definition is_login (s : Z) (e : effect) : bool :=
  match e with ToService _ c _ => (c_socket c =? s) && (c_id c =? id_login_req) | _ => false end.

Definition logins (s : Z) (es : list effect) : nat := length (filter (fun e => is_login s e = true) es).

(** The reports that the player is gone. *)
Definition is_offline (s : Z) (e : effect) : bool := match e with ClientOffline _ _ s' _ => s' =? s | _ => false end.

Definition offlines (s : Z) (es : list effect) : nat := length (filter (fun e => is_offline s e = true) es).

Definition is_data (op : Z) : bool := negb (is_websocket_control op).

(** The messages for the logic service a player sends. *)
Definition asked (s : Z) (e : event) : list socket_cache_data :=
  match e with
  | EvMessage s' _ _ op buf =>
      if (s' =? s) && is_data op && (ws_header_size <=? zlen buf) && game_message (ws_id buf)
      then [CacheData (ws_id buf) (ws_session buf) (zdrop ws_header_size buf)] else []
  | _ => []
  end.

(** Effects on the connection of [s] only. *)
Definition about (s : Z) (e : effect) : Prop :=
  match e with
  | ToService f c _ => c_socket c = s
  | ClientOffline _ _ s' _ | ToClient s' _ _ _ | CommonAck s' _ _ _ | PingAck s' _ _ | Pong s' _ | CloseSocket s' => s' = s
  | KickAck _ _ _ => True
  end.

(** What an operation does to connection [s], that was [d], when the player
    asked for [q]; [nb]: it is the answer to a login that succeeds for a user id
    that is not positive. *)
Record handled (nb : bool) (p : proxy) (s : Z) (d : socket_data) (q : list socket_cache_data) (p' : proxy) (es : list effect) : Prop := {
  hd_own : own_id p' = own_id p;
  hd_others s' : s' <> s -> sockets_ p' !! s' = sockets_ p !! s';
  hd_about : Forall (about s) es;
  hd_client d' : sockets_ p' !! s = Some d' -> client_ok s d' /\ offlines s es = 0%nat /\
    (in_session d -> (nb = false -> in_session d') /\ logins s es = 0%nat /\ to_logic s es ++ sd_cache d' = sd_cache d ++ q) /\
    (~ in_session d -> to_logic s es = [] /\ sd_cache d' = [] /\
       (logins s es = 0%nat \/ (logins s es = 1%nat /\ in_session d')));
  hd_gone : sockets_ p' !! s = None -> logins s es = 0%nat /\ offlines s es = if 0 <? sd_logic d then 1%nat else 0%nat }.

Lemma to_logic_app s es es' : to_logic s (es ++ es') = to_logic s es ++ to_logic s es'.
Proof. apply omap_app. Qed.

Lemma logins_app s es es' : logins s (es ++ es') = (logins s es + logins s es')%nat.
Proof. unfold logins. by rewrite list.filter_app, length_app. Qed.

Lemma offlines_app s es es' : offlines s (es ++ es') = (offlines s es + offlines s es')%nat.
Proof. unfold offlines. by rewrite list.filter_app, length_app. Qed.

Lemma lookup_set_socket p d : sockets_ (set_socket p d) !! sd_socket d = Some d.
Proof. apply lookup_insert_eq. Qed.

(** Effects that say nothing to services but the gate master of the players. *)
Definition local (s : Z) (e : effect) : Prop :=
  match e with ToService _ _ _ | ClientOffline _ _ _ _ => False | _ => about s e end.

Lemma local_effects s es : Forall (local s) es ->
  Forall (about s) es /\ to_logic s es = [] /\ logins s es = 0%nat /\ offlines s es = 0%nat.
Proof.
  induction 1 as [|e es He _ (I1 & I2 & I3 & I4)]; [done|]. unfold logins, offlines in *.
  rewrite !list.filter_cons. destruct e; try done; repeat split; try done; by constructor.
Qed.

Lemma idle_cache s d : client_ok s d -> ~ in_session d -> sd_cache d = [].
Proof. intros (_ & Hw & _) Hn. apply Hw. destruct (sd_wait_login d) eqn:E; [|done]. destruct Hn. by left. Qed.

(** The connection stays and nothing is sent to a service. *)
Lemma handled_stays {nb} p s d d' q p' es :
  client_ok s d' -> own_id p' = own_id p -> sockets_ p' = <[s := d']> (sockets_ p) -> Forall (local s) es ->
  sd_wait_login d' = sd_wait_login d -> (in_session d -> in_session d' /\ sd_cache d' = sd_cache d ++ q) -> handled nb p s d q p' es.
Proof.
  intros Hd Ho Hs Hl Hw Hq. destruct (local_effects s es Hl) as (L1 & L2 & L3 & L4). split; try done.
  - intros s' Hne. by rewrite Hs, lookup_insert_ne.
  - intros x. rewrite Hs, lookup_insert_eq. intros [= <-]. split; [done|]. split; [done|]. rewrite L2, L3. split.
    + intros H. split; [intros _; by apply Hq|]. split; [done|]. by apply Hq.
    + intros H. split; [done|]. split; [|by left]. destruct Hd as (_ & Hd & _). apply Hd. rewrite Hw.
      destruct (sd_wait_login d) eqn:E; [|done]. destruct H. by left.
  - rewrite Hs, lookup_insert_eq. done.
Qed.

Lemma handled_end {nb} p s d q es : client_ok s d -> sockets_ p !! s = Some d -> Forall (local s) es ->
  handled nb p s d q (socket_end p d).1 (es ++ (socket_end p d).2).
Proof.
  intros [<- _] Hs Hl. destruct (local_effects _ es Hl) as (L1 & L2 & L3 & L4). split; try done.
  - intros s' Hne. by apply lookup_delete_ne.
  - apply Forall_app_2; [done|]. cbn. destruct (0 <? sd_logic d); repeat constructor.
  - intros x. cbn. by rewrite lookup_delete_eq.
  - intros _. rewrite logins_app, offlines_app, L3, L4. cbn. unfold logins, offlines.
    destruct (0 <? sd_logic d); [|done]. rewrite !list.filter_cons. cbn [is_login is_offline]. by rewrite Z.eqb_refl.
Qed.

Lemma handled_close {nb} p s d q es : client_ok s d -> sockets_ p !! s = Some d -> Forall (local s) es ->
  handled nb p s d q (close p d).1 (es ++ (close p d).2).
Proof.
  intros Hd Hs Hl. change ((close p d).1) with ((socket_end p d).1).
  change ((close p d).2) with ([CloseSocket (sd_socket d)] ++ (socket_end p d).2). rewrite (assoc_L (++)).
  apply (handled_end p s d q (es ++ [CloseSocket (sd_socket d)])); [done..|].
  apply Forall_app_2; [done|]. repeat constructor. apply Hd.
Qed.

Lemma to_logic_one s f c data : c_socket c = s ->
  to_logic s [ToService f c data] = if game_message (c_id c) then [CacheData (c_id c) (f_session f) data] else [].
Proof. intros <-. cbn. rewrite Z.eqb_refl. by destruct (game_message (c_id c)). Qed.

Lemma logins_one s f c data : c_socket c = s ->
  logins s [ToService f c data] = if c_id c =? id_login_req then 1%nat else 0%nat.
Proof. intros <-. unfold logins. rewrite list.filter_cons. cbn [is_login]. rewrite Z.eqb_refl. by destruct (c_id c =? id_login_req). Qed.

Lemma game_message_login id : game_message id = true -> (id =? id_login_req) = false.
Proof. unfold game_message. destruct (id =? id_login_req); [|done]. by rewrite orb_true_r. Qed.

Lemma sockets_same p s d : sd_socket d = s -> sockets_ (set_socket p d) = <[s := d]> (sockets_ p).
Proof. by intros <-. Qed.

Lemma sockets_id p s d : sockets_ p !! s = Some d -> sockets_ p = <[s := d]> (sockets_ p).
Proof. intros H. by rewrite insert_id. Qed.

(** One message is passed on in the name of [d]; the connection becomes [d']. *)
Lemma handled_passes {nb} p s d d' q p' dest id session buf :
  client_ok s d -> client_ok s d' -> own_id p' = own_id p -> sockets_ p' = <[s := d']> (sockets_ p) ->
  (game_message id = true -> 0 < sd_userid d') -> sd_userid d' = sd_userid d -> sd_cache d' = sd_cache d ->
  q = (if game_message id then [CacheData id session buf] else []) ->
  (in_session d -> (id =? id_login_req) = false /\ in_session d') ->
  (in_session d -> game_message id = true -> sd_cache d = []) ->
  (~ in_session d -> (id =? id_login_req) = true -> in_session d') ->
  handled nb p s d q p' [send_to_service p dest d' id session buf].
Proof.
  intros Hd [E Hd'] Ho Hs Hg Hu Hc -> H1 H2 H3. split; try done.
  - intros s' Hne. by rewrite Hs, lookup_insert_ne.
  - by repeat constructor.
  - intros x. rewrite Hs, lookup_insert_eq. intros [= <-]. split; [done|]. split; [done|].
    unfold send_to_service. rewrite to_logic_one, logins_one by done. cbn [c_id f_session]. split.
    + intros Hin. destruct (H1 Hin) as [E1 E2]. rewrite E1, Hc. split; [done|]. split; [done|].
      destruct (game_message id) eqn:Eg; [by rewrite (H2 Hin eq_refl)|by rewrite app_nil_r].
    + intros Hin. split; [|split].
      * destruct (game_message id); [|done]. destruct Hin. right. rewrite <- Hu. by apply Hg.
      * rewrite Hc. by eapply idle_cache.
      * destruct (id =? id_login_req) eqn:El; [right; auto|by left].
  - rewrite Hs, lookup_insert_eq. done.
Qed.

Section proofs.
Context (parse_ping : bytes -> option Z) (parse_login : bytes -> option login_ack)
  (parse_match : bytes -> option match_ack) (parse_move : bytes -> option move_ack)
  (parse_move_brd : bytes -> option Z) (parse_kick : bytes -> option kick_req).

Lemma forward_client_handled {nb} p s d login id session buf p' es :
  proxy_ok p -> sockets_ p !! s = Some d -> forward_client parse_ping p d login id session buf = (p', es) ->
  handled nb p s d (if game_message id then [CacheData id session buf] else []) p' es.
Proof.
  intros Hok Hs. pose proof (Hok s d Hs) as Hd. pose proof Hd as (Ek & Hw & Hg). unfold forward_client.
  destruct (id =? id_login_req) eqn:El.
  { apply Z.eqb_eq in El as ->. unfold client_register_msg. destruct (_ || _) eqn:Ein.
    - intros H. rewrite <-(app_nil_l es). replace p' with (close p d).1 by by rewrite H. replace es with (close p d).2 by by rewrite H.
      by apply handled_close.
    - apply orb_false_iff in Ein as [E1%Z.ltb_ge E2]. intros [= <- <-].
      apply handled_passes; try done.
      + by apply sockets_same.
      + intros [?|?]; [congruence|lia].
      + intros _ _. by left. }
  destruct ((id =? id_enter_room_req) || (id =? id_move_req)) eqn:Er.
  { assert (Eg : game_message id = false).
    { unfold game_message. apply orb_true_iff in Er as [-> | ->]; by rewrite ?orb_true_r. }
    rewrite Eg. unfold client_room_msg. destruct (sd_room d <=? 0); intros [= <- <-].
    - apply (handled_stays p s d d); try done; [by apply sockets_id|by repeat constructor|]. by rewrite app_nil_r.
    - apply handled_passes; try done; try congruence; [by apply sockets_id|by rewrite Eg]. }
  apply orb_false_iff in Er as [Er1 Er2].
  assert (Eg : game_message id = negb (id =? id_ping_req)) by (unfold game_message; by rewrite El, Er1, Er2, !orb_false_r).
  rewrite Eg. unfold client_other_msg. destruct (id =? id_ping_req) eqn:Ep; cbn [andb negb].
  - destruct (sd_wait_login d || (sd_userid d <=? 0)) eqn:Ew.
    + intros [= <- <-]. apply (handled_stays p s d d); try done; [by apply sockets_id| |by rewrite app_nil_r].
      destruct (parse_ping buf); by repeat constructor.
    + apply orb_false_iff in Ew as [-> ->]. intros [= <- <-].
      apply handled_passes; try done; try congruence; [by apply sockets_id|by rewrite Eg..].
  - destruct (sd_wait_login d) eqn:Ew.
    + intros [= <- <-]. eapply handled_stays; [|done|by apply sockets_same|constructor|done|].
      * split; [done|]. split; [done|]. apply Forall_app_2; [done|]. by repeat constructor.
      * intros _. split; [by left|done].
    + destruct (Z.leb_spec (sd_userid d) 0) as [Hu|Hu]; intros [= <- <-].
      * apply (handled_stays p s d d); try done; [by apply sockets_id|]. intros [?|?]; [congruence|lia].
      * apply handled_passes; try done; [by apply sockets_id|by rewrite Eg| |congruence]. intros _ _. by apply Hw.
Qed.

Lemma handled_then {nb} s p d q p' es es' : handled nb p s d q p' es -> Forall (local s) es' -> handled nb p s d q p' (es ++ es').
Proof.
  intros [H1 H2 H3 H4 H5] Hl. destruct (local_effects s es' Hl) as (L1 & L2 & L3 & L4). split; try done.
  - by apply Forall_app_2.
  - intros d' Hd'. rewrite to_logic_app, logins_app, offlines_app, L2, L3, L4, app_nil_r, !Nat.add_0_r. by apply H4.
  - rewrite logins_app, offlines_app, L3, L4, !Nat.add_0_r. done.
Qed.

(** The time of the last message is not looked at. *)
Lemma handled_recv {nb} p s d now q p' es :
  let d' := SocketData (sd_socket d) (sd_userid d) (sd_logic d) (sd_room d) (sd_wait_login d) now (sd_cache d) in
  client_ok s d -> handled nb (set_socket p d') s d' q p' es -> handled nb p s d q p' es.
Proof.
  intros d' [<- Hd] [H1 H2 H3 H4 H5]. split; try done. intros s' Hne. rewrite H2 by done. by apply lookup_insert_ne.
Qed.

Lemma client_login_ack_handled nb p s d logic brd p' es :
  (forall ack, parse_login brd = Some ack -> la_ec ack = ec_success -> nb = false -> 0 < la_userid ack) ->
  proxy_ok p -> sockets_ p !! s = Some d -> client_login_ack parse_login p d logic brd = (p', es) -> handled nb p s d [] p' es.
Proof.
  intros Hlogin Hok Hs. pose proof (Hok s d Hs) as Hd. pose proof Hd as (Ek & Hw & Hg). unfold client_login_ack.
  destruct (parse_login brd) as [ack|] eqn:Ep.
  2: { intros H. rewrite <-(app_nil_l es). replace p' with (close p d).1 by by rewrite H. replace es with (close p d).2 by by rewrite H.
       by apply handled_close. }
  destruct (Z.eqb_spec (la_ec ack) ec_success) as [He|He]; cbn [negb]; intros [= <- <-].
  2: { apply (handled_stays p s d d); try done; [by apply sockets_id|]. by rewrite app_nil_r. }
  pose proof (Hlogin _ eq_refl He) as Hu. cbn [sd_socket sd_userid sd_logic sd_room sd_last_recv sd_cache].
  set (d' := SocketData (sd_socket d) (la_userid ack) logic (u16 (la_room ack)) false (sd_last_recv d) (sd_cache d)).
  set (l := (fun c => send_to_service p logic d' (cd_id c) (cd_session c) (cd_buf c)) <$> sd_cache d).
  assert (Hl : Forall (about s) l /\ to_logic s l = sd_cache d /\ logins s l = 0%nat /\ offlines s l = 0%nat).
  { unfold l. revert Hg. generalize (sd_cache d). induction 1 as [|[i se b] k Hi _ (I1 & I2 & I3 & I4)]; [done|].
    cbn [fmap list_fmap cd_id cd_session cd_buf] in *. set (e := send_to_service p logic d' i se b).
    change (e :: ?x) with ([e] ++ x). rewrite to_logic_app, logins_app, offlines_app. rewrite I2, I3, I4.
    unfold e, send_to_service. rewrite to_logic_one, logins_one by done. cbn [c_id f_session].
    rewrite Hi, (game_message_login _ Hi). split; [|done]. by constructor. }
  destruct Hl as (L1 & L2 & L3 & L4). split; try done.
  - intros s' Hne. cbn. rewrite lookup_insert_ne; [done|congruence].
  - intros x. rewrite (sockets_same _ s) by done. rewrite lookup_insert_eq. intros [= <-]. split; [by repeat split|]. split; [done|].
    rewrite L2, L3, app_nil_r. split; intros Hin; [split; [intros Hnb; right; by apply Hu|by rewrite app_nil_r]|].
    split; [by eapply idle_cache|]. split; [done|by left].
  - rewrite (sockets_same _ s) by done. by rewrite lookup_insert_eq.
Qed.

Lemma room_handled {nb} p s d p' : client_ok s d -> sockets_ p !! s = Some d ->
  p' = p \/ (exists r, p' = set_room p d r) -> handled nb p s d [] p' [].
Proof.
  intros Hd Hs [->|[r ->]].
  - apply (handled_stays p s d d); try done; [by apply sockets_id|]. by rewrite app_nil_r.
  - eapply handled_stays; [|done|apply sockets_same, Hd|constructor|done|]; [exact Hd|]. intros H. by rewrite app_nil_r.
Qed.

(** The answer to a login of [s] that succeeds for a user id that is not
    positive. Nothing excludes it: an answer of no bytes parses to one whose
    fields are all 0, which is a success for user 0. *)
Definition nobody_login (s : Z) (e : event) : bool :=
  match e with
  | EvShm _ _ id buf =>
      (id =? id_s_client_forward_brd) && (c_socket (client_of buf) =? s) && (c_id (client_of buf) =? id_login_ack) &&
      match parse_login (zdrop client_part_size buf) with
      | Some ack => (la_ec ack =? ec_success) && (la_userid ack <=? 0)
      | None => false
      end
  | _ => false
  end.

Lemma on_forward_handled nb p s d id logic strv p' es :
  (forall ack, id = id_login_ack -> parse_login strv = Some ack -> la_ec ack = ec_success -> nb = false -> 0 < la_userid ack) ->
  proxy_ok p -> sockets_ p !! s = Some d ->
  on_forward parse_login parse_match parse_move parse_move_brd p d id logic strv = (p', es) -> handled nb p s d [] p' es.
Proof.
  intros Hnb Hok Hs. pose proof (Hok s d Hs) as Hd. unfold on_forward.
  destruct (Z.eqb_spec id id_login_ack); [apply client_login_ack_handled; auto|].
  destruct (id =? id_match_ack).
  { intros [= <- <-]. apply room_handled; [done..|]. unfold client_match_ack. repeat case_match; eauto. }
  destruct (id =? id_move_ack).
  { intros [= <- <-]. apply room_handled; [done..|]. unfold client_move_ack. repeat case_match; eauto. }
  destruct (id =? id_move_brd); intros [= <- <-]; (apply room_handled; [done..|]); [|by left].
  unfold client_move_brd. repeat case_match; eauto.
Qed.

(** An event concerns one connection, and leaves the others alone. *)
Definition concerns (p : proxy) (e : event) (s : Z) : Prop :=
  match e with
  | EvAccept s' _ | EvMessage s' _ _ _ _ | EvClosed s' | EvCheck s' _ => s' = s
  | EvShm _ _ id buf =>
      if id =? id_s_kick_client_req then match parse_kick buf with Some req => kr_socket req = s | None => True end
      else c_socket (client_of buf) = s
  end.

Abbreviation step := (step parse_ping parse_login parse_match parse_move parse_move_brd parse_kick).
Abbreviation run := (run parse_ping parse_login parse_match parse_move parse_move_brd parse_kick).

Lemma is_data_ping op : is_data op = true -> (op =? op_ping) = false /\ (op =? op_close) = false.
Proof. unfold is_data, is_websocket_control, op_ping, op_close. destruct (Z.leb_spec 8 op); [done|]. intros _. split; apply Z.eqb_neq; lia. Qed.

(** The event finds the connection [s]. *)
Lemma step_handled p s d e p' es :
  proxy_ok p -> sockets_ p !! s = Some d -> concerns p e s -> step p e = Some (p', es) ->
  handled (nobody_login s e) p s d (asked s e) p' es.
Proof.
  intros Hok Hs Hc. pose proof (Hok s d Hs) as Hd.
  assert (Hsame : forall q, (in_session d -> q = []) -> handled (nobody_login s e) p s d q p []).
  { intros q Hq. apply (handled_stays p s d d); try done; [by apply sockets_id|]. intros Hin. by rewrite Hq, app_nil_r. }
  assert (Hend : handled (nobody_login s e) p s d [] (socket_end p d).1 (socket_end p d).2) by by apply (handled_end p s d [] []).
  assert (Hclose : handled (nobody_login s e) p s d [] (close p d).1 (close p d).2) by by apply (handled_close p s d [] []).
  destruct e as [s' now|s' now login op buf|s'|s' now|from session id buf]; cbn [concerns asked] in *; [subst s'..|]; cbn [step Proxy.step].
  - rewrite Hs. intros [= <- <-]. by apply Hsame.
  - rewrite Hs, Z.eqb_refl. cbn [andb]. unfold socket_message.
    set (d' := SocketData (sd_socket d) (sd_userid d) (sd_logic d) (sd_room d) (sd_wait_login d) now (sd_cache d)).
    assert (Hs' : sockets_ (set_socket p d') !! s = Some d') by (rewrite (sockets_same _ s) by apply Hd; apply lookup_insert_eq).
    assert (Hok' : proxy_ok (set_socket p d')).
    { intros t x. rewrite (sockets_same _ s) by apply Hd. intros [(<- & <-)|(_ & ?)]%lookup_insert_Some; [exact Hd|by apply Hok]. }
    intros E. apply (handled_recv p s d now); [done|]. fold d'. revert E.
    destruct (is_data op) eqn:Eo; cbn [andb].
    + destruct (is_data_ping _ Eo) as [-> ->]. unfold is_data in Eo. apply negb_true_iff in Eo as ->.
      rewrite Z.leb_antisym. destruct (zlen buf <? ws_header_size); [done|]. cbn [negb andb].
      intros [= E]. by apply (forward_client_handled (set_socket p d') s d' login).
    + destruct (op =? op_close).
      { intros [= <- <-]. by apply (handled_close (set_socket p d') s d' [] []). }
      destruct (op =? op_ping).
      { intros [= <- <-]. apply (handled_stays _ s d' d'); try done; [by apply sockets_id|repeat constructor; apply Hd|]. by rewrite app_nil_r. }
      unfold is_data in Eo. apply negb_false_iff in Eo as ->. intros [= <- <-].
      apply (handled_stays _ s d' d'); try done; [by apply sockets_id|]. by rewrite app_nil_r.
  - rewrite Hs. intros [= <- <-]. exact Hend.
  - rewrite Hs. destruct (_ <? _); intros [= <- <-]; [exact Hclose|by apply Hsame].
  - unfold forward_shm. destruct (id =? id_s_kick_client_req).
    + unfold kick_client. destruct (parse_kick buf) as [req|]; [subst s; rewrite Hs|].
      * destruct (if sd_userid d =? kr_userid req then close p d else (p, [])) as [p1 es1] eqn:E1. intros [= <- <-].
        apply handled_then; [|by repeat constructor]. destruct (sd_userid d =? kr_userid req).
        -- by rewrite E1 in Hclose.
        -- injection E1 as <- <-. by apply Hsame.
      * intros [= <- <-]. change [KickAck from session ec_system] with ([] ++ [KickAck from session ec_system]).
        apply handled_then; [by apply Hsame|by repeat constructor].
    + destruct (id =? id_s_client_forward_brd) eqn:Eb; [|intros [= <- <-]; by apply Hsame].
      unfold client_forward_brd. destruct (_ <? _); [intros [= <- <-]; by apply Hsame|]. subst s. rewrite Hs.
      destruct (negb _); [intros [= <- <-]; by apply Hsame|].
      destruct (on_forward _ _ _ _ p d _ _ _) as [p1 es1] eqn:E1. intros [= <- <-].
      apply handled_then; [|by repeat constructor].
      eapply on_forward_handled; [|done..]. intros ack Hid Hp Hec. unfold nobody_login.
      rewrite Eb, Hid, Hp, Hec, !Z.eqb_refl. cbn [andb]. apply Z.leb_gt.
Qed.

Lemma about_other s t es : s <> t -> Forall (about t) es ->
  to_logic s es = [] /\ logins s es = 0%nat /\ offlines s es = 0%nat.
Proof.
  intros Hne. induction 1 as [|e es He _ (I1 & I2 & I3)]; [done|]. change (e :: es) with ([e] ++ es).
  rewrite to_logic_app, logins_app, offlines_app, I1, I2, I3. destruct e; try done; cbn in He.
  - assert (E : (c_socket c =? s) = false) by (apply Z.eqb_neq; destruct He; congruence). cbn. by rewrite E.
  - assert (E : (socket =? s) = false) by (apply Z.eqb_neq; congruence). cbn. by rewrite E.
Qed.

Lemma step_absent p t e p' es : sockets_ p !! t = None -> concerns p e t -> step p e = Some (p', es) ->
  (exists now, e = EvAccept t now /\ p' = set_socket p (SocketData t 0 0 0 false now [])) /\ es = [] \/
  p' = p /\ Forall (local t) es.
Proof.
  intros Hs Hc. destruct e as [s' now|s' now login op buf|s'|s' now|from session id buf]; cbn [concerns] in Hc; [subst s'..|]; cbn [Proxy.step].
  1: { rewrite Hs. intros [= <- <-]. left. split; [by exists now|done]. }
  1-3: rewrite Hs; intros [= <- <-]; by right.
  intros [= E]. right. revert E. unfold forward_shm. destruct (id =? id_s_kick_client_req).
  - unfold kick_client. destruct (parse_kick buf) as [req|]; [subst t; rewrite Hs|]; intros [= <- <-]; split; try done; by repeat constructor.
  - destruct (id =? id_s_client_forward_brd); [|by intros [= <- <-]].
    unfold client_forward_brd. destruct (_ <? _); [by intros [= <- <-]|]. subst t. rewrite Hs. by intros [= <- <-].
Qed.

Lemma concerned p e : exists t, concerns p e t.
Proof.
  destruct e as [s ?|s ? ? ? ?|s|s ?|from session id buf]; [by exists s..|]. cbn. destruct (id =? id_s_kick_client_req); [|by eexists].
  destruct (parse_kick buf); [by eexists|by exists 0].
Qed.

Lemma step_others p s e p' es : proxy_ok p -> step p e = Some (p', es) -> ~ concerns p e s ->
  sockets_ p' !! s = sockets_ p !! s /\ to_logic s es = [] /\ logins s es = 0%nat /\ offlines s es = 0%nat /\ asked s e = [].
Proof.
  intros Hok Hs Hn. destruct (concerned p e) as [t Ht]. assert (Hne : s <> t) by (intros ->; done).
  assert (Ha : asked s e = []).
  { destruct e; try done. cbn in *. by rewrite (proj2 (Z.eqb_neq _ _)) by congruence. }
  destruct (sockets_ p !! t) as [d|] eqn:Et.
  - destruct (step_handled p t d e p' es Hok Et Ht Hs) as [H1 H2 H3 _ _]. split; [by apply H2|].
    destruct (about_other s t es Hne H3) as (? & ? & ?). done.
  - destruct (step_absent p t e p' es Et Ht Hs) as [[(now & -> & ->) ->]|[-> Hl]].
    + split; [by apply lookup_insert_ne|done].
    + destruct (about_other s t es Hne) as (? & ? & ?); [|done]. eapply Forall_impl; [|exact Hl]. by intros [].
Qed.

Lemma concerns_dec p e s : concerns p e s \/ ~ concerns p e s.
Proof.
  destruct e as [s' ?|s' ? ? ? ?|s'|s' ?|from session id buf]; cbn; [destruct (decide (s' = s)); tauto..|].
  destruct (id =? id_s_kick_client_req); [destruct (parse_kick buf) as [r|]; [destruct (decide (kr_socket r = s)); tauto|tauto]|].
  destruct (decide (c_socket (client_of buf) = s)); tauto.
Qed.

Lemma step_keeps_ok p e p' es : proxy_ok p -> step p e = Some (p', es) -> proxy_ok p'.
Proof.
  intros Hok Hs s d' Hd'. destruct (concerns_dec p e s) as [Hc|Hc].
  - destruct (sockets_ p !! s) as [d|] eqn:Ed.
    + by apply (hd_client _ _ _ _ _ _ _ (step_handled p s d e p' es Hok Ed Hc Hs)).
    + destruct (step_absent p s e p' es Ed Hc Hs) as [[(now & -> & ->) _]|[-> _]]; [|by apply Hok].
      rewrite (sockets_same _ s) in Hd' by done. rewrite lookup_insert_eq in Hd'. injection Hd' as <-. by repeat split.
  - destruct (step_others p s e p' es Hok Hs Hc) as [E _]. apply Hok. congruence.
Qed.

Definition accepted_again (s : Z) (evs : list event) : Prop := Exists (fun e => exists now, e = EvAccept s now) evs.

(** What happens to connection [s] in one event. *)
Lemma step_client p s e p' es : proxy_ok p -> step p e = Some (p', es) ->
  match sockets_ p !! s, sockets_ p' !! s with
  | Some d, Some d' => offlines s es = 0%nat /\
      (in_session d -> (nobody_login s e = false -> in_session d') /\ logins s es = 0%nat /\
         to_logic s es ++ sd_cache d' = sd_cache d ++ asked s e) /\
      (~ in_session d -> to_logic s es = [] /\ sd_cache d' = [] /\
         (logins s es = 0%nat \/ (logins s es = 1%nat /\ in_session d')))
  | Some d, None => logins s es = 0%nat /\ offlines s es = if 0 <? sd_logic d then 1%nat else 0%nat
  | None, Some _ => exists now, e = EvAccept s now
  | None, None => logins s es = 0%nat
  end.
Proof.
  intros Hok Hs. destruct (concerns_dec p e s) as [Hc|Hc].
  - destruct (sockets_ p !! s) as [d|] eqn:Ed.
    + pose proof (step_handled p s d e p' es Hok Ed Hc Hs) as [_ _ _ H4 H5].
      destruct (sockets_ p' !! s) as [d'|]; [|by apply H5]. by destruct (H4 d' eq_refl) as (_ & ? & ? & ?).
    + destruct (step_absent p s e p' es Ed Hc Hs) as [[(now & -> & ->) _]|[-> Hl]].
      * rewrite (sockets_same _ s) by done. rewrite lookup_insert_eq. by exists now.
      * rewrite Ed. by apply local_effects.
  - destruct (step_others p s e p' es Hok Hs Hc) as (-> & E1 & E2 & E3 & E4).
    destruct (sockets_ p !! s) as [d|] eqn:Ed; [|done]. rewrite E1, E2, E3, E4, app_nil_r. split; [done|]. split; [done|].
    intros Hin. split; [done|]. split; [by eapply idle_cache; [apply Hok|]|by left].
Qed.

Lemma run_absent evs s : forall p p' out, proxy_ok p -> run p evs = Some (p', out) -> ~ accepted_again s evs ->
  sockets_ p !! s = None -> sockets_ p' !! s = None /\ logins s out = 0%nat.
Proof.
  induction evs as [|e evs IH]; intros p p' out Hok; cbn [Proxy.run]; [intros [= <- <-] _ Hs; done|].
  destruct (step p e) as [[p1 es1]|] eqn:E1; cbn [mbind option_bind]; [|done].
  destruct (run p1 evs) as [[p2 es2]|] eqn:E2; cbn [mbind option_bind]; [|done]. intros [= <- <-] Hn Hs.
  pose proof (step_client p s e p1 es1 Hok E1) as Hc. rewrite Hs in Hc. destruct (sockets_ p1 !! s) eqn:Es.
  - destruct Hc as [now ->]. destruct Hn. left. by exists now.
  - destruct (IH p1 p2 es2) as [I1 I2]; [by eapply step_keeps_ok|done| |done|].
    + intros Hx. apply Hn. by right.
    + by rewrite logins_app, Hc, I2.
Qed.

Lemma run_order evs s : forall p p' out d d', proxy_ok p -> run p evs = Some (p', out) -> ~ accepted_again s evs ->
  sockets_ p !! s = Some d -> sockets_ p' !! s = Some d' ->
  to_logic s out ++ sd_cache d' `sublist_of` sd_cache d ++ flat_map (asked s) evs /\
  (in_session d -> Forall (fun e => nobody_login s e = false) evs ->
   to_logic s out ++ sd_cache d' = sd_cache d ++ flat_map (asked s) evs).
Proof.
  induction evs as [|e evs IH]; intros p p' out d d' Hok; cbn [Proxy.run flat_map].
  - intros [= <- <-] _ Hs Hs'. rewrite app_nil_r. cbn. split; [|congruence]. by replace d' with d by congruence.
  - destruct (step p e) as [[p1 es1]|] eqn:E1; cbn [mbind option_bind]; [|done].
    destruct (run p1 evs) as [[p2 es2]|] eqn:E2; cbn [mbind option_bind]; [|done]. intros [= <- <-] Hn Hs Hs'.
    assert (Hok1 : proxy_ok p1) by by eapply step_keeps_ok.
    assert (Hn1 : ~ accepted_again s evs) by (intros Hx; apply Hn; by right).
    pose proof (step_client p s e p1 es1 Hok E1) as Hc. rewrite Hs in Hc. destruct (sockets_ p1 !! s) as [d1|] eqn:Es.
    + destruct Hc as (_ & Hin & Hout). destruct (IH p1 p2 es2 d1 d' Hok1 E2 Hn1 Es Hs') as [I1 I2].
      rewrite to_logic_app, <-(assoc_L (++)). split.
      * destruct (decide (sd_wait_login d = true \/ 0 < sd_userid d)) as [H|H].
        -- destruct (Hin H) as (_ & _ & Ho). rewrite (assoc_L (++) (sd_cache d)), <- Ho, <-(assoc_L (++)).
           by apply sublist_app.
        -- destruct (Hout H) as (-> & Hc1 & _). rewrite Hc1 in I1. cbn [app] in *.
           by apply sublist_inserts_l, sublist_inserts_l.
      * intros H [Hnb Hnbs]%list.Forall_cons. destruct (Hin H) as (H1 & _ & Ho). rewrite I2 by auto.
        by rewrite (assoc_L (++)), Ho, <-(assoc_L (++)).
    + destruct (run_absent evs s p1 p2 es2 Hok1 E2 Hn1 Es). congruence.
Qed.

(** The answers of [evs] that log [s] in as nobody. *)
Definition nobodies (s : Z) (evs : list event) : nat := length (filter (fun e => nobody_login s e = true) evs).

Lemma run_logins evs s : forall p p' out d, proxy_ok p -> run p evs = Some (p', out) -> ~ accepted_again s evs ->
  sockets_ p !! s = Some d ->
  (logins s out <= 1 + nobodies s evs)%nat /\ (in_session d -> (logins s out <= nobodies s evs)%nat).
Proof.
  induction evs as [|e evs IH]; intros p p' out d Hok; cbn [Proxy.run].
  - intros [= <- <-] _ Hs. cbn. split; lia.
  - destruct (step p e) as [[p1 es1]|] eqn:E1; cbn [mbind option_bind]; [|done].
    destruct (run p1 evs) as [[p2 es2]|] eqn:E2; cbn [mbind option_bind]; [|done]. intros [= <- <-] Hn Hs.
    assert (Hok1 : proxy_ok p1) by by eapply step_keeps_ok.
    assert (Hn1 : ~ accepted_again s evs) by (intros Hx; apply Hn; by right).
    assert (Hnb : nobodies s (e :: evs) = ((if nobody_login s e then 1 else 0) + nobodies s evs)%nat).
    { unfold nobodies. rewrite list.filter_cons. by destruct (nobody_login s e). }
    rewrite logins_app, Hnb. pose proof (step_client p s e p1 es1 Hok E1) as Hc. rewrite Hs in Hc.
    destruct (sockets_ p1 !! s) as [d1|] eqn:Es.
    + destruct (IH p1 p2 es2 d1 Hok1 E2 Hn1 Es) as [I1 I2]. destruct Hc as (_ & Hin & Hout).
      destruct (decide (sd_wait_login d = true \/ 0 < sd_userid d)) as [H|H].
      * destruct (Hin H) as (H1 & -> & _). destruct (nobody_login s e); [split; lia|]. specialize (I2 (H1 eq_refl)). split; lia.
      * split; [|done]. destruct (Hout H) as (_ & _ & [->|[-> H1]]); [destruct (nobody_login s e); lia|].
        specialize (I2 H1). destruct (nobody_login s e); lia.
    + destruct (run_absent evs s p1 p2 es2 Hok1 E2 Hn1 Es) as [_ ->]. destruct Hc as [-> _]. split; [lia|intros _; lia].
Qed.

Lemma run_keeps_ok evs : forall p p' out, proxy_ok p -> run p evs = Some (p', out) -> proxy_ok p'.
Proof.
  induction evs as [|e evs IH]; intros p p' out Hok; cbn [Proxy.run]; [by intros [= <- <-]|].
  destruct (step p e) as [[p1 es1]|] eqn:E1; cbn [mbind option_bind]; [|done].
  destruct (run p1 evs) as [[p2 es2]|] eqn:E2; cbn [mbind option_bind]; [|done]. intros [= <- <-].
  eapply IH; [|done]. by eapply step_keeps_ok.
Qed.
End proofs.

(** * Properties *)

Section properties.
Context (parse_ping : bytes -> option Z) (parse_login : bytes -> option login_ack)
  (parse_match : bytes -> option match_ack) (parse_move : bytes -> option move_ack)
  (parse_move_brd : bytes -> option Z) (parse_kick : bytes -> option kick_req).
Abbreviation step := (step parse_ping parse_login parse_match parse_move parse_move_brd parse_kick).
Abbreviation run := (run parse_ping parse_login parse_match parse_move parse_move_brd parse_kick).

(** C26: what a player sends for the logic service reaches a service in order
    and at most once, whatever the other players, the services and the room do:
    what was passed on while the connection lasted, followed by what is kept
    until the login is answered, is a subsequence of what was kept before
    followed by what the player sent. Nothing is missing from it once the player
    has asked to log in, unless a service answers the login with a success for a
    user id that is not positive, after which the code treats the connection as
    one that never asked and drops what it sends. *)
Theorem proxy_keeps_order (p p' : proxy) (evs : list event) (out : list effect) (s : Z) (d d' : socket_data) :
  proxy_ok p -> run p evs = Some (p', out) -> ~ accepted_again s evs ->
  sockets_ p !! s = Some d -> sockets_ p' !! s = Some d' ->
  to_logic s out ++ sd_cache d' `sublist_of` sd_cache d ++ flat_map (asked s) evs /\
  (in_session d -> Forall (fun e => nobody_login parse_login s e = false) evs ->
   to_logic s out ++ sd_cache d' = sd_cache d ++ flat_map (asked s) evs) /\
  proxy_ok p'.
Proof.
  intros Hok Hr Hn Hs Hs'.
  destruct (run_order parse_ping parse_login parse_match parse_move parse_move_brd parse_kick evs s p p' out d d' Hok Hr Hn Hs Hs').
  split; [done|]. split; [done|].
  by eapply (run_keeps_ok parse_ping parse_login parse_match parse_move parse_move_brd parse_kick).
Qed.

(** C29: a connection passes on one request to log in at most until it ends,
    whatever the player sends and the services answer, and one more for each
    answer of a service that says a login succeeded for a user id that is not
    positive (an answer of no bytes parses to one for user 0): only those let a
    connection ask again. A connection that has asked, or is logged in, passes
    on none without such an answer. *)
Theorem proxy_logs_in_once (p p' : proxy) (evs : list event) (out : list effect) (s : Z) (d : socket_data) :
  proxy_ok p -> run p evs = Some (p', out) -> ~ accepted_again s evs -> sockets_ p !! s = Some d ->
  (logins s out <= 1 + nobodies parse_login s evs)%nat /\
  (in_session d -> (logins s out <= nobodies parse_login s evs)%nat).
Proof.
  intros Hok Hr Hn Hs.
  by apply (run_logins parse_ping parse_login parse_match parse_move parse_move_brd parse_kick evs s p p' out d).
Qed.

(** An event touches one connection; the others keep their state and
    nothing is sent to them or in their name. A connection that ends is
    reported to its logic service, once, if it has one; a connection that goes
    on is not reported. *)
Theorem proxy_isolates (p p' : proxy) (e : event) (es : list effect) :
  proxy_ok p -> step p e = Some (p', es) ->
  (forall s, ~ concerns parse_kick p e s -> sockets_ p' !! s = sockets_ p !! s /\ to_logic s es = [] /\ offlines s es = 0%nat) /\
  (forall s d, sockets_ p !! s = Some d ->
     offlines s es = match sockets_ p' !! s with Some _ => 0%nat | None => if 0 <? sd_logic d then 1%nat else 0%nat end).
Proof.
  intros Hok Hs. split.
  - intros s Hn. pose proof (step_others parse_ping parse_login parse_match parse_move parse_move_brd parse_kick
      p s e p' es Hok Hs Hn). tauto.
  - intros s d Hd. pose proof (step_client parse_ping parse_login parse_match parse_move parse_move_brd parse_kick
      p s e p' es Hok Hs) as H. rewrite Hd in H. destruct (sockets_ p' !! s); tauto.
Qed.

(** A login that fails leaves the connection waiting: the state is the
    one before, so every later message is kept and never sent, and another
    request to log in closes the connection. *)
Theorem failed_login_waits (p : proxy) (s : Z) (d : socket_data) (part : client_part) (session from : Z) (brd : bytes) (ack : login_ack) :
  proxy_ok p -> sockets_ p !! s = Some d -> sd_wait_login d = true ->
  client_of (client_bytes part ++ brd) = part -> c_id part = id_login_ack -> c_socket part = s -> c_userid part = sd_userid d ->
  parse_login brd = Some ack -> la_ec ack <> ec_success ->
  step p (EvShm from session id_s_client_forward_brd (client_bytes part ++ brd)) = Some (p, [ToClient s id_login_ack session brd]) /\
  (forall now login buf, (ws_header_size <=? zlen buf) = true -> ws_id buf = id_login_req ->
     exists p' es, step p (EvMessage s now login 2 buf) = Some (p', es) /\ sockets_ p' !! s = None /\ logins s es = 0%nat).
Proof.
  intros Hok Hs Hw Hpart Hid Hsock Huser Hp Hec. split.
  - cbn [Proxy.step]. unfold forward_shm. change (id_s_client_forward_brd =? id_s_kick_client_req) with false.
    rewrite Z.eqb_refl. unfold client_forward_brd. rewrite Hpart, Hsock, Hs, Huser, Z.eqb_refl, Hid.
    assert (Hl : zlen (client_bytes part) = client_part_size) by done.
    rewrite zlen_app, Hl. rewrite (proj2 (Z.ltb_ge _ _)) by (pose proof (zlen_nonneg brd); lia).
    cbn [negb]. rewrite <-Hl, zdrop_app_length. unfold on_forward. rewrite Z.eqb_refl. unfold client_login_ack. rewrite Hp.
    by rewrite (proj2 (Z.eqb_neq _ _) Hec).
  - intros now login buf Hl Hi. destruct (step p (EvMessage s now login 2 buf)) as [[p' es]|] eqn:E.
    + exists p', es. split; [done|]. pose proof (step_client parse_ping parse_login parse_match parse_move parse_move_brd parse_kick
        p s _ p' es Hok E) as H. rewrite Hs in H. cbn [Proxy.step] in E. rewrite Hs in E. unfold socket_message in E.
      rewrite Z.ltb_antisym, Hl in E. cbn [negb] in E. unfold forward_client in E. rewrite Hi in E.
      change (id_login_req =? id_login_req) with true in E. unfold client_register_msg in E.
      cbn [sd_userid sd_wait_login op_close op_ping Z.eqb Pos.eqb is_websocket_control Z.leb Z.compare Pos.compare Pos.compare_cont] in E.
      rewrite Hw, orb_true_r in E. injection E as <- <-. cbn [sockets_] in H |- *.
      rewrite (proj1 (Hok s d Hs)), lookup_delete_eq in H |- *. split; [done|]. apply H.
    + exfalso. cbn [Proxy.step] in E. rewrite Hs in E. unfold socket_message in E. rewrite Z.ltb_antisym, Hl in E. done.
Qed.

(** A message of a player that is shorter than its header, of a length
    the player chooses, is read past its end. *)
Theorem short_message_overruns (p : proxy) (s now login op : Z) (d : socket_data) (buf : bytes) :
  sockets_ p !! s = Some d -> is_data op = true ->
  step p (EvMessage s now login op buf) = None <-> zlen buf < ws_header_size.
Proof.
  intros Hs Ho. cbn [Proxy.step]. rewrite Hs. unfold socket_message. destruct (is_data_ping _ Ho) as [-> ->].
  unfold is_data in Ho. apply negb_true_iff in Ho as ->. destruct (Z.ltb_spec (zlen buf) ws_header_size); split; try done; lia.
Qed.
End properties.

(** ** A small history

    Two players; the first logs in through service 77, is given logic service
    20, and sends two messages, one of them before the answer. *)

Definition demo_login (bs : bytes) : option login_ack :=
  match bs with [] => Some (LoginAck 0 0 0) | [_] => None | ec :: userid :: _ => Some (LoginAck ec userid 0) end.

Definition demo_proxy : proxy :=
  Proxy 9 (<[5 := SocketData 5 0 0 0 true 0 []]> (<[6 := SocketData 6 0 0 0 false 0 []]> ∅)).

Lemma demo_proxy_ok : proxy_ok demo_proxy.
Proof.
  intros s d. unfold demo_proxy. cbn [sockets_]. intros [(<- & <-)|(_ & [(<- & <-)|(_ & H)]%lookup_insert_Some)]%lookup_insert_Some; [by repeat split..|done].
Qed.

Definition demo_events : list event :=
  [EvMessage 5 1 77 2 (ws_header_bytes 7 1 ++ [42]);
   EvMessage 6 1 77 2 (ws_header_bytes id_login_req 1 ++ []);
   EvShm 77 3 id_s_client_forward_brd (client_bytes (ClientPart id_login_ack 20 5 0) ++ [ec_success; 30]);
   EvMessage 5 2 77 2 (ws_header_bytes 8 2 ++ [43])].

Abbreviation demo_run evs := (run (fun _ => None) demo_login (fun _ => None) (fun _ => None) (fun _ => None) (fun _ => None) demo_proxy evs).
Abbreviation demo_step p e := (step (fun _ => None) demo_login (fun _ => None) (fun _ => None) (fun _ => None) (fun _ => None) p e).

Definition demo_out : proxy * list effect := from_option id (demo_proxy, []) (demo_run demo_events).

Lemma demo_ran : demo_run demo_events = Some (demo_out.1, demo_out.2).
Proof. by vm_compute. Qed.

Lemma demo_accepts s : ~ accepted_again s demo_events.
Proof.
  unfold accepted_again, demo_events. rewrite !Exists_cons, Exists_nil. 
  intros [[? [=]]|[[? [=]]|[[? [=]]|[[? [=]]|[]]]]].
Qed.

Lemma proxy_keeps_order_witness :
  to_logic 5 demo_out.2 = [CacheData 7 1 [42]; CacheData 8 2 [43]] /\
  to_logic 5 demo_out.2 ++ [] = [] ++ flat_map (asked 5) demo_events /\ proxy_ok demo_out.1.
Proof.
  split; [by vm_compute|].
  destruct (proxy_keeps_order (fun _ => None) demo_login (fun _ => None) (fun _ => None) (fun _ => None) (fun _ => None)
    demo_proxy demo_out.1 demo_events demo_out.2 5 (SocketData 5 0 0 0 true 0 []) (SocketData 5 30 20 0 false 2 [])
    demo_proxy_ok demo_ran (demo_accepts 5) eq_refl ltac:(by vm_compute)) as (_ & Ho & Hp).
  split; [|exact Hp]. apply Ho; [by left|]. by repeat constructor.
Defined.

Lemma proxy_logs_in_once_witness : logins 6 demo_out.2 = 1%nat /\ (logins 6 demo_out.2 <= 1)%nat.
Proof.
  split; [by vm_compute|].
  apply (proxy_logs_in_once (fun _ => None) demo_login (fun _ => None) (fun _ => None) (fun _ => None) (fun _ => None)
    demo_proxy demo_out.1 demo_events demo_out.2 6 (SocketData 6 0 0 0 false 0 []) demo_proxy_ok demo_ran (demo_accepts 6) eq_refl).
Defined.

(** A service answers the login of connection 6 with an empty message: the
    connection is that of user 0, its next message is dropped, and its second
    request to log in is passed on as the first was. *)
Example login_of_nobody :
  let evs := [EvMessage 6 1 77 2 (ws_header_bytes id_login_req 1 ++ []);
              EvShm 77 1 id_s_client_forward_brd (client_bytes (ClientPart id_login_ack 20 6 0));
              EvMessage 6 2 77 2 (ws_header_bytes 7 2 ++ [42]);
              EvMessage 6 3 77 2 (ws_header_bytes id_login_req 3 ++ [])] in
  nobodies demo_login 6 evs = 1%nat /\
  (fun r => (to_logic 6 r.2, logins 6 r.2)) <$> demo_run evs = Some ([], 2%nat).
Proof. by vm_compute. Qed.

Lemma proxy_isolates_witness :
  let p := demo_out.1 in
  let p' := Proxy 9 (delete 5 (sockets_ p)) in
  demo_step p (EvClosed 5) = Some (p', [ClientOffline 20 9 5 30]) /\ sockets_ p' !! 6 = sockets_ p !! 6.
Proof.
  assert (E : demo_step demo_out.1 (EvClosed 5) = Some (Proxy 9 (delete 5 (sockets_ demo_out.1)), [ClientOffline 20 9 5 30])).
  { by vm_compute. }
  assert (Hok : proxy_ok demo_out.1).
  { exact (run_keeps_ok (fun _ => None) demo_login (fun _ => None) (fun _ => None) (fun _ => None) (fun _ => None)
      demo_events demo_proxy demo_out.1 demo_out.2 demo_proxy_ok demo_ran). }
  split; [exact E|].
  refine (proj1 (proj1 (proxy_isolates (fun _ => None) demo_login (fun _ => None) (fun _ => None) (fun _ => None) (fun _ => None)
    _ _ (EvClosed 5) _ Hok E) 6 _)). done.
Defined.

Lemma failed_login_waits_witness :
  demo_step demo_proxy (EvShm 77 3 id_s_client_forward_brd (client_bytes (ClientPart id_login_ack 0 5 0) ++ [ec_system; 0])) =
    Some (demo_proxy, [ToClient 5 id_login_ack 3 [ec_system; 0]]).
Proof.
  refine (proj1 (failed_login_waits (fun _ => None) demo_login (fun _ => None) (fun _ => None) (fun _ => None) (fun _ => None)
    demo_proxy 5 (SocketData 5 0 0 0 true 0 []) (ClientPart id_login_ack 0 5 0) 3 77 [ec_system; 0]
    (LoginAck ec_system 0 0) demo_proxy_ok _ _ _ _ _ _ _ _)); try reflexivity. done.
Defined.

Lemma short_message_overruns_witness :
  demo_step demo_proxy (EvMessage 5 1 77 2 [1; 2; 3]) = None.
Proof.
  apply (short_message_overruns (fun _ => None) demo_login (fun _ => None) (fun _ => None) (fun _ => None) (fun _ => None)
    demo_proxy 5 1 77 2 (SocketData 5 0 0 0 true 0 [])); [done..|by vm_compute].
Defined.
