(* ===== verification/Sender.v ===== *)
(** Sending through a shared-memory channel without waiting: a service and its
    gate put a message in the channel or, when the ring is full or messages are
    already waiting, at the end of a queue that a coroutine empties
    (src/gobang/gate/local_service.cpp, src/gobang/kernel/gate_connector.cpp).

    A coroutine is where it is suspended ([writer]). The scheduler and the
    polling thread of the channels decide when it is resumed: these are events
    of a line, whose other end reads whole messages. *)

From S2P Require Import Prelude Digest ShmRing ShmBuffer ShmChannel.

(** * Operations *)

(** Where the coroutine of [auto_write] or [channel_write] is. *)
Inductive writer :=
  | NotStarted
  | InCondition   (* suspended in [cv_send_queue.wait()] *)
  | InChannel     (* suspended in [channel->write], until the polling thread finds room *)
  | Runnable.     (* posted, or in the scheduler's list *)

Section sender.
Context {R : Type} `{ByteRing R}.

Record sender := Sender { channel : option (shm_channel R); send_queue : list bytes; wr : writer }.

(** [cv_send_queue.notify_all()]: one coroutine waits at most. *)
Definition notify_all (w : writer) : writer := match w with InCondition => Runnable | _ => w end.

Definition enqueue (s : sender) (m : bytes) : sender := Sender (channel s) (send_queue s ++ [m]) (notify_all (wr s)).

(** [local_service::write]; the channel exists since the service does. *)
Definition local_write (s : sender) (m : bytes) : option sender :=
  match send_queue s with
  | [] =>
      ch ← channel s;
      '(ok, ch) ← try_write ch m;
      let s := Sender (Some ch) [] (wr s) in
      Some (if (ok : bool) then s else enqueue s m)
  | _ => Some (enqueue s m)
  end.

(** [gate_connector::write], of the message [init] builds. *)
Definition connector_write (s : sender) (m : bytes) : option sender :=
  match channel s, send_queue s with
  | Some ch, [] =>
      '(ok, ch) ← try_write ch m;
      let s := Sender (Some ch) [] (wr s) in
      Some (if (ok : bool) then s else enqueue s m)
  | _, _ => Some (enqueue s m)
  end.

(** The loop of [auto_write] and [channel_write] to its next suspension; a
    resumption in [shm_channel::write] tries the first message again, as the
    loop does. *)
Fixpoint writer_loop (ch : shm_channel R) (q : list bytes) : option (shm_channel R * list bytes * writer) :=
  match q with
  | [] => Some (ch, [], InCondition)
  | m :: q' =>
      '(ok, ch) ← try_write ch m;
      if (ok : bool) then writer_loop ch q' else Some (ch, m :: q', InChannel)
  end.

Definition writer_turn (s : sender) : option sender :=
  ch ← channel s;
  '(ch, q, w) ← writer_loop ch (send_queue s);
  Some (Sender (Some ch) q w).

(** The channel is there: the connector has registered, the service was
    created. The coroutine is posted. *)
Definition attach (s : sender) (ch : shm_channel R) : sender := Sender (Some ch) (send_queue s) Runnable.

Definition sender_new : sender := Sender None [] NotStarted.
End sender.
Arguments sender : clear implicits.

(** * A line

    Both rings of the channel are shared with the process at the other end. *)

Section line.
Context (size : Z).

(** The rings, the sender at this end, the messages the other end has read. *)
Record line := Line { rings : link; snd_ : sender shm_buffer; got : list bytes }.

Definition line_new : line := Line (Link (shm_create size) (shm_create size)) sender_new [].

Inductive line_op :=
  | Attach
  | Put (m : bytes)     (* [write] *)
  | Turn                (* the scheduler resumes the coroutine *)
  | Room                (* the polling thread looks at the coroutine's entry *)
  | Take.               (* the other end reads a message that is there *)

(** The sender works on the rings as they are now. *)
Definition at_end (l : line) : sender shm_buffer :=
  match channel (snd_ l) with
  | Some _ => Sender (Some (end_of true (rings l))) (send_queue (snd_ l)) (wr (snd_ l))
  | None => snd_ l
  end.

Definition after (l : line) (s : sender shm_buffer) : line :=
  Line (match channel s with Some ch => put_end true ch | None => rings l end) s (got l).

Definition line_step (l : line) (op : line_op) : option line :=
  match op with
  | Attach =>
      match channel (snd_ l) with
      | Some _ => Some l
      | None => Some (after l (attach (snd_ l) (end_of true (rings l))))
      end
  | Put m => s ← connector_write (at_end l) m; Some (after l s)
  | Turn =>
      match wr (snd_ l) with
      | Runnable => s ← writer_turn (at_end l); Some (after l s)
      | _ => Some l
      end
  | Room =>
      match wr (snd_ l), send_queue (snd_ l), channel (at_end l) with
      | InChannel, m :: _, Some ch =>
          Some (if is_ready (SelectData ch false (need_writable m))
                then Line (rings l) (Sender (channel (snd_ l)) (send_queue (snd_ l)) Runnable) (got l) else l)
      | _, _, _ => Some l
      end
  | Take =>
      '(r, ch) ← (r ← read_start (end_of false (rings l));
                  Some (match r with inr (m, ch) => (Some m, ch) | inl _ => (None, end_of false (rings l)) end));
      match r with
      | Some m => Some (Line (put_end false ch) (snd_ l) (got l ++ [m]))
      | None => Some l
      end
  end.

Fixpoint line_run (l : line) (ops : list line_op) : option line :=
  match ops with
  | [] => Some l
  | op :: ops => l ← line_step l op; line_run l ops
  end.

Definition puts (ops : list line_op) : list bytes :=
  omap (fun op => match op with Put m => Some m | _ => None end) ops.
End line.

(** * Lemmas *)

Section lemmas.
Context (size : Z).

Definition small_message (m : bytes) : Prop := zlen m < 2 ^ 32.

(** Whatever it finds, the coroutine moves a first part of the queue to the
    ring and suspends. *)
Lemma writer_loop_ok queue : forall (ch : shm_channel shm_buffer) q,
  holds size (write_ ch) q -> Forall small_message queue ->
  exists w sent rest, queue = sent ++ rest /\
    writer_loop ch queue = Some (ShmChannel w (read_ ch), rest, match rest with [] => InCondition | _ => InChannel end) /\
    holds size w (q ++ sent) /\
    match queue with m :: _ => fst (push_msg size q m) = true -> sent <> [] | [] => True end.
Proof.
  induction queue as [|m queue IH]; intros ch q Hh Hq; cbn [writer_loop].
  - exists (write_ ch), [], []. rewrite (app_nil_r q). split; [done|]. split; [by destruct ch|by split].
  - apply list.Forall_cons in Hq as [Hm Hq]. destruct (send_ok size ch q m Hh Hm) as (w & -> & Hw). cbn [mbind option_bind].
    unfold push_msg in *. destruct (_ <=? size); cbn [fst snd] in *.
    + destruct (IH (ShmChannel w (read_ ch)) (q ++ [m]) Hw Hq) as (w' & sent & rest & -> & E & Hw' & _).
      exists w', (m :: sent), rest. split; [done|]. split; [exact E|]. rewrite <-(assoc_L (++)) in Hw'. by split.
    + exists w, [], (m :: queue). by rewrite (app_nil_r q).
Qed.

Lemma connector_write_ok (s : sender shm_buffer) (ch : shm_channel shm_buffer) q m :
  channel s = Some ch -> holds size (write_ ch) q -> small_message m ->
  exists w sent queue, connector_write s m = Some (Sender (Some (ShmChannel w (read_ ch))) queue
      (match queue with [] => wr s | _ => notify_all (wr s) end)) /\
    send_queue s ++ [m] = sent ++ queue /\ holds size w (q ++ sent) /\ (send_queue s <> [] -> sent = []).
Proof.
  intros Hc Hh Hm. unfold connector_write. rewrite Hc. destruct (send_queue s) as [|x queue] eqn:Eq.
  - destruct (send_ok size ch q m Hh Hm) as (w & -> & Hw). cbn [mbind option_bind]. unfold push_msg in *.
    destruct (_ <=? size); cbn [fst snd] in *.
    + exists w, [m], []. done.
    + exists w, [], [m]. by rewrite (app_nil_r q).
  - exists (write_ ch), [], (x :: queue ++ [m]). rewrite (app_nil_r q). split; [|done].
    unfold enqueue. rewrite Hc, Eq. by destruct ch.
Qed.

(** Both writers do the same once the channel is there. *)
Lemma local_write_same (s : sender shm_buffer) m : is_Some (channel s) -> local_write s m = connector_write s m.
Proof. intros [ch E]. unfold local_write, connector_write. rewrite E. by destruct (send_queue s). Qed.

(** What was given to [write] was read by the other end, is in the ring or
    waits, in this order; the coroutine does not sleep on messages. *)
Record line_ok (l : line) (ms : list bytes) : Prop := {
  li_ring : exists q, holds size (forth (rings l)) q /\ ms = got l ++ q ++ send_queue (snd_ l) /\
    (channel (snd_ l) = None -> q = []);
  li_small : Forall small_message (send_queue (snd_ l));
  li_started : channel (snd_ l) = None <-> wr (snd_ l) = NotStarted;
  li_awake : wr (snd_ l) = InCondition -> send_queue (snd_ l) = [];
  li_writing : wr (snd_ l) = InChannel -> send_queue (snd_ l) <> [] }.

Lemma line_new_ok : 0 < size < 2 ^ 62 -> line_ok (line_new size) [].
Proof.
  intros Hs. split; try done. exists []. split; [by apply created_holds|done].
Qed.

Lemma at_end_channel l : is_Some (channel (snd_ l)) ->
  at_end l = Sender (Some (end_of true (rings l))) (send_queue (snd_ l)) (wr (snd_ l)).
Proof. intros [ch E]. unfold at_end. by rewrite E. Qed.

Lemma line_step_ok l ms op :
  line_ok l ms -> (forall m, op = Put m -> small_message m) ->
  exists l', line_step l op = Some l' /\ line_ok l' (ms ++ puts [op]).
Proof.
  intros [(q & Hh & -> & Hq) Hsm Hst Haw Hwr] Hop.
  assert (Hsame : line_ok l ((got l ++ q ++ send_queue (snd_ l)) ++ [])).
  { rewrite app_nil_r. split; try done. by exists q. }
  destruct op as [|m| | |]; cbn [line_step puts omap list_omap].
  - destruct (channel (snd_ l)) eqn:Ec; [by exists l|]. eexists. split; [reflexivity|]. rewrite app_nil_r.
    split; cbn; try done. exists q. split; [|done]. by destruct l as [[]].
  - specialize (Hop m eq_refl). destruct (channel (snd_ l)) as [ch0|] eqn:Ec.
    + rewrite at_end_channel by by rewrite Ec.
      destruct (connector_write_ok (Sender (Some (end_of true (rings l))) (send_queue (snd_ l)) (wr (snd_ l)))
        (end_of true (rings l)) q m eq_refl Hh Hop) as (w & sent & queue & -> & Eq & Hw & Hs).
      cbn [mbind option_bind]. eexists. split; [reflexivity|]. cbn [send_queue wr] in *.
      assert (Hall : Forall small_message (sent ++ queue)) by (rewrite <-Eq; apply Forall_app_2; [done|by repeat constructor]).
      apply list.Forall_app in Hall as [_ Hall].
      assert (Hws : wr (snd_ l) <> NotStarted) by (intros E; apply Hst in E; congruence).
      split; cbn; try done.
      * exists (q ++ sent). split; [exact Hw|]. split; [|done]. by rewrite <-!(assoc_L (++)), Eq.
      * split; [done|]. intros E. exfalso. destruct queue; [done|]. by destruct (wr (snd_ l)).
      * destruct queue; [done|]. intros E. exfalso. by destruct (wr (snd_ l)).
      * intros E. assert (En : wr (snd_ l) = InChannel) by (destruct queue; [done|by destruct (wr (snd_ l))]).
        rewrite (Hs (Hwr En)) in Eq. cbn in Eq. rewrite <-Eq. by intros [_ ?]%app_nil.
    + eexists. unfold at_end. rewrite Ec. unfold connector_write. rewrite Ec. split; [reflexivity|].
      assert (Hws : wr (snd_ l) = NotStarted) by by apply Hst.
      split; cbn; rewrite ?Ec, ?Hws; try done.
      * exists q. split; [exact Hh|]. by rewrite (Hq eq_refl), <-!(assoc_L (++)).
      * apply Forall_app_2; [done|by repeat constructor].
  - destruct (wr (snd_ l)) eqn:Ew; [by exists l..|].
    destruct (channel (snd_ l)) as [ch0|] eqn:Ec; [|by specialize (proj1 Hst eq_refl)].
    rewrite at_end_channel by by rewrite Ec. unfold writer_turn. cbn [channel send_queue mbind option_bind].
    destruct (writer_loop_ok (send_queue (snd_ l)) (end_of true (rings l)) q Hh Hsm) as (w & sent & rest & Eq & -> & Hw & _).
    cbn [mbind option_bind]. eexists. split; [reflexivity|]. rewrite app_nil_r.
    rewrite Eq in Hsm. apply list.Forall_app in Hsm as [_ Hsm]. split; cbn; try done.
    + exists (q ++ sent). split; [exact Hw|]. split; [|done]. by rewrite Eq, <-!(assoc_L (++)).
    + split; [done|]. by destruct rest.
    + by destruct rest.
    + by destruct rest.
  - destruct (wr (snd_ l)) eqn:Ew; try (by exists l).
    destruct (send_queue (snd_ l)) as [|m queue] eqn:Es; [by exists l|].
    destruct (channel (at_end l)) as [ch|] eqn:Ec; [|by exists l].
    destruct (is_ready _); [|by exists l]. eexists. split; [reflexivity|]. rewrite app_nil_r. split; cbn; try done.
    + exists q. by rewrite <-Es in *.
    + split; [|done]. intros E. apply Hst in E. congruence.
  - unfold read_start. pose proof Hh as (Hi & Hc & Hf & Hqs).
    pose proof (read_any_ok (end_of false (rings l)) q WaitLength Hi Hc Hqs) as Hr. cbn [read_resume] in Hr.
    destruct q as [|m q].
    + rewrite Hr by done. cbn [mbind option_bind]. by exists l.
    + destruct Hr as (r & -> & Hri & Hrc & Hrf); [done|]. cbn [mbind option_bind]. eexists. split; [reflexivity|].
      rewrite app_nil_r. apply list.Forall_cons in Hqs as [Hm Hqs]. split; cbn; try done.
      exists q. split; [|split; [by rewrite <-!(assoc_L (++))|by intros E; specialize (Hq E)]].
      split; [done|]. split; [done|]. split; [|done]. cbn [read_ end_of] in Hrf. unfold header_size in *.
      destruct (framed_head m q Hm) as (_ & _ & _ & Hz). rewrite Hrf, Hf, Hz. lia.
Qed.

Lemma puts_app ops ops' : puts (ops ++ ops') = puts ops ++ puts ops'.
Proof. apply omap_app. Qed.

Lemma line_run_ok ops : forall l ms, line_ok l ms -> Forall small_message (puts ops) ->
  exists l', line_run l ops = Some l' /\ line_ok l' (ms ++ puts ops).
Proof.
  induction ops as [|op ops IH]; intros l ms Hl Hs; cbn [line_run].
  - exists l. cbn. by rewrite app_nil_r.
  - change (op :: ops) with ([op] ++ ops) in Hs |- *. rewrite puts_app in Hs |- *. apply list.Forall_app in Hs as [Hs1 Hs2].
    destruct (line_step_ok l ms op Hl) as (l1 & -> & H1).
    { intros m ->. by apply list.Forall_cons in Hs1 as [? _]. }
    cbn [mbind option_bind]. rewrite (assoc_L (++)). by apply IH.
Qed.

Lemma line_run_app ops ops' l : line_run l (ops ++ ops') = l' ← line_run l ops; line_run l' ops'.
Proof.
  revert l. induction ops as [|op ops IH]; intros l; [done|]. cbn [line_run app]. destruct (line_step l op); [|done].
  cbn [mbind option_bind]. apply IH.
Qed.
End lemmas.

(** * Delivery *)

Section delivery.
Context (size : Z) (Hsize : 0 < size < 2 ^ 62).

Definition fits (m : bytes) : Prop := zlen (frame m) <= size.

Lemma push_empty m : fits m -> fst (push_msg size [] m) = true.
Proof.
  unfold fits, push_msg. rewrite zlen_frame. intros Hm. change (zlen (framed [])) with 0.
  by rewrite (proj2 (Z.leb_le _ _)) by lia.
Qed.

Lemma holds_inj r q q' : holds size r q -> framed q = framed q' -> Forall (fun m => zlen m < 2 ^ 32) q' -> q = q'.
Proof.
  intros (_ & _ & _ & Hq) E Hq'. revert q' E Hq'. induction Hq as [|m q Hm _ IH]; intros [|m' q'] E Hq'; [done|..].
  - apply list.Forall_cons in Hq' as [Hm' _]. destruct (framed_head m' q' Hm') as (_ & _ & _ & Hz).
    rewrite <-E in Hz. change (zlen (framed [])) with 0 in Hz. pose proof (zlen_nonneg m'). pose proof (zlen_nonneg (framed q')). lia.
  - destruct (framed_head m q Hm) as (_ & _ & _ & Hz).
    rewrite E in Hz. change (zlen (framed [])) with 0 in Hz. pose proof (zlen_nonneg m). pose proof (zlen_nonneg (framed q)). lia.
  - apply list.Forall_cons in Hq' as [Hm' Hq'].
    destruct (framed_head m q Hm) as (T1 & T2 & T3 & _). destruct (framed_head m' q' Hm') as (T1' & T2' & T3' & _).
    assert (Hl : zlen m = zlen m').
    { rewrite <-(get_put32 (zlen m)), <-(get_put32 (zlen m')) by (pose proof (zlen_nonneg m); pose proof (zlen_nonneg m'); word).
      by rewrite <-T1, <-T1', E. }
    assert (m = m') as <- by (by rewrite <-T2, <-T2', E, Hl). f_equal. apply IH; [|done]. by rewrite <-T3, <-T3', E.
Qed.

(** The other end empties the ring. *)
Lemma take_all q : forall l, holds size (forth (rings l)) q ->
  exists l', line_run l (replicate (length q) Take) = Some l' /\ holds size (forth (rings l')) [] /\
    snd_ l' = snd_ l /\ got l' = got l ++ q.
Proof.
  induction q as [|m q IH]; intros l Hh; cbn [length replicate line_run].
  - exists l. by rewrite app_nil_r.
  - pose proof Hh as (Hi & Hc & Hf & Hqs). cbn [line_step]. unfold read_start.
    pose proof (read_any_ok (end_of false (rings l)) (m :: q) WaitLength Hi Hc Hqs) as Hr. cbn [read_resume] in Hr.
    destruct Hr as (r & -> & Hri & Hrc & Hrf); [done|]. cbn [mbind option_bind].
    apply list.Forall_cons in Hqs as [Hm Hqs]. destruct (framed_head m q Hm) as (_ & _ & _ & Hz).
    destruct (IH (Line (put_end false (ShmChannel (write_ (end_of false (rings l))) r)) (snd_ l) (got l ++ [m])))
      as (l' & -> & Hl' & Hs & Hg).
    { split; [done|]. split; [done|]. split; [|done]. cbn [read_ end_of rings put_end forth] in *.
      rewrite Hrf, Hf, Hz. unfold header_size. lia. }
    exists l'. split; [done|]. split; [done|]. split; [done|]. rewrite Hg. cbn [got]. by rewrite <-(assoc_L (++)).
Qed.

(** One round moves the first waiting message, or more. *)
Lemma round_ok l ms m queue : line_ok size l ms -> is_Some (channel (snd_ l)) -> holds size (forth (rings l)) [] ->
  send_queue (snd_ l) = m :: queue -> fits m ->
  exists l' sent rest, line_run l [Room; Turn] = Some l' /\ m :: queue = sent ++ rest /\ sent <> [] /\
    holds size (forth (rings l')) sent /\ send_queue (snd_ l') = rest /\ got l' = got l.
Proof.
  intros [_ Hsm Hst Haw _] Hch Hh Eq Hm. rewrite Eq in *.
  assert (Hroom : exists l1, line_step l Room = Some l1 /\ rings l1 = rings l /\ got l1 = got l /\
    is_Some (channel (snd_ l1)) /\ send_queue (snd_ l1) = m :: queue /\ wr (snd_ l1) = Runnable).
  { cbn [line_step]. destruct (wr (snd_ l)) eqn:Ew.
    - destruct Hch as [? E]. rewrite (proj2 Hst eq_refl) in E. done.
    - specialize (Haw eq_refl). done.
    - rewrite Eq, at_end_channel by done. cbn [channel].
      assert (Hr : is_ready (SelectData (end_of true (rings l)) false (need_writable m)) = true).
      { destruct Hh as (Hi & Hc & Hf & _). unfold is_ready. cbn [sd_read sd_size sd_channel write_ end_of].
        rewrite ring_writable_law by done. rewrite Hf. unfold need_writable, header_size. unfold fits in Hm. rewrite zlen_frame in Hm.
        apply Z.leb_le. change (zlen (framed [])) with 0. lia. }
      rewrite Hr. eexists. split; [reflexivity|]. done.
    - exists l. by rewrite Eq. }
  destruct Hroom as (l1 & E1 & Er & Eg & Hch1 & Eq1 & Ew1). cbn [line_run]. rewrite E1. cbn [mbind option_bind line_step].
  rewrite Ew1, at_end_channel by done. unfold writer_turn. cbn [channel send_queue mbind option_bind]. rewrite Eq1.
  rewrite <-Er in Hh.
  destruct (writer_loop_ok size (m :: queue) (end_of true (rings l1)) [] Hh Hsm) as (w & sent & rest & Es & -> & Hw & Hne).
  cbn [mbind option_bind]. eexists _, sent, rest. split; [reflexivity|]. split; [done|]. split; [by apply Hne, push_empty|].
  split; [exact Hw|]. split; [done|]. cbn. by rewrite Eg.
Qed.

Lemma puts_takes n : puts (replicate n Take) = [].
Proof. by induction n. Qed.

Lemma deliver n : forall l ms, line_ok size l ms -> is_Some (channel (snd_ l)) -> Forall fits (send_queue (snd_ l)) ->
  (length (send_queue (snd_ l)) <= n)%nat ->
  exists ops l', puts ops = [] /\ line_run l ops = Some l' /\ got l' = ms.
Proof.
  induction n as [|n IH]; intros l ms Hl Hch Hf Hn; destruct (li_ring size l ms Hl) as (q & Hh & -> & _);
    destruct (take_all q l Hh) as (l1 & E1 & Hh1 & Es1 & Eg1).
  - destruct (send_queue (snd_ l)) eqn:Eq; [|cbn in Hn; lia].
    exists (replicate (length q) Take), l1. split; [apply puts_takes|]. split; [done|]. by rewrite Eg1, app_nil_r.
  - destruct (send_queue (snd_ l)) as [|m queue] eqn:Eq.
    { exists (replicate (length q) Take), l1. split; [apply puts_takes|]. split; [done|]. by rewrite Eg1, app_nil_r. }
    apply list.Forall_cons in Hf as [Hm Hf].
    pose proof (puts_takes (length q)) as Hp.
    assert (Hl1 : line_ok size l1 (got l ++ q ++ m :: queue)).
    { destruct (line_run_ok size (replicate (length q) Take) l _ Hl) as (l1' & E & Hl1); [by rewrite Hp|].
      rewrite E1 in E. injection E as <-. by rewrite Hp, app_nil_r in Hl1. }
    destruct (round_ok l1 _ m queue Hl1) as (l2 & sent & rest & E2 & Esr & Hne & Hh2 & Eq2 & Eg2);
      [by rewrite Es1|done|by rewrite Es1|done|].
    assert (Hl2 : line_ok size l2 (got l ++ q ++ m :: queue)).
    { destruct (line_run_ok size [Room; Turn] l1 _ Hl1) as (l2' & E & Hl2); [constructor|].
      rewrite E2 in E. injection E as <-. by rewrite app_nil_r in Hl2. }
    destruct (IH l2 _ Hl2) as (ops & l3 & Hp3 & E3 & Eg3).
    + destruct (li_started size l2 _ Hl2) as [_ Hst]. destruct (channel (snd_ l2)) eqn:Ec; [by eexists|].
      exfalso. destruct (li_ring size l2 _ Hl2) as (q2 & Hh2' & _ & Hq2). rewrite (Hq2 Ec) in Hh2'. apply Hne.
      apply (holds_inj _ sent [] Hh2); [|constructor]. destruct Hh2 as (_ & <- & _). by destruct Hh2' as (_ & <- & _).
    + rewrite Eq2. change (m :: queue) with ([m] ++ queue) in Esr. 
      assert (Hall : Forall fits (sent ++ rest)) by (rewrite <-Esr; by constructor). by apply list.Forall_app in Hall as [_ ?].
    + rewrite Eq2. apply (f_equal length) in Esr. rewrite length_app in Esr. cbn in Esr, Hn. destruct sent; [done|cbn in Esr; lia].
    + exists (replicate (length q) Take ++ [Room; Turn] ++ ops), l3. split; [by rewrite !puts_app, Hp, Hp3|].
      split; [|done]. rewrite line_run_app, E1. cbn [mbind option_bind]. by rewrite line_run_app, E2.
Qed.
End delivery.

(** * Properties *)

(** C27: whatever the interleaving of writes, resumptions of the coroutine,
    polling and reading, before and after the channel is there, no access
    leaves the segment, and the messages given to [write] are, in order and
    once: those the other end has read, those in the ring, those in the queue.
    The coroutine never sleeps in the condition while messages wait. *)
Theorem line_fifo (size : Z) (ops : list line_op) :
  0 < size < 2 ^ 62 -> Forall small_message (puts ops) ->
  exists l, line_run (line_new size) ops = Some l /\
    (exists q, ring_contents (forth (rings l)) = framed q /\ puts ops = got l ++ q ++ send_queue (snd_ l)) /\
    (wr (snd_ l) = InCondition -> send_queue (snd_ l) = []).
Proof.
  intros Hs Hm. destruct (line_run_ok size ops (line_new size) [] (line_new_ok size Hs) Hm) as (l & E & Hl).
  exists l. split; [done|]. split; [|apply Hl]. destruct (li_ring size l _ Hl) as (q & (_ & Hc & _) & Hq & _). by exists q.
Qed.

Definition demo_ops : list line_op :=
  [Put [1; 2]; Attach; Put [3]; Turn; Put [4; 5; 6]; Take; Room; Turn; Take].

Lemma line_fifo_witness :
  Forall small_message (puts demo_ops) /\
  exists l, line_run (line_new 12) demo_ops = Some l /\
    (exists q, ring_contents (forth (rings l)) = framed q /\ puts demo_ops = got l ++ q ++ send_queue (snd_ l)) /\
    (wr (snd_ l) = InCondition -> send_queue (snd_ l) = []).
Proof.
  assert (H : Forall small_message (puts demo_ops)) by (repeat constructor).
  split; [exact H|]. apply (line_fifo 12 demo_ops); [lia|exact H].
Defined.

(** C28: from every state a line with a channel can reach, the scheduler, the
    polling thread and the reader can go on so that the other end has read
    every message given to [write]: nothing is stuck, provided each message
    fits in the ring. *)
Theorem line_delivers (size : Z) (ops : list line_op) (l : line) :
  0 < size < 2 ^ 62 -> Forall small_message (puts ops) -> Forall (fits size) (puts ops) ->
  line_run (line_new size) ops = Some l -> is_Some (channel (snd_ l)) ->
  exists ops' l', puts ops' = [] /\ line_run l ops' = Some l' /\ got l' = puts ops.
Proof.
  intros Hs Hm Hf E Hch. destruct (line_run_ok size ops (line_new size) [] (line_new_ok size Hs) Hm) as (l0 & E0 & Hl).
  rewrite E in E0. injection E0 as <-. apply (deliver size (length (send_queue (snd_ l))) l); try done.
  destruct (li_ring size l _ Hl) as (q & _ & Eq & _). cbn [app] in Eq. rewrite Eq in Hf.
  by apply list.Forall_app in Hf as [_ [_ ?]%list.Forall_app].
Qed.

Lemma line_delivers_witness :
  exists l, line_run (line_new 12) demo_ops = Some l /\
  exists ops' l', puts ops' = [] /\ line_run l ops' = Some l' /\ got l' = puts demo_ops.
Proof.
  destruct (line_run (line_new 12) demo_ops) as [l|] eqn:E; [|exfalso; vm_compute in E; discriminate E].
  exists l. split; [reflexivity|]. apply (line_delivers 12 demo_ops l).
  - lia.
  - repeat constructor.
  - repeat (constructor; [vm_compute; discriminate|]). constructor.
  - exact E.
  - vm_compute in E. injection E as <-. by eexists.
Defined.
