(* ===== verification/GateConnector.v ===== *)
(** The side of the services (src/gobang/kernel/gate_connector.cpp): what a
    service does with the messages of its gate, the table of the services it
    subscribes to, and how it picks one. Its sending side is in Sender.v, its
    calls in RpcSystem.v.

    The theorems at the end put the parts together: the table against the
    gate's services (Gate.v), and a player's request and the answer to it from
    the proxy (Proxy.v) to a service and back. *)

From stdpp Require Import gmap.
From S2P Require Import Prelude Digest Websocket ProtoUtils GateMaster RpcSystem Proxy Gate.

(** * Data *)

Definition msg_mask : Z := 0xf000.
Definition msg_s2s_ack : Z := 0x5000.
Definition id_s_service_subscribe_brd : Z := 0x6006.
Definition st_login : Z := 3.

(** [service_info_subscribe]: an id and whether it is online. *)
Abbreviation subscribes := (gmap Z (list (Z * bool))).

(** * Operations *)

Section connector.
Context {M : Type} (parse : bytes -> option M) (parse_brd : bytes -> option (list service_info)).

Record gate_connector := GateConnector { socket_ : Z; system_ : rpc_world M; subscribes_ : subscribes }.

(** A call of [forward_]. *)
Inductive forwarded := Forwarded (from session id : Z) (buf : bytes).

(** The loop of [update_subscribe] and what follows it. *)
Fixpoint update_entry (id : Z) (online : bool) (l : list (Z * bool)) : list (Z * bool) :=
  match l with
  | [] => [(id, online)]
  | s :: l => if s.1 =? id then (id, online) :: l else s :: update_entry id online l
  end.

Definition update_subscribe (t : subscribes) (s : service_info) : subscribes :=
  <[u16 (s_tp s) := update_entry (u16 (s_id s)) (s_online s) (from_option id [] (t !! u16 (s_tp s)))]> t.

Definition update_all (c : gate_connector) (l : list service_info) : gate_connector :=
  GateConnector (socket_ c) (system_ c) (fold_left update_subscribe l (subscribes_ c)).

Definition find_subscribe (t : subscribes) (tp : Z) : option (list (Z * bool)) := t !! tp.

(** [pick] is what the distribution over the online services draws. *)
Definition rand_subscribe (t : subscribes) (tp : Z) (pick : nat) : Z :=
  match find_subscribe t tp with
  | None | Some [] => 0
  | Some l =>
      match (filter (fun s => s.2 = true) l).*1 with
      | [] => 0
      | [id] => id
      | online => nth (pick mod length online) online 0
      end
  end.

Definition forward_gate (c : gate_connector) (id : Z) (buf : bytes) : gate_connector :=
  if negb (id =? id_s_service_subscribe_brd) then c
  else match parse_brd buf with None => c | Some l => update_all c l end.

(** A message that may answer a call. *)
Definition may_answer (id session : Z) : bool := (Z.land id msg_mask =? msg_s2s_ack) && negb (session =? 0).

(** [wake_up_session], when the message may answer a call. *)
Definition answers (c : gate_connector) (id session : Z) (buf : bytes) : option (bool * gate_connector) :=
  if negb (may_answer id session) then Some (false, c)
  else
    '(ok, w) ← receive parse (system_ c) session buf;
    Some (ok, GateConnector (socket_ c) w (subscribes_ c)).

(** A message in the loop of [run]. *)
Definition socket_message (c : gate_connector) (header : net_header) (buf : bytes) : option gate_connector :=
  '(ok, c) ← answers c (h_id header) (h_session header) buf;
  Some (if (ok : bool) then c else forward_gate c (h_id header) buf).

(** A message in the loop of [channel_read]; the header of a shorter one is
    read past its end. *)
Definition channel_message (c : gate_connector) (buf : bytes) : option (gate_connector * list forwarded) :=
  if zlen buf <? forward_part_size then None
  else
    let part := forward_of buf in
    let buf := zdrop forward_part_size buf in
    '(ok, c) ← answers c (f_id part) (f_session part) buf;
    Some (c, if (ok : bool) then [] else [Forwarded (f_from part) (f_session part) (f_id part) buf]).

(** The request of [subscribe]. *)
Definition subscribe_request (tp : Z) : Z := st_login.

(** A turn of the loop of [subscribe] for the connection [socket]: it ends, or
    calls the gate. *)
Definition subscribe_ends (c : gate_connector) (socket : Z) : bool := negb (socket =? socket_ c).

(** The answer of the call, [None] after five seconds: whether the loop ends. *)
Definition subscribe_answered (c : gate_connector) (answer : option (Z * list service_info)) : bool * gate_connector :=
  match answer with
  | None => (false, c)
  | Some (ec, services) => if ec =? Gate.ec_success then (true, update_all c services) else (false, c)
  end.
End connector.
Arguments gate_connector : clear implicits.

(** * The table *)

(** The entry of a service. *)
Definition entry (t : subscribes) (tp id : Z) : option bool :=
  snd <$> List.find (fun s => s.1 =? id) (from_option (fun l => l) [] (t !! tp)).

Definition entry_ids (t : subscribes) (tp : Z) : list Z := (from_option (fun l => l) [] (t !! tp)).*1.

Definition table_ok (t : subscribes) : Prop := forall tp, NoDup (entry_ids t tp).

Lemma find_update id id' online l :
  snd <$> List.find (fun s => s.1 =? id') (update_entry id online l) =
  if id' =? id then Some online else snd <$> List.find (fun s => s.1 =? id') l.
Proof.
  induction l as [|[i b] l IH]; cbn [update_entry].
  - cbn. rewrite Z.eqb_sym. by destruct (id' =? id).
  - cbn [fst]. destruct (Z.eqb_spec i id) as [->|Hne].
    + cbn. rewrite (Z.eqb_sym id). by destruct (id' =? id).
    + cbn [List.find fst]. destruct (Z.eqb_spec i id') as [->|Hne']; [|exact IH].
      by rewrite (proj2 (Z.eqb_neq _ _)).
Qed.

Lemma entry_update t s tp id :
  entry (update_subscribe t s) tp id =
  if (tp =? u16 (s_tp s)) && (id =? u16 (s_id s)) then Some (s_online s) else entry t tp id.
Proof.
  unfold entry, update_subscribe. destruct (Z.eqb_spec tp (u16 (s_tp s))) as [->|Hne]; cbn [andb].
  - rewrite lookup_insert_eq. cbn [from_option]. rewrite find_update. done.
  - by rewrite lookup_insert_ne.
Qed.

Lemma update_entry_ids id online l x : x ∈ (update_entry id online l).*1 <-> x = id \/ x ∈ l.*1.
Proof.
  induction l as [|[i b] l IH]; cbn [update_entry fst fmap list_fmap].
  - rewrite list_elem_of_singleton. split; [auto|]. intros [?|H]; [done|]. by apply not_elem_of_nil in H.
  - destruct (Z.eqb_spec i id) as [->|Hne]; cbn [fmap list_fmap fst]; rewrite !list.elem_of_cons; [tauto|]. rewrite IH. tauto.
Qed.

Lemma update_entry_nodup id online l : NoDup l.*1 -> NoDup (update_entry id online l).*1.
Proof.
  induction l as [|[i b] l IH]; cbn [update_entry fst fmap list_fmap]; [intros _; apply list.NoDup_singleton|].
  intros [Hi Hl]%list.NoDup_cons. destruct (Z.eqb_spec i id) as [->|Hne]; cbn [fmap list_fmap fst]; apply list.NoDup_cons; [done|].
  split; [|by apply IH]. rewrite update_entry_ids. intros [?|?]; done.
Qed.

Lemma table_update t s : table_ok t -> table_ok (update_subscribe t s).
Proof.
  intros Ht tp. unfold entry_ids, update_subscribe. destruct (decide (tp = u16 (s_tp s))) as [->|Hne].
  - rewrite lookup_insert_eq. cbn [from_option]. apply update_entry_nodup, Ht.
  - rewrite lookup_insert_ne by done. apply Ht.
Qed.

Lemma table_fold l : forall t, table_ok t -> table_ok (fold_left update_subscribe l t).
Proof. induction l as [|s l IH]; intros t Ht; [done|]. cbn. apply IH. by apply table_update. Qed.

(** The last information on a service is its entry. *)
Lemma entry_fold l : forall t tp id,
  entry (fold_left update_subscribe l t) tp id =
  match list.last (filter (fun s => u16 (s_tp s) = tp /\ u16 (s_id s) = id) l) with
  | Some s => Some (s_online s)
  | None => entry t tp id
  end.
Proof.
  induction l as [|s l IH]; intros t tp id; [done|]. cbn [fold_left]. rewrite IH, list.filter_cons, entry_update.
  destruct (decide (u16 (s_tp s) = tp /\ u16 (s_id s) = id)) as [[<- <-]|Hne].
  - rewrite !Z.eqb_refl. cbn [andb]. rewrite list.last_cons. by destruct (list.last _).
  - destruct (list.last _); [done|]. destruct (Z.eqb_spec tp (u16 (s_tp s))), (Z.eqb_spec id (u16 (s_id s))); cbn; try done.
    subst. tauto.
Qed.

Lemma entry_in l tp id b t : table_ok t -> t !! tp = Some l -> (id, b) ∈ l -> entry t tp id = Some b.
Proof.
  intros Ht E. specialize (Ht tp). unfold entry_ids, entry in *. rewrite E in *. cbn [from_option] in *. clear E.
  induction l as [|[i c] l IH]; intros Hin; [by apply not_elem_of_nil in Hin|]. cbn in *.
  apply list.NoDup_cons in Ht as [Hi Hl]. apply list.elem_of_cons in Hin as [[= <- <-]|Hin].
  - by rewrite Z.eqb_refl.
  - destruct (Z.eqb_spec i id) as [->|Hne]; [|by apply IH]. exfalso. apply Hi. apply list_elem_of_fmap. by exists (id, b).
Qed.

(** * The table and the gate *)

Section known.
Context (id : Z) (evs : list Gate.event) (g : Gate.gate) (out : list Gate.effect).
Context (Hev : Forall Gate.event_ok evs) (Hrun : Gate.run (gate_new id) evs = (g, out)) (Hu : unique g).

(** What a connection was sent is on services of the gate, by their numbers. *)
Lemma sent_infos k s : s ∈ infos k out ->
  exists o v, objects g !! o = Some v /\ v_id v = s_id s /\ v_tp v = s_tp s /\ u16 (s_id s) = s_id s /\ u16 (s_tp s) = s_tp s.
Proof.
  intros Hs. destruct (gate_run_ok id evs g out Hev Hrun) as [R _ _ _ _ A _].
  destruct (A k s Hs) as (o & v & Hv & E1 & E2). destruct (go_object g R o v Hv) as (H1 & H2 & _).
  exists o, v. rewrite <-E1, <-E2. by rewrite !u16_small.
Qed.

Lemma infos_agree k o v : objects g !! o = Some v ->
  filter (fun s => u16 (s_tp s) = v_tp v /\ u16 (s_id s) = v_id v) (infos k out) = filter (fun s => s_id s = v_id v) (infos k out).
Proof.
  intros Hv. apply filter_agree. intros s (o' & v' & Hv' & E1 & E2 & E3 & E4)%sent_infos. rewrite E3, E4.
  split; [by intros [_ ?]|]. intros E. assert (o' = o) as -> by (apply (Hu o' o v' v Hv' Hv); congruence). split; [congruence|done].
Qed.

Lemma table_knows p c o v : conns g !! p = Some c -> c_socket c <> 0 -> objects g !! o = Some v -> v_tp v ∈ c_subscribe c ->
  entry (fold_left update_subscribe (infos (c_socket c) out) ∅) (v_tp v) (v_id v) = Some (v_online v).
Proof.
  intros Hc Hk Hv Ht. rewrite entry_fold, (infos_agree _ o v Hv).
  destruct (gate_run_ok id evs g out Hev Hrun) as [_ _ _ _ _ _ C].
  assert (E : last_info (c_socket c) (v_id v) out = Some (to_proto v)) by by apply (C Hu p c o v).
  unfold last_info in E. by rewrite E.
Qed.

(** Every entry of the table is a service of the gate. *)
Lemma table_entries k tp i b l :
  fold_left update_subscribe (infos k out) ∅ !! tp = Some l -> (i, b) ∈ l ->
  exists o v, objects g !! o = Some v /\ v_id v = i /\ v_tp v = tp.
Proof.
  intros Hl Hi. assert (E : entry (fold_left update_subscribe (infos k out) ∅) tp i = Some b).
  { eapply entry_in; [|done|done]. apply table_fold. intros ?. apply NoDup_nil_2. }
  rewrite entry_fold in E. destruct (list.last _) as [s|] eqn:El; [|done].
  apply last_Some_elem_of in El. apply list.list_elem_of_filter in El as [[<- <-] Hs].
  destruct (sent_infos k s Hs) as (o & v & Hv & E1 & E2 & -> & ->). by exists o, v.
Qed.
End known.

Lemma rand_subscribe_pick t tp pick :
  rand_subscribe t tp pick <> 0 ->
  exists l, t !! tp = Some l /\ (rand_subscribe t tp pick, true) ∈ l.
Proof.
  unfold rand_subscribe, find_subscribe. destruct (t !! tp) as [[|s l]|]; [done| |done].
  set (k := s :: l). assert (H : forall i, i ∈ (filter (fun s => s.2 = true) k).*1 -> (i, true) ∈ k).
  { intros i ([j b] & -> & [Hb ?]%list.list_elem_of_filter)%list_elem_of_fmap. cbn in *. by subst b. }
  destruct (filter _ k).*1 as [|a [|b online]] eqn:E; [done| |]; intros _; exists k; (split; [done|]); apply H.
  - by left.
  - apply list_elem_of_In, nth_In. apply Nat.mod_upper_bound. done.
Qed.

Lemma rand_subscribe_zero t tp pick : table_ok t ->
  (forall l id, t !! tp = Some l -> (id, true) ∈ l -> id <> 0) ->
  rand_subscribe t tp pick = 0 -> forall id, entry t tp id <> Some true.
Proof.
  intros Ht Hne H i Hi. unfold entry in Hi. destruct (t !! tp) as [l|] eqn:El; [|done]. cbn [from_option] in Hi.
  destruct (List.find _ l) as [[j b]|] eqn:Ef; [|done]. apply List.find_some in Ef as [Hin Hj]. injection Hi as ->.
  apply list_elem_of_In in Hin. apply Z.eqb_eq in Hj. cbn in Hj. subst j.
  assert (Hx : i ∈ (filter (fun s : Z * bool => s.2 = true) l).*1).
  { apply list_elem_of_fmap. exists (i, true). split; [done|]. by apply list.list_elem_of_filter. }
  assert (Hall : forall x, x ∈ (filter (fun s : Z * bool => s.2 = true) l).*1 -> x <> 0).
  { intros x ([y c] & -> & [Hc Hy]%list.list_elem_of_filter)%list_elem_of_fmap. cbn in Hc. subst c. by apply (Hne l). }
  unfold rand_subscribe, find_subscribe in H. rewrite El in H. destruct l as [|s l]; [by apply not_elem_of_nil in Hin|].
  destruct (filter _ (s :: l)).*1 as [|a [|b online]] eqn:E; [by apply not_elem_of_nil in Hx| |].
  - apply (Hall a); [by left|done].
  - revert H. apply Hall. apply list_elem_of_In, nth_In. by apply Nat.mod_upper_bound.
Qed.

(** * Messages end to end *)

Definition client_range (c : client_part) : Prop :=
  is_u16 (ProtoUtils.c_id c) /\ is_u16 (ProtoUtils.c_logic c) /\ is_u32 (ProtoUtils.c_socket c) /\
  - 2 ^ 31 <= ProtoUtils.c_userid c < 2 ^ 31.

Lemma s32_u32 z : - 2 ^ 31 <= z < 2 ^ 31 -> s32 (u32 z) = z.
Proof. intros H. unfold s32, u32. destruct (Z.ltb_spec (z mod 2 ^ 32) (2 ^ 31)); modlia. Qed.

Lemma client_roundtrip c rest : client_range c -> client_of (client_bytes c ++ rest) = c.
Proof.
  intros (H1 & H2 & H3 & H4). unfold client_of, client_bytes. rewrite <- !app_assoc. set (bs := le_bytes 2 (ProtoUtils.c_id c) ++ _).
  change (take 2 bs) with (le_bytes 2 (ProtoUtils.c_id c)). change (take 2 (drop 2 bs)) with (le_bytes 2 (ProtoUtils.c_logic c)).
  change (take 4 (drop 4 bs)) with (le_bytes 4 (ProtoUtils.c_socket c)). change (take 4 (drop 8 bs)) with (le_bytes 4 (u32 (ProtoUtils.c_userid c))).
  rewrite !le_value_bytes by (done || apply u32_range). rewrite s32_u32 by done. by destruct c.
Qed.

Definition forward_range (f : forward_part) : Prop :=
  is_u16 (f_from f) /\ is_u16 (f_to f) /\ is_u16 (f_id f) /\ is_u16 (f_padding f) /\ is_u64 (f_session f).

(** The gate finds the destination in the first bytes of a message, and the
    connector at the other end takes the same header off. *)
Lemma message_parts f rest : forward_range f ->
  forward_part_size <= zlen (forward_bytes f ++ rest) /\ dest_of (forward_bytes f ++ rest) = f_to f /\
  forward_of (forward_bytes f ++ rest) = f /\ zdrop forward_part_size (forward_bytes f ++ rest) = rest.
Proof.
  intros (H1 & H2 & H3 & H4 & H5). assert (Hl : zlen (forward_bytes f) = forward_part_size) by done.
  split; [rewrite zlen_app, Hl; pose proof (zlen_nonneg rest); lia|]. split; [|split].
  - unfold dest_of. rewrite <-Hl, ztake_app_length. rewrite <-(app_nil_r (forward_bytes f)). by rewrite forward_roundtrip.
  - by apply forward_roundtrip.
  - by rewrite <-Hl, zdrop_app_length.
Qed.

Section messages.
Context {M : Type} (parse : bytes -> option M).

Lemma channel_forwards (c : gate_connector M) f rest : forward_range f -> may_answer (f_id f) (f_session f) = false ->
  channel_message parse c (forward_bytes f ++ rest) = Some (c, [Forwarded (f_from f) (f_session f) (f_id f) rest]).
Proof.
  intros Hf Ha. destruct (message_parts f rest Hf) as (H1 & _ & H3 & H4). unfold channel_message.
  rewrite (proj2 (Z.ltb_ge _ _)) by done. rewrite H3, H4. unfold answers. by rewrite Ha.
Qed.
End messages.

(** An answer to a player on its way from the service to the connection. *)
Lemma reply_delivered {M : Type} (parse : bytes -> option M) (c : gate_connector M)
    parse_login parse_match parse_move parse_move_brd parse_kick
    (stale : Z -> bytes) (p : Proxy.proxy) (d : Proxy.socket_data)
    (from session : Z) (part : client_part) (payload : bytes) :
  is_u16 from -> is_u16 (Proxy.own_id p) -> is_u64 session -> client_range part -> zlen payload < 2 ^ 31 ->
  Proxy.sockets_ p !! ProtoUtils.c_socket part = Some d -> sd_userid d = ProtoUtils.c_userid part ->
  let m := init_client_forward_buffer stale from (Proxy.own_id p) session part payload in
  dest_of m = Proxy.own_id p /\
  channel_message parse c m =
    Some (c, [Forwarded from session id_s_client_forward_brd (client_bytes part ++ payload)]) /\
  Proxy.forward_shm parse_login parse_match parse_move parse_move_brd parse_kick p from session
      id_s_client_forward_brd (client_bytes part ++ payload) =
    let '(p', es) := on_forward parse_login parse_match parse_move parse_move_brd p d (ProtoUtils.c_id part) (ProtoUtils.c_logic part) payload in
    (p', es ++ [ToClient (ProtoUtils.c_socket part) (ProtoUtils.c_id part) session payload]).
Proof.
  intros Hf Ho Hs Hp Hl Hd Hu m.
  assert (Em : m = forward_bytes (ForwardPart from (Proxy.own_id p) id_s_client_forward_brd 0 session) ++ client_bytes part ++ payload).
  { unfold m, init_client_forward_buffer. pose proof (zlen_nonneg payload). rewrite u32_small by word. do 2 f_equal.
    apply serialized_fits. pose proof (reserved_room (16 + 12 + zlen payload)). lia. }
  assert (Hr : forward_range (ForwardPart from (Proxy.own_id p) id_s_client_forward_brd 0 session)).
  { repeat split; try apply Hf; try apply Ho; try apply Hs; cbn; unfold id_s_client_forward_brd; lia. }
  rewrite Em. split; [by apply message_parts|]. split; [by apply (channel_forwards parse c _ _ Hr)|].
  unfold Proxy.forward_shm. change (id_s_client_forward_brd =? id_s_kick_client_req) with false. rewrite Z.eqb_refl.
  unfold client_forward_brd. assert (Hc : zlen (client_bytes part) = client_part_size) by done.
  rewrite zlen_app, Hc. rewrite (proj2 (Z.ltb_ge _ _)) by (pose proof (zlen_nonneg payload); lia).
  rewrite client_roundtrip, Hd, Hu, Z.eqb_refl by done. cbn [negb]. rewrite <-Hc, zdrop_app_length.
  done.
Qed.

(** * Properties *)

(** A service that has received everything its gate sent on its connection
    knows the state of every service of the types it subscribes to, whatever
    happened in between: its table says of each whether it is online now. *)
Theorem connector_table_current (id : Z) (evs : list Gate.event) (g : Gate.gate) (out : list Gate.effect)
    (p o : nat) (c : Gate.conn) (v : Gate.service) :
  Forall Gate.event_ok evs -> Gate.run (gate_new id) evs = (g, out) -> unique g ->
  conns g !! p = Some c -> c_socket c <> 0 -> objects g !! o = Some v -> v_tp v ∈ c_subscribe c ->
  entry (fold_left update_subscribe (infos (c_socket c) out) ∅) (v_tp v) (v_id v) = Some (v_online v).
Proof. intros He Hr Hu. by apply (table_knows id evs). Qed.

Lemma connector_table_current_witness :
  entry (fold_left update_subscribe (infos 5 Gate.demo_run.2) ∅) 2 6 = Some true.
Proof.
  apply (connector_table_current 1 Gate.demo_events Gate.demo_run.1 Gate.demo_run.2 0 1 (Gate.Conn 5 20 (Some 0%nat) [2])
    (Gate.Service 6 2 4 true (Remote 4)) Gate.demo_events_ok (surjective_pairing Gate.demo_run)).
  - assert (E : objects Gate.demo_run.1 = [Gate.Service 3 2 1 true (Local 5); Gate.Service 6 2 4 true (Remote 4)]) by (vm_compute; reflexivity).
    unfold unique. rewrite E. clear E. intros o o' v v' Hv Hv' Ei.
    destruct o as [|[|o]], o' as [|[|o']]; cbn in Hv, Hv'; simplify_eq; done.
  - by vm_compute.
  - done.
  - by vm_compute.
  - by left.
Defined.

(** The service picked at random for a type the connection subscribes to
    is one the gate knows as online; none is picked only when the gate has
    none of the type online. *)
Theorem rand_subscribe_online (id : Z) (evs : list Gate.event) (g : Gate.gate) (out : list Gate.effect)
    (p pick : nat) (c : Gate.conn) (tp : Z) :
  Forall Gate.event_ok evs -> Gate.run (gate_new id) evs = (g, out) -> unique g ->
  conns g !! p = Some c -> c_socket c <> 0 -> tp ∈ c_subscribe c ->
  (forall o v, objects g !! o = Some v -> v_id v <> 0) ->
  let r := rand_subscribe (fold_left update_subscribe (infos (c_socket c) out) ∅) tp pick in
  if r =? 0 then forall o v, objects g !! o = Some v -> v_tp v = tp -> v_online v = false
  else exists o v, objects g !! o = Some v /\ v_id v = r /\ v_tp v = tp /\ v_online v = true.
Proof.
  intros He Hr Hu Hc Hk Ht Hz r. set (t := fold_left update_subscribe _ ∅) in r.
  assert (Htab : table_ok t) by (apply table_fold; intros ?; apply NoDup_nil_2).
  destruct (Z.eqb_spec r 0) as [E|E].
  - intros o v Hv <-. destruct (v_online v) eqn:Eo; [exfalso|done].
    refine (rand_subscribe_zero t (v_tp v) pick Htab _ E (v_id v) _).
    + intros l i Hl Hi. destruct (table_entries id evs g out He Hr _ _ i true l Hl Hi) as (o' & v' & Hv' & <- & _). by apply (Hz o').
    + rewrite <-Eo. by apply (table_knows id evs g out He Hr Hu p c o v).
  - destruct (rand_subscribe_pick t tp pick E) as (l & Hl & Hi). fold r in Hi.
    destruct (table_entries id evs g out He Hr _ _ r true l Hl Hi) as (o & v & Hv & E1 & E2). exists o, v.
    split; [done|]. split; [done|]. split; [done|].
    pose proof (table_knows id evs g out He Hr Hu p c o v Hc Hk Hv) as K. rewrite E2, E1 in K. specialize (K Ht). fold t in K.
    rewrite (entry_in l tp r true t Htab Hl Hi) in K. by injection K.
Qed.

Lemma rand_subscribe_online_witness :
  exists o v, objects Gate.demo_run.1 !! o = Some v /\
    v_id v = rand_subscribe (fold_left update_subscribe (infos 5 Gate.demo_run.2) ∅) 2 3 /\ v_tp v = 2 /\ v_online v = true.
Proof.
  assert (E : objects Gate.demo_run.1 = [Gate.Service 3 2 1 true (Local 5); Gate.Service 6 2 4 true (Remote 4)]) by (vm_compute; reflexivity).
  refine (rand_subscribe_online 1 Gate.demo_events Gate.demo_run.1 Gate.demo_run.2 0 3 (Gate.Conn 5 20 (Some 0%nat) [2]) 2
    Gate.demo_events_ok (surjective_pairing Gate.demo_run) _ _ _ _ _).
  - unfold unique. rewrite E. clear E. intros o o' v v' Hv Hv' Ei.
    destruct o as [|[|o]], o' as [|[|o']]; cbn in Hv, Hv'; simplify_eq; done.
  - by vm_compute.
  - done.
  - by left.
  - rewrite E. intros o v. destruct o as [|[|o]]; cbn; intros [= <-]; done.
Defined.

(** The answer of a service to a player, framed by [init_forward_buffer],
    is routed to the player's proxy, is not taken for the answer of a call
    there, and reaches the player's connection with its id, session and
    bytes. *)
Theorem player_reply_delivered {M : Type} (parse : bytes -> option M) (c : gate_connector M)
    parse_login parse_match parse_move parse_move_brd parse_kick
    (stale : Z -> bytes) (p : Proxy.proxy) (d : Proxy.socket_data)
    (from session : Z) (part : client_part) (payload : bytes) :
  is_u16 from -> is_u16 (Proxy.own_id p) -> is_u64 session -> client_range part -> zlen payload < 2 ^ 31 ->
  Proxy.sockets_ p !! ProtoUtils.c_socket part = Some d -> sd_userid d = ProtoUtils.c_userid part ->
  let m := init_client_forward_buffer stale from (Proxy.own_id p) session part payload in
  dest_of m = Proxy.own_id p /\
  channel_message parse c m =
    Some (c, [Forwarded from session id_s_client_forward_brd (client_bytes part ++ payload)]) /\
  exists p' es, Proxy.forward_shm parse_login parse_match parse_move parse_move_brd parse_kick p from session
      id_s_client_forward_brd (client_bytes part ++ payload) = (p', es ++ [ToClient (ProtoUtils.c_socket part) (ProtoUtils.c_id part) session payload]).
Proof.
  intros Hf Ho Hs Hp Hl Hd Hu m.
  destruct (reply_delivered parse c parse_login parse_match parse_move parse_move_brd parse_kick stale p d from session part payload
    Hf Ho Hs Hp Hl Hd Hu) as (H1 & H2 & ->). split; [exact H1|]. split; [exact H2|].
  destruct (on_forward _ _ _ _ p d _ _ payload) as [p' es]. by exists p', es.
Qed.

Lemma player_reply_delivered_witness :
  dest_of (init_client_forward_buffer (fun _ => []) 20 9 3 (ClientPart 0x1007 0 5 0) [1; 2]) = 9 /\
  exists p' es, Proxy.forward_shm demo_login (fun _ => None) (fun _ => None) (fun _ => None) (fun _ => None) demo_proxy 20 3
      id_s_client_forward_brd (client_bytes (ClientPart 0x1007 0 5 0) ++ [1; 2]) = (p', es ++ [ToClient 5 0x1007 3 [1; 2]]).
Proof.
  pose proof (player_reply_delivered (M := bytes) Some (GateConnector 0 (rpc_world_new ) ∅) demo_login (fun _ => None) (fun _ => None)
    (fun _ => None) (fun _ => None) (fun _ => []) demo_proxy (SocketData 5 0 0 0 true 0 []) 20 3 (ClientPart 0x1007 0 5 0) [1; 2]) as H.
  destruct H as (H1 & _ & H3); [word|cbn; word|word|repeat split; cbn; lia|by vm_compute|by vm_compute|done|].
  split; [exact H1|exact H3].
Defined.
