(* ===== verification/Login.v ===== *)
(** The login service (src/gobang/login/login.cpp): a request of a player,
    passed on by the proxy, makes three calls one after the other - the center
    checks the account, the logic master names a logic service, this one loads
    the player - and answers the proxy once.

    The coroutine is a script: what it sends and how it goes on with each
    answer. Every call is [call || rpc_timeout()], so its answer is what
    [operator||] makes of the call and the timer (ParallelTask.v). Parsing and
    serialisation are parameters. [login_completes] follows a login from the message the proxy
    sends to the player's connection (GateConnector.v, Proxy.v). *)

From stdpp Require Import gmap.
From S2P Require Import Prelude Digest ParallelTask ProtoUtils RpcSystem Proxy Gate GateConnector.

(** * Data *)

Record login_req := LoginReq { account : bytes; password : bytes }.

Record login_answer := LoginAnswer { a_ec : Z; a_userid : Z; a_room : Z; a_win_count : Z; a_lose_count : Z }.

(** [s_login_ack], [s_get_logic_ack], [s_login_logic_ack]. *)
Record s_login_ack := SLoginAck { sl_ec : Z; sl_userid : Z }.
Record s_get_logic_ack := SGetLogicAck { gl_ec : Z; gl_logic : Z }.
Record s_login_logic_ack := SLoginLogicAck { ll_ec : Z; ll_room : Z; ll_win_count : Z; ll_lose_count : Z }.

Definition ec_success : Z := 0.
Definition ec_system : Z := 2.
Definition ec_timeout : Z := 3.

(** The three requests, and where they are sent. *)
Inductive request :=
  | SLoginReq (to : Z) (acc pass : bytes)
  | SGetLogicReq (to : Z) (userid : Z)
  | SLoginLogicReq (to : Z) (userid gate socket : Z) (acc : bytes).

(** [co_await (call || rpc_timeout())]: the value of the call (index 0), the end
    of the timer (index 1), or what is thrown. *)
Inductive answer (A : Type) := Answered (a : A) | TimedOut | Thrown.
Arguments Answered {A}.
Arguments TimedOut {A}.
Arguments Thrown {A}.

(** A value of the timer is no value. *)
Definition answer_of {A E} (r : nat * option A + thrown E) : answer A :=
  match r with
  | inl (O, Some a) => Answered a
  | inl _ => TimedOut
  | inr _ => Thrown
  end.

(** The answer to the player, and the calls the script makes. *)
Record reply := Reply { r_to : Z; r_session : Z; r_part : client_part; r_ack : login_answer }.

Inductive script :=
  | Finish (r : reply)
  | CallCenter (rq : request) (k : answer s_login_ack -> script)
  | CallLogicMaster (rq : request) (k : answer s_get_logic_ack -> script)
  | CallLogic (rq : request) (k : answer s_login_logic_ack -> script).

(** * Operations *)

Section login.
Context (center_ logic_master_ : Z) (parse : bytes -> option login_req).

Definition set_ec (ack : login_answer) (ec : Z) : login_answer :=
  LoginAnswer ec (a_userid ack) (a_room ack) (a_win_count ack) (a_lose_count ack).

Definition set_userid (ack : login_answer) (userid : Z) : login_answer :=
  LoginAnswer (a_ec ack) userid (a_room ack) (a_win_count ack) (a_lose_count ack).

(** The end of [client_login]. *)
Definition finish (from session socket logic : Z) (ack : login_answer) : script :=
  Finish (Reply from session (ClientPart id_login_ack logic socket 0) ack).

(** [internal_login] goes on with the [ec] of [result], which is [ec] before,
    and the id; with nothing when the call throws. The password sent is the
    empty one of the new message. *)
Definition internal_login (acc pass : bytes) (ec : Z) (k : option (Z * Z) -> script) : script :=
  CallCenter (SLoginReq center_ acc []) (fun value =>
    match value with
    | Thrown => k None
    | TimedOut => k (Some (ec_timeout, 0))
    | Answered ack => if negb (sl_ec ack =? ec_success) then k (Some (sl_ec ack, 0)) else k (Some (ec, sl_userid ack))
    end).

Definition internal_get_logic (userid ec : Z) (k : option (Z * Z) -> script) : script :=
  CallLogicMaster (SGetLogicReq logic_master_ userid) (fun value =>
    match value with
    | Thrown => k None
    | TimedOut => k (Some (ec_timeout, 0))
    | Answered ack => if negb (gl_ec ack =? ec_success) then k (Some (gl_ec ack, 0)) else k (Some (ec, u16 (gl_logic ack)))
    end).

Definition internal_login_logic (acc : bytes) (userid logic gate socket : Z) (ack : login_answer)
    (k : option login_answer -> script) : script :=
  CallLogic (SLoginLogicReq logic userid gate socket acc) (fun value =>
    match value with
    | Thrown => k None
    | TimedOut => k (Some (set_ec ack ec_timeout))
    | Answered internal_ack =>
        if negb (ll_ec internal_ack =? ec_success) then k (Some (set_ec ack (ll_ec internal_ack)))
        else k (Some (LoginAnswer ec_success (a_userid ack) (ll_room internal_ack) (ll_win_count internal_ack) (ll_lose_count internal_ack)))
    end).

Definition client_login (from socket session : Z) (req : login_req) : script :=
  let ack := LoginAnswer ec_success 0 0 0 0 in
  internal_login (account req) (password req) (a_ec ack) (fun r =>
    match r with
    | None => finish from session socket 0 (set_ec ack ec_system)
    | Some (ec, userid) =>
        let ack := set_ec ack ec in
        if negb (ec =? ec_success) then finish from session socket 0 ack
        else
          let ack := set_userid ack userid in
          internal_get_logic userid (a_ec ack) (fun r =>
            match r with
            | None => finish from session socket 0 (set_ec ack ec_system)
            | Some (ec, logic) =>
                let ack := set_ec ack ec in
                if negb (ec =? ec_success) then finish from session socket logic ack
                else
                  internal_login_logic (account req) userid logic from socket ack (fun r =>
                    match r with
                    | None => finish from session socket logic (set_ec ack ec_system)
                    | Some ack => finish from session socket logic ack
                    end)
            end)
    end).

(** [forward_shm]: the coroutine a message starts. *)
Definition forward_shm (from session id : Z) (strv : bytes) : option script :=
  if negb (id =? id_s_client_forward_brd) then None
  else if zlen strv <? client_part_size then None
  else
    let part := client_of strv in
    if negb (ProtoUtils.c_id part =? id_login_req) then None
    else
      req ← parse (zdrop client_part_size strv);
      Some (client_login from (ProtoUtils.c_socket part) session req).
End login.

(** ** Running a script *)

(** What the other services answer. *)
Record services := Services {
  on_login : request -> answer s_login_ack;
  on_get_logic : request -> answer s_get_logic_ack;
  on_login_logic : request -> answer s_login_logic_ack }.

Fixpoint play (w : services) (s : script) : list request * reply :=
  match s with
  | Finish r => ([], r)
  | CallCenter rq k => let '(l, r) := play w (k (on_login w rq)) in (rq :: l, r)
  | CallLogicMaster rq k => let '(l, r) := play w (k (on_get_logic w rq)) in (rq :: l, r)
  | CallLogic rq k => let '(l, r) := play w (k (on_login_logic w rq)) in (rq :: l, r)
  end.

(** * Properties *)

(** The fields of a reply that is known. *)
Ltac split_reply := repeat split; cbn; unfold ec_success, ec_system, ec_timeout, u16 in *; modlia.

Section properties.
Context (center_ logic_master_ : Z).

(** A player is told that the login succeeded exactly when all three services
    said so, in order; the answer then carries the id the center gave, the
    logic service the logic master named, and what this one loaded. *)
Theorem login_succeeds (w : services) (from socket session : Z) (req : login_req) (calls : list request) (r : reply) :
  play w (client_login center_ logic_master_ from socket session req) = (calls, r) ->
  a_ec (r_ack r) = ec_success <->
  exists u l a,
    on_login w (SLoginReq center_ (account req) []) = Answered (SLoginAck ec_success u) /\
    on_get_logic w (SGetLogicReq logic_master_ u) = Answered (SGetLogicAck ec_success l) /\
    on_login_logic w (SLoginLogicReq (u16 l) u from socket (account req)) = Answered a /\ ll_ec a = ec_success /\
    calls = [SLoginReq center_ (account req) []; SGetLogicReq logic_master_ u; SLoginLogicReq (u16 l) u from socket (account req)] /\
    r = Reply from session (ClientPart id_login_ack (u16 l) socket 0)
          (LoginAnswer ec_success u (ll_room a) (ll_win_count a) (ll_lose_count a)).
Proof.
  unfold client_login, internal_login, internal_get_logic, internal_login_logic. cbn [play].
  destruct (on_login w _) as [[e1 u]| |] eqn:E1; cbn [sl_ec sl_userid];
    [|intros [= <- <-]; split; [done|by intros (? & ? & ? & ? & _)]..].
  destruct (Z.eqb_spec e1 ec_success) as [->|H1]; cbn [negb];
    [|intros [= <- <-]; cbn; split; [done|by intros (? & ? & ? & [= -> ->] & _)]].
  cbn [play a_ec Z.eqb ec_success negb set_ec set_userid].
  destruct (on_get_logic w _) as [[e2 l]| |] eqn:E2; cbn [gl_ec gl_logic];
    [|intros [= <- <-]; split; [done|intros (? & ? & ? & [= <-] & E' & _); congruence]..].
  destruct (Z.eqb_spec e2 ec_success) as [->|H2]; cbn [negb];
    [|intros [= <- <-]; cbn; split; [done|intros (? & ? & ? & [= <-] & E' & _); congruence]].
  cbn [play a_ec Z.eqb ec_success negb set_ec set_userid a_userid].
  destruct (on_login_logic w _) as [a| |] eqn:E3;
    [|intros [= <- <-]; split; [done|intros (? & ? & ? & [= <-] & E' & E'' & _); rewrite E2 in E'; injection E' as <-; congruence]..].
  destruct (Z.eqb_spec (ll_ec a) ec_success) as [H3|H3]; cbn [negb]; intros [= <- <-]; cbn; (split; [intros H|]); try done.
  - exists u, l, a. by repeat split.
  - intros (? & ? & ? & [= <-] & E' & E'' & H & _). rewrite E2 in E'. injection E' as <-. rewrite E3 in E''. injection E'' as <-. done.
Qed.

(** Not one more call is made after one that did not succeed. *)
Theorem login_stops (w : services) (from socket session : Z) (req : login_req) (calls : list request) (r : reply) :
  play w (client_login center_ logic_master_ from socket session req) = (calls, r) ->
  (1 <= length calls <= 3)%nat /\ r_to r = from /\ r_session r = session /\
  ProtoUtils.c_id (r_part r) = id_login_ack /\ ProtoUtils.c_socket (r_part r) = socket /\ ProtoUtils.c_userid (r_part r) = 0 /\
  is_u16 (ProtoUtils.c_logic (r_part r)) /\
  ((length calls < 3)%nat -> a_ec (r_ack r) <> ec_success).
Proof.
  unfold client_login, internal_login, internal_get_logic, internal_login_logic. cbn [play].
  destruct (on_login w _) as [[e1 u]| |]; cbn [sl_ec sl_userid]; [|intros [= <- <-]; split_reply..].
  destruct (Z.eqb_spec e1 ec_success) as [->|H1]; cbn [negb];
    [|intros [= <- <-]; split_reply]. cbn [play a_ec Z.eqb ec_success negb set_ec set_userid].
  destruct (on_get_logic w _) as [[e2 l]| |]; cbn [gl_ec gl_logic]; [|intros [= <- <-]; split_reply..].
  destruct (Z.eqb_spec e2 ec_success) as [->|H2]; cbn [negb];
    [|intros [= <- <-]; split_reply]. cbn [play a_ec Z.eqb ec_success negb set_ec set_userid].
  destruct (on_login_logic w _) as [a| |]; [destruct (negb _)|..]; intros [= <- <-]; split_reply.
Qed.

(** The password of the request has no effect: whoever knows an account's name
    logs in to it. *)
Theorem login_ignores_password (from socket session : Z) (acc pass pass' : bytes) :
  client_login center_ logic_master_ from socket session (LoginReq acc pass) =
  client_login center_ logic_master_ from socket session (LoginReq acc pass').
Proof. done. Qed.
End properties.

(** A call that fails before the timer ends is a timeout once it does: the
    failure itself is not reported. *)
Theorem failed_call_times_out {A E : Type} (canceled e : E) :
  exists w l r, (w ← await canceled (when_ready one_succ 2) None [Body None false; Body None false];
                 ParallelTask.run w [Done 0 (Exception e)]) = Some w /\ results w = [] /\
    (w ← ParallelTask.run w [Done 1 (Value (0%nat, @None A))]; Some (results w)) = Some [Returns [l; r]] /\
    (res ← operator_or 1 l r; Some (answer_of res)) = Some TimedOut.
Proof. eexists _, _, _. by repeat split. Qed.

(** The message the proxy passes on starts the script of its request. *)
Lemma forward_shm_request center lm parse from session part buf req :
  client_range part -> ProtoUtils.c_id part = id_login_req -> parse buf = Some req ->
  forward_shm center lm parse from session id_s_client_forward_brd (client_bytes part ++ buf) =
  Some (client_login center lm from (ProtoUtils.c_socket part) session req).
Proof.
  intros Hr Hid Hp. unfold forward_shm. rewrite Z.eqb_refl. cbn [negb].
  assert (Hc : zlen (client_bytes part) = client_part_size) by done.
  rewrite zlen_app, Hc. rewrite (proj2 (Z.ltb_ge _ _)) by (pose proof (zlen_nonneg buf); lia).
  rewrite client_roundtrip, Hid, Z.eqb_refl by done. cbn [negb]. by rewrite <- Hc, zdrop_app_length, Hp.
Qed.

(** The three calls of a login that succeeds, and what they give. *)
Definition three_calls (center_ logic_master_ : Z) (w : services) (from socket : Z) (acc : bytes)
    (u l : Z) (a : s_login_logic_ack) (calls : list request) : Prop :=
  on_login w (SLoginReq center_ acc []) = Answered (SLoginAck ec_success u) /\
  on_get_logic w (SGetLogicReq logic_master_ u) = Answered (SGetLogicAck ec_success l) /\
  on_login_logic w (SLoginLogicReq (u16 l) u from socket acc) = Answered a /\ ll_ec a = ec_success /\
  calls = [SLoginReq center_ acc []; SGetLogicReq logic_master_ u; SLoginLogicReq (u16 l) u from socket acc].

Lemma three_calls_play center_ logic_master_ w from socket session req u l a calls :
  three_calls center_ logic_master_ w from socket (account req) u l a calls ->
  play w (client_login center_ logic_master_ from socket session req) =
    (calls, Reply from session (ClientPart id_login_ack (u16 l) socket 0)
              (LoginAnswer ec_success u (ll_room a) (ll_win_count a) (ll_lose_count a))).
Proof.
  intros (H1 & H2 & H3 & H4 & ->). unfold client_login, internal_login, internal_get_logic, internal_login_logic.
  cbn [play]. rewrite H1. cbn [sl_ec sl_userid Z.eqb ec_success negb play set_ec set_userid a_ec a_userid].
  rewrite H2. cbn [gl_ec gl_logic Z.eqb ec_success negb play set_ec set_userid a_ec a_userid]. rewrite H3, H4. done.
Qed.

(** C19: a login from the message of the proxy to the player's connection. The
    service makes at most three calls, whatever the others answer, and answers
    once; the answer is routed to the proxy of the player and given to him. It
    is a success exactly when the three calls were made in their order - to the
    center with the account, to the logic master with the id the center gave, to
    the logic service the logic master named with this id, the proxy and the
    socket - and all succeeded. Then the connection has this player, this logic
    service and the room it answered, and the messages it kept while it waited
    go to this logic service in the order in which they came, in the player's
    name; else the connection is as it was. Serialising and parsing an answer
    gives its error code, id and room; an answer is shorter than 2^31 bytes. *)
Theorem login_completes {M : Type} (parse : bytes -> option M) (c : gate_connector M) (center_ logic_master_ : Z) (w : services)
    (parse_req : bytes -> option login_req) parse_login parse_match parse_move parse_move_brd parse_kick
    (serialize : login_answer -> bytes) (stale : Z -> bytes) (p : proxy) (d : socket_data) (own session : Z) (buf : bytes) (req : login_req) :
  (forall a, parse_login (serialize a) = Some (LoginAck (a_ec a) (a_userid a) (a_room a))) ->
  (forall a, zlen (serialize a) < 2 ^ 31) ->
  is_u16 own -> is_u16 (Proxy.own_id p) -> is_u64 session -> is_u32 (sd_socket d) ->
  sockets_ p !! sd_socket d = Some d -> sd_userid d = 0 -> parse_req buf = Some req ->
  exists s calls r,
    forward_shm center_ logic_master_ parse_req (Proxy.own_id p) session id_s_client_forward_brd
      (client_bytes (ClientPart id_login_req 0 (sd_socket d) (sd_userid d)) ++ buf) = Some s /\
    play w s = (calls, r) /\ (length calls <= 3)%nat /\
    (a_ec (r_ack r) = ec_success <->
     exists u l a, three_calls center_ logic_master_ w (Proxy.own_id p) (sd_socket d) (account req) u l a calls) /\
    let m := init_client_forward_buffer stale own (r_to r) (r_session r) (r_part r) (serialize (r_ack r)) in
    let inner := client_bytes (r_part r) ++ serialize (r_ack r) in
    dest_of m = Proxy.own_id p /\
    channel_message parse c m = Some (c, [Forwarded own session id_s_client_forward_brd inner]) /\
    exists p' sent,
      Proxy.forward_shm parse_login parse_match parse_move parse_move_brd parse_kick p own session id_s_client_forward_brd inner =
        (p', sent ++ [ToClient (sd_socket d) id_login_ack session (serialize (r_ack r))]) /\
      (a_ec (r_ack r) <> ec_success -> p' = p /\ sent = []) /\
      forall u l a, three_calls center_ logic_master_ w (Proxy.own_id p) (sd_socket d) (account req) u l a calls ->
        r_ack r = LoginAnswer ec_success u (ll_room a) (ll_win_count a) (ll_lose_count a) /\
        sent = (fun m => ToService (ForwardPart (u16 (Proxy.own_id p)) (u16 l) id_s_client_forward_brd 0 (cd_session m))
                           (ClientPart (cd_id m) 0 (sd_socket d) u) (cd_buf m)) <$> sd_cache d /\
        sockets_ p' !! sd_socket d = Some (SocketData (sd_socket d) u (u16 l) (u16 (ll_room a)) false (sd_last_recv d) []).
Proof.
  intros Hser Hlen Ho Hp Hs Hk Hd Hu Hreq.
  assert (Hr : client_range (ClientPart id_login_req 0 (sd_socket d) (sd_userid d))).
  { rewrite Hu. repeat split; try apply Hk; cbn; unfold id_login_req; lia. }
  destruct (play w (client_login center_ logic_master_ (Proxy.own_id p) (sd_socket d) session req)) as [calls r] eqn:E.
  eexists _, calls, r. split; [by apply forward_shm_request|]. split; [exact E|].
  destruct (login_stops _ _ _ _ _ _ _ _ _ E) as (Hn & Hto & Hse & Hid & Hso & Hus & Hlo & _). split; [lia|].
  pose proof (login_succeeds _ _ _ _ _ _ _ _ _ E) as Hok. split.
  { rewrite Hok. split; intros (u & l & a & Hc); exists u, l, a; [destruct Hc as (? & ? & ? & ? & ? & _); by split_and!|].
    pose proof (three_calls_play _ _ _ _ _ session _ _ _ _ _ Hc) as E'. rewrite E in E'. injection E' as ->.
    destruct Hc as (? & ? & ? & ? & ?). by split_and!. }
  intros m inner. assert (Hpr : client_range (r_part r)).
  { rewrite <- Hso in Hk. repeat split; try apply Hk; try apply Hlo; rewrite ?Hid, ?Hus; unfold id_login_ack; lia. }
  unfold m, inner. rewrite Hto, Hse. rewrite <- Hso in Hd. rewrite <- Hus in Hu.
  destruct (reply_delivered parse c parse_login parse_match parse_move parse_move_brd parse_kick stale p d own session (r_part r)
    (serialize (r_ack r)) Ho Hp Hs Hpr (Hlen _) Hd Hu) as (H1 & H2 & H3). rewrite Hso in Hd.
  split; [exact H1|]. split; [exact H2|]. rewrite H3, Hid, Hso. unfold on_forward. rewrite Z.eqb_refl.
  unfold client_login_ack. rewrite Hser. cbn [la_ec la_userid la_room].
  destruct (Z.eqb_spec (a_ec (r_ack r)) Proxy.ec_success) as [Hec|Hec]; cbn [negb]; eexists _, _; (split; [reflexivity|]).
  - split; [by intros []|]. intros u l a Hc.
    pose proof (three_calls_play _ _ _ _ _ session _ _ _ _ _ Hc) as E'. rewrite E in E'. injection E' as ->.
    split; [done|]. split; [done|]. apply lookup_insert_eq.
  - split; [done|]. intros u l a Hc. destruct Hec.
    pose proof (three_calls_play _ _ _ _ _ session _ _ _ _ _ Hc) as E'. rewrite E in E'. by injection E' as ->.
Qed.

(** ** A login *)

Definition demo_services : services :=
  Services (fun _ => Answered (SLoginAck 0 41)) (fun _ => Answered (SGetLogicAck 0 20))
    (fun _ => Answered (SLoginLogicAck 0 7 3 2)).

Definition demo_reply : reply := Reply 9 3 (ClientPart id_login_ack 20 5 0) (LoginAnswer 0 41 7 3 2).

Lemma demo_play :
  play demo_services (client_login 30 31 9 5 3 (LoginReq [97] [98])) =
  ([SLoginReq 30 [97] []; SGetLogicReq 31 41; SLoginLogicReq 20 41 9 5 [97]], demo_reply).
Proof. by vm_compute. Qed.

Lemma login_succeeds_witness :
  exists u l a, on_login demo_services (SLoginReq 30 [97] []) = Answered (SLoginAck ec_success u) /\
    on_get_logic demo_services (SGetLogicReq 31 u) = Answered (SGetLogicAck ec_success l) /\
    on_login_logic demo_services (SLoginLogicReq (u16 l) u 9 5 [97]) = Answered a.
Proof.
  destruct (proj1 (login_succeeds 30 31 demo_services 9 5 3 (LoginReq [97] [98]) _ _ demo_play) eq_refl) as (u & l & a & H1 & H2 & H3 & _).
  exists u, l, a. auto.
Defined.

Definition demo_socket : socket_data := SocketData 5 0 0 0 true 0 [CacheData 4 8 [1]; CacheData 6 9 [2]].

(** The bytes of an answer, for the example. *)
Definition demo_serialize (a : login_answer) : bytes := [a_ec a; a_userid a; a_room a].
Definition demo_parse (bs : bytes) : option login_ack := match bs with [e; u; r] => Some (LoginAck e u r) | _ => None end.

Lemma login_completes_witness :
  exists p', Proxy.forward_shm demo_parse (fun _ => None) (fun _ => None) (fun _ => None) (fun _ => None)
      (Proxy 9 {[5 := demo_socket]}) 30 3 id_s_client_forward_brd
      (client_bytes (ClientPart id_login_ack 20 5 0) ++ demo_serialize (r_ack demo_reply)) =
    (p', [ToService (ForwardPart 9 20 id_s_client_forward_brd 0 8) (ClientPart 4 0 5 41) [1];
          ToService (ForwardPart 9 20 id_s_client_forward_brd 0 9) (ClientPart 6 0 5 41) [2];
          ToClient 5 id_login_ack 3 [0; 41; 7]]) /\
    sd_userid <$> sockets_ p' !! 5 = Some 41.
Proof.
  destruct (login_completes (M := bytes) Some (GateConnector 0 rpc_world_new ∅) 30 31 demo_services
    (fun bs => Some (LoginReq bs [98])) demo_parse (fun _ => None) (fun _ => None) (fun _ => None)
    (fun _ => None) demo_serialize (fun _ => []) (Proxy 9 {[5 := demo_socket]}) demo_socket 30 3 [97] (LoginReq [97] [98]))
    as (s & calls & r & Es & Ep & _ & _ & _ & _ & p' & sent & Hf & _ & Hok);
    [by intros []|by intros a|word|cbn; word|word|cbn; word|by vm_compute|done|done|].
  rewrite (forward_shm_request _ _ _ _ _ _ _ (LoginReq [97] [98])) in Es by (done || by repeat split).
  apply (inj Some) in Es as <-. pose proof demo_play as E. cbn [Proxy.own_id ProtoUtils.c_socket sd_socket demo_socket] in Ep.
  rewrite E in Ep. injection Ep as <- <-.
  destruct (Hok 41 20 (SLoginLogicAck 0 7 3 2)) as (_ & -> & Hs); [by split_and!|].
  exists p'. split; [exact Hf|]. change (sd_socket demo_socket) with 5 in Hs. by rewrite Hs.
Defined.
