(* ===== verification/LogFlags.v ===== *)
(** The flags of the log's line format: src/log/types.cpp,
    include/simple/log/flag.h and default_flags.hpp, with [time_fraction] and
    [utc_minutes_offset] of src/utils/time.cpp.

    A flag appends its text to the line. The padder of a flag is told the size
    of the text beforehand and pads or truncates when the flag is done, so a
    size that is not the size of the text moves the end of the line. [field] is
    what a padded text should be, [flag_text] the text of each flag;
    [flag_writes] shows that the flags append exactly this, the dates excepted,
    for which the sizes declared are wrong ([sized]). A time point is in
    nanoseconds. *)

From Stdlib Require Import (notations) String.
From S2P Require Import Prelude Stream.

(** * Levels and messages *)

Inductive log_level := off | critical | error | warn | info | debug | trace.

#[global] Instance log_level_eq_dec : EqDecision log_level.
Proof. solve_decision. Defined.

Inductive log_time_type := local | utc.

Definition to_string_view (level : log_level) : bytes :=
  match level with
  | off => str "off"
  | critical => str "critical"
  | error => str "error"
  | warn => str "warn"
  | info => str "info"
  | debug => str "debug"
  | trace => str "trace"
  end.

Definition to_string_view_short (level : log_level) : bytes :=
  match level with
  | off => str "O"
  | critical => str "C"
  | error => str "E"
  | warn => str "W"
  | info => str "I"
  | debug => str "D"
  | trace => str "T"
  end.

(** A character of either case, ['o' = 111] and ['O' = 79] for one. *)
Definition letter (c lower upper : Z) : bool := (c =? lower) || (c =? upper).

Definition log_level_from_string_view (strv : bytes) : log_level :=
  match strv with
  | [] => trace
  | c :: _ =>
    if letter c 111 79 then off
    else if letter c 99 67 then critical
    else if letter c 101 69 then error
    else if letter c 119 87 then warn
    else if letter c 105 73 then info
    else if letter c 100 68 then debug
    else trace
  end.

Definition log_time_from_string_view (strv : bytes) : log_time_type :=
  match strv with
  | [] => local
  | c :: _ => if letter c 117 85 then utc else local
  end.

(** The fields of [log_message] that formatting reads; [name] is the name of
    the logger, when there is one. *)
Record log_message := Msg {
  name : option bytes;
  level : log_level;
  point : Z;
  tid : Z;
  file_name : bytes;
  line : Z;
  function_name : bytes;
  buf : bytes }.

(** The line being written, and the two positions of the message that the
    flags may change. *)
Record log_line := Line { dest : bytes; color_start : Z; color_stop : Z }.

Record tm := Tm {
  tm_sec : Z; tm_min : Z; tm_hour : Z; tm_mday : Z; tm_mon : Z; tm_year : Z;
  tm_wday : Z; tm_yday : Z }.

(** * Padding *)

Inductive pad_side := left | right | center.

Record log_padding := Padding { width : Z; side : pad_side; truncate : bool; enabled : bool }.

Definition no_padding : log_padding := Padding 0 left false false.

Definition padding_spaces : bytes := zrep 64 32.

(** [static_cast<int32_t>]. *)
Definition s32 (z : Z) : Z := if u32 z <? 2 ^ 31 then u32 z else u32 z - 2 ^ 32.

(** The constructor: the line with the spaces before the text, and
    [remaining_pad_]. *)
Definition padder_open (info : log_padding) (wrapped_size : Z) (d : bytes) : bytes * Z :=
  let remaining_pad := s32 (u64 (width info - wrapped_size)) in
  if remaining_pad <=? 0 then (d, remaining_pad)
  else match side info with
  | left => (d ++ ztake remaining_pad padding_spaces, 0)
  | center =>
    let half_pad := Z.quot remaining_pad 2 in
    (d ++ ztake half_pad padding_spaces, half_pad + Z.land remaining_pad 1)
  | right => (d, remaining_pad)
  end.

(** [dest.resize]: a size that cannot be allocated throws. *)
Definition resize (d : bytes) (n : Z) : option bytes :=
  if (0 <=? n) && (n <=? zlen d) then Some (ztake n d) else None.

Definition padder_close (info : log_padding) (remaining_pad : Z) (d : bytes) : option bytes :=
  if 0 <=? remaining_pad then Some (d ++ ztake remaining_pad padding_spaces)
  else if truncate info then resize d (s32 (zlen d) + remaining_pad)
  else Some d.

(** A flag between the constructor and the destructor of its padder; with
    [null_scoped_padder] they do nothing. *)
Definition padded (scoped : bool) (info : log_padding) (wrapped_size : Z) (text : bytes) (d : bytes) : option bytes :=
  if scoped then
    let '(d, remaining_pad) := padder_open info wrapped_size d in
    padder_close info remaining_pad (d ++ text)
  else Some (d ++ text).

(** * The pieces of a date *)

Definition am_or_pm (t : tm) : bytes := if 12 <=? tm_hour t then str "PM" else str "AM".

Definition to_12_hour (t : tm) : Z := if 12 <? tm_hour t then tm_hour t - 12 else tm_hour t.

Definition short_weekdays : list bytes := str <$> ["Sun"; "Mon"; "Tue"; "Wed"; "Thu"; "Fri"; "Sat"]%string.

Definition weekdays : list bytes :=
  str <$> ["Sunday"; "Monday"; "Tuesday"; "Wednesday"; "Thursday"; "Friday"; "Saturday"]%string.

Definition short_months : list bytes :=
  str <$> ["Jan"; "Feb"; "Mar"; "Apr"; "May"; "Jun"; "Jul"; "Aug"; "Sept"; "Oct"; "Nov"; "Dec"]%string.

Definition months : list bytes :=
  str <$> ["January"; "February"; "March"; "April"; "May"; "June"; "July"; "August"; "September";
           "October"; "November"; "December"]%string.

Definition second : Z := 1000000000.

(** [time_fraction<unit>], the unit being that many nanoseconds. *)
Definition time_fraction (unit tp : Z) : Z := Z.quot tp unit - Z.quot tp second * (second / unit).

(** * Flags *)

(** The flag classes, with the state of those that have any. [custom_flag] is
    a class the user of the library added. *)
Inductive flag_kind :=
  | name_flag | level_flag | short_level_flag
  | short_weekday_flag | weekday_flag | short_month_name_flag | month_name_flag | date_time_flag
  | short_year_flag | year_flag | month_flag | day_flag | short_date_flag
  | hour24_flag | hour12_flag | min_flag | second_flag
  | millis_flag | micros_flag | nanosecond_flag | timestamp_flag
  | noon_flag | clock_hour12_flag | short_clock_hour24_flag | clock_hour24_flag
  | timezone_flag (last_update offset_minutes : Z)
  | tid_flag | pid_flag (pid : Z) | log_value_flag
  | ch_flag (ch : Z) | aggregate_flag (s : bytes)
  | color_start_flag | color_stop_flag
  | source_location_flag | filename_flag | short_filename_flag | line_flag | func_flag
  | elapsed_time_flag (unit last_message_time : Z)
  | default_flag (cache_timestamp : Z) (cached_datetime : bytes)
  | custom_flag (id : Z).

(** A flag object: its class, the padder it is compiled with, its padding. *)
Record log_flag := Flag { kind : flag_kind; scoped : bool; pad : log_padding }.

Section flags.

(** fmt: [format_int], [count_digits] and the format string "{:02}"; the
    conversion of seconds since the epoch to UTC; a custom flag's [format]. *)
Context (format_int : Z -> bytes) (count_digits : Z -> Z) (format_02 : Z -> bytes).
Context (gmtime : Z -> tm).
Context (custom_format : Z -> log_padding -> log_message -> tm -> bytes -> bytes).

(** [ScopedPadder::count_digits]. *)
Definition padder_digits (scoped : bool) (n : Z) : Z := if scoped then count_digits n else 0.

Definition pad2 (n : Z) : bytes :=
  if (0 <=? n) && (n <? 100) then [48 + Z.quot n 10; 48 + Z.rem n 10] else format_02 n.

Definition pad3 (n : Z) : bytes :=
  if n <? 1000 then
    let m := Z.rem n 100 in
    [u8 (Z.quot n 100 + 48); u8 (Z.quot m 10 + 48); u8 (Z.rem m 10 + 48)]
  else format_int n.

Definition pad_int (n width : Z) : bytes := zrep (width - count_digits n) 48 ++ format_int n.

Definition name_flag_format (sc : bool) (pad : log_padding) (msg : log_message) (d : bytes) : option bytes :=
  match name msg with
  | Some name => padded sc pad (zlen name) name d
  | None => Some d
  end.

Definition level_flag_format (sc : bool) (pad : log_padding) (msg : log_message) (d : bytes) : option bytes :=
  let strv := to_string_view (level msg) in padded sc pad (zlen strv) strv d.

Definition short_level_flag_format (sc : bool) (pad : log_padding) (msg : log_message) (d : bytes) : option bytes :=
  let strv := to_string_view_short (level msg) in padded sc pad (zlen strv) strv d.

Definition short_weekday_flag_format (sc : bool) (pad : log_padding) (t : tm) (d : bytes) : option bytes :=
  strv ← znth short_weekdays (tm_wday t); padded sc pad (zlen strv) strv d.

Definition weekday_flag_format (sc : bool) (pad : log_padding) (t : tm) (d : bytes) : option bytes :=
  strv ← znth weekdays (tm_wday t); padded sc pad (zlen strv) strv d.

Definition short_month_name_flag_format (sc : bool) (pad : log_padding) (t : tm) (d : bytes) : option bytes :=
  strv ← znth short_months (tm_mon t); padded sc pad (zlen strv) strv d.

Definition month_name_flag_format (sc : bool) (pad : log_padding) (t : tm) (d : bytes) : option bytes :=
  strv ← znth months (tm_mon t); padded sc pad (zlen strv) strv d.

Definition date_time_flag_format (sc : bool) (pad : log_padding) (t : tm) (d : bytes) : option bytes :=
  wday ← znth short_weekdays (tm_wday t);
  mon ← znth short_months (tm_mon t);
  padded sc pad 24
    (wday ++ [32] ++ mon ++ [32] ++ format_int (tm_mday t) ++ [32] ++ pad2 (tm_hour t) ++ [58] ++ pad2 (tm_min t) ++
     [58] ++ pad2 (tm_sec t) ++ [32] ++ format_int (tm_year t + 1900)) d.

Definition short_year_flag_format (sc : bool) (pad : log_padding) (t : tm) (d : bytes) : option bytes :=
  padded sc pad 2 (pad2 (Z.rem (tm_year t) 100)) d.

Definition year_flag_format (sc : bool) (pad : log_padding) (t : tm) (d : bytes) : option bytes :=
  padded sc pad 4 (format_int (tm_year t + 1900)) d.

Definition month_flag_format (sc : bool) (pad : log_padding) (t : tm) (d : bytes) : option bytes :=
  padded sc pad 2 (pad2 (tm_mon t + 1)) d.

Definition day_flag_format (sc : bool) (pad : log_padding) (t : tm) (d : bytes) : option bytes :=
  padded sc pad 2 (pad2 (tm_mday t)) d.

Definition short_date_flag_format (sc : bool) (pad : log_padding) (t : tm) (d : bytes) : option bytes :=
  padded sc pad 10 (pad2 (tm_mon t + 1) ++ [47] ++ pad2 (tm_mday t) ++ [47] ++ pad2 (Z.rem (tm_year t) 100)) d.

Definition hour24_flag_format (sc : bool) (pad : log_padding) (t : tm) (d : bytes) : option bytes :=
  padded sc pad 2 (pad2 (tm_hour t)) d.

Definition hour12_flag_format (sc : bool) (pad : log_padding) (t : tm) (d : bytes) : option bytes :=
  padded sc pad 2 (pad2 (to_12_hour t)) d.

Definition min_flag_format (sc : bool) (pad : log_padding) (t : tm) (d : bytes) : option bytes :=
  padded sc pad 2 (pad2 (tm_min t)) d.

Definition second_flag_format (sc : bool) (pad : log_padding) (t : tm) (d : bytes) : option bytes :=
  padded sc pad 2 (pad2 (tm_sec t)) d.

Definition millis_flag_format (sc : bool) (pad : log_padding) (msg : log_message) (d : bytes) : option bytes :=
  padded sc pad 3 (pad3 (s32 (time_fraction 1000000 (point msg)))) d.

Definition micros_flag_format (sc : bool) (pad : log_padding) (msg : log_message) (d : bytes) : option bytes :=
  padded sc pad 6 (pad_int (u64 (time_fraction 1000 (point msg))) 6) d.

Definition nanosecond_flag_format (sc : bool) (pad : log_padding) (msg : log_message) (d : bytes) : option bytes :=
  padded sc pad 9 (pad_int (u64 (time_fraction 1 (point msg))) 9) d.

Definition timestamp_flag_format (sc : bool) (pad : log_padding) (msg : log_message) (d : bytes) : option bytes :=
  padded sc pad 10 (format_int (Z.quot (point msg) second)) d.

Definition noon_flag_format (sc : bool) (pad : log_padding) (t : tm) (d : bytes) : option bytes :=
  let strv := am_or_pm t in padded sc pad (zlen strv) strv d.

Definition clock_hour12_flag_format (sc : bool) (pad : log_padding) (t : tm) (d : bytes) : option bytes :=
  padded sc pad 11
    (pad2 (to_12_hour t) ++ [58] ++ pad2 (tm_min t) ++ [58] ++ pad2 (tm_sec t) ++ [32] ++ am_or_pm t) d.

Definition short_clock_hour24_flag_format (sc : bool) (pad : log_padding) (t : tm) (d : bytes) : option bytes :=
  padded sc pad 5 (pad2 (tm_hour t) ++ [58] ++ pad2 (tm_min t)) d.

Definition clock_hour24_flag_format (sc : bool) (pad : log_padding) (t : tm) (d : bytes) : option bytes :=
  padded sc pad 8 (pad2 (tm_hour t) ++ [58] ++ pad2 (tm_min t) ++ [58] ++ pad2 (tm_sec t)) d.

(** The minutes the local time is ahead of UTC: the days between the two
    dates by counting the leap years, then hours and minutes. *)
Definition utc_minutes_offset (tp : Z) (lc : tm) : Z :=
  let gm := gmtime (Z.quot tp second) in
  let local_year := tm_year lc + (1900 - 1) in
  let gm_year := tm_year gm + (1900 - 1) in
  let days := tm_yday lc - tm_yday gm in
  let days := days + (Z.shiftr local_year 2 - Z.shiftr gm_year 2 - (Z.quot local_year 100 - Z.quot gm_year 100) +
                      (Z.shiftr (Z.quot local_year 100) 2 - Z.shiftr (Z.quot gm_year 100) 2)) in
  let days := days + (local_year - gm_year) * 365 in
  let hours := 24 * days + (tm_hour lc - tm_hour gm) in
  60 * hours + (tm_min lc - tm_min gm).

(** The new [last_update_] and [offset_minutes_]. *)
Definition get_cached_offset (last_update offset_minutes : Z) (msg : log_message) (t : tm) : Z * Z :=
  if 10 * second <=? point msg - last_update then (point msg, utc_minutes_offset (point msg) t)
  else (last_update, offset_minutes).

Definition timezone_flag_format (sc : bool) (pad : log_padding) (total_minutes : Z) (d : bytes) : option bytes :=
  let '(sign, total_minutes) := if total_minutes <? 0 then (45, - total_minutes) else (43, total_minutes) in
  padded sc pad 6 ([sign] ++ pad2 (Z.quot total_minutes 60) ++ [58] ++ pad2 (Z.rem total_minutes 60)) d.

Definition tid_flag_format (sc : bool) (pad : log_padding) (msg : log_message) (d : bytes) : option bytes :=
  padded sc pad (padder_digits sc (u64 (tid msg))) (format_int (tid msg)) d.

Definition pid_flag_format (sc : bool) (pad : log_padding) (pid : Z) (d : bytes) : option bytes :=
  padded sc pad (padder_digits sc (u64 pid)) (format_int pid) d.

Definition ch_flag_format (ch : Z) (d : bytes) : bytes := d ++ [ch].

(** [add_ch] of the flag that holds text between the flags. *)
Definition add_ch (s : bytes) (ch : Z) : bytes := s ++ [ch].

Definition aggregate_flag_format (s : bytes) (d : bytes) : bytes := d ++ s.

Definition color_start_flag_format (l : log_line) : log_line := Line (dest l) (zlen (dest l)) (color_stop l).

Definition color_stop_flag_format (l : log_line) : log_line := Line (dest l) (color_start l) (zlen (dest l)).

Definition log_value_flag_format (sc : bool) (pad : log_padding) (msg : log_message) (d : bytes) : option bytes :=
  padded sc pad (zlen (buf msg)) (buf msg) d.

Definition source_location_flag_format (sc : bool) (pad : log_padding) (msg : log_message) (d : bytes) : option bytes :=
  if decide (file_name msg = []) then padded sc pad 0 [] d
  else
    let text_size := if enabled pad then zlen (file_name msg) + padder_digits sc (line msg) + 1 else 0 in
    padded sc pad text_size (file_name msg ++ [58] ++ format_int (line msg)) d.

Definition filename_flag_format (sc : bool) (pad : log_padding) (msg : log_message) (d : bytes) : option bytes :=
  if decide (file_name msg = []) then padded sc pad 0 [] d
  else padded sc pad (if enabled pad then zlen (file_name msg) else 0) (file_name msg) d.

(** [find_last_of("/\\")], the first character being number [i] and [last] the
    last separator before it. *)
Fixpoint find_last_of (path : bytes) (i : Z) (last : option Z) : option Z :=
  match path with
  | [] => last
  | c :: path => find_last_of path (i + 1) (if (c =? 47) || (c =? 92) then Some i else last)
  end.

(** What follows the last separator, everything when there is none. *)
Definition base_name (path : bytes) : bytes :=
  match find_last_of path 0 None with
  | Some pos => zdrop (pos + 1) path
  | None => path
  end.

Definition short_filename_flag_format (sc : bool) (pad : log_padding) (msg : log_message) (d : bytes) : option bytes :=
  if decide (file_name msg = []) then padded sc pad 0 [] d
  else
    let file := base_name (file_name msg) in
    padded sc pad (if enabled pad then zlen file else 0) file d.

Definition line_flag_format (sc : bool) (pad : log_padding) (msg : log_message) (d : bytes) : option bytes :=
  if line msg =? 0 then padded sc pad 0 [] d
  else padded sc pad (padder_digits sc (line msg)) (format_int (line msg)) d.

Definition func_flag_format (sc : bool) (pad : log_padding) (msg : log_message) (d : bytes) : option bytes :=
  if decide (function_name msg = []) then padded sc pad 0 [] d
  else padded sc pad (if enabled pad then zlen (function_name msg) else 0) (function_name msg) d.

(** The time since the last message of this flag, not negative, in its unit. *)
Definition elapsed (unit last_message_time : Z) (msg : log_message) : Z :=
  Z.quot (Z.max (point msg - last_message_time) 0) unit.

Definition elapsed_time_flag_format (sc : bool) (pad : log_padding) (delta_count : Z) (d : bytes) : option bytes :=
  padded sc pad (padder_digits sc delta_count) (format_int delta_count) d.

(** [cache_time]: the new timestamp and text. *)
Definition cache_time (cache_timestamp : Z) (cached_datetime : bytes) (secs : Z) (t : tm) : Z * bytes :=
  if (cache_timestamp =? secs) && negb (bool_decide (cached_datetime = [])) then (cache_timestamp, cached_datetime)
  else (secs, [91] ++ format_int (tm_year t + 1900) ++ [45] ++ pad2 (tm_mon t + 1) ++ [45] ++ pad2 (tm_mday t) ++
              [32] ++ pad2 (tm_hour t) ++ [58] ++ pad2 (tm_min t) ++ [58] ++ pad2 (tm_sec t) ++ [46]).

Definition default_flag_format (cached_datetime : bytes) (msg : log_message) (l : log_line) : log_line :=
  let d := dest l ++ cached_datetime ++ pad3 (s32 (time_fraction 1000000 (point msg))) ++ [93; 32] in
  let d := match name msg with
           | Some name => if decide (name = []) then d else d ++ [91] ++ name ++ [93; 32]
           | None => d
           end in
  let d := d ++ [91] in
  let start := zlen d in
  let d := d ++ to_string_view (level msg) in
  let stop := zlen d in
  let d := d ++ [93; 32] in
  let d := if decide (file_name msg = []) then d
           else d ++ [91] ++ base_name (file_name msg) ++ [58] ++ format_int (line msg) ++ [93; 32] in
  Line (d ++ buf msg) start stop.

(** The new line and the flag with its new state. *)
Definition flag_format (msg : log_message) (t : tm) (f : log_flag) (l : log_line) : option (log_flag * log_line) :=
  let sc := scoped f in
  let p := pad f in
  let become k := Flag k sc p in
  let keep (r : option bytes) : option (log_flag * log_line) :=
    d ← r; Some (f, Line d (color_start l) (color_stop l)) in
  let d := dest l in
  match kind f with
  | name_flag => keep (name_flag_format sc p msg d)
  | level_flag => keep (level_flag_format sc p msg d)
  | short_level_flag => keep (short_level_flag_format sc p msg d)
  | short_weekday_flag => keep (short_weekday_flag_format sc p t d)
  | weekday_flag => keep (weekday_flag_format sc p t d)
  | short_month_name_flag => keep (short_month_name_flag_format sc p t d)
  | month_name_flag => keep (month_name_flag_format sc p t d)
  | date_time_flag => keep (date_time_flag_format sc p t d)
  | short_year_flag => keep (short_year_flag_format sc p t d)
  | year_flag => keep (year_flag_format sc p t d)
  | month_flag => keep (month_flag_format sc p t d)
  | day_flag => keep (day_flag_format sc p t d)
  | short_date_flag => keep (short_date_flag_format sc p t d)
  | hour24_flag => keep (hour24_flag_format sc p t d)
  | hour12_flag => keep (hour12_flag_format sc p t d)
  | min_flag => keep (min_flag_format sc p t d)
  | second_flag => keep (second_flag_format sc p t d)
  | millis_flag => keep (millis_flag_format sc p msg d)
  | micros_flag => keep (micros_flag_format sc p msg d)
  | nanosecond_flag => keep (nanosecond_flag_format sc p msg d)
  | timestamp_flag => keep (timestamp_flag_format sc p msg d)
  | noon_flag => keep (noon_flag_format sc p t d)
  | clock_hour12_flag => keep (clock_hour12_flag_format sc p t d)
  | short_clock_hour24_flag => keep (short_clock_hour24_flag_format sc p t d)
  | clock_hour24_flag => keep (clock_hour24_flag_format sc p t d)
  | timezone_flag last_update offset =>
    let '(last_update, offset) := get_cached_offset last_update offset msg t in
    d ← timezone_flag_format sc p offset d;
    Some (become (timezone_flag last_update offset), Line d (color_start l) (color_stop l))
  | tid_flag => keep (tid_flag_format sc p msg d)
  | pid_flag pid => keep (pid_flag_format sc p pid d)
  | log_value_flag => keep (log_value_flag_format sc p msg d)
  | ch_flag ch => keep (Some (ch_flag_format ch d))
  | aggregate_flag s => keep (Some (aggregate_flag_format s d))
  | color_start_flag => Some (f, color_start_flag_format l)
  | color_stop_flag => Some (f, color_stop_flag_format l)
  | source_location_flag => keep (source_location_flag_format sc p msg d)
  | filename_flag => keep (filename_flag_format sc p msg d)
  | short_filename_flag => keep (short_filename_flag_format sc p msg d)
  | line_flag => keep (line_flag_format sc p msg d)
  | func_flag => keep (func_flag_format sc p msg d)
  | elapsed_time_flag unit last =>
    d ← elapsed_time_flag_format sc p (elapsed unit last msg) d;
    Some (become (elapsed_time_flag unit (point msg)), Line d (color_start l) (color_stop l))
  | default_flag stamp datetime =>
    let '(stamp, datetime) := cache_time stamp datetime (Z.quot (point msg) second) t in
    Some (become (default_flag stamp datetime), default_flag_format datetime msg l)
  | custom_flag id => Some (f, Line (custom_format id p msg t d) (color_start l) (color_stop l))
  end.

End flags.

(** * What the flags should write *)

(** The [w] last decimal digits of [n]. *)
Fixpoint fixed_digits (w : nat) (n : Z) : bytes :=
  match w with
  | O => []
  | S w => fixed_digits w (n / 10) ++ [48 + n mod 10]
  end.

Definition spaces (n : Z) : bytes := zrep n 32.

(** A text in a field: at least as wide as asked for and, when truncation is
    asked for, no wider. *)
Definition field (info : log_padding) (text : bytes) : bytes :=
  if enabled info then
    let missing := width info - zlen text in
    if 0 <? missing then
      match side info with
      | left => spaces missing ++ text
      | right => text ++ spaces missing
      | center => spaces (missing / 2) ++ text ++ spaces (missing - missing / 2)
      end
    else if truncate info then ztake (width info) text
    else text
  else text.

Definition wf_padding (info : log_padding) : Prop := 0 <= width info <= 64.

Definition wf_tm (t : tm) : Prop :=
  0 <= tm_sec t <= 60 /\ 0 <= tm_min t < 60 /\ 0 <= tm_hour t < 24 /\ 1 <= tm_mday t <= 31 /\
  0 <= tm_mon t < 12 /\ 0 <= tm_year t < 8100 /\ 0 <= tm_wday t < 7.

(** A message of today: the seconds since the epoch have ten digits. *)
Definition wf_message (msg : log_message) : Prop :=
  10 ^ 18 <= point msg < 2 ^ 63 /\ 0 <= tid msg < 2 ^ 31 /\ 0 <= line msg < 2 ^ 32.

Definition wf_kind (k : flag_kind) : Prop :=
  match k with
  | pid_flag pid => 0 <= pid < 2 ^ 31
  | elapsed_time_flag unit last => 0 < unit /\ 0 <= last
  | _ => True
  end.

Definition clock_text (h m s : Z) : bytes := fixed_digits 2 h ++ [58] ++ fixed_digits 2 m ++ [58] ++ fixed_digits 2 s.

Definition offset_text (minutes : Z) : bytes :=
  [if minutes <? 0 then 45 else 43] ++ fixed_digits 2 (Z.abs minutes / 60) ++ [58] ++ fixed_digits 2 (Z.abs minutes mod 60).

(** The text of a flag that writes a field, when it writes one. *)
Definition flag_text (gmtime : Z -> tm) (k : flag_kind) (msg : log_message) (t : tm) : option bytes :=
  match k with
  | name_flag => name msg
  | level_flag => Some (to_string_view (level msg))
  | short_level_flag => Some (to_string_view_short (level msg))
  | short_weekday_flag => znth short_weekdays (tm_wday t)
  | weekday_flag => znth weekdays (tm_wday t)
  | short_month_name_flag => znth short_months (tm_mon t)
  | month_name_flag => znth months (tm_mon t)
  | date_time_flag =>
    wday ← znth short_weekdays (tm_wday t);
    mon ← znth short_months (tm_mon t);
    Some (wday ++ [32] ++ mon ++ [32] ++ to_string (tm_mday t) ++ [32] ++
          clock_text (tm_hour t) (tm_min t) (tm_sec t) ++ [32] ++ fixed_digits 4 (tm_year t + 1900))
  | short_year_flag => Some (fixed_digits 2 (tm_year t mod 100))
  | year_flag => Some (fixed_digits 4 (tm_year t + 1900))
  | month_flag => Some (fixed_digits 2 (tm_mon t + 1))
  | day_flag => Some (fixed_digits 2 (tm_mday t))
  | short_date_flag =>
    Some (fixed_digits 2 (tm_mon t + 1) ++ [47] ++ fixed_digits 2 (tm_mday t) ++ [47] ++ fixed_digits 2 (tm_year t mod 100))
  | hour24_flag => Some (fixed_digits 2 (tm_hour t))
  | hour12_flag => Some (fixed_digits 2 (to_12_hour t))
  | min_flag => Some (fixed_digits 2 (tm_min t))
  | second_flag => Some (fixed_digits 2 (tm_sec t))
  | millis_flag => Some (fixed_digits 3 (point msg / 1000000 mod 1000))
  | micros_flag => Some (fixed_digits 6 (point msg / 1000 mod 1000000))
  | nanosecond_flag => Some (fixed_digits 9 (point msg mod 1000000000))
  | timestamp_flag => Some (fixed_digits 10 (point msg / second))
  | noon_flag => Some (am_or_pm t)
  | clock_hour12_flag => Some (clock_text (to_12_hour t) (tm_min t) (tm_sec t) ++ [32] ++ am_or_pm t)
  | short_clock_hour24_flag => Some (fixed_digits 2 (tm_hour t) ++ [58] ++ fixed_digits 2 (tm_min t))
  | clock_hour24_flag => Some (clock_text (tm_hour t) (tm_min t) (tm_sec t))
  | timezone_flag last_update offset => Some (offset_text (snd (get_cached_offset gmtime last_update offset msg t)))
  | tid_flag => Some (to_string (tid msg))
  | pid_flag pid => Some (to_string pid)
  | log_value_flag => Some (buf msg)
  | source_location_flag =>
    Some (if decide (file_name msg = []) then [] else file_name msg ++ [58] ++ to_string (line msg))
  | filename_flag => Some (file_name msg)
  | short_filename_flag => Some (base_name (file_name msg))
  | line_flag => Some (if line msg =? 0 then [] else to_string (line msg))
  | func_flag => Some (function_name msg)
  | elapsed_time_flag unit last => Some (to_string (elapsed unit last msg))
  | ch_flag _ | aggregate_flag _ | color_start_flag | color_stop_flag | default_flag _ _ | custom_flag _ => None
  end.

(** A text whose padder was told another size: as many spaces are added, or
    characters cut off the line, as that size asks for; [None] when there are
    not so many. *)
Definition sized (info : log_padding) (declared : Z) (text d : bytes) : option bytes :=
  if enabled info then
    let missing := width info - declared in
    if 0 <=? missing then
      Some (d ++ match side info with
                 | left => spaces missing ++ text
                 | right => text ++ spaces missing
                 | center => spaces (missing / 2) ++ text ++ spaces (missing - missing / 2)
                 end)
    else if truncate info then
      if zlen (d ++ text) + missing <? 0 then None else Some (ztake (zlen (d ++ text) + missing) (d ++ text))
    else Some (d ++ text)
  else Some (d ++ text).

(** The state of a flag after it has written. *)
Definition next_kind (gmtime : Z -> tm) (msg : log_message) (t : tm) (k : flag_kind) : flag_kind :=
  match k with
  | timezone_flag last_update offset =>
    let r := get_cached_offset gmtime last_update offset msg t in timezone_flag (fst r) (snd r)
  | elapsed_time_flag unit _ => elapsed_time_flag unit (point msg)
  | k => k
  end.

Definition next_flag (gmtime : Z -> tm) (msg : log_message) (t : tm) (f : log_flag) : log_flag :=
  Flag (next_kind gmtime msg t (kind f)) (scoped f) (pad f).

(** What a flag makes of the line. The texts are fields; the dates are not, for
    which the sizes declared are the size of another text: 24 for "%c", which is
    right from the tenth of a month on but in September, and 10 for "%D",
    which writes eight characters. The name of no logger is not even padded. *)
Definition put_flag (gmtime : Z -> tm) (f : log_flag) (msg : log_message) (t : tm) (d : bytes) : option bytes :=
  match kind f with
  | ch_flag ch => Some (d ++ [ch])
  | aggregate_flag s => Some (d ++ s)
  | color_start_flag | color_stop_flag => Some d
  | name_flag => Some (match name msg with Some s => d ++ field (pad f) s | None => d end)
  | date_time_flag => text ← flag_text gmtime date_time_flag msg t; sized (pad f) 24 text d
  | short_date_flag => text ← flag_text gmtime short_date_flag msg t; sized (pad f) 10 text d
  | k => text ← flag_text gmtime k msg t; Some (d ++ field (pad f) text)
  end.

(** * Padding *)

Lemma s32_small z : - 2 ^ 31 <= z < 2 ^ 31 -> s32 z = z.
Proof. unfold s32, u32. intros. destruct (Z.ltb_spec (z mod 2 ^ 32) (2 ^ 31)); divlia. Qed.

Lemma s32_u64 z : s32 (u64 z) = s32 z.
Proof. unfold s32, u32, u64. by replace (z mod 2 ^ 64 mod 2 ^ 32) with (z mod 2 ^ 32) by divlia. Qed.

Lemma ztake_spaces n : 0 <= n <= 64 -> ztake n padding_spaces = spaces n.
Proof.
  intros H. unfold ztake, padding_spaces, spaces, zrep. rewrite take_replicate. f_equal. lia.
Qed.

Lemma spaces_0 : spaces 0 = [].
Proof. reflexivity. Qed.

Lemma zlen_spaces n : 0 <= n -> zlen (spaces n) = n.
Proof. apply zlen_zrep. Qed.

(** Whatever size the padder was told. *)
Lemma padded_scoped info wrapped text d :
  wf_padding info -> 0 <= wrapped < 2 ^ 31 ->
  let missing := width info - wrapped in
  padded true info wrapped text d =
    if 0 <=? missing then
      Some (match side info with
            | left => d ++ spaces missing ++ text
            | right => d ++ text ++ spaces missing
            | center => d ++ spaces (missing / 2) ++ text ++ spaces (missing - missing / 2)
            end)
    else if truncate info then resize (d ++ text) (s32 (zlen (d ++ text)) + missing)
    else Some (d ++ text).
Proof.
  intros Hw Hs missing. unfold wf_padding in Hw. unfold padded, padder_open. rewrite s32_u64. fold missing.
  rewrite s32_small by lia. assert (missing <= 64) by lia.
  destruct (Z.leb_spec missing 0) as [Hm|Hm].
  - unfold padder_close. destruct (Z.leb_spec 0 missing) as [Hm'|Hm'].
    + replace missing with 0 by lia. rewrite ztake_0.
      by destruct (side info); rewrite ?spaces_0, ?(app_nil_r (A := Z)).
    + done.
  - rewrite (proj2 (Z.leb_le 0 missing)) by lia. unfold padder_close.
    destruct (side info).
    + rewrite ztake_0, ztake_spaces, (app_nil_r (A := Z)), <- (app_assoc (A := Z)) by lia. done.
    + rewrite (proj2 (Z.leb_le 0 missing)), ztake_spaces, <- (app_assoc (A := Z)) by lia. done.
    + rewrite Z.quot_div_nonneg by lia. rewrite (Z.land_ones _ 1) by lia. change (2 ^ 1) with 2.
      rewrite (proj2 (Z.leb_le 0 (_ + _))) by divlia. rewrite !ztake_spaces by divlia.
      rewrite <- !(app_assoc (A := Z)). repeat f_equal. divlia.
Qed.

(** A padder that was told the size of the text makes a field of it. *)
Lemma padded_field info text d :
  wf_padding info -> zlen d + zlen text < 2 ^ 31 ->
  padded (enabled info) info (zlen text) text d = Some (d ++ field info text).
Proof.
  intros Hw Hs. pose proof (zlen_nonneg d). pose proof (zlen_nonneg text). unfold field.
  destruct (enabled info); [|done]. rewrite padded_scoped by (done || lia). cbv zeta.
  unfold wf_padding in Hw. set (missing := width info - zlen text).
  destruct (Z.leb_spec 0 missing), (Z.ltb_spec 0 missing); try lia.
  - by destruct (side info).
  - replace missing with 0 by lia. rewrite ztake_ge by lia.
    by destruct (truncate info), (side info); rewrite ?spaces_0, ?(app_nil_r (A := Z)).
  - destruct (truncate info); [|done]. unfold resize. rewrite zlen_app, s32_small by lia.
    replace ((0 <=? _) && _) with true by lia.
    do 2 f_equal. replace (zlen d + zlen text + missing) with (zlen d + width info) by lia.
    rewrite ztake_app_ge by lia. do 2 f_equal. lia.
Qed.

(** A padder that was told any size. *)
Lemma padded_sized info declared text d :
  wf_padding info -> 0 <= declared < 2 ^ 31 -> zlen d + zlen text < 2 ^ 31 ->
  padded (enabled info) info declared text d = sized info declared text d.
Proof.
  intros Hw Hd Hs. pose proof (zlen_nonneg d). pose proof (zlen_nonneg text). unfold sized.
  destruct (enabled info); [|done]. rewrite padded_scoped by done. cbv zeta.
  destruct (Z.leb_spec 0 (width info - declared)) as [Hm|Hm]; [by destruct (side info)|].
  destruct (truncate info); [|done]. unfold wf_padding in Hw. unfold resize. rewrite zlen_app, s32_small by lia.
  destruct (Z.ltb_spec (zlen d + zlen text + (width info - declared)) 0).
  - by replace (0 <=? _) with false by lia.
  - by replace ((0 <=? _) && _) with true by lia.
Qed.

Lemma field_length info text :
  wf_padding info -> enabled info = true ->
  zlen (field info text) = if truncate info then width info else Z.max (width info) (zlen text).
Proof.
  unfold wf_padding, field. intros Hw ->. pose proof (zlen_nonneg text).
  destruct (Z.ltb_spec 0 (width info - zlen text)).
  - destruct (side info), (truncate info); autorewrite with simple_len; rewrite ?zlen_spaces by divlia; divlia.
  - destruct (truncate info); [rewrite zlen_ztake by lia|]; lia.
Qed.

(** * Digits *)

Lemma zlen_fixed_digits w n : zlen (fixed_digits w n) = Z.of_nat w.
Proof. revert n. induction w as [|w IH]; intros n; [done|]. cbn [fixed_digits]. autorewrite with simple_len. rewrite IH. lia. Qed.

Lemma fixed_digits_zeros j k n :
  0 <= n < 10 ^ Z.of_nat k -> fixed_digits (j + k) n = replicate j 48 ++ fixed_digits k n.
Proof.
  revert n. induction k as [|k IH]; intros n Hn.
  - assert (n = 0) as -> by lia. rewrite Nat.add_0_r. induction j as [|j IHj]; [done|].
    cbn [fixed_digits]. change (0 / 10) with 0. rewrite IHj. cbn [fixed_digits]. rewrite (app_nil_r (A := Z)).
    change (48 + 0 mod 10) with 48. by rewrite replicate_S_end, (app_nil_r (A := Z)).
  - rewrite Nat.add_succ_r. cbn [fixed_digits]. rewrite Nat2Z.inj_succ, Z.pow_succ_r in Hn by lia.
    rewrite IH by divlia. by rewrite (app_assoc (A := Z)).
Qed.

(** [n] is written with [S k] digits. *)
Definition has_digits (k : nat) (n : Z) : Prop := 0 <= n < 10 ^ Z.of_nat (S k) /\ (k = O \/ 10 ^ Z.of_nat k <= n).

Lemma dec_digits_fixed fuel k n :
  has_digits k n -> (k <= fuel)%nat -> dec_digits (S fuel) n [] = fixed_digits (S k) n.
Proof.
  revert fuel n. induction k as [|k IH]; intros fuel n [Hn Hk] Hf; rewrite dec_digits_S.
  - change (10 ^ Z.of_nat 1) with 10 in Hn. rewrite (proj2 (Z.eqb_eq (n / 10) 0)) by divlia. done.
  - destruct Hk as [?|Hk]; [lia|]. rewrite !Nat2Z.inj_succ, !Z.pow_succ_r in * by lia.
    assert (0 < 10 ^ Z.of_nat k) by lia.
    rewrite (proj2 (Z.eqb_neq (n / 10) 0)) by divlia. destruct fuel as [|fuel]; [lia|].
    rewrite dec_digits_app. cbn [fixed_digits]. f_equal. apply (IH fuel); [|lia].
    split; [rewrite Nat2Z.inj_succ, Z.pow_succ_r by lia; divlia|]. right. divlia.
Qed.

Lemma has_digits_exists m n : 0 <= n < 10 ^ Z.of_nat (S m) -> exists k, (k <= m)%nat /\ has_digits k n.
Proof.
  induction m as [|m IH]; intros Hn.
  - exists O. split; [lia|]. split; [done|by left].
  - destruct (Z.ltb_spec n (10 ^ Z.of_nat (S m))) as [H|H].
    + destruct IH as (k & Hk & Hd); [lia|]. exists k. split; [lia|done].
    + exists (S m). split; [lia|]. split; [done|by right].
Qed.

Lemma to_string_fixed k n : has_digits k n -> (k < 20)%nat -> to_string n = fixed_digits (S k) n.
Proof. intros. apply dec_digits_fixed; [done|lia]. Qed.

(** * The flags write fields *)

(** What fmt does with the integers it is given. *)
Definition fmt_decimal (format_int : Z -> bytes) (count_digits : Z -> Z) : Prop :=
  (forall n, is_u64 n -> format_int n = to_string n) /\ (forall n, is_u64 n -> count_digits n = zlen (to_string n)).

Lemma pad2_fixed format_02 n : 0 <= n < 100 -> pad2 format_02 n = fixed_digits 2 n.
Proof.
  intros Hn. unfold pad2. replace ((0 <=? n) && (n <? 100)) with true by lia.
  cbn [fixed_digits]. rewrite Z.quot_div_nonneg, Z.rem_mod_nonneg by lia. cbn [app].
  by rewrite (Z.mod_small (n / 10)) by divlia.
Qed.

Lemma pad3_fixed format_int n : 0 <= n < 1000 -> pad3 format_int n = fixed_digits 3 n.
Proof.
  intros Hn. unfold pad3. rewrite (proj2 (Z.ltb_lt n 1000)) by lia. cbv zeta.
  cbn [fixed_digits app]. rewrite !Z.rem_mod_nonneg, !Z.quot_div_nonneg by (lia || divlia).
  rewrite !u8_small by (unfold is_byte; divlia).
  replace (n / 100 + 48) with (48 + n / 10 / 10 mod 10) by divlia.
  replace (n mod 100 / 10 + 48) with (48 + n / 10 mod 10) by divlia.
  by replace (n mod 100 mod 10 + 48) with (48 + n mod 10) by divlia.
Qed.

Lemma pad_int_fixed format_int count_digits w n :
  fmt_decimal format_int count_digits ->
  (1 <= w <= 19)%nat -> 0 <= n < 10 ^ Z.of_nat w -> pad_int format_int count_digits n (Z.of_nat w) = fixed_digits w n.
Proof.
  intros Hfmt Hw Hn. destruct w as [|w]; [lia|]. destruct (has_digits_exists w n Hn) as (k & Hk & Hd).
  assert (is_u64 n).
  { pose proof (Z.pow_le_mono_r 10 (Z.of_nat (S w)) 19 ltac:(lia) ltac:(lia)). unfold is_u64. lia. }
  unfold pad_int. destruct Hfmt as [Hi Hc]. rewrite Hi, Hc by done. rewrite (to_string_fixed k) by (done || lia).
  rewrite zlen_fixed_digits. replace (S w) with ((w - k) + S k)%nat at 2 by lia.
  rewrite fixed_digits_zeros by apply Hd. unfold zrep. do 2 f_equal. lia.
Qed.

Lemma format_int_fixed format_int count_digits k n :
  fmt_decimal format_int count_digits -> (k < 19)%nat -> has_digits k n -> format_int n = fixed_digits (S k) n.
Proof.
  intros Hfmt Hk Hd. destruct Hfmt as [Hi _].
  pose proof (Z.pow_le_mono_r 10 (Z.of_nat (S k)) 19 ltac:(lia) ltac:(lia)). destruct (Hd) as [Hn _].
  rewrite Hi by (unfold is_u64; lia). apply to_string_fixed; [done|lia].
Qed.

(** The fraction of a second, in a unit that divides it. *)
Lemma time_fraction_mod unit n tp :
  0 <= tp -> 0 < unit -> 0 < n -> unit * n = second -> time_fraction unit tp = tp / unit mod n.
Proof.
  intros Htp Hu Hn E. unfold time_fraction. rewrite <- E, !Z.quot_div_nonneg by lia.
  rewrite (Z.mul_comm unit n), Z.div_mul, (Z.mul_comm n unit), <- Z.div_div by lia. pose proof (Z.div_mod (tp / unit) n). lia.
Qed.

(** The text is [text], whatever it was computed from, and the padder, if
    there is one, was told its size. *)
Lemma padded_is sc info n text text' d :
  text' = text -> (enabled info = true -> n = zlen text) -> sc = enabled info -> wf_padding info -> zlen d + zlen text < 2 ^ 31 ->
  padded sc info n text' d = Some (d ++ field info text).
Proof.
  intros -> Hn -> Hp Hl. destruct (enabled info) eqn:E.
  - rewrite Hn, <- E by done. by apply padded_field.
  - by unfold padded, field; rewrite E.
Qed.

Section fields.

Context (format_int : Z -> bytes) (count_digits : Z -> Z) (format_02 : Z -> bytes) (gmtime : Z -> tm).
Context (custom_format : Z -> log_padding -> log_message -> tm -> bytes -> bytes).

(** A flag writes [text]. *)
Definition writes (msg : log_message) (t : tm) (k : flag_kind) (text : bytes) : Prop :=
  forall sc info l,
    sc = enabled info -> wf_padding info -> zlen (dest l) + zlen text < 2 ^ 31 ->
    flag_format format_int count_digits format_02 gmtime custom_format msg t (Flag k sc info) l =
      Some (Flag (next_kind gmtime msg t k) sc info, Line (dest l ++ field info text) (color_start l) (color_stop l)).

End fields.

(** Opens [writes] for a class: the text and its size remain to be shown. *)
Ltac open_flag :=
  intros sc info l Hsc Hp Hl; unfold flag_format; cbn [kind scoped pad];
  lazymatch goal with |- context [let '(_, _) := ?e in _] => rewrite (surjective_pairing e) | _ => idtac end.

Ltac close_flag := erewrite padded_is; [reflexivity| | |done|done|done].

Ltac in_list := solve [constructor 1 | constructor 2; in_list].

Ltac size := intros _; autorewrite with simple_len; rewrite ?zlen_fixed_digits; reflexivity.

Section dates.

Context (format_int : Z -> bytes) (count_digits : Z -> Z) (format_02 : Z -> bytes) (gmtime : Z -> tm).
Context (custom_format : Z -> log_padding -> log_message -> tm -> bytes -> bytes).
Context (Hfmt : fmt_decimal format_int count_digits).
Context (msg : log_message) (t : tm) (Ht : wf_tm t).

Abbreviation writes := (writes format_int count_digits format_02 gmtime custom_format msg t).

Lemma to_12_hour_range : 0 <= to_12_hour t < 13.
Proof. unfold wf_tm in Ht. unfold to_12_hour. case_match; lia. Qed.

Lemma zlen_am_or_pm : zlen (am_or_pm t) = 2.
Proof. unfold am_or_pm. by case_match. Qed.

(** The flags made of numbers of two digits. *)
Lemma clock_flags k text :
  k ∈ [month_flag; day_flag; hour24_flag; hour12_flag; min_flag; second_flag; short_year_flag; clock_hour12_flag;
       short_clock_hour24_flag; clock_hour24_flag] ->
  flag_text gmtime k msg t = Some text -> writes k text.
Proof.
  intros Hk Hx. pose proof to_12_hour_range as H12. unfold wf_tm in Ht.
  assert (0 <= tm_year t mod 100 < 100) by divlia.
  repeat (apply elem_of_cons in Hk as [->|Hk]; [cbn [flag_text] in Hx; apply (inj Some) in Hx as <-; open_flag|]); [..|by apply elem_of_nil in Hk].
  - unfold month_flag_format. close_flag; [apply pad2_fixed; lia|size].
  - unfold day_flag_format. close_flag; [apply pad2_fixed; lia|size].
  - unfold hour24_flag_format. close_flag; [apply pad2_fixed; lia|size].
  - unfold hour12_flag_format. close_flag; [apply pad2_fixed; lia|size].
  - unfold min_flag_format. close_flag; [apply pad2_fixed; lia|size].
  - unfold second_flag_format. close_flag; [apply pad2_fixed; lia|size].
  - unfold short_year_flag_format. close_flag; [rewrite Z.rem_mod_nonneg by lia; apply pad2_fixed; lia|size].
  - unfold clock_hour12_flag_format. close_flag; [unfold clock_text; by rewrite !pad2_fixed, <- !(app_assoc (A := Z)) by lia|].
    intros _. unfold clock_text. autorewrite with simple_len. by rewrite !zlen_fixed_digits, zlen_am_or_pm.
  - unfold short_clock_hour24_flag_format. close_flag; [by rewrite !pad2_fixed by lia|size].
  - unfold clock_hour24_flag_format. close_flag; [by rewrite !pad2_fixed by lia|unfold clock_text; size].
Qed.

(** The flags that write a name. *)
Lemma name_flags k text :
  k ∈ [name_flag; level_flag; short_level_flag; short_weekday_flag; weekday_flag; short_month_name_flag; month_name_flag;
       noon_flag; log_value_flag; filename_flag; short_filename_flag; func_flag] ->
  flag_text gmtime k msg t = Some text -> writes k text.
Proof.
  intros Hk Hx.
  repeat (apply elem_of_cons in Hk as [->|Hk]; [cbn [flag_text] in Hx; open_flag|]); [..|by apply elem_of_nil in Hk].
  - unfold name_flag_format. rewrite Hx. by close_flag.
  - apply (inj Some) in Hx as <-. by unfold level_flag_format; close_flag.
  - apply (inj Some) in Hx as <-. by unfold short_level_flag_format; close_flag.
  - unfold short_weekday_flag_format. rewrite Hx. cbn [mbind option_bind]. by close_flag.
  - unfold weekday_flag_format. rewrite Hx. cbn [mbind option_bind]. by close_flag.
  - unfold short_month_name_flag_format. rewrite Hx. cbn [mbind option_bind]. by close_flag.
  - unfold month_name_flag_format. rewrite Hx. cbn [mbind option_bind]. by close_flag.
  - apply (inj Some) in Hx as <-. by unfold noon_flag_format; close_flag.
  - apply (inj Some) in Hx as <-. by unfold log_value_flag_format; close_flag.
  - apply (inj Some) in Hx as <-. unfold filename_flag_format. case_decide as He.
    + rewrite He in *. by close_flag.
    + close_flag; [done|by intros ->].
  - apply (inj Some) in Hx as <-. unfold short_filename_flag_format. case_decide as He.
    + rewrite He in *. by close_flag.
    + close_flag; [done|by intros ->].
  - apply (inj Some) in Hx as <-. unfold func_flag_format. case_decide as He.
    + rewrite He in *. by close_flag.
    + close_flag; [done|by intros ->].
Qed.

(** The fractions of the second. *)
Lemma fraction_flags k text :
  k ∈ [millis_flag; micros_flag; nanosecond_flag] -> 0 <= point msg ->
  flag_text gmtime k msg t = Some text -> writes k text.
Proof.
  intros Hk Hp0 Hx.
  repeat (apply elem_of_cons in Hk as [->|Hk]; [cbn [flag_text] in Hx; apply (inj Some) in Hx as <-; open_flag|]);
    [..|by apply elem_of_nil in Hk].
  - unfold millis_flag_format. rewrite (time_fraction_mod _ 1000) by (done || lia). close_flag; [|size].
    rewrite s32_small by divlia. apply pad3_fixed. divlia.
  - unfold micros_flag_format. rewrite (time_fraction_mod _ 1000000) by (done || lia). close_flag; [|size].
    rewrite u64_small by (unfold is_u64; divlia). apply (pad_int_fixed _ _ 6); [done|lia|divlia].
  - unfold nanosecond_flag_format. rewrite (time_fraction_mod _ 1000000000), Z.div_1_r by (done || lia). close_flag; [|size].
    rewrite u64_small by (unfold is_u64; divlia). apply (pad_int_fixed _ _ 9); [done|lia|divlia].
Qed.

(** The flags that write one number. *)
Lemma number_flags k text :
  k ∈ [year_flag; timestamp_flag; tid_flag; line_flag; source_location_flag] -> wf_message msg ->
  flag_text gmtime k msg t = Some text -> writes k text.
Proof.
  intros Hk (Hpt & Htid & Hline) Hx. pose proof Hfmt as [Hi Hc]. unfold wf_tm in Ht.
  assert (is_u64 (tid msg) /\ is_u64 (line msg)) as [Hut Hul] by (unfold is_u64; lia).
  repeat (apply elem_of_cons in Hk as [->|Hk]; [cbn [flag_text] in Hx; apply (inj Some) in Hx as <-; open_flag|]);
    [..|by apply elem_of_nil in Hk].
  - unfold year_flag_format. close_flag; [|size].
    apply (format_int_fixed _ _ 3 _ Hfmt); [lia|]. split; [|right]; cbn; lia.
  - unfold timestamp_flag_format. rewrite Z.quot_div_nonneg by (unfold second; lia). close_flag; [|size].
    apply (format_int_fixed _ _ 9 _ Hfmt); [lia|]. unfold second. split; [|right]; cbn; divlia.
  - unfold tid_flag_format. rewrite u64_small by done. close_flag; [by apply Hi|].
    unfold padder_digits. rewrite Hsc. intros ->. by apply Hc.
  - unfold line_flag_format. destruct (line msg =? 0); [by close_flag|]. close_flag; [by apply Hi|].
    unfold padder_digits. rewrite Hsc. intros ->. by apply Hc.
  - unfold source_location_flag_format. case_decide as He; [by close_flag|]. rewrite Hi by done. close_flag; [done|].
    unfold padder_digits. rewrite Hsc. intros ->. rewrite Hc by done. autorewrite with simple_len. lia.
Qed.

(** The zone, when it has two digits of hours. *)
Lemma zone_flag last_update offset text :
  Z.abs (snd (get_cached_offset gmtime last_update offset msg t)) < 6000 ->
  flag_text gmtime (timezone_flag last_update offset) msg t = Some text -> writes (timezone_flag last_update offset) text.
Proof.
  intros He Hx. cbn [flag_text] in Hx. open_flag. cbn [next_kind].
  apply (inj Some) in Hx as <-. set (r := get_cached_offset gmtime last_update offset msg t) in *.
  generalize dependent (snd r). generalize (fst r). clear r. intros at_ m He Hl. unfold timezone_flag_format, offset_text in *.
  destruct (Z.ltb_spec m 0); (close_flag; [|size]).
  - rewrite Z.abs_neq, Z.quot_div_nonneg, Z.rem_mod_nonneg, !pad2_fixed by (lia || divlia). done.
  - rewrite Z.abs_eq, Z.quot_div_nonneg, Z.rem_mod_nonneg, !pad2_fixed by (lia || divlia). done.
Qed.

(** The flags that keep a number. *)
Lemma counter_flags k text :
  match k with pid_flag _ | elapsed_time_flag _ _ => wf_kind k | _ => False end -> wf_message msg ->
  flag_text gmtime k msg t = Some text -> writes k text.
Proof.
  intros Hk (Hpt & _) Hx. pose proof Hfmt as [Hi Hc]. destruct k; try done; cbn [flag_text wf_kind] in Hx, Hk;
    apply (inj Some) in Hx as <-; open_flag.
  - assert (is_u64 pid) by (unfold is_u64; lia). unfold pid_flag_format. rewrite u64_small by done.
    close_flag; [by apply Hi|]. unfold padder_digits. rewrite Hsc. intros ->. by apply Hc.
  - set (n := elapsed unit last_message_time msg).
    assert (is_u64 n) by (unfold n, elapsed, is_u64; rewrite Z.quot_div_nonneg by lia; divlia).
    unfold elapsed_time_flag_format. close_flag; [by apply Hi|].
    unfold padder_digits. rewrite Hsc. intros ->. by apply Hc.
Qed.

(** The dates. *)
Lemma date_time_text : flag_text gmtime date_time_flag msg t = None \/
  exists text, flag_text gmtime date_time_flag msg t = Some text /\
    forall sc info d, date_time_flag_format format_int format_02 sc info t d = padded sc info 24 text d.
Proof.
  unfold date_time_flag_format. cbn [flag_text]. unfold wf_tm in Ht.
  destruct (znth short_weekdays (tm_wday t)) as [wday|]; [|by left].
  destruct (znth short_months (tm_mon t)) as [mon|]; [|by left]. cbn [mbind option_bind]. right. eexists. split; [reflexivity|]. intros sc info d.
  rewrite (format_int_fixed _ _ 3 (tm_year t + 1900) Hfmt), (proj1 Hfmt (tm_mday t)), !pad2_fixed
    by (lia || (unfold is_u64; lia) || (split; [|right]; cbn; lia)).
  unfold clock_text. by rewrite <- !(app_assoc (A := Z)).
Qed.

Lemma short_date_text text :
  flag_text gmtime short_date_flag msg t = Some text ->
  forall sc info d, short_date_flag_format format_02 sc info t d = padded sc info 10 text d.
Proof.
  intros Hx sc info d. apply (inj Some) in Hx as <-. unfold wf_tm in Ht. unfold short_date_flag_format.
  by rewrite Z.rem_mod_nonneg, !pad2_fixed by (lia || divlia).
Qed.

(** Every other flag that writes a field. *)
Lemma flag_writes k text :
  wf_message msg -> wf_kind k ->
  match k with
  | date_time_flag | short_date_flag => False
  | timezone_flag last_update offset => Z.abs (snd (get_cached_offset gmtime last_update offset msg t)) < 6000
  | _ => True
  end ->
  flag_text gmtime k msg t = Some text -> writes k text.
Proof.
  intros Hm Hk He Hx. assert (0 <= point msg) by (destruct Hm as [Hp _]; lia).
  destruct k;
    lazymatch type of Hk with
    | wf_kind date_time_flag => destruct He
    | wf_kind short_date_flag => destruct He
    | wf_kind (timezone_flag ?a ?b) => exact (zone_flag a b text He Hx)
    | wf_kind (pid_flag ?a) => exact (counter_flags (pid_flag a) text Hk Hm Hx)
    | wf_kind (elapsed_time_flag ?a ?b) => exact (counter_flags (elapsed_time_flag a b) text Hk Hm Hx)
    | _ => first
      [ discriminate Hx
      | apply number_flags; [in_list|exact Hm|exact Hx]
      | apply fraction_flags; [in_list|assumption|exact Hx]
      | apply name_flags; [in_list|exact Hx]
      | apply clock_flags; [in_list|exact Hx] ]
    end.
Qed.

End dates.

(** The size "%D" declares is two more than what it writes: asked to truncate
    to less than ten characters, it cuts two characters more, those before it
    on the line when there are none left of its own, and has nothing to cut at
    the beginning of a line. *)
Theorem short_date_cut format_02 info t d :
  wf_padding info -> truncate info = true -> width info < 10 -> wf_tm t -> zlen d + 8 < 2 ^ 31 ->
  short_date_flag_format format_02 true info t d =
    let text := fixed_digits 2 (tm_mon t + 1) ++ [47] ++ fixed_digits 2 (tm_mday t) ++ [47] ++
                fixed_digits 2 (tm_year t mod 100) in
    if zlen d + width info <? 2 then None else Some (ztake (zlen d + width info - 2) (d ++ text)).
Proof.
  intros Hw Ht Hw10 Htm Hd. cbv zeta. unfold short_date_flag_format. unfold wf_tm in Htm.
  pose proof (zlen_nonneg d).
  rewrite padded_scoped by (done || lia). rewrite !pad2_fixed by (lia || (rewrite Z.rem_mod_nonneg by lia; divlia)).
  rewrite Z.rem_mod_nonneg by lia. cbv zeta. unfold wf_padding in Hw. rewrite Ht.
  rewrite (proj2 (Z.leb_gt 0 _)) by lia.
  set (text := fixed_digits 2 (tm_mon t + 1) ++ _).
  assert (zlen text = 8) as El by (unfold text; autorewrite with simple_len; by rewrite !zlen_fixed_digits).
  unfold resize. rewrite zlen_app, El, s32_small by lia.
  replace (zlen d + 8 + (width info - 10)) with (zlen d + width info - 2) by lia.
  destruct (Z.ltb_spec (zlen d + width info) 2).
  - by replace (0 <=? zlen d + width info - 2) with false by lia.
  - by replace ((0 <=? _) && _) with true by lia.
Qed.

(** "%0!D" on an empty line, and after a bracket and a space. *)
Lemma short_date_cut_witness :
  let t := Tm 0 0 0 7 10 123 2 310 in
  short_date_flag_format to_string true (Padding 0 left true true) t [] = None /\
  short_date_flag_format to_string true (Padding 0 left true true) t (str "[a] ") = Some (str "[a").
Proof.
  intros t. assert (wf_tm t) as Ht by (unfold wf_tm; cbn; lia).
  pose proof (short_date_cut to_string (Padding 0 left true true) t) as H. unfold wf_padding in H. cbn [width truncate] in H.
  split; rewrite H; try exact Ht; try lia; try reflexivity; vm_compute; reflexivity.
Defined.

(** * The time zone *)

(** POSIX, "Seconds Since the Epoch": the seconds a date of UTC stands for,
    from 1970 on. *)
Definition posix_seconds (t : tm) : Z :=
  tm_sec t + tm_min t * 60 + tm_hour t * 3600 + tm_yday t * 86400 + (tm_year t - 70) * 31536000 +
  (tm_year t - 69) / 4 * 86400 - (tm_year t - 1) / 100 * 86400 + (tm_year t + 299) / 400 * 86400.

Lemma utc_offset_seconds gmtime tp lc :
  let gm := gmtime (Z.quot tp second) in
  70 <= tm_year gm -> 70 <= tm_year lc ->
  60 * utc_minutes_offset gmtime tp lc = posix_seconds lc - tm_sec lc - (posix_seconds gm - tm_sec gm).
Proof.
  intros gm Hg Hl. unfold utc_minutes_offset. fold gm. cbv zeta.
  rewrite !Z.quot_div_nonneg, !Z.shiftr_div_pow2 by lia. change (2 ^ 2) with 4.
  rewrite !Z.div_div by lia. change (100 * 4) with 400. unfold posix_seconds.
  replace (tm_year lc + (1900 - 1)) with (tm_year lc + 1899) by lia.
  replace (tm_year gm + (1900 - 1)) with (tm_year gm + 1899) by lia.
  assert (forall y, (y - 69) / 4 = (y + 1899) / 4 - 492) as E4 by (intros; divlia).
  assert (forall y, (y - 1) / 100 = (y + 1899) / 100 - 19) as E100 by (intros; divlia).
  assert (forall y, (y + 299) / 400 = (y + 1899) / 400 - 4) as E400 by (intros; divlia).
  rewrite !E4, !E100, !E400. lia.
Qed.

(** When the local clock is a number of minutes ahead of UTC, this is the
    offset computed from the two dates, over any year end and leap day. *)
Theorem utc_offset_is_difference gmtime tp lc minutes :
  0 <= tp ->
  posix_seconds (gmtime (tp / second)) = tp / second ->
  posix_seconds lc = tp / second + 60 * minutes ->
  tm_sec (gmtime (tp / second)) = tm_sec lc -> 70 <= tm_year (gmtime (tp / second)) -> 70 <= tm_year lc ->
  utc_minutes_offset gmtime tp lc = minutes.
Proof.
  intros Htp Hg Hl Hs Hyg Hyl.
  assert (Z.quot tp second = tp / second) as Eq by (apply Z.quot_div_nonneg; [done|reflexivity]).
  pose proof (utc_offset_seconds gmtime tp lc) as H. cbv zeta in H. rewrite Eq in H. specialize (H Hyg Hyl). lia.
Qed.

(** New Year's night in Shanghai, still December in UTC. *)
Lemma utc_offset_is_difference_witness :
  let gm := Tm 5 30 18 31 11 123 0 364 in
  utc_minutes_offset (fun _ => gm) (1704047405 * second) (Tm 5 30 2 1 0 124 1 0) = 480.
Proof.
  intros gm. apply (utc_offset_is_difference (fun _ => gm) (1704047405 * second) (Tm 5 30 2 1 0 124 1 0) 480).
  - unfold second. lia.
  - vm_compute. reflexivity.
  - vm_compute. reflexivity.
  - reflexivity.
  - cbn. lia.
  - cbn. lia.
Defined.

(** The names of the levels read back, long or short. *)
Lemma level_names_read_back l :
  log_level_from_string_view (to_string_view l) = l /\ log_level_from_string_view (to_string_view_short l) = l.
Proof. by destruct l. Qed.

(** The base name is what follows the last separator. *)
Lemma find_last_of_none path i last :
  Forall (fun c => (c =? 47) || (c =? 92) = false) path -> find_last_of path i last = last.
Proof. intros H. revert i last. induction H as [|c path Hc _ IH]; intros i last; [done|]. cbn [find_last_of]. by rewrite Hc. Qed.

Lemma find_last_of_app dir sep base i last :
  (sep =? 47) || (sep =? 92) = true -> Forall (fun c => (c =? 47) || (c =? 92) = false) base ->
  find_last_of (dir ++ sep :: base) i last = Some (i + zlen dir).
Proof.
  intros Hs Hb. revert i last. induction dir as [|c dir IH]; intros i last; cbn [app find_last_of].
  - rewrite Hs, find_last_of_none by done. f_equal. change (zlen []) with 0. lia.
  - rewrite IH, zlen_cons. f_equal. lia.
Qed.

Lemma base_name_app dir sep base :
  (sep =? 47) || (sep =? 92) = true -> Forall (fun c => (c =? 47) || (c =? 92) = false) base ->
  base_name (dir ++ sep :: base) = base.
Proof.
  intros Hs Hb. unfold base_name. rewrite find_last_of_app by done.
  replace (dir ++ sep :: base) with ((dir ++ [sep]) ++ base) by (by rewrite <- (app_assoc (A := Z))).
  replace (0 + zlen dir + 1) with (zlen (dir ++ [sep])) by (rewrite zlen_app; change (zlen [sep]) with 1; lia).
  apply zdrop_app_length.
Qed.
