(* ===== verification/LogFormatter.v ===== *)
(** The log's line format: src/log/formatter.cpp. A pattern is a text with
    flags, each a percent sign, an optional width and a letter; [set_pattern]
    makes the list of flags of File LogFlags, [format] writes a message with
    them. The theorems follow a pattern from its text to the lines: [set_pattern]
    reads back any printed pattern but forgets the text after the last flag,
    and message after message the lines are what [pattern_lines] says of the
    letters, with the calendar of each message's own second. *)

From Stdlib Require Import (notations) String.
From stdpp Require Import gmap.
From S2P Require Import Prelude Stream LogFlags.

(** The code of a character. *)
Definition chr (s : String.string) : Z := hd 0 (str s).
Arguments chr s%_string.

Record log_formatter := Formatter {
  time_type : log_time_type;
  need_localtime : bool;
  cached_tm : tm;
  last_log_secs : Z;
  custom_flags : gmap Z (log_padding -> log_flag);
  formatters : list log_flag }.

(** A value-initialised [std::tm]. *)
Definition zero_tm : tm := Tm 0 0 0 0 0 0 0 0.

(** The constructor without a pattern. *)
Definition default_formatter (tp : log_time_type) : log_formatter :=
  Formatter tp true zero_tm 0 ∅ [Flag (default_flag 0 []) false no_padding].

(** The digits of the width; what follows them. *)
Fixpoint padding_width (width : Z) (s : bytes) : Z * bytes :=
  match s with
  | c :: s' => if is_digit c then padding_width (u64 (u64 (width * 10) + (c - 48))) s' else (width, s)
  | [] => (width, [])
  end.

(** The side, when one is written. *)
Definition padding_side (s : bytes) : pad_side * bytes :=
  match s with
  | c :: s' => if c =? chr "-" then (right, s') else if c =? chr "=" then (center, s') else (left, s)
  | [] => (left, s)
  end.

Definition padding_truncate (s : bytes) : bool * bytes :=
  match s with
  | c :: s' => if c =? chr "!" then (true, s') else (false, s)
  | [] => (false, s)
  end.

(** The padding written at the beginning of [s], and the rest of it. A side
    without a width is skipped. *)
Definition handle_padding (s : bytes) : log_padding * bytes :=
  let '(side, s) := padding_side s in
  match s with
  | [] => (no_padding, [])
  | c :: s' =>
    if is_digit c then
      let '(width, s) := padding_width (c - 48) s' in
      let '(truncate, s) := padding_truncate s in
      (Padding (Z.min width (zlen padding_spaces)) side truncate true, s)
    else (no_padding, s)
  end.

(** The flag class of a letter and whether it needs the calendar; [pid] is the
    process, [now] the clock when the flag is made. *)
Definition flag_of (pid now ch : Z) : option (flag_kind * bool) :=
  if ch =? chr "n" then Some (name_flag, false)
  else if ch =? chr "l" then Some (level_flag, false)
  else if ch =? chr "L" then Some (short_level_flag, false)
  else if ch =? chr "t" then Some (tid_flag, false)
  else if ch =? chr "v" then Some (log_value_flag, false)
  else if ch =? chr "a" then Some (short_weekday_flag, true)
  else if ch =? chr "A" then Some (weekday_flag, true)
  else if letter ch (chr "b") (chr "h") then Some (short_month_name_flag, true)
  else if ch =? chr "B" then Some (month_name_flag, true)
  else if ch =? chr "c" then Some (date_time_flag, true)
  else if ch =? chr "C" then Some (short_year_flag, true)
  else if ch =? chr "Y" then Some (year_flag, true)
  else if letter ch (chr "D") (chr "x") then Some (short_date_flag, true)
  else if ch =? chr "m" then Some (month_flag, true)
  else if ch =? chr "d" then Some (day_flag, true)
  else if ch =? chr "H" then Some (hour24_flag, true)
  else if ch =? chr "I" then Some (hour12_flag, true)
  else if ch =? chr "M" then Some (min_flag, true)
  else if ch =? chr "S" then Some (second_flag, true)
  else if ch =? chr "e" then Some (millis_flag, false)
  else if ch =? chr "f" then Some (micros_flag, false)
  else if ch =? chr "F" then Some (nanosecond_flag, false)
  else if ch =? chr "E" then Some (timestamp_flag, false)
  else if ch =? chr "p" then Some (noon_flag, true)
  else if ch =? chr "r" then Some (clock_hour12_flag, true)
  else if ch =? chr "R" then Some (short_clock_hour24_flag, true)
  else if letter ch (chr "T") (chr "X") then Some (clock_hour24_flag, true)
  else if ch =? chr "z" then Some (timezone_flag 0 0, true)
  else if ch =? chr "P" then Some (pid_flag pid, false)
  else if ch =? chr "^" then Some (color_start_flag, false)
  else if ch =? chr "$" then Some (color_stop_flag, false)
  else if ch =? chr "@" then Some (source_location_flag, false)
  else if ch =? chr "s" then Some (short_filename_flag, false)
  else if ch =? chr "g" then Some (filename_flag, false)
  else if ch =? chr "#" then Some (line_flag, false)
  else if ch =? chr "!" then Some (func_flag, false)
  else if ch =? chr "%" then Some (ch_flag (chr "%"), false)
  else if ch =? chr "u" then Some (elapsed_time_flag 1 now, false)
  else if ch =? chr "i" then Some (elapsed_time_flag 1000 now, false)
  else if ch =? chr "o" then Some (elapsed_time_flag 1000000 now, false)
  else if ch =? chr "O" then Some (elapsed_time_flag second now, false)
  else None.

Definition emplace (flags : list log_flag) (need : bool) (f : log_formatter) : log_formatter :=
  Formatter (time_type f) (need_localtime f || need) (cached_tm f) (last_log_secs f) (custom_flags f)
            (formatters f ++ flags).

(** [handle_flag<Padder>], [sc] telling which padder. *)
Definition handle_flag (pid now : Z) (sc : bool) (ch : Z) (padding : log_padding) (f : log_formatter) : log_formatter :=
  match custom_flags f !! ch with
  | Some create => emplace [create padding] false f
  | None =>
    match flag_of pid now ch with
    | Some (k, need) => emplace [Flag k sc padding] need f
    | None =>
      if negb (truncate padding) then
        emplace [Flag (aggregate_flag (add_ch (add_ch [] (chr "%")) ch)) false no_padding] false f
      else
        let padding := Padding (width padding) (side padding) false (enabled padding) in
        emplace [Flag func_flag sc padding; Flag (aggregate_flag (add_ch [] ch)) false no_padding] false f
    end
  end.

(** The text between the flags, when there is any. *)
Definition flush_user_chars (user_chars : bytes) (f : log_formatter) : log_formatter :=
  if decide (user_chars = []) then f else emplace [Flag (aggregate_flag user_chars) false no_padding] false f.

Section formatter.

(** fmt and the C library, a custom flag, the process, and the clock at the
    making of the flag with that number. *)
Context (format_int : Z -> bytes) (count_digits : Z -> Z) (format_02 : Z -> bytes).
Context (localtime gmtime : Z -> tm).
Context (custom_format : Z -> log_padding -> log_message -> tm -> bytes -> bytes).
Context (pid : Z) (now : nat -> Z).

(** The loop of [set_pattern]; every turn takes at least one character. *)
Fixpoint pattern_loop (fuel : nat) (s user_chars : bytes) (f : log_formatter) : option log_formatter :=
  match s, fuel with
  | [], _ => Some f
  | _, O => None
  | c :: s, S fuel =>
    if c =? chr "%" then
      let f := flush_user_chars user_chars f in
      let '(padding, s) := handle_padding s in
      match s with
      | ch :: s => pattern_loop fuel s [] (handle_flag pid (now (length (formatters f))) (enabled padding) ch padding f)
      | [] => Some f
      end
    else pattern_loop fuel s (add_ch user_chars c) f
  end.

Definition clear_formatters (f : log_formatter) : log_formatter :=
  Formatter (time_type f) false (cached_tm f) (last_log_secs f) (custom_flags f) [].

Definition set_pattern (pattern : bytes) (f : log_formatter) : option log_formatter :=
  pattern_loop (length pattern) pattern [] (clear_formatters f).

(** The constructor with a pattern. *)
Definition pattern_formatter (pattern : bytes) (tp : log_time_type) : option log_formatter :=
  set_pattern pattern (Formatter tp false zero_tm 0 ∅ []).

Definition calendar (f : log_formatter) (secs : Z) : tm :=
  match time_type f with local => localtime secs | utc => gmtime secs end.

(** [cached_tm_] and [last_log_secs_] brought up to date. *)
Definition update_tm (msg : log_message) (f : log_formatter) : log_formatter :=
  let secs := Z.quot (point msg) second in
  if need_localtime f && negb (secs =? last_log_secs f) then
    Formatter (time_type f) (need_localtime f) (calendar f secs) secs (custom_flags f) (formatters f)
  else f.

(** Every flag in turn. *)
Fixpoint format_flags (msg : log_message) (t : tm) (flags : list log_flag) (l : log_line) : option (list log_flag * log_line) :=
  match flags with
  | [] => Some ([], l)
  | f :: flags =>
    '(f, l) ← flag_format format_int count_digits format_02 gmtime custom_format msg t f l;
    '(flags, l) ← format_flags msg t flags l;
    Some (f :: flags, l)
  end.

Definition default_eol : bytes := [10].

Definition format (msg : log_message) (f : log_formatter) (l : log_line) : option (log_formatter * log_line) :=
  let f := update_tm msg f in
  '(flags, l) ← format_flags msg (cached_tm f) (formatters f) l;
  Some (Formatter (time_type f) (need_localtime f) (cached_tm f) (last_log_secs f) (custom_flags f) flags,
        Line (dest l ++ default_eol) (color_start l) (color_stop l)).

(** [log_flag::clone]: the pid and the clock are read again, the text of the
    date is not copied. *)
Definition flag_clone (now : Z) (f : log_flag) : log_flag :=
  Flag match kind f with
       | pid_flag _ => pid_flag pid
       | elapsed_time_flag unit _ => elapsed_time_flag unit now
       | default_flag _ _ => default_flag 0 []
       | k => k
       end (scoped f) (pad f).

(** [log_formatter::clone]: the formatter of an empty pattern, with everything
    but the cached calendar copied. *)
Definition clone (f : log_formatter) : log_formatter :=
  Formatter (time_type f) (need_localtime f) zero_tm 0 (custom_flags f)
            (imap (fun i => flag_clone (now i)) (formatters f)).

Definition add_custom_flag (ch : Z) (create : log_padding -> log_flag) (f : log_formatter) : log_formatter :=
  Formatter (time_type f) (need_localtime f) (cached_tm f) (last_log_secs f) (<[ch := create]> (custom_flags f))
            (formatters f).

End formatter.

(** * Patterns *)

(** A pattern as its author means it: texts, each before a flag with an
    optional width, side and truncation, and the text at the end. *)
Record item := Item { before : bytes; asked : option (Z * pad_side * bool); flag_ch : Z }.

Definition print_padding (asked : option (Z * pad_side * bool)) : bytes :=
  match asked with
  | None => []
  | Some (w, side, tr) =>
    match side with left => [] | right => [chr "-"] | center => [chr "="] end ++ to_string w ++ if tr then [chr "!"] else []
  end.

Definition print_item (i : item) : bytes := before i ++ [chr "%"] ++ print_padding (asked i) ++ [flag_ch i].

Definition print_pattern (items : list item) (tail : bytes) : bytes := concat (print_item <$> items) ++ tail.

Definition plain (s : bytes) : Prop := chr "%" ∉ s.

(** The letter cannot be read as a part of the padding before it. *)
Definition wf_item (i : item) : Prop :=
  plain (before i) /\ is_digit (flag_ch i) = false /\
  match asked i with
  | None => flag_ch i <> chr "-" /\ flag_ch i <> chr "="
  | Some (w, _, tr) => 0 <= w < 2 ^ 64 /\ (tr = false -> flag_ch i <> chr "!")
  end.

Definition padding_of (asked : option (Z * pad_side * bool)) : log_padding :=
  match asked with
  | None => no_padding
  | Some (w, side, tr) => Padding (Z.min w 64) side tr true
  end.

(** The flags an item adds. *)
Definition add_item (pid : Z) (now : nat -> Z) (f : log_formatter) (i : item) : log_formatter :=
  let f := flush_user_chars (before i) f in
  let p := padding_of (asked i) in
  handle_flag pid (now (length (formatters f))) (enabled p) (flag_ch i) p f.

(** * Reading a pattern *)

Abbreviation value_from := (fold_left (fun v c => v * 10 + (c - 48))) (only parsing).

Lemma value_from_mono ds v : Forall (fun c => is_digit c = true) ds -> 0 <= v -> v <= value_from ds v.
Proof.
  intros Hds. revert v. induction Hds as [|c ds Hc _ IH]; intros v Hv; cbn [fold_left]; [lia|].
  apply is_digit_range in Hc. specialize (IH (v * 10 + (c - 48))). lia.
Qed.

Lemma padding_width_digits ds c rest v :
  Forall (fun c => is_digit c = true) ds -> is_digit c = false -> 0 <= v -> value_from ds v < 2 ^ 64 ->
  padding_width v (ds ++ c :: rest) = (value_from ds v, c :: rest).
Proof.
  intros Hds Hc. revert v. induction Hds as [|d ds Hd Hds IH]; intros v Hv Hlt; cbn [app padding_width fold_left] in *.
  - by rewrite Hc.
  - rewrite Hd. apply is_digit_range in Hd. pose proof (value_from_mono ds (v * 10 + (d - 48)) Hds).
    rewrite (u64_small (v * 10)), u64_small by (unfold is_u64; lia). apply IH; lia.
Qed.

Lemma to_string_cons w :
  0 <= w < 2 ^ 64 ->
  exists d ds, to_string w = d :: ds /\ is_digit d = true /\ Forall (fun c => is_digit c = true) ds /\ value_from ds (d - 48) = w.
Proof.
  intros Hw. pose proof (dec_digits_digits 20 w ltac:(lia)) as Hall. pose proof (dec_digits_nonempty 19 w) as Hne.
  pose proof (dec_value_digits 19 w ltac:(lia)) as Hv. unfold to_string, dec_value in *.
  destruct (dec_digits 20 w []) as [|d ds]; [done|]. apply list.Forall_cons in Hall as [Hd Hds].
  exists d, ds. repeat split; [done|done|]. cbn [fold_left] in Hv. done.
Qed.

(** The padding printed is the padding read. *)
Lemma handle_padding_print asked ch rest :
  is_digit ch = false ->
  match asked with
  | None => ch <> chr "-" /\ ch <> chr "="
  | Some (w, _, tr) => 0 <= w < 2 ^ 64 /\ (tr = false -> ch <> chr "!")
  end ->
  handle_padding (print_padding asked ++ ch :: rest) = (padding_of asked, ch :: rest).
Proof.
  intros Hch Hok. destruct asked as [[[w side] tr]|].
  - destruct Hok as [Hw Htr]. destruct (to_string_cons w Hw) as (d & ds & Es & Hd & Hds & Hv).
    assert (exists c rest', (if tr then [chr "!"] else []) ++ ch :: rest = c :: rest' /\ is_digit c = false) as (c & r & Er & Hc).
    { destruct tr; eexists _, _; split; [reflexivity|reflexivity|reflexivity|done]. }
    unfold print_padding. rewrite Es, <- !(app_assoc (A := Z)). cbn [app]. rewrite Er.
    pose proof (is_digit_range d Hd) as Hr.
    pose proof (padding_width_digits ds c r (d - 48) Hds Hc ltac:(lia) ltac:(lia)) as Hpw. rewrite Hv in Hpw.
    assert (padding_truncate (c :: r) = (tr, ch :: rest)) as Ht.
    { unfold padding_truncate. destruct tr; cbn [app] in Er; injection Er as <- <-; [done|].
      by rewrite (proj2 (Z.eqb_neq ch (chr "!"))) by (by apply Htr). }
    unfold handle_padding.
    assert (padding_side (match side with left => [] | right => [chr "-"] | center => [chr "="] end ++ d :: ds ++ c :: r) =
            (side, d :: ds ++ c :: r)) as ->.
    { destruct side; [|done|done]. cbn [app padding_side].
      by rewrite (proj2 (Z.eqb_neq d (chr "-"))), (proj2 (Z.eqb_neq d (chr "="))) by (vm_compute chr; lia). }
    by rewrite Hd, Hpw, Ht.
  - destruct Hok as [H1 H2]. unfold print_padding, handle_padding, padding_side. cbn [app].
    rewrite (proj2 (Z.eqb_neq ch (chr "-"))), (proj2 (Z.eqb_neq ch (chr "="))) by done. by rewrite Hch.
Qed.

Lemma padding_width_length s v : (length (padding_width v s).2 <= length s)%nat.
Proof.
  revert v. induction s as [|c s IH]; intros v; cbn [padding_width]; [done|].
  destruct (is_digit c); cbn; [specialize (IH (u64 (u64 (v * 10) + (c - 48)))); lia|lia].
Qed.

Lemma handle_padding_length s : (length (handle_padding s).2 <= length s)%nat.
Proof.
  unfold handle_padding. destruct (padding_side s) as [side s1] eqn:E1.
  assert (length s1 <= length s)%nat as H1.
  { destruct s as [|c s]; cbn [padding_side] in E1; repeat case_match; simplify_eq; cbn; lia. }
  destruct s1 as [|c s1]; cbn [length] in *; [cbn; lia|]. destruct (is_digit c); [|cbn; lia].
  pose proof (padding_width_length s1 (c - 48)) as H2. destruct (padding_width (c - 48) s1) as [w s2].
  destruct (padding_truncate s2) as [tr s3] eqn:E3. cbn in *.
  assert (length s3 <= length s2)%nat; [|lia].
  destruct s2; cbn [padding_truncate] in E3; repeat case_match; simplify_eq; cbn; lia.
Qed.

Section patterns.

Context (pid : Z) (now : nat -> Z).

(** The length of the pattern is enough fuel: [set_pattern] always ends. *)
Lemma pattern_loop_total fuel s uc f : (length s <= fuel)%nat -> is_Some (pattern_loop pid now fuel s uc f).
Proof.
  revert s uc f. induction fuel as [|fuel IH]; intros [|c s] uc f Hl; cbn [pattern_loop length] in *; [done|lia|done|].
  destruct (c =? chr "%"); [|apply IH; lia].
  pose proof (handle_padding_length s) as Hp. destruct (handle_padding s) as [p [|ch s']]; [done|].
  cbn in Hp. apply IH. lia.
Qed.

Lemma set_pattern_total pattern f : is_Some (set_pattern pid now pattern f).
Proof. by apply pattern_loop_total. Qed.

(** More fuel changes nothing. *)
Lemma pattern_loop_fuel fuel fuel' s uc f f' :
  pattern_loop pid now fuel s uc f = Some f' -> (fuel <= fuel')%nat -> pattern_loop pid now fuel' s uc f = Some f'.
Proof.
  revert fuel' s uc f. induction fuel as [|fuel IH]; intros fuel' [|c s] uc f; cbn [pattern_loop].
  - by destruct fuel'.
  - done.
  - by destruct fuel'.
  - intros Hl Hf. destruct fuel' as [|fuel']; [lia|]. cbn [pattern_loop].
    destruct (c =? chr "%"); [|apply IH; [done|lia]].
    destruct (handle_padding s) as [p [|ch s']]; [done|]. apply IH; [done|lia].
Qed.

(** The turns over a text without flags. *)
Lemma pattern_loop_text fuel t s uc f :
  plain t -> pattern_loop pid now (length t + fuel) (t ++ s) uc f = pattern_loop pid now fuel s (uc ++ t) f.
Proof.
  revert uc. induction t as [|c t IH]; intros uc Hp; [by rewrite (app_nil_r (A := Z))|].
  unfold plain in Hp. apply not_elem_of_cons in Hp as [Hc Hp]. cbn [length plus app pattern_loop].
  rewrite (proj2 (Z.eqb_neq c (chr "%"))) by congruence. rewrite IH by done. unfold add_ch. by rewrite <- (app_assoc (A := Z)).
Qed.

(** A text at the end adds no flag. *)
Lemma pattern_loop_tail t f : plain t -> pattern_loop pid now (length t) t [] f = Some f.
Proof.
  intros Ht. pose proof (pattern_loop_text 0 t [] [] f Ht) as H. rewrite (app_nil_r (A := Z)), Nat.add_0_r in H.
  by rewrite H.
Qed.

(** One item: its text, then its flag. *)
Lemma pattern_loop_item i fuel s f :
  wf_item i ->
  pattern_loop pid now (length (before i) + S fuel) (print_item i ++ s) [] f =
  pattern_loop pid now fuel s [] (add_item pid now f i).
Proof.
  intros (Hp & Hd & Ha). unfold print_item. rewrite <- !(app_assoc (A := Z)), pattern_loop_text by done.
  cbn [app pattern_loop]. change (chr "%" =? chr "%") with true. cbv beta iota zeta.
  rewrite handle_padding_print by (destruct (asked i) as [[[??]?]|]; done). reflexivity.
Qed.

(** What a printed pattern reads as. *)
Lemma set_pattern_print items tail f :
  Forall wf_item items -> plain tail ->
  set_pattern pid now (print_pattern items tail) f = Some (fold_left (add_item pid now) items (clear_formatters f)).
Proof.
  intros Hi Ht. unfold set_pattern. generalize (clear_formatters f). clear f. intros f.
  unfold print_pattern.
  assert (exists fuel, (fuel <= length (concat (print_item <$> items) ++ tail))%nat /\
    pattern_loop pid now fuel (concat (print_item <$> items) ++ tail) [] f = Some (fold_left (add_item pid now) items f))
    as (fuel & Hle & Hfuel).
  { revert f. induction Hi as [|i items Hw Hi IH]; intros f.
    - exists (length tail). split; [done|]. by apply pattern_loop_tail.
    - destruct (IH (add_item pid now f i)) as (fuel & Hle & Hr). exists (length (before i) + S fuel)%nat.
      cbn [fmap list_fmap concat]. rewrite <- (app_assoc (A := Z)). split.
      + unfold print_item at 1. rewrite !length_app in *. cbn [length]. lia.
      + rewrite pattern_loop_item by done. apply Hr. }
  by apply (pattern_loop_fuel fuel).
Qed.

End patterns.

(** * Lines *)

(** The classes whose text depends on the calendar. *)
Definition needs_tm (k : flag_kind) : bool :=
  match k with
  | short_weekday_flag | weekday_flag | short_month_name_flag | month_name_flag | date_time_flag | short_year_flag
  | year_flag | month_flag | day_flag | short_date_flag | hour24_flag | hour12_flag | min_flag | second_flag
  | noon_flag | clock_hour12_flag | short_clock_hour24_flag | clock_hour24_flag | timezone_flag _ _
  | default_flag _ _ | custom_flag _ => true
  | _ => false
  end.

(** The flags a pattern is made of. *)
Definition good_flag (f : log_flag) : Prop :=
  scoped f = enabled (pad f) /\ wf_padding (pad f) /\ wf_kind (kind f) /\
  match kind f with default_flag _ _ | custom_flag _ => False | _ => True end.

(** The offset has two digits of hours. *)
Definition zone_small (gmtime : Z -> tm) (msg : log_message) (t : tm) (f : log_flag) : Prop :=
  match kind f with
  | timezone_flag last_update offset => Z.abs (snd (get_cached_offset gmtime last_update offset msg t)) < 6000
  | _ => True
  end.

Fixpoint put_flags (gmtime : Z -> tm) (flags : list log_flag) (msg : log_message) (t : tm) (d : bytes) : option bytes :=
  match flags with
  | [] => Some d
  | f :: flags => d ← put_flag gmtime f msg t d; put_flags gmtime flags msg t d
  end.

Lemma put_flags_app gmtime flags1 flags2 msg t d :
  put_flags gmtime (flags1 ++ flags2) msg t d = d ← put_flags gmtime flags1 msg t d; put_flags gmtime flags2 msg t d.
Proof.
  revert d. induction flags1 as [|f flags1 IH]; intros d; [done|]. cbn [app put_flags].
  destruct (put_flag gmtime f msg t d); [apply IH|done].
Qed.

(** The calendar in the cache is the one of the second in the cache. *)
Definition tm_cached (localtime gmtime : Z -> tm) (f : log_formatter) : Prop :=
  last_log_secs f = 0 \/ cached_tm f = calendar localtime gmtime f (last_log_secs f).

(** No text is longer than this, nor the spaces around it. *)
Definition message_size (msg : log_message) : Z :=
  zlen (default [] (name msg)) + zlen (file_name msg) + zlen (function_name msg) + zlen (buf msg) + 64.

Lemma message_size_pos msg : 64 <= message_size msg.
Proof.
  unfold message_size. pose proof (zlen_nonneg (default [] (name msg))). pose proof (zlen_nonneg (file_name msg)).
  pose proof (zlen_nonneg (function_name msg)). pose proof (zlen_nonneg (buf msg)). lia.
Qed.

Lemma zlen_base_name path : zlen (base_name path) <= zlen path.
Proof. unfold base_name. case_match; [|lia]. unfold zlen, zdrop. rewrite length_drop. lia. Qed.

Lemma zlen_to_string_le n : zlen (to_string n) <= 20.
Proof.
  assert (forall fuel n acc, zlen (dec_digits fuel n acc) <= Z.of_nat fuel + zlen acc) as H; [|apply (H 20%nat n [])].
  clear n. induction fuel as [|fuel IH]; intros n acc; cbn [dec_digits]; [lia|].
  case_match; [rewrite zlen_cons; lia|]. specialize (IH (n / 10) (48 + n mod 10 :: acc)). rewrite zlen_cons in IH. lia.
Qed.

(** The names of days and months. *)
Lemma zlen_names (names : list bytes) i s : Forall (fun s => zlen s <= 9) names -> znth names i = Some s -> zlen s <= 9.
Proof. unfold znth. intros Hall Hs. case_match; [done|]. apply (list.Forall_lookup_1 _ _ _ _ Hall Hs). Qed.

Ltac name_size H := eapply zlen_names in H; [|by repeat constructor].

Lemma flag_text_size gmtime k msg t text :
  flag_text gmtime k msg t = Some text -> zlen text <= message_size msg.
Proof.
  intros Hx. unfold message_size.
  pose proof (zlen_nonneg (default [] (name msg))). pose proof (zlen_nonneg (file_name msg)).
  pose proof (zlen_nonneg (function_name msg)). pose proof (zlen_nonneg (buf msg)).
  pose proof (zlen_base_name (file_name msg)). pose proof zlen_to_string_le as Hts.
  assert (forall l, zlen (to_string_view l) <= 8) by (by intros []).
  assert (forall l, zlen (to_string_view_short l) <= 8) by (by intros []).
  assert (zlen (am_or_pm t) = 2) by apply zlen_am_or_pm.
  destruct k; cbn [flag_text] in Hx; try discriminate Hx;
    try (apply (inj Some) in Hx as <-; unfold clock_text, offset_text; repeat case_decide; repeat case_match;
         autorewrite with simple_len; rewrite ?zlen_fixed_digits;
         repeat match goal with |- context [zlen (to_string ?n)] => pose proof (Hts n); generalize dependent (zlen (to_string n)); intros end;
         repeat match goal with H : forall _ : log_level, _ |- _ => specialize (H (level msg)) end; lia).
  - rewrite Hx in *. cbn in *. lia.
  - name_size Hx. lia.
  - name_size Hx. lia.
  - name_size Hx. lia.
  - name_size Hx. lia.
  - apply bind_Some in Hx as (wday & Hw & Hx). apply bind_Some in Hx as (mon & Hmo & Hx).
    apply (inj Some) in Hx as <-. name_size Hw. name_size Hmo. unfold clock_text. autorewrite with simple_len. rewrite !zlen_fixed_digits.
    specialize (Hts (tm_mday t)). lia.
Qed.

(** How much longer a flag may make the line. *)
Definition flag_room (msg : log_message) (f : log_flag) : Z :=
  match kind f with aggregate_flag s => zlen s | _ => 2 * message_size msg end.

Lemma sized_length info declared text d d' :
  wf_padding info -> 0 <= declared -> sized info declared text d = Some d' -> zlen d' <= zlen d + zlen text + 64.
Proof.
  unfold sized, wf_padding. intros Hw Hd H. pose proof (zlen_nonneg d). pose proof (zlen_nonneg text).
  repeat case_match; simplify_eq; autorewrite with simple_len; rewrite ?zlen_spaces by divlia; try divlia.
Qed.

Lemma put_flag_length gmtime f msg t d d' :
  good_flag f -> put_flag gmtime f msg t d = Some d' -> zlen d' <= zlen d + flag_room msg f.
Proof.
  intros (_ & Hp & _ & _) H. pose proof (message_size_pos msg) as Hpos.
  assert (forall text, zlen text <= message_size msg -> zlen (d ++ field (pad f) text) <= zlen d + 2 * message_size msg) as Hfield.
  { intros text Hl. rewrite zlen_app. destruct (enabled (pad f)) eqn:Ee; [|unfold field; rewrite Ee; lia].
    rewrite (field_length _ _ Hp Ee). unfold wf_padding in Hp. destruct (truncate (pad f)); lia. }
  assert (forall k declared text, flag_text gmtime k msg t = Some text -> 0 <= declared -> sized (pad f) declared text d = Some d' ->
          zlen d' <= zlen d + 2 * message_size msg) as Hsized.
  { intros k declared text Hx%flag_text_size Hd Hs%sized_length; [lia|done|done]. }
  unfold put_flag, flag_room in *. destruct (kind f) as [] eqn:Ek;
    lazymatch type of Ek with
    | _ = name_flag => apply (inj Some) in H as <-
    | _ = date_time_flag => apply bind_Some in H as (text & Hx & H); eapply Hsized; [exact Hx| |exact H]; lia
    | _ = short_date_flag => apply bind_Some in H as (text & Hx & H); eapply Hsized; [exact Hx| |exact H]; lia
    | _ = ch_flag _ => apply (inj Some) in H as <-; rewrite zlen_app; change (zlen [_]) with 1; lia
    | _ = aggregate_flag _ => apply (inj Some) in H as <-; rewrite zlen_app; lia
    | _ = color_start_flag => apply (inj Some) in H as <-; lia
    | _ = color_stop_flag => apply (inj Some) in H as <-; lia
    | _ => apply bind_Some in H as (text & Hx%flag_text_size & [= <-]); by apply Hfield
    end.
  destruct (name msg) as [s|] eqn:En; [|lia]. apply Hfield. unfold message_size. rewrite En. change (default [] (Some s)) with s.
  pose proof (zlen_nonneg (file_name msg)). pose proof (zlen_nonneg (function_name msg)). pose proof (zlen_nonneg (buf msg)). lia.
Qed.

Lemma znth_names (names : list bytes) i : 0 <= i < zlen names -> is_Some (znth names i).
Proof. intros Hi. unfold znth. rewrite (proj2 (Z.ltb_ge i 0)) by lia. apply lookup_lt_is_Some. unfold zlen in Hi. lia. Qed.

Section lines.

Context (format_int : Z -> bytes) (count_digits : Z -> Z) (format_02 : Z -> bytes) (localtime gmtime : Z -> tm).
Context (custom_format : Z -> log_padding -> log_message -> tm -> bytes -> bytes).
Context (Hfmt : fmt_decimal format_int count_digits).

Abbreviation flag_format := (flag_format format_int count_digits format_02 gmtime custom_format).
Abbreviation format_flags := (format_flags format_int count_digits format_02 gmtime custom_format).
Abbreviation format := (format format_int count_digits format_02 localtime gmtime custom_format).

(** What a flag does to the line and to itself. *)
Definition puts (msg : log_message) (t : tm) (f : log_flag) (l : log_line) : Prop :=
  match put_flag gmtime f msg t (dest l) with
  | Some d => exists start stop, flag_format msg t f l = Some (next_flag gmtime msg t f, Line d start stop)
  | None => flag_format msg t f l = None
  end.

(** A flag that writes a field. *)
Lemma field_puts f msg t l :
  good_flag f -> wf_message msg -> wf_tm t -> zone_small gmtime msg t f -> message_size msg + zlen (dest l) < 2 ^ 31 ->
  match kind f with
  | name_flag | date_time_flag | short_date_flag | ch_flag _ | aggregate_flag _ | color_start_flag | color_stop_flag
  | default_flag _ _ | custom_flag _ => False
  | _ => True
  end -> puts msg t f l.
Proof.
  intros (Hsc & Hp & Hk & _) Hm Ht Hz Hsmall Hkind. destruct f as [k sc p]. cbn [kind scoped pad] in *. unfold puts.
  assert (is_Some (flag_text gmtime k msg t)) as [text Hx].
  { unfold wf_tm in Ht. destruct k; try done; cbn [flag_text]; apply znth_names; vm_compute (zlen _); lia. }
  assert (put_flag gmtime (Flag k sc p) msg t (dest l) = Some (dest l ++ field p text)) as ->.
  { unfold put_flag. cbn [kind pad]. destruct k; try done; rewrite Hx; reflexivity. }
  pose proof (flag_text_size gmtime k msg t text Hx).
  eexists _, _. refine (flag_writes format_int count_digits format_02 gmtime custom_format Hfmt msg t Ht k text Hm Hk _ Hx sc p l Hsc Hp _); [|lia].
  by destruct k.
Qed.

Lemma flag_puts f msg t l :
  good_flag f -> wf_message msg -> wf_tm t -> zone_small gmtime msg t f -> message_size msg + zlen (dest l) < 2 ^ 31 -> puts msg t f l.
Proof.
  intros Hg Hm Ht Hz Hsmall. pose proof (field_puts f msg t l Hg Hm Ht Hz Hsmall) as Hfield.
  destruct Hg as (Hsc & Hp & Hk & Hn). destruct f as [k sc p]. cbn [kind scoped pad] in *. subst sc.
  assert (forall k text, flag_text gmtime k msg t = Some text -> zlen (dest l) + zlen text < 2 ^ 31) as Hsize.
  { intros k' text Hx%flag_text_size. lia. }
  destruct k; try done; try (by apply Hfield); unfold puts, put_flag; cbn [kind pad].
  - destruct (name msg) as [s|] eqn:En.
    + eexists _, _. refine (flag_writes format_int count_digits format_02 gmtime custom_format Hfmt msg t Ht name_flag s Hm I I _ (enabled p) p l eq_refl Hp _);
        [exact En|]. eapply (Hsize name_flag). exact En.
    + eexists _, _. unfold LogFlags.flag_format, name_flag_format. cbn [kind scoped pad]. rewrite En. reflexivity.
  - unfold LogFlags.flag_format. cbn [kind scoped pad].
    destruct (date_time_text format_int count_digits format_02 gmtime custom_format Hfmt msg t Ht) as [Hx|(text & Hx & He)]; rewrite Hx; cbn [mbind option_bind].
    + unfold date_time_flag_format. cbn [flag_text] in Hx. destruct (znth short_weekdays (tm_wday t)); [|done]. by destruct (znth short_months (tm_mon t)).
    + rewrite He, padded_sized by (done || lia || by eapply Hsize). destruct (sized p 24 text (dest l)); [by eexists _, _|done].
  - destruct (flag_text gmtime short_date_flag msg t) as [text|] eqn:Hx; [|done]. unfold LogFlags.flag_format. cbn [kind scoped pad mbind option_bind].
    rewrite (short_date_text format_02 gmtime custom_format msg t Ht text Hx), padded_sized by (done || lia || by eapply Hsize).
    destruct (sized p 10 text (dest l)); [by eexists _, _|done].
  - by eexists _, _.
  - by eexists _, _.
  - by eexists _, _.
  - by eexists _, _.
Qed.

Lemma flags_put flags msg t l :
  Forall good_flag flags -> Forall (zone_small gmtime msg t) flags -> wf_message msg -> wf_tm t ->
  zlen (dest l) + foldr (fun f n => flag_room msg f + n) (message_size msg) flags < 2 ^ 31 ->
  match put_flags gmtime flags msg t (dest l) with
  | Some d => exists start stop, format_flags msg t flags l = Some (next_flag gmtime msg t <$> flags, Line d start stop)
  | None => format_flags msg t flags l = None
  end.
Proof.
  intros Hg Hz Hm Ht. revert l. induction Hg as [|f flags Hf Hg IH]; intros l Hs; [destruct l; by eexists _, _|].
  apply list.Forall_cons in Hz as [Hzf Hz]. cbn [foldr put_flags] in *. pose proof (message_size_pos msg).
  assert (forall flags, message_size msg <= foldr (fun f n => flag_room msg f + n) (message_size msg) flags) as Hmono.
  { intros fs. induction fs as [|g fs IHfs]; cbn [foldr]; [lia|]. unfold flag_room at 1. destruct (kind g); try lia. pose proof (zlen_nonneg s). lia. }
  specialize (Hmono flags). assert (0 <= flag_room msg f) by (unfold flag_room; destruct (kind f); try lia; apply zlen_nonneg).
  pose proof (flag_puts f msg t l Hf Hm Ht Hzf ltac:(lia)) as Hp. unfold puts in Hp. cbn [LogFormatter.format_flags].
  destruct (put_flag gmtime f msg t (dest l)) as [d|] eqn:Ed; cbn [mbind option_bind]; [|by rewrite Hp].
  destruct Hp as (start & stop & ->). cbn [mbind option_bind].
  pose proof (put_flag_length gmtime f msg t _ _ Hf Ed). specialize (IH Hz (Line d start stop)). cbn [dest] in IH.
  destruct (put_flags gmtime flags msg t d) as [d'|].
  - destruct IH as (a & b & ->); [lia|]. by eexists _, _.
  - by rewrite IH by lia.
Qed.

(** The calendar the flags get is the one of the message's second, as soon as
    one of them looks at it. *)
Lemma update_tm_current msg f :
  tm_cached localtime gmtime f -> 0 < Z.quot (point msg) second -> need_localtime f = true ->
  cached_tm (update_tm localtime gmtime msg f) = calendar localtime gmtime f (Z.quot (point msg) second).
Proof.
  intros Hc Hs Hn. unfold update_tm. rewrite Hn. cbn [andb].
  destruct (Z.eqb_spec (Z.quot (point msg) second) (last_log_secs f)) as [E|E]; [|done]. cbn [negb].
  rewrite E in *. destruct Hc as [Hc|Hc]; [lia|done].
Qed.

Lemma update_tm_cached msg f : tm_cached localtime gmtime f -> tm_cached localtime gmtime (update_tm localtime gmtime msg f).
Proof. intros Hc. unfold update_tm. case_match; [by right|done]. Qed.

Lemma update_tm_same msg f :
  let f' := update_tm localtime gmtime msg f in
  formatters f' = formatters f /\ time_type f' = time_type f /\ need_localtime f' = need_localtime f.
Proof. unfold update_tm. by case_match. Qed.

Lemma format_flags_tm flags msg t t' l :
  Forall (fun g => needs_tm (kind g) = true -> t' = t) flags -> format_flags msg t' flags l = format_flags msg t flags l.
Proof.
  intros Hall. revert l. induction Hall as [|g flags Hg Hall IH]; intros l; [done|]. cbn [LogFormatter.format_flags].
  assert (flag_format msg t' g l = flag_format msg t g l) as ->.
  { destruct g as [k sc p]. cbn [kind] in Hg. destruct (needs_tm k) eqn:En; [by rewrite Hg|]. by destruct k. }
  destruct (flag_format msg t g l) as [[g' l']|]; [|done]. cbn [mbind option_bind]. by rewrite IH.
Qed.

(** A formatter whose flags get their calendar. *)
Definition ready (f : log_formatter) : Prop :=
  Forall good_flag (formatters f) /\ Forall (fun g => needs_tm (kind g) = true -> need_localtime f = true) (formatters f) /\
  tm_cached localtime gmtime f.

Lemma needs_next msg t k : needs_tm (next_kind gmtime msg t k) = needs_tm k.
Proof. by destruct k. Qed.

Lemma good_next msg t f : wf_message msg -> good_flag f -> good_flag (next_flag gmtime msg t f).
Proof.
  intros [Hpt _] (Hsc & Hp & Hk & Hn). destruct f as [k sc p]. unfold good_flag in *. cbn in *. split; [done|]. split; [done|].
  destruct k; cbn in *; auto. split; [|done]. lia.
Qed.

(** One message: what the flags put on the line with the calendar of its
    second, and the formatter for the next. *)
Lemma format_puts f msg l t :
  t = calendar localtime gmtime f (Z.quot (point msg) second) ->
  ready f -> Forall (zone_small gmtime msg t) (formatters f) -> wf_message msg -> wf_tm t ->
  zlen (dest l) + foldr (fun f n => flag_room msg f + n) (message_size msg) (formatters f) < 2 ^ 31 ->
  match put_flags gmtime (formatters f) msg t (dest l) with
  | Some d => exists f' start stop, format msg f l = Some (f', Line (d ++ default_eol) start stop) /\ ready f' /\
      formatters f' = next_flag gmtime msg t <$> formatters f /\ time_type f' = time_type f
  | None => format msg f l = None
  end.
Proof.
  intros Et (Hg & Hneed & Hc) Hz Hm Ht Hsmall.
  assert (0 < Z.quot (point msg) second) as Hpos.
  { destruct Hm as [Hp _]. unfold second. rewrite Z.quot_div_nonneg by lia. divlia. }
  unfold LogFormatter.format. cbv zeta. destruct (update_tm_same msg f) as (Ef & Ett & En). rewrite Ef, (format_flags_tm _ msg t).
  2: { eapply list.Forall_impl; [exact Hneed|]. intros g Hgn Hn. rewrite update_tm_current by auto. done. }
  pose proof (flags_put (formatters f) msg t l Hg Hz Hm Ht Hsmall) as H. destruct (put_flags _ _ _ _ _) as [d|]; [|by rewrite H].
  destruct H as (start & stop & ->). cbn [mbind option_bind]. eexists _, _, _. split; [reflexivity|]. cbn [formatters time_type dest].
  split; [|done]. split_and!; cbn [formatters need_localtime].
  - apply Forall_fmap. eapply list.Forall_impl; [exact Hg|]. intros g. by apply good_next.
  - apply Forall_fmap. eapply list.Forall_impl; [exact Hneed|]. intros g Hgn. cbn. rewrite needs_next, En. done.
  - pose proof (update_tm_cached msg f Hc) as Hc'. unfold tm_cached, calendar in *. cbn. exact Hc'.
Qed.

End lines.

(** * From the pattern to the line

    What a pattern means: the letters, and what each makes of the line. *)

Section meaning.

Context (localtime gmtime : Z -> tm) (pid : Z) (now : nat -> Z).

(** The letters and their fields; [zone] and [last] are what the flags for the
    time zone and the time elapsed remember. *)
Definition classes (zone : Z * Z) (last : Z) : list (String.string * flag_kind) :=
  [("n", name_flag); ("l", level_flag); ("L", short_level_flag); ("t", tid_flag); ("v", log_value_flag);
   ("a", short_weekday_flag); ("A", weekday_flag); ("bh", short_month_name_flag); ("B", month_name_flag);
   ("c", date_time_flag); ("C", short_year_flag); ("Y", year_flag); ("Dx", short_date_flag); ("m", month_flag);
   ("d", day_flag); ("H", hour24_flag); ("I", hour12_flag); ("M", min_flag); ("S", second_flag); ("e", millis_flag);
   ("f", micros_flag); ("F", nanosecond_flag); ("E", timestamp_flag); ("p", noon_flag); ("r", clock_hour12_flag);
   ("R", short_clock_hour24_flag); ("TX", clock_hour24_flag); ("z", timezone_flag zone.1 zone.2); ("P", pid_flag pid);
   ("^", color_start_flag); ("$", color_stop_flag); ("@", source_location_flag); ("s", short_filename_flag);
   ("g", filename_flag); ("#", line_flag); ("!", func_flag); ("%", ch_flag 37); ("u", elapsed_time_flag 1 last);
   ("i", elapsed_time_flag 1000 last); ("o", elapsed_time_flag 1000000 last); ("O", elapsed_time_flag 1000000000 last)]%string.

Fixpoint find_class (ch : Z) (table : list (String.string * flag_kind)) : option flag_kind :=
  match table with
  | [] => None
  | (letters, k) :: table => if existsb (Z.eqb ch) (str letters) then Some k else find_class ch table
  end.

(** The messages that came before, with their calendars. *)
Abbreviation history := (list (log_message * tm)).

(** The minutes one date is ahead of another, the seconds not counted. *)
Definition minutes_ahead (lc gm : tm) : Z := (posix_seconds lc - tm_sec lc - (posix_seconds gm - tm_sec gm)) / 60.

(** The offset in use, and since when: it is computed again for the first
    message ten seconds later. *)
Definition zone_step (zone : Z * Z) (m : log_message * tm) : Z * Z :=
  if zone.1 + 10 * second <=? point m.1 then (point m.1, minutes_ahead m.2 (gmtime (point m.1 / second))) else zone.

Definition zone_after (past : history) : Z * Z := fold_left zone_step past (0, 0).

(** The time of the last message, of the making of the flag before the first. *)
Definition last_point (made : Z) (past : history) : Z := fold_left (fun _ m => point m.1) past made.

(** What the letter [ch] makes of the line [d], [n] being the number of its flag. *)
Definition put_letter (n : nat) (past : history) (ch : Z) (p : log_padding) (msg : log_message) (t : tm) (d : bytes) : option bytes :=
  match find_class ch (classes (zone_after past) (last_point (now n) past)) with
  | Some (timezone_flag _ _) => Some (d ++ field p (offset_text (zone_after (past ++ [(msg, t)])).2))
  | Some k => put_flag gmtime (Flag k (enabled p) p) msg t d
  | None =>
    if truncate p then Some (d ++ field (Padding (width p) (side p) false (enabled p)) (function_name msg) ++ [ch])
    else Some (d ++ [37; ch])
  end.

(** The flags made for a letter, and for a text. *)
Definition letter_count (ch : Z) (p : log_padding) : nat :=
  match find_class ch (classes (0, 0) 0) with Some _ => 1 | None => if truncate p then 2 else 1 end.

Definition text_count (s : bytes) : nat := if decide (s = []) then 0 else 1.

Fixpoint put_items (n : nat) (past : history) (items : list item) (msg : log_message) (t : tm) (d : bytes) : option bytes :=
  match items with
  | [] => Some d
  | i :: items =>
    let n := (n + text_count (before i))%nat in
    let p := padding_of (asked i) in
    d ← put_letter n past (flag_ch i) p msg t (d ++ before i);
    put_items (n + letter_count (flag_ch i) p) past items msg t d
  end.

(** The lines of a pattern for messages that are written one after the other,
    each with the line it is added to, up to the first that cannot be written. *)
Definition date_of (tp : log_time_type) (msg : log_message) : tm :=
  match tp with local => localtime (point msg / second) | utc => gmtime (point msg / second) end.

Fixpoint pattern_lines (items : list item) (tp : log_time_type) (past : history) (ms : list (log_message * bytes)) : option (list bytes) :=
  match ms with
  | [] => Some []
  | (msg, d) :: ms =>
    let t := date_of tp msg in
    d ← put_items 0 past items msg t d;
    ds ← pattern_lines items tp (past ++ [(msg, t)]) ms;
    Some ((d ++ [10]) :: ds)
  end.

(** A message whose date and offset can be written and that fits into the line. *)
Definition line_room (items : list item) (msg : log_message) (d : bytes) : Z :=
  zlen d + foldr (fun i n => zlen (before i) + 3 * message_size msg + n) (message_size msg) items.

Definition good_message (items : list item) (tp : log_time_type) (msg : log_message) (d : bytes) : Prop :=
  let t := date_of tp msg in
  let gm := gmtime (point msg / second) in
  wf_message msg /\ wf_tm t /\ 70 <= tm_year t /\ 70 <= tm_year gm /\ Z.abs (minutes_ahead t gm) < 6000 /\
  line_room items msg d < 2 ^ 31.

(** ** The flags of a pattern *)

Definition letter_flags (n : nat) (past : history) (ch : Z) (p : log_padding) : list log_flag :=
  match find_class ch (classes (zone_after past) (last_point (now n) past)) with
  | Some k => [Flag k (enabled p) p]
  | None =>
    if truncate p then
      [Flag func_flag (enabled p) (Padding (width p) (side p) false (enabled p)); Flag (aggregate_flag [ch]) false no_padding]
    else [Flag (aggregate_flag [37; ch]) false no_padding]
  end.

Definition text_flags (s : bytes) : list log_flag := if decide (s = []) then [] else [Flag (aggregate_flag s) false no_padding].

Fixpoint items_flags (n : nat) (past : history) (items : list item) : list log_flag :=
  match items with
  | [] => []
  | i :: items =>
    let n := (n + text_count (before i))%nat in
    let p := padding_of (asked i) in
    text_flags (before i) ++ letter_flags n past (flag_ch i) p ++ items_flags (n + letter_count (flag_ch i) p) past items
  end.

Lemma find_class_map g ch table :
  find_class ch (map (fun c => (c.1, g c.2)) table) = g <$> find_class ch table.
Proof. induction table as [|[l k] table IH]; [done|]. cbn [map find_class fst snd]. destruct (existsb (Z.eqb ch) (str l)); [done|apply IH]. Qed.

(** The table is that of the program. *)
Lemma flag_of_classes made ch : flag_of pid made ch = (fun k => (k, needs_tm k)) <$> find_class ch (classes (0, 0) made).
Proof.
  unfold classes, flag_of, letter.
  repeat (cbn [find_class]; match goal with |- context [existsb (Z.eqb ch) (str ?s)] =>
    let x := eval vm_compute in (str s) in change (str s) with x end;
    cbn [existsb]; rewrite ?orb_false_r;
    match goal with |- (if ?b then _ else _) = _ <$> (if ?c then _ else _) => change c with b; destruct b; [reflexivity|] end).
  reflexivity.
Qed.

(** The table with other states. *)
Definition set_state (zone : Z * Z) (last : Z) (k : flag_kind) : flag_kind :=
  match k with timezone_flag _ _ => timezone_flag zone.1 zone.2 | elapsed_time_flag u _ => elapsed_time_flag u last | k => k end.

Lemma classes_state zone zone' last last' : classes zone' last' = map (fun c => (c.1, set_state zone' last' c.2)) (classes zone last).
Proof. reflexivity. Qed.

Lemma find_class_known ch zone last zone' last' :
  is_Some (find_class ch (classes zone last)) -> is_Some (find_class ch (classes zone' last')).
Proof. intros H. rewrite (classes_state zone zone' last last'), find_class_map. by apply fmap_is_Some. Qed.

Lemma letter_count_flags n past ch p : length (letter_flags n past ch p) = letter_count ch p.
Proof.
  unfold letter_flags, letter_count. destruct (find_class ch (classes (zone_after past) _)) as [k|] eqn:E.
  - destruct (find_class_known ch _ _ (0, 0) 0 (mk_is_Some _ _ E)) as [k' ->]. done.
  - destruct (find_class ch (classes (0, 0) 0)) as [k'|] eqn:E'; [|by destruct (truncate p)].
    destruct (find_class_known ch _ _ (zone_after past) (last_point (now n) past) (mk_is_Some _ _ E')) as [k'' ?]. congruence.
Qed.

Lemma text_count_flags s : length (text_flags s) = text_count s.
Proof. unfold text_flags, text_count. by case_decide. Qed.
(** ** From one message to the next *)

Definition good_date (m : log_message * tm) : Prop :=
  0 <= point m.1 /\ 70 <= tm_year m.2 /\ 70 <= tm_year (gmtime (point m.1 / second)) /\
  Z.abs (minutes_ahead m.2 (gmtime (point m.1 / second))) < 6000.

Lemma minutes_ahead_eq m : good_date m -> utc_minutes_offset gmtime (point m.1) m.2 = minutes_ahead m.2 (gmtime (point m.1 / second)).
Proof.
  intros (Hp & Hl & Hg & _). pose proof (utc_offset_seconds gmtime (point m.1) m.2) as H. cbv zeta in H.
  rewrite Z.quot_div_nonneg in H by (done || unfold second; lia). specialize (H Hg Hl). unfold minutes_ahead. rewrite <- H.
  rewrite Z.mul_comm, Z.div_mul by lia. done.
Qed.

Lemma zone_step_eq zone m : good_date m -> get_cached_offset gmtime zone.1 zone.2 m.1 m.2 = zone_step zone m.
Proof.
  intros Hm. unfold get_cached_offset, zone_step. rewrite (minutes_ahead_eq m Hm).
  destruct (Z.leb_spec (10 * second) (point m.1 - zone.1)), (Z.leb_spec (zone.1 + 10 * second) (point m.1)); lia || by destruct zone.
Qed.

Lemma zone_after_snoc past m : zone_after (past ++ [m]) = zone_step (zone_after past) m.
Proof. unfold zone_after. by rewrite fold_left_app. Qed.

Lemma zone_bound past : Forall good_date past -> Z.abs (zone_after past).2 < 6000.
Proof.
  induction past as [|m past IH] using rev_ind; intros H; [done|]. apply list.Forall_app in H as [H Hm]. rewrite zone_after_snoc.
  unfold zone_step. destruct (_ <=? _); [|by apply IH]. apply list.Forall_cons in Hm as [(_ & _ & _ & ?) _]. done.
Qed.

Lemma last_point_nonneg made past : 0 <= made -> Forall good_date past -> 0 <= last_point made past.
Proof.
  intros Hm. destruct past as [|m past _] using rev_ind; intros H; [done|]. unfold last_point. rewrite fold_left_app. cbn.
  apply list.Forall_app in H as [_ H]. by apply list.Forall_cons in H as [[? _] _].
Qed.

Lemma letter_flags_next n past ch p msg t :
  good_date (msg, t) -> next_flag gmtime msg t <$> letter_flags n past ch p = letter_flags n (past ++ [(msg, t)]) ch p.
Proof.
  intros Hm. unfold letter_flags, last_point. rewrite zone_after_snoc, fold_left_app. cbn [fold_left fst].
  set (zone' := zone_step _ _).
  rewrite (classes_state (zone_after past) zone' (fold_left (fun _ m => point m.1) past (now n)) (point msg)), find_class_map.
  set (table := classes _ _).
  assert (Forall (fun c => forall a b, c.2 = timezone_flag a b -> (a, b) = zone_after past) table) as Hzone.
  { unfold table, classes. repeat apply list.Forall_cons_2; try (intros a b E; discriminate E); [|apply list.Forall_nil_2].
    intros a b [= <- <-]. by destruct (zone_after past). }
  clearbody table. induction Hzone as [|[l k] table Hk Hz IH]; cbn [find_class]; [by destruct (truncate p)|].
  destruct (existsb _ _); [|exact IH]. cbn. unfold next_flag. cbn. do 2 f_equal. destruct k; try done.
  cbn. specialize (Hk _ _ eq_refl). pose proof (zone_step_eq (zone_after past) (msg, t) Hm) as E. fold zone' in E.
  rewrite <- Hk in E. cbn [fst snd] in E. by rewrite E.
Qed.

Lemma items_flags_next n past items msg t :
  good_date (msg, t) -> next_flag gmtime msg t <$> items_flags n past items = items_flags n (past ++ [(msg, t)]) items.
Proof.
  intros Hm. revert n. induction items as [|i items IH]; intros n; [done|]. cbn [items_flags]. rewrite !fmap_app, letter_flags_next, IH by done.
  f_equal. unfold text_flags. by case_decide.
Qed.

(** ** What the flags write *)

Lemma put_letter_flags n past ch p msg t d :
  good_date (msg, t) -> put_flags gmtime (letter_flags n past ch p) msg t d = put_letter n past ch p msg t d.
Proof.
  intros Hm. unfold letter_flags, put_letter. set (table := classes _ _).
  assert (Forall (fun c => forall a b, c.2 = timezone_flag a b -> (a, b) = zone_after past) table) as Hzone.
  { unfold table, classes. repeat apply list.Forall_cons_2; try (intros a b E; discriminate E); [|apply list.Forall_nil_2].
    intros a b [= <- <-]. by destruct (zone_after past). }
  clearbody table. induction Hzone as [|[l k] table Hk Hz IH]; cbn [find_class].
  - destruct (truncate p); [|done]. cbn. unfold put_flag. cbn. by rewrite <- (app_assoc (A := Z)).
  - destruct (existsb _ _); [|exact IH]. cbn [put_flags]. destruct k; cbn [snd] in Hk;
      try (match goal with |- (_ ← ?e; _) = _ => by destruct e end).
    specialize (Hk _ _ eq_refl). unfold put_flag. cbn [kind pad flag_text mbind option_bind]. do 3 f_equal.
    rewrite zone_after_snoc, <- (zone_step_eq _ _ Hm), <- Hk. done.
Qed.

Lemma put_text_flags s msg t d : put_flags gmtime (text_flags s) msg t d = Some (d ++ s).
Proof. unfold text_flags. case_decide as E; [by rewrite E, (app_nil_r (A := Z))|done]. Qed.

Lemma put_items_flags n past items msg t d :
  good_date (msg, t) -> put_flags gmtime (items_flags n past items) msg t d = put_items n past items msg t d.
Proof.
  intros Hm. revert n d. induction items as [|i items IH]; intros n d; [done|]. cbn [items_flags put_items]. cbv zeta.
  rewrite !put_flags_app, put_text_flags. cbn [mbind option_bind]. rewrite put_flags_app, put_letter_flags by done.
  destruct (put_letter _ _ _ _ _ _ _); [apply IH|done].
Qed.

(** ** The flags are good *)

Context (Hpid : 0 <= pid < 2 ^ 31) (Hnow : forall n, 0 <= now n).

Lemma wf_padding_of asked : match asked with Some (w, _, _) => 0 <= w < 2 ^ 64 | None => True end -> wf_padding (padding_of asked).
Proof. unfold wf_padding, padding_of. destruct asked as [[[w ?] ?]|]; cbn; lia. Qed.

Lemma wf_item_padding i : wf_item i -> wf_padding (padding_of (asked i)).
Proof. intros (_ & _ & Hi). apply wf_padding_of. destruct (asked i) as [[[??]?]|]; [apply Hi|done]. Qed.

Lemma find_class_in ch k table : find_class ch table = Some k -> k ∈ map snd table.
Proof.
  induction table as [|[l k'] table IH]; [done|]. cbn [find_class map snd]. destruct (existsb _ _); [intros [= ->]; apply list_elem_of_here|].
  intros H. apply list_elem_of_further. by apply IH.
Qed.

(** The kinds a pattern makes, after any messages. *)
Lemma class_good ch past n k :
  Forall good_date past -> find_class ch (classes (zone_after past) (last_point (now n) past)) = Some k ->
  wf_kind k /\ match k with default_flag _ _ | custom_flag _ => False | _ => True end /\
  (forall a b, k = timezone_flag a b -> (a, b) = zone_after past).
Proof.
  intros Hpast Hk%find_class_in. pose proof (last_point_nonneg (now n) past (Hnow n) Hpast) as Hl.
  revert Hk. generalize dependent (last_point (now n) past). intros last Hl Hk.
  assert (Forall (fun k => wf_kind k /\ match k with default_flag _ _ | custom_flag _ => False | _ => True end /\
    (forall a b, k = timezone_flag a b -> (a, b) = zone_after past)) (map snd (classes (zone_after past) last))) as Hall.
  { unfold classes. cbn [map snd]. repeat apply list.Forall_cons_2; [..|apply list.Forall_nil_2];
      (split; [cbn; lia || done|split; [done|intros a b E; try discriminate E; injection E as <- <-; by destruct (zone_after past)]]). }
  rewrite list.Forall_forall in Hall. by apply Hall.
Qed.

Lemma letter_flags_good n past ch p :
  Forall good_date past -> wf_padding p -> Forall good_flag (letter_flags n past ch p).
Proof.
  intros Hpast Hp. unfold letter_flags. destruct (find_class ch _) as [k|] eqn:E.
  - destruct (class_good _ _ _ _ Hpast E) as (Hk & Hn & _). repeat constructor; try done; apply Hp.
  - destruct (truncate p); repeat constructor; try done; apply Hp.
Qed.

Lemma letter_flags_zone n past ch p msg t :
  Forall good_date past -> good_date (msg, t) -> Forall (zone_small gmtime msg t) (letter_flags n past ch p).
Proof.
  intros Hpast Hm. unfold letter_flags. destruct (find_class ch _) as [k|] eqn:E; [|by destruct (truncate p); repeat constructor].
  destruct (class_good _ _ _ _ Hpast E) as (_ & _ & Hz). apply list.Forall_singleton. unfold zone_small. cbn. destruct k; try done.
  pose proof (zone_step_eq (zone_after past) (msg, t) Hm) as Es. rewrite <- (Hz _ _ eq_refl) in Es at 1 2. cbn [fst snd] in Es. rewrite Es, <- zone_after_snoc.
  apply zone_bound. apply list.Forall_app. split; [done|]. by apply list.Forall_singleton.
Qed.

Lemma items_flags_good n past items :
  Forall good_date past -> Forall wf_item items -> Forall good_flag (items_flags n past items).
Proof.
  intros Hpast Hi. revert n. induction Hi as [|i items Hw Hi IH]; intros n; [constructor|]. cbn [items_flags]. rewrite !list.Forall_app.
  split; [unfold text_flags; case_decide; repeat constructor; done|]. split; [apply letter_flags_good; [done|by apply wf_item_padding]|apply IH].
Qed.

Lemma items_flags_zone n past items msg t :
  Forall good_date past -> good_date (msg, t) -> Forall (zone_small gmtime msg t) (items_flags n past items).
Proof.
  intros Hpast Hm. revert n. induction items as [|i items IH]; intros n; [constructor|]. cbn [items_flags]. rewrite !list.Forall_app.
  split; [unfold text_flags; case_decide; repeat constructor; done|]. split; [by apply letter_flags_zone|apply IH].
Qed.

Lemma items_room n past items msg :
  foldr (fun f r => flag_room msg f + r) (message_size msg) (items_flags n past items) <=
  foldr (fun i r => zlen (before i) + 3 * message_size msg + r) (message_size msg) items.
Proof.
  revert n. pose proof (message_size_pos msg). induction items as [|i items IH]; intros n; [done|]. cbn [items_flags foldr].
  rewrite !foldr_app. set (n1 := (_ + letter_count _ _)%nat). specialize (IH n1).
  set (rest := foldr _ _ (items_flags n1 _ _)) in *. unfold text_flags, letter_flags. pose proof (zlen_nonneg (before i)).
  assert (forall a b : Z, zlen [a] = 1 /\ zlen [a; b] = 2) as Hl by done.
  destruct (find_class (flag_ch i) _) as [k|] eqn:E; [|destruct (truncate (padding_of (asked i)))]; case_decide;
    cbn [foldr flag_room kind]; try rewrite (proj1 (Hl _ 0)); try rewrite (proj2 (Hl _ _)); try lia.
  all: assert (flag_room msg (Flag k (enabled (padding_of (asked i))) (padding_of (asked i))) <= 3 * message_size msg) as Hr
    by (apply find_class_in in E; unfold classes in E; cbn [map snd] in E; unfold flag_room; cbn [kind];
        repeat (apply elem_of_cons in E as [->|E]; [cbn; lia|]); by apply elem_of_nil in E); lia.
Qed.

(** ** What [set_pattern] makes *)

(** The same formatter apart from its flags and [need_localtime]. *)
Definition same_clock (f f' : log_formatter) : Prop :=
  time_type f' = time_type f /\ cached_tm f' = cached_tm f /\ last_log_secs f' = last_log_secs f /\
  custom_flags f' = custom_flags f /\ (need_localtime f = true -> need_localtime f' = true).

Lemma same_clock_trans f1 f2 f3 : same_clock f1 f2 -> same_clock f2 f3 -> same_clock f1 f3.
Proof. intros (?&?&?&?&?) (?&?&?&?&?). repeat split; try congruence. auto. Qed.

(** [f'] has these flags more, and looks at the calendar when they do. *)
Definition adds (f f' : log_formatter) (flags : list log_flag) : Prop :=
  same_clock f f' /\ formatters f' = formatters f ++ flags /\
  Forall (fun g => needs_tm (kind g) = true -> need_localtime f' = true) flags.

Lemma adds_emplace flags need f :
  Forall (fun g => needs_tm (kind g) = true -> need = true) flags -> adds f (emplace flags need f) flags.
Proof.
  intros H. split; [repeat split; cbn; by intros ->|]. split; [done|]. eapply list.Forall_impl; [exact H|].
  intros g Hg Hn. cbn. by rewrite Hg, orb_true_r.
Qed.

Lemma adds_trans f1 f2 f3 flags flags' : adds f1 f2 flags -> adds f2 f3 flags' -> adds f1 f3 (flags ++ flags').
Proof.
  intros (Hs & Hf & Hn) (Hs' & Hf' & Hn'). split; [by eapply same_clock_trans|]. split; [by rewrite Hf', Hf, (app_assoc (A := log_flag))|].
  apply list.Forall_app. split; [|done]. eapply list.Forall_impl; [exact Hn|]. intros g Hg Hng. destruct Hs' as (_ & _ & _ & _ & Hm). auto.
Qed.

Lemma adds_nil f : adds f f [].
Proof. split; [by repeat split|]. by rewrite (app_nil_r (A := log_flag)). Qed.

Lemma handle_flag_adds f n ch p :
  custom_flags f = ∅ -> length (formatters f) = n ->
  adds f (handle_flag pid (now (length (formatters f))) (enabled p) ch p f) (letter_flags n [] ch p).
Proof.
  intros Hc Hn. unfold handle_flag, letter_flags. rewrite Hc, lookup_empty, flag_of_classes, Hn.
  change (classes (zone_after []) (last_point (now n) [])) with (classes (0, 0) (now n)).
  destruct (find_class ch _) as [k|]; cbn [fmap option_fmap option_map].
  - apply adds_emplace. by apply list.Forall_singleton.
  - destruct (truncate p); apply adds_emplace; by repeat constructor.
Qed.

Lemma add_item_adds f i :
  custom_flags f = ∅ ->
  adds f (add_item pid now f i)
    (text_flags (before i) ++ letter_flags (length (formatters f) + text_count (before i)) [] (flag_ch i) (padding_of (asked i))).
Proof.
  intros Hc. unfold add_item. cbv zeta.
  assert (adds f (flush_user_chars (before i) f) (text_flags (before i))) as Ha.
  { unfold flush_user_chars, text_flags. case_decide; [apply adds_nil|]. apply adds_emplace. by repeat constructor. }
  eapply adds_trans; [exact Ha|]. destruct Ha as ((_ & _ & _ & Ec & _) & Ef & _). apply handle_flag_adds; [by rewrite Ec|].
  by rewrite Ef, length_app, text_count_flags.
Qed.

Lemma add_items_adds items f :
  custom_flags f = ∅ -> adds f (fold_left (add_item pid now) items f) (items_flags (length (formatters f)) [] items).
Proof.
  revert f. induction items as [|i items IH]; intros f Hc; cbn [fold_left items_flags]; [apply adds_nil|]. cbv zeta.
  pose proof (add_item_adds f i Hc) as Ha. rewrite (app_assoc (A := log_flag)). eapply adds_trans; [exact Ha|].
  destruct Ha as ((_ & _ & _ & Ec & _) & Ef & _).
  replace (length (formatters f) + text_count (before i) + letter_count (flag_ch i) (padding_of (asked i)))%nat
    with (length (formatters (add_item pid now f i))).
  - apply IH. by rewrite Ec.
  - rewrite Ef, !length_app, text_count_flags, letter_count_flags. lia.
Qed.

(** ** Message after message *)

Context (format_int : Z -> bytes) (count_digits : Z -> Z) (format_02 : Z -> bytes).
Context (custom_format : Z -> log_padding -> log_message -> tm -> bytes -> bytes).
Context (Hfmt : fmt_decimal format_int count_digits).

(** The messages formatted with one formatter, each onto its line. *)
Fixpoint format_all (ms : list (log_message * log_line)) (f : log_formatter) : option (list bytes) :=
  match ms with
  | [] => Some []
  | (msg, l) :: ms =>
    '(f, l) ← format format_int count_digits format_02 localtime gmtime custom_format msg f l;
    ds ← format_all ms f;
    Some (dest l :: ds)
  end.

Lemma good_message_date items tp msg d : good_message items tp msg d -> good_date (msg, date_of tp msg).
Proof. intros ((Hp & _) & _ & Hl & Hg & Ha & _). split_and!; cbn; [lia|done..]. Qed.

Lemma format_all_lines items tp past ms f :
  Forall wf_item items -> Forall good_date past -> ready localtime gmtime f -> time_type f = tp ->
  formatters f = items_flags 0 past items -> Forall (fun m => good_message items tp m.1 (dest m.2)) ms ->
  format_all ms f = pattern_lines items tp past ((fun m => (m.1, dest m.2)) <$> ms).
Proof.
  intros Hi Hpast Hr Htp Hf Hms. revert past f Hpast Hr Htp Hf. induction Hms as [|[msg l] ms Hm Hms IH]; intros past f Hpast Hr Htp Hf; [done|].
  cbn [fst snd] in Hm. pose proof (good_message_date _ _ _ _ Hm) as Hd. pose proof Hm as (Hwm & Hwt & _ & _ & _ & Hroom).
  assert (date_of tp msg = calendar localtime gmtime f (Z.quot (point msg) second)) as Et.
  { destruct Hwm as [? _]. unfold date_of, calendar. rewrite Htp, Z.quot_div_nonneg by (unfold second; lia). done. }
  pose proof (format_puts format_int count_digits format_02 localtime gmtime custom_format Hfmt f msg l _ Et Hr) as H. rewrite Hf in H.
  cbn [format_all pattern_lines fmap list_fmap fst snd]. cbv zeta. rewrite <- put_items_flags by done.
  pose proof (items_room 0 past items msg). unfold line_room in Hroom.
  destruct (put_flags _ _ _ _ _) as [d|]; cbn [mbind option_bind].
  - destruct H as (f' & a & b & -> & Hr' & Hf' & Htp'); [by apply items_flags_zone|done|done|lia|]. cbn [mbind option_bind].
    rewrite items_flags_next in Hf' by done.
    rewrite (IH (past ++ [(msg, date_of tp msg)]) f'); [done| |done|congruence|done].
    apply list.Forall_app. split; [done|]. by apply list.Forall_singleton.
  - rewrite H; [done|by apply items_flags_zone|done|done|lia].
Qed.

Lemma pattern_format items tail tp ms :
  Forall wf_item items -> plain tail -> Forall (fun m => good_message items tp m.1 (dest m.2)) ms ->
  exists f, pattern_formatter pid now (print_pattern items tail) tp = Some f /\
    format_all ms f = pattern_lines items tp [] ((fun m => (m.1, dest m.2)) <$> ms).
Proof.
  intros Hi Ht Hms. unfold pattern_formatter. rewrite set_pattern_print by done. eexists. split; [reflexivity|].
  set (f0 := clear_formatters _). destruct (add_items_adds items f0 eq_refl) as ((Htp & Hc & Hl & _) & Hf & Hn). cbn [formatters f0 clear_formatters app] in Hf.
  change (length (formatters f0)) with 0%nat in *. apply format_all_lines; [done..| |by rewrite Htp|by rewrite Hf|done].
  split; [rewrite Hf; by apply items_flags_good|]. split; [by rewrite Hf|]. left. by rewrite Hl.
Qed.
End meaning.

(** C23: a formatter made from a pattern writes for every message of a sequence
    what the pattern means. Each text of the pattern stands as it is, each flag
    as its letter says, with the local or universal calendar of the message's
    own second, and the line is ended; the text after the last flag of the
    pattern does not appear. A letter writes its text as a field: at least as
    wide as asked for, 64 at most, and, when truncation is asked for, no wider.
    Otherwise than a field behave: "%n" of a message without a logger, which writes nothing;
    "%^" and "%$", which mark the colours; "%%"; an unknown letter, which is
    written after its percent sign, or, when truncation is asked for, after the
    function name in a field that is not truncated; and the dates, padded or cut
    as if they had 24 characters ("%c", which has one less on the first nine days
    of a month and one more in September) or 10 ("%D" and "%x", which have 8),
    so that they are not as wide as asked for, and a truncated one may take
    earlier characters of the line with it; when there are not so many the
    line is not written at all. "%z" is
    the offset computed for the last message that came ten seconds or more after
    the computation before; "%u", "%i", "%o" and "%O" count from the message
    before, the first from the making of the flag. Assumed are that fmt writes
    decimal numbers, that the messages are of the years whose seconds have ten
    digits, that the C library's dates are dates of the years from 1970 to 9999
    with less than 100 hours between the local and the universal one, and that
    the line stays below 2^31 characters; flags added by the program are not
    used. *)
Theorem pattern_line format_int count_digits format_02 localtime gmtime custom_format pid now items tail tp ms :
  fmt_decimal format_int count_digits -> 0 <= pid < 2 ^ 31 -> (forall n, 0 <= now n) ->
  Forall wf_item items -> plain tail ->
  Forall (fun m => good_message localtime gmtime items tp m.1 (dest m.2)) ms ->
  exists f, pattern_formatter pid now (print_pattern items tail) tp = Some f /\
    format_all localtime gmtime format_int count_digits format_02 custom_format ms f =
    pattern_lines localtime gmtime pid now items tp [] ((fun m => (m.1, dest m.2)) <$> ms).
Proof. intros Hfmt Hpid Hnow Hi Ht Hms. by apply pattern_format. Qed.


(** The pattern of src/config/log.toml with the zone, the time elapsed, the
    logger, a short date and an unknown letter, followed by a text that will not
    show; two messages, eleven seconds apart. *)
Definition demo_items : list item :=
  (let item (s c : String.string) := Item (str s) None (chr c) in
   [item "[" "Y"; item "-" "m"; item "-" "d"; item " " "H"; item ":" "M"; item ":" "S"; item "." "e"; item "" "z";
    item "] [" "^"; Item [] (Some (7, right, false)) (chr "l"); item "" "$"; item "] [" "t"; item "] [" "s";
    item ":" "#"; item "] +" "o"; item "ms " "n"; item " " "v"; Item [32] (Some (4, left, true)) (chr "D"); item " " "q"])%string.

Definition demo_clock (hour secs : Z) : tm := Tm (7 + (secs - 1699279507)) 5 hour 6 10 123 1 309.

Definition demo_messages : list (log_message * log_line) :=
  [(Msg None warn (1699279507 * second + 250000000) 42 (str "src/main.cpp") 7 (str "main") (str "hello"), Line [] 0 0);
   (Msg (Some (str "db")) info (1699279518 * second) 42 (str "src/db.cpp") 12 (str "query") (str "done"), Line [] 0 0)].

Lemma demo_messages_good : Forall (fun m => good_message (demo_clock 22) (demo_clock 14) demo_items local m.1 (dest m.2)) demo_messages.
Proof.
  repeat apply list.Forall_cons_2; [..|apply list.Forall_nil_2];
    (split; [repeat split; vm_compute; (reflexivity || discriminate)|]);
    (split; [unfold wf_tm; vm_compute; repeat split; discriminate|]); repeat split; vm_compute; (reflexivity || discriminate).
Qed.

Lemma demo_items_wf : Forall wf_item demo_items.
Proof.
  repeat apply list.Forall_cons_2; [..|apply list.Forall_nil_2];
    (split; [unfold plain; vm_compute; intros H; repeat (apply elem_of_cons in H as [H|H]; [discriminate H|]);
             by apply elem_of_nil in H|]); (split; [reflexivity|]); cbn; vm_compute; repeat split; discriminate.
Qed.

Lemma pattern_line_witness :
  print_pattern demo_items (str "...") = str "[%Y-%m-%d %H:%M:%S.%e%z] [%^%-7l%$] [%t] [%s:%#] +%oms %n %v %4!D %q..." /\
  exists f, pattern_formatter 9 (fun _ => 1699279507 * second) (print_pattern demo_items (str "...")) local = Some f /\
    format_all (demo_clock 22) (demo_clock 14) to_string (fun n => zlen (to_string n)) to_string (fun _ _ _ _ d => d) demo_messages f =
    Some [str "[2023-11-06 22:05:07.250+08:00] [warn   ] [42] [main.cpp:7] +250ms  hello 11 %q" ++ default_eol;
          str "[2023-11-06 22:05:18.000+08:00] [info   ] [42] [db.cpp:12] +10750ms db done 11 %q" ++ default_eol].
Proof.
  split; [reflexivity|].
  destruct (pattern_line to_string (fun n => zlen (to_string n)) to_string (demo_clock 22) (demo_clock 14) (fun _ _ _ _ d => d) 9
    (fun _ => 1699279507 * second) demo_items (str "...") local demo_messages) as (f & Hf & Hl).
  - split; intros; reflexivity.
  - lia.
  - intros n. unfold second. lia.
  - exact demo_items_wf.
  - unfold plain. vm_compute. intros H. repeat (apply elem_of_cons in H as [H|H]; [discriminate H|]). by apply elem_of_nil in H.
  - exact demo_messages_good.
  - exists f. split; [exact Hf|]. rewrite Hl. vm_compute. reflexivity.
Defined.

(** The text after the last flag is never written: this pattern is meant to
    close its bracket. *)
Example pattern_tail_lost :
  pattern_formatter 9 (fun _ => 0) (str "[%v]") local = pattern_formatter 9 (fun _ => 0) (str "[%v") local.
Proof. reflexivity. Qed.

(** The side of a padding without a width is skipped with no trace, unlike an
    unknown flag, which is written as it is. *)
Example pattern_side_skipped :
  pattern_formatter 9 (fun _ => 0) (str "%-l") local = pattern_formatter 9 (fun _ => 0) (str "%l") local /\
  option_map formatters (pattern_formatter 9 (fun _ => 0) (str "%q") local) =
    Some [Flag (aggregate_flag (str "%q")) false no_padding].
Proof. by vm_compute. Qed.

(** * Copies *)

Section clones.

Context (pid : Z) (now now' : nat -> Z).

(** [g] is [f] as [clone] makes it, the clock of the copies being [now']. *)
Definition cloned (f g : log_formatter) : Prop :=
  time_type g = time_type f /\ need_localtime g = need_localtime f /\ cached_tm g = zero_tm /\ last_log_secs g = 0 /\
  custom_flags f = ∅ /\ custom_flags g = ∅ /\ formatters g = imap (fun i => flag_clone pid (now' i)) (formatters f).

Lemma cloned_length f g : cloned f g -> length (formatters g) = length (formatters f).
Proof. intros (_&_&_&_&_&_&->). apply length_imap. Qed.

Lemma cloned_emplace f g flags flags' need :
  cloned f g -> flags' = imap (fun i => flag_clone pid (now' (length (formatters f) + i)%nat)) flags ->
  cloned (emplace flags need f) (emplace flags' need g).
Proof.
  intros (Ht&Hn&Hc&Hs&Hf&Hg&Hfl) ->. unfold cloned, emplace. cbn. rewrite Ht, Hn, Hc, Hs, Hf, Hg, Hfl.
  repeat split. by rewrite imap_app.
Qed.

Lemma cloned_flush uc f g : cloned f g -> cloned (flush_user_chars uc f) (flush_user_chars uc g).
Proof. intros H. unfold flush_user_chars. destruct (decide (uc = [])); [done|]. by apply cloned_emplace. Qed.

Lemma flag_of_clone n n' ch k need :
  flag_of pid n ch = Some (k, need) ->
  exists k', flag_of pid n' ch = Some (k', need) /\ forall sc p, Flag k' sc p = flag_clone pid n' (Flag k sc p).
Proof.
  unfold flag_of, flag_clone. intros H.
  repeat match type of H with
         | (if ?b then _ else _) = _ => destruct b; [injection H as <- <-; eexists; split; [reflexivity|reflexivity]|]
         end.
  discriminate H.
Qed.

Lemma flag_of_none n n' ch : flag_of pid n ch = None -> flag_of pid n' ch = None.
Proof.
  unfold flag_of. intros H.
  repeat match type of H with (if ?b then _ else _) = _ => destruct b; [discriminate H|] end. reflexivity.
Qed.

Lemma cloned_handle_flag sc ch p f g :
  cloned f g ->
  cloned (handle_flag pid (now (length (formatters f))) sc ch p f) (handle_flag pid (now' (length (formatters g))) sc ch p g).
Proof.
  intros H. pose proof H as (_&_&_&_&Hf&Hg&_). unfold handle_flag. rewrite Hf, Hg, lookup_empty, (cloned_length f g H).
  destruct (flag_of pid (now _) ch) as [[k need]|] eqn:E.
  - destruct (flag_of_clone _ (now' (length (formatters f))) _ _ _ E) as (k' & -> & Hk).
    apply cloned_emplace; [done|]. cbn. by rewrite Nat.add_0_r, Hk.
  - rewrite (flag_of_none _ _ _ E). destruct (truncate p); by apply cloned_emplace.
Qed.

Lemma cloned_loop fuel s uc f g f' :
  cloned f g -> pattern_loop pid now fuel s uc f = Some f' ->
  exists g', pattern_loop pid now' fuel s uc g = Some g' /\ cloned f' g'.
Proof.
  revert s uc f g. induction fuel as [|fuel IH]; intros [|c s] uc f g H Hl; cbn [pattern_loop] in *.
  - injection Hl as <-. by exists g.
  - discriminate Hl.
  - injection Hl as <-. by exists g.
  - destruct (c =? chr "%"); [|by eapply IH]. pose proof (cloned_flush uc f g H) as Hu.
    destruct (handle_padding s) as [p [|ch s']].
    + injection Hl as <-. by eexists.
    + eapply IH; [|exact Hl]. by apply cloned_handle_flag.
Qed.

(** The copy of a formatter made from a pattern is a formatter made from that
    pattern at the time of the copy. *)
Lemma clone_pattern pattern tp f :
  pattern_formatter pid now pattern tp = Some f -> pattern_formatter pid now' pattern tp = Some (clone pid now' f).
Proof.
  intros H. destruct (cloned_loop _ _ _ _ (clear_formatters (Formatter tp false zero_tm 0 ∅ [])) _ ltac:(by repeat split) H)
    as (g & Hg & Ht & Hn & Hc & Hs & Hf & Hgc & Hfl).
  unfold pattern_formatter, set_pattern. rewrite Hg. f_equal. unfold clone. destruct g; cbn in *. by rewrite <- Ht, <- Hn, Hc, Hs, Hf, Hgc, <- Hfl.
Qed.

End clones.
