(* ===== verification/FileAppender.v ===== *)
(** The appender of log files: src/log/file_appender.cpp, and the file half of
    the compression thread (src/log/log_system.cpp, [compress]). Lines go to a
    file named after the second it was opened in; the file is closed, and handed
    to the compression thread, when it is full or the day has changed.

    The disk is a map from paths to contents. [files_hold_the_log] shows that no
    line the appender could open a file for is dropped by it, whatever the
    sizes, the days and the times of the messages; a file is opened under a name
    used before only when two seconds have the same date, as when local clocks
    go back, and then empties the older one. *)

From Stdlib Require Import (notations) String.
From stdpp Require Import gmap sorting.
From Stdlib Require Sorting.Sorted.
From S2P Require Import Prelude Stream LogFlags.

Record config := Config {
  base : bytes;
  log_directory : bytes;
  lz4_directory : bytes;
  max_size : Z;
  file_time : log_time_type;
  daily_roll : bool }.

Record file_appender := Appender {
  cached_point : Z;
  cached_tm : tm;
  file_secs : Z;
  file_id : Z;
  file_size : Z;
  full_name : bytes;
  is_open : bool }.

(** The files, and what was handed to the compression thread. *)
Record world := World { disk : gmap bytes bytes; posted : list (bytes * bytes) }.

(** [path /= name] for a relative name. *)
Definition path_append (dir name : bytes) : bytes :=
  match list.last dir with
  | None => name
  | Some c => if c =? 47 then dir ++ name else dir ++ [47] ++ name
  end.

(** [path.filename()]. *)
Definition filename (path : bytes) : bytes := base_name path.

(** [replace_extension] of a file name: what follows the last dot, if any, is
    replaced. *)
Fixpoint last_dot (name : bytes) (i : Z) (found : option Z) : option Z :=
  match name with
  | [] => found
  | c :: name => last_dot name (i + 1) (if c =? 46 then Some i else found)
  end.

Definition replace_extension (name ext : bytes) : bytes :=
  match last_dot name 0 None with
  | Some i => ztake i name ++ ext
  | None => name ++ ext
  end.

Definition seconds_of (point : Z) : Z := Z.quot point second.

Section appender.

(** The C library's calendars, fmt's "{:%Y-%m-%d_%H-%M-%S}" of a date, the
    number of the process, and the configuration. *)
Context (localtime gmtime : Z -> tm) (date_text : tm -> bytes) (pid : Z) (cfg : config).

Definition calendar (secs : Z) : tm := match file_time cfg with local => localtime secs | utc => gmtime secs end.

(** The constructor, at [now]. *)
Definition new_appender (now : Z) : file_appender := Appender now (calendar (seconds_of now)) 0 0 0 [] false.

(** "{name}_{date}_{pid}.log", with the number of the file before the extension
    from the second one of the same second on. *)
Definition log_name (t : tm) (id : Z) : bytes :=
  base cfg ++ [95] ++ date_text t ++ [95] ++ to_string pid ++ (if id =? 0 then [] else [95] ++ to_string id) ++ str ".log".

Definition make_full_name (a : file_appender) : file_appender :=
  let current := seconds_of (cached_point a) in
  let '(secs, id) := if file_secs a <? current then (current, 0) else (file_secs a, file_id a) in
  Appender (cached_point a) (cached_tm a) secs (u64 (id + 1)) (file_size a)
           (path_append (log_directory cfg) (log_name (cached_tm a) id)) (is_open a).

Definition lz4_name (full : bytes) : bytes :=
  path_append (lz4_directory cfg) (replace_extension (filename full) (str ".log.lz4")).

Definition roll_file (a : file_appender) (w : world) : file_appender * world :=
  if is_open a then
    (Appender (cached_point a) (cached_tm a) (file_secs a) (file_id a) 0 (full_name a) false,
     World (disk w) (posted w ++ [(full_name a, lz4_name (full_name a))]))
  else (a, w).

(** The part of [write] that follows the clock. *)
Definition follow_clock (point : Z) (a : file_appender) (w : world) : file_appender * world :=
  if seconds_of (cached_point a) <? seconds_of point then
    let current_tm := calendar (seconds_of point) in
    let '(a, w) :=
      if daily_roll cfg && (negb (tm_year current_tm =? tm_year (cached_tm a)) || negb (tm_yday current_tm =? tm_yday (cached_tm a)))
      then roll_file a w else (a, w) in
    (Appender point current_tm (file_secs a) (file_id a) (file_size a) (full_name a) (is_open a), w)
  else (a, w).

(** The part of [write] that opens the file, [opens] telling whether the
    system lets it. *)
Definition open_file (opens : bool) (a : file_appender) (w : world) : file_appender * world :=
  if is_open a then (a, w)
  else
    let a := make_full_name a in
    if opens then
      (Appender (cached_point a) (cached_tm a) (file_secs a) (file_id a) (file_size a) (full_name a) true,
       World (<[full_name a := []]> (disk w)) (posted w))
    else (a, w).

(** The part of [write] that writes and closes a full file. *)
Definition put_line (buf : bytes) (a : file_appender) (w : world) : file_appender * world :=
  let w := World (alter (fun text => text ++ buf) (full_name a) (disk w)) (posted w) in
  let a := Appender (cached_point a) (cached_tm a) (file_secs a) (file_id a) (u64 (file_size a + zlen buf)) (full_name a) (is_open a) in
  if (0 <? max_size cfg) && (max_size cfg <=? file_size a) then roll_file a w else (a, w).

Definition write (opens : bool) (point : Z) (buf : bytes) (s : file_appender * world) : file_appender * world :=
  let '(a, w) := s in
  let '(a, w) := follow_clock point a w in
  let '(a, w) := open_file opens a w in
  if is_open a then put_line buf a w else (a, w).

(** A line offered to the appender, and whether a file can be opened then. *)
Record offered := Offered { can_open : bool; at_point : Z; text : bytes }.

Definition run (now : Z) (disk : gmap bytes bytes) (lines : list offered) : file_appender * world :=
  fold_left (fun s o => write (can_open o) (at_point o) (text o) s) lines (new_appender now, World disk []).

(** [compress]: the file is gone once its compressed copy is written;
    [compressed] is what the compression library wrote and whether it succeeded. *)
Definition compress (compressed : bytes -> bytes * bool) (src dest : bytes) (d : gmap bytes bytes) : gmap bytes bytes :=
  match d !! src with
  | None => d
  | Some text =>
    let '(out, ok) := compressed text in
    if ok then delete src (<[dest := out]> d) else <[dest := out]> d
  end.

(** * The files of an appender *)

(** A file: the second and the number its name is made of, and its lines, each
    with the second of the appender's clock when it was written. *)
Record session := Session { key : Z * Z; lines : list (Z * bytes) }.

Definition content (s : session) : bytes := concat (snd <$> lines s).

Definition name_of (k : Z * Z) : bytes := path_append (log_directory cfg) (log_name (calendar k.1) k.2).

(** The disk after the files of [ss], in order, on top of [d]: a later file
    replaces an older one of the same name. *)
Definition put_files (d : gmap bytes bytes) (ss : list session) : gmap bytes bytes :=
  fold_left (fun d s => <[name_of (key s) := content s]> d) ss d.

Definition key_lt (k k' : Z * Z) : Prop := k.1 < k'.1 \/ (k.1 = k'.1 /\ k.2 < k'.2).

(** The key of the next file. *)
Definition next_key (a : file_appender) : Z * Z :=
  let current := seconds_of (cached_point a) in
  if file_secs a <? current then (current, 0) else (file_secs a, file_id a).

Definition day_of (secs : Z) : Z * Z := (tm_year (calendar secs), tm_yday (calendar secs)).

Definition one_day (s : session) (secs : Z) : Prop := Forall (fun l => day_of l.1 = day_of secs) (lines s).

(** Before its last line a file was below the limit. *)
Definition within_limit (s : session) : Prop :=
  max_size cfg <= 0 \/ lines s = [] \/
  exists ls l, lines s = ls ++ [l] /\ u64 (zlen (concat (snd <$> ls))) < max_size cfg.

Record files_ok (d : gmap bytes bytes) (count : Z) (a : file_appender) (w : world) (ss : list session) : Prop := {
  ok_tm : cached_tm a = calendar (seconds_of (cached_point a));
  ok_secs : 0 <= file_secs a <= seconds_of (cached_point a) /\ seconds_of (cached_point a) < 10 ^ 10;
  ok_id : 0 <= file_id a <= count;
  ok_keys : Sorted.StronglySorted key_lt (key <$> ss);
  ok_next : Forall (fun s => key_lt (key s) (next_key a) /\ 0 <= (key s).1 /\ 0 <= (key s).2 <= count) ss;
  ok_disk : disk w = put_files d ss;
  ok_limit : Forall within_limit ss;
  ok_day : daily_roll cfg = true -> Forall (fun s => exists secs, one_day s secs) ss;
  ok_closed : is_open a = false -> file_size a = 0;
  ok_open : is_open a = true -> exists s, list.last ss = Some s /\ full_name a = name_of (key s) /\
      file_size a = u64 (zlen (content s)) /\ (max_size cfg <= 0 \/ file_size a < max_size cfg) /\
      (daily_roll cfg = true -> one_day s (seconds_of (cached_point a)));
  ok_posted : fst <$> posted w = (fun s => name_of (key s)) <$> (if is_open a then removelast ss else ss) }.

Lemma key_lt_trans k1 k2 k3 : key_lt k1 k2 -> key_lt k2 k3 -> key_lt k1 k3.
Proof. unfold key_lt. lia. Qed.

Lemma new_appender_ok now d :
  0 <= now < 10 ^ 10 * second -> files_ok d 0 (new_appender now) (World d []) [].
Proof.
  intros Hn. assert (seconds_of now = now / second) as E by (unfold seconds_of, second in *; apply Z.quot_div_nonneg; lia).
  unfold second in *. split; cbn; try done; try rewrite E; try (by repeat constructor).
  split; divlia.
Qed.

(** Closing the file. *)
Lemma roll_file_ok d count a w ss :
  files_ok d count a w ss -> let '(a', w') := roll_file a w in
  files_ok d count a' w' ss /\ is_open a' = false /\ cached_point a' = cached_point a /\ cached_tm a' = cached_tm a /\
  file_secs a' = file_secs a /\ file_id a' = file_id a.
Proof.
  intros H. unfold roll_file. destruct (is_open a) eqn:Eo; [|done]. split; [|done].
  destruct H. destruct (ok_open0 Eo) as (s & Hs & Hname & _). rewrite Eo in *. split; cbn; try done.
  rewrite fmap_app, ok_posted0. cbn. rewrite Hname.
  apply last_Some in Hs as [l ->]. rewrite removelast_last, fmap_app. done.
Qed.

(** The clock moves: the key of the next file only grows. *)
Lemma follow_clock_ok d count point a w ss :
  files_ok d count a w ss -> 0 <= seconds_of point < 10 ^ 10 ->
  let '(a', w') := follow_clock point a w in
  files_ok d count a' w' ss /\ (is_open a' = true -> is_open a = true) /\
  seconds_of (cached_point a') = Z.max (seconds_of (cached_point a)) (seconds_of point).
Proof.
  intros H Hp. unfold follow_clock. destruct (Z.ltb_spec (seconds_of (cached_point a)) (seconds_of point)) as [Hlt|Hge].
  2: { split; [done|]. split; [done|lia]. }
  set (changed := negb _ || negb _).
  assert (let '(a', w') := if daily_roll cfg && changed then roll_file a w else (a, w) in
          files_ok d count a' w' ss /\ cached_point a' = cached_point a /\ cached_tm a' = cached_tm a /\
          (is_open a' = true -> is_open a = true /\ daily_roll cfg && changed = false)) as Hr.
  { destruct (daily_roll cfg && changed).
    - pose proof (roll_file_ok d count a w ss H) as Hr. destruct (roll_file a w) as [a' w'].
      destruct Hr as (Hr & Ho & Hc & Ht & _). do 3 (split; [done|]). congruence.
    - done. }
  destruct (if daily_roll cfg && changed then roll_file a w else (a, w)) as [a' w']. destruct Hr as (Hok & Hc & Ht & Ho).
  split; [|split; [intros Ho'; by apply Ho|cbn; lia]].
  destruct Hok. split; cbn [cached_point cached_tm file_secs file_id file_size full_name is_open]; try done.
  - rewrite Hc in *. lia.
  - eapply list.Forall_impl; [exact ok_next0|]. intros s (Hk & Hpos). split; [|done]. revert Hk.
    unfold next_key. cbn [cached_point file_secs file_id]. rewrite Hc in *. unfold key_lt.
    destruct (Z.ltb_spec (file_secs a') (seconds_of (cached_point a))), (Z.ltb_spec (file_secs a') (seconds_of point)); cbn; lia.
  - intros Ho'. destruct (ok_open0 Ho') as (s & Hs & Hn & Hz & Hm & Hd). destruct (Ho Ho') as [_ Hsame].
    exists s. do 4 (split; [done|]). intros Hdaily. specialize (Hd Hdaily). rewrite Hdaily in Hsame. cbn [andb] in Hsame.
    assert (day_of (seconds_of point) = day_of (seconds_of (cached_point a'))) as Eday.
    { unfold changed in Hsame. apply orb_false_iff in Hsame as [H1 H2]. apply negb_false_iff, Z.eqb_eq in H1, H2.
      rewrite <- Ht, ok_tm0 in H1, H2. unfold day_of. by rewrite H1, H2. }
    unfold one_day. by rewrite Eday.
Qed.

(** "{:%Y-%m-%d_%H-%M-%S}" has 19 characters until the year 2286. *)
Definition dates_fixed : Prop := forall s, 0 <= s < 10 ^ 10 -> zlen (date_text (calendar s)) = 19.

Lemma to_string_inj n n' : 0 <= n < 2 ^ 64 -> 0 <= n' < 2 ^ 64 -> to_string n = to_string n' -> n = n'.
Proof.
  unfold to_string. intros Hn Hn' E. pose proof (dec_value_digits 19 n ltac:(lia)) as H.
  pose proof (dec_value_digits 19 n' ltac:(lia)) as H'. congruence.
Qed.

Lemma path_append_inj dir n n' : path_append dir n = path_append dir n' -> n = n'.
Proof.
  unfold path_append. destruct (list.last dir) as [c|]; [|done]. destruct (c =? 47); intros E.
  - by apply (inj (app dir)) in E.
  - apply (inj (app dir)) in E. by injection E.
Qed.

Definition wf_key (k : Z * Z) : Prop := 0 <= k.1 < 10 ^ 10 /\ 0 <= k.2 < 2 ^ 64.

(** Files share a name only when their seconds share a date. *)
Lemma name_of_eq k k' : dates_fixed -> wf_key k -> wf_key k' -> name_of k = name_of k' ->
  date_text (calendar k.1) = date_text (calendar k'.1) /\ k.2 = k'.2.
Proof.
  intros Hlen [Hk1 Hk2] [Hk1' Hk2'] E. apply path_append_inj in E. unfold log_name in E.
  apply (inj (app _)) in E. cbn [app] in E. injection E as E.
  assert (date_text (calendar k.1) = date_text (calendar k'.1)) as Ed.
  { apply (f_equal (ztake 19)) in E. rewrite !ztake_app_le in E by (rewrite Hlen by done; lia).
    rewrite !ztake_ge in E by (rewrite Hlen by done; lia). done. }
  rewrite Ed in E. apply (inj (app _)) in E. injection E as E. apply (inj (app _)) in E. split; [done|].
  apply (app_inv_tail (A := Z)) in E.
  destruct (Z.eqb_spec k.2 0), (Z.eqb_spec k'.2 0); try congruence; try discriminate E.
  injection E as E. by apply to_string_inj.
Qed.

Lemma key_lt_irrefl k : ~ key_lt k k.
Proof. unfold key_lt. lia. Qed.

Lemma next_key_wf d count a w ss : files_ok d count a w ss -> count < 2 ^ 64 -> wf_key (next_key a).
Proof. intros H Hc. destruct H. unfold wf_key, next_key. destruct (file_secs a <? _); cbn; lia. Qed.

(** The file opened has a key that was never used before. *)
Lemma open_file_ok d count opens a w ss :
  files_ok d count a w ss -> is_open a = false -> count < 2 ^ 64 - 1 ->
  let '(a', w') := open_file opens a w in
  cached_point a' = cached_point a /\ is_open a' = opens /\
  files_ok d (count + 1) a' w' (if opens then ss ++ [Session (next_key a) []] else ss).
Proof.
  intros H Ho Hc. pose proof (next_key_wf d count a w ss H ltac:(lia)) as Hwf. unfold open_file. rewrite Ho.
  assert (make_full_name a = Appender (cached_point a) (cached_tm a) (next_key a).1 ((next_key a).2 + 1) (file_size a)
            (name_of (next_key a)) false) as ->.
  { unfold make_full_name, next_key in *. destruct H. destruct Hwf as [_ Hwf].
    destruct (Z.ltb_spec (file_secs a) (seconds_of (cached_point a))); cbn [fst snd] in *;
      rewrite ok_tm0, Ho, u64_small by (unfold is_u64; lia); unfold name_of; cbn [fst snd]; [done|].
    by replace (seconds_of (cached_point a)) with (file_secs a) by lia. }
  set (k := next_key a) in *.
  assert (forall size full op, next_key (Appender (cached_point a) (cached_tm a) k.1 (k.2 + 1) size full op) = (k.1, k.2 + 1)) as Hnext.
  { intros. unfold next_key at 1. cbn [cached_point file_secs file_id]. destruct H. unfold k, next_key in *.
    destruct (Z.ltb_spec (file_secs a) (seconds_of (cached_point a))); cbn [fst snd];
      rewrite (proj2 (Z.ltb_ge _ _)) by lia; done. }
  assert (Hlt : key_lt k (k.1, k.2 + 1)) by (unfold key_lt; cbn; lia).
  pose proof H as [Htm Hsecs Hid Hkeys Hnk Hdisk Hlimit Hday Hclosed _ Hposted].
  assert (k.1 <= seconds_of (cached_point a) /\ 0 <= k.1 /\ 0 <= k.2 <= count) as Hkb.
  { unfold k, next_key in *. destruct (file_secs a <? _); cbn; lia. }
  destruct opens; (split; [done|split; [done|]]); split;
    cbn [cached_point cached_tm file_secs file_id file_size full_name is_open disk posted]; rewrite ?Hnext;
    rewrite ?Ho in Hposted; try done; try lia.
  - rewrite fmap_app. apply StronglySorted_app_2; [|done|by repeat constructor]. cbn.
    intros k1 k2 H1 H2. apply list_elem_of_fmap in H1 as (s & -> & Hs). apply list_elem_of_singleton in H2 as ->.
    rewrite list.Forall_forall in Hnk. by apply Hnk.
  - apply list.Forall_app. split; [|apply list.Forall_singleton; split; [done|cbn [key]; lia]].
    eapply list.Forall_impl; [exact Hnk|]. intros s [Hs ?]. split; [by eapply key_lt_trans|lia].
  - unfold put_files. rewrite fold_left_app. cbn. by rewrite Hdisk.
  - apply list.Forall_app. split; [done|]. apply list.Forall_singleton. right. by left.
  - intros Hd. apply list.Forall_app. split; [by apply Hday|]. apply list.Forall_singleton. exists 0. constructor.
  - intros _. exists (Session k []). rewrite last_snoc. cbn. rewrite (Hclosed Ho). repeat split; [lia|]. constructor.
  - by rewrite removelast_last.
  - eapply list.Forall_impl; [exact Hnk|]. intros s [Hs ?]. split; [by eapply key_lt_trans|lia].
Qed.

(** The line goes to the open file, the last one. *)
Lemma put_line_disk d ss0 s x buf :
  alter (fun text => text ++ buf) (name_of (key s)) (put_files d (ss0 ++ [s])) =
  put_files d (ss0 ++ [Session (key s) (lines s ++ [(x, buf)])]).
Proof.
  unfold put_files. rewrite !fold_left_app. cbn. rewrite alter_insert_eq. f_equal.
  unfold content. cbn [lines]. rewrite fmap_app, concat_app. cbn. by rewrite (app_nil_r (A := Z)).
Qed.

Lemma put_line_ok d count buf a w ss :
  files_ok d count a w ss -> is_open a = true ->
  let '(a', w') := put_line buf a w in
  exists ss0 s, ss = ss0 ++ [s] /\
    files_ok d count a' w' (ss0 ++ [Session (key s) (lines s ++ [(seconds_of (cached_point a), buf)])]).
Proof.
  intros H Ho. destruct (ok_open _ _ _ _ _ H Ho) as (s & Hs & Hname & Hsize & Hmax & Hdaily).
  apply last_Some in Hs as [ss0 ->]. pose proof (put_line_disk d ss0 s (seconds_of (cached_point a)) buf) as Hdisk'.
  rewrite <- Hname, <- (ok_disk _ _ _ _ _ H) in Hdisk'.
  set (s' := Session (key s) _) in *. destruct H as [Htm Hsecs Hid Hkeys Hnk Hdisk Hlimit Hday _ _ Hposted].
  assert (content s' = content s ++ buf) as Econt.
  { unfold content. cbn [lines s']. rewrite fmap_app, concat_app. cbn. by rewrite (app_nil_r (A := Z)). }
  assert (u64 (file_size a + zlen buf) = u64 (zlen (content s'))) as Esize.
  { rewrite Hsize, Econt, zlen_app. unfold u64. by rewrite Z.add_mod_idemp_l. }
  assert (Forall within_limit (ss0 ++ [s'])) as Hlimit'.
  { apply list.Forall_app in Hlimit as [Hl _]. apply list.Forall_app. split; [done|]. apply list.Forall_singleton.
    destruct Hmax as [Hmax|Hmax]; [by left|]. right; right. exists (lines s), (seconds_of (cached_point a), buf).
    split; [done|]. by rewrite Hsize in Hmax. }
  assert (daily_roll cfg = true -> one_day s' (seconds_of (cached_point a))) as Hdaily'.
  { intros Hd. apply list.Forall_app. split; [by apply Hdaily|]. by apply list.Forall_singleton. }
  assert (daily_roll cfg = true -> Forall (fun s => exists secs, one_day s secs) (ss0 ++ [s'])) as Hday'.
  { intros Hd. specialize (Hday Hd). apply list.Forall_app in Hday as [Hl _]. apply list.Forall_app. split; [done|].
    apply list.Forall_singleton. eexists. by apply Hdaily'. }
  rewrite Ho, removelast_last in Hposted. rewrite fmap_app in Hkeys. cbn [fmap list_fmap] in Hkeys.
  rewrite list.Forall_app, list.Forall_singleton in Hnk.
  unfold put_line. destruct (_ && _) eqn:Efull.
  - unfold roll_file. cbn [is_open]. rewrite Ho. exists ss0, s. split; [done|]. split;
      cbn [cached_point cached_tm file_secs file_id file_size full_name is_open disk posted]; try done.
    + by rewrite fmap_app.
    + by rewrite list.Forall_app, list.Forall_singleton.
    + rewrite !fmap_app, Hposted. cbn. by rewrite Hname.
  - exists ss0, s. split; [done|]. split;
      cbn [cached_point cached_tm file_secs file_id file_size full_name is_open disk posted]; try done.
    + by rewrite fmap_app.
    + by rewrite list.Forall_app, list.Forall_singleton.
    + congruence.
    + intros _. exists s'. rewrite last_snoc, Esize. repeat split; [by rewrite Hname|cbn [file_size] in Efull; rewrite Esize in Efull; lia|done].
    + by rewrite Ho, removelast_last.
Qed.

(** The lines the appender could write. *)
Fixpoint written (a : file_appender) (w : world) (os : list offered) : list bytes :=
  match os with
  | [] => []
  | o :: os =>
    let '(a', w') := write (can_open o) (at_point o) (text o) (a, w) in
    let kept := is_open (fst (follow_clock (at_point o) a w)) || can_open o in
    (if kept then [text o] else []) ++ written a' w' os
  end.

Definition all_lines (ss : list session) : list bytes := concat ((fun s => snd <$> lines s) <$> ss).

Lemma all_lines_snoc ss s l : all_lines (ss ++ [Session (key s) (lines s ++ [l])]) = all_lines (ss ++ [s]) ++ [l.2].
Proof.
  unfold all_lines. rewrite !fmap_app, !concat_app. cbn. by rewrite fmap_app, !(app_nil_r (A := bytes)), (app_assoc (A := bytes)).
Qed.

Lemma file_write_ok d count o a w ss :
  count < 2 ^ 64 - 1 -> files_ok d count a w ss -> 0 <= seconds_of (at_point o) < 10 ^ 10 ->
  let '(a', w') := write (can_open o) (at_point o) (text o) (a, w) in
  exists ss', files_ok d (count + 1) a' w' ss' /\
    all_lines ss' = all_lines ss ++ (if is_open (fst (follow_clock (at_point o) a w)) || can_open o then [text o] else []).
Proof.
  intros Hc H Hp. unfold write. pose proof (follow_clock_ok d count (at_point o) a w ss H Hp) as Hf.
  destruct (follow_clock (at_point o) a w) as [a1 w1]. destruct Hf as (H1 & _ & _). cbn [fst].
  assert (exists ss1, let '(a2, w2) := open_file (can_open o) a1 w1 in
          files_ok d (count + 1) a2 w2 ss1 /\ all_lines ss1 = all_lines ss /\ is_open a2 = is_open a1 || can_open o) as (ss1 & H2).
  { destruct (is_open a1) eqn:Ho.
    - exists ss. unfold open_file. rewrite Ho. split; [|done]. destruct H1. split; try done; [lia|].
      eapply list.Forall_impl; [exact ok_next0|]. cbn. intros ? [??]. split; [done|lia].
    - pose proof (open_file_ok d count (can_open o) a1 w1 ss H1 Ho Hc) as Hop. eexists.
      destruct (open_file (can_open o) a1 w1) as [a2 w2]. destruct Hop as (_ & Ho2 & Hop). split; [exact Hop|].
      split; [|done]. destruct (can_open o); [|done]. unfold all_lines. rewrite fmap_app, concat_app. cbn. by rewrite (app_nil_r (A := bytes)). }
  destruct (open_file (can_open o) a1 w1) as [a2 w2]. destruct H2 as (H2 & Hl & Ho2). rewrite <- Ho2.
  destruct (is_open a2) eqn:Ho.
  - pose proof (put_line_ok d (count + 1) (text o) a2 w2 ss1 H2 Ho) as Hput.
    destruct (put_line (text o) a2 w2) as [a3 w3]. destruct Hput as (ss0 & s & -> & H3). eexists. split; [exact H3|].
    by rewrite all_lines_snoc, Hl.
  - exists ss1. by rewrite (app_nil_r (A := bytes)).
Qed.

Lemma file_run_ok d os count a w ss :
  count + zlen os < 2 ^ 64 - 1 -> files_ok d count a w ss ->
  Forall (fun o => 0 <= seconds_of (at_point o) < 10 ^ 10) os ->
  let '(a', w') := fold_left (fun s o => write (can_open o) (at_point o) (text o) s) os (a, w) in
  exists ss', files_ok d (count + zlen os) a' w' ss' /\ all_lines ss' = all_lines ss ++ written a w os.
Proof.
  revert count a w ss. induction os as [|o os IH]; intros count a w ss Hc H Hos.
  - cbn. exists ss. rewrite (app_nil_r (A := bytes)). by rewrite zlen_nil, Z.add_0_r.
  - inversion_clear Hos as [|?? Ho Hos']. rewrite zlen_cons in *. pose proof (zlen_nonneg os).
    pose proof (file_write_ok d count o a w ss ltac:(lia) H Ho) as Hw. cbn [fold_left written].
    destruct (write _ _ _ (a, w)) as [a' w']. destruct Hw as (ss' & H' & Hl').
    specialize (IH (count + 1) a' w' ss' ltac:(lia) H' Hos').
    destruct (fold_left _ os (a', w')) as [a'' w'']. destruct IH as (ss'' & H'' & Hl'').
    exists ss''. split; [by replace (count + (1 + zlen os)) with (count + 1 + zlen os) by lia|].
    by rewrite Hl'', Hl', (app_assoc (A := bytes)).
Qed.

(** No file is opened twice. *)
Lemma sorted_keys_nodup (ks : list (Z * Z)) : Sorted.StronglySorted key_lt ks -> NoDup ks.
Proof.
  induction 1 as [|k ks _ IH Hk]; constructor; [|done]. intros Hin. rewrite list.Forall_forall in Hk.
  by apply (key_lt_irrefl k), Hk.
Qed.

(** Two files of one name have one date and one number. *)
Definition names_of_dates (ss : list session) : Prop :=
  forall s s', s ∈ ss -> s' ∈ ss -> name_of (key s) = name_of (key s') ->
    date_text (calendar (key s).1) = date_text (calendar (key s').1) /\ (key s).2 = (key s').2.

(** Different seconds have different dates. *)
Definition dates_differ : Prop :=
  forall s s', 0 <= s < 10 ^ 10 -> 0 <= s' < 10 ^ 10 -> date_text (calendar s) = date_text (calendar s') -> s = s'.

Lemma files_wf d count a w ss : count < 2 ^ 64 -> files_ok d count a w ss -> forall s, s ∈ ss -> wf_key (key s).
Proof.
  intros Hc H s Hs. destruct (next_key_wf _ _ _ _ _ H Hc) as [Hk1 _]. destruct H as [_ _ _ _ Hnk _ _ _ _ _ _].
  rewrite list.Forall_forall in Hnk. destruct (Hnk s Hs) as [Hlt ?]. unfold key_lt in Hlt. unfold wf_key. lia.
Qed.

Lemma files_names d count a w ss : dates_fixed -> count < 2 ^ 64 -> files_ok d count a w ss -> names_of_dates ss.
Proof. intros Hdf Hc H s s' Hs Hs' E. apply name_of_eq in E; [done|done| |]; by eapply files_wf. Qed.

Lemma names_nodup d count a w ss :
  dates_fixed -> dates_differ -> count < 2 ^ 64 -> files_ok d count a w ss -> NoDup ((fun s => name_of (key s)) <$> ss).
Proof.
  intros Hdf Hdd Hc H. pose proof (files_wf _ _ _ _ _ Hc H) as Hwf. pose proof (files_names _ _ _ _ _ Hdf Hc H) as Hn.
  replace ((fun s => name_of (key s)) <$> ss) with (name_of <$> (key <$> ss)) by (by rewrite <- list_fmap_compose).
  apply NoDup_fmap_2_strong; [|by apply sorted_keys_nodup, (ok_keys _ _ _ _ _ H)].
  intros k k' (s & -> & Hs)%list_elem_of_fmap (s' & -> & Hs')%list_elem_of_fmap E.
  destruct (Hn s s' Hs Hs' E) as [Ed En]. apply Hdd in Ed; [|by apply Hwf..].
  destruct (key s), (key s'); cbn in *; congruence.
Qed.

Lemma put_files_lookup d ss :
  NoDup ((fun s => name_of (key s)) <$> ss) ->
  Forall (fun s => put_files d ss !! name_of (key s) = Some (content s)) ss.
Proof.
  induction ss as [|s ss IH] using rev_ind; [constructor|]. rewrite fmap_app, list.NoDup_app. intros (Hnd & Hs & _).
  unfold put_files in *. rewrite fold_left_app. cbn. apply list.Forall_app. split.
  - eapply list.Forall_impl; [apply list.Forall_and; split; [by apply IH|apply list.Forall_forall; intros t Ht; exact Ht]|].
    intros t [Ht Hin]. cbn beta. rewrite lookup_insert_ne; [done|]. intros E.
    apply (Hs (name_of (key t))); [by apply (list_elem_of_fmap_2 (fun s => name_of (key s)))|]. rewrite <- E. by apply list_elem_of_singleton.
  - apply list.Forall_singleton. by rewrite lookup_insert_eq.
Qed.

(** When files can always be opened, every line is written. *)
Lemma written_all a w os : Forall (fun o => can_open o = true) os -> written a w os = text <$> os.
Proof.
  intros H. revert a w. induction H as [|o os Ho _ IH]; intros a w; [done|]. cbn [written fmap list_fmap].
  destruct (write _ _ _ (a, w)) as [a' w']. rewrite Ho, orb_true_r. cbn. by rewrite IH.
Qed.

End appender.

(** C25: the appender keeps every line it could open a file for, in the order
    given: its files make the log when put one after the other, and the disk,
    before the compression thread takes closed files away, is
    the one before with these files written in this order, one of the same name
    as an older one replacing it. Two files have the same name only if their
    seconds have the same date and they the same number among the files of the
    second; where different seconds have different dates (as in UTC, and not in
    local time when the clocks go back) all names differ and the disk has every
    file. When a limit is set, a file is below it before its last line; with the
    daily roll the lines of a file are of one day; all files but the open one
    have been handed to compression. Dates have the 19 characters of
    "%Y-%m-%d_%H-%M-%S", and times are before the second 10^10. *)
Theorem files_hold_the_log localtime gmtime date_text pid cfg now d os :
  dates_fixed localtime gmtime date_text cfg -> zlen os < 2 ^ 64 - 1 -> 0 <= now < 10 ^ 10 * second ->
  Forall (fun o => 0 <= seconds_of (at_point o) < 10 ^ 10) os ->
  exists ss,
    let '(a, w) := run localtime gmtime date_text pid cfg now d os in
    all_lines ss = written localtime gmtime date_text pid cfg (new_appender localtime gmtime cfg now) (World d []) os /\
    disk w = put_files localtime gmtime date_text pid cfg d ss /\
    names_of_dates localtime gmtime date_text pid cfg ss /\
    (dates_differ localtime gmtime date_text cfg ->
     NoDup ((fun s => name_of localtime gmtime date_text pid cfg (key s)) <$> ss) /\
     Forall (fun s => disk w !! name_of localtime gmtime date_text pid cfg (key s) = Some (content s)) ss) /\
    Forall (within_limit cfg) ss /\
    (daily_roll cfg = true -> Forall (fun s => exists secs, one_day localtime gmtime cfg s secs) ss) /\
    fst <$> posted w = (fun s => name_of localtime gmtime date_text pid cfg (key s)) <$> (if is_open a then removelast ss else ss).
Proof.
  intros Hdf Hc Hn Hos.
  pose proof (file_run_ok localtime gmtime date_text pid cfg d os 0 _ _ [] ltac:(lia)
                (new_appender_ok localtime gmtime date_text pid cfg now d Hn) Hos) as Hr.
  unfold run. destruct (fold_left _ os _) as [a w]. destruct Hr as (ss & H & Hl). exists ss.
  pose proof (files_names localtime gmtime date_text pid cfg d (0 + zlen os) a w ss Hdf ltac:(lia) H).
  pose proof (fun Hdd => names_nodup localtime gmtime date_text pid cfg d (0 + zlen os) a w ss Hdf Hdd ltac:(lia) H) as Hnd.
  destruct H. do 3 (split; [done|]). split; [|done]. intros Hdd. split; [auto|]. rewrite ok_disk0.
  apply put_files_lookup. auto.
Qed.

(** A limit of five bytes, and a file that cannot be opened. *)
Lemma files_hold_the_log_witness :
  let cal secs := Tm secs 0 0 1 0 124 0 (secs / 86400) in
  let date t := tm_sec t :: replicate 18 48 in
  let cfg := Config (str "log") (str "../log") (str "../lz4") 5 utc true in
  let os := [Offered true (100 * second) (str "abc"); Offered true (101 * second) (str "def");
             Offered false (101 * second) (str "lost"); Offered true (90000 * second) (str "x")] in
  exists ss,
    all_lines ss = [str "abc"; str "def"; str "x"] /\
    NoDup ((fun s => name_of cal cal date 7 cfg (key s)) <$> ss) /\
    fst <$> posted (snd (run cal cal date 7 cfg (100 * second) ∅ os)) =
      [str "../log/log_" ++ date (cal 100) ++ str "_7.log"].
Proof.
  intros cal date cfg os.
  destruct (files_hold_the_log cal cal date 7 cfg (100 * second) ∅ os) as (ss & H).
  - intros s _. reflexivity.
  - vm_compute. reflexivity.
  - unfold second. lia.
  - repeat apply list.Forall_cons_2; [..|apply list.Forall_nil_2]; (split; [vm_compute; discriminate|vm_compute; reflexivity]).
  - exists ss. destruct (run cal cal date 7 cfg (100 * second) ∅ os) as [a w] eqn:E. destruct H as (Hl & _ & _ & Hn & _).
    assert (dates_differ cal cal date cfg) as Hdd by (intros s s' _ _ Es; by injection Es).
    specialize (Hn Hdd). destruct Hn as [Hn _].
    split; [rewrite Hl; vm_compute; reflexivity|]. split; [exact Hn|]. cbn [snd].
    apply (f_equal (fun s => fst <$> posted (snd s))) in E. cbn [snd] in E. rewrite <- E. vm_compute. reflexivity.
Defined.

(** When the clocks go back an hour the same local second comes twice: the name
    comes twice too, and opening the second file empties the first. *)
Example name_comes_twice :
  let cal _ := Tm 0 30 2 27 9 124 0 300 in
  let date t := to_string (tm_year t) in
  let cfg := Config (str "log") [] [] 3 local false in
  map_to_list (disk (snd (run cal cal date 7 cfg (100 * second) ∅
    [Offered true (100 * second) (str "abc"); Offered true (3700 * second) (str "de")]))) =
  [(str "log_124_7.log", str "de")].
Proof. vm_compute. reflexivity. Qed.
