(* ===== verification/LogSystem.v ===== *)
(** The loggers, the appenders and the writer thread of the log:
    src/log/appender.cpp, console_appender.cpp, logger.cpp and log_system.cpp.

    A logger has a level and a list of appenders; an appender has a level, a
    formatter (File LogFormatter) and either a console or a file (File
    FileAppender). A logger writes at once or, when it is asynchronous, sends a
    message to the thread that writes. The registry maps names to loggers.
    Loggers and appenders are numbered in the stores of the system, since
    several names and several loggers can share them. *)

From Stdlib Require Import (notations) String.
From stdpp Require Import gmap.
From S2P Require Import Prelude Stream LogFlags LogFormatter FileAppender.

(** * Appenders *)

(** A console with what it has shown, or a file appender. *)
Inductive sink :=
  | console (enable_color : bool) (shown : bytes)
  | file (cfg : config) (a : file_appender).

Record log_appender := LogAppender { app_level : log_level; app_formatter : log_formatter; app_sink : sink }.

(** The numbers of the levels: off is 0, trace 6. *)
Definition level_number (l : log_level) : Z :=
  match l with off => 0 | critical => 1 | error => 2 | warn => 3 | info => 4 | debug => 5 | trace => 6 end.

Definition should_log (level limit : log_level) : bool := level_number level <=? level_number limit.

(** The escape codes, 27 being the escape character. *)
Definition escape (s : bytes) : bytes := 27 :: s.

Definition console_color_reset : bytes := escape (str "[m").

Definition log_level_to_color : list bytes :=
  [console_color_reset; escape (str "[1m") ++ escape (str "[41m"); escape (str "[31m") ++ escape (str "[1m");
   escape (str "[33m") ++ escape (str "[1m"); escape (str "[32m"); escape (str "[36m"); escape (str "[37m")].

(** [write_range]: [None] outside the buffer. *)
Definition write_range (buf : bytes) (start stop : Z) (shown : bytes) : option bytes :=
  if (0 <=? start) && (start <=? stop) && (stop <=? zlen buf) then Some (shown ++ slice buf start stop) else None.

Definition console_write (enable_color : bool) (level : log_level) (l : log_line) (shown : bytes) : option bytes :=
  if enable_color && (color_start l <? color_stop l) then
    shown ← write_range (dest l) 0 (color_start l) shown;
    color ← znth log_level_to_color (level_number level);
    shown ← write_range (dest l) (color_start l) (color_stop l) (shown ++ color);
    write_range (dest l) (color_stop l) (zlen (dest l)) (shown ++ console_color_reset)
  else write_range (dest l) 0 (zlen (dest l)) shown.

(** * Loggers *)

Record logger := Logger { logger_name : bytes; async : bool; logger_level : log_level; logger_appenders : list nat }.

(** A message on its way: its logger, the message itself or the wish to flush,
    the two colour positions it carries, and whether its object belongs to the
    pool of the system. *)
Inductive message_type := log | flush.

Record node := Node { owner : option nat; tp : message_type; body : log_message; colors : Z * Z; pooled : bool }.

(** The appenders and the disk: what writing changes. *)
Record sinks := Sinks { appenders : gmap nat log_appender; files : world }.

Record log_system := System {
  out : sinks;
  loggers : gmap nat logger;
  loggers_ : gmap bytes nat;
  log_levels_ : gmap bytes log_level;
  formatter_ : option log_formatter;
  global_level_ : log_level;
  default_logger_ : option nat;
  writer_queue_ : list node;
  pool_ : list (Z * Z);
  flush_interval_ : Z }.

(** The assignments of the registry and of the writer. *)
Definition set_out o s := System o (loggers s) (loggers_ s) (log_levels_ s) (formatter_ s) (global_level_ s) (default_logger_ s) (writer_queue_ s) (pool_ s) (flush_interval_ s).
Definition set_loggers l s := System (out s) l (loggers_ s) (log_levels_ s) (formatter_ s) (global_level_ s) (default_logger_ s) (writer_queue_ s) (pool_ s) (flush_interval_ s).
Definition set_names m s := System (out s) (loggers s) m (log_levels_ s) (formatter_ s) (global_level_ s) (default_logger_ s) (writer_queue_ s) (pool_ s) (flush_interval_ s).
Definition set_log_levels v s := System (out s) (loggers s) (loggers_ s) v (formatter_ s) (global_level_ s) (default_logger_ s) (writer_queue_ s) (pool_ s) (flush_interval_ s).
Definition set_own_formatter v s := System (out s) (loggers s) (loggers_ s) (log_levels_ s) v (global_level_ s) (default_logger_ s) (writer_queue_ s) (pool_ s) (flush_interval_ s).
Definition set_global_level v s := System (out s) (loggers s) (loggers_ s) (log_levels_ s) (formatter_ s) v (default_logger_ s) (writer_queue_ s) (pool_ s) (flush_interval_ s).
Definition set_default_logger v s := System (out s) (loggers s) (loggers_ s) (log_levels_ s) (formatter_ s) (global_level_ s) v (writer_queue_ s) (pool_ s) (flush_interval_ s).
Definition set_queue v s := System (out s) (loggers s) (loggers_ s) (log_levels_ s) (formatter_ s) (global_level_ s) (default_logger_ s) v (pool_ s) (flush_interval_ s).
Definition set_pool v s := System (out s) (loggers s) (loggers_ s) (log_levels_ s) (formatter_ s) (global_level_ s) (default_logger_ s) (writer_queue_ s) v (flush_interval_ s).
Definition set_interval v s := System (out s) (loggers s) (loggers_ s) (log_levels_ s) (formatter_ s) (global_level_ s) (default_logger_ s) (writer_queue_ s) (pool_ s) v.

(** * The registry *)

Definition name_of_logger (s : log_system) (id : nat) : option bytes := logger_name <$> loggers s !! id.

(** [insert_loggers]: a logger of the same name is replaced. *)
Definition insert_loggers (id : nat) (s : log_system) : option log_system :=
  name ← name_of_logger s id; Some (set_names (<[name := id]> (loggers_ s)) s).

Definition register_logger (id : nat) (s : log_system) : option log_system := insert_loggers id s.

Definition set_logger_level (id : nat) (level : log_level) (s : log_system) : option log_system :=
  l ← loggers s !! id;
  Some (set_loggers (<[id := Logger (logger_name l) (async l) level (logger_appenders l)]> (loggers s)) s).

Definition find (name : bytes) (s : log_system) : option nat := loggers_ s !! name.

Definition drop_logger (name : bytes) (s : log_system) : option log_system :=
  let s := set_names (delete name (loggers_ s)) s in
  match default_logger_ s with
  | Some id => n ← name_of_logger s id; Some (if decide (n = name) then set_default_logger None s else s)
  | None => Some s
  end.

Definition drop_all (s : log_system) : log_system := set_default_logger None (set_names ∅ s).

Definition set_default (new : option nat) (s : log_system) : option log_system :=
  s ← match default_logger_ s with
      | Some old => n ← name_of_logger s old; Some (set_names (delete n (loggers_ s)) s)
      | None => Some s
      end;
  s ← match new with Some id => insert_loggers id s | None => Some s end;
  Some (set_default_logger new s).

(** Something for every registered logger, in the order of the map. *)
Definition each_logger (f : bytes -> nat -> log_system -> option log_system) (s : log_system) : option log_system :=
  foldl (fun r e => s ← r; f e.1 e.2 s) (Some s) (map_to_list (loggers_ s)).

Definition set_level (level : log_level) (s : log_system) : option log_system :=
  each_logger (fun _ id => set_logger_level id level) (set_global_level level s).

Definition set_levels (levels : gmap bytes log_level) (global_level : option log_level) (s : log_system) : option log_system :=
  let s := set_log_levels levels s in
  let s := match global_level with Some l => set_global_level l s | None => s end in
  each_logger (fun name id s =>
    match log_levels_ s !! name with
    | Some l => set_logger_level id l s
    | None => match global_level with Some _ => set_logger_level id (global_level_ s) s | None => Some s end
    end) s.

Definition set_flush_interval (seconds : Z) (s : log_system) : log_system :=
  if 0 <=? seconds then set_interval seconds s else s.

Section system.

(** fmt, the calendars, custom flags, the process (File LogFormatter), the date
    in file names (File FileAppender), and whether files can be opened. *)
Context (format_int : Z -> bytes) (count_digits : Z -> Z) (format_02 : Z -> bytes) (localtime gmtime : Z -> tm).
Context (custom_format : Z -> log_padding -> log_message -> tm -> bytes -> bytes) (pid : Z) (now : nat -> Z).
Context (date_text : tm -> bytes) (can_open : bool).

(** * Writing *)

(** [log_appender::log]: the colour positions stay in the message. *)
Definition appender_log (id : nat) (msg : log_message) (cs : Z * Z) (o : sinks) : option (sinks * (Z * Z)) :=
  a ← appenders o !! id;
  if should_log (level msg) (app_level a) then
    '(f, l) ← format format_int count_digits format_02 localtime gmtime custom_format msg (app_formatter a) (Line [] cs.1 cs.2);
    '(snk, w) ←
      match app_sink a with
      | console enable shown => shown ← console_write enable (level msg) l shown; Some (console enable shown, files o)
      | file cfg fa =>
        let '(fa, w) := write localtime gmtime date_text pid cfg can_open (point msg) (dest l) (fa, files o) in
        Some (file cfg fa, w)
      end;
    Some (Sinks (<[id := LogAppender (app_level a) f snk]> (appenders o)) w, (color_start l, color_stop l))
  else Some (o, cs).

(** [logger::backend_log]: every appender of the logger. *)
Fixpoint backend_log (ids : list nat) (msg : log_message) (cs : Z * Z) (o : sinks) : option (sinks * (Z * Z)) :=
  match ids with
  | [] => Some (o, cs)
  | id :: ids => '(o, cs) ← appender_log id msg cs o; backend_log ids msg cs o
  end.

(** [pool_.create]: an object of the pool comes with the positions of its last
    message. *)
Definition new_message (s : log_system) : (Z * Z) * bool * log_system :=
  match pool_ s with
  | cs :: free => (cs, true, set_pool free s)
  | [] => ((0, 0), false, s)
  end.

Definition release_message (cs : Z * Z) (pooled : bool) (s : log_system) : log_system :=
  if pooled then set_pool (pool_ s ++ [cs]) s else s.

Definition send (n : node) (s : log_system) : log_system := set_queue (writer_queue_ s ++ [n]) s.

(** [logger::log], with the message filled in. *)
Definition logger_log (id : nat) (msg : log_message) (s : log_system) : option log_system :=
  l ← loggers s !! id;
  if should_log (level msg) (logger_level l) then
    if async l then
      let '(cs, pooled, s) := new_message s in
      Some (send (Node (Some id) log msg cs pooled) s)
    else '(o, _) ← backend_log (logger_appenders l) msg (0, 0) (out s); Some (set_out o s)
  else Some s.

(** [logger::flush]: streams flush what they hold, which changes nothing here;
    an asynchronous logger sends the wish. *)
Definition logger_flush (id : nat) (msg : log_message) (s : log_system) : option log_system :=
  l ← loggers s !! id;
  if async l then
    let '(cs, pooled, s) := new_message s in
    Some (send (Node (Some id) flush msg cs pooled) s)
  else Some s.

(** [recv] after its wait, and what the writer does with the message. *)
Definition writer_message (s : log_system) : option log_system :=
  match writer_queue_ s with
  | [] => Some s
  | n :: q =>
    let s := set_queue q s in
    match owner n, tp n with
    | Some id, log =>
      l ← loggers s !! id;
      '(o, cs) ← backend_log (logger_appenders l) (body n) (colors n) (out s);
      Some (release_message cs (pooled n) (set_out o s))
    | _, _ => Some (release_message (colors n) (pooled n) s)
    end
  end.

(** The variables of [writer_run]. *)
Record writer := Writer { last_flush : Z; last_interval : Z; dur : Z }.

(** The rest of a turn at the time [current]; [true] when it flushes. *)
Definition writer_clock (current interval : Z) (w : writer) : writer * bool :=
  if 0 <? interval then
    if interval <=? current - last_flush w then (Writer current interval interval, true)
    else (Writer (last_flush w) interval (interval - current + last_flush w), false)
  else if 0 <? last_interval w then (Writer (last_flush w) 0 0, false)
  else (w, false).

Definition writer_turn (current : Z) (sw : log_system * writer) : option (log_system * writer) :=
  s ← writer_message sw.1;
  Some (s, fst (writer_clock current (flush_interval_ s) sw.2)).

(** [~log_system] after the threads have ended: what is still in the queue is
    released. *)
Definition shutdown (s : log_system) : log_system :=
  set_queue [] (foldl (fun s n => release_message (colors n) (pooled n) s) s (writer_queue_ s)).

(** * Formatters *)

Definition appender_set_formatter (id : nat) (f : log_formatter) (s : log_system) : option log_system :=
  a ← appenders (out s) !! id;
  Some (set_out (Sinks (<[id := LogAppender (app_level a) f (app_sink a)]> (appenders (out s))) (files (out s))) s).

Definition appender_set_pattern (id : nat) (pattern : bytes) (tp : log_time_type) (s : log_system) : option log_system :=
  f ← pattern_formatter pid now pattern tp; appender_set_formatter id f s.

(** [logger::set_formatter]: copies for the appenders but the last. *)
Fixpoint set_formatters (ids : list nat) (f : log_formatter) (s : log_system) : option log_system :=
  match ids with
  | [] => Some s
  | [id] => appender_set_formatter id f s
  | id :: ids => s ← appender_set_formatter id (clone pid now f) s; set_formatters ids f s
  end.

Definition logger_set_formatter (id : nat) (f : log_formatter) (s : log_system) : option log_system :=
  l ← loggers s !! id; set_formatters (logger_appenders l) f s.

Definition set_formatter (f : log_formatter) (s : log_system) : option log_system :=
  each_logger (fun _ id => logger_set_formatter id (clone pid now f)) (set_own_formatter (Some f) s).

Definition set_pattern (pattern : bytes) (tp : log_time_type) (s : log_system) : option log_system :=
  f ← pattern_formatter pid now pattern tp; set_formatter f s.

(** [initialize_logger]: [None] when the system has no formatter yet, since
    [formatter_] is then a null pointer. *)
Definition initialize_logger (id : nat) (s : log_system) : option log_system :=
  f ← formatter_ s;
  s ← logger_set_formatter id (clone pid now f) s;
  name ← name_of_logger s id;
  s ← set_logger_level id (default (global_level_ s) (log_levels_ s !! name)) s;
  insert_loggers id s.

(** The system as it is made, the standard output being appender 0 of logger 0. *)
Definition new_system (color : bool) (w : world) (pool_size : nat) : log_system :=
  System (Sinks {[0%nat := LogAppender trace (default_formatter local) (console color [])]} w)
    {[0%nat := Logger [] false trace [0%nat]]} {[[] := 0%nat]} ∅ None trace (Some 0%nat) [] (replicate pool_size (0, 0)) 5.

(** * Colours *)

Definition forget {A} (r : option (A * log_line)) : option (A * bytes) := (fun p => (p.1, dest p.2)) <$> r.

Lemma flag_format_colors msg t f d a b a' b' :
  forget (flag_format format_int count_digits format_02 gmtime custom_format msg t f (Line d a b)) =
  forget (flag_format format_int count_digits format_02 gmtime custom_format msg t f (Line d a' b')).
Proof.
  destruct f as [k sc p]. unfold flag_format. cbn [kind scoped pad dest color_start color_stop].
  destruct k; try reflexivity;
    try (match goal with |- forget (mbind _ ?e) = _ => destruct e; reflexivity end).
  destruct (get_cached_offset _ _ _ _ _) as [u v].
  match goal with |- forget (mbind _ ?e) = _ => destruct e; reflexivity end.
Qed.

(** The text of a line does not depend on the positions the message came with. *)
Lemma format_flags_colors msg t flags d a b a' b' :
  forget (format_flags format_int count_digits format_02 gmtime custom_format msg t flags (Line d a b)) =
  forget (format_flags format_int count_digits format_02 gmtime custom_format msg t flags (Line d a' b')).
Proof.
  revert d a b a' b'. induction flags as [|f flags IH]; intros d a b a' b'; [done|]. cbn [format_flags].
  pose proof (flag_format_colors msg t f d a b a' b') as Hf.
  destruct (flag_format _ _ _ _ _ _ _ f (Line d a b)) as [[f1 [d1 a1 b1]]|], (flag_format _ _ _ _ _ _ _ f (Line d a' b')) as [[f2 [d2 a2 b2]]|];
    try discriminate Hf; [|done].
  cbn in Hf. injection Hf as <- <-. cbn [mbind option_bind]. specialize (IH d1 a1 b1 a2 b2).
  destruct (format_flags _ _ _ _ _ _ _ flags (Line d1 a1 b1)) as [[fs1 l1]|],
    (format_flags _ _ _ _ _ _ _ flags (Line d1 a2 b2)) as [[fs2 l2]|]; try discriminate IH; [|done].
  cbn in IH |- *. by injection IH as -> ->.
Qed.

Abbreviation format := (format format_int count_digits format_02 localtime gmtime custom_format).

Lemma format_colors msg f d a b a' b' : forget (format msg f (Line d a b)) = forget (format msg f (Line d a' b')).
Proof.
  unfold LogFormatter.format. cbv zeta. set (f1 := update_tm _ _ _ _).
  pose proof (format_flags_colors msg (LogFormatter.cached_tm f1) (formatters f1) d a b a' b') as H.
  destruct (format_flags _ _ _ _ _ _ _ _ (Line d a b)) as [[fs1 l1]|], (format_flags _ _ _ _ _ _ _ _ (Line d a' b')) as [[fs2 l2]|];
    try discriminate H; [|done]. cbn in H |- *. by injection H as -> ->.
Qed.

(** The flags that set the two positions. *)
Definition sets_start (f : log_flag) : bool := match kind f with color_start_flag | default_flag _ _ => true | _ => false end.

Definition sets_stop (f : log_flag) : bool := match kind f with color_stop_flag | default_flag _ _ => true | _ => false end.

(** A formatter that sets both positions on every line. *)
Definition own_colors (f : log_formatter) : bool := existsb sets_start (formatters f) && existsb sets_stop (formatters f).

Lemma flag_format_sets msg t f l g l' :
  flag_format format_int count_digits format_02 gmtime custom_format msg t f l = Some (g, l') ->
  sets_start g = sets_start f /\ sets_stop g = sets_stop f.
Proof.
  destruct f as [k sc p]. unfold flag_format. cbn [kind scoped pad].
  destruct k; repeat (intros (? & _ & H)%bind_Some; revert H); try (by intros [= <- _]).
  - destruct (get_cached_offset _ _ _ _ _) as [u v]. intros (? & _ & H)%bind_Some. by injection H as <- _.
  - destruct (cache_time _ _ _ _ _ _) as [u v]. by intros [= <- _].
Qed.

(** The positions after a flag that sets them do not depend on those before. *)
Lemma flag_format_fresh msg t f d a b a' b' g g' l l' :
  flag_format format_int count_digits format_02 gmtime custom_format msg t f (Line d a b) = Some (g, l) ->
  flag_format format_int count_digits format_02 gmtime custom_format msg t f (Line d a' b') = Some (g', l') ->
  (a = a' \/ sets_start f = true -> color_start l = color_start l') /\
  (b = b' \/ sets_stop f = true -> color_stop l = color_stop l').
Proof.
  destruct f as [k sc p]. unfold flag_format, sets_start, sets_stop. cbn [kind scoped pad dest color_start color_stop].
  destruct k; try (intros (? & _ & [= _ <-])%bind_Some (? & _ & [= _ <-])%bind_Some; cbn; intuition congruence);
    try (intros [= _ <-] [= _ <-]; cbn; intuition congruence).
  - destruct (get_cached_offset _ _ _ _ _) as [u v].
    intros (? & _ & [= _ <-])%bind_Some (? & _ & [= _ <-])%bind_Some; cbn; intuition congruence.
  - destruct (cache_time _ _ _ _ _ _) as [u v]. intros [= _ <-] [= _ <-]. unfold default_flag_format. done.
Qed.

Lemma format_flags_fresh msg t flags : forall d a b a' b' fs fs' l l',
  format_flags format_int count_digits format_02 gmtime custom_format msg t flags (Line d a b) = Some (fs, l) ->
  format_flags format_int count_digits format_02 gmtime custom_format msg t flags (Line d a' b') = Some (fs', l') ->
  (a = a' \/ existsb sets_start flags = true -> color_start l = color_start l') /\
  (b = b' \/ existsb sets_stop flags = true -> color_stop l = color_stop l') /\
  existsb sets_start fs = existsb sets_start flags /\ existsb sets_stop fs = existsb sets_stop flags.
Proof.
  induction flags as [|f flags IH]; intros d a b a' b' fs fs' l l'; cbn [format_flags].
  { intros [= <- <-] [= <- <-]. cbn. intuition congruence. }
  pose proof (flag_format_colors msg t f d a b a' b') as Hf.
  intros ([f1 [d1 a1 b1]] & E1 & H1)%bind_Some ([f2 [d2 a2 b2]] & E2 & H2)%bind_Some. rewrite E1, E2 in Hf.
  cbn in Hf. injection Hf as <- <-. apply bind_Some in H1 as ([fs1 l1] & H1 & [= <- <-]), H2 as ([fs2 l2] & H2 & [= <- <-]).
  destruct (flag_format_fresh msg t f d a b a' b' _ _ _ _ E1 E2) as [Fa Fb]. cbn [color_start color_stop] in Fa, Fb.
  destruct (flag_format_sets _ _ _ _ _ _ E1) as [Sa Sb].
  destruct (IH d1 a1 b1 a2 b2 _ _ _ _ H1 H2) as (Ia & Ib & Ja & Jb). cbn [existsb]. rewrite Sa, Sb, Ja, Jb.
  rewrite !orb_true_iff. split; [|split; [|done]]; intros [->|[H|H]].
  all: first [apply Ia|apply Ib]; auto.
Qed.

Lemma format_fresh msg f a b a' b' g g' l l' :
  format msg f (Line [] a b) = Some (g, l) -> format msg f (Line [] a' b') = Some (g', l') ->
  own_colors g = own_colors f /\ (own_colors f = true -> l = l').
Proof.
  intros E1 E2. pose proof (format_colors msg f [] a b a' b') as Hf. rewrite E1, E2 in Hf. injection Hf as Hg Hd.
  unfold LogFormatter.format in E1, E2. cbv zeta in E1, E2. set (f1 := update_tm _ _ _ _) in *.
  assert (formatters f1 = formatters f) as Ef by (unfold f1, update_tm; by case_match).
  apply bind_Some in E1 as ([fs1 l1] & E1 & [= <- <-]), E2 as ([fs2 l2] & E2 & [= <- <-]).
  destruct (format_flags_fresh _ _ _ _ _ _ _ _ _ _ _ _ E1 E2) as (Ha & Hb & Ja & Jb). unfold own_colors. cbn [formatters].
  rewrite Ja, Jb, Ef in *. split; [done|]. intros [H1 H2]%andb_true_iff. cbn in Hd. rewrite Ha, Hb, Hd by auto. done.
Qed.

(** The consoles that colour set the positions themselves. *)
Definition coloured_alone (a : log_appender) : Prop :=
  match app_sink a with console true _ => own_colors (app_formatter a) = true | _ => True end.

Definition fresh_sinks (o : sinks) : Prop := forall id a, appenders o !! id = Some a -> coloured_alone a.

Lemma appender_log_colors id msg cs cs' o o' ds :
  fresh_sinks o -> appender_log id msg cs o = Some (o', ds) ->
  fresh_sinks o' /\ exists ds', appender_log id msg cs' o = Some (o', ds').
Proof.
  intros Hp. unfold appender_log. destruct (appenders o !! id) as [a|] eqn:Ea; [|done]. cbn [mbind option_bind].
  destruct (should_log _ _); [|intros [= <- <-]; split; [done|by exists cs']].
  pose proof (format_colors msg (app_formatter a) [] cs.1 cs.2 cs'.1 cs'.2) as Hf.
  destruct (format msg (app_formatter a) (Line [] cs.1 cs.2)) as [[f1 l1]|] eqn:E1; [|done].
  destruct (format msg (app_formatter a) (Line [] cs'.1 cs'.2)) as [[f2 l2]|] eqn:E2; [|discriminate Hf].
  destruct (format_fresh _ _ _ _ _ _ _ _ _ _ E1 E2) as [Hown Hl]. injection Hf as <- Hd. cbn [mbind option_bind].
  pose proof (Hp id a Ea) as Hs. unfold coloured_alone in Hs.
  assert (forall snk w, coloured_alone (LogAppender (app_level a) f1 snk) ->
    fresh_sinks (Sinks (<[id := LogAppender (app_level a) f1 snk]> (appenders o)) w)) as Hput.
  { intros snk w Hc id' a'. cbn. intros [[_ <-]|[_ Hl']]%lookup_insert_Some; [done|by apply (Hp id')]. }
  destruct (app_sink a) as [enable shown|cfg fa].
  - assert (console_write enable (level msg) l1 shown = console_write enable (level msg) l2 shown) as <-.
    { destruct enable; [by rewrite Hl|]. unfold console_write. cbn [andb]. by rewrite Hd. }
    destruct (console_write _ _ _ _) as [shown'|]; [|done].
    cbn [mbind option_bind]. intros [= <- <-]. split; [|by eexists]. apply Hput. unfold coloured_alone. cbn.
    destruct enable; [by rewrite Hown|done].
  - rewrite <- Hd. destruct (write _ _ _ _ _ _ _ _ _) as [fa' w]. cbn [mbind option_bind]. intros [= <- <-].
    split; [by apply Hput|by eexists].
Qed.

Lemma backend_log_colors ids msg cs cs' o o' ds :
  fresh_sinks o -> backend_log ids msg cs o = Some (o', ds) ->
  fresh_sinks o' /\ exists ds', backend_log ids msg cs' o = Some (o', ds').
Proof.
  revert cs cs' o. induction ids as [|id ids IH]; intros cs cs' o Hp; cbn [backend_log].
  - intros [= <- <-]. split; [done|by exists cs'].
  - intros H. apply bind_Some in H as ([o1 cs1] & H1 & H). destruct (appender_log_colors _ _ _ cs' _ _ _ Hp H1) as (Hp1 & cs2 & ->).
    cbn [mbind option_bind]. by apply (IH cs1 cs2).
Qed.

(** * Histories of messages *)

Inductive event := Log (id : nat) (msg : log_message) | Turn.

Definition step (s : option log_system) (e : event) : option log_system :=
  s ← s; match e with Log id msg => logger_log id msg s | Turn => writer_message s end.

(** The messages that pass the levels of their loggers. *)
Definition accepted (ls : gmap nat logger) (evs : list event) : list (nat * log_message) :=
  omap (fun e => match e with
                 | Log id msg => l ← ls !! id; if should_log (level msg) (logger_level l) then Some (id, msg) else None
                 | Turn => None
                 end) evs.

(** The messages written one after the other, as loggers that are not
    asynchronous write them. *)
Fixpoint write_all (ls : gmap nat logger) (ms : list (nat * log_message)) (o : sinks) : option sinks :=
  match ms with
  | [] => Some o
  | (id, msg) :: ms => l ← ls !! id; '(o, _) ← backend_log (logger_appenders l) msg (0, 0) o; write_all ls ms o
  end.

Lemma write_all_app ls ms1 ms2 o : write_all ls (ms1 ++ ms2) o = (o ← write_all ls ms1 o; write_all ls ms2 o).
Proof.
  revert o. induction ms1 as [|[id msg] ms1 IH]; intros o; [done|]. cbn [app write_all].
  destruct (ls !! id) as [l|]; [|done]. cbn [mbind option_bind].
  destruct (backend_log _ _ _ _) as [[o1 ?]|]; [|done]. cbn [mbind option_bind]. apply IH.
Qed.

Definition all_async (ls : gmap nat logger) (evs : list event) : Prop :=
  Forall (fun e => match e with Log id _ => exists l, ls !! id = Some l /\ async l = true | Turn => True end) evs.

(** Between the messages already written and those that wait. *)
Definition behind (s0 : log_system) (waiting : list (nat * log_message)) (ms : list (nat * log_message)) (s : log_system) : Prop :=
  loggers s = loggers s0 /\ fresh_sinks (out s) /\
  (fun n => (owner n, tp n, body n)) <$> writer_queue_ s = (fun p => (Some p.1, log, p.2)) <$> waiting /\
  exists done, ms = done ++ waiting /\ write_all (loggers s0) done (out s0) = Some (out s).

Lemma behind_log s0 waiting ms s id msg l :
  behind s0 waiting ms s -> loggers s0 !! id = Some l -> async l = true ->
  exists s', logger_log id msg s = Some s' /\
    let new := if should_log (level msg) (logger_level l) then [(id, msg)] else [] in behind s0 (waiting ++ new) (ms ++ new) s'.
Proof.
  intros (Hl & Hp & Hq & dn & -> & Hd) Hid Ha. unfold logger_log. rewrite Hl, Hid. cbn [mbind option_bind].
  destruct (should_log (level msg) (logger_level l)).
  - rewrite Ha. assert (exists cs pooled s1, new_message s = (cs, pooled, s1) /\ loggers s1 = loggers s /\ out s1 = out s /\
      writer_queue_ s1 = writer_queue_ s) as (cs & pooled & s1 & -> & El & Eo & Eq).
    { unfold new_message. destruct (pool_ s); by eexists _, _, _. }
    eexists. split; [reflexivity|]. split; [cbn; by rewrite El|]. split; [cbn; by rewrite Eo|]. split.
    + unfold send. cbn [writer_queue_ set_queue]. by rewrite Eq, !fmap_app, Hq.
    + exists dn. split; [by rewrite (app_assoc (A := nat * log_message))|]. cbn. by rewrite Eo.
  - eexists. split; [reflexivity|]. cbn. rewrite !(app_nil_r (A := nat * log_message)). split; [done|]. split; [done|]. split; [done|]. by exists dn.
Qed.

Lemma release_message_fields cs p s :
  loggers (release_message cs p s) = loggers s /\ out (release_message cs p s) = out s /\
  writer_queue_ (release_message cs p s) = writer_queue_ s.
Proof. unfold release_message. by destruct p. Qed.

Lemma behind_turn s0 waiting ms s o :
  behind s0 waiting ms s -> write_all (loggers s0) ms (out s0) = Some o ->
  exists s', writer_message s = Some s' /\ behind s0 (drop 1 waiting) ms s'.
Proof.
  intros (Hl & Hp & Hq & dn & -> & Hd) Hall. unfold writer_message. destruct waiting as [|[id msg] waiting].
  - destruct (writer_queue_ s) eqn:Eq; [|done]. exists s. split; [reflexivity|]. split; [done|]. split; [done|]. split; [by rewrite Eq|]. by exists dn.
  - destruct (writer_queue_ s) as [|n q]; [done|]. cbn in Hq. injection Hq as Ho Ht Hb Hq. rewrite Ho, Ht.
    rewrite write_all_app, Hd in Hall. cbn [mbind option_bind write_all] in Hall.
    apply bind_Some in Hall as (l & El & Hall). apply bind_Some in Hall as ([o1 ds] & Hb1 & _).
    cbn [loggers set_queue]. rewrite Hl, El. cbn [mbind option_bind out set_queue]. rewrite Hb.
    destruct (backend_log_colors _ _ _ (colors n) _ _ _ Hp Hb1) as (Hp1 & ds' & ->). cbn [mbind option_bind].
    eexists. split; [reflexivity|]. destruct (release_message_fields ds' (pooled n) (set_out o1 (set_queue q s))) as (E1 & E2 & E3).
    split; [by rewrite E1|]. split; [by rewrite E2|]. split; [by rewrite E3|].
    exists (dn ++ [(id, msg)]). split; [by rewrite <- (app_assoc (A := nat * log_message))|].
    rewrite write_all_app, Hd. cbn [mbind option_bind write_all]. rewrite El. cbn [mbind option_bind]. rewrite Hb1. cbn. by rewrite E2.
Qed.

Lemma history_behind evs s0 waiting ms s o :
  behind s0 waiting ms s -> all_async (loggers s0) evs ->
  write_all (loggers s0) (ms ++ accepted (loggers s0) evs) (out s0) = Some o ->
  exists s' waiting', foldl step (Some s) evs = Some s' /\ behind s0 waiting' (ms ++ accepted (loggers s0) evs) s'.
Proof.
  revert waiting ms s. induction evs as [|e evs IH]; intros waiting ms s Hb Ha Hall.
  - exists s, waiting. cbn. by rewrite (app_nil_r (A := nat * log_message)).
  - inversion_clear Ha as [|?? He Ha']. destruct e as [id msg|].
    + destruct He as (l & El & Easync). destruct (behind_log s0 waiting ms s id msg l Hb El Easync) as (s' & Hs' & Hb').
      assert (accepted (loggers s0) (Log id msg :: evs) =
              (if should_log (level msg) (logger_level l) then [(id, msg)] else []) ++ accepted (loggers s0) evs) as Eacc.
      { unfold accepted. cbn. rewrite El. cbn. by destruct (should_log _ _). }
      rewrite Eacc, (app_assoc (A := nat * log_message)) in *. cbn [foldl step mbind option_bind]. rewrite Hs'.
      by eapply IH.
    + change (accepted (loggers s0) (Turn :: evs)) with (accepted (loggers s0) evs) in *.
      pose proof Hall as Hms. rewrite write_all_app in Hms. apply bind_Some in Hms as (o1 & Hms & _).
      destruct (behind_turn s0 waiting ms s o1 Hb Hms) as (s' & Hs' & Hb').
      cbn [foldl step mbind option_bind]. rewrite Hs'. by eapply IH.
Qed.

Lemma drain_behind s0 waiting ms s o :
  behind s0 waiting ms s -> write_all (loggers s0) ms (out s0) = Some o ->
  exists s', foldl step (Some s) (replicate (length waiting) Turn) = Some s' /\ out s' = o /\ writer_queue_ s' = [].
Proof.
  revert s. induction waiting as [|p waiting IH]; intros s Hb Hall.
  - destruct Hb as (_ & _ & Hq & dn & -> & Hd). rewrite (app_nil_r (A := nat * log_message)), Hd in Hall. injection Hall as <-.
    exists s. split; [done|]. split; [done|]. by destruct (writer_queue_ s).
  - destruct (behind_turn s0 _ ms s o Hb Hall) as (s' & Hs' & Hb'). cbn [length replicate foldl step mbind option_bind].
    rewrite Hs'. by apply IH.
Qed.

End system.

(** * The registry *)

(** A registered logger exists and is found under its own name. *)
Definition registry_ok (s : log_system) : Prop := forall n id, loggers_ s !! n = Some id -> name_of_logger s id = Some n.

(** The default logger exists. *)
Definition default_ok (s : log_system) : Prop := forall id, default_logger_ s = Some id -> is_Some (loggers s !! id).

Definition with_level (v : log_level) (l : logger) : logger := Logger (logger_name l) (async l) v (logger_appenders l).

Lemma set_logger_level_some id v s l :
  loggers s !! id = Some l -> set_logger_level id v s = Some (set_loggers (<[id := with_level v l]> (loggers s)) s).
Proof. intros Hl. unfold set_logger_level. by rewrite Hl. Qed.

Lemma name_of_logger_level s id v l id' :
  loggers s !! id = Some l -> logger_name <$> (<[id := with_level v l]> (loggers s) !! id') = name_of_logger s id'.
Proof.
  intros Hl. unfold name_of_logger. destruct (decide (id' = id)) as [->|Hne].
  - by rewrite lookup_insert_eq, Hl.
  - by rewrite lookup_insert_ne by done.
Qed.

Lemma insert_loggers_ok id s :
  registry_ok s -> default_ok s -> is_Some (loggers s !! id) ->
  exists s', insert_loggers id s = Some s' /\ registry_ok s' /\ default_ok s' /\ loggers s' = loggers s /\
    exists n, name_of_logger s id = Some n /\ find n s' = Some id.
Proof.
  intros H Hd [l Hl]. unfold insert_loggers, name_of_logger at 1. rewrite Hl. cbn. eexists. split; [reflexivity|].
  repeat split; [|done|].
  - intros n id'. cbn. intros Hn. apply lookup_insert_Some in Hn as [[<- <-]|[_ Hn]]; [|by apply H].
    unfold name_of_logger. cbn. by rewrite Hl.
  - exists (logger_name l). unfold name_of_logger, find. rewrite Hl. cbn. by rewrite lookup_insert_eq.
Qed.

Lemma drop_logger_ok name s :
  registry_ok s -> default_ok s ->
  exists s', drop_logger name s = Some s' /\ registry_ok s' /\ default_ok s' /\ find name s' = None /\
    (forall id, default_logger_ s' = Some id -> name_of_logger s' id <> Some name).
Proof.
  intros H Hd. unfold drop_logger. set (s1 := set_names _ s).
  assert (registry_ok s1) as H1 by (intros n id; cbn; intros Hn; apply lookup_delete_Some in Hn as [_ Hn]; by apply H).
  assert (find name s1 = None) as Hf by (unfold find; cbn; apply lookup_delete_eq).
  change (default_logger_ s1) with (default_logger_ s). destruct (default_logger_ s) as [id|] eqn:Ed.
  - destruct (Hd id Ed) as [l Hl]. unfold name_of_logger at 1. cbn [loggers s1 set_names]. rewrite Hl. cbn [fmap option_fmap option_map mbind option_bind].
    eexists. split; [reflexivity|]. destruct (decide (logger_name l = name)) as [E|E].
    + repeat split; [done|by intros ?|done|by intros ?].
    + split; [done|]. split; [done|]. split; [done|]. intros id'. cbn. rewrite Ed. intros [= <-].
      unfold name_of_logger. cbn. rewrite Hl. cbn. congruence.
  - eexists. split; [reflexivity|]. repeat split; [done|..].
    + intros id. cbn. by rewrite Ed.
    + done.
    + intros id. cbn. by rewrite Ed.
Qed.

(** After [set_default] the default logger is registered, the old one is not
    unless it has the same name. *)
Lemma set_default_ok id s :
  registry_ok s -> default_ok s -> is_Some (loggers s !! id) ->
  exists s' n, set_default (Some id) s = Some s' /\ registry_ok s' /\ default_ok s' /\ default_logger_ s' = Some id /\
    name_of_logger s' id = Some n /\ find n s' = Some id.
Proof.
  intros H Hd Hid. unfold set_default.
  assert (exists s1, match default_logger_ s with
      | Some old => n ← name_of_logger s old; Some (set_names (delete n (loggers_ s)) s)
      | None => Some s end = Some s1 /\ registry_ok s1 /\ default_ok s1 /\ loggers s1 = loggers s) as (s1 & -> & H1 & Hd1 & El).
  { destruct (default_logger_ s) as [old|] eqn:Ed; [|by exists s]. destruct (Hd old Ed) as [l Hl].
    unfold name_of_logger at 1. rewrite Hl. cbn. eexists. split; [reflexivity|]. repeat split; [|done].
    intros n id'. cbn. intros Hn. apply lookup_delete_Some in Hn as [_ Hn]. by apply H. }
  cbn [mbind option_bind]. rewrite <- El in Hid.
  destruct (insert_loggers_ok id s1 H1 Hd1 Hid) as (s2 & -> & H2 & Hd2 & El2 & n & Hn & Hf).
  cbn [mbind option_bind]. exists (set_default_logger (Some id) s2), n. split; [done|]. split; [done|]. split.
  - intros id'. cbn. intros [= <-]. by rewrite El2.
  - split; [done|]. split; [|done]. unfold name_of_logger in *. cbn. by rewrite El2.
Qed.

(** Changing the levels of the registered loggers one after the other, each to
    a level its name and its old level decide. *)
Section levels.

Context (F : bytes -> log_level -> log_level) (HF : forall n v, F n (F n v) = F n v).
Context (f : bytes -> nat -> log_system -> option log_system) (keep : log_system -> log_system -> Prop).
Context (Hkeep : forall s1 s2 s3, keep s1 s2 -> keep s2 s3 -> keep s1 s3) (Hrefl : forall s, keep s s).
Context (s0 : log_system).
Context (Hf : forall s n id l, keep s0 s -> loggers s !! id = Some l -> logger_name l = n ->
  exists s', f n id s = Some s' /\ keep s s' /\ loggers s' = <[id := with_level (F n (logger_level l)) l]> (loggers s)).

Definition levelled (ids : list nat) (s s' : log_system) : Prop :=
  dom (loggers s') = dom (loggers s) /\
  forall id l, loggers s !! id = Some l -> exists v, loggers s' !! id = Some (with_level v l) /\
    (v = logger_level l \/ v = F (logger_name l) (logger_level l)) /\
    (id ∈ ids -> v = F (logger_name l) (logger_level l)).

Lemma levels_fold es s :
  keep s0 s -> Forall (fun e => name_of_logger s e.2 = Some e.1) es ->
  exists s', foldl (fun r e => s ← r; f e.1 e.2 s) (Some s) es = Some s' /\ keep s s' /\ levelled (snd <$> es) s s'.
Proof.
  revert s. induction es as [|[n id] es IH]; intros s Hk Hes.
  - exists s. split; [done|]. split; [done|]. split; [done|]. intros id l Hl. exists (logger_level l).
    split; [by destruct l|]. split; [by left|]. intros Hin. by apply not_elem_of_nil in Hin.
  - apply list.Forall_cons in Hes as [He Hes]. cbn in He. unfold name_of_logger in He.
    destruct (loggers s !! id) as [l|] eqn:El; [|done]. injection He as He.
    destruct (Hf s n id l Hk El He) as (s1 & Hs1 & Hk1 & El1).
    destruct (IH s1) as (s' & Hs' & Hk' & Hdom & Hl').
    + by eapply Hkeep.
    + eapply list.Forall_impl; [exact Hes|]. intros e Hn. unfold name_of_logger at 1. by rewrite El1, name_of_logger_level.
    + exists s'. cbn [foldl fst snd mbind option_bind]. rewrite Hs1. split; [done|]. split; [by eapply Hkeep|]. split.
      * rewrite Hdom, El1. apply dom_insert_lookup_L. by exists l.
      * intros id' l' Hid'. destruct (decide (id' = id)) as [->|Hne].
        -- rewrite El in Hid'. injection Hid' as <-.
           destruct (Hl' id (with_level (F n (logger_level l)) l)) as (v & Hv & Hor & _); [by rewrite El1, lookup_insert_eq|].
           exists v. split; [done|]. cbn in Hor. rewrite He, HF in *.
           assert (v = F n (logger_level l)) as -> by (by destruct Hor). by split; [right|].
        -- destruct (Hl' id' l') as (v & Hv & Hor & Hin); [by rewrite El1, lookup_insert_ne|].
           exists v. split; [done|]. split; [done|]. intros Hi. apply Hin. by apply elem_of_cons in Hi as [?|?].
Qed.

End levels.

(** Nothing but the stores of loggers differs. *)
Definition same_but_loggers (s s' : log_system) : Prop := s' = set_loggers (loggers s') s.

Lemma same_but_loggers_refl s : same_but_loggers s s.
Proof. by destruct s. Qed.

Lemma same_but_loggers_trans s1 s2 s3 : same_but_loggers s1 s2 -> same_but_loggers s2 s3 -> same_but_loggers s1 s3.
Proof. unfold same_but_loggers. intros E1 E2. by rewrite E2, E1. Qed.

Lemma same_but_loggers_ok s s' ids F : same_but_loggers s s' -> levelled F ids s s' -> registry_ok s -> registry_ok s'.
Proof.
  intros E [_ Hl] H n id. unfold same_but_loggers in E. rewrite E at 1. cbn. intros Hn. specialize (H n id Hn).
  unfold name_of_logger in *. destruct (loggers s !! id) as [l|] eqn:El; [|done]. destruct (Hl id l El) as (v & Hv & _).
  by rewrite Hv.
Qed.

Lemma registered_names s : registry_ok s -> Forall (fun e => name_of_logger s e.2 = Some e.1) (map_to_list (loggers_ s)).
Proof. intros H. apply list.Forall_forall. intros [n id] Hin. apply elem_of_map_to_list in Hin. by apply H. Qed.

Lemma registered_ids s n id : loggers_ s !! n = Some id -> id ∈ snd <$> map_to_list (loggers_ s).
Proof. intros Hn. apply list_elem_of_fmap. exists (n, id). split; [done|]. by apply elem_of_map_to_list. Qed.

(** Setting the levels reaches every registered logger and keeps the
    registry: a logger that the table names has its level from the table, any
    other the global level when one is given, else the level it had. *)
Theorem set_levels_current levels gl s :
  registry_ok s ->
  exists s', set_levels levels gl s = Some s' /\ registry_ok s' /\ loggers_ s' = loggers_ s /\
    log_levels_ s' = levels /\ global_level_ s' = default (global_level_ s) gl /\
    forall n id l, find n s = Some id -> loggers s !! id = Some l ->
      loggers s' !! id = Some (with_level (default (default (logger_level l) gl) (levels !! n)) l).
Proof.
  intros H. unfold set_levels. set (s1 := match gl with Some _ => _ | None => _ end).
  assert (registry_ok s1 /\ loggers s1 = loggers s /\ loggers_ s1 = loggers_ s /\ log_levels_ s1 = levels /\
          global_level_ s1 = default (global_level_ s) gl) as (H1 & El & En & Ev & Eg) by (unfold s1; by destruct gl).
  set (F := fun n v => default (default v gl) (levels !! n)).
  assert (forall n v, F n (F n v) = F n v) as HF by (intros n v; unfold F; by destruct (levels !! n), gl).
  set (g := fun name id s => match log_levels_ s !! name with
                             | Some l => set_logger_level id l s
                             | None => match gl with Some _ => set_logger_level id (global_level_ s) s | None => Some s end
                             end).
  assert (forall s2 n id l, same_but_loggers s1 s2 -> loggers s2 !! id = Some l -> logger_name l = n ->
          exists s', g n id s2 = Some s' /\ same_but_loggers s2 s' /\
                     loggers s' = <[id := with_level (F n (logger_level l)) l]> (loggers s2)) as Hg.
  { intros s2 n id l Hk Hl Hn. unfold same_but_loggers in Hk. unfold g.
    replace (log_levels_ s2) with levels by (rewrite Hk; cbn; by rewrite Ev).
    replace (global_level_ s2) with (default (global_level_ s) gl) by (rewrite Hk; cbn; by rewrite Eg).
    unfold F. destruct (levels !! n) as [v|]; cbn [default]; unfold Datatypes.id.
    - rewrite (set_logger_level_some id v s2 l Hl). eexists. split; [reflexivity|]. by split.
    - destruct gl as [v|]; cbn [default]; unfold Datatypes.id.
      + rewrite (set_logger_level_some id v s2 l Hl). eexists. split; [reflexivity|]. by split.
      + exists s2. split; [done|]. split; [apply same_but_loggers_refl|]. rewrite insert_id; [done|]. rewrite Hl. by destruct l. }
  destruct (levels_fold F HF g same_but_loggers same_but_loggers_trans same_but_loggers_refl s1 Hg (map_to_list (loggers_ s1)) s1
              (same_but_loggers_refl s1) (registered_names s1 H1)) as (s' & Hs' & Hsame & Hlev).
  exists s'. unfold each_logger. rewrite Hs'. split; [done|]. split; [exact (same_but_loggers_ok s1 s' _ F Hsame Hlev H1)|].
  unfold same_but_loggers in Hsame. rewrite Hsame. cbn. rewrite En, Ev, Eg. split; [done|]. split; [done|]. split; [done|].
  intros n id l Hn Hl. unfold find in Hn. pose proof (H n id Hn) as Hname. unfold name_of_logger in Hname. rewrite Hl in Hname.
  injection Hname as Hname. rewrite <- El in Hl. destruct Hlev as [_ Hlev]. destruct (Hlev id l Hl) as (v & Hv & _ & Hin).
  rewrite Hin in Hv by (apply (registered_ids s1 n); by rewrite En). rewrite Hv. unfold F. by rewrite Hname.
Qed.

(** Two loggers, one of which the new table names. *)
Lemma set_levels_current_witness :
  let a := Logger (str "a") false info [0%nat] in
  let b := Logger (str "b") true error [0%nat] in
  let s0 := new_system false (World ∅ []) 4 in
  let s := set_names {[str "a" := 1%nat; str "b" := 2%nat]} (set_loggers {[1%nat := a; 2%nat := b]} s0) in
  exists s', set_levels {[str "b" := debug]} None s = Some s' /\
    loggers s' !! 1%nat = Some (with_level info a) /\ loggers s' !! 2%nat = Some (with_level debug b).
Proof.
  intros a b s0 s. destruct (set_levels_current {[str "b" := debug]} None s) as (s' & Hs' & _ & _ & _ & _ & Hl).
  - intros n id. unfold s. cbn [loggers_ set_names]. intros Hn.
    apply lookup_insert_Some in Hn as [[<- <-]|[_ Hn]]; [reflexivity|].
    apply lookup_singleton_Some in Hn as [<- <-]. reflexivity.
  - exists s'. split; [exact Hs'|]. split.
    + exact (Hl (str "a") 1%nat a eq_refl eq_refl).
    + exact (Hl (str "b") 2%nat b eq_refl eq_refl).
Defined.

(** C24: however the log calls of asynchronous loggers and the turns of the
    writer alternate, what is on the consoles, colours included, and in the files
    is what writing the first accepted messages at once would have given, in the
    order of the calls; the rest wait in the queue in their order, and once the
    writer has taken them everything is written. The consoles that colour have
    patterns with both colour marks, or the default one; without both, the code
    uses the positions an earlier message left in the pooled object
    ([colors_of_an_old_message]). *)
Theorem async_log_in_order format_int count_digits format_02 localtime gmtime custom_format pid date_text can_open s evs o :
  let step := step format_int count_digits format_02 localtime gmtime custom_format pid date_text can_open in
  let write_all := write_all format_int count_digits format_02 localtime gmtime custom_format pid date_text can_open in
  writer_queue_ s = [] -> fresh_sinks (out s) -> all_async (loggers s) evs ->
  write_all (loggers s) (accepted (loggers s) evs) (out s) = Some o ->
  exists s1, foldl step (Some s) evs = Some s1 /\
    (exists done waiting, accepted (loggers s) evs = done ++ waiting /\ write_all (loggers s) done (out s) = Some (out s1) /\
       (fun n => (owner n, tp n, body n)) <$> writer_queue_ s1 = (fun p => (Some p.1, log, p.2)) <$> waiting) /\
    exists s2, foldl step (Some s1) (replicate (length (writer_queue_ s1)) Turn) = Some s2 /\ out s2 = o /\ writer_queue_ s2 = [].
Proof.
  intros step write_all Hq Hp Ha Hall.
  assert (behind format_int count_digits format_02 localtime gmtime custom_format pid date_text can_open s [] [] s) as Hb.
  { split; [done|]. split; [done|]. split; [by rewrite Hq|]. by exists []. }
  destruct (history_behind _ _ _ _ _ _ _ _ _ evs s [] [] s o Hb Ha Hall) as (s1 & waiting & Hs1 & Hb1).
  exists s1. split; [exact Hs1|]. destruct Hb1 as (Hl1 & Hp1 & Hq1 & dn & Edn & Hd1). split; [by exists dn, waiting|].
  assert (length (writer_queue_ s1) = length waiting) as ->.
  { apply (f_equal length) in Hq1. by rewrite !length_fmap in Hq1. }
  apply (drain_behind _ _ _ _ _ _ _ _ _ s waiting (accepted (loggers s) evs) s1 o); [|exact Hall].
  split; [done|]. split; [done|]. split; [done|]. by exists dn.
Qed.

(** A logger with a console that colours and a file, two messages and a turn
    between them. *)
Lemma async_log_in_order_witness :
  let cal _ := Tm 0 0 0 1 0 124 0 0 in
  let cfg := Config (str "log") [] [] 0 utc false in
  let f := default (default_formatter local) (pattern_formatter 7 (fun _ => 0) (str "%^%l%$ %v") local) in
  let sinks := Sinks {[0%nat := LogAppender trace f (console true []);
                       1%nat := LogAppender warn f (file cfg (Appender 0 (cal 0) 0 0 0 [] false))]} (World ∅ []) in
  let msg l (t : String.string) := Msg None l (5 * second) 1 [] 0 [] (str t) in
  let s := set_out sinks (set_loggers {[3%nat := Logger (str "a") true info [0%nat; 1%nat]]} (new_system false (World ∅ []) 4)) in
  let evs := [Log 3 (msg info "one"%string); Turn; Log 3 (msg debug "no"%string); Log 3 (msg error "two"%string)] in
  let step := step to_string (fun n => zlen (to_string n)) to_string cal cal (fun _ _ _ _ d => d) 7 (fun _ => []) true in
  exists s1 s2, foldl step (Some s) evs = Some s1 /\ length (writer_queue_ s1) = 1%nat /\
    foldl step (Some s1) [Turn] = Some s2 /\ writer_queue_ s2 = [] /\
    app_sink <$> appenders (out s2) !! 0%nat = 
      Some (console true (escape (str "[32m") ++ str "info" ++ console_color_reset ++ str " one" ++ [10] ++
                          escape (str "[31m") ++ escape (str "[1m") ++ str "error" ++ console_color_reset ++ str " two" ++ [10])).
Proof.
  intros cal cfg f sinks msg s evs step.
  destruct (write_all to_string (fun n => zlen (to_string n)) to_string cal cal (fun _ _ _ _ d => d) 7 (fun _ => []) true
              (loggers s) (accepted (loggers s) evs) (out s)) as [o|] eqn:Ho; [|vm_compute in Ho; discriminate Ho].
  destruct (async_log_in_order to_string (fun n => zlen (to_string n)) to_string cal cal (fun _ _ _ _ d => d) 7 (fun _ => []) true s evs o)
    as (s1 & Hs1 & (dn & waiting & _ & _ & Hq) & s2 & Hs2 & Ho2 & Hq2).
  - reflexivity.
  - intros id a. unfold s, sinks. cbn [out set_out set_loggers appenders]. intros Hl.
    apply lookup_insert_Some in Hl as [[_ <-]|[_ Hl]]; [reflexivity|]. apply lookup_singleton_Some in Hl as [_ <-]. exact I.
  - repeat apply list.Forall_cons_2; [..|apply list.Forall_nil_2]; first [exact I | eexists; split; reflexivity].
  - exact Ho.
  - exists s1, s2. split; [exact Hs1|].
    assert (length (writer_queue_ s1) = 1%nat) as El.
    { apply (f_equal (fun r => match r with Some s => length (writer_queue_ s) | None => O end)) in Hs1. cbv beta iota in Hs1. rewrite <- Hs1. vm_compute. reflexivity. }
    rewrite El in Hs2. split; [exact El|]. split; [exact Hs2|]. split; [exact Hq2|]. rewrite Ho2.
    apply (f_equal (fun r => match r with Some o => app_sink <$> appenders o !! 0%nat | None => None end)) in Ho. cbv beta iota in Ho. rewrite <- Ho.
    vm_compute. reflexivity.
Defined.

(** * The writer's clock *)

(** While flushes are wanted, the writer waits at least a second and at most
    the interval, so it never waits for ever, and it flushes on time. *)
Lemma writer_clock_bounded current interval w :
  0 < interval -> last_flush w <= current ->
  let '(w', flushes) := writer_clock current interval w in
  0 < dur w' <= interval /\ current - last_flush w' < interval /\ (flushes = true <-> interval <= current - last_flush w).
Proof.
  intros Hi Hc. unfold writer_clock. rewrite (proj2 (Z.ltb_lt 0 interval)) by done.
  destruct (Z.leb_spec interval (current - last_flush w)); cbn; split_and!; try lia; split; intros; (done || lia).
Qed.

(** With an interval of zero it waits until it is notified. *)
Lemma writer_clock_zero current w : 0 < last_interval w -> dur (fst (writer_clock current 0 w)) = 0.
Proof. intros Hl. unfold writer_clock. cbn. by rewrite (proj2 (Z.ltb_lt 0 _)). Qed.

(** * Surprises *)

(** The colour positions of one appender are used by the next: the second
    console, whose pattern has no colour marks, would write from beyond the end
    of its line. *)
Example colors_of_another_line :
  let cal _ := Tm 0 0 0 1 0 124 0 0 in
  let f (p : String.string) := default (default_formatter local) (pattern_formatter 7 (fun _ => 0) (str p) local) in
  let o := Sinks {[0%nat := LogAppender trace (f "%^%l%$ %v"%string) (console true []);
                   1%nat := LogAppender trace (f "%v"%string) (console true [])]} (World ∅ []) in
  let msg := Msg None critical (5 * second) 1 [] 0 [] (str "x") in
  let go ids := backend_log to_string (fun n => zlen (to_string n)) to_string cal cal (fun _ _ _ _ d => d) 7 (fun _ => []) true ids msg (0, 0) o in
  go [0%nat; 1%nat] = None /\ is_Some (go [1%nat]) /\ is_Some (go [0%nat]).
Proof. vm_compute. split; [reflexivity|]. split; eexists; reflexivity. Qed.

(** An asynchronous logger whose console colours without marks in its pattern:
    the second message is in the pooled object of the first, of a logger with
    marks, and is coloured where that one was. At once, as loggers that are not
    asynchronous write, it has no colours. *)
Example colors_of_an_old_message :
  let cal _ := Tm 0 0 0 1 0 124 0 0 in
  let f (p : String.string) := default (default_formatter local) (pattern_formatter 7 (fun _ => 0) (str p) local) in
  let sinks := Sinks {[0%nat := LogAppender trace (f "%^%l%$ %v"%string) (console true []);
                       1%nat := LogAppender trace (f "%v"%string) (console true [])]} (World ∅ []) in
  let msg := Msg None info (5 * second) 1 [] 0 [] (str "hello") in
  let loggers := {[1%nat := Logger (str "a") true info [0%nat]; 2%nat := Logger (str "b") true info [1%nat]]} in
  let s := set_out sinks (set_loggers loggers (new_system false (World ∅ []) 1)) in
  let show := fmap (fun a => app_sink a) in
  let step := step to_string (fun n => zlen (to_string n)) to_string cal cal (fun _ _ _ _ d => d) 7 (fun _ => []) true in
  (fun s => show (appenders (out s) !! 1%nat)) <$> foldl step (Some s) [Log 1 msg; Turn; Log 2 msg; Turn] =
    Some (Some (console true (escape (str "[32m") ++ str "hell" ++ console_color_reset ++ str "o" ++ [10]))) /\
  (fun o => show (appenders o !! 1%nat)) <$>
    write_all to_string (fun n => zlen (to_string n)) to_string cal cal (fun _ _ _ _ d => d) 7 (fun _ => []) true
      loggers [(1%nat, msg); (2%nat, msg)] sinks = Some (Some (console true (str "hello" ++ [10]))).
Proof. vm_compute. split; reflexivity. Qed.

(** [initialize_logger] before a formatter was set follows a null pointer. *)
Example initialize_needs_formatter pid now : initialize_logger pid now 0 (new_system false (World ∅ []) 4) = None.
Proof. reflexivity. Qed.

(** What the writer has not taken when the system ends is not written. *)
Lemma shutdown_drops s : out (shutdown s) = out s /\ writer_queue_ (shutdown s) = [].
Proof.
  split; [|done]. unfold shutdown. cbn. generalize (writer_queue_ s). intros q. revert s.
  induction q as [|n q IH]; intros s; [done|]. cbn [foldl]. rewrite IH. apply release_message_fields.
Qed.

(** A logger registered under the name of the default one takes its place in
    the registry but not as the default, and levels no longer reach the
    default. *)
Example default_out_of_reach :
  let s := new_system false (World ∅ []) 4 in
  let s := set_loggers (<[1%nat := Logger [] false trace []]> (loggers s)) s in
  exists s', (s1 ← register_logger 1 s; set_level off s1) = Some s' /\
    default_logger_ s' = Some 0%nat /\ logger_level <$> loggers s' !! 0%nat = Some trace.
Proof. eexists. vm_compute. split; [reflexivity|]. split; reflexivity. Qed.
