(* ===== verification/Toml.v ===== *)
(** The values of the TOML library (toml11), as the program reads them: parsed
    already, a table having every key once, in the order of its iteration. *)

From S2P Require Import Prelude.

#[warnings="-register-all"]
Inductive toml :=
  | toml_string (s : bytes) | toml_boolean (b : bool) | toml_integer (n : Z)
  | toml_array (l : list toml) | toml_table (t : list (bytes * toml)).

Abbreviation table := (list (bytes * toml)).

Fixpoint table_find (key : bytes) (t : table) : option toml :=
  match t with
  | [] => None
  | (k, v) :: t => if decide (k = key) then Some v else table_find key t
  end.

(** [it != end() && it->second.is_string()], and the others. *)
Definition find_string (key : bytes) (t : table) : option bytes :=
  match table_find key t with Some (toml_string s) => Some s | _ => None end.

Definition find_integer (key : bytes) (t : table) : option Z :=
  match table_find key t with Some (toml_integer n) => Some n | _ => None end.

Definition find_array (key : bytes) (t : table) : option (list toml) :=
  match table_find key t with Some (toml_array l) => Some l | _ => None end.
