(* ===== verification/LogConfig.v ===== *)
(** Setting the log up from its configuration: src/log/log.cpp. A table of the
    configuration describes a logger; its appenders inherit the pattern, the
    time and the level it does not give them, and it inherits those of the root.
    The values are those of the TOML library; reading the file and parsing it
    are the library's. *)

From Stdlib Require Import (notations) String.
From stdpp Require Import gmap.
From S2P Require Import Prelude Stream Toml LogFlags LogFormatter FileAppender LogSystem.

(** [read_table_value] for the three types: the value when the key has one of
    this type. *)
Definition read_string (key : bytes) (t : table) : option bytes :=
  match table_find key t with Some (toml_string s) => Some s | _ => None end.

Definition read_boolean (key : bytes) (t : table) : option bool :=
  match table_find key t with Some (toml_boolean b) => Some b | _ => None end.

Definition read_integer (key : bytes) (t : table) : option Z :=
  match table_find key t with Some (toml_integer n) => Some n | _ => None end.

Record log_config_simple := LogConfig { pattern : bytes; time_type : log_time_type; level : log_level }.

Definition with_pattern (p : bytes) (tp : log_time_type) (c : log_config_simple) : log_config_simple := LogConfig p tp (level c).

(** [read_pattern_and_time_type]. An empty first string empties the pattern and
    leaves the time. *)
Definition read_pattern_and_time_type (c : log_config_simple) (t : table) : log_config_simple :=
  match table_find (str "pattern") t with
  | Some (toml_array (toml_string p :: rest)) =>
    if decide (p = []) then with_pattern [] (time_type c) c
    else match rest with
    | toml_string tp :: _ => with_pattern p (log_time_from_string_view tp) c
    | _ => with_pattern p (time_type c) c
    end
  | _ => c
  end.

Definition read_level (c : log_config_simple) (t : table) : log_config_simple :=
  match read_string (str "level") t with
  | Some s => if decide (s = []) then c else LogConfig (pattern c) (time_type c) (log_level_from_string_view s)
  | None => c
  end.

(** What the table of an appender asks for. *)
Inductive target := to_stdout | to_stderr | to_file (cfg : config).

Record appender_config := AppenderConfig { common : log_config_simple; app_target : target }.

Section config.

(** The name of the program, empty when it is not known. *)
Context (program_name : bytes).

(** The name of a file appender without one: the program, the logger, and from
    the second one on a number. *)
Definition default_name (logger_name : bytes) (id : Z) : bytes :=
  let numbered := if id =? 0 then [] else str "_" ++ to_string id in
  if decide (program_name = []) then logger_name ++ numbered
  else program_name ++ str "_" ++ logger_name ++ numbered.

(** [read_file_appender_config]; [atomic_id] counts the names made. *)
Definition read_file_appender_config (logger_name : bytes) (t : table) (atomic_id : Z) : config * Z :=
  let given := default [] (read_string (str "name") t) in
  let '(name, atomic_id) :=
    if decide (given = []) then (default_name logger_name atomic_id, u16 (atomic_id + 1)) else (given, atomic_id) in
  let directory key := let d := default [] (read_string key t) in if decide (d = []) then str "./" else d in
  let size := default 0 (read_integer (str "max_size") t) in
  let time := default [] (read_string (str "file_time") t) in
  (Config name (directory (str "log_directory")) (directory (str "lz4_directory")) (if 0 <? size then size else 0)
          (if decide (time = []) then local else log_time_from_string_view time)
          (default false (read_boolean (str "daily_roll") t)),
   atomic_id).

(** [create_appender_custom] on a system without the debugger's appender. *)
Definition create_appender_custom (c : log_config_simple) (logger_name : bytes) (t : table) (atomic_id : Z)
  : option appender_config * Z :=
  let custom := read_level (read_pattern_and_time_type c t) t in
  match read_string (str "type") t with
  | Some tp =>
    if decide (tp = str "stdout") then (Some (AppenderConfig custom to_stdout), atomic_id)
    else if decide (tp = str "stderr") then (Some (AppenderConfig custom to_stderr), atomic_id)
    else if decide (tp = str "file") then
      let '(cfg, atomic_id) := read_file_appender_config logger_name t atomic_id in
      (Some (AppenderConfig custom (to_file cfg)), atomic_id)
    else (None, atomic_id)
  | None => (None, atomic_id)
  end.

Fixpoint create_each (c : log_config_simple) (logger_name : bytes) (values : list toml) (atomic_id : Z)
  : list appender_config * Z :=
  match values with
  | [] => ([], atomic_id)
  | toml_table t :: values =>
    let '(a, atomic_id) := create_appender_custom c logger_name t atomic_id in
    let '(rest, atomic_id) := create_each c logger_name values atomic_id in
    (match a with Some a => a :: rest | None => rest end, atomic_id)
  | _ :: values => create_each c logger_name values atomic_id
  end.

Definition create_appenders_custom (c : log_config_simple) (logger_name : bytes) (t : table) (atomic_id : Z)
  : list appender_config * Z :=
  match table_find (str "appenders") t with
  | Some (toml_array values) => create_each c logger_name values atomic_id
  | _ => ([], atomic_id)
  end.

(** What a table of the root asks for: a logger with its appenders. *)
Record logger_config := LoggerConfig { custom_name : bytes; custom_async : bool; custom_level : log_level; custom_appenders : list appender_config }.

Definition create_logger_custom (global : log_config_simple) (name : bytes) (t : table) (atomic_id : Z) : option logger_config * Z :=
  let custom := read_level (read_pattern_and_time_type global t) t in
  let async := default false (read_boolean (str "async") t) in
  let '(appenders, atomic_id) := create_appenders_custom custom name t atomic_id in
  match appenders with
  | [] => (None, atomic_id)
  | _ => (Some (LoggerConfig name async (level custom) appenders), atomic_id)
  end.

Fixpoint create_loggers (global : log_config_simple) (root : table) (atomic_id : Z) : list logger_config * Z :=
  match root with
  | [] => ([], atomic_id)
  | (name, toml_table t) :: root =>
    let '(l, atomic_id) := create_logger_custom global name t atomic_id in
    let '(rest, atomic_id) := create_loggers global root atomic_id in
    (match l with Some l => l :: rest | None => rest end, atomic_id)
  | _ :: root => create_loggers global root atomic_id
  end.

(** The configuration of the root: a missing level is trace. *)
Definition read_global (root : table) : log_config_simple :=
  let c := read_pattern_and_time_type (LogConfig [] local trace) root in
  LogConfig (pattern c) (time_type c) (log_level_from_string_view (default [] (read_string (str "level") root))).

Section load.

Context (localtime gmtime : Z -> tm) (pid : Z) (now : nat -> Z) (clock : Z) (color : bool).

(** An appender with its formatter and level, in the store. *)
Definition make_appender (a : appender_config) (s : log_system) : option (nat * log_system) :=
  f ← pattern_formatter pid now (pattern (common a)) (time_type (common a));
  let snk := match app_target a with
             | to_stdout | to_stderr => console color []
             | to_file cfg => file cfg (new_appender localtime gmtime cfg clock)
             end in
  let id := fresh (dom (appenders (out s))) in
  Some (id, set_out (Sinks (<[id := LogAppender (level (common a)) f snk]> (appenders (out s))) (files (out s))) s).

Fixpoint make_appenders (l : list appender_config) (s : log_system) : option (list nat * log_system) :=
  match l with
  | [] => Some ([], s)
  | a :: l => '(id, s) ← make_appender a s; '(ids, s) ← make_appenders l s; Some (id :: ids, s)
  end.

Definition make_logger (l : logger_config) (s : log_system) : option (nat * log_system) :=
  '(ids, s) ← make_appenders (custom_appenders l) s;
  let id := fresh (dom (loggers s)) in
  Some (id, set_loggers (<[id := Logger (custom_name l) (custom_async l) (custom_level l) ids]> (loggers s)) s).

Fixpoint install (default_log : bytes) (ls : list logger_config) (s : log_system) : option log_system :=
  match ls with
  | [] => Some s
  | l :: ls =>
    '(id, s) ← make_logger l s;
    s ← (if decide (custom_name l = default_log) then set_default (Some id) s else register_logger id s);
    install default_log ls s
  end.

(** [load_log_config] after the file was read and parsed. *)
Definition load_log_config (root : table) (atomic_id : Z) (s : log_system) : option (log_system * Z) :=
  let s := drop_all s in
  let c := read_pattern_and_time_type (LogConfig [] local trace) root in
  s ← (if decide (pattern c = []) then Some s else set_pattern pid now (pattern c) (time_type c) s);
  let global := read_global root in
  s ← set_levels ∅ (Some (level global)) s;
  let default_log := default [] (read_string (str "default") root) in
  let '(ls, atomic_id) := create_loggers global root atomic_id in
  s ← install default_log ls s;
  match default_logger_ s with
  | Some _ => Some (s, atomic_id)
  | None =>
    f ← (if decide (pattern global = []) then Some (default_formatter local)
         else pattern_formatter pid now (pattern global) (time_type global));
    let aid := fresh (dom (appenders (out s))) in
    let s := set_out (Sinks (<[aid := LogAppender trace f (console color [])]> (appenders (out s))) (files (out s))) s in
    let id := fresh (dom (loggers s)) in
    let s := set_loggers (<[id := Logger [] false (level global) [aid]]> (loggers s)) s in
    s ← set_default (Some id) s;
    Some (s, atomic_id)
  end.

End load.

End config.

(** * What a configuration makes *)

(** An appender has the pattern and the level its table gives, else those of its
    logger, which come from the table of the logger, else from the root. *)
Lemma appender_inherits c n t aid a aid' program_name :
  create_appender_custom program_name c n t aid = (Some a, aid') ->
  (match table_find (str "pattern") t with Some (toml_array (toml_string _ :: _)) => False | _ => True end ->
     pattern (common a) = pattern c /\ time_type (common a) = time_type c) /\
  (read_string (str "level") t = None -> level (common a) = level c).
Proof.
  intros H. assert (common a = read_level (read_pattern_and_time_type c t) t) as ->.
  { unfold create_appender_custom in H. destruct (read_string (str "type") t) as [tp|]; [|discriminate H].
    repeat case_decide; try discriminate H; [by injection H as <- <-|by injection H as <- <-|].
    destruct (read_file_appender_config _ _ _ _). by injection H as <- <-. }
  split.
  - intros Hp. assert (read_pattern_and_time_type c t = c) as ->.
    { unfold read_pattern_and_time_type. repeat (case_match; try done). }
    unfold read_level. by repeat case_match.
  - intros Hl. unfold read_level. rewrite Hl. unfold read_pattern_and_time_type. by repeat case_match.
Qed.

Section install.

Context (localtime gmtime : Z -> tm) (pid : Z) (now : nat -> Z) (clock : Z) (color : bool).

Abbreviation make_appender := (make_appender localtime gmtime pid now clock color).
Abbreviation make_appenders := (make_appenders localtime gmtime pid now clock color).
Abbreviation make_logger := (make_logger localtime gmtime pid now clock color).
Abbreviation install := (install localtime gmtime pid now clock color).

(** Making appenders changes the appenders only. *)
Definition same_but_out (s s' : log_system) : Prop := s' = set_out (out s') s.

Lemma make_appenders_total l s : exists ids s', make_appenders l s = Some (ids, s') /\ same_but_out s s'.
Proof.
  revert s. induction l as [|a l IH]; intros s; [exists [], s; split; [done|by destruct s]|]. cbn [LogConfig.make_appenders].
  unfold LogConfig.make_appender, pattern_formatter. destruct (set_pattern_total pid now (pattern (common a))
    (Formatter (time_type (common a)) false zero_tm 0 ∅ [])) as [f ->]. cbn [mbind option_bind].
  match goal with |- context [LogConfig.make_appenders _ _ _ _ _ _ _ ?s1] => destruct (IH s1) as (ids & s' & -> & Hs') end.
  cbn [mbind option_bind]. eexists _, _. split; [reflexivity|]. unfold same_but_out in *. rewrite Hs' at 1. by destruct s.
Qed.

(** Making a logger registers nothing. *)
Lemma make_logger_total l s :
  registry_ok s -> default_ok s ->
  exists id s', make_logger l s = Some (id, s') /\ registry_ok s' /\ default_ok s' /\ default_logger_ s' = default_logger_ s /\
    loggers_ s' = loggers_ s /\ exists ids, loggers s' !! id = Some (Logger (custom_name l) (custom_async l) (custom_level l) ids).
Proof.
  intros H Hd. unfold LogConfig.make_logger. destruct (make_appenders_total (custom_appenders l) s) as (ids & s1 & -> & E).
  cbn [mbind option_bind]. unfold same_but_out in E. eexists _, _. split; [reflexivity|].
  set (new := fresh (dom (loggers s1))).
  assert (forall id, is_Some (loggers s !! id) -> id <> new) as Hnew.
  { intros id Hid ->. assert (loggers s1 = loggers s) as El by (by rewrite E). rewrite <- El in Hid.
    apply elem_of_dom in Hid. by apply (is_fresh (dom (loggers s1))). }
  assert (forall id, is_Some (loggers s !! id) -> loggers (set_loggers (<[new := Logger (custom_name l) (custom_async l) (custom_level l) ids]> (loggers s1)) s1) !! id = loggers s !! id) as Hkeep.
  { intros id Hid. cbn. rewrite lookup_insert_ne by (symmetry; by apply Hnew). by rewrite E. }
  split_and!.
  - intros n id Hn. assert (loggers_ s !! n = Some id) as Hn' by (by rewrite E in Hn). specialize (H n id Hn').
    unfold name_of_logger in *. rewrite Hkeep; [done|]. by destruct (loggers s !! id).
  - intros id Hid. assert (default_logger_ s = Some id) as Hid' by (by rewrite E in Hid). rewrite Hkeep; by apply Hd.
  - by rewrite E.
  - by rewrite E.
  - exists ids. cbn. apply lookup_insert_eq.
Qed.

(** The default logger is the one registered under this name. *)
Definition default_is (n : bytes) (s : log_system) : Prop :=
  forall id, default_logger_ s = Some id -> find n s = Some id.

Lemma install_total default_log ls s :
  registry_ok s -> default_ok s -> default_is default_log s ->
  exists s', install default_log ls s = Some s' /\ registry_ok s' /\ default_ok s' /\ default_is default_log s'.
Proof.
  revert s. induction ls as [|l ls IH]; intros s H Hd Hdef; [by exists s|].
  cbn [LogConfig.install]. destruct (make_logger_total l s H Hd) as (id & s1 & -> & H1 & Hd1 & Ed & En & ids & Hl).
  cbn [mbind option_bind].
  assert (exists s2, (if decide (custom_name l = default_log) then set_default (Some id) s1 else register_logger id s1) = Some s2 /\
    registry_ok s2 /\ default_ok s2 /\ default_is default_log s2) as (s2 & -> & H2 & Hd2 & Hdef2).
  { case_decide as E.
    - destruct (set_default_ok id s1 H1 Hd1 ltac:(by eexists)) as (s2 & n & Hs2 & H2 & Hd2 & Edef & Hn & Hf).
      exists s2. split; [done|]. split; [done|]. split; [done|]. intros id'. rewrite Edef. intros [= <-].
      assert (Some n = Some default_log) as [= ->]; [|done]. rewrite <- Hn, <- E.
      unfold set_default in Hs2. apply bind_Some in Hs2 as (s3 & Hs3 & Hs2). apply bind_Some in Hs2 as (s4 & Hs4 & [= <-]).
      unfold insert_loggers in Hs4. apply bind_Some in Hs4 as (nm & Hnm & [= <-]). unfold name_of_logger in *. cbn in *.
      rewrite Hnm. rewrite <- Hnm.
      assert (loggers s3 = loggers s1) as ->; [|by rewrite Hl].
      destruct (default_logger_ s1); [apply bind_Some in Hs3 as (? & _ & [= <-])|injection Hs3 as <-]; done.
    - unfold register_logger, insert_loggers, name_of_logger at 1. rewrite Hl. cbn. eexists. split; [reflexivity|].
      destruct (insert_loggers_ok id s1 H1 Hd1 ltac:(by eexists)) as (s2 & Hs2 & H2 & Hd2 & _).
      unfold insert_loggers, name_of_logger in Hs2. rewrite Hl in Hs2. cbn in Hs2. injection Hs2 as <-.
      split; [done|]. split; [done|]. intros id'. cbn. rewrite Ed. intros Hid'. unfold find. cbn.
      rewrite lookup_insert_ne, En by done. by apply Hdef. }
  cbn [mbind option_bind]. by apply IH.
Qed.

End install.

(** Whatever the tables hold, loading a configuration succeeds and leaves a
    default logger, which exists and is registered under its name, so that the
    functions that log to the default logger and the levels set later find it;
    every registered logger exists and is found under its own name. *)
Theorem load_leaves_default localtime gmtime pid now clock color program_name root atomic_id s :
  exists s' atomic_id' id n,
    load_log_config program_name localtime gmtime pid now clock color root atomic_id s = Some (s', atomic_id') /\
    registry_ok s' /\ default_logger_ s' = Some id /\ name_of_logger s' id = Some n /\ find n s' = Some id.
Proof.
  unfold load_log_config. cbv zeta. set (c := read_pattern_and_time_type _ root). set (g := read_global root).
  assert (exists s1, (if decide (pattern c = []) then Some (drop_all s) else set_pattern pid now (pattern c) (time_type c) (drop_all s)) = Some s1 /\
    loggers_ s1 = ∅ /\ default_logger_ s1 = None) as (s1 & -> & En1 & Ed1).
  { case_decide; [by eexists|]. unfold set_pattern, pattern_formatter.
    destruct (set_pattern_total pid now (pattern c) (Formatter (time_type c) false zero_tm 0 ∅ [])) as [f ->].
    cbn [mbind option_bind]. unfold set_formatter, each_logger. cbn. rewrite map_to_list_empty. by eexists. }
  cbn [mbind option_bind].
  assert (exists s2, set_levels ∅ (Some (level g)) s1 = Some s2 /\ loggers_ s2 = ∅ /\ default_logger_ s2 = None) as (s2 & -> & En2 & Ed2).
  { unfold set_levels, each_logger. cbn. rewrite En1, map_to_list_empty. by eexists. }
  cbn [mbind option_bind]. destruct (create_loggers program_name g root atomic_id) as [ls atomic_id'].
  set (default_log := default [] _).
  destruct (install_total localtime gmtime pid now clock color default_log ls s2) as (s3 & -> & H3 & Hd3 & Hdef3).
  - intros n id Hn. by rewrite En2 in Hn.
  - intros id Hid. by rewrite Ed2 in Hid.
  - intros id Hid. by rewrite Ed2 in Hid.
  - cbn [mbind option_bind]. destruct (default_logger_ s3) as [id|] eqn:Ed3.
    + exists s3, atomic_id', id, default_log. specialize (Hdef3 id Ed3). split; [done|]. split; [done|]. split; [done|].
      split; [by apply H3|done].
    + assert (exists f, (if decide (pattern g = []) then Some (default_formatter local)
        else pattern_formatter pid now (pattern g) (time_type g)) = Some f) as [f ->].
      { case_decide; [by eexists|]. apply set_pattern_total. }
      cbn [mbind option_bind]. set (s4 := set_out _ s3). set (id := fresh (dom (loggers s4))). set (l := Logger [] false _ _).
      set (s5 := set_loggers _ s4).
      assert (registry_ok s5) as H5.
      { intros n id' Hn. specialize (H3 n id' Hn). unfold name_of_logger in *. cbn.
        rewrite lookup_insert_ne; [done|]. intros <-. assert (id ∈ dom (loggers s4)) as Hin.
        { apply elem_of_dom. cbn. by destruct (loggers s3 !! id). }
        by apply is_fresh in Hin. }
      assert (default_ok s5) as Hd5 by (intros id' Hid'; cbn in Hid'; by rewrite Ed3 in Hid').
      destruct (set_default_ok id s5 H5 Hd5) as (s6 & n & -> & H6 & _ & Edef & Hn & Hf).
      { exists l. cbn. apply lookup_insert_eq. }
      by exists s6, atomic_id', id, n.
Qed.

(** * A missing pattern *)

(** An appender for which no pattern is given anywhere gets the empty one, and
    not the format a new appender has: its lines are empty. *)
Example no_pattern_no_text :
  let root := [(str "a", toml_table [(str "appenders", toml_array [toml_table [(str "type", toml_string (str "stdout"))]])])] in
  let cal _ := Tm 0 0 0 1 0 124 0 0 in
  let msg := Msg None critical (5 * second) 1 [] 0 [] (str "x") in
  (p ← load_log_config (str "prog") cal cal 7 (fun _ => 0) 0 false root 0 (new_system false (World ∅ []) 4);
   l ← loggers p.1 !! 1%nat;
   r ← backend_log to_string (fun n => zlen (to_string n)) to_string cal cal (fun _ _ _ _ d => d) 7 (fun _ => []) true
         (logger_appenders l) msg (0, 0) (out p.1);
   app_sink <$> appenders r.1 !! 1%nat) = Some (console false [10]).
Proof. vm_compute. reflexivity. Qed.
