(* ===== verification/MpscQueue.v ===== *)
(** The queue of the log's writer thread and of the message pool: src/containers/queue.cpp,
    a lock-free queue of many producers and one consumer over intrusive nodes.

    A node is a number, the queue's own [stub_] is 0, a missing entry of [next]
    is a null pointer. Every load, store and exchange is one step; the threads
    take their steps in any order. A push takes effect with the exchange of
    [head_]: the nodes come out in the order of the exchanges, each once. Until a
    producer has linked its node, what is behind it cannot be reached, and [pop]
    then reports an empty queue even though another push has returned. *)

From stdpp Require Import gmap.
From S2P Require Import Prelude.

Definition stub : nat := 0.

Record queue := Queue { next : gmap nat nat; head_ : nat; tail_ : nat; size_ : Z }.

(** [mpsc_queue()]. *)
Definition new_queue : queue := Queue ∅ stub stub 0.

Definition store_null (n : nat) (q : queue) : queue := Queue (delete n (next q)) (head_ q) (tail_ q) (size_ q).

Definition store_next (prev n : nat) (q : queue) : queue := Queue (<[prev := n]> (next q)) (head_ q) (tail_ q) (size_ q).

Definition exchange_head (n : nat) (q : queue) : queue := Queue (next q) n (tail_ q) (size_ q).

Definition set_tail (n : nat) (q : queue) : queue := Queue (next q) (head_ q) n (size_ q).

Definition add_size (d : Z) (q : queue) : queue := Queue (next q) (head_ q) (tail_ q) (size_ q + d).

(** * Producers *)

(** Where a producer is in [push] and [push_base]. *)
Inductive push_pc :=
  | at_size (n : nat)
  | at_store (n : nat)
  | at_exchange (n : nat)
  | at_link (prev n : nat).

(** [None]: the push has returned. *)
Definition push_step (pc : push_pc) (q : queue) : option push_pc * queue :=
  match pc with
  | at_size n => (Some (at_store n), add_size 1 q)
  | at_store n => (Some (at_exchange n), store_null n q)
  | at_exchange n => (Some (at_link (head_ q) n), exchange_head n q)
  | at_link prev n => (None, store_next prev n q)
  end.

(** * The consumer *)

(** Where the consumer is in [pop] and [pop_and_check_end_base], with its
    variables [tail] and [next]. *)
Inductive pop_pc :=
  | idle
  | at_load
  | at_test (tail : nat) (nx : option nat)
  | at_reload (tail : nat)
  | at_next (tail : nat) (nx : option nat)
  | at_head (tail : nat)
  | at_stub_store (tail : nat)
  | at_stub_exchange (tail : nat)
  | at_stub_link (tail prev : nat)
  | at_last (tail : nat)
  | at_return (n : nat).

Inductive outcome := goes_on | takes (n : nat) | finds_empty.

(** A null result that is not the end makes [pop] try again. *)
Definition pop_step (pc : pop_pc) (q : queue) : pop_pc * queue * outcome :=
  match pc with
  | idle => (idle, q, goes_on)
  | at_load => (at_test (tail_ q) (next q !! tail_ q), q, goes_on)
  | at_test tail nx =>
    if decide (tail = stub) then
      match nx with
      | None => (idle, q, finds_empty)
      | Some n => (at_reload n, set_tail n q, goes_on)
      end
    else (at_next tail nx, q, goes_on)
  | at_reload tail => (at_next tail (next q !! tail), q, goes_on)
  | at_next tail nx =>
    match nx with
    | Some n => (at_return tail, set_tail n q, takes tail)
    | None => (at_head tail, q, goes_on)
    end
  | at_head tail => if decide (tail = head_ q) then (at_stub_store tail, q, goes_on) else (at_load, q, goes_on)
  | at_stub_store tail => (at_stub_exchange tail, store_null stub q, goes_on)
  | at_stub_exchange tail => (at_stub_link tail (head_ q), exchange_head stub q, goes_on)
  | at_stub_link tail prev => (at_last tail, store_next prev stub q, goes_on)
  | at_last tail =>
    match next q !! tail with
    | Some n => (at_return tail, set_tail n q, takes tail)
    | None => (at_load, q, goes_on)
    end
  | at_return n => (idle, add_size (-1) q, goes_on)
  end.

(** * Threads *)

(** The queue, the producers at work, the consumer; for the statements, the
    nodes in the order of the exchanges and those taken. *)
Record conf := Conf { shared : queue; producers : gmap nat push_pc; consumer : pop_pc; pushed : list nat; popped : list nat }.

Definition start : conf := Conf new_queue ∅ idle [] [].

Inductive event := Push (tid n : nat) | Produce (tid : nat) | Pop | Consume.

Definition push_event (pc : push_pc) : list nat := match pc with at_exchange n => [n] | _ => [] end.

Definition pop_event (o : outcome) : list nat := match o with takes n => [n] | _ => [] end.

Definition step (e : event) (c : conf) : option conf :=
  match e with
  | Push tid n =>
    match producers c !! tid with
    | Some _ => None
    | None => Some (Conf (shared c) (<[tid := at_size n]> (producers c)) (consumer c) (pushed c) (popped c))
    end
  | Produce tid =>
    pc ← producers c !! tid;
    let '(pc', q) := push_step pc (shared c) in
    Some (Conf q (match pc' with Some pc' => <[tid := pc']> (producers c) | None => delete tid (producers c) end)
            (consumer c) (pushed c ++ push_event pc) (popped c))
  | Pop =>
    match consumer c with
    | idle => Some (Conf (shared c) (producers c) at_load (pushed c) (popped c))
    | _ => None
    end
  | Consume =>
    let '(pc, q, o) := pop_step (consumer c) (shared c) in
    Some (Conf q (producers c) pc (pushed c) (popped c ++ pop_event o))
  end.

Definition node_of (pc : push_pc) : nat :=
  match pc with at_size n | at_store n | at_exchange n | at_link _ n => n end.

(** What is in the queue, by the order of the exchanges. *)
Definition content (c : conf) : list nat := drop (length (popped c)) (pushed c).

(** The caller's obligation: a node pushed is not in the queue, nor on its way
    into it, nor the stub. *)
Definition allowed (c : conf) (e : event) : Prop :=
  match e with
  | Push _ n => n <> stub /\ (n ∉ content c) /\ (forall tid pc, producers c !! tid = Some pc -> node_of pc <> n)
  | _ => True
  end.

(** The configurations that come about, with the events in their order. *)
Inductive history : list event -> conf -> Prop :=
  | history_start : history [] start
  | history_step es c e c' : history es c -> allowed c e -> step e c = Some c' -> history (es ++ [e]) c'.

(** * Chains *)

(** The nodes from [t] to [h]: each is linked to its successor or waits for the
    link, which [P] says a thread is about to make. *)
Record chain (nx : gmap nat nat) (t h : nat) (L : list nat) (P : nat -> nat -> Prop) : Prop := {
  chain_nodup : NoDup L;
  chain_first : L !! 0%nat = Some t;
  chain_last : list.last L = Some h;
  chain_end : nx !! h = None;
  chain_links : forall i a b, L !! i = Some a -> L !! S i = Some b -> nx !! a = Some b \/ (nx !! a = None /\ P a b);
  chain_waits : forall a b, P a b -> exists i, L !! i = Some a /\ L !! S i = Some b /\ nx !! a = None }.

Lemma chain_ext nx t h L P P' : (forall a b, P a b <-> P' a b) -> chain nx t h L P -> chain nx t h L P'.
Proof.
  intros E []. split; try done.
  - intros i a b Ha Hb. destruct (chain_links0 i a b Ha Hb) as [?|[??]]; [by left|right]. by rewrite <- E.
  - intros a b Hab. by apply chain_waits0, E.
Qed.

Lemma nodup_lookup (L : list nat) i j (a : nat) : NoDup L -> L !! i = Some a -> L !! j = Some a -> i = j.
Proof. intros H Hi Hj. by apply (NoDup_lookup L i j a). Qed.

Lemma chain_waits_fun nx t h L P a b b' : chain nx t h L P -> P a b -> P a b' -> b = b'.
Proof.
  intros [] Hb Hb'. destruct (chain_waits0 a b Hb) as (i & Hi & Hsi & _). destruct (chain_waits0 a b' Hb') as (j & Hj & Hsj & _).
  rewrite (nodup_lookup L i j a) in Hsi by done. congruence.
Qed.

Lemma chain_waits_inj nx t h L P a a' b : chain nx t h L P -> P a b -> P a' b -> a = a'.
Proof.
  intros [] Ha Ha'. destruct (chain_waits0 a b Ha) as (i & Hi & Hsi & _). destruct (chain_waits0 a' b Ha') as (j & Hj & Hsj & _).
  assert (S i = S j) as [= ->] by (by apply (nodup_lookup L _ _ b)). congruence.
Qed.

(** The consumer takes the first node, whose link is made. *)
Lemma chain_advance nx t h L P n :
  chain nx t h L P -> nx !! t = Some n -> exists L', L = t :: n :: L' /\ chain nx n h (n :: L') P.
Proof.
  intros [] Ht. destruct L as [|a L]; [done|]. cbn in chain_first0. injection chain_first0 as ->.
  destruct L as [|b L]; [cbn in chain_last0; congruence|].
  destruct (chain_links0 0%nat t b eq_refl eq_refl) as [E|[E _]]; [|congruence].
  assert (b = n) as -> by congruence. exists L. split; [done|]. apply list.NoDup_cons in chain_nodup0 as [Hnin Hnd].
  split; try done.
  - intros i x y Hx Hy. by apply (chain_links0 (S i)).
  - intros x y Hxy. destruct (chain_waits0 x y Hxy) as (i & Hi & Hsi & Hn). destruct i as [|i].
    + cbn in Hi. injection Hi as ->. congruence.
    + by exists i.
Qed.

(** A producer puts its node at the end. *)
Lemma chain_exchange nx t h L P P' n :
  chain nx t h L P -> n ∉ L -> nx !! n = None -> (forall a b, P' a b <-> P a b \/ (a = h /\ b = n)) ->
  chain nx t n (L ++ [n]) P'.
Proof.
  intros [] Hn Hnn HP. assert (exists k, length L = S k /\ L !! k = Some h) as (k & Hk & Hlk).
  { rewrite last_lookup in chain_last0. destruct L; [done|]. by exists (length L). }
  split.
  - apply list.NoDup_app. split; [done|]. split; [|apply NoDup_singleton].
    intros x Hx Hx'. apply list_elem_of_singleton in Hx' as ->. done.
  - by rewrite lookup_app_l by lia.
  - apply last_snoc.
  - done.
  - intros i a b Ha Hb. destruct (decide (S i < length L)%nat) as [Hi|Hi].
    + rewrite lookup_app_l in Ha, Hb by lia. destruct (chain_links0 i a b Ha Hb) as [?|[??]]; [by left|right].
      split; [done|]. apply HP. by left.
    + assert (i = k) as ->.
      { apply lookup_lt_Some in Hb. rewrite length_app in Hb. cbn in Hb. lia. }
      rewrite lookup_app_l, Hlk in Ha by lia. injection Ha as <-.
      rewrite lookup_app_r, Hk, Nat.sub_diag in Hb by lia. injection Hb as <-. right. split; [done|]. apply HP. by right.
  - intros a b Hab. apply HP in Hab as [Hab|[-> ->]].
    + destruct (chain_waits0 a b Hab) as (i & Hi & Hsi & Hna). exists i.
      rewrite !lookup_app_l by (apply lookup_lt_Some in Hsi; lia). done.
    + exists k. rewrite lookup_app_l, lookup_app_r, Hk, Nat.sub_diag by lia. done.
Qed.

(** A thread makes the link it had to make. *)
Lemma chain_link nx t h L P P' a b :
  chain nx t h L P -> P a b -> (forall a' b', P' a' b' <-> P a' b' /\ a' <> a) -> chain (<[a := b]> nx) t h L P'.
Proof.
  intros Hc Hab HP. pose proof Hc as []. destruct (chain_waits0 a b Hab) as (i & Hi & Hsi & Hna). split; try done.
  - rewrite lookup_insert_ne; [done|]. intros <-. rewrite last_lookup in chain_last0.
    assert (i = Init.Nat.pred (length L)) as -> by (by apply (nodup_lookup L _ _ a)).
    apply lookup_lt_Some in Hsi. lia.
  - intros j x y Hx Hy. destruct (decide (x = a)) as [->|Hne].
    + left. rewrite lookup_insert_eq. assert (j = i) as -> by (by apply (nodup_lookup L _ _ a)). congruence.
    + rewrite lookup_insert_ne by done. destruct (chain_links0 j x y Hx Hy) as [?|[??]]; [by left|right].
      split; [done|]. by apply HP.
  - intros x y Hxy. apply HP in Hxy as [Hxy Hne]. destruct (chain_waits0 x y Hxy) as (j & Hj & Hsj & Hn).
    exists j. by rewrite lookup_insert_ne.
Qed.

(** A thread writes to a node outside. *)
Lemma chain_store nx t h L P n : chain nx t h L P -> n ∉ L -> chain (delete n nx) t h L P.
Proof.
  intros [] Hn.
  assert (forall i a, L !! i = Some a -> delete n nx !! a = nx !! a) as E.
  { intros i a Ha. apply lookup_delete_ne. intros ->. by apply list_elem_of_lookup_2 in Ha. }
  split; try done.
  - rewrite last_lookup in chain_last0. by rewrite (E _ _ chain_last0).
  - intros i a b Ha Hb. rewrite (E i a Ha). by apply (chain_links0 i).
  - intros a b Hab. destruct (chain_waits0 a b Hab) as (i & Hi & Hsi & Hna). exists i. by rewrite (E i a Hi).
Qed.

(** A chain whose first node is its last has no other. *)
Lemma chain_single nx t L P : chain nx t t L P -> L = [t].
Proof.
  intros []. rewrite last_lookup in chain_last0. destruct L as [|a L]; [done|].
  assert (0%nat = Init.Nat.pred (length (a :: L))) as E by (by apply (nodup_lookup (a :: L) _ _ t)).
  destruct L; [|cbn in E; lia]. cbn in chain_first0. congruence.
Qed.

(** * The invariant *)

(** A thread is about to link [a] to [b]. *)
Definition pending (ps : gmap nat push_pc) (pc : pop_pc) (a b : nat) : Prop :=
  (exists tid, ps !! tid = Some (at_link a b)) \/ (exists t, pc = at_stub_link t a /\ b = stub).

(** No two producers hold the same node; what a producer holds before the
    exchange is outside the chain. *)
Record producers_ok (nx : gmap nat nat) (L : list nat) (ps : gmap nat push_pc) : Prop := {
  held_once : forall t1 t2 pc1 pc2, ps !! t1 = Some pc1 -> ps !! t2 = Some pc2 -> node_of pc1 = node_of pc2 -> t1 = t2;
  held_node : forall tid pc, ps !! tid = Some pc -> node_of pc <> stub;
  held_out : forall tid pc, ps !! tid = Some pc ->
    match pc with
    | at_size n | at_store n => n ∉ L
    | at_exchange n => (n ∉ L) /\ nx !! n = None
    | at_link _ _ => True
    end }.

(** What the consumer knows. *)
Definition consumer_ok (nx : gmap nat nat) (t0 : nat) (L : list nat) (pc : pop_pc) : Prop :=
  match pc with
  | idle | at_load | at_return _ => True
  | at_test t nxt => t = t0 /\ (forall n, nxt = Some n -> nx !! t = Some n)
  | at_next t nxt => t = t0 /\ t <> stub /\ (forall n, nxt = Some n -> nx !! t = Some n)
  | at_reload t | at_head t | at_stub_link t _ | at_last t => t = t0 /\ t <> stub
  | at_stub_store t => t = t0 /\ t <> stub /\ (stub ∉ L)
  | at_stub_exchange t => t = t0 /\ t <> stub /\ (stub ∉ L) /\ nx !! stub = None
  end.

Definition user_nodes (L : list nat) : list nat := filter (fun n => n <> stub) L.

Record queue_ok (c : conf) (L : list nat) : Prop := {
  ok_chain : chain (next (shared c)) (tail_ (shared c)) (head_ (shared c)) L (pending (producers c) (consumer c));
  ok_producers : producers_ok (next (shared c)) L (producers c);
  ok_consumer : consumer_ok (next (shared c)) (tail_ (shared c)) L (consumer c);
  ok_pushed : pushed c = popped c ++ user_nodes L }.

Lemma queue_ok_content c L : queue_ok c L -> content c = user_nodes L.
Proof. intros []. unfold content. rewrite ok_pushed0. by rewrite drop_app_length. Qed.

Lemma mpsc_start_ok : queue_ok start [stub].
Proof.
  split; cbn.
  - split; [apply NoDup_singleton|done|done|by apply lookup_empty| |].
    + intros i a b _ Hb. by destruct i.
    + intros a b [[tid H]|[t [H _]]]; [by rewrite lookup_empty in H|done].
  - split; intros *; rewrite lookup_empty; done.
  - done.
  - done.
Qed.

(** ** Producers *)

Lemma producers_start nx L ps tid n :
  producers_ok nx L ps -> ps !! tid = None -> n <> stub -> n ∉ L ->
  (forall t pc, ps !! t = Some pc -> node_of pc <> n) -> producers_ok nx L (<[tid := at_size n]> ps).
Proof.
  intros [H1 H2 H3] Htid Hn HL Hfree. split.
  - intros t1 t2 pc1 pc2 Ht1 Ht2 E. apply lookup_insert_Some in Ht1 as [[<- <-]|[? Ht1]], Ht2 as [[<- <-]|[? Ht2]]; try done.
    + cbn in E. by destruct (Hfree _ _ Ht2).
    + cbn in E. by destruct (Hfree _ _ Ht1).
    + by apply (H1 t1 t2 pc1 pc2).
  - intros t pc Ht. apply lookup_insert_Some in Ht as [[<- <-]|[? Ht]]; [done|by apply (H2 t)].
  - intros t pc Ht. apply lookup_insert_Some in Ht as [[<- <-]|[? Ht]]; [done|by apply (H3 t)].
Qed.

(** A producer moves to another place with the same node. *)
Lemma producers_move nx nx' L L' ps tid pc pc' :
  producers_ok nx L ps -> ps !! tid = Some pc -> node_of pc' = node_of pc ->
  (forall t p, t <> tid -> ps !! t = Some p -> match p with
     | at_size n | at_store n => n ∉ L'
     | at_exchange n => (n ∉ L') /\ nx' !! n = None
     | at_link _ _ => True end) ->
  match pc' with
  | at_size n | at_store n => n ∉ L'
  | at_exchange n => (n ∉ L') /\ nx' !! n = None
  | at_link _ _ => True end ->
  producers_ok nx' L' (<[tid := pc']> ps).
Proof.
  intros [H1 H2 H3] Htid En Hothers Hself. split.
  - intros t1 t2 pc1 pc2 Ht1 Ht2 E. apply lookup_insert_Some in Ht1 as [[<- <-]|[? Ht1]], Ht2 as [[<- <-]|[? Ht2]]; try done.
    + apply (H1 tid t2 pc pc2); congruence.
    + apply (H1 t1 tid pc1 pc); congruence.
    + by apply (H1 t1 t2 pc1 pc2).
  - intros t p Ht. apply lookup_insert_Some in Ht as [[<- <-]|[? Ht]]; [rewrite En; by apply (H2 tid)|by apply (H2 t)].
  - intros t p Ht. apply lookup_insert_Some in Ht as [[<- <-]|[? Ht]]; [done|by apply (Hothers t)].
Qed.

Lemma producers_end nx nx' L ps tid :
  producers_ok nx L ps -> (forall n, n ∉ L -> nx' !! n = nx !! n) -> producers_ok nx' L (delete tid ps).
Proof.
  intros [H1 H2 H3] Hnx. split.
  - intros t1 t2 pc1 pc2 Ht1 Ht2. apply lookup_delete_Some in Ht1 as [_ Ht1], Ht2 as [_ Ht2]. by apply (H1 t1 t2).
  - intros t pc Ht. apply lookup_delete_Some in Ht as [_ Ht]. by apply (H2 t).
  - intros t pc Ht. apply lookup_delete_Some in Ht as [_ Ht]. specialize (H3 t pc Ht). destruct pc; try done.
    destruct H3 as [? H3]. by rewrite Hnx.
Qed.

(** The consumer's step changes what producers see: the chain loses its first
    node, or the stub comes to its end. *)
Lemma producers_mono nx nx' L L' ps :
  producers_ok nx L ps -> (forall n, n <> stub -> n ∉ L -> (n ∉ L') /\ nx' !! n = nx !! n) -> producers_ok nx' L' ps.
Proof.
  intros [H1 H2 H3] Hmono. split; [done|done|]. intros t pc Ht. specialize (H3 t pc Ht). pose proof (H2 t pc Ht) as Hn.
  destruct pc; cbn in Hn; try done; try (by apply Hmono). destruct H3 as [H3 H3']. destruct (Hmono n Hn H3) as [? E]. by rewrite E.
Qed.

Lemma mpsc_pending_insert ps pc tid p a b :
  (forall a b, ps !! tid <> Some (at_link a b)) -> (forall a b, p <> at_link a b) ->
  pending (<[tid := p]> ps) pc a b <-> pending ps pc a b.
Proof.
  intros Hold Hnew. unfold pending. split; (intros [[t Ht]|?]; [left|by right]).
  - apply lookup_insert_Some in Ht as [[<- Ht]|[_ Ht]]; [by apply Hnew in Ht|by exists t].
  - exists t. rewrite lookup_insert_ne; [done|]. intros <-. by apply Hold in Ht.
Qed.

Lemma consumer_mono nx nx' t0 L L' pc :
  consumer_ok nx t0 L pc -> t0 ∈ L -> (forall m, nx !! t0 = Some m -> nx' !! t0 = Some m) ->
  (stub ∉ L -> (stub ∉ L') /\ nx' !! stub = nx !! stub) -> consumer_ok nx' t0 L' pc.
Proof.
  intros Hc Ht Hnx Hs. destruct pc; cbn in *; try done.
  - destruct Hc as [-> Hc]. split; [done|]. intros n E. by apply Hnx, Hc.
  - destruct Hc as (-> & ? & Hc). split; [done|]. split; [done|]. intros n E. by apply Hnx, Hc.
  - destruct Hc as (? & ? & Hc). by destruct (Hs Hc).
  - destruct Hc as (? & ? & Hc & E). destruct (Hs Hc) as [? ->]. done.
Qed.

Lemma chain_first_in nx t h L P : chain nx t h L P -> t ∈ L.
Proof. intros []. by apply list_elem_of_lookup_2 in chain_first0. Qed.

Lemma chain_wait_in nx t h L P a b : chain nx t h L P -> P a b -> a ∈ L /\ nx !! a = None.
Proof. intros [] H. destruct (chain_waits0 a b H) as (i & Hi & _ & Hn). split; [by apply list_elem_of_lookup_2 in Hi|done]. Qed.

Lemma user_nodes_snoc L n : user_nodes (L ++ [n]) = user_nodes L ++ user_nodes [n].
Proof. unfold user_nodes. apply list.filter_app. Qed.

Lemma user_nodes_one n : n <> stub -> user_nodes [n] = [n].
Proof. intros Hn. unfold user_nodes. by rewrite list.filter_cons_True. Qed.

(** The exchange of a producer, or of the consumer with the stub. *)
Lemma produce_ok c L tid c' :
  queue_ok c L -> step (Produce tid) c = Some c' -> exists L', queue_ok c' L'.
Proof.
  intros H Hstep. cbn [step] in Hstep. apply bind_Some in Hstep as (pc & Htid & Hstep).
  destruct H as [Hchain Hprod Hcons Hpush]. pose proof (held_node _ _ _ Hprod tid pc Htid) as Hn.
  pose proof (held_out _ _ _ Hprod tid pc Htid) as Hout. pose proof (chain_first_in _ _ _ _ _ Hchain) as Hfirst.
  assert (forall t p, t <> tid -> producers c !! t = Some p -> node_of p <> node_of pc) as Hother.
  { intros t p Hne Ht E. by apply Hne, (held_once _ _ _ Hprod t tid p pc). }
  destruct pc as [n|n|n|prev n]; cbn [push_step push_event node_of] in *; injection Hstep as <-;
    rewrite ?(app_nil_r (A := nat)).
  - exists L. split; cbn; [|..|done|done].
    + eapply chain_ext; [|exact Hchain]. intros a b. symmetry. apply mpsc_pending_insert; congruence.
    + eapply producers_move; [done|done|done| |done]. intros t p _ Ht. exact (held_out _ _ _ Hprod t p Ht).
  - exists L. split; cbn; [|..|done].
    + eapply chain_ext; [intros a b; symmetry; apply mpsc_pending_insert; congruence|]. by apply chain_store.
    + eapply producers_move; [done|done|done| |by rewrite lookup_delete_eq].
      intros t p Hne Ht. pose proof (held_out _ _ _ Hprod t p Ht) as Hp. specialize (Hother t p Hne Ht).
      destruct p; cbn in *; try done. by rewrite lookup_delete_ne.
    + eapply consumer_mono; [exact Hcons|exact Hfirst| |].
      * intros m Hm. rewrite lookup_delete_ne; [done|]. intros ->. done.
      * intros Hs. split; [done|]. by rewrite lookup_delete_ne.
  - destruct Hout as [HnL Hnn]. exists (L ++ [n]). split; cbn.
    + eapply chain_exchange; [exact Hchain|done|done|]. intros a b. unfold pending. split.
      * intros [[t Ht]|?]; [|left; by right]. apply lookup_insert_Some in Ht as [[<- [= <- <-]]|[_ Ht]]; [by right|left; left; by exists t].
      * intros [[[t Ht]|?]|[-> ->]]; [left|by right|left; exists tid; apply lookup_insert_eq].
        exists t. rewrite lookup_insert_ne; [done|]. intros <-. congruence.
    + eapply producers_move; [done|done|done| |done].
      intros t p Hne Ht. pose proof (held_out _ _ _ Hprod t p Ht) as Hp. specialize (Hother t p Hne Ht).
      destruct p; cbn in *; rewrite ?list.elem_of_app, ?list_elem_of_singleton; try done; try tauto.
    + eapply consumer_mono; [exact Hcons|exact Hfirst|done|]. intros Hs. split; [|done].
      rewrite list.elem_of_app, list_elem_of_singleton. intros [?|?]; [done|congruence].
    + by rewrite Hpush, user_nodes_snoc, user_nodes_one, (app_assoc (A := nat)).
  - assert (pending (producers c) (consumer c) prev n) as Hpend by (left; by exists tid).
    destruct (chain_wait_in _ _ _ _ _ _ _ Hchain Hpend) as [Hprev Hnone]. exists L. split; cbn; [|..|done].
    + eapply chain_link; [exact Hchain|exact Hpend|]. intros a b. unfold pending. split.
      * intros Hab. assert (pending (producers c) (consumer c) a b) as Hab'.
        { destruct Hab as [[t Ht]|?]; [left|by right]. apply lookup_delete_Some in Ht as [_ Ht]. by exists t. }
        split; [exact Hab'|]. intros ->. assert (b = n) as -> by (by eapply chain_waits_fun).
        destruct Hab as [[t Ht]|[t [_ ?]]]; [|congruence]. apply lookup_delete_Some in Ht as [Hne Ht].
        by specialize (Hother t (at_link prev n) ltac:(done) Ht).
      * intros [[[t Ht]|?] Hne]; [left|by right]. exists t. rewrite lookup_delete_ne; [done|]. intros <-. congruence.
    + eapply producers_end; [done|]. intros m Hm. rewrite lookup_insert_ne; [done|]. by intros <-.
    + eapply consumer_mono; [exact Hcons|exact Hfirst| |].
      * intros m Hm. rewrite lookup_insert_ne; [done|]. intros ->. congruence.
      * intros Hs. split; [done|]. rewrite lookup_insert_ne; [done|]. by intros ->.
Qed.

(** ** The consumer *)

(** Steps that only move the consumer. *)
Lemma consumer_moves c L pc :
  queue_ok c L -> (forall t a, consumer c <> at_stub_link t a) -> (forall t a, pc <> at_stub_link t a) ->
  consumer_ok (next (shared c)) (tail_ (shared c)) L pc ->
  queue_ok (Conf (shared c) (producers c) pc (pushed c) (popped c)) L.
Proof.
  intros [Hchain Hprod Hcons Hpush] Hold Hnew Hc. split; cbn; [|done..].
  eapply chain_ext; [|exact Hchain]. intros a b. unfold pending.
  split; (intros [?|[t [E ->]]]; [by left|]); [by apply Hold in E|by apply Hnew in E].
Qed.

(** The first node leaves the queue; what was taken is it unless it is the stub. *)
Lemma consumer_takes c L n pc :
  queue_ok c L -> next (shared c) !! tail_ (shared c) = Some n ->
  (forall t a, consumer c <> at_stub_link t a) -> (forall t a, pc <> at_stub_link t a) ->
  (forall L', consumer_ok (next (shared c)) n (n :: L') pc) ->
  exists L', queue_ok (Conf (set_tail n (shared c)) (producers c) pc (pushed c) (popped c ++ user_nodes [tail_ (shared c)])) L'.
Proof.
  intros [Hchain Hprod Hcons Hpush] Hn Hold Hnew Hc. destruct (chain_advance _ _ _ _ _ _ Hchain Hn) as (L' & -> & Hchain').
  exists (n :: L'). split; cbn.
  - eapply chain_ext; [|exact Hchain']. intros a b. unfold pending.
    split; (intros [?|[t [E ->]]]; [by left|]); [by apply Hold in E|by apply Hnew in E].
  - eapply producers_mono; [exact Hprod|]. intros m _ Hm. split; [|done]. rewrite elem_of_cons in Hm. tauto.
  - apply Hc.
  - rewrite Hpush. change (tail_ (shared c) :: n :: L') with ([tail_ (shared c)] ++ n :: L').
    unfold user_nodes. by rewrite list.filter_app, (app_assoc (A := nat)).
Qed.

(** The stub is put behind the last node, in three steps. *)
Lemma stub_store_ok c L t :
  queue_ok c L -> consumer c = at_stub_store t ->
  queue_ok (Conf (store_null stub (shared c)) (producers c) (at_stub_exchange t) (pushed c) (popped c)) L.
Proof.
  intros [Hchain Hprod Hcons Hpush] Epc. rewrite Epc in Hcons. destruct Hcons as (-> & Hs & HsL). split; cbn; [|..|done].
  - apply chain_store; [|done]. eapply chain_ext; [|exact Hchain]. intros a b. rewrite Epc. unfold pending.
    split; (intros [?|[t [E ->]]]; [by left|discriminate E]).
  - eapply producers_mono; [exact Hprod|]. intros m Hm Hm'. split; [done|]. by rewrite lookup_delete_ne.
  - split; [done|]. split; [done|]. split; [done|]. apply lookup_delete_eq.
Qed.

Lemma stub_exchange_ok c L t :
  queue_ok c L -> consumer c = at_stub_exchange t ->
  queue_ok (Conf (exchange_head stub (shared c)) (producers c) (at_stub_link t (head_ (shared c))) (pushed c) (popped c)) (L ++ [stub]).
Proof.
  intros [Hchain Hprod Hcons Hpush] Epc. rewrite Epc in Hcons. destruct Hcons as (-> & Hs & HsL & Hsn). split; cbn.
  - eapply chain_exchange; [exact Hchain|done|done|]. intros a b. rewrite Epc. unfold pending. split.
    + intros [?|[t [E ->]]]; [left; by left|]. injection E as <- <-. by right.
    + intros [[?|[t [E ?]]]|[-> ->]]; [by left|discriminate E|right; by eexists].
  - eapply producers_mono; [exact Hprod|]. intros m Hm Hm'. split; [|done].
    rewrite list.elem_of_app, list_elem_of_singleton. tauto.
  - done.
  - rewrite Hpush, user_nodes_snoc. change (user_nodes [stub]) with (@nil nat). by rewrite (app_nil_r (A := nat)).
Qed.

Lemma stub_link_ok c L t prev :
  queue_ok c L -> consumer c = at_stub_link t prev ->
  queue_ok (Conf (store_next prev stub (shared c)) (producers c) (at_last t) (pushed c) (popped c)) L.
Proof.
  intros [Hchain Hprod Hcons Hpush] Epc. rewrite Epc in Hcons. destruct Hcons as [-> Hs].
  assert (pending (producers c) (consumer c) prev stub) as Hpend by (right; rewrite Epc; by eexists).
  destruct (chain_wait_in _ _ _ _ _ _ _ Hchain Hpend) as [Hprev Hnone]. split; cbn; [|..|done].
  - eapply chain_link; [exact Hchain|exact Hpend|]. intros a b. rewrite Epc. unfold pending. split.
    + intros [[t Ht]|[t [E _]]]; [|discriminate E]. split; [left; by exists t|]. intros ->.
      assert (pending (producers c) (consumer c) prev b) as Hpb by (left; by exists t).
      assert (b = stub) as -> by (by eapply chain_waits_fun). by apply (held_node _ _ _ Hprod t _ Ht).
    + intros [[?|[t [E ->]]] Hne]; [by left|]. injection E as _ <-. done.
  - eapply producers_mono; [exact Hprod|]. intros m _ Hm. split; [done|]. rewrite lookup_insert_ne; [done|]. by intros <-.
  - by split.
Qed.

Lemma mpsc_consume_ok c L c' : queue_ok c L -> step Consume c = Some c' -> exists L', queue_ok c' L'.
Proof.
  intros H Hstep. pose proof H as [Hchain Hprod Hcons Hpush]. pose proof (chain_first_in _ _ _ _ _ Hchain) as Hfirst.
  cbn [step] in Hstep. destruct (consumer c) as [| |t nx|t|t nx|t|t|t|t prev|t|n] eqn:Epc; cbn [pop_step] in Hstep.
  - injection Hstep as <-. exists L. rewrite (app_nil_r (A := nat)). apply consumer_moves; [done|by rewrite Epc|done|done].
  - injection Hstep as <-. exists L. rewrite (app_nil_r (A := nat)). apply consumer_moves; [done|by rewrite Epc|done|done].
  - destruct Hcons as [-> Hnx]. case_decide as Es; [destruct nx as [n|]|]; injection Hstep as <-; cbn [pop_event].
    + specialize (Hnx n eq_refl). destruct (consumer_takes c L n (at_reload n) H Hnx) as [L' HL']; [by rewrite Epc|done| |].
      * intros L'. split; [done|]. intros ->. destruct (chain_advance _ _ _ _ _ _ Hchain Hnx) as (L0 & EL & _).
        pose proof (chain_nodup _ _ _ _ _ Hchain) as Hnd. rewrite EL, Es in Hnd. apply list.NoDup_cons in Hnd as [Hnd _].
        apply Hnd. by left.
      * exists L'. rewrite Es in HL'. done.
    + exists L. rewrite (app_nil_r (A := nat)). apply consumer_moves; [done|by rewrite Epc|done|done].
    + exists L. rewrite (app_nil_r (A := nat)). apply consumer_moves; [done|by rewrite Epc|done|done].
  - destruct Hcons as [-> Hs]. injection Hstep as <-. exists L. rewrite (app_nil_r (A := nat)).
    apply consumer_moves; [done|by rewrite Epc|done|done].
  - destruct Hcons as (-> & Hs & Hnx). destruct nx as [n|]; injection Hstep as <-; cbn [pop_event].
    + destruct (consumer_takes c L n (at_return (tail_ (shared c))) H (Hnx n eq_refl)) as [L' HL']; [by rewrite Epc|done|done|].
      exists L'. by rewrite user_nodes_one in HL'.
    + exists L. rewrite (app_nil_r (A := nat)). apply consumer_moves; [done|by rewrite Epc|done|done].
  - destruct Hcons as [-> Hs]. case_decide as Eh; injection Hstep as <-; exists L; rewrite (app_nil_r (A := nat)).
    + apply consumer_moves; [done|by rewrite Epc|done|]. split; [done|]. split; [done|].
      rewrite <- Eh in Hchain. rewrite (chain_single _ _ _ _ Hchain). rewrite list_elem_of_singleton. congruence.
    + apply consumer_moves; [done|by rewrite Epc|done|done].
  - injection Hstep as <-. rewrite (app_nil_r (A := nat)). eexists. by apply stub_store_ok.
  - injection Hstep as <-. rewrite (app_nil_r (A := nat)). eexists. by apply stub_exchange_ok.
  - injection Hstep as <-. rewrite (app_nil_r (A := nat)). eexists. by apply stub_link_ok.
  - destruct Hcons as [-> Hs]. destruct (next (shared c) !! tail_ (shared c)) as [n|] eqn:En; injection Hstep as <-; cbn [pop_event].
    + destruct (consumer_takes c L n (at_return (tail_ (shared c))) H En) as [L' HL']; [by rewrite Epc|done|done|].
      exists L'. by rewrite user_nodes_one in HL'.
    + exists L. rewrite (app_nil_r (A := nat)). apply consumer_moves; [done|by rewrite Epc|done|done].
  - injection Hstep as <-. exists L. rewrite (app_nil_r (A := nat)). split; cbn; [|done..].
    eapply chain_ext; [|exact Hchain]. intros a b. unfold pending. split; (intros [?|[t [E ->]]]; [by left|discriminate E]).
Qed.

Lemma mpsc_step_ok c L e c' : queue_ok c L -> allowed c e -> step e c = Some c' -> exists L', queue_ok c' L'.
Proof.
  intros H Ha Hstep. destruct e as [tid n|tid| |].
  - pose proof (queue_ok_content c L H) as Hcont. destruct H as [Hchain Hprod Hcons Hpush]. cbn in Ha, Hstep.
    destruct Ha as (Hn & Hnc & Hfree). destruct (producers c !! tid) eqn:Etid; [done|]. injection Hstep as <-.
    exists L. split; cbn; [| |done..].
    + eapply chain_ext; [|exact Hchain]. intros a b. symmetry. apply mpsc_pending_insert; congruence.
    + apply producers_start; try done. rewrite Hcont in Hnc. unfold user_nodes in Hnc.
      intros HnL. apply Hnc. by apply list_elem_of_filter.
  - by eapply produce_ok.
  - cbn in Hstep. destruct (consumer c) eqn:Epc; try done. injection Hstep as <-. exists L.
    apply consumer_moves; [done|by rewrite Epc|done|done].
  - by eapply mpsc_consume_ok.
Qed.

Lemma history_ok es c : history es c -> exists L, queue_ok c L.
Proof.
  induction 1 as [|es c e c' _ [L IH] Ha Hs]; [by exists [stub]; apply mpsc_start_ok|]. by eapply mpsc_step_ok.
Qed.

(** * What the queue promises *)

(** C21: in whatever order the threads take their steps, the nodes come out in
    the order of the exchanges of their pushes, each as often as it was pushed:
    what was taken is a beginning of what was exchanged, and the rest, which has
    no node twice, is what the queue holds. *)
Theorem mpsc_fifo es c : history es c -> pushed c = popped c ++ content c /\ NoDup (content c).
Proof.
  intros H. destruct (history_ok es c H) as [L HL]. rewrite (queue_ok_content c L HL). destruct HL as [Hchain _ _ Hpush].
  split; [done|]. apply list.NoDup_filter. apply Hchain.
Qed.

Definition run (es : list event) : option conf := foldl (fun c e => c ← c; step e c) (Some start) es.

(** Two producers and the consumer, interleaved. *)
Definition interleaved : list event :=
  [Push 1 10; Produce 1; Push 2 20; Produce 2; Produce 2; Produce 2; Produce 1; Pop; Produce 2; Consume; Produce 1; Consume;
   Produce 1; Consume; Consume; Consume].

(** The obligation of the callers, decided. *)
Definition allowedb (c : conf) (e : event) : bool :=
  match e with
  | Push _ n => negb (n =? stub)%nat && forallb (fun m => negb (n =? m)%nat) (content c) &&
                forallb (fun p => negb (node_of p.2 =? n)%nat) (map_to_list (producers c))
  | _ => true
  end.

Lemma allowedb_ok c e : allowedb c e = true -> allowed c e.
Proof.
  destruct e as [tid n| | |]; try done. cbn. intros H. apply andb_true_iff in H as [H H3]. apply andb_true_iff in H as [H1 H2].
  rewrite forallb_forall in H2, H3. split; [by apply Nat.eqb_neq, negb_true_iff|]. split.
  - intros Hin. apply list_elem_of_In in Hin. specialize (H2 n Hin). by rewrite Nat.eqb_refl in H2.
  - intros t pc Ht E. specialize (H3 (t, pc)). rewrite <- list_elem_of_In, elem_of_map_to_list in H3. specialize (H3 Ht).
    cbn in H3. by rewrite E, Nat.eqb_refl in H3.
Qed.

Fixpoint run_allowed (c : conf) (es : list event) : option conf :=
  match es with
  | [] => Some c
  | e :: es => if allowedb c e then c' ← step e c; run_allowed c' es else None
  end.

Lemma run_allowed_history es0 c es c' : history es0 c -> run_allowed c es = Some c' -> history (es0 ++ es) c'.
Proof.
  revert es0 c. induction es as [|e es IH]; intros es0 c H Hr; cbn [run_allowed] in Hr.
  - injection Hr as <-. by rewrite (app_nil_r (A := event)).
  - destruct (allowedb c e) eqn:Ea; [|done]. apply bind_Some in Hr as (c1 & Hs & Hr).
    replace (es0 ++ e :: es) with ((es0 ++ [e]) ++ es) by (by rewrite <- (app_assoc (A := event))).
    apply (IH _ c1); [|done]. apply (history_step _ c); [done|by apply allowedb_ok|done].
Qed.

Lemma mpsc_fifo_witness :
  exists c, history interleaved c /\ popped c = [20%nat] /\ pushed c = [20; 10]%nat /\ content c = [10%nat].
Proof.
  destruct (run_allowed start interleaved) as [c|] eqn:E; [|vm_compute in E; discriminate E]. exists c.
  assert (history interleaved c) as H by (exact (run_allowed_history [] start interleaved c history_start E)).
  split; [exact H|]. pose proof (mpsc_fifo interleaved c H) as [Hp _].
  assert (forall A (f : conf -> A), f c = f (default start (run_allowed start interleaved))) as Ef
    by (intros A f; rewrite E; reflexivity).
  assert (popped c = [20%nat]) as E1 by (rewrite (Ef _ popped); vm_compute; reflexivity).
  assert (pushed c = [20; 10]%nat) as E2 by (rewrite (Ef _ pushed); vm_compute; reflexivity).
  split; [exact E1|]. split; [exact E2|]. rewrite E1, E2 in Hp. injection Hp as Hp. symmetry. exact Hp.
Defined.

(** An empty queue is reported only when nothing is in it, or when a push has
    not returned: the producer that took the stub has yet to link its node. *)
Lemma empty_means es c :
  history es c -> consumer c = at_load -> tail_ (shared c) = stub -> next (shared c) !! stub = None ->
  content c = [] \/ exists tid n, producers c !! tid = Some (at_link stub n).
Proof.
  intros H Hc Ht Hn. destruct (history_ok es c H) as [L HL]. rewrite (queue_ok_content c L HL). destruct HL as [Hchain _ _ _].
  rewrite Ht in Hchain. pose proof Hchain as [Hnd Hfirst _ _ Hlinks _]. destruct L as [|a L]; [done|].
  cbn in Hfirst. injection Hfirst as ->. destruct L as [|b L]; [by left|].
  destruct (Hlinks 0%nat stub b eq_refl eq_refl) as [?|[_ [[tid Htid]|[t [E _]]]]]; [congruence|right; by exists tid, b|congruence].
Qed.

(** A push that has returned can still be missed: the second producer is done,
    the first one is between its exchange and its link. *)
Example returned_push_missed :
  let es := [Push 1 10; Produce 1; Produce 1; Produce 1; Push 2 20; Produce 2; Produce 2; Produce 2; Produce 2; Pop; Consume] in
  exists c, run_allowed start es = Some c /\ producers c !! 2%nat = None /\ content c = [10; 20]%nat /\
    (pop_step (consumer c) (shared c)).2 = finds_empty.
Proof. eexists. split; [vm_compute; reflexivity|]. vm_compute. split_and!; reflexivity. Qed.

(** ** Progress *)

(** [k] steps of the consumer. *)
Fixpoint consume_n (k : nat) (c : conf) : option conf :=
  match k with
  | O => Some c
  | S k => c' ← step Consume c; consume_n k c'
  end.

Lemma consume_n_app j k c c' : consume_n j c = Some c' -> consume_n (j + k) c = consume_n k c'.
Proof.
  revert c. induction j as [|j IH]; intros c H; cbn [plus consume_n] in *; [by injection H as ->|].
  apply bind_Some in H as (c1 & -> & H). by apply IH.
Qed.

(** The node [n] the consumer has found to be the first one; no link is
    missing. When it is the only one, the stub is put behind it first. *)
Lemma pop_here nx h n L sz ps pu po :
  n <> stub -> chain nx n h (n :: L) (fun _ _ => False) ->
  exists k q', (k <= 7)%nat /\
    consume_n k (Conf (Queue nx h n sz) ps (at_next n (nx !! n)) pu po) = Some (Conf q' ps idle pu (po ++ [n])).
Proof.
  intros Hn [Hnd _ Hlast Hend Hlinks _]. destruct L as [|m L].
  - cbn in Hlast. injection Hlast as <-. exists 7%nat. rewrite Hend. eexists. split; [lia|].
    cbn [consume_n step consumer pop_step shared producers pushed popped pop_event mbind option_bind head_].
    rewrite decide_True by done.
    cbn [consume_n step consumer pop_step shared producers pushed popped pop_event mbind option_bind
         head_ next tail_ store_null exchange_head store_next set_tail].
    rewrite lookup_insert_eq.
    cbn [consume_n step consumer pop_step shared producers pushed popped pop_event mbind option_bind].
    by rewrite !(app_nil_r (A := nat)).
  - destruct (Hlinks 0%nat n m eq_refl eq_refl) as [E|[_ []]]. rewrite E. exists 2%nat. eexists. split; [lia|].
    cbn [consume_n step consumer pop_step shared producers pushed popped pop_event mbind option_bind].
    by rewrite !(app_nil_r (A := nat)).
Qed.

(** A pop that no producer disturbs and that finds every link made takes the
    node first exchanged, in at most ten steps of its own. *)
Theorem mpsc_pop_delivers es c n rest :
  history es c -> producers c = ∅ -> consumer c = idle -> content c = n :: rest ->
  exists c1 k c2, step Pop c = Some c1 /\ (k <= 10)%nat /\ consume_n k c1 = Some c2 /\
    consumer c2 = idle /\ popped c2 = popped c ++ [n] /\ pushed c2 = pushed c.
Proof.
  intros H Hps Hidle Hcont. destruct (history_ok es c H) as [L HL]. rewrite (queue_ok_content c L HL) in Hcont.
  destruct HL as [Hchain _ _ _].
  apply (chain_ext _ _ _ _ _ (fun _ _ => False)) in Hchain.
  2: { intros a b. rewrite Hps, Hidle. split; [|done]. intros [[tid E]|[t [E _]]]; [by rewrite lookup_empty in E|done]. }
  destruct c as [[nx h t sz] ps pc pu po]. cbn in *. subst ps pc.
  pose proof Hchain as [Hnd Hfirst _ _ Hlinks _]. destruct L as [|a L]; [done|]. cbn in Hfirst. injection Hfirst as ->.
  exists (Conf (Queue nx h t sz) ∅ at_load pu po). destruct (decide (t = stub)) as [->|Ht].
  - change (user_nodes (stub :: L)) with (user_nodes L) in Hcont. destruct L as [|b L]; [done|].
    destruct (Hlinks 0%nat stub b eq_refl eq_refl) as [E|[_ []]].
    assert (b <> stub) as Hb by (intros ->; apply list.NoDup_cons in Hnd as [Hnd _]; apply Hnd; by left).
    unfold user_nodes in Hcont. rewrite list.filter_cons_True in Hcont by done. injection Hcont as -> _.
    destruct (chain_advance _ _ _ _ _ _ Hchain E) as (L0 & [= <-] & Hchain').
    destruct (pop_here nx h n L sz ∅ pu po Hb Hchain') as (k & q' & Hk & Hr).
    exists (3 + k)%nat, (Conf q' ∅ idle pu (po ++ [n])). split; [reflexivity|]. split; [lia|]. split; [|by split_and!].
    rewrite <- Hr. apply consume_n_app. cbn. rewrite E, decide_True by done. cbn. by rewrite !(app_nil_r (A := nat)).
  - unfold user_nodes in Hcont. rewrite list.filter_cons_True in Hcont by done. injection Hcont as -> _.
    destruct (pop_here nx h n L sz ∅ pu po Ht Hchain) as (k & q' & Hk & Hr).
    exists (2 + k)%nat, (Conf q' ∅ idle pu (po ++ [n])). split; [reflexivity|]. split; [lia|]. split; [|by split_and!].
    rewrite <- Hr. apply consume_n_app. cbn. rewrite decide_False by done. cbn. by rewrite !(app_nil_r (A := nat)).
Qed.

(** After the two pushes have returned. *)
Lemma mpsc_pop_delivers_witness :
  let es := [Push 1 10; Produce 1; Produce 1; Produce 1; Push 2 20; Produce 2; Produce 2; Produce 2; Produce 2; Produce 1]%nat in
  exists c c1 k c2, run_allowed start es = Some c /\ step Pop c = Some c1 /\ (k <= 10)%nat /\ consume_n k c1 = Some c2 /\
    popped c2 = [10%nat].
Proof.
  intros es. destruct (run_allowed start es) as [c|] eqn:E; [|vm_compute in E; discriminate E].
  assert (history es c) as H by (exact (run_allowed_history [] start es c history_start E)).
  assert (forall A (f : conf -> A), f c = f (default start (run_allowed start es))) as Ef by (intros A f; rewrite E; reflexivity).
  assert (producers c = ∅) as E1 by (rewrite (Ef _ producers); vm_compute; reflexivity).
  assert (consumer c = idle) as E2 by (rewrite (Ef _ consumer); vm_compute; reflexivity).
  assert (content c = [10; 20]%nat) as E3 by (rewrite (Ef _ content); vm_compute; reflexivity).
  assert (popped c = []) as E4 by (rewrite (Ef _ popped); vm_compute; reflexivity).
  destruct (mpsc_pop_delivers es c 10%nat [20%nat] H E1 E2 E3) as (c1 & k & c2 & Hp & Hk & Hc & _ & Hpop & _).
  exists c, c1, k, c2. split; [reflexivity|]. split; [exact Hp|]. split; [exact Hk|]. split; [exact Hc|].
  rewrite Hpop, E4. reflexivity.
Defined.
