(* ===== verification/Center.v ===== *)
(** The accounts of the center: src/gobang/center/center.cpp and center.h. The
    accounts are an array of slots in shared memory that survives the process;
    the center finds a slot by the number of the user and by the name of the
    account, and keeps the free slots in a queue. Every minute a coroutine frees
    the slots that nobody used for an hour and whose contents are in the
    database; it gives way after every 256 slots, so other coroutines run
    between two parts of a sweep. *)

From stdpp Require Import gmap.
From S2P Require Import Prelude.

(** The text of [account] and [password] is what precedes the first zero byte. *)
Record account_info := Info {
  last_time : Z; version : Z; version_db : Z; userid : Z; account : bytes; password : bytes }.

(** A slot filled with zeros. *)
Definition blank : account_info := Info 0 0 0 0 [] [].

(** The shared memory and the members; a pointer is the number of a slot. *)
Record center := Center {
  slots : list account_info;
  userid_to_info : gmap Z nat;
  account_to_info : gmap bytes nat;
  empty_info : list nat;
  userid_not_found : gset Z;
  account_not_found : gset bytes }.

(** * Restoring *)

(** One slot of memory that was there already. *)
Definition restore_slot (i : nat) (temp : account_info) (c : center) : center :=
  if userid temp =? 0 then
    Center (slots c) (userid_to_info c) (account_to_info c) (empty_info c ++ [i]) (userid_not_found c) (account_not_found c)
  else
    Center (slots c) (<[userid temp := i]> (userid_to_info c)) (<[account temp := i]> (account_to_info c)) (empty_info c)
           (userid_not_found c) (account_not_found c).

(** The slots from number [i] on. *)
Fixpoint restore_slots (i : nat) (memory : list account_info) (c : center) : center :=
  match memory with
  | [] => c
  | temp :: memory => restore_slots (S i) memory (restore_slot i temp c)
  end.

(** [restore_shm]: [is_create] tells whether the memory is new. *)
Definition restore_shm (is_create : bool) (memory : list account_info) : center :=
  if is_create then
    let data := replicate (length memory) blank in
    Center data ∅ ∅ (seq 0 (length memory)) ∅ ∅
  else restore_slots 0 memory (Center memory ∅ ∅ [] ∅ ∅).

(** * The sweep *)

Definition timeout_delete : Z := 3600.

(** Whether the slot is to be freed at [now]. *)
Definition expired (now : Z) (temp : account_info) : bool :=
  negb (userid temp =? 0) && (version temp =? version_db temp) && negb (now - last_time temp <? timeout_delete).

(** One turn of the loop of [check_account_info]. *)
Definition check_slot (now : Z) (i : nat) (c : center) : center :=
  match slots c !! i with
  | Some temp =>
    if expired now temp then
      Center (<[i := blank]> (slots c)) (delete (userid temp) (userid_to_info c)) (delete (account temp) (account_to_info c))
             (empty_info c ++ [i]) (userid_not_found c) (account_not_found c)
    else c
  | None => c
  end.

(** The coroutine suspends before it looks at slot [i]. *)
Definition gives_way (i : nat) : bool := (Nat.land i 255 =? 255)%nat.

(** The turns from slot [i] up to the next suspension or the end, [fuel] being
    the slots that are left; the slot it stops at. *)
Fixpoint check_part (fuel : nat) (now : Z) (i : nat) (c : center) : nat * center :=
  match fuel with
  | O => (i, c)
  | S fuel => if gives_way i then (i, c) else check_part fuel now (S i) (check_slot now i c)
  end.

(** A resumption of the coroutine at slot [i]: the first slot is not tested for
    giving way again. *)
Definition check_resume (now : Z) (i : nat) (c : center) : nat * center :=
  match length (slots c) - i with
  | O => (i, c)
  | S fuel => check_part fuel now (S i) (check_slot now i c)
  end%nat.

(** The start of a sweep. *)
Definition check_start (now : Z) (c : center) : nat * center := check_part (length (slots c)) now 0 c.

(** [clear_not_found]. *)
Definition clear_not_found (c : center) : center :=
  Center (slots c) (userid_to_info c) (account_to_info c) (empty_info c) ∅ ∅.

(** A whole sweep: the time is read again at every resumption. *)
Fixpoint sweep_from (parts : nat) (now : nat -> Z) (ic : nat * center) : nat * center :=
  match parts with
  | O => ic
  | S parts => let '(i, c) := sweep_from parts now ic in check_resume (now (S parts)) i c
  end.

Definition sweep (parts : nat) (now : nat -> Z) (c : center) : nat * center := sweep_from parts now (check_start (now 0%nat) c).

(** * The invariant *)

(** The users and the accounts in the slots are different. *)
Definition slots_differ (l : list account_info) : Prop :=
  forall i j a b, l !! i = Some a -> l !! j = Some b -> userid a <> 0 -> userid b <> 0 ->
    (userid a = userid b \/ account a = account b) -> i = j.

(** The free slots are in the queue once each, every other slot is found by its
    user and by its account, and nothing else is found. *)
Record center_ok (c : center) : Prop := {
  ok_differ : slots_differ (slots c);
  ok_nodup : NoDup (empty_info c);
  ok_empty : forall i, i ∈ empty_info c <-> exists a, slots c !! i = Some a /\ userid a = 0;
  ok_userid : forall u i, userid_to_info c !! u = Some i <-> exists a, slots c !! i = Some a /\ userid a <> 0 /\ userid a = u;
  ok_account : forall n i, account_to_info c !! n = Some i <-> exists a, slots c !! i = Some a /\ userid a <> 0 /\ account a = n }.

(** ** Restoring *)

(** The indices were taken care of up to [k]. *)
Record restored (k : nat) (c : center) : Prop := {
  re_nodup : NoDup (empty_info c);
  re_empty : forall i, i ∈ empty_info c <-> (i < k)%nat /\ exists a, slots c !! i = Some a /\ userid a = 0;
  re_userid : forall u i, userid_to_info c !! u = Some i <-> (i < k)%nat /\ exists a, slots c !! i = Some a /\ userid a <> 0 /\ userid a = u;
  re_account : forall n i, account_to_info c !! n = Some i <-> (i < k)%nat /\ exists a, slots c !! i = Some a /\ userid a <> 0 /\ account a = n }.

Lemma restore_slot_slots i a c : slots (restore_slot i a c) = slots c.
Proof. unfold restore_slot. by case_match. Qed.

Lemma restore_slot_ok k a c :
  slots_differ (slots c) -> slots c !! k = Some a -> restored k c -> restored (S k) (restore_slot k a c).
Proof.
  intros Hd Ha [Hnd He Hu Hn]. unfold restore_slot.
  assert (forall i (P : account_info -> Prop), (i < S k)%nat /\ (exists b, slots c !! i = Some b /\ P b) <->
            (i < k)%nat /\ (exists b, slots c !! i = Some b /\ P b) \/ i = k /\ P a) as Hsplit.
  { intros i P. split.
    - intros (Hi & b & Hb & HP). destruct (decide (i = k)) as [->|Hne]; [right; split; [done|]; by simplify_eq|].
      left. split; [lia|]. by exists b.
    - intros [(Hi & b & Hb & HP)|[-> HP]]; [split; [lia|by exists b]|split; [lia|by exists a]]. }
  destruct (Z.eqb_spec (userid a) 0) as [E|E]; split; cbn.
  - apply list.NoDup_app. split; [done|]. split; [|apply NoDup_singleton]. intros i Hi Hi'. apply list_elem_of_singleton in Hi' as ->.
    apply He in Hi as [Hi _]. lia.
  - intros i. rewrite list.elem_of_app, list_elem_of_singleton, He, Hsplit. tauto.
  - intros u i. rewrite Hu, Hsplit. split; [by left|]. intros [?|(-> & ? & _)]; done.
  - intros n i. rewrite Hn, Hsplit. split; [by left|]. intros [?|(-> & ? & _)]; done.
  - done.
  - intros i. rewrite He, Hsplit. split; [by left|]. intros [?|(-> & ?)]; done.
  - intros u i. rewrite Hsplit. destruct (decide (userid a = u)) as [<-|Hne].
    + rewrite lookup_insert_eq. split; [intros [= <-]; by right|]. intros [(Hi & b & Hb & Hb0 & Eb)|[-> _]]; [|done].
      f_equal. symmetry. apply (Hd i k b a); auto.
    + rewrite lookup_insert_ne, Hu by done. split; [by left|]. intros [?|(_ & _ & ?)]; done.
  - intros n i. rewrite Hsplit. destruct (decide (account a = n)) as [<-|Hne].
    + rewrite lookup_insert_eq. split; [intros [= <-]; by right|]. intros [(Hi & b & Hb & Hb0 & Eb)|[-> _]]; [|done].
      f_equal. symmetry. apply (Hd i k b a); auto.
    + rewrite lookup_insert_ne, Hn by done. split; [by left|]. intros [?|(_ & _ & ?)]; done.
Qed.

Lemma restore_slots_ok memory k c :
  slots_differ (slots c) -> drop k (slots c) = memory -> restored k c ->
  let c' := restore_slots k memory c in slots c' = slots c /\ restored (k + length memory) c'.
Proof.
  revert k c. induction memory as [|a memory IH]; intros k c Hd Hm Hr; cbn [restore_slots length].
  - by rewrite Nat.add_0_r.
  - assert (slots c !! k = Some a /\ drop (S k) (slots c) = memory) as [Ha Hm'].
    { split.
      - pose proof (lookup_drop (slots c) k 0) as E. rewrite Hm, Nat.add_0_r in E. by rewrite <- E.
      - pose proof (drop_drop (slots c) 1 k) as E. rewrite Hm in E. rewrite Nat.add_1_r in E. by rewrite <- E. }
    destruct (IH (S k) (restore_slot k a c)) as [Es Hr'].
    + by rewrite restore_slot_slots.
    + by rewrite restore_slot_slots.
    + by apply restore_slot_ok.
    + rewrite Es, restore_slot_slots. split; [done|]. by rewrite Nat.add_succ_r.
Qed.

Lemma restore_shm_slots is_create memory :
  slots (restore_shm is_create memory) = if is_create then replicate (length memory) blank else memory.
Proof.
  assert (forall m i c, slots (restore_slots i m c) = slots c) as H.
  { induction m as [|a m IH]; intros i c; [done|]. cbn. by rewrite IH, restore_slot_slots. }
  unfold restore_shm. destruct is_create; [done|]. by rewrite H.
Qed.

(** Restoring makes the tables fit the memory: new memory is all free; in
    memory with different users and accounts every used slot is found by both
    keys and every other slot is free. *)
Theorem restore_shm_ok is_create memory : slots_differ memory -> center_ok (restore_shm is_create memory).
Proof.
  intros Hd. unfold restore_shm. destruct is_create.
  - split; cbn.
    + intros i j a b Ha Hb Hua. apply lookup_replicate in Ha as [-> _]. done.
    + apply NoDup_seq.
    + intros i. rewrite elem_of_seq. split.
      * intros Hi. exists blank. split; [apply lookup_replicate; split; [done|lia]|done].
      * intros (a & Ha & _). apply lookup_replicate in Ha as [_ Ha]. lia.
    + intros u i. rewrite lookup_empty. split; [done|]. intros (a & Ha & Hua & _). by apply lookup_replicate in Ha as [-> _].
    + intros n i. rewrite lookup_empty. split; [done|]. intros (a & Ha & Hua & _). by apply lookup_replicate in Ha as [-> _].
  - destruct (restore_slots_ok memory 0 (Center memory ∅ ∅ [] ∅ ∅)) as [Es [Hnd He Hu Hn]].
    + done.
    + done.
    + split; cbn.
      * constructor.
      * intros i. split; [by intros ?%not_elem_of_nil|]. intros [? _]. lia.
      * intros u i. rewrite lookup_empty. split; [done|]. intros [? _]. lia.
      * intros n i. rewrite lookup_empty. split; [done|]. intros [? _]. lia.
    + set (c := restore_slots _ _ _) in *. cbn in Es.
      assert (forall i a, slots c !! i = Some a -> (i < length memory)%nat) as Hlt.
      { intros i a Ha. rewrite Es in Ha. by apply lookup_lt_Some in Ha. }
      split.
      * by rewrite Es.
      * done.
      * intros i. rewrite He. split; [by intros [_ ?]|]. intros (a & Ha & ?). split; [by eapply Hlt|by exists a].
      * intros u i. rewrite Hu. split; [by intros [_ ?]|]. intros (a & Ha & ?). split; [by eapply Hlt|by exists a].
      * intros n i. rewrite Hn. split; [by intros [_ ?]|]. intros (a & Ha & ?). split; [by eapply Hlt|by exists a].
Qed.

(** Two slots of one user. *)
Lemma restore_shm_ok_witness :
  let memory := [Info 100 3 3 7 [65] [66]; blank; Info 200 4 3 9 [67] [68]] in
  let c := restore_shm false memory in
  center_ok c /\ userid_to_info c !! 9 = Some 2%nat /\ account_to_info c !! [65] = Some 0%nat /\ empty_info c = [1%nat].
Proof.
  intros memory c. assert (center_ok c) as H.
  { apply (restore_shm_ok false memory). intros i j a b Ha Hb Hua Hub Heq.
    destruct i as [|[|[|i]]], j as [|[|[|j]]]; cbn in Ha, Hb; try discriminate Ha; try discriminate Hb;
      injection Ha as <-; injection Hb as <-; cbn in Hua, Hub, Heq;
      first [reflexivity | lia | destruct Heq as [Heq|Heq]; discriminate Heq]. }
  split; [exact H|]. vm_compute. split; [reflexivity|]. split; reflexivity.
Defined.

(** ** The sweep *)

Lemma check_slot_lookup now i c j :
  slots (check_slot now i c) !! j =
  (fun a => if decide (j = i) then if expired now a then blank else a else a) <$> slots c !! j.
Proof.
  unfold check_slot. destruct (slots c !! i) as [a|] eqn:Ea; [destruct (expired now a) eqn:Ee|]; cbn.
  - destruct (decide (j = i)) as [->|Hne].
    + rewrite list_lookup_insert_eq by (by apply lookup_lt_Some in Ea). rewrite Ea. cbn. by rewrite Ee.
    + rewrite list_lookup_insert_ne by done. by destruct (slots c !! j).
  - destruct (decide (j = i)) as [->|Hne]; [rewrite Ea; cbn; by rewrite Ee|by destruct (slots c !! j)].
  - destruct (decide (j = i)) as [->|Hne]; [by rewrite Ea|by destruct (slots c !! j)].
Qed.

Lemma check_slot_length now i c : length (slots (check_slot now i c)) = length (slots c).
Proof. unfold check_slot. repeat case_match; [apply length_insert|done..]. Qed.

(** A slot freed goes from the tables to the queue. *)
Lemma check_slot_ok now i c : center_ok c -> center_ok (check_slot now i c).
Proof.
  intros H. unfold check_slot. destruct (slots c !! i) as [a|] eqn:Ea; [|done]. destruct (expired now a) eqn:Ee; [|done].
  assert (userid a <> 0) as Hua by (unfold expired in Ee; lia). destruct H as [Hd Hnd He Hu Hn].
  assert (forall j b, <[i:=blank]> (slots c) !! j = Some b <-> j = i /\ b = blank \/ j <> i /\ slots c !! j = Some b) as Hl.
  { intros j b. destruct (decide (j = i)) as [->|Hne].
    - rewrite list_lookup_insert_eq by (by apply lookup_lt_Some in Ea). split; [intros [= <-]; by left|].
      intros [[_ ->]|[? _]]; done.
    - rewrite list_lookup_insert_ne by done. split; [by right|]. intros [[? _]|[_ ?]]; done. }
  split; cbn.
  - intros j k x y Hx Hy Hux Huy E. apply Hl in Hx as [[-> ->]|[Hj Hx]], Hy as [[-> ->]|[Hk Hy]]; try done.
    by apply (Hd j k x y).
  - apply list.NoDup_app. split; [done|]. split; [|apply NoDup_singleton]. intros j Hj Hj'. apply list_elem_of_singleton in Hj' as ->.
    apply He in Hj as (b & Hb & Hb0). simplify_eq.
  - intros j. rewrite list.elem_of_app, list_elem_of_singleton, He. split.
    + intros [(b & Hb & Hb0)| ->]; [|exists blank; split; [apply Hl; by left|done]].
      exists b. split; [|done]. apply Hl. right. split; [|done]. intros ->. simplify_eq.
    + intros (b & Hb & Hb0). apply Hl in Hb as [[-> _]|[_ Hb]]; [by right|left; by exists b].
  - intros u j. rewrite lookup_delete_Some, Hu. split.
    + intros (Hne & b & Hb & Hb0 & Eb). exists b. split; [|done]. apply Hl. right. split; [|done]. intros ->. simplify_eq.
    + intros (b & Hb & Hb0 & Eb). apply Hl in Hb as [[_ ->]|[Hj Hb]]; [done|]. split; [|by exists b].
      intros E. apply Hj, (Hd j i b a); [done..|]. left. congruence.
  - intros n j. rewrite lookup_delete_Some, Hn. split.
    + intros (Hne & b & Hb & Hb0 & Eb). exists b. split; [|done]. apply Hl. right. split; [|done]. intros ->. simplify_eq.
    + intros (b & Hb & Hb0 & Eb). apply Hl in Hb as [[_ ->]|[Hj Hb]]; [done|]. split; [|by exists b].
      intros E. apply Hj, (Hd j i b a); [done..|]. right. congruence.
Qed.

(** The slots from [i] on, [n] of them. *)
Definition check_range (now : Z) (i n : nat) (c : center) : center := foldl (fun c k => check_slot now k c) c (seq i n).

Lemma check_range_ok now i n c : center_ok c -> center_ok (check_range now i n c).
Proof. revert i c. induction n as [|n IH]; intros i c H; [done|]. cbn. by apply IH, check_slot_ok. Qed.

Lemma check_range_length now i n c : length (slots (check_range now i n c)) = length (slots c).
Proof. revert i c. induction n as [|n IH]; intros i c; [done|]. cbn. fold (check_range now (S i) n (check_slot now i c)). by rewrite IH, check_slot_length. Qed.

Lemma check_range_lookup now i n c j :
  slots (check_range now i n c) !! j =
  (fun a => if decide (i <= j < i + n)%nat then if expired now a then blank else a else a) <$> slots c !! j.
Proof.
  revert i c. induction n as [|n IH]; intros i c; cbn.
  - destruct (slots c !! j); [|done]. cbn. by rewrite decide_False by lia.
  - fold (check_range now (S i) n (check_slot now i c)). rewrite IH, check_slot_lookup.
    destruct (slots c !! j) as [a|]; [|done]. cbn. f_equal. repeat case_decide; try lia; done.
Qed.

Lemma check_range_in now i n c j :
  (i <= j < i + n)%nat ->
  slots (check_range now i n c) !! j = (fun a => if expired now a then blank else a) <$> slots c !! j.
Proof. intros H. rewrite check_range_lookup. destruct (slots c !! j); [|done]. cbn. by rewrite decide_True. Qed.

Lemma check_range_out now i n c j : (j < i \/ i + n <= j)%nat -> slots (check_range now i n c) !! j = slots c !! j.
Proof. intros H. rewrite check_range_lookup. destruct (slots c !! j); [|done]. cbn. by rewrite decide_False by lia. Qed.

(** Where a part that starts at [i] stops. *)
Fixpoint next_stop (fuel i : nat) : nat :=
  match fuel with
  | O => i
  | S fuel => if gives_way i then i else next_stop fuel (S i)
  end.

Lemma next_stop_ge fuel i : (i <= next_stop fuel i)%nat.
Proof. revert i. induction fuel as [|fuel IH]; intros i; cbn; [lia|]. destruct (gives_way i); [lia|]. specialize (IH (S i)). lia. Qed.

Lemma check_part_range fuel now i c :
  check_part fuel now i c = (next_stop fuel i, check_range now i (next_stop fuel i - i) c).
Proof.
  revert i c. induction fuel as [|fuel IH]; intros i c; cbn [check_part next_stop].
  - by rewrite Nat.sub_diag.
  - destruct (gives_way i); [by rewrite Nat.sub_diag|]. rewrite IH. pose proof (next_stop_ge fuel (S i)).
    by replace (next_stop fuel (S i) - i)%nat with (S (next_stop fuel (S i) - S i)) by lia.
Qed.

Lemma check_resume_range now i c n :
  length (slots c) = n -> (i < n)%nat ->
  check_resume now i c = (next_stop (n - S i) (S i), check_range now i (next_stop (n - S i) (S i) - i) c).
Proof.
  intros Hl Hi. unfold check_resume. rewrite Hl. replace (n - i)%nat with (S (n - S i)) by lia. rewrite check_part_range.
  pose proof (next_stop_ge (n - S i) (S i)).
  by replace (next_stop (n - S i) (S i) - i)%nat with (S (next_stop (n - S i) (S i) - S i)) by lia.
Qed.

(** The number of slots of the program. *)
Definition shm_account_size : nat := 1024.

(** A sweep of the program's memory ends with the last slot and frees
    exactly the slots that are used, saved and idle for an hour when it comes to
    them - the time is read again after every suspension - and the tables fit
    the memory again. *)
Theorem sweep_exact now c :
  center_ok c -> length (slots c) = shm_account_size ->
  let '(i, c') := sweep 4 now c in
  i = shm_account_size /\ center_ok c' /\
  forall j a, slots c !! j = Some a ->
    slots c' !! j = Some (if expired (now ((j + 1) / 256)%nat) a then blank else a).
Proof.
  intros H Hl. unfold sweep, check_start. rewrite Hl, check_part_range.
  replace (next_stop shm_account_size 0) with 255%nat by (vm_compute; reflexivity).
  set (c0 := check_range (now 0%nat) 0 (255 - 0) c). assert (length (slots c0) = shm_account_size) as H0 by (unfold c0; by rewrite check_range_length).
  cbn [sweep_from]. rewrite (check_resume_range _ 255 c0 shm_account_size H0) by (unfold shm_account_size; lia).
  replace (next_stop (shm_account_size - 256) 256) with 511%nat by (vm_compute; reflexivity).
  set (c1 := check_range _ 255 (511 - 255) c0). assert (length (slots c1) = shm_account_size) as H1 by (unfold c1; by rewrite check_range_length).
  rewrite (check_resume_range _ 511 c1 shm_account_size H1) by (unfold shm_account_size; lia).
  replace (next_stop (shm_account_size - 512) 512) with 767%nat by (vm_compute; reflexivity).
  set (c2 := check_range _ 511 (767 - 511) c1). assert (length (slots c2) = shm_account_size) as H2 by (unfold c2; by rewrite check_range_length).
  rewrite (check_resume_range _ 767 c2 shm_account_size H2) by (unfold shm_account_size; lia).
  replace (next_stop (shm_account_size - 768) 768) with 1023%nat by (vm_compute; reflexivity).
  set (c3 := check_range _ 767 (1023 - 767) c2). assert (length (slots c3) = shm_account_size) as H3 by (unfold c3; by rewrite check_range_length).
  rewrite (check_resume_range _ 1023 c3 shm_account_size H3) by (unfold shm_account_size; lia).
  replace (next_stop (shm_account_size - 1024) 1024) with 1024%nat by (vm_compute; reflexivity).
  split; [done|]. split; [by do 5 apply check_range_ok|].
  intros j a Ha. pose proof (lookup_lt_Some _ _ _ Ha) as Hj. rewrite Hl in Hj. unfold shm_account_size in Hj.
  set (k := ((j + 1) / 256)%nat).
  assert (k = 0 /\ j < 255 \/ k = 1 /\ 255 <= j < 511 \/ k = 2 /\ 511 <= j < 767 \/ k = 3 /\ 767 <= j < 1023 \/
          k = 4 /\ j = 1023)%nat as Hk by (unfold k; divlia).
  clearbody k. unfold c3, c2, c1, c0.
  destruct Hk as [[-> Hj']|[[-> Hj']|[[-> Hj']|[[-> Hj']|[-> Hj']]]]];
    repeat first [rewrite check_range_out by lia | rewrite check_range_in by lia]; by rewrite Ha.
Qed.

(** A slot idle for an hour, one not saved, one in use. *)
Lemma sweep_exact_witness :
  let memory := [Info 100 3 3 7 [65] [66]; Info 100 4 3 8 [67] []; Info 3000 1 1 9 [68] []] ++ replicate 1021 blank in
  let c := restore_shm false memory in
  let c' := snd (sweep 4 (fun _ => 4000) c) in
  slots c' !! 0%nat = Some blank /\ slots c' !! 1%nat = Some (Info 100 4 3 8 [67] []) /\ center_ok c'.
Proof.
  intros memory c c'.
  assert (center_ok c) as H.
  { apply (restore_shm_ok false memory). intros i j a b Ha Hb Hua Hub Heq.
    assert (forall k x, memory !! k = Some x -> userid x <> 0 ->
            (k = 0%nat /\ x = Info 100 3 3 7 [65] [66]) \/ (k = 1%nat /\ x = Info 100 4 3 8 [67] []) \/
            (k = 2%nat /\ x = Info 3000 1 1 9 [68] [])) as Hk.
    { intros k x Hx Hu. apply lookup_app_Some in Hx as [Hx|[_ Hx]].
      - destruct k as [|[|[|k]]]; cbn in Hx; [injection Hx as <-; auto..|discriminate Hx].
      - apply lookup_replicate in Hx as [-> _]. destruct (Hu eq_refl). }
    destruct (Hk i a Ha Hua) as [[-> ->]|[[-> ->]|[-> ->]]], (Hk j b Hb Hub) as [[-> ->]|[[-> ->]|[-> ->]]];
      cbn in Heq; first [reflexivity | destruct Heq as [Heq|Heq]; discriminate Heq]. }
  assert (slots c = memory) as Em by (apply (restore_shm_slots false memory)).
  assert (length (slots c) = shm_account_size) as Hl by (rewrite Em; reflexivity).
  pose proof (sweep_exact (fun _ => 4000) c H Hl) as Hs. unfold c'.
  destruct (sweep 4 (fun _ => 4000) c) as [i c2] eqn:Es. destruct Hs as (_ & H2 & Hs).
  change (snd (i, c2)) with c2. split; [|split; [|exact H2]].
  - rewrite (Hs 0%nat (Info 100 3 3 7 [65] [66])); [reflexivity|]. rewrite Em. reflexivity.
  - rewrite (Hs 1%nat (Info 100 4 3 8 [67] [])); [reflexivity|]. rewrite Em. reflexivity.
Defined.

(** Nothing in the program saves an account, so [version_db] never catches up:
    a slot whose account was changed is never freed. *)
Lemma unsaved_never_freed now i a c j :
  slots c !! j = Some a -> version a <> version_db a -> slots (check_slot now i c) !! j = Some a.
Proof.
  intros Ha Hv. apply Z.eqb_neq in Hv. rewrite check_slot_lookup, Ha. cbn. unfold expired. rewrite Hv, andb_false_r. by case_decide.
Qed.
