(* ===== verification/Database.v ===== *)
(** The interface between the database proxy and the database. The proxy calls
    MongoDB through mongocxx, which is not part of the program: the calls it
    makes are a class of operations over the state of a connection, with the
    laws the proxy's theorems rely on. [collection] is what a collection holds,
    in its natural order. Any call may throw; a call that throws may have done
    its work, or a first part of it. *)

From stdpp Require Import gmap strings.
From S2P Require Import Prelude.

(** * Documents *)

Inductive bson := BInt32 (z : Z) | BString (s : bytes) | BBool (b : bool).

#[export] Instance bson_eq_dec : EqDecision bson.
Proof. solve_decision. Defined.

(** A document has each of its keys once. *)
Abbreviation document := (gmap string bson).

(** The filters of the program ask for the value of one key. *)
Abbreviation filter_doc := (string * bson)%type.

Definition matches (f : filter_doc) (d : document) : bool := bool_decide (d !! f.1 = Some f.2).

(** [$set]: the fields of [u] replace those of the document. *)
Definition set_fields (u d : document) : document := u ∪ d.

(** [update_one] without upsert: the first document that matches, if any. *)
Fixpoint update_one (f : filter_doc) (u : document) (docs : list document) : list document :=
  match docs with
  | [] => []
  | d :: docs => if matches f d then set_fields u d :: docs else d :: update_one f u docs
  end.

(** An ordered bulk write. *)
Definition update_all (ops : list (filter_doc * document)) (docs : list document) : list document :=
  foldl (fun docs op => update_one op.1 op.2 docs) docs ops.

Fixpoint first_match (f : filter_doc) (docs : list document) : option document :=
  match docs with
  | [] => None
  | d :: docs => if matches f d then Some d else first_match f docs
  end.

(** [doc[key].get_int32()] and [get_string()] throw when there is no such value. *)
Definition get_int32 (doc : document) (key : string) : option Z :=
  match doc !! key with Some (BInt32 z) => Some z | _ => None end.

Definition get_string (doc : document) (key : string) : option bytes :=
  match doc !! key with Some (BString s) => Some s | _ => None end.

(** * The calls *)

Class Database (D : Type) := {
  collection : string -> D -> list document;

  acquire : D -> D * bool;
  insert_one : string -> document -> D -> D * bool;
  find_one : string -> filter_doc -> D -> D * option (option document);
  find_max : string -> string -> D -> D * option (option document);
  find_all : string -> D -> D * list document * bool;
  bulk_execute : string -> list (filter_doc * document) -> D -> D * bool }.

(** The calls leave the other collections alone; [find_max] is a search of all
    documents, sorted by a key in descending order. *)
Definition same_collections {D} `{Database D} (s s' : D) : Prop := forall c, collection c s' = collection c s.

Definition same_but {D} `{Database D} (c : string) (s s' : D) : Prop :=
  forall c', c' <> c -> collection c' s' = collection c' s.

Class DatabaseLaws (D : Type) `{Database D} : Prop := {
  acquire_law s : same_collections s (acquire s).1;
  insert_law c d s :
    let '(s', ok) := insert_one c d s in
    (collection c s' = collection c s ++ [d] \/ ok = false /\ collection c s' = collection c s) /\ same_but c s s';
  find_one_law c f s :
    let '(s', r) := find_one c f s in
    same_collections s s' /\ forall o, r = Some o -> o = first_match f (collection c s);
  find_max_law c key s :
    let '(s', r) := find_max c key s in
    same_collections s s' /\
    (forall o, r = Some o -> match o with Some d => d ∈ collection c s | None => collection c s = [] end) /\
    (forall d z, r = Some (Some d) -> get_int32 d key = Some z ->
       forall d' z', d' ∈ collection c s -> get_int32 d' key = Some z' -> z' <= z);
  find_all_law c s :
    let '(s', docs, ok) := find_all c s in
    same_collections s s' /\ (exists rest, collection c s = docs ++ rest) /\ (ok = true -> docs = collection c s);
  bulk_law c ops s :
    let '(s', ok) := bulk_execute c ops s in
    (exists n, (ok = true -> n = length ops) /\ collection c s' = update_all (take n ops) (collection c s)) /\ same_but c s s' }.

(** * What the updates do *)

Lemma first_match_matches f docs d : first_match f docs = Some d -> matches f d = true.
Proof. induction docs as [|d' docs IH]; cbn; [done|]. destruct (matches f d') eqn:E; [by intros [= <-]|done]. Qed.

(** A document added at the end is found when none was found before. *)
Lemma first_match_snoc f docs d : first_match f docs = None -> matches f d = true -> first_match f (docs ++ [d]) = Some d.
Proof. induction docs as [|d' docs IH]; cbn; intros Hn Hd; [by rewrite Hd|]. destruct (matches f d'); [done|by apply IH]. Qed.


(** [d] is the first document of [docs] that matches, at place [i]. *)
Fixpoint first_at (f : filter_doc) (i : nat) (d : document) (docs : list document) {struct docs} : Prop :=
  match docs, i with
  | [], _ => False
  | d' :: _, O => d' = d /\ matches f d = true
  | d' :: docs, S i => matches f d' = false /\ first_at f i d docs
  end.

Lemma first_at_match f i d docs : first_at f i d docs -> first_match f docs = Some d.
Proof.
  revert i. induction docs as [|d' docs IH]; intros i H; [done|]. destruct i as [|i]; cbn in *.
  - destruct H as [-> Hm]. by rewrite Hm.
  - destruct H as [-> H]. by apply (IH i).
Qed.

Lemma first_at_app f i d docs docs' : first_at f i d docs -> first_at f i d (docs ++ docs').
Proof.
  revert i. induction docs as [|d' docs IH]; intros i H; [done|]. destruct i as [|i]; cbn in *; [done|].
  destruct H as [? H]. split; [done|]. by apply IH.
Qed.

(** The fields set do not change which filters on [key] match. *)
Lemma set_fields_matches key v u d : u !! key = None -> matches (key, v) (set_fields u d) = matches (key, v) d.
Proof. intros Hu. unfold matches, set_fields. cbn. by rewrite lookup_union_r. Qed.

(** An update through [key] changes the first document of its own value and no
    other. *)
Lemma update_one_first key v v' u i d docs :
  u !! key = None -> first_at (key, v) i d docs ->
  first_at (key, v) i (if decide (v' = v) then set_fields u d else d) (update_one (key, v') u docs).
Proof.
  intros Hu. revert i. induction docs as [|d' docs IH]; intros i H; [done|]. cbn [update_one].
  assert (forall w, matches (key, w) d' = true -> d' !! key = Some w) as Hm.
  { intros w. unfold matches. by rewrite bool_decide_eq_true. }
  destruct i as [|i]; cbn in H.
  - destruct H as [-> H]. case_decide as E.
    + subst v'. rewrite H. cbn. by rewrite set_fields_matches.
    + destruct (matches (key, v') d) eqn:E'; [|done]. apply Hm in H, E'. congruence.
  - destruct H as [H' H]. destruct (matches (key, v') d') eqn:E'.
    + cbn. rewrite set_fields_matches by done. split; [done|]. rewrite decide_False; [done|]. intros ->. congruence.
    + cbn. split; [done|]. by apply IH.
Qed.

(** A filter that matches nothing still matches nothing after an update. *)
Lemma update_one_none key v v' u docs :
  u !! key = None -> first_match (key, v) docs = None -> first_match (key, v) (update_one (key, v') u docs) = None.
Proof.
  intros Hu. induction docs as [|d docs IH]; [done|]. cbn [first_match update_one].
  destruct (matches (key, v) d) eqn:E; [done|]. intros Hn. destruct (matches (key, v') d); cbn [first_match].
  - by rewrite set_fields_matches, E.
  - rewrite E. by apply IH.
Qed.

(** A document added where none matched is the first that matches. *)
Lemma first_at_snoc f docs d : first_match f docs = None -> matches f d = true -> first_at f (length docs) d (docs ++ [d]).
Proof.
  induction docs as [|d' docs IH]; cbn; [done|]. intros Hn Hd. destruct (matches f d'); [done|]. split; [done|]. by apply IH.
Qed.

(** * A database in memory *)

(** The collections, and whether the calls still succeed. *)
Record memory_db := MemoryDb { m_collections : gmap string (list document); m_calls : list bool }.

(** A call takes its outcome from the list; after the list every call succeeds. *)
Definition outcome_of (s : memory_db) : memory_db * bool :=
  match m_calls s with
  | [] => (s, true)
  | ok :: calls => (MemoryDb (m_collections s) calls, ok)
  end.

Definition m_collection (c : string) (s : memory_db) : list document := default [] (m_collections s !! c).

Definition m_set (c : string) (docs : list document) (s : memory_db) : memory_db :=
  MemoryDb (<[c := docs]> (m_collections s)) (m_calls s).

Definition larger (key : string) (d b : document) : bool :=
  match get_int32 b key, get_int32 d key with Some y, Some x => y <=? x | _, _ => false end.

Definition max_doc (key : string) (docs : list document) : option document :=
  foldr (fun d best => match best with
    | Some b => if larger key d b then Some d else best
    | None => Some d
    end) None docs.

#[export] Instance memory_database : Database memory_db := {
  collection := m_collection;
  acquire := outcome_of;
  insert_one c d s :=
    let '(s, ok) := outcome_of s in if ok then (m_set c (m_collection c s ++ [d]) s, true) else (s, false);
  find_one c f s :=
    let '(s, ok) := outcome_of s in (s, if ok then Some (first_match f (m_collection c s)) else None);
  find_max c key s :=
    let '(s, ok) := outcome_of s in (s, if ok then Some (max_doc key (m_collection c s)) else None);
  find_all c s :=
    let '(s, ok) := outcome_of s in (s, if ok then m_collection c s else [], ok);
  bulk_execute c ops s :=
    let '(s, ok) := outcome_of s in if ok then (m_set c (update_all ops (m_collection c s)) s, true) else (s, false) }.

Lemma outcome_of_same c s : m_collection c (outcome_of s).1 = m_collection c s.
Proof. unfold outcome_of. by destruct (m_calls s). Qed.

Lemma m_set_same c docs s : m_collection c (m_set c docs s) = docs.
Proof. unfold m_collection, m_set. cbn. by rewrite lookup_insert_eq. Qed.

Lemma m_set_other c c' docs s : c' <> c -> m_collection c' (m_set c docs s) = m_collection c' s.
Proof. intros H. unfold m_collection, m_set. cbn. by rewrite lookup_insert_ne. Qed.

Lemma max_doc_spec key docs :
  match max_doc key docs with
  | None => docs = []
  | Some d => d ∈ docs /\
      forall z, get_int32 d key = Some z -> forall d' z', d' ∈ docs -> get_int32 d' key = Some z' -> z' <= z
  end.
Proof.
  induction docs as [|d docs IH]; [done|]. cbn. fold (max_doc key docs). destruct (max_doc key docs) as [b|].
  - destruct IH as [Hb IH]. unfold larger.
    destruct (get_int32 b key) as [y|] eqn:Ey; [destruct (get_int32 d key) as [x|] eqn:Ex; [destruct (Z.leb_spec y x)|]|].
    all: split; [set_solver|]; intros w Hw d' z' [->|Hd']%elem_of_cons Hz'; simplify_eq; try lia.
    + specialize (IH y eq_refl d' z' Hd' Hz'). lia.
    + by apply (IH _ eq_refl d' z').
    + by apply (IH _ eq_refl d' z').
  - subst docs. split; [set_solver|]. intros z Hz d' z' Hd' Hz'. apply list_elem_of_singleton in Hd' as ->. simplify_eq. lia.
Qed.

#[export] Instance memory_database_laws : DatabaseLaws memory_db.
Proof.
  assert (forall s s' : memory_db, same_collections s s' <-> forall c, m_collection c s' = m_collection c s) as Hs by done.
  split.
  - intros s c. apply outcome_of_same.
  - intros c d s. cbn. pose proof (outcome_of_same c s) as E. destruct (outcome_of s) as [s1 [|]] eqn:E1; cbn in E.
    + rewrite m_set_same, E. split; [by left|]. intros c' Hc. cbn. rewrite m_set_other by done.
      pose proof (outcome_of_same c' s) as E'. by rewrite E1 in E'.
    + split; [by right|]. intros c' Hc. pose proof (outcome_of_same c' s) as E'. by rewrite E1 in E'.
  - intros c f s. cbn. destruct (outcome_of s) as [s1 ok] eqn:E1.
    assert (forall c', m_collection c' s1 = m_collection c' s) as E by (intros c'; rewrite <- (outcome_of_same c' s); by rewrite E1).
    split; [done|]. intros o. rewrite E. destruct ok; [by intros [= <-]|done].
  - intros c key s. cbn. destruct (outcome_of s) as [s1 ok] eqn:E1.
    assert (forall c', m_collection c' s1 = m_collection c' s) as E by (intros c'; rewrite <- (outcome_of_same c' s); by rewrite E1).
    rewrite E. pose proof (max_doc_spec key (m_collection c s)) as Hm. split; [done|].
    destruct ok; [|done]. split.
    + intros o [= <-]. destruct (max_doc key (m_collection c s)); [by destruct Hm|done].
    + intros d z [= Ed]. rewrite Ed in Hm. apply Hm.
  - intros c s. cbn. destruct (outcome_of s) as [s1 ok] eqn:E1.
    assert (forall c', m_collection c' s1 = m_collection c' s) as E by (intros c'; rewrite <- (outcome_of_same c' s); by rewrite E1).
    rewrite E. split; [done|]. destruct ok; [split; [exists []; by rewrite app_nil_r|done]|split; [by eexists|done]].
  - intros c ops s. cbn. destruct (outcome_of s) as [s1 ok] eqn:E1.
    assert (forall c', m_collection c' s1 = m_collection c' s) as E by (intros c'; rewrite <- (outcome_of_same c' s); by rewrite E1).
    destruct ok.
    + rewrite m_set_same, E. split; [exists (length ops); by rewrite take_ge|]. intros c' Hc. cbn. by rewrite m_set_other.
    + split; [exists 0%nat; split; [done|cbn; apply E]|]. intros c' Hc. apply E.
Qed.
