(* ===== verification/DbProxy.v ===== *)
(** The database proxy (src/gobang/db_proxy/db_proxy.cpp): the service through
    which the others reach the database. Every request starts a coroutine; the
    coroutine posts a job to the thread pool, waits for it and answers. The jobs
    run on other threads, at the same time as each other and as the scheduler.

    An update is put into a table first; the job reads the table under a lock
    while later updates overwrite it, writes the database and reports the
    versions it wrote. The table is there so that the updates of one user reach
    the database in the order in which they came ([user_infos_] in db_proxy.h).

    The steps of the model are the arrival of a message, one step of a job (a
    call on the database, or one entry read under its lock) and the resumption
    of a coroutine whose job is done. The database is Database.v; parsing is a
    parameter. *)

From stdpp Require Import gmap strings.
From S2P Require Import Prelude Database.

(** * Messages *)

Record s_db_create_user_req := CreateReq {
  cr_userid : Z; cr_account : bytes; cr_password : bytes; cr_win_count : Z; cr_lose_count : Z; cr_is_ai : bool }.

Record s_db_query_account_req := QueryAccountReq { qr_account : bytes; qr_userid : Z }.

Record s_db_query_user_ack := QueryUserAck {
  qu_ec : Z; qu_userid : Z; qu_win_count : Z; qu_lose_count : Z; qu_is_ai : bool }.

Record s_db_query_account_ack := QueryAccountAck { qa_ec : Z; qa_account : bytes; qa_userid : Z; qa_password : bytes }.

(** An entry of an update: the user, the version and the values. *)
Abbreviation info_of V := (Z * (Z * V))%type.

(** The values of a user, [win_count] and [lose_count], and of an account,
    [account] and [password]. *)
Abbreviation user_data := (Z * Z)%type.
Abbreviation account_data := (bytes * bytes)%type.

(** What the proxy writes; the lists of the updates are users and versions. *)
Inductive reply :=
  | QueryUser (ack : s_db_query_user_ack)
  | QueryAccount (ack : s_db_query_account_ack)
  | QueryMaxUserid (ec max_userid : Z)
  | QueryAi (ec : Z) (ai_list : list Z).

Inductive message :=
  | CreateUserAck (ec : Z)
  | Reply (r : reply)
  | UpdateUser (infos : list (Z * Z))
  | UpdateAccount (infos : list (Z * Z)).

Inductive output := Write (to session id : Z) (m : message).

Definition ec_success : Z := 0.
Definition ec_system : Z := 2.
Definition ec_no_data : Z := 6.

Definition id_s_db_create_user_req : Z := 16397.
Definition id_s_db_create_user_ack : Z := 20493.
Definition id_s_db_query_user_req : Z := 16398.
Definition id_s_db_query_user_ack : Z := 20494.
Definition id_s_db_update_user_brd : Z := 24591.
Definition id_s_db_query_account_req : Z := 16400.
Definition id_s_db_query_account_ack : Z := 20496.
Definition id_s_db_update_account_brd : Z := 24593.
Definition id_s_db_query_max_userid_req : Z := 16402.
Definition id_s_db_query_max_userid_ack : Z := 20498.
Definition id_s_db_query_ai_req : Z := 16403.
Definition id_s_db_query_ai_ack : Z := 20499.

Definition user_info_name : string := "user_info".
Definition account_info_name : string := "account_info".
Definition ai_list_name : string := "ai_list".

(** * Indexes *)

(** The value of [ns] of one index; the proxy compares it with the name it gave
    the index. The outer [None] is an exception. *)
Definition index_ns (doc : document) : option (option bytes) :=
  match doc !! "ns"%string with
  | None => Some None
  | Some (BString s) => Some (Some s)
  | Some _ => None
  end.

(** The loop over the indexes of [user_info]. *)
Fixpoint has_index (name : bytes) (docs : list document) : option bool :=
  match docs with
  | [] => Some false
  | doc :: docs => ns ← index_ns doc; if decide (ns = Some name) then Some true else has_index name docs
  end.

(** The loop over the indexes of [account_info]: it stops when it has seen both. *)
Fixpoint has_indexes (name_u name_a : bytes) (u a : bool) (docs : list document) : option (bool * bool) :=
  match docs with
  | [] => Some (u, a)
  | doc :: docs =>
    ns ← index_ns doc;
    if decide (ns = Some name_u) then if a then Some (true, a) else has_indexes name_u name_a true a docs
    else if decide (ns = Some name_a) then if u then Some (u, true) else has_indexes name_u name_a u true docs
    else has_indexes name_u name_a u a docs
  end.

(** * Updates in flight *)

(** [cache_info] with the values of a [user_info] or an [account_info]. *)
Record cache_info (V : Type) := Cache { version : Z; data : V }.
Arguments Cache {V}.
Arguments version {V}.
Arguments data {V}.

(** How far the job of an update is. *)
Inductive stage := Posted | Reading | Done (ok : bool).

(** A suspended [update_user] or [update_account]: who asked, [infos], what the
    job has still to read, the operations of the bulk write and [output]. *)
Record batch (V : Type) := Batch {
  b_from : Z; b_infos : list Z; b_todo : list Z; b_ops : list (Z * V); b_output : list (Z * Z); b_stage : stage }.
Arguments Batch {V}.
Arguments b_from {V}.
Arguments b_infos {V}.
Arguments b_todo {V}.
Arguments b_ops {V}.
Arguments b_output {V}.
Arguments b_stage {V}.

(** The table ([user_infos_] or [account_infos_]) and the coroutines. *)
Record updates (V : Type) := Updates { table : gmap Z (cache_info V); batches : gmap nat (batch V); posted : nat }.
Arguments Updates {V}.
Arguments table {V}.
Arguments batches {V}.
Arguments posted {V}.

Section updates.
Context {V D : Type} `{Database D} (name : string) (fields : V -> document).

(** One entry of the message: an entry in flight is overwritten, any other is
    put into the table and into the batch. *)
Definition take_info (s : gmap Z (cache_info V) * list Z) (i : info_of V) : gmap Z (cache_info V) * list Z :=
  let '(t, infos) := s in
  let '(userid, (v, d)) := i in
  match t !! userid with
  | Some _ => (<[userid := Cache (u16 v) d]> t, infos)
  | None => (<[userid := Cache (u16 v) d]> t, infos ++ [userid])
  end.

(** The update up to the job it posts. *)
Definition update_arrives (from : Z) (input : list (info_of V)) (u : updates V) : updates V :=
  let '(t, infos) := foldl take_info (table u, []) input in
  match infos with
  | [] => Updates t (batches u) (posted u)
  | _ => Updates t (<[posted u := Batch from infos infos [] [] Posted]> (batches u)) (S (posted u))
  end.

Definition set_stage (b : batch V) (st : stage) : batch V := Batch (b_from b) (b_infos b) (b_todo b) (b_ops b) (b_output b) st.

(** [update_one{{userid}, {$set: fields}}]. *)
Definition update_op (op : Z * V) : filter_doc * document := (("userid"%string, BInt32 op.1), fields op.2).

(** One step of the job of coroutine [n]: the connection is acquired, an entry
    is read under its lock, or the bulk is written. [None]: the iterator points
    to no entry, or there is no such job. *)
Definition update_job (n : nat) (u : updates V) (s : D) : option (updates V * D) :=
  b ← batches u !! n;
  let put b := Updates (table u) (<[n := b]> (batches u)) (posted u) in
  match b_stage b, b_todo b with
  | Posted, _ => let '(s, ok) := acquire s in Some (put (set_stage b (if ok then Reading else Done false)), s)
  | Reading, userid :: todo =>
    c ← table u !! userid;
    Some (put (Batch (b_from b) (b_infos b) todo (b_ops b ++ [(userid, data c)]) (b_output b ++ [(userid, version c)]) Reading), s)
  | Reading, [] =>
    let '(s, ok) := bulk_execute name (map update_op (b_ops b)) s in Some (put (set_stage b (Done ok)), s)
  | Done _, _ => None
  end.

(** The coroutine resumed: the entries are erased and the versions reported. *)
Definition update_resumes (n : nat) (u : updates V) : option (updates V * option (Z * list (Z * Z))) :=
  b ← batches u !! n;
  match b_stage b with
  | Done ok =>
    let out := if ok then b_output b else [] in
    Some (Updates (foldl (fun t userid => delete userid t) (table u) (b_infos b)) (delete n (batches u)) (posted u),
          match out with [] => None | _ => Some (b_from b, out) end)
  | _ => None
  end.
End updates.

(** * Creating and asking *)

(** A job that inserts documents one after the other, and the coroutine of
    [create_user] when the job is done; a job that asks, and the coroutine when
    it has the answer. *)
Inductive query := QUser (userid : Z) | QAccount (account : bytes) (userid : Z) | QMax | QAi.

Inductive task :=
  | Creating (from session : Z) (connected : bool) (docs : list (string * document))
  | Created (from session : Z) (ok : bool)
  | Querying (from session : Z) (q : query)
  | Queried (from session id : Z) (r : reply).

(** The documents of a new user, in the order in which they are inserted. *)
Definition user_doc (req : s_db_create_user_req) : document :=
  <["userid"%string := BInt32 (cr_userid req)]> (<["win_count"%string := BInt32 (cr_win_count req)]>
    (<["lose_count"%string := BInt32 (cr_lose_count req)]> {["is_ai"%string := BBool (cr_is_ai req)]})).

Definition account_doc (req : s_db_create_user_req) : document :=
  <["userid"%string := BInt32 (cr_userid req)]> (<["account"%string := BString (cr_account req)]>
    {["password"%string := BString (cr_password req)]}).

Definition new_docs (req : s_db_create_user_req) : list (string * document) :=
  [(user_info_name, user_doc req); (account_info_name, account_doc req)] ++
  (if cr_is_ai req then [(ai_list_name, {["userid"%string := BInt32 (cr_userid req)]})] else []).

(** The fields the updates set. *)
Definition user_fields (v : user_data) : document :=
  <["win_count"%string := BInt32 v.1]> {["lose_count"%string := BInt32 v.2]}.

Definition account_fields (v : account_data) : document :=
  <["account"%string := BString v.1]> {["password"%string := BString v.2]}.

Definition set_user_ec (ec : Z) (a : s_db_query_user_ack) : s_db_query_user_ack :=
  QueryUserAck ec (qu_userid a) (qu_win_count a) (qu_lose_count a) (qu_is_ai a).

Definition set_account_ec (ec : Z) (a : s_db_query_account_ack) : s_db_query_account_ack :=
  QueryAccountAck ec (qa_account a) (qa_userid a) (qa_password a).

(** The values of the document, up to the first that is not there. *)
Definition fill_user (userid : Z) (doc : document) (a : s_db_query_user_ack) : s_db_query_user_ack * bool :=
  let a := QueryUserAck (qu_ec a) userid (qu_win_count a) (qu_lose_count a) (qu_is_ai a) in
  match get_int32 doc "userid" with
  | None => (a, false)
  | Some z =>
    let a := QueryUserAck (qu_ec a) userid (qu_win_count a) (qu_lose_count a) (negb (z =? 0)) in
    match get_int32 doc "win_count" with
    | None => (a, false)
    | Some w =>
      let a := QueryUserAck (qu_ec a) userid w (qu_lose_count a) (qu_is_ai a) in
      match get_int32 doc "lose_count" with
      | None => (a, false)
      | Some l => (QueryUserAck (qu_ec a) userid w l (qu_is_ai a), true)
      end
    end
  end.

Definition fill_account (doc : document) (a : s_db_query_account_ack) : s_db_query_account_ack * bool :=
  match get_int32 doc "userid" with
  | None => (a, false)
  | Some u =>
    match get_string doc "account" with
    | None => (QueryAccountAck (qa_ec a) (qa_account a) u (qa_password a), false)
    | Some n =>
      match get_string doc "password" with
      | None => (QueryAccountAck (qa_ec a) n u (qa_password a), false)
      | Some w => (QueryAccountAck (qa_ec a) n u w, true)
      end
    end
  end.

Fixpoint fill_ai (docs : list document) (l : list Z) : list Z * bool :=
  match docs with
  | [] => (l, true)
  | doc :: docs => match get_int32 doc "userid" with None => (l, false) | Some u => fill_ai docs (l ++ [u]) end
  end.

Definition ec_of (ok : bool) : Z := if ok then ec_success else ec_system.

Section queries.
Context {D : Type} `{Database D}.

(** The jobs: the state of the database, the answer so far, and whether the job
    ended without an exception. *)
Definition query_user_job (userid : Z) (a : s_db_query_user_ack) (s : D) : D * s_db_query_user_ack * bool :=
  let '(s, ok) := acquire s in
  if negb ok then (s, a, false)
  else let '(s, r) := find_one user_info_name ("userid"%string, BInt32 userid) s in
    match r with
    | None => (s, a, false)
    | Some None => (s, set_user_ec ec_no_data a, true)
    | Some (Some doc) => let '(a, ok) := fill_user userid doc a in (s, a, ok)
    end.

Definition query_account_job (account : bytes) (userid : Z) (a : s_db_query_account_ack) (s : D) :
    D * s_db_query_account_ack * bool :=
  let '(s, ok) := acquire s in
  if negb ok then (s, a, false)
  else
    let f := if decide (account = []) then ("userid"%string, BInt32 userid) else ("account"%string, BString account) in
    let '(s, r) := find_one account_info_name f s in
    match r with
    | None => (s, a, false)
    | Some None => (s, set_account_ec ec_no_data a, true)
    | Some (Some doc) => let '(a, ok) := fill_account doc a in (s, a, ok)
    end.

Definition query_max_job (s : D) : D * option Z :=
  let '(s, ok) := acquire s in
  if negb ok then (s, None)
  else let '(s, r) := find_max account_info_name "userid" s in
    (s, match r with None => None | Some None => Some 0 | Some (Some doc) => get_int32 doc "userid" end).

Definition query_ai_job (s : D) : D * list Z * bool :=
  let '(s, ok) := acquire s in
  if negb ok then (s, [], false)
  else let '(s, docs, ok) := find_all ai_list_name s in
    let '(l, filled) := fill_ai docs [] in (s, l, filled && ok).

(** [query_user], [query_account], [query_max_userid] and [query_ai] from the
    job to the message: the error code is set after the job. *)
Definition run_query (q : query) (s : D) : D * (Z * reply) :=
  match q with
  | QUser userid =>
    let '(s, a, ok) := query_user_job userid (QueryUserAck 0 0 0 0 false) s in
    (s, (id_s_db_query_user_ack, QueryUser (set_user_ec (ec_of ok) a)))
  | QAccount account userid =>
    let '(s, a, ok) := query_account_job account userid (QueryAccountAck 0 [] 0 []) s in
    (s, (id_s_db_query_account_ack, QueryAccount (set_account_ec (ec_of ok) a)))
  | QMax =>
    let '(s, r) := query_max_job s in
    (s, (id_s_db_query_max_userid_ack, match r with Some u => QueryMaxUserid ec_success u | None => QueryMaxUserid ec_system 0 end))
  | QAi => let '(s, l, ok) := query_ai_job s in (s, (id_s_db_query_ai_ack, QueryAi (ec_of ok) l))
  end.

(** One step of a job. *)
Definition task_job (t : task) (s : D) : option (task * D) :=
  match t with
  | Creating from session false docs =>
    let '(s, ok) := acquire s in Some (if ok then Creating from session true docs else Created from session false, s)
  | Creating from session true [] => Some (Created from session true, s)
  | Creating from session true ((c, d) :: docs) =>
    let '(s, ok) := insert_one c d s in Some (if ok then Creating from session true docs else Created from session false, s)
  | Querying from session q => let '(s, (id, r)) := run_query q s in Some (Queried from session id r, s)
  | Created _ _ _ | Queried _ _ _ _ => None
  end.
End queries.

Definition task_resumes (t : task) : option output :=
  match t with
  | Created from session ok => Some (Write from session id_s_db_create_user_ack (CreateUserAck (ec_of ok)))
  | Queried from session id r => Some (Write from session id (Reply r))
  | _ => None
  end.

(** * The service *)

Record db_proxy (D : Type) := DbProxy {
  user_infos : updates user_data; account_infos : updates account_data; tasks : gmap nat task; started : nat; db : D }.
Arguments DbProxy {D}.
Arguments user_infos {D}.
Arguments account_infos {D}.
Arguments tasks {D}.
Arguments started {D}.
Arguments db {D}.

Definition updates_new {V} : updates V := Updates ∅ ∅ 0.

Definition proxy_new {D} (s : D) : db_proxy D := DbProxy updates_new updates_new ∅ 0 s.

Inductive event :=
  | Forward (from session id : Z) (buffer : bytes)
  | UserJob (n : nat)
  | UserResume (n : nat)
  | AccountJob (n : nat)
  | AccountResume (n : nat)
  | Job (n : nat)
  | Resume (n : nat).

Section service.
Context {D : Type} `{Database D}.
Context (parse_create : bytes -> option s_db_create_user_req) (parse_query_user : bytes -> option Z)
  (parse_update_user : bytes -> option (list (info_of user_data))) (parse_query_account : bytes -> option s_db_query_account_req)
  (parse_update_account : bytes -> option (list (info_of account_data))).

Definition start (t : task) (p : db_proxy D) : db_proxy D :=
  DbProxy (user_infos p) (account_infos p) (<[started p := t]> (tasks p)) (S (started p)) (db p).

Definition set_users (u : updates user_data) (p : db_proxy D) : db_proxy D :=
  DbProxy u (account_infos p) (tasks p) (started p) (db p).

Definition set_accounts (u : updates account_data) (p : db_proxy D) : db_proxy D :=
  DbProxy (user_infos p) u (tasks p) (started p) (db p).

Definition set_db (s : D) (p : db_proxy D) : db_proxy D := DbProxy (user_infos p) (account_infos p) (tasks p) (started p) s.

(** A message of another service: the callback registered for its number runs
    up to its job. *)
Definition forward_shm (from session id : Z) (buffer : bytes) (p : db_proxy D) : db_proxy D * list output :=
  if id =? id_s_db_create_user_req then
    match parse_create buffer with
    | None => (p, [Write from session id_s_db_create_user_ack (CreateUserAck ec_system)])
    | Some req => (start (Creating from session false (new_docs req)) p, [])
    end
  else if id =? id_s_db_query_user_req then
    match parse_query_user buffer with
    | None => (p, [Write from session id_s_db_query_user_ack (Reply (QueryUser (QueryUserAck ec_system 0 0 0 false)))])
    | Some userid => (start (Querying from session (QUser userid)) p, [])
    end
  else if id =? id_s_db_update_user_brd then
    match parse_update_user buffer with
    | None => (p, [])
    | Some input => (set_users (update_arrives from input (user_infos p)) p, [])
    end
  else if id =? id_s_db_query_account_req then
    match parse_query_account buffer with
    | None => (p, [Write from session id_s_db_query_account_ack (Reply (QueryAccount (QueryAccountAck ec_system [] 0 [])))])
    | Some req => (start (Querying from session (QAccount (qr_account req) (qr_userid req))) p, [])
    end
  else if id =? id_s_db_update_account_brd then
    match parse_update_account buffer with
    | None => (p, [])
    | Some input => (set_accounts (update_arrives from input (account_infos p)) p, [])
    end
  else if id =? id_s_db_query_max_userid_req then (start (Querying from session QMax) p, [])
  else if id =? id_s_db_query_ai_req then (start (Querying from session QAi) p, [])
  else (p, []).

Definition step (e : event) (p : db_proxy D) : option (db_proxy D * list output) :=
  match e with
  | Forward from session id buffer => Some (forward_shm from session id buffer p)
  | UserJob n =>
    '(u, s) ← update_job user_info_name user_fields n (user_infos p) (db p); Some (set_users u (set_db s p), [])
  | UserResume n =>
    '(u, o) ← update_resumes n (user_infos p);
    Some (set_users u p,
          match o with Some (from, l) => [Write from 0 id_s_db_update_user_brd (UpdateUser l)] | None => [] end)
  | AccountJob n =>
    '(u, s) ← update_job account_info_name account_fields n (account_infos p) (db p); Some (set_accounts u (set_db s p), [])
  | AccountResume n =>
    '(u, o) ← update_resumes n (account_infos p);
    Some (set_accounts u p,
          match o with Some (from, l) => [Write from 0 id_s_db_update_account_brd (UpdateAccount l)] | None => [] end)
  | Job n =>
    t ← tasks p !! n;
    '(t, s) ← task_job t (db p);
    Some (DbProxy (user_infos p) (account_infos p) (<[n := t]> (tasks p)) (started p) s, [])
  | Resume n =>
    t ← tasks p !! n;
    o ← task_resumes t;
    Some (DbProxy (user_infos p) (account_infos p) (delete n (tasks p)) (started p) (db p), [o])
  end.

(** The outputs are in the order in which they are written. *)
Fixpoint run (es : list event) (p : db_proxy D) : option (db_proxy D * list output) :=
  match es with
  | [] => Some (p, [])
  | e :: es => '(p, out) ← step e p; '(p, outs) ← run es p; Some (p, out ++ outs)
  end.
End service.

(** * Order and loss of updates *)

(** The values of one user, in order. *)
Definition values_of {V} (k : Z) (h : list (info_of V)) : list (Z * V) := map snd (base.filter (fun i => i.1 = k) h).

Lemma values_of_app {V} k (h h' : list (info_of V)) : values_of k (h ++ h') = values_of k h ++ values_of k h'.
Proof. unfold values_of. by rewrite list.filter_app, map_app. Qed.

Lemma values_of_one {V} k k' (x : Z * V) : values_of k [(k', x)] = if decide (k' = k) then [x] else [].
Proof. unfold values_of. rewrite list.filter_cons. cbn. by case_decide. Qed.

Lemma values_of_cons {V} k k' (x : Z * V) h : values_of k ((k', x) :: h) = (if decide (k' = k) then [x] else []) ++ values_of k h.
Proof. by rewrite <- values_of_one, <- values_of_app. Qed.

Lemma values_of_none {V} k (h : list (info_of V)) : k ∉ map fst h -> values_of k h = [].
Proof.
  induction h as [|[k' x] h IH]; [done|]. cbn [map fst]. rewrite not_elem_of_cons. intros [Hk H].
  rewrite values_of_cons, decide_False by done. by apply IH.
Qed.

Lemma values_of_some {V} k x (h : list (info_of V)) : NoDup (map fst h) -> (k, x) ∈ h -> values_of k h = [x].
Proof.
  induction h as [|[k' y] h IH]; cbn [map fst]; intros Hn H; [by apply not_elem_of_nil in H|].
  apply list.NoDup_cons in Hn as [Hk Hn]. rewrite values_of_cons.
  apply elem_of_cons in H as [[= -> ->]|H].
  - rewrite decide_True by done. cbn. by rewrite values_of_none.
  - rewrite decide_False; [by apply IH|]. intros ->. apply Hk. apply list_elem_of_fmap. by exists (k, x).
Qed.

Lemma values_of_take {V} k x n (h : list (info_of V)) :
  NoDup (map fst h) -> (k, x) ∈ h -> values_of k (take n h) `sublist_of` [x].
Proof.
  intros Hn H. rewrite <- (values_of_some k x h) by done. rewrite <- (take_drop n h) at 2. rewrite values_of_app.
  by apply sublist_inserts_r.
Qed.

(** What happens to a collection: an entry of an update is written, or a
    document is inserted. *)
Inductive change (V : Type) := Stored (i : info_of V) | Inserted (d : document).
Arguments Stored {V}.
Arguments Inserted {V}.

(** The entries written and the documents inserted, in order. *)
Definition writes {V} (log : list (change V)) : list (info_of V) :=
  flat_map (fun c => match c with Stored i => [i] | Inserted _ => [] end) log.

Definition inserts {V} (log : list (change V)) : list document :=
  flat_map (fun c => match c with Stored _ => [] | Inserted d => [d] end) log.

Lemma writes_app {V} (log log' : list (change V)) : writes (log ++ log') = writes log ++ writes log'.
Proof. apply flat_map_app. Qed.

Lemma inserts_app {V} (log log' : list (change V)) : inserts (log ++ log') = inserts log ++ inserts log'.
Proof. apply flat_map_app. Qed.

Lemma writes_stored {V} (r : list (info_of V)) : writes (map Stored r) = r.
Proof. induction r as [|i r IH]; [done|]. cbn. by f_equal. Qed.

Lemma inserts_stored {V} (r : list (info_of V)) : inserts (map Stored r) = [].
Proof. by induction r. Qed.

Section order.
Context {V : Type}.

Implicit Types (h w : list (info_of V)) (b : batch V) (u : updates V).

(** A suspended update: what came is [h] and what was written is [w]. Each
    entry it read came after everything written for that user, and so did the
    last entry of a user it has still to read. *)
Record batch_ok h w b : Prop := {
  bo_nodup : NoDup (b_infos b);
  bo_reads : exists r : list (info_of V),
    b_infos b = map fst r ++ b_todo b /\
    b_ops b = map (fun i => (i.1, i.2.2)) r /\ b_output b = map (fun i => (i.1, i.2.1)) r /\
    match b_stage b with
    | Done ok => (forall k, k ∈ b_infos b -> values_of k w `sublist_of` values_of k h) /\
                 (ok = true -> forall k x, (k, x) ∈ r -> x ∈ values_of k w)
    | st => (st = Posted -> r = []) /\
            (forall k x, (k, x) ∈ r -> values_of k w ++ [x] `sublist_of` values_of k h) /\
            (forall k, k ∈ b_todo b -> forall x, list.last (values_of k h) = Some x -> values_of k w ++ [x] `sublist_of` values_of k h)
    end }.

(** The entries of the table belong to one coroutine each. *)
Record updates_ok h w u : Prop := {
  uk_owned : forall k, is_Some (table u !! k) <-> exists n b, batches u !! n = Some b /\ k ∈ b_infos b;
  uk_alone : forall n n' b b' k, batches u !! n = Some b -> batches u !! n' = Some b' -> k ∈ b_infos b -> k ∈ b_infos b' -> n = n';
  uk_fresh : forall n, (posted u <= n)%nat -> batches u !! n = None;
  uk_batch : forall n b, batches u !! n = Some b -> batch_ok h w b;
  uk_last : forall k c, table u !! k = Some c -> list.last (values_of k h) = Some (version c, data c);
  uk_idle : forall k, table u !! k = None -> values_of k w `sublist_of` values_of k h }.

Lemma batch_ok_ext h w h' w' b :
  (forall k, k ∈ b_infos b -> values_of k h' = values_of k h /\ values_of k w' = values_of k w) ->
  batch_ok h w b -> batch_ok h' w' b.
Proof.
  intros He [Hn (r & Ei & Eo & Ep & Hr)]. split; [done|]. exists r. split_and!; [done..|].
  assert (forall k x, (k, x) ∈ r -> k ∈ b_infos b) as Hk.
  { intros k x Hx. rewrite Ei. apply list.elem_of_app. left. apply list_elem_of_fmap. by exists (k, x). }
  assert (forall k, k ∈ b_todo b -> k ∈ b_infos b) as Ht by (intros k Hx; rewrite Ei; apply list.elem_of_app; by right).
  destruct (b_stage b) as [| |ok].
  1, 2: destruct Hr as (Hp & Hr & Hd); split_and!; [done| |].
  1, 3: intros k x Hx; destruct (He k (Hk k x Hx)) as [-> ->]; by apply Hr.
  1, 2: intros k Hx x; destruct (He k (Ht k Hx)) as [-> ->]; by apply Hd.
  destruct Hr as [Hs Hr]. split.
  - intros k Hx. destruct (He k Hx) as [-> ->]. by apply Hs.
  - intros E k x Hx. destruct (He k (Hk k x Hx)) as [_ ->]. by apply Hr.
Qed.

(** One more entry for a user in flight. *)
Lemma batch_ok_grow h w b k x :
  is_Some (list.last (values_of k h)) -> batch_ok h w b -> batch_ok (h ++ [(k, x)]) w b.
Proof.
  intros [y Hy] [Hn (r & Ei & Eo & Ep & Hr)]. split; [done|]. exists r. split_and!; [done..|].
  assert (forall j l, l `sublist_of` values_of j h -> l `sublist_of` values_of j (h ++ [(k, x)])) as Hg.
  { intros j l Hl. rewrite values_of_app. by apply sublist_inserts_r. }
  destruct (b_stage b) as [| |ok].
  1, 2: destruct Hr as (Hp & Hr & Hd); split_and!; [done|intros j z Hz; by apply Hg, Hr|];
    intros j Hj z; rewrite values_of_app, values_of_one; case_decide as E;
    [subst j; rewrite list.last_snoc; intros [= <-]; apply sublist_app; [|done];
     transitivity (values_of k w ++ [y]); [by apply sublist_inserts_r|by apply Hd]
    |rewrite app_nil_r; by apply Hd].
  destruct Hr as [Hs Hr]. split; [|done]. intros j Hj. by apply Hg, Hs.
Qed.

(** While a message is taken: [infos] are the entries that were not in flight. *)
Record taking h w u (t : gmap Z (cache_info V)) (new : list Z) : Prop := {
  tk_owned : forall k, is_Some (t !! k) <-> (exists n b, batches u !! n = Some b /\ k ∈ b_infos b) \/ k ∈ new;
  tk_nodup : NoDup new;
  tk_new : forall k n b, k ∈ new -> batches u !! n = Some b -> k ∉ b_infos b;
  tk_batch : forall n b, batches u !! n = Some b -> batch_ok h w b;
  tk_last : forall k c, t !! k = Some c -> list.last (values_of k h) = Some (version c, data c);
  tk_idle : forall k, t !! k = None -> values_of k w `sublist_of` values_of k h;
  tk_line : forall k, k ∈ new -> forall x, list.last (values_of k h) = Some x -> values_of k w ++ [x] `sublist_of` values_of k h }.

(** An entry as the table has it. *)
Definition received (input : list (info_of V)) : list (info_of V) := map (fun i => (i.1, (u16 i.2.1, i.2.2))) input.

Lemma take_info_spec (t : gmap Z (cache_info V)) (new : list Z) (i : info_of V) :
  take_info (t, new) i =
  (<[i.1 := Cache (u16 i.2.1) i.2.2]> t, match t !! i.1 with Some _ => new | None => new ++ [i.1] end).
Proof. destruct i as [k [v d]]. cbn. by destruct (t !! k). Qed.

Lemma take_info_ok h w u t new i t' new' :
  taking h w u t new -> take_info (t, new) i = (t', new') -> taking (h ++ received [i]) w u t' new'.
Proof.
  intros [Ho Hnd Hn Hb Hl Hi Hli]. rewrite take_info_spec. destruct i as [k [v d]]. cbn [fst snd]. intros [= <- <-].
  set (x := (u16 v, d)). assert (received [(k, (v, d))] = [(k, x)]) as -> by done.
  assert (forall j l, l `sublist_of` values_of j h -> l `sublist_of` values_of j (h ++ [(k, x)])) as Hg.
  { intros j l Hs. rewrite values_of_app. by apply sublist_inserts_r. }
  assert (is_Some (t !! k) -> is_Some (list.last (values_of k h))) as Hlast.
  { intros [c Hc]. apply Hl in Hc. by rewrite Hc. }
  split.
  - intros j. destruct (decide (j = k)) as [->|Hne].
    + rewrite lookup_insert_eq. split; [intros _|by eexists]. destruct (t !! k) eqn:Ek; [by apply Ho|right; apply list.elem_of_app; right; by apply list_elem_of_singleton].
    + rewrite lookup_insert_ne, Ho by done. destruct (t !! k); [done|]. rewrite list.elem_of_app, list_elem_of_singleton. tauto.
  - destruct (t !! k) eqn:Ek; [done|]. apply list.NoDup_app. split; [done|]. split; [|apply NoDup_singleton].
    intros j Hj ->%list_elem_of_singleton. assert (is_Some (t !! k)) as [? ?] by (apply Ho; by right). congruence.
  - intros j n b Hj Hbn Hin. destruct (t !! k) eqn:Ek; [by apply (Hn j n b)|].
    apply list.elem_of_app in Hj as [Hj| ->%list_elem_of_singleton]; [by apply (Hn j n b)|].
    assert (is_Some (t !! k)) as [? ?] by (apply Ho; left; by exists n, b). congruence.
  - intros n b Hbn. destruct (t !! k) eqn:Ek; [apply batch_ok_grow; [by apply Hlast|by apply (Hb n)]|].
    apply (batch_ok_ext h w); [|by apply (Hb n)]. intros j Hj. split; [|done].
    rewrite values_of_app, values_of_one, decide_False; [by rewrite app_nil_r|]. intros <-.
    assert (is_Some (t !! k)) as [? ?] by (apply Ho; left; by exists n, b). congruence.
  - intros j c Hc. rewrite values_of_app, values_of_one. destruct (decide (j = k)) as [->|Hne].
    + rewrite lookup_insert_eq in Hc. injection Hc as <-. by rewrite decide_True, list.last_snoc.
    + rewrite lookup_insert_ne in Hc by done. rewrite decide_False, app_nil_r by done. by apply Hl.
  - intros j Hj. apply lookup_insert_None in Hj as [Hj _]. by apply Hg, Hi.
  - intros j Hj y. rewrite values_of_app, values_of_one. destruct (decide (k = j)) as [<-|Hne].
    + rewrite list.last_snoc. intros [= <-]. apply sublist_app; [|done]. destruct (t !! k) eqn:Ek; [|by apply Hi].
      destruct (Hlast ltac:(done)) as [z Hz]. transitivity (values_of k w ++ [z]); [by apply sublist_inserts_r|by apply Hli].
    + rewrite app_nil_r. intros Hy. apply Hli; [|done]. destruct (t !! k); [done|].
      apply list.elem_of_app in Hj as [?| ->%list_elem_of_singleton]; done.
Qed.

Lemma take_all_ok input : forall h w u t new t' new',
  taking h w u t new -> foldl take_info (t, new) input = (t', new') -> taking (h ++ received input) w u t' new'.
Proof.
  induction input as [|i input IH]; intros h w u t new t' new' Ht; cbn [foldl].
  - intros [= <- <-]. cbn. by rewrite app_nil_r.
  - destruct (take_info (t, new) i) as [t1 new1] eqn:E. intros E'.
    change (received (i :: input)) with (received [i] ++ received input). rewrite app_assoc.
    by apply (IH _ _ _ t1 new1), E'; apply (take_info_ok _ _ _ t new).
Qed.

(** An update that arrives. *)
Lemma update_arrives_ok h w u from input :
  updates_ok h w u -> updates_ok (h ++ received input) w (update_arrives from input u).
Proof.
  intros [Ho Ha Hf Hb Hl Hi]. unfold update_arrives. destruct (foldl take_info (table u, []) input) as [t new] eqn:E.
  apply (take_all_ok input h w u) in E as [To Tnd Tn Tb Tl Ti Tli].
  2: { split; try done; [|constructor|set_solver..]. intros k. rewrite Ho. split; [by left|]. intros [?|?%not_elem_of_nil]; done. }
  destruct new as [|j new].
  - split; try done. cbn. intros k. rewrite To. split; [intros [?|?%not_elem_of_nil]; done|by left].
  - set (b0 := Batch from (j :: new) (j :: new) [] [] Posted).
    assert (batches u !! posted u = None) as Hp by by apply Hf.
    assert (forall n b, <[posted u := b0]> (batches u) !! n = Some b <-> n = posted u /\ b = b0 \/ batches u !! n = Some b) as Hlk.
    { intros n b. destruct (decide (n = posted u)) as [->|Hne].
      - rewrite lookup_insert_eq, Hp. split; [intros [= <-]; by left|]. intros [[_ ->]|?]; done.
      - rewrite lookup_insert_ne by done. split; [by right|]. intros [[? _]|?]; done. }
    split; cbn [table batches posted].
    + intros k. rewrite To. split.
      * intros [(n & b & Hn & Hk)|Hk]; [exists n, b; split; [|done]; apply Hlk; by right|exists (posted u), b0; split; [apply Hlk; by left|done]].
      * intros (n & b & [[-> ->]|Hn]%Hlk & Hk); [by right|left; by exists n, b].
    + intros n n' b b' k [[-> ->]|Hn]%Hlk [[-> ->]|Hn']%Hlk Hk Hk'; [done|by destruct (Tn k n' b')|by destruct (Tn k n b)|by apply (Ha n n' b b' k)].
    + intros n Hn. rewrite lookup_insert_ne by (by intros E0; rewrite E0 in Hn; apply Nat.nle_succ_diag_l in Hn). apply Hf. by apply Nat.lt_le_incl.
    + intros n b [[-> ->]|Hn]%Hlk; [|by apply (Tb n)]. split; [done|]. exists []. split_and!; [done..|]. split_and!; [done| |done].
      intros k x Hx. by apply not_elem_of_nil in Hx.
    + done.
    + done.
Qed.

(** Another batch of coroutine [n], with the users it had; what is written now
    is of these users. *)
Lemma set_batch_ok h w w' u n b b' :
  updates_ok h w u -> batches u !! n = Some b -> b_infos b' = b_infos b ->
  (forall k, k ∉ b_infos b -> values_of k w' = values_of k w) -> batch_ok h w' b' ->
  updates_ok h w' (Updates (table u) (<[n := b']> (batches u)) (posted u)).
Proof.
  intros [Ho Ha Hf Hb Hl Hi] Hn Ei Hw Hb'.
  assert (forall j c, <[n := b']> (batches u) !! j = Some c -> exists c', batches u !! j = Some c' /\ b_infos c = b_infos c') as Hlk.
  { intros j c. destruct (decide (j = n)) as [->|Hne]; [rewrite lookup_insert_eq; intros [= <-]; by exists b|].
    rewrite lookup_insert_ne by done. by exists c. }
  split; cbn [table batches posted].
  - intros k. rewrite Ho. split.
    + intros (j & c & Hj & Hk). destruct (decide (j = n)) as [->|Hne].
      * exists n, b'. rewrite lookup_insert_eq. split; [done|]. simplify_eq. by rewrite Ei.
      * exists j, c. by rewrite lookup_insert_ne.
    + intros (j & c & Hj & Hk). destruct (Hlk j c Hj) as (c' & Hc' & E). exists j, c'. by rewrite <- E.
  - intros j j' c c' k Hj Hj' Hk Hk'. destruct (Hlk j c Hj) as (d & Hd & E), (Hlk j' c' Hj') as (d' & Hd' & E').
    apply (Ha j j' d d' k); congruence.
  - intros j Hj. assert (batches u !! j = None) as Hj' by by apply Hf. rewrite lookup_insert_ne; [done|]. intros ->. congruence.
  - intros j c Hj. destruct (decide (j = n)) as [->|Hne]; [rewrite lookup_insert_eq in Hj; by injection Hj as <-|].
    rewrite lookup_insert_ne in Hj by done. apply (batch_ok_ext h w); [|by apply (Hb j)]. intros k Hk. split; [done|].
    apply Hw. intros Hk'. by apply Hne, (Ha j n c b k).
  - done.
  - intros k Hk. rewrite Hw; [by apply Hi|]. intros Hk'. assert (is_Some (table u !! k)) as [? ?] by (apply Ho; by exists n, b). congruence.
Qed.

(** The first step of a job. *)
Lemma acquire_step_ok h w u n b (ok : bool) :
  updates_ok h w u -> batches u !! n = Some b -> b_stage b = Posted ->
  updates_ok h w (Updates (table u) (<[n := set_stage b (if ok then Reading else Done false)]> (batches u)) (posted u)).
Proof.
  intros Hu Hn Es. apply (set_batch_ok h w w u n b); [done..|]. pose proof Hu as [Ho Ha Hf Hb Hl Hi].
  destruct (Hb n b Hn) as [Hnd (r & Ei & Eo & Ep & Hr)]. rewrite Es in Hr. destruct Hr as (Hp & Hr & Hd). specialize (Hp eq_refl) as ->.
  split; [done|]. exists []. split_and!; [done..|]. destruct ok; cbn [set_stage b_stage b_infos b_todo]; [by split_and!|].
  split; [|done]. intros k Hk. assert (is_Some (table u !! k)) as [c Hc] by (apply Ho; by exists n, b).
  transitivity (values_of k w ++ [(version c, data c)]); [by apply sublist_inserts_r|]. apply Hd; [by rewrite Ei in Hk|by apply Hl].
Qed.

(** An entry is read. *)
Lemma read_step_ok h w u n b k todo c :
  updates_ok h w u -> batches u !! n = Some b -> b_stage b = Reading -> b_todo b = k :: todo -> table u !! k = Some c ->
  updates_ok h w (Updates (table u)
    (<[n := Batch (b_from b) (b_infos b) todo (b_ops b ++ [(k, data c)]) (b_output b ++ [(k, version c)]) Reading]> (batches u)) (posted u)).
Proof.
  intros Hu Hn Es Et Hc. apply (set_batch_ok h w w u n b); [done..|]. pose proof Hu as [Ho Ha Hf Hb Hl Hi].
  destruct (Hb n b Hn) as [Hnd (r & Ei & Eo & Ep & Hr)]. rewrite Es in Hr. destruct Hr as (_ & Hr & Hd). rewrite Et in Ei, Hd.
  split; [done|]. exists (r ++ [(k, (version c, data c))]). cbn [b_infos b_todo b_ops b_output b_stage].
  rewrite !map_app, Ei, Eo, Ep, <- (app_assoc (A := Z)). split_and!; [done..| |].
  - intros j x [Hj|[= -> ->]%list_elem_of_singleton]%list.elem_of_app; [by apply Hr|]. apply Hd; [apply elem_of_cons; by left|by apply Hl].
  - intros j Hj. apply Hd, elem_of_cons. by right.
Qed.

(** The bulk is written, as far as entry [j] of it. *)
Lemma bulk_step_ok h w u n b ok (r : list (info_of V)) j :
  updates_ok h w u -> batches u !! n = Some b -> b_stage b = Reading -> b_todo b = [] ->
  b_infos b = map fst r -> b_ops b = map (fun i => (i.1, i.2.2)) r -> b_output b = map (fun i => (i.1, i.2.1)) r ->
  (forall k x, (k, x) ∈ r -> values_of k w ++ [x] `sublist_of` values_of k h) ->
  (ok = true -> j = length r) ->
  updates_ok h (w ++ take j r) (Updates (table u) (<[n := set_stage b (Done ok)]> (batches u)) (posted u)).
Proof.
  intros Hu Hn Es Et Ei Eo Ep Hr Hok. pose proof Hu as [_ _ _ Hb _ _]. destruct (Hb n b Hn) as [Hnd _].
  assert (forall k, k ∈ map fst r -> exists x, (k, x) ∈ r) as Hin.
  { intros k ([k' x] & -> & Hx)%list_elem_of_fmap. by exists x. }
  apply (set_batch_ok h w _ u n b); [done..| |].
  - intros k Hk. rewrite values_of_app, (values_of_none k (take j r)), app_nil_r; [done|].
    intros Hk'. apply Hk. rewrite Ei, <- (take_drop j r), map_app. apply list.elem_of_app. by left.
  - split; [done|]. exists r. cbn [set_stage b_infos b_todo b_ops b_output b_stage].
    rewrite Et, (app_nil_r (A := Z)). rewrite Ei in Hnd. split_and!; [done..| |].
    + intros k Hk. rewrite Ei in Hk. destruct (Hin k Hk) as [x Hx]. rewrite values_of_app.
      transitivity (values_of k w ++ [x]); [|by apply Hr]. apply sublist_app; [done|]. by apply values_of_take.
    + intros E k x Hx. rewrite values_of_app, (Hok E), take_ge by done. rewrite (values_of_some k x r) by done.
      apply list.elem_of_app. right. by apply list_elem_of_singleton.
Qed.

Lemma delete_all_lookup (l : list Z) (t : gmap Z (cache_info V)) k :
  foldl (fun t userid => delete userid t) t l !! k = if decide (k ∈ l) then None else t !! k.
Proof.
  revert t. induction l as [|j l IH]; intros t; cbn [foldl].
  - rewrite decide_False; [done|]. apply not_elem_of_nil.
  - rewrite IH. destruct (decide (k ∈ l)) as [Hk|Hk]; [rewrite decide_True by (apply elem_of_cons; by right); done|].
    destruct (decide (k = j)) as [->|Hne]; [rewrite lookup_delete_eq, decide_True by (apply elem_of_cons; by left); done|].
    rewrite lookup_delete_ne by done. rewrite decide_False; [done|]. intros [?|?]%elem_of_cons; done.
Qed.

(** The coroutine resumed: what it reports was written. *)
Lemma update_resumes_ok h w n u u' o :
  updates_ok h w u -> update_resumes n u = Some (u', o) ->
  updates_ok h w u' /\ forall from l k v, o = Some (from, l) -> (k, v) ∈ l -> exists d, (v, d) ∈ values_of k w.
Proof.
  intros [Ho Ha Hf Hb Hl Hi] Hj. unfold update_resumes in Hj. destruct (batches u !! n) as [b|] eqn:Hn; [|done]. cbn in Hj.
  destruct (Hb n b Hn) as [Hnd (r & Ei & Eo & Ep & Hr)]. destruct (b_stage b) as [| |ok]; [done..|]. destruct Hr as [Hs Hr].
  injection Hj as <- <-. split; [split; cbn [table batches posted]|].
  - intros k. rewrite delete_all_lookup. split.
    + case_decide as Hk; [by intros [? ?]|]. rewrite Ho. intros (j & c & Hj & Hc). exists j, c. split; [|done].
      rewrite lookup_delete_ne; [done|]. intros ->. congruence.
    + intros (j & c & [Hne Hj]%lookup_delete_Some & Hc). rewrite decide_False; [apply Ho; by exists j, c|].
      intros Hk. by apply Hne, (Ha n j b c k).
  - intros j j' c c' k [_ Hj]%lookup_delete_Some [_ Hj']%lookup_delete_Some. by apply Ha.
  - intros j Hj. rewrite lookup_delete_None. right. by apply Hf.
  - intros j c [_ Hj]%lookup_delete_Some. by apply (Hb j).
  - intros k c. rewrite delete_all_lookup. case_decide; [done|]. apply Hl.
  - intros k. rewrite delete_all_lookup. case_decide as Hk; [intros _; by apply Hs|apply Hi].
  - intros from l k v E Hkv. destruct ok; [|done].
    destruct (b_output b) as [|o os] eqn:Eb; [done|]. injection E as <- <-. rewrite Ep in Hkv.
    apply list_elem_of_fmap in Hkv as ([j [v' d]] & [= -> ->] & Hx). exists d. by apply Hr.
Qed.

End order.

Section documents.
Context {V D : Type} `{DatabaseLaws D} (name : string) (fields : V -> document).
Context (fields_userid : forall v, fields v !! "userid"%string = None)
        (fields_same : forall v v' key, is_Some (fields v !! key) -> is_Some (fields v' !! key)).

Implicit Types (h w : list (info_of V)) (b : batch V) (u : updates V).

(** The document that holds the last of the values, if any. *)
Definition stored (l : list (Z * V)) (d : document) : document :=
  match list.last l with Some (_, v) => set_fields (fields v) d | None => d end.

(** A collection after what happened to it. *)
Definition apply_change (docs : list document) (c : change V) : list document :=
  match c with
  | Stored i => update_one ("userid"%string, BInt32 i.1) (fields i.2.2) docs
  | Inserted d => docs ++ [d]
  end.

Definition replay (log : list (change V)) (docs : list document) : list document := foldl apply_change docs log.

(** The entries [w] were written and documents of [new] inserted, and nothing
    else happened. *)
Definition docs_ok (new : list document) w (docs0 docs : list document) : Prop :=
  exists log, writes log = w /\ inserts log ⊆ new /\ docs = replay log docs0.

(** What is there of user [k] after [log]: a document that was there holds the
    last of the values written for the user; of a user without one, the first
    that was inserted holds the last of those written since; and there is none
    when none was inserted, whatever was written. *)
Definition user_holds (k : Z) (log : list (change V)) (docs0 docs : list document) : Prop :=
  let of_k := ("userid"%string, BInt32 k) in
  (forall i d, first_at of_k i d docs0 -> first_at of_k i (stored (values_of k (writes log)) d) docs) /\
  (first_match of_k docs0 = None ->
   (forall log1 d log2, log = log1 ++ Inserted d :: log2 -> (forall d', d' ∈ inserts log1 -> matches of_k d' = false) ->
      matches of_k d = true -> exists i, first_at of_k i (stored (values_of k (writes log2)) d) docs) /\
   ((forall d, d ∈ inserts log -> matches of_k d = false) -> first_match of_k docs = None)).

Lemma stored_snoc (l : list (Z * V)) (x : Z * V) d : set_fields (fields x.2) (stored l d) = stored (l ++ [x]) d.
Proof.
  unfold stored. rewrite list.last_snoc. destruct x as [v x]. destruct (list.last l) as [[v' y]|]; [|done]. cbn.
  unfold set_fields. apply map_eq. intros key. rewrite !lookup_union.
  destruct (fields x !! key) eqn:Ex, (fields y !! key) eqn:Ey, (d !! key); try done.
  all: destruct (fields_same y x key ltac:(by eexists)) as [? ?]; congruence.
Qed.

Lemma replay_app log log' docs : replay (log ++ log') docs = replay log' (replay log docs).
Proof. apply foldl_app. Qed.

(** A document that is there follows the values of its user. *)
Lemma replay_first k i d log docs :
  first_at ("userid"%string, BInt32 k) i d docs ->
  first_at ("userid"%string, BInt32 k) i (stored (values_of k (writes log)) d) (replay log docs).
Proof.
  intros Hf. induction log as [|c log IH] using rev_ind; [done|]. rewrite replay_app, writes_app. destruct c as [[j [v x]]|d']; cbn.
  - rewrite values_of_app, values_of_one.
    apply (update_one_first "userid"%string (BInt32 k) (BInt32 j) (fields x)) in IH; [|apply fields_userid].
    destruct (decide (j = k)) as [->|Hne].
    + rewrite decide_True in IH by done. by rewrite <- (stored_snoc _ (v, x)).
    + rewrite decide_False in IH by congruence. by rewrite app_nil_r.
  - rewrite app_nil_r. by apply first_at_app.
Qed.

(** A user without a document is without one until one is inserted. *)
Lemma replay_none k log docs :
  first_match ("userid"%string, BInt32 k) docs = None ->
  (forall d, d ∈ inserts log -> matches ("userid"%string, BInt32 k) d = false) ->
  first_match ("userid"%string, BInt32 k) (replay log docs) = None.
Proof.
  intros Hn. induction log as [|c log IH] using rev_ind; [done|]. rewrite inserts_app. intros Hi. rewrite replay_app.
  specialize (IH (fun d Hd => Hi d (proj2 (list.elem_of_app _ _ _) (or_introl Hd)))). destruct c as [[j [v x]]|d]; cbn.
  - apply update_one_none; [apply fields_userid|done].
  - assert (matches ("userid"%string, BInt32 k) d = false) as Hd.
    { apply Hi, list.elem_of_app. right. by apply list_elem_of_singleton. }
    revert IH. generalize (replay log docs). intros docs'. induction docs' as [|d' docs' IH]; cbn; [by rewrite Hd|].
    by destruct (matches _ d').
Qed.

Lemma replay_holds k log docs : user_holds k log docs (replay log docs).
Proof.
  split; [by intros i d; apply replay_first|]. intros Hn. split; [|by apply replay_none].
  intros log1 d log2 -> H1 Hd. exists (length (replay log1 docs)). rewrite replay_app. change (Inserted d :: log2) with ([Inserted d] ++ log2).
  rewrite (replay_app [Inserted d]). apply replay_first. cbn. apply first_at_snoc; [by apply replay_none|done].
Qed.

(** The bulk write of entries [r]. *)
Lemma update_all_docs new w docs0 r docs :
  docs_ok new w docs0 docs ->
  docs_ok new (w ++ r) docs0 (update_all (map (update_op fields) (map (fun i : info_of V => (i.1, i.2.2)) r)) docs).
Proof.
  intros (log & <- & Hi & ->). exists (log ++ map Stored r). rewrite writes_app, writes_stored, inserts_app, inserts_stored, app_nil_r.
  split_and!; [done..|]. rewrite replay_app. generalize (replay log docs0). clear. induction r as [|[k [v x]] r IH]; intros docs; cbn; [done|].
  apply IH.
Qed.

(** A step of a job: what was written grows, the documents follow, and no other
    collection changes. *)
Lemma update_job_ok new h w docs0 n u s u' s' :
  updates_ok h w u -> docs_ok new w docs0 (collection name s) -> update_job name fields n u s = Some (u', s') ->
  exists w', w `prefix_of` w' /\ updates_ok h w' u' /\ docs_ok new w' docs0 (collection name s') /\ same_but name s s'.
Proof.
  intros Hu Hd Hj. unfold update_job in Hj. destruct (batches u !! n) as [b|] eqn:Hn; [|done]. cbn in Hj.
  pose proof Hu as [_ _ _ Hb _ _]. destruct (Hb n b Hn) as [_ (r & Ei & Eo & Ep & Hr)].
  destruct (b_stage b) as [| |ok] eqn:Es; [| |done].
  - pose proof (acquire_law s) as Hs. destruct (acquire s) as [s1 ok] eqn:Ea. cbn in Hs. injection Hj as <- <-.
    exists w. split_and!; [done|by apply acquire_step_ok|by rewrite Hs|]. intros c _. apply Hs.
  - destruct (b_todo b) as [|k todo] eqn:Et.
    + pose proof (bulk_law name (map (update_op fields) (b_ops b)) s) as Hs. destruct (bulk_execute _ _ s) as [s1 ok] eqn:Eb.
      destruct Hs as [(j & Hok & Hs) Ho]. injection Hj as <- <-. exists (w ++ take j r). destruct Hr as (_ & Hr & _). split_and!.
      * by eexists.
      * apply bulk_step_ok; try done; [by rewrite app_nil_r in Ei|]. intros E. rewrite (Hok E), Eo, !length_map. done.
      * rewrite Hs, Eo, !firstn_map. by apply update_all_docs.
      * done.
    + destruct (table u !! k) as [c|] eqn:Ec; [|done]. cbn in Hj. injection Hj as <- <-. exists w.
      split_and!; [done|by apply read_step_ok|done|done].
Qed.

(** A job that is not done can always go on: every iterator it holds points to
    an entry. *)
Lemma update_job_enabled h w n u s b :
  updates_ok h w u -> batches u !! n = Some b -> (forall ok, b_stage b <> Done ok) -> is_Some (update_job name fields n u s).
Proof.
  intros [Ho Ha Hf Hb Hl Hi] Hn Hs. unfold update_job. rewrite Hn. cbn. destruct (b_stage b) as [| |ok] eqn:Es; [| |by destruct (Hs ok)].
  - destruct (acquire s). by eexists.
  - destruct (b_todo b) as [|k todo] eqn:Et; [destruct (bulk_execute _ _ s); by eexists|].
    destruct (Hb n b Hn) as [_ (r & Ei & _)]. assert (is_Some (table u !! k)) as [c Hc].
    { apply Ho. exists n, b. split; [done|]. rewrite Ei, Et. apply list.elem_of_app. right. apply elem_of_cons. by left. }
    rewrite Hc. by eexists.
Qed.

(** The steps that a job has still to make. *)
Definition work (b : batch V) : nat :=
  match b_stage b with Posted => S (S (length (b_todo b))) | Reading => S (length (b_todo b)) | Done _ => 0 end.

Lemma update_job_work n u s u' s' b :
  update_job name fields n u s = Some (u', s') -> batches u !! n = Some b ->
  exists b', batches u' !! n = Some b' /\ b_infos b' = b_infos b /\ (work b' < work b)%nat.
Proof.
  intros Hj Hn. unfold update_job in Hj. rewrite Hn in Hj. cbn in Hj. unfold work.
  destruct (b_stage b) as [| |ok]; [| |done].
  - destruct (acquire s) as [s1 ok]. injection Hj as <- <-. eexists. split; [apply lookup_insert_eq|]. split; [done|].
    destruct ok; cbn; lia.
  - destruct (b_todo b) as [|k todo].
    + destruct (bulk_execute _ _ s) as [s1 ok]. injection Hj as <- <-. eexists. split; [apply lookup_insert_eq|].
      split; [done|]. cbn. lia.
    + destruct (table u !! k); [|done]. cbn in Hj. injection Hj as <- <-. eexists. split; [apply lookup_insert_eq|].
      split; [done|]. cbn. lia.
Qed.

(** The job of one coroutine, [m] steps of it. *)
Fixpoint jobs (m n : nat) (u : updates V) (s : D) : option (updates V * D) :=
  match m with O => Some (u, s) | S m => '(u, s) ← update_job name fields n u s; jobs m n u s end.

Lemma jobs_end new fuel : forall h w docs0 n u s b,
  (work b <= fuel)%nat -> updates_ok h w u -> docs_ok new w docs0 (collection name s) -> batches u !! n = Some b ->
  exists m u' s' b' ok, (m <= fuel)%nat /\ jobs m n u s = Some (u', s') /\
    batches u' !! n = Some b' /\ b_infos b' = b_infos b /\ b_stage b' = Done ok.
Proof.
  induction fuel as [|fuel IH]; intros h w docs0 n u s b Hw Hu Hd Hn.
  - unfold work in Hw. destruct (b_stage b) as [| |ok] eqn:Es; [lia|lia|]. exists 0%nat, u, s, b, ok. by split_and!.
  - destruct (b_stage b) as [| |ok] eqn:Es.
    3: { exists 0%nat, u, s, b, ok. split_and!; [lia|done..]. }
    all: destruct (update_job_enabled h w n u s b Hu Hn) as [[u1 s1] Hj]; [by rewrite Es|];
      destruct (update_job_work _ _ _ _ _ _ Hj Hn) as (b1 & Hn1 & Ei & Hlt);
      destruct (update_job_ok _ _ _ _ _ _ _ _ _ Hu Hd Hj) as (w1 & _ & Hu1 & Hd1 & _);
      destruct (IH h w1 docs0 n u1 s1 b1) as (m & u' & s' & b' & ok & Hm & Hr & Hn' & Ei' & Es'); [lia|done..|];
      exists (S m), u', s', b', ok; cbn [jobs]; rewrite Hj; cbn; split_and!; [lia|done|done|congruence|done].
Qed.

(** The entries of a coroutine that has resumed are gone. *)
Lemma resumes_when_done n u b ok :
  batches u !! n = Some b -> b_stage b = Done ok ->
  exists u' o, update_resumes n u = Some (u', o) /\ forall k, k ∈ b_infos b -> table u' !! k = None.
Proof.
  intros Hn Es. unfold update_resumes. rewrite Hn. cbn. rewrite Es. eexists _, _. split; [done|]. intros k Hk. cbn.
  by rewrite delete_all_lookup, decide_True.
Qed.

Lemma work_bound h w n u b : updates_ok h w u -> batches u !! n = Some b -> (work b <= S (S (length (b_infos b))))%nat.
Proof.
  intros Hu Hn. destruct (uk_batch _ _ _ Hu n b Hn) as [_ (r & Ei & _)]. rewrite Ei, length_app. unfold work.
  destruct (b_stage b); lia.
Qed.
End documents.

(** ** The service *)

Lemma user_fields_userid v : user_fields v !! "userid"%string = None.
Proof. done. Qed.

Lemma account_fields_userid v : account_fields v !! "userid"%string = None.
Proof. done. Qed.

Lemma user_fields_same v v' key : is_Some (user_fields v !! key) -> is_Some (user_fields v' !! key).
Proof. unfold user_fields. rewrite !lookup_insert_is_Some', !lookup_singleton_is_Some. tauto. Qed.

Lemma account_fields_same v v' key : is_Some (account_fields v !! key) -> is_Some (account_fields v' !! key).
Proof. unfold account_fields. rewrite !lookup_insert_is_Some', !lookup_singleton_is_Some. tauto. Qed.

(** The users and versions that the proxy reports as written. *)
Definition user_acks (outs : list output) : list (Z * Z) :=
  flat_map (fun o => match o with Write _ _ _ (UpdateUser l) => l | _ => [] end) outs.

Definition account_acks (outs : list output) : list (Z * Z) :=
  flat_map (fun o => match o with Write _ _ _ (UpdateAccount l) => l | _ => [] end) outs.

(** A collection follows the updates [h]: it is what [log] made of it, where
    only documents of [new] were inserted and for every user some of the
    updates, in the order in which they came, were written, every one that was
    acknowledged among them. *)
Definition follows {V} (fields : V -> document) (h : list (info_of V)) (new docs0 docs : list document) (acks : list (Z * Z)) : Prop :=
  exists log, docs = replay fields log docs0 /\ inserts log ⊆ new /\
    (forall k, values_of k (writes log) `sublist_of` values_of k h) /\
    (forall k v, (k, v) ∈ acks -> exists d, (v, d) ∈ values_of k (writes log)) /\
    (forall k, user_holds fields k log docs0 docs).

Section service_order.
Context {D : Type} `{DatabaseLaws D}.
Context (parse_create : bytes -> option s_db_create_user_req) (parse_query_user : bytes -> option Z)
  (parse_update_user : bytes -> option (list (info_of user_data))) (parse_query_account : bytes -> option s_db_query_account_req)
  (parse_update_account : bytes -> option (list (info_of account_data))).

Abbreviation step := (step parse_create parse_query_user parse_update_user parse_query_account parse_update_account).
Abbreviation run := (run parse_create parse_query_user parse_update_user parse_query_account parse_update_account).

(** The entries of the updates among the messages that came. *)
Definition updates_of {V} (number : Z) (parse : bytes -> option (list (info_of V))) (es : list event) : list (info_of V) :=
  flat_map (fun e => match e with
    | Forward _ _ id buffer => if id =? number then match parse buffer with Some input => received input | None => [] end else []
    | _ => []
    end) es.

(** The documents that the messages that came ask to create. *)
Definition creates (es : list event) : list (string * document) :=
  flat_map (fun e => match e with
    | Forward _ _ id buffer =>
      if id =? id_s_db_create_user_req then match parse_create buffer with Some req => new_docs req | None => [] end else []
    | _ => []
    end) es.

Definition created (name : string) (es : list event) : list document := map snd (base.filter (fun i => i.1 = name) (creates es)).

Abbreviation user_updates := (updates_of id_s_db_update_user_brd parse_update_user).
Abbreviation account_updates := (updates_of id_s_db_update_account_brd parse_update_account).

Lemma creates_app es es' : creates (es ++ es') = creates es ++ creates es'.
Proof. apply flat_map_app. Qed.

Lemma created_app name es es' : created name es ⊆ created name (es ++ es').
Proof. intros d Hd. unfold created. rewrite creates_app, list.filter_app, map_app. apply list.elem_of_app. by left. Qed.

(** One of the two parts. *)
Definition part_ok {V} (fields : V -> document) (name : string) (docs0 : list document) (es : list event)
    (h w : list (info_of V)) (u : updates V) (s : D) : Prop :=
  updates_ok h w u /\ docs_ok fields (created name es) w docs0 (collection name s).

(** A call inserts into a collection what it may insert, or changes nothing. *)
Definition grows (new : list (string * document)) (s s' : D) : Prop :=
  same_collections s s' \/ exists c d, (c, d) ∈ new /\ collection c s' = collection c s ++ [d] /\ same_but c s s'.

Lemma docs_ok_more {V} (fields : V -> document) new new' w docs0 docs :
  new ⊆ new' -> docs_ok fields new w docs0 docs -> docs_ok fields new' w docs0 docs.
Proof. intros Hn (log & Hw & Hi & Hd). exists log. split_and!; [done|by transitivity new|done]. Qed.

Lemma docs_ok_insert {V} (fields : V -> document) new w docs0 docs d :
  d ∈ new -> docs_ok fields new w docs0 docs -> docs_ok fields new w docs0 (docs ++ [d]).
Proof.
  intros Hn (log & <- & Hi & ->). exists (log ++ [Inserted d]). rewrite writes_app, inserts_app, replay_app. cbn. rewrite app_nil_r.
  split_and!; [done| |done]. intros d' [Hd|Hd]%list.elem_of_app; [by apply Hi|]. by apply list_elem_of_singleton in Hd as ->.
Qed.

Lemma part_more {V} (fields : V -> document) name docs0 es e h w u s :
  part_ok fields name docs0 es h w u s -> part_ok fields name docs0 (es ++ [e]) h w u s.
Proof. intros [Hu Hd]. split; [done|]. eapply docs_ok_more; [apply created_app|done]. Qed.

Lemma part_grows {V} (fields : V -> document) name docs0 es h w u s s' :
  grows (creates es) s s' -> part_ok fields name docs0 es h w u s -> part_ok fields name docs0 es h w u s'.
Proof.
  intros Hg [Hu Hd]. split; [done|]. destruct Hg as [Hs|(c & d & Hc & Hs & Ho)]; [by rewrite (Hs name)|].
  destruct (decide (name = c)) as [->|Hne]; [|by rewrite (Ho name)]. rewrite Hs. apply docs_ok_insert; [|done].
  apply list_elem_of_fmap. exists (c, d). split; [done|]. by apply list_elem_of_filter.
Qed.

Lemma same_trans s1 s2 s3 : same_collections s1 s2 -> same_collections s2 s3 -> same_collections s1 s3.
Proof. intros E E' c. by rewrite E', E. Qed.

Lemma query_same q s : same_collections s (run_query q s).1.
Proof.
  pose proof (acquire_law s) as Ha. destruct q as [userid|account userid| |]; cbn;
    unfold query_user_job, query_account_job, query_max_job, query_ai_job; destruct (acquire s) as [s1 [|]]; cbn in *; try done.
  - pose proof (find_one_law user_info_name ("userid"%string, BInt32 userid) s1) as Hf.
    destruct (find_one _ _ s1) as [s2 r]. destruct Hf as [Hf _].
    destruct r as [[doc|]|]; [destruct (fill_user _ _ _)|..]; by apply (same_trans s s1).
  - set (f := if decide _ then _ else _). pose proof (find_one_law account_info_name f s1) as Hf.
    destruct (find_one _ _ s1) as [s2 r]. destruct Hf as [Hf _].
    destruct r as [[doc|]|]; [destruct (fill_account _ _)|..]; by apply (same_trans s s1).
  - pose proof (find_max_law account_info_name "userid" s1) as Hf. destruct (find_max _ _ s1) as [s2 r].
    destruct Hf as [Hf _]. by apply (same_trans s s1).
  - pose proof (find_all_law ai_list_name s1) as Hf. destruct (find_all _ s1) as [[s2 docs] ok]. destruct Hf as [Hf _].
    destruct (fill_ai docs []). by apply (same_trans s s1).
Qed.

(** What the job of a task may still insert. *)
Definition to_insert (t : task) : list (string * document) := match t with Creating _ _ _ docs => docs | _ => [] end.

Lemma task_grows t s t' s' : task_job t s = Some (t', s') -> grows (to_insert t) s s' /\ to_insert t' ⊆ to_insert t.
Proof.
  destruct t as [from session [|] docs|from session ok|from session q|from session id m]; cbn; try done.
  - destruct docs as [|[c d] docs]; [by intros [= <- <-]; split; [left|]|].
    pose proof (insert_law c d s) as Hi. destruct (insert_one c d s) as [s1 ok]. intros [= <- <-]. destruct Hi as [Hi Ho]. split.
    + destruct Hi as [Hi|[_ Hi]]; [right; exists c, d; split; [apply elem_of_cons; by left|done]|left].
      intros c'. destruct (decide (c' = c)) as [->|Hne]; [done|by apply Ho].
    + destruct ok; cbn; [by apply (list_subseteq_cons (c, d))|apply list_subseteq_nil].
  - pose proof (acquire_law s) as Ha. destruct (acquire s) as [s1 ok]. intros [= <- <-]. split; [by left|].
    destruct ok; cbn; [done|apply list_subseteq_nil].
  - pose proof (query_same q s) as Hq. destruct (run_query q s) as [s1 [id m]]. intros [= <- <-]. split; [by left|done].
Qed.

(** Every document that is still to be inserted was asked for. *)
Definition tasks_ok (es : list event) (ts : gmap nat task) : Prop := forall n t, ts !! n = Some t -> to_insert t ⊆ creates es.

Lemma tasks_more es e ts : tasks_ok es ts -> tasks_ok (es ++ [e]) ts.
Proof. intros Ht n t Hn i Hi. rewrite creates_app. apply list.elem_of_app. left. by apply (Ht n t). Qed.

Lemma tasks_insert es n t ts : tasks_ok es ts -> to_insert t ⊆ creates es -> tasks_ok es (<[n := t]> ts).
Proof. intros Ht Hi m t' [[<- <-]|[_ Hm]]%lookup_insert_Some; [done|by apply (Ht m)]. Qed.

Lemma tasks_delete es n ts : tasks_ok es ts -> tasks_ok es (delete n ts).
Proof. intros Ht m t' [_ Hm]%lookup_delete_Some. by apply (Ht m). Qed.

(** Both parts, with what was written so far, and the tasks. *)
Definition service_ok (s0 : D) (es : list event) (wu : list (info_of user_data)) (wa : list (info_of account_data)) (p : db_proxy D) : Prop :=
  part_ok user_fields user_info_name (collection user_info_name s0) es (user_updates es) wu (user_infos p) (db p) /\
  part_ok account_fields account_info_name (collection account_info_name s0) es (account_updates es) wa (account_infos p) (db p) /\
  tasks_ok es (tasks p).

Definition acked {V} (acks : list (Z * Z)) (w : list (info_of V)) : Prop :=
  forall k v, (k, v) ∈ acks -> exists d, (v, d) ∈ values_of k w.

Lemma updates_of_app {V} number (parse : bytes -> option (list (info_of V))) es es' :
  updates_of number parse (es ++ es') = updates_of number parse es ++ updates_of number parse es'.
Proof. apply flat_map_app. Qed.

Lemma service_more s0 es e wu wa p :
  updates_of id_s_db_update_user_brd parse_update_user [e] = [] -> updates_of id_s_db_update_account_brd parse_update_account [e] = [] ->
  service_ok s0 es wu wa p -> service_ok s0 (es ++ [e]) wu wa p.
Proof.
  intros Eu Ea (Hu & Ha & Ht). unfold service_ok. rewrite !updates_of_app, Eu, Ea, !app_nil_r.
  split; [by apply part_more|split; [by apply part_more|by apply tasks_more]].
Qed.

Lemma start_task_ok s0 es wu wa p t : to_insert t ⊆ creates es -> service_ok s0 es wu wa p -> service_ok s0 es wu wa (start t p).
Proof. intros Hi (Hu & Ha & Ht). split; [done|split; [done|]]. by apply tasks_insert. Qed.

(** A message changes the tables as its number says. *)
Lemma forward_ok s0 es wu wa p from session id buffer p' outs :
  service_ok s0 es wu wa p ->
  forward_shm parse_create parse_query_user parse_update_user parse_query_account parse_update_account from session id buffer p = (p', outs) ->
  service_ok s0 (es ++ [Forward from session id buffer]) wu wa p' /\ user_acks outs = [] /\ account_acks outs = [].
Proof.
  intros Hok. set (e := Forward from session id buffer).
  assert (forall p', updates_of id_s_db_update_user_brd parse_update_user [e] = [] ->
    updates_of id_s_db_update_account_brd parse_update_account [e] = [] -> service_ok s0 es wu wa p' -> service_ok s0 (es ++ [e]) wu wa p') as Hmore.
  { intros q ? ?. by apply service_more. }
  subst e. cbn [updates_of flat_map] in Hmore. rewrite !app_nil_r in Hmore.
  unfold forward_shm, id_s_db_create_user_req, id_s_db_query_user_req, id_s_db_update_user_brd, id_s_db_query_account_req,
    id_s_db_update_account_brd, id_s_db_query_max_userid_req, id_s_db_query_ai_req in *.
  repeat (match goal with |- context [id =? ?n] => destruct (Z.eqb_spec id n); [subst id; cbn [Z.eqb Pos.eqb] in Hmore|] end);
    repeat case_match; intros [= <- <-]; try (split; [|by split]).
  all: try (apply Hmore; [done..|]; done).
  all: try (apply Hmore; [done..|]; by apply start_task_ok; [apply list_subseteq_nil|]).
  - apply start_task_ok; [|by apply Hmore]. cbn [to_insert]. rewrite creates_app. apply list_subseteq_app_r. cbn. rewrite H1. by rewrite app_nil_r.
  - destruct Hok as (Hu & Ha & Ht). unfold service_ok. rewrite !updates_of_app. cbn [updates_of flat_map]. rewrite H1, !app_nil_r.
    split; [|split; [by apply part_more|by apply tasks_more]]. apply part_more. destruct Hu as [Hu Hd]. split; [|done]. by apply update_arrives_ok.
  - destruct Hok as (Hu & Ha & Ht). unfold service_ok. rewrite !updates_of_app. cbn [updates_of flat_map]. rewrite H1, !app_nil_r.
    split; [by apply part_more|split; [|by apply tasks_more]]. apply part_more. destruct Ha as [Ha Hd]. split; [|done]. by apply update_arrives_ok.
Qed.

Lemma acked_nil {V} (w : list (info_of V)) : acked [] w.
Proof. by intros k v ?%not_elem_of_nil. Qed.

Lemma acked_prefix {V} acks (w w' : list (info_of V)) : w `prefix_of` w' -> acked acks w -> acked acks w'.
Proof. intros [l ->] Ha k v Hk. destruct (Ha k v Hk) as [d Hd]. exists d. rewrite values_of_app. apply list.elem_of_app. by left. Qed.

Lemma acked_app {V} acks acks' (w : list (info_of V)) : acked acks w -> acked acks' w -> acked (acks ++ acks') w.
Proof. intros Ha Ha' k v [Hk|Hk]%list.elem_of_app; [by apply Ha|by apply Ha']. Qed.

(** The writes of one part leave the other alone. *)
Lemma part_same {V} (fields : V -> document) name docs0 es h w u s s' c :
  same_but c s s' -> name <> c -> part_ok fields name docs0 es h w u s -> part_ok fields name docs0 es h w u s'.
Proof. intros Hs Hne [Hu Hd]. split; [done|]. by rewrite (Hs name). Qed.

(** What was reported was written. *)
Lemma report_acked {V} (w : list (info_of V)) (o : option (Z * list (Z * Z))) :
  (forall from l k v, o = Some (from, l) -> (k, v) ∈ l -> exists d, (v, d) ∈ values_of k w) ->
  acked (match o with Some (_, l) => l | None => [] end) w.
Proof. intros Hw k v. destruct o as [[from l]|]; [by apply (Hw from l)|by intros ?%not_elem_of_nil]. Qed.

Lemma proxy_step_ok s0 es wu wa p e p' outs :
  service_ok s0 es wu wa p -> step e p = Some (p', outs) ->
  exists wu' wa', wu `prefix_of` wu' /\ wa `prefix_of` wa' /\ service_ok s0 (es ++ [e]) wu' wa' p' /\
    acked (user_acks outs) wu' /\ acked (account_acks outs) wa'.
Proof.
  intros Hok Hs. destruct e as [from session id buffer|n|n|n|n|n|n]; cbn in Hs.
  - injection Hs as Hs. destruct (forward_ok s0 es wu wa p from session id buffer p' outs Hok Hs) as (Hok' & -> & ->).
    exists wu, wa. split; [done|split; [done|split; [done|split; apply acked_nil]]].
  - destruct Hok as ([Hu Hdu] & Ha & Ht). destruct (update_job _ _ n (user_infos p) (db p)) as [[u s]|] eqn:Hj; [|done]. injection Hs as <- <-.
    destruct (update_job_ok user_info_name user_fields _ _ _ _ _ _ _ _ _ Hu Hdu Hj) as (w' & Hp & Hu' & Hd' & Hsm).
    exists w', wa. split; [done|split; [done|split; [|split; apply acked_nil]]]. apply service_more; [done..|].
    split; [done|split; [|done]]. by apply (part_same _ _ _ _ _ _ _ (db p) _ user_info_name).
  - destruct Hok as ([Hu Hdu] & Ha & Ht). destruct (update_resumes n (user_infos p)) as [[u o]|] eqn:Hj; [|done]. injection Hs as <- <-.
    destruct (update_resumes_ok _ _ _ _ _ _ Hu Hj) as [Hu' Hw%report_acked]. exists wu, wa.
    split; [done|split; [done|split; [by apply service_more|]]]. destruct o as [[from l]|]; cbn; [rewrite app_nil_r|]; by split; [|apply acked_nil].
  - destruct Hok as (Hu & [Ha Hda] & Ht). destruct (update_job _ _ n (account_infos p) (db p)) as [[u s]|] eqn:Hj; [|done]. injection Hs as <- <-.
    destruct (update_job_ok account_info_name account_fields _ _ _ _ _ _ _ _ _ Ha Hda Hj) as (w' & Hp & Ha' & Hd' & Hsm).
    exists wu, w'. split; [done|split; [done|split; [|split; apply acked_nil]]]. apply service_more; [done..|].
    split; [|done]. by apply (part_same _ _ _ _ _ _ _ (db p) _ account_info_name).
  - destruct Hok as (Hu & [Ha Hda] & Ht). destruct (update_resumes n (account_infos p)) as [[u o]|] eqn:Hj; [|done]. injection Hs as <- <-.
    destruct (update_resumes_ok _ _ _ _ _ _ Ha Hj) as [Ha' Hw%report_acked]. exists wu, wa.
    split; [done|split; [done|split; [by apply service_more|]]]. destruct o as [[from l]|]; cbn; [rewrite app_nil_r|]; by split; [apply acked_nil|].
  - destruct (tasks p !! n) as [t|] eqn:En; [|done]. cbn in Hs. destruct (task_job t (db p)) as [[t' s]|] eqn:Hj; [|done]. injection Hs as <- <-.
    apply task_grows in Hj as [Hg Hi]. destruct Hok as (Hu & Ha & Ht). exists wu, wa. pose proof (Ht n t En) as Htn.
    assert (grows (creates es) (db p) s) as Hg' by (destruct Hg as [Hg|(c & d & Hc & Hg)]; [by left|right; exists c, d; split; [by apply Htn|done]]).
    split; [done|split; [done|split; [|split; apply acked_nil]]]. apply service_more; [done..|].
    split; [by apply (part_grows _ _ _ _ _ _ _ (db p))|split; [by apply (part_grows _ _ _ _ _ _ _ (db p))|]].
    apply tasks_insert; [done|]. by transitivity (to_insert t).
  - destruct (tasks p !! n) as [t|]; [|done]. cbn in Hs. destruct (task_resumes t) as [o|] eqn:Ho; [|done]. injection Hs as <- <-.
    exists wu, wa. assert (user_acks [o] = [] /\ account_acks [o] = []) as [-> ->] by (destruct t; cbn in Ho; try done; by injection Ho as <-).
    split; [done|split; [done|split; [|split; apply acked_nil]]]. apply service_more; [done..|].
    destruct Hok as (Hu & Ha & Ht). split; [done|split; [done|]]. by apply tasks_delete.
Qed.

Lemma proxy_run_ok s0 es : forall es0 wu wa p p' outs,
  service_ok s0 es0 wu wa p -> run es p = Some (p', outs) ->
  exists wu' wa', wu `prefix_of` wu' /\ wa `prefix_of` wa' /\ service_ok s0 (es0 ++ es) wu' wa' p' /\
    acked (user_acks outs) wu' /\ acked (account_acks outs) wa'.
Proof.
  induction es as [|e es IH]; intros es0 wu wa p p' outs Hok Hr.
  - injection Hr as <- <-. exists wu, wa. rewrite app_nil_r. split; [done|split; [done|split; [done|split; apply acked_nil]]].
  - cbn in Hr. destruct (step e p) as [[p1 out]|] eqn:Hs; [|done]. cbn in Hr. destruct (run es p1) as [[p2 outs']|] eqn:Hr'; [|done].
    injection Hr as <- <-. destruct (proxy_step_ok _ _ _ _ _ _ _ _ Hok Hs) as (wu1 & wa1 & Hu1 & Ha1 & Hok1 & Hau & Haa).
    destruct (IH _ _ _ _ _ _ Hok1 Hr') as (wu2 & wa2 & Hu2 & Ha2 & Hok2 & Hau2 & Haa2).
    exists wu2, wa2. rewrite <- (app_assoc (A := event)) in Hok2. unfold user_acks, account_acks. rewrite !flat_map_app.
    split; [by transitivity wu1|split; [by transitivity wa1|split; [done|split; apply acked_app]]]; try done.
    + by apply (acked_prefix _ wu1).
    + by apply (acked_prefix _ wa1).
Qed.

Lemma new_ok s0 : service_ok s0 [] [] [] (proxy_new s0).
Proof.
  assert (forall V, updates_ok ([] : list (info_of V)) [] updates_new) as Hn.
  { intros V. split; cbn; try done. intros k. rewrite lookup_empty. split; [by intros [? ?]|]. intros (n & b & Hb & _). by rewrite lookup_empty in Hb. }
  split; [|split]; [split; [apply Hn|by exists []]..|]. intros n t Ht. cbn in Ht. by rewrite lookup_empty in Ht.
Qed.

Lemma part_follows {V} (fields : V -> document) name docs0 es h w u (s : D) acks
    (fields_userid : forall v, fields v !! "userid"%string = None)
    (fields_same : forall v v' key, is_Some (fields v !! key) -> is_Some (fields v' !! key)) :
  part_ok fields name docs0 es h w u s -> acked acks w -> follows fields h (created name es) docs0 (collection name s) acks.
Proof.
  intros [Hu (log & <- & Hi & ->)] Ha. exists log. split; [done|split; [done|]]. set (w := writes log) in *.
  split; [|split; [done|]; intros k; by apply replay_holds]. intros k. destruct (table u !! k) as [c|] eqn:Ek; [|by apply (uk_idle _ _ _ Hu)].
  assert (is_Some (table u !! k)) as Hk by by eexists. apply (uk_owned _ _ _ Hu) in Hk as (n & b & Hn & Hb).
  destruct (uk_batch _ _ _ Hu n b Hn) as [_ (r & Ei & _ & _ & Hr)]. rewrite Ei in Hb.
  destruct (b_stage b) as [| |ok]; [..|destruct Hr as [Hr _]; apply Hr; by rewrite Ei].
  all: destruct Hr as (_ & Hr & Ht); apply list.elem_of_app in Hb as [([j x] & -> & Hx)%list_elem_of_fmap|Hb].
  1, 3: transitivity (values_of j w ++ [x]); [by apply sublist_inserts_r|by apply Hr].
  all: transitivity (values_of k w ++ [(version c, data c)]); [by apply sublist_inserts_r|];
    apply Ht; [done|by apply (uk_last _ _ _ Hu)].
Qed.

(** C20: the updates of a user are written in the order in which they came,
    however the jobs of the pool, the messages and the resumptions are
    interleaved, and whichever calls on the database throw. The collections of
    the users and of the accounts are what a history of writes and inserts made
    of them: inserted are only documents that a message asked to create, written
    for each user is a subsequence of the updates that came for that user, and
    every update that the proxy has reported is in that subsequence. So the
    document of a user who had one holds the last value written; the document of
    a user created meanwhile holds the last value written since, or the values
    it was created with; and of a user who was never created there is no
    document, although updates of that user are reported like any others (an
    update is no upsert: one written while the user has no document is
    reported and stored nowhere). The database is assumed to do what MongoDB
    documents of an insert and of an ordered bulk of updates of one document,
    where a call that throws may have done a first part of its work. *)
Theorem updates_in_order s0 es p outs :
  run es (proxy_new s0) = Some (p, outs) ->
  follows user_fields (user_updates es) (created user_info_name es)
    (collection user_info_name s0) (collection user_info_name (db p)) (user_acks outs) /\
  follows account_fields (account_updates es) (created account_info_name es)
    (collection account_info_name s0) (collection account_info_name (db p)) (account_acks outs).
Proof.
  intros Hr. destruct (proxy_run_ok s0 es [] [] [] _ _ _ (new_ok s0) Hr) as (wu & wa & _ & _ & (Hu & Ha & _) & Hau & Haa).
  split; (eapply part_follows; [..|done|done]).
  - apply user_fields_userid.
  - apply user_fields_same.
  - apply account_fields_userid.
  - apply account_fields_same.
Qed.

Lemma run_user_jobs m n p u s :
  jobs user_info_name user_fields m n (user_infos p) (db p) = Some (u, s) ->
  run (replicate m (UserJob n)) p = Some (set_users u (set_db s p), []).
Proof.
  revert p. induction m as [|m IH]; intros p Hj; [injection Hj as <- <-; by destruct p|].
  cbn in Hj |- *. destruct (update_job _ _ n (user_infos p) (db p)) as [[u1 s1]|]; [|done]. cbn in *.
  by rewrite (IH (set_users u1 (set_db s1 p))).
Qed.

Lemma run_app es es' p p1 p2 out out' :
  run es p = Some (p1, out) -> run es' p1 = Some (p2, out') -> run (es ++ es') p = Some (p2, out ++ out').
Proof.
  revert p out. induction es as [|e es IH]; intros p out Hr Hr'; [by injection Hr as <- <-|]. cbn in Hr |- *.
  destruct (step e p) as [[p0 o]|]; [|done]. cbn in *. destruct (run es p0) as [[p1' o']|] eqn:E; [|done]. injection Hr as -> <-.
  rewrite (IH p0 o') by done. cbn. by rewrite (app_assoc (A := output)).
Qed.

(** An update that waits for the database ends: from every state the proxy
    can reach, at most two steps more than it has users end its job - none of
    its iterators ever points to an entry that is gone - and then its coroutine
    resumes and leaves no entry behind. *)
Theorem update_ends s0 es p outs n b :
  run es (proxy_new s0) = Some (p, outs) -> batches (user_infos p) !! n = Some b ->
  exists m p' outs', (m <= S (S (length (b_infos b))))%nat /\
    run (replicate m (UserJob n) ++ [UserResume n]) p = Some (p', outs') /\
    forall k, k ∈ b_infos b -> table (user_infos p') !! k = None.
Proof.
  intros Hr Hn. destruct (proxy_run_ok s0 es [] [] [] _ _ _ (new_ok s0) Hr) as (wu & wa & _ & _ & [[Hu Hd] _] & _).
  destruct (jobs_end user_info_name user_fields _ _ _ _ _ n _ (db p) b (work_bound _ _ _ _ _ Hu Hn) Hu Hd Hn)
    as (m & u' & s' & b' & ok & Hm & Hj & Hn' & Ei & Es).
  destruct (resumes_when_done n u' b' ok Hn' Es) as (u2 & o & Ho & Hk).
  eexists m, _, _. split; [done|]. split.
  - eapply run_app; [by apply run_user_jobs|]. cbn. rewrite Ho. cbn. done.
  - cbn. by rewrite <- Ei.
Qed.

(** ** Answers *)

(** The code of the answer of [query_user], and the answer when it says success. *)
Lemma query_user_fields u s s' id r :
  run_query (QUser u) s = (s', (id, r)) ->
  exists a, r = QueryUser a /\ (qu_ec a = ec_success \/ qu_ec a = ec_system) /\
    (qu_ec a = ec_success ->
     match first_match ("userid"%string, BInt32 u) (collection user_info_name s) with
     | None => a = QueryUserAck ec_success 0 0 0 false
     | Some doc => exists w l, get_int32 doc "win_count" = Some w /\ get_int32 doc "lose_count" = Some l /\
         a = QueryUserAck ec_success u w l (negb (u =? 0))
     end).
Proof.
  intros Hq. cbn in Hq. unfold query_user_job in Hq. pose proof (acquire_law s) as Ha. destruct (acquire s) as [s1 [|]]; cbn in Ha, Hq.
  2: { injection Hq as <- <- <-. eexists. split; [done|]. split; [by right|done]. }
  pose proof (find_one_law user_info_name ("userid"%string, BInt32 u) s1) as Hf.
  destruct (find_one _ _ s1) as [s2 o]. destruct Hf as [_ Hf]. rewrite (Ha user_info_name) in Hf.
  destruct o as [o|]; [|injection Hq as <- <- <-; eexists; split; [done|]; split; [by right|done]].
  rewrite <- (Hf o eq_refl). destruct o as [doc|]; [|injection Hq as <- <- <-; eexists; split; [done|]; split; [by left|done]].
  assert (get_int32 doc "userid" = Some u) as Hu.
  { specialize (Hf _ eq_refl). symmetry in Hf. apply first_match_matches in Hf. unfold matches in Hf.
    apply bool_decide_eq_true in Hf. cbn in Hf. unfold get_int32. by rewrite Hf. }
  unfold fill_user in Hq. rewrite Hu in Hq.
  destruct (get_int32 doc "win_count") as [w|]; [|injection Hq as <- <- <-; eexists; split; [done|]; split; [by right|done]].
  destruct (get_int32 doc "lose_count") as [l|]; [|injection Hq as <- <- <-; eexists; split; [done|]; split; [by right|done]].
  injection Hq as <- <- <-. eexists. split; [done|]. split; [by left|]. intros _. by exists w, l.
Qed.

(** The answer of [query_user] says that the query succeeded or failed,
    never [ec_no_data]: the code is set again after the job. When it says
    success, it has the values of the first document of the user, or, for a
    user without a document, the user 0. *)
Theorem query_user_answer u s s' id r :
  run_query (QUser u) s = (s', (id, r)) ->
  exists a, r = QueryUser a /\ qu_ec a <> ec_no_data /\
    (first_match ("userid"%string, BInt32 u) (collection user_info_name s) = None -> qu_ec a = ec_success ->
     a = QueryUserAck ec_success 0 0 0 false) /\
    (forall doc, first_match ("userid"%string, BInt32 u) (collection user_info_name s) = Some doc -> qu_ec a = ec_success ->
     exists w l, get_int32 doc "win_count" = Some w /\ get_int32 doc "lose_count" = Some l /\
       a = QueryUserAck ec_success u w l (negb (u =? 0))).
Proof.
  intros (a & -> & Hec & Hf)%query_user_fields. exists a. split; [done|]. split; [destruct Hec as [-> | ->]; done|].
  split; [intros E Hs|intros doc E Hs]; specialize (Hf Hs); by rewrite E in Hf.
Qed.

(** The answer of [query_account], when it says success. *)
Lemma query_account_answer name u s s' id a :
  run_query (QAccount name u) s = (s', (id, QueryAccount a)) -> qa_ec a = ec_success ->
  match first_match (if decide (name = []) then ("userid"%string, BInt32 u) else ("account"%string, BString name))
          (collection account_info_name s) with
  | None => a = QueryAccountAck ec_success [] 0 []
  | Some doc => exists v n w, get_int32 doc "userid" = Some v /\ get_string doc "account" = Some n /\
      get_string doc "password" = Some w /\ a = QueryAccountAck ec_success n v w
  end.
Proof.
  intros Hq. cbn in Hq. unfold query_account_job in Hq. pose proof (acquire_law s) as Ha. destruct (acquire s) as [s1 [|]]; cbn in Ha, Hq.
  2: { by injection Hq as <- <- <-. }
  set (f := if decide _ then _ else _) in *. pose proof (find_one_law account_info_name f s1) as Hf.
  destruct (find_one _ _ s1) as [s2 o]. destruct Hf as [_ Hf]. rewrite (Ha account_info_name) in Hf.
  destruct o as [o|]; [|by injection Hq as <- <- <-]. rewrite <- (Hf o eq_refl).
  destruct o as [doc|]; [|by injection Hq as <- <- <-]. unfold fill_account in Hq.
  destruct (get_int32 doc "userid") as [v|]; [|by injection Hq as <- <- <-].
  destruct (get_string doc "account") as [n|]; [|by injection Hq as <- <- <-].
  destruct (get_string doc "password") as [w|]; [|by injection Hq as <- <- <-].
  injection Hq as <- <- <-. intros _. by exists v, n, w.
Qed.

(** ** Creating *)

(** What a list of inserts adds to a collection. *)
Definition added (c : string) (docs : list (string * document)) : list document := map snd (base.filter (fun i => i.1 = c) docs).

Lemma added_snoc c c' d docs : added c' (docs ++ [(c, d)]) = added c' docs ++ (if decide (c = c') then [d] else []).
Proof. unfold added. rewrite list.filter_app, map_app. f_equal. rewrite list.filter_cons. cbn. by case_decide. Qed.

(** A job that creates has inserted the first part of its documents. *)
Definition creating_ok (s0 : D) (docs : list (string * document)) (t : task) (s : D) : Prop :=
  match t with
  | Creating _ _ _ rest => exists dn, docs = dn ++ rest /\ forall c, collection c s = collection c s0 ++ added c dn
  | Created _ _ true => forall c, collection c s = collection c s0 ++ added c docs
  | Created _ _ false => True
  | _ => False
  end.

Lemma creating_step s0 docs t s t' s' : creating_ok s0 docs t s -> task_job t s = Some (t', s') -> creating_ok s0 docs t' s'.
Proof.
  intros Hok Hj. destruct t as [from session conn rest|from session ok|from session q|from session id m]; [|done..].
  destruct Hok as (dn & -> & Hc). destruct conn; [destruct rest as [|[c d] rest]|]; cbn in Hj.
  - injection Hj as <- <-. intros c. rewrite Hc. by rewrite app_nil_r.
  - pose proof (insert_law c d s) as Hi. destruct (insert_one c d s) as [s1 [|]]; injection Hj as <- <-; [|done].
    destruct Hi as [[Hi|[? _]] Ho]; [|done]. exists (dn ++ [(c, d)]). split; [by rewrite <- (app_assoc (A := string * document))|].
    intros c'. rewrite added_snoc. case_decide as E; [subst c'; by rewrite Hi, Hc, (app_assoc (A := document))|].
    rewrite app_nil_r, <- Hc. by apply Ho.
  - pose proof (acquire_law s) as Ha. destruct (acquire s) as [s1 [|]]; injection Hj as <- <-; [|done].
    exists dn. split; [done|]. intros c. rewrite <- Hc. apply Ha.
Qed.

Lemma creating_run s0 docs n m : forall p t p' outs,
  tasks p !! n = Some t -> creating_ok s0 docs t (db p) -> run (replicate m (Job n)) p = Some (p', outs) ->
  exists t', tasks p' !! n = Some t' /\ creating_ok s0 docs t' (db p').
Proof.
  induction m as [|m IH]; intros p t p' outs Ht Hok Hr; [injection Hr as <- <-; by exists t|].
  cbn in Hr. rewrite Ht in Hr. cbn in Hr. destruct (task_job t (db p)) as [[t1 s1]|] eqn:Hj; [|done]. cbn in Hr.
  match type of Hr with context [run _ ?q] => destruct (run (replicate m (Job n)) q) as [[p2 o]|] eqn:Hr'; [|done] end.
  injection Hr as <- <-. apply (IH _ t1) in Hr'; [done|apply lookup_insert_eq|by apply (creating_step s0 docs t (db p))].
Qed.

(** What [create_user] created is found: when its job ends without an
    exception and neither the user nor the account was there before, the user
    is found by the number with the counts given, and the account by the name
    with the user and the password given. (The answer to a user tells whether
    the number is not 0 in place of whether it is an AI.) *)
Theorem created_user_found req from session n m p p' outs :
  tasks p !! n = Some (Creating from session false (new_docs req)) -> run (replicate m (Job n)) p = Some (p', outs) ->
  tasks p' !! n = Some (Created from session true) -> cr_account req <> [] ->
  first_match ("userid"%string, BInt32 (cr_userid req)) (collection user_info_name (db p)) = None ->
  first_match ("account"%string, BString (cr_account req)) (collection account_info_name (db p)) = None ->
  (forall s id a, run_query (QUser (cr_userid req)) (db p') = (s, (id, QueryUser a)) -> qu_ec a = ec_success ->
     a = QueryUserAck ec_success (cr_userid req) (cr_win_count req) (cr_lose_count req) (negb (cr_userid req =? 0))) /\
  (forall s id a u, run_query (QAccount (cr_account req) u) (db p') = (s, (id, QueryAccount a)) -> qa_ec a = ec_success ->
     a = QueryAccountAck ec_success (cr_account req) (cr_userid req) (cr_password req)).
Proof.
  intros Ht Hr Ht' Hne Hu Ha. destruct (creating_run (db p) (new_docs req) n m p _ p' outs Ht) as (t & Et & Hok); [|done|].
  { exists []. split; [done|]. intros c. by rewrite app_nil_r. }
  rewrite Ht' in Et. injection Et as <-.
  change (forall c, collection c (db p') = collection c (db p) ++ added c (new_docs req)) in Hok. split.
  - intros s id a (a' & [= <-] & _ & Hq)%query_user_fields Hec. specialize (Hq Hec).
    rewrite Hok in Hq. replace (added user_info_name (new_docs req)) with [user_doc req] in Hq by (unfold new_docs; by destruct (cr_is_ai req)).
    rewrite (first_match_snoc _ _ (user_doc req) Hu) in Hq by (unfold matches; by rewrite bool_decide_eq_true).
    destruct Hq as (w & l & Hw & Hl & ->). by injection Hw as <-; injection Hl as <-.
  - intros s id a u Hq Hec. apply query_account_answer in Hq; [|done]. rewrite decide_False in Hq by done.
    rewrite Hok in Hq. replace (added account_info_name (new_docs req)) with [account_doc req] in Hq by (unfold new_docs; by destruct (cr_is_ai req)).
    rewrite (first_match_snoc _ _ (account_doc req) Ha) in Hq by (unfold matches; by rewrite bool_decide_eq_true).
    destruct Hq as (v & k & w & Hv & Hk & Hw & ->). by injection Hv as <-; injection Hk as <-; injection Hw as <-.
Qed.
End service_order.

(** * Runs *)

(** Updates are spelled as a user, a version and two counts. *)
Fixpoint demo_parse (buffer : bytes) : option (list (info_of user_data)) :=
  match buffer with
  | [] => Some []
  | u :: v :: w :: l :: buffer => rest ← demo_parse buffer; Some ((u, (v, (w, l))) :: rest)
  | _ => None
  end.

Definition demo_create (buffer : bytes) : option s_db_create_user_req :=
  match buffer with [u; a; w] => Some (CreateReq u [a] [w] 1 2 false) | _ => None end.

Definition demo_doc (u w l : Z) : document := <["userid"%string := BInt32 u]> (user_fields (w, l)).

Definition demo_db (calls : list bool) : memory_db := MemoryDb {[user_info_name := [demo_doc 7 0 0; demo_doc 8 0 0]]} calls.

Definition demo_run (es : list event) (s : memory_db) : option (db_proxy memory_db * list output) :=
  run demo_create (fun _ => None) demo_parse (fun _ => None) (fun _ => None) es (proxy_new s).

(** User 7 is read and then updated again, user 8 is updated again before it is
    read, and a third update of user 7 comes when the first has ended. User 9
    is updated, created, and updated again. *)
Definition demo_events : list event :=
  [Forward 1 0 id_s_db_update_user_brd [7; 1; 10; 20; 8; 1; 1; 1]; UserJob 0; UserJob 0;
   Forward 2 0 id_s_db_update_user_brd [7; 2; 11; 20]; Forward 2 0 id_s_db_update_user_brd [8; 2; 5; 5];
   UserJob 0; UserJob 0; UserResume 0;
   Forward 3 0 id_s_db_update_user_brd [7; 3; 12; 20]; UserJob 1; UserJob 1; UserJob 1; UserResume 1;
   Forward 3 0 id_s_db_update_user_brd [9; 1; 5; 6]; UserJob 2; UserJob 2;
   Forward 4 5 id_s_db_create_user_req [9; 65; 66]; UserJob 2; UserResume 2; Job 0; Job 0; Job 0; Job 0; Resume 0;
   Forward 3 0 id_s_db_update_user_brd [9; 2; 7; 8]; UserJob 3; UserJob 3; UserJob 3; UserResume 3].

(** The second update of user 7 is neither written nor reported; the first of
    user 9 is reported and not stored. *)
Definition demo_reports : list output :=
  [Write 1 0 id_s_db_update_user_brd (UpdateUser [(7, 1); (8, 2)]); Write 3 0 id_s_db_update_user_brd (UpdateUser [(7, 3)]);
   Write 3 0 id_s_db_update_user_brd (UpdateUser [(9, 1)]); Write 4 5 id_s_db_create_user_ack (CreateUserAck ec_success);
   Write 3 0 id_s_db_update_user_brd (UpdateUser [(9, 2)])].

Definition demo_user_docs : list document :=
  [demo_doc 7 12 20; demo_doc 8 5 5; set_fields (user_fields (7, 8)) (user_doc (CreateReq 9 [65] [66] 1 2 false))].

Lemma updates_in_order_witness :
  match demo_run demo_events (demo_db []) with
  | Some (p, outs) =>
    outs = demo_reports /\ collection user_info_name (db p) = demo_user_docs /\
    follows user_fields
      (received [(7, (1, (10, 20))); (8, (1, (1, 1))); (7, (2, (11, 20))); (8, (2, (5, 5))); (7, (3, (12, 20))); (9, (1, (5, 6))); (9, (2, (7, 8)))])
      [user_doc (CreateReq 9 [65] [66] 1 2 false)]
      [demo_doc 7 0 0; demo_doc 8 0 0] (collection user_info_name (db p)) (user_acks outs)
  | None => False
  end.
Proof.
  destruct (demo_run demo_events (demo_db [])) as [[p outs]|] eqn:E; [|vm_compute in E; discriminate E].
  assert ((fun r => (r.2, collection user_info_name (db r.1))) <$> demo_run demo_events (demo_db []) = Some (demo_reports, demo_user_docs))
    as Ev by (vm_compute; reflexivity).
  rewrite E in Ev. split; [exact (f_equal (fun r => (default ([], []) r).1) Ev)|]. split; [exact (f_equal (fun r => (default ([], []) r).2) Ev)|].
  pose proof (updates_in_order demo_create (fun _ => None) demo_parse (fun _ => None) (fun _ => None) (demo_db []) demo_events p outs E) as [H _].
  exact H.
Defined.

(** A bulk write that throws is over after the same steps. *)
Lemma update_ends_witness :
  match demo_run (firstn 2 demo_events) (demo_db [true; false]) with
  | Some (p, _) => exists m p' outs', (m <= 4)%nat /\
      run demo_create (fun _ => None) demo_parse (fun _ => None) (fun _ => None) (replicate m (UserJob 0) ++ [UserResume 0]) p = Some (p', outs') /\
      table (user_infos p') !! 7 = None
  | None => False
  end.
Proof.
  destruct (demo_run (firstn 2 demo_events) (demo_db [true; false])) as [[p outs]|] eqn:E; [|vm_compute in E; discriminate E].
  assert ((fun r => batches (user_infos r.1) !! 0%nat) <$> demo_run (firstn 2 demo_events) (demo_db [true; false]) =
    Some (Some (Batch 1 [7; 8] [7; 8] [] [] Reading))) as Ev by (vm_compute; reflexivity).
  rewrite E in Ev. pose proof (f_equal (default None) Ev) as Hn. cbn in Hn.
  destruct (update_ends demo_create (fun _ => None) demo_parse (fun _ => None) (fun _ => None) (demo_db [true; false]) (firstn 2 demo_events) p outs 0 _ E Hn)
    as (m & p' & outs' & Hm & Hr & Hk).
  exists m, p', outs'. split; [exact Hm|]. split; [exact Hr|]. apply Hk, list_elem_of_In. left. reflexivity.
Defined.

(** A user who is not there: success, and the user 0. *)
Lemma query_user_answer_witness :
  (run_query (QUser 9) (demo_db [])).2 = (id_s_db_query_user_ack, QueryUser (QueryUserAck ec_success 0 0 0 false)).
Proof.
  destruct (run_query (QUser 9) (demo_db [])) as [s' [id r]] eqn:E.
  destruct (query_user_answer 9 (demo_db []) s' id r E) as (a & -> & _ & Ha & _).
  vm_compute in E. injection E as _ <- <-. rewrite (Ha eq_refl eq_refl). reflexivity.
Defined.

(** User 9 is created and then found by the name. *)
Lemma created_user_found_witness :
  match demo_run [Forward 1 4 id_s_db_create_user_req [9; 65; 66]] (demo_db []) with
  | Some (p, _) =>
    match run demo_create (fun _ => None) demo_parse (fun _ => None) (fun _ => None) (replicate 4 (Job 0)) p with
    | Some (p', _) => forall s id a u, run_query (QAccount [65] u) (db p') = (s, (id, QueryAccount a)) -> qa_ec a = ec_success ->
        a = QueryAccountAck ec_success [65] 9 [66]
    | None => False
    end
  | None => False
  end.
Proof.
  set (es := [Forward 1 4 id_s_db_create_user_req [9; 65; 66]]). set (req := CreateReq 9 [65] [66] 1 2 false).
  destruct (demo_run es (demo_db [])) as [[p outs]|] eqn:E; [|vm_compute in E; discriminate E].
  destruct (run _ _ _ _ _ (replicate 4 (Job 0)) p) as [[p' outs']|] eqn:Er.
  - assert ((fun r => (tasks r.1 !! 0%nat, first_match ("userid"%string, BInt32 9) (collection user_info_name (db r.1)),
        first_match ("account"%string, BString [65]) (collection account_info_name (db r.1)))) <$> demo_run es (demo_db []) =
      Some (Some (Creating 1 4 false (new_docs req)), None, None)) as Ev by (vm_compute; reflexivity).
    rewrite E in Ev. injection Ev as Ht Hu Ha.
    assert ((fun r => tasks r.1 !! 0%nat) <$> demo_run (es ++ replicate 4 (Job 0)) (demo_db []) = Some (Some (Created 1 4 true))) as Ev
      by (vm_compute; reflexivity).
    unfold demo_run in Ev, E. rewrite (run_app _ _ _ _ _ _ _ _ _ _ _ _ E Er) in Ev. injection Ev as Ht'.
    exact (proj2 (created_user_found demo_create (fun _ => None) demo_parse (fun _ => None) (fun _ => None) req 1 4 0 4 p p' outs' Ht Er Ht' ltac:(discriminate) Hu Ha)).
  - assert (is_Some (demo_run (es ++ replicate 4 (Job 0)) (demo_db []))) as [r Ev] by (vm_compute; eexists; reflexivity).
    unfold demo_run in E. assert (run demo_create (fun _ => None) demo_parse (fun _ => None) (fun _ => None) (replicate 4 (Job 0)) p <> None) as H; [|exact (H Er)].
    clear Er. intros Er. vm_compute in Ev. vm_compute in E. injection E as <- <-. vm_compute in Er. discriminate Er.
Defined.

(** The updates are no upserts: one for a user without a document is reported
    as written, and nothing is stored. *)
Example update_of_nobody :
  (fun r => (r.2, collection user_info_name (db r.1))) <$>
    demo_run [Forward 1 0 id_s_db_update_user_brd [9; 4; 1; 1]; UserJob 0; UserJob 0; UserJob 0; UserResume 0] (demo_db []) =
  Some ([Write 1 0 id_s_db_update_user_brd (UpdateUser [(9, 4)])], [demo_doc 7 0 0; demo_doc 8 0 0]).
Proof. vm_compute. reflexivity. Qed.

(** An exception after the first insert leaves a user without an account. *)
Example half_created :
  (fun r => (r.2, length (collection user_info_name (db r.1)), collection account_info_name (db r.1))) <$>
    demo_run [Forward 1 4 id_s_db_create_user_req [9; 65; 66]; Job 0; Job 0; Job 0; Resume 0] (demo_db [true; true; false]) =
  Some ([Write 1 4 id_s_db_create_user_ack (CreateUserAck ec_system)], 3%nat, []).
Proof. vm_compute. reflexivity. Qed.

(** The index is looked for under [ns], not under its name: a collection that
    has the index of this program is still without it. *)
Example index_not_seen name : has_index name [{["name"%string := BString name]}] = Some false.
Proof. reflexivity. Qed.
