(* ===== verification/Scheduler.v ===== *)
(** The scheduler's timers (src/runtime/src/coro/scheduler.cpp) and the
    coroutines that sleep (timed_awaiter.cpp, timed_awaiter.h). A coroutine that
    sleeps is a node of the timer queue (TimerQueue.v); it leaves the queue when
    its point is reached, or when its token is cancelled: the callback of its
    registration (Awaiting.v) takes the node out and queues the coroutine.

    A turn of the scheduler takes the nodes that are due out of the queue,
    resumes their coroutines one after the other and then those that were
    queued. A coroutine that is resumed may start to sleep, cancel and create
    sources before the next one is resumed, so these are single steps. A node
    lives in the frame of its coroutine and is gone after [await_resume]; the
    number of the coroutine is its address. The times are inputs. *)

From Stdlib Require Import Sorted.
From stdpp Require Import gmap.
From S2P Require Import Prelude AwaiterList Cancellation Awaiting TimerQueue.

(** * Data *)

(** [token_] of every coroutine that sleeps; [nodes_], the local variable of
    [run] with what is due and not yet resumed. *)
Record scheduler := Scheduler {
  timer_queue_ : timer_queue; wake_up_coroutine_ : list nat; nodes_ : list nat;
  tokens : gmap nat token; cancel_ : cancellation }.

Definition scheduler_new : scheduler := Scheduler (TimerQueue [] ∅) [] [] ∅ no_cancellation.

(** What [await_resume] does: it returns or throws [coro_errors::canceled]. *)
Inductive wake_result := Slept | SleepCanceled.

(** * Operations *)

Definition address (a : nat) : Z := Z.of_nat a.

(** [timed_awaiter::await_resume], and the end of the awaiter. *)
Definition await_resume (a : nat) (w : scheduler) : option (wake_result * scheduler) :=
  t ← tokens w !! a;
  c ← reset_registration (cancel_ w) a;
  let q := timer_queue_ w in
  Some (if is_cancellation_requested c t then SleepCanceled else Slept,
        Scheduler (TimerQueue (heap_ q) (delete (address a) (nodes q))) (wake_up_coroutine_ w) (nodes_ w) (delete a (tokens w)) c).

(** [co_await sleep_until(point)] with token [t] at [now], up to the
    suspension, or to the result of a coroutine that does not suspend. *)
Definition sleep (a : nat) (t : token) (point now : Z) (w : scheduler) : option (scheduler * list (nat * wake_result)) :=
  let q := timer_queue_ w in
  let w := Scheduler (TimerQueue (heap_ q) (<[address a := Node no_index point]> (nodes q))) (wake_up_coroutine_ w) (nodes_ w)
             (<[a := t]> (tokens w)) (cancel_ w) in
  if is_cancellation_requested (cancel_ w) t || (point <=? now) then
    '(r, w) ← await_resume a w; Some (w, [(a, r)])
  else
    c ← start_waiting (cancel_ w) a t;
    q ← enqueue (timer_queue_ w) (address a);
    Some (Scheduler q (wake_up_coroutine_ w) (nodes_ w) (tokens w) c, []).

(** The callback of a registration. *)
Definition on_cancel (a : nat) (w : scheduler) : option scheduler :=
  '(b, q) ← remove (timer_queue_ w) (address a);
  Some (Scheduler q (if (b : bool) then wake_up_coroutine_ w ++ [a] else wake_up_coroutine_ w) (nodes_ w) (tokens w) (cancel_ w)).

Fixpoint run_callbacks (fired : list nat) (w : scheduler) : option scheduler :=
  match fired with
  | [] => Some w
  | a :: fired => w ← on_cancel a w; run_callbacks fired w
  end.

Definition cancel (s : nat) (w : scheduler) : option scheduler :=
  '(c, fired) ← request_cancellation (cancel_ w) s;
  run_callbacks fired (Scheduler (timer_queue_ w) (wake_up_coroutine_ w) (nodes_ w) (tokens w) c).

(** [get_ready_timers(now)] in [run]; the loop over the nodes before is over. *)
Definition expire (now : Z) (w : scheduler) : option scheduler :=
  match nodes_ w with
  | [] => '(ps, q) ← get_ready_timers (timer_queue_ w) now;
      Some (Scheduler q (wake_up_coroutine_ w) (map Z.to_nat ps) (tokens w) (cancel_ w))
  | _ => Some w
  end.

(** One turn of the loop over the nodes: [timed->wake_up()]. *)
Definition fire (w : scheduler) : option (scheduler * list (nat * wake_result)) :=
  match nodes_ w with
  | [] => Some (w, [])
  | a :: rest =>
    '(r, w) ← await_resume a (Scheduler (timer_queue_ w) (wake_up_coroutine_ w) rest (tokens w) (cancel_ w)); Some (w, [(a, r)])
  end.

(** One turn of the loop over the coroutines that were queued. *)
Definition resume (w : scheduler) : option (scheduler * list (nat * wake_result)) :=
  match wake_up_coroutine_ w with
  | [] => Some (w, [])
  | a :: rest =>
    '(r, w) ← await_resume a (Scheduler (timer_queue_ w) rest (nodes_ w) (tokens w) (cancel_ w)); Some (w, [(a, r)])
  end.

Inductive sleep_op :=
  | OpSource (s : nat)
  | OpSleep (a : nat) (t : token) (point now : Z)
  | OpCancel (s : nat)
  | OpExpire (now : Z)
  | OpFire
  | OpResume.

Definition sleep_step (op : sleep_op) (w : scheduler) : option (scheduler * list (nat * wake_result)) :=
  match op with
  | OpSource s => Some (Scheduler (timer_queue_ w) (wake_up_coroutine_ w) (nodes_ w) (tokens w) (new_source (cancel_ w) s), [])
  | OpSleep a t point now => sleep a t point now w
  | OpCancel s => w ← cancel s w; Some (w, [])
  | OpExpire now => w ← expire now w; Some (w, [])
  | OpFire => fire w
  | OpResume => resume w
  end.

Fixpoint sleep_run (ops : list sleep_op) (w : scheduler) : option (scheduler * list (nat * wake_result)) :=
  match ops with
  | [] => Some (w, [])
  | op :: ops => '(w, out) ← sleep_step op w; '(w, out') ← sleep_run ops w; Some (w, out ++ out')
  end.

(** A coroutine sleeps once at a time, with the token of a source; the queue
    has room. *)
Definition legal (w : scheduler) (op : sleep_op) : Prop :=
  match op with
  | OpSource s => states (cancel_ w) !! s = None
  | OpSleep a t _ _ => tokens w !! a = None /\ zlen (heap_ (timer_queue_ w)) + 1 < no_index /\
      (forall s, t = Some s -> is_Some (states (cancel_ w) !! s))
  | OpCancel s => is_Some (states (cancel_ w) !! s)
  | _ => True
  end.

Fixpoint legal_run (w : scheduler) (ops : list sleep_op) : Prop :=
  match ops with
  | [] => True
  | op :: ops => legal w op /\ match sleep_step op w with Some (w, _) => legal_run w ops | None => True end
  end.

(** * The invariant *)

Definition point_of (w : scheduler) (a : nat) : Z := key (nodes (timer_queue_ w)) (address a).

(** The times that were read. *)
Definition times (ops : list sleep_op) : list Z :=
  flat_map (fun op => match op with OpSleep _ _ _ now => [now] | OpExpire now => [now] | _ => [] end) ops.

(** Every coroutine that sleeps is in one place: in the queue and not
    cancelled, due, or queued because it was cancelled. [ops] is what happened,
    [fired] are the callbacks that have still to run. *)
Record scheduler_ok (ops : list sleep_op) (fired : list nat) (w : scheduler) (l : nat -> list nat) : Prop := {
  sk_await : awaiting_ok (cancel_ w) l (tokens w);
  sk_queue : queue_wf (timer_queue_ w);
  sk_nodes x : is_Some (nodes (timer_queue_ w) !! x) <-> exists a, x = address a /\ is_Some (tokens w !! a);
  sk_place a : is_Some (tokens w !! a) <-> address a ∈ heap_ (timer_queue_ w) \/ a ∈ nodes_ w \/ a ∈ wake_up_coroutine_ w;
  sk_once : NoDup (map address (nodes_ w ++ wake_up_coroutine_ w) ++ heap_ (timer_queue_ w));
  sk_heap a t : address a ∈ heap_ (timer_queue_ w) -> tokens w !! a = Some t ->
    is_cancellation_requested (cancel_ w) t = false \/ a ∈ fired;
  sk_wake a t : a ∈ wake_up_coroutine_ w -> tokens w !! a = Some t -> is_cancellation_requested (cancel_ w) t = true;
  sk_point a t : tokens w !! a = Some t -> exists p now, OpSleep a t p now ∈ ops /\ p <= point_of w a;
  sk_due a : a ∈ nodes_ w -> exists now, now ∈ times ops /\ point_of w a <= now;
  sk_source s : is_cancellation_requested (cancel_ w) (Some s) = true -> OpCancel s ∈ ops }.

Lemma scheduler_new_ok : scheduler_ok [] [] scheduler_new (fun _ => []).
Proof.
  split; cbn.
  - apply awaiting_none.
  - split; [by intros i p Hi|by intros i Hi; cbn in Hi; lia|by intros p n Hn|done].
  - intros x. rewrite lookup_empty. split; [by intros [? ?]|]. intros (a & _ & Ha). rewrite lookup_empty in Ha. by destruct Ha.
  - intros a. rewrite lookup_empty. split; [by intros [? ?]|]. intros [?%elem_of_nil|[?%elem_of_nil|?%elem_of_nil]]; done.
  - constructor.
  - by intros a t ?%elem_of_nil.
  - by intros a t ?%elem_of_nil.
  - intros a t H. by rewrite lookup_empty in H.
  - by intros a ?%elem_of_nil.
  - done.
Qed.

Lemma address_inj a b : address a = address b -> a = b.
Proof. unfold address. lia. Qed.

(** A node that is not queued comes and goes. *)
Lemma timer_free_node q p : queue_wf q -> p ∉ heap_ q -> queue_wf (TimerQueue (heap_ q) (delete p (nodes q))).
Proof.
  intros [Hp Hh Hf Hs] Hn. split; cbn.
  - intros i x Hx. cbn in *. rewrite lookup_delete_ne; [by apply Hp|]. intros <-. apply Hn. by eapply list_elem_of_lookup_2.
  - unfold keys in *. cbn. rewrite (keys_ext (nodes q)); [done|]. intros x Hx. unfold key. rewrite lookup_delete_ne; [done|]. by intros <-.
  - intros x n [_ Hx]%lookup_delete_Some. by apply Hf.
  - done.
Qed.

Lemma timer_add_node q p pt :
  queue_wf q -> nodes q !! p = None ->
  (p ∉ heap_ q) /\ queue_wf (TimerQueue (heap_ q) (<[p := Node no_index pt]> (nodes q))).
Proof.
  intros [Hp Hh Hf Hs] Hn.
  assert (p ∉ heap_ q) as Hnp.
  { intros [i Hi]%list_elem_of_lookup. destruct (Hp i p Hi) as (n & Hn' & _). congruence. }
  split; [done|]. split; cbn.
  - intros i x Hx. cbn in *. rewrite lookup_insert_ne; [by apply Hp|]. intros <-. apply Hnp. by eapply list_elem_of_lookup_2.
  - unfold keys in *. cbn. rewrite (keys_ext (nodes q)); [done|]. intros x Hx. unfold key. rewrite lookup_insert_ne; [done|]. by intros <-.
  - intros x n [[_ <-]|[_ Hx]]%lookup_insert_Some; [done|]. by apply Hf.
  - done.
Qed.

Lemma key_delete m p x : x <> p -> key (delete p m) x = key m x.
Proof. intros H. unfold key. by rewrite lookup_delete_ne. Qed.

(** What a step leaves alone of the coroutines that go on sleeping. *)
Lemma timer_more_ops ops op fired w l : scheduler_ok ops fired w l -> scheduler_ok (ops ++ [op]) fired w l.
Proof.
  intros [S1 S2 S3 S4 S5 S6 S7 S8 S9 S10]. split; [done..| | |].
  - intros a t Ha. destruct (S8 a t Ha) as (p & now & Hin & Hp). exists p, now. split; [|done]. apply list.elem_of_app. by left.
  - intros a Ha. destruct (S9 a Ha) as (now & Hin & Hp). exists now. split; [|done]. unfold times. rewrite flat_map_app.
    apply list.elem_of_app. by left.
  - intros s Hs. apply list.elem_of_app. left. by apply S10.
Qed.

(** ** Resuming *)

(** A coroutine that is in neither place any more is resumed. *)
Lemma timer_await_resume_ok ops w l a t nd wk :
  scheduler_ok ops [] w l -> tokens w !! a = Some t ->
  (forall b, b ∈ nodes_ w <-> b ∈ nd \/ b = a /\ a ∈ nodes_ w) ->
  (forall b, b ∈ wake_up_coroutine_ w <-> b ∈ wk \/ b = a /\ a ∈ wake_up_coroutine_ w) ->
  NoDup (map address (a :: nd ++ wk) ++ heap_ (timer_queue_ w)) ->
  exists w', await_resume a (Scheduler (timer_queue_ w) wk nd (tokens w) (cancel_ w)) =
      Some (if is_cancellation_requested (cancel_ w) t then SleepCanceled else Slept, w') /\
    scheduler_ok ops [] w' (without l a) /\ tokens w' = delete a (tokens w) /\ nodes_ w' = nd /\ wake_up_coroutine_ w' = wk /\
    heap_ (timer_queue_ w') = heap_ (timer_queue_ w) /\ (forall t', is_cancellation_requested (cancel_ w') t' = is_cancellation_requested (cancel_ w) t') /\
    (forall b, b <> a -> point_of w' b = point_of w b).
Proof.
  intros [S1 S2 S3 S4 S5 S6 S7 S8 S9 S10] Ha Hnd Hwk Hno. unfold await_resume. cbn. rewrite Ha. cbn.
  destruct (awaiting_reset (cancel_ w) l (tokens w) a S1) as (c & -> & Hc & Hst). cbn.
  assert (forall t', is_cancellation_requested c t' = is_cancellation_requested (cancel_ w) t') as Hreq by (intros t'; by apply same_requested).
  cbn [map app] in Hno. apply list.NoDup_cons in Hno as [Hna Hno].
  assert (address a ∉ heap_ (timer_queue_ w)) as Hah by (intros H; apply Hna, list.elem_of_app; by right).
  assert (forall b, b ∈ nd ++ wk -> b <> a) as Hne.
  { intros b Hb ->. apply Hna, list.elem_of_app. left. by apply list_elem_of_fmap_2. }
  assert (forall b, address b <> address a <-> b <> a) as Had by (intros b; split; [by intros H ->|intros H E; by apply address_inj in E]).
  eexists. split; [by rewrite Hreq|]. split; [split; cbn|split; [done|split; [done|split; [done|split; [done|split; [done|]]]]]].
  - done.
  - by apply timer_free_node.
  - intros x. rewrite lookup_delete_is_Some, S3. split.
    + intros (Hx & b & -> & Hb). exists b. split; [done|]. apply lookup_delete_is_Some. split; [|done]. intros ->. done.
    + intros (b & -> & [Hb Hs]%lookup_delete_is_Some). split; [intros E; by apply address_inj in E as ->|]. by exists b.
  - intros b. rewrite lookup_delete_is_Some, S4, Hnd, Hwk. split.
    + intros (Hb & [?|[[?|[-> _]]|[?|[-> _]]]]); [by left|right; by left|done|right; by right|done].
    + intros [Hb|[Hb|Hb]]; (split; [|tauto]); [intros ->; done|..]; apply not_eq_sym, Hne, list.elem_of_app; [by left|by right].
  - done.
  - intros b t' Hb [_ Ht]%lookup_delete_Some. rewrite Hreq. by apply (S6 b).
  - intros b t' Hb [_ Ht]%lookup_delete_Some. rewrite Hreq. apply (S7 b); [|done]. apply Hwk. by left.
  - intros b t' [Hba Ht]%lookup_delete_Some. destruct (S8 b t' Ht) as (p & now & Hin & Hp). exists p, now. split; [done|].
    unfold point_of. cbn. rewrite key_delete; [done|]. apply Had. by apply not_eq_sym.
  - intros b Hb. destruct (S9 b) as (now & Hin & Hp); [apply Hnd; by left|]. exists now. split; [done|].
    unfold point_of. cbn. rewrite key_delete; [done|]. apply Had, Hne, list.elem_of_app. by left.
  - intros s. rewrite Hreq. apply S10.
  - intros b Hb. unfold point_of. cbn. apply key_delete. by apply Had.
Qed.

Lemma timer_fire_ok ops w l :
  scheduler_ok ops [] w l ->
  match nodes_ w with
  | [] => fire w = Some (w, [])
  | a :: rest => exists t w', tokens w !! a = Some t /\
      fire w = Some (w', [(a, if is_cancellation_requested (cancel_ w) t then SleepCanceled else Slept)]) /\
      scheduler_ok ops [] w' (without l a) /\ tokens w' = delete a (tokens w) /\ nodes_ w' = rest /\
      wake_up_coroutine_ w' = wake_up_coroutine_ w /\ heap_ (timer_queue_ w') = heap_ (timer_queue_ w) /\
      (forall t', is_cancellation_requested (cancel_ w') t' = is_cancellation_requested (cancel_ w) t') /\
      (forall b, b <> a -> point_of w' b = point_of w b)
  end.
Proof.
  intros Hw. unfold fire. destruct (nodes_ w) as [|a rest] eqn:En; [done|].
  pose proof Hw as [S1 S2 S3 S4 S5 S6 S7 S8 S9 S10]. rewrite En in *.
  assert (is_Some (tokens w !! a)) as [t Ht] by (apply S4; right; left; apply list_elem_of_here).
  assert (a ∉ wake_up_coroutine_ w) as Haw.
  { intros H. cbn [map app] in S5. apply list.NoDup_cons in S5 as [Hn _]. apply Hn, list.elem_of_app. left.
    apply list_elem_of_fmap_2, list.elem_of_app. by right. }
  destruct (timer_await_resume_ok ops w l a t rest (wake_up_coroutine_ w) Hw Ht) as (w' & -> & Hok).
  - intros b. rewrite En, elem_of_cons. split; [intros [->|?]; [right; split; [done|apply list_elem_of_here]|by left]|intros [?|[-> _]]; auto].
  - intros b. split; [by left|]. intros [?|[-> ?]]; done.
  - done.
  - exists t, w'. done.
Qed.

Lemma timer_resume_ok ops w l :
  scheduler_ok ops [] w l ->
  match wake_up_coroutine_ w with
  | [] => resume w = Some (w, [])
  | a :: rest => exists w', is_Some (tokens w !! a) /\ resume w = Some (w', [(a, SleepCanceled)]) /\
      scheduler_ok ops [] w' (without l a) /\ tokens w' = delete a (tokens w)
  end.
Proof.
  intros Hw. unfold resume. destruct (wake_up_coroutine_ w) as [|a rest] eqn:En; [done|].
  pose proof Hw as [S1 S2 S3 S4 S5 S6 S7 S8 S9 S10]. rewrite En in *.
  assert (is_Some (tokens w !! a)) as [t Ht] by (apply S4; right; right; apply list_elem_of_here).
  assert (map address (a :: nodes_ w ++ rest) ++ heap_ (timer_queue_ w) ≡ₚ
          map address (nodes_ w ++ a :: rest) ++ heap_ (timer_queue_ w)) as Hp.
  { apply Permutation_app_tail, Permutation_map. apply Permutation_middle. }
  rewrite <- Hp in S5.
  assert (a ∉ nodes_ w) as Haw.
  { intros H. cbn [map app] in S5. apply list.NoDup_cons in S5 as [Hn _]. apply Hn, list.elem_of_app. left.
    apply list_elem_of_fmap_2, list.elem_of_app. by left. }
  destruct (timer_await_resume_ok ops w l a t (nodes_ w) rest Hw Ht) as (w' & -> & Hok & Et & _).
  - intros b. split; [by left|]. intros [?|[-> ?]]; done.
  - intros b. rewrite En, elem_of_cons. split; [intros [->|?]; [right; split; [done|apply list_elem_of_here]|by left]|intros [?|[-> _]]; auto].
  - done.
  - exists w'. rewrite (S7 a t) by (done || apply list_elem_of_here). split; [by eexists|]. done.
Qed.

(** ** Sleeping *)

Lemma timer_sleep_ok ops w l a t p now :
  scheduler_ok ops [] w l -> legal w (OpSleep a t p now) ->
  exists w' out l', sleep a t p now w = Some (w', out) /\ scheduler_ok (ops ++ [OpSleep a t p now]) [] w' l' /\
    (if is_cancellation_requested (cancel_ w) t then out = [(a, SleepCanceled)] /\ tokens w' = tokens w
     else if p <=? now then out = [(a, Slept)] /\ tokens w' = tokens w
     else out = [] /\ tokens w' = <[a := t]> (tokens w)).
Proof.
  intros Hw (Ha & Hroom & Ht). pose proof (timer_more_ops _ (OpSleep a t p now) _ _ _ Hw) as Hw'.
  pose proof Hw' as [S1 S2 S3 S4 S5 S6 S7 S8 S9 S10]. unfold sleep. cbn.
  assert (nodes (timer_queue_ w) !! address a = None) as Hn.
  { destruct (nodes (timer_queue_ w) !! address a) eqn:E; [|done]. assert (is_Some (nodes (timer_queue_ w) !! address a)) as H by by rewrite E.
    apply S3 in H as (b & ->%address_inj & [? ?]). congruence. }
  destruct (timer_add_node _ _ p S2 Hn) as [Hah Hq].
  destruct (is_cancellation_requested (cancel_ w) t || (p <=? now)) eqn:Hc.
  - unfold await_resume. cbn. rewrite lookup_insert_eq. cbn.
    assert (reg_state_ (cancel_ w) !! a = None) as Hr.
    { destruct (reg_state_ (cancel_ w) !! a) eqn:E; [|done]. destruct (aw_reg _ _ _ S1 a) as [? ?]; [by rewrite E|congruence]. }
    unfold reset_registration. rewrite Hr. cbn. rewrite !delete_insert_id by done.
    eexists _, _, l. split; [done|]. split; [by destruct w as [[? ?] ? ? ? ?]|].
    destruct (is_cancellation_requested (cancel_ w) t); [done|]. cbn in Hc. by rewrite Hc.
  - apply orb_false_iff in Hc as [Hc Hp]. rewrite Hc, Hp. destruct (awaiting_start _ _ _ a t S1 Ha Ht) as (c & -> & Hok & Hst). cbn.
    destruct (enqueue_ok _ (address a) (Node no_index p) Hq) as (q & -> & Hq' & Hperm & Hka & Hk & Hd); [apply lookup_insert_eq|done|done|].
    cbn in Hperm, Hka, Hk, Hd |- *. eexists _, _, _. split; [done|]. split; [|done].
    assert (forall b, is_Some (tokens w !! b) -> address b <> address a) as Hne.
    { intros b [? Hb] E%address_inj. subst b. congruence. }
    assert (forall b, b ∈ nodes_ w ++ wake_up_coroutine_ w -> is_Some (tokens w !! b)) as Hin.
    { intros b [Hb|Hb]%list.elem_of_app; apply S4; auto. }
    split; cbn.
    + done.
    + done.
    + intros x. rewrite Hd, lookup_insert_is_Some', S3. split.
      * intros [<-|(b & -> & Hb)]; [exists a; split; [done|by rewrite lookup_insert_eq; eexists]|].
        exists b. split; [done|]. apply lookup_insert_is_Some'. by right.
      * intros (b & -> & [->|Hb]%lookup_insert_is_Some'); [by left|right; by exists b].
    + intros b. rewrite lookup_insert_is_Some', S4, Hperm, elem_of_cons. split.
      * intros [->|[?|?]]; auto.
      * intros [[->%address_inj|?]|?]; auto.
    + apply NoDup_Permutation_proper with (map address (nodes_ w ++ wake_up_coroutine_ w) ++ address a :: heap_ (timer_queue_ w)).
      { by rewrite Hperm. }
      rewrite <- Permutation_middle. apply list.NoDup_cons. split; [|done]. intros [H|H]%list.elem_of_app; [|done].
      apply list_elem_of_fmap in H as (b & E & Hb). by apply (Hne b (Hin b Hb)).
    + intros b t' Hb Htb. rewrite (same_requested _ _ _ Hst). rewrite Hperm, elem_of_cons in Hb.
      apply lookup_insert_Some in Htb as [[<- <-]|[Hab Htb]]; [by left|]. destruct Hb as [E%address_inj|Hb]; [by subst|]. by apply (S6 b).
    + intros b t' Hb Htb. rewrite (same_requested _ _ _ Hst). apply lookup_insert_Some in Htb as [[<- <-]|[_ Htb]]; [|by apply (S7 b)].
      exfalso. apply (Hne a); [|done]. apply Hin, list.elem_of_app. by right.
    + intros b t' [[<- <-]|[Hab Htb]]%lookup_insert_Some.
      * exists p, now. split; [apply list.elem_of_app; right; apply list_elem_of_here|]. unfold point_of. cbn. rewrite Hka. lia.
      * destruct (S8 b t' Htb) as (p2 & n2 & ? & ?). exists p2, n2. split; [done|]. unfold point_of. cbn.
        assert (address b <> address a) as Hb by (apply Hne; by eexists). rewrite Hk by done. unfold key. by rewrite lookup_insert_ne by (by apply not_eq_sym).
    + intros b Hb. destruct (S9 b Hb) as (n2 & ? & Hp2). exists n2. split; [done|]. unfold point_of. cbn.
      assert (address b <> address a) as Hb' by (apply Hne, Hin, list.elem_of_app; by left). rewrite Hk by done.
      unfold key. by rewrite lookup_insert_ne by (by apply not_eq_sym).
    + intros s. rewrite (same_requested _ _ _ Hst). apply S10.
Qed.

(** ** Cancelling *)

Lemma timer_on_cancel_ok ops fired w l a t :
  scheduler_ok ops (a :: fired) w l -> tokens w !! a = Some t -> is_cancellation_requested (cancel_ w) t = true ->
  exists w', on_cancel a w = Some w' /\ scheduler_ok ops fired w' l /\ tokens w' = tokens w /\ cancel_ w' = cancel_ w.
Proof.
  intros [S1 S2 S3 S4 S5 S6 S7 S8 S9 S10] Ha Hc. unfold on_cancel.
  destruct (decide (address a ∈ heap_ (timer_queue_ w))) as [Hin|Hnin].
  - destruct (remove_ok _ _ S2 Hin) as (q & -> & [Hq Hp Hk Hd]). cbn. eexists. split; [done|]. split; [|done].
    assert (NoDup (address a :: map address (nodes_ w ++ wake_up_coroutine_ w) ++ heap_ q)) as Hno.
    { rewrite Hp in S5. by rewrite <- Permutation_middle in S5. }
    split; cbn.
    + done.
    + done.
    + intros x. by rewrite Hd.
    + intros b. rewrite S4, Hp, elem_of_cons, list.elem_of_app, list_elem_of_singleton. split.
      * intros [[->%address_inj|?]|[?|?]]; auto.
      * intros [?|[?|[?| ->]]]; auto.
    + rewrite app_assoc, map_app, <- (app_assoc (A := Z)). cbn. by rewrite <- Permutation_middle.
    + intros b t' Hb Ht. destruct (S6 b t') as [?|[->|?]%elem_of_cons]; [rewrite Hp; by apply elem_of_cons; right|done|by left| |by right].
      exfalso. apply list.NoDup_cons in Hno as [Hno _]. apply Hno, list.elem_of_app. by right.
    + intros b t' [Hb| ->%list_elem_of_singleton]%list.elem_of_app Ht; [by apply (S7 b)|]. congruence.
    + intros b t' Ht. unfold point_of. cbn. rewrite Hk. by apply (S8 b t').
    + intros b Hb. unfold point_of. cbn. rewrite Hk. by apply S9.
    + done.
  - assert (is_Some (nodes (timer_queue_ w) !! address a)) as [n Hn] by (apply S3; exists a; split; [done|by eexists]).
    rewrite (remove_absent _ _ n) by done. cbn. eexists. split; [done|]. split; [|by destruct w].
    split; cbn; try done. intros b t' Hb Ht. destruct (S6 b t' Hb Ht) as [?|[->|?]%elem_of_cons]; [by left|done|by right].
Qed.

Lemma timer_run_callbacks_ok fired : forall ops w l,
  scheduler_ok ops fired w l ->
  (forall a, a ∈ fired -> exists t, tokens w !! a = Some t /\ is_cancellation_requested (cancel_ w) t = true) ->
  exists w', run_callbacks fired w = Some w' /\ scheduler_ok ops [] w' l /\ tokens w' = tokens w.
Proof.
  induction fired as [|a fired IH]; intros ops w l Hw Hf; cbn [run_callbacks]; [by exists w|].
  destruct (Hf a (list_elem_of_here _ _)) as (t & Ht & Hr).
  destruct (timer_on_cancel_ok ops fired w l a t Hw Ht Hr) as (w1 & -> & Hw1 & Et & Ec). cbn.
  destruct (IH ops w1 l Hw1) as (w' & -> & Hw' & Et').
  { intros b Hb. rewrite Et, Ec. apply Hf. by apply list_elem_of_further. }
  exists w'. split; [done|]. split; [done|]. congruence.
Qed.

Lemma timer_cancel_ok ops w l s :
  scheduler_ok ops [] w l -> is_Some (states (cancel_ w) !! s) ->
  exists w', cancel s w = Some w' /\ scheduler_ok (ops ++ [OpCancel s]) [] w' (with_list l s []) /\ tokens w' = tokens w.
Proof.
  intros Hw Hs. pose proof (timer_more_ops _ (OpCancel s) _ _ _ Hw) as [S1 S2 S3 S4 S5 S6 S7 S8 S9 S10]. destruct (awaiting_cancel _ _ _ s S1 Hs) as (c & E & Hc & Hreq & Hst).
  unfold cancel. rewrite E. cbn. set (w1 := Scheduler _ _ _ _ c).
  destruct (timer_run_callbacks_ok (l s) (ops ++ [OpCancel s]) w1 (with_list l s [])) as (w' & -> & Hw' & Et); [| |by exists w'].
  2: { intros a Ha. exists (Some s). unfold w1. cbn. by rewrite (aw_token _ _ _ S1 a s Ha), Hreq, bool_decide_true. }
  split; cbn; try done.
  - intros a t Ha Ht. rewrite Hreq. destruct (S6 a t Ha Ht) as [Hr|[]%elem_of_nil]. destruct (bool_decide_reflect (t = Some s)) as [->|Hne]; [|by left].
    right. by apply (aw_all _ _ _ S1).
  - intros a t Ha Ht. rewrite Hreq, (S7 a t) by done. apply orb_true_r.
  - intros s'. rewrite Hreq. intros [Es%bool_decide_eq_true|Hr]%orb_true_iff; [|by apply S10]. injection Es as ->.
    apply list.elem_of_app. right. apply list_elem_of_here.
Qed.

(** ** Timers *)

Lemma timer_expire_ok ops w l now :
  scheduler_ok ops [] w l ->
  exists w', expire now w = Some w' /\ scheduler_ok (ops ++ [OpExpire now]) [] w' l /\ tokens w' = tokens w /\
    cancel_ w' = cancel_ w /\ (forall a, point_of w' a = point_of w a) /\
    (nodes_ w = [] -> exists ps, nodes_ w' = ps /\ heap_ (timer_queue_ w) ≡ₚ map address ps ++ heap_ (timer_queue_ w') /\
       StronglySorted Z.le (point_of w <$> ps) /\ (forall a, a ∈ ps -> point_of w a <= now) /\
       (forall a, address a ∈ heap_ (timer_queue_ w') -> now < point_of w a)).
Proof.
  intros Hw0. pose proof (timer_more_ops _ (OpExpire now) _ _ _ Hw0) as Hw. unfold expire. destruct (nodes_ w) as [|a0 rest] eqn:En; [|by exists w].
  pose proof Hw as [S1 S2 S3 S4 S5 S6 S7 S8 S9 S10].
  destruct (ready_loop_ok (S (length (heap_ (timer_queue_ w)))) (timer_queue_ w) now S2) as (ps & q & E & Hq & Hp & Hk & Hs & Hle & Hgt & Hd); [lia|].
  unfold get_ready_timers. rewrite E. cbn. set (as_ := map Z.to_nat ps).
  assert (forall x, x ∈ heap_ (timer_queue_ w) -> x = address (Z.to_nat x)) as Hadd.
  { intros x Hx. assert (is_Some (nodes (timer_queue_ w) !! x)) as Hn.
    { apply list_elem_of_lookup in Hx as [i Hi]. destruct (qw_placed _ S2 i x Hi) as (n & Hn & _). by rewrite Hn. }
    apply S3 in Hn as (b & -> & _). unfold address. lia. }
  assert (map address as_ = ps) as Eps.
  { unfold as_. rewrite map_map. rewrite <- (map_id ps) at 2. apply map_ext_in. intros x Hx. symmetry. apply Hadd. rewrite Hp.
    apply list.elem_of_app. left. by apply list_elem_of_In. }
  rewrite <- Eps in Hp, Hs, Hle. rewrite En in S4, S5. cbn [app] in S5.
  assert (forall a, address a ∈ map address as_ <-> a ∈ as_) as Hin.
  { intros a. split; [|apply list_elem_of_fmap_2]. intros (b & ->%address_inj & Hb)%list_elem_of_fmap. done. }
  eexists. split; [done|]. split; [split; cbn|split; [done|split; [done|split; [intros a; unfold point_of; cbn; apply Hk|]]]].
  - done.
  - done.
  - intros x. by rewrite Hd.
  - intros a. rewrite S4, Hp, list.elem_of_app, Hin. split; [intros [[?|?]|[[]%elem_of_nil|?]]; auto|intros [?|[?|?]]; auto].
  - rewrite Hp in S5. rewrite map_app, <- (app_assoc (A := Z)). by rewrite Permutation_app_swap_app.
  - intros a t Ha Ht. apply (S6 a t); [|done]. rewrite Hp. apply list.elem_of_app. by right.
  - done.
  - intros a t Ht. unfold point_of. cbn. rewrite Hk. by apply (S8 a t).
  - intros a Ha. exists now. split; [unfold times; rewrite flat_map_app; apply list.elem_of_app; right; apply list_elem_of_here|].
    unfold point_of. cbn. rewrite Hk. rewrite list.Forall_forall in Hle. apply Hle. by apply Hin.
  - done.
  - intros _. exists as_. cbn. split; [done|]. split; [done|]. split; [|split].
    + unfold point_of. replace ((fun a => key (nodes (timer_queue_ w)) (address a)) <$> as_) with (key (nodes (timer_queue_ w)) <$> map address as_); [done|].
      symmetry. apply (list_fmap_compose address (key (nodes (timer_queue_ w))) as_).
    + intros a Ha. rewrite list.Forall_forall in Hle. apply Hle. by apply Hin.
    + intros a Ha. rewrite list.Forall_forall in Hgt. by apply Hgt.
Qed.

(** ** Runs *)

Definition results_of (a : nat) (out : list (nat * wake_result)) : nat := length (filter (fun r => r.1 = a) out).

Definition sleeps_of (a : nat) (ops : list sleep_op) : nat :=
  length (filter (fun op => match op with OpSleep b _ _ _ => Some b | _ => None end = Some a) ops).

Definition live (w : scheduler) (a : nat) : nat := match tokens w !! a with Some _ => 1 | None => 0 end.

Lemma timer_results_of_one a b r : results_of a [(b, r)] = if decide (b = a) then 1%nat else 0%nat.
Proof. unfold results_of. cbn. by destruct (decide (b = a)). Qed.

Lemma timer_results_of_app a out out' : results_of a (out ++ out') = (results_of a out + results_of a out')%nat.
Proof. unfold results_of. by rewrite list.filter_app, length_app. Qed.

Lemma sleeps_of_cons a op ops : sleeps_of a (op :: ops) = (sleeps_of a [op] + sleeps_of a ops)%nat.
Proof. unfold sleeps_of. by rewrite <- length_app, <- list.filter_app. Qed.

Lemma timer_live_same w w' : tokens w' = tokens w -> forall a, live w' a = live w a.
Proof. unfold live. by intros ->. Qed.

Lemma timer_live_delete w w' a b : is_Some (tokens w !! a) -> tokens w' = delete a (tokens w) -> (results_of b [(a, Slept)] + live w' b)%nat = live w b.
Proof.
  intros [t Ht] E. rewrite timer_results_of_one. unfold live. rewrite E. destruct (decide (a = b)) as [<-|Hne]; [by rewrite lookup_delete_eq, Ht|].
  by rewrite lookup_delete_ne.
Qed.

Lemma timer_results_of_any a b r r' : results_of b [(a, r)] = results_of b [(a, r')].
Proof. by rewrite !timer_results_of_one. Qed.

(** Why a coroutine ended as it did: a time that was read had come to its
    point, or its source was cancelled. *)
Definition justified (ops : list sleep_op) (r : nat * wake_result) : Prop :=
  match r.2 with
  | Slept => exists t p now time, OpSleep r.1 t p now ∈ ops /\ time ∈ times ops /\ p <= time
  | SleepCanceled => exists s p now, OpSleep r.1 (Some s) p now ∈ ops /\ OpCancel s ∈ ops
  end.

Lemma timer_justified_more ops ops' r : justified ops r -> justified (ops ++ ops') r.
Proof.
  unfold justified, times. rewrite flat_map_app. destruct r.2.
  - intros (t & p & now & time & H1 & H2 & H3). exists t, p, now, time. rewrite !list.elem_of_app. auto.
  - intros (s & p & now & H1 & H2). exists s, p, now. rewrite !list.elem_of_app. auto.
Qed.

(** A coroutine whose token is cancelled, or that was due. *)
Lemma resumed_justified ops w l a t :
  scheduler_ok ops [] w l -> tokens w !! a = Some t ->
  (is_cancellation_requested (cancel_ w) t = false -> a ∈ nodes_ w) ->
  justified ops (a, if is_cancellation_requested (cancel_ w) t then SleepCanceled else Slept).
Proof.
  intros Hw Ht Hn. destruct (sk_point _ _ _ _ Hw a t Ht) as (p & now & Hin & Hp). unfold justified. cbn.
  destruct (is_cancellation_requested (cancel_ w) t) eqn:Hr; cbn.
  - destruct t as [s|]; [|done]. exists s, p, now. split; [done|]. by apply (sk_source _ _ _ _ Hw).
  - destruct (sk_due _ _ _ _ Hw a (Hn eq_refl)) as (time & Ht' & Hle). exists t, p, now, time. split; [done|]. split; [done|]. lia.
Qed.

Lemma timer_source_ok ops w l s :
  scheduler_ok ops [] w l -> states (cancel_ w) !! s = None ->
  scheduler_ok (ops ++ [OpSource s]) [] (Scheduler (timer_queue_ w) (wake_up_coroutine_ w) (nodes_ w) (tokens w) (new_source (cancel_ w) s)) l.
Proof.
  intros Hw Hs. pose proof (timer_more_ops _ (OpSource s) _ _ _ Hw) as [S1 S2 S3 S4 S5 S6 S7 S8 S9 S10].
  destruct (awaiting_source _ _ _ s S1 Hs) as [Hok Hreq].
  split; cbn; try done.
  - intros a t Ha Ht. rewrite Hreq. by apply (S6 a).
  - intros a t Ha Ht. rewrite Hreq. by apply (S7 a).
  - intros s'. rewrite Hreq. apply S10.
Qed.

Lemma sleep_step_ok ops w l op :
  scheduler_ok ops [] w l -> legal w op ->
  exists w' out l', sleep_step op w = Some (w', out) /\ scheduler_ok (ops ++ [op]) [] w' l' /\
    (forall a, (results_of a out + live w' a = sleeps_of a [op] + live w a)%nat) /\ (forall r, r ∈ out -> justified (ops ++ [op]) r).
Proof.
  intros Hw Hop. assert (forall r, r ∈ [] -> justified (ops ++ [op]) r) as Hnil by (intros r []%elem_of_nil).
  destruct op as [s|a t p now|s|now| |]; cbn [sleep_step].
  - eexists _, [], l. split; [done|]. split; [by apply timer_source_ok|]. done.
  - destruct (timer_sleep_ok ops w l a t p now Hw Hop) as (w' & out & l' & E & Hw' & Hcase). exists w', out, l'. split; [done|]. split; [done|].
    destruct Hop as (Ha & _ & Ht). assert (OpSleep a t p now ∈ ops ++ [OpSleep a t p now]) as Hin by (apply list.elem_of_app; right; apply list_elem_of_here).
    assert (forall b, sleeps_of b [OpSleep a t p now] = results_of b [(a, Slept)]) as Hs.
    { intros b. rewrite timer_results_of_one. unfold sleeps_of. cbn. destruct (decide (a = b)) as [->|Hne]; [by rewrite decide_True|by rewrite decide_False by congruence]. }
    destruct (is_cancellation_requested (cancel_ w) t) eqn:Hr; [|destruct (Z.leb_spec p now) as [Hp|_]].
    + destruct Hcase as [-> Et]. split; [intros b; by rewrite Hs, (timer_live_same w w'), (timer_results_of_any _ _ _ Slept)|]. intros r ->%list_elem_of_singleton.
      unfold justified. cbn. destruct t as [s|]; [|done]. exists s, p, now. split; [done|]. apply list.elem_of_app. left. by apply (sk_source _ _ _ _ Hw).
    + destruct Hcase as [-> Et]. split; [intros b; by rewrite Hs, (timer_live_same w w')|]. intros r ->%list_elem_of_singleton.
      exists t, p, now, now. split; [done|]. split; [|done]. unfold times. rewrite flat_map_app. apply list.elem_of_app. right. apply list_elem_of_here.
    + destruct Hcase as [-> Et]. split; [|done]. intros b. rewrite Hs, timer_results_of_one. unfold live. rewrite Et.
      destruct (decide (a = b)) as [->|Hne]; [by rewrite lookup_insert_eq, Ha|by rewrite lookup_insert_ne].
  - destruct (timer_cancel_ok ops w l s Hw Hop) as (w' & -> & Hw' & Et). cbn. eexists _, [], _. split; [done|]. split; [done|]. split; [|done].
    intros a. by rewrite (timer_live_same w w' Et).
  - destruct (timer_expire_ok ops w l now Hw) as (w' & -> & Hw' & Et & _). cbn. eexists _, [], _. split; [done|]. split; [done|]. split; [|done].
    intros a. by rewrite (timer_live_same w w' Et).
  - pose proof (timer_fire_ok _ _ _ Hw) as Hf. destruct (nodes_ w) as [|a rest] eqn:En.
    + rewrite Hf. eexists _, [], l. split; [done|]. split; [by apply timer_more_ops|]. done.
    + destruct Hf as (t & w' & Ht & -> & Hw' & Et & _). eexists _, _, _. split; [done|]. split; [by apply timer_more_ops|]. split.
      * intros b. rewrite (timer_results_of_any _ _ _ Slept), (timer_live_delete w w' a b); [done|by eexists|done].
      * intros r ->%list_elem_of_singleton. apply timer_justified_more, (resumed_justified ops w l); [done|done|]. intros _. rewrite En. apply list_elem_of_here.
  - pose proof (timer_resume_ok _ _ _ Hw) as Hf. destruct (wake_up_coroutine_ w) as [|a rest] eqn:En.
    + rewrite Hf. eexists _, [], l. split; [done|]. split; [by apply timer_more_ops|]. done.
    + destruct Hf as (w' & [t Ht] & -> & Hw' & Et). eexists _, _, _. split; [done|]. split; [by apply timer_more_ops|]. split.
      * intros b. rewrite (timer_results_of_any _ _ _ Slept), (timer_live_delete w w' a b); [done|by eexists|done].
      * intros r ->%list_elem_of_singleton. apply timer_justified_more. pose proof (resumed_justified ops w l a t Hw Ht) as Hj.
        rewrite (sk_wake _ _ _ _ Hw a t) in Hj; [by apply Hj|rewrite En; apply list_elem_of_here|done].
Qed.

Lemma sleep_run_ok ops : forall ops0 w l,
  scheduler_ok ops0 [] w l -> legal_run w ops ->
  exists w' out l', sleep_run ops w = Some (w', out) /\ scheduler_ok (ops0 ++ ops) [] w' l' /\
    (forall a, (results_of a out + live w' a = sleeps_of a ops + live w a)%nat) /\ (forall r, r ∈ out -> justified (ops0 ++ ops) r).
Proof.
  induction ops as [|op ops IH]; intros ops0 w l Hw Hl; cbn [sleep_run legal_run] in *.
  - exists w, [], l. rewrite app_nil_r. split; [done|]. split; [done|]. split; [done|]. intros r []%elem_of_nil.
  - destruct Hl as [Hop Hl]. destruct (sleep_step_ok ops0 w l op Hw Hop) as (w1 & out1 & l1 & E & Hw1 & Hc1 & Hj1). rewrite E in *.
    destruct (IH _ w1 l1 Hw1 Hl) as (w' & out & l' & E' & Hw' & Hc & Hj). cbn [mbind option_bind]. rewrite E'. cbn [mbind option_bind].
    rewrite <- (app_assoc (A := sleep_op)) in Hw', Hj. exists w', (out1 ++ out), l'. split; [done|]. split; [done|]. split.
    + intros a. specialize (Hc1 a). specialize (Hc a). rewrite timer_results_of_app, sleeps_of_cons. lia.
    + intros r [Hr|Hr]%list.elem_of_app; [|by apply Hj]. change (op :: ops) with ([op] ++ ops). rewrite (app_assoc (A := sleep_op)).
      by apply timer_justified_more, Hj1.
Qed.

(** The loop over the nodes, when nothing happens in between. *)
Lemma fire_all n : forall ops w l,
  length (nodes_ w) = n -> scheduler_ok ops [] w l ->
  (forall a t, a ∈ nodes_ w -> tokens w !! a = Some t -> is_cancellation_requested (cancel_ w) t = false) ->
  exists w' l', sleep_run (replicate n OpFire) w = Some (w', map (fun a => (a, Slept)) (nodes_ w)) /\ scheduler_ok ops [] w' l' /\
    nodes_ w' = [] /\ heap_ (timer_queue_ w') = heap_ (timer_queue_ w).
Proof.
  induction n as [|n IH]; intros ops w l Hn Hw Hr.
  - destruct (nodes_ w) eqn:En; [|done]. exists w, l. by rewrite En.
  - pose proof (timer_fire_ok ops w l Hw) as Hf. pose proof (sk_once _ _ _ _ Hw) as Hno. destruct (nodes_ w) as [|a rest] eqn:En; [done|].
    destruct Hf as (t & w1 & Ht & E & Hw1 & Et & En1 & _ & Eh & Hreq & _). cbn [replicate sleep_run sleep_step]. rewrite E. cbn.
    rewrite (Hr a t) by (done || apply list_elem_of_here).
    destruct (IH ops w1 _ ltac:(rewrite En1; by injection Hn) Hw1) as (w' & l' & -> & Hw' & En' & Eh').
    { intros b t' Hb Htb. rewrite Et in Htb. apply lookup_delete_Some in Htb as [_ Htb]. rewrite Hreq. apply (Hr b t'); [|done].
      rewrite En1 in Hb. by apply list_elem_of_further. }
    cbn. exists w', l'. rewrite En1. split; [done|]. split; [done|]. split; [done|]. congruence.
Qed.

(** * Properties *)

(** Whatever coroutines sleep, whichever sources are cancelled and however
    the scheduler's steps and theirs are interleaved, nothing touches a node or
    a registration that is gone; every sleep has ended exactly once or goes on;
    and it returns only when a time was read that is not before its point, and
    throws only when the source of its token was cancelled. *)
Theorem sleeps_end_once ops :
  legal_run scheduler_new ops ->
  exists w out, sleep_run ops scheduler_new = Some (w, out) /\
    (forall a, (results_of a out + live w a)%nat = sleeps_of a ops) /\ (forall r, r ∈ out -> justified ops r).
Proof.
  intros Hl. destruct (sleep_run_ok ops [] _ _ scheduler_new_ok Hl) as (w & out & l & E & _ & Hc & Hj).
  exists w, out. split; [done|]. split; [|done]. intros a. rewrite (Hc a). unfold live. cbn. rewrite lookup_empty. lia.
Qed.

(** C11: a turn of the scheduler at [now] ends every sleep whose point has come
    and that was not cancelled, the earliest first, leaves the others, and the
    time the scheduler then waits does not go beyond the point of any of them. *)
Theorem due_sleepers_resume ops w out now :
  legal_run scheduler_new ops -> sleep_run ops scheduler_new = Some (w, out) -> nodes_ w = [] ->
  exists ps w', sleep_run (OpExpire now :: replicate (length ps) OpFire) w = Some (w', map (fun a => (a, Slept)) ps) /\
    StronglySorted Z.le (point_of w <$> ps) /\
    (forall a, a ∈ ps <-> address a ∈ heap_ (timer_queue_ w) /\ point_of w a <= now) /\
    (forall a, address a ∈ heap_ (timer_queue_ w') <-> address a ∈ heap_ (timer_queue_ w) /\ now < point_of w a) /\
    (forall later d, wait_duration (timer_queue_ w') later = Some d ->
       forall a, address a ∈ heap_ (timer_queue_ w') -> d <= point_of w' a - later).
Proof.
  intros Hl Hr Hn. destruct (sleep_run_ok ops [] _ _ scheduler_new_ok Hl) as (w0 & out0 & l & E & Hw & _).
  rewrite Hr in E. injection E as <- <-. destruct (timer_expire_ok _ w l now Hw) as (w1 & E1 & Hw1 & Et & Ec & Hpt & Hps).
  destruct (Hps Hn) as (ps & En & Hp & Hs & Hle & Hgt).
  destruct (fire_all (length ps) _ w1 l ltac:(by rewrite En) Hw1) as (w' & l' & E' & Hw' & _ & Eh).
  { intros a t Ha Ht. rewrite Et in Ht. rewrite Ec. destruct (sk_heap _ _ _ _ Hw a t) as [?|[]%elem_of_nil]; [|done|done].
    rewrite Hp. apply list.elem_of_app. left. apply list_elem_of_fmap_2. by rewrite <- En. }
  exists ps, w'. split; [|split; [done|split; [|split]]].
  - cbn [sleep_run sleep_step]. rewrite E1. cbn. rewrite E', En. done.
  - intros a. rewrite Hp, list.elem_of_app. split.
    + intros Ha. split; [left; by apply list_elem_of_fmap_2|by apply Hle].
    + intros [[Ha|Ha] Hpa]; [apply list_elem_of_fmap in Ha as (b & ->%address_inj & Hb); done|]. specialize (Hgt a Ha). lia.
  - intros a. rewrite Eh, Hp, list.elem_of_app. split.
    + intros Ha. split; [by right|by apply Hgt].
    + intros [[Ha|Ha] Hpa]; [|done]. apply list_elem_of_fmap in Ha as (b & ->%address_inj & Hb). specialize (Hle b Hb). lia.
  - intros later d Hd a Ha. destruct (wait_duration_least (timer_queue_ w') later (sk_queue _ _ _ _ Hw')) as (d' & Hd' & _ & Hleast & _).
    rewrite Hd in Hd'. injection Hd' as <-. by apply Hleast.
Qed.

(** Two sleepers with one source and a third without a token: the cancelled
    ones are resumed by the second loop. *)
Definition demo_ops : list sleep_op :=
  [OpSource 0; OpSleep 1 (Some 0%nat) 50 10; OpSleep 2 None 30 10; OpSleep 3 (Some 0%nat) 20 10; OpSleep 4 None 25 11].

Lemma timer_demo_legal : legal_run scheduler_new (demo_ops ++ [OpExpire 20; OpCancel 0; OpFire; OpResume; OpExpire 31; OpFire; OpFire]).
Proof.
  vm_compute legal_run.
  repeat match goal with
    | |- _ /\ _ => split
    | |- forall s, _ -> _ => intros s E; first [discriminate E | injection E as <-; vm_compute; eexists; reflexivity]
    end; try reflexivity; try exact I; vm_compute; eexists; reflexivity.
Qed.

(** The sleeper 3 is due and cancelled before it is resumed: it throws. *)
Lemma sleeps_end_once_witness :
  exists w, sleep_run (demo_ops ++ [OpExpire 20; OpCancel 0; OpFire; OpResume; OpExpire 31; OpFire; OpFire]) scheduler_new =
    Some (w, [(3, SleepCanceled); (1, SleepCanceled); (4, Slept); (2, Slept)]%nat) /\
  forall a, (results_of a [(3, SleepCanceled); (1, SleepCanceled); (4, Slept); (2, Slept)]%nat + live w a)%nat =
    sleeps_of a (demo_ops ++ [OpExpire 20; OpCancel 0; OpFire; OpResume; OpExpire 31; OpFire; OpFire]).
Proof.
  destruct (sleeps_end_once _ timer_demo_legal) as (w & out & E & Hc & _). exists w.
  assert (snd <$> sleep_run (demo_ops ++ [OpExpire 20; OpCancel 0; OpFire; OpResume; OpExpire 31; OpFire; OpFire]) scheduler_new =
    Some [(3, SleepCanceled); (1, SleepCanceled); (4, Slept); (2, Slept)]%nat) as Ev by (vm_compute; reflexivity).
  rewrite E in Ev. injection Ev as ->. split; [exact E|exact Hc].
Defined.

Lemma timer_demo_legal_start : legal_run scheduler_new demo_ops.
Proof.
  vm_compute legal_run.
  repeat match goal with
    | |- _ /\ _ => split
    | |- forall s, _ -> _ => intros s E; first [discriminate E | injection E as <-; vm_compute; eexists; reflexivity]
    end; try reflexivity; exact I.
Qed.

(** At time 40 the sleepers 3, 4 and 2 are due, in this order. *)
Lemma due_sleepers_resume_witness :
  match sleep_run demo_ops scheduler_new with
  | Some (w, _) => exists ps w', sleep_run (OpExpire 40 :: replicate (length ps) OpFire) w = Some (w', map (fun a => (a, Slept)) ps) /\
      StronglySorted Z.le (point_of w <$> ps) /\ (forall a, a ∈ ps <-> address a ∈ heap_ (timer_queue_ w) /\ point_of w a <= 40)
  | None => False
  end.
Proof.
  destruct (sleep_run demo_ops scheduler_new) as [[w out]|] eqn:E.
  - assert (nodes_ w = []) as Hn.
    { assert ((fun r => nodes_ r.1) <$> sleep_run demo_ops scheduler_new = Some []) as Ev by (vm_compute; reflexivity).
      rewrite E in Ev. injection Ev as Ev. exact Ev. }
    destruct (due_sleepers_resume demo_ops w out 40 timer_demo_legal_start E Hn) as (ps & w' & H1 & H2 & H3 & _).
    exists ps, w'. split; [exact H1|]. split; [exact H2|exact H3].
  - vm_compute in E. discriminate E.
Defined.

Example due_in_order :
  (fun r => r.2) <$> sleep_run (demo_ops ++ [OpExpire 40; OpFire; OpFire; OpFire]) scheduler_new = Some [(3, Slept); (4, Slept); (2, Slept)]%nat.
Proof. vm_compute. reflexivity. Qed.
