(* ===== verification/AsyncSession.v ===== *)
(** Waiting for a job of another thread (async_session.h, async_session.cpp in
    src/runtime/include/simple/coro and src/runtime/src/coro). A coroutine makes
    an awaiter, which has a session number and a place for a value; it gives the
    number to a job and awaits. The job stores its value or exception and wakes
    the session up: on the scheduler's thread the coroutine is queued, from any
    other thread a function is posted that finds and resumes it. A cancelled
    token queues the coroutine too (Awaiting.v).

    The number of the awaiter is that of its coroutine; the steps of the jobs,
    of the coroutines and of the scheduler come in any order. [None] is a
    pointer to an awaiter that is gone. *)

From stdpp Require Import gmap.
From S2P Require Import Prelude AwaiterList Cancellation Awaiting.

Section async_session.
Context {V : Type}.

(** [async_session_awaiter]: its session, and its [async_value]: nothing, a
    value, or an exception ([Some None]). *)
Record awaiter := Awaiter { aw_session : Z; aw_value : option (option V) }.

(** [async_system] - the last session and the coroutines that wait -, the
    awaiters, the tokens of those that are suspended, the functions posted by
    [wake_up_session] and the coroutines that are queued. *)
Record async_system := AsyncSystem {
  session_ : Z; wait_map_ : gmap Z nat; awaiters : gmap nat awaiter; tokens : gmap nat token;
  posted : list Z; wake_ : list nat; cancel_ : cancellation }.

Definition system_new : async_system := AsyncSystem 0 ∅ ∅ ∅ [] [] no_cancellation.

(** What [await_resume] does; [NoValue] is reading a value that is not there. *)
Inductive await_result := Returned (v : V) | Threw | AwaitCanceled | NoValue.

(** * Operations *)

Definition create_session (session : Z) : Z :=
  let session := u64 (session + 1) in if session =? 0 then u64 (session + 1) else session.

(** [async_session_awaiter()]. *)
Definition create (a : nat) (w : async_system) : async_system :=
  let session := create_session (session_ w) in
  AsyncSystem session (wait_map_ w) (<[a := Awaiter session None]> (awaiters w)) (tokens w) (posted w) (wake_ w) (cancel_ w).

(** [await_resume] with token [t], and the end of the awaiter. *)
Definition await_resume (a : nat) (t : token) (w : async_system) : option (await_result * async_system) :=
  x ← awaiters w !! a;
  c ← reset_registration (cancel_ w) a;
  let r :=
    if is_cancellation_requested c t then AwaitCanceled
    else match aw_value x with Some (Some v) => Returned v | Some None => Threw | None => NoValue end in
  Some (r, AsyncSystem (session_ w) (wait_map_ w) (delete a (awaiters w)) (delete a (tokens w)) (posted w) (wake_ w) c).

Definition resume_of (a : nat) (w : async_system) : option (async_system * list (nat * await_result)) :=
  t ← tokens w !! a; '(r, w) ← await_resume a t w; Some (w, [(a, r)]).

(** [emplace] keeps an entry that is there. *)
Definition insert_session (session : Z) (a : nat) (m : gmap Z nat) : gmap Z nat :=
  match m !! session with Some _ => m | None => <[session := a]> m end.

(** [co_await awaiter] with token [t]. *)
Definition await (a : nat) (t : token) (w : async_system) : option (async_system * list (nat * await_result)) :=
  x ← awaiters w !! a;
  if is_cancellation_requested (cancel_ w) t then '(r, w) ← await_resume a t w; Some (w, [(a, r)])
  else
    c ← start_waiting (cancel_ w) a t;
    Some (AsyncSystem (session_ w) (insert_session (aw_session x) a (wait_map_ w)) (awaiters w) (<[a := t]> (tokens w)) (posted w) (wake_ w) c, []).

(** [wake_up_session] on the scheduler's thread. *)
Definition wake_up_session (session : Z) (w : async_system) : async_system :=
  match wait_map_ w !! session with
  | Some a => AsyncSystem (session_ w) (delete session (wait_map_ w)) (awaiters w) (tokens w) (posted w) (wake_ w ++ [a]) (cancel_ w)
  | None => w
  end.

(** [set_result] and [set_exception] by the job of awaiter [a], on the
    scheduler's thread or not; the job holds a weak pointer to the value. *)
Definition set_result (a : nat) (v : option V) (on_scheduler : bool) (w : async_system) : async_system :=
  match awaiters w !! a with
  | None => w
  | Some x =>
    let w := AsyncSystem (session_ w) (wait_map_ w) (<[a := Awaiter (aw_session x) (Some v)]> (awaiters w)) (tokens w)
               (posted w) (wake_ w) (cancel_ w) in
    if on_scheduler then wake_up_session (aw_session x) w
    else AsyncSystem (session_ w) (wait_map_ w) (awaiters w) (tokens w) (posted w ++ [aw_session x]) (wake_ w) (cancel_ w)
  end.

(** The scheduler runs the next function that [wake_up_session] posted. *)
Definition run_posted (w : async_system) : option (async_system * list (nat * await_result)) :=
  match posted w with
  | [] => Some (w, [])
  | session :: posted =>
    let w := AsyncSystem (session_ w) (wait_map_ w) (awaiters w) (tokens w) posted (wake_ w) (cancel_ w) in
    match wait_map_ w !! session with
    | Some a =>
      resume_of a (AsyncSystem (session_ w) (delete session (wait_map_ w)) (awaiters w) (tokens w) posted (wake_ w) (cancel_ w))
    | None => Some (w, [])
    end
  end.

Definition resume (w : async_system) : option (async_system * list (nat * await_result)) :=
  match wake_ w with
  | [] => Some (w, [])
  | a :: rest => resume_of a (AsyncSystem (session_ w) (wait_map_ w) (awaiters w) (tokens w) (posted w) rest (cancel_ w))
  end.

Fixpoint run_callbacks (fired : list nat) (w : async_system) : option async_system :=
  match fired with
  | [] => Some w
  | a :: fired => x ← awaiters w !! a; run_callbacks fired (wake_up_session (aw_session x) w)
  end.

Definition cancel (s : nat) (w : async_system) : option async_system :=
  '(c, fired) ← request_cancellation (cancel_ w) s;
  run_callbacks fired (AsyncSystem (session_ w) (wait_map_ w) (awaiters w) (tokens w) (posted w) (wake_ w) c).

Inductive async_op :=
  | OpSource (s : nat)
  | OpCreate (a : nat)
  | OpAwait (a : nat) (t : token)
  | OpFinish (a : nat) (v : option V) (on_scheduler : bool)
  | OpPosted
  | OpCancel (s : nat)
  | OpResume.

Definition async_step (op : async_op) (w : async_system) : option (async_system * list (nat * await_result)) :=
  match op with
  | OpSource s => Some (AsyncSystem (session_ w) (wait_map_ w) (awaiters w) (tokens w) (posted w) (wake_ w) (new_source (cancel_ w) s), [])
  | OpCreate a => Some (create a w, [])
  | OpAwait a t => await a t w
  | OpFinish a v on => Some (set_result a v on w, [])
  | OpPosted => run_posted w
  | OpCancel s => w ← cancel s w; Some (w, [])
  | OpResume => resume w
  end.

Fixpoint async_run (ops : list async_op) (w : async_system) : option (async_system * list (nat * await_result)) :=
  match ops with
  | [] => Some (w, [])
  | op :: ops => '(w, out) ← async_step op w; '(w, out') ← async_run ops w; Some (w, out ++ out')
  end.
End async_session.

Arguments awaiter : clear implicits.
Arguments await_result : clear implicits.
Arguments async_system : clear implicits.
Arguments async_op : clear implicits.

(** * The invariant *)

Section theory.
Context {V : Type}.

Implicit Types (w : async_system V) (ops : list (async_op V)).

(** What a program does: a coroutine awaits what it created, with a token of a
    source that exists, and a job finishes once; there are fewer than 2^64
    sessions. A job may finish, and what it posted may run, before the coroutine
    awaits. *)
Definition legal w (op : async_op V) : Prop :=
  match op with
  | OpSource s => states (cancel_ w) !! s = None
  | OpCreate a => awaiters w !! a = None /\ session_ w + 1 < 2 ^ 64
  | OpAwait a t => is_Some (awaiters w !! a) /\ tokens w !! a = None /\ (forall s, t = Some s -> is_Some (states (cancel_ w) !! s))
  | OpFinish a _ _ => forall x, awaiters w !! a = Some x -> aw_value x = None
  | OpCancel s => is_Some (states (cancel_ w) !! s)
  | OpPosted | OpResume => True
  end.

Fixpoint legal_run w ops : Prop :=
  match ops with
  | [] => True
  | op :: ops => legal w op /\ match async_step op w with Some (w, _) => legal_run w ops | None => True end
  end.

(** The wake-up of the session came while its coroutine did not wait yet: the
    posted function ran, or the job finished on the scheduler's thread. *)
Definition missed ops (a : nat) (session : Z) : Prop :=
  exists ops1 op ops2 w1 out1 x, ops = ops1 ++ op :: ops2 /\ async_run ops1 system_new = Some (w1, out1) /\
    awaiters w1 !! a = Some x /\ aw_session x = session /\ tokens w1 !! a = None /\
    ((op = OpPosted /\ head (posted w1) = Some session) \/ exists v, op = OpFinish a v true).

Lemma missed_more ops ops' a session : missed ops a session -> missed (ops ++ ops') a session.
Proof.
  intros (ops1 & op & ops2 & w1 & out1 & x & -> & H). exists ops1, op, (ops2 ++ ops'), w1, out1, x.
  split; [by rewrite <- (app_assoc (A := async_op V))|done].
Qed.

(** [w] is the state after [ops]. *)
Definition reached ops w : Prop := exists out, async_run ops system_new = Some (w, out).

Lemma missed_now ops w a x op :
  reached ops w -> awaiters w !! a = Some x -> tokens w !! a = None ->
  (op = OpPosted /\ head (posted w) = Some (aw_session x)) \/ (exists v, op = OpFinish a v true) ->
  missed (ops ++ [op]) a (aw_session x).
Proof. intros [out Hr] Hx Ht Hop. by exists ops, op, [], w, out, x. Qed.

(** An awaiter whose coroutine is suspended is in the table under its session
    or queued; one that has its value is found by a posted function or queued,
    or its wake-up came before it waited.
    [ops] is what happened, [fired] are callbacks that have still to run. *)
Record async_ok ops (fired : list nat) w (l : nat -> list nat) : Prop := {
  ak_await : awaiting_ok (cancel_ w) l (tokens w);
  ak_dom a : is_Some (tokens w !! a) -> is_Some (awaiters w !! a);
  ak_last : 0 <= session_ w < 2 ^ 64;
  ak_range a x : awaiters w !! a = Some x -> 0 < aw_session x <= session_ w;
  ak_distinct a b x y : awaiters w !! a = Some x -> awaiters w !! b = Some y -> aw_session x = aw_session y -> a = b;
  ak_map s a : wait_map_ w !! s = Some a ->
    (a ∉ wake_ w) /\ is_Some (tokens w !! a) /\ exists x, awaiters w !! a = Some x /\ aw_session x = s;
  ak_place a x : awaiters w !! a = Some x -> is_Some (tokens w !! a) -> wait_map_ w !! aw_session x = Some a \/ a ∈ wake_ w;
  ak_once : NoDup (wake_ w);
  ak_wake a : a ∈ wake_ w -> exists t x, tokens w !! a = Some t /\ awaiters w !! a = Some x /\
    (aw_value x = None -> is_cancellation_requested (cancel_ w) t = true);
  ak_waiting s a t : wait_map_ w !! s = Some a -> tokens w !! a = Some t ->
    is_cancellation_requested (cancel_ w) t = false \/ a ∈ fired;
  ak_value a x v : awaiters w !! a = Some x -> aw_value x = Some v ->
    (aw_session x ∈ posted w \/ a ∈ wake_ w \/ missed ops a (aw_session x)) /\ exists on, OpFinish a v on ∈ ops;
  ak_posted s : s ∈ posted w -> s <= session_ w /\ forall a x, awaiters w !! a = Some x -> aw_session x = s -> aw_value x <> None;
  ak_token a t : tokens w !! a = Some t -> OpAwait a t ∈ ops;
  ak_source s : is_cancellation_requested (cancel_ w) (Some s) = true -> OpCancel s ∈ ops }.

Lemma system_new_ok : async_ok [] [] system_new (fun _ => []).
Proof.
  split; cbn; try done.
  - apply awaiting_none.
  - intros a. rewrite !lookup_empty. by intros [? ?].
  - constructor.
  - by intros a ?%elem_of_nil.
  - by intros s ?%elem_of_nil.
Qed.

Lemma async_more_ops ops op fired w l : async_ok ops fired w l -> async_ok (ops ++ [op]) fired w l.
Proof.
  intros [A1 A2 A3 A4 A5 A6 A7 A8 A9 A10 A11 A12 A13 A14]. split; try done.
  - intros a x v Hx Hv. destruct (A11 a x v Hx Hv) as [Hp [on Hin]]. split; [destruct Hp as [?|[?|?]]; eauto using missed_more|]. exists on. apply list.elem_of_app. by left.
  - intros a t Ht. apply list.elem_of_app. left. by apply A13.
  - intros s Hs. apply list.elem_of_app. left. by apply A14.
Qed.

Lemma create_session_next session : 0 <= session -> session + 1 < 2 ^ 64 -> create_session session = session + 1.
Proof. intros H1 H2. unfold create_session. rewrite u64_small by word. by destruct (Z.eqb_spec (session + 1) 0); [lia|]. Qed.

Lemma async_create_ok ops w l a :
  async_ok ops [] w l -> legal w (OpCreate a) -> async_ok (ops ++ [OpCreate a]) [] (create a w) l.
Proof.
  intros Hw [Ha Hs]. pose proof (async_more_ops _ (OpCreate a) _ _ _ Hw) as [A1 A2 A3 A4 A5 A6 A7 A8 A9 A10 A11 A12 A13 A14].
  unfold create. rewrite create_session_next by lia.
  assert (tokens w !! a = None) as Hta.
  { destruct (tokens w !! a) eqn:E; [|done]. destruct (A2 a) as [? ?]; [by rewrite E|congruence]. }
  split; cbn; try done.
  - intros b Hb. apply lookup_insert_is_Some'. right. by apply A2.
  - lia.
  - intros b x [[<- <-]|[_ Hx]]%lookup_insert_Some; cbn; [lia|]. specialize (A4 b x Hx). lia.
  - intros b b' x y [[<- <-]|[Hne Hx]]%lookup_insert_Some [[<- <-]|[Hne' Hy]]%lookup_insert_Some; cbn; [done|..].
    + intros E. specialize (A4 b' y Hy). lia.
    + intros E. specialize (A4 b x Hx). lia.
    + by apply A5.
  - intros s b Hb. destruct (A6 s b Hb) as (Hn & Ht & x & Hx & E). split; [done|]. split; [done|]. exists x.
    rewrite lookup_insert_ne; [done|]. congruence.
  - intros b x [[<- <-]|[Hne Hx]]%lookup_insert_Some Ht; [rewrite Hta in Ht; by destruct Ht|]. by apply (A7 b x).
  - intros b Hb. destruct (A9 b Hb) as (t & x & Ht & Hx & E). exists t, x. rewrite lookup_insert_ne; [done|]. congruence.
  - intros b x v [[<- <-]|[Hne Hx]]%lookup_insert_Some Hv; [done|]. by apply (A11 b x v).
  - intros s Hs'. destruct (A12 s Hs') as [Hle Hv]. split; [lia|]. intros b x [[<- <-]|[Hne Hx]]%lookup_insert_Some E; [cbn in E; lia|]. by apply (Hv b).
Qed.

(** A source that is new. *)
Lemma async_source_ok ops w l s :
  async_ok ops [] w l -> states (cancel_ w) !! s = None ->
  async_ok (ops ++ [OpSource s]) [] (AsyncSystem (session_ w) (wait_map_ w) (awaiters w) (tokens w) (posted w) (wake_ w) (new_source (cancel_ w) s)) l.
Proof.
  intros Hw Hs. pose proof (async_more_ops _ (OpSource s) _ _ _ Hw) as [A1 A2 A3 A4 A5 A6 A7 A8 A9 A10 A11 A12 A13 A14].
  destruct (awaiting_source _ _ _ s A1 Hs) as [Hok Hreq].
  split; cbn; try done.
  - intros a Ha. destruct (A9 a Ha) as (t & x & Ht & Hx & E). exists t, x. by rewrite Hreq.
  - intros s' a t Ha Ht. rewrite Hreq. by apply (A10 s').
  - intros s'. rewrite Hreq. apply A14.
Qed.

(** The result of a coroutine that is resumed. *)
Definition outcome w (t : token) (x : awaiter V) : await_result V :=
  if is_cancellation_requested (cancel_ w) t then AwaitCanceled
  else match aw_value x with Some (Some v) => Returned v | Some None => Threw | None => NoValue end.

(** A coroutine taken out of the table and of the queue is resumed; [w0] is the
    state without it. *)
Lemma async_resume_of_ok ops w l a t x m q wk :
  async_ok ops [] w l -> tokens w !! a = Some t -> awaiters w !! a = Some x ->
  (forall s b, m !! s = Some b <-> wait_map_ w !! s = Some b /\ b <> a) ->
  (forall b, b ∈ wk <-> b ∈ wake_ w /\ b <> a) -> NoDup wk ->
  (forall s, s ∈ q -> s ∈ posted w) -> (forall s, s ∈ posted w -> s = aw_session x \/ s ∈ q) ->
  exists w', resume_of a (AsyncSystem (session_ w) m (awaiters w) (tokens w) q wk (cancel_ w)) = Some (w', [(a, outcome w t x)]) /\
    async_ok ops [] w' (without l a) /\ awaiters w' = delete a (awaiters w) /\ tokens w' = delete a (tokens w) /\
    wait_map_ w' = m /\ posted w' = q /\ wake_ w' = wk /\
    (forall t, is_cancellation_requested (cancel_ w') t = is_cancellation_requested (cancel_ w) t).
Proof.
  intros [A1 A2 A3 A4 A5 A6 A7 A8 A9 A10 A11 A12 A13 A14] Ht Hx Hm Hwk Hnd Hq Hq'.
  unfold resume_of. cbn. rewrite Ht. cbn. unfold await_resume. cbn. rewrite Hx. cbn.
  destruct (awaiting_reset _ l _ a A1) as (c & -> & Hc & Hst). cbn.
  assert (forall t, is_cancellation_requested c t = is_cancellation_requested (cancel_ w) t) as Hreq by (intros t'; by apply same_requested).
  eexists. split; [unfold outcome; by rewrite Hreq|]. split; [|done]. split; cbn.
  - done.
  - intros b. rewrite !lookup_delete_is_Some. intros [? ?]. split; [done|]. by apply A2.
  - done.
  - intros b y [_ Hy]%lookup_delete_Some. by apply (A4 b).
  - intros b b' y y' [_ Hy]%lookup_delete_Some [_ Hy']%lookup_delete_Some. by apply A5.
  - intros s b [Hb Hne]%Hm. destruct (A6 s b Hb) as (Hn & Htb & y & Hy & E).
    split; [by intros [? _]%Hwk|]. rewrite !lookup_delete_ne by done. split; [done|]. by exists y.
  - intros b y [Hne Hy]%lookup_delete_Some [_ Htb]%lookup_delete_is_Some. destruct (A7 b y Hy Htb) as [Hb|Hb].
    + left. apply Hm. split; [done|by apply not_eq_sym].
    + right. apply Hwk. split; [done|by apply not_eq_sym].
  - done.
  - intros b [Hb Hne]%Hwk. destruct (A9 b Hb) as (t' & y & Htb & Hy & E). exists t', y. rewrite !lookup_delete_ne by done. by rewrite Hreq.
  - intros s b t' [Hb Hne]%Hm [_ Htb]%lookup_delete_Some. rewrite Hreq. by apply (A10 s).
  - intros b y v [Hne Hy]%lookup_delete_Some Hv. destruct (A11 b y v Hy Hv) as [[Hp|[Hp|Hp]] Hin]; (split; [|done]); [..|by right; right].
    + left. destruct (Hq' _ Hp) as [E|?]; [|done]. destruct Hne. symmetry. by apply (A5 b a y x).
    + right; left. apply Hwk. split; [done|by apply not_eq_sym].
  - intros s Hs. destruct (A12 s (Hq s Hs)) as [Hle Hv]. split; [done|]. intros b y [_ Hy]%lookup_delete_Some. by apply (Hv b).
  - intros b t' [_ Htb]%lookup_delete_Some. by apply A13.
  - intros s. rewrite Hreq. apply A14.
Qed.

(** A posted function, or the next coroutine in the queue. *)
Lemma async_run_posted_ok ops w l :
  async_ok ops [] w l -> reached ops w ->
  match posted w with
  | [] => run_posted w = Some (w, [])
  | s :: rest =>
    (forall a x, awaiters w !! a = Some x -> aw_session x = s -> wait_map_ w !! s = Some a -> exists t w', tokens w !! a = Some t /\
       run_posted w = Some (w', [(a, outcome w t x)]) /\ aw_value x <> None /\ is_cancellation_requested (cancel_ w) t = false /\
       async_ok ops [] w' (without l a) /\ awaiters w' = delete a (awaiters w) /\ tokens w' = delete a (tokens w) /\
       wait_map_ w' = delete s (wait_map_ w) /\ posted w' = rest) /\
    (wait_map_ w !! s = None -> exists w', run_posted w = Some (w', []) /\ async_ok (ops ++ [OpPosted]) [] w' l /\ awaiters w' = awaiters w /\
       tokens w' = tokens w /\ wait_map_ w' = wait_map_ w /\ posted w' = rest)
  end.
Proof.
  intros Hw Hr. unfold run_posted. pose proof Hw as [A1 A2 A3 A4 A5 A6 A7 A8 A9 A10 A11 A12 A13 A14].
  destruct (posted w) as [|s rest] eqn:Ep; [done|]. split.
  - intros a x Hx Es Hm. cbn. rewrite Hm. destruct (A6 s a Hm) as (Hna & [t Ht] & _).
    destruct (A12 s (list_elem_of_here _ _)) as [_ Hv].
    destruct (async_resume_of_ok ops w l a t x (delete s (wait_map_ w)) rest (wake_ w) Hw Ht Hx) as (w' & E & Hok & Ea & Et & Em & Eq & _).
    + intros s' b. rewrite lookup_delete_Some. split.
      * intros [Hne Hb]. split; [done|]. intros ->. destruct (A6 s' a Hb) as (_ & _ & y & Hy & E). congruence.
      * intros [Hb Hne]. split; [|done]. intros ->. congruence.
    + intros b. split; [|by intros [? _]]. intros Hb. split; [done|]. by intros ->.
    + done.
    + intros s' Hs'. rewrite Ep. by apply list_elem_of_further.
    + intros s'. rewrite Ep, elem_of_cons, <- Es. tauto.
    + exists t, w'. split; [done|]. split; [done|]. split; [by apply (Hv a)|]. split; [|done].
      destruct (A10 s a t Hm Ht) as [?|[]%elem_of_nil]. done.
  - intros Hm. cbn. rewrite Hm. eexists. split; [done|]. split; [|done].
    clear A1 A2 A3 A4 A5 A6 A8 A9 A10 A11 A12 A13 A14.
    pose proof (async_more_ops _ OpPosted _ _ _ Hw) as [A1 A2 A3 A4 A5 A6 _ A8 A9 A10 A11 A12 A13 A14]. split; cbn; try done.
    + intros a x v Hx Hv. destruct (A11 a x v Hx Hv) as [[Hp|[?|?]] Hin]; (split; [|done]); [|by right; left|by right; right].
      rewrite Ep in Hp. apply elem_of_cons in Hp as [E|Hp]; [|by left]. right. destruct (tokens w !! a) as [t|] eqn:Ht.
      * left. destruct (A7 a x Hx) as [?|?]; [by rewrite Ht|congruence|done].
      * right. apply (missed_now _ w); [done|done|done|]. left. by rewrite Ep, E.
    + intros s' Hs'. apply A12. rewrite Ep. by apply list_elem_of_further.
Qed.

Lemma async_resume_ok ops w l :
  async_ok ops [] w l ->
  match wake_ w with
  | [] => resume w = Some (w, [])
  | a :: rest => exists t x w', tokens w !! a = Some t /\ awaiters w !! a = Some x /\ resume w = Some (w', [(a, outcome w t x)]) /\
      (aw_value x = None -> is_cancellation_requested (cancel_ w) t = true) /\
      async_ok ops [] w' (without l a) /\ awaiters w' = delete a (awaiters w)
  end.
Proof.
  intros Hw. unfold resume. pose proof Hw as [A1 A2 A3 A4 A5 A6 A7 A8 A9 A10 A11 A12 A13 A14].
  destruct (wake_ w) as [|a rest] eqn:Ew; [done|]. destruct (A9 a (list_elem_of_here _ _)) as (t & x & Ht & Hx & Hv).
  apply list.NoDup_cons in A8 as [Ha A8].
  assert (forall s b, wait_map_ w !! s = Some b -> b <> a) as Hna.
  { intros s b Hb ->. destruct (A6 s a Hb) as [Hn _]. apply Hn, list_elem_of_here. }
  destruct (async_resume_of_ok ops w l a t x (wait_map_ w) (posted w) rest Hw Ht Hx) as (w' & E & Hok & Ea & _).
  - intros s b. split; [|by intros [? _]]. intros Hb. split; [done|]. by apply (Hna s).
  - intros b. rewrite Ew, elem_of_cons. split; [|intros [[->|?] ?]; done]. intros Hb. split; [by right|]. by intros ->.
  - done.
  - done.
  - by right.
  - by exists t, x, w'.
Qed.

(** ** Waking up *)

(** A waiting coroutine goes from the table to the queue, with a value or
    without. *)
Definition taken w (a : nat) (x : awaiter V) (v : option (option V)) : async_system V :=
  AsyncSystem (session_ w) (delete (aw_session x) (wait_map_ w)) (<[a := Awaiter (aw_session x) v]> (awaiters w)) (tokens w)
    (posted w) (wake_ w ++ [a]) (cancel_ w).

Lemma async_taken_ok ops fired w l a x t v :
  async_ok ops (a :: fired) w l -> wait_map_ w !! aw_session x = Some a -> awaiters w !! a = Some x -> tokens w !! a = Some t ->
  (v = None -> aw_value x = None /\ is_cancellation_requested (cancel_ w) t = true) ->
  (forall v', v = Some v' -> exists on, OpFinish a v' on ∈ ops) -> async_ok ops fired (taken w a x v) l.
Proof.
  intros [A1 A2 A3 A4 A5 A6 A7 A8 A9 A10 A11 A12 A13 A14] Hm Hx Ht Hn Hv. destruct (A6 _ a Hm) as (Hna & _). split; cbn; try done.
  - intros b Hb. apply lookup_insert_is_Some'. right. by apply A2.
  - intros b y [[<- <-]|[_ Hy]]%lookup_insert_Some; [by apply (A4 a x)|by apply (A4 b y)].
  - intros b b' y y' [[<- <-]|[Hne Hy]]%lookup_insert_Some [[<- <-]|[Hne' Hy']]%lookup_insert_Some; cbn; [done|..]; by apply A5.
  - intros s b [Hs Hb]%lookup_delete_Some. destruct (A6 s b Hb) as (Hnb & Htb & y & Hy & E).
    assert (b <> a) as Hne by (intros ->; congruence). split; [|split; [done|exists y; by rewrite lookup_insert_ne by (by apply not_eq_sym)]].
    rewrite list.elem_of_app, list_elem_of_singleton. by intros [?|?].
  - intros b y [[<- <-]|[Hne Hy]]%lookup_insert_Some Htb; [right; apply list.elem_of_app; right; apply list_elem_of_here|].
    destruct (A7 b y Hy Htb) as [Hb|Hb]; [|right; apply list.elem_of_app; by left]. left. apply lookup_delete_Some. split; [|done].
    intros E. apply Hne. by apply (A5 a b x y).
  - apply list.NoDup_app. split; [done|]. split; [|apply NoDup_singleton]. intros b Hb ->%list_elem_of_singleton. done.
  - intros b [Hb| ->%list_elem_of_singleton]%list.elem_of_app.
    + destruct (A9 b Hb) as (t' & y & Htb & Hy & E). exists t', y. rewrite lookup_insert_ne; [done|]. by intros <-.
    + exists t, (Awaiter (aw_session x) v). rewrite lookup_insert_eq. split; [done|]. split; [done|]. cbn. intros E. by apply Hn.
  - intros s b t' [Hs Hb]%lookup_delete_Some Htb. destruct (A10 s b t' Hb Htb) as [?|[->|?]%elem_of_cons]; [by left| |by right].
    destruct (A6 s a Hb) as (_ & _ & y & Hy & E). congruence.
  - intros b y v' [[<- <-]|[Hne Hy]]%lookup_insert_Some Hv'; cbn in *.
    + split; [right; left; apply list.elem_of_app; right; apply list_elem_of_here|by apply Hv].
    + destruct (A11 b y v' Hy Hv') as [[?|[?|?]] Hin]; (split; [|done]); [by left| |by right; right].
      right; left. apply list.elem_of_app. by left.
  - intros s Hs. destruct (A12 s Hs) as [Hle Hv']. split; [done|]. intros b y [[<- <-]|[Hne Hy]]%lookup_insert_Some; cbn; [|by apply (Hv' b)].
    intros E. destruct v; [done|]. destruct (Hn eq_refl) as [Hxv _]. by destruct (Hv' a x Hx E).
Qed.

Lemma async_callbacks_ok fired : forall ops w l,
  async_ok ops fired w l ->
  (forall a, a ∈ fired -> exists t, tokens w !! a = Some t /\ is_cancellation_requested (cancel_ w) t = true) ->
  exists w', run_callbacks fired w = Some w' /\ async_ok ops [] w' l /\ awaiters w' = awaiters w.
Proof.
  induction fired as [|a fired IH]; intros ops w l Hw Hf; cbn [run_callbacks]; [by exists w|].
  destruct (Hf a (list_elem_of_here _ _)) as (t & Ht & Hr). pose proof (ak_dom _ _ _ _ Hw a) as [x Hx]; [by eexists|]. rewrite Hx. cbn.
  assert (exists w1, wake_up_session (aw_session x) w = w1 /\ async_ok ops fired w1 l /\ awaiters w1 = awaiters w /\
    tokens w1 = tokens w /\ cancel_ w1 = cancel_ w) as (w1 & -> & Hw1 & Ea & Et & Ec).
  { eexists. split; [done|]. unfold wake_up_session. destruct (wait_map_ w !! aw_session x) as [b|] eqn:Hm.
    - destruct (ak_map _ _ _ _ Hw _ b Hm) as (_ & _ & y & Hy & E). assert (b = a) as -> by by apply (ak_distinct _ _ _ _ Hw b a y x).
      split; [|done]. pose proof (async_taken_ok ops fired w l a x t (aw_value x) Hw Hm Hx Ht) as Hk. unfold taken in Hk.
      rewrite insert_id in Hk by (rewrite Hx; by destruct x). apply Hk; [done|]. intros v'. by apply (ak_value _ _ _ _ Hw a x).
    - split; [|done]. destruct Hw as [A1 A2 A3 A4 A5 A6 A7 A8 A9 A10 A11 A12 A13 A14]. split; try done.
      intros s b t' Hb Htb. destruct (A10 s b t' Hb Htb) as [?|[->|?]%elem_of_cons]; [by left| |by right].
      destruct (A6 s a Hb) as (_ & _ & y & Hy & E). congruence. }
  destruct (IH ops w1 l Hw1) as (w' & -> & Hw' & Ea'); [|exists w'; split; [done|]; split; [done|]; congruence].
  intros b Hb. rewrite Et, Ec. apply Hf. by apply list_elem_of_further.
Qed.

Lemma async_cancel_ok ops w l s :
  async_ok ops [] w l -> is_Some (states (cancel_ w) !! s) ->
  exists w', cancel s w = Some w' /\ async_ok (ops ++ [OpCancel s]) [] w' (with_list l s []) /\ awaiters w' = awaiters w.
Proof.
  intros Hw Hs. pose proof (async_more_ops _ (OpCancel s) _ _ _ Hw) as [A1 A2 A3 A4 A5 A6 A7 A8 A9 A10 A11 A12 A13 A14].
  destruct (awaiting_cancel _ _ _ s A1 Hs) as (c & E & Hc & Hreq & Hst). unfold cancel. rewrite E. cbn. set (w1 := AsyncSystem _ _ _ _ _ _ c).
  destruct (async_callbacks_ok (l s) (ops ++ [OpCancel s]) w1 (with_list l s [])) as (w' & -> & Hw' & Ea); [| |by exists w'].
  2: { intros a Ha. exists (Some s). unfold w1. cbn. by rewrite (aw_token _ _ _ A1 a s Ha), Hreq, bool_decide_true. }
  split; cbn; try done.
  - intros a Ha. destruct (A9 a Ha) as (t & x & Ht & Hx & Hv). exists t, x. split; [done|]. split; [done|]. intros En. rewrite Hreq, (Hv En). apply orb_true_r.
  - intros s' a t Ha Ht. rewrite Hreq. destruct (A10 s' a t Ha Ht) as [Hr|[]%elem_of_nil]. destruct (bool_decide_reflect (t = Some s)) as [->|Hne]; [|by left].
    right. by apply (aw_all _ _ _ A1).
  - intros s'. rewrite Hreq. intros [Es%bool_decide_eq_true|Hr]%orb_true_iff; [|by apply A14]. injection Es as ->.
    apply list.elem_of_app. right. apply list_elem_of_here.
Qed.

(** ** Awaiting *)

(** An awaiter whose coroutine is not suspended goes. *)
Lemma drop_awaiter_ok ops w l a :
  async_ok ops [] w l -> tokens w !! a = None ->
  async_ok ops [] (AsyncSystem (session_ w) (wait_map_ w) (delete a (awaiters w)) (tokens w) (posted w) (wake_ w) (cancel_ w)) l.
Proof.
  intros [A1 A2 A3 A4 A5 A6 A7 A8 A9 A10 A11 A12 A13 A14] Ha.
  assert (forall b, is_Some (tokens w !! b) -> a <> b) as Hne by (intros b [? ?] ->; congruence).
  split; cbn; try done.
  - intros b Hb. apply lookup_delete_is_Some. split; [by apply Hne|by apply A2].
  - intros b y [_ Hy]%lookup_delete_Some. by apply (A4 b).
  - intros b b' y y' [_ Hy]%lookup_delete_Some [_ Hy']%lookup_delete_Some. by apply A5.
  - intros s b Hb. destruct (A6 s b Hb) as (? & Ht & y & Hy & E). split; [done|]. split; [done|]. exists y. by rewrite lookup_delete_ne by (by apply Hne).
  - intros b y [_ Hy]%lookup_delete_Some. by apply A7.
  - intros b Hb. destruct (A9 b Hb) as (t & y & Ht & Hy & E). exists t, y. rewrite lookup_delete_ne; [done|]. apply Hne. by eexists.
  - intros b y v [_ Hy]%lookup_delete_Some. by apply A11.
  - intros s Hs. destruct (A12 s Hs) as [Hle Hv]. split; [done|]. intros b y [_ Hy]%lookup_delete_Some. by apply (Hv b).
Qed.

Lemma async_await_ok ops w l a t :
  async_ok ops [] w l -> legal w (OpAwait a t) ->
  exists w' out l', await a t w = Some (w', out) /\ async_ok (ops ++ [OpAwait a t]) [] w' l' /\
    (if is_cancellation_requested (cancel_ w) t then out = [(a, AwaitCanceled)] /\ awaiters w' = delete a (awaiters w)
     else out = [] /\ awaiters w' = awaiters w).
Proof.
  intros Hw ([x Hx] & Ha & Ht). pose proof (async_more_ops _ (OpAwait a t) _ _ _ Hw) as Hw'.
  unfold await. rewrite Hx. cbn. destruct (is_cancellation_requested (cancel_ w) t) eqn:Hr.
  - unfold await_resume. rewrite Hx. cbn.
    assert (reg_state_ (cancel_ w) !! a = None) as Hreg.
    { destruct (reg_state_ (cancel_ w) !! a) eqn:E; [|done]. destruct (aw_reg _ _ _ (ak_await _ _ _ _ Hw) a) as [? ?]; [by rewrite E|congruence]. }
    unfold reset_registration. rewrite Hreg. cbn. rewrite Hr, (delete_id (tokens w)) by done.
    eexists _, _, l. split; [done|]. split; [|done]. by apply drop_awaiter_ok.
  - pose proof Hw' as [A1 A2 A3 A4 A5 A6 A7 A8 A9 A10 A11 A12 A13 A14].
    destruct (awaiting_start _ _ _ a t A1 Ha Ht) as (c & -> & Hok & Hst). cbn. eexists _, _, _. split; [done|]. split; [|done].
    assert (forall b, is_Some (tokens w !! b) -> b <> a) as Hne by (intros b [? ?] ->; congruence).
    assert (forall t', is_cancellation_requested c t' = is_cancellation_requested (cancel_ w) t') as Hreq by (intros t'; by apply same_requested).
    assert (a ∉ wake_ w) as Hnw by (intros (t' & y & ? & _)%A9; congruence).
    assert (insert_session (aw_session x) a (wait_map_ w) = <[aw_session x := a]> (wait_map_ w)) as ->.
    { unfold insert_session. destruct (wait_map_ w !! aw_session x) as [b|] eqn:E; [|done]. destruct (A6 _ b E) as (_ & Htb & y & Hy & Ey).
      destruct (Hne b Htb). by apply (A5 b a y x). }
    split; cbn; try done.
    + intros b [->|Hb]%lookup_insert_is_Some'; [by eexists|by apply A2].
    + intros s b [[<- <-]|[Hs Hb]]%lookup_insert_Some; [split; [done|split; [rewrite lookup_insert_eq; by eexists|by exists x]]|].
      destruct (A6 s b Hb) as (? & Htb & Hy). split; [done|]. split; [|done]. apply lookup_insert_is_Some'. by right.
    + intros b y Hy Htb. destruct (decide (b = a)) as [->|Hba].
      * left. assert (y = x) as -> by congruence. apply lookup_insert_eq.
      * rewrite lookup_insert_ne in Htb by (by apply not_eq_sym). destruct (A7 b y Hy Htb) as [Hb|?]; [|by right]. left.
        rewrite lookup_insert_ne; [done|]. intros E. apply Hba. symmetry. by apply (A5 a b x y).
    + intros b Hb. destruct (A9 b Hb) as (t' & y & Htb & Hy & E). exists t', y. rewrite Hreq, lookup_insert_ne; [done|]. congruence.
    + intros s b t' Hb Htb. rewrite Hreq. apply lookup_insert_Some in Htb as [[<- <-]|[Hne' Htb]]; [by left|].
      apply lookup_insert_Some in Hb as [[_ ->]|[_ Hb]]; [done|]. by apply (A10 s b).
    + intros b t' [[<- <-]|[_ Htb]]%lookup_insert_Some; [apply list.elem_of_app; right; apply list_elem_of_here|by apply A13].
    + intros s. rewrite Hreq. apply A14.
Qed.

(** ** Results *)

(** A value is stored; the function that will find the coroutine is posted, or
    the coroutine is queued already. *)
Lemma async_stored_ok ops w l a x v q :
  async_ok ops [] w l -> awaiters w !! a = Some x -> (exists on, OpFinish a v on ∈ ops) -> (forall s, s ∈ q -> s = aw_session x) ->
  aw_session x ∈ posted w ++ q \/ a ∈ wake_ w \/ missed ops a (aw_session x) ->
  async_ok ops [] (AsyncSystem (session_ w) (wait_map_ w) (<[a := Awaiter (aw_session x) (Some v)]> (awaiters w)) (tokens w)
    (posted w ++ q) (wake_ w) (cancel_ w)) l.
Proof.
  intros [A1 A2 A3 A4 A5 A6 A7 A8 A9 A10 A11 A12 A13 A14] Hx Hin Hq Hp. split; cbn; try done.
  - intros b Hb. apply lookup_insert_is_Some'. right. by apply A2.
  - intros b y [[<- <-]|[_ Hy]]%lookup_insert_Some; [by apply (A4 a x)|by apply (A4 b y)].
  - intros b b' y y' [[<- <-]|[Hne Hy]]%lookup_insert_Some [[<- <-]|[Hne' Hy']]%lookup_insert_Some; cbn; [done|..]; by apply A5.
  - intros s b Hb. destruct (A6 s b Hb) as (Hnb & Htb & y & Hy & E). split; [done|]. split; [done|].
    destruct (decide (a = b)) as [<-|Hne]; [exists (Awaiter (aw_session x) (Some v)); rewrite lookup_insert_eq; split; [done|]; cbn; congruence|].
    exists y. by rewrite lookup_insert_ne.
  - intros b y [[<- <-]|[Hne Hy]]%lookup_insert_Some Htb; [by apply (A7 a x)|by apply A7].
  - intros b Hb. destruct (A9 b Hb) as (t' & y & Htb & Hy & E). destruct (decide (b = a)) as [->|Hne].
    { exists t', (Awaiter (aw_session x) (Some v)). by rewrite lookup_insert_eq. }
    exists t', y. by rewrite lookup_insert_ne by (by apply not_eq_sym).
  - intros b y v' [[<- <-]|[Hne Hy]]%lookup_insert_Some Hv'; [by injection Hv' as <-|].
    destruct (A11 b y v' Hy Hv') as [[?|?] Hi]; (split; [|done]); [left; apply list.elem_of_app; by left|by right].
  - intros s [Hs| ->%Hq]%list.elem_of_app.
    + destruct (A12 s Hs) as [Hle Hv']. split; [done|]. intros b y [[<- <-]|[Hne Hy]]%lookup_insert_Some; [done|by apply (Hv' b)].
    + split; [by apply (A4 a x)|]. intros b y [[<- <-]|[Hne Hy]]%lookup_insert_Some; [done|]. intros E. destruct Hne. by apply (A5 a b x y).
Qed.

Lemma async_set_result_ok ops w l a v on :
  async_ok ops [] w l -> reached ops w -> legal w (OpFinish a v on) ->
  async_ok (ops ++ [OpFinish a v on]) [] (set_result a v on w) l /\ dom (awaiters (set_result a v on w)) = dom (awaiters w).
Proof.
  intros Hw Hrun Hleg. pose proof (async_more_ops _ (OpFinish a v on) _ _ _ Hw) as Hw'. unfold set_result.
  destruct (awaiters w !! a) as [x|] eqn:Hx; [|done]. pose proof (Hleg x Hx) as Hv.
  assert (OpFinish a v on ∈ ops ++ [OpFinish a v on]) as Hin by (apply list.elem_of_app; right; apply list_elem_of_here).
  assert (dom (<[a := Awaiter (aw_session x) (Some v)]> (awaiters w)) = dom (awaiters w)) as Hdom.
  { rewrite dom_insert_L. apply subseteq_union_1_L, singleton_subseteq_l, elem_of_dom. by eexists. }
  destruct on.
  - unfold wake_up_session. cbn. destruct (wait_map_ w !! aw_session x) as [b|] eqn:Hm; (split; [|done]).
    + destruct (ak_map _ _ _ _ Hw' _ b Hm) as (_ & [t Htt] & y & Hy & E). assert (b = a) as -> by by apply (ak_distinct _ _ _ _ Hw' b a y x).
      apply (async_taken_ok _ [] w l a x t (Some v)); [|done..|by intros v' [= <-]; exists true].
      destruct Hw' as [A1 A2 A3 A4 A5 A6 A7 A8 A9 A10 A11 A12 A13 A14]. split; try done.
      intros s c t' Hc Htc. destruct (A10 s c t' Hc Htc) as [?|[]%elem_of_nil]. by left.
    + assert (a ∈ wake_ w \/ missed (ops ++ [OpFinish a v true]) a (aw_session x)) as Haw.
      { destruct (tokens w !! a) as [t|] eqn:Ht; [|right; apply (missed_now _ w); eauto].
        left. destruct (ak_place _ _ _ _ Hw' a x Hx) as [?|?]; [by rewrite Ht|congruence|done]. }
      pose proof (async_stored_ok _ w l a x v [] Hw' Hx (ex_intro _ true Hin)) as Hs. rewrite app_nil_r in Hs. apply Hs; [by intros s ?%elem_of_nil|by right].
  - split; [|done]. apply (async_stored_ok _ w l a x v [aw_session x] Hw' Hx (ex_intro _ false Hin)).
    + by intros s ->%list_elem_of_singleton.
    + left. apply list.elem_of_app. right. apply list_elem_of_here.
Qed.

(** ** Runs *)

Definition results_of (a : nat) (out : list (nat * await_result V)) : nat := length (filter (fun r => r.1 = a) out).

Definition creates_of (a : nat) ops : nat :=
  length (filter (fun op => match op with OpCreate b => Some b | _ => None end = Some a) ops).

Definition live w (a : nat) : nat := match awaiters w !! a with Some _ => 1 | None => 0 end.

Lemma async_results_of_one a b r : results_of a [(b, r)] = if decide (b = a) then 1%nat else 0%nat.
Proof. unfold results_of. cbn. by destruct (decide (b = a)). Qed.

Lemma async_live_delete w w' a b r : is_Some (awaiters w !! a) -> awaiters w' = delete a (awaiters w) -> (results_of b [(a, r)] + live w' b)%nat = live w b.
Proof.
  intros [t Ht] E. rewrite async_results_of_one. unfold live. rewrite E. destruct (decide (a = b)) as [<-|Hne]; [by rewrite lookup_delete_eq, Ht|].
  by rewrite lookup_delete_ne.
Qed.

Lemma live_dom w w' : dom (awaiters w') = dom (awaiters w) -> forall a, live w' a = live w a.
Proof.
  intros E a. unfold live. assert (is_Some (awaiters w' !! a) <-> is_Some (awaiters w !! a)) as Hs by (by rewrite <- !elem_of_dom, E).
  destruct (awaiters w' !! a), (awaiters w !! a); try done; [destruct Hs as [Hs _]|destruct Hs as [_ Hs]]; by destruct (Hs ltac:(by eexists)).
Qed.

(** Why a coroutine ended as it did. *)
Definition justified ops (r : nat * await_result V) : Prop :=
  match r.2 with
  | Returned v => exists on, OpFinish r.1 (Some v) on ∈ ops
  | Threw => exists on, OpFinish r.1 None on ∈ ops
  | AwaitCanceled => exists s, OpAwait r.1 (Some s) ∈ ops /\ OpCancel s ∈ ops
  | NoValue => False
  end.

Lemma async_justified_more ops ops' r : justified ops r -> justified (ops ++ ops') r.
Proof.
  unfold justified. destruct r.2.
  - intros [on H]. exists on. apply list.elem_of_app. by left.
  - intros [on H]. exists on. apply list.elem_of_app. by left.
  - intros (s & H1 & H2). exists s. split; apply list.elem_of_app; by left.
  - done.
Qed.

Lemma outcome_justified ops w l a t x :
  async_ok ops [] w l -> tokens w !! a = Some t -> awaiters w !! a = Some x ->
  (aw_value x = None -> is_cancellation_requested (cancel_ w) t = true) -> justified ops (a, outcome w t x).
Proof.
  intros Hw Ht Hx Hv. unfold outcome, justified. cbn. destruct (is_cancellation_requested (cancel_ w) t) eqn:Hr.
  - destruct t as [s|]; [|done]. exists s. split; [by apply (ak_token _ _ _ _ Hw)|by apply (ak_source _ _ _ _ Hw)].
  - destruct (aw_value x) as [[v|]|] eqn:E; [..|by specialize (Hv eq_refl)].
    + by destruct (ak_value _ _ _ _ Hw a x _ Hx E) as [_ ?].
    + by destruct (ak_value _ _ _ _ Hw a x _ Hx E) as [_ ?].
Qed.

Lemma async_step_ok ops w l op :
  async_ok ops [] w l -> reached ops w -> legal w op ->
  exists w' out l', async_step op w = Some (w', out) /\ async_ok (ops ++ [op]) [] w' l' /\
    (forall a, (results_of a out + live w' a = creates_of a [op] + live w a)%nat) /\ (forall r, r ∈ out -> justified (ops ++ [op]) r).
Proof.
  intros Hw Hrun Hop. assert (forall r, r ∈ [] -> justified (ops ++ [op]) r) as Hnil by (intros r []%elem_of_nil).
  destruct op as [s|a|a t|a v on| |s|]; cbn [async_step].
  - eexists _, [], l. split; [done|]. split; [by apply async_source_ok|]. done.
  - eexists _, [], l. split; [done|]. split; [by apply async_create_ok|]. split; [|done]. intros b. destruct Hop as [Ha _].
    unfold creates_of, live, create. cbn. destruct (decide (a = b)) as [->|Hne].
    + by rewrite decide_True, lookup_insert_eq, Ha.
    + by rewrite decide_False, lookup_insert_ne by congruence.
  - destruct (async_await_ok ops w l a t Hw Hop) as (w' & out & l' & E & Hw' & Hcase). exists w', out, l'. split; [done|]. split; [done|].
    destruct Hop as (Hx & _). destruct (is_cancellation_requested (cancel_ w) t) eqn:Hr.
    + destruct Hcase as [-> Ea]. split; [intros b; by apply async_live_delete|]. intros r ->%list_elem_of_singleton.
      destruct t as [s|]; [|done]. exists s. split; [apply list.elem_of_app; right; apply list_elem_of_here|].
      apply list.elem_of_app. left. by apply (ak_source _ _ _ _ Hw).
    + destruct Hcase as [-> Ea]. split; [|done]. intros b. apply live_dom. by rewrite Ea.
  - destruct (async_set_result_ok ops w l a v on Hw Hrun Hop) as [Hw' Hd]. eexists _, [], l. split; [done|]. split; [done|]. split; [|done].
    intros b. by apply live_dom.
  - pose proof (async_run_posted_ok ops w l Hw Hrun) as Hp. destruct (posted w) as [|s rest] eqn:Ep.
    + rewrite Hp. eexists _, [], l. split; [done|]. split; [by apply async_more_ops|]. done.
    + destruct Hp as [Hp1 Hp2]. destruct (wait_map_ w !! s) as [a|] eqn:Hm.
      * destruct (ak_map _ _ _ _ Hw s a Hm) as (_ & _ & x & Hx & Es). destruct (Hp1 a x Hx Es eq_refl) as (t & w' & Ht & -> & Hv & _ & Hw' & Ea & _).
        eexists _, _, _. split; [done|]. split; [by apply async_more_ops|]. split; [intros b; apply async_live_delete; [by eexists|done]|].
        intros r ->%list_elem_of_singleton. apply async_justified_more. by apply (outcome_justified ops w l).
      * destruct (Hp2 eq_refl) as (w' & -> & Hw' & Ea & _). eexists _, [], l. split; [done|]. split; [done|]. split; [|done].
        intros b. apply live_dom. by rewrite Ea.
  - destruct (async_cancel_ok ops w l s Hw Hop) as (w' & -> & Hw' & Ea). cbn. eexists _, [], _. split; [done|]. split; [done|]. split; [|done].
    intros b. apply live_dom. by rewrite Ea.
  - pose proof (async_resume_ok _ _ _ Hw) as Hf. destruct (wake_ w) as [|a rest].
    + rewrite Hf. eexists _, [], l. split; [done|]. split; [by apply async_more_ops|]. done.
    + destruct Hf as (t & x & w' & Ht & Hx & -> & Hv & Hw' & Ea). eexists _, _, _. split; [done|]. split; [by apply async_more_ops|]. split.
      * intros b. apply async_live_delete; [by eexists|done].
      * intros r ->%list_elem_of_singleton. apply async_justified_more. by apply (outcome_justified ops w l).
Qed.

Lemma async_run_snoc ops op w : async_run (ops ++ [op]) w =
  ('(w, out) ← async_run ops w; '(w, out') ← async_step op w; Some (w, out ++ out')).
Proof.
  revert w. induction ops as [|o ops IH]; intros w; cbn [app async_run].
  - cbn. destruct (async_step op w) as [[w1 out1]|]; cbn; by rewrite ?app_nil_r.
  - destruct (async_step o w) as [[w1 out1]|]; [|done]. cbn [mbind option_bind]. rewrite IH.
    destruct (async_run ops w1) as [[w2 out2]|]; [|done]. cbn.
    destruct (async_step op w2) as [[w3 out3]|]; [|done]. cbn. by rewrite (assoc_L (++)).
Qed.

Lemma reached_step ops w op w' out : reached ops w -> async_step op w = Some (w', out) -> reached (ops ++ [op]) w'.
Proof. intros [o Hr] E. exists (o ++ out). rewrite async_run_snoc, Hr. cbn [mbind option_bind]. by rewrite E. Qed.

Lemma async_run_ok ops : forall ops0 w l,
  async_ok ops0 [] w l -> reached ops0 w -> legal_run w ops ->
  exists w' out l', async_run ops w = Some (w', out) /\ async_ok (ops0 ++ ops) [] w' l' /\ reached (ops0 ++ ops) w' /\
    (forall a, (results_of a out + live w' a = creates_of a ops + live w a)%nat) /\ (forall r, r ∈ out -> justified (ops0 ++ ops) r).
Proof.
  induction ops as [|op ops IH]; intros ops0 w l Hw Hr Hl; cbn [async_run legal_run] in *.
  - exists w, [], l. rewrite app_nil_r. split; [done|]. split; [done|]. split; [done|]. split; [done|]. intros r []%elem_of_nil.
  - destruct Hl as [Hop Hl]. destruct (async_step_ok ops0 w l op Hw Hr Hop) as (w1 & out1 & l1 & E & Hw1 & Hc1 & Hj1). rewrite E in *.
    destruct (IH _ w1 l1 Hw1 (reached_step _ _ _ _ _ Hr E) Hl) as (w' & out & l' & E' & Hw' & Hr' & Hc & Hj). cbn [mbind option_bind]. rewrite E'. cbn [mbind option_bind].
    rewrite <- (app_assoc (A := async_op V)) in Hw', Hr', Hj. exists w', (out1 ++ out), l'. split; [done|]. split; [done|]. split; [done|]. split.
    + intros a. specialize (Hc1 a). specialize (Hc a). unfold results_of, creates_of in *. change (op :: ops) with ([op] ++ ops).
      rewrite !list.filter_app, !length_app. lia.
    + intros r [Hin|Hin]%list.elem_of_app; [|by apply Hj]. change (op :: ops) with ([op] ++ ops). rewrite (app_assoc (A := async_op V)).
      by apply async_justified_more, Hj1.
Qed.

(** ** Delivery *)





(** * Properties *)

(** In whatever order coroutines create and await sessions, jobs finish on
    any thread, tokens are cancelled and the scheduler runs what is posted and
    queued, nothing touches an awaiter that is gone and every session ends once
    or goes on; it returns the value of its own job, throws the exception of its
    own job, or throws because the source of its token was cancelled, and never
    reads a value that is not there. *)
Theorem sessions_end_once ops :
  legal_run system_new ops ->
  exists w out, async_run ops system_new = Some (w, out) /\
    (forall a, (results_of a out + live w a)%nat = creates_of a ops) /\ (forall r, r ∈ out -> justified ops r).
Proof.
  intros Hl. destruct (async_run_ok ops [] _ _ system_new_ok (ex_intro _ [] eq_refl) Hl) as (w & out & l & E & _ & _ & Hc & Hj).
  exists w, out. split; [done|]. split; [|done]. intros a. rewrite (Hc a). unfold live. cbn. rewrite lookup_empty. lia.
Qed.

End theory.

(** Three coroutines: the jobs of the first two finish in the opposite order,
    the third is cancelled. *)
Definition demo_ops : list (async_op Z) :=
  [OpSource 0; OpCreate 1; OpAwait 1 None; OpCreate 2; OpAwait 2 None; OpCreate 3; OpAwait 3 (Some 0%nat);
   OpFinish 2 (Some 22) false; OpFinish 1 None false].

Ltac legal_demo :=
  vm_compute; repeat match goal with
    | |- _ /\ _ => split
    | |- forall s, Some _ = Some s -> _ => intros s E; injection E as <-
    | |- forall s, None = Some s -> _ => intros s E; discriminate E
    | |- forall x, Some _ = Some x -> _ => intros x E; injection E as <-
    | |- false = true -> _ => intros E; discriminate E
    | |- is_Some _ => eexists; reflexivity
    | |- ex _ => eexists; reflexivity
    end; try reflexivity; try exact I.

Lemma async_demo_legal : legal_run system_new demo_ops.
Proof. legal_demo. Qed.

Lemma sessions_end_once_witness :
  exists w out, async_run demo_ops system_new = Some (w, out) /\
    (forall a, (results_of a out + live w a)%nat = creates_of a demo_ops) /\ (forall r, r ∈ out -> justified demo_ops r).
Proof. exact (sessions_end_once demo_ops async_demo_legal). Defined.



(** A coroutine that does something else between creating a session and
    awaiting it may find the job finished and its posted function run: it is
    then never resumed. *)
Example early_result_lost :
  (fun r => (r.2, posted r.1, wake_ r.1, wait_map_ r.1 !! 1)) <$>
    async_run [OpCreate 1; OpFinish 1 (Some 5) false; OpPosted; OpAwait 1 None; OpPosted; OpResume] system_new =
  Some ([], [], [], Some 1%nat).
Proof. vm_compute. reflexivity. Qed.
