(* ===== verification/SocketSystem.v ===== *)
(** The numbers of the sockets: include/simple/net/socket_types.h and
    [new_socket_id] of src/net/socket_system.cpp. A number has the protocol and
    the class of its socket in the lower four bits and a counter in the others;
    the counter wraps around, so a number that is still in the table of open
    sockets is passed over. *)

From Stdlib Require Import String.
From stdpp Require Import gmap.
From S2P Require Import Prelude Network.

#[local] Open Scope Z_scope.

(** * Types of sockets *)

Inductive socket_protocol := tcp | ssl | kcp.
Inductive socket_class := server | session | client.

#[export] Instance socket_protocol_dec : EqDecision socket_protocol.
Proof. solve_decision. Defined.

#[export] Instance socket_class_dec : EqDecision socket_class.
Proof. solve_decision. Defined.

Definition socket_protocol_mask : Z := 3.

Definition protocol_value (p : socket_protocol) : Z :=
  match p with tcp => 0 | ssl => 1 | kcp => 2 end.

Definition class_value (c : socket_class) : Z :=
  match c with server => 1 | session => 2 | client => 3 end.

(** [socket_type]: an enumerator is the number [protocol << 2 | class]. *)
Definition socket_type : Type := socket_protocol * socket_class.

Definition type_value (tp : socket_type) : Z :=
  Z.lor (Z.shiftl (protocol_value tp.1) 2) (class_value tp.2).

Definition all_types : list socket_type :=
  p ← [tcp; ssl; kcp]; c ← [server; session; client]; [(p, c)].

Definition socket_type_mask : Z := Z.lor (Z.shiftl socket_protocol_mask 2) socket_class_mask.

Definition get_socket_type (id : Z) : Z := Z.land id socket_type_mask.

Definition get_socket_protocol (id : Z) : Z := Z.land (Z.shiftr id 2) socket_protocol_mask.

#[local] Open Scope string_scope.

Definition type_name (tp : socket_type) : string :=
  match tp.1, tp.2 with
  | tcp, server => "tcp_server" | tcp, session => "tcp_session" | tcp, client => "tcp_client"
  | ssl, server => "ssl_server" | ssl, session => "ssl_session" | ssl, client => "ssl_client"
  | kcp, server => "kcp_server" | kcp, session => "kcp_session" | kcp, client => "kcp_client"
  end.

(** [get_socket_type_strv] of a number, which need not be an enumerator. *)
Definition get_socket_type_strv (v : Z) : string :=
  match list_find (fun tp => type_value tp = v) all_types with
  | Some (_, tp) => type_name tp
  | None => "unknown"
  end.

#[local] Close Scope string_scope.

(** * [new_socket_id]

    [socket_ids_] has a 32-bit counter per type; [sockets_] are the numbers in
    the table. A counter is used by one thread only: those of the sessions by
    the socket thread, the others by the threads that listen and connect. *)

Definition id_of (count temp : Z) : Z := Z.lor (u32 (Z.shiftl count 4)) temp.

(** [fetch_add(1)]: the old value. *)
Definition fetch_add (ids : list Z) (temp : Z) : option (Z * list Z) :=
  c ← znth ids temp; ids ← zset ids temp (u32 (c + 1)); Some (c, ids).

Fixpoint search_id (fuel : nat) (sockets : gset Z) (ids : list Z) (temp : Z) : option (Z * list Z) :=
  match fuel with
  | O => None
  | S fuel =>
      '(c, ids) ← fetch_add ids temp;
      let id := id_of c temp in
      if decide (id ∈ sockets) then search_id fuel sockets ids temp else Some (id, ids)
  end.

(** [temp] is any 32-bit number in the signature; a type that does not fit in
    the mask gets no number. *)
Definition new_socket_id (sockets : gset Z) (ids : list Z) (temp : Z) : option (Z * list Z) :=
  if socket_type_mask <? temp then Some (0, ids) else search_id (S (size sockets)) sockets ids temp.

Definition ids_new : list Z := zrep 16 0.

(** One number after the other, with the table as it is at each call. *)
Fixpoint new_socket_ids (tables : list (gset Z)) (ids : list Z) (temp : Z) : option (list Z * list Z) :=
  match tables with
  | [] => Some ([], ids)
  | t :: tables =>
      '(id, ids) ← new_socket_id t ids temp; '(l, ids) ← new_socket_ids tables ids temp; Some (id :: l, ids)
  end.

(** * Numbers and their parts *)

Lemma id_of_value c temp : 0 <= temp < 16 -> id_of c temp = (c mod 2 ^ 28) * 2 ^ 4 + temp.
Proof.
  intros Ht. unfold id_of. rewrite Z.shiftl_mul_pow2 by lia.
  replace (u32 (c * 2 ^ 4)) with (c mod 2 ^ 28 * 2 ^ 4) by (unfold u32; divlia). by apply lor_mul_pow2.
Qed.

Lemma id_of_range c temp : 0 <= temp < 16 -> is_u32 (id_of c temp).
Proof. intros Ht. rewrite id_of_value by done. unfold is_u32. divlia. Qed.

Lemma id_of_inj c1 c2 temp :
  0 <= temp < 16 -> id_of c1 temp = id_of c2 temp -> c1 mod 2 ^ 28 = c2 mod 2 ^ 28.
Proof. intros Ht. rewrite !id_of_value by done. lia. Qed.

Lemma id_of_u32 c temp : 0 <= temp < 16 -> id_of (u32 c) temp = id_of c temp.
Proof. intros Ht. rewrite !id_of_value by done. unfold u32. divlia. Qed.

Lemma type_value_range tp : 0 < type_value tp < 16.
Proof. by destruct tp as [[] []]. Qed.

(** The low bits of a number are those of its type. *)
Lemma id_low c tp n : 0 <= n <= 4 -> id_of c (type_value tp) mod 2 ^ n = type_value tp mod 2 ^ n.
Proof.
  intros Hn. pose proof (type_value_range tp). rewrite id_of_value by lia.
  replace 4 with (4 - n + n) by lia. by rewrite Z.pow_add_r, Z.mul_assoc, Z.add_comm, Z_mod_plus_full by lia.
Qed.

Lemma id_type c tp : get_socket_type (id_of c (type_value tp)) = type_value tp.
Proof.
  unfold get_socket_type. change socket_type_mask with (Z.ones 4). rewrite Z.land_ones, id_low by lia.
  by destruct tp as [[] []].
Qed.

Lemma id_class c tp : get_socket_class (id_of c (type_value tp)) = class_value tp.2.
Proof.
  unfold get_socket_class. change socket_class_mask with (Z.ones 2). rewrite Z.land_ones, id_low by lia.
  by destruct tp as [[] []].
Qed.

Lemma id_protocol c tp : get_socket_protocol (id_of c (type_value tp)) = protocol_value tp.1.
Proof.
  assert (forall id, get_socket_protocol id = get_socket_protocol (get_socket_type id)) as ->.
  { intros id. unfold get_socket_protocol, get_socket_type. by rewrite Z.shiftr_land, <- Z.land_assoc. }
  rewrite id_type. by destruct tp as [[] []].
Qed.

Lemma id_not_zero c tp : id_of c (type_value tp) <> 0.
Proof. pose proof (type_value_range tp). rewrite id_of_value by lia. pose proof (Z.mod_pos_bound c (2 ^ 28)). lia. Qed.

(** * The search *)

Definition ids_wf (ids : list Z) : Prop := zlen ids = 16 /\ Forall is_u32 ids.

Lemma ids_new_wf : ids_wf ids_new.
Proof. split; [done|]. apply Forall_replicate. by unfold is_u32. Qed.

(** The counters after [n] more numbers of type [temp]. *)
Definition advance (ids : list Z) (temp c n : Z) : list Z := <[Z.to_nat temp := u32 (c + n)]> ids.

Lemma advance_wf ids temp c n : ids_wf ids -> ids_wf (advance ids temp c n).
Proof. intros [Hl Hf]. split; [by unfold zlen, advance; rewrite length_insert|]. apply Forall_insert; auto with simple. Qed.

Lemma advance_here ids temp c n : ids_wf ids -> 0 <= temp < 16 -> znth (advance ids temp c n) temp = Some (u32 (c + n)).
Proof.
  intros [Hl _] Ht. rewrite <- (Z2Nat.id temp) by lia. rewrite znth_nat. unfold advance.
  rewrite Nat2Z.id. apply list_lookup_insert_eq. unfold zlen in Hl. lia.
Qed.

Lemma fetch_add_ok ids temp c :
  ids_wf ids -> 0 <= temp < 16 -> znth ids temp = Some c -> fetch_add ids temp = Some (c, advance ids temp c 1).
Proof.
  intros [Hl _] Ht Hc. unfold fetch_add. rewrite Hc. cbn [mbind option_bind]. unfold zset.
  rewrite (proj2 (Z.leb_le _ _)), (proj2 (Z.ltb_lt _ _)) by lia. done.
Qed.

(** The search ends at the first number of the counter that is free. *)
Lemma search_id_ok fuel sockets temp : forall ids c,
  ids_wf ids -> 0 <= temp < 16 -> znth ids temp = Some (u32 c) ->
  (exists n, 0 <= n < Z.of_nat fuel /\ (id_of (c + n) temp ∉ sockets)) ->
  exists n, 0 <= n < Z.of_nat fuel /\ (id_of (c + n) temp ∉ sockets) /\
    search_id fuel sockets ids temp = Some (id_of (c + n) temp, advance ids temp c (n + 1)).
Proof.
  induction fuel as [|fuel IH]; intros ids c Hw Ht Hc (n & Hn & Hfree); [lia|].
  cbn [search_id]. rewrite (fetch_add_ok _ _ _ Hw Ht Hc). cbn [mbind option_bind]. rewrite id_of_u32 by done.
  assert (advance ids temp (u32 c) 1 = advance ids temp c 1) as Ea by (unfold advance, u32; by rewrite Zplus_mod_idemp_l).
  destruct (decide (id_of c temp ∈ sockets)) as [Hin|Hout].
  - destruct (IH (advance ids temp c 1) (c + 1)) as (m & Hm & Hf & E).
    + by apply advance_wf.
    + done.
    + by apply advance_here.
    + exists (n - 1). replace (c + 1 + (n - 1)) with (c + n) by lia. split; [|done].
      destruct (decide (n = 0)) as [->|]; [by rewrite Z.add_0_r in Hfree|lia].
    + exists (m + 1). replace (c + (m + 1)) with (c + 1 + m) by lia. split; [lia|]. split; [done|].
      rewrite Ea, E. do 2 f_equal. unfold advance. rewrite list_insert_insert_eq. do 2 f_equal. lia.
  - exists 0. rewrite Z.add_0_r. split; [lia|]. split; [done|]. by rewrite Ea.
Qed.

(** Among consecutive numbers one is free, because they differ. *)
Lemma some_id_free (sockets : gset Z) c temp :
  0 <= temp < 16 -> Z.of_nat (size sockets) < 2 ^ 28 ->
  exists n, 0 <= n < Z.of_nat (S (size sockets)) /\ (id_of (c + n) temp ∉ sockets).
Proof.
  intros Ht Hs. set (l := (fun i => id_of (c + Z.of_nat i) temp) <$> seq 0 (S (size sockets))).
  assert (NoDup l) as Hnd.
  { apply NoDup_fmap_2_strong; [|apply NoDup_seq]. intros i j Hi%elem_of_seq Hj%elem_of_seq E.
    apply id_of_inj in E; [|done]. set (k := Z.of_nat (size sockets)) in *.
    assert (Z.of_nat i <= k /\ Z.of_nat j <= k) as [? ?] by lia.
    assert (Z.of_nat i = Z.of_nat j); [|lia]. divlia. }
  destruct (decide (Forall (fun id => id ∈ sockets) l)) as [Hall|Hnot].
  - assert ((list_to_set l : gset Z) ⊆ sockets) as Hsub.
    { intros id Hid%elem_of_list_to_set. rewrite list.Forall_forall in Hall. by apply Hall. }
    apply subseteq_size in Hsub. rewrite size_list_to_set in Hsub by done. unfold l in Hsub.
    rewrite length_fmap, length_seq in Hsub. lia.
  - apply not_Forall_Exists in Hnot; [|apply _]. apply list.Exists_exists in Hnot as (id & Hid & Hout).
    apply list_elem_of_fmap in Hid as (i & -> & Hi%elem_of_seq). exists (Z.of_nat i). split; [lia|done].
Qed.

(** A number that was given out while the counters have not wrapped around. *)
Definition allotted (ids : list Z) (id : Z) : Prop :=
  exists tp c k, znth ids (type_value tp) = Some c /\ 0 <= k < c /\ id = id_of k (type_value tp).

Lemma type_value_inj tp tp' : type_value tp = type_value tp' -> tp = tp'.
Proof. by destruct tp as [[] []], tp' as [[] []]. Qed.

(** Before that, the next number is not in use. *)
Lemma next_id_ok (sockets : gset Z) tp ids :
  ids_wf ids -> Forall (fun c => c < 2 ^ 28) ids -> (forall id, id ∈ sockets -> allotted ids id) ->
  exists id ids', new_socket_id sockets ids (type_value tp) = Some (id, ids') /\
    id <> 0 /\ get_socket_class id = class_value tp.2 /\
    ids_wf ids' /\ Forall (fun c => c <= 2 ^ 28) ids' /\
    ~ allotted ids id /\ allotted ids' id /\ (forall x, allotted ids x -> allotted ids' x).
Proof.
  intros Hw Hs Ha. pose proof (type_value_range tp) as Ht. destruct (znth_lt ids (type_value tp)) as (c & Hc); [destruct Hw; lia|].
  assert (0 <= c < 2 ^ 28) as Hr.
  { rewrite <- (Z2Nat.id (type_value tp)), znth_nat in Hc by lia. destruct Hw as [_ Hw].
    pose proof (Forall_lookup_1 _ _ _ _ Hw Hc) as Hu. pose proof (Forall_lookup_1 _ _ _ _ Hs Hc). unfold is_u32 in Hu. cbn in *. lia. }
  assert (~ allotted ids (id_of c (type_value tp))) as Hn.
  { intros (tp' & c' & k & Hc' & Hk & E). pose proof (f_equal get_socket_type E) as Et. rewrite !id_type in Et.
    apply type_value_inj in Et as <-. rewrite Hc in Hc'. injection Hc' as <-. apply id_of_inj in E; [|lia].
    rewrite !Z.mod_small in E by lia. lia. }
  exists (id_of c (type_value tp)), (advance ids (type_value tp) c 1). split_and!.
  - unfold new_socket_id. rewrite (proj2 (Z.ltb_ge socket_type_mask _)) by (change socket_type_mask with 15; lia).
    cbn [search_id]. rewrite (fetch_add_ok _ _ _ Hw) by (done || lia). cbn [mbind option_bind].
    rewrite decide_False by auto. done.
  - apply id_not_zero.
  - apply id_class.
  - by apply advance_wf.
  - apply Forall_insert; [eapply list.Forall_impl; [exact Hs|]; cbn; lia|]. rewrite u32_small; unfold is_u32; lia.
  - done.
  - exists tp, (c + 1), c. rewrite advance_here by (done || lia). rewrite u32_small by (unfold is_u32; lia). split; [done|]. split; [lia|done].
  - intros x (tp' & c' & k & Hc' & Hk & ->). destruct (decide (tp' = tp)) as [->|Hne].
    + exists tp, (c + 1), k. rewrite advance_here by (done || lia). rewrite u32_small by (unfold is_u32; lia).
      rewrite Hc in Hc'. injection Hc' as <-. split; [done|]. split; [lia|done].
    + exists tp', c', k. split; [|done]. rewrite <- Hc'. pose proof (type_value_range tp').
      rewrite <- (Z2Nat.id (type_value tp')), !znth_nat by lia. unfold advance. apply list_lookup_insert_ne.
      intros E. apply Hne, type_value_inj. lia.
Qed.

(** How far the counter can have moved after these calls. *)
Definition reach (tables : list (gset Z)) : Z := foldr (fun t n => Z.of_nat (S (size t)) + n) 0 tables.

Lemma reach_nonneg tables : 0 <= reach tables.
Proof. induction tables as [|t tables IH]; cbn [reach foldr]; [done|]. fold (reach tables). lia. Qed.

Definition good_id (tp : socket_type) (id : Z) (table : gset Z) : Prop :=
  (id ∉ table) /\ id <> 0 /\ is_u32 id /\ get_socket_type id = type_value tp.

Lemma good_id_of tp c table : (id_of c (type_value tp) ∉ table) -> good_id tp (id_of c (type_value tp)) table.
Proof.
  intros Hf. pose proof (type_value_range tp). split; [done|]. split; [apply id_not_zero|].
  split; [apply id_of_range; lia|apply id_type].
Qed.

(** The numbers are those of growing positions of the counter. *)
Lemma new_socket_ids_ok tp tables : forall ids c,
  ids_wf ids -> znth ids (type_value tp) = Some (u32 c) ->
  Forall (fun t => Z.of_nat (size t) < 2 ^ 28) tables ->
  exists ns ids', new_socket_ids tables ids (type_value tp) = Some ((fun n => id_of (c + n) (type_value tp)) <$> ns, ids') /\
    ids_wf ids' /\ NoDup ns /\ Forall (fun n => 0 <= n < reach tables) ns /\
    Forall2 (fun n t => id_of (c + n) (type_value tp) ∉ t) ns tables.
Proof.
  pose proof (type_value_range tp) as Ht.
  induction tables as [|t tables IH]; intros ids c Hw Hc Hs; [exists [], ids; split_and!; done || constructor|].
  apply Forall_cons_iff in Hs as [Hs Hss].
  destruct (search_id_ok (S (size t)) t (type_value tp) ids c) as (n & Hn & Hf & E); [done|lia|done|by apply some_id_free; lia|].
  cbn [new_socket_ids]. unfold new_socket_id.
  rewrite (proj2 (Z.ltb_ge socket_type_mask _)) by (change socket_type_mask with 15; lia). rewrite E. cbn [mbind option_bind].
  destruct (IH (advance ids (type_value tp) c (n + 1)) (c + (n + 1))) as (ns & ids' & E' & Hw' & Hnd & Hall & Hfree).
  - by apply advance_wf.
  - apply advance_here; [done|lia].
  - done.
  - exists (n :: ((fun m => n + 1 + m) <$> ns)), ids'. rewrite E'. cbn [mbind option_bind fmap list_fmap].
    rewrite <- list_fmap_compose. split; [|split_and!].
    + do 3 f_equal. apply list_fmap_ext. intros i m _. cbn. f_equal. lia.
    + done.
    + constructor; [|apply NoDup_fmap_2; [intros x y; lia|done]].
      intros (m & Em & Hm)%list_elem_of_fmap. rewrite list.Forall_forall in Hall. specialize (Hall m Hm). cbn in Hall. lia.
    + cbn [reach foldr]. fold (reach tables). pose proof (reach_nonneg tables). constructor; [lia|].
      apply Forall_fmap. eapply list.Forall_impl; [exact Hall|]. cbn. lia.
    + constructor; [done|]. apply Forall2_fmap_l. eapply list.Forall2_impl; [exact Hfree|]. intros m u Hm. cbn beta in *.
      by rewrite <- Z.add_assoc in Hm.
Qed.

(** * The property *)

(** C38: [new_socket_id] always finds a number: it is not zero, it has the type that
    was asked for and is not in the table of that moment; and the numbers of
    many calls differ, until the counters have wrapped around 28 bits. *)
Theorem socket_numbers_fresh (tp : socket_type) (tables : list (gset Z)) (ids : list Z)
    (Hids : ids_wf ids) (Hreach : reach tables <= 2 ^ 28) :
  exists l ids', new_socket_ids tables ids (type_value tp) = Some (l, ids') /\ ids_wf ids' /\
    NoDup l /\ Forall2 (good_id tp) l tables.
Proof.
  pose proof (type_value_range tp) as Ht. destruct Hids as [Hl Hf].
  destruct (znth_lt ids (type_value tp)) as (c & Hc); [lia|].
  assert (is_u32 c) as Hr.
  { rewrite <- (Z2Nat.id (type_value tp)), znth_nat in Hc by lia. by eapply Forall_lookup_1 in Hf. }
  destruct (new_socket_ids_ok tp tables ids c) as (ns & ids' & E & Hw & Hnd & Hall & Hfree).
  - done.
  - by rewrite u32_small.
  - clear - Hreach. induction tables as [|t tables IH]; [done|]. cbn [reach foldr] in Hreach. fold (reach tables) in Hreach.
    pose proof (reach_nonneg tables). constructor; [lia|]. apply IH. lia.
  - exists ((fun n => id_of (c + n) (type_value tp)) <$> ns), ids'. split; [done|]. split; [done|]. split.
    + apply NoDup_fmap_2_strong; [|done]. intros x y Hx Hy Exy%id_of_inj; [|lia].
      rewrite list.Forall_forall in Hall. apply Hall in Hx, Hy. cbn in Hx, Hy. divlia.
    + apply Forall2_fmap_l. eapply list.Forall2_impl; [exact Hfree|]. cbn. intros n t. apply good_id_of.
Qed.

(** Two listening sockets while number 17 of the old counter is still open. *)
Lemma socket_numbers_fresh_witness :
  exists ids', new_socket_ids [{[1]}; {[17]}] ids_new (type_value (tcp, server)) = Some ([17; 33], ids') /\ ids_wf ids'.
Proof.
  destruct (socket_numbers_fresh (tcp, server) [{[1]}; {[17]}] ids_new ids_new_wf) as (l & ids' & E & Hw & _);
    [vm_compute; discriminate|].
  exists ids'. split; [|exact Hw]. rewrite E. f_equal. vm_compute in E. by injection E as <- <-.
Defined.
