(* ===== verification/StreamSocket.v ===== *)
(** The sockets of a byte stream and the thread that serves them:
    src/net/socket_system.cpp and the TCP and TLS sockets of src/net/impl/. The
    other threads post functions to the socket thread, which runs them in order;
    a socket has a coroutine that connects, one that reads and one that writes,
    each cut at its suspensions.

    What asio does are the events of a history: a completion with its result,
    of an operation that is suspended. [None] is an event that cannot happen.
    The four kinds of stream sockets differ in how they start and stop; their
    coroutines that read and write are the same text four times. The statistics
    ([trace_]), which nothing reads, and the socket options are left out. *)

From stdpp Require Import gmap.
From S2P Require Import Prelude Network SocketSystem.

(** * Data *)

(** Where [co_connect] or [co_handshake] is: [Handshaking (Some a)] is a session
    that acceptor [a] made. *)
Inductive phase := Resolving | Connecting | Handshaking (acceptor : option Z) | Settled.

(** Where [co_write] is: not started, in [write_blocker_.async_wait()] (the
    timer cancelled or not), in [async_write] of some buffers, or returned. *)
Inductive writer := WriterNone | WriterWaits (cancelled : bool) | WriterSends (cache_write : list bytes) | WriterEnd.

#[export] Instance phase_dec : EqDecision phase.
Proof. solve_decision. Defined.

#[export] Instance writer_dec : EqDecision writer.
Proof. solve_decision. Defined.

(** The four classes. *)
Inductive impl := tcp_client_impl | tcp_session_impl | ssl_client_impl | ssl_session_impl.

Definition secure (k : impl) : bool :=
  match k with ssl_client_impl | ssl_session_impl => true | _ => false end.

(** A socket; [timer_] says that [co_timeout] is suspended, [reading_] that
    [co_read] is. A buffer is its readable bytes. *)
Record stream := Stream {
  kind_ : impl; open_ : bool; write_deque_ : list bytes;
  phase_ : phase; timer_ : bool; reading_ : bool; writer_ : writer }.

Definition set_open (b : bool) (s : stream) : stream :=
  Stream (kind_ s) b (write_deque_ s) (phase_ s) (timer_ s) (reading_ s) (writer_ s).

Definition set_deque (l : list bytes) (s : stream) : stream :=
  Stream (kind_ s) (open_ s) l (phase_ s) (timer_ s) (reading_ s) (writer_ s).

Definition set_phase (p : phase) (s : stream) : stream :=
  Stream (kind_ s) (open_ s) (write_deque_ s) p (timer_ s) (reading_ s) (writer_ s).

Definition set_timer (b : bool) (s : stream) : stream :=
  Stream (kind_ s) (open_ s) (write_deque_ s) (phase_ s) b (reading_ s) (writer_ s).

Definition set_reading (b : bool) (s : stream) : stream :=
  Stream (kind_ s) (open_ s) (write_deque_ s) (phase_ s) (timer_ s) b (writer_ s).

Definition set_writer (w : writer) (s : stream) : stream :=
  Stream (kind_ s) (open_ s) (write_deque_ s) (phase_ s) (timer_ s) (reading_ s) w.

(** What a socket does to the rest: the table of the system, the handlers that
    network.cpp registered, and the bytes that the connection took. *)
Inductive effect :=
  | Insert (id : Z)
  | Erase (id : Z)
  | HandStart (id : Z) (local : bytes)
  | HandAccept (id accepted : Z) (local remote : bytes)
  | HandRead (id : Z) (data : bytes)
  | HandStop (id : Z) (ec : error_code)
  | Wire (id : Z) (data : bytes).

Section operations.
Context (max_buffers : Z).

(** * Writing

    [write_blocker_.cancel()] completes the wait of [co_write]. *)

Definition cancel_blocker (s : stream) : stream :=
  match writer_ s with WriterWaits _ => set_writer (WriterWaits true) s | _ => s end.

Definition write (data : bytes) (s : stream) : stream :=
  cancel_blocker (set_deque (write_deque_ s ++ [data]) s).

(** The buffers taken out of the deque, up to the [co_await async_write]. *)
Definition send_batch (s : stream) : stream :=
  let size := Z.min (zlen (write_deque_ s)) max_buffers in
  set_writer (WriterSends (ztake size (write_deque_ s))) (set_deque (zdrop size (write_deque_ s)) s).

(** A turn of the loop of [co_write], from its condition to a suspension. *)
Definition write_turn (s : stream) : stream :=
  if open_ s then
    match write_deque_ s with
    | [] => set_writer (WriterWaits false) s
    | _ => send_batch s
    end
  else set_writer WriterEnd s.

(** After the [co_await] of the timer. *)
Definition write_woken (s : stream) : stream :=
  if open_ s then send_batch s else set_writer WriterEnd s.

(** After the [co_await async_write], which took [len] bytes. *)
Definition write_done (id : Z) (batch : list bytes) (len : Z) (s : stream) : stream * list effect :=
  (write_turn s, [Wire id (ztake len (mjoin batch))]).

(** * Stopping *)

Definition stop (id : Z) (e : error_code) (s : stream) : stream * list effect :=
  if open_ s then (cancel_blocker (set_open false s), [HandStop id e; Erase id]) else (s, []).

(** * Reading *)

(** After the [co_await async_read_some]. *)
Definition read_done (id : Z) (e : error_code) (data : bytes) (s : stream) : stream * list effect :=
  if ec_true e || (zlen data =? 0) then stop id e (set_reading false s) else (s, [HandRead id data]).

(** [co_spawn] of [co_write] and [co_read]: each runs to its first suspension. *)
Definition spawn (s : stream) : stream := set_reading true (write_turn s).

(** * Clients *)

(** The first of a list of results that is an error. *)
Definition first_error (es : list error_code) : option error_code := snd <$> list_find (fun e => ec_true e = true) es.

Definition tcp_client_start (id : Z) : stream * list effect :=
  (Stream tcp_client_impl false [] Resolving true false WriterNone, [Insert id]).

(** The settings of TLS can fail, before the socket is open. *)
Definition ssl_client_start (id : Z) (setup : list error_code) : stream * list effect :=
  match first_error setup with
  | Some e => stop id e (Stream ssl_client_impl false [] Settled false false WriterNone)
  | None => (Stream ssl_client_impl false [] Resolving true false WriterNone, [Insert id])
  end.

Definition client_start (sec : bool) (id : Z) (setup : list error_code) : stream * list effect :=
  if sec then ssl_client_start id setup else tcp_client_start id.

Definition connected (id : Z) (local : bytes) (s : stream) : stream * list effect :=
  (spawn (set_phase Settled s), [HandStart id local]).

(** After the [co_await] of the resolver; [opened] says whether [async_connect]
    could open the socket for the first address. *)
Definition client_resolved (id : Z) (e : error_code) (opened : bool) (s : stream) : stream * list effect :=
  if ec_true e then stop id e (set_phase Settled s) else (set_phase Connecting (set_open opened s), []).

(** After the [co_await async_connect]. *)
Definition client_connected (id : Z) (e : error_code) (local : bytes) (s : stream) : stream * list effect :=
  if ec_true e then stop id e (set_phase Settled s)
  else if secure (kind_ s) then (set_phase (Handshaking None) s, [])
  else connected id local s.

(** After the [co_await] of the handshake. *)
Definition client_handshaken (id : Z) (e : error_code) (local : bytes) (s : stream) : stream * list effect :=
  if ec_true e then stop id e (set_phase Settled s) else connected id local s.

(** After the [co_await] of [co_timeout]. *)
Definition client_timeout (id : Z) (e : error_code) (s : stream) : stream * list effect :=
  if ec_true e then (set_timer false s, []) else stop id timed_out (set_timer false s).

(** * Sessions *)

(** [start] of a session that acceptor [a] made from an open connection. *)
Definition tcp_session_start (a id : Z) (local remote : bytes) : stream * list effect :=
  (Stream tcp_session_impl true [] Settled false false WriterNone, [Insert id; HandAccept a id local remote]).

Definition ssl_session_start (a : Z) : stream * list effect :=
  (Stream ssl_session_impl true [] (Handshaking (Some a)) false false WriterNone, []).

Definition session_start (sec : bool) (a id : Z) (local remote : bytes) : stream * list effect :=
  if sec then ssl_session_start a else tcp_session_start a id local remote.

(** After the [co_await] of [co_handshake]. *)
Definition session_handshaken (a id : Z) (e : error_code) (local remote : bytes) (s : stream) : stream * list effect :=
  if ec_true e then stop id e (set_phase Settled s)
  else (set_phase Settled s, [Insert id; HandAccept a id local remote]).

(** [accept]. A second call would start the coroutines once more; a history
    with one has no step. *)
Definition session_accept (s : stream) : option stream :=
  match kind_ s with
  | tcp_session_impl | ssl_session_impl =>
      if decide (reading_ s = false /\ writer_ s = WriterNone) then Some (spawn s) else None
  | _ => Some s
  end.

(** * Completions *)

Inductive completion :=
  | Resolved (e : error_code) (opened : bool)
  | Attempt (opened : bool)
  | Connected (e : error_code) (local : bytes)
  | Handshaken (e : error_code) (local remote : bytes)
  | Timer (e : error_code)
  | Abandoned
  | ReadSome (e : error_code) (data : bytes)
  | BlockerWoken
  | Written (e : error_code) (len : Z).

(** [Attempt]: [async_connect] closes the socket and opens it for the next
    address, as long as nobody has closed it. [Abandoned]: when [co_timeout] is
    over, the operator [||] cancels [co_connect]. *)
Definition complete (id : Z) (c : completion) (s : stream) : option (stream * list effect) :=
  match c, phase_ s with
  | Resolved e opened, Resolving => Some (client_resolved id e opened s)
  | Attempt opened, Connecting => if open_ s then Some (set_open opened s, []) else None
  | Connected e local, Connecting => Some (client_connected id e local s)
  | Handshaken e local _, Handshaking None => Some (client_handshaken id e local s)
  | Handshaken e local remote, Handshaking (Some a) => Some (session_handshaken a id e local remote s)
  | Timer e, _ => if timer_ s then Some (client_timeout id e s) else None
  | Abandoned, Resolving | Abandoned, Connecting | Abandoned, Handshaking None =>
      if timer_ s then None else Some (set_phase Settled s, [])
  | ReadSome e data, _ => if reading_ s then Some (read_done id e data s) else None
  | BlockerWoken, _ =>
      match writer_ s with WriterWaits true => Some (write_woken s, []) | _ => None end
  | Written _ len, _ =>
      match writer_ s with
      | WriterSends batch =>
          if (0 <=? len) && (len <=? zlen (mjoin batch)) then Some (write_done id batch len s) else None
      | _ => None
      end
  | _, _ => None
  end.

(** * Acceptors *)

Record acceptor := Acceptor { acc_secure : bool; acc_open : bool; accepting : bool }.

Definition acceptor_stop (id : Z) (e : error_code) (a : acceptor) : acceptor * list effect :=
  if acc_open a then (Acceptor (acc_secure a) false (accepting a), [HandStop id e; Erase id]) else (a, []).

(** [start]: what fails before the acceptor is open is not reported; [rest] are
    the results of the option, [bind] and [listen]. *)
Definition acceptor_start (id : Z) (sec : bool) (setup rest : list error_code) : acceptor * list effect :=
  match first_error setup with
  | Some e => acceptor_stop id e (Acceptor sec false false)
  | None =>
      match first_error rest with
      | Some e => acceptor_stop id e (Acceptor sec true false)
      | None => (Acceptor sec true true, [Insert id; HandStart id []])
      end
  end.

Definition tcp_server_start (id : Z) (opened : error_code) (rest : list error_code) : acceptor * list effect :=
  acceptor_start id false [opened] rest.

Definition ssl_server_start (id : Z) (tls : list error_code) (opened : error_code) (rest : list error_code)
    : acceptor * list effect :=
  acceptor_start id true (tls ++ [opened]) rest.

Definition server_start (id : Z) (sec : bool) (tls : list error_code) (opened : error_code) (rest : list error_code)
    : acceptor * list effect :=
  if sec then ssl_server_start id tls opened rest else tcp_server_start id opened rest.

(** * The system

    [posted_] are the functions that the socket thread has not run yet.
    [streams_] and [acceptors_] are the objects, [sockets_] the numbers in the
    table; a socket that has left the table lives on while a coroutine runs. *)

Inductive call :=
  | CallListen (id : Z) (sec : bool)
  | CallConnect (id : Z) (sec : bool)
  | CallSend (id : Z) (buf : bytes)
  | CallAccept (id : Z)
  | CallClose (id : Z).

Record system := System {
  socket_ids_ : list Z; sockets_ : gset Z; posted_ : list call;
  streams_ : gmap Z stream; acceptors_ : gmap Z acceptor }.

Definition system_new : system := System ids_new ∅ [] ∅ ∅.

Definition apply_effect (e : effect) (w : system) : system :=
  match e with
  | Insert id => System (socket_ids_ w) ({[id]} ∪ sockets_ w) (posted_ w) (streams_ w) (acceptors_ w)
  | Erase id => System (socket_ids_ w) (sockets_ w ∖ {[id]}) (posted_ w) (streams_ w) (acceptors_ w)
  | _ => w
  end.

Definition apply_effects (es : list effect) (w : system) : system := foldl (fun w e => apply_effect e w) w es.

Definition post (c : call) (w : system) : system :=
  System (socket_ids_ w) (sockets_ w) (posted_ w ++ [c]) (streams_ w) (acceptors_ w).

Definition set_stream (id : Z) (r : stream * list effect) (w : system) : system * list effect :=
  (apply_effects r.2 (System (socket_ids_ w) (sockets_ w) (posted_ w) (<[id := r.1]> (streams_ w)) (acceptors_ w)), r.2).

Definition set_acceptor (id : Z) (r : acceptor * list effect) (w : system) : system * list effect :=
  (apply_effects r.2 (System (socket_ids_ w) (sockets_ w) (posted_ w) (streams_ w) (<[id := r.1]> (acceptors_ w))), r.2).

Definition stream_type (sec : bool) (c : socket_class) : socket_type := (if sec then ssl else tcp, c).

Definition fresh_id (tp : socket_type) (w : system) : option (Z * system) :=
  '(id, ids) ← new_socket_id (sockets_ w) (socket_ids_ w) (type_value tp);
  Some (id, System ids (sockets_ w) (posted_ w) (streams_ w) (acceptors_ w)).

(** [tcp_listen] and [ssl_listen]: zero when the host is no address. *)
Definition listen (sec address_ok : bool) (w : system) : option (Z * system) :=
  if address_ok then '(id, w) ← fresh_id (stream_type sec server) w; Some (id, post (CallListen id sec) w)
  else Some (0, w).

(** [tcp_connect] and [ssl_connect]. *)
Definition connect (sec : bool) (w : system) : option (Z * system) :=
  '(id, w) ← fresh_id (stream_type sec client) w; Some (id, post (CallConnect id sec) w).

Definition send (id : Z) (buf : bytes) (w : system) : system :=
  if get_socket_class id =? socket_class_server then w else post (CallSend id buf) w.

Definition accept (id : Z) (w : system) : system :=
  if get_socket_class id =? class_value session then post (CallAccept id) w else w.

Definition close (id : Z) (w : system) : system := post (CallClose id) w.

(** Results of the calls that a [start] makes. *)
Record setup := Setup { tls_results : list error_code; open_result : error_code; listen_results : list error_code }.

(** A posted function runs: the lambdas of [tcp_listen], ..., [close]. Only a socket
    that is in the table is found. *)
Definition run_call (c : call) (r : setup) (w : system) : option (system * list effect) :=
  match c with
  | CallListen id sec =>
      Some (set_acceptor id (server_start id sec (tls_results r) (open_result r) (listen_results r)) w)
  | CallConnect id sec =>
      Some (set_stream id (client_start sec id (tls_results r)) w)
  | CallSend id buf =>
      if decide (id ∈ sockets_ w) then
        match streams_ w !! id with Some s => Some (set_stream id (write buf s, []) w) | None => Some (w, []) end
      else Some (w, [])
  | CallAccept id =>
      if decide (id ∈ sockets_ w) then
        match streams_ w !! id with
        | Some s => s ← session_accept s; Some (set_stream id (s, []) w)
        | None => Some (w, [])
        end
      else Some (w, [])
  | CallClose id =>
      if decide (id ∈ sockets_ w) then
        match streams_ w !! id, acceptors_ w !! id with
        | Some s, _ => Some (set_stream id (stop id (socket_error initiative_disconnect) s) w)
        | None, Some a => Some (set_acceptor id (acceptor_stop id (socket_error initiative_disconnect) a) w)
        | None, None => Some (w, [])
        end
      else Some (w, [])
  end.

Definition run_posted (r : setup) (w : system) : option (system * list effect) :=
  match posted_ w with
  | [] => None
  | c :: rest => run_call c r (System (socket_ids_ w) (sockets_ w) rest (streams_ w) (acceptors_ w))
  end.

(** After the [co_await] of [async_accept]: [connection] are the addresses of
    the connection, when there is one. The loop goes on while the acceptor is open. *)
Definition accepted_one (id : Z) (connection : option (bytes * bytes)) (w : system) : option (system * list effect) :=
  a ← acceptors_ w !! id;
  if accepting a then
    let w := System (socket_ids_ w) (sockets_ w) (posted_ w) (streams_ w)
               (<[id := Acceptor (acc_secure a) (acc_open a) (acc_open a)]> (acceptors_ w)) in
    match connection with
    | None => Some (w, [])
    | Some (local, remote) =>
        '(new, w) ← fresh_id (stream_type (acc_secure a) session) w;
        if new =? 0 then Some (w, [])
        else
          Some (set_stream new (session_start (acc_secure a) id new local remote) w)
    end
  else None.

Inductive op :=
  | OListen (sec address_ok : bool)
  | OConnect (sec : bool)
  | OSend (id : Z) (buf : bytes)
  | OAccept (id : Z)
  | OClose (id : Z)
  | ORun (r : setup)
  | OAccepted (id : Z) (connection : option (bytes * bytes))
  | OComplete (id : Z) (c : completion).

(** What a step shows: the number that [listen] or [connect] returns, and what
    it does. *)
Definition step (o : op) (w : system) : option (system * option Z * list effect) :=
  match o with
  | OListen sec ok => '(id, w) ← listen sec ok w; Some (w, Some id, [])
  | OConnect sec => '(id, w) ← connect sec w; Some (w, Some id, [])
  | OSend id buf => Some (send id buf w, None, [])
  | OAccept id => Some (accept id w, None, [])
  | OClose id => Some (close id w, None, [])
  | ORun r => '(w, es) ← run_posted r w; Some (w, None, es)
  | OAccepted id c => '(w, es) ← accepted_one id c w; Some (w, None, es)
  | OComplete id c => s ← streams_ w !! id; r ← complete id c s; Some ((set_stream id r w).1, None, r.2)
  end.

Fixpoint run (ops : list op) (w : system) : option (system * list effect) :=
  match ops with
  | [] => Some (w, [])
  | o :: ops => '(w, _, es) ← step o w; '(w, es') ← run ops w; Some (w, es ++ es')
  end.

(** * One socket of the system

    A step touches one socket, so the system is the product of its sockets.
    [view_of] is the part of the system that belongs to a number. *)

Definition call_id (c : call) : Z :=
  match c with CallListen id _ | CallConnect id _ | CallSend id _ | CallAccept id | CallClose id => id end.

(** The socket that an effect is about. *)
Definition effect_id (e : effect) : Z :=
  match e with
  | Insert id | Erase id | HandStart id _ | HandRead id _ | HandStop id _ | Wire id _ => id
  | HandAccept _ id _ _ => id
  end.

Record view := View { v_stream : option stream; v_acceptor : option acceptor; v_in : bool; v_calls : list call }.

Definition view_of (w : system) (id : Z) : view :=
  View (streams_ w !! id) (acceptors_ w !! id) (bool_decide (id ∈ sockets_ w)) (filter (fun c => call_id c = id) (posted_ w)).

Definition effect_in (e : effect) (b : bool) : bool :=
  match e with Insert _ => true | Erase _ => false | _ => b end.

Definition effects_in (es : list effect) (b : bool) : bool := foldl (fun b e => effect_in e b) b es.

Definition put_stream (v : view) (r : stream * list effect) : view :=
  View (Some r.1) (v_acceptor v) (effects_in r.2 (v_in v)) (v_calls v).

Definition put_acceptor (v : view) (r : acceptor * list effect) : view :=
  View (v_stream v) (Some r.1) (effects_in r.2 (v_in v)) (v_calls v).

(** [run_call] as the socket sees it. *)
Definition run_view (id : Z) (c : call) (r : setup) (v : view) : option (view * list effect) :=
  match c with
  | CallListen _ sec =>
      let p := server_start id sec (tls_results r) (open_result r) (listen_results r) in
      Some (put_acceptor v p, p.2)
  | CallConnect _ sec =>
      let p := client_start sec id (tls_results r) in
      Some (put_stream v p, p.2)
  | CallSend _ buf =>
      Some (match v_stream v with Some s => if v_in v then put_stream v (write buf s, []) else v | None => v end, [])
  | CallAccept _ =>
      match v_stream v with
      | Some s => if v_in v then s ← session_accept s; Some (put_stream v (s, []), []) else Some (v, [])
      | None => Some (v, [])
      end
  | CallClose _ =>
      if v_in v then
        match v_stream v, v_acceptor v with
        | Some s, _ => let p := stop id (socket_error initiative_disconnect) s in Some (put_stream v p, p.2)
        | None, Some a => let p := acceptor_stop id (socket_error initiative_disconnect) a in Some (put_acceptor v p, p.2)
        | None, None => Some (v, [])
        end
      else Some (v, [])
  end.

Definition is_start (c : call) : Prop := match c with CallListen _ _ | CallConnect _ _ => True | _ => False end.

#[export] Instance is_start_dec c : Decision (is_start c).
Proof. destruct c; apply _. Defined.

(** The number is not in use. *)
Definition blank (v : view) : Prop :=
  v_stream v = None /\ v_acceptor v = None /\ v_in v = false /\ Forall (fun c => ~ is_start c) (v_calls v).

#[export] Instance blank_dec v : Decision (blank v).
Proof. unfold blank. apply _. Defined.

(** What else a step says about the socket. *)
Inductive label := LNone | LConnect | LSend (buf : bytes) | LWritten (e : error_code) (len : Z).

Inductive socket_move (id : Z) : view -> label -> list effect -> view -> Prop :=
  | MPost v c l :
      l = match c with CallConnect _ _ => LConnect | CallSend _ buf => LSend buf | _ => LNone end ->
      call_id c = id ->
      (is_start c -> blank v) ->
      socket_move id v l [] (View (v_stream v) (v_acceptor v) (v_in v) (v_calls v ++ [c]))
  | MRun v c rest r es v' :
      v_calls v = c :: rest -> call_id c = id ->
      run_view id c r (View (v_stream v) (v_acceptor v) (v_in v) rest) = Some (v', es) ->
      socket_move id v LNone es v'
  | MSession v a sec local remote :
      blank v ->
      socket_move id v LNone (session_start sec a id local remote).2 (put_stream v (session_start sec a id local remote))
  | MAccepting v a :
      v_acceptor v = Some a ->
      socket_move id v LNone [] (View (v_stream v) (Some (Acceptor (acc_secure a) (acc_open a) (acc_open a))) (v_in v) (v_calls v))
  | MComplete v s c r l :
      v_stream v = Some s -> complete id c s = Some r ->
      l = match c with Written e len => LWritten e len | _ => LNone end ->
      socket_move id v l r.2 (put_stream v r).


(** * Effects and views *)

Definition about (id : Z) (es : list effect) : Prop := Forall (fun e => effect_id e = id) es.

Definition effects_of (id : Z) (es : list effect) : list effect := filter (fun e => effect_id e = id) es.

Lemma effects_of_about id es : about id es -> effects_of id es = es.
Proof. intros H. unfold effects_of. rewrite (filter_agree _ (fun _ => True)), filter_true; [done|].
  intros e He. unfold about in H. rewrite list.Forall_forall in H. by split; auto. Qed.

Lemma effects_of_other id x es : about id es -> x <> id -> effects_of x es = [].
Proof. intros H Hx. apply filter_none. eapply list.Forall_impl; [exact H|]. cbn. congruence. Qed.

Lemma effects_of_app id es es' : effects_of id (es ++ es') = effects_of id es ++ effects_of id es'.
Proof. apply list.filter_app. Qed.

Lemma view_apply_effect e w x :
  view_of (apply_effect e w) x =
    View (streams_ w !! x) (acceptors_ w !! x)
      (if decide (effect_id e = x) then effect_in e (bool_decide (x ∈ sockets_ w)) else bool_decide (x ∈ sockets_ w))
      (filter (fun c => call_id c = x) (posted_ w)).
Proof.
  unfold view_of. destruct e as [id|id| |? id| | |]; cbn [apply_effect effect_id effect_in streams_ acceptors_ sockets_ posted_];
    destruct (decide (id = x)) as [->|]; try done; try (by destruct (decide _)); f_equal.
  - apply bool_decide_eq_true. rewrite elem_of_union, elem_of_singleton. by left.
  - apply bool_decide_ext. rewrite elem_of_union, elem_of_singleton. split; [by intros [->|]|by right].
  - apply bool_decide_eq_false. rewrite elem_of_difference, elem_of_singleton. by intros [_ []].
  - apply bool_decide_ext. rewrite elem_of_difference, elem_of_singleton. split; [by intros [? _]|].
    intros ?. split; [done|congruence].
Qed.

Lemma apply_effects_fields es : forall w,
  socket_ids_ (apply_effects es w) = socket_ids_ w /\ posted_ (apply_effects es w) = posted_ w /\
  streams_ (apply_effects es w) = streams_ w /\ acceptors_ (apply_effects es w) = acceptors_ w.
Proof.
  induction es as [|e es IH]; intros w; [done|]. cbn [apply_effects foldl]. fold (apply_effects es (apply_effect e w)).
  destruct (IH (apply_effect e w)) as (-> & -> & -> & ->). by destruct e.
Qed.

Lemma set_stream_ids id r w : socket_ids_ (set_stream id r w).1 = socket_ids_ w.
Proof. exact (proj1 (apply_effects_fields _ _)). Qed.

Lemma set_acceptor_ids id r w : socket_ids_ (set_acceptor id r w).1 = socket_ids_ w.
Proof. exact (proj1 (apply_effects_fields _ _)). Qed.

Lemma view_apply_effects id es : forall w x, about id es ->
  view_of (apply_effects es w) x =
    if decide (x = id) then View (streams_ w !! x) (acceptors_ w !! x) (effects_in es (bool_decide (x ∈ sockets_ w)))
                              (filter (fun c => call_id c = x) (posted_ w))
    else view_of w x.
Proof.
  induction es as [|e es IH]; intros w x Ha; [by case_decide|].
  apply list.Forall_cons in Ha as [He Ha]. cbn [apply_effects foldl]. fold (apply_effects es (apply_effect e w)).
  rewrite IH by done. pose proof (view_apply_effect e w x) as Hv. rewrite He in Hv. destruct (decide (x = id)) as [->|].
  - rewrite decide_True in Hv by done. unfold view_of in Hv. injection Hv as -> -> -> ->. done.
  - by rewrite decide_False in Hv by done.
Qed.

Lemma view_set_stream id r w x : about id r.2 ->
  view_of (set_stream id r w).1 x = if decide (x = id) then put_stream (view_of w x) r else view_of w x.
Proof.
  intros Ha. unfold set_stream. cbn [fst]. rewrite (view_apply_effects id _ _ x) by done.
  cbn [streams_ acceptors_ sockets_ posted_]. destruct (decide (x = id)) as [->|]; [by rewrite lookup_insert_eq|].
  unfold view_of. cbn. by rewrite lookup_insert_ne.
Qed.

Lemma view_set_acceptor id r w x : about id r.2 ->
  view_of (set_acceptor id r w).1 x = if decide (x = id) then put_acceptor (view_of w x) r else view_of w x.
Proof.
  intros Ha. unfold set_acceptor. cbn [fst]. rewrite (view_apply_effects id _ _ x) by done.
  cbn [streams_ acceptors_ sockets_ posted_]. destruct (decide (x = id)) as [->|]; [by rewrite lookup_insert_eq|].
  unfold view_of. cbn. by rewrite lookup_insert_ne.
Qed.

(** The operations of a socket are about that socket. *)
Ltac about_tac :=
  repeat first [progress cbn [fst snd] | case_match | done];
  unfold about; repeat constructor.

Lemma stop_about id e s : about id (stop id e s).2.
Proof. unfold stop. about_tac. Qed.

Lemma acceptor_stop_about id e a : about id (acceptor_stop id e a).2.
Proof. unfold acceptor_stop. about_tac. Qed.

Lemma acceptor_start_about id sec l1 l2 : about id (acceptor_start id sec l1 l2).2.
Proof. unfold acceptor_start. repeat case_match; try apply acceptor_stop_about. about_tac. Qed.

Lemma server_start_about id sec tls e l : about id (server_start id sec tls e l).2.
Proof. unfold server_start. destruct sec; apply acceptor_start_about. Qed.

Lemma client_start_about sec id l : about id (client_start sec id l).2.
Proof. unfold client_start, ssl_client_start. repeat case_match; [apply stop_about|about_tac|about_tac]. Qed.

Lemma session_start_about sec a id l r : about id (session_start sec a id l r).2.
Proof. unfold session_start. destruct sec; about_tac. Qed.

Lemma complete_about id c s r : complete id c s = Some r -> about id r.2.
Proof.
  unfold complete, client_resolved, client_connected, client_handshaken, client_timeout, session_handshaken, read_done,
    connected, write_done.
  intros H. repeat case_match; simplify_eq; first [apply stop_about|about_tac].
Qed.

(** * Numbers in use *)

Record ids_ok (w : system) : Prop := {
  io_wf : ids_wf (socket_ids_ w);
  io_small : Forall (fun c => c <= 2 ^ 28) (socket_ids_ w);
  io_used id : ~ blank (view_of w id) -> allotted (socket_ids_ w) id }.

(** No counter has wrapped around 28 bits. *)
Definition room (w : system) : Prop := Forall (fun c => c < 2 ^ 28) (socket_ids_ w).

Lemma stream_system_new_ok : ids_ok system_new.
Proof.
  split; [apply ids_new_wf|by apply Forall_replicate|]. intros id []. unfold view_of, system_new. cbn.
  rewrite !lookup_empty. by split_and!.
Qed.

Lemma fresh_id_ok tp w :
  ids_ok w -> room w ->
  exists id ids', fresh_id tp w = Some (id, System ids' (sockets_ w) (posted_ w) (streams_ w) (acceptors_ w)) /\
    id <> 0 /\ blank (view_of w id) /\ get_socket_class id = class_value tp.2 /\ allotted ids' id /\
    (forall w', socket_ids_ w' = ids' -> (forall x, x <> id -> view_of w' x = view_of w x) -> ids_ok w').
Proof.
  intros [Hw Hs Hu] Hr. destruct (next_id_ok (sockets_ w) tp (socket_ids_ w) Hw Hr) as (id & ids' & E & H0 & Hc & Hw' & Hs' & Hn & Ha & Hm).
  { intros id Hid. apply Hu. intros (_ & _ & Hb & _). cbn in Hb. by rewrite bool_decide_eq_true_2 in Hb. }
  exists id, ids'. unfold fresh_id. rewrite E. split; [done|]. split; [done|]. split; [|split; [done|split; [done|]]].
  - destruct (decide (blank (view_of w id))); [done|]. destruct Hn. auto.
  - intros w' <- Hx. split; [done|done|]. intros x Hb. destruct (decide (x = id)) as [->|Hne]; [done|].
    apply Hm, Hu. by rewrite <- Hx.
Qed.

(** What a step says about socket [x]. *)
Definition label_of (o : op) (ret : option Z) (x : Z) : label :=
  match o with
  | OConnect _ => if decide (ret = Some x) then LConnect else LNone
  | OSend id buf =>
      if decide (id = x) then if get_socket_class id =? socket_class_server then LNone else LSend buf else LNone
  | OComplete id (Written e len) => if decide (id = x) then LWritten e len else LNone
  | _ => LNone
  end.

Definition allocates (o : op) : bool :=
  match o with OListen _ _ | OConnect _ | OAccepted _ _ => true | _ => false end.

(** A socket does not move, or makes one of its moves. *)
Definition projects (w : system) (l : label) (es : list effect) (w' : system) (x : Z) : Prop :=
  (view_of w' x = view_of w x /\ effects_of x es = [] /\ l = LNone) \/
  socket_move x (view_of w x) l (effects_of x es) (view_of w' x).

Lemma view_post c w x :
  view_of (post c w) x =
    if decide (call_id c = x) then let v := view_of w x in View (v_stream v) (v_acceptor v) (v_in v) (v_calls v ++ [c])
    else view_of w x.
Proof.
  unfold view_of, post. cbn [streams_ acceptors_ sockets_ posted_]. rewrite list.filter_app.
  destruct (decide (call_id c = x)).
  - by rewrite list.filter_cons_True.
  - by rewrite list.filter_cons_False, app_nil_r.
Qed.

Lemma post_blank c w x : ~ is_start c -> blank (view_of w x) -> blank (view_of (post c w) x).
Proof.
  intros Hc (Hs & Ha & Hi & Hf). rewrite view_post. destruct (decide (call_id c = x)); [|done].
  split_and!; cbn; try done. apply Forall_app_2; [done|]. constructor; [done|constructor].
Qed.

(** Posting a function moves its socket only. *)
Lemma post_projects c w l x :
  (is_start c -> blank (view_of w (call_id c))) ->
  l = (if decide (call_id c = x) then match c with CallConnect _ _ => LConnect | CallSend _ buf => LSend buf | _ => LNone end else LNone) ->
  projects w l [] (post c w) x.
Proof.
  intros Hb ->. unfold projects. rewrite view_post. destruct (decide (call_id c = x)) as [<-|]; [|by left].
  right. by eapply MPost.
Qed.

(** A change of one stream moves that socket only. *)
Lemma move_projects id w w' es l l' x :
  about id es -> (forall x, x <> id -> view_of w' x = view_of w x) ->
  socket_move id (view_of w id) l es (view_of w' id) ->
  l' = (if decide (x = id) then l else LNone) ->
  projects w l' es w' x.
Proof.
  intros Ha Hx Hm ->. unfold projects. destruct (decide (x = id)) as [->|Hne].
  - right. by rewrite effects_of_about.
  - left. by rewrite (effects_of_other id), Hx.
Qed.

(** [run_call] on the system is [run_view] on the socket. *)
Definition runs_as (id : Z) (c : call) (r : setup) (w w' : system) (es : list effect) : Prop :=
  about id es /\ (forall x, x <> id -> view_of w' x = view_of w x) /\ socket_ids_ w' = socket_ids_ w /\
  run_view id c r (view_of w id) = Some (view_of w' id, es).

Lemma set_stream_runs id c r w p :
  about id p.2 -> run_view id c r (view_of w id) = Some (put_stream (view_of w id) p, p.2) ->
  runs_as id c r w (set_stream id p w).1 p.2.
Proof.
  intros Ha E. split; [done|]. split; [|split].
  - intros x Hx. rewrite view_set_stream by done. by rewrite decide_False.
  - apply set_stream_ids.
  - rewrite E, view_set_stream by done. by rewrite decide_True.
Qed.

Lemma set_acceptor_runs id c r w p :
  about id p.2 -> run_view id c r (view_of w id) = Some (put_acceptor (view_of w id) p, p.2) ->
  runs_as id c r w (set_acceptor id p w).1 p.2.
Proof.
  intros Ha E. split; [done|]. split; [|split].
  - intros x Hx. rewrite view_set_acceptor by done. by rewrite decide_False.
  - apply set_acceptor_ids.
  - rewrite E, view_set_acceptor by done. by rewrite decide_True.
Qed.

Lemma same_runs id c r w :
  run_view id c r (view_of w id) = Some (view_of w id, []) -> runs_as id c r w w [].
Proof. intros E. split; [constructor|]. done. Qed.

Lemma about_nil id : about id [].
Proof. constructor. Qed.

Lemma run_call_runs c r w w' es : run_call c r w = Some (w', es) -> runs_as (call_id c) c r w w' es.
Proof.
  destruct c as [id sec|id sec|id buf|id|id]; cbn [run_call call_id]; intros H.
  - injection H as <- <-. by apply set_acceptor_runs; [apply server_start_about|].
  - injection H as <- <-. by apply set_stream_runs; [apply client_start_about|].
  - case_decide as Hin; [destruct (streams_ w !! id) as [s|] eqn:Es|]; injection H as <- <-.
    + apply (set_stream_runs id _ r w (write buf s, [])); [apply about_nil|]. cbn. by rewrite Es, bool_decide_eq_true_2.
    + apply same_runs. cbn. by rewrite Es.
    + apply same_runs. cbn. destruct (streams_ w !! id); [by rewrite bool_decide_eq_false_2|done].
  - case_decide as Hin; [destruct (streams_ w !! id) as [s|] eqn:Es|].
    + destruct (session_accept s) as [s'|] eqn:E; [|done]. injection H as <- <-.
      apply (set_stream_runs id _ r w (s', [])); [apply about_nil|]. cbn. by rewrite Es, bool_decide_eq_true_2, E.
    + injection H as <- <-. apply same_runs. cbn. by rewrite Es.
    + injection H as <- <-. apply same_runs. cbn. destruct (streams_ w !! id); [by rewrite bool_decide_eq_false_2|done].
  - case_decide as Hin; [destruct (streams_ w !! id) as [s|] eqn:Es; [|destruct (acceptors_ w !! id) as [a|] eqn:Ea]|];
      injection H as <- <-.
    + apply set_stream_runs; [apply stop_about|]. cbn. by rewrite Es, bool_decide_eq_true_2.
    + apply set_acceptor_runs; [apply acceptor_stop_about|]. cbn. by rewrite Es, Ea, bool_decide_eq_true_2.
    + apply same_runs. cbn. by rewrite Es, Ea, bool_decide_eq_true_2.
    + apply same_runs. cbn. by rewrite bool_decide_eq_false_2.
Qed.

(** Taking the first posted function out. *)
Lemma view_taken w c rest x :
  posted_ w = c :: rest ->
  view_of w x = let v := view_of (System (socket_ids_ w) (sockets_ w) rest (streams_ w) (acceptors_ w)) x in
    if decide (x = call_id c) then View (v_stream v) (v_acceptor v) (v_in v) (c :: v_calls v) else v.
Proof.
  intros E. unfold view_of. rewrite E. cbn [streams_ acceptors_ sockets_ posted_ v_stream v_acceptor v_in v_calls].
  destruct (decide (x = call_id c)) as [->|]; [by rewrite list.filter_cons_True|by rewrite list.filter_cons_False].
Qed.

(** Only the operations that allocate put a number into use. *)
Lemma run_view_blank id c r v v' es :
  run_view id c r v = Some (v', es) ->
  blank (View (v_stream v) (v_acceptor v) (v_in v) (c :: v_calls v)) -> blank v'.
Proof.
  intros E (Hs & Ha & Hi & Hc). cbn in *. apply list.Forall_cons in Hc as [Hc Hr].
  destruct c; cbn [is_start] in Hc; try tauto; cbn in E; rewrite ?Hs, ?Hi in E; injection E as <- <-; done.
Qed.

Lemma ids_ok_mono w w' :
  ids_ok w -> socket_ids_ w' = socket_ids_ w -> (forall x, blank (view_of w x) -> blank (view_of w' x)) -> ids_ok w'.
Proof. intros [Hw Hs Hu] E Hb. split; rewrite E; auto. Qed.

Lemma run_posted_projects r w w' es :
  run_posted r w = Some (w', es) ->
  socket_ids_ w' = socket_ids_ w /\ (forall x, blank (view_of w x) -> blank (view_of w' x)) /\
  forall x, projects w LNone es w' x.
Proof.
  unfold run_posted. destruct (posted_ w) as [|c rest] eqn:Ep; [done|]. intros (Ha & Hx & Hi & E)%run_call_runs.
  set (w1 := System (socket_ids_ w) (sockets_ w) rest (streams_ w) (acceptors_ w)) in *.
  assert (forall x, x <> call_id c -> view_of w' x = view_of w x) as Hxw.
  { intros x Hne. rewrite Hx by done. rewrite (view_taken w c rest x Ep). by rewrite decide_False. }
  assert (view_of w (call_id c) = View (v_stream (view_of w1 (call_id c))) (v_acceptor (view_of w1 (call_id c)))
            (v_in (view_of w1 (call_id c))) (c :: v_calls (view_of w1 (call_id c)))) as Ev.
  { rewrite (view_taken w c rest _ Ep). by rewrite decide_True. }
  split; [done|]. split.
  - intros x Hb. destruct (decide (x = call_id c)) as [->|Hne]; [|by rewrite Hxw].
    eapply run_view_blank; [exact E|]. by rewrite <- Ev.
  - intros x. eapply (move_projects (call_id c)); [done|done| |by destruct (decide _)].
    eapply (MRun _ _ c _ r); [by rewrite Ev|done|]. rewrite Ev. cbn [v_stream v_acceptor v_in v_calls].
    rewrite <- E. by destruct (view_of w1 (call_id c)).
Qed.

Lemma complete_projects id c w s r :
  streams_ w !! id = Some s -> complete id c s = Some r ->
  let w' := (set_stream id r w).1 in
  socket_ids_ w' = socket_ids_ w /\ (forall x, blank (view_of w x) -> blank (view_of w' x)) /\
  forall x, projects w (label_of (OComplete id c) None x) r.2 w' x.
Proof.
  intros Es E. pose proof (complete_about _ _ _ _ E) as Ha. cbn zeta.
  assert (forall x, x <> id -> view_of (set_stream id r w).1 x = view_of w x) as Hx.
  { intros x Hne. rewrite view_set_stream by done. by rewrite decide_False. }
  split; [|split].
  - apply set_stream_ids.
  - intros x Hb. destruct (decide (x = id)) as [->|Hne]; [|by rewrite Hx]. destruct Hb as (Hb & _). cbn in Hb. congruence.
  - intros x. eapply (move_projects id); [done|done| |].
    + rewrite view_set_stream, decide_True by done. by eapply MComplete.
    + cbn [label_of]. destruct c; try (by destruct (decide _)). destruct (decide (id = x)), (decide (x = id)); congruence.
Qed.

Lemma accepted_projects id conn w w' es :
  ids_ok w -> room w -> accepted_one id conn w = Some (w', es) ->
  ids_ok w' /\ forall x, projects w LNone es w' x.
Proof.
  intros Hok Hr H. unfold accepted_one in H. destruct (acceptors_ w !! id) as [a|] eqn:Ea; [|done]. cbn [mbind option_bind] in H.
  destruct (accepting a) eqn:Eacc; [|done].
  set (a' := Acceptor (acc_secure a) (acc_open a) (acc_open a)) in *.
  set (w1 := System (socket_ids_ w) (sockets_ w) (posted_ w) (streams_ w) (<[id:=a']> (acceptors_ w))) in *.
  assert (forall x, x <> id -> view_of w1 x = view_of w x) as Hx1.
  { intros x Hne. unfold view_of, w1. cbn. by rewrite lookup_insert_ne. }
  assert (view_of w1 id = View (streams_ w !! id) (Some a') (v_in (view_of w id)) (v_calls (view_of w id))) as Ev1.
  { unfold view_of, w1. cbn. by rewrite lookup_insert_eq. }
  assert (ids_ok w1) as Hok1.
  { apply (ids_ok_mono w); [done|done|]. intros x Hb. destruct (decide (x = id)) as [->|Hne]; [|by rewrite Hx1].
    destruct Hb as (_ & Hb & _). cbn in Hb. congruence. }
  assert (socket_move id (view_of w id) LNone [] (view_of w1 id)) as Hm1 by (rewrite Ev1; by eapply (MAccepting _ (view_of w id))).
  assert (forall x, projects w LNone [] w1 x) as Hp1.
  { intros x. eapply (move_projects id); [constructor|done|exact Hm1|by destruct (decide _)]. }
  destruct conn as [[local remote]|]; [|by injection H as <- <-].
  destruct (fresh_id_ok (stream_type (acc_secure a) session) w1 Hok1 Hr) as (new & ids' & E & H0 & Hb & Hcl & Hal & Hok').
  rewrite E in H. cbn [mbind option_bind] in H. destruct (Z.eqb_spec new 0); [done|]. injection H as <- <-.
  set (p := session_start (acc_secure a) id new local remote).
  set (w2 := System ids' (sockets_ w1) (posted_ w1) (streams_ w1) (acceptors_ w1)) in *.
  assert (about new p.2) as Hab by apply session_start_about.
  assert (forall x, view_of (set_stream new p w2).1 x = if decide (x = new) then put_stream (view_of w1 x) p else view_of w1 x) as Hv.
  { intros x. by rewrite view_set_stream. }
  split.
  - apply Hok'; [exact (set_stream_ids new p w2)|]. intros x Hne. by rewrite Hv, decide_False.
  - intros x. unfold projects. rewrite Hv. destruct (decide (x = new)) as [->|Hne].
    + rewrite effects_of_about by done. right. assert (new <> id) as Hni.
      { intros ->. destruct Hb as (_ & Hb & _). rewrite Ev1 in Hb. done. }
      rewrite Hx1 in * by done. by apply MSession.
    + rewrite (effects_of_other new) by done. apply Hp1.
Qed.

(** A step of the system is a move, or nothing, for each of its sockets. *)
Lemma step_projects o w w' ret es :
  ids_ok w -> (allocates o = true -> room w) -> step o w = Some (w', ret, es) ->
  ids_ok w' /\ forall x, projects w (label_of o ret x) es w' x.
Proof.
  intros Hok Hr H. destruct o as [sec ok|sec|id buf|id|id|r|id conn|id c]; cbn [step] in H.
  - unfold listen in H. destruct ok; [|by injection H as <- <- <-; split; [done|left]].
    destruct (fresh_id_ok (stream_type sec server) w Hok (Hr eq_refl)) as (id & ids' & E & _ & Hb & _ & _ & Hok').
    rewrite E in H. cbn in H. injection H as <- <- <-.
    set (w1 := System ids' (sockets_ w) (posted_ w) (streams_ w) (acceptors_ w)).
    split.
    + apply Hok'; [done|]. intros x Hne. rewrite view_post. by rewrite decide_False by (cbn; congruence).
    + intros x. change (projects w1 (label_of (OListen sec true) (Some id) x) [] (post (CallListen id sec) w1) x).
      apply post_projects; [by intros []|]. cbn. by destruct (decide _).
  - unfold connect in H.
    destruct (fresh_id_ok (stream_type sec client) w Hok (Hr eq_refl)) as (id & ids' & E & _ & Hb & _ & _ & Hok').
    rewrite E in H. cbn in H. injection H as <- <- <-.
    set (w1 := System ids' (sockets_ w) (posted_ w) (streams_ w) (acceptors_ w)).
    split.
    + apply Hok'; [done|]. intros x Hne. rewrite view_post. by rewrite decide_False by (cbn; congruence).
    + intros x. change (projects w1 (label_of (OConnect sec) (Some id) x) [] (post (CallConnect id sec) w1) x).
      apply post_projects; [done|]. unfold label_of, call_id. destruct (decide (id = x)) as [->|]; [by rewrite decide_True|].
      by rewrite decide_False by congruence.
  - injection H as <- <- <-. unfold send, label_of. destruct (_ =? _) eqn:Ec.
    + split; [done|]. intros x. left. by destruct (decide _).
    + split; [apply (ids_ok_mono w); [done|done|]; intros x Hb; apply post_blank; [by intros []|done]|]. intros x. by apply post_projects; [intros []|].
  - injection H as <- <- <-. unfold accept. destruct (_ =? _); [|split; [done|by left]].
    split; [apply (ids_ok_mono w); [done|done|]; intros x Hb; apply post_blank; [by intros []|done]|]. intros x.
    apply post_projects; [by intros []|]. cbn. by destruct (decide _).
  - injection H as <- <- <-. split; [apply (ids_ok_mono w); [done|done|]; intros x Hb; apply post_blank; [by intros []|done]|].
    intros x. apply post_projects; [by intros []|]. cbn. by destruct (decide _).
  - destruct (run_posted r w) as [[w1 es1]|] eqn:E; [|done]. injection H as <- <- <-.
    destruct (run_posted_projects _ _ _ _ E) as (Hi & Hb & Hp). split; [by apply (ids_ok_mono w)|]. done.
  - destruct (accepted_one id conn w) as [[w1 es1]|] eqn:E; [|done]. injection H as <- <- <-.
    destruct (accepted_projects _ _ _ _ _ Hok (Hr eq_refl) E). done.
  - destruct (streams_ w !! id) as [s|] eqn:Es; [|done]. cbn in H. destruct (complete id c s) as [r|] eqn:E; [|done].
    injection H as <- <- <-. destruct (complete_projects _ _ _ _ _ Es E) as (Hi & Hb & Hp).
    split; [by apply (ids_ok_mono w)|]. done.
Qed.

(** * Nothing is lost or overtaken

    What was sent is on the wire, in the hands of [async_write], in the deque,
    or in a function that has not run. A number is known once [connect] has
    returned it or a handler has announced it.

    [co_write] goes on when [async_write] has failed: what the failed write did
    not take is lost, and what a later write takes comes after a hole. *)

(** No write has failed; one has and nothing was taken since; some was. *)
Inductive health := Whole | Cut | Holed.

#[export] Instance health_dec : EqDecision health.
Proof. solve_decision. Defined.

Definition worse (h : health) (e : error_code) (len : Z) : health :=
  match h with
  | Whole => if ec_true e then Cut else Whole
  | Cut => if len =? 0 then Cut else Holed
  | Holed => Holed
  end.

(** Of the bytes [A] handed to the connection it took [W]. *)
Definition taken (h : health) (A W : bytes) : Prop :=
  W `sublist_of` A /\ (h <> Holed -> W `prefix_of` A) /\ (h = Whole -> W = A).

Lemma taken_write h A W b e len :
  taken h A W -> 0 <= len <= zlen b -> ec_true e = true \/ len = zlen b ->
  taken (worse h e len) (A ++ b) (W ++ ztake len b).
Proof.
  intros (H1 & H2 & H3) Hl Hb. split; [|split].
  - apply sublist_app; [done|]. rewrite <- (ztake_zdrop len b) at 2. by apply sublist_inserts_r.
  - intros Hn. destruct h; cbn in Hn.
    + rewrite (H3 eq_refl). apply prefix_app. exists (zdrop len b). by rewrite ztake_zdrop.
    + destruct (Z.eqb_spec len 0) as [->|]; [|done]. rewrite ztake_0, app_nil_r. apply prefix_app_r. by apply H2.
    + done.
  - intros Hw. destruct h; cbn in Hw; [|by destruct (len =? 0)|done]. destruct (ec_true e); [done|].
    destruct Hb as [? | ->]; [done|]. by rewrite (H3 eq_refl), ztake_ge by lia.
Qed.

Definition sends (l : list call) : bytes := mjoin (omap (fun c => match c with CallSend _ b => Some b | _ => None end) l).

Definition no_sends (l : list call) : Prop := Forall (fun c => match c with CallSend _ _ => False | _ => True end) l.

Definition no_connects (l : list call) : Prop := Forall (fun c => match c with CallConnect _ _ => False | _ => True end) l.

Definition inflight (s : stream) : bytes := match writer_ s with WriterSends b => mjoin b | _ => [] end.

Definition wire (es : list effect) : bytes := mjoin (omap (fun e => match e with Wire _ b => Some b | _ => None end) es).

#[local] Arguments sends : simpl never.

Lemma sends_app l l' : sends (l ++ l') = sends l ++ sends l'.
Proof. unfold sends. by rewrite omap_app, join_app. Qed.

Lemma wire_app l l' : wire (l ++ l') = wire l ++ wire l'.
Proof. unfold wire. by rewrite omap_app, join_app. Qed.

Lemma no_sends_nil l : no_sends l -> sends l = [].
Proof. unfold sends. induction 1 as [|c l Hc _ IH]; [done|]. by destruct c. Qed.

(** The coroutines that write and read have not started. *)
Definition early (s : stream) : Prop := writer_ s = WriterNone /\ reading_ s = false.

Record stream_line (v : view) (s : stream) (kn : bool) (fl : health) (S W : bytes) : Prop := {
  sl_sent : exists A rest, S = A ++ inflight s ++ rest /\ taken fl A W /\
    (v_in v = true -> rest = mjoin (write_deque_ s) ++ sends (v_calls v));
  sl_open : open_ s = true -> v_in v = true \/ exists a, phase_ s = Handshaking (Some a);
  sl_early : phase_ s <> Settled -> early s;
  sl_resolving : phase_ s = Resolving -> open_ s = false /\ v_in v = true;
  sl_shake a : phase_ s = Handshaking (Some a) -> kn = false /\ v_in v = false /\ write_deque_ s = [] /\ timer_ s = false;
  sl_unknown : kn = false -> S = [] /\ no_sends (v_calls v);
  sl_started : Forall (fun c => ~ is_start c) (v_calls v) }.

Definition line_ok (id : Z) (v : view) (kn : bool) (fl : health) (S W : bytes) : Prop :=
  match v_stream v with
  | Some s => stream_line v s kn fl S W
  | None =>
      W = [] /\ fl = Whole /\ S = sends (v_calls v) /\
      if kn then
        exists pre sec rest, v_calls v = pre ++ CallConnect id sec :: rest /\
          no_sends pre /\ Forall (fun c => ~ is_start c) (pre ++ rest)
      else no_sends (v_calls v) /\ no_connects (v_calls v)
  end.

(** A stream keeps the invariant when it stays in the table with what it has
    to send, or leaves the table. *)
Lemma line_same v s s' b kn kn' fl S W :
  stream_line v s kn fl S W -> inflight s' = inflight s -> write_deque_ s' = write_deque_ s ->
  (b = true -> v_in v = true) -> (open_ s' = true -> b = true) ->
  (forall a, phase_ s' <> Handshaking (Some a)) -> (phase_ s' = Resolving -> open_ s' = false /\ b = true) ->
  (phase_ s' <> Settled -> early s') -> (kn' = false -> kn = false) ->
  stream_line (View (Some s') (v_acceptor v) b (v_calls v)) s' kn' fl S W.
Proof.
  intros [H1 H3 H4 H5 H6 H7 H8] Ei Ed Hb Ho Hp Hr He Hk. split; cbn; auto.
  - destruct H1 as (A & rest & E & Ht & Hrest). exists A, rest. rewrite Ei, Ed. auto.
  - intros a Ha. by destruct (Hp a).
Qed.

Lemma inflight_blocker s : inflight (cancel_blocker s) = inflight s.
Proof. by destruct s as [? ? ? ? ? ? []]. Qed.

Lemma deque_blocker s : write_deque_ (cancel_blocker s) = write_deque_ s.
Proof. by destruct s as [? ? ? ? ? ? []]. Qed.

Lemma open_blocker s : open_ (cancel_blocker s) = open_ s.
Proof. by destruct s as [? ? ? ? ? ? []]. Qed.

Lemma phase_blocker s : phase_ (cancel_blocker s) = phase_ s.
Proof. by destruct s as [? ? ? ? ? ? []]. Qed.

Lemma timer_blocker s : timer_ (cancel_blocker s) = timer_ s.
Proof. by destruct s as [? ? ? ? ? ? []]. Qed.

Lemma early_blocker s : early s -> early (cancel_blocker s).
Proof. destruct s as [? ? ? ? ? ? []]; by intros []. Qed.

(** [stop] called when the coroutine has gone on to [s0]. *)
Lemma line_stop id e v s s0 kn fl S W :
  stream_line v s kn fl S W -> inflight s0 = inflight s -> write_deque_ s0 = write_deque_ s ->
  (phase_ s0 = Settled \/ phase_ s0 = phase_ s /\ (forall a, phase_ s <> Handshaking (Some a)) /\ open_ s0 = open_ s /\ (early s -> early s0)) ->
  stream_line (put_stream v (stop id e s0)) (stop id e s0).1 kn fl S W.
Proof.
  intros H Ei Ed Hp.
  assert (forall a, phase_ s0 <> Handshaking (Some a)) as Hp1.
  { intros a Ha. destruct Hp as [?|(? & Hn & _)]; [congruence|]. apply (Hn a). congruence. }
  assert (phase_ s0 = Resolving -> open_ s0 = false /\ v_in v = true) as Hp2.
  { intros Ha. destruct Hp as [?|(? & _ & -> & _)]; [congruence|]. apply (sl_resolving _ _ _ _ _ _ H). congruence. }
  assert (phase_ s0 <> Settled -> early s0) as Hp3.
  { intros Ha. destruct Hp as [?|(? & _ & _ & He)]; [congruence|]. apply He, (sl_early _ _ _ _ _ _ H). congruence. }
  unfold stop, put_stream. destruct (open_ s0) eqn:Eo; cbn [fst snd effects_in foldl effect_in];
    (eapply line_same; [exact H|..]); rewrite ?inflight_blocker, ?deque_blocker, ?open_blocker, ?phase_blocker;
    try done; try congruence.
  - intros Hr. destruct (Hp2 Hr). congruence.
  - intros Ha. apply early_blocker. destruct (Hp3 Ha). done.
  - intros Hr. rewrite Eo. auto.
Qed.

(** Before [write_turn] nothing is in the hands of [async_write]. *)
Lemma line_turn v s kn fl S W :
  (exists A rest, S = A ++ rest /\ taken fl A W /\ (v_in v = true -> rest = mjoin (write_deque_ s) ++ sends (v_calls v))) ->
  (open_ s = true -> v_in v = true) -> phase_ s = Settled ->
  (kn = false -> S = [] /\ no_sends (v_calls v)) -> Forall (fun c => ~ is_start c) (v_calls v) ->
  forall s', s' = write_turn s \/ s' = write_woken s ->
  stream_line (View (Some s') (v_acceptor v) (v_in v) (v_calls v)) s' kn fl S W.
Proof.
  intros H1 H3 H4 H5 H6. pose proof H1 as (A & rest & -> & Ht & Hr).
  assert (stream_line (View (Some (set_writer WriterEnd s)) (v_acceptor v) (v_in v) (v_calls v)) (set_writer WriterEnd s) kn fl (A ++ rest) W) as He
    by (split; cbn; auto; congruence).
  assert (open_ s = true -> stream_line (View (Some (send_batch s)) (v_acceptor v) (v_in v) (v_calls v)) (send_batch s) kn fl (A ++ rest) W) as Hs.
  { intros Ho. split; cbn; auto; try congruence.
    exists A, (mjoin (zdrop (Z.min (zlen (write_deque_ s)) max_buffers) (write_deque_ s)) ++ sends (v_calls v)).
    rewrite Hr by auto. unfold inflight. cbn. by rewrite (app_assoc (mjoin _)), <- join_app, ztake_zdrop. }
  intros s' [-> | ->]; unfold write_turn, write_woken; destruct (open_ s); auto.
  destruct (write_deque_ s) as [|d l] eqn:Ed; [|auto].
  split; cbn; auto; try congruence. exists A, rest. by rewrite Ed.
Qed.

Lemma phase_turn s : phase_ (write_turn s) = phase_ s.
Proof. unfold write_turn. destruct (open_ s); [|done]. by destruct (write_deque_ s). Qed.

(** The coroutines start: nothing is written yet. *)
Lemma line_spawn v s s0 kn fl S W :
  stream_line v s kn fl S W -> writer_ s = WriterNone -> writer_ s0 = WriterNone -> write_deque_ s0 = write_deque_ s ->
  open_ s0 = open_ s -> phase_ s0 = Settled -> (forall a, phase_ s <> Handshaking (Some a)) ->
  stream_line (View (Some (spawn s0)) (v_acceptor v) (v_in v) (v_calls v)) (spawn s0) kn fl S W.
Proof.
  intros [H1 H3 H4 H5 H6 H7 H8] Hw Hw0 Ed Eo Ep Hn.
  assert (stream_line (View (Some (write_turn s0)) (v_acceptor v) (v_in v) (v_calls v)) (write_turn s0) kn fl S W) as [L1 L3 L4 L5 L6 L7 L8].
  { apply (line_turn v s0); auto; try done.
    - destruct H1 as (A & rest & E & Hr). exists A, rest. rewrite Ed. unfold inflight in E. by rewrite Hw in E.
    - rewrite Eo. intros Ho. destruct (H3 Ho) as [?|[a Ha]]; [done|]. by destruct (Hn a). }
  unfold spawn. split; cbn in *; auto. intros Hne. by rewrite phase_turn in Hne.
Qed.

(** A handler has announced the socket. *)
Definition announced (es : list effect) : bool := existsb (fun e => match e with HandAccept _ _ _ _ => true | _ => false end) es.

(** [async_write] takes all of the buffers, or fails. *)
Definition takes (s : stream) (e : error_code) (len : Z) : Prop := ec_true e = true \/ len = zlen (inflight s).

Definition health_after (h : health) (l : label) : health := match l with LWritten e len => worse h e len | _ => h end.

Lemma wire_stop id e s : wire (stop id e s).2 = [].
Proof. unfold stop. by destruct (open_ s). Qed.

Lemma announced_stop id e s : announced (stop id e s).2 = false.
Proof. unfold stop. by destruct (open_ s). Qed.

Lemma line_written id v s batch len e kn fl S W :
  stream_line v s kn fl S W -> writer_ s = WriterSends batch -> 0 <= len <= zlen (mjoin batch) -> takes s e len ->
  stream_line (put_stream v (write_done id batch len s)) (write_turn s) kn (worse fl e len) S (W ++ ztake len (mjoin batch)).
Proof.
  intros [H1 H3 H4 H5 H6 H7 H8] Ew Hl Ht. unfold put_stream, write_done. cbn [fst snd effects_in foldl effect_in].
  assert (inflight s = mjoin batch) as Ei by (unfold inflight; by rewrite Ew).
  assert (phase_ s = Settled) as Ep by (destruct (decide (phase_ s = Settled)); [done|]; destruct H4; congruence).
  apply (line_turn v s); auto.
  - destruct H1 as (A & rest & -> & Hw & Hr). exists (A ++ inflight s), rest. split; [by rewrite <- app_assoc|]. split; [|done].
    unfold takes in Ht. rewrite Ei in *. by apply taken_write.
  - intros Ho. destruct (H3 Ho) as [?|[a Ha]]; [done|congruence].
Qed.

Lemma line_complete id c v s r kn kn' fl l S W :
  stream_line v s kn fl S W -> complete id c s = Some r ->
  l = match c with Written e len => LWritten e len | _ => LNone end ->
  match c with Written e len => takes s e len | _ => True end ->
  kn' = kn || announced r.2 ->
  stream_line (put_stream v r) r.1 kn' (health_after fl l) S (W ++ wire r.2).
Proof.
  intros H E -> Ht ->. destruct c as [e o|o|e lo|e lo re|e| |e data| |e len]; cbn [complete health_after] in *.
  - destruct (phase_ s) eqn:Ep; try done. injection E as <-. unfold client_resolved. destruct (ec_true e).
    + rewrite wire_stop, announced_stop, orb_false_r, app_nil_r. apply (line_stop id e v s); auto.
    + cbn. rewrite orb_false_r, app_nil_r. destruct (sl_resolving _ _ _ _ _ _ H Ep) as [Ho Hi].
      eapply line_same; [exact H|..]; cbn; try done. intros _. apply (sl_early _ _ _ _ _ _ H). congruence.
  - destruct (phase_ s) eqn:Ep; try done. destruct (open_ s) eqn:Eo; [|done]. injection E as <-. cbn. rewrite orb_false_r, app_nil_r.
    eapply line_same; [exact H|..]; cbn; try done; try congruence; [|intros _; apply (sl_early _ _ _ _ _ _ H); congruence].
    intros _. destruct (sl_open _ _ _ _ _ _ H Eo) as [?|[a Ha]]; [done|congruence].
  - destruct (phase_ s) eqn:Ep; try done. injection E as <-. unfold client_connected. destruct (ec_true e); [|destruct (secure _)].
    + rewrite wire_stop, announced_stop, orb_false_r, app_nil_r. apply (line_stop id e v s); auto.
    + cbn. rewrite orb_false_r, app_nil_r. eapply line_same; [exact H|..]; cbn; try done.
      * intros Ho. destruct (sl_open _ _ _ _ _ _ H Ho) as [?|[a Ha]]; [done|congruence].
      * intros _. apply (sl_early _ _ _ _ _ _ H). congruence.
    + cbn. rewrite orb_false_r, app_nil_r. assert (early s) as [Ew _] by (apply (sl_early _ _ _ _ _ _ H); congruence).
      by apply (line_spawn v s); try done; intros a; congruence.
  - destruct (phase_ s) as [| |[a|]|] eqn:Ep; try done; injection E as <-; unfold session_handshaken, client_handshaken;
      (assert (early s) as Ew by (apply (sl_early _ _ _ _ _ _ H); congruence)); destruct (ec_true e).
    + rewrite wire_stop, announced_stop, orb_false_r, app_nil_r. apply (line_stop id e v s); auto.
    + cbn. rewrite orb_true_r, app_nil_r. destruct (sl_shake _ _ _ _ _ _ H a Ep) as (Hk & Hi & Hd & _).
      destruct (sl_unknown _ _ _ _ _ _ H Hk) as [HS Hn]. destruct H as [H1 _ _ _ _ _ H8].
      split; cbn; auto; try congruence. destruct H1 as (A & rest & E & Hta & _). exists A, rest. split; [done|]. split; [done|].
      intros _. rewrite Hd, (no_sends_nil _ Hn). rewrite HS in E. symmetry in E. by apply app_nil in E as [_ [_ E]%app_nil].
    + rewrite wire_stop, announced_stop, orb_false_r, app_nil_r. apply (line_stop id e v s); auto.
    + cbn. rewrite orb_false_r, app_nil_r. destruct Ew. by apply (line_spawn v s); try done; intros a; congruence.
  - destruct (timer_ s) eqn:Et; [|done]. injection E as <-. unfold client_timeout.
    assert (forall a, phase_ s <> Handshaking (Some a)) as Hn.
    { intros a Ha. destruct (sl_shake _ _ _ _ _ _ H a Ha) as (_ & _ & _ & ?). congruence. }
    destruct (ec_true e).
    + cbn. rewrite orb_false_r, app_nil_r. apply line_same with (s := s) (kn := kn); auto; cbn; try apply H.
      * intros Ho. destruct (sl_open _ _ _ _ _ _ H Ho) as [?|[a Ha]]; [done|]. by destruct (Hn a).
    + rewrite wire_stop, announced_stop, orb_false_r, app_nil_r. apply (line_stop id timed_out v s); auto.
  - destruct (phase_ s) as [| |[a|]|] eqn:Ep; try done; destruct (timer_ s); try done; injection E as <-;
      cbn; rewrite orb_false_r, app_nil_r; (eapply line_same; [exact H|..]; cbn; try done);
      intros Ho; destruct (sl_open _ _ _ _ _ _ H Ho) as [?|[b Hb]]; done || congruence.
  - destruct (reading_ s) eqn:Er; [|done]. injection E as <-. unfold read_done.
    assert (phase_ s = Settled) as Ep by (destruct (decide (phase_ s = Settled)) as [|Hn]; [done|]; destruct (sl_early _ _ _ _ _ _ H Hn); congruence).
    destruct (_ || _).
    + rewrite wire_stop, announced_stop, orb_false_r, app_nil_r. apply (line_stop id e v s); auto.
    + cbn. rewrite orb_false_r, app_nil_r. destruct v as [vs va vi vc]. cbn. by destruct H; split.
  - destruct (writer_ s) as [|[]|b|] eqn:Ew; try done. injection E as <-. cbn. rewrite orb_false_r, app_nil_r.
    assert (phase_ s = Settled) as Ep by (destruct (decide (phase_ s = Settled)) as [|Hn]; [done|]; destruct (sl_early _ _ _ _ _ _ H Hn); congruence).
    apply (line_turn v s); auto; try apply H.
    + destruct (sl_sent _ _ _ _ _ _ H) as (A & rest & E & Hr). exists A, rest. unfold inflight in E. by rewrite Ew in E.
    + intros Ho. destruct (sl_open _ _ _ _ _ _ H Ho) as [?|[a Ha]]; [done|congruence].
  - destruct (writer_ s) as [| |batch|] eqn:Ew; try done. destruct (_ && _) eqn:El; [|done]. injection E as <-.
    cbn [fst write_done snd wire]. cbn [announced existsb]. rewrite orb_false_r.
    replace (wire [Wire id (ztake len (mjoin batch))]) with (ztake len (mjoin batch)) by (unfold wire; cbn; by rewrite app_nil_r).
    apply line_written; try done. lia.
Qed.

(** A session is settled, or in its handshake. *)
Definition session_phase (s : stream) : Prop :=
  match kind_ s with
  | tcp_session_impl | ssl_session_impl => phase_ s = Settled \/ exists a, phase_ s = Handshaking (Some a)
  | _ => forall a, phase_ s <> Handshaking (Some a)
  end.

Lemma session_accept_cases s s' :
  session_accept s = Some s' ->
  s' = s \/ s' = spawn s /\ (kind_ s = tcp_session_impl \/ kind_ s = ssl_session_impl) /\ writer_ s = WriterNone.
Proof.
  unfold session_accept. destruct (kind_ s); intros H; try (left; congruence); case_decide; try done;
    right; split_and!; try congruence; tauto.
Qed.

Definition kind_ok (v : view) : Prop := forall s, v_stream v = Some s -> session_phase s.

Lemma kind_blocker s : kind_ (cancel_blocker s) = kind_ s.
Proof. by destruct s as [? ? ? ? ? ? []]. Qed.

Lemma kind_turn s : kind_ (write_turn s) = kind_ s.
Proof. unfold write_turn. destruct (open_ s); [|done]. by destruct (write_deque_ s). Qed.

Lemma session_stop id e s s0 :
  session_phase s -> kind_ s0 = kind_ s -> phase_ s0 = phase_ s \/ phase_ s0 = Settled -> session_phase (stop id e s0).1.
Proof.
  unfold session_phase, stop. intros H Ek Hp. destruct (open_ s0); cbn [fst]; rewrite ?kind_blocker, ?phase_blocker; cbn; rewrite Ek;
    destruct Hp as [-> | ->]; try done; destruct (kind_ s); done || by left.
Qed.

Lemma session_complete id c s r : session_phase s -> complete id c s = Some r -> session_phase r.1.
Proof.
  intros H E. unfold complete, client_resolved, client_connected, client_handshaken, client_timeout, session_handshaken,
    read_done, write_done, connected, write_woken in E.
  repeat case_match; simplify_eq; try (eapply session_stop; [exact H|done|(by left) || (by right)]); try done;
    unfold session_phase, spawn in *; cbn in *; rewrite ?kind_turn, ?phase_turn; cbn;
    destruct (kind_ s); try done; try (by left); destruct H as [?|[? ?]]; congruence.
Qed.

(** What the label adds to what was sent; nobody sends to an unknown socket. *)
Definition sent (l : label) : bytes := match l with LSend b => b | _ => [] end.

Definition connects (l : label) : bool := match l with LConnect => true | _ => false end.

Definition legal_label (v : view) (kn : bool) (l : label) : Prop :=
  match l with
  | LSend _ => kn = true
  | LWritten e len => forall s, v_stream v = Some s -> takes s e len
  | _ => True
  end.

Lemma no_sends_app l l' : no_sends (l ++ l') <-> no_sends l /\ no_sends l'.
Proof. apply list.Forall_app. Qed.

Lemma no_sends_one c : (match c with CallSend _ _ => False | _ => True end) -> no_sends [c].
Proof. intros H. constructor; [done|constructor]. Qed.

Lemma wire_nil : wire [] = [].
Proof. done. Qed.

(** Posting a function. *)
Lemma line_post id v c kn fl S W :
  line_ok id v kn fl S W -> call_id c = id -> (is_start c -> blank v) ->
  (match c with CallSend _ _ => kn = true | _ => True end) ->
  let v' := View (v_stream v) (v_acceptor v) (v_in v) (v_calls v ++ [c]) in
  let kn' := match c with CallConnect _ _ => true | _ => kn end in
  let S' := S ++ match c with CallSend _ b => b | _ => [] end in
  line_ok id v' kn' fl S' W.
Proof.
  intros H Hc Hb Hs. cbn zeta. unfold line_ok in *. cbn [v_stream]. destruct (v_stream v) as [s|] eqn:Es.
  - assert (~ is_start c) as Hn by (intros Hst; destruct (Hb Hst); congruence).
    destruct H as [H1 H3 H4 H5 H6 H7 H8].
    assert (sends (v_calls v ++ [c]) = sends (v_calls v) ++ match c with CallSend _ b => b | _ => [] end) as Ee.
    { rewrite sends_app. f_equal. destruct c; try done. apply app_nil_r. }
    assert ((match c with CallConnect _ _ => true | _ => kn end) = kn) as -> by (destruct c; try done; by destruct Hn).
    split; cbn [v_in v_calls]; auto.
    + destruct H1 as (A & rest & -> & Ht & Hr). eexists A, _. rewrite <- !app_assoc. split; [reflexivity|]. split; [done|].
      intros Hi. rewrite Ee, Hr by done. by rewrite app_assoc.
    + intros Hk. destruct (H7 Hk) as [-> Hns]. destruct c; try (split; [done|]; apply no_sends_app; split; [done|by apply no_sends_one]). congruence.
    + apply list.Forall_app. split; [done|]. by constructor.
  - destruct H as (-> & -> & -> & H).
    split; [done|]. split; [done|]. split.
    { cbn [v_calls]. rewrite sends_app. f_equal. destruct c; try done. unfold sends. cbn. by rewrite app_nil_r. }
    destruct kn; cbn [v_calls].
    + destruct H as (pre & sec & rest & E & Hpre & Hst). rewrite E.
      assert (~ is_start c) as Hn.
      { intros Hs'. destruct (Hb Hs') as (_ & _ & _ & Hf). rewrite E in Hf. apply list.Forall_app in Hf as [_ Hf].
        apply list.Forall_cons in Hf as [Hf _]. by apply Hf. }
      assert ((match c with CallConnect _ _ => true | _ => true end) = true) as -> by by destruct c.
      exists pre, sec, (rest ++ [c]). rewrite <- app_assoc. split; [done|]. split; [done|]. rewrite app_assoc.
      apply list.Forall_app. split; [done|]. by constructor.
    + destruct H as [Hn Hn']. destruct c as [| id' sec| | |];
        try (split; [apply no_sends_app; split; [done|by apply no_sends_one]|apply list.Forall_app; split; [done|by repeat constructor]]).
      cbn in Hc. subst id'. exists (v_calls v), sec, []. split; [done|]. split; [done|]. rewrite app_nil_r. by apply (Hb I).
Qed.

Lemma line_taken v s c rest kn fl S W :
  v_calls v = c :: rest -> stream_line v s kn fl S W -> (match c with CallSend _ _ => False | _ => True end) ->
  stream_line (View (v_stream v) (v_acceptor v) (v_in v) rest) s kn fl S W.
Proof.
  intros E [H1 H3 H4 H5 H6 H7 H8] Hc. rewrite E in *. split; cbn [v_in v_calls]; auto.
  - destruct H1 as (A & r & -> & Ht & Hr). exists A, r. split; [done|]. split; [done|]. intros Hi. rewrite Hr by done. by destruct c.
  - intros Hk. destruct (H7 Hk) as [? Hn]. by apply list.Forall_cons in Hn as [_ ?].
  - by apply list.Forall_cons in H8 as [_ ?].
Qed.

(** A posted function runs. *)
Lemma line_run_stream id c r v s rest v' es kn fl S W :
  v_calls v = c :: rest -> v_stream v = Some s -> stream_line v s kn fl S W -> kind_ok v ->
  run_view id c r (View (v_stream v) (v_acceptor v) (v_in v) rest) = Some (v', es) ->
  wire es = [] /\ announced es = false /\ line_ok id v' kn fl S W.
Proof.
  intros Ec Es H Hkind E. assert (~ is_start c) as Hn.
  { pose proof (sl_started _ _ _ _ _ _ H) as Hst. rewrite Ec in Hst. by apply list.Forall_cons in Hst as [? _]. }
  destruct c as [| |id' buf|id'|id']; cbn [is_start] in Hn; try tauto; cbn [run_view v_stream v_in v_acceptor] in E; rewrite Es in E.
  - injection E as <- <-. split; [done|]. split; [done|]. destruct (v_in v) eqn:Ei.
    + unfold line_ok, put_stream, write. cbn [fst snd v_stream v_acceptor v_calls v_in effects_in foldl].
      destruct H as [H1 H3 H4 H5 H6 H7 H8]. rewrite Ec in *.
      split; cbn [v_in v_calls]; rewrite ?inflight_blocker, ?deque_blocker, ?open_blocker, ?phase_blocker, ?timer_blocker; cbn; auto.
      * destruct H1 as (A & x & -> & Ht & Hx). exists A, x. split; [done|]. split; [done|]. intros _. rewrite Hx by done.
        change (sends (CallSend id' buf :: rest)) with (buf ++ sends rest). rewrite join_app. cbn. by rewrite app_nil_r, app_assoc.
      * intros Hp. apply early_blocker. by destruct (H4 Hp).
      * intros Hp. destruct (H5 Hp). done.
      * intros a Ha. destruct (H6 a Ha) as (? & ? & _). congruence.
      * intros Hk. destruct (H7 Hk) as [? Hns]. by apply list.Forall_cons in Hns as [? _].
      * by apply list.Forall_cons in H8 as [_ ?].
    + cbn [line_ok v_stream]. destruct H as [H1 H3 H4 H5 H6 H7 H8]. rewrite Ec in *.
      split; cbn [v_in v_calls]; rewrite ?Ei; auto.
      * destruct H1 as (A & x & -> & Ht & Hx). by exists A, x.
      * intros Ho. destruct (H3 Ho); [congruence|auto].
      * intros Hp. destruct (H5 Hp). congruence.
      * intros a Ha. by destruct (H6 a Ha) as (? & ? & ?).
      * intros Hk. destruct (H7 Hk) as [? Hns]. by apply list.Forall_cons in Hns as [? _].
      * by apply list.Forall_cons in H8 as [_ ?].
  - pose proof (line_taken _ _ _ _ _ _ _ _ Ec H I) as Ht. destruct (v_in v) eqn:Ei.
    + destruct (session_accept s) as [s'|] eqn:Ea; [|done]. injection E as <- <-. split; [done|]. split; [done|].
      unfold line_ok, put_stream. cbn [fst snd v_stream v_acceptor v_calls v_in effects_in foldl].
      assert (forall a, phase_ s <> Handshaking (Some a)) as Hnp.
      { intros a Ha. destruct (sl_shake _ _ _ _ _ _ H a Ha) as (_ & ? & _). congruence. }
      destruct (session_accept_cases _ _ Ea) as [->|(-> & Ek & Ew)]; [by rewrite <- Es|].
      assert (phase_ s = Settled) as Ep by (specialize (Hkind s Es); unfold session_phase in Hkind; destruct Ek as [Ek|Ek]; rewrite Ek in Hkind; destruct Hkind as [?|[a ?]]; [done|by destruct (Hnp a)|done|by destruct (Hnp a)]).
      rewrite <- Ei. apply (line_spawn (View (v_stream v) (v_acceptor v) (v_in v) rest) s s); try done. by rewrite Ei.
    + injection E as <- <-. split; [done|]. split; [done|]. cbn [line_ok v_stream]. by rewrite <- Es.
  - pose proof (line_taken _ _ _ _ _ _ _ _ Ec H I) as Ht. destruct (v_in v) eqn:Ei; injection E as <- <-.
    + rewrite wire_stop, announced_stop. split; [done|]. split; [done|].
      assert (forall a, phase_ s <> Handshaking (Some a)) as Hnp.
      { intros a Ha. destruct (sl_shake _ _ _ _ _ _ H a Ha) as (_ & ? & _). congruence. }
      rewrite <- Es. by apply (line_stop id (socket_error initiative_disconnect) (View (v_stream v) (v_acceptor v) true rest) s s); auto.
    + split; [done|]. split; [done|]. cbn [line_ok v_stream]. by rewrite <- Es.
Qed.

(** The first posted function of a number without a stream. *)
Lemma line_none_taken id v c rest kn S W :
  v_calls v = c :: rest -> v_stream v = None -> line_ok id v kn Whole S W -> kn = false \/ (forall sec, c <> CallConnect id sec) ->
  ~ (exists x b, c = CallSend x b) /\
  forall a b, line_ok id (View None a b rest) kn Whole S W.
Proof.
  intros Ec Es H Hc. unfold line_ok in *. rewrite Es, Ec in H. destruct H as (-> & _ & -> & H). cbn [v_stream v_calls].
  assert (~ (exists x b, c = CallSend x b) /\
          if kn then exists pre sec r, rest = pre ++ CallConnect id sec :: r /\ no_sends pre /\ Forall (fun c => ~ is_start c) (pre ++ r)
          else no_sends rest /\ no_connects rest) as [Hn Hrest].
  { destruct kn.
    - destruct H as (pre & sec & r & E & Hpre & Hst). destruct pre as [|p pre]; cbn in E; injection E as -> ->.
      + destruct Hc as [?|Hc]; [done|]. by destruct (Hc sec).
      + apply list.Forall_cons in Hpre as [Hp Hpre]. cbn in Hst. apply list.Forall_cons in Hst as [_ Hst].
        split; [by intros (x & b & ->)|by exists pre, sec, r].
    - destruct H as [H H']. apply list.Forall_cons in H as [Hp H], H' as [_ H']. split; [by intros (x & b & ->)|done]. }
  split; [done|]. intros a b. split; [done|]. split; [done|]. split; [|done].
  destruct c as [| |x y| |]; try done. destruct Hn. by exists x, y.
Qed.

Lemma wire_acceptor id e a : wire (acceptor_stop id e a).2 = [] /\ announced (acceptor_stop id e a).2 = false.
Proof. unfold acceptor_stop. by destruct (acc_open a). Qed.

Lemma wire_server_start id sec tls e l :
  wire (server_start id sec tls e l).2 = [] /\ announced (server_start id sec tls e l).2 = false.
Proof.
  enough (forall l1 l2, wire (acceptor_start id sec l1 l2).2 = [] /\ announced (acceptor_start id sec l1 l2).2 = false) as H
    by (unfold server_start; destruct sec; apply H).
  intros l1 l2. unfold acceptor_start. destruct (first_error l1), (first_error l2); try apply wire_acceptor. done. Qed.

Lemma line_run_none id c r v rest v' es kn S W :
  v_calls v = c :: rest -> call_id c = id -> v_stream v = None -> line_ok id v kn Whole S W ->
  run_view id c r (View (v_stream v) (v_acceptor v) (v_in v) rest) = Some (v', es) ->
  wire es = [] /\ announced es = false /\ line_ok id v' kn Whole S W.
Proof.
  intros Ec Hid Es H E. destruct c as [x sec|x sec|x buf|x|x]; cbn [run_view v_stream v_in v_acceptor call_id] in *; rewrite ?Es in E.
  - destruct (line_none_taken _ _ _ _ _ _ _ Ec Es H) as [_ Ht]; [by right|]. injection E as <- <-.
    destruct (wire_server_start id sec (tls_results r) (open_result r) (listen_results r)) as [-> ->].
    split; [done|]. split; [done|]. apply Ht.
  - subst x. injection E as <- <-. unfold line_ok in H. rewrite Es in H. destruct H as (-> & _ & -> & H).
    destruct kn; [|destruct H as [_ H]; rewrite Ec in H; by apply list.Forall_cons in H as [? _]].
    assert (Forall (fun c => ~ is_start c) rest /\ sends (v_calls v) = sends rest) as (Hst & ->).
    { rewrite Ec in *. destruct H as (pre & sec' & r' & E' & Hpre & Hst). destruct pre as [|p pre]; cbn in E'; injection E' as ? E'; subst; [done|].
      cbn in Hst. apply list.Forall_cons in Hst as [Hst _]. by destruct Hst. }
    unfold client_start, ssl_client_start. destruct sec; [destruct (first_error _) as [e|]|].
    + rewrite wire_stop, announced_stop. split; [done|]. split; [done|]. cbn. split; cbn; try done. by exists [], (sends rest).
    + split; [done|]. split; [done|]. cbn. split; cbn; try done. by exists [], (sends rest).
    + split; [done|]. split; [done|]. cbn. split; cbn; try done. by exists [], (sends rest).
  - destruct (line_none_taken _ _ _ _ _ _ _ Ec Es H) as [Hn _]; [by right|]. destruct Hn. by exists x, buf.
  - destruct (line_none_taken _ _ _ _ _ _ _ Ec Es H) as [_ Ht]; [by right|]. injection E as <- <-.
    split; [done|]. split; [done|]. apply Ht.
  - destruct (line_none_taken _ _ _ _ _ _ _ Ec Es H) as [_ Ht]; [by right|].
    destruct (v_in v); [destruct (v_acceptor v) as [a|]|]; injection E as <- <-.
    + destruct (wire_acceptor id (socket_error initiative_disconnect) a) as [-> ->]. split; [done|]. split; [done|].
      exact (Ht None true).
    + split; [done|]. split; [done|]. apply Ht.
    + split; [done|]. split; [done|]. apply Ht.
Qed.

(** Every move of a socket keeps what was sent in order. *)
Lemma move_line id v l es v' kn fl S W :
  socket_move id v l es v' -> kind_ok v -> line_ok id v kn fl S W -> legal_label v kn l ->
  line_ok id v' (kn || connects l || announced es) (health_after fl l) (S ++ sent l) (W ++ wire es).
Proof.
  intros Hm Hk H Hl. destruct Hm as [v c l -> Hid Hb|v c rest r es v' Ec Hid E|v a sec local remote Hb|v a Ea|v s c r l Es E ->].
  - rewrite wire_nil, app_nil_r, orb_false_r.
    pose proof (line_post id v c kn fl S W H Hid Hb) as Hp. cbn zeta in Hp.
    destruct c; cbn [sent connects health_after legal_label] in *; rewrite ?orb_false_r, ?orb_true_r, ?app_nil_r in *; auto.
  - cbn [sent connects health_after]. rewrite !orb_false_r, app_nil_r. destruct (v_stream v) as [s|] eqn:Es.
    + unfold line_ok in H. rewrite Es in H. rewrite <- Es in E. destruct (line_run_stream _ _ _ _ _ _ _ _ _ _ _ _ Ec Es H Hk E) as (-> & -> & Hl').
      by rewrite app_nil_r, orb_false_r.
    + assert (fl = Whole) as -> by (unfold line_ok in H; rewrite Es in H; tauto). rewrite <- Es in E.
      destruct (line_run_none _ _ _ _ _ _ _ _ _ _ Ec Hid Es H E) as (-> & -> & Hl').
      by rewrite app_nil_r, orb_false_r.
  - cbn [sent connects health_after]. rewrite !orb_false_r, app_nil_r. destruct Hb as (Hs & Ha & Hi & Hc).
    unfold line_ok in H. rewrite Hs in H. destruct H as (-> & -> & -> & H). destruct kn.
    { exfalso. destruct H as (pre & sec0 & rest & E & _). rewrite E in Hc. apply list.Forall_app in Hc as [_ Hc].
      apply list.Forall_cons in Hc as [Hc _]. by destruct Hc. }
    destruct H as [Hns Hnc].
    unfold session_start. destruct sec; cbn [orb announced existsb wire snd fst line_ok put_stream v_stream];
      rewrite ?wire_nil; rewrite (no_sends_nil _ Hns).
    + split; cbn; try done; [exists [], []; by rewrite (no_sends_nil _ Hns)|by right; exists a].
    + split; cbn; try done; [exists [], []; by rewrite (no_sends_nil _ Hns)|by left].
  - cbn [sent connects health_after]. rewrite !orb_false_r, !app_nil_r. unfold line_ok in *. cbn [v_stream v_calls]. destruct (v_stream v) as [s|] eqn:Es; [|done].
    destruct H; split; auto.
  - unfold line_ok in *. rewrite Es in H. cbn [v_stream put_stream].
    replace (S ++ sent _) with S by (destruct c; cbn; by rewrite app_nil_r).
    eapply (line_complete id c v s r kn); [exact H|exact E|done| |].
    + destruct c; cbn in Hl; auto.
    + f_equal. destruct c; cbn; by rewrite orb_false_r.
Qed.

Lemma move_kind id v l es v' : socket_move id v l es v' -> kind_ok v -> kind_ok v'.
Proof.
  intros Hm H. destruct Hm as [v c l _ _ _|v c rest r es v' _ _ E|v a sec local remote _|v a _|v s c r l Es E _]; try exact H.
  - destruct c as [x sec|x sec|x buf|x|x]; cbn in E.
    + by injection E as <- <-.
    + injection E as <- <-. intros s [= <-]. unfold client_start, ssl_client_start. destruct sec; [destruct (first_error _)|]; done.
    + injection E as <- <-. destruct (v_stream v) as [s|] eqn:Es; [|intros s Hs; cbn in Hs; congruence]. destruct (v_in v); [|intros s' Hs; apply H; cbn in Hs; congruence].
      intros s' [= <-]. specialize (H s Es). unfold session_phase, write in *. by rewrite kind_blocker, phase_blocker.
    + destruct (v_stream v) as [s|] eqn:Es; [|injection E as <- <-; intros s' Hs; cbn in Hs; congruence].
      destruct (v_in v); [|injection E as <- <-; intros s' Hs; apply H; cbn in Hs; congruence].
      destruct (session_accept s) as [s1|] eqn:Ea; [|done]. injection E as <- <-. intros s' [= <-]. specialize (H s Es).
      destruct (session_accept_cases _ _ Ea) as [->|(-> & _)]; [done|]. unfold session_phase, spawn in *. cbn. by rewrite kind_turn, phase_turn.
    + destruct (v_in v); [|injection E as <- <-; intros s' Hs; apply H; by cbn in Hs].
      destruct (v_stream v) as [s|] eqn:Es; [|destruct (v_acceptor v)]; injection E as <- <-; try (intros s' Hs; cbn in Hs; congruence).
      intros s' [= <-]. eapply session_stop; [exact (H s Es)|done|by left].
  - intros s [= <-]. unfold session_start. destruct sec; cbn; [by right; exists a|by left].
  - intros s' [= <-]. by eapply session_complete; [apply H|].
Qed.

(** * The writer does not sleep on something to send *)

Definition awake (s : stream) : Prop :=
  (writer_ s = WriterWaits false -> write_deque_ s = []) /\ (writer_ s = WriterEnd -> open_ s = false) /\
  (phase_ s <> Settled -> writer_ s = WriterNone).

Definition awake_ok (v : view) : Prop := forall s, v_stream v = Some s -> awake s.

Lemma awake_turn s : phase_ s = Settled -> awake (write_turn s) /\ awake (write_woken s).
Proof.
  intros Hp. unfold awake, write_turn, write_woken. destruct (open_ s) eqn:Eo; [|by split; split_and!; cbn; auto; congruence].
  split; [|by split_and!; cbn; auto; congruence]. destruct (write_deque_ s) eqn:Ed; by split_and!; cbn; auto; congruence.
Qed.

Lemma awake_spawn s : phase_ s = Settled -> awake (spawn s).
Proof. intros Hp. destruct (awake_turn s Hp) as [H _]. exact H. Qed.

Lemma awake_stop id e s s0 :
  awake s -> writer_ s0 = writer_ s -> write_deque_ s0 = write_deque_ s -> phase_ s0 = phase_ s \/ phase_ s0 = Settled ->
  open_ s0 = open_ s -> awake (stop id e s0).1.
Proof.
  intros (H1 & H2 & H3) Ew Ed Hp Eo. unfold stop. destruct s0 as [k o d p t rd wr]. cbn in *. subst.
  destruct (open_ s) eqn:Eo; unfold awake; cbn; destruct (writer_ s) as [|[]| |] eqn:Ew; cbn; split_and!; try done; auto;
    intros Hn; destruct Hp as [-> | ->]; try done; by specialize (H3 Hn).
Qed.

Lemma awake_complete id c s r : awake s -> complete id c s = Some r -> awake r.1.
Proof.
  intros H E. assert (phase_ s = Settled \/ writer_ s = WriterNone) as Hp.
  { destruct (decide (phase_ s = Settled)); [by left|]. right. by apply H. }
  unfold complete, client_resolved, client_connected, client_handshaken, client_timeout, session_handshaken,
    read_done, write_done, connected in E.
  repeat case_match; simplify_eq;
    try (eapply awake_stop; [exact H|done|done|(by left) || (by right)|done]); try exact H;
    try (by apply awake_spawn); try (destruct Hp as [Hp|Hp]; [by apply awake_turn|congruence]);
    (assert (writer_ s = WriterNone) as Ew by (destruct Hp; congruence)); unfold awake; cbn; rewrite Ew; by split_and!.
Qed.

Lemma awake_write buf s : awake s -> awake (write buf s).
Proof.
  intros (H1 & H2 & H3). destruct s as [k o d p t rd wr]. unfold awake, write, cancel_blocker in *. cbn in *.
  destruct wr as [|[]| |]; cbn; split_and!; try done; intros Hn; by specialize (H3 Hn).
Qed.

Lemma move_awake id v l es v' : socket_move id v l es v' -> kind_ok v -> awake_ok v -> (forall s, v_stream v = Some s -> v_in v = true -> forall a, phase_ s <> Handshaking (Some a)) -> awake_ok v'.
Proof.
  intros Hm Hkind H Hn. destruct Hm as [v c l _ _ _|v c rest r es v' _ _ E|v a sec local remote _|v a _|v s c r l Es E _]; try exact H.
  - destruct c as [x sec|x sec|x buf|x|x]; cbn in E.
    + by injection E as <- <-.
    + injection E as <- <-. intros s [= <-]. unfold client_start, ssl_client_start. destruct sec; [destruct (first_error _)|]; by split_and!.
    + injection E as <- <-. destruct (v_stream v) as [s|] eqn:Es; [|intros s Hs; cbn in Hs; congruence].
      destruct (v_in v); [|intros s' Hs; apply H; cbn in Hs; congruence].
      intros s' [= <-]. apply awake_write, H, Es.
    + destruct (v_stream v) as [s|] eqn:Es; [|injection E as <- <-; intros s' Hs; cbn in Hs; congruence].
      destruct (v_in v); [|injection E as <- <-; intros s' Hs; apply H; cbn in Hs; congruence].
      destruct (session_accept s) as [s1|] eqn:Ea; [|done]. injection E as <- <-. intros s' [= <-].
      destruct (session_accept_cases _ _ Ea) as [->|(-> & Ek & _)]; [apply H, Es|]. apply awake_spawn.
      specialize (Hkind s Es). specialize (Hn s eq_refl eq_refl). unfold session_phase in Hkind.
      destruct Ek as [Ek|Ek]; rewrite Ek in Hkind; destruct Hkind as [?|[a Ha]]; try done; by destruct (Hn a).
    + destruct (v_in v); [|injection E as <- <-; intros s' Hs; apply H; by cbn in Hs].
      destruct (v_stream v) as [s|] eqn:Es; [|destruct (v_acceptor v)]; injection E as <- <-; try (intros s' Hs; cbn in Hs; congruence).
      intros s' [= <-]. eapply awake_stop; [exact (H s Es)|done|done|by left|done].
  - intros s [= <-]. unfold session_start. destruct sec; by split_and!.
  - intros s' [= <-]. by eapply awake_complete; [apply H|].
Qed.

(** * A socket starts and stops once *)

Fixpoint stops (es : list effect) : nat :=
  match es with [] => 0 | HandStop _ _ :: es => S (stops es) | _ :: es => stops es end.

Fixpoint announcements (es : list effect) : nat :=
  match es with [] => 0 | HandStart _ _ :: es | HandAccept _ _ _ _ :: es => S (announcements es) | _ :: es => announcements es end.

Definition inserted (es : list effect) : bool := existsb (fun e => match e with Insert _ => true | _ => false end) es.

Lemma stops_app es es' : stops (es ++ es') = (stops es + stops es')%nat.
Proof. induction es as [|e es IH]; [done|]. destruct e; cbn; lia. Qed.

Lemma announcements_app es es' : announcements (es ++ es') = (announcements es + announcements es')%nat.
Proof. induction es as [|e es IH]; [done|]. destruct e; cbn; lia. Qed.

Lemma inserted_app es es' : inserted (es ++ es') = inserted es || inserted es'.
Proof. apply existsb_app. Qed.

(** [es] are the effects about the socket so far. *)
Record life (v : view) (es : list effect) : Prop := {
  lf_stops : (stops es <= 1)%nat;
  lf_announced : (announcements es <= 1)%nat;
  lf_in : v_in v = true -> stops es = 0%nat;
  lf_inserted : inserted es = true -> v_in v = true \/ stops es = 1%nat;
  lf_stream s : v_stream v = Some s -> v_acceptor v = None /\
    (open_ s = true -> stops es = 0%nat) /\ (phase_ s <> Settled -> announcements es = 0%nat) /\
    (forall a, phase_ s = Handshaking (Some a) -> open_ s = true);
  lf_acceptor a : v_acceptor v = Some a -> Forall (fun c => ~ is_start c) (v_calls v) /\ (acc_open a = true -> stops es = 0%nat);
  lf_none : v_stream v = None -> v_acceptor v = None -> es = [] /\ v_in v = false;
  lf_once : (length (filter is_start (v_calls v)) <= 1)%nat }.

(** [stop] announces the end of an open socket, and takes it out of the table. *)
Lemma life_stop id e v es s s0 :
  life v es -> v_stream v = Some s -> open_ s0 = open_ s -> phase_ s0 = Settled \/ phase_ s0 = phase_ s ->
  (forall a, phase_ s0 <> Handshaking (Some a)) ->
  life (put_stream v (stop id e s0)) (es ++ (stop id e s0).2).
Proof.
  intros [H1 H2 H3 H4 H5 H6 H7 H8] Es Eo Hp Hn. destruct (H5 s Es) as (Ha & Ho & Hph & _).
  unfold stop. destruct (open_ s0) eqn:E0; unfold put_stream; cbn [fst snd effects_in foldl effect_in].
  - assert (stops es = 0%nat) as Hz by (apply Ho; congruence).
    split; rewrite ?stops_app, ?announcements_app, ?inserted_app; cbn; try done.
    + lia.
    + lia.
    + intros _. right. lia.
    + intros s' [= <-]. rewrite open_blocker, phase_blocker. cbn. split; [done|]. split; [done|]. split.
      * intros Hne. rewrite Hph; [done|]. destruct Hp as [Hp|Hp]; congruence.
      * intros a Hs. by destruct (Hn a).
    + congruence.
  - rewrite app_nil_r. split; cbn; auto.
    + intros s' [= <-]. split; [done|]. split; [congruence|]. split.
      * intros Hne. apply Hph. destruct Hp as [Hp|Hp]; congruence.
      * intros a Hs. by destruct (Hn a).
    + done.
Qed.

(** A step without effects. *)
Lemma life_quiet v es s s' :
  life v es -> v_stream v = Some s -> (open_ s' = true -> stops es = 0%nat) -> (phase_ s' <> Settled -> phase_ s <> Settled) ->
  (forall a, phase_ s' = Handshaking (Some a) -> open_ s' = true) ->
  life (View (Some s') (v_acceptor v) (v_in v) (v_calls v)) es.
Proof.
  intros [H1 H2 H3 H4 H5 H6 H7 H8] Es Ho Hp Hh. destruct (H5 s Es) as (Ha & _ & Hph & _).
  split; cbn; auto; [|done]. intros s2 [= <-]. auto 6.
Qed.

Lemma open_turn s : open_ (write_turn s) = open_ s.
Proof. unfold write_turn. destruct (open_ s) eqn:E; [|done]. by destruct (write_deque_ s). Qed.

Lemma life_connected id local v es s s0 :
  life v es -> v_stream v = Some s -> phase_ s <> Settled -> open_ s0 = open_ s -> phase_ s0 = Settled ->
  life (put_stream v (spawn s0, [HandStart id local])) (es ++ [HandStart id local]).
Proof.
  intros [H1 H2 H3 H4 H5 H6 H7 H8] Es Hne Eo Ep. destruct (H5 s Es) as (Ha & Ho & Hph & _).
  unfold put_stream. cbn [fst snd effects_in foldl effect_in].
  split; rewrite ?stops_app, ?announcements_app, ?inserted_app; cbn; rewrite ?Nat.add_0_r, ?orb_false_r; auto.
  - rewrite Hph by done. lia.
  - intros s' [= <-]. unfold spawn. cbn. rewrite open_turn, phase_turn, Eo, Ep. split; [done|]. split; [done|]. split; [done|]. by intros a.
  - done.
Qed.

Lemma life_complete id c v s r es kn fl S W :
  life v es -> v_stream v = Some s -> stream_line v s kn fl S W -> complete id c s = Some r ->
  life (put_stream v r) (es ++ r.2).
Proof.
  intros H Es Hl E. destruct (lf_stream _ _ H s Es) as (Ha & Ho & Hph & Hh).
  assert (phase_ s = Resolving -> stops es = 0%nat) as Hr.
  { intros Hp. apply (lf_in _ _ H), (sl_resolving _ _ _ _ _ _ Hl Hp). }
  assert (phase_ s <> Settled -> early s) as He by apply Hl.
  destruct c as [e o|o|e lo|e lo re|e| |e data| |e len]; cbn [complete] in E.
  - destruct (phase_ s) eqn:Ep; try done. injection E as <-. unfold client_resolved. destruct (ec_true e).
    + by apply (life_stop id e v es s); auto.
    + rewrite app_nil_r. apply (life_quiet v es s); auto; cbn; try done; congruence.
  - destruct (phase_ s) eqn:Ep; try done. destruct (open_ s) eqn:Eo; [|done]. injection E as <-. rewrite app_nil_r.
    apply (life_quiet v es s); auto; cbn; congruence.
  - destruct (phase_ s) eqn:Ep; try done. injection E as <-. unfold client_connected. destruct (ec_true e); [|destruct (secure _)].
    + by apply (life_stop id e v es s); auto.
    + rewrite app_nil_r. apply (life_quiet v es s); auto; cbn; congruence.
    + apply (life_connected id lo v es s); auto. congruence.
  - destruct (phase_ s) as [| |[a|]|] eqn:Ep; try done; injection E as <-; unfold session_handshaken, client_handshaken; destruct (ec_true e).
    + by apply (life_stop id e v es s); auto.
    + destruct H as [H1 H2 H3 H4 H5 H6 H7 H8]. unfold put_stream. cbn [fst snd effects_in foldl effect_in].
      assert (stops es = 0%nat) as Hz by (apply Ho, (Hh a); done).
      split; rewrite ?stops_app, ?announcements_app, ?inserted_app; cbn; rewrite ?Nat.add_0_r, ?orb_false_r; auto.
      * rewrite Hph by done. lia.
      * intros s' [= <-]. cbn. split; [done|]. split; [by rewrite Hz|]. split; [done|]. by intros b.
      * done.
    + by apply (life_stop id e v es s); auto.
    + apply (life_connected id lo v es s); auto. congruence.
  - destruct (timer_ s) eqn:Et; [|done]. injection E as <-. unfold client_timeout.
    assert (forall a, phase_ s <> Handshaking (Some a)) as Hn.
    { intros a Hp. destruct (sl_shake _ _ _ _ _ _ Hl a Hp) as (_ & _ & _ & ?). congruence. }
    destruct (ec_true e); [|by apply (life_stop id timed_out v es s); auto].
    rewrite app_nil_r. by apply (life_quiet v es s); auto.
  - destruct (phase_ s) as [| |[a|]|] eqn:Ep; try done; destruct (timer_ s); try done; injection E as <-; rewrite app_nil_r;
      by apply (life_quiet v es s); auto.
  - destruct (reading_ s) eqn:Er; [|done]. injection E as <-. unfold read_done.
    assert (phase_ s = Settled) as Ep by (destruct (decide (phase_ s = Settled)) as [|Hn]; [done|]; destruct (He Hn); congruence).
    destruct (_ || _).
    + apply (life_stop id e v es s); auto. cbn. congruence.
    + destruct H as [H1 H2 H3 H4 H5 H6 H7 H8]. unfold put_stream. cbn [fst snd effects_in foldl effect_in].
      split; rewrite ?stops_app, ?announcements_app, ?inserted_app; cbn; rewrite ?Nat.add_0_r, ?orb_false_r; auto; [|done].
      intros s' [= <-]. auto.
  - destruct (writer_ s) as [|[]|b|] eqn:Ew; try done. injection E as <-. rewrite app_nil_r.
    apply (life_quiet v es s); auto; unfold write_woken; destruct (open_ s) eqn:Eo; cbn; rewrite ?Eo; auto.
  - destruct (writer_ s) as [| |batch|] eqn:Ew; try done. destruct (_ && _); [|done]. injection E as <-.
    assert (life (View (Some (write_turn s)) (v_acceptor v) (v_in v) (v_calls v)) es) as [H1 H2 H3 H4 H5 H6 H7 H8].
    { apply (life_quiet v es s); auto; rewrite ?open_turn, ?phase_turn; auto. }
    unfold write_done, put_stream. cbn [fst snd effects_in foldl effect_in].
    split; rewrite ?stops_app, ?announcements_app, ?inserted_app; cbn; rewrite ?Nat.add_0_r, ?orb_false_r; auto. done.
Qed.

Lemma life_acceptor_stop id e v es a :
  life v es -> v_acceptor v = Some a ->
  life (put_acceptor v (acceptor_stop id e a)) (es ++ (acceptor_stop id e a).2).
Proof.
  intros [H1 H2 H3 H4 H5 H6 H7 H8] Ea. destruct (H6 a Ea) as [Hst Ho].
  unfold acceptor_stop. destruct (acc_open a) eqn:E0; unfold put_acceptor; cbn [fst snd effects_in foldl effect_in].
  - specialize (Ho eq_refl). split; rewrite ?stops_app, ?announcements_app, ?inserted_app; cbn; try done; try lia.
    + intros s Hs. destruct (H5 s Hs) as [? _]. congruence.
    + by intros b [= <-].
  - rewrite app_nil_r. split; cbn; auto; try done.
    + intros s Hs. destruct (H5 s Hs) as [? _]. congruence.
    + intros b [= <-]. split; [done|congruence].
Qed.

(** A number that was not in use begins its life. *)
Lemma no_starts l : Forall (fun c => ~ is_start c) l -> (length (filter is_start l) <= 1)%nat.
Proof. intros H. rewrite filter_none by done. cbn. lia. Qed.

Lemma life_born_acceptor id sec l1 l2 v :
  v_stream v = None -> v_in v = false -> Forall (fun c => ~ is_start c) (v_calls v) ->
  life (put_acceptor v (acceptor_start id sec l1 l2)) (acceptor_start id sec l1 l2).2.
Proof.
  intros Hs Hi Hc. pose proof (no_starts _ Hc).
  unfold acceptor_start, acceptor_stop. destruct (first_error l1), (first_error l2); split; cbn; try done; try lia;
    rewrite ?Hs, ?Hi; try done; try (intros a [= <-]; done); try (by right); try (by left).
Qed.

Lemma life_born_server id sec tls e l v :
  v_stream v = None -> v_in v = false -> Forall (fun c => ~ is_start c) (v_calls v) ->
  life (put_acceptor v (server_start id sec tls e l)) (server_start id sec tls e l).2.
Proof. unfold server_start, ssl_server_start, tcp_server_start. destruct sec; apply life_born_acceptor. Qed.

Lemma life_born_client sec id l v :
  v_acceptor v = None -> v_in v = false -> Forall (fun c => ~ is_start c) (v_calls v) ->
  life (put_stream v (client_start sec id l)) (client_start sec id l).2.
Proof.
  intros Ha Hi Hc. pose proof (no_starts _ Hc).
  unfold client_start, ssl_client_start, stop. destruct sec; [destruct (first_error _)|]; split; cbn; try done; try lia;
    rewrite ?Hi; try done; try (intros s [= <-]; done); try (intros a; congruence); by left.
Qed.

Lemma life_born_session sec a id local remote v :
  v_acceptor v = None -> v_in v = false -> Forall (fun c => ~ is_start c) (v_calls v) ->
  life (put_stream v (session_start sec a id local remote)) (session_start sec a id local remote).2.
Proof.
  intros Ha Hi Hc. pose proof (no_starts _ Hc).
  unfold session_start. destruct sec; split; cbn; try done; try lia;
    rewrite ?Hi; try done; try (intros s [= <-]; done); try (intros b; congruence); by left.
Qed.

Lemma life_calls v es l :
  life v es -> (v_acceptor v <> None -> Forall (fun c => ~ is_start c) l) -> (length (filter is_start l) <= 1)%nat ->
  life (View (v_stream v) (v_acceptor v) (v_in v) l) es.
Proof.
  intros [H1 H2 H3 H4 H5 H6 H7 H8] Hl Hl'. split; cbn; auto. intros a Ea. split; [apply Hl; congruence|by apply (H6 a)].
Qed.

Lemma life_run id c r v rest es v' es' kn fl S W :
  life v es -> line_ok id v kn fl S W -> kind_ok v -> v_calls v = c :: rest ->
  run_view id c r (View (v_stream v) (v_acceptor v) (v_in v) rest) = Some (v', es') -> life v' (es ++ es').
Proof.
  intros H Hl Hk Ec E.
  assert (forall s, v_stream v = Some s -> stream_line v s kn fl S W) as Hsl by (intros s Es; unfold line_ok in Hl; by rewrite Es in Hl).
  pose proof (lf_once _ _ H) as Hone. rewrite Ec in Hone.
  assert (life (View (v_stream v) (v_acceptor v) (v_in v) rest) es) as Hr.
  { apply life_calls; [done| |].
    - intros Hn. destruct (v_acceptor v) as [a|] eqn:Ea; [|done]. destruct (lf_acceptor _ _ H a Ea) as [Hst _].
      rewrite Ec in Hst. by apply list.Forall_cons in Hst as [_ ?].
    - rewrite list.filter_cons in Hone. destruct (decide (is_start c)); cbn in *; lia. }
  assert (is_start c -> v_stream v = None /\ v_acceptor v = None /\ es = [] /\ v_in v = false /\ Forall (fun c => ~ is_start c) rest) as Hstart.
  { intros Hc. assert (v_stream v = None) as Es.
    { destruct (v_stream v) as [s|] eqn:Es; [|done]. pose proof (sl_started _ _ _ _ _ _ (Hsl s eq_refl)) as Hst.
      rewrite Ec in Hst. by apply list.Forall_cons in Hst as [? _]. }
    assert (v_acceptor v = None) as Ea.
    { destruct (v_acceptor v) as [a|] eqn:Ea; [|done]. destruct (lf_acceptor _ _ H a Ea) as [Hst _].
      rewrite Ec in Hst. by apply list.Forall_cons in Hst as [? _]. }
    destruct (lf_none _ _ H Es Ea). rewrite list.filter_cons_True in Hone by done. cbn in Hone. split_and!; try done.
    apply list.Forall_forall. intros c' Hc' Hs'. assert (c' ∈ filter is_start rest) as Hin by by apply list_elem_of_filter.
    destruct (filter is_start rest); [by apply elem_of_nil in Hin|cbn in Hone; lia]. }
  destruct c as [x sec|x sec|x buf|x|x]; cbn [run_view v_stream v_in v_acceptor is_start] in *.
  - destruct (Hstart I) as (Es & Ea & -> & Hi & Hst). injection E as <- <-. by apply life_born_server.
  - destruct (Hstart I) as (Es & Ea & -> & Hi & Hst). injection E as <- <-. by apply life_born_client.
  - injection E as <- <-. rewrite app_nil_r. destruct (v_stream v) as [s|] eqn:Es; [|exact Hr]. destruct (v_in v) eqn:Ei; [|exact Hr].
    assert (open_ (write buf s) = open_ s /\ phase_ (write buf s) = phase_ s) as [Eo Ep] by (unfold write; by rewrite open_blocker, phase_blocker).
    destruct (lf_stream _ _ H s Es) as (_ & Ho & _ & Hh).
    apply (life_quiet (View (Some s) (v_acceptor v) true rest) es s (write buf s)); intros; rewrite ?Eo, ?Ep in *; eauto.
  - destruct (v_stream v) as [s|] eqn:Es; [|injection E as <- <-; by rewrite app_nil_r].
    destruct (v_in v) eqn:Ei; [|injection E as <- <-; by rewrite app_nil_r].
    destruct (session_accept s) as [s'|] eqn:Ea; [|done]. injection E as <- <-. rewrite app_nil_r.
    destruct (lf_stream _ _ H s Es) as (_ & Ho & _ & Hh).
    assert (open_ s' = open_ s /\ phase_ s' = phase_ s) as [Eo Ep].
    { destruct (session_accept_cases _ _ Ea) as [->|(-> & _)]; [done|]. unfold spawn. cbn. by rewrite open_turn, phase_turn. }
    apply (life_quiet (View (Some s) (v_acceptor v) true rest) es s s'); intros; rewrite ?Eo, ?Ep in *; eauto.
  - destruct (v_in v) eqn:Ei; [|injection E as <- <-; by rewrite app_nil_r].
    destruct (v_stream v) as [s|] eqn:Es; [|destruct (v_acceptor v) as [a|] eqn:Ea; [|injection E as <- <-; by rewrite app_nil_r]]; injection E as <- <-.
    + apply (life_stop id _ (View (Some s) (v_acceptor v) true rest) es s s); try done; [by right|].
      intros a Ha. destruct (sl_shake _ _ _ _ _ _ (Hsl s eq_refl) a Ha) as (_ & ? & _). congruence.
    + by apply (life_acceptor_stop id _ (View None (Some a) true rest)).
Qed.

Lemma move_life id v l es v' es0 kn fl S W :
  socket_move id v l es v' -> life v es0 -> line_ok id v kn fl S W -> kind_ok v -> life v' (es0 ++ es).
Proof.
  intros Hm H Hl Hk. destruct Hm as [v c l _ _ Hb|v c rest r es v' Ec _ E|v a sec local remote Hb|v a Ea|v s c r l Es E _].
  - rewrite app_nil_r. apply life_calls; [done| |].
    + intros Hn. apply list.Forall_app. destruct (v_acceptor v) as [a|] eqn:Ea; [|done]. split; [by apply (lf_acceptor _ _ H a)|].
      constructor; [|constructor]. intros Hs. destruct (Hb Hs) as (_ & ? & _). congruence.
    + pose proof (lf_once _ _ H). rewrite list.filter_app, length_app. destruct (decide (is_start c)) as [Hs|Hs].
      * destruct (Hb Hs) as (_ & _ & _ & Hf). rewrite (filter_none _ _ Hf), list.filter_cons_True by done. cbn. lia.
      * rewrite list.filter_cons_False by done. cbn. lia.
  - by eapply life_run.
  - destruct Hb as (Hs & Ha & Hi & Hc). destruct (lf_none _ _ H Hs Ha) as [-> _]. by apply life_born_session.
  - rewrite app_nil_r. destruct H as [H1 H2 H3 H4 H5 H6 H7 H8]. split; cbn; auto; try done.
    + intros s Hs. destruct (H5 s Hs) as [? _]. congruence.
    + intros b [= <-]. cbn. by apply H6.
  - eapply life_complete; [exact H|exact Es| |exact E]. unfold line_ok in Hl. rewrite Es in Hl. exact Hl.
Qed.

(** * Histories *)

(** The numbers that somebody was told, and the health of the connections. *)
Record ghost := Ghost { known : Z -> bool; failed : Z -> health }.

Definition ghost_new : ghost := Ghost (fun _ => false) (fun _ => Whole).

Definition ghost_step (o : op) (ret : option Z) (es : list effect) (g : ghost) : ghost :=
  Ghost (fun id => known g id || connects (label_of o ret id) || announced (effects_of id es))
    (fun id => health_after (failed g id) (label_of o ret id)).

(** Nobody sends to a number that he was not told, [async_write] takes the whole
    of the buffers or fails, and the counters do not wrap around. *)
Definition legal (g : ghost) (w : system) (o : op) : Prop :=
  (allocates o = true -> room w) /\
  match o with
  | OSend id _ => known g id = true \/ get_socket_class id = socket_class_server
  | OComplete id (Written e len) => match streams_ w !! id with Some s => takes s e len | None => True end
  | _ => True
  end.

Fixpoint legal_run (g : ghost) (w : system) (ops : list op) : Prop :=
  match ops with
  | [] => True
  | o :: ops =>
      legal g w o /\
      match step o w with Some (w', ret, es) => legal_run (ghost_step o ret es g) w' ops | None => True end
  end.

#[export] Instance takes_dec s e len : Decision (takes s e len).
Proof. unfold takes. apply _. Defined.

#[export] Instance legal_dec g w o : Decision (legal g w o).
Proof.
  unfold legal, room. apply and_dec; [apply _|]. destruct o as [| | | | | | |id c]; try apply _.
  destruct c; try apply _. destruct (streams_ w !! id); apply _.
Defined.

#[export] Instance legal_run_dec ops : forall g w, Decision (legal_run g w ops).
Proof.
  induction ops as [|o ops IH]; intros g w; cbn [legal_run]; [apply _|].
  apply and_dec; [apply _|]. destruct (step o w) as [[[w' ret] es]|]; apply _.
Defined.

(** The health of a connection at the end of a history. *)
Definition health_of (id : Z) (ops : list op) : health :=
  foldl (fun h o => match o with
    | OComplete x (Written e len) => if decide (x = id) then worse h e len else h
    | _ => h
    end) Whole ops.

Lemma health_of_snoc id ops o ret : health_of id (ops ++ [o]) = health_after (health_of id ops) (label_of o ret id).
Proof.
  unfold health_of. rewrite foldl_app. destruct o as [| |x b| | | | |x c]; cbn; try done.
  - by destruct (decide _).
  - by destruct (decide (x = id)); [destruct (_ =? _)|].
  - by destruct c, (decide (x = id)).
Qed.

Lemma health_whole id ops : (forall e len, OComplete id (Written e len) ∈ ops -> ec_true e = false) -> health_of id ops = Whole.
Proof.
  induction ops as [|o ops IH] using rev_ind; intros H; [done|]. unfold health_of in *. rewrite foldl_app, IH.
  - cbn. destruct o as [| | | | | | |x c]; try done. destruct c as [| | | | | | | |e len]; try done. case_decide as Hx; [|done]. subst x. cbn.
    rewrite (H e len); [done|]. apply list.elem_of_app. right. by apply list_elem_of_singleton.
  - intros e len He. apply (H e len), list.elem_of_app. by left.
Qed.

(** The bytes sent to a socket, and those its connection took. *)
Definition sent_to (id : Z) (ops : list op) : bytes :=
  mjoin (omap (fun o => match o with OSend x b => if decide (x = id) then if get_socket_class x =? socket_class_server then None else Some b else None | _ => None end) ops).

Definition wire_of (id : Z) (es : list effect) : bytes := wire (effects_of id es).

Definition system_line (g : ghost) (w : system) (ops : list op) (es : list effect) : Prop :=
  ids_ok w /\ forall id, (kind_ok (view_of w id) /\ awake_ok (view_of w id) /\ life (view_of w id) (effects_of id es)) /\
    failed g id = health_of id ops /\ line_ok id (view_of w id) (known g id) (failed g id) (sent_to id ops) (wire_of id es).

Lemma sent_to_snoc id ops o ret : sent_to id (ops ++ [o]) = sent_to id ops ++ sent (label_of o ret id).
Proof.
  unfold sent_to. rewrite omap_app, join_app. f_equal. destruct o as [| |x b| | | | |x c]; try done; cbn.
  - by destruct (decide _).
  - destruct (decide (x = id)); [|done]. destruct (_ =? _); [done|]. cbn. by rewrite app_nil_r.
  - destruct c; try done. by destruct (decide _).
Qed.

Lemma wire_of_app id es es' : wire_of id (es ++ es') = wire_of id es ++ wire_of id es'.
Proof. unfold wire_of. by rewrite effects_of_app, wire_app. Qed.

Lemma system_new_line : system_line ghost_new system_new [] [].
Proof.
  split; [apply stream_system_new_ok|]. intros id. split.
  - split; [|split]; [intros s Hs; cbn in Hs; by rewrite lookup_empty in Hs..|].
    split; cbn; rewrite ?lookup_empty; try done; lia.
  - split; [done|]. unfold line_ok. cbn. rewrite lookup_empty. split_and!; done || constructor.
Qed.

Lemma label_legal g w o id w' ret es :
  step o w = Some (w', ret, es) -> legal g w o -> legal_label (view_of w id) (known g id) (label_of o ret id).
Proof.
  intros Hs [_ H]. destruct o as [| |x b| | | | |x c]; cbn; try done.
  - by destruct (decide _).
  - destruct (decide (x = id)) as [->|]; [|done]. destruct H as [?|Hc]; [by destruct (_ =? _)|]. by rewrite Hc.
  - destruct c; try done. destruct (decide (x = id)) as [->|]; [|done]. intros s Es. cbn in Es. by rewrite Es in H.
Qed.

Lemma step_line g w ops es o w' ret es' :
  system_line g w ops es -> legal g w o -> step o w = Some (w', ret, es') ->
  system_line (ghost_step o ret es' g) w' (ops ++ [o]) (es ++ es').
Proof.
  intros [Hok H] Hl E. destruct (step_projects _ _ _ _ _ Hok (proj1 Hl) E) as [Hok' Hp].
  split; [done|]. intros id. destruct (H id) as [(Hk & Ha & Hlf) [Hh Hline]].
  rewrite (sent_to_snoc _ _ _ ret), (health_of_snoc _ _ _ ret), <- Hh, wire_of_app. unfold wire_of at 2.
  cbn [ghost_step known failed]. destruct (Hp id) as [(Ev & Ee & El)|Hm].
  - rewrite effects_of_app, Ev, Ee, El. cbn. rewrite !orb_false_r, !app_nil_r. split; [|split]; done.
  - split; [split; [by eapply move_kind|split; [|rewrite effects_of_app; by eapply move_life]]|].
    + eapply move_awake; [exact Hm|done|done|]. intros s Hs Hi a Hph. unfold line_ok in Hline. rewrite Hs in Hline.
      destruct (sl_shake _ _ _ _ _ _ Hline a Hph) as (_ & ? & _). congruence.
    + split; [done|]. eapply move_line; [exact Hm|done|done|]. by eapply label_legal.
Qed.

Lemma run_line ops : forall g w ops0 es0 w' es,
  system_line g w ops0 es0 -> legal_run g w ops -> run ops w = Some (w', es) ->
  exists g', system_line g' w' (ops0 ++ ops) (es0 ++ es).
Proof.
  induction ops as [|o ops IH]; intros g w ops0 es0 w' es H Hl E; cbn in *.
  - injection E as <- <-. rewrite !app_nil_r. by exists g.
  - destruct Hl as [Hl Hls]. destruct (step o w) as [[[w1 ret] es1]|] eqn:E1; [|done]. cbn in E.
    destruct (run ops w1) as [[w2 es2]|] eqn:E2; [|done]. injection E as <- <-.
    destruct (IH _ _ (ops0 ++ [o]) (es0 ++ es1) _ _ (step_line _ _ _ _ _ _ _ _ H Hl E1) Hls E2) as (g' & Hg).
    exists g'. by rewrite <- !app_assoc in Hg.
Qed.

Lemma run_line_app ops1 ops2 : forall g w ops0 es0 w' es,
  system_line g w ops0 es0 -> legal_run g w (ops1 ++ ops2) -> run (ops1 ++ ops2) w = Some (w', es) ->
  exists g1 w1 es1 es2, system_line g1 w1 (ops0 ++ ops1) (es0 ++ es1) /\ legal_run g1 w1 ops2 /\
    run ops2 w1 = Some (w', es2) /\ es = es1 ++ es2.
Proof.
  induction ops1 as [|o ops IH]; intros g w ops0 es0 w' es H Hl E; cbn [app] in *.
  - exists g, w, [], es. by rewrite !app_nil_r.
  - cbn [legal_run run] in *. destruct Hl as [Hl Hls]. destruct (step o w) as [[[w1 ret] es1]|] eqn:E1; [|done]. cbn in E.
    destruct (run (ops ++ ops2) w1) as [[w2 es2]|] eqn:E2; [|done]. injection E as <- <-.
    destruct (IH _ _ (ops0 ++ [o]) (es0 ++ es1) _ _ (step_line _ _ _ _ _ _ _ _ H Hl E1) Hls E2) as (g1 & w3 & es3 & es4 & Hg & Hl' & Er & ->).
    exists g1, w3, (es1 ++ es3), es4. rewrite <- !app_assoc in *. done.
Qed.

(** ** A socket that nobody hears of again

    A client whose [co_connect] is over and that was never open. *)
Definition silent (v : view) : Prop :=
  v_in v = true /\ exists s, v_stream v = Some s /\ (kind_ s = tcp_client_impl \/ kind_ s = ssl_client_impl) /\
    phase_ s = Settled /\ open_ s = false /\ reading_ s = false /\ writer_ s = WriterNone.

Lemma silent_complete id c s r :
  phase_ s = Settled -> open_ s = false -> reading_ s = false -> writer_ s = WriterNone -> complete id c s = Some r ->
  r.2 = [] /\ kind_ r.1 = kind_ s /\ phase_ r.1 = Settled /\ open_ r.1 = false /\ reading_ r.1 = false /\ writer_ r.1 = WriterNone.
Proof.
  intros Hp Ho Hr Hw E. destruct c as [e o|o|e lo|e lo re|e| |e data| |e len]; cbn in E; rewrite ?Hp, ?Hr, ?Hw in E; try done.
  destruct (timer_ s); [|done]. injection E as <-. unfold client_timeout, stop. destruct (ec_true e); cbn; rewrite ?Ho; done.
Qed.

Lemma silent_move id v l es v' kn fl S W :
  socket_move id v l es v' -> line_ok id v kn fl S W -> silent v -> silent v' /\ es = [].
Proof.
  intros Hm Hl (Hi & s & Es & Hk & Hp & Ho & Hr & Hw). unfold line_ok in Hl. rewrite Es in Hl.
  pose proof (sl_started _ _ _ _ _ _ Hl) as Hst.
  destruct Hm as [v c l _ _ _|v c rest r es v' Ec _ E|v a sec local remote Hb|v a Ea|v s' c r l Es' E _].
  - split; [|done]. split; [done|]. by exists s.
  - rewrite Ec in Hst. apply list.Forall_cons in Hst as [Hc _].
    destruct c as [x sec|x sec|x buf|x|x]; cbn [is_start run_view v_stream v_in v_acceptor] in *; try tauto; rewrite Es, ?Hi in E.
    + injection E as <- <-. split; [|done]. split; [done|]. exists (write buf s). destruct s as [k o d p t rd wr]. cbn in *. by subst.
    + destruct (session_accept_cases s s) as [_|(_ & [?|?] & _)]; try (destruct Hk; congruence).
      { unfold session_accept. by destruct Hk as [-> | ->]. }
      unfold session_accept in E. destruct Hk as [Hk|Hk]; rewrite Hk in E; cbn in E; injection E as <- <-;
        (split; [|done]); (split; [done|]); exists s; auto 10.
    + unfold stop in E. rewrite Ho in E. cbn in E. injection E as <- <-. split; [|done]. split; [done|]. by exists s.
  - destruct Hb as (? & _). congruence.
  - split; [|done]. split; [done|]. by exists s.
  - assert (s' = s) as -> by congruence. destruct (silent_complete _ _ _ _ Hp Ho Hr Hw E) as (E2 & Ek & ? & ? & ? & ?).
    split; [|done]. unfold put_stream. rewrite E2. split; [done|]. exists r.1. cbn. rewrite Ek. auto 10.
Qed.

Lemma run_silent id ops : forall g w ops0 es0 w' es,
  system_line g w ops0 es0 -> legal_run g w ops -> run ops w = Some (w', es) -> silent (view_of w id) ->
  silent (view_of w' id) /\ effects_of id es = [].
Proof.
  induction ops as [|o ops IH]; intros g w ops0 es0 w' es H Hl E Hs; cbn in *; [by injection E as <- <-|].
  destruct Hl as [Hl Hls]. destruct (step o w) as [[[w1 ret] es1]|] eqn:E1; [|done]. cbn in E.
  destruct (run ops w1) as [[w2 es2]|] eqn:E2; [|done]. injection E as <- <-.
  destruct (step_projects _ _ _ _ _ (proj1 H) (proj1 Hl) E1) as [_ Hp].
  assert (silent (view_of w1 id) /\ effects_of id es1 = []) as [Hs1 Ee].
  { destruct (Hp id) as [(Ev & Ee & _)|Hm]; [by rewrite Ev|]. destruct (proj2 H id) as [_ [_ Hline]]. by eapply silent_move. }
  destruct (IH _ _ _ _ _ _ (step_line _ _ _ _ _ _ _ _ H Hl E1) Hls E2 Hs1) as [? Ee2].
  split; [done|]. by rewrite effects_of_app, Ee, Ee2.
Qed.

Lemma line_ok_wire id v kn fl S W : line_ok id v kn fl S W -> W `sublist_of` S /\ (fl <> Holed -> W `prefix_of` S).
Proof.
  unfold line_ok. destruct (v_stream v) as [s|]; [|intros (-> & _); split; [apply sublist_nil_l|intros _; apply prefix_nil]].
  intros [(A & rest & -> & (H1 & H2 & _) & _) _ _ _ _ _ _]. split; [by apply sublist_inserts_r|].
  intros Hf. by apply prefix_app_r, H2.
Qed.

(** * A connection that takes what it is given

    [serve_ops] are the completions of [co_write] when the connection takes
    everything, until the coroutine sleeps. *)

Fixpoint serve_ops (fuel : nat) (s : stream) : list completion :=
  match fuel with
  | O => []
  | S fuel =>
      match writer_ s with
      | WriterWaits true => BlockerWoken :: serve_ops fuel (write_woken s)
      | WriterSends b => Written no_error (zlen (mjoin b)) :: serve_ops fuel (write_turn s)
      | _ => []
      end
  end.

(** How many completions it takes at most. *)
Definition serve_fuel (s : stream) : nat :=
  match writer_ s with
  | WriterWaits true => length (write_deque_ s) + 2
  | WriterSends _ => length (write_deque_ s) + 1
  | _ => 0
  end.

Lemma run_complete id c w s r ops :
  streams_ w !! id = Some s -> complete id c s = Some r ->
  run (OComplete id c :: ops) w = ('(w, es) ← run ops (set_stream id r w).1; Some (w, r.2 ++ es)).
Proof. intros Es E. cbn [run step]. rewrite Es. cbn [mbind option_bind]. by rewrite E. Qed.

Lemma streams_set_stream id r w : streams_ (set_stream id r w).1 !! id = Some r.1.
Proof.
  unfold set_stream. cbn [fst]. destruct (apply_effects_fields r.2 (System (socket_ids_ w) (sockets_ w) (posted_ w) (<[id:=r.1]> (streams_ w)) (acceptors_ w))) as (_ & _ & -> & _).
  apply lookup_insert_eq.
Qed.

Lemma serve_run id : 1 <= max_buffers -> forall fuel w s,
  streams_ w !! id = Some s -> open_ s = true -> awake s -> writer_ s <> WriterNone -> (serve_fuel s <= fuel)%nat ->
  exists w' es', run (OComplete id <$> serve_ops fuel s) w = Some (w', es') /\ wire_of id es' = inflight s ++ mjoin (write_deque_ s).
Proof.
  intros Hm. induction fuel as [|fuel IH]; intros w s Es Ho Ha Hw Hf.
  - exists w, []. split; [done|]. destruct Ha as (H1 & H2 & _). unfold serve_fuel, inflight in *.
    destruct (writer_ s) as [|[]| |]; try done; [lia|by rewrite H1|lia|specialize (H2 eq_refl); congruence].
  - destruct (writer_ s) as [|[]|b|] eqn:Ew; cbn [serve_ops]; rewrite Ew; try done.
    + assert (complete id BlockerWoken s = Some (write_woken s, [])) as E by (cbn; by rewrite Ew).
      cbn [fmap list_fmap]. rewrite (run_complete _ _ _ _ _ _ Es E). cbn [snd app].
      destruct (IH (set_stream id (write_woken s, []) w).1 (write_woken s)) as (w' & es' & Er & Hwr).
      * apply streams_set_stream.
      * unfold write_woken. by rewrite Ho.
      * apply awake_turn. destruct (decide (phase_ s = Settled)); [done|]. destruct Ha as (_ & _ & Ha). specialize (Ha n). congruence.
      * unfold write_woken. by rewrite Ho.
      * unfold serve_fuel in *. rewrite Ew in Hf. unfold write_woken. rewrite Ho. cbn. unfold zdrop. rewrite length_drop. lia.
      * rewrite Er. exists w', es'. split; [done|]. rewrite Hwr. unfold write_woken. rewrite Ho. unfold inflight. rewrite Ew. cbn.
        by rewrite <- join_app, ztake_zdrop.
    + exists w, []. split; [done|]. destruct Ha as (H1 & _). unfold inflight. by rewrite Ew, H1.
    + assert (complete id (Written no_error (zlen (mjoin b))) s = Some (write_done id b (zlen (mjoin b)) s)) as E.
      { cbn. rewrite Ew. by rewrite (proj2 (Z.leb_le 0 _)), (proj2 (Z.leb_le _ (zlen (mjoin b)))) by (pose proof (zlen_nonneg (mjoin b)); lia). }
      cbn [fmap list_fmap]. rewrite (run_complete _ _ _ _ _ _ Es E).
      assert (phase_ s = Settled) as Ep.
      { destruct (decide (phase_ s = Settled)); [done|]. destruct Ha as (_ & _ & Ha). specialize (Ha n). congruence. }
      assert (open_ (write_turn s) = true /\ writer_ (write_turn s) <> WriterNone /\ (serve_fuel (write_turn s) <= fuel)%nat /\
              inflight (write_turn s) ++ mjoin (write_deque_ (write_turn s)) = mjoin (write_deque_ s)) as (Ho' & Hw' & Hf' & Hi').
      { unfold serve_fuel in *. rewrite Ew in Hf. unfold write_turn. rewrite Ho. destruct (write_deque_ s) as [|d l] eqn:Ed.
        - cbn. rewrite Ed. split_and!; try done. lia.
        - cbn. rewrite Ed. split_and!; try done.
          + unfold zdrop. rewrite length_drop. rewrite zlen_cons. pose proof (zlen_nonneg l). cbn [length] in *. lia.
          + unfold inflight. cbn. by rewrite <- join_app, ztake_zdrop. }
      destruct (IH (set_stream id (write_done id b (zlen (mjoin b)) s) w).1 (write_turn s)) as (w' & es' & Er & Hwr); try done.
      * apply streams_set_stream.
      * by apply awake_turn.
      * exists w', ((write_done id b (zlen (mjoin b)) s).2 ++ es'). split; [by cbn [write_done fst snd] in *; rewrite Er|].
        rewrite wire_of_app, Hwr, Hi'. f_equal. unfold wire_of, effects_of, write_done. cbn [snd]. rewrite list.filter_cons_True by done.
        unfold wire. cbn. rewrite app_nil_r, ztake_ge by lia. unfold inflight. by rewrite Ew.
    + destruct Ha as (_ & Ha & _). specialize (Ha Ew). congruence.
Qed.

End operations.

(** C5: in any history a socket is announced (started or accepted) at most once and
    its end is announced at most once; and a socket that was entered into the
    table is either still in it, or its end has been announced. *)
Theorem sockets_end_once (max_buffers : Z) (ops : list op) (w : system) (es : list effect) (id : Z)
    (Hlegal : legal_run max_buffers ghost_new system_new ops) (Hrun : run max_buffers ops system_new = Some (w, es)) :
  (announcements (effects_of id es) <= 1)%nat /\ (stops (effects_of id es) <= 1)%nat /\
  (inserted (effects_of id es) = true -> (id ∈ sockets_ w <-> stops (effects_of id es) = 0%nat)).
Proof.
  destruct (run_line max_buffers ops _ _ [] [] _ _ system_new_line Hlegal Hrun) as (g & [_ H]).
  destruct (H id) as [(_ & _ & [H1 H2 H3 H4 _ _ _ _]) _]. cbn [view_of v_in app] in *. split; [done|]. split; [done|]. intros Hi.
  rewrite bool_decide_eq_true in *. split; [done|]. intros Hz. destruct (H4 Hi); [done|lia].
Qed.

(** C3: what the connection of a stream socket takes are, in any history, bytes
    sent to it, in the order in which they were sent: nothing is repeated or
    overtaken. Until an [async_write] fails nothing is lost either: what was
    taken is the beginning of what was sent, and still is when writes have
    failed as long as no later write takes anything. ([co_write] does not look
    at the error: when it goes on and a later write does take something, what
    the failed one left is missing in the middle.) Of asio it is used that an
    [async_write] takes all of its buffers or reports an error; assumed are also
    that nobody sends to a number before it was returned or announced, and that
    the 28-bit counters of the numbers do not wrap around. *)
Theorem stream_keeps_order (max_buffers : Z) (ops : list op) (w : system) (es : list effect) (id : Z)
    (Hlegal : legal_run max_buffers ghost_new system_new ops) (Hrun : run max_buffers ops system_new = Some (w, es)) :
  wire_of id es `sublist_of` sent_to id ops /\
  (health_of id ops <> Holed -> wire_of id es `prefix_of` sent_to id ops).
Proof.
  destruct (run_line max_buffers ops _ _ [] [] _ _ system_new_line Hlegal Hrun) as (g & [_ H]).
  destruct (H id) as [_ [Hh Hline]]. cbn [app] in *. rewrite <- Hh. by eapply line_ok_wire.
Qed.

(** C4: when everything that was posted for an open socket has run, its coroutines
    have started and no [async_write] has failed, then at most two completions
    more than there are buffers bring all that was ever sent to the socket onto
    the wire: [co_write] never sleeps with something to send. *)
Theorem stream_delivers (max_buffers : Z) (ops : list op) (w : system) (es : list effect) (id : Z) (s : stream)
    (Hmax : 1 <= max_buffers)
    (Hlegal : legal_run max_buffers ghost_new system_new ops) (Hrun : run max_buffers ops system_new = Some (w, es))
    (Hs : streams_ w !! id = Some s) (Hopen : open_ s = true) (Hstarted : writer_ s <> WriterNone)
    (Hposted : Forall (fun c => call_id c <> id) (posted_ w))
    (Hok : forall e len, OComplete id (Written e len) ∈ ops -> ec_true e = false) :
  exists w' es',
    run max_buffers (OComplete id <$> serve_ops max_buffers (length (write_deque_ s) + 2) s) w = Some (w', es') /\
    wire_of id (es ++ es') = sent_to id ops.
Proof.
  destruct (run_line max_buffers ops _ _ [] [] _ _ system_new_line Hlegal Hrun) as (g & [_ H]).
  destruct (H id) as [(_ & Ha & _) [Hh Hline]]. specialize (Ha s Hs).
  destruct (serve_run max_buffers id Hmax (length (write_deque_ s) + 2) w s) as (w' & es' & Er & Hw); try done.
  { unfold serve_fuel. destruct (writer_ s) as [|[]| |]; lia. }
  exists w', es'. split; [done|]. rewrite wire_of_app, Hw.
  unfold line_ok in Hline. cbn [v_stream view_of] in Hline. rewrite Hs in Hline.
  destruct (sl_sent _ _ _ _ _ _ Hline) as (A & rest & E & (_ & _ & Hw') & Hrest). cbn [app] in *. rewrite Hw' by (by rewrite Hh, health_whole).
  rewrite E, Hrest.
  - cbn [v_calls view_of]. rewrite filter_none by done. by rewrite app_nil_r.
  - destruct (sl_open _ _ _ _ _ _ Hline Hopen) as [?|[a Hph]]; [done|]. destruct Ha as (_ & _ & Ha). destruct Hstarted. apply Ha. congruence.
Qed.

(** C39: a name that cannot be resolved is never reported: [stop] does nothing to a
    socket that is not open. Whatever happens before and afterwards - the
    timeout and [close] included - neither a start nor an end of that client is
    announced, and it stays in the table. *)
Theorem resolve_failure_unanswered (max_buffers : Z) (ops1 ops2 : list op) (id : Z) (e : error_code) (opened : bool)
    (w : system) (es : list effect) (He : ec_true e = true)
    (Hlegal : legal_run max_buffers ghost_new system_new (ops1 ++ OComplete id (Resolved e opened) :: ops2))
    (Hrun : run max_buffers (ops1 ++ OComplete id (Resolved e opened) :: ops2) system_new = Some (w, es)) :
  announcements (effects_of id es) = 0%nat /\ stops (effects_of id es) = 0%nat /\ id ∈ sockets_ w.
Proof.
  destruct (run_line_app max_buffers _ _ _ _ [] [] _ _ system_new_line Hlegal Hrun) as (g & w1 & es1 & es2 & H & Hl & Er & ->).
  destruct (proj2 H id) as [(Hk & _ & Hlf) [_ Hline]]. cbn [app] in *. destruct Hl as [Hl Hls]. cbn [run] in Er.
  destruct (step max_buffers (OComplete id (Resolved e opened)) w1) as [[[w2 ret] es3]|] eqn:E; [|done]. cbn in Er.
  destruct (run max_buffers ops2 w2) as [[w3 es4]|] eqn:Er2; [|done]. injection Er as <- <-.
  pose proof (step_line _ _ _ _ _ _ _ _ _ H Hl E) as H2. cbn [step] in E.
  destruct (streams_ w1 !! id) as [s|] eqn:Es; [|done]. cbn in E. destruct (phase_ s) eqn:Ep; try done. cbn in E.
  unfold client_resolved in E. rewrite He in E.
  unfold line_ok in Hline. cbn [view_of v_stream] in Hline. rewrite Es in Hline.
  destruct (sl_resolving _ _ _ _ _ _ Hline Ep) as [Ho Hi]. unfold stop in E. cbn in E. rewrite Ho in E. injection E as <- <- <-.
  destruct (lf_stream _ _ Hlf s) as (_ & _ & Ha & _); [done|].
  destruct (sl_early _ _ _ _ _ _ Hline) as [Hw Hr]; [congruence|].
  assert (kind_ s = tcp_client_impl \/ kind_ s = ssl_client_impl) as Hkind.
  { specialize (Hk s Es). unfold session_phase in Hk. destruct (kind_ s); auto; destruct Hk as [?|[a ?]]; congruence. }
  destruct (run_silent max_buffers id _ _ _ _ _ _ _ H2 Hls Er2) as [Hsil Ee].
  { pose proof (view_set_stream id (set_phase Settled s, []) w1 id (about_nil id)) as Ev. rewrite decide_True in Ev by done.
    unfold set_stream in Ev. cbn in Ev. rewrite Ev. split; [done|]. exists (set_phase Settled s). split_and!; done. }
  rewrite !effects_of_app, Ee. cbn. rewrite !app_nil_r. split; [apply Ha; congruence|]. split; [by apply (lf_in _ _ Hlf)|].
  destruct Hsil as [Hin _]. cbn in Hin. by apply bool_decide_eq_true in Hin.
Qed.

(** * Witnesses

    Client 3 connects, is sent two buffers, and reads one message before it is closed. *)

Definition no_results : setup := Setup [] no_error [].

Definition demo_ops : list op :=
  [OConnect false; OSend 3 [1; 2]; ORun no_results; ORun no_results;
   OComplete 3 (Resolved no_error true); OComplete 3 (Connected no_error []); OSend 3 [3]; ORun no_results].

Definition demo_end : list op :=
  [OComplete 3 (ReadSome no_error [9]); OClose 3; ORun no_results; OComplete 3 (ReadSome eof []); OComplete 3 (Written no_error 2)].

Lemma demo_ops_legal : legal_run 64 ghost_new system_new demo_ops.
Proof. apply (bool_decide_unpack _). vm_compute. exact I. Qed.

Lemma demo_end_legal : legal_run 64 ghost_new system_new (demo_ops ++ demo_end).
Proof. apply (bool_decide_unpack _). vm_compute. exact I. Qed.

Lemma stream_keeps_order_witness :
  exists w es, run 64 (demo_ops ++ demo_end) system_new = Some (w, es) /\
    wire_of 3 es = [1; 2] /\ sent_to 3 (demo_ops ++ demo_end) = [1; 2; 3] /\ wire_of 3 es `prefix_of` sent_to 3 (demo_ops ++ demo_end).
Proof.
  destruct (run 64 (demo_ops ++ demo_end) system_new) as [[w es]|] eqn:E; [|by vm_compute in E].
  exists w, es. split; [done|]. split; [vm_compute in E; injection E as <- <-; reflexivity|]. split; [reflexivity|].
  exact (proj2 (stream_keeps_order 64 (demo_ops ++ demo_end) w es 3 demo_end_legal E) ltac:(vm_compute; discriminate)).
Defined.

(** [co_write] does not look at the error: a write fails after one of the two
    bytes, the next one succeeds, and the connection has taken 1 and 3 of the
    bytes 1, 2 and 3. *)
Example write_failure_ignored :
  let ops := demo_ops ++ [OComplete 3 (Written timed_out 1); OComplete 3 (Written no_error 1)] in
  legal_run 64 ghost_new system_new ops /\ (wire_of 3 ∘ snd) <$> run 64 ops system_new = Some [1; 3] /\
  sent_to 3 ops = [1; 2; 3] /\ health_of 3 ops = Holed.
Proof. split; [apply (bool_decide_unpack _); vm_compute; exact I|]. by vm_compute. Qed.

Lemma sockets_end_once_witness :
  exists w es, run 64 (demo_ops ++ demo_end) system_new = Some (w, es) /\ inserted (effects_of 3 es) = true /\
    (announcements (effects_of 3 es) <= 1)%nat /\ (stops (effects_of 3 es) <= 1)%nat /\
    (3 ∈ sockets_ w <-> stops (effects_of 3 es) = 0%nat).
Proof.
  destruct (run 64 (demo_ops ++ demo_end) system_new) as [[w es]|] eqn:E; [|by vm_compute in E].
  exists w, es. split; [done|].
  assert (inserted (effects_of 3 es) = true) as Hi by (vm_compute in E; injection E as <- <-; reflexivity).
  destruct (sockets_end_once 64 (demo_ops ++ demo_end) w es 3 demo_end_legal E) as (H1 & H2 & H3). auto.
Defined.

(** The two buffers arrive with two completions. *)
Lemma stream_delivers_witness :
  exists w es s w' es', run 64 demo_ops system_new = Some (w, es) /\ streams_ w !! 3 = Some s /\
    run 64 (OComplete 3 <$> serve_ops 64 (length (write_deque_ s) + 2) s) w = Some (w', es') /\
    wire_of 3 (es ++ es') = [1; 2; 3].
Proof.
  destruct (run 64 demo_ops system_new) as [[w es]|] eqn:E; [|by vm_compute in E].
  assert (exists s, streams_ w !! 3 = Some s /\ open_ s = true /\ writer_ s <> WriterNone /\ posted_ w = []) as (s & Hs & Ho & Hw & Hp).
  { vm_compute in E. injection E as <- <-. eexists. by vm_compute. }
  destruct (stream_delivers 64 demo_ops w es 3 s ltac:(lia) demo_ops_legal E Hs Ho Hw) as (w' & es' & Er & Hwr).
  - rewrite Hp. constructor.
  - intros e len Hin. apply list_elem_of_In in Hin. cbn in Hin. exfalso.
    repeat (destruct Hin as [Hin|Hin]; [discriminate|]). done.
  - exists w, es, s, w', es'. split_and!; try done.
Defined.

(** The name of client 3 cannot be resolved; the time runs out, it is closed. *)
Definition silent_end : list op := [OComplete 3 (Timer no_error); OClose 3; ORun no_results].

Definition silent_ops : list op := [OConnect false; ORun no_results] ++ OComplete 3 (Resolved eof false) :: silent_end.

Lemma resolve_failure_unanswered_witness :
  exists w es, run 64 silent_ops system_new = Some (w, es) /\
    announcements (effects_of 3 es) = 0%nat /\ stops (effects_of 3 es) = 0%nat /\ 3 ∈ sockets_ w.
Proof.
  destruct (run 64 silent_ops system_new) as [[w es]|] eqn:E; [|by vm_compute in E].
  exists w, es. split; [done|].
  refine (resolve_failure_unanswered 64 [OConnect false; ORun no_results] silent_end 3 eof false w es eq_refl _ E).
  apply (bool_decide_unpack _). vm_compute. exact I.
Defined.

(** A listening socket whose host is no address gets the number zero, under
    which nothing is ever announced. *)
Example listen_bad_address : listen false false system_new = Some (0, system_new).
Proof. reflexivity. Qed.
