(* ===== verification/Frames.v ===== *)
(** Waiting for frames (src/application/application.cpp, frame_awaiter.cpp and
    frame_awaiter.h in src/runtime). The application counts frames; a coroutine
    suspends until a frame has come, or until its token is cancelled
    (Awaiting.v), and the scheduler resumes it from its queue.

    The number of an awaiter is that of its coroutine. An unordered_set is
    iterated in any order: the order is part of the event. [None] is a pointer
    to an awaiter that is gone. *)

From stdpp Require Import gmap.
From S2P Require Import Prelude AwaiterList Cancellation Awaiting.

(** [frame_], [frame_coroutine_]; of the suspended awaiters the frame and the
    token; the scheduler's queue. *)
Record frames := Frames {
  frame_ : Z; frame_coroutine_ : gmap Z (gset nat); waiters : gmap nat Z; tokens : gmap nat token;
  wake_ : list nat; cancel_ : cancellation }.

Definition frames_new : frames := Frames 0 ∅ ∅ ∅ [] no_cancellation.

(** How [co_await] ends: it returns, in the frame that is current then, or throws. *)
Inductive frame_result := FrameReached (frame : Z) | FrameCanceled.

#[export] Instance frame_result_dec : EqDecision frame_result.
Proof. solve_decision. Defined.

(** * Operations *)

Definition set_table (m : gmap Z (gset nat)) (w : frames) : frames :=
  Frames (frame_ w) m (waiters w) (tokens w) (wake_ w) (cancel_ w).

Definition wake_up_coroutine (a : nat) (w : frames) : frames :=
  Frames (frame_ w) (frame_coroutine_ w) (waiters w) (tokens w) (wake_ w ++ [a]) (cancel_ w).

(** [frame_coroutine_[frame]], which [operator[]] makes when it is not there. *)
Definition coroutines_at (m : gmap Z (gset nat)) (frame : Z) : gset nat := default ∅ (m !! frame).

Definition wait_frame (frame : Z) (a : nat) (w : frames) : frames :=
  set_table (<[frame := {[a]} ∪ coroutines_at (frame_coroutine_ w) frame]> (frame_coroutine_ w)) w.

Definition remove_frame_coroutine (frame : Z) (a : nat) (w : frames) : bool * frames :=
  match frame_coroutine_ w !! frame with
  | None => (false, w)
  | Some set => (bool_decide (a ∈ set), set_table (<[frame := set ∖ {[a]}]> (frame_coroutine_ w)) w)
  end.

Definition skip_frame (skip : Z) (w : frames) : Z := u64 (frame_ w + (if skip =? 0 then 1 else skip)).

(** [await_resume] with token [t]. *)
Definition outcome (t : token) (w : frames) : frame_result :=
  if is_cancellation_requested (cancel_ w) t then FrameCanceled else FrameReached (frame_ w).

Definition await_resume (a : nat) (t : token) (w : frames) : option (frame_result * frames) :=
  c ← reset_registration (cancel_ w) a;
  Some (outcome t w, Frames (frame_ w) (frame_coroutine_ w) (delete a (waiters w)) (delete a (tokens w)) (wake_ w) c).

(** [co_await] of an awaiter of [frame] with token [t]. *)
Definition await (a : nat) (frame : Z) (t : token) (w : frames) : option (frames * list (nat * frame_result)) :=
  if is_cancellation_requested (cancel_ w) t || (frame_ w =? frame) then
    '(r, w) ← await_resume a t w; Some (w, [(a, r)])
  else
    c ← start_waiting (cancel_ w) a t;
    Some (wait_frame frame a
      (Frames (frame_ w) (frame_coroutine_ w) (<[a := frame]> (waiters w)) (<[a := t]> (tokens w)) (wake_ w) c), []).

(** The callback of the registration. *)
Definition on_cancel (a : nat) (w : frames) : option frames :=
  frame ← waiters w !! a;
  let (removed, w) := remove_frame_coroutine frame a w in
  Some (if removed then wake_up_coroutine a w else w).

Fixpoint run_callbacks (fired : list nat) (w : frames) : option frames :=
  match fired with
  | [] => Some w
  | a :: fired => w ← on_cancel a w; run_callbacks fired w
  end.

Definition cancel (s : nat) (w : frames) : option frames :=
  '(c, fired) ← request_cancellation (cancel_ w) s;
  run_callbacks fired (Frames (frame_ w) (frame_coroutine_ w) (waiters w) (tokens w) (wake_ w) c).

(** [wake_up_frame] with the order of the set. *)
Definition wake_up_frame (order : list nat) (w : frames) : frames :=
  match frame_coroutine_ w !! frame_ w with
  | None => w
  | Some _ => foldl (fun w a => wake_up_coroutine a w) (set_table (delete (frame_ w) (frame_coroutine_ w)) w) order
  end.

(** The end of a turn of [update_frame]. *)
Definition next_frame (order : list nat) (w : frames) : frames :=
  wake_up_frame order (Frames (u64 (frame_ w + 1)) (frame_coroutine_ w) (waiters w) (tokens w) (wake_ w) (cancel_ w)).

(** The scheduler resumes the next coroutine. *)
Definition resume (w : frames) : option (frames * list (nat * frame_result)) :=
  match wake_ w with
  | [] => Some (w, [])
  | a :: rest =>
    t ← tokens w !! a;
    '(r, w) ← await_resume a t (Frames (frame_ w) (frame_coroutine_ w) (waiters w) (tokens w) rest (cancel_ w));
    Some (w, [(a, r)])
  end.

Inductive frame_op :=
  | OpSource (s : nat)
  | OpAwait (a : nat) (frame : Z) (t : token)
  | OpCancel (s : nat)
  | OpFrame (order : list nat)
  | OpResume.

#[export] Instance frame_op_dec : EqDecision frame_op.
Proof. solve_decision. Defined.

Definition frame_step (op : frame_op) (w : frames) : option (frames * list (nat * frame_result)) :=
  match op with
  | OpSource s => Some (Frames (frame_ w) (frame_coroutine_ w) (waiters w) (tokens w) (wake_ w) (new_source (cancel_ w) s), [])
  | OpAwait a frame t => await a frame t w
  | OpCancel s => w ← cancel s w; Some (w, [])
  | OpFrame order => Some (next_frame order w, [])
  | OpResume => resume w
  end.

Fixpoint frame_run (ops : list frame_op) (w : frames) : option (frames * list (nat * frame_result)) :=
  match ops with
  | [] => Some (w, [])
  | op :: ops => '(w, out) ← frame_step op w; '(w, out') ← frame_run ops w; Some (w, out ++ out')
  end.

(** * The invariant *)

(** A coroutine awaits one frame at a time, with a token whose source exists;
    [order] is an order of the set; fewer than 2^64 frames. *)
Definition legal (w : frames) (op : frame_op) : Prop :=
  match op with
  | OpSource s => states (cancel_ w) !! s = None
  | OpAwait a _ t => waiters w !! a = None /\ (forall s, t = Some s -> is_Some (states (cancel_ w) !! s))
  | OpCancel s => is_Some (states (cancel_ w) !! s)
  | OpFrame order => frame_ w + 1 < 2 ^ 64 /\ order ≡ₚ elements (coroutines_at (frame_coroutine_ w) (frame_ w + 1))
  | OpResume => True
  end.

Fixpoint legal_run (w : frames) (ops : list frame_op) : Prop :=
  match ops with
  | [] => True
  | op :: ops => legal w op /\ match frame_step op w with Some (w, _) => legal_run w ops | None => True end
  end.

(** A suspended coroutine is in the set of its frame or queued, and queued only
    when the frame has come or its source is cancelled. [ops] is what happened,
    [fired] are callbacks that have still to run. *)
Record frames_ok (ops : list frame_op) (fired : list nat) (w : frames) (l : nat -> list nat) : Prop := {
  fk_await : awaiting_ok (cancel_ w) l (tokens w);
  fk_dom a : is_Some (tokens w !! a) <-> is_Some (waiters w !! a);
  fk_range : 0 <= frame_ w < 2 ^ 64;
  fk_table f a : a ∈ coroutines_at (frame_coroutine_ w) f -> waiters w !! a = Some f /\ (a ∉ wake_ w) /\ f <> frame_ w;
  fk_place a f : waiters w !! a = Some f -> a ∈ coroutines_at (frame_coroutine_ w) f \/ a ∈ wake_ w;
  fk_once : NoDup (wake_ w);
  fk_wake a : a ∈ wake_ w -> exists f t, waiters w !! a = Some f /\ tokens w !! a = Some t /\
    (f <= frame_ w \/ is_cancellation_requested (cancel_ w) t = true);
  fk_waiting f a t : a ∈ coroutines_at (frame_coroutine_ w) f -> tokens w !! a = Some t ->
    is_cancellation_requested (cancel_ w) t = false \/ a ∈ fired;
  fk_op a f t : waiters w !! a = Some f -> tokens w !! a = Some t -> OpAwait a f t ∈ ops;
  fk_source s : is_cancellation_requested (cancel_ w) (Some s) = true -> OpCancel s ∈ ops }.

Lemma frames_new_ok : frames_ok [] [] frames_new (fun _ => []).
Proof.
  split; cbn; try done.
  - apply awaiting_none.
  - intros a. rewrite !lookup_empty. split; by intros [? ?].
  - constructor.
  - by intros a ?%elem_of_nil.
Qed.

Lemma frames_more_ops ops op fired w l : frames_ok ops fired w l -> frames_ok (ops ++ [op]) fired w l.
Proof.
  intros [A1 A2 A3 A4 A5 A6 A7 A8 A9 A10]. split; try done.
  - intros a f t Hf Ht. apply list.elem_of_app. left. by apply A9.
  - intros s Hs. apply list.elem_of_app. left. by apply A10.
Qed.

(** ** The sets *)

Lemma at_insert m f f' (s : gset nat) : coroutines_at (<[f := s]> m) f' = if decide (f = f') then s else coroutines_at m f'.
Proof. unfold coroutines_at. destruct (decide (f = f')) as [->|Hne]; [by rewrite lookup_insert_eq|by rewrite lookup_insert_ne]. Qed.

Lemma at_delete m f f' : coroutines_at (delete f m) f' = if decide (f = f') then ∅ else coroutines_at m f'.
Proof. unfold coroutines_at. destruct (decide (f = f')) as [->|Hne]; [by rewrite lookup_delete_eq|by rewrite lookup_delete_ne]. Qed.

(** What [remove_frame_coroutine] finds and leaves. *)
Lemma remove_frame_coroutine_at f a w :
  (remove_frame_coroutine f a w).1 = bool_decide (a ∈ coroutines_at (frame_coroutine_ w) f) /\
  exists m, (remove_frame_coroutine f a w).2 = set_table m w /\
    forall f' b, b ∈ coroutines_at m f' <-> b ∈ coroutines_at (frame_coroutine_ w) f' /\ (f' = f -> b <> a).
Proof.
  unfold remove_frame_coroutine. destruct (frame_coroutine_ w !! f) as [s|] eqn:E.
  - assert (coroutines_at (frame_coroutine_ w) f = s) as Es by (unfold coroutines_at; by rewrite E).
    rewrite Es. split; [done|]. eexists. split; [done|]. intros f' b. rewrite at_insert. destruct (decide (f = f')) as [->|Hne].
    + rewrite Es, elem_of_difference, elem_of_singleton. split; intros [? H]; (split; [done|]); [done|by apply H].
    + split; [|by intros [? _]]. intros ?. split; [done|]. intros ->. done.
  - assert (coroutines_at (frame_coroutine_ w) f = ∅) as Es by (unfold coroutines_at; by rewrite E).
    split; [by rewrite Es|]. exists (frame_coroutine_ w). split; [by destruct w|]. intros f' b. split; [|by intros [? _]].
    intros Hb. split; [done|]. intros ->. rewrite Es in Hb. by apply elem_of_empty in Hb.
Qed.

(** Coroutines taken out of their sets are queued. *)
Lemma queued_ok ops fired fired' w l m order :
  frames_ok ops fired w l -> NoDup order ->
  (forall a, a ∈ order -> exists f t, a ∈ coroutines_at (frame_coroutine_ w) f /\ tokens w !! a = Some t /\
     (f <= frame_ w \/ is_cancellation_requested (cancel_ w) t = true)) ->
  (forall f a, a ∈ coroutines_at m f <-> a ∈ coroutines_at (frame_coroutine_ w) f /\ (a ∉ order)) ->
  (forall a, a ∈ fired -> a ∈ order \/ a ∈ fired' \/ forall f, a ∉ coroutines_at (frame_coroutine_ w) f) ->
  frames_ok ops fired' (Frames (frame_ w) m (waiters w) (tokens w) (wake_ w ++ order) (cancel_ w)) l.
Proof.
  intros [A1 A2 A3 A4 A5 A6 A7 A8 A9 A10] Hnd Ho Hm Hf.
  assert (forall a, a ∈ order -> a ∉ wake_ w) as Hno by (intros a (f & t & Ha & _)%Ho; by apply (A4 f)).
  split; cbn; try done.
  - intros f a [Ha Hn]%Hm. destruct (A4 f a Ha) as (? & ? & ?). split; [done|]. split; [|done]. by intros [?|?]%list.elem_of_app.
  - intros a f Ha. rewrite list.elem_of_app. destruct (A5 a f Ha) as [H|H]; [|by right; left].
    destruct (decide (a ∈ order)); [by right; right|]. left. by apply Hm.
  - apply list.NoDup_app. split; [done|]. split; [|done]. intros a Ha Ha'. by destruct (Hno a Ha').
  - intros a [Ha|Ha]%list.elem_of_app; [by apply A7|]. destruct (Ho a Ha) as (f & t & Hf' & Ht & Hr). exists f, t.
    split; [by apply (A4 f)|done].
  - intros f a t [Ha Hn]%Hm Ht. destruct (A8 f a t Ha Ht) as [?|Hin]; [by left|]. destruct (Hf a Hin) as [?|[?|Hno']]; [done|by right|].
    by destruct (Hno' f).
Qed.

(** ** Cancellation *)

(** What a cancellation leaves alone: it only adds to the queue. *)
Definition untouched (w w' : frames) : Prop :=
  waiters w' = waiters w /\ tokens w' = tokens w /\ frame_ w' = frame_ w /\ (forall a, a ∈ wake_ w -> a ∈ wake_ w').

Lemma untouched_trans w1 w2 w3 : untouched w1 w2 -> untouched w2 w3 -> untouched w1 w3.
Proof. intros (? & ? & ? & ?) (? & ? & ? & ?). split_and!; try congruence. auto. Qed.

Lemma on_cancel_ok ops fired w l a t :
  frames_ok ops (a :: fired) w l -> tokens w !! a = Some t -> is_cancellation_requested (cancel_ w) t = true ->
  exists w', on_cancel a w = Some w' /\ frames_ok ops fired w' l /\ untouched w w' /\ cancel_ w' = cancel_ w.
Proof.
  intros Hw Ht Hr. assert (is_Some (waiters w !! a)) as [f Hf] by (apply (fk_dom _ _ _ _ Hw); by eexists).
  unfold on_cancel. rewrite Hf. cbn [mbind option_bind].
  destruct (remove_frame_coroutine_at f a w) as (Eb & m & Ew & Hm). destruct (remove_frame_coroutine f a w) as [b w1] eqn:E.
  cbn [fst snd] in *. subst b w1. eexists. split; [done|].
  assert (forall f' b, b ∈ coroutines_at m f' <-> b ∈ coroutines_at (frame_coroutine_ w) f' /\ b <> a) as Hm'.
  { intros f' b. rewrite Hm. split; intros [Hb Hne]; (split; [done|]); [|done]. intros ->.
    destruct (fk_table _ _ _ _ Hw f' a Hb) as [? _]. apply Hne; [congruence|done]. }
  assert (forall q, untouched w (Frames (frame_ w) m (waiters w) (tokens w) (wake_ w ++ q) (cancel_ w))) as Hun.
  { intros q. split_and!; try done. intros b Hb. cbn. apply list.elem_of_app. by left. }
  destruct (bool_decide_reflect (a ∈ coroutines_at (frame_coroutine_ w) f)) as [Hin|Hout]; cbn;
    (split; [|split; [|done]]); [|apply Hun| |by split_and!].
  - apply (queued_ok ops (a :: fired) fired w l m [a] Hw); [apply NoDup_singleton|..].
    + intros b ->%list_elem_of_singleton. exists f, t. auto.
    + intros f' b. by rewrite Hm', list_elem_of_singleton.
    + intros b [->|?]%elem_of_cons; [left; apply list_elem_of_here|by right; left].
  - pose proof (queued_ok ops (a :: fired) fired w l m [] Hw) as Hq. rewrite app_nil_r in Hq. apply Hq; [constructor|..].
    + by intros b ?%elem_of_nil.
    + intros f' b. rewrite Hm'. split; intros [Hb ?]; (split; [done|]); [by intros ?%elem_of_nil|]. intros ->. apply Hout.
      destruct (fk_table _ _ _ _ Hw f' a Hb) as [Hf' _]. rewrite Hf in Hf'. by injection Hf' as ->.
    + intros b [->|?]%elem_of_cons; [|by right; left]. right. right. intros f' Hb. apply Hout.
      destruct (fk_table _ _ _ _ Hw f' a Hb) as [Hf' _]. rewrite Hf in Hf'. by injection Hf' as ->.
Qed.

Lemma frame_callbacks_ok fired : forall ops w l,
  frames_ok ops fired w l ->
  (forall a, a ∈ fired -> exists t, tokens w !! a = Some t /\ is_cancellation_requested (cancel_ w) t = true) ->
  exists w', run_callbacks fired w = Some w' /\ frames_ok ops [] w' l /\ untouched w w' /\ cancel_ w' = cancel_ w.
Proof.
  induction fired as [|a fired IH]; intros ops w l Hw Hf; cbn [run_callbacks]; [by exists w; split_and!|].
  destruct (Hf a (list_elem_of_here _ _)) as (t & Ht & Hr).
  destruct (on_cancel_ok ops fired w l a t Hw Ht Hr) as (w1 & -> & Hw1 & Hun & Ec). cbn [mbind option_bind].
  destruct (IH ops w1 l Hw1) as (w' & -> & Hw' & Hun' & Ec');
    [|exists w'; split; [done|]; split; [done|]; split; [by eapply untouched_trans|congruence]].
  intros b Hb. destruct Hun as (_ & Et & _). rewrite Et, Ec. apply Hf. by apply list_elem_of_further.
Qed.

Lemma frame_cancel_ok ops w l s :
  frames_ok ops [] w l -> is_Some (states (cancel_ w) !! s) ->
  exists w', cancel s w = Some w' /\ frames_ok (ops ++ [OpCancel s]) [] w' (with_list l s []) /\ untouched w w' /\
    (forall t, is_cancellation_requested (cancel_ w) t = true -> is_cancellation_requested (cancel_ w') t = true).
Proof.
  intros Hw Hs. pose proof (frames_more_ops _ (OpCancel s) _ _ _ Hw) as [A1 A2 A3 A4 A5 A6 A7 A8 A9 A10].
  destruct (awaiting_cancel _ _ _ s A1 Hs) as (c & E & Hc & Hreq & Hst). unfold cancel. rewrite E. cbn [mbind option_bind].
  set (w1 := Frames _ _ _ _ _ c).
  destruct (frame_callbacks_ok (l s) (ops ++ [OpCancel s]) w1 (with_list l s [])) as (w' & -> & Hw' & Hun & Ec).
  3: { exists w'. split; [done|]. split; [done|]. split; [exact Hun|]. intros t Ht. rewrite Ec. unfold w1. cbn. rewrite Hreq, Ht. apply orb_true_r. }
  2: { intros a Ha. exists (Some s). unfold w1. cbn. by rewrite (aw_token _ _ _ A1 a s Ha), Hreq, bool_decide_true. }
  split; cbn; try done.
  - intros a Ha. destruct (A7 a Ha) as (f & t & Hf & Ht & Hor). exists f, t. split; [done|]. split; [done|]. rewrite Hreq.
    destruct Hor as [?|Hr]; [by left|right; rewrite Hr; apply orb_true_r].
  - intros f a t Ha Ht. rewrite Hreq. destruct (A8 f a t Ha Ht) as [Hr|[]%elem_of_nil]. destruct (bool_decide_reflect (t = Some s)) as [->|Hne]; [|by left].
    right. by apply (aw_all _ _ _ A1).
  - intros s'. rewrite Hreq. intros [Es%bool_decide_eq_true|Hr]%orb_true_iff; [|by apply A10]. injection Es as ->.
    apply list.elem_of_app. right. apply list_elem_of_here.
Qed.

Lemma frame_source_ok ops w l s :
  frames_ok ops [] w l -> states (cancel_ w) !! s = None ->
  frames_ok (ops ++ [OpSource s]) [] (Frames (frame_ w) (frame_coroutine_ w) (waiters w) (tokens w) (wake_ w) (new_source (cancel_ w) s)) l.
Proof.
  intros Hw Hs. pose proof (frames_more_ops _ (OpSource s) _ _ _ Hw) as [A1 A2 A3 A4 A5 A6 A7 A8 A9 A10].
  destruct (awaiting_source _ _ _ s A1 Hs) as [Hok Hreq]. split; cbn; try done.
  - intros a Ha. destruct (A7 a Ha) as (f & t & Hf & Ht & Hor). exists f, t. by rewrite Hreq.
  - intros f a t Ha Ht. rewrite Hreq. by apply (A8 f).
  - intros s'. rewrite Hreq. apply A10.
Qed.

(** ** Awaiting *)

(** The end of an awaiter that is in no set and not queued. *)
Lemma ended_ok ops w l a t wk :
  frames_ok ops [] w l -> (forall f, a ∉ coroutines_at (frame_coroutine_ w) f) ->
  (forall b, b ∈ wk <-> b ∈ wake_ w /\ b <> a) -> NoDup wk ->
  exists w', await_resume a t (Frames (frame_ w) (frame_coroutine_ w) (waiters w) (tokens w) wk (cancel_ w)) = Some (outcome t w, w') /\
    frames_ok ops [] w' (without l a) /\ waiters w' = delete a (waiters w) /\ tokens w' = delete a (tokens w) /\
    wake_ w' = wk /\ frame_ w' = frame_ w /\ frame_coroutine_ w' = frame_coroutine_ w /\
    (forall t, is_cancellation_requested (cancel_ w') t = is_cancellation_requested (cancel_ w) t).
Proof.
  intros [A1 A2 A3 A4 A5 A6 A7 A8 A9 A10] Hno Hwk Hnd. unfold await_resume. cbn.
  destruct (awaiting_reset _ l _ a A1) as (c & -> & Hc & Hst). cbn.
  assert (forall t, is_cancellation_requested c t = is_cancellation_requested (cancel_ w) t) as Hreq by (intros t'; by apply same_requested).
  assert (forall f b, b ∈ coroutines_at (frame_coroutine_ w) f -> b <> a) as Hne by (intros f b Hb ->; by apply (Hno f)).
  eexists. split; [done|]. split; [|done]. split; cbn; try done.
  - intros b. rewrite !lookup_delete_is_Some. by rewrite A2.
  - intros f b Hb. destruct (A4 f b Hb) as (? & Hn & ?). rewrite lookup_delete_ne by (by apply not_eq_sym, (Hne f)).
    split; [done|]. split; [|done]. by intros [? _]%Hwk.
  - intros b f [Hb Hf]%lookup_delete_Some. destruct (A5 b f Hf) as [?|?]; [by left|]. right. apply Hwk. split; [done|by apply not_eq_sym].
  - intros b [Hb Hba]%Hwk. destruct (A7 b Hb) as (f & t' & Hf & Ht & Hor). exists f, t'. by rewrite !lookup_delete_ne, Hreq by (by apply not_eq_sym).
  - intros f b t' Hb [_ Ht]%lookup_delete_Some. rewrite Hreq. by apply (A8 f b).
  - intros b f t' [_ Hf]%lookup_delete_Some [_ Ht]%lookup_delete_Some. by apply A9.
  - intros s. rewrite Hreq. apply A10.
Qed.


Lemma frame_await_ok ops w l a f t :
  frames_ok ops [] w l -> legal w (OpAwait a f t) ->
  exists w' out l', await a f t w = Some (w', out) /\ frames_ok (ops ++ [OpAwait a f t]) [] w' l' /\
    (if is_cancellation_requested (cancel_ w) t || (frame_ w =? f) then out = [(a, outcome t w)] /\ waiters w' = waiters w
     else out = [] /\ waiters w' = <[a := f]> (waiters w)) /\
    frame_ w' = frame_ w /\ wake_ w' = wake_ w /\ (forall b, b <> a -> tokens w' !! b = tokens w !! b) /\
    (forall t, is_cancellation_requested (cancel_ w') t = is_cancellation_requested (cancel_ w) t).
Proof.
  intros Hw (Ha & Hs). pose proof (frames_more_ops _ (OpAwait a f t) _ _ _ Hw) as Hw'. unfold await.
  assert (tokens w !! a = None) as Hta by (apply eq_None_not_Some; intros Hta%(fk_dom _ _ _ _ Hw); rewrite Ha in Hta; by destruct Hta).
  assert (forall f', a ∉ coroutines_at (frame_coroutine_ w) f') as Hno by (intros f' Hb; destruct (fk_table _ _ _ _ Hw f' a Hb); congruence).
  assert (a ∉ wake_ w) as Hnw by (intros Hb; destruct (fk_wake _ _ _ _ Hw a Hb) as (? & ? & ? & _); congruence).
  destruct (_ || _) eqn:Hb.
  - destruct (ended_ok _ w l a t (wake_ w) Hw' Hno) as (w' & E & Hok & Ef & Et & Ewk & Efr & _ & Hreq).
    + intros b. split; [|by intros [? _]]. intros Hb'. split; [done|]. by intros ->.
    + apply (fk_once _ _ _ _ Hw).
    + replace (Frames _ _ _ _ _ _) with w in E by by destruct w. rewrite E. cbn. exists w', [(a, outcome t w)], (without l a). split; [done|]. split; [done|].
      split; [by rewrite Ef, delete_id|]. split; [done|]. split; [done|]. split; [|done].
      intros b Hb'. by rewrite Et, lookup_delete_ne by (by apply not_eq_sym).
  - apply orb_false_iff in Hb as [Hr Hf%Z.eqb_neq]. destruct Hw' as [A1 A2 A3 A4 A5 A6 A7 A8 A9 A10].
    destruct (awaiting_start _ _ _ a t A1 Hta Hs) as (c & -> & Hok & Hst). cbn [mbind option_bind].
    assert (forall t', is_cancellation_requested c t' = is_cancellation_requested (cancel_ w) t') as Hreq by (intros t'; by apply same_requested).
    assert (forall b, is_Some (waiters w !! b) -> a <> b) as Hne by (intros b [? ?] ->; congruence).
    assert (forall f' b, b ∈ coroutines_at (<[f := {[a]} ∪ coroutines_at (frame_coroutine_ w) f]> (frame_coroutine_ w)) f' <->
      b = a /\ f' = f \/ b ∈ coroutines_at (frame_coroutine_ w) f') as Hin.
    { intros f' b. rewrite at_insert. destruct (decide (f = f')) as [->|Hff]; [|split; [by right|by intros [[_ ->]|?]]].
      rewrite elem_of_union, elem_of_singleton. split; [intros [?|?]; auto|intros [[? _]|?]; auto]. }
    eexists _, [], _. split; [done|]. split.
    2: { cbn. split; [done|]. split; [done|]. split; [done|]. split; [|done]. intros b Hb. by rewrite lookup_insert_ne by (by apply not_eq_sym). }
    split; cbn; try done.
    + intros b. rewrite !lookup_insert_is_Some', A2. done.
    + intros f' b [[-> ->]|Hb]%Hin; [rewrite lookup_insert_eq; auto|]. destruct (A4 f' b Hb) as (E & ? & ?).
      rewrite lookup_insert_ne; [done|]. apply Hne. by rewrite E.
    + intros b f' [[<- <-]|[Hba Hf']]%lookup_insert_Some; rewrite Hin; [auto|]. destruct (A5 b f' Hf'); auto.
    + intros b Hb. destruct (A7 b Hb) as (f' & t' & E & ? & Hor). exists f', t'. rewrite Hreq, !lookup_insert_ne; [done|..]; apply Hne; by rewrite E.
    + intros f' b t' [[-> ->]|Hb]%Hin Ht; rewrite Hreq.
      * rewrite lookup_insert_eq in Ht. injection Ht as <-. by left.
      * destruct (A4 f' b Hb) as (E & _). rewrite lookup_insert_ne in Ht by (apply Hne; by rewrite E). by apply (A8 f' b).
    + intros b f' t' Hf' Ht. destruct (decide (a = b)) as [<-|Hba].
      * rewrite lookup_insert_eq in Hf'. rewrite lookup_insert_eq in Ht. injection Hf' as <-. injection Ht as <-. apply list.elem_of_app. right. apply list_elem_of_here.
      * rewrite lookup_insert_ne in Hf' by done. rewrite lookup_insert_ne in Ht by done. by apply A9.
    + intros s. rewrite Hreq. apply A10.
Qed.

(** ** Frames *)

Lemma wake_up_all order w :
  foldl (fun w a => wake_up_coroutine a w) w order =
  Frames (frame_ w) (frame_coroutine_ w) (waiters w) (tokens w) (wake_ w ++ order) (cancel_ w).
Proof.
  revert w. induction order as [|a order IH]; intros w; cbn [foldl]; [rewrite app_nil_r; by destruct w|].
  rewrite IH. cbn. by rewrite <- app_assoc.
Qed.

(** The next frame queues the coroutines of its set. *)
Lemma next_frame_ok ops w l order :
  frames_ok ops [] w l -> legal w (OpFrame order) ->
  frames_ok (ops ++ [OpFrame order]) [] (next_frame order w) l /\ waiters (next_frame order w) = waiters w /\
  tokens (next_frame order w) = tokens w /\ frame_ (next_frame order w) = frame_ w + 1 /\
  wake_ (next_frame order w) = wake_ w ++ order /\ cancel_ (next_frame order w) = cancel_ w.
Proof.
  intros Hw [Hlt Ho]. pose proof (frames_more_ops _ (OpFrame order) _ _ _ Hw) as Hw'. pose proof (fk_range _ _ _ _ Hw).
  unfold next_frame. rewrite u64_small by (unfold is_u64; lia). set (w1 := Frames _ _ _ _ _ _).
  assert (forall a, a ∈ order <-> a ∈ coroutines_at (frame_coroutine_ w) (frame_ w + 1)) as Hin
    by (intros a; by rewrite Ho, elem_of_elements).
  assert (next_frame order w = Frames (frame_ w + 1) (delete (frame_ w + 1) (frame_coroutine_ w)) (waiters w) (tokens w) (wake_ w ++ order) (cancel_ w)) as E.
  { unfold next_frame, wake_up_frame. rewrite u64_small by (unfold is_u64; lia). cbn. destruct (frame_coroutine_ w !! (frame_ w + 1)) eqn:E.
    - by rewrite wake_up_all.
    - rewrite delete_id by done. destruct order as [|a order]; [by rewrite app_nil_r|]. exfalso.
      assert (a ∈ coroutines_at (frame_coroutine_ w) (frame_ w + 1)) as Ha by (apply Hin, list_elem_of_here).
      unfold coroutines_at in Ha. rewrite E in Ha. by apply elem_of_empty in Ha. }
  unfold next_frame in E. rewrite u64_small in E by (unfold is_u64; lia). fold w1 in E. rewrite E. split; [|done]. clear E.
  assert (forall f a, a ∈ coroutines_at (delete (frame_ w + 1) (frame_coroutine_ w)) f <->
    a ∈ coroutines_at (frame_coroutine_ w) f /\ a ∉ order) as Hdel.
  { intros f a. rewrite at_delete, Hin. destruct (decide (frame_ w + 1 = f)) as [->|Hne].
    - split; [by intros ?%elem_of_empty|by intros [? []]].
    - split; [|by intros [? _]]. intros Ha. split; [done|]. intros Ha'. apply Hne.
      destruct (fk_table _ _ _ _ Hw _ _ Ha) as [E1 _]. destruct (fk_table _ _ _ _ Hw _ _ Ha') as [E2 _]. congruence. }
  assert (forall a, a ∈ order -> exists t, waiters w !! a = Some (frame_ w + 1) /\ tokens w !! a = Some t /\ (a ∉ wake_ w)) as Hord.
  { intros a Ha%Hin. destruct (fk_table _ _ _ _ Hw _ _ Ha) as (Hf & Hn & _).
    assert (is_Some (tokens w !! a)) as [t Ht] by (apply (fk_dom _ _ _ _ Hw); by rewrite Hf). by exists t. }
  destruct Hw' as [A1 A2 A3 A4 A5 A6 A7 A8 A9 A10]. split; cbn; try done.
  - lia.
  - intros f a [Ha Hn]%Hdel. destruct (A4 f a Ha) as (E & ? & ?). split; [done|]. split; [by intros [?|?]%list.elem_of_app|].
    intros ->. apply Hn. by apply Hin.
  - intros a f Hf. rewrite list.elem_of_app. destruct (A5 a f Hf) as [Ha|?]; [|by right; left].
    destruct (decide (a ∈ order)); [by right; right|]. left. by apply Hdel.
  - apply list.NoDup_app. split; [done|]. split; [|rewrite Ho; apply NoDup_elements]. intros a Ha Ha'. by destruct (Hord a Ha') as (? & _ & _ & ?).
  - intros a [Ha|Ha]%list.elem_of_app.
    + destruct (A7 a Ha) as (f & t & Hf & Ht & Hor). exists f, t. split; [done|]. split; [done|]. destruct Hor; [left; lia|by right].
    + destruct (Hord a Ha) as (t & Hf & Ht & _). exists (frame_ w + 1), t. split; [done|]. split; [done|]. left. lia.
  - intros f a t [Ha _]%Hdel. by apply (A8 f a t).
Qed.

Lemma frame_resume_ok ops w l :
  frames_ok ops [] w l ->
  match wake_ w with
  | [] => resume w = Some (w, [])
  | a :: rest => exists f t w', waiters w !! a = Some f /\ tokens w !! a = Some t /\ resume w = Some (w', [(a, outcome t w)]) /\
      (f <= frame_ w \/ is_cancellation_requested (cancel_ w) t = true) /\
      frames_ok ops [] w' (without l a) /\ waiters w' = delete a (waiters w) /\ tokens w' = delete a (tokens w) /\
      wake_ w' = rest /\ frame_ w' = frame_ w /\
      (forall t, is_cancellation_requested (cancel_ w') t = is_cancellation_requested (cancel_ w) t)
  end.
Proof.
  intros Hw. unfold resume. destruct (wake_ w) as [|a rest] eqn:Ew; [done|].
  destruct (fk_wake _ _ _ _ Hw a) as (f & t & Hf & Ht & Hor); [rewrite Ew; apply list_elem_of_here|].
  pose proof (fk_once _ _ _ _ Hw) as Hnd. rewrite Ew in Hnd. apply list.NoDup_cons in Hnd as [Hna Hnd].
  destruct (ended_ok ops w l a t rest Hw) as (w' & E & Hok & Ef & Et & Ewk & Efr & _ & Hreq).
  - intros f' Ha. destruct (fk_table _ _ _ _ Hw f' a Ha) as (_ & Hn & _). apply Hn. rewrite Ew. apply list_elem_of_here.
  - intros b. rewrite Ew, elem_of_cons. split; [|intros [[->|?] ?]; done]. intros Hb. split; [by right|]. by intros ->.
  - done.
  - exists f, t, w'. rewrite Ht. cbn [mbind option_bind]. rewrite E. cbn. done.
Qed.

(** ** Runs *)

Definition results_of (a : nat) (out : list (nat * frame_result)) : nat := length (filter (fun r => r.1 = a) out).

Definition awaits_of (a : nat) (ops : list frame_op) : nat :=
  length (filter (fun op => match op with OpAwait b _ _ => Some b | _ => None end = Some a) ops).

Definition live (w : frames) (a : nat) : nat := match waiters w !! a with Some _ => 1 | None => 0 end.

(** Why [co_await] ended as it did. *)
Definition justified (ops : list frame_op) (r : nat * frame_result) : Prop :=
  match r.2 with
  | FrameReached now => exists frame t, OpAwait r.1 frame t ∈ ops /\ frame <= now
  | FrameCanceled => exists frame s, OpAwait r.1 frame (Some s) ∈ ops /\ OpCancel s ∈ ops
  end.

Lemma frame_justified_more ops ops' r : justified ops r -> justified (ops ++ ops') r.
Proof.
  unfold justified. destruct r.2; intros (f & x & H1 & H2); exists f, x; rewrite !list.elem_of_app; auto.
Qed.

Lemma frame_outcome_justified ops w l a f t :
  frames_ok ops [] w l -> OpAwait a f t ∈ ops -> (f <= frame_ w \/ is_cancellation_requested (cancel_ w) t = true) ->
  justified ops (a, outcome t w).
Proof.
  intros Hw Hin Hor. unfold justified, outcome. cbn. destruct (is_cancellation_requested (cancel_ w) t) eqn:Hr.
  - destruct t as [s|]; [|done]. exists f, s. split; [done|]. by apply (fk_source _ _ _ _ Hw).
  - exists f, t. split; [done|]. by destruct Hor.
Qed.

Lemma frame_results_of_one a b r : results_of a [(b, r)] = if decide (b = a) then 1%nat else 0%nat.
Proof. unfold results_of. cbn. by destruct (decide (b = a)). Qed.

Lemma frame_live_end w w' a r :
  is_Some (waiters w !! a) -> waiters w' = delete a (waiters w) -> forall b, (results_of b [(a, r)] + live w' b)%nat = live w b.
Proof.
  intros [f Hf] E b. rewrite frame_results_of_one. unfold live. rewrite E. destruct (decide (a = b)) as [->|Hne]; [by rewrite lookup_delete_eq, Hf|].
  by rewrite lookup_delete_ne.
Qed.

Lemma frame_live_same w w' : waiters w' = waiters w -> forall b, live w' b = live w b.
Proof. intros E b. unfold live. by rewrite E. Qed.

Lemma frame_step_ok ops w l op :
  frames_ok ops [] w l -> legal w op ->
  exists w' out l', frame_step op w = Some (w', out) /\ frames_ok (ops ++ [op]) [] w' l' /\
    (forall a, (results_of a out + live w' a = awaits_of a [op] + live w a)%nat) /\ (forall r, r ∈ out -> justified (ops ++ [op]) r).
Proof.
  intros Hw Hop. assert (forall r, r ∈ [] -> justified (ops ++ [op]) r) as Hnil by (intros r []%elem_of_nil).
  destruct op as [s|a f t|s|order|]; cbn [frame_step].
  - eexists _, [], l. split; [done|]. split; [by apply frame_source_ok|]. done.
  - destruct (frame_await_ok ops w l a f t Hw Hop) as (w' & out & l' & E & Hw' & Hcase & _). exists w', out, l'. split; [done|]. split; [done|].
    destruct Hop as (Ha & Hs). destruct (_ || _) eqn:Hb; destruct Hcase as [-> Ew].
    + split; [intros b; rewrite (frame_live_same _ _ Ew), frame_results_of_one; unfold awaits_of; cbn; destruct (decide (a = b)) as [->|Hne];
        [by rewrite decide_True|rewrite decide_False; [done|congruence]]|].
      intros r ->%list_elem_of_singleton. apply (frame_outcome_justified _ w l a f).
      * by apply frames_more_ops.
      * apply list.elem_of_app. right. apply list_elem_of_here.
      * apply orb_true_iff in Hb as [?|?%Z.eqb_eq]; [by right|left; lia].
    + split; [|done]. intros b. unfold live, awaits_of. rewrite Ew. cbn. destruct (decide (a = b)) as [->|Hne].
      * by rewrite lookup_insert_eq, Ha, decide_True.
      * by rewrite lookup_insert_ne, decide_False by congruence.
  - destruct (frame_cancel_ok ops w l s Hw Hop) as (w' & -> & Hw' & Ea & _). cbn. eexists _, [], _. split; [done|]. split; [done|]. split; [|done].
    intros b. by apply frame_live_same, Ea.
  - destruct (next_frame_ok ops w l order Hw Hop) as (Hw' & Ea & _). eexists _, [], l. split; [done|]. split; [done|]. split; [|done].
    intros b. by apply frame_live_same.
  - pose proof (frame_resume_ok _ _ _ Hw) as Hf. destruct (wake_ w) as [|a rest].
    + rewrite Hf. eexists _, [], l. split; [done|]. split; [by apply frames_more_ops|]. done.
    + destruct Hf as (f & t & w' & Hfa & Ht & -> & Hor & Hw' & Ea & _). eexists _, _, _. split; [done|]. split; [by apply frames_more_ops|]. split.
      * intros b. apply (frame_live_end w w' a); [by eexists|done].
      * intros r ->%list_elem_of_singleton. apply frame_justified_more. apply (frame_outcome_justified _ w l a f); [done| |done]. by apply (fk_op _ _ _ _ Hw).
Qed.

Lemma frame_run_ok ops : forall ops0 w l,
  frames_ok ops0 [] w l -> legal_run w ops ->
  exists w' out l', frame_run ops w = Some (w', out) /\ frames_ok (ops0 ++ ops) [] w' l' /\
    (forall a, (results_of a out + live w' a = awaits_of a ops + live w a)%nat) /\ (forall r, r ∈ out -> justified (ops0 ++ ops) r).
Proof.
  induction ops as [|op ops IH]; intros ops0 w l Hw Hl; cbn [frame_run legal_run] in *.
  - exists w, [], l. rewrite app_nil_r. split; [done|]. split; [done|]. split; [done|]. intros r []%elem_of_nil.
  - destruct Hl as [Hop Hl]. destruct (frame_step_ok ops0 w l op Hw Hop) as (w1 & out1 & l1 & E & Hw1 & Hc1 & Hj1). rewrite E in *.
    destruct (IH _ w1 l1 Hw1 Hl) as (w' & out & l' & E' & Hw' & Hc & Hj). cbn [mbind option_bind]. rewrite E'. cbn [mbind option_bind].
    rewrite <- app_assoc in Hw', Hj. exists w', (out1 ++ out), l'. split; [done|]. split; [done|]. split.
    + intros a. specialize (Hc1 a). specialize (Hc a). unfold results_of, awaits_of in *. change (op :: ops) with ([op] ++ ops).
      rewrite !list.filter_app, !length_app. lia.
    + intros r [Hr|Hr]%list.elem_of_app; [|by apply Hj]. change (op :: ops) with ([op] ++ ops). rewrite app_assoc.
      by apply frame_justified_more, Hj1.
Qed.

(** ** The frame that is awaited comes *)

(** Coroutine [a] waits for frame [f] with token [t]; when the frame has come,
    it is queued. *)
Definition pending (w : frames) (a : nat) (f : Z) (t : token) : Prop :=
  waiters w !! a = Some f /\ tokens w !! a = Some t /\ (f <= frame_ w -> a ∈ wake_ w).

(** In a step a pending coroutine stays so, or is resumed from the queue. *)
Lemma pending_step ops w l op w' out a f t :
  frames_ok ops [] w l -> legal w op -> frame_step op w = Some (w', out) -> pending w a f t ->
  (pending w' a f t /\ results_of a out = 0%nat) \/ (out = [(a, outcome t w)] /\ a ∈ wake_ w).
Proof.
  intros Hw Hop E (Hf & Ht & Hq). destruct op as [s|b f' t'|s|order|]; cbn [frame_step] in E.
  - injection E as <- <-. left. by split_and!.
  - destruct (frame_await_ok ops w l b f' t' Hw Hop) as (w1 & out1 & l1 & E1 & _ & Hcase & Efr & Ewk & Et & _).
    rewrite E1 in E. injection E as <- <-. left.
    assert (a <> b) as Hne by (intros ->; destruct Hop; congruence).
    assert (waiters w1 !! a = Some f /\ results_of a out1 = 0%nat) as [Hf1 Hr].
    { destruct (_ || _); destruct Hcase as [-> ->]; [|by rewrite lookup_insert_ne by (by apply not_eq_sym)].
      by rewrite frame_results_of_one, decide_False by (by apply not_eq_sym). }
    split; [|done]. split; [done|]. rewrite Et by done. split; [done|]. by rewrite Efr, Ewk.
  - destruct (frame_cancel_ok ops w l s Hw Hop) as (w1 & E1 & _ & (Ef & Et & Efr & Hwk) & _). rewrite E1 in E. injection E as <- <-.
    left. split; [|done]. split; [by rewrite Ef|]. split; [by rewrite Et|].
    rewrite Efr. auto.
  - injection E as <- <-. destruct (next_frame_ok ops w l order Hw Hop) as (_ & Ef & Et & Efr & Ewk & _).
    left. split; [|done]. split; [by rewrite Ef|]. split; [by rewrite Et|].
    rewrite Efr, Ewk, list.elem_of_app. intros Hle. destruct (decide (f <= frame_ w)); [left; auto|].
    destruct (fk_place _ _ _ _ Hw a f Hf) as [Ha|Ha]; [|by left]. right. destruct Hop as [_ Ho].
    rewrite Ho, elem_of_elements. by replace (frame_ w + 1) with f by lia.
  - pose proof (frame_resume_ok ops w l Hw) as Hr. destruct (wake_ w) as [|b rest] eqn:Ew.
    + rewrite Hr in E. injection E as <- <-. left. split; [|done]. by split_and!; [..|rewrite Ew].
    + destruct Hr as (f' & t' & w1 & Hfb & Htb & E1 & _ & _ & Ef & Et & Ewk & Efr & _). rewrite E1 in E. injection E as <- <-.
      destruct (decide (a = b)) as [->|Hne].
      * right. replace t' with t by congruence. split; [done|apply list_elem_of_here].
      * left. rewrite frame_results_of_one, decide_False by (by apply not_eq_sym). split; [|done].
        unfold pending. rewrite Ef, Et, Efr, Ewk, !lookup_delete_ne by (by apply not_eq_sym). split; [done|]. split; [done|].
        intros Hle. by destruct (proj1 (elem_of_cons _ _ _) (Hq Hle)).
Qed.

Lemma frame_step_mono ops w l op w' out :
  frames_ok ops [] w l -> legal w op -> frame_step op w = Some (w', out) ->
  frame_ w <= frame_ w' /\
  (forall t, is_cancellation_requested (cancel_ w) t = true -> is_cancellation_requested (cancel_ w') t = true).
Proof.
  intros Hw Hop E. destruct op as [s|b f' t'|s|order|]; cbn [frame_step] in E.
  - injection E as <- <-. destruct (awaiting_source _ _ _ s (fk_await _ _ _ _ Hw) Hop) as [_ Hreq].
    split; [done|]. intros t. cbn. by rewrite Hreq.
  - destruct (frame_await_ok ops w l b f' t' Hw Hop) as (w1 & out1 & l1 & E1 & _ & _ & Efr & _ & _ & Hreq).
    rewrite E1 in E. injection E as <- <-. split; [lia|]. intros t. by rewrite Hreq.
  - destruct (frame_cancel_ok ops w l s Hw Hop) as (w1 & E1 & _ & (_ & _ & Efr & _) & Hreq). rewrite E1 in E. injection E as <- <-.
    split; [lia|done].
  - injection E as <- <-. destruct (next_frame_ok ops w l order Hw Hop) as (_ & _ & _ & Efr & _ & ->). split; [lia|done].
  - pose proof (frame_resume_ok ops w l Hw) as Hr. destruct (wake_ w) as [|b rest]; [rewrite Hr in E; by injection E as <- <-|].
    destruct Hr as (? & ? & w1 & _ & _ & E1 & _ & _ & _ & _ & _ & Efr & Hreq). rewrite E1 in E. injection E as <- <-.
    split; [lia|]. intros t. by rewrite Hreq.
Qed.

(** What a run makes of a coroutine whose token is not cancelled meanwhile. *)
Lemma pending_run ops2 : forall ops w l w2 out2 a f t,
  frames_ok ops [] w l -> legal_run w ops2 -> frame_run ops2 w = Some (w2, out2) -> pending w a f t ->
  is_cancellation_requested (cancel_ w2) t = false ->
  frame_ w <= frame_ w2 /\ is_cancellation_requested (cancel_ w) t = false /\
  ((pending w2 a f t /\ results_of a out2 = 0%nat) \/ exists g, f <= g <= frame_ w2 /\ (a, FrameReached g) ∈ out2).
Proof.
  assert (forall ops2 ops w l w2 out2 t, frames_ok ops [] w l -> legal_run w ops2 -> frame_run ops2 w = Some (w2, out2) ->
    is_cancellation_requested (cancel_ w2) t = false -> frame_ w <= frame_ w2 /\ is_cancellation_requested (cancel_ w) t = false) as Hmono.
  { clear. induction ops2 as [|op ops2 IH]; intros ops w l w2 out2 t Hw Hl Hr Hc; cbn [frame_run legal_run] in *; [by injection Hr as <- <-|].
    destruct Hl as [Hop Hl]. destruct (frame_step_ok ops w l op Hw Hop) as (w1 & out1 & l1 & E & Hw1 & _). rewrite E in *. cbn in Hr.
    destruct (frame_run ops2 w1) as [[w3 out3]|] eqn:E3; [|done]. injection Hr as <- <-.
    destruct (IH _ _ _ _ _ t Hw1 Hl E3 Hc) as [H1 H2].
    destruct (frame_step_mono ops w l op w1 out1 Hw Hop E) as [H3 H4]. split; [lia|].
    destruct (is_cancellation_requested (cancel_ w) t) eqn:Hr'; [|done]. apply H4 in Hr'. congruence. }
  induction ops2 as [|op ops2 IH]; intros ops w l w2 out2 a f t Hw Hl Hr Hp Hc;
    destruct (Hmono _ _ _ _ _ _ t Hw Hl Hr Hc) as [Hle Hcw]; (split; [done|]); (split; [done|]); cbn [frame_run legal_run] in *.
  { injection Hr as <- <-. by left. }
  destruct Hl as [Hop Hl]. destruct (frame_step_ok ops w l op Hw Hop) as (w1 & out1 & l1 & E & Hw1 & _). rewrite E in *. cbn in Hr.
  destruct (frame_run ops2 w1) as [[w3 out3]|] eqn:E3; [|done]. injection Hr as <- <-.
  destruct (pending_step ops w l op w1 out1 a f t Hw Hop E Hp) as [[Hp1 Hn1]|[-> Ha]].
  - destruct (IH _ _ _ _ _ a f t Hw1 Hl E3 Hp1 Hc) as (_ & _ & [[Hp3 Hn3]|(g & Hg & Hin)]).
    + left. split; [done|]. unfold results_of in *. rewrite list.filter_app, length_app. lia.
    + right. exists g. split; [done|]. apply list.elem_of_app. by right.
  - right. exists (frame_ w). split; [|apply list.elem_of_app; left; unfold outcome; rewrite Hcw; apply list_elem_of_here].
    split; [|done]. destruct Hp as (Hf & Ht & _). destruct (fk_wake _ _ _ _ Hw a Ha) as (f' & t' & Hf' & Ht' & Hor).
    replace t' with t in * by congruence. replace f' with f in * by congruence. destruct Hor; [done|congruence].
Qed.

(** The scheduler empties its queue. *)
Lemma frames_drained n : forall ops w l,
  length (wake_ w) = n -> frames_ok ops [] w l -> exists w' out, frame_run (replicate n OpResume) w = Some (w', out).
Proof.
  induction n as [|n IH]; intros ops w l Hn Hw; [by exists w, []|].
  pose proof (frame_resume_ok ops w l Hw) as Hf. destruct (wake_ w) as [|b rest] eqn:Ew; [done|]. injection Hn as Hn.
  destruct Hf as (f & t & w1 & _ & _ & E & _ & Hw1 & _ & _ & Ewk & _). cbn [replicate frame_run frame_step]. rewrite E. cbn.
  destruct (IH ops w1 _ ltac:(by rewrite Ewk) Hw1) as (w' & out & ->). cbn. by eexists _, _.
Qed.

Lemma frames_drain n : forall ops w l a t,
  length (wake_ w) = n -> frames_ok ops [] w l -> a ∈ wake_ w -> tokens w !! a = Some t -> is_cancellation_requested (cancel_ w) t = false ->
  exists w' out, frame_run (replicate n OpResume) w = Some (w', out) /\ (a, FrameReached (frame_ w)) ∈ out.
Proof.
  induction n as [|n IH]; intros ops w l a t Hn Hw Ha Ht Hr.
  - destruct (wake_ w); [by apply elem_of_nil in Ha|done].
  - pose proof (frame_resume_ok ops w l Hw) as Hf. destruct (wake_ w) as [|b rest] eqn:Ew; [done|]. injection Hn as Hn.
    destruct Hf as (f & t' & w1 & Hfb & Htb & E & _ & Hw1 & Ef & Et & Ewk & Efr & Hreq).
    cbn [replicate frame_run frame_step]. rewrite E. cbn [mbind option_bind].
    destruct (decide (a = b)) as [->|Hne].
    + assert (t' = t) as -> by congruence. unfold outcome. rewrite Hr.
      destruct (frames_drained n ops w1 _ ltac:(by rewrite Ewk) Hw1) as (w' & out & ->). cbn. exists w', ((b, FrameReached (frame_ w)) :: out).
      split; [done|apply list_elem_of_here].
    + destruct (IH ops w1 (without l b) a t) as (w' & out & -> & Hin).
      * by rewrite Ewk.
      * done.
      * rewrite Ewk. by apply elem_of_cons in Ha as [?|?].
      * by rewrite Et, lookup_delete_ne.
      * by rewrite Hreq.
      * cbn. exists w', ((b, outcome t' w) :: out). split; [done|]. rewrite <- Efr. by apply list_elem_of_further.
Qed.

(** * Properties *)

(** In whatever order coroutines await frames, tokens are cancelled, frames
    pass and the scheduler resumes what is queued, nothing touches an awaiter
    that is gone, and every [co_await] ends once or goes on: it returns when its
    frame has come, never before, or throws because the source of its token was
    cancelled. *)
Theorem frames_end_once (ops : list frame_op) :
  legal_run frames_new ops ->
  exists w out, frame_run ops frames_new = Some (w, out) /\
    (forall a, (results_of a out + live w a)%nat = awaits_of a ops) /\ (forall r, r ∈ out -> justified ops r).
Proof.
  intros Hl. destruct (frame_run_ok ops [] _ _ frames_new_ok Hl) as (w & out & l & E & _ & Hc & Hj).
  exists w, out. split; [done|]. split; [|done]. intros a. rewrite (Hc a). unfold live. cbn. rewrite lookup_empty. lia.
Qed.

(** C12: a coroutine that waits for a frame to come, with a token that is not
    cancelled, waits until it has come and is then resumed, whatever the other
    coroutines, the tokens, the frames and the scheduler do in whatever order:
    before the frame it waits on; once the frame has come it has been resumed or
    is resumed as the scheduler goes through its queue; it returns in its frame
    or a later one that has come by then, so in exactly its frame when the
    scheduler's queue is emptied before the next frame comes. (A late update
    coroutine does not suspend in [sleep_until]; frames then follow each other
    without the scheduler in between: [frames_in_a_row].) *)
Theorem frame_waiters_resume (ops ops2 : list frame_op) (w w2 : frames) out out2 (a : nat) (f : Z) (t : token) :
  legal_run frames_new ops -> frame_run ops frames_new = Some (w, out) ->
  waiters w !! a = Some f -> tokens w !! a = Some t -> frame_ w < f ->
  legal_run w ops2 -> frame_run ops2 w = Some (w2, out2) -> is_cancellation_requested (cancel_ w2) t = false ->
  (frame_ w2 < f -> waiters w2 !! a = Some f /\ results_of a out2 = 0%nat) /\
  (f <= frame_ w2 -> exists w3 out3 g, frame_run (replicate (length (wake_ w2)) OpResume) w2 = Some (w3, out3) /\
     (a, FrameReached g) ∈ out2 ++ out3 /\ f <= g <= frame_ w2).
Proof.
  intros Hl Hrun Hf Ht Hlt Hl2 Hr2 Hc. destruct (frame_run_ok ops [] _ _ frames_new_ok Hl) as (w0 & out0 & l & E & Hw & _).
  rewrite Hrun in E. injection E as <- <-. destruct (frame_run_ok ops2 _ _ _ Hw Hl2) as (w0 & out0 & l2 & E & Hw2 & _).
  rewrite Hr2 in E. injection E as <- <-.
  destruct (pending_run ops2 _ w l w2 out2 a f t Hw Hl2 Hr2) as (_ & _ & [[(Hf2 & Ht2 & Hq2) Hn]|(g & Hg & Hin)]);
    [by split_and!; [..|lia]|done| |]; (split; [intros Hlt2|intros Hle]).
  - done.
  - destruct (frames_drain _ _ w2 _ a t eq_refl Hw2 (Hq2 Hle) Ht2 Hc) as (w3 & out3 & E & Hin). exists w3, out3, (frame_ w2).
    split; [done|]. split; [apply list.elem_of_app; by right|lia].
  - lia.
  - destruct (frames_drained _ _ w2 _ eq_refl Hw2) as (w3 & out3 & E). exists w3, out3, g.
    split; [done|]. split; [apply list.elem_of_app; by left|done].
Qed.

(** * Witnesses *)

(** Two coroutines wait for frames 2 and 1, a third with a token; it is cancelled. *)
Definition demo_ops : list frame_op :=
  [OpSource 0; OpAwait 1 2 None; OpAwait 2 1 None; OpAwait 3 5 (Some 0%nat); OpFrame [2%nat]; OpCancel 0; OpResume].

#[export] Instance legal_dec w op : Decision (legal w op).
Proof.
  destruct op as [s|a f t|s|order|]; cbn.
  - apply _.
  - apply and_dec; [apply _|]. destruct t as [s|]; [|left; congruence].
    destruct (decide (is_Some (states (cancel_ w) !! s))); [left; intros ? [= <-]; done|right; intros H; by apply n, H].
  - apply _.
  - apply _.
  - apply _.
Defined.

#[export] Instance legal_run_dec ops : forall w, Decision (legal_run w ops).
Proof.
  induction ops as [|op ops IH]; intros w; cbn; [left; done|].
  apply and_dec; [apply _|]. destruct (frame_step op w) as [[w' out]|]; [apply IH|left; done].
Defined.

Lemma frames_demo_legal : legal_run frames_new demo_ops.
Proof. apply (bool_decide_unpack _). vm_compute. exact I. Qed.

Lemma frames_end_once_witness :
  exists w out, frame_run demo_ops frames_new = Some (w, out) /\
    (forall a, (results_of a out + live w a)%nat = awaits_of a demo_ops) /\ (forall r, r ∈ out -> justified demo_ops r).
Proof. exact (frames_end_once demo_ops frames_demo_legal). Defined.

Lemma frame_waiters_resume_witness :
  exists w out, frame_run demo_ops frames_new = Some (w, out) /\ frame_ w = 1 /\
    exists w2 w3 out3, frame_run [OpAwait 4 3 None; OpFrame [1%nat]] w = Some (w2, []) /\
      frame_run (replicate (length (wake_ w2)) OpResume) w2 = Some (w3, out3) /\ (1%nat, FrameReached 2) ∈ out3.
Proof.
  destruct (frame_run demo_ops frames_new) as [[w out]|] eqn:E; [|by vm_compute in E].
  exists w, out. split; [done|].
  assert (frame_ w = 1 /\ waiters w !! 1%nat = Some 2 /\ tokens w !! 1%nat = Some None /\
    bool_decide (legal_run w [OpAwait 4 3 None; OpFrame [1%nat]]) /\
    (fun r => (r.2, frame_ r.1)) <$> frame_run [OpAwait 4 3 None; OpFrame [1%nat]] w = Some ([], 2)) as (Ef & Hf & Ht & Hl & E2).
  { vm_compute in E. injection E as <- <-. by vm_compute. }
  split; [exact Ef|]. destruct (frame_run [OpAwait 4 3 None; OpFrame [1%nat]] w) as [[w2 out2]|] eqn:Er; [|done]. injection E2 as -> Ef2.
  destruct (frame_waiters_resume demo_ops [OpAwait 4 3 None; OpFrame [1%nat]] w w2 out [] 1 2 None frames_demo_legal E Hf Ht) as [_ H].
  - rewrite Ef. reflexivity.
  - apply (bool_decide_unpack _ Hl).
  - exact Er.
  - reflexivity.
  - cbn [snd fst] in Ef2. rewrite Ef2 in H. destruct H as (w3 & out3 & g & E3 & Hin & Hg); [lia|].
    exists w2, w3, out3. split; [done|]. split; [done|]. by replace 2 with g by lia.
Defined.

(** Two frames come before the scheduler resumes the coroutine that waited for
    the first: it returns in the second. *)
Example frames_in_a_row :
  (fun r => r.2) <$> frame_run [OpAwait 1 (skip_frame 1 frames_new) None; OpFrame [1%nat]; OpFrame []; OpResume] frames_new =
  Some [(1%nat, FrameReached 2)].
Proof. vm_compute. reflexivity. Qed.

(** A coroutine that makes [skip_frame(1)] and suspends on something else before
    it awaits it may find the frame gone by: it waits for ever. *)
Example late_frame_waits :
  (fun r => (r.2, frame_ r.1, waiters r.1 !! 1%nat)) <$>
    frame_run [OpFrame []; OpFrame []; OpAwait 1 (skip_frame 1 frames_new) None; OpFrame []; OpFrame []; OpResume] frames_new =
  Some ([], 4, Some 1).
Proof. vm_compute. reflexivity. Qed.
