(* ===== verification/ThreadPool.v ===== *)
(** The thread pool (src/coro/thread_pool.cpp in src/runtime): a queue of
    functions behind a lock, a condition variable, and the threads that take the
    functions out and call them.

    A thread is where it is in [run]; its steps and those of the others come in
    any order. What holds the lock is one step. *)

From S2P Require Import Prelude.

(** How many threads [start] makes, on a machine with [hardware] processors. *)
Definition thread_count (num hardware : Z) : Z :=
  if num =? 0 then if 1 <? hardware then hardware - 1 else hardware else num.

Section pool.
Context {F : Type}.

(** At the condition of the loop, in [cv_.wait] (notified or not), in a function,
    or returned. *)
Inductive worker := AtLoop | Waiting (notified : bool) | Calling (func : F) | Returned.

Record thread_pool := ThreadPool { queue_ : list F; threads_ : list worker; stop_requested : bool }.

Definition start (n : nat) : thread_pool := ThreadPool [] (replicate n AtLoop) false.

Definition set_thread (i : nat) (t : worker) (w : thread_pool) : thread_pool :=
  ThreadPool (queue_ w) (<[i := t]> (threads_ w)) (stop_requested w).

(** [notify_one] reaches the waiting thread [who]; [None] when there is none. *)
Definition post (func : F) (who : option nat) (w : thread_pool) : thread_pool :=
  let w := ThreadPool (queue_ w ++ [func]) (threads_ w) (stop_requested w) in
  match who with Some i => set_thread i (Waiting true) w | None => w end.

Definition stop (w : thread_pool) : thread_pool := ThreadPool (queue_ w) (threads_ w) true.

(** [cv_.wait] with its predicate, at its beginning and when it wakes up: it
    returns the predicate once a stop is requested. *)
Definition wait_turn (i : nat) (w : thread_pool) : thread_pool :=
  match queue_ w with
  | func :: rest => ThreadPool rest (<[i := Calling func]> (threads_ w)) (stop_requested w)
  | [] => set_thread i (if stop_requested w then AtLoop else Waiting false) w
  end.

(** A thread goes on to where it next waits, calls or returns. What it has
    called is the result. *)
Definition turn (i : nat) (w : thread_pool) : option (thread_pool * list F) :=
  match threads_ w !! i with
  | Some AtLoop => Some (if stop_requested w then set_thread i Returned w else wait_turn i w, [])
  | Some (Waiting notified) => if notified || stop_requested w then Some (wait_turn i w, []) else None
  | Some (Calling func) => Some (set_thread i AtLoop w, [func])
  | _ => None
  end.

Inductive op := Post (func : F) (who : option nat) | Stop | Turn (i : nat).

Definition step (o : op) (w : thread_pool) : option (thread_pool * list F) :=
  match o with
  | Post func who => Some (post func who w, [])
  | Stop => Some (stop w, [])
  | Turn i => turn i w
  end.

Fixpoint run (ops : list op) (w : thread_pool) : option (thread_pool * list F) :=
  match ops with
  | [] => Some (w, [])
  | o :: ops => '(w, called) ← step o w; '(w, called') ← run ops w; Some (w, called ++ called')
  end.

(** * What is posted is called *)

(** [notify_one] reaches a thread that waits, when there is one. *)
Definition legal (w : thread_pool) (o : op) : Prop :=
  match o with
  | Post _ (Some i) => threads_ w !! i = Some (Waiting false)
  | Post _ None => Forall (fun t => t <> Waiting false) (threads_ w)
  | _ => True
  end.

Fixpoint legal_run (w : thread_pool) (ops : list op) : Prop :=
  match ops with
  | [] => True
  | o :: ops => legal w o /\ match step o w with Some (w, _) => legal_run w ops | None => True end
  end.

Definition posted (ops : list op) : list F := omap (fun o => match o with Post func _ => Some func | _ => None end) ops.

(** What the threads are calling. *)
Definition calling (ts : list worker) : list F := omap (fun t => match t with Calling func => Some func | _ => None end) ts.

Lemma calling_insert ts i t t' :
  ts !! i = Some t -> calling (<[i := t']> ts) ++ calling [t] ≡ₚ calling [t'] ++ calling ts.
Proof.
  intros Ht. rewrite insert_take_drop by (by eapply lookup_lt_Some). rewrite <- (take_drop_middle ts i t Ht) at 3.
  unfold calling. rewrite !omap_app. cbn [omap list_omap]. destruct t, t'; cbn; rewrite ?app_nil_r; solve_Permutation.
Qed.

(** What was posted is what was taken and what is queued, in this order. *)
Definition accounted (ops : list op) (called : list F) (w : thread_pool) : Prop :=
  exists taken, posted ops = taken ++ queue_ w /\ taken ≡ₚ called ++ calling (threads_ w).

Lemma set_thread_accounted ops called w i t t' :
  accounted ops called w -> threads_ w !! i = Some t -> calling [t'] = calling [t] -> accounted ops called (set_thread i t' w).
Proof.
  intros (taken & E & Hp) Ht Ec. exists taken. split; [done|]. cbn. rewrite Hp. f_equiv.
  pose proof (calling_insert _ _ _ t' Ht) as H. rewrite Ec, (Permutation_app_comm (calling [t])) in H. by apply Permutation_app_inv_r in H.
Qed.

Lemma wait_turn_accounted ops called w i t :
  accounted ops called w -> threads_ w !! i = Some t -> calling [t] = [] -> accounted ops called (wait_turn i w).
Proof.
  intros H Ht Ec. unfold wait_turn. destruct (queue_ w) as [|func rest] eqn:Eq.
  - apply (set_thread_accounted _ _ _ _ t); [done|done|]. rewrite Ec. by destruct (stop_requested w).
  - destruct H as (taken & E & Hp). exists (taken ++ [func]). cbn. split; [by rewrite E, Eq, <- app_assoc|].
    pose proof (calling_insert _ _ _ (Calling func) Ht) as H. rewrite Ec, app_nil_r in H. rewrite H, Hp. cbn. solve_Permutation.
Qed.

Lemma step_accounted ops called w o w' called' :
  accounted ops called w -> legal w o -> step o w = Some (w', called') -> accounted (ops ++ [o]) (called ++ called') w'.
Proof.
  intros H Hl E. assert (posted (ops ++ [o]) = posted ops ++ posted [o]) as Ep by apply omap_app.
  destruct o as [func who| |i]; cbn in E.
  - injection E as <- <-. rewrite app_nil_r.
    assert (accounted (ops ++ [Post func who]) called (ThreadPool (queue_ w ++ [func]) (threads_ w) (stop_requested w))) as H1.
    { destruct H as (taken & E & Hp). exists taken. rewrite Ep, E. cbn. by rewrite <- app_assoc. }
    unfold post. destruct who as [i|]; [|done]. by apply (set_thread_accounted _ _ _ _ (Waiting false)).
  - injection E as <- <-. rewrite app_nil_r. unfold accounted in *. by rewrite Ep, app_nil_r.
  - assert (accounted (ops ++ [Turn i]) called w) as H1 by (unfold accounted in *; by rewrite Ep, app_nil_r).
    unfold turn in E. destruct (threads_ w !! i) as [[|notified|func|]|] eqn:Ht; try done.
    + injection E as <- <-. rewrite app_nil_r. destruct (stop_requested w).
      * by apply (set_thread_accounted _ _ _ _ AtLoop).
      * by apply (wait_turn_accounted _ _ _ _ AtLoop).
    + destruct (notified || stop_requested w); [|done]. injection E as <- <-. rewrite app_nil_r. by apply (wait_turn_accounted _ _ _ _ (Waiting notified)).
    + injection E as <- <-. destruct H1 as (taken & E & Hp). exists taken. split; [done|]. cbn. rewrite Hp.
      pose proof (calling_insert _ _ _ AtLoop Ht) as Hi. cbn in Hi. rewrite <- Hi. solve_Permutation.
Qed.

Lemma run_accounted ops' : forall ops called w w' called',
  accounted ops called w -> legal_run w ops' -> run ops' w = Some (w', called') -> accounted (ops ++ ops') (called ++ called') w'.
Proof.
  induction ops' as [|o ops' IH]; intros ops called w w' called' H Hl E; cbn [run legal_run] in *.
  { injection E as <- <-. by rewrite !app_nil_r. }
  destruct Hl as [Ho Hl]. destruct (step o w) as [[w1 called1]|] eqn:E1; [|done]. cbn in E. destruct (run ops' w1) as [[w2 called2]|] eqn:E2; [|done].
  injection E as <- <-. change (o :: ops') with ([o] ++ ops'). rewrite !app_assoc. by eapply IH; [eapply step_accounted| |].
Qed.

Lemma start_accounted n : accounted [] [] (start n).
Proof.
  exists []. split; [done|]. cbn. unfold calling. induction n as [|n IH]; [done|]. by cbn.
Qed.

(** ** No thread sleeps while something is queued *)

Definition active (t : worker) : bool := match t with AtLoop | Waiting true | Calling _ => true | _ => false end.

Record awake (w : thread_pool) : Prop := {
  aw_some : threads_ w <> [];
  aw_work : stop_requested w = false -> queue_ w <> [] -> exists i t, threads_ w !! i = Some t /\ active t = true;
  aw_alive : stop_requested w = false -> forall i, threads_ w !! i <> Some Returned }.

Lemma start_awake n : (0 < n)%nat -> awake (start n).
Proof.
  intros Hn. split; cbn; [destruct n; [lia|done]|done|]. intros _ i Hi. apply lookup_replicate in Hi as [? _]. done.
Qed.

(** A thread that has become active. *)
Lemma set_awake w i t q s :
  awake w -> threads_ w !! i <> None -> active t = true -> (s = false -> stop_requested w = false) ->
  awake (ThreadPool q (<[i := t]> (threads_ w)) s).
Proof.
  intros [A1 _ A3] Hi Ht Hs. assert (i < length (threads_ w))%nat as Hlt by (apply lookup_lt_is_Some; by destruct (threads_ w !! i)).
  split; cbn.
  - intros E. apply (f_equal length) in E. rewrite length_insert in E. cbn in E. lia.
  - intros _ _. exists i, t. split; [by apply list_lookup_insert_eq|done].
  - intros E j Hj. destruct (decide (i = j)) as [<-|Hne]; [rewrite list_lookup_insert_eq in Hj by done; injection Hj as ->; done|].
    rewrite list_lookup_insert_ne in Hj by done. by apply (A3 (Hs E) j).
Qed.

Lemma step_awake w o w' called : awake w -> legal w o -> step o w = Some (w', called) -> awake w'.
Proof.
  intros Hw Hl E. destruct o as [func who| |i]; cbn in E.
  - injection E as <- <-. unfold post. destruct who as [i|].
    + apply (set_awake w); [done|cbn in *; congruence|done|done].
    + destruct Hw as [A1 A2 A3]. split; cbn; [done| |done]. intros Hs _. destruct (threads_ w) as [|t ts] eqn:Et; [done|].
      exists 0%nat, t. split; [done|]. cbn in Hl. rewrite Et in Hl. apply list.Forall_cons in Hl as [Ht _]. specialize (A3 Hs 0%nat).
       destruct t as [|[]| |]; (done || congruence).
  - injection E as <- <-. destruct Hw as [A1 _ _]. by split.
  - unfold turn in E. assert (forall t, threads_ w !! i = Some t -> awake (wait_turn i w)) as Hwait.
    { intros t Ht. unfold wait_turn. destruct (queue_ w) as [|func rest] eqn:Eq; [|apply (set_awake w); [done|congruence|done|done]].
      destruct (stop_requested w) eqn:Es; [apply (set_awake w); [done|congruence|done|done]|].
      destruct Hw as [A1 A2 A3]. assert (i < length (threads_ w))%nat as Hlt by (by eapply lookup_lt_Some).
      split; cbn; rewrite ?Eq, ?Es; try done.
      - intros E'. apply (f_equal length) in E'. rewrite length_insert in E'. cbn in E'. lia.
      - intros _ j Hj. destruct (decide (i = j)) as [<-|Hne]; [by rewrite list_lookup_insert_eq in Hj by done|].
        rewrite list_lookup_insert_ne in Hj by done. by apply (A3 Es j). }
    destruct (threads_ w !! i) as [[|notified|func|]|] eqn:Ht; try done.
    + injection E as <- <-. destruct (stop_requested w) eqn:Es; [|by apply (Hwait AtLoop)].
      destruct Hw as [A1 _ _]. split; cbn; rewrite ?Es; try done. intros E'. apply (f_equal length) in E'. rewrite length_insert in E'. cbn in E'.
      by destruct (threads_ w).
    + destruct (notified || stop_requested w); [|done]. injection E as <- <-. by apply (Hwait (Waiting notified)).
    + injection E as <- <-. apply (set_awake w); [done|congruence|done|done].
Qed.

Lemma run_awake ops : forall w w' called, awake w -> legal_run w ops -> run ops w = Some (w', called) -> awake w'.
Proof.
  induction ops as [|o ops IH]; intros w w' called H Hl E; cbn [run legal_run] in *; [by injection E as <- <-|].
  destruct Hl as [Ho Hl]. destruct (step o w) as [[w1 called1]|] eqn:E1; [|done]. cbn in E. destruct (run ops w1) as [[w2 called2]|] eqn:E2; [|done].
  injection E as <- <-. by eapply IH; [eapply step_awake| |].
Qed.

(** The threads empty the queue: a function takes a turn to be taken and one to
    be called. *)
Lemma drain m : forall w,
  awake w -> stop_requested w = false -> (length (queue_ w) * 2 + length (calling (threads_ w)) <= m)%nat ->
  exists turns w' called, run (Turn <$> turns) w = Some (w', called) /\ legal_run w (Turn <$> turns) /\
    queue_ w' = [] /\ calling (threads_ w') = [] /\ (length turns <= m)%nat.
Proof.
  induction m as [|m IH]; intros w Hw Hs Hm.
  { exists [], w, []. destruct (queue_ w); [|cbn in Hm; lia]. destruct (calling (threads_ w)); [by split_and!|cbn in Hm; lia]. }
  assert (forall i w1 c, turn i w = Some (w1, c) -> stop_requested w1 = false ->
    (length (queue_ w1) * 2 + length (calling (threads_ w1)) <= m)%nat ->
    exists turns w' called, run (Turn <$> turns) w = Some (w', called) /\ legal_run w (Turn <$> turns) /\
      queue_ w' = [] /\ calling (threads_ w') = [] /\ (length turns <= S m)%nat) as Hgo.
  { intros i w1 c E Hs1 Hm1. destruct (IH w1) as (turns & w' & called & Er & Hl & Hq & Hc & Hlen); [|done|done|].
    - by eapply (step_awake w (Turn i)).
    - exists (i :: turns), w', (c ++ called). cbn [fmap list_fmap run legal_run step legal]. rewrite E. cbn [mbind option_bind]. rewrite Er. split; [done|]. split; [by split|].
      split; [done|]. split; [done|]. cbn [length]; lia. }
  assert (forall i func, threads_ w !! i = Some (Calling func) ->
    length (calling (threads_ w)) = S (length (calling (<[i := AtLoop]> (threads_ w))))) as Hcall.
  { intros i func Ht. pose proof (Permutation_length (calling_insert _ _ _ AtLoop Ht)) as Hp. rewrite !length_app in Hp. cbn in Hp. lia. }
  destruct (calling (threads_ w)) as [|func fs] eqn:Ec.
  - destruct (queue_ w) as [|func rest] eqn:Eq; [exists [], w, []; by split_and!; try lia|].
    destruct (aw_work w Hw Hs) as (i & t & Ht & Ha); [by rewrite Eq|].
    assert (calling [t] = []) as Et.
    { destruct t as [| |func'|]; try done. specialize (Hcall i func' Ht). cbn in Hcall. lia. }
    assert (turn i w = Some (wait_turn i w, [])) as E.
    { unfold turn. rewrite Ht, Hs. destruct t as [|[]| |]; done. }
    apply (Hgo i _ _ E); unfold wait_turn; rewrite Eq; cbn [queue_ threads_ stop_requested]; [done|].
    pose proof (Permutation_length (calling_insert _ _ _ (Calling func) Ht)) as Hp. rewrite !length_app, Ec, Et in Hp. cbn [length] in Hp, Hm. change (calling [Calling func]) with [func] in Hp. cbn [length] in Hp. lia.
  - assert (exists i f, threads_ w !! i = Some (Calling f)) as (i & f & Ht).
    { assert (func ∈ calling (threads_ w)) as Hin by (rewrite Ec; apply list_elem_of_here).
      apply list_elem_of_omap in Hin as (t & Hin & Et). destruct t as [| |f|]; try done. apply list_elem_of_lookup in Hin as [i Hi]. by exists i, f. }
    specialize (Hcall i f Ht). apply (Hgo i (set_thread i AtLoop w) [f]); [unfold turn; by rewrite Ht|done|]. rewrite <- Ec in *.
    cbn [set_thread queue_ threads_] in *. lia.
Qed.

(** * Properties *)

(** Whatever the threads do, every function posted is called once, is being
    called, or waits in the queue; the functions are taken in the order in which
    they were posted. *)
Theorem functions_called_once n ops w called :
  legal_run (start n) ops -> run ops (start n) = Some (w, called) ->
  exists taken, posted ops = taken ++ queue_ w /\ taken ≡ₚ called ++ calling (threads_ w).
Proof. intros Hl E. exact (run_accounted ops [] [] _ _ _ (start_accounted n) Hl E). Qed.

(** C13: as long as no stop is requested, no thread sleeps while something is queued:
    at most two turns for every function queued and one for every function that
    is being called bring everything that was posted to its end. *)
Theorem pool_drains n ops w called :
  (0 < n)%nat -> legal_run (start n) ops -> run ops (start n) = Some (w, called) -> stop_requested w = false ->
  exists turns w' called', run (Turn <$> turns) w = Some (w', called') /\
    (length turns <= length (queue_ w) * 2 + length (calling (threads_ w)))%nat /\ called ++ called' ≡ₚ posted ops.
Proof.
  intros Hn Hl E Hs. pose proof (run_accounted ops [] [] _ _ _ (start_accounted n) Hl E) as H.
  destruct (drain (length (queue_ w) * 2 + length (calling (threads_ w))) w) as (turns & w' & called' & Er & Hl' & Hq & Hc & Hlen); [|done|done|].
  { by eapply run_awake; [apply start_awake| |]. }
  exists turns, w', called'. split; [done|]. split; [done|].
  destruct (run_accounted _ _ _ _ _ _ H Hl' Er) as (taken & Ep & Hp). rewrite Hq, app_nil_r in Ep. rewrite Hc, app_nil_r in Hp.
  assert (posted (Turn <$> turns) = []) as Et by (clear; induction turns as [|i turns IH]; [done|exact IH]).
  cbn [app] in Ep. unfold posted in Ep. rewrite omap_app in Ep. fold (posted (Turn <$> turns)) in Ep.
  rewrite Et, app_nil_r in Ep. fold (posted ops) in Ep. by rewrite Ep, Hp.
Qed.
End pool.

(** Three functions on two threads; the second is posted to a thread that waits. *)
Definition pool_demo_ops : list (op (F := Z)) :=
  [Post 1 None; Turn 0; Turn 1; Post 2 (Some 1%nat); Post 3 None; Turn 0].

Lemma pool_demo_legal : legal_run (start 2) pool_demo_ops.
Proof. vm_compute. repeat split; repeat constructor; discriminate. Qed.

Lemma functions_called_once_witness :
  exists w called, run pool_demo_ops (start 2) = Some (w, called) /\ called = [1] /\
    exists taken, posted pool_demo_ops = taken ++ queue_ w /\ taken ≡ₚ called ++ calling (threads_ w).
Proof.
  destruct (run pool_demo_ops (start 2)) as [[w called]|] eqn:E; [|by vm_compute in E].
  exists w, called. split; [done|]. split; [by vm_compute in E; injection E as <- <-|].
  exact (functions_called_once 2 pool_demo_ops w called pool_demo_legal E).
Defined.

Lemma pool_drains_witness :
  exists w called turns w' called', run pool_demo_ops (start 2) = Some (w, called) /\
    run (Turn <$> turns) w = Some (w', called') /\ called ++ called' ≡ₚ [1; 2; 3].
Proof.
  destruct (run pool_demo_ops (start 2)) as [[w called]|] eqn:E; [|by vm_compute in E].
  assert (stop_requested w = false) as Hs by (vm_compute in E; by injection E as <- <-).
  destruct (pool_drains 2 pool_demo_ops w called ltac:(lia) pool_demo_legal E Hs) as (turns & w' & called' & Er & _ & Hp).
  exists w, called, turns, w', called'. by split_and!.
Defined.

(** After a stop the functions that are queued are not called. *)
Example stopped_pool_drops :
  run [Post 1 None; Stop; Turn 0; Turn 0] (start 1) = None /\
  (fun r => (queue_ r.1, r.2)) <$> run [Post 1 None; Stop; Turn 0] (start (F := Z) 1) = Some ([1], []).
Proof. split; reflexivity. Qed.
