(* ===== verification/KcpConfig.v ===== *)
(** What the KCP sockets share: the datagrams (src/net/impl/kcp_config.h in
    src/runtime), the protocol of ikcp, and the parts of kcp_client_impl.cpp and
    kcp_session_impl.cpp that are the same text twice.

    ikcp is another project's: its control block is a class of operations with
    the laws that the sockets rely on. Times are milliseconds. *)

From S2P Require Import Prelude Digest.

(** * Datagrams *)

Inductive kcp_code := code_connect | code_connect_ack | code_disconnect | code_heartbeat | code_heartbeat_ack | code_data.

#[export] Instance kcp_code_dec : EqDecision kcp_code.
Proof. solve_decision. Defined.

Definition code_value (c : kcp_code) : Z :=
  match c with
  | code_connect => 1 | code_connect_ack => 2 | code_disconnect => 3
  | code_heartbeat => 4 | code_heartbeat_ack => 5 | code_data => 6
  end.

Definition kcp_magic : bytes := [0x62; 0xf9; 0x8e].

(** [kcp_head]. *)
Definition kcp_head (c : kcp_code) : bytes := kcp_magic ++ [code_value c].

Definition udp_mtu : Z := 470.
Definition kcp_head_size : Z := 4.
Definition kcp_mtu : Z := udp_mtu - kcp_head_size.
Definition kcp_recv_capacity : Z := 1024.

Definition kcp_alive_timeout : Z := 20 * 1000.
Definition kcp_heartbeat_timeout : Z := 10 * 1000.

(** The number goes in network order, whatever the order of the host. *)
Definition make_kcp_ctrl (c : kcp_code) (conv : Z) : bytes := kcp_head c ++ be_bytes 4 conv.

Definition make_kcp_data (packet : bytes) : bytes := kcp_head code_data ++ packet.

(** The datagram is received over what the buffer held before; the rest stays. *)
Definition received (datagram buffer : bytes) : Z * bytes :=
  let len := Z.min (zlen datagram) (zlen buffer) in (len, ztake len datagram ++ zdrop len buffer).

Definition magic_ok (buffer : bytes) : bool := bool_decide (ztake 3 buffer = kcp_magic).

Definition has_code (c : kcp_code) (buffer : bytes) : bool := bool_decide (znth buffer 3 = Some (code_value c)).

(** [memcpy] of four bytes after the head, and [ntohl]. *)
Definition head_conv (buffer : bytes) : Z := be_value (ztake 4 (zdrop kcp_head_size buffer)).

(** * ikcp *)

Class Kcp (K : Type) := {
  ikcp_create : Z -> K;
  ikcp_wndsize : Z -> Z -> K -> K;
  ikcp_setmtu : Z -> K -> K;
  ikcp_nodelay : Z -> Z -> Z -> Z -> K -> K;
  set_rx_minrto : Z -> K -> K;
  kcp_conv : K -> Z;
  ikcp_getconv : bytes -> Z;
  ikcp_send : bytes -> K -> Z * K;
  ikcp_input : bytes -> K -> Z * K;
  ikcp_recv : Z -> K -> Z * bytes * K;
  ikcp_update : Z -> K -> K * list bytes;
  ikcp_check : Z -> K -> Z;
  rcv_pending : K -> nat }.

(** [conv] is set once; a message received leaves the queue; what is shorter
    than the 24 bytes of a header is refused; [ikcp_getconv] reads four bytes. *)
Class KcpLaws (K : Type) `{!Kcp K} := {
  conv_create c : kcp_conv (ikcp_create c) = c;
  conv_wndsize a b k : kcp_conv (ikcp_wndsize a b k) = kcp_conv k;
  conv_setmtu a k : kcp_conv (ikcp_setmtu a k) = kcp_conv k;
  conv_nodelay a b c d k : kcp_conv (ikcp_nodelay a b c d k) = kcp_conv k;
  conv_minrto a k : kcp_conv (set_rx_minrto a k) = kcp_conv k;
  conv_send d k : kcp_conv (ikcp_send d k).2 = kcp_conv k;
  conv_input d k : kcp_conv (ikcp_input d k).2 = kcp_conv k;
  conv_recv n k : kcp_conv (ikcp_recv n k).2 = kcp_conv k;
  conv_update t k : kcp_conv (ikcp_update t k).1 = kcp_conv k;
  recv_leaves n k : 0 < (ikcp_recv n k).1.1 -> (rcv_pending (ikcp_recv n k).2 < rcv_pending k)%nat;
  input_short d k : zlen d < 24 -> (ikcp_input d k).1 < 0;
  getconv_four d d' : ztake 4 d = ztake 4 d' -> ikcp_getconv d = ikcp_getconv d' }.

Section sockets.
Context {K : Type} `{!Kcp K}.

Definition kcp_no_delay (on : bool) (k : K) : K :=
  if on then set_rx_minrto 10 (ikcp_nodelay 1 10 2 1 k) else ikcp_nodelay 0 40 0 0 k.

Definition kcp_create_default (conv : Z) : K :=
  kcp_no_delay true (ikcp_setmtu kcp_mtu (ikcp_wndsize 256 256 (ikcp_create conv))).

(** ** Writing

    [static_cast<int>(ptr->readable())]. *)
Definition to_int (z : Z) : Z := let z := u32 z in if z <? 2 ^ 31 then z else z - 2 ^ 32.

(** The messages given to [ikcp_send], and whether none was refused. *)
Fixpoint send_loop (fuel : nat) (len : Z) (data : bytes) (k : K) : list bytes * bool * K :=
  match fuel with
  | O => ([], true, k)
  | S fuel =>
    if kcp_recv_capacity <? len then
      let '(r, k) := ikcp_send (ztake kcp_recv_capacity data) k in
      if r <? 0 then ([], false, k)
      else
        let '(sent, ok, k) := send_loop fuel (len - kcp_recv_capacity) (zdrop kcp_recv_capacity data) k in
        (ztake kcp_recv_capacity data :: sent, ok, k)
    else if 0 <? len then
      let '(r, k) := ikcp_send (ztake len data) k in
      if r <? 0 then ([], false, k) else ([ztake len data], true, k)
    else ([], true, k)
  end.

Definition send_data (data : bytes) (k : K) : list bytes * bool * K := send_loop (S (length data)) (to_int (zlen data)) data k.

(** ** Reading: [ikcp_recv] until there is nothing. *)
Fixpoint recv_loop (fuel : nat) (k : K) : list bytes * K :=
  match fuel with
  | O => ([], k)
  | S fuel =>
    let '(n, message, k) := ikcp_recv kcp_recv_capacity k in
    if n <=? 0 then ([], k) else let '(messages, k) := recv_loop fuel k in (message :: messages, k)
  end.

Definition recv_data (k : K) : list bytes * K := recv_loop (S (rcv_pending k)) k.

(** The result of [hand_read_data]: refused with an error, or messages. *)
Inductive input_result := BadConv | BadInput (k : K) | Messages (ms : list bytes) (k : K).

(** [packet] is the buffer after the head, [len] what was received of it. *)
Definition input_data (packet : bytes) (len : Z) (k : K) : input_result :=
  if negb (ikcp_getconv packet =? kcp_conv k) then BadConv
  else
    let '(r, k) := ikcp_input (ztake len packet) k in
    if r <? 0 then BadInput k else let '(ms, k) := recv_data k in Messages ms k.

(** ** The coroutine that updates: when it has something to do next. *)
Definition next_update (now : Z) (k : K) : Z := let cur := u32 now in now + u32 (ikcp_check cur k - cur).

(** ** The watchdog

    [co_watchdog] at the condition of its loop: suspended until a time, or at
    its end. *)
Inductive watch := Sleep (until : Z) | Silent.

Definition watchdog_loop (now last_read last_write : Z) : watch :=
  if now <? last_read + kcp_alive_timeout then
    Sleep (Z.min (last_write + kcp_heartbeat_timeout) (last_read + kcp_alive_timeout))
  else Silent.

(** When it wakes up: whether it sends a heartbeat, the new [last_write_]. *)
Definition watchdog_woken (now last_read last_write : Z) : bool * Z * watch :=
  if last_write + kcp_heartbeat_timeout <=? now then (true, now, watchdog_loop now last_read now)
  else (false, last_write, watchdog_loop now last_read last_write).
End sockets.

Arguments input_result : clear implicits.

(** * Datagrams go through *)

Lemma received_all datagram buffer :
  zlen datagram <= zlen buffer -> received datagram buffer = (zlen datagram, datagram ++ zdrop (zlen datagram) buffer).
Proof. intros H. unfold received. rewrite Z.min_l by done. by rewrite ztake_ge. Qed.

Lemma received_size datagram buffer len b : received datagram buffer = (len, b) -> zlen b = zlen buffer /\ 0 <= len <= zlen buffer.
Proof.
  intros [= <- <-]. pose proof (zlen_nonneg datagram). pose proof (zlen_nonneg buffer).
  rewrite zlen_app, zlen_ztake, zlen_zdrop by lia. lia.
Qed.

Lemma conv_be_bytes v : is_u32 v -> be_value (be_bytes 4 v) = v.
Proof.
  intros Hv. unfold be_value, be_bytes. rewrite reverse_involutive. unfold le_bytes. cbn [seq fmap list_fmap le_value].
  change (Z.of_nat 0) with 0. change (Z.of_nat 1) with 1. change (Z.of_nat 2) with 2. change (Z.of_nat 3) with 3.
  change (256 ^ 0) with 1. change (256 ^ 1) with 256. change (256 ^ 2) with 65536. change (256 ^ 3) with 16777216. modlia.
Qed.

Lemma length_be_bytes n v : zlen (be_bytes n v) = Z.of_nat n.
Proof. unfold be_bytes, le_bytes, zlen. by rewrite length_reverse, length_fmap, length_seq. Qed.

Lemma has_code_head c c' rest : has_code c' (kcp_head c ++ rest) = bool_decide (c = c').
Proof. by destruct c, c'. Qed.

Lemma magic_head c rest : magic_ok (kcp_head c ++ rest) = true.
Proof. done. Qed.

Lemma drop_head c rest : zdrop kcp_head_size (kcp_head c ++ rest) = rest.
Proof. done. Qed.

(** A control datagram is read back, whatever the buffer held behind it. *)
Lemma ctrl_read_back c conv rest :
  is_u32 conv -> let b := make_kcp_ctrl c conv ++ rest in
  magic_ok b = true /\ (forall c', has_code c' b = bool_decide (c = c')) /\ head_conv b = conv.
Proof.
  intros Hc. cbn zeta. unfold make_kcp_ctrl. rewrite <- (app_assoc (A := Z)). split; [apply magic_head|].
  split; [intros c'; apply has_code_head|]. unfold head_conv. rewrite drop_head.
  pose proof (length_be_bytes 4 conv) as Hl. unfold ztake. rewrite take_app_length' by (unfold zlen in Hl; lia). by apply conv_be_bytes.
Qed.

(** * Writing cuts the data *)

Section theory.
Context {K : Type} `{!Kcp K, !KcpLaws K}.

Lemma conv_no_delay on (k : K) : kcp_conv (kcp_no_delay on k) = kcp_conv k.
Proof. destruct on; cbn; by rewrite ?conv_minrto, conv_nodelay. Qed.

Lemma conv_default c : kcp_conv (kcp_create_default (K := K) c) = c.
Proof. unfold kcp_create_default. by rewrite conv_no_delay, conv_setmtu, conv_wndsize, conv_create. Qed.

Lemma to_int_small z : 0 <= z < 2 ^ 31 -> to_int z = z.
Proof. intros H. unfold to_int. rewrite u32_small by (unfold is_u32; lia). by rewrite (proj2 (Z.ltb_lt _ _)) by lia. Qed.

Lemma send_loop_ok fuel : forall data (k : K),
  (length data < fuel)%nat ->
  exists sent ok k' rest, send_loop fuel (zlen data) data k = (sent, ok, k') /\ kcp_conv k' = kcp_conv k /\
    data = mjoin sent ++ rest /\ Forall (fun m => 0 < zlen m <= kcp_recv_capacity) sent /\ (ok = true -> rest = []).
Proof.
  induction fuel as [|fuel IH]; intros data k Hf; [lia|]. cbn [send_loop].
  destruct (Z.ltb_spec kcp_recv_capacity (zlen data)) as [Hlt|Hle].
  - destruct (ikcp_send (ztake kcp_recv_capacity data) k) as [r k1] eqn:E.
    assert (kcp_conv k1 = kcp_conv k) as Ec by (rewrite <- (conv_send (ztake kcp_recv_capacity data) k); by rewrite E).
    destruct (r <? 0); [by exists [], false, k1, data|].
    replace (zlen data - kcp_recv_capacity) with (zlen (zdrop kcp_recv_capacity data))
      by (rewrite zlen_zdrop by (unfold kcp_recv_capacity; lia); lia).
    destruct (IH (zdrop kcp_recv_capacity data) k1) as (sent & ok & k' & rest & -> & Ec' & Ed & Hall & Hok).
    { unfold zdrop, kcp_recv_capacity, zlen in *. rewrite length_drop. lia. }
    exists (ztake kcp_recv_capacity data :: sent), ok, k', rest. split; [done|]. split; [congruence|]. split; [|split; [|done]].
    + transitivity (ztake kcp_recv_capacity data ++ (mjoin sent ++ rest)); [by rewrite <- Ed, ztake_zdrop|]. by rewrite (app_assoc (A := Z)).
    + constructor; [|done]. rewrite zlen_ztake by (unfold kcp_recv_capacity; lia). unfold kcp_recv_capacity in *. lia.
  - destruct (Z.ltb_spec 0 (zlen data)) as [Hp|Hn].
    + rewrite ztake_ge by lia. destruct (ikcp_send data k) as [r k1] eqn:E.
      assert (kcp_conv k1 = kcp_conv k) as Ec by (rewrite <- (conv_send data k); by rewrite E).
      destruct (r <? 0); [by exists [], false, k1, data|]. exists [data], true, k1, []. split; [done|]. split; [done|].
      split; [by cbn; rewrite !app_nil_r|]. split; [|done]. constructor; [lia|constructor].
    + assert (data = []) as -> by (apply zlen_zero_inv; pose proof (zlen_nonneg data); lia). by exists [], true, k, [].
Qed.

(** What is written goes to [ikcp_send] in messages of at most 1024 bytes, in
    order, and all of it unless one is refused. *)
Lemma send_data_ok data (k : K) :
  zlen data < 2 ^ 31 ->
  exists sent ok k' rest, send_data data k = (sent, ok, k') /\ kcp_conv k' = kcp_conv k /\
    data = mjoin sent ++ rest /\ Forall (fun m => 0 < zlen m <= kcp_recv_capacity) sent /\ (ok = true -> rest = []).
Proof. intros H. unfold send_data. rewrite to_int_small by (pose proof (zlen_nonneg data); lia). apply send_loop_ok. lia. Qed.

(** ** Reading takes everything *)

Lemma recv_loop_fuel fuel : forall fuel' (k : K),
  (rcv_pending k < fuel)%nat -> (rcv_pending k < fuel')%nat -> recv_loop fuel k = recv_loop fuel' k.
Proof.
  induction fuel as [|fuel IH]; intros [|fuel'] k H H'; try lia. cbn [recv_loop].
  destruct (ikcp_recv kcp_recv_capacity k) as [[n m] k1] eqn:E. destruct (Z.leb_spec n 0); [done|].
  assert (rcv_pending k1 < rcv_pending k)%nat as Hp.
  { pose proof (recv_leaves kcp_recv_capacity k) as Hl. rewrite E in Hl. cbn in Hl. by apply Hl. }
  rewrite (IH fuel' k1) by lia. done.
Qed.

Lemma recv_conv fuel : forall (k : K), kcp_conv (recv_loop fuel k).2 = kcp_conv k.
Proof.
  induction fuel as [|fuel IH]; intros k; [done|]. cbn [recv_loop]. pose proof (conv_recv kcp_recv_capacity k) as Hc.
  destruct (ikcp_recv kcp_recv_capacity k) as [[n m] k1]. cbn in Hc. destruct (n <=? 0); [done|].
  specialize (IH k1). destruct (recv_loop fuel k1) as [ms k2]. cbn in *. congruence.
Qed.

(** [hand_read_data] takes what [ikcp_recv] has, one message after the other,
    until it has none. *)
Lemma recv_data_next (k : K) :
  recv_data k =
  let '(n, m, k) := ikcp_recv kcp_recv_capacity k in
  if n <=? 0 then ([], k) else let '(ms, k) := recv_data k in (m :: ms, k).
Proof.
  unfold recv_data at 1. cbn [recv_loop]. destruct (ikcp_recv kcp_recv_capacity k) as [[n m] k1] eqn:E. destruct (Z.leb_spec n 0); [done|].
  assert (rcv_pending k1 < rcv_pending k)%nat as Hp.
  { pose proof (recv_leaves kcp_recv_capacity k) as Hl. rewrite E in Hl. cbn in Hl. by apply Hl. }
  unfold recv_data. by rewrite (recv_loop_fuel (rcv_pending k) (S (rcv_pending k1))) by lia.
Qed.

Lemma input_conv packet len (k : K) :
  match input_data packet len k with BadConv => True | BadInput k' | Messages _ k' => kcp_conv k' = kcp_conv k end.
Proof.
  unfold input_data. destruct (negb _); [done|]. pose proof (conv_input (ztake len packet) k) as Hi.
  destruct (ikcp_input (ztake len packet) k) as [r k1]. cbn in Hi. destruct (r <? 0); [done|].
  unfold recv_data. pose proof (recv_conv (S (rcv_pending k1)) k1) as Hr. destruct (recv_loop _ k1) as [ms k2]. cbn in Hr. congruence.
Qed.

(** A datagram of fewer than 24 bytes behind the head is refused. *)
Lemma input_short_refused packet len (k : K) :
  0 <= len < 24 -> ikcp_getconv packet = kcp_conv k -> exists k', input_data packet len k = BadInput k'.
Proof.
  intros Hl Hc. unfold input_data. rewrite Hc, Z.eqb_refl. cbn [negb].
  pose proof (input_short (ztake len packet) k) as Hs. destruct (ikcp_input (ztake len packet) k) as [r k1]. cbn in Hs.
  assert (zlen (ztake len packet) < 24) as Hz by (rewrite zlen_ztake by lia; lia). specialize (Hs Hz).
  rewrite (proj2 (Z.ltb_lt _ _)) by done. by exists k1.
Qed.

(** ** The watchdog *)

(** It never sleeps past the next heartbeat or the end of the connection. *)
Lemma watchdog_loop_ok now lr lw until :
  watchdog_loop now lr lw = Sleep until -> until <= lr + kcp_alive_timeout /\ until <= lw + kcp_heartbeat_timeout /\ now < lr + kcp_alive_timeout.
Proof. unfold watchdog_loop. destruct (Z.ltb_spec now (lr + kcp_alive_timeout)); [|done]. intros [= <-]. lia. Qed.

Lemma watchdog_silent now lr lw : watchdog_loop now lr lw = Silent <-> lr + kcp_alive_timeout <= now.
Proof. unfold watchdog_loop. destruct (Z.ltb_spec now (lr + kcp_alive_timeout)); split; try done; lia. Qed.
End theory.

(** * An ikcp for witnesses

    It sends every message at once behind a header of 24 bytes, with the number
    in front. *)

Record plain_kcp := Plain { conv_of : Z; out_queue : list bytes; in_queue : list bytes }.

#[export] Instance plain_ops : Kcp plain_kcp := {
  ikcp_create c := Plain c [] [];
  ikcp_wndsize _ _ k := k;
  ikcp_setmtu _ k := k;
  ikcp_nodelay _ _ _ _ k := k;
  set_rx_minrto _ k := k;
  kcp_conv := conv_of;
  ikcp_getconv d := be_value (ztake 4 d);
  ikcp_send d k := (zlen d, Plain (conv_of k) (out_queue k ++ [d]) (in_queue k));
  ikcp_input d k := if zlen d <? 24 then (-1, k) else (0, Plain (conv_of k) (out_queue k) (in_queue k ++ [zdrop 24 d]));
  ikcp_recv n k := match in_queue k with [] => (-1, [], k) | m :: ms => (zlen m, m, Plain (conv_of k) (out_queue k) ms) end;
  ikcp_update _ k := (Plain (conv_of k) [] (in_queue k), (fun d => be_bytes 4 (conv_of k) ++ zrep 20 0 ++ d) <$> out_queue k);
  ikcp_check t _ := u32 (t + 10);
  rcv_pending k := length (in_queue k) }.

#[export] Instance plain_laws : KcpLaws plain_kcp.
Proof.
  split; try done.
  - intros d k. cbn. by destruct (zlen d <? 24).
  - intros n [c o [|m ms]]; done.
  - intros n [c o [|m ms]]; cbn; lia.
  - intros d k Hd. cbn. by rewrite (proj2 (Z.ltb_lt _ _)).
  - intros d d' E. cbn. by rewrite E.
Qed.
