(* ===== verification/KcpServer.v ===== *)
(** A KCP server and its sessions (src/net/impl/kcp_server_impl.cpp and
    kcp_session_impl.cpp in src/runtime). One UDP socket receives for all the
    sessions; a session is found by the number in the datagram. Its watchdog
    sends heartbeats and ends it when nothing is heard, another coroutine updates
    its control block (KcpConfig.v).

    Everything happens on the socket thread: the events are the completions of
    asio, with the time, and the functions posted to the thread. [None] is the
    use of an object that is gone. An unordered map is iterated in the order of
    [elements]. *)

From stdpp Require Import gmap.
From S2P Require Import Prelude Digest Network SocketSystem StreamSocket KcpConfig.

Section server.
Context {K : Type} `{!Kcp K}.

(** The server's number and the text of its address. *)
Context (sid : Z) (local : bytes).

(** * Data *)

(** [deadline_] says until when [co_watchdog] is suspended, [update_] what
    [co_kcp_update] remembers while it is, [started_] that [accept] was called. *)
Record kcp_session := Session {
  remote_ : bytes; kcp_ : K; force_update_ : bool; enable_ : bool; last_read_ : Z; last_write_ : Z;
  deadline_ : option Z; update_ : option Z; started_ : bool }.

Definition set_kcp (k : K) (s : kcp_session) : kcp_session :=
  Session (remote_ s) k (force_update_ s) (enable_ s) (last_read_ s) (last_write_ s) (deadline_ s) (update_ s) (started_ s).

Definition set_force (b : bool) (s : kcp_session) : kcp_session :=
  Session (remote_ s) (kcp_ s) b (enable_ s) (last_read_ s) (last_write_ s) (deadline_ s) (update_ s) (started_ s).

Definition set_enable (b : bool) (s : kcp_session) : kcp_session :=
  Session (remote_ s) (kcp_ s) (force_update_ s) b (last_read_ s) (last_write_ s) (deadline_ s) (update_ s) (started_ s).

Definition set_last_read (t : Z) (s : kcp_session) : kcp_session :=
  Session (remote_ s) (kcp_ s) (force_update_ s) (enable_ s) t (last_write_ s) (deadline_ s) (update_ s) (started_ s).

Definition set_last_write (t : Z) (s : kcp_session) : kcp_session :=
  Session (remote_ s) (kcp_ s) (force_update_ s) (enable_ s) (last_read_ s) t (deadline_ s) (update_ s) (started_ s).

Definition set_deadline (d : option Z) (s : kcp_session) : kcp_session :=
  Session (remote_ s) (kcp_ s) (force_update_ s) (enable_ s) (last_read_ s) (last_write_ s) d (update_ s) (started_ s).

Definition set_update (u : option Z) (s : kcp_session) : kcp_session :=
  Session (remote_ s) (kcp_ s) (force_update_ s) (enable_ s) (last_read_ s) (last_write_ s) (deadline_ s) u (started_ s).

Definition set_started (s : kcp_session) : kcp_session :=
  Session (remote_ s) (kcp_ s) (force_update_ s) (enable_ s) (last_read_ s) (last_write_ s) (deadline_ s) (update_ s) true.

(** The system's counters and table; of the server, whether its socket is open,
    the buffer of [co_read] while that is suspended, and [sessions_]; the
    session objects. *)
Record world := World {
  socket_ids_ : list Z; sockets_ : gset Z; listen_ : bool; reading_ : option bytes; sessions_ : gset Z; objects : gmap Z kcp_session }.

(** A handler is called or the table changes; a datagram is sent; a message is
    given to [ikcp_send] of a session. *)
Inductive kcp_effect := Socket (e : effect) | SendTo (dest data : bytes) | Fed (id : Z) (message : bytes).

Definition set_session (id : Z) (s : kcp_session) (w : world) : world :=
  World (socket_ids_ w) (sockets_ w) (listen_ w) (reading_ w) (sessions_ w) (<[id := s]> (objects w)).

Definition set_buffer (b : option bytes) (w : world) : world :=
  World (socket_ids_ w) (sockets_ w) (listen_ w) b (sessions_ w) (objects w).

(** * Sessions *)

(** The server lives as long as it is in the table or its coroutine runs. *)
Definition server_alive (w : world) : bool := bool_decide (sid ∈ sockets_ w \/ is_Some (reading_ w)).

Definition write_to (dest data : bytes) (w : world) : option (list kcp_effect) :=
  if server_alive w then Some [SendTo dest data] else None.

Definition session_stop (id : Z) (e : error_code) (w : world) : option (world * list kcp_effect) :=
  s ← objects w !! id;
  if enable_ s then
    es ← write_to (remote_ s) (make_kcp_ctrl code_disconnect id) w;
    Some (World (socket_ids_ w) (sockets_ w ∖ {[id]}) (listen_ w) (reading_ w) (sessions_ w ∖ {[id]}) (<[id := set_enable false s]> (objects w)),
      es ++ [Socket (HandStop id e); Socket (Erase id)])
  else Some (w, []).

Definition session_start (id : Z) (remote : bytes) (now : Z) (w : world) : option (world * list kcp_effect) :=
  es ← write_to remote (make_kcp_ctrl code_connect_ack id) w;
  let s := Session remote (kcp_create_default id) false true now now None None false in
  Some (World (socket_ids_ w) ({[id]} ∪ sockets_ w) (listen_ w) (reading_ w) (sessions_ w) (<[id := s]> (objects w)),
    [Socket (Insert id); Socket (HandAccept sid id local remote)] ++ es).

(** [co_watchdog] has come to its loop, or to its end. *)
Definition watchdog_goes_on (id : Z) (x : watch) (s : kcp_session) (w : world) : option (world * list kcp_effect) :=
  match x with
  | Sleep until => Some (set_session id (set_deadline (Some until) s) w, [])
  | Silent => session_stop id (socket_error Network.kcp_heartbeat_timeout) (set_session id (set_deadline None s) w)
  end.

(** [co_kcp_update] at the condition of its loop. *)
Definition update_goes_on (id : Z) (next : Z) (s : kcp_session) (w : world) : world :=
  set_session id (set_update (if enable_ s then Some next else None) s) w.

(** [accept] starts the two coroutines. A second call would start them once
    more; a history with one is not legal below. *)
Definition session_accept (id now : Z) (w : world) : option (world * list kcp_effect) :=
  s ← objects w !! id;
  '(w, es) ← watchdog_goes_on id (watchdog_loop now (last_read_ s) (last_write_ s)) (set_started s) w;
  s ← objects w !! id;
  Some (update_goes_on id (next_update now (kcp_ s)) s w, es).

Definition session_write (id : Z) (data : bytes) (w : world) : option (world * list kcp_effect) :=
  s ← objects w !! id;
  let '(sent, ok, k) := send_data data (kcp_ s) in
  let es := Fed id <$> sent in
  if ok then Some (set_session id (set_force true (set_kcp k s)) w, es)
  else
    '(w, es') ← session_stop id (socket_error kcp_protocol_error) (set_session id (set_kcp k s) w);
    Some (w, es ++ es').

Definition session_no_delay (id : Z) (on : bool) (w : world) : option (world * list kcp_effect) :=
  s ← objects w !! id; Some (set_session id (set_kcp (kcp_no_delay on (kcp_ s)) s) w, []).

(** [hand_read_data]: whether it went well. *)
Definition hand_read_data (id : Z) (packet : bytes) (len : Z) (w : world) : option (bool * world * list kcp_effect) :=
  s ← objects w !! id;
  match input_data packet len (kcp_ s) with
  | BadConv => '(w, es) ← session_stop id (socket_error kcp_check_failed) w; Some (false, w, es)
  | BadInput k =>
    '(w, es) ← session_stop id (socket_error kcp_protocol_error) (set_session id (set_kcp k s) w); Some (false, w, es)
  | Messages ms k =>
    Some (true, set_session id (set_force true (set_kcp k s)) w, (fun m => Socket (HandRead id m)) <$> ms)
  end.

(** [read] of the buffer, of which [len] bytes were received. *)
Definition session_read (id : Z) (buffer : bytes) (len now : Z) (w : world) : option (world * list kcp_effect) :=
  s ← objects w !! id;
  if has_code code_disconnect buffer then session_stop id eof w
  else if has_code code_heartbeat buffer then
    es ← write_to (remote_ s) (make_kcp_ctrl code_heartbeat_ack id) w;
    Some (set_session id (set_last_read now (set_last_write now s)) w, es)
  else if has_code code_heartbeat_ack buffer then Some (set_session id (set_last_read now s) w, [])
  else if has_code code_data buffer then
    '(ok, w, es) ← hand_read_data id (zdrop kcp_head_size buffer) (len - kcp_head_size) w;
    s ← objects w !! id;
    Some (if (ok : bool) then set_session id (set_last_read now s) w else w, es)
  else Some (w, []).

(** The wait of [co_watchdog] completes. *)
Definition session_watch (id : Z) (e : error_code) (now : Z) (w : world) : option (world * list kcp_effect) :=
  s ← objects w !! id;
  match deadline_ s with
  | None => Some (w, [])
  | Some _ =>
    if ec_true e || negb (enable_ s) then Some (set_session id (set_deadline None s) w, [])
    else
      let '(beat, lw, x) := watchdog_woken now (last_read_ s) (last_write_ s) in
      es ← (if (beat : bool) then write_to (remote_ s) (make_kcp_ctrl code_heartbeat id) w else Some []);
      '(w, es') ← watchdog_goes_on id x (set_last_write lw s) w;
      Some (w, es ++ es')
  end.

(** The callback of [ikcp_setoutput], for every packet. *)
Fixpoint output_all (dest : bytes) (packets : list bytes) (w : world) : option (list kcp_effect) :=
  match packets with
  | [] => Some []
  | p :: packets => es ← write_to dest (make_kcp_data p) w; es' ← output_all dest packets w; Some (es ++ es')
  end.

(** The wait of [co_kcp_update] completes; the clock is read twice. *)
Definition session_update (id : Z) (e : error_code) (now now' : Z) (w : world) : option (world * list kcp_effect) :=
  s ← objects w !! id;
  match update_ s with
  | None => Some (w, [])
  | Some next =>
    if ec_true e then Some (set_session id (set_update None s) w, [])
    else if (next <=? now) || force_update_ s then
      let '(k, packets) := ikcp_update (u32 now) (kcp_ s) in
      es ← output_all (remote_ s) packets w;
      let s := set_force false (set_kcp k (if decide (packets = []) then s else set_last_write now s)) in
      Some (update_goes_on id (next_update now' k) s w, es)
    else Some (update_goes_on id next s w, [])
  end.

(** * The server *)

Fixpoint stop_each (ids : list Z) (e : error_code) (w : world) : option (world * list kcp_effect) :=
  match ids with
  | [] => Some (w, [])
  | id :: ids => '(w, es) ← session_stop id e w; '(w, es') ← stop_each ids e w; Some (w, es ++ es')
  end.

(** [sessions_] is moved out before the sessions are stopped. *)
Definition server_stop (e : error_code) (w : world) : option (world * list kcp_effect) :=
  if listen_ w then
    '(w, es) ← stop_each (elements (sessions_ w)) e (World (socket_ids_ w) (sockets_ w) (listen_ w) (reading_ w) ∅ (objects w));
    Some (World (socket_ids_ w) (sockets_ w ∖ {[sid]}) false (reading_ w) (sessions_ w) (objects w),
      es ++ [Socket (HandStop sid e); Socket (Erase sid)])
  else Some (w, []).

(** [rest] are the results of [bind] and the option; [garbage] is what the
    buffer of [co_read] holds at first. *)
Definition server_start (opened : error_code) (rest : list error_code) (garbage : bytes) (w : world) : option (world * list kcp_effect) :=
  if ec_true opened then server_stop opened w
  else
    let w := World (socket_ids_ w) (sockets_ w) true (reading_ w) (sessions_ w) (objects w) in
    match first_error rest with
    | Some e => server_stop e w
    | None =>
      Some (World (socket_ids_ w) ({[sid]} ∪ sockets_ w) true (Some garbage) (sessions_ w) (objects w),
        [Socket (Insert sid); Socket (HandStart sid [])])
    end.

Definition hand_accept (remote : bytes) (now : Z) (w : world) : option (world * list kcp_effect) :=
  '(id, ids) ← new_socket_id (sockets_ w) (socket_ids_ w) (type_value (kcp, session));
  let w := World ids (sockets_ w) (listen_ w) (reading_ w) (sessions_ w) (objects w) in
  if id =? 0 then es ← write_to remote (make_kcp_ctrl code_disconnect 0) w; Some (w, es)
  else session_start id remote now (World ids (sockets_ w) (listen_ w) (reading_ w) ({[id]} ∪ sessions_ w) (objects w)).

(** A datagram for the session with this number, if there is one. *)
Definition route (conv : Z) (buffer : bytes) (len now : Z) (w : world) : option (world * list kcp_effect) :=
  if decide (conv ∈ sessions_ w) then session_read conv buffer len now w else Some (w, []).

(** A receive of [co_read] completes. *)
Definition server_receive (e : error_code) (from datagram : bytes) (now : Z) (w : world) : option (world * list kcp_effect) :=
  match reading_ w with
  | None => Some (w, [])
  | Some buffer =>
    if ec_true e then '(w, es) ← server_stop e w; Some (set_buffer None w, es)
    else
      let '(len, buffer) := received datagram buffer in
      let w := set_buffer (Some buffer) w in
      if len <? kcp_head_size then Some (w, [])
      else if negb (magic_ok buffer) then Some (w, [])
      else if has_code code_connect buffer then hand_accept from now w
      else if has_code code_data buffer then route (ikcp_getconv (zdrop kcp_head_size buffer)) buffer len now w
      else if len <? kcp_head_size + 4 then Some (w, [])
      else route (head_conv buffer) buffer len now w
  end.

(** * Histories *)

Inductive kcp_op :=
  | OReceive (e : error_code) (from datagram : bytes) (now : Z)
  | OAccept (id now : Z)
  | OSend (id : Z) (data : bytes)
  | ONoDelay (id : Z) (on : bool)
  | OClose (id : Z)
  | OWatch (id : Z) (e : error_code) (now : Z)
  | OUpdate (id : Z) (e : error_code) (now now' : Z).

(** The functions that socket_system.cpp posts find what is in the table. *)
Definition kcp_step (o : kcp_op) (w : world) : option (world * list kcp_effect) :=
  match o with
  | OReceive e from d now => server_receive e from d now w
  | OAccept id now => if decide (id ∈ sockets_ w /\ id <> sid) then session_accept id now w else Some (w, [])
  | OSend id d => if decide (id ∈ sockets_ w /\ id <> sid) then session_write id d w else Some (w, [])
  | ONoDelay id on => if decide (id ∈ sockets_ w /\ id <> sid) then session_no_delay id on w else Some (w, [])
  | OClose id =>
    if decide (id ∈ sockets_ w) then
      let e := socket_error initiative_disconnect in if decide (id = sid) then server_stop e w else session_stop id e w
    else Some (w, [])
  | OWatch id e now => if decide (is_Some (objects w !! id)) then session_watch id e now w else Some (w, [])
  | OUpdate id e now now' => if decide (is_Some (objects w !! id)) then session_update id e now now' w else Some (w, [])
  end.

Fixpoint kcp_run (ops : list kcp_op) (w : world) : option (world * list kcp_effect) :=
  match ops with
  | [] => Some (w, [])
  | o :: ops => '(w, es) ← kcp_step o w; '(w, es') ← kcp_run ops w; Some (w, es ++ es')
  end.

(** * What the handlers hear of a session *)

Inductive life := Unknown | Live | Ended.

(** A session is announced first, then read from, then stopped; [None] is
    anything else. *)
Definition track1 (id : Z) (p : life) (e : kcp_effect) : option life :=
  match e with
  | Socket (HandAccept _ id' _ _) => if decide (id' = id) then match p with Unknown => Some Live | _ => None end else Some p
  | Socket (HandRead id' _) => if decide (id' = id) then match p with Live => Some Live | _ => None end else Some p
  | Socket (HandStop id' _) => if decide (id' = id) then match p with Live => Some Ended | _ => None end else Some p
  | Socket (HandStart id' _) => if decide (id' = id) then None else Some p
  | _ => Some p
  end.

Fixpoint track (id : Z) (p : life) (es : list kcp_effect) : option life :=
  match es with [] => Some p | e :: es => p ← track1 id p e; track id p es end.

Definition life_of (w : world) (id : Z) : life :=
  match objects w !! id with None => Unknown | Some s => if enable_ s then Live else Ended end.

Lemma kcp_track_app id es es' p : track id p (es ++ es') = p ← track id p es; track id p es'.
Proof. revert p. induction es as [|e es IH]; intros p; [done|]. cbn. destruct (track1 id p e); [apply IH|done]. Qed.

Lemma track_app_some id es es' p q r : track id p es = Some q -> track id q es' = Some r -> track id p (es ++ es') = Some r.
Proof. intros H H'. rewrite kcp_track_app, H. exact H'. Qed.

(** Effects that no handler hears. *)
Definition unheard (e : kcp_effect) : Prop :=
  match e with Socket (Insert _) | Socket (Erase _) | SendTo _ _ | Fed _ _ => True | _ => False end.

Lemma kcp_track_unheard id p es : Forall unheard es -> track id p es = Some p.
Proof. induction 1 as [|e es He _ IH]; [done|]. cbn. by destruct e as [[]| |]. Qed.

Lemma kcp_track_reads id id' p (ms : list bytes) :
  (id' = id -> p = Live) -> track id p ((fun m => Socket (HandRead id' m)) <$> ms) = Some p.
Proof.
  intros Hp. induction ms as [|m ms IH]; [done|]. cbn. destruct (decide (id' = id)) as [E|]; [|done]. rewrite (Hp E) in *. done.
Qed.

(** * The invariant *)

(** The watchdog is not suspended past what the session's times say; it is
    suspended as long as an accepted session lives. *)
Definition timely (s : kcp_session) : Prop :=
  forall until, deadline_ s = Some until ->
    until <= last_read_ s + kcp_alive_timeout /\ until <= last_write_ s + KcpConfig.kcp_heartbeat_timeout.

Definition guarded (s : kcp_session) : Prop := started_ s = true -> enable_ s = true -> is_Some (deadline_ s).

Definition watched (s : kcp_session) : Prop := timely s /\ guarded s.

(** Times only grow, the server's socket is open while anything lives on it. *)
Record world_ok (w : world) : Prop := {
  wk_sessions id : id ∈ sessions_ w <-> life_of w id = Live;
  wk_table id : id ∈ sockets_ w <-> id ∈ sessions_ w \/ (id = sid /\ listen_ w = true);
  wk_closed : listen_ w = false -> sessions_ w = ∅;
  wk_reading : listen_ w = true -> is_Some (reading_ w);
  wk_server : objects w !! sid = None;
  wk_conv id s : objects w !! id = Some s -> kcp_conv (kcp_ s) = id;
  wk_watch id s : objects w !! id = Some s -> watched s;
  wk_ids : ids_wf (socket_ids_ w);
  wk_allotted id : id = sid \/ is_Some (objects w !! id) -> allotted (socket_ids_ w) id }.

Context `{!KcpLaws K}.

(** A change of a session that leaves it alive or not. *)
Lemma life_set id s w x : life_of (set_session id s w) x = if decide (x = id) then (if enable_ s then Live else Ended) else life_of w x.
Proof.
  unfold life_of, set_session. cbn. destruct (decide (x = id)) as [->|Hne]; [by rewrite lookup_insert_eq|by rewrite lookup_insert_ne by congruence].
Qed.

Lemma life_some w id s : objects w !! id = Some s -> life_of w id = if enable_ s then Live else Ended.
Proof. intros E. unfold life_of. by rewrite E. Qed.

(** [s'] may take the place of [s]. *)
Definition replaces (s s' : kcp_session) : Prop :=
  enable_ s' = enable_ s /\ kcp_conv (kcp_ s') = kcp_conv (kcp_ s) /\ watched s' /\ (started_ s = true -> started_ s' = true).

(** [s'] is [s] but for its times and its waits. *)
Definition becomes (s s' : kcp_session) : Prop :=
  enable_ s' = enable_ s /\ kcp_conv (kcp_ s') = kcp_conv (kcp_ s) /\ (started_ s = true -> started_ s' = true) /\ remote_ s' = remote_ s.

(** Accepted sessions stay accepted. *)
Definition started_in (w : world) (id : Z) : Prop := exists s, objects w !! id = Some s /\ started_ s = true.

Definition keeps (w w' : world) : Prop := forall id, started_in w id -> started_in w' id.

Lemma keeps_refl w : keeps w w.
Proof. by intros id. Qed.

Lemma keeps_objects w w' :
  (forall id s, objects w !! id = Some s -> exists s', objects w' !! id = Some s' /\ (started_ s = true -> started_ s' = true)) -> keeps w w'.
Proof. intros H id (s & E & Hs). destruct (H id s E) as (s' & E' & Hs'). exists s'. auto. Qed.

Lemma keeps_insert w w' id s s' :
  objects w !! id = Some s -> (started_ s = true -> started_ s' = true) -> objects w' = <[id := s']> (objects w) -> keeps w w'.
Proof.
  intros E Hs Eo. apply keeps_objects. intros x y Ey. rewrite Eo. destruct (decide (x = id)) as [->|Hne].
  - rewrite lookup_insert_eq. exists s'. split; [done|]. by assert (y = s) as -> by congruence.
  - rewrite lookup_insert_ne by congruence. by exists y.
Qed.

Lemma set_session_ok w id s s' :
  world_ok w -> objects w !! id = Some s -> replaces s s' ->
  world_ok (set_session id s' w) /\ forall x, life_of (set_session id s' w) x = life_of w x.
Proof.
  intros [A1 A2 A3 A4 A5 A6 A7 A8 A9] E (Ee & Ec & Hd & _).
  assert (forall x, life_of (set_session id s' w) x = life_of w x) as Hl.
  { intros x. rewrite life_set. destruct (decide (x = id)) as [->|]; [|done]. by rewrite (life_some w id s E), Ee. }
  split; [|done]. split; try done.
  - intros x. rewrite Hl. apply A1.
  - cbn. rewrite lookup_insert_ne by congruence. done.
  - cbn. intros x y [[<- <-]|[_ Hy]]%lookup_insert_Some; [by rewrite Ec, (A6 id s E)|by apply A6].
  - cbn. intros x y [[<- <-]|[_ Hy]]%lookup_insert_Some; [done|by apply (A7 x)].
  - cbn. intros x [->|[->|Hx]%lookup_insert_is_Some']; apply A9; [by left|right; by eexists|by right].
Qed.

Lemma alive_listen w : world_ok w -> listen_ w = true -> server_alive w = true.
Proof. intros Hw Hl. apply bool_decide_eq_true. right. by apply (wk_reading w Hw). Qed.

Lemma live_listen w id : world_ok w -> life_of w id = Live -> listen_ w = true.
Proof.
  intros Hw Hl. destruct (listen_ w) eqn:E; [done|]. apply (wk_sessions w Hw) in Hl. rewrite (wk_closed w Hw E) in Hl. by apply elem_of_empty in Hl.
Qed.

Lemma write_to_ok dest d w : server_alive w = true -> write_to dest d w = Some [SendTo dest d].
Proof. intros E. unfold write_to. by rewrite E. Qed.

(** ** Stopping *)

Lemma session_stop_eq id e w s :
  objects w !! id = Some s -> enable_ s = true -> server_alive w = true ->
  session_stop id e w = Some (World (socket_ids_ w) (sockets_ w ∖ {[id]}) (listen_ w) (reading_ w) (sessions_ w ∖ {[id]})
    (<[id := set_enable false s]> (objects w)),
    [SendTo (remote_ s) (make_kcp_ctrl code_disconnect id); Socket (HandStop id e); Socket (Erase id)]).
Proof. intros E Ee Ha. unfold session_stop. rewrite E. cbn. by rewrite Ee, write_to_ok. Qed.

Lemma session_stop_ended id e w s : objects w !! id = Some s -> enable_ s = false -> session_stop id e w = Some (w, []).
Proof. intros E Ee. unfold session_stop. rewrite E. cbn. by rewrite Ee. Qed.

(** What has happened, with its effects, to a world. *)
Definition evolves (w w' : world) (es : list kcp_effect) : Prop :=
  world_ok w' /\ (forall x, x <> sid -> track x (life_of w x) es = Some (life_of w' x)) /\ keeps w w'.

Lemma evolves_nil w : world_ok w -> evolves w w [].
Proof. intros Hw. split; [done|]. split; [done|]. apply keeps_refl. Qed.

Lemma kcp_evolves_trans w w1 w2 es es' : evolves w w1 es -> evolves w1 w2 es' -> evolves w w2 (es ++ es').
Proof.
  intros (_ & H & Hk) (Hw & H' & Hk'). split; [done|]. split; [|by intros id ?; apply Hk', Hk].
  intros x Hx. by eapply track_app_some; [apply H|apply H'].
Qed.

Lemma evolves_unheard w w' es : world_ok w' -> Forall unheard es -> (forall x, life_of w' x = life_of w x) -> keeps w w' -> evolves w w' es.
Proof. intros Hw Hu Hl Hk. split; [done|]. split; [|done]. intros x _. by rewrite kcp_track_unheard, Hl. Qed.

Lemma stop_track id e w s x :
  life_of w id = Live ->
  track x (life_of w x) [SendTo (remote_ s) (make_kcp_ctrl code_disconnect id); Socket (HandStop id e); Socket (Erase id)] =
  Some (if decide (x = id) then Ended else life_of w x).
Proof.
  intros Hl. cbn. destruct (decide (id = x)) as [<-|Hne]; [rewrite Hl; cbn; by rewrite decide_True|]. cbn. by rewrite decide_False by congruence.
Qed.

Lemma session_stop_ok w id s e :
  world_ok w -> objects w !! id = Some s ->
  exists w' es, session_stop id e w = Some (w', es) /\ evolves w w' es /\ objects w' = <[id := set_enable false s]> (objects w) /\
    listen_ w' = listen_ w /\ socket_ids_ w' = socket_ids_ w /\
    (enable_ s = true -> Socket (HandStop id e) ∈ es /\ sockets_ w' = sockets_ w ∖ {[id]}).
Proof.
  intros Hw E. destruct (enable_ s) eqn:Ee.
  - pose proof (life_some w id s E) as Hl. rewrite Ee in Hl. pose proof (live_listen w id Hw Hl) as Hlis.
    rewrite (session_stop_eq id e w s E Ee (alive_listen w Hw Hlis)). eexists _, _. split; [done|].
    set (w' := World _ _ _ _ _ _).
    assert (forall x, life_of w' x = if decide (x = id) then Ended else life_of w x) as Hl'.
    { intros x. unfold life_of, w'. cbn. destruct (decide (x = id)) as [->|]; [by rewrite lookup_insert_eq|by rewrite lookup_insert_ne by congruence]. }
    split; [|split; [done|split; [done|split; [done|]]]].
    2: { intros _. split; [|done]. apply list_elem_of_further, list_elem_of_here. }
    split; [|split; [intros x Hx; rewrite Hl'; by apply stop_track|by apply (keeps_insert w w' id s (set_enable false s))]].
    destruct Hw as [A1 A2 A3 A4 A5 A6 A7 A8 A9]. split; try done.
    + intros x. rewrite Hl'. cbn. rewrite elem_of_difference, elem_of_singleton, A1. destruct (decide (x = id)) as [->|]; split; try done; [by intros [_ []]|by intros [? _]].
    + intros x. cbn. rewrite !elem_of_difference, elem_of_singleton, A2. split; [intros [[?|?] ?]; auto|].
      intros [[? ?]|[-> Hlx]]; [auto|]. split; [auto|]. intros ->. congruence.
    + cbn. congruence.
    + cbn. rewrite lookup_insert_ne by congruence. done.
    + cbn. intros x y [[<- <-]|[_ Hy]]%lookup_insert_Some; [by apply (A6 id s)|by apply A6].
    + cbn. intros x y [[<- <-]|[_ Hy]]%lookup_insert_Some; [by split; [apply (A7 id s E)|]|by apply (A7 x)].
    + cbn. intros x [->|[->|Hx]%lookup_insert_is_Some']; apply A9; [by left|right; by eexists|by right].
  - rewrite (session_stop_ended id e w s E Ee). exists w, []. split; [done|]. split; [by apply evolves_nil|].
    split; [|done]. rewrite insert_id; [done|]. rewrite E. f_equal. destruct s. cbn in *. by subst.
Qed.

(** The sessions of a server that stops. *)
Lemma stop_each_ok ids e : forall w,
  is_Some (reading_ w) -> NoDup ids -> (forall id, id ∈ ids -> life_of w id = Live) ->
  exists w' es, stop_each ids e w = Some (w', es) /\ socket_ids_ w' = socket_ids_ w /\ listen_ w' = listen_ w /\ reading_ w' = reading_ w /\
    sessions_ w' = sessions_ w ∖ list_to_set ids /\ sockets_ w' = sockets_ w ∖ list_to_set ids /\
    (forall x, objects w' !! x = if decide (x ∈ ids) then set_enable false <$> objects w !! x else objects w !! x) /\
    (forall x, track x (life_of w x) es = Some (life_of w' x)) /\ (forall id, id ∈ ids -> Socket (HandStop id e) ∈ es).
Proof.
  induction ids as [|id ids IH]; intros w Hr Hnd Hl; cbn [stop_each].
  { exists w, []. rewrite list_to_set_nil, !difference_empty_L. split_and!; try done. by intros id ?%elem_of_nil. }
  apply list.NoDup_cons in Hnd as [Hid Hnd]. pose proof (Hl id (list_elem_of_here _ _)) as Hlive.
  unfold life_of in Hlive. destruct (objects w !! id) as [s|] eqn:E; [|done]. destruct (enable_ s) eqn:Ee; [|done].
  assert (server_alive w = true) as Ha by (apply bool_decide_eq_true; by right).
  rewrite (session_stop_eq id e w s E Ee Ha). cbn [mbind option_bind].
  set (w1 := World _ _ _ _ _ _). set (es1 := [_; _; _]).
  assert (forall x, life_of w1 x = if decide (x = id) then Ended else life_of w x) as Hl1.
  { intros x. unfold life_of, w1. cbn. destruct (decide (x = id)) as [->|]; [by rewrite lookup_insert_eq|by rewrite lookup_insert_ne by congruence]. }
  destruct (IH w1) as (w' & es & -> & Ei & El & Er & Ese & Eso & Eo & Ht & Hin); [done|done| |].
  { intros x Hx. rewrite Hl1, decide_False by (intros ->; done). apply Hl. by apply list_elem_of_further. }
  cbn [mbind option_bind]. exists w', (es1 ++ es). split; [done|]. split; [done|]. split; [done|]. split; [done|].
  split; [rewrite Ese; cbn; rewrite difference_difference_l_L; f_equal; by rewrite list_to_set_cons|].
  split; [rewrite Eso; cbn; rewrite difference_difference_l_L; f_equal; by rewrite list_to_set_cons|]. split; [|split].
  - intros x. rewrite Eo. unfold w1. cbn. destruct (decide (x = id)) as [->|Hne].
    + rewrite decide_False by done. rewrite decide_True by apply list_elem_of_here. by rewrite lookup_insert_eq, E.
    + rewrite lookup_insert_ne by congruence. destruct (decide (x ∈ ids)).
      * by rewrite decide_True by by apply list_elem_of_further.
      * rewrite decide_False; [done|]. by intros [?|?]%elem_of_cons.
  - intros x. eapply track_app_some; [|apply Ht]. unfold es1. rewrite stop_track; [by rewrite Hl1|]. unfold life_of. by rewrite E, Ee.
  - intros x [->|Hx]%elem_of_cons; apply list.elem_of_app; [left; apply list_elem_of_further, list_elem_of_here|right; by apply Hin].
Qed.

Lemma server_stop_ok w e :
  world_ok w -> exists w' es, server_stop e w = Some (w', es) /\ evolves w w' es /\ listen_ w' = false /\ reading_ w' = reading_ w /\
    (listen_ w = true -> Socket (HandStop sid e) ∈ es /\ forall id, life_of w id = Live -> Socket (HandStop id e) ∈ es).
Proof.
  intros Hw. unfold server_stop. destruct (listen_ w) eqn:El.
  2: { exists w, []. split; [done|]. split; [by apply evolves_nil|]. done. }
  set (w0 := World _ _ _ _ ∅ _). assert (forall x, life_of w0 x = life_of w x) as Hl0 by done.
  destruct (stop_each_ok (elements (sessions_ w)) e w0) as (w1 & es & -> & Ei & E1 & Er & Ese & Eso & Eo & Ht & Hin).
  { by apply (wk_reading w Hw). }
  { apply NoDup_elements. }
  { intros id Hid%elem_of_elements. by apply (wk_sessions w Hw). }
  cbn [mbind option_bind]. eexists _, _. split; [done|]. set (w' := World _ _ _ _ _ _).
  assert (forall x, life_of w' x = if decide (x ∈ sessions_ w) then Ended else life_of w x) as Hl'.
  { intros x. unfold life_of, w'. cbn. rewrite Eo. destruct (decide (x ∈ elements (sessions_ w))) as [Hx|Hx].
    - apply elem_of_elements in Hx. rewrite decide_True by done. pose proof (proj1 (wk_sessions w Hw x) Hx) as Hlx. unfold life_of in Hlx. cbn.
      by destruct (objects w !! x).
    - rewrite elem_of_elements in Hx. by rewrite decide_False. }
  assert (forall x, life_of w' x <> Live) as Hno.
  { intros x. rewrite Hl'. case_decide as Hx; [done|]. intros Hlx. apply Hx. by apply (wk_sessions w Hw). }
  split; [|split; [done|split; [exact Er|]]].
  - split.
    + destruct Hw as [A1 A2 A3 A4 A5 A6 A7 A8 A9]. rewrite list_to_set_elements_L in Ese, Eso. cbn [sockets_ sessions_ w0] in Ese, Eso.
      assert (sessions_ w' = ∅) as Es' by (cbn; rewrite Ese; apply set_eq; intros x; rewrite elem_of_difference; split; [by intros [?%elem_of_empty _]|by intros ?%elem_of_empty]).
      assert (forall x y, objects w' !! x = Some y -> exists z, objects w !! x = Some z /\ kcp_conv (kcp_ y) = kcp_conv (kcp_ z) /\
        (watched z -> watched y)) as Hob.
      { intros x y. unfold w'. cbn. rewrite Eo. case_decide; [|intros Hy; by exists y]. intros (z & Hz & ->)%fmap_Some. exists z.
        split; [done|]. split; [done|]. by intros [Ht0 _]. }
      split.
      * intros x. rewrite Es'. split; [by intros ?%elem_of_empty|]. by intros ?%Hno.
      * intros x. rewrite Es'. cbn. rewrite Eso, !elem_of_difference, elem_of_singleton, A2. split; [|by intros [?%elem_of_empty|[_ ?]]].
        intros [[[?|[-> _]] ?] ?]; done.
      * done.
      * done.
      * cbn. rewrite Eo. case_decide; cbn; [by rewrite A5|done].
      * intros x y (z & Hz & -> & _)%Hob. by apply A6.
      * intros x y (z & Hz & _ & Hwz)%Hob. by apply Hwz, (A7 x).
      * cbn. by rewrite Ei.
      * intros x Hx. cbn. rewrite Ei. apply A9. destruct Hx as [?|[y (z & Hz & _)%Hob]]; [by left|right; by eexists].
    + split.
      * intros x Hx. eapply track_app_some; [rewrite <- Hl0; apply Ht|]. assert (life_of w' x = life_of w1 x) as -> by done.
        cbn. rewrite decide_False by congruence. done.
      * apply keeps_objects. intros x y Ey. unfold w'. cbn. rewrite Eo. cbn. rewrite Ey. case_decide; by eexists.
  - intros _. split; [apply list.elem_of_app; right; apply list_elem_of_here|]. intros id Hid. apply list.elem_of_app. left. apply Hin.
    apply elem_of_elements. by apply (wk_sessions w Hw).
Qed.

(** ** The operations *)

Lemma evolves_set w id s s' es :
  world_ok w -> objects w !! id = Some s -> replaces s s' -> Forall unheard es -> evolves w (set_session id s' w) es.
Proof.
  intros Hw E Hr Hu. destruct (set_session_ok w id s s' Hw E Hr) as [Hw' Hl]. apply evolves_unheard; [done..|].
  by apply (keeps_insert _ _ id s s'); [|apply Hr|].
Qed.

(** A session is changed and then stopped: it might have been stopped first. *)
Lemma session_stop_set id e s s' w :
  objects w !! id = Some s -> enable_ s' = enable_ s -> remote_ s' = remote_ s ->
  session_stop id e (set_session id s' w) =
  '(w', es) ← session_stop id e w; Some (set_session id (set_enable false s') w', es).
Proof.
  intros E Ee Er. unfold session_stop, set_session. cbn. rewrite E, lookup_insert_eq. cbn. rewrite Ee.
  destruct (enable_ s) eqn:Es; cbn.
  - rewrite Er. unfold write_to. change (server_alive (World _ _ _ _ _ _)) with (server_alive w). destruct (server_alive w); [|done]. cbn.
    by rewrite !insert_insert_eq.
  - replace (set_enable false s') with s'; [done|]. destruct s'. cbn in *. by subst.
Qed.

Lemma set_stop_ok w id s s' e :
  world_ok w -> objects w !! id = Some s -> becomes s s' -> timely s' ->
  exists w' es, session_stop id e (set_session id s' w) = Some (w', es) /\ evolves w w' es /\ objects w' !! id = Some (set_enable false s') /\
    (enable_ s = true -> Socket (HandStop id e) ∈ es).
Proof.
  intros Hw E (Ee & Ec & Hst & Er) Ht. rewrite (session_stop_set id e s s' w) by done.
  destruct (session_stop_ok w id s e Hw E) as (w1 & es & -> & Hv & Eo & _ & _ & Hin). cbn [mbind option_bind].
  exists (set_session id (set_enable false s') w1), es. split; [done|]. split; [|split; [apply lookup_insert_eq|by intros He; apply Hin]].
  rewrite <- (app_nil_r es). eapply kcp_evolves_trans; [exact Hv|]. apply (evolves_set w1 id (set_enable false s)); [by destruct Hv|by rewrite Eo, lookup_insert_eq| |constructor].
  by split_and!.
Qed.

Lemma world_watched w id s : world_ok w -> objects w !! id = Some s -> watched s.
Proof. intros Hw. exact (wk_watch w Hw id s). Qed.

Lemma kcp_watchdog_goes_on_ok w id s s' x :
  world_ok w -> objects w !! id = Some s -> becomes s s' ->
  (exists now, x = watchdog_loop now (last_read_ s') (last_write_ s')) ->
  exists w' es s1, watchdog_goes_on id x s' w = Some (w', es) /\ evolves w w' es /\ objects w' !! id = Some s1 /\
    kcp_ s1 = kcp_ s' /\ started_ s1 = started_ s' /\
    (x = Silent -> enable_ s = true -> Socket (HandStop id (socket_error Network.kcp_heartbeat_timeout)) ∈ es).
Proof.
  intros Hw E (Ee & Ec & Hst & Er) (now & Ex). unfold watchdog_goes_on. destruct x as [until|].
  - assert (watched (set_deadline (Some until) s')) as Hd.
    { split; [|by intros _ _; eexists]. intros u [= <-]. cbn. symmetry in Ex. destruct (watchdog_loop_ok _ _ _ _ Ex) as (? & ? & _). done. }
    eexists _, [], _. split; [done|]. split; [apply (evolves_set w id s); [done|done|by split_and!|constructor]|].
    split; [apply lookup_insert_eq|]. done.
  - destruct (set_stop_ok w id s (set_deadline None s') (socket_error Network.kcp_heartbeat_timeout)) as (w' & es & -> & Hv & Eo & Hin);
      [done|done|by split_and!|done|].
    exists w', es, (set_enable false (set_deadline None s')). split; [done|]. split; [done|]. split; [done|]. split; [done|]. split; [done|]. by intros _.
Qed.

Lemma kcp_update_goes_on_ok w id s s' next :
  world_ok w -> objects w !! id = Some s -> replaces s s' ->
  forall es, Forall unheard es -> evolves w (update_goes_on id next s' w) es.
Proof. intros Hw E (Ee & Ec & [Ht Hg] & Hst) es Hu. apply (evolves_set w id s); [done|done| |done]. by split_and!. Qed.

Lemma replaces_same w id s : world_ok w -> objects w !! id = Some s -> replaces s s.
Proof. intros Hw E. split_and!; [done..|by apply (wk_watch w Hw id)|done]. Qed.

Lemma accept_ok w id s now :
  world_ok w -> objects w !! id = Some s -> started_ s = false ->
  exists w' es, session_accept id now w = Some (w', es) /\ evolves w w' es /\ started_in w' id.
Proof.
  intros Hw E Hst. unfold session_accept. rewrite E. cbn [mbind option_bind].
  destruct (kcp_watchdog_goes_on_ok w id s (set_started s) (watchdog_loop now (last_read_ s) (last_write_ s))) as (w1 & es & s1 & -> & Hv & E1 & Ek & Es & _);
    [done|done|by split_and!|by exists now|].
  cbn [mbind option_bind]. rewrite E1. cbn [mbind option_bind]. pose proof (proj1 Hv) as Hw1. eexists _, _. split; [done|]. split.
  - rewrite <- (app_nil_r es). eapply kcp_evolves_trans; [exact Hv|]. apply (kcp_update_goes_on_ok w1 id s1); [done|done|by apply (replaces_same w1 id)|constructor].
  - eexists. split; [apply lookup_insert_eq|]. done.
Qed.

Lemma fed_unheard id ms : Forall unheard (Fed id <$> ms).
Proof. apply Forall_fmap, list.Forall_forall. done. Qed.

(** What is written is given to [ikcp_send] in order; the session ends when a
    message is refused. *)
Lemma kcp_write_ok w id s data :
  world_ok w -> objects w !! id = Some s -> zlen data < 2 ^ 31 ->
  exists w' es sent rest, session_write id data w = Some (w', (Fed id <$> sent) ++ es) /\ evolves w w' ((Fed id <$> sent) ++ es) /\
    data = mjoin sent ++ rest /\ Forall (fun m => 0 < zlen m <= kcp_recv_capacity) sent /\
    (rest = [] \/ (enable_ s = true -> Socket (HandStop id (socket_error kcp_protocol_error)) ∈ es)).
Proof.
  intros Hw E Hz. unfold session_write. rewrite E. cbn [mbind option_bind].
  destruct (send_data_ok data (kcp_ s) Hz) as (sent & ok & k & rest & -> & Ec & Ed & Hall & Hok).
  pose proof (world_watched w id s Hw E) as [Hd Hg]. destruct ok.
  - exists (set_session id (set_force true (set_kcp k s)) w), [], sent, rest. rewrite app_nil_r. split; [done|].
    split; [apply (evolves_set w id s); [done|done|by split_and!|apply fed_unheard]|]. split; [done|]. split; [done|]. left. by apply Hok.
  - destruct (set_stop_ok w id s (set_kcp k s) (socket_error kcp_protocol_error) Hw E) as (w' & es & -> & Hv & _ & Hin); [by split_and!|done|].
    exists w', es, sent, rest. split; [done|]. split; [|split; [done|split; [done|by right]]].
    eapply kcp_evolves_trans; [|exact Hv]. by apply evolves_unheard; [|apply fed_unheard| |apply keeps_refl].
Qed.

Lemma kcp_read_ok w id s buffer len now :
  world_ok w -> objects w !! id = Some s -> enable_ s = true -> last_read_ s <= now -> last_write_ s <= now ->
  exists w' es, session_read id buffer len now w = Some (w', es) /\ evolves w w' es.
Proof.
  intros Hw E Ee Hr Hwr. pose proof (world_watched w id s Hw E) as [Hd Hg]. pose proof (life_some w id s E) as Hl. rewrite Ee in Hl.
  assert (server_alive w = true) as Ha by (apply alive_listen; [done|by apply (live_listen w id)]).
  unfold session_read. rewrite E. cbn [mbind option_bind].
  destruct (has_code code_disconnect buffer).
  { destruct (session_stop_ok w id s eof Hw E) as (w' & es & -> & Hv & _). by exists w', es. }
  destruct (has_code code_heartbeat buffer).
  { rewrite write_to_ok by done. cbn. eexists _, _. split; [done|]. apply (evolves_set w id s); [done|done| |by repeat constructor].
    split_and!; try done. split; [|done]. intros u Hu. specialize (Hd u Hu). cbn in *. lia. }
  destruct (has_code code_heartbeat_ack buffer).
  { eexists _, _. split; [done|]. apply (evolves_set w id s); [done|done| |constructor].
    split_and!; try done. split; [|done]. intros u Hu. specialize (Hd u Hu). cbn in *. lia. }
  destruct (has_code code_data buffer); [|exists w, []; split; [done|]; by apply evolves_nil].
  unfold hand_read_data. rewrite E. cbn [mbind option_bind].
  pose proof (input_conv (zdrop kcp_head_size buffer) (len - kcp_head_size) (kcp_ s)) as Hc.
  destruct (input_data _ _ (kcp_ s)) as [|k|ms k].
  - destruct (session_stop_ok w id s (socket_error kcp_check_failed) Hw E) as (w' & es & -> & Hv & Eo & _).
    cbn [mbind option_bind]. rewrite Eo, lookup_insert_eq. cbn. by exists w', es.
  - destruct (set_stop_ok w id s (set_kcp k s) (socket_error kcp_protocol_error) Hw E) as (w' & es & -> & Hv & Eo & _); [by split_and!|done|].
    cbn [mbind option_bind]. rewrite Eo. cbn. by exists w', es.
  - cbn [mbind option_bind set_session objects]. rewrite lookup_insert_eq. cbn [mbind option_bind].
    eexists _, _. split; [done|]. set (s' := set_last_read now (set_force true (set_kcp k s))).
    assert (replaces s s') as Hrep.
    { split_and!; try done. split; [|done]. intros u Hu. specialize (Hd u Hu). cbn in *. lia. }
    match goal with |- evolves _ ?w' _ => replace w' with (set_session id s' w) by (unfold set_session; cbn; by rewrite insert_insert_eq) end.
    destruct (set_session_ok w id s s' Hw E Hrep) as [Hw' Hl']. split; [done|]. split.
    + intros x _. rewrite Hl'. apply kcp_track_reads. by intros <-.
    + by apply (keeps_insert _ _ id s s').
Qed.

Lemma watchdog_woken_loop now lr lw0 beat lw x :
  watchdog_woken now lr lw0 = (beat, lw, x) -> x = watchdog_loop now lr lw /\ (lw = lw0 \/ lw = now).
Proof. unfold watchdog_woken. destruct (_ <=? now); intros [= <- <- <-]; auto. Qed.

Lemma watch_ok w id s e now :
  world_ok w -> objects w !! id = Some s -> (ec_true e = true -> enable_ s = false) ->
  exists w' es, session_watch id e now w = Some (w', es) /\ evolves w w' es /\
    (is_Some (deadline_ s) -> ec_true e = false -> enable_ s = true -> last_read_ s + kcp_alive_timeout <= now ->
     Socket (HandStop id (socket_error Network.kcp_heartbeat_timeout)) ∈ es).
Proof.
  intros Hw E Hend. unfold session_watch. rewrite E. cbn [mbind option_bind]. pose proof (world_watched w id s Hw E) as [Hd Hg].
  destruct (deadline_ s) as [until|] eqn:Ed; [|exists w, []; split; [done|]; split; [by apply evolves_nil|by intros [? ?]]].
  destruct (ec_true e || negb (enable_ s)) eqn:Eb.
  { assert (enable_ s = false) as Hdead by (destruct (ec_true e); [by apply Hend|by destruct (enable_ s)]).
    eexists _, _. split; [done|]. split; [apply (evolves_set w id s); [done|done| |constructor]|].
    - split_and!; try done. split; [done|]. intros _. cbn. congruence.
    - intros _ He Ee _. by rewrite He, Ee in Eb. }
  apply orb_false_iff in Eb as [He Ee%negb_false_iff].
  destruct (watchdog_woken now (last_read_ s) (last_write_ s)) as [[beat lw] x] eqn:Ew. destruct (watchdog_woken_loop _ _ _ _ _ _ Ew) as [Ex Hlw].
  pose proof (life_some w id s E) as Hl. rewrite Ee in Hl.
  assert (server_alive w = true) as Ha by (apply alive_listen; [done|by apply (live_listen w id)]).
  assert (exists es0, (if (beat : bool) then write_to (remote_ s) (make_kcp_ctrl code_heartbeat id) w else Some []) = Some es0 /\ Forall unheard es0)
    as (es0 & -> & Hu) by (destruct beat; [rewrite write_to_ok by done; eexists; split; [done|]; by repeat constructor|by exists []]).
  cbn [mbind option_bind].
  destruct (kcp_watchdog_goes_on_ok w id s (set_last_write lw s) x Hw E) as (w' & es & s1 & -> & Hv & _ & _ & _ & Hin); [by split_and!|by exists now|].
  cbn [mbind option_bind]. exists w', (es0 ++ es). split; [done|]. split.
  - eapply kcp_evolves_trans; [|exact Hv]. apply evolves_unheard; [done..|apply keeps_refl].
  - intros _ _ _ Hs. apply list.elem_of_app. right. apply Hin; [|done]. rewrite Ex. by apply watchdog_silent.
Qed.

Lemma output_all_ok dest ps w : server_alive w = true -> exists es, output_all dest ps w = Some es /\ Forall unheard es.
Proof.
  intros Ha. induction ps as [|p ps (es & E & Hu)]; cbn [output_all]; [by exists []|]. rewrite write_to_ok by done. cbn [mbind option_bind].
  rewrite E. cbn. eexists. split; [done|]. by constructor.
Qed.

Lemma output_all_gone dest ps w : server_alive w = false -> output_all dest ps w = None \/ output_all dest ps w = Some [].
Proof. intros Ha. destruct ps as [|p ps]; [by right|]. left. cbn. unfold write_to. by rewrite Ha. Qed.

(** A wait of [co_kcp_update] that had expired before the session ended and
    wakes up when the server is gone. *)
Definition late (o : kcp_op) (w : world) : Prop :=
  match o with
  | OUpdate id e _ _ => ec_true e = false /\ life_of w id = Ended /\ listen_ w = false /\ reading_ w = None
  | _ => False
  end.

Lemma update_ok w id s e now now' :
  world_ok w -> objects w !! id = Some s -> last_write_ s <= now ->
  (exists w' es, session_update id e now now' w = Some (w', es) /\ evolves w w' es) \/
  session_update id e now now' w = None /\ late (OUpdate id e now now') w.
Proof.
  intros Hw E Hn. unfold session_update. rewrite E. cbn [mbind option_bind]. pose proof (world_watched w id s Hw E) as [Hd Hg].
  pose proof (replaces_same w id s Hw E) as Hsame.
  destruct (update_ s) as [next|] eqn:Eu; [|left; exists w, []; split; [done|by apply evolves_nil]].
  destruct (ec_true e) eqn:Ee.
  { left. eexists _, _. split; [done|]. apply (evolves_set w id s); [done|done|by split_and!|constructor]. }
  destruct ((next <=? now) || force_update_ s); [|left; eexists _, _; split; [done|]; by apply (kcp_update_goes_on_ok w id s)].
  pose proof (conv_update (u32 now) (kcp_ s)) as Hc. destruct (ikcp_update (u32 now) (kcp_ s)) as [k ps]. cbn in Hc.
  assert ((exists es, output_all (remote_ s) ps w = Some es /\ Forall unheard es) \/ output_all (remote_ s) ps w = None /\ server_alive w = false)
    as [(es & -> & Hu)|[-> Ha]].
  { destruct (server_alive w) eqn:Ha; [left; by apply output_all_ok|]. destruct (output_all_gone (remote_ s) ps w Ha) as [-> | ->]; [by right|left; by exists []]. }
  - left. cbn [mbind option_bind]. eexists _, _. split; [done|]. apply (kcp_update_goes_on_ok w id s); [done|done| |done].
    assert (timely (if decide (ps = []) then s else set_last_write now s)) as Ht.
    { destruct (decide (ps = [])); [exact Hd|]. intros u Hu'. specialize (Hd u Hu'). cbn in *. lia. }
    destruct (decide (ps = [])); by split_and!.
  - right. split; [done|]. assert (listen_ w = false /\ reading_ w = None) as [Hlis Hr].
    { unfold server_alive in Ha. apply bool_decide_eq_false in Ha. destruct (reading_ w) eqn:Er; [destruct Ha; right; by eexists|]. split; [|done].
      destruct (listen_ w) eqn:El; [|done]. apply (wk_reading w Hw) in El as [? ?]. congruence. }
    split_and!; [done| |done|done]. rewrite (life_some w id s E). destruct (enable_ s) eqn:Es; [|done].
    exfalso. assert (life_of w id = Live) as Hl by by rewrite (life_some w id s E), Es. rewrite (live_listen w id Hw Hl) in Hlis. done.
Qed.

(** A number that is given out is that of no session and not the server's. *)
Lemma hand_accept_ok w remote now :
  world_ok w -> server_alive w = true -> listen_ w = true -> Forall (fun c => c < 2 ^ 28) (socket_ids_ w) ->
  exists w' es id, hand_accept remote now w = Some (w', es) /\ evolves w w' es /\ id <> sid /\
    life_of w id = Unknown /\ life_of w' id = Live /\ SendTo remote (make_kcp_ctrl code_connect_ack id) ∈ es.
Proof.
  intros Hw Ha Hlis Hroom. pose proof Hw as [A1 A2 A3 A4 A5 A6 A7 A8 A9].
  destruct (next_id_ok (sockets_ w) (kcp, session) (socket_ids_ w) A8 Hroom) as (id & ids & E & Hz & _ & Hwf & _ & Hnew & Hal & Hmore).
  { intros x [Hx|[-> _]]%A2; [|by apply A9; left]. apply A1 in Hx. unfold life_of in Hx. apply A9. right.
    destruct (objects w !! x); [by eexists|done]. }
  assert (objects w !! id = None) as Hno by (apply eq_None_not_Some; intros Hs; apply Hnew, A9; by right).
  assert (id <> sid) as Hsid by (intros ->; apply Hnew, A9; by left).
  unfold hand_accept. rewrite E. cbn [mbind option_bind]. rewrite (proj2 (Z.eqb_neq id 0)) by done. unfold session_start.
  rewrite write_to_ok; [|unfold server_alive in *; apply bool_decide_eq_true in Ha; by apply bool_decide_eq_true].
  set (s := Session remote (kcp_create_default id) false true now now None None false).
  pose (w' := World ids ({[id]} ∪ sockets_ w) (listen_ w) (reading_ w) ({[id]} ∪ sessions_ w) (<[id := s]> (objects w))).
  assert (forall x, life_of w' x = if decide (x = id) then Live else life_of w x) as Hl.
  { intros x. unfold life_of, w'. cbn. destruct (decide (x = id)) as [->|]; [by rewrite lookup_insert_eq|by rewrite lookup_insert_ne by congruence]. }
  assert (life_of w id = Unknown) as Hu by (unfold life_of; by rewrite Hno).
  exists w', ([Socket (Insert id); Socket (HandAccept sid id local remote)] ++ [SendTo remote (make_kcp_ctrl code_connect_ack id)]), id.
  split; [done|]. split; [|split; [done|split; [done|split]]].
  - split.
    + split; cbn; try done.
      * intros x. rewrite Hl, elem_of_union, elem_of_singleton, A1. destruct (decide (x = id)) as [->|]; split; auto. by intros [?|?].
      * intros x. rewrite !elem_of_union, elem_of_singleton, A2. tauto.
      * congruence.
      * rewrite lookup_insert_ne by done. done.
      * intros x y [[<- <-]|[_ Hy]]%lookup_insert_Some; [apply conv_default|by apply A6].
      * intros x y [[<- <-]|[_ Hy]]%lookup_insert_Some; [done|by apply (A7 x)].
      * intros x [->|[->|Hx]%lookup_insert_is_Some']; [apply Hmore, A9; by left|done|apply Hmore, A9; by right].
    + split.
      * intros x Hx. cbn. rewrite Hl. destruct (decide (id = x)) as [<-|Hne]; [rewrite Hu; cbn; by rewrite decide_True|]. cbn. by rewrite decide_False by congruence.
      * apply keeps_objects. intros x y Ey. exists y. unfold w'. cbn. rewrite lookup_insert_ne; [done|]. congruence.
  - rewrite Hl. by rewrite decide_True.
  - apply list.elem_of_app. right. apply list_elem_of_here.
Qed.

Definition clock_ok (now : Z) (w : world) : Prop :=
  forall id s, objects w !! id = Some s -> last_read_ s <= now /\ last_write_ s <= now.

Lemma set_buffer_ok w b : world_ok w -> is_Some b -> world_ok (set_buffer b w) /\ forall x, life_of (set_buffer b w) x = life_of w x.
Proof. intros [A1 A2 A3 A4 A5 A6 A7 A8 A9] Hb. by split. Qed.

Lemma route_ok w conv buffer len now :
  world_ok w -> clock_ok now w -> exists w' es, route conv buffer len now w = Some (w', es) /\ evolves w w' es.
Proof.
  intros Hw Hc. unfold route. case_decide as Hin; [|exists w, []; split; [done|by apply evolves_nil]].
  apply (wk_sessions w Hw) in Hin. unfold life_of in Hin. destruct (objects w !! conv) as [s|] eqn:E; [|done]. destruct (enable_ s) eqn:Ee; [|done].
  destruct (Hc conv s E). by apply (kcp_read_ok w conv s).
Qed.

Lemma kcp_receive_ok w e from datagram now :
  world_ok w -> clock_ok now w -> (listen_ w = false -> ec_true e = true) -> Forall (fun c => c < 2 ^ 28) (socket_ids_ w) ->
  exists w' es, server_receive e from datagram now w = Some (w', es) /\ evolves w w' es.
Proof.
  intros Hw Hc Hl Hroom. unfold server_receive. destruct (reading_ w) as [buffer|] eqn:Er; [|exists w, []; split; [done|by apply evolves_nil]].
  destruct (ec_true e) eqn:Ee.
  { destruct (server_stop_ok w e Hw) as (w' & es & -> & (Hw' & Ht & Hk) & El & _). cbn. eexists _, _. split; [done|]. split; [|by split].
    destruct Hw' as [A1 A2 A3 A4 A5 A6 A7 A8 A9]. split; try done. cbn. congruence. }
  destruct (listen_ w) eqn:Elis; [|by specialize (Hl eq_refl)].
  destruct (received datagram buffer) as [len b]. set (w1 := set_buffer (Some b) w).
  destruct (set_buffer_ok w (Some b) Hw) as [Hw1 Hl1]; [by eexists|]. fold w1 in Hw1, Hl1.
  assert (forall w' es, evolves w1 w' es -> evolves w w' es) as Hv by (intros w' es (? & Ht & ?); split; [done|]; split; [|done]; intros x Hx; rewrite <- Hl1; by apply Ht).
  assert (exists w' es, Some (w1, []) = Some (w', es) /\ evolves w w' es) as Hnil
    by (exists w1, []; split; [done|]; apply Hv; by apply evolves_nil).
  destruct (len <? kcp_head_size); [done|]. destruct (negb (magic_ok b)); [done|].
  assert (forall conv, exists w' es, route conv b len now w1 = Some (w', es) /\ evolves w w' es) as Hroute.
  { intros conv. destruct (route_ok w1 conv b len now Hw1 Hc) as (w' & es & E & H). exists w', es. auto. }
  destruct (has_code code_connect b); [|destruct (has_code code_data b); [apply Hroute|destruct (len <? kcp_head_size + 4); [done|apply Hroute]]].
  destruct (hand_accept_ok w1 from now Hw1) as (w' & es & _ & E & H & _); [by apply alive_listen|done|done|]. exists w', es. auto.
Qed.

(** * Histories *)

(** Times grow; there are fewer than 2^28 sockets of a type; a session is
    accepted once and given messages of less than 2^31 bytes. Of asio: what is
    pending on a socket that is closed completes with an error, and a wait
    completes with an error only when it was cancelled. *)
Definition legal (w : world) (o : kcp_op) : Prop :=
  match o with
  | OReceive e _ _ now => clock_ok now w /\ (listen_ w = false -> ec_true e = true) /\ Forall (fun c => c < 2 ^ 28) (socket_ids_ w)
  | OAccept id now => forall s, objects w !! id = Some s -> started_ s = false
  | OSend _ data => zlen data < 2 ^ 31
  | ONoDelay _ _ | OClose _ => True
  | OWatch id e now => clock_ok now w /\ forall s, objects w !! id = Some s -> ec_true e = true -> enable_ s = false
  | OUpdate id e now _ => clock_ok now w
  end.

Fixpoint legal_run (w : world) (ops : list kcp_op) : Prop :=
  match ops with
  | [] => True
  | o :: ops => legal w o /\ match kcp_step o w with Some (w, _) => legal_run w ops | None => True end
  end.

Lemma table_object w id : world_ok w -> id ∈ sockets_ w -> id <> sid -> exists s, objects w !! id = Some s /\ enable_ s = true.
Proof.
  intros Hw [Hin|[? _]]%(wk_table w Hw) Hne; [|done]. apply (wk_sessions w Hw) in Hin. unfold life_of in Hin.
  destruct (objects w !! id) as [s|]; [|done]. exists s. split; [done|]. by destruct (enable_ s).
Qed.

Lemma kcp_step_ok w o :
  world_ok w -> legal w o -> (exists w' es, kcp_step o w = Some (w', es) /\ evolves w w' es) \/ kcp_step o w = None /\ late o w.
Proof.
  intros Hw Hl. assert (exists w' es, Some (w, []) = Some (w', es) /\ evolves w w' es) as Hnil by (exists w, []; split; [done|by apply evolves_nil]).
  destruct o as [e from d now|id now|id d|id on|id|id e now|id e now now']; cbn [kcp_step]; cbn [legal] in Hl; [left..|].
  - destruct Hl as (Hc & Hlis & Hroom). by apply kcp_receive_ok.
  - case_decide as Hd; [|done]. destruct Hd as [Hin Hne]. destruct (table_object w id Hw Hin Hne) as (s & E & _).
    destruct (accept_ok w id s now Hw E (Hl s E)) as (w' & es & -> & Hv & _). by exists w', es.
  - case_decide as Hd; [|done]. destruct Hd as [Hin Hne]. destruct (table_object w id Hw Hin Hne) as (s & E & _).
    destruct (kcp_write_ok w id s d Hw E Hl) as (w' & es & sent & rest & -> & Hv & _). by eexists _, _.
  - case_decide as Hd; [|done]. destruct Hd as [Hin Hne]. destruct (table_object w id Hw Hin Hne) as (s & E & _). unfold session_no_delay. rewrite E.
    eexists _, _. split; [done|]. pose proof (world_watched w id s Hw E) as [? ?].
    apply (evolves_set w id s); [done|done| |constructor]. split_and!; try done. apply conv_no_delay.
  - case_decide as Hin; [|done]. case_decide as Hs.
    + destruct (server_stop_ok w (socket_error initiative_disconnect) Hw) as (w' & es & -> & Hv & _). by exists w', es.
    + destruct (table_object w id Hw Hin Hs) as (s & E & _).
      destruct (session_stop_ok w id s (socket_error initiative_disconnect) Hw E) as (w' & es & -> & Hv & _). by exists w', es.
  - case_decide as Hs; [|done]. destruct Hs as [s E]. destruct Hl as [_ Hl].
    destruct (watch_ok w id s e now Hw E (Hl s E)) as (w' & es & -> & Hv & _). by exists w', es.
  - case_decide as Hs; [|by left]. destruct Hs as [s E]. destruct (Hl id s E). by apply (update_ok w id s).
Qed.

(** A history goes to its end, or to a late wait that uses the server. *)
Lemma kcp_run_ok ops : forall w, world_ok w -> legal_run w ops ->
  (exists w' es, kcp_run ops w = Some (w', es) /\ evolves w w' es) \/
  exists ops1 o ops2 w1 es1, ops = ops1 ++ o :: ops2 /\ kcp_run ops1 w = Some (w1, es1) /\ evolves w w1 es1 /\ kcp_step o w1 = None /\ late o w1.
Proof.
  induction ops as [|o ops IH]; intros w Hw Hl; cbn [kcp_run legal_run] in *; [left; exists w, []; split; [done|by apply evolves_nil]|].
  destruct Hl as [Ho Hl]. destruct (kcp_step_ok w o Hw Ho) as [(w1 & es1 & E & Hv1)|[E Hlate]].
  2: { right. exists [], o, ops, w, []. split; [done|]. split; [done|]. split; [by apply evolves_nil|done]. }
  rewrite E in *. cbn [mbind option_bind].
  destruct (IH w1) as [(w' & es & -> & Hv)|(ops1 & o' & ops2 & w2 & es2 & -> & Er & Hv & Hn)]; [by destruct Hv1|done| |].
  - left. cbn. exists w', (es1 ++ es). split; [done|]. by eapply kcp_evolves_trans.
  - right. exists (o :: ops1), o', ops2, w2, (es1 ++ es2). split; [done|]. split; [cbn [kcp_run]; rewrite E; cbn; by rewrite Er|].
    split; [by eapply kcp_evolves_trans|done].
Qed.

(** A history that goes to its end. *)
Lemma kcp_run_evolves ops w w' es : world_ok w -> legal_run w ops -> kcp_run ops w = Some (w', es) -> evolves w w' es.
Proof.
  revert w es. induction ops as [|o ops IH]; intros w es Hw Hl Hr; cbn [kcp_run legal_run] in *; [injection Hr as <- <-; by apply evolves_nil|].
  destruct Hl as [Ho Hl]. destruct (kcp_step_ok w o Hw Ho) as [(w1 & es1 & E & Hv1)|[E _]]; rewrite E in *; [|done]. cbn [mbind option_bind] in Hr.
  destruct (kcp_run ops w1) as [[w2 es2]|] eqn:Er; [|done]. injection Hr as <- <-.
  eapply kcp_evolves_trans; [exact Hv1|]. apply IH; [by destruct Hv1|done..].
Qed.

Lemma kcp_run_app ops1 ops2 w w1 es1 :
  kcp_run ops1 w = Some (w1, es1) -> kcp_run (ops1 ++ ops2) w = '(w2, es2) ← kcp_run ops2 w1; Some (w2, es1 ++ es2).
Proof.
  revert w es1. induction ops1 as [|o ops IH]; intros w es1 Hr; cbn [app kcp_run] in *.
  - injection Hr as <- <-. by destruct (kcp_run ops2 w) as [[]|].
  - destruct (kcp_step o w) as [[w0 es0]|]; [|done]. cbn [mbind option_bind] in *. destruct (kcp_run ops w0) as [[w2 es2]|] eqn:E; [|done].
    injection Hr as -> <-. rewrite (IH w0 es2) by done. cbn [mbind option_bind]. destruct (kcp_run ops2 w1) as [[]|]; [|done]. cbn.
    by rewrite (app_assoc (A := kcp_effect)).
Qed.





Lemma stale_receive w buffer id from now :
  world_ok w -> reading_ w = Some buffer -> 8 <= zlen buffer -> ikcp_getconv (zdrop 4 buffer) = id -> life_of w id = Live ->
  exists w' es', server_receive no_error from (kcp_head code_data) now w = Some (w', es') /\
    Socket (HandStop id (socket_error kcp_protocol_error)) ∈ es' /\ life_of w' id = Ended.
Proof.
  intros Hw Hb Hz Hid Hl. unfold server_receive. rewrite Hb. cbn [ec_true].
  rewrite received_all by (change (zlen (kcp_head code_data)) with 4; lia). change (zlen (kcp_head code_data)) with 4.
  set (b := kcp_head code_data ++ zdrop 4 buffer). set (w1 := set_buffer (Some b) w).
  destruct (set_buffer_ok w (Some b) Hw) as [Hw1 Hl1]; [by eexists|]. fold w1 in Hw1, Hl1.
  assert (id ∈ sessions_ w1) as Hin by by apply (wk_sessions w Hw).
  assert (exists s, objects w1 !! id = Some s /\ enable_ s = true) as (s & Es & Ee).
  { revert Hl. unfold life_of. change (objects w1) with (objects w). destruct (objects w !! id) as [s|]; [|done]. exists s. by destruct (enable_ s). }
  change (ec_true no_error) with false. change (4 <? kcp_head_size) with false. cbv iota.
  assert (magic_ok b = true) as -> by done. cbn [negb].
  assert (forall c, has_code c b = bool_decide (code_data = c)) as Hc by (intros c; apply has_code_head).
  rewrite !Hc. rewrite bool_decide_false by done. rewrite bool_decide_true by done.
  unfold b at 1. rewrite drop_head. change (zdrop 4 buffer) with (zdrop kcp_head_size buffer) in *. rewrite Hid.
  unfold route. rewrite decide_True by done. unfold session_read. rewrite Es. cbn [mbind option_bind]. rewrite !Hc.
  rewrite !bool_decide_false by done. rewrite bool_decide_true by done.
  unfold hand_read_data. rewrite Es. cbn [mbind option_bind]. unfold b at 1. rewrite drop_head.
  destruct (input_short_refused (zdrop kcp_head_size buffer) (4 - kcp_head_size) (kcp_ s)) as (k & Ek).
  { unfold kcp_head_size. lia. }
  { rewrite Hid. symmetry. by apply (wk_conv w1 Hw1). }
  rewrite Ek. pose proof (input_conv (zdrop kcp_head_size buffer) (4 - kcp_head_size) (kcp_ s)) as Hk. rewrite Ek in Hk.
  destruct (set_stop_ok w1 id s (set_kcp k s) (socket_error kcp_protocol_error) Hw1 Es) as (w' & es & -> & [Hw' _] & Eo & Hstop).
  { by split_and!. }
  { apply (world_watched w1 id s Hw1 Es). }
  cbn [mbind option_bind]. rewrite Eo. cbn [mbind option_bind]. exists w', es. split; [done|]. split; [by apply Hstop|].
  unfold life_of. by rewrite Eo.
Qed.

(** The server before it starts, with its number given out. *)
Definition server_new (ids : list Z) : world := World ids ∅ false None ∅ ∅.

Lemma server_started_ok ids garbage :
  ids_wf ids -> allotted ids sid ->
  exists w es, server_start no_error [no_error; no_error] garbage (server_new ids) = Some (w, es) /\ world_ok w /\
    (forall id, life_of w id = Unknown) /\ es = [Socket (Insert sid); Socket (HandStart sid [])].
Proof.
  intros Hi Ha. eexists _, _. split; [reflexivity|]. split; [|done]. split; cbn; try done.
  - intros id. rewrite !elem_of_union, elem_of_singleton. split; [intros [?|?%elem_of_empty]; [by right|done]|intros [?%elem_of_empty|[? _]]; [done|by left]].
  - intros id [->|[? Hs]]; [done|]. by rewrite lookup_empty in Hs.
Qed.

Lemma started_run ids garbage w0 es0 ops w es :
  ids_wf ids -> allotted ids sid -> server_start no_error [no_error; no_error] garbage (server_new ids) = Some (w0, es0) ->
  legal_run w0 ops -> kcp_run ops w0 = Some (w, es) -> world_ok w0 /\ world_ok w /\ forall id, id <> sid -> track id Unknown es = Some (life_of w id).
Proof.
  intros Hi Ha E Hl Hr. destruct (server_started_ok ids garbage Hi Ha) as (w1 & es1 & E' & Hw & Hu & _). rewrite E' in E. injection E as <- <-.
  destruct (kcp_run_evolves ops w1 w es Hw Hl Hr) as (Hw' & Ht & _). split; [done|]. split; [done|]. intros id Hid. rewrite <- (Hu id). by apply Ht.
Qed.

(** What the handlers heard, and what is there, at the end of a history. *)
Definition orderly (w : world) (es : list kcp_effect) : Prop :=
  (forall id, id <> sid -> track id Unknown es = Some (life_of w id)) /\
  (forall id, id ∈ sockets_ w <-> life_of w id = Live \/ (id = sid /\ listen_ w = true)) /\
  (listen_ w = false -> forall id, life_of w id <> Live).

Lemma evolves_orderly w0 w es : (forall id, life_of w0 id = Unknown) -> evolves w0 w es -> orderly w es.
Proof.
  intros Hu (Hw & Ht & _). split; [intros id Hid; rewrite <- (Hu id); by apply Ht|]. split.
  - intros id. by rewrite (wk_table w Hw), (wk_sessions w Hw).
  - intros Hc id Hl. by rewrite (live_listen w id Hw Hl) in Hc.
Qed.

(** C6: however datagrams, waits and calls are interleaved, of every session the
    handlers hear first that it was accepted, then what it read, then once that
    it stopped; the table of the system has the server while it listens and the
    live sessions; and there is no live session once the server has stopped.
    The server object is used after its end in one case only: when the server
    was closed and its coroutine has ended, a wait of a session's
    [co_kcp_update] that had expired before it could be cancelled wakes up, and
    its packets go through the session's reference to the server. Up to then
    all of the above holds. Assumed are that the steady clock does not go back,
    that the program accepts a session once and writes less than 2^31 bytes at
    a time, that there are fewer than 2^28 sockets of a type, and, as asio
    documents, that closing a socket completes a pending receive with an error
    and that a wait that was not cancelled completes without one. *)
Theorem kcp_sessions_in_order ids garbage w0 es0 ops
  (Hids : ids_wf ids) (Hsid : allotted ids sid)
  (Hstart : server_start no_error [no_error; no_error] garbage (server_new ids) = Some (w0, es0)) (Hlegal : legal_run w0 ops) :
  (exists w es, kcp_run ops w0 = Some (w, es) /\ orderly w es) \/
  (exists ops1 id e now now' ops2 w1 es1,
    ops = ops1 ++ OUpdate id e now now' :: ops2 /\ ec_true e = false /\ kcp_run ops1 w0 = Some (w1, es1) /\ orderly w1 es1 /\
    kcp_step (OUpdate id e now now') w1 = None /\
    life_of w1 id = Ended /\ listen_ w1 = false /\ reading_ w1 = None).
Proof.
  destruct (server_started_ok ids garbage Hids Hsid) as (w2 & es2 & E' & Hw & Hu & _). rewrite E' in Hstart. injection Hstart as <- <-.
  destruct (kcp_run_ok ops w2 Hw Hlegal) as [(w & es & E & Hv)|(ops1 & o & ops2 & w1 & es1 & -> & Er & Hv & Hn & Hlate)].
  - left. exists w, es. split; [done|]. by apply (evolves_orderly w2).
  - right. destruct o as [| | | | | |id e now now']; try done. destruct Hlate as (He & Hl & Hlis & Hr).
    exists ops1, id, e, now, now', ops2, w1, es1. split; [done|]. split; [done|]. split; [done|]. split; [by apply (evolves_orderly w2)|done].
Qed.


(** A datagram that is the four bytes of a data head has no number. The one that
    stands in the buffer from an earlier datagram is taken, and that session
    ends, whoever sent the datagram. *)
Theorem stale_datagram_ends_session ids garbage w0 es0 ops w es buffer id from now
  (Hids : ids_wf ids) (Hsid : allotted ids sid)
  (Hstart : server_start no_error [no_error; no_error] garbage (server_new ids) = Some (w0, es0)) (Hlegal : legal_run w0 ops)
  (Hrun : kcp_run ops w0 = Some (w, es)) (Hbuffer : reading_ w = Some buffer) (Hsize : 8 <= zlen buffer)
  (Hstale : ikcp_getconv (zdrop 4 buffer) = id) (Hlive : life_of w id = Live) :
  exists w' es', server_receive no_error from (kcp_head code_data) now w = Some (w', es') /\
    Socket (HandStop id (socket_error kcp_protocol_error)) ∈ es' /\ life_of w' id = Ended.
Proof.
  destruct (started_run ids garbage w0 es0 ops w es Hids Hsid Hstart Hlegal Hrun) as (_ & Hw & _).
  apply (stale_receive w buffer id from now Hw Hbuffer Hsize Hstale Hlive).
Qed.
End server.

(** * Witnesses *)

#[export] Instance session_dec (m : gmap Z (kcp_session (K := plain_kcp))) id P `{!forall s, Decision (P s)} :
  Decision (forall s, m !! id = Some s -> P s).
Proof.
  destruct (m !! id) as [s|]; [|left; done].
  destruct (decide (P s)); [left; intros ? [= <-]; done|right; intros Hs; by apply n, Hs].
Defined.

#[export] Instance clock_dec now (w : world (K := plain_kcp)) : Decision (clock_ok now w).
Proof.
  refine (cast_if (decide (map_Forall (fun _ s => last_read_ s <= now /\ last_write_ s <= now) (objects w)))); done.
Defined.

#[export] Instance kcp_legal_dec (w : world (K := plain_kcp)) o : Decision (legal w o).
Proof. destruct o; cbn [legal]; apply _. Defined.

#[export] Instance kcp_legal_run_dec sid local ops : forall w : world (K := plain_kcp), Decision (legal_run sid local w ops).
Proof.
  induction ops as [|o ops IH]; intros w; cbn [legal_run]; [left; done|].
  apply and_dec; [apply _|]. destruct (kcp_step sid local o w) as [[w' es]|]; [apply IH|left; done].
Defined.

(** The first number of a KCP server, and the first two of its sessions. *)
Definition demo_ids : list Z := <[9%nat := 1]> ids_new.

Definition demo_sid : Z := 9.

Definition demo_client : bytes := [99].

Definition demo_packet (conv : Z) (message : bytes) : bytes := make_kcp_data (be_bytes 4 conv ++ zrep 20 0 ++ message).

(** Two clients connect, the first session is accepted, reads a message and
    sends one. *)
Definition demo_connects : list kcp_op :=
  [OReceive no_error demo_client (make_kcp_ctrl code_connect 0) 1000; OReceive no_error [98] (make_kcp_ctrl code_connect 0) 1000].

Definition demo_ops : list kcp_op :=
  demo_connects ++ [OAccept 10 1010; OReceive no_error demo_client (demo_packet 10 [7; 8]) 1020; OSend 10 [5; 6]; OUpdate 10 no_error 1030 1031].

Definition demo_world : option (world (K := plain_kcp) * list kcp_effect) :=
  server_start demo_sid no_error [no_error; no_error] (zrep 470 0) (server_new demo_ids).

Lemma demo_ids_wf : ids_wf demo_ids.
Proof. split; [done|]. apply (bool_decide_unpack _). vm_compute. exact I. Qed.

Lemma demo_sid_allotted : allotted demo_ids demo_sid.
Proof. exists (kcp, server), 1, 0. by split_and!. Qed.

Lemma demo_server_legal w0 es0 : demo_world = Some (w0, es0) -> legal_run demo_sid [] w0 demo_ops.
Proof. intros E. vm_compute in E. injection E as <- <-. apply (bool_decide_unpack _). vm_compute. exact I. Qed.

Lemma demo_server_run w0 es0 : demo_world = Some (w0, es0) -> is_Some (kcp_run demo_sid [] demo_ops w0).
Proof. intros E. vm_compute in E. injection E as <- <-. apply (bool_decide_unpack _). vm_compute. exact I. Qed.

Lemma kcp_sessions_in_order_witness :
  exists w0 es0 w es, demo_world = Some (w0, es0) /\ kcp_run demo_sid [] demo_ops w0 = Some (w, es) /\ orderly demo_sid w es.
Proof.
  destruct demo_world as [[w0 es0]|] eqn:E; [|by vm_compute in E].
  destruct (kcp_sessions_in_order demo_sid [] demo_ids (zrep 470 0) w0 es0 demo_ops demo_ids_wf demo_sid_allotted E (demo_server_legal _ _ E))
    as [(w & es & Hrun & Hall)|(ops1 & id & e & now & now' & ops2 & w1 & es1 & Eo & _ & Hrun & _ & Hstep & _)].
  - exists w0, es0, w, es. split; [done|]. split; [exact Hrun|exact Hall].
  - destruct (demo_server_run w0 es0 E) as [r Er]. rewrite Eo, (kcp_run_app _ _ _ _ _ _ _ Hrun) in Er. cbn [kcp_run] in Er. by rewrite Hstep in Er.
Defined.


(** The last datagram was for session 10; four bytes from somebody else end it. *)
Lemma stale_datagram_ends_session_witness :
  exists w0 es0 w es, demo_world = Some (w0, es0) /\ kcp_run demo_sid [] demo_ops w0 = Some (w, es) /\
    exists w' es', server_receive demo_sid [] no_error [1] (kcp_head code_data) 1040 w = Some (w', es') /\
      Socket (HandStop 10 (socket_error kcp_protocol_error)) ∈ es' /\ life_of w' 10 = Ended.
Proof.
  destruct demo_world as [[w0 es0]|] eqn:E; [|by vm_compute in E].
  destruct (kcp_run demo_sid [] demo_ops w0) as [[w es]|] eqn:Er; [|vm_compute in E; injection E as <- <-; by vm_compute in Er].
  destruct (reading_ w) as [b|] eqn:Eb; [|vm_compute in E; injection E as <- <-; vm_compute in Er; injection Er as <- <-; by vm_compute in Eb].
  assert (8 <= zlen b /\ ikcp_getconv (zdrop 4 b) = 10 /\ life_of w 10 = Live) as (Hz & Hg & Hl).
  { vm_compute in E. injection E as <- <-. vm_compute in Er. injection Er as <- <-. vm_compute in Eb. injection Eb as <-. by vm_compute. }
  exists w0, es0, w, es. split; [done|]. split; [exact Er|].
  exact (stale_datagram_ends_session demo_sid [] demo_ids (zrep 470 0) w0 es0 demo_ops w es b 10 [1] 1040
    demo_ids_wf demo_sid_allotted E (demo_server_legal _ _ E) Er Eb Hz Hg Hl).
Defined.

(** Session 26 was never accepted by the program: no watchdog guards it. *)
Example unaccepted_session_unwatched :
  (w0 ← demo_world; '(w, es) ← kcp_run demo_sid [] demo_ops w0.1; '(w, es) ← session_watch demo_sid 26 no_error 1000000 w; Some (life_of w 26, es)) =
  Some (Live, []).
Proof. vm_compute. reflexivity. Qed.

(** A datagram that says disconnect ends the session it names, wherever it comes
    from. *)
Example anybody_disconnects :
  (w0 ← demo_world; '(w, es) ← kcp_run demo_sid [] (demo_ops ++ [OReceive no_error [1] (make_kcp_ctrl code_disconnect 10) 1040]) w0.1; Some (life_of w 10)) =
  Some Ended.
Proof. vm_compute. reflexivity. Qed.

(** The server is closed and its coroutine ends, both waits of the session are
    cancelled; the one of [co_kcp_update] had expired already, and the packet that
    [ikcp_update] gives is sent through the server that is gone. *)
Definition late_ops : list kcp_op :=
  demo_ops ++ [OSend 10 [1]; OClose demo_sid; OReceive eof [] [] 1040; OWatch 10 eof 1040; OUpdate 10 no_error 1041 1041].

Example late_update_uses_server :
  match demo_world with
  | Some (w0, _) => legal_run demo_sid [] w0 late_ops /\ kcp_run demo_sid [] late_ops w0 = None
  | None => False
  end.
Proof.
  destruct demo_world as [[w0 es0]|] eqn:E; [|by vm_compute in E]. vm_compute in E. injection E as <- <-.
  split; [apply (bool_decide_unpack _); vm_compute; exact I|]. by vm_compute.
Qed.

(** Were a receive to complete without an error after [close] - asio documents
    that it does not - the server would accept a session that outlives it. *)
Example late_receive_accepts :
  (w0 ← demo_world;
   '(w, es) ← kcp_run demo_sid [] [OClose demo_sid; OReceive no_error demo_client (make_kcp_ctrl code_connect 0) 1000; OReceive eof [] [] 1001] w0.1;
   Some (life_of w 10, listen_ w, reading_ w)) = Some (Live, false, None).
Proof. vm_compute. reflexivity. Qed.
