(* ===== verification/KcpClient.v ===== *)
(** A KCP client (src/net/impl/kcp_client_impl.cpp in src/runtime): it connects,
    waits for the number that the server gives, flushes what was written before,
    and reads until a side disconnects. What it shares with the sessions of a
    server is in KcpConfig.v.

    Everything happens on the socket thread: an event is the completion of what a
    coroutine waits for, with the time, or a function posted to the thread.
    [None] is the use of a control block that is not there yet. *)

From S2P Require Import Prelude Digest Network StreamSocket KcpConfig.

Section client.
Context {K : Type} `{!Kcp K}.

(** The client's number and the text of its address. *)
Context (cid : Z) (local : bytes).

(** * Data *)

Inductive state := normal | connected | close_wait | closed.

#[export] Instance state_dec : EqDecision state.
Proof. solve_decision. Defined.

(** What [co_connect] waits for. *)
Inductive step := Resolving | Connecting | Asking | Receiving.

#[export] Instance step_dec : EqDecision step.
Proof. solve_decision. Defined.

(** [listed_]: the client is in the system's table. The coroutines: where
    [co_connect] is, whether [co_timeout] waits, the buffer of [co_read],
    until when [co_watchdog] sleeps, what [co_kcp_update] remembers, and the
    error of the coroutine of [disconnect] while it sends. *)
Record client := Client {
  state_ : state; kcp_ : option K; force_update_ : bool; write_deque_ : list bytes; last_read_ : Z; last_write_ : Z; listed_ : bool;
  connect_ : option step; timeout_ : bool; reading_ : option bytes; deadline_ : option Z; update_ : option Z; closing_ : option error_code }.

(** A handler is called or the table changes; a datagram is sent; a message is
    given to [ikcp_send]. *)
Inductive client_effect := Socket (e : effect) | Send (data : bytes) | Fed (message : bytes).

Definition set_state (x : state) (c : client) : client :=
  Client x (kcp_ c) (force_update_ c) (write_deque_ c) (last_read_ c) (last_write_ c) (listed_ c) (connect_ c) (timeout_ c) (reading_ c) (deadline_ c) (update_ c) (closing_ c).

Definition set_kcp (k : K) (c : client) : client :=
  Client (state_ c) (Some k) (force_update_ c) (write_deque_ c) (last_read_ c) (last_write_ c) (listed_ c) (connect_ c) (timeout_ c) (reading_ c) (deadline_ c) (update_ c) (closing_ c).

Definition set_force (b : bool) (c : client) : client :=
  Client (state_ c) (kcp_ c) b (write_deque_ c) (last_read_ c) (last_write_ c) (listed_ c) (connect_ c) (timeout_ c) (reading_ c) (deadline_ c) (update_ c) (closing_ c).

Definition set_deque (d : list bytes) (c : client) : client :=
  Client (state_ c) (kcp_ c) (force_update_ c) d (last_read_ c) (last_write_ c) (listed_ c) (connect_ c) (timeout_ c) (reading_ c) (deadline_ c) (update_ c) (closing_ c).

Definition set_last_read (t : Z) (c : client) : client :=
  Client (state_ c) (kcp_ c) (force_update_ c) (write_deque_ c) t (last_write_ c) (listed_ c) (connect_ c) (timeout_ c) (reading_ c) (deadline_ c) (update_ c) (closing_ c).

Definition set_last_write (t : Z) (c : client) : client :=
  Client (state_ c) (kcp_ c) (force_update_ c) (write_deque_ c) (last_read_ c) t (listed_ c) (connect_ c) (timeout_ c) (reading_ c) (deadline_ c) (update_ c) (closing_ c).

Definition set_connect (x : option step) (c : client) : client :=
  Client (state_ c) (kcp_ c) (force_update_ c) (write_deque_ c) (last_read_ c) (last_write_ c) (listed_ c) x (timeout_ c) (reading_ c) (deadline_ c) (update_ c) (closing_ c).

Definition set_timeout (b : bool) (c : client) : client :=
  Client (state_ c) (kcp_ c) (force_update_ c) (write_deque_ c) (last_read_ c) (last_write_ c) (listed_ c) (connect_ c) b (reading_ c) (deadline_ c) (update_ c) (closing_ c).

Definition set_reading (b : option bytes) (c : client) : client :=
  Client (state_ c) (kcp_ c) (force_update_ c) (write_deque_ c) (last_read_ c) (last_write_ c) (listed_ c) (connect_ c) (timeout_ c) b (deadline_ c) (update_ c) (closing_ c).

Definition set_deadline (d : option Z) (c : client) : client :=
  Client (state_ c) (kcp_ c) (force_update_ c) (write_deque_ c) (last_read_ c) (last_write_ c) (listed_ c) (connect_ c) (timeout_ c) (reading_ c) d (update_ c) (closing_ c).

Definition set_update (u : option Z) (c : client) : client :=
  Client (state_ c) (kcp_ c) (force_update_ c) (write_deque_ c) (last_read_ c) (last_write_ c) (listed_ c) (connect_ c) (timeout_ c) (reading_ c) (deadline_ c) u (closing_ c).

Definition set_closing (e : option error_code) (c : client) : client :=
  Client (state_ c) (kcp_ c) (force_update_ c) (write_deque_ c) (last_read_ c) (last_write_ c) (listed_ c) (connect_ c) (timeout_ c) (reading_ c) (deadline_ c) (update_ c) e.

Definition client_new : client := Client normal None false [] 0 0 false None false None None None None.

(** * Operations *)

Definition client_start (c : client) : client * list client_effect :=
  (Client (state_ c) (kcp_ c) (force_update_ c) (write_deque_ c) (last_read_ c) (last_write_ c) true (Some Resolving) true (reading_ c) (deadline_ c) (update_ c) (closing_ c),
    [Socket (Insert cid)]).

Definition client_stop (e : error_code) (c : client) : client * list client_effect :=
  if decide (state_ c = closed) then (c, [])
  else
    (Client closed (kcp_ c) (force_update_ c) (write_deque_ c) (last_read_ c) (last_write_ c) false (connect_ c) (timeout_ c) (reading_ c) (deadline_ c) (update_ c) (closing_ c),
      [Socket (HandStop cid e); Socket (Erase cid)]).

(** [disconnect] stops the client when the datagram was sent. *)
Definition disconnect (e : error_code) (c : client) : option (client * list client_effect) :=
  if decide (state_ c = connected) then
    k ← kcp_ c; Some (set_closing (Some e) (set_state close_wait c), [Send (make_kcp_ctrl code_disconnect (kcp_conv k))])
  else Some (c, []).

(** [write_base]: whether it went well. *)
Definition write_base (data : bytes) (c : client) : option (bool * client * list client_effect) :=
  k ← kcp_ c;
  let '(sent, ok, k) := send_data data k in
  if ok then Some (true, set_kcp k c, Fed <$> sent)
  else '(c, es) ← disconnect (socket_error kcp_protocol_error) (set_kcp k c); Some (false, c, (Fed <$> sent) ++ es).

Definition client_write (data : bytes) (c : client) : option (client * list client_effect) :=
  if decide (state_ c = connected) then
    '(ok, c, es) ← write_base data c; Some (if (ok : bool) then set_force true c else c, es)
  else Some (set_deque (write_deque_ c ++ [data]) c, []).

Definition client_no_delay (on : bool) (c : client) : client :=
  match kcp_ c with Some k => set_kcp (kcp_no_delay on k) c | None => c end.

(** What was written before, one after the other. *)
Fixpoint flush (datas : list bytes) (c : client) : option (bool * client * list client_effect) :=
  match datas with
  | [] => Some (true, c, [])
  | data :: datas =>
    '(ok, c, es) ← write_base data c;
    if (ok : bool) then '(ok, c, es') ← flush datas c; Some (ok, c, es ++ es') else Some (false, c, es)
  end.

(** [co_watchdog] and [co_kcp_update] at the conditions of their loops. *)
Definition watchdog_goes_on (x : watch) (c : client) : option (client * list client_effect) :=
  match x with
  | Sleep until => Some (set_deadline (Some until) c, [])
  | Silent => disconnect (socket_error Network.kcp_heartbeat_timeout) (set_deadline None c)
  end.

Definition update_goes_on (next : Z) (c : client) : client :=
  set_update (if decide (state_ c = connected) then Some next else None) c.

(** The three coroutines; [garbage] is what the buffer of [co_read] holds. *)
Definition spawn_all (garbage : bytes) (now : Z) (c : client) : option (client * list client_effect) :=
  let c := set_reading (Some garbage) c in
  '(c, es) ← watchdog_goes_on (watchdog_loop now (last_read_ c) (last_write_ c)) c;
  k ← kcp_ c;
  Some (update_goes_on (next_update now k) c, es).

(** The answer of the server, in [garbage]. *)
Definition connect_ack (datagram garbage garbage' : bytes) (now : Z) (c : client) : option (client * list client_effect) :=
  let '(len, data) := received datagram garbage in
  if negb (magic_ok data) || negb (has_code code_connect_ack data) then disconnect (socket_error kcp_check_failed) c
  else if len <? kcp_head_size + 4 then Some (client_stop (socket_error kcp_check_failed) c)
  else
    let c := set_state connected (set_kcp (kcp_create_default (head_conv data)) c) in
    '(ok, c, es) ← flush (write_deque_ c) c;
    let es := Socket (HandStart cid local) :: es in
    if (ok : bool) then
      let c := if decide (write_deque_ c = []) then c else set_force true (set_deque [] c) in
      '(c, es') ← spawn_all garbage' now (set_last_write now (set_last_read now c));
      Some (c, es ++ es')
    else Some (c, es).

(** What [co_connect] waits for completes. *)
Definition co_connect (e : error_code) (datagram garbage garbage' : bytes) (now : Z) (c : client) : option (client * list client_effect) :=
  match connect_ c with
  | None => Some (c, [])
  | Some x =>
    if ec_true e then Some (client_stop e (set_connect None c))
    else
      match x with
      | Resolving => Some (set_connect (Some Connecting) c, [])
      | Connecting => Some (set_connect (Some Asking) c, [Send (make_kcp_ctrl code_connect 0)])
      | Asking => Some (set_connect (Some Receiving) c, [])
      | Receiving => connect_ack datagram garbage garbage' now (set_connect None c)
      end
  end.

Definition co_timeout (e : error_code) (c : client) : client * list client_effect :=
  if timeout_ c then if ec_true e then (set_timeout false c, []) else client_stop timed_out (set_timeout false c) else (c, []).

Definition hand_read_data (packet : bytes) (len : Z) (c : client) : option (bool * client * list client_effect) :=
  k ← kcp_ c;
  match input_data packet len k with
  | BadConv => '(c, es) ← disconnect (socket_error kcp_check_failed) c; Some (false, c, es)
  | BadInput k => '(c, es) ← disconnect (socket_error kcp_protocol_error) (set_kcp k c); Some (false, c, es)
  | Messages ms k => Some (true, set_force true (set_kcp k c), (fun m => Socket (HandRead cid m)) <$> ms)
  end.

(** The switch of [co_read]. *)
Definition dispatch (data : bytes) (len now : Z) (c : client) : option (client * list client_effect) :=
  k ← kcp_ c;
  if has_code code_disconnect data then
    if (len <? kcp_head_size + 4) || negb (head_conv data =? kcp_conv k) then Some (c, [])
    else disconnect eof (set_reading None c)
  else if has_code code_heartbeat data then
    Some (set_last_read now (set_last_write now c), [Send (make_kcp_ctrl code_heartbeat_ack (kcp_conv k))])
  else if has_code code_heartbeat_ack data then Some (set_last_read now c, [])
  else if has_code code_data data then
    '(ok, c, es) ← hand_read_data (zdrop kcp_head_size data) (len - kcp_head_size) c;
    Some (if (ok : bool) then set_last_read now c else set_reading None c, es)
  else Some (c, []).

Definition co_read (e : error_code) (datagram : bytes) (now : Z) (c : client) : option (client * list client_effect) :=
  match reading_ c with
  | None => Some (c, [])
  | Some buffer =>
    let '(len, data) := if ec_true e then (0, buffer) else received datagram buffer in
    if decide (state_ c <> connected) then Some (set_reading None c, [])
    else if ec_true e || (len <? kcp_head_size) then disconnect e (set_reading None c)
    else if negb (magic_ok data) then disconnect (socket_error kcp_check_failed) (set_reading None c)
    else dispatch data len now (set_reading (Some data) c)
  end.

Definition co_watchdog (e : error_code) (now : Z) (c : client) : option (client * list client_effect) :=
  match deadline_ c with
  | None => Some (c, [])
  | Some _ =>
    if ec_true e || bool_decide (state_ c <> connected) then Some (set_deadline None c, [])
    else
      k ← kcp_ c;
      let '(beat, lw, x) := watchdog_woken now (last_read_ c) (last_write_ c) in
      '(c, es) ← watchdog_goes_on x (set_last_write lw c);
      Some (c, (if (beat : bool) then [Send (make_kcp_ctrl code_heartbeat (kcp_conv k))] else []) ++ es)
  end.

Definition co_kcp_update (e : error_code) (now now' : Z) (c : client) : option (client * list client_effect) :=
  match update_ c with
  | None => Some (c, [])
  | Some next =>
    if ec_true e then Some (set_update None c, [])
    else if (next <=? now) || force_update_ c then
      k ← kcp_ c;
      let '(k, packets) := ikcp_update (u32 now) k in
      let c := set_force false (set_kcp k (if decide (packets = []) then c else set_last_write now c)) in
      Some (update_goes_on (next_update now' k) c, (fun p => Send (make_kcp_data p)) <$> packets)
    else Some (update_goes_on next c, [])
  end.

(** The datagram of [disconnect] was sent, or not. *)
Definition disconnect_sent (c : client) : client * list client_effect :=
  match closing_ c with None => (c, []) | Some e => client_stop e (set_closing None c) end.

(** * Histories *)

Inductive client_op :=
  | CConnect (e : error_code) (datagram garbage garbage' : bytes) (now : Z)
  | CTimeout (e : error_code)
  | CWrite (data : bytes)
  | CNoDelay (on : bool)
  | CClose
  | CRead (e : error_code) (datagram : bytes) (now : Z)
  | CWatch (e : error_code) (now : Z)
  | CUpdate (e : error_code) (now now' : Z)
  | CSent.

Definition client_step (o : client_op) (c : client) : option (client * list client_effect) :=
  match o with
  | CConnect e d g g' now => co_connect e d g g' now c
  | CTimeout e => Some (co_timeout e c)
  | CWrite d => if listed_ c then client_write d c else Some (c, [])
  | CNoDelay on => Some (if listed_ c then client_no_delay on c else c, [])
  | CClose => Some (if listed_ c then client_stop (socket_error initiative_disconnect) c else (c, []))
  | CRead e d now => co_read e d now c
  | CWatch e now => co_watchdog e now c
  | CUpdate e now now' => co_kcp_update e now now' c
  | CSent => Some (disconnect_sent c)
  end.

Fixpoint client_run (ops : list client_op) (c : client) : option (client * list client_effect) :=
  match ops with
  | [] => Some (c, [])
  | o :: ops => '(c, es) ← client_step o c; '(c, es') ← client_run ops c; Some (c, es ++ es')
  end.

(** * What the handlers hear, what ikcp is given *)

Inductive life := Starting | Up | Over.

(** The start is announced at most once and first, messages are read after it,
    the stop is announced once; [None] is anything else. *)
Definition track1 (p : life) (e : client_effect) : option life :=
  match e with
  | Socket (HandStart _ _) => match p with Starting => Some Up | _ => None end
  | Socket (HandRead _ _) => match p with Up => Some Up | _ => None end
  | Socket (HandStop _ _) => match p with Over => None | _ => Some Over end
  | Socket (HandAccept _ _ _ _) => None
  | _ => Some p
  end.

Fixpoint track (p : life) (es : list client_effect) : option life :=
  match es with [] => Some p | e :: es => p ← track1 p e; track p es end.

Definition life_of (c : client) : life :=
  match state_ c with normal => Starting | connected | close_wait => Up | closed => Over end.

Definition fed_of (e : client_effect) : option bytes := match e with Fed m => Some m | _ => None end.

Definition feds (es : list client_effect) : list bytes := omap fed_of es.

Definition written (o : client_op) : option bytes := match o with CWrite d => Some d | _ => None end.

Definition writes (ops : list client_op) : list bytes := omap written ops.

Lemma client_track_app p es es' : track p (es ++ es') = p ← track p es; track p es'.
Proof. revert p. induction es as [|e es IH]; intros p; [done|]. cbn. destruct (track1 p e); [apply IH|done]. Qed.

(** A client that started is not seen starting again. *)
Lemma track_never_back p es : p <> Starting -> track p es <> Some Starting.
Proof.
  revert p. induction es as [|e es IH]; intros p Hp; [by intros [= E]|]. cbn. destruct (track1 p e) as [q|] eqn:E; [|done]. apply IH.
  destruct e as [[]| |], p; cbn in E; congruence.
Qed.

(** Effects that no handler hears. *)
Definition unheard (e : client_effect) : Prop :=
  match e with Socket (Insert _) | Socket (Erase _) | Send _ | Fed _ => True | _ => False end.

Lemma client_track_unheard p es : Forall unheard es -> track p es = Some p.
Proof. induction 1 as [|e es He _ IH]; [done|]. cbn. by destruct e as [[]| |]. Qed.

Lemma client_track_reads (ms : list bytes) : track Up ((fun m => Socket (HandRead cid m)) <$> ms) = Some Up.
Proof. by induction ms. Qed.

Lemma feds_reads (ms : list bytes) : feds ((fun m => Socket (HandRead cid m)) <$> ms) = [].
Proof. by induction ms. Qed.

Lemma feds_sends (ps : list bytes) : feds ((fun p => Send (make_kcp_data p)) <$> ps) = [].
Proof. by induction ps. Qed.

Lemma sends_unheard (ps : list bytes) : Forall unheard ((fun p => Send (make_kcp_data p)) <$> ps).
Proof. apply Forall_fmap, list.Forall_forall. done. Qed.

Lemma feds_fed (ms : list bytes) : feds (Fed <$> ms) = ms.
Proof. induction ms as [|m ms IH]; [done|]. cbn. by f_equal. Qed.

Lemma feds_unheard (ms : list bytes) : Forall unheard (Fed <$> ms).
Proof. apply Forall_fmap, list.Forall_forall. done. Qed.

Lemma feds_app es es' : feds (es ++ es') = feds es ++ feds es'.
Proof. apply omap_app. Qed.

(** * The invariant

    What the coroutines rely on. *)
Record shape (c : client) : Prop := {
  sh_kcp : state_ c = connected \/ state_ c = close_wait -> is_Some (kcp_ c);
  sh_update : is_Some (update_ c) -> is_Some (kcp_ c);
  sh_connect : is_Some (connect_ c) -> state_ c = normal \/ state_ c = closed;
  sh_listed : listed_ c = true <-> state_ c <> closed;
  sh_quiet : state_ c = normal -> reading_ c = None /\ deadline_ c = None /\ update_ c = None /\ closing_ c = None }.

(** Before it is connected everything written waits in the queue, while it is
    connected everything written was given to ikcp. *)
Record queued (fed ws : list bytes) (c : client) : Prop := {
  qu_normal : state_ c = normal -> fed = [] /\ write_deque_ c = ws;
  qu_connected : state_ c = connected -> mjoin fed = mjoin ws;
  qu_prefix : mjoin fed `prefix_of` mjoin ws }.

(** What has happened, with its effects, to a client. *)
Definition evolves (fed ws : list bytes) (c : client) (ws' : list bytes) (c' : client) (es : list client_effect) : Prop :=
  shape c' /\ queued (fed ++ feds es) ws' c' /\ track (life_of c) es = Some (life_of c').

Lemma queued_same fed ws c c' : state_ c' = state_ c -> write_deque_ c' = write_deque_ c -> queued fed ws c -> queued fed ws c'.
Proof. intros Es Ed [A1 A2 A3]. by split; rewrite ?Es, ?Ed. Qed.

(** A reader that ends, or one of a client that is connected. *)
Lemma shape_reading r c : shape c -> state_ c <> normal \/ r = None -> shape (set_reading r c).
Proof.
  intros [A1 A2 A3 A4 A5] Hr. split; cbn; auto. intros Hn. destruct (A5 Hn) as (_ & ? & ? & ?). split; [|done]. by destruct Hr.
Qed.

Lemma shape_deadline c : shape c -> shape (set_deadline None c).
Proof. intros [A1 A2 A3 A4 A5]. split; cbn; auto. intros Hn. by destruct (A5 Hn) as (? & _ & ? & ?). Qed.

Lemma shape_update c : shape c -> shape (set_update None c).
Proof. intros [A1 A2 A3 A4 A5]. split; cbn; auto; [by intros [? [=]]|]. intros Hn. by destruct (A5 Hn) as (? & ? & _ & ?). Qed.

Lemma shape_closing c : shape c -> shape (set_closing None c).
Proof. intros [A1 A2 A3 A4 A5]. split; cbn; auto. intros Hn. by destruct (A5 Hn) as (? & ? & ? & _). Qed.

(** Nothing that a handler hears of, the state and the queue are as before. *)
Lemma evolves_quiet fed ws c c' es :
  shape c' -> queued fed ws c -> state_ c' = state_ c -> write_deque_ c' = write_deque_ c -> Forall unheard es -> feds es = [] ->
  evolves fed ws c ws c' es.
Proof.
  intros Hs Hq Es Ed Hu Hf. split; [done|]. rewrite Hf, app_nil_r. split; [by apply (queued_same fed ws c)|].
  rewrite client_track_unheard by done. unfold life_of. by rewrite Es.
Qed.

Lemma client_evolves_trans fed ws c ws1 c1 es ws2 c2 es' :
  evolves fed ws c ws1 c1 es -> evolves (fed ++ feds es) ws1 c1 ws2 c2 es' -> evolves fed ws c ws2 c2 (es ++ es').
Proof.
  intros (_ & _ & H) (Hs & Hq & H'). split; [done|]. rewrite feds_app, (app_assoc (A := bytes)). split; [done|]. by rewrite client_track_app, H.
Qed.

Lemma stop_ok e c fed ws : shape c -> queued fed ws c -> evolves fed ws c ws (client_stop e c).1 (client_stop e c).2.
Proof.
  intros Hs Hq. unfold client_stop. case_decide as Hd; [by apply evolves_quiet|].
  split; [|split].
  - destruct Hs as [A1 A2 A3 A4 A5]. split; cbn; [by intros [?|?]|done|by right|split; [done|congruence]|done].
  - destruct Hq as [B1 B2 B3]. cbn. rewrite app_nil_r. by split.
  - cbn. unfold life_of. destruct (state_ c); done.
Qed.

(** [disconnect] is harmless when what was given to ikcp is a part. *)
Lemma disconnect_ok e c fed ws :
  shape c -> (state_ c <> connected -> queued fed ws c) -> mjoin fed `prefix_of` mjoin ws ->
  exists c' es, disconnect e c = Some (c', es) /\ evolves fed ws c ws c' es /\ kcp_ c' = kcp_ c /\ feds es = [] /\ state_ c' <> connected.
Proof.
  intros Hs Hq Hp. unfold disconnect. case_decide as Hd.
  - destruct (sh_kcp c Hs) as [k Ek]; [by left|]. rewrite Ek. cbn [mbind option_bind]. eexists _, _. split; [done|].
    split; [|split; [done|by split]]. split; [|split].
    + destruct Hs as [A1 A2 A3 A4 A5]. split; cbn; [by eexists|done| |by rewrite A4, Hd|done]. intros Hc. destruct (A3 Hc); congruence.
    + cbn. rewrite app_nil_r. by split.
    + cbn. unfold life_of. by rewrite Hd.
  - exists c, []. split; [done|]. split; [|done]. apply evolves_quiet; auto.
Qed.

Context `{!KcpLaws K}.

(** A message is given to ikcp in parts; when one is refused the rest is lost and
    the client disconnects. *)
Lemma write_base_ok data c fed ws :
  shape c -> state_ c = connected -> mjoin fed = mjoin ws -> zlen data < 2 ^ 31 ->
  exists ok c' es, write_base data c = Some (ok, c', es) /\ shape c' /\ track (life_of c) es = Some (life_of c') /\
    (if (ok : bool) then state_ c' = connected /\ mjoin (fed ++ feds es) = mjoin (ws ++ [data])
     else state_ c' <> connected /\ state_ c' <> normal /\ mjoin (fed ++ feds es) `prefix_of` mjoin (ws ++ [data])).
Proof.
  intros Hs Hc Hf Hz. unfold write_base. destruct (sh_kcp c Hs) as [k Ek]; [by left|]. rewrite Ek. cbn [mbind option_bind].
  destruct (send_data_ok data k Hz) as (sent & ok & k' & rest & -> & _ & Ed & _ & Hok).
  assert (shape (set_kcp k' c)) as Hs' by (destruct Hs; split; cbn; auto; by eexists).
  assert (mjoin (ws ++ [data]) = mjoin ws ++ data) as Ews by (rewrite join_app; cbn; by rewrite app_nil_r).
  destruct ok.
  - eexists _, _, _. split; [done|]. split; [done|]. split; [by rewrite client_track_unheard by apply feds_unheard|]. split; [done|].
    rewrite feds_fed, join_app, Ews, Hf. by rewrite Ed, Hok, app_nil_r by done.
  - destruct (disconnect_ok (socket_error kcp_protocol_error) (set_kcp k' c) (fed ++ sent) (ws ++ [data]) Hs') as (c' & es & -> & (Hs1 & Hq & Ht) & _ & Hfe & Hn).
    { by intros []. }
    { rewrite join_app, Ews, Hf, Ed. apply prefix_app, prefix_app_r. done. }
    cbn [mbind option_bind]. eexists _, _, _. split; [done|]. split; [done|]. split.
    { rewrite client_track_app, client_track_unheard by apply feds_unheard. exact Ht. }
    split; [done|]. assert (life_of c = Up) as Hup by (unfold life_of; by rewrite Hc). split.
    { intros E. unfold disconnect in Ht. unfold life_of in Ht at 2. rewrite E in Ht.
      change (life_of (set_kcp k' c)) with (life_of c) in Ht. rewrite Hup in Ht. by apply track_never_back in Ht. }
    rewrite feds_app, feds_fed, Hfe, app_nil_r. by apply qu_prefix in Hq; rewrite Hfe, app_nil_r in Hq.
Qed.

Definition small (d : bytes) : Prop := zlen d < 2 ^ 31.

Lemma flush_ok datas : forall c fed ws,
  shape c -> state_ c = connected -> mjoin fed = mjoin ws -> Forall small datas ->
  exists ok c' es, flush datas c = Some (ok, c', es) /\ shape c' /\ track (life_of c) es = Some (life_of c') /\
    (if (ok : bool) then state_ c' = connected /\ mjoin (fed ++ feds es) = mjoin (ws ++ datas)
     else state_ c' <> connected /\ state_ c' <> normal /\ mjoin (fed ++ feds es) `prefix_of` mjoin (ws ++ datas)).
Proof.
  induction datas as [|d datas IH]; intros c fed ws Hs Hc Hf Hall; cbn [flush].
  { exists true, c, []. rewrite !app_nil_r. by split_and!. }
  apply list.Forall_cons in Hall as [Hd Hall].
  destruct (write_base_ok d c fed ws Hs Hc Hf Hd) as (ok & c1 & es1 & -> & Hs1 & Ht1 & Hcase). cbn [mbind option_bind].
  replace (ws ++ d :: datas) with ((ws ++ [d]) ++ datas) by by rewrite <- (app_assoc (A := bytes)).
  destruct ok; destruct Hcase as [Hc1 Hf1].
  - destruct (IH c1 (fed ++ feds es1) (ws ++ [d]) Hs1 Hc1 Hf1 Hall) as (ok & c2 & es2 & -> & Hs2 & Ht2 & Hcase). cbn [mbind option_bind].
    exists ok, c2, (es1 ++ es2). split; [done|]. split; [done|]. split; [by rewrite client_track_app, Ht1|].
    by rewrite feds_app, (app_assoc (A := bytes)).
  - exists false, c1, es1. split; [done|]. split; [done|]. split; [done|]. split; [done|]. destruct Hf1 as [Hn Hp]. split; [done|].
    rewrite (join_app (ws ++ [d])). by apply prefix_app_r.
Qed.

Lemma client_watchdog_goes_on_ok x c fed ws :
  shape c -> state_ c <> normal -> queued fed ws c ->
  exists c' es, watchdog_goes_on x c = Some (c', es) /\ evolves fed ws c ws c' es /\ kcp_ c' = kcp_ c /\ feds es = [].
Proof.
  intros Hs Hn Hq. destruct x as [until|]; cbn [watchdog_goes_on].
  - exists (set_deadline (Some until) c), []. split; [done|]. split; [|done]. apply evolves_quiet; auto. destruct Hs. by split.
  - destruct (disconnect_ok (socket_error Network.kcp_heartbeat_timeout) (set_deadline None c) fed ws) as (c' & es & E & Hv & Ek & Hf & _).
    + destruct Hs. by split.
    + intros _. by apply (queued_same fed ws c).
    + apply Hq.
    + exists c', es. by split_and!.
Qed.

Lemma client_update_goes_on_ok next c fed ws es :
  shape c -> is_Some (kcp_ c) -> queued fed ws c -> Forall unheard es -> feds es = [] -> evolves fed ws c ws (update_goes_on next c) es.
Proof.
  intros Hs Hk Hq Hu Hf. apply evolves_quiet; auto. destruct Hs as [A1 A2 A3 A4 A5]. split; cbn; auto. intros Hn. rewrite decide_False by congruence.
  destruct (A5 Hn) as (? & ? & _ & ?). by split_and!.
Qed.

Lemma spawn_all_ok garbage now c fed ws :
  shape c -> state_ c = connected -> queued fed ws c -> exists c' es, spawn_all garbage now c = Some (c', es) /\ evolves fed ws c ws c' es.
Proof.
  intros Hs Hc Hq. destruct (sh_kcp c Hs) as [k Ek]; [by left|]. unfold spawn_all. set (c0 := set_reading (Some garbage) c).
  destruct (client_watchdog_goes_on_ok (watchdog_loop now (last_read_ c0) (last_write_ c0)) c0 fed ws) as (c1 & es & -> & Hv & Ek1 & Hf);
    [destruct Hs; split; cbn; auto; congruence|cbn; congruence|by apply (queued_same fed ws c)|].
  cbn [mbind option_bind]. rewrite Ek1. cbn [kcp_ c0 set_reading]. rewrite Ek. cbn [mbind option_bind]. eexists _, _. split; [done|].
  rewrite <- (app_nil_r es). eapply client_evolves_trans; [exact Hv|]. rewrite Hf, app_nil_r. destruct Hv as (Hs1 & Hq1 & _). rewrite Hf, app_nil_r in Hq1.
  apply client_update_goes_on_ok; auto. rewrite Ek1. by eexists.
Qed.

Lemma queued_connected fed ws c : state_ c = connected -> mjoin fed = mjoin ws -> queued fed ws c.
Proof. intros Hc Hf. split; [congruence|done|by rewrite Hf]. Qed.

Lemma connect_ack_ok datagram garbage garbage' now c fed ws :
  shape c -> queued fed ws c -> state_ c = normal -> connect_ c = None -> Forall small ws ->
  exists c' es, connect_ack datagram garbage garbage' now c = Some (c', es) /\ evolves fed ws c ws c' es.
Proof.
  intros Hs Hq Hn Hco Hall. unfold connect_ack. destruct (received datagram garbage) as [len data]. destruct (qu_normal _ _ _ Hq Hn) as [-> Ed].
  destruct (negb (magic_ok data) || negb (has_code code_connect_ack data)).
  { destruct (disconnect_ok (socket_error kcp_check_failed) c [] ws Hs) as (c' & es & E & Hv & _); [done|apply Hq|]. by exists c', es. }
  destruct (len <? kcp_head_size + 4).
  { pose proof (stop_ok (socket_error kcp_check_failed) c [] ws Hs Hq). destruct (client_stop _ c) as [c' es]. by exists c', es. }
  set (k := kcp_create_default (head_conv data)). set (c0 := set_state connected (set_kcp k c)).
  assert (shape c0) as Hs0.
  { destruct Hs as [A1 A2 A3 A4 A5]. split; cbn; [by eexists|by eexists|rewrite Hco; by intros [? ?]|rewrite A4, Hn; done|done]. }
  assert (write_deque_ c0 = ws) as -> by done.
  destruct (flush_ok ws c0 [] []) as (ok & c1 & es & -> & Hs1 & Ht1 & Hcase); [done..|]. cbn [mbind option_bind].
  assert (life_of c = Starting) as Hl by (unfold life_of; by rewrite Hn). cbn [app] in Hcase.
  destruct ok; destruct Hcase as [Hc1 Hf1].
  - assert (evolves [] ws c ws c1 (Socket (HandStart cid local) :: es)) as Hv1.
    { split; [done|]. split; [by apply queued_connected|]. cbn. rewrite Hl. cbn. exact Ht1. }
    match goal with |- context [spawn_all garbage' now ?x] => set (c2 := x) end.
    assert (shape c2 /\ state_ c2 = connected) as [Hs2 Hc2] by (unfold c2; destruct Hs1; case_decide; by split).
    destruct (spawn_all_ok garbage' now c2 ([] ++ feds (Socket (HandStart cid local) :: es)) ws) as (c3 & es' & -> & Hv3).
    { done. } { done. } { by apply queued_connected. }
    cbn [mbind option_bind]. eexists _, _. split; [done|]. eapply (client_evolves_trans _ _ _ ws c1); [exact Hv1|].
    destruct Hv3 as (? & ? & Ht3). split; [done|]. split; [done|]. rewrite <- Ht3. f_equal. unfold life_of. by rewrite Hc1, Hc2.
  - destruct Hf1 as [Hn1 Hp1]. eexists _, _. split; [done|]. split; [done|]. split; [by split|]. cbn. rewrite Hl. cbn. exact Ht1.
Qed.

Lemma connect_ok e datagram garbage garbage' now c fed ws :
  shape c -> queued fed ws c -> Forall small ws -> (connect_ c = Some Receiving -> state_ c = closed -> ec_true e = true) ->
  exists c' es, co_connect e datagram garbage garbage' now c = Some (c', es) /\ evolves fed ws c ws c' es.
Proof.
  intros Hs Hq Hall He. unfold co_connect. destruct (connect_ c) as [x|] eqn:Ex; [|exists c, []; split; [done|]; by apply evolves_quiet].
  pose proof (sh_connect c Hs) as Hst. rewrite Ex in Hst. specialize (Hst ltac:(by eexists)).
  assert (forall x', shape (set_connect x' c)) as Hsx by (intros x'; destruct Hs; by split).
  destruct (ec_true e).
  { pose proof (stop_ok e (set_connect None c) fed ws (Hsx None)) as Hv. destruct (client_stop e (set_connect None c)) as [c' es].
    exists c', es. split; [done|]. apply Hv. by apply (queued_same fed ws c). }
  destruct x; try (eexists _, _; split; [done|]; apply evolves_quiet; auto; by repeat constructor).
  destruct (connect_ack_ok datagram garbage garbage' now (set_connect None c) fed ws) as (c' & es & E & Hv); auto.
  { by apply (queued_same fed ws c). }
  { destruct Hst as [?|Hcl]; [done|]. by specialize (He eq_refl Hcl). }
  by exists c', es.
Qed.

Lemma timeout_ok e c fed ws : shape c -> queued fed ws c -> evolves fed ws c ws (co_timeout e c).1 (co_timeout e c).2.
Proof.
  intros Hs Hq. unfold co_timeout. destruct (timeout_ c); [|by apply evolves_quiet].
  assert (shape (set_timeout false c)) as Hs' by by destruct Hs. destruct (ec_true e); [by apply evolves_quiet|].
  apply (stop_ok timed_out (set_timeout false c) fed ws Hs'). by apply (queued_same fed ws c).
Qed.

Lemma client_write_ok data c fed ws :
  shape c -> queued fed ws c -> small data ->
  exists c' es, client_write data c = Some (c', es) /\ evolves fed ws c (ws ++ [data]) c' es.
Proof.
  intros Hs Hq Hd. unfold client_write. case_decide as Hc.
  - destruct (write_base_ok data c fed ws Hs Hc) as (ok & c1 & es & -> & Hs1 & Ht1 & Hcase); [by apply Hq|done|]. cbn [mbind option_bind].
    destruct ok; eexists _, _; (split; [done|]).
    + destruct Hcase as [Hc1 Hf1]. split; [by destruct Hs1|]. split; [by apply queued_connected|done].
    + destruct Hcase as (Hc1 & Hn1 & Hp1). split; [done|]. split; [by split|done].
  - eexists _, _. split; [done|]. destruct Hq as [B1 B2 B3]. split; [by destruct Hs|]. split; [|done]. cbn. rewrite app_nil_r. split; cbn.
    + intros Hn. destruct (B1 Hn) as [-> ->]. done.
    + done.
    + rewrite (join_app ws). by apply prefix_app_r.
Qed.

Lemma hand_read_ok packet len c fed ws :
  shape c -> queued fed ws c -> state_ c = connected ->
  exists ok c' es, hand_read_data packet len c = Some (ok, c', es) /\ evolves fed ws c ws c' es.
Proof.
  intros Hs Hq Hc. unfold hand_read_data. destruct (sh_kcp c Hs) as [k Ek]; [by left|]. rewrite Ek. cbn [mbind option_bind].
  assert (forall k', shape (set_kcp k' c)) as Hsk by (intros k'; destruct Hs; split; cbn; auto; by eexists).
  destruct (input_data packet len k) as [|k1|ms k1].
  - destruct (disconnect_ok (socket_error kcp_check_failed) c fed ws Hs) as (c' & es & -> & Hv & _); [done|apply Hq|]. by exists false, c', es.
  - destruct (disconnect_ok (socket_error kcp_protocol_error) (set_kcp k1 c) fed ws (Hsk k1)) as (c' & es & -> & Hv & _); [|apply Hq|].
    { intros _. by apply (queued_same fed ws c). }
    by exists false, c', es.
  - eexists _, _, _. split; [done|]. split; [by destruct (Hsk k1)|]. rewrite feds_reads, app_nil_r. split; [by apply (queued_same fed ws c)|].
    unfold life_of. cbn. rewrite Hc. apply client_track_reads.
Qed.

Lemma dispatch_ok data len now c fed ws :
  shape c -> queued fed ws c -> state_ c = connected ->
  exists c' es, dispatch data len now c = Some (c', es) /\ evolves fed ws c ws c' es.
Proof.
  intros Hs Hq Hc. unfold dispatch. destruct (sh_kcp c Hs) as [k Ek]; [by left|]. rewrite Ek. cbn [mbind option_bind].
  destruct (has_code code_disconnect data).
  { destruct (_ || _); [exists c, []; split; [done|]; by apply evolves_quiet|].
    destruct (disconnect_ok eof (set_reading None c) fed ws) as (c' & es & -> & Hv & _); [apply shape_reading; auto|by intros []|apply Hq|]. by exists c', es. }
  destruct (has_code code_heartbeat data).
  { eexists _, _. split; [done|]. apply evolves_quiet; auto; [by destruct Hs|by repeat constructor]. }
  destruct (has_code code_heartbeat_ack data).
  { eexists _, _. split; [done|]. apply evolves_quiet; auto. by destruct Hs. }
  destruct (has_code code_data data); [|exists c, []; split; [done|]; by apply evolves_quiet].
  destruct (hand_read_ok (zdrop kcp_head_size data) (len - kcp_head_size) c fed ws Hs Hq Hc) as (ok & c' & es & -> & Hv). cbn [mbind option_bind].
  eexists _, _. split; [done|]. destruct Hv as (Hs' & Hq' & Ht'). destruct ok; (split; [first [by destruct Hs'|apply shape_reading; auto]|]); (split; [by apply (queued_same _ _ c')|done]).
Qed.

Lemma client_read_ok e datagram now c fed ws :
  shape c -> queued fed ws c -> exists c' es, co_read e datagram now c = Some (c', es) /\ evolves fed ws c ws c' es.
Proof.
  intros Hs Hq. unfold co_read. destruct (reading_ c) as [b|]; [|exists c, []; split; [done|]; by apply evolves_quiet].
  assert (forall r, queued fed ws (set_reading r c)) as Hqr by (intros r; by apply (queued_same fed ws c)).
  destruct (if ec_true e then _ else _) as [len data]. case_decide as Hc; [eexists _, _; split; [done|]; apply evolves_quiet; auto using shape_reading|].
  assert (forall x, exists c' es, disconnect x (set_reading None c) = Some (c', es) /\ evolves fed ws c ws c' es) as Hd.
  { intros x. destruct (disconnect_ok x (set_reading None c) fed ws (shape_reading None c Hs (or_intror eq_refl))) as (c' & es & E & Hv & _); [done|apply Hq|]. by exists c', es. }
  destruct (ec_true e || _); [apply Hd|]. destruct (negb (magic_ok data)); [apply Hd|].
  apply (dispatch_ok data len now (set_reading (Some data) c) fed ws); auto. apply shape_reading; [done|]. left. congruence.
Qed.

Lemma client_watch_ok e now c fed ws :
  shape c -> queued fed ws c -> exists c' es, co_watchdog e now c = Some (c', es) /\ evolves fed ws c ws c' es.
Proof.
  intros Hs Hq. unfold co_watchdog. destruct (deadline_ c); [|exists c, []; split; [done|]; by apply evolves_quiet].
  destruct (ec_true e || bool_decide (state_ c <> connected)) eqn:Eb.
  { eexists _, _. split; [done|]. apply evolves_quiet; auto. by apply shape_deadline. }
  apply orb_false_iff in Eb as [_ Hc%bool_decide_eq_false%dec_stable]. destruct (sh_kcp c Hs) as [k Ek]; [by left|]. rewrite Ek. cbn [mbind option_bind].
  destruct (watchdog_woken now (last_read_ c) (last_write_ c)) as [[beat lw] x].
  destruct (client_watchdog_goes_on_ok x (set_last_write lw c) fed ws) as (c' & es & -> & Hv & _); [by destruct Hs|cbn; congruence|by apply (queued_same fed ws c)|].
  cbn [mbind option_bind]. eexists _, _. split; [done|].
  assert (evolves fed ws c ws (set_last_write lw c) (if (beat : bool) then [Send (make_kcp_ctrl code_heartbeat (kcp_conv k))] else [])) as Hb.
  { apply evolves_quiet; auto; [by destruct Hs|destruct beat; by repeat constructor|by destruct beat]. }
  eapply client_evolves_trans; [exact Hb|]. destruct beat; cbn; by rewrite app_nil_r.
Qed.

Lemma client_update_ok e now now' c fed ws :
  shape c -> queued fed ws c -> exists c' es, co_kcp_update e now now' c = Some (c', es) /\ evolves fed ws c ws c' es.
Proof.
  intros Hs Hq. unfold co_kcp_update. destruct (update_ c) as [next|] eqn:Eu; [|exists c, []; split; [done|]; by apply evolves_quiet].
  destruct (sh_update c Hs) as [k Ek]; [by rewrite Eu|].
  destruct (ec_true e); [eexists _, _; split; [done|]; apply evolves_quiet; auto; by apply shape_update|].
  destruct (_ || _); [|eexists _, _; split; [done|]; apply client_update_goes_on_ok; auto; by rewrite Ek].
  rewrite Ek. cbn [mbind option_bind]. destruct (ikcp_update (u32 now) k) as [k1 ps]. eexists _, _. split; [done|].
  match goal with |- evolves _ _ _ _ (update_goes_on _ ?x) _ => set (c1 := x) end.
  assert (shape c1 /\ state_ c1 = state_ c /\ write_deque_ c1 = write_deque_ c) as (Hs1 & E1 & E2).
  { unfold c1. destruct Hs, (decide (ps = [])); (split; [split; cbn; by eauto|done]). }
  assert (queued fed ws c1) as Hq1 by by apply (queued_same fed ws c).
  destruct (client_update_goes_on_ok (next_update now' k1) c1 fed ws ((fun p => Send (make_kcp_data p)) <$> ps) Hs1) as (? & ? & Ht); auto.
  { apply sends_unheard. } { apply feds_sends. }
  split; [done|]. split; [done|]. rewrite <- Ht. f_equal. unfold life_of. by rewrite E1.
Qed.

Lemma sent_ok c fed ws : shape c -> queued fed ws c -> evolves fed ws c ws (disconnect_sent c).1 (disconnect_sent c).2.
Proof.
  intros Hs Hq. unfold disconnect_sent. destruct (closing_ c) as [e|]; [|by apply evolves_quiet].
  apply (stop_ok e (set_closing None c) fed ws); [by apply shape_closing|by apply (queued_same fed ws c)].
Qed.

(** * Histories of a client *)

(** Messages have less than 2^31 bytes, and the answer of the server does not
    arrive well once the client was stopped. *)
Definition legal (c : client) (o : client_op) : Prop :=
  match o with
  | CConnect e _ _ _ _ => connect_ c = Some Receiving -> state_ c = closed -> ec_true e = true
  | CWrite d => small d
  | _ => True
  end.

Fixpoint legal_run (c : client) (ops : list client_op) : Prop :=
  match ops with
  | [] => True
  | o :: ops => legal c o /\ match client_step o c with Some (c, _) => legal_run c ops | None => True end
  end.

(** A message that comes after the stop does not matter. *)
Lemma queued_closed fed ws ws' c : state_ c = closed -> queued fed ws c -> queued fed (ws ++ ws') c.
Proof. intros Hc [_ _ H]. split; [congruence|congruence|]. rewrite (join_app ws). by apply prefix_app_r. Qed.

Lemma client_step_ok o c fed ws :
  shape c -> queued fed ws c -> Forall small ws -> legal c o ->
  exists c' es, client_step o c = Some (c', es) /\ evolves fed ws c (ws ++ writes [o]) c' es.
Proof.
  intros Hs Hq Hall Hl. assert (forall c' es, evolves fed ws c ws c' es -> evolves fed ws c (ws ++ []) c' es) as Hnil by (intros ? ?; by rewrite app_nil_r).
  destruct o as [e d g g' now|e|d|on| |e d now|e now|e now now'|]; cbn [client_step writes omap list_omap written]; cbn [legal] in Hl.
  - destruct (connect_ok e d g g' now c fed ws) as (c' & es & E & Hv); auto. exists c', es. auto.
  - pose proof (timeout_ok e c fed ws Hs Hq). destruct (co_timeout e c) as [c' es]. exists c', es. auto.
  - destruct (listed_ c) eqn:El; [by apply client_write_ok|]. exists c, []. split; [done|].
    split; [done|]. split; [|done]. cbn. rewrite app_nil_r. apply queued_closed; [|done].
    destruct (decide (state_ c = closed)) as [|Hn]; [done|]. apply (sh_listed c Hs) in Hn. congruence.
  - eexists _, _. split; [done|]. apply Hnil. destruct (listed_ c); [|by apply evolves_quiet]. unfold client_no_delay.
    destruct (kcp_ c) as [k|]; [|by apply evolves_quiet]. apply evolves_quiet; auto. destruct Hs. split; cbn; by eauto.
  - destruct (listed_ c); [|exists c, []; split; [done|]; apply Hnil; by apply evolves_quiet].
    pose proof (stop_ok (socket_error initiative_disconnect) c fed ws Hs Hq). destruct (client_stop _ c) as [c' es]. exists c', es. auto.
  - destruct (client_read_ok e d now c fed ws Hs Hq) as (c' & es & E & Hv). exists c', es. auto.
  - destruct (client_watch_ok e now c fed ws Hs Hq) as (c' & es & E & Hv). exists c', es. auto.
  - destruct (client_update_ok e now now' c fed ws Hs Hq) as (c' & es & E & Hv). exists c', es. auto.
  - pose proof (sent_ok c fed ws Hs Hq). destruct (disconnect_sent c) as [c' es]. exists c', es. auto.
Qed.

Lemma legal_small c o : legal c o -> Forall small (writes [o]).
Proof. destruct o; cbn; intros H; repeat constructor. exact H. Qed.

Lemma client_run_ok ops : forall c fed ws,
  shape c -> queued fed ws c -> Forall small ws -> legal_run c ops ->
  exists c' es, client_run ops c = Some (c', es) /\ evolves fed ws c (ws ++ writes ops) c' es.
Proof.
  induction ops as [|o ops IH]; intros c fed ws Hs Hq Hall Hl; cbn [client_run legal_run] in *.
  { exists c, []. split; [done|]. change (writes []) with (@nil bytes). rewrite app_nil_r. by apply evolves_quiet. }
  destruct Hl as [Ho Hl]. destruct (client_step_ok o c fed ws Hs Hq Hall Ho) as (c1 & es1 & E & Hv1). rewrite E in *. cbn [mbind option_bind].
  pose proof Hv1 as (Hs1 & Hq1 & _). destruct (IH c1 _ _ Hs1 Hq1) as (c' & es & -> & Hv); [|done|].
  { apply list.Forall_app. split; [done|]. by apply (legal_small c). }
  cbn [mbind option_bind]. exists c', (es1 ++ es). split; [done|].
  replace (ws ++ writes (o :: ops)) with ((ws ++ writes [o]) ++ writes ops); [by eapply client_evolves_trans|].
  rewrite <- (app_assoc (A := bytes)). f_equal. unfold writes. by rewrite <- omap_app.
Qed.

Definition client_started : client := (client_start client_new).1.

Lemma started_ok : shape client_started /\ queued [] [] client_started.
Proof. split; (split; cbn; try done); [by intros [?|?]|by left]. Qed.

Lemma client_history ops :
  legal_run client_started ops ->
  exists c es, client_run ops client_started = Some (c, es) /\ evolves [] [] client_started (writes ops) c es.
Proof. intros Hl. destruct started_ok as [Hs Hq]. by apply (client_run_ok ops client_started [] [] Hs Hq). Qed.

(** * Properties *)

(** However completions, waits and calls are interleaved, the handler of a client
    hears at most once that it started, reads only after that, and hears at most
    once that it stopped, with nothing behind; it is in the system's table until
    then. *)
Theorem kcp_client_in_order ops (Hlegal : legal_run client_started ops) :
  exists c es, client_run ops client_started = Some (c, es) /\ track Starting es = Some (life_of c) /\ (listed_ c = true <-> life_of c <> Over).
Proof.
  destruct (client_history ops Hlegal) as (c & es & E & Hs & _ & Ht). exists c, es. split; [done|]. split; [done|].
  rewrite (sh_listed c Hs). unfold life_of. by destruct (state_ c).
Qed.

(** C7: what is written is given to ikcp in the order of the calls, without a gap,
    whether it was written before the connection or after; nothing is given before
    the connection, and while there is one nothing waits. *)
Theorem kcp_client_feeds_in_order ops c es (Hlegal : legal_run client_started ops) (Hrun : client_run ops client_started = Some (c, es)) :
  mjoin (feds es) `prefix_of` mjoin (writes ops) /\
  (state_ c = connected -> mjoin (feds es) = mjoin (writes ops)) /\
  (state_ c = normal -> feds es = [] /\ write_deque_ c = writes ops).
Proof.
  destruct (client_history ops Hlegal) as (c' & es' & E & _ & [H1 H2 H3] & _). rewrite E in Hrun. injection Hrun as -> ->. done.
Qed.

(** Nothing will be heard unless the program closes the client. *)
Definition nobody_closes (o : client_op) : Prop :=
  match o with CClose => False | CTimeout e => ec_true e = true | CWrite d => small d | _ => True end.

(** [co_connect] has ended in a client that never connected. *)
Definition stranded (c : client) : Prop :=
  state_ c = normal /\ connect_ c = None /\ reading_ c = None /\ deadline_ c = None /\ update_ c = None /\ closing_ c = None.

Lemma stranded_step o c : stranded c -> nobody_closes o -> exists c', client_step o c = Some (c', []) /\ stranded c' /\ listed_ c' = listed_ c.
Proof.
  intros (E1 & E2 & E3 & E4 & E5 & E6) Ho.
  destruct o as [e d g g' now|e|d|on| |e d now|e now|e now now'|]; cbn in Ho; try done; cbn [client_step].
  - unfold co_connect. rewrite E2. by exists c.
  - unfold co_timeout. rewrite Ho. destruct (timeout_ c); [|by exists c]. by exists (set_timeout false c).
  - destruct (listed_ c) eqn:El; [|by exists c]. unfold client_write. rewrite decide_False by congruence. by exists (set_deque (write_deque_ c ++ [d]) c).
  - destruct (listed_ c) eqn:El; [|by exists c]. unfold client_no_delay. destruct (kcp_ c) as [k|]; [by exists (set_kcp (kcp_no_delay on k) c)|by exists c].
  - unfold co_read. rewrite E3. by exists c.
  - unfold co_watchdog. rewrite E4. by exists c.
  - unfold co_kcp_update. rewrite E5. by exists c.
  - unfold disconnect_sent. rewrite E6. by exists c.
Qed.

Lemma stranded_run ops : forall c, stranded c -> Forall nobody_closes ops -> exists c', client_run ops c = Some (c', []) /\ stranded c' /\ listed_ c' = listed_ c.
Proof.
  induction ops as [|o ops IH]; intros c Hc Hall; cbn [client_run]; [by exists c|]. apply list.Forall_cons in Hall as [Ho Hall].
  destruct (stranded_step o c Hc Ho) as (c1 & -> & Hc1 & El1). cbn [mbind option_bind]. destruct (IH c1 Hc1 Hall) as (c' & -> & Hc' & El').
  exists c'. split; [done|]. split; [done|congruence].
Qed.

(** C40: a server that answers the request with something else than the code of an
    acknowledgement strands the client: [disconnect] does nothing before the
    connection and the timeout is cancelled with the end of [co_connect]. The
    handler hears neither of a start nor of a stop, whatever follows short of a
    close by the program; the client stays in the table and takes messages that
    nobody sends. *)
Theorem bad_ack_strands_client ops c es datagram garbage garbage' now later
  (Hlegal : legal_run client_started ops) (Hrun : client_run ops client_started = Some (c, es))
  (Hwaits : connect_ c = Some Receiving) (Hopen : listed_ c = true)
  (Hbad : let data := (received datagram garbage).2 in magic_ok data && has_code code_connect_ack data = false)
  (Hlater : Forall nobody_closes later) :
  exists c', client_run (CConnect no_error datagram garbage garbage' now :: later) c = Some (c', []) /\ state_ c' = normal /\ listed_ c' = true.
Proof.
  destruct (client_history ops Hlegal) as (c0 & es0 & E & Hs & _). rewrite E in Hrun. injection Hrun as -> ->.
  assert (state_ c = normal) as Hn.
  { destruct (sh_connect c Hs) as [?|Hc]; [by rewrite Hwaits|done|]. by apply (sh_listed c Hs) in Hopen. }
  destruct (sh_quiet c Hs Hn) as (Q1 & Q2 & Q3 & Q4).
  assert (client_step (CConnect no_error datagram garbage garbage' now) c = Some (set_connect None c, [])) as Estep.
  { cbn [client_step]. unfold co_connect. rewrite Hwaits. cbn [ec_true]. change (ec_true no_error) with false. cbv iota.
    unfold connect_ack. cbn zeta in Hbad. destruct (received datagram garbage) as [len data]. cbn in Hbad.
    rewrite <- negb_andb, Hbad. cbn [negb]. unfold disconnect. cbn [set_connect state_]. by rewrite decide_False by congruence. }
  cbn [client_run]. rewrite Estep. cbn [mbind option_bind].
  destruct (stranded_run later (set_connect None c)) as (c' & -> & (Hn' & _) & El); [by split_and!|done|].
  cbn [mbind option_bind]. exists c'. split; [done|]. split; [done|]. by rewrite El.
Qed.
End client.

(** * Witnesses *)

(** A client connects, writes before and after, reads and is disconnected by the
    server; the ikcp is that of KcpServer.v. *)
Definition demo_ops : list client_op :=
  [CWrite [1; 2]; CConnect no_error [] [] [] 0; CConnect no_error [] [] [] 0; CConnect no_error [] [] [] 0;
   CConnect no_error (make_kcp_ctrl code_connect_ack 10) (zrep 470 0) (zrep 470 0) 100; CTimeout eof; CWrite [3];
   CUpdate no_error 110 111; CRead no_error (make_kcp_data (be_bytes 4 10 ++ zrep 20 0 ++ [7; 8])) 120].

Definition demo_end : list client_op := [CRead no_error (make_kcp_ctrl code_disconnect 10) 130; CSent; CWrite [4]; CWatch eof 130; CUpdate eof 130 130].

#[export] Instance client_legal_dec (c : client (K := plain_kcp)) o : Decision (legal c o).
Proof. destruct o; cbn [legal]; apply _. Defined.

#[export] Instance client_legal_run_dec cid local ops : forall c : client (K := plain_kcp), Decision (legal_run cid local c ops).
Proof.
  induction ops as [|o ops IH]; intros c; cbn [legal_run]; [left; done|].
  apply and_dec; [apply _|]. destruct (client_step cid local o c) as [[c' es]|]; [apply IH|left; done].
Defined.

Definition demo_start : client (K := plain_kcp) := client_started 11.

Lemma client_demo_legal : legal_run 11 [] demo_start (demo_ops ++ demo_end).
Proof. apply (bool_decide_unpack _). vm_compute. exact I. Qed.

Lemma client_demo_ops_legal : legal_run 11 [] demo_start demo_ops.
Proof. apply (bool_decide_unpack _). vm_compute. exact I. Qed.

Lemma client_demo_first_legal : legal_run 11 [] demo_start (firstn 4 demo_ops).
Proof. apply (bool_decide_unpack _). vm_compute. exact I. Qed.

Lemma kcp_client_in_order_witness :
  exists c es, client_run 11 [] (demo_ops ++ demo_end) demo_start = Some (c, es) /\ track Starting es = Some (life_of c) /\
    (listed_ c = true <-> life_of c <> Over).
Proof. exact (kcp_client_in_order 11 [] (demo_ops ++ demo_end) client_demo_legal). Defined.

(** Before the connection one message waits; with it both were given. *)
Lemma kcp_client_feeds_in_order_witness :
  exists c es, client_run 11 [] demo_ops demo_start = Some (c, es) /\ state_ c = connected /\ mjoin (feds es) = [1; 2; 3].
Proof.
  destruct (client_run 11 [] demo_ops demo_start) as [[c es]|] eqn:E; [|by vm_compute in E].
  assert (state_ c = connected) as Hc by (vm_compute in E; by injection E as <- <-).
  exists c, es. split; [done|]. split; [done|].
  exact (proj1 (proj2 (kcp_client_feeds_in_order 11 [] demo_ops c es client_demo_ops_legal E)) Hc).
Defined.

(** The server answers that it has no number left. *)
Lemma bad_ack_strands_client_witness :
  exists c es, client_run 11 [] (firstn 4 demo_ops) demo_start = Some (c, es) /\
    exists c', client_run 11 [] (CConnect no_error (make_kcp_ctrl code_disconnect 0) (zrep 470 0) (zrep 470 0) 100 :: [CTimeout eof; CWrite [3]]) c = Some (c', []) /\
      state_ c' = normal /\ listed_ c' = true.
Proof.
  destruct (client_run 11 [] (firstn 4 demo_ops) demo_start) as [[c es]|] eqn:E; [|by vm_compute in E].
  assert (connect_ c = Some Receiving /\ listed_ c = true) as [Hw Hl] by (vm_compute in E; by injection E as <- <-).
  exists c, es. split; [done|].
  apply (bad_ack_strands_client 11 [] (firstn 4 demo_ops) c es (make_kcp_ctrl code_disconnect 0) (zrep 470 0) (zrep 470 0) 100 [CTimeout eof; CWrite [3]]
    client_demo_first_legal E Hw Hl eq_refl).
  repeat constructor.
Defined.

(** A datagram of fewer than four bytes stops the client with an error code that
    says there was no error. *)
Example short_datagram_stops_without_error :
  ('(c, es) ← client_run 11 [] demo_ops demo_start; '(c, es) ← client_run 11 [] [CRead no_error [1; 2] 120; CSent] c; Some es) =
  Some [Send (make_kcp_ctrl code_disconnect 10); Socket (HandStop 11 no_error); Socket (Erase 11)].
Proof. vm_compute. reflexivity. Qed.

(** A start, a stop. *)
Definition announced (e : client_effect) : option bool :=
  match e with Socket (HandStart _ _) => Some true | Socket (HandStop _ _) => Some false | _ => None end.

Definition announcements (es : list client_effect) : list bool := omap announced es.

(** The answer has arrived when the program closes the client: the stop is
    announced, then the start, then a second stop. *)
Example start_after_stop :
  option_map (fun r => announcements r.2) (client_run 11 [] (firstn 4 demo_ops ++ [CClose; CConnect no_error (make_kcp_ctrl code_connect_ack 10) (zrep 470 0) (zrep 470 0) 100; CRead eof [] 101; CSent])
      demo_start) =
  Some [false; true; false].
Proof. vm_compute. reflexivity. Qed.
