(* ===== verification/Application.v ===== *)
(** The application (src/application/application.cpp, service_loader.cpp and
    application/service.hpp in src/runtime): its configuration, the services it
    loads from dynamic libraries, the turns in which they are updated, and the
    callbacks of the messages. Starting and joining the threads are the
    operating system's; waiting for frames is in Frames.v. *)

From Stdlib Require Import (notations) String.
From stdpp Require Import gmap sorting.
From S2P Require Import Prelude Stream Toml ParallelTask.

(** What a function throws. *)
Inductive error := load_failed | service_need (api : bytes) | service_repeated (id : Z) | bad_type.

(** * Loading libraries

    [service_load] is [dlopen], [service_api] [dlsym]; [None] is a null pointer.
    What is opened and closed is the trace of an operation. *)

Section loader.
Context {handle symbol : Type} (service_load : bytes -> option handle) (service_api : handle -> bytes -> option symbol).

Record service_dll := ServiceDll { create_ : symbol; release_ : symbol; handle_ : handle }.

Record service_loader := ServiceLoader { path_ : list bytes; service_dll_map_ : gmap bytes service_dll }.

Inductive library_call := Opened (h : handle) | Closed (h : handle).

Definition loader_new : service_loader := ServiceLoader [] ∅.

Definition add_path (p : bytes) (l : service_loader) : service_loader := ServiceLoader (path_ l ++ [p]) (service_dll_map_ l).

(** The file that a path names: its first question mark stands for the name. *)
Definition candidate (name p : bytes) : option bytes :=
  '(pos, _) ← list_find (fun c => c = 63) p; Some (take pos p ++ name ++ drop (S pos) p).

Fixpoint load_first (name : bytes) (paths : list bytes) : option handle :=
  match paths with
  | [] => None
  | p :: paths =>
    match file ← candidate name p; service_load file with
    | Some h => Some h
    | None => load_first name paths
    end
  end.

Definition create_name (name : bytes) : bytes := name ++ str "_create".
Definition release_name (name : bytes) : bytes := name ++ str "_release".

(** A library that lacks a function is closed by the destructor of [service_dll]. *)
Definition query (name : bytes) (l : service_loader) : (service_dll + error) * service_loader * list library_call :=
  match service_dll_map_ l !! name with
  | Some d => (inl d, l, [])
  | None =>
    let l := if decide (path_ l = []) then add_path (str "./?.so") l else l in
    match load_first name (path_ l) with
    | None => (inr load_failed, l, [])
    | Some h =>
      match service_api h (create_name name), service_api h (release_name name) with
      | None, _ => (inr (service_need (create_name name)), l, [Opened h; Closed h])
      | _, None => (inr (service_need (release_name name)), l, [Opened h; Closed h])
      | Some c, Some r =>
        (inl (ServiceDll c r h), ServiceLoader (path_ l) (<[name := ServiceDll c r h]> (service_dll_map_ l)), [Opened h])
      end
    end
  end.
End loader.

Arguments service_dll : clear implicits.
Arguments service_loader : clear implicits.
Arguments library_call : clear implicits.

(** * Services *)

(** [service]; what its class adds is [object_]. *)
Record service (object : Type) := Service {
  name_ : bytes; type_ : bytes; service_order : Z; id_ : Z; current_ : Z; interval_ : Z; object_ : object }.

Arguments Service {object}.
Arguments name_ {object}.
Arguments type_ {object}.
Arguments service_order {object}.
Arguments id_ {object}.
Arguments current_ {object}.
Arguments interval_ {object}.
Arguments object_ {object}.

Definition set_current {object} (c : Z) (s : service object) : service object :=
  Service (name_ s) (type_ s) (service_order s) (id_ s) c (interval_ s) (object_ s).

Definition need_update {object} (s : service object) : bool * service object :=
  if interval_ s =? 0 then (false, s)
  else
    let c := u64 (current_ s + 1) in
    if c <? interval_ s then (false, set_current c s) else (true, set_current 0 s).

Section application.
Context {handle symbol object : Type}.
Context (service_load : bytes -> option handle) (service_api : handle -> bytes -> option symbol).
(** The creating function of a library, with a null argument when the table has none. *)
Context (create : symbol -> option toml -> object).
(** [std::ranges::sort] by a key. *)
Context (sort_by : (nat -> Z) -> list nat -> list nat).

(** [service_map_], [service_sort_], the services that the pointers in both are
    the numbers of, and the loader. *)
Record application := App {
  service_map_ : gmap Z nat; service_sort_ : list nat; services : gmap nat (service object); loader : service_loader handle symbol }.

Definition app_new (l : service_loader handle symbol) : application := App ∅ [] ∅ l.

Definition contains_service (id : Z) (a : application) : bool := bool_decide (is_Some (service_map_ a !! id)).

(** The service a table describes, made with a library. *)
Definition make_service (name tp : bytes) (id : Z) (config : table) (d : service_dll handle symbol) : service object :=
  let made := create (create_ d) (table_find (str "args") config) in
  Service name tp (u32 (default 0 (find_integer (str "order") config))) id 0
    (u64 (default 0 (find_integer (str "interval") config))) made.

Definition insert_service (s : service object) (a : application) : application :=
  let p := fresh (dom (services a)) in
  App (<[id_ s := p]> (service_map_ a)) (service_sort_ a ++ [p]) (<[p := s]> (services a)) (loader a).

(** A turn of the loop of [load_services]; [Some e] when it throws. *)
Definition load_service (value : toml) (a : application) : application * option error :=
  match value with
  | toml_table config =>
    match find_string (str "name") config, find_integer (str "id") config with
    | Some name, Some n =>
      let id := u16 n in
      if contains_service id a then (a, Some (service_repeated id))
      else
        match find_string (str "type") config with
        | None => (a, None)
        | Some tp =>
          let '(d, l, _) := query service_load service_api tp (loader a) in
          let a := App (service_map_ a) (service_sort_ a) (services a) l in
          match d with
          | inr e => (a, Some e)
          | inl d => (insert_service (make_service name tp id config d) a, None)
          end
        end
    | _, _ => (a, None)
    end
  | _ => (a, None)
  end.

Fixpoint load_each (values : list toml) (a : application) : application * option error :=
  match values with
  | [] => (a, None)
  | v :: values => let '(a, e) := load_service v a in match e with Some e => (a, Some e) | None => load_each values a end
  end.

Definition order_of (a : application) (p : nat) : Z := match services a !! p with Some s => service_order s | None => 0 end.

Definition load_services (root : table) (a : application) : application * option error :=
  match find_array (str "services") root with
  | None => (a, None)
  | Some [] => (a, None)
  | Some values =>
    let '(a, e) := load_each values a in
    match e with
    | Some e => (a, Some e)
    | None => (App (service_map_ a) (sort_by (order_of a) (service_sort_ a)) (services a) (loader a), None)
    end
  end.

(** [release_services]: the services released, with the function that does it. *)
Fixpoint release_each (ps : list nat) (a : application) : option (application * list (symbol * nat) * option error) :=
  match ps with
  | [] => Some (a, [], None)
  | p :: ps =>
    s ← services a !! p;
    let '(d, l, _) := query service_load service_api (type_ s) (loader a) in
    match d with
    | inr e => Some (App (service_map_ a) (service_sort_ a) (services a) l, [], Some e)
    | inl d =>
      '(a, released, e) ← release_each ps (App (service_map_ a) (service_sort_ a) (delete p (services a)) l);
      Some (a, (release_ d, p) :: released, e)
    end
  end.

Definition release_services (a : application) : option (application * list (symbol * nat) * option error) :=
  '(a, released, e) ← release_each (service_sort_ a) a;
  Some (match e with Some _ => a | None => App ∅ [] (services a) (loader a) end, released, e).

(** ** Starting and updating the services *)

(** The loops of [awake_services] and [update_frame] over the results of
    [when_ready]: the first exception is thrown again, under the name of the
    service at its place. *)
Definition first_failure {T X : Type} (ps : list nat) (results : list (result T X)) : option (option nat * X) :=
  '(i, r) ← list_find (fun r => is_exception r = true) results;
  match r with Exception e => Some (ps !! i, e) | Value _ => None end.

(** The services that are updated in this turn. *)
Fixpoint collect_updates (ps : list nat) (m : gmap nat (service object)) : option (list nat * gmap nat (service object)) :=
  match ps with
  | [] => Some ([], m)
  | p :: ps =>
    s ← m !! p;
    let (b, s) := need_update s in
    '(updated, m) ← collect_updates ps (<[p := s]> m);
    Some (if (b : bool) then p :: updated else updated, m)
  end.

Definition update_turn (a : application) : option (list nat * application) :=
  '(updated, m) ← collect_updates (service_sort_ a) (services a);
  Some (updated, App (service_map_ a) (service_sort_ a) m (loader a)).

(** Turns without a failure: which services each updates. *)
Fixpoint update_turns (n : nat) (a : application) : option (list (list nat) * application) :=
  match n with
  | O => Some ([], a)
  | S n => '(updated, a) ← update_turn a; '(rest, a) ← update_turns n a; Some (updated :: rest, a)
  end.
End application.

Arguments application : clear implicits.

(** * Callbacks of the messages

    A callback is whatever is called with the message; the order in which a map
    is iterated is an argument. *)

Section callbacks.
Context {callback : Type}.

Abbreviation callbacks := (gmap Z (gmap nat callback)).

(** [operator[]] makes the entry; [emplace] keeps one that is there. *)
Definition register_message_callback (id : Z) (service : nat) (f : callback) (m : callbacks) : callbacks :=
  let inner := default ∅ (m !! id) in
  <[id := match inner !! service with Some _ => inner | None => <[service := f]> inner end]> m.

Definition deregister_message_callback (id : Z) (service : nat) (m : callbacks) : callbacks :=
  match m !! id with
  | None => m
  | Some inner =>
    match inner !! service with
    | None => m
    | Some _ =>
      let inner := delete service inner in
      if decide (inner = ∅) then delete id m else <[id := inner]> m
    end
  end.

(** The callbacks that [forward_message] starts. *)
Definition forward_message (id : Z) (order : list nat) (m : callbacks) : list (nat * callback) :=
  match m !! id with
  | None => []
  | Some inner => omap (fun s => f ← inner !! s; Some (s, f)) order
  end.
End callbacks.

(** * Configuration *)

Record start_config := StartConfig {
  log_config : option bytes; frame_interval_ : Z; thread_pool_num : Z; service_path : list bytes }.

(** [as_string] throws for another type. *)
Fixpoint read_paths (values : list toml) : list bytes + error :=
  match values with
  | [] => inl []
  | toml_string p :: values => match read_paths values with inl ps => inl (p :: ps) | inr e => inr e end
  | _ :: _ => inr bad_type
  end.

(** What [start] reads before it loads the services. *)
Definition read_config (root : table) : start_config + error :=
  match read_paths (default [] (find_array (str "service_path") root)) with
  | inr e => inr e
  | inl paths =>
    inl (StartConfig (find_string (str "log_config") root) (default 500 (find_integer (str "frame_interval") root))
      (u64 (default 1 (find_integer (str "thread_pool_num") root))) paths)
  end.

(** * The loader *)

Section loader_theory.
Context {handle symbol : Type} (service_load : bytes -> option handle) (service_api : handle -> bytes -> option symbol).
Implicit Types (l : service_loader handle symbol).

(** The libraries that the loader keeps. *)
Definition kept l : list handle := (fun kv => handle_ kv.2) <$> map_to_list (service_dll_map_ l).

Definition opened (tr : list (library_call handle)) : list handle := omap (fun c => match c with Opened h => Some h | _ => None end) tr.
Definition closed (tr : list (library_call handle)) : list handle := omap (fun c => match c with Closed h => Some h | _ => None end) tr.

(** Every library in the table has the two functions under its name. *)
Definition loader_ok l : Prop :=
  forall name d, service_dll_map_ l !! name = Some d ->
    service_api (handle_ d) (create_name name) = Some (create_ d) /\ service_api (handle_ d) (release_name name) = Some (release_ d).

Fixpoint query_all (names : list bytes) l : service_loader handle symbol * list (library_call handle) :=
  match names with
  | [] => (l, [])
  | name :: names =>
    let '(_, l, tr) := query service_load service_api name l in
    let '(l, tr') := query_all names l in (l, tr ++ tr')
  end.

(** A library that is found is in the table afterwards, and the table grows. *)
Lemma query_ok name l d l' tr :
  loader_ok l -> query service_load service_api name l = (d, l', tr) ->
  loader_ok l' /\ (forall n x, service_dll_map_ l !! n = Some x -> service_dll_map_ l' !! n = Some x) /\
  (forall x, d = inl x -> service_dll_map_ l' !! name = Some x).
Proof.
  intros Hl. unfold query. destruct (service_dll_map_ l !! name) as [x|] eqn:E.
  { intros [= <- <- <-]. split; [done|]. split; [done|]. by intros x' [= <-]. }
  set (l1 := if decide (path_ l = []) then _ else _). assert (service_dll_map_ l1 = service_dll_map_ l) as Em by (unfold l1; by case_decide).
  assert (loader_ok l1) as Hl1 by (intros n x Hx; rewrite Em in Hx; by apply Hl).
  destruct (load_first service_load name (path_ l1)) as [h|]; [|intros [= <- <- <-]; rewrite Em; by split_and!].
  destruct (service_api h (create_name name)) as [c|] eqn:Ec, (service_api h (release_name name)) as [r|] eqn:Er;
    intros [= <- <- <-]; cbn; rewrite ?Em; split_and!; try done.
  - intros n x Hx. cbn in Hx. apply lookup_insert_Some in Hx as [[<- <-]|[_ Hx]]; [done|]. by apply Hl.
  - intros n x Hx. rewrite lookup_insert_ne; [done|]. congruence.
  - intros x [= <-]. apply lookup_insert_eq.
Qed.

(** What is opened is kept or closed. *)
Lemma query_handles name l d l' tr :
  query service_load service_api name l = (d, l', tr) -> kept l ++ opened tr ≡ₚ kept l' ++ closed tr.
Proof.
  unfold query, kept. destruct (service_dll_map_ l !! name) as [x|] eqn:E; [by intros [= <- <- <-]|].
  set (l1 := if decide (path_ l = []) then _ else _). assert (service_dll_map_ l1 = service_dll_map_ l) as Em by (unfold l1; by case_decide).
  destruct (load_first service_load name (path_ l1)) as [h|]; [|intros [= <- <- <-]; by rewrite Em].
  destruct (service_api h (create_name name)) as [c|], (service_api h (release_name name)) as [r|];
    intros [= <- <- <-]; cbn; rewrite ?Em; try done.
  rewrite map_to_list_insert by done. cbn. rewrite app_nil_r. symmetry. apply Permutation_cons_append.
Qed.
End loader_theory.

(** * What is loaded *)

Section load_theory.
Context {handle symbol object : Type}.
Context (service_load : bytes -> option handle) (service_api : handle -> bytes -> option symbol).
Context (create : symbol -> option toml -> object) (sort_by : (nat -> Z) -> list nat -> list nat).

Implicit Types (a : application handle symbol object) (s : service object).

(** The maps of an application agree: a pointer in [service_map_] is that of the
    service with this number, and [service_sort_] has every service once. *)
Record application_ok a : Prop := {
  ap_map id p : service_map_ a !! id = Some p <-> exists s, services a !! p = Some s /\ id_ s = id;
  ap_once : NoDup (service_sort_ a);
  ap_sort p : p ∈ service_sort_ a <-> is_Some (services a !! p);
  ap_word p s : services a !! p = Some s -> is_u16 (id_ s) /\ is_u32 (service_order s) /\ is_u64 (interval_ s);
  ap_current p s : services a !! p = Some s -> current_ s = 0;
  ap_loader : loader_ok service_api (loader a);
  ap_type p s : services a !! p = Some s -> is_Some (service_dll_map_ (loader a) !! type_ s) }.

(** What a value of the array [services] asks for. *)
Record description := Description { d_name : bytes; d_type : bytes; d_id : Z; d_order : Z; d_interval : Z }.

Definition described (v : toml) : option description :=
  match v with
  | toml_table config =>
    name ← find_string (str "name") config; n ← find_integer (str "id") config; tp ← find_string (str "type") config;
    Some (Description name tp (u16 n) (u32 (default 0 (find_integer (str "order") config))) (u64 (default 0 (find_integer (str "interval") config))))
  | _ => None
  end.

Definition description_of s : description := Description (name_ s) (type_ s) (id_ s) (service_order s) (interval_ s).

Lemma app_new_ok l : loader_ok service_api l -> application_ok (app_new (object := object) l).
Proof.
  intros Hl. split; cbn; try done.
  - intros id p. rewrite !lookup_empty. split; [done|]. by intros (s & Hs & _).
  - constructor.
  - intros p. rewrite lookup_empty. split; [by intros ?%elem_of_nil|by intros [? ?]].
Qed.

(** A new service. *)
Lemma insert_service_ok a s :
  application_ok a -> service_map_ a !! id_ s = None -> is_u16 (id_ s) -> is_u32 (service_order s) -> is_u64 (interval_ s) ->
  current_ s = 0 -> is_Some (service_dll_map_ (loader a) !! type_ s) -> application_ok (insert_service s a).
Proof.
  intros [A1 A2 A3 A4 A7 A5 A6] Hid H16 H32 H64 H0 Ht. unfold insert_service.
  assert (services a !! fresh (dom (services a)) = None) as Hp by apply not_elem_of_dom, is_fresh.
  set (p := fresh (dom (services a))) in *. split; cbn; try done.
  - intros id q. rewrite lookup_insert_Some, A1. split.
    + intros [[<- <-]|[Hne (s' & Hs' & E)]]; [exists s; by rewrite lookup_insert_eq|]. exists s'. rewrite lookup_insert_ne by congruence. done.
    + intros (s' & [[<- <-]|[Hq Hs']]%lookup_insert_Some & <-); [by left|]. right. split; [|by exists s'].
      intros E. assert (service_map_ a !! id_ s = Some q) by (rewrite E; apply A1; by exists s'). congruence.
  - apply list.NoDup_app. split; [done|]. split; [|apply NoDup_singleton]. intros q Hq ->%list_elem_of_singleton.
    apply A3 in Hq. rewrite Hp in Hq. by destruct Hq.
  - intros q. rewrite list.elem_of_app, list_elem_of_singleton, lookup_insert_is_Some', A3. split; intros [?|?]; auto.
  - intros q s' [[_ <-]|[_ Hs']]%lookup_insert_Some; [done|by apply (A4 q)].
  - intros q s' [[_ <-]|[_ Hs']]%lookup_insert_Some; [done|by apply (A7 q)].
  - intros q s' [[_ <-]|[_ Hs']]%lookup_insert_Some; [done|by apply (A6 q)].
Qed.

(** The services in the order in which they were loaded. *)
Definition loaded a : list description := omap (fun p => description_of <$> services a !! p) (service_sort_ a).

Lemma loaded_insert a s : application_ok a -> loaded (insert_service s a) = loaded a ++ [description_of s].
Proof.
  intros Ha. unfold loaded, insert_service. cbn. rewrite omap_app. f_equal.
  - apply list_omap_ext, Forall_Forall2_diag, list.Forall_forall. intros p Hp. cbn. apply (ap_sort _ Ha) in Hp.
    rewrite lookup_insert_ne; [done|]. intros <-. apply elem_of_dom in Hp. by apply is_fresh in Hp.
  - cbn. by rewrite lookup_insert_eq.
Qed.

Lemma load_service_ok v a a' :
  application_ok a -> load_service service_load service_api create v a = (a', None) ->
  application_ok a' /\ loaded a' = loaded a ++ option_list (described v).
Proof.
  intros Ha. unfold load_service, described. destruct v as [| | | |config]; try (intros [= <-]; by rewrite app_nil_r).
  destruct (find_string (str "name") config) as [name|]; [|intros [= <-]; by rewrite app_nil_r].
  destruct (find_integer (str "id") config) as [n|]; [|intros [= <-]; by rewrite app_nil_r].
  unfold contains_service. case_bool_decide as Hc; [done|].
  destruct (find_string (str "type") config) as [tp|]; [|intros [= <-]; by rewrite app_nil_r].
  destruct (query service_load service_api tp (loader a)) as [[d l] tr] eqn:Eq. destruct d as [d|e]; [|done]. intros [= <-].
  destruct (query_ok _ _ _ _ _ _ _ (ap_loader _ Ha) Eq) as (Hl & Hmore & Hd).
  assert (application_ok (App (service_map_ a) (service_sort_ a) (services a) l)) as Ha1.
  { destruct Ha as [A1 A2 A3 A4 A7 A5 A6]. split; try done. cbn. intros p s Hs. destruct (A6 p s Hs) as [x Hx]. exists x. by apply Hmore. }
  split.
  - apply insert_service_ok; cbn; [done|by apply eq_None_not_Some|apply u16_range|apply u32_range|apply u64_range|done|]. exists d. by apply Hd.
  - by rewrite loaded_insert.
Qed.

Lemma load_each_ok values : forall a a',
  application_ok a -> load_each service_load service_api create values a = (a', None) ->
  application_ok a' /\ loaded a' = loaded a ++ omap described values.
Proof.
  induction values as [|v values IH]; intros a a' Ha; cbn [load_each]; [intros [= <-]; by rewrite app_nil_r|].
  destruct (load_service _ _ _ v a) as [a1 e] eqn:E. destruct e; [done|]. intros E'.
  destruct (load_service_ok v a a1 Ha E) as [Ha1 El1]. destruct (IH a1 a' Ha1 E') as [Ha' El]. split; [done|].
  rewrite El, El1, <- app_assoc. cbn. by destruct (described v).
Qed.

(** ** Releasing *)

Definition release_of a (p : nat) : option (symbol * nat) :=
  s ← services a !! p; d ← service_dll_map_ (loader a) !! type_ s; Some (release_ d, p).

Lemma query_cached name (l : service_loader handle symbol) d :
  service_dll_map_ l !! name = Some d -> query service_load service_api name l = (inl d, l, []).
Proof. intros E. unfold query. by rewrite E. Qed.

Lemma release_each_ok ps : forall a,
  (forall p, p ∈ ps -> exists s d, services a !! p = Some s /\ service_dll_map_ (loader a) !! type_ s = Some d) -> NoDup ps ->
  exists a', release_each service_load service_api ps a = Some (a', omap (release_of a) ps, None) /\ loader a' = loader a /\
    forall p, services a' !! p = if decide (p ∈ ps) then None else services a !! p.
Proof.
  induction ps as [|p ps IH]; intros a Hps Hnd; cbn [release_each].
  { exists a. split; [done|]. split; [done|]. intros p. rewrite decide_False; [done|]. by intros ?%elem_of_nil. }
  apply list.NoDup_cons in Hnd as [Hp Hnd]. destruct (Hps p) as (s & d & Hs & Hd); [apply list_elem_of_here|].
  rewrite Hs. cbn [mbind option_bind]. rewrite (query_cached _ _ _ Hd). set (a1 := App _ _ _ _).
  assert (forall q, q ∈ ps -> services a1 !! q = services a !! q) as Hq.
  { intros q Hq. unfold a1. cbn. rewrite lookup_delete_ne; [done|]. by intros ->. }
  destruct (IH a1) as (a' & -> & El & Ha'); [|done|].
  { intros q Hin. rewrite (Hq q Hin). apply Hps. by apply list_elem_of_further. }
  exists a'. cbn [mbind option_bind omap list_omap]. unfold release_of at 2. rewrite Hs. cbn [mbind option_bind]. rewrite Hd. cbn [mbind option_bind].
  split; [|split; [done|]].
  - do 4 f_equal. apply list_omap_ext, Forall_Forall2_diag, list.Forall_forall. intros q Hin. unfold release_of. by rewrite Hq.
  - intros q. rewrite Ha'. destruct (decide (q ∈ ps)) as [Hin|Hout]; [by rewrite decide_True by (by apply list_elem_of_further)|].
    unfold a1. cbn. destruct (decide (q = p)) as [->|Hne].
    + by rewrite lookup_delete_eq, decide_True by apply list_elem_of_here.
    + rewrite lookup_delete_ne by done. rewrite decide_False; [done|]. by intros [?|?]%elem_of_cons.
Qed.

(** ** Updating *)

(** Where the counter of a service stands after [n] turns. *)
Definition counts (n : Z) s : Prop := if interval_ s =? 0 then True else current_ s = n mod interval_ s.

Definition due (n : Z) s : bool := negb (interval_ s =? 0) && (n mod interval_ s =? 0).

Lemma need_update_ok n s :
  0 <= n -> is_u64 (interval_ s) -> counts n s ->
  (need_update s).1 = due (n + 1) s /\ counts (n + 1) (need_update s).2 /\ interval_ (need_update s).2 = interval_ s.
Proof.
  unfold counts, due, need_update, is_u64. intros Hn Hw. destruct (Z.eqb_spec (interval_ s) 0) as [E|E]; cbn.
  { intros _. by rewrite E. }
  intros Hc. pose proof (Z.mod_pos_bound n (interval_ s)). rewrite Hc, u64_small by (unfold is_u64; lia).
  assert ((n + 1) mod interval_ s = if n mod interval_ s + 1 <? interval_ s then n mod interval_ s + 1 else 0) as Em.
  { destruct (Z.ltb_spec (n mod interval_ s + 1) (interval_ s)).
    - symmetry. apply (Z.mod_unique _ _ (n / interval_ s)); [lia|]. pose proof (Z.div_mod n (interval_ s)). lia.
    - symmetry. apply (Z.mod_unique _ _ (n / interval_ s + 1)); [lia|]. pose proof (Z.div_mod n (interval_ s)). lia. }
  destruct (Z.ltb_spec (n mod interval_ s + 1) (interval_ s)); cbn; rewrite (proj2 (Z.eqb_neq _ _) E), Em.
  - split; [|done]. symmetry. apply Z.eqb_neq. pose proof (Z.mod_pos_bound n (interval_ s)). lia.
  - done.
Qed.

Definition due_at (n : Z) (m : gmap nat (service object)) (p : nat) : bool :=
  match m !! p with Some s => due n s | None => false end.

(** The loop over the services. *)
Lemma collect_updates_ok n ps : forall m,
  0 <= n -> NoDup ps -> (forall p, p ∈ ps -> exists s, m !! p = Some s /\ is_u64 (interval_ s) /\ counts n s) ->
  exists m', collect_updates ps m = Some (filter (fun p => due_at (n + 1) m p = true) ps, m') /\
    (forall p, p ∉ ps -> m' !! p = m !! p) /\
    (forall p s, p ∈ ps -> m !! p = Some s -> exists s', m' !! p = Some s' /\ interval_ s' = interval_ s /\ counts (n + 1) s').
Proof.
  induction ps as [|p ps IH]; intros m Hn Hnd Hps; cbn [collect_updates].
  { exists m. split; [done|]. split; [done|]. by intros p s ?%elem_of_nil. }
  apply list.NoDup_cons in Hnd as [Hp Hnd]. destruct (Hps p) as (s & Hs & Hw & Hc); [apply list_elem_of_here|].
  destruct (need_update_ok n s Hn Hw Hc) as (Hb & Hc' & Hi). rewrite Hs. cbn [mbind option_bind].
  destruct (need_update s) as [b s'] eqn:E. cbn in Hb, Hc', Hi.
  assert (forall q, q ∈ ps -> <[p := s']> m !! q = m !! q) as Hq by (intros q Hq; apply lookup_insert_ne; intros ->; done).
  destruct (IH (<[p := s']> m)) as (m' & -> & Hout & Hin); [done..| |].
  { intros q Hin. rewrite Hq by done. apply Hps. by apply list_elem_of_further. }
  exists m'. cbn [mbind option_bind]. split; [|split].
  - rewrite list.filter_cons. do 2 f_equal.
    assert (filter (fun q => due_at (n + 1) (<[p := s']> m) q = true) ps = filter (fun q => due_at (n + 1) m q = true) ps) as ->.
    { apply filter_ext_in. intros q Hin'. unfold due_at. by rewrite Hq. }
    assert (due_at (n + 1) m p = b) as Ed by (unfold due_at; by rewrite Hs, Hb). destruct b; case_decide; congruence.
  - intros q Hq'. rewrite Hout by (intros ?; apply Hq'; by apply list_elem_of_further). apply lookup_insert_ne.
    intros ->. apply Hq', list_elem_of_here.
  - intros q sq [->|Hq']%elem_of_cons Hsq.
    + rewrite Hout by done. rewrite lookup_insert_eq. rewrite Hs in Hsq. injection Hsq as <-. by exists s'.
    + apply (Hin q sq); [done|]. by rewrite Hq.
Qed.

Lemma update_turns_ok ps0 n : forall k a,
  0 <= k -> service_sort_ a = ps0 -> NoDup ps0 ->
  (forall p, p ∈ ps0 -> exists s, services a !! p = Some s /\ is_u64 (interval_ s) /\ counts k s) ->
  exists turns a', update_turns n a = Some (turns, a') /\ length turns = n /\
    forall i ps, turns !! i = Some ps -> ps `sublist_of` ps0 /\
      forall p s, services a !! p = Some s -> p ∈ ps0 -> p ∈ ps <-> due (k + Z.of_nat i + 1) s = true.
Proof.
  induction n as [|n IH]; intros k a Hk Ep Hnd Hs; cbn [update_turns]; [by exists [], a|].
  unfold update_turn. rewrite Ep. destruct (collect_updates_ok k ps0 (services a) Hk Hnd Hs) as (m & -> & _ & Hin).
  cbn [mbind option_bind]. set (a1 := App _ _ m _).
  destruct (IH (k + 1) a1) as (turns & a' & -> & Hlen & Ht); [lia|done..| |].
  { intros p Hp. destruct (Hs p Hp) as (s & Hsp & Hw & _). destruct (Hin p s Hp Hsp) as (s' & Hs' & Ei & Hc). exists s'.
    split; [done|]. by rewrite Ei. }
  cbn [mbind option_bind]. eexists _, a'. split; [done|]. split; [cbn; by f_equal|]. intros [|i] ps; cbn.
  - intros [= <-]. split; [apply sublist_filter|]. intros p s Hsp Hp. rewrite list_elem_of_filter. unfold due_at. rewrite Hsp, Z.add_0_r.
    split; [by intros [? _]|done].
  - intros Hi. destruct (Ht i ps Hi) as [Hsub Hdue]. split; [done|]. intros p s Hsp Hp.
    destruct (Hin p s Hp Hsp) as (s' & Hs' & Ei & _). rewrite (Hdue p s' Hs' Hp). unfold due. rewrite Ei. do 4 f_equiv. lia.
Qed.

(** * Properties of the services *)

Definition sorts : Prop :=
  forall key ps, sort_by key ps ≡ₚ ps /\ Sorted (fun p q => key p <= key q) (sort_by key ps).

Lemma load_services_ok root l a :
  sorts -> loader_ok service_api l -> load_services service_load service_api create sort_by root (app_new l) = (a, None) ->
  application_ok a /\ Sorted (fun p q => order_of a p <= order_of a q) (service_sort_ a) /\
  loaded a ≡ₚ omap described (default [] (find_array (str "services") root)).
Proof.
  intros Hsort Hl. unfold load_services. pose proof (app_new_ok l Hl) as Ha.
  destruct (find_array (str "services") root) as [[|v values]|]; cbn [default]; try (intros [= <-]; by split_and!).
  destruct (load_each _ _ _ (v :: values) _) as [a1 e] eqn:E. destruct e; [done|]. intros [= <-].
  destruct (load_each_ok _ _ _ Ha E) as [[A1 A2 A3 A4 A7 A5 A6] El].
  destruct (Hsort (order_of a1) (service_sort_ a1)) as [Hp Hs]. split; [|split; [exact Hs|]].
  - split; cbn; try done; [by rewrite Hp|]. intros p. by rewrite Hp.
  - unfold loaded. cbn. rewrite Hp. unfold loaded in El. by rewrite El.
Qed.

(** The numbers of the services differ. *)
Lemma ids_distinct a : application_ok a -> NoDup (d_id <$> loaded a).
Proof.
  intros [A1 A2 A3 _ _ _ _]. unfold loaded. assert (forall p, p ∈ service_sort_ a -> is_Some (services a !! p)) as Hs by (intros p; apply A3).
  clear A3. induction (service_sort_ a) as [|p ps IH]; cbn; [constructor|]. apply list.NoDup_cons in A2 as [Hp A2].
  destruct (Hs p (list_elem_of_here _ _)) as [s Esp]. rewrite Esp. cbn. constructor.
  - intros (d & Ed & (q & Hq & Hd)%list_elem_of_omap)%list_elem_of_fmap. apply fmap_Some in Hd as (s' & Hs' & ->). cbn in Ed.
    apply Hp. enough (p = q) as -> by done. assert (service_map_ a !! id_ s = Some p) as E1 by (apply A1; by exists s).
    assert (service_map_ a !! id_ s = Some q) as E2 by (apply A1; by exists s'). congruence.
  - apply IH; [done|]. intros q Hq. apply Hs. by apply list_elem_of_further.
Qed.

(** C14: when [load_services] does not throw, every complete entry of the array
    [services] became one service with what the entry says, a pointer to it is
    in both tables, the numbers differ after their conversion to 16 bits, and
    the services are sorted by their order. *)
Theorem services_loaded_sorted root l a (Hsort : sorts) (Hl : loader_ok service_api l)
    (Hload : load_services service_load service_api create sort_by root (app_new l) = (a, None)) :
  let ds := omap described (default [] (find_array (str "services") root)) in
  loaded a ≡ₚ ds /\ NoDup (d_id <$> ds) /\ NoDup (service_sort_ a) /\
  (forall p, p ∈ service_sort_ a <-> is_Some (services a !! p)) /\
  (forall id p, service_map_ a !! id = Some p <-> exists s, services a !! p = Some s /\ id_ s = id) /\
  Sorted (fun p q => order_of a p <= order_of a q) (service_sort_ a).
Proof.
  destruct (load_services_ok root l a Hsort Hl Hload) as (Ha & Hs & Hd). cbn zeta. pose proof (ids_distinct a Ha) as Hnd.
  rewrite Hd in Hnd. destruct Ha. by split_and!.
Qed.

(** C15: a loaded service with interval [k] is updated in every [k]-th turn of
    [update_frame] and in no other, one without an interval never; a turn
    updates the services in their order. *)
Theorem updates_per_interval root l a (n : nat) (Hsort : sorts) (Hl : loader_ok service_api l)
    (Hload : load_services service_load service_api create sort_by root (app_new l) = (a, None)) :
  exists turns a', update_turns n a = Some (turns, a') /\ length turns = n /\
    forall i ps, turns !! i = Some ps -> ps `sublist_of` service_sort_ a /\
      forall p s, services a !! p = Some s -> p ∈ ps <-> interval_ s <> 0 /\ (Z.of_nat i + 1) mod interval_ s = 0.
Proof.
  destruct (load_services_ok root l a Hsort Hl Hload) as ([_ A2 A3 A4 A7 _ _] & _).
  destruct (update_turns_ok (service_sort_ a) n 0 a) as (turns & a' & E & Hlen & Ht); [lia|done..| |].
  { intros p [s Hs]%A3. exists s. split; [done|]. split; [by apply (A4 p)|]. unfold counts. rewrite (A7 p s Hs). by case_match. }
  exists turns, a'. split; [done|]. split; [done|]. intros i ps Hi. destruct (Ht i ps Hi) as [Hsub Hdue]. split; [done|].
  intros p s Hs. rewrite (Hdue p s Hs) by (apply A3; by eexists). unfold due. rewrite Z.add_0_l, andb_true_iff, negb_true_iff, Z.eqb_eq, Z.eqb_neq. done.
Qed.

(** At the end every service is released once, in the order of the services,
    with the function of the library that made it. *)
Theorem services_released root l a (Hsort : sorts) (Hl : loader_ok service_api l)
    (Hload : load_services service_load service_api create sort_by root (app_new l) = (a, None)) :
  exists a' released, release_services service_load service_api a = Some (a', released, None) /\
    released.*2 = service_sort_ a /\ services a' = ∅ /\
    forall r p, (r, p) ∈ released -> exists s d, services a !! p = Some s /\ service_dll_map_ (loader a) !! type_ s = Some d /\
      service_api (handle_ d) (release_name (type_ s)) = Some r.
Proof.
  destruct (load_services_ok root l a Hsort Hl Hload) as ([_ A2 A3 _ _ A5 A6] & _).
  assert (forall p, p ∈ service_sort_ a -> exists s d, services a !! p = Some s /\ service_dll_map_ (loader a) !! type_ s = Some d) as Hps.
  { intros p [s Hs]%A3. destruct (A6 p s Hs) as [d Hd]. by exists s, d. }
  destruct (release_each_ok (service_sort_ a) a Hps A2) as (a' & E & El & Ha').
  unfold release_services. rewrite E. cbn. eexists _, _. split; [done|]. split; [|split].
  - clear - Hps. induction (service_sort_ a) as [|p ps IH]; cbn; [done|].
    destruct (Hps p (list_elem_of_here _ _)) as (s & d & Hs & Hd). unfold release_of at 1. rewrite Hs. cbn. rewrite Hd. cbn. f_equal.
    apply IH. intros q Hq. apply Hps. by apply list_elem_of_further.
  - cbn. apply map_eq. intros p. rewrite Ha', lookup_empty. case_decide as Hp; [done|]. apply eq_None_not_Some. by rewrite <- A3.
  - intros r p (q & Hq & Hr)%list_elem_of_omap. unfold release_of in Hr. destruct (services a !! q) as [s|] eqn:Hs; [|done]. cbn in Hr.
    destruct (service_dll_map_ (loader a) !! type_ s) as [d|] eqn:Hd; [|done]. cbn in Hr. injection Hr as <- <-. exists s, d.
    split; [done|]. split; [done|]. by apply (A5 _ _ Hd).
Qed.

(** ** Errors *)

Definition entry_id (v : toml) : option Z :=
  match v with
  | toml_table config => _ ← find_string (str "name") config; n ← find_integer (str "id") config; Some (u16 n)
  | _ => None
  end.

Lemma query_error name (l l' : service_loader handle symbol) e tr :
  query service_load service_api name l = (inr e, l', tr) -> e = load_failed \/ exists api, e = service_need api.
Proof.
  unfold query. destruct (service_dll_map_ l !! name); [done|]. destruct (load_first _ _ _) as [h|]; [|intros [= <- _ _]; by left].
  destruct (service_api h (create_name name)), (service_api h (release_name name)); intros [= <- _ _]; right; by eexists.
Qed.

Lemma load_each_repeated values id : forall a a',
  application_ok a -> load_each service_load service_api create values a = (a', Some (service_repeated id)) ->
  exists pre v rest, values = pre ++ v :: rest /\ entry_id v = Some id /\ id ∈ d_id <$> (loaded a ++ omap described pre).
Proof.
  induction values as [|v values IH]; intros a a' Ha; cbn [load_each]; [done|].
  destruct (load_service _ _ _ v a) as [a1 e] eqn:E. destruct e as [e|].
  - intros [= _ ->]. exists [], v, values. split; [done|]. cbn [omap list_omap]. rewrite app_nil_r. unfold load_service in E. destruct v as [| | | |config]; try done. cbn [entry_id].
    destruct (find_string (str "name") config); [|done]. destruct (find_integer (str "id") config) as [n|]; [|done]. cbn [mbind option_bind].
    unfold contains_service in E. case_bool_decide as Hc.
    + injection E as _ <-. split; [done|]. destruct Hc as [p Hp]. apply (ap_map _ Ha) in Hp as (s & Hs & Ei).
      apply list_elem_of_fmap. exists (description_of s). split; [by rewrite <- Ei|]. apply list_elem_of_omap. exists p.
      rewrite Hs. split; [|done]. apply (ap_sort _ Ha). by eexists.
    + destruct (find_string (str "type") config); [|done]. destruct (query _ _ _ _) as [[[d|e] l1] tr] eqn:Eq; [done|].
      injection E as _ ->. apply query_error in Eq as [?|[? ?]]; done.
  - intros E'. destruct (load_service_ok v a a1 Ha E) as [Ha1 El1]. destruct (IH a1 a' Ha1 E') as (pre & v' & rest & -> & Hv & Hin).
    exists (v :: pre), v', rest. split; [done|]. split; [done|]. rewrite El1, <- app_assoc in Hin. cbn. by destruct (described v).
Qed.

(** [load_services] refuses a number only when an entry before has it. *)
Theorem repeated_service_refused root l a id (Hl : loader_ok service_api l)
    (Hload : load_services service_load service_api create sort_by root (app_new l) = (a, Some (service_repeated id))) :
  exists pre v rest, find_array (str "services") root = Some (pre ++ v :: rest) /\ entry_id v = Some id /\ id ∈ d_id <$> omap described pre.
Proof.
  unfold load_services in Hload. destruct (find_array (str "services") root) as [[|v values]|]; [done| |done].
  destruct (load_each _ _ _ (v :: values) _) as [a1 e] eqn:E. destruct e as [e|]; [|done]. injection Hload as _ ->.
  destruct (load_each_repeated _ id _ _ (app_new_ok l Hl) E) as (pre & v' & rest & -> & Hv & Hin). by exists pre, v', rest.
Qed.
End load_theory.

(** * Callbacks *)

Section callback_theory.
Context {callback : Type}.

Abbreviation callbacks := (gmap Z (gmap nat callback)).

Inductive callback_op := Register (id : Z) (service : nat) (f : callback) | Deregister (id : Z) (service : nat).

Definition callback_step (m : callbacks) (op : callback_op) : callbacks :=
  match op with
  | Register id s f => register_message_callback id s f m
  | Deregister id s => deregister_message_callback id s m
  end.

(** The abstract table: one callback for a message and a service. *)
Definition table_step (t : gmap (Z * nat) callback) (op : callback_op) : gmap (Z * nat) callback :=
  match op with
  | Register id s f => match t !! (id, s) with Some _ => t | None => <[(id, s) := f]> t end
  | Deregister id s => delete (id, s) t
  end.

(** No entry is empty, and the callbacks are those of the table. *)
Record implements (m : callbacks) (t : gmap (Z * nat) callback) : Prop := {
  im_full id inner : m !! id = Some inner -> inner <> ∅;
  im_same id s : (m !! id ≫= fun inner => inner !! s) = t !! (id, s) }.

Lemma register_implements m t id s f : implements m t -> implements (callback_step m (Register id s f)) (table_step t (Register id s f)).
Proof.
  intros [H1 H2]. cbn. unfold register_message_callback. set (inner := default ∅ (m !! id)).
  assert (forall s', inner !! s' = t !! (id, s')) as Hi.
  { intros s'. rewrite <- H2. unfold inner. destruct (m !! id); cbn; [done|apply lookup_empty]. }
  split.
  - intros id' inner' [[<- <-]|[_ Hx]]%lookup_insert_Some; [|by apply (H1 id')].
    destruct (inner !! s) as [g|] eqn:E; intros En; [rewrite En, lookup_empty in E; done|by apply insert_non_empty in En].
  - intros id' s'. destruct (decide (id = id')) as [<-|Hne].
    + rewrite lookup_insert_eq. cbn. rewrite <- (Hi s). destruct (inner !! s) as [g|] eqn:E; [apply Hi|].
      destruct (decide (s = s')) as [<-|Hs]; [by rewrite !lookup_insert_eq|]. rewrite !lookup_insert_ne by congruence. apply Hi.
    + rewrite lookup_insert_ne by done. rewrite H2. destruct (t !! (id, s)); [done|]. by rewrite lookup_insert_ne by congruence.
Qed.

Lemma deregister_implements m t id s : implements m t -> implements (callback_step m (Deregister id s)) (table_step t (Deregister id s)).
Proof.
  intros [H1 H2]. cbn. unfold deregister_message_callback. destruct (m !! id) as [inner|] eqn:E.
  2: { split; [done|]. intros id' s'. rewrite H2. destruct (decide ((id, s) = (id', s'))) as [[= <- <-]|Hne]; [|by rewrite lookup_delete_ne].
       rewrite lookup_delete_eq, <- H2. by rewrite E. }
  assert (forall s', inner !! s' = t !! (id, s')) as Hi by (intros s'; rewrite <- H2; by rewrite E).
  destruct (inner !! s) as [g|] eqn:Es.
  2: { split; [done|]. intros id' s'. rewrite H2. destruct (decide ((id, s) = (id', s'))) as [[= <- <-]|Hne]; [|by rewrite lookup_delete_ne].
       by rewrite lookup_delete_eq, <- Hi. }
  assert (forall id' s', id' <> id -> (m !! id' ≫= fun inner => inner !! s') = delete (id, s) t !! (id', s')) as Hother.
  { intros id' s' Hne. rewrite H2, lookup_delete_ne by congruence. done. }
  assert (forall s', delete s inner !! s' = delete (id, s) t !! (id, s')) as Hhere.
  { intros s'. destruct (decide (s = s')) as [<-|Hs]; [by rewrite !lookup_delete_eq|]. rewrite !lookup_delete_ne by congruence. apply Hi. }
  destruct (decide (delete s inner = ∅)) as [Ed|Ed]; split.
  - intros id' inner' [_ Hx]%lookup_delete_Some. by apply (H1 id').
  - intros id' s'. destruct (decide (id = id')) as [<-|Hne]; [|rewrite lookup_delete_ne by done; by apply Hother, not_eq_sym].
    rewrite lookup_delete_eq, <- Hhere, Ed. by rewrite lookup_empty.
  - intros id' inner' [[<- <-]|[_ Hx]]%lookup_insert_Some; [done|by apply (H1 id')].
  - intros id' s'. destruct (decide (id = id')) as [<-|Hne]; [by rewrite lookup_insert_eq, <- Hhere|].
    rewrite lookup_insert_ne by done. by apply Hother, not_eq_sym.
Qed.

(** After any registrations and deregistrations the callbacks are those of the
    abstract table, no message keeps an empty entry, and a message is handed to
    exactly the callbacks registered for it, to each once. *)
Theorem messages_forwarded (ops : list callback_op) (id : Z) (order : list nat) :
  let m := foldl callback_step ∅ ops in
  let t := foldl table_step ∅ ops in
  order ≡ₚ elements (dom (default ∅ (m !! id))) ->
  (forall id inner, m !! id = Some inner -> inner <> ∅) /\ NoDup (forward_message id order m).*1 /\
  forall s f, (s, f) ∈ forward_message id order m <-> t !! (id, s) = Some f.
Proof.
  intros m t Ho. assert (implements m t) as [H1 H2].
  { unfold m, t. assert (implements ∅ ∅) as H0.
    { split; [intros ? ?; by rewrite lookup_empty|]. intros ? ?. by rewrite !lookup_empty. }
    clear - H0. revert H0. generalize (∅ : callbacks) (∅ : gmap (Z * nat) callback).
    induction ops as [|op ops IH]; intros m t H; [done|]. cbn [foldl]. apply IH. destruct op; [by apply register_implements|by apply deregister_implements]. }
  split; [done|]. unfold forward_message. clearbody m t. specialize (H2 id). destruct (m !! id) as [inner|] eqn:E; cbn in *.
  - split.
    + assert (NoDup order) as Hnd by (rewrite Ho; apply NoDup_elements). clear - Hnd. induction Hnd as [|s l Hs _ IH]; cbn; [constructor|].
      destruct (inner !! s); [|done]. cbn. constructor; [|done]. intros ([s' f] & Es & (s2 & Hs2 & E)%list_elem_of_omap)%list_elem_of_fmap.
      cbn in Es. subst s'. destruct (inner !! s2); [|done]. cbn in E. by injection E as -> _.
    + intros s f. rewrite list_elem_of_omap, <- H2. split.
      * intros (s' & _ & Hs). destruct (inner !! s') eqn:Es; [|done]. cbn in Hs. by injection Hs as <- <-.
      * intros Hs. exists s. rewrite Hs. split; [|done]. rewrite Ho. apply elem_of_elements, elem_of_dom. by eexists.
  - split; [constructor|]. intros s f. rewrite <- H2. split; [by intros ?%elem_of_nil|done].
Qed.
End callback_theory.

(** ** Who is blamed

    [awake_services] starts the services together and waits until all have
    finished or one has failed; the others are then cancelled. *)

(** The results that [when_ready] returns, when it does. *)
Definition returned {T X : Type} (w : option (waiter T X)) : option (list (result T X)) :=
  match results <$> w with
  | Some [Returns ts] => mapM (fun t => match t with Finished r _ => Some r | _ => None end) ts
  | _ => None
  end.

(** The second service fails with 7, so the first one, which was still starting,
    ends with [canceled]: it is the one reported, and 7 is lost. *)
Example awake_blames_another (canceled : Z) :
  (rs ← returned (w ← await canceled (when_ready one_fail 2) None [Body None false; Body None false];
                  run w [Done 1 (Exception 7); Done 0 (Exception canceled)]);
   first_failure (T := unit) [10; 11]%nat rs) = Some (Some 10%nat, canceled).
Proof. reflexivity. Qed.

(** * Witnesses

    Three entries, of which the second is not complete; the library of a type
    is its name, its functions are pairs of the file and their name. *)

Definition demo_entry (name tp : bytes) (id order interval : Z) : toml :=
  toml_table [(str "name", toml_string name); (str "id", toml_integer id); (str "type", toml_string tp);
    (str "order", toml_integer order); (str "interval", toml_integer interval)].

Definition demo_root : table :=
  [(str "services", toml_array
    [demo_entry (str "proxy1") (str "proxy") 2 20 3; toml_integer 5; demo_entry (str "gate1") (str "gate") 1 10 0])].

Definition by_key (key : nat -> Z) (p q : nat) : Prop := key p <= key q.

#[export] Instance by_key_dec key p q : Decision (by_key key p q).
Proof. unfold by_key. apply _. Defined.

Definition demo_sort (key : nat -> Z) (ps : list nat) : list nat := merge_sort (by_key key) ps.

Lemma demo_sort_sorts : sorts demo_sort.
Proof.
  intros key ps. split; [apply merge_sort_Permutation|].
  assert (Total (by_key key)) by (intros p q; unfold by_key; lia). apply (Sorted_merge_sort (by_key key)).
Qed.

Definition demo_load (root : table) : application bytes (bytes * bytes) unit * option error :=
  load_services Some (fun h n => Some (h, n)) (fun _ _ => tt) demo_sort root (app_new loader_new).

Lemma demo_loader_ok : loader_ok (fun h n => Some (h, n)) (loader_new (handle := bytes) (symbol := bytes * bytes)).
Proof. intros name d H. cbn in H. by rewrite lookup_empty in H. Qed.

Lemma services_loaded_sorted_witness :
  exists a, demo_load demo_root = (a, None) /\ d_name <$> loaded a = [str "gate1"; str "proxy1"] /\ NoDup (service_sort_ a).
Proof.
  destruct (demo_load demo_root) as [a e] eqn:E.
  assert (e = None /\ d_name <$> loaded a = [str "gate1"; str "proxy1"]) as [-> Hn] by (vm_compute in E; injection E as <- <-; by vm_compute).
  exists a. split; [done|]. split; [done|].
  apply (services_loaded_sorted Some (fun h n => Some (h, n)) (fun _ _ => tt) demo_sort demo_root loader_new a demo_sort_sorts demo_loader_ok E).
Defined.

Lemma updates_per_interval_witness :
  exists a turns a', demo_load demo_root = (a, None) /\ update_turns 6 a = Some (turns, a') /\ (length <$> turns) = [0; 0; 1; 0; 0; 1]%nat.
Proof.
  destruct (demo_load demo_root) as [a e] eqn:E.
  assert (e = None /\ (fun r : list (list nat) * _ => length <$> r.1) <$> update_turns 6 a = Some [0; 0; 1; 0; 0; 1]%nat) as [-> Hl]
    by (vm_compute in E; injection E as <- <-; by vm_compute).
  destruct (updates_per_interval Some (fun h n => Some (h, n)) (fun _ _ => tt) demo_sort demo_root loader_new a 6 demo_sort_sorts demo_loader_ok E)
    as (turns & a' & Eu & _).
  exists a, turns, a'. split; [done|]. split; [done|]. rewrite Eu in Hl. by injection Hl.
Defined.

Lemma services_released_witness :
  exists a a' released, demo_load demo_root = (a, None) /\
    release_services Some (fun h n => Some (h, n)) a = Some (a', released, None) /\ released.*2 = service_sort_ a /\ services a' = ∅.
Proof.
  destruct (demo_load demo_root) as [a e] eqn:E. assert (e = None) as -> by (vm_compute in E; by injection E as <- <-).
  destruct (services_released Some (fun h n => Some (h, n)) (fun _ _ => tt) demo_sort demo_root loader_new a demo_sort_sorts demo_loader_ok E)
    as (a' & released & Er & Ep & Es & _).
  exists a, a', released. by split_and!.
Defined.

(** Numbers are cut to 16 bits: 65537 is the number 1. *)
Definition repeated_root : table :=
  [(str "services", toml_array [demo_entry (str "gate1") (str "gate") 1 10 0; demo_entry (str "gate2") (str "gate") 65537 10 0])].

Lemma repeated_service_refused_witness :
  exists a, demo_load repeated_root = (a, Some (service_repeated 1)) /\
    exists pre v rest, find_array (str "services") repeated_root = Some (pre ++ v :: rest) /\ entry_id v = Some 1 /\ 1 ∈ d_id <$> omap described pre.
Proof.
  destruct (demo_load repeated_root) as [a e] eqn:E. assert (e = Some (service_repeated 1)) as -> by (vm_compute in E; by injection E as <- <-).
  exists a. split; [done|].
  exact (repeated_service_refused Some (fun h n => Some (h, n)) (fun _ _ => tt) demo_sort repeated_root loader_new a 1 demo_loader_ok E).
Defined.

Lemma messages_forwarded_witness :
  let m := foldl callback_step ∅ [Register 5 1%nat 10; Register 5 2%nat 20; Register 5 1%nat 30; Deregister 5 2%nat] in
  (1%nat, 10) ∈ forward_message 5 [1%nat] m.
Proof.
  intros m.
  assert ([1%nat] ≡ₚ elements (dom (default ∅ (m !! 5)))) as Ho by (apply (bool_decide_unpack _); vm_compute; exact I).
  destruct (messages_forwarded [Register 5 1%nat 10; Register 5 2%nat 20; Register 5 1%nat 30; Deregister 5 2%nat] 5 [1%nat] Ho) as (_ & _ & H).
  apply H. vm_compute. reflexivity.
Defined.
